(* ===== verification/_CoqProject ===== *)
-Q . S2P
Prelude.v
MlsWire.v
TransactionReceipts.v
RoomModel.v
RoomValidation.v
RoomDelivery.v
RoomAuthority.v
RoomLifecycle.v
RoomMembership.v
RoomApplication.v
RoomSnapshot.v
RoomDemo.v
RoomSizes.v
RoomInvariant.v
RoomSweep.v
RoomUpdate.v
RoomApplicationFacts.v
RoomSnapshotFacts.v
RoomAcceptFacts.v
RoomReachable.v
RoomFanout.v
RoomRollback.v
RoomTheorems.v
RoomWitnesses.v
TransportWire.v
Invite.v
Records.v
TransportReader.v
RecordChannel.v
RecordTheorems.v
Control.v
AccountBootstrap.v
Attachment.v
AttachmentCodec.v
AttachmentStream.v
StreamFacts.v
StreamTheorems.v
Handshake.v
Bootstrap.v
TransportPadding.v
AttachmentAccess.v
AttachmentStore.v
AttachmentStoreFacts.v
AttachmentBlob.v
AttachmentBlobTheorems.v
AttachmentUpload.v
AttachmentEvolution.v
AttachmentTheorems.v
AttachmentActions.v
AttachmentReceipts.v
AttachmentReceive.v
AttachmentReceiveTheorems.v
AttachmentExecute.v
AttachmentDemo.v
RelayFrame.v
OutboundQueue.v
OutboundFacts.v
OutboundTheorems.v
RateLimit.v
Relay.v
MlsRelay.v
MlsDispatch.v
RelayFacts.v
MlsApplicationFacts.v
RelayRun.v
IdentityBundle.v
Release.v
Mailbox.v
IdentityState.v
DirectMessages.v
RelayDispatch.v
MailboxFacts.v
DirectFacts.v
DirectTheorems.v
MessengerRun.v
MlsTheorems.v
Accounts.v
AccountFacts.v
DirectDemo.v
AccountTheorems.v
