(* ===== verification/Prelude.v ===== *)
(** * Abyssal: a verification development of the relay and its transport

    Abyssal is an end-to-end encrypted messenger.  Its relay (mirage-server)
    never sees plaintext: it keeps room rosters, queues ciphertexts for members
    and forgets them.  Clients reach it over an authenticated, padded transport
    (abyssal-transport).  This library models both in Rocq and proves what
    makes them correct.  Rust functions become Rocq functions of the same name;
    a method that takes [&mut self] becomes a function [ST state error result]
    from a state to a result and a state, so that an error path keeps exactly
    the changes the code made before it returned; [Result] is [result], machine
    integers are [Z] with their checked, saturating or wrapping operation
    written out, [HashMap] is [gmap], [VecDeque] and [Vec] are [list].

    ** Parts and files

    Shared: Prelude.v (this file) has notations, the [result] and [ST] monads,
    integer and list lemmas, [map_sum] and the tactics every file uses;
    TransportWire.v opens with bytes, big-endian integers, slices and UTF-8.

    The room authority (src/mirage-server/src/rooms.rs and rooms/):
    - RoomModel.v: limits, records and enums of rooms.rs, rooms/model.rs,
      rooms/policy.rs, client_platform.rs;
    - RoomValidation.v: rooms/validation.rs;
    - RoomDelivery.v: rooms/delivery.rs;
    - RoomAuthority.v: accounting, replay trimming and the expiry sweep of
      rooms.rs; RoomLifecycle.v: creation, queries, deletion and wipe;
    - RoomMembership.v: rooms/membership.rs;
    - RoomApplication.v: rooms/application.rs;
    - RoomSnapshot.v: rooms/snapshot.rs.
    RoomSizes, RoomInvariant, RoomSweep, RoomUpdate,
    RoomApplicationFacts, RoomSnapshotFacts, RoomAcceptFacts carry the invariant
    [authority_ok] through each operation; RoomReachable closes it under every
    sequence of operations [Op] and says what an operation leaves alone;
    RoomFanout says what it queues, RoomRollback what a commit or a rollback
    leaves for later operations.  RoomDemo is a concrete scenario and runs
    three defects, RoomWitnesses applies the theorems to it.

    Around the authority: TransactionReceipts.v (transaction_receipts.rs) is the
    idempotency ledger of the frame handlers, MlsWire.v (mls_wire.rs) the
    canonical decimal counters, TransportPadding.v (transport_padding.rs) the
    padding of control frames to size buckets.

    The transport (src/abyssal-transport/src/):
    - TransportWire.v: lib.rs and key_schedule.rs;
    - Records.v: records.rs; RecordChannel gives the exact meaning of sealing
      and opening, the network and the queue;
    - TransportReader.v: the bounds-checked [Reader] the codecs share;
    - Control.v: control.rs; AccountBootstrap.v: account_bootstrap.rs;
    - Attachment.v, AttachmentCodec.v: layout and codec of attachment.rs;
      AttachmentStream.v: its stream sealer and opener; StreamFacts,
      StreamTheorems: the stream as a state machine;
    - Handshake.v: handshake.rs; Bootstrap.v: bootstrap.rs.

    Attachments (src/mirage-server/src/ and src/rust-core/src/):
    - AttachmentBlob.v: the client's chunked encryption (secure_protocol.rs) and
      the relay's reading of a blob; AttachmentBlobTheorems;
    - AttachmentAccess.v: access to conversations, recipients and lifetimes
      (attachments.rs); AttachmentStore.v: the registry of attachments.rs, its
      records, bindings and usage, with every operation on them;
    - AttachmentUpload.v, AttachmentActions.v: commit_upload, admit_upload,
      begin_download and execute_command (attachment_transport_actions.rs);
    - AttachmentReceive.v: the stream loops of attachment_stream.rs;
    - AttachmentReceipts.v: the receipts of attachment_transport.rs;
    - AttachmentExecute.v: authentication and execution of a request there,
      composed from all of the above.
    AttachmentStoreFacts carries the invariant [store_ok] through each
    operation, AttachmentEvolution says what may happen to one
    record and what the clock alone may take out ([swept]), AttachmentTheorems closes both under every sequence of operations
    [attachment_step].  AttachmentDemo is a concrete run and applies the
    theorems.

    The relay around them (src/mirage-server/src/main.rs, mls.rs, transport.rs,
    auth.rs, messages.rs):
    - RelayFrame.v: the outbound frames, their padding and serialization;
    - OutboundQueue.v: the queues of the connected clients, the stage of a new
      connection and the writer task, which empties its channel and drops its
      receiver in two steps; OutboundFacts carries [outbound_ok] through each
      operation, with what was lost between those two steps, OutboundTheorems
      closes it under every interleaving [queue_op] and has a concrete run of that
      race;
    - RateLimit.v: the inbound limiter and its bound;
    - Relay.v: the shared state and the [Handler] monad on it, with clients,
      base64 fields and presence; MlsRelay.v: the handlers of mls.rs;
      MlsDispatch.v: the room arms of [handle_frame], their recoverable
      transactions and the bookkeeping of ended connections.
    RelayFacts shows that every room frame moves the three stores only by their
    own operations ([relay_ok]); MlsApplicationFacts and MlsTheorems follow one
    application frame through all of them; RelayRun closes the relay under every
    interleaving [relay_step] and says how long a receipt decides.  MlsTheorems
    ends with a concrete run that applies these theorems.

    Direct messages (src/mirage-server/src/messages.rs, main.rs, auth.rs and
    src/rust-core/src/secure_protocol.rs):
    - IdentityBundle.v: public identities, their prekey pools and the signed
      transcripts of messages, acknowledgements and identity states;
    - IdentityState.v: the acceptance of identity states, their revisions and
      the 128-bit window of used ones;
    - Mailbox.v: the waiting frames and their byte count, prekey leases and
      message identifiers, with expiry, preflight, commit and rollback;
    - DirectMessages.v: the state [Messenger] of the whole relay, the monad
      [Task] on it and the handlers of messages.rs;
    - RelayDispatch.v: [handle_frame] with all its arms, conversations, the wipe
      and the inactivity watcher.
    MailboxFacts carries the accounting [pending_ok] through the mailbox,
    DirectFacts the invariant [mailbox_ok] through the handlers and says what the
    clock alone may take out of the mailbox ([tidied]); DirectTheorems says what a
    post, an acknowledgement and a lease do, and that a refusal is [quiet]: only
    the readings of the clock it took have an effect.  MessengerRun closes the
    relay under every interleaving [messenger_step], of which those of RelayRun
    are a part, and shows that a transactional frame runs once.  DirectDemo is a conversation of two clients that applies the
    theorems and runs one defect.

    Accounts (src/mirage-server/src/auth.rs, bootstrap_auth.rs, control.rs,
    account_identifiers.rs, relay_bootstrap.rs, main.rs, transport.rs):
    - Accounts.v: the state [Portal] of the whole relay with its invites,
      handshakes, tickets and login limiter, the monad [Action] on it, and every
      operation on them: registration and login over HTTP and over the sealed
      transport, sessions, tickets, logout, sweeps, connections and the wipe.
    AccountFacts shows what frames and operations leave alone ([calm],
    [evolves]) and carries the agreement [auth_ok] of these stores along;
    AccountTheorems follows each operation with Hoare triples [ensures], closes
    the relay under every interleaving [portal_step] of requests, frames and
    background work, and applies the theorems to the redemption of an invite.

    Releases and nodes:
    - Release.v: the release manifests and build identifiers of
      src/rust-core/src/release_provenance.rs, and the admission of builds and the
      mirror of src/mirage-server/src/release_admission.rs, with the relation
      [refreshed] of one refresh under any answers of the network; the start of a
      login or registration in Accounts.v asks its [admit_build];
    - Invite.v: the signed node descriptors and the locator selection of
      src/abyssal-invite/src/descriptor.rs and locator.rs.
    Both end with their theorems and a concrete run.

    ** What the theorems show

    - Rooms (RoomTheorems, RoomRollback): in
      every state that any sequence of calls reaches, refused calls included,
      rooms are well formed and within every limit, and the incremental counters
      are the totals they stand for; epochs move by one and only through the
      owner; an accepted transition changes one member and reaches every
      member's queue once; an admitted application reaches exactly the other
      active members; a snapshot retires exactly a prefix; a committed message
      is not admitted again in its replay window, as long as the bounded store of
      identifiers has not had to forget it; rolling back restores the authority,
      in a room whose queues are compact and hold nothing else under that
      identifier.
    - Receipts: an executed transaction is not executed again and its outcome is
      replayed; the store is bounded.
    - Records: an opener accepts exactly what the sealer in the same state
      produces; two ends refine a first-in-first-out queue over a network that
      drops, repeats, reorders and replaces records, and never wedge.
    - Streams: what an opener accepts is a prefix of what was sealed, a
      completed opener has the whole content, and every allowed content goes
      through.
    - Codecs, hellos, padding, counters: the decoder accepts exactly the
      encoder's outputs, for the same value.
    - Attachments: whatever the relay did, bindings, accounting and limits are
      exact; a download goes only to those the record names and a destructive
      one once to each; an accepted upload is staged for exactly the recipients
      of its conversation, within every lifetime that applies; rolling back a
      publication restores the registry; a body is accepted, however it is cut
      into chunks, exactly when it is one complete sealed stream, so that the
      staged blob is the one the client sealed; a request handle is worked on
      once; sealing a blob and opening it are exact inverses.
    - The relay: over every interleaving of frames, connections, writer steps and
      requests the three stores stay well formed; an application frame is all or
      nothing across them, with what a rollback may leave behind stated exactly,
      and reaches the queues of the other active members only; a transactional
      frame is run once and then answered with that outcome from its receipt, until
      a wipe; what is queued for a client is counted exactly, but for a frame lost
      with the receiver of a writer that ends, bounded, and never dropped in
      silence; a connection's inbound rate is bounded.
    - Direct messages: a refusal loses nothing before its time; a post is all or
      nothing and reaches exactly the other parties, signed for each; what the preflight plans is what the commit does
      and the rollback undoes; an acknowledgement takes out one frame and its
      lease; a leased key belongs to one message; a revision of an identity state
      is used once; a signature is about one statement; over every interleaving
      of all frames the waiting bytes are counted exactly and every limit holds;
      after a wipe nothing is left and nothing comes back.
    - Accounts: over every interleaving the whole relay stays well formed, no
      code is an invite and an account, names are unique, and an account has at
      most one session, which has at most one ticket; nobody is logged in
      without a proof that is checked against what the relay stored less than a
      minute before and that is used once; an invite is redeemed at most once and
      accounts are permanent until a wipe, after which there are none; a ticket
      opens one connection; a proven login succeeds.
    - Releases: a manifest is accepted exactly when it meets the whole policy and
      is signed; a build is admitted exactly when it is a current, unrevoked build
      of an installed manifest, signed by the release key; an installed manifest
      is only replaced by one with a greater number.
    - Node descriptors: the bytes an invite's holder accepts are exactly the
      canonical encodings of descriptors its node signed, in one version only, and
      a descriptor the node publishes is accepted.
    - Handshake and bootstrap: the exchange gives the two ends the same keys, each
      sealing with what the other opens with, and an accepted bootstrap request is refused until its replay window has passed.

    ** Parameters

    Code of other crates is a class of operations, with the behaviour its
    documentation promises in a class of laws, and a concrete instance under
    which every theorem with such a hypothesis is applied once: [Aead]
    (ChaCha20-Poly1305 and XChaCha20-Poly1305: decryption inverts encryption and
    nothing else decrypts), [Hkdf] (output
    length), [Entropy] and [OsRng] (output length), [Hpke] (both ends of an
    exchange agree), [SerdeJson] (parsing an object with members appended),
    [HashOrder] (the iteration order of a HashMap is some permutation of its
    entries), [Base64] (decoding inverts encoding), [RelayEnv] (the clock, the
    configuration and the delivery of results), [Keys] (Ed25519 verification and
    the Curve25519 check of vodozemac, without laws), [Draws] (the padding drawn
    for each frame), [ClientJson] (the parser of inbound frames, without laws),
    [DirectIds] (the identifier of a new conversation, without laws),
    [OpaqueSuite] (the four calls into opaque-ke, without laws), [AuthEnv]
    (HMAC-SHA256, the configuration, the manifest installed and what is drawn at
    each tick, without laws), [ReleaseEnv] (serde_json on manifests and on the
    answers of the release API, the url crate and Ed25519, without laws),
    [InviteFormat] (the CBOR, locators and signatures of invite-capsule, with the
    laws [InviteFormatLaws]: what was encoded is decoded and leaves the rest, and
    a signature verifies under its key) and SHA-256 as a function.  The laws say that the ciphers are
    functionally correct and unforgeable as functions; secrecy is not stated.
    A reading of the clock, of the epoch counter or of
    the session table, a permit of a semaphore and a drawn identifier are
    arguments of the operation; where code releases its locks in the middle,
    the model is cut there and the rest runs on whatever state it finds.

    ** Bounds and fuel

    [trim_loop] runs on fuel, the number of stored replay identifiers;
    [RoomTheorems.trimming_terminates] shows that this is enough and that more
    changes nothing.  [to_digits] prints with 20 digits, enough for a [u64].
    [receive_bytes] and [chunks_of] run on the length of their input, of which
    each turn takes at least a byte;
    [upload_stream_exact] and [blob_stream_roundtrip] show that they finish.
    [insert_download_claim] is [None] while every drawn identifier was taken, and
    [draw_ticket] while every drawn ticket is held: the loops go on drawing.
    The binary search [search_loop] runs on the length of its list, of which each
    turn leaves half, rounded up; [binary_search_spec] shows that it finds exactly
    the elements of a sorted list.
    All other recursion is structural.

    ** Not modelled

    Sockets, HTTP routing, timers and configuration (main.rs, http.rs,
    config.rs), the receipts and workers of the bootstrap and control endpoints
    (relay_bootstrap.rs, control.rs) and the request loop of
    attachment_transport.rs: I/O around the modelled operations.  The older
    HTTP handlers of attachments.rs wrap the modelled registry.  Invite capsules
    and their texts (capsule.rs, text.rs of abyssal-invite) are conversions to the
    crate invite-capsule, which has their format.  The client library beside its
    attachment encryption, signatures and release checks (rust-core) drives
    OpenMLS and bindings.  The
    release tool and the Android and web clients are not part of the relay.  The
    functions of messages.rs and main.rs that are compiled for tests only or
    marked dead (create_room, delete_room) are left out.  Dropping a value only
    zeroizes memory and has no functional effect. *)

From stdpp Require Export gmap strings list sorting fin_maps.
From Stdlib Require Export ZArith Lia.
From Stdlib Require Strings.Byte.

#[global] Set Default Goal Selector "!".

Declare Scope relay_scope.
Delimit Scope relay_scope with relay.
#[global] Open Scope relay_scope.
#[global] Open Scope Z_scope.

(** ** Bytes, strings and lengths *)

Abbreviation byte := Byte.byte.

#[export] Instance byte_eq_dec : EqDecision byte := Byte.byte_eq_dec.
#[export] Instance byte_countable : Countable byte :=
  inj_countable Byte.to_N Byte.of_N Byte.of_to_N.

(** [Vec<u8>] and [&[u8]]. *)
Abbreviation bytes := (list byte).

(** [slice.len()] and [str.len()] (bytes, not characters). *)
Definition len {A} (l : list A) : Z := Z.of_nat (length l).
Definition slen (s : string) : Z := Z.of_nat (String.length s).

Lemma len_nonneg {A} (l : list A) : 0 ≤ len l.
Proof. unfold len. lia. Qed.
Lemma slen_nonneg s : 0 ≤ slen s.
Proof. unfold slen. lia. Qed.
Lemma len_nil {A} : len (@nil A) = 0.
Proof. done. Qed.
Lemma len_cons {A} (x : A) l : len (x :: l) = 1 + len l.
Proof. unfold len. simpl. lia. Qed.
Lemma len_app {A} (l k : list A) : len (l ++ k) = len l + len k.
Proof. unfold len. rewrite length_app. lia. Qed.
Lemma len_fmap {A B} (f : A → B) l : len (f <$> l) = len l.
Proof. unfold len. by rewrite length_fmap. Qed.

Lemma list_filter_id {A} (P : A → Prop) `{!∀ x, Decision (P x)} (l : list A) :
  Forall P l → filter P l = l.
Proof. induction 1; [done|]. rewrite filter_cons_True by done. by f_equal. Qed.

Lemma list_filter_none {A} (P : A → Prop) `{!∀ x, Decision (P x)} (l : list A) :
  Forall (λ x, ¬ P x) l → filter P l = [].
Proof. induction 1; [done|]. by rewrite filter_cons_False. Qed.

(** A character of a Rust [str] as its byte value. *)
Definition ascii_code (c : Ascii.ascii) : Z := Z.of_N (Ascii.N_of_ascii c).
Definition ascii_of_code (z : Z) : Ascii.ascii := Ascii.ascii_of_N (Z.to_N z).

Lemma ascii_code_of_code z : 0 ≤ z < 256 → ascii_code (ascii_of_code z) = z.
Proof.
  intros. unfold ascii_code, ascii_of_code.
  rewrite Ascii.N_ascii_embedding by lia. lia.
Qed.
Lemma ascii_of_code_code c : ascii_of_code (ascii_code c) = c.
Proof.
  unfold ascii_code, ascii_of_code. rewrite N2Z.id. apply Ascii.ascii_N_embedding.
Qed.

(** ** Machine integers of the 64-bit target *)

Definition u64_MAX : Z := 18446744073709551615.
Definition usize_MAX : Z := 18446744073709551615.
Definition u16_MAX : Z := 65535.

(** [checked_add] at the width whose maximum is [m]; [checked_sub] on an
    unsigned type; the saturating versions. *)
Definition checked_add (m a b : Z) : option Z :=
  if decide (a + b ≤ m) then Some (a + b) else None.
Definition checked_mul (m a b : Z) : option Z :=
  if decide (a * b ≤ m) then Some (a * b) else None.
Definition checked_sub (a b : Z) : option Z :=
  if decide (b ≤ a) then Some (a - b) else None.
Definition saturating_add (m a b : Z) : Z := Z.min m (a + b).
Definition saturating_sub (a b : Z) : Z := Z.max 0 (a - b).

(** [since] lies [age] or more before one of the readings of the clock [T]. *)
Definition aged (T : Z → Prop) (age since : Z) : Prop :=
  ∃ now, T now ∧ age ≤ saturating_sub now since.
Lemma aged_mono T T' age since : (∀ now, T now → T' now) → aged T age since → aged T' age since.
Proof. intros HT (now & H & Ha). exists now. auto. Qed.

Lemma checked_add_Some m a b c :
  checked_add m a b = Some c ↔ a + b ≤ m ∧ c = a + b.
Proof. unfold checked_add. case_decide; naive_solver. Qed.
Lemma checked_add_None m a b : checked_add m a b = None ↔ m < a + b.
Proof. unfold checked_add. case_decide; naive_solver lia. Qed.
Lemma checked_add_ok m a b : a + b ≤ m → checked_add m a b = Some (a + b).
Proof. intros. by apply checked_add_Some. Qed.
Lemma checked_sub_Some a b c : checked_sub a b = Some c ↔ b ≤ a ∧ c = a - b.
Proof. unfold checked_sub. case_decide; naive_solver. Qed.
Lemma checked_sub_ok a b : b ≤ a → checked_sub a b = Some (a - b).
Proof. intros. by apply checked_sub_Some. Qed.
Lemma checked_mul_Some m a b c :
  checked_mul m a b = Some c ↔ a * b ≤ m ∧ c = a * b.
Proof. unfold checked_mul. case_decide; naive_solver. Qed.

(** [Option::is_none_or(|v| v > limit)]: the budget test of the relay. *)
Definition over_budget (o : option Z) (limit : Z) : bool :=
  match o with None => true | Some v => bool_decide (limit < v) end.

Lemma over_budget_false o limit :
  over_budget o limit = false ↔ ∃ v, o = Some v ∧ v ≤ limit.
Proof.
  destruct o as [v|]; simpl; [|naive_solver].
  rewrite bool_decide_eq_false. naive_solver lia.
Qed.

(** ** Results and stateful computations *)

Inductive result (E A : Type) : Type :=
| Ok (a : A)
| Err (e : E).
Arguments Ok {E A} a.
Arguments Err {E A} e.

#[export] Instance result_eq_dec {E A} `{EqDecision E, EqDecision A} :
  EqDecision (result E A).
Proof. solve_decision. Defined.

#[export] Instance result_ret {E} : MRet (result E) := λ _ a, Ok a.
#[export] Instance result_bind {E} : MBind (result E) := λ A B f r,
  match r with Ok a => f a | Err e => Err e end.
#[export] Instance result_fmap {E} : FMap (result E) := λ A B f r,
  match r with Ok a => Ok (f a) | Err e => Err e end.

(** [option.ok_or(e)] and [if cond { return Err(e) }]. *)
Definition ok_or {E A} (o : option A) (e : E) : result E A :=
  match o with Some a => Ok a | None => Err e end.
Definition reject_if {E} (b : bool) (e : E) : result E () :=
  if b then Err e else Ok tt.
Definition is_ok {E A} (r : result E A) : bool :=
  match r with Ok _ => true | Err _ => false end.
Definition ok {E A} (r : result E A) : option A :=
  match r with Ok a => Some a | Err _ => None end.

Lemma bind_Ok {E A B} (r : result E A) (f : A → result E B) b :
  (r ≫= f) = Ok b ↔ ∃ a, r = Ok a ∧ f a = Ok b.
Proof. destruct r; simpl; naive_solver. Qed.
Lemma ok_or_Ok {E A} (o : option A) (e : E) a : ok_or o e = Ok a ↔ o = Some a.
Proof. destruct o; simpl; naive_solver. Qed.
Lemma reject_if_Ok {E} b (e : E) u : reject_if b e = Ok u ↔ b = false.
Proof. destruct b, u; simpl; naive_solver. Qed.
Lemma is_ok_Ok {E A} (r : result E A) : is_ok r = true ↔ ∃ a, r = Ok a.
Proof. destruct r; naive_solver. Qed.

(** A method with receiver [&mut self] that returns [Result<A, E>]: the
    state it leaves is part of the outcome on the error path too. *)
Definition ST (S E A : Type) : Type := S → result E A * S.

#[export] Instance ST_ret {S E} : MRet (ST S E) := λ _ a s, (Ok a, s).
#[export] Instance ST_bind {S E} : MBind (ST S E) := λ A B f m s,
  match m s with
  | (Ok a, s') => f a s'
  | (Err e, s') => (Err e, s')
  end.

Definition get {S E} : ST S E S := λ s, (Ok s, s).
Definition put {S E} (s : S) : ST S E () := λ _, (Ok tt, s).
Definition modify {S E} (f : S → S) : ST S E () := λ s, (Ok tt, f s).
Definition lift {S E A} (r : result E A) : ST S E A := λ s, (r, s).

Lemma ST_bind_Ok {S E A B} (m : ST S E A) (k : A → ST S E B) s b s' :
  (m ≫= k) s = (Ok b, s') ↔ ∃ a s1, m s = (Ok a, s1) ∧ k a s1 = (Ok b, s').
Proof.
  unfold mbind, ST_bind. split.
  - destruct (m s) as [[a|e] s1]; intros; simplify_eq; eauto.
  - by intros (a & s1 & -> & ?).
Qed.

(** ** Sums, and the [try_fold(0, checked_add)] loops that compute them *)

Definition sumZ (l : list Z) : Z := foldr Z.add 0 l.

Lemma sumZ_cons x l : sumZ (x :: l) = x + sumZ l.
Proof. done. Qed.
Lemma sumZ_app l k : sumZ (l ++ k) = sumZ l + sumZ k.
Proof. unfold sumZ. induction l as [|x l IH]; simpl; lia. Qed.
Lemma sumZ_nonneg l : Forall (λ x, 0 ≤ x) l → 0 ≤ sumZ l.
Proof. unfold sumZ. induction 1; simpl; lia. Qed.
#[export] Instance sumZ_proper : Proper ((≡ₚ) ==> (=)) sumZ.
Proof. unfold sumZ. intros l k H. induction H; simpl; lia. Qed.
Lemma sumZ_fmap_nonneg {A} (f : A → Z) l : (∀ x, 0 ≤ f x) → 0 ≤ sumZ (f <$> l).
Proof. intros. apply sumZ_nonneg, Forall_fmap, Forall_true. done. Qed.

(** [iter.try_fold(acc, |t, x| t.checked_add(x?))]. *)
Definition try_sum_from (acc : Z) (l : list (option Z)) : option Z :=
  foldl (λ o x, t ← o; v ← x; checked_add usize_MAX t v) (Some acc) l.
Definition try_sum : list (option Z) → option Z := try_sum_from 0.
Definition checked_sum (l : list Z) : option Z := try_sum (Some <$> l).

(** [a.checked_add(b1).and_then(|t| t.checked_add(b2))...]. *)
Definition checked_add_all (a : Z) (l : list Z) : option Z :=
  try_sum_from a (Some <$> l).

Lemma foldl_try_sum_None (l : list (option Z)) :
  foldl (λ o x, t ← o; v ← x; checked_add usize_MAX t v) None l = None.
Proof. induction l; simpl; auto. Qed.

Lemma try_sum_from_Some acc l r :
  try_sum_from acc l = Some r → ∃ vs, l = Some <$> vs ∧ r = acc + sumZ vs.
Proof.
  unfold try_sum_from. revert acc. induction l as [|[x|] l IH]; intros acc; simpl.
  - intros [= <-]. exists []. split; [done|]. simpl. lia.
  - destruct (checked_add usize_MAX acc x) as [t|] eqn:E.
    + apply checked_add_Some in E as [_ ->]. intros (vs & -> & ->)%IH.
      exists (x :: vs). split; [done|]. unfold sumZ. simpl. lia.
    + by rewrite foldl_try_sum_None.
  - by rewrite foldl_try_sum_None.
Qed.

Lemma try_sum_from_ok acc vs :
  Forall (λ x, 0 ≤ x) vs → acc + sumZ vs ≤ usize_MAX →
  try_sum_from acc (Some <$> vs) = Some (acc + sumZ vs).
Proof.
  intros Hvs. unfold try_sum_from. revert acc.
  induction Hvs as [|x vs Hx Hvs IH]; intros acc Hle; simpl in *.
  - f_equal. lia.
  - pose proof (sumZ_nonneg _ Hvs) as Hs. unfold sumZ in *.
    rewrite checked_add_ok by (simpl; lia). rewrite IH by lia. f_equal. lia.
Qed.

Lemma checked_sum_Some l r : checked_sum l = Some r → r = sumZ l.
Proof.
  unfold checked_sum, try_sum. intros (vs & Hvs & ->)%try_sum_from_Some.
  apply (inj (fmap Some)) in Hvs as ->. lia.
Qed.

Lemma checked_add_all_Some a l r : checked_add_all a l = Some r → r = a + sumZ l.
Proof.
  intros (vs & Hvs & ->)%try_sum_from_Some. by apply (inj (fmap Some)) in Hvs as ->.
Qed.

Lemma try_sum_Some l r : try_sum l = Some r → ∃ vs, l = Some <$> vs ∧ r = sumZ vs.
Proof. intros (vs & ? & ->)%try_sum_from_Some. eauto. Qed.

Lemma checked_sum_ok l :
  Forall (λ x, 0 ≤ x) l → sumZ l ≤ usize_MAX → checked_sum l = Some (sumZ l).
Proof. intros. unfold checked_sum, try_sum. by rewrite try_sum_from_ok. Qed.

(** ** Maps: [HashMap] and [BTreeMap] *)

(** A [HashMap] iterates in an order the language leaves open.  The model
    takes the enumeration as an interface: every theorem holds for every
    order that lists exactly the entries of the map. *)
Class HashOrder : Type := {
  hash_iter : ∀ {K V : Type} `{Countable K}, gmap K V → list (K * V);
  hash_iter_perm : ∀ {K V : Type} `{Countable K} (m : gmap K V),
    hash_iter m ≡ₚ map_to_list m
}.

(** One such order, used by the concrete evaluations. *)
#[export, refine] Instance gmap_order : HashOrder | 100 :=
  {| hash_iter := λ K V _ _ m, map_to_list m |}.
Proof. done. Defined.

Section maps.
Context {HO : HashOrder} {K V : Type} `{Countable K}.
Implicit Types (m : gmap K V) (f : V → Z).

Definition hash_keys (m : gmap K V) : list K := (hash_iter m).*1.
Definition hash_values (m : gmap K V) : list V := (hash_iter m).*2.

(** [HashMap::contains_key], [HashMap::len], [HashMap::retain]. *)
Definition contains_key (k : K) (m : gmap K V) : bool :=
  match m !! k with Some _ => true | None => false end.
Definition map_len (m : gmap K V) : Z := Z.of_nat (size m).
Definition retain (keep : K → V → bool) (m : gmap K V) : gmap K V :=
  filter (λ kv, Is_true (keep kv.1 kv.2)) m.

(** [map.values().any(p)] and [map.values().all(p)]. *)
Definition any_value (p : V → bool) (m : gmap K V) : bool :=
  existsb p (hash_values m).

(** The exact total of [f] over the values, the reference of every
    accounting theorem. *)
Definition map_sum (f : V → Z) (m : gmap K V) : Z :=
  sumZ (f <$> (map_to_list m).*2).

Lemma elem_of_hash_values m v : v ∈ hash_values m ↔ ∃ k, m !! k = Some v.
Proof.
  unfold hash_values. rewrite hash_iter_perm, list_elem_of_fmap. split.
  - intros ([k v'] & -> & Hin). exists k. by apply elem_of_map_to_list.
  - intros [k Hk]. exists (k, v). split; [done|]. by apply elem_of_map_to_list.
Qed.

Lemma elem_of_hash_keys m k : k ∈ hash_keys m ↔ is_Some (m !! k).
Proof.
  unfold hash_keys. rewrite hash_iter_perm, list_elem_of_fmap. split.
  - intros ([k' v] & -> & Hin). exists v. by apply elem_of_map_to_list.
  - intros [v Hv]. exists (k, v). split; [done|]. by apply elem_of_map_to_list.
Qed.

Lemma NoDup_hash_keys m : NoDup (hash_keys m).
Proof. unfold hash_keys. rewrite hash_iter_perm. apply NoDup_fst_map_to_list. Qed.

Lemma any_value_true p m :
  any_value p m = true ↔ ∃ k v, m !! k = Some v ∧ p v = true.
Proof.
  unfold any_value. rewrite existsb_exists. setoid_rewrite <- list_elem_of_In.
  setoid_rewrite elem_of_hash_values. naive_solver.
Qed.

Lemma any_value_false p m :
  any_value p m = false ↔ ∀ k v, m !! k = Some v → p v = false.
Proof.
  rewrite <- not_true_iff_false, any_value_true. split.
  - intros Hn k v Hk. destruct (p v) eqn:E; [|done]. destruct Hn. eauto.
  - intros Ha (k & v & Hk & Hp). by rewrite (Ha k v Hk) in Hp.
Qed.

Lemma contains_key_true k m : contains_key k m = true ↔ is_Some (m !! k).
Proof. unfold contains_key. destruct (m !! k); split; naive_solver. Qed.
Lemma contains_key_false k m : contains_key k m = false ↔ m !! k = None.
Proof. unfold contains_key. destruct (m !! k); split; naive_solver. Qed.

Lemma retain_lookup_Some keep m k v :
  retain keep m !! k = Some v ↔ m !! k = Some v ∧ keep k v = true.
Proof.
  unfold retain. rewrite map_lookup_filter_Some. simpl.
  by rewrite Is_true_true.
Qed.
Lemma retain_lookup_Some_1 keep m k v :
  retain keep m !! k = Some v → m !! k = Some v.
Proof. rewrite retain_lookup_Some. naive_solver. Qed.

Lemma map_sum_hash f m : sumZ (f <$> hash_values m) = map_sum f m.
Proof. unfold hash_values, map_sum. by rewrite hash_iter_perm. Qed.

Lemma len_hash_values m : len (hash_values m) = map_len m.
Proof.
  unfold hash_values, map_len, len. rewrite length_fmap, hash_iter_perm.
  by rewrite length_map_to_list.
Qed.

Lemma map_sum_empty f : map_sum f (∅ : gmap K V) = 0.
Proof. unfold map_sum. by rewrite map_to_list_empty. Qed.

Lemma map_sum_insert_None f m k v :
  m !! k = None → map_sum f (<[k:=v]> m) = f v + map_sum f m.
Proof. intros. unfold map_sum. by rewrite map_to_list_insert. Qed.

Lemma map_sum_singleton f k v : map_sum f ({[k := v]} : gmap K V) = f v.
Proof. unfold map_sum. rewrite map_to_list_singleton. simpl. lia. Qed.

Lemma map_sum_delete f m k v :
  m !! k = Some v → map_sum f (delete k m) = map_sum f m - f v.
Proof.
  intros Hk. rewrite <- (insert_delete_id m k v Hk) at 2.
  rewrite map_sum_insert_None by (by rewrite lookup_delete_eq). lia.
Qed.

Lemma map_sum_delete_None f m k :
  m !! k = None → map_sum f (delete k m) = map_sum f m.
Proof. intros. by rewrite delete_id. Qed.

(** The value an entry contributes, [0] when there is none. *)
Definition at_key (f : V → Z) (k : K) (m : gmap K V) : Z :=
  match m !! k with Some v => f v | None => 0 end.

Lemma map_sum_insert f m k v :
  map_sum f (<[k:=v]> m) = map_sum f m - at_key f k m + f v.
Proof.
  unfold at_key. destruct (m !! k) as [w|] eqn:Hk.
  - rewrite <- insert_delete_eq, map_sum_insert_None by (by rewrite lookup_delete_eq).
    rewrite (map_sum_delete _ _ _ _ Hk). lia.
  - rewrite map_sum_insert_None by done. lia.
Qed.

Lemma map_sum_delete_at f m k :
  map_sum f (delete k m) = map_sum f m - at_key f k m.
Proof.
  unfold at_key. destruct (m !! k) as [w|] eqn:Hk.
  - by apply map_sum_delete.
  - rewrite map_sum_delete_None by done. lia.
Qed.

Lemma map_sum_nonneg f m : (∀ v, 0 ≤ f v) → 0 ≤ map_sum f m.
Proof. intros. by apply sumZ_fmap_nonneg. Qed.

Lemma map_sum_ext f g m :
  (∀ k v, m !! k = Some v → f v = g v) → map_sum f m = map_sum g m.
Proof.
  intros Hfg. unfold map_sum. f_equal. apply list_fmap_ext.
  intros i v Hi. apply list_lookup_fmap_Some in Hi as ([k w] & -> & Hi).
  apply (Hfg k). apply elem_of_map_to_list, list_elem_of_lookup. eauto.
Qed.

Lemma map_sum_const_one m : map_sum (λ _, 1) m = map_len m.
Proof.
  unfold map_sum, map_len. rewrite <- length_map_to_list.
  induction (map_to_list m) as [|x l IH]; [done|].
  rewrite !fmap_cons, sumZ_cons, IH. simpl. lia.
Qed.

Lemma map_sum_entry_le f m k v :
  (∀ v, 0 ≤ f v) → m !! k = Some v → f v ≤ map_sum f m.
Proof.
  intros Hf Hk. pose proof (map_sum_nonneg f (delete k m) Hf).
  rewrite (map_sum_delete _ _ _ _ Hk) in *. lia.
Qed.

Lemma map_len_nonneg m : 0 ≤ map_len m.
Proof. unfold map_len. lia. Qed.
Lemma map_len_insert m k v :
  map_len (<[k:=v]> m) = map_len m + (if contains_key k m then 0 else 1).
Proof.
  unfold map_len, contains_key. rewrite map_size_insert.
  destruct (m !! k); simpl; lia.
Qed.
Lemma map_len_delete m k :
  map_len (delete k m) = map_len m - (if contains_key k m then 1 else 0).
Proof.
  rewrite <- !map_sum_const_one, map_sum_delete_at.
  unfold at_key, contains_key. by destruct (m !! k).
Qed.

Lemma map_sum_retain_le f m keep :
  (∀ v, 0 ≤ f v) → map_sum f (retain keep m) ≤ map_sum f m.
Proof.
  intros Hf. unfold retain. induction m as [|k v m Hk IH] using map_ind.
  - by rewrite map_filter_empty.
  - rewrite map_sum_insert_None, map_filter_insert by done. case_decide.
    + rewrite map_sum_insert_None; [lia|].
      apply map_lookup_filter_None. by left.
    + rewrite delete_id by done. specialize (Hf v). lia.
Qed.

Lemma map_len_retain_le m keep : map_len (retain keep m) ≤ map_len m.
Proof. rewrite <- !map_sum_const_one. by apply map_sum_retain_le. Qed.
End maps.

Lemma map_sum_fmap {K A B} `{Countable K} (f : B → Z) (g : A → B) (m : gmap K A) :
  map_sum f (g <$> m) = map_sum (f ∘ g) m.
Proof.
  unfold map_sum. rewrite map_to_list_fmap, <- !list_fmap_compose. done.
Qed.

(** A [BTreeMap<String, V>] iterates in key order. *)
Definition btree_iter {V} (m : gmap string V) : list (string * V) :=
  merge_sort (λ a b, String.le a.1 b.1) (map_to_list m).
Definition btree_values {V} (m : gmap string V) : list V := (btree_iter m).*2.

Lemma btree_iter_perm {V} (m : gmap string V) : btree_iter m ≡ₚ map_to_list m.
Proof. apply merge_sort_Permutation. Qed.

Lemma elem_of_btree_iter {V} (m : gmap string V) k v :
  (k, v) ∈ btree_iter m ↔ m !! k = Some v.
Proof. by rewrite btree_iter_perm, elem_of_map_to_list. Qed.

Lemma elem_of_btree_values {V} (m : gmap string V) v :
  v ∈ btree_values m ↔ ∃ k, m !! k = Some v.
Proof.
  unfold btree_values. rewrite list_elem_of_fmap. split.
  - intros ([k v'] & -> & Hin). exists k. by apply elem_of_btree_iter.
  - intros [k Hk]. exists (k, v). split; [done|]. by apply elem_of_btree_iter.
Qed.

(** ** Automation *)

Create HintDb relay.
#[export] Hint Resolve len_nonneg slen_nonneg map_len_nonneg map_sum_nonneg
  sumZ_fmap_nonneg : relay.

(** Turn a successful run of [result] binds into the facts each step
    established. *)
Ltac run_ok :=
  repeat match goal with
  | H : (_ ≫= _) = Ok _ |- _ =>
      apply bind_Ok in H; destruct H as (? & ? & ?); simpl in *
  | H : reject_if _ _ = Ok _ |- _ => apply reject_if_Ok in H
  | H : ok_or _ _ = Ok _ |- _ => apply ok_or_Ok in H
  | H : Ok _ = Ok _ |- _ => injection H as H; subst
  | H : mret _ = Ok _ |- _ => injection H as H; subst
  | H : Err _ = Ok _ |- _ => discriminate H
  | H : Ok _ = Err _ |- _ => discriminate H
  end.

(** Split boolean guards into the facts they test. *)
Ltac split_bools :=
  repeat match goal with
  | H : _ || _ = false |- _ => apply orb_false_iff in H; destruct H
  | H : _ && _ = true |- _ => apply andb_true_iff in H; destruct H
  | H : negb _ = false |- _ => apply negb_false_iff in H
  | H : negb _ = true |- _ => apply negb_true_iff in H
  | H : bool_decide _ = true |- _ => apply bool_decide_eq_true in H
  | H : bool_decide _ = false |- _ => apply bool_decide_eq_false in H
  | H : contains_key _ _ = true |- _ => apply contains_key_true in H
  | H : contains_key _ _ = false |- _ => apply contains_key_false in H
  | H : over_budget _ _ = false |- _ =>
      apply over_budget_false in H; destruct H as (? & ? & ?)
  end.

(** Resolve checked arithmetic that is known to have succeeded. *)
Ltac checked :=
  repeat match goal with
  | H : checked_add _ _ _ = Some _ |- _ => apply checked_add_Some in H as [? ->]
  | H : checked_sub _ _ = Some _ |- _ => apply checked_sub_Some in H as [? ->]
  | H : checked_mul _ _ _ = Some _ |- _ => apply checked_mul_Some in H as [? ->]
  | H : (_ ≫= _) = Some _ |- _ =>
      apply bind_Some in H; destruct H as (? & ? & ?); simpl in *
  end.
