(* ===== verification/MlsWire.v ===== *)
(** * Canonical decimal counters (mirage-server/src/mls_wire.rs)

    Protocol-v10 epochs, revisions and policy durations travel as canonical
    decimal strings.  [serialize] is the standard library's [u64::to_string];
    [deserialize] checks canonicity and range.  The theorems make the two
    exact inverses: every [u64] round trips, and the only accepted strings are
    the ones [serialize] prints. *)

From S2P Require Import Prelude.
From Stdlib Require Import Ascii.

(** [u8::is_ascii_digit]. *)
Definition is_ascii_digit (c : Ascii.ascii) : bool :=
  bool_decide (48 ≤ ascii_code c) && bool_decide (ascii_code c ≤ 57).

(** The decimal digits of a number, most significant first. *)
Fixpoint to_digits (fuel : nat) (n : Z) : list Z :=
  match fuel with
  | O => []
  | S fuel =>
      if decide (n < 10) then [n] else to_digits fuel (n / 10) ++ [n mod 10]
  end.

Definition print_digits (l : list Z) : string :=
  String.string_of_list_ascii ((λ d, ascii_of_code (48 + d)) <$> l).

(** [value.to_string()]: 20 digits suffice for a [u64]. *)
Definition serialize (value : Z) : string := print_digits (to_digits 20 value).

(** [str::parse::<u64>] on a string of ASCII digits. *)
Definition parse_u64_from (acc : option Z) (l : list Ascii.ascii) : option Z :=
  foldl (λ o c, t ← o; t10 ← checked_mul u64_MAX t 10;
                checked_add u64_MAX t10 (ascii_code c - 48)) acc l.

Inductive DecimalError : Type :=
| InvalidCanonicalDecimal
| DecimalOutOfRange.

Definition deserialize (value : string) : result DecimalError Z :=
  let l := String.list_ascii_of_string value in
  if bool_decide (value = "")
     || (bool_decide (1 < slen value)
           && match value with String c _ => bool_decide (c = "0"%char)
              | EmptyString => false end)
     || negb (forallb is_ascii_digit l)
  then Err InvalidCanonicalDecimal
  else ok_or (parse_u64_from (Some 0) l) DecimalOutOfRange.

(** ** Digit lists *)

Definition digits_value (l : list Z) : Z := foldl (λ a d, 10 * a + d) 0 l.
Definition digit (d : Z) : Prop := 0 ≤ d ≤ 9.

(** No leading zero, except for the number zero itself. *)
Definition canonical (l : list Z) : Prop :=
  ∃ d l', l = d :: l' ∧ (l' = [] ∨ d ≠ 0).

#[export] Instance canonical_dec l : Decision (canonical l).
Proof.
  destruct l as [|d l]; [right; by intros (?&?&?&?)|].
  destruct (decide (l = [] ∨ d ≠ 0)) as [H|H].
  - left. by exists d, l.
  - right. by intros (?&?&[= <- <-]&?).
Defined.

Lemma digits_value_snoc l d : digits_value (l ++ [d]) = 10 * digits_value l + d.
Proof. unfold digits_value. by rewrite foldl_app. Qed.

Lemma digits_value_nonneg l : Forall digit l → 0 ≤ digits_value l.
Proof.
  induction l as [|d l IH] using rev_ind; [done|].
  rewrite Forall_app, Forall_singleton, digits_value_snoc.
  intros [Hl Hd]. specialize (IH Hl). unfold digit in Hd. lia.
Qed.

Lemma to_digits_digit f n : 0 ≤ n → Forall digit (to_digits f n).
Proof.
  revert n. induction f as [|f IH]; intros n Hn; simpl; [done|].
  case_decide; [repeat constructor; lia|].
  apply Forall_app. split; [apply IH, Z.div_pos; lia|].
  repeat constructor; pose proof (Z.mod_pos_bound n 10); lia.
Qed.

Lemma to_digits_value f n :
  0 ≤ n < 10 ^ Z.of_nat f → digits_value (to_digits f n) = n.
Proof.
  revert n. induction f as [|f IH]; intros n Hn.
  - rewrite Z.pow_0_r in Hn. assert (n = 0) as -> by lia. done.
  - simpl. case_decide; [done|]. rewrite digits_value_snoc, IH.
    + pose proof (Z.div_mod n 10). lia.
    + split; [apply Z.div_pos; lia|]. apply Z.div_lt_upper_bound; [lia|].
      rewrite Nat2Z.inj_succ, Z.pow_succ_r in Hn; lia.
Qed.

Lemma to_digits_canonical f n : f ≠ O → 0 ≤ n < 10 ^ Z.of_nat f → canonical (to_digits f n).
Proof.
  revert n. induction f as [|f IH]; intros n Hf Hn; [done|]. simpl.
  case_decide; [exists n, []; eauto|].
  assert (0 < n / 10 < 10 ^ Z.of_nat f) as Hq.
  { split; [apply Z.div_str_pos; lia|]. apply Z.div_lt_upper_bound; [lia|].
    rewrite Nat2Z.inj_succ, Z.pow_succ_r in Hn; lia. }
  destruct f as [|f]; [simpl in Hq; lia|].
  destruct (IH (n / 10)) as (d & l' & Heq & Hd); [done|lia|].
  rewrite Heq. exists d, (l' ++ [n mod 10]). split; [done|]. right.
  destruct Hd as [->|]; [|done]. intros ->.
  pose proof (to_digits_value (S f) (n / 10)) as Hv. rewrite Heq in Hv.
  unfold digits_value in Hv. cbn [foldl] in Hv. lia.
Qed.

(** A canonical digit list is the one its value prints. *)
Lemma canonical_unique f l :
  canonical l → Forall digit l → (length l ≤ f)%nat →
  to_digits f (digits_value l) = l.
Proof.
  revert l. induction f as [|f IH]; intros l Hc Hd Hlen.
  - destruct Hc as (d & l' & -> & _). simpl in Hlen. lia.
  - destruct l as [|x l _] using rev_ind; [destruct Hc as (?&?&?&?); done|].
    rewrite Forall_app, Forall_singleton in Hd. destruct Hd as [Hl Hx].
    rewrite digits_value_snoc. pose proof (digits_value_nonneg l Hl) as Hv.
    destruct l as [|d l].
    { unfold digits_value in *. simpl. unfold digit in Hx.
      by rewrite decide_True by lia. }
    destruct Hc as (d' & l' & [= <- <-] & [Hnil|Hd0]);
      [by apply app_eq_nil in Hnil as [_ [=]]|].
    unfold digit in Hx. simpl to_digits.
    assert (0 < digits_value (d :: l)) as Hpos.
    { clear -Hd0 Hl. induction l as [|y l IH] using rev_ind.
      - apply Forall_cons in Hl as [Hd _]. unfold digits_value, digit in *. cbn [foldl]. lia.
      - rewrite app_comm_cons, Forall_app in Hl. destruct Hl as [Hl Hy].
        rewrite Forall_singleton in Hy. rewrite app_comm_cons, digits_value_snoc.
        specialize (IH Hl). unfold digit in Hy. lia. }
    rewrite decide_False by lia.
    replace ((10 * digits_value (d :: l) + x) / 10) with (digits_value (d :: l))
      by (apply Z.div_unique with x; lia).
    replace ((10 * digits_value (d :: l) + x) mod 10) with x
      by (apply Z.mod_unique with (digits_value (d :: l)); lia).
    rewrite IH; [done| |done|].
    + exists d, l. split; [done|]. by right.
    + rewrite length_app in Hlen. simpl in *. lia.
Qed.

Lemma canonical_length l :
  canonical l → Forall digit l → digits_value l ≤ u64_MAX → (length l ≤ 20)%nat.
Proof.
  intros Hc Hd Hv. destruct (decide (length l ≤ 20)%nat) as [|Hn]; [done|]. exfalso.
  assert (10 ^ (len l - 1) ≤ digits_value l) as Hlow.
  { destruct Hc as (d & l' & -> & Hd0).
    destruct Hd0 as [->|Hd0]; [simpl in Hn; lia|]. clear Hn Hv.
    induction l' as [|y l' IH] using rev_ind.
    - apply Forall_cons in Hd as [Hd _].
      unfold digits_value, digit, len in *. simpl. lia.
    - rewrite app_comm_cons, Forall_app in Hd. destruct Hd as [Hl Hy].
      rewrite Forall_singleton in Hy. rewrite app_comm_cons, digits_value_snoc, len_app.
      specialize (IH Hl). unfold digit in Hy.
      replace (len (d :: l') + len [y] - 1) with (Z.succ (len (d :: l') - 1))
        by (unfold len; simpl; lia).
      rewrite Z.pow_succ_r by (unfold len; simpl; lia). lia. }
  assert (10 ^ 20 ≤ 10 ^ (len l - 1)) as H20
    by (apply Z.pow_le_mono_r; unfold len; lia).
  unfold u64_MAX in *. change (10 ^ 20) with 100000000000000000000 in H20. lia.
Qed.

(** ** Characters and digits *)

Lemma parse_u64_from_None l : parse_u64_from None l = None.
Proof. unfold parse_u64_from. induction l; simpl; auto. Qed.

(** Parsing digits computes their value, and fails exactly when it exceeds
    the width. *)
Lemma parse_u64_digits l a :
  Forall digit l → 0 ≤ a ≤ u64_MAX →
  parse_u64_from (Some a) ((λ d, ascii_of_code (48 + d)) <$> l) =
    let v := foldl (λ a d, 10 * a + d) a l in
    if decide (v ≤ u64_MAX) then Some v else None.
Proof.
  intros Hl. revert a. induction Hl as [|d l Hd Hl IH]; intros a Ha.
  - simpl. by rewrite decide_True by lia.
  - rewrite fmap_cons. unfold parse_u64_from. cbn [foldl].
    assert (∀ a', 0 ≤ a' → a' ≤ foldl (λ a d, 10 * a + d) a' l) as Hmono.
    { clear -Hl. induction Hl as [|x l Hx Hl IH]; intros a' Ha'; simpl; [lia|].
      unfold digit in Hx. specialize (IH (10 * a' + x)). lia. }
    unfold digit in Hd. rewrite ascii_code_of_code by lia.
    specialize (Hmono (10 * a + d)). cbn [mbind option_bind].
    unfold checked_mul. case_decide as E1; cbn [mbind option_bind].
    + unfold checked_add. case_decide as E2.
      * replace (a * 10 + (48 + d - 48)) with (10 * a + d) by lia.
        rewrite <- IH by lia. done.
      * fold (parse_u64_from None ((λ d, ascii_of_code (48 + d)) <$> l)).
        rewrite parse_u64_from_None, decide_False by lia. done.
    + fold (parse_u64_from None ((λ d, ascii_of_code (48 + d)) <$> l)).
      rewrite parse_u64_from_None, decide_False by lia. done.
Qed.

Lemma print_digits_chars l :
  String.list_ascii_of_string (print_digits l) = (λ d, ascii_of_code (48 + d)) <$> l.
Proof. apply String.list_ascii_of_string_of_list_ascii. Qed.

Lemma print_digits_all_digits l :
  Forall digit l →
  forallb is_ascii_digit (String.list_ascii_of_string (print_digits l)) = true.
Proof.
  intros Hl. rewrite print_digits_chars. induction Hl as [|d l Hd Hl IH]; [done|].
  rewrite fmap_cons. cbn [forallb]. rewrite IH, andb_true_r.
  unfold is_ascii_digit, digit in *. rewrite ascii_code_of_code by lia.
  by rewrite !bool_decide_eq_true_2 by lia.
Qed.

Lemma digits_of_string s :
  forallb is_ascii_digit (String.list_ascii_of_string s) = true →
  ∃ l, s = print_digits l ∧ Forall digit l.
Proof.
  intros Hs.
  exists ((λ c, ascii_code c - 48) <$> String.list_ascii_of_string s). split.
  - unfold print_digits. rewrite <- list_fmap_compose.
    rewrite <- (String.string_of_list_ascii_of_string s) at 1. f_equal.
    rewrite <- (list_fmap_id (String.list_ascii_of_string s)) at 1.
    apply list_fmap_ext. intros i c _. simpl.
    replace (48 + (ascii_code c - 48)) with (ascii_code c) by lia.
    by rewrite ascii_of_code_code.
  - apply Forall_fmap. induction (String.list_ascii_of_string s) as [|c l IH]; [done|].
    cbn [forallb] in Hs. apply andb_true_iff in Hs as [Hc Hs].
    constructor; [|by apply IH]. unfold is_ascii_digit in Hc. split_bools.
    unfold digit. simpl. lia.
Qed.

(** The canonicity test of [deserialize], on printed digits. *)
Lemma deserialize_print_digits l :
  Forall digit l →
  deserialize (print_digits l) =
    if decide (canonical l)
    then ok_or (if decide (digits_value l ≤ u64_MAX) then Some (digits_value l) else None)
           DecimalOutOfRange
    else Err InvalidCanonicalDecimal.
Proof.
  intros Hl. unfold deserialize.
  rewrite (print_digits_all_digits l Hl). cbn [negb]. rewrite orb_false_r.
  rewrite print_digits_chars, (parse_u64_digits l 0 Hl) by (unfold u64_MAX; lia).
  destruct l as [|d l].
  { by destruct (decide (canonical [])) as [(?&?&?&?)|]. }
  rewrite bool_decide_eq_false_2 by done. cbn [orb].
  change (print_digits (d :: l)) with (String (ascii_of_code (48 + d)) (print_digits l)).
  cbv iota.
  apply Forall_cons in Hl as [Hd Hl]. unfold digit in Hd.
  assert (bool_decide (ascii_of_code (48 + d) = "0"%char) = bool_decide (d = 0)) as ->.
  { apply bool_decide_ext. split; [|by intros ->].
    intros E%(f_equal ascii_code). rewrite ascii_code_of_code in E by lia.
    change (ascii_code "0"%char) with 48 in E. lia. }
  assert (bool_decide (1 < slen (String (ascii_of_code (48 + d)) (print_digits l))) =
    bool_decide (l ≠ [])) as ->.
  { apply bool_decide_ext. unfold slen. destruct l; simpl; split; try done; lia. }
  destruct (decide (canonical (d :: l))) as [Hc|Hc].
  - destruct Hc as (d' & l' & [= <- <-] & [->|Hd0]); [done|].
    by rewrite (bool_decide_eq_false_2 (d = 0)), andb_false_r by done.
  - destruct l as [|y l]; [destruct Hc; exists d, []; eauto|].
    destruct (decide (d = 0)) as [->|Hd0]; [done|].
    destruct Hc. exists d, (y :: l). eauto.
Qed.

(** ** Round trips *)

Lemma deserialize_serialize n :
  0 ≤ n ≤ u64_MAX → deserialize (serialize n) = Ok n.
Proof.
  intros Hn. unfold serialize.
  assert (0 ≤ n < 10 ^ Z.of_nat 20) as Hn20.
  { change (10 ^ Z.of_nat 20) with 100000000000000000000. unfold u64_MAX in *. lia. }
  rewrite deserialize_print_digits by (apply to_digits_digit; lia).
  rewrite to_digits_value, decide_True by (done || by apply to_digits_canonical).
  by rewrite decide_True by lia.
Qed.

Lemma deserialize_canonical s n :
  deserialize s = Ok n → 0 ≤ n ≤ u64_MAX ∧ s = serialize n.
Proof.
  intros Hs.
  destruct (forallb is_ascii_digit (String.list_ascii_of_string s)) eqn:Hd.
  2:{ unfold deserialize in Hs. rewrite Hd in Hs. cbn [negb] in Hs.
      by rewrite orb_true_r in Hs. }
  apply digits_of_string in Hd as (l & -> & Hl).
  rewrite deserialize_print_digits in Hs by done.
  case_decide as Hc; [|done]. case_decide as Hv; [|done]. simpl in Hs.
  injection Hs as <-. pose proof (digits_value_nonneg l Hl). split; [lia|].
  unfold serialize. rewrite canonical_unique; [done..|]. by apply canonical_length.
Qed.

(** [deserialize] reads a string as [n] exactly when [n] is a [u64] and the
    string is the one [serialize] prints for it: every counter survives the wire
    and its wire form is unique. *)
Theorem decimal_codec s n :
  deserialize s = Ok n ↔ 0 ≤ n ≤ u64_MAX ∧ s = serialize n.
Proof.
  split; [apply deserialize_canonical|]. intros [Hn ->]. by apply deserialize_serialize.
Qed.
