(* ===== verification/TransactionReceipts.v ===== *)
(** * Transaction receipts (mirage-server/src/transaction_receipts.rs)

    The relay's idempotency ledger: a transaction key is reserved by [begin],
    made terminal by [finish] and forgotten when its deadline passes or the
    store is wiped.  SHA-256 comes from the [sha2] crate and is a parameter.

    The theorems: a reserved or terminal key never executes again before its
    deadline, whatever happens in between; a terminal outcome is replayed
    unchanged; the store never exceeds its global and per-account limits. *)

From S2P Require Import Prelude.

Definition DEFAULT_GLOBAL_RECEIPT_LIMIT : Z := 50000.
Definition DEFAULT_ACCOUNT_RECEIPT_LIMIT : Z := 2048.

Abbreviation AccountId := bytes.

Inductive TransactionKind : Type :=
| Message
| Acknowledgement
| MlsRoom
| MlsSnapshot.

#[export] Instance TransactionKind_eq_dec : EqDecision TransactionKind.
Proof. solve_decision. Defined.

Record TransactionKey : Type := mkTransactionKey {
  tk_account_id : AccountId;
  tk_kind : TransactionKind;
  tk_conversation_id : string;
  tk_message_id : string
}.

#[export] Instance TransactionKey_eq_dec : EqDecision TransactionKey.
Proof. solve_decision. Defined.

#[export] Instance TransactionKind_countable : Countable TransactionKind.
Proof.
  refine (inj_countable'
    (λ k, match k with Message => 0%nat | Acknowledgement => 1%nat
          | MlsRoom => 2%nat | MlsSnapshot => 3%nat end)
    (λ n, match n with 0%nat => Message | 1%nat => Acknowledgement
          | 2%nat => MlsRoom | _ => MlsSnapshot end) _).
  by intros [].
Defined.

#[export] Instance TransactionKey_countable : Countable TransactionKey.
Proof.
  refine (inj_countable'
    (λ k, (tk_account_id k, tk_kind k, tk_conversation_id k, tk_message_id k))
    (λ '(a, k, c, m), mkTransactionKey a k c m) _).
  by intros [].
Defined.

Record Receipt : Type := mkReceipt {
  frame_digest : bytes;
  accepted : option bool;
  expires_at_ms : Z
}.

Record TransactionTicket : Type := mkTicket {
  ticket_key : TransactionKey;
  ticket_digest : bytes
}.

Inductive BeginOutcome : Type :=
| Execute (ticket : TransactionTicket)
| Replay (accepted : bool)
| InProgress
| CapacityExceeded.

Inductive ReceiptError : Type :=
| ConflictingFrame
| MissingReservation.

Record TransactionReceiptStore : Type := mkStore {
  receipts : gmap TransactionKey Receipt;
  terminal_ttl_ms : Z;
  global_limit : Z;
  account_limit : Z
}.

Definition set_receipts (m : gmap TransactionKey Receipt)
    (s : TransactionReceiptStore) : TransactionReceiptStore :=
  mkStore m (terminal_ttl_ms s) (global_limit s) (account_limit s).

Definition with_limits (ttl global account : Z) : TransactionReceiptStore :=
  mkStore ∅ ttl global account.

Definition new (ttl : Z) : TransactionReceiptStore :=
  with_limits ttl DEFAULT_GLOBAL_RECEIPT_LIMIT DEFAULT_ACCOUNT_RECEIPT_LIMIT.

Definition remove_expired (now : Z) (s : TransactionReceiptStore)
    : TransactionReceiptStore :=
  set_receipts
    (retain (λ _ r, bool_decide (now < expires_at_ms r)) (receipts s)) s.

Definition clear (s : TransactionReceiptStore) : TransactionReceiptStore :=
  set_receipts ∅ s.

Definition finish (ticket : TransactionTicket) (acc : bool) (now : Z)
    : ST TransactionReceiptStore ReceiptError () := λ s,
  match receipts s !! ticket_key ticket with
  | None => (Err MissingReservation, s)
  | Some r =>
      if negb (bool_decide (frame_digest r = ticket_digest ticket))
         || bool_decide (is_Some (accepted r))
      then (Err ConflictingFrame, s)
      else
        (Ok tt,
         set_receipts
           (<[ticket_key ticket :=
                mkReceipt (frame_digest r) (Some acc)
                  (saturating_add u64_MAX now (terminal_ttl_ms s))]>
              (receipts s)) s)
  end.

Section begin.
Context {HO : HashOrder}.
Variable sha256 : string → bytes.

(** [receipts.keys().filter(|k| k.account_id == id).count()]. *)
Definition account_count (a : AccountId) (m : gmap TransactionKey Receipt) : Z :=
  len (filter (λ k, tk_account_id k = a) (hash_keys m)).

Definition begin (key : TransactionKey) (exact_frame : string) (now : Z)
    : ST TransactionReceiptStore ReceiptError BeginOutcome := λ s0,
  let s := remove_expired now s0 in
  let digest := sha256 exact_frame in
  match receipts s !! key with
  | Some r =>
      if bool_decide (frame_digest r ≠ digest) then (Err ConflictingFrame, s)
      else
        (Ok match accepted r with
            | Some acc => Replay acc
            | None => InProgress
            end, s)
  | None =>
      if bool_decide (global_limit s ≤ map_len (receipts s))
         || bool_decide
              (account_limit s ≤ account_count (tk_account_id key) (receipts s))
      then (Ok CapacityExceeded, s)
      else
        (Ok (Execute (mkTicket key digest)),
         set_receipts
           (<[key := mkReceipt digest None
                       (saturating_add u64_MAX now (terminal_ttl_ms s))]>
              (receipts s)) s)
  end.
End begin.

(** ** Sequences of calls *)

Inductive call : Type :=
| CBegin (key : TransactionKey) (exact_frame : string) (now : Z)
| CFinish (ticket : TransactionTicket) (acc : bool) (now : Z)
| CClear.

Inductive reply : Type :=
| RBegin (r : result ReceiptError BeginOutcome)
| RFinish (r : result ReceiptError ())
| RClear.

Definition call_time (c : call) : option Z :=
  match c with CBegin _ _ t => Some t | CFinish _ _ t => Some t | CClear => None end.

Section runs.
Context {HO : HashOrder}.
Variable sha256 : string → bytes.

Definition perform (c : call) (s : TransactionReceiptStore)
    : reply * TransactionReceiptStore :=
  match c with
  | CBegin k f t => let '(r, s') := begin sha256 k f t s in (RBegin r, s')
  | CFinish tk a t => let '(r, s') := finish tk a t s in (RFinish r, s')
  | CClear => (RClear, clear s)
  end.

Fixpoint run (cs : list call) (s : TransactionReceiptStore)
    : list (call * reply) * TransactionReceiptStore :=
  match cs with
  | [] => ([], s)
  | c :: cs =>
      let '(r, s1) := perform c s in
      let '(tr, s2) := run cs s1 in ((c, r) :: tr, s2)
  end.
End runs.

(** ** Preservation of one receipt *)

Section one_receipt.
Context {HO : HashOrder}.
Variable sha256 : string → bytes.
Implicit Types (s : TransactionReceiptStore) (k : TransactionKey).

Lemma remove_expired_lookup now s k r :
  receipts (remove_expired now s) !! k = Some r ↔
  receipts s !! k = Some r ∧ now < expires_at_ms r.
Proof.
  unfold remove_expired; simpl. rewrite retain_lookup_Some.
  by rewrite bool_decide_eq_true.
Qed.

(** Whatever one call does, a receipt for [k] that is alive keeps its frame
    digest, keeps a terminal outcome, and never moves its deadline before
    [deadline]. *)
Definition held (k : TransactionKey) (d : bytes) (deadline : Z)
    (out : option bool) (s : TransactionReceiptStore) : Prop :=
  ∃ r, receipts s !! k = Some r ∧ frame_digest r = d ∧
       deadline ≤ expires_at_ms r ∧
       (∀ b, out = Some b → accepted r = Some b).

Definition within (lo deadline : Z) (c : call) : Prop :=
  match call_time c with Some t => lo ≤ t < deadline | None => False end.

Lemma begin_held k d deadline out key f now s :
  held k d deadline out s → now < deadline →
  held k d deadline out (begin sha256 key f now s).2.
Proof.
  intros (r & Hr & Hd & Hdl & Hout) Hnow. unfold begin.
  assert (receipts (remove_expired now s) !! k = Some r) as Hr'.
  { apply remove_expired_lookup. split; [done|lia]. }
  destruct (receipts (remove_expired now s) !! key) as [r'|] eqn:Hkey.
  - case_bool_decide; simpl; by exists r.
  - destruct (_ || _); simpl; [by exists r|].
    exists r. simpl. rewrite lookup_insert_ne by congruence. done.
Qed.

Lemma finish_held k d deadline out tk a now s :
  held k d deadline out s →
  deadline ≤ saturating_add u64_MAX now (terminal_ttl_ms s) →
  held k d deadline out (finish tk a now s).2.
Proof.
  intros (r & Hr & Hd & Hdl & Hout) Hle. unfold finish.
  destruct (receipts s !! ticket_key tk) as [r'|] eqn:Hk; [|by exists r].
  destruct (_ || _) eqn:Hb; [by exists r|]. simpl. split_bools.
  destruct (decide (ticket_key tk = k)) as [<-|Hne].
  - rewrite Hr in Hk. simplify_eq.
    eexists. simpl. rewrite lookup_insert_eq. split; [done|]. simpl. split_and!; [done|lia|].
    intros b Hb. specialize (Hout b Hb). destruct (accepted r'); naive_solver.
  - exists r. simpl. by rewrite lookup_insert_ne.
Qed.

Lemma ttl_preserved c s :
  terminal_ttl_ms (perform sha256 c s).2 = terminal_ttl_ms s.
Proof.
  destruct c; simpl; [| |done].
  - unfold begin. destruct (receipts _ !! _) as [r|];
      [case_bool_decide|destruct (_ || _)]; done.
  - unfold finish. destruct (receipts _ !! _); [destruct (_ || _)|]; done.
Qed.

Lemma perform_held c s k d lo deadline out :
  held k d deadline out s → within lo deadline c →
  deadline ≤ saturating_add u64_MAX lo (terminal_ttl_ms s) →
  held k d deadline out (perform sha256 c s).2.
Proof.
  intros Hh Hw Hle. destruct c as [key f t|tk a t|]; simpl in *; [| |done].
  - pose proof (begin_held k d deadline out key f t s Hh) as H.
    destruct (begin sha256 key f t s). apply H. unfold within in Hw. simpl in *. lia.
  - pose proof (finish_held k d deadline out tk a t s Hh) as H.
    destruct (finish tk a t s). apply H.
    unfold within, saturating_add in *. simpl in *. lia.
Qed.

(** The reply to a [begin] on a held key. *)
Definition held_reply (d : bytes) (out : option bool) (k : TransactionKey)
    (cr : call * reply) : Prop :=
  match cr with
  | (CBegin key f _, RBegin r) =>
      key = k →
      if decide (sha256 f = d)
      then match out with
           | Some b => r = Ok (Replay b)
           | None => r = Ok InProgress ∨ ∃ b, r = Ok (Replay b)
           end
      else r = Err ConflictingFrame
  | (CFinish tk _ _, RFinish r) =>
      ticket_key tk = k → out ≠ None → r = Err ConflictingFrame
  | _ => True
  end.

Lemma begin_reply k d deadline out f now s :
  held k d deadline out s → now < deadline →
  held_reply d out k (CBegin k f now, RBegin (begin sha256 k f now s).1).
Proof.
  intros (r & Hr & Hd & Hdl & Hout) Hnow. simpl. intros _. unfold begin.
  assert (receipts (remove_expired now s) !! k = Some r) as ->.
  { apply remove_expired_lookup. split; [done|lia]. }
  rewrite Hd. case_decide; case_bool_decide; simpl; try congruence.
  destruct out as [b|]; [by rewrite (Hout b)|].
  destruct (accepted r); eauto.
Qed.

Lemma perform_reply c s k d lo deadline out :
  held k d deadline out s → within lo deadline c →
  held_reply d out k (c, (perform sha256 c s).1).
Proof.
  intros Hh Hw. destruct c as [key f t|tk a t|]; [| |done].
  - destruct (decide (key = k)) as [->|Hne].
    + pose proof (begin_reply k d deadline out f t s Hh) as H.
      simpl in *. destruct (begin sha256 k f t s). simpl in *. apply H.
      unfold within in Hw. simpl in *. lia.
    + simpl. destruct (begin sha256 key f t s). by simpl.
  - simpl. destruct Hh as (r & Hr & Hd & Hdl & Hout).
    destruct (finish tk a t s) as [q s'] eqn:Hf. simpl. intros <- Hn.
    unfold finish in Hf. rewrite Hr in Hf.
    destruct out as [b|]; [|done]. rewrite (Hout b) in Hf by done.
    rewrite (bool_decide_eq_true_2 (is_Some (Some b))) in Hf by eauto.
    rewrite orb_true_r in Hf. naive_solver.
Qed.

Lemma run_held cs s k d lo deadline out :
  held k d deadline out s → Forall (within lo deadline) cs →
  deadline ≤ saturating_add u64_MAX lo (terminal_ttl_ms s) →
  Forall (held_reply d out k) (run sha256 cs s).1.
Proof.
  intros Hh Hcs. revert s Hh. induction Hcs as [|c cs Hc Hcs IH]; intros s Hh Hle.
  { simpl. constructor. }
  pose proof (perform_reply c s k d lo deadline out Hh Hc) as Hr.
  pose proof (perform_held c s k d lo deadline out Hh Hc Hle) as Hh'.
  pose proof (ttl_preserved c s) as Ht. simpl.
  destruct (perform sha256 c s) as [r s1]. simpl in *.
  specialize (IH s1 Hh'). rewrite Ht in IH. specialize (IH Hle).
  destruct (run sha256 cs s1). simpl in *. by constructor.
Qed.
End one_receipt.

(** ** Capacity *)

Section capacity.
Context {HO : HashOrder}.
Variable sha256 : string → bytes.
Implicit Types (m : gmap TransactionKey Receipt) (s : TransactionReceiptStore).

Lemma account_count_insert_None a m k r :
  m !! k = None →
  account_count a (<[k:=r]> m) =
    (if decide (tk_account_id k = a) then 1 else 0) + account_count a m.
Proof.
  intros Hk. unfold account_count, hash_keys, len.
  rewrite !hash_iter_perm, map_to_list_insert, fmap_cons by done.
  rewrite filter_cons. simpl fst. case_decide; rewrite ?length_cons; lia.
Qed.

Lemma account_count_insert_Some a m k r r' :
  m !! k = Some r' → account_count a (<[k:=r]> m) = account_count a m.
Proof.
  intros Hk. rewrite <- insert_delete_eq.
  rewrite <- (insert_delete_id m k r' Hk) at 2.
  by rewrite !account_count_insert_None by (by rewrite lookup_delete_eq).
Qed.

Lemma account_count_retain_le a m keep :
  account_count a (retain keep m) ≤ account_count a m.
Proof.
  unfold retain. induction m as [|k r m Hk IH] using map_ind.
  - by rewrite map_filter_empty.
  - rewrite account_count_insert_None, map_filter_insert by done. case_decide.
    + rewrite account_count_insert_None; [lia|].
      apply map_lookup_filter_None. by left.
    + rewrite delete_id by done. case_decide; lia.
Qed.

(** The limits the store was built with hold of what it stores. *)
Definition within_limits s : Prop :=
  map_len (receipts s) ≤ global_limit s ∧
  ∀ a, account_count a (receipts s) ≤ account_limit s.

Lemma remove_expired_within now s :
  within_limits s → within_limits (remove_expired now s).
Proof.
  intros [Hg Ha]. split; simpl.
  - rewrite <- map_sum_const_one in *.
    etrans; [by apply map_sum_retain_le|done].
  - intros a. etrans; [apply account_count_retain_le|done].
Qed.

Lemma begin_within k f now s :
  within_limits s → within_limits (begin sha256 k f now s).2.
Proof.
  intros Hs%(remove_expired_within now). unfold begin.
  destruct (receipts (remove_expired now s) !! k) eqn:Hk; [by case_bool_decide|].
  destruct (_ || _) eqn:Hb; [done|]. split_bools.
  destruct Hs as [Hg Ha]. split; simpl.
  - rewrite map_len_insert. unfold contains_key. simpl in Hk. rewrite Hk.
    simpl in *. lia.
  - intros a. simpl in *. rewrite account_count_insert_None by done.
    specialize (Ha a). case_decide; subst; lia.
Qed.

Lemma finish_within tk acc now s :
  within_limits s → within_limits (finish tk acc now s).2.
Proof.
  intros [Hg Ha]. unfold finish. destruct (receipts s !! _) eqn:Hk; [|done].
  destruct (_ || _); [done|]. split; simpl.
  - rewrite map_len_insert. unfold contains_key. rewrite Hk. lia.
  - intros a. by erewrite account_count_insert_Some.
Qed.

Lemma limits_preserved c s :
  global_limit (perform sha256 c s).2 = global_limit s ∧
  account_limit (perform sha256 c s).2 = account_limit s.
Proof.
  destruct c as [k f t|tk a t|]; simpl; [| |done].
  - unfold begin.
    destruct (receipts _ !! _); [case_bool_decide|destruct (_ || _)]; done.
  - unfold finish. destruct (receipts _ !! _); [destruct (_ || _)|]; done.
Qed.

Lemma perform_within c s :
  0 ≤ global_limit s → 0 ≤ account_limit s →
  within_limits s → within_limits (perform sha256 c s).2.
Proof.
  intros Hg Ha Hs. destruct c as [k f t|tk a t|]; simpl.
  - pose proof (begin_within k f t s Hs). by destruct (begin sha256 k f t s).
  - pose proof (finish_within tk a t s Hs). by destruct (finish tk a t s).
  - split; simpl; [done|]. intros a.
    unfold account_count, hash_keys, len. by rewrite hash_iter_perm.
Qed.

Lemma run_within cs s :
  0 ≤ global_limit s → 0 ≤ account_limit s → within_limits s →
  within_limits (run sha256 cs s).2 ∧
  global_limit (run sha256 cs s).2 = global_limit s ∧
  account_limit (run sha256 cs s).2 = account_limit s.
Proof.
  revert s. induction cs as [|c cs IH]; intros s Hg Ha Hs; [done|]. simpl.
  pose proof (perform_within c s Hg Ha Hs) as Hw.
  pose proof (limits_preserved c s) as [Eg Ea].
  destruct (perform sha256 c s) as [r s1]. simpl in *.
  specialize (IH s1). rewrite Eg, Ea in IH. specialize (IH Hg Ha Hw).
  by destruct (run sha256 cs s1).
Qed.
End capacity.

(** ** At most one execution *)

Section theorems.
Context {HO : HashOrder}.
Variable sha256 : string → bytes.

(** Once [begin] answers [Execute] for a key, no sequence of calls made
    before the reservation's deadline (other than a wipe) executes the key
    again: the same frame is answered [InProgress] or replayed, a frame with
    another digest is refused as conflicting. *)
Theorem execute_at_most_once key frame now s ticket s1 cs :
  begin sha256 key frame now s = (Ok (Execute ticket), s1) →
  Forall (within now (saturating_add u64_MAX now (terminal_ttl_ms s))) cs →
  Forall (held_reply sha256 (sha256 frame) None key) (run sha256 cs s1).1.
Proof.
  intros Hb Hcs. unfold begin in Hb.
  destruct (receipts _ !! key) as [r|] eqn:Hk.
  { case_bool_decide; [done|]. destruct (accepted r); done. }
  destruct (_ || _); [done|]. simplify_eq/=.
  eapply run_held; [|exact Hcs|done].
  eexists. simpl. rewrite lookup_insert_eq. by split_and!.
Qed.

(** A terminal outcome is durable: after [finish] succeeds, every
    duplicate of the exact frame before the new deadline is answered
    [Replay] with that very outcome, and every further [finish] of the key
    is refused. *)
Theorem terminal_outcome_replayed ticket acc now s s1 cs :
  finish ticket acc now s = (Ok tt, s1) →
  Forall (within now (saturating_add u64_MAX now (terminal_ttl_ms s))) cs →
  Forall (held_reply sha256 (ticket_digest ticket) (Some acc) (ticket_key ticket))
    (run sha256 cs s1).1.
Proof.
  intros Hf Hcs. unfold finish in Hf.
  destruct (receipts s !! _) as [r|] eqn:Hk; [|done].
  destruct (_ || _) eqn:Hb; [done|]. split_bools. simplify_eq/=.
  eapply run_held; [|exact Hcs|done].
  eexists. simpl. rewrite lookup_insert_eq. split_and!; naive_solver.
Qed.

(** Whatever calls a store serves, it never holds more receipts than its
    global limit, nor more than its per-account limit for any account. *)
Theorem receipts_bounded ttl g a cs :
  0 ≤ g → 0 ≤ a →
  let s := (run sha256 cs (with_limits ttl g a)).2 in
  map_len (receipts s) ≤ g ∧ ∀ acct, account_count acct (receipts s) ≤ a.
Proof.
  intros Hg Ha s. destruct (run_within sha256 cs (with_limits ttl g a))
    as ([Hl Hc] & Eg & Ea); [done|done| |].
  { split; [done|]. intros acct. unfold account_count, hash_keys, len. simpl.
    by rewrite hash_iter_perm. }
  simpl in *. by rewrite Eg, Ea in *.
Qed.
End theorems.

(** ** Witnesses *)

Definition demo_key : TransactionKey :=
  mkTransactionKey [Byte.x01] Message "direct_alpha" "message-1".
Definition demo_sha (s : string) : bytes :=
  match s with
  | String c _ => [Ascii.byte_of_ascii c]
  | EmptyString => []
  end.

Definition demo_ticket : TransactionTicket := mkTicket demo_key (demo_sha "exact").
Definition demo_reserved : TransactionReceiptStore :=
  (begin demo_sha demo_key "exact" 1 (new 60000)).2.
Definition demo_terminal : TransactionReceiptStore :=
  (finish demo_ticket true 3 demo_reserved).2.

Lemma execute_at_most_once_witness :
  begin demo_sha demo_key "exact" 1 (new 60000) =
    (Ok (Execute demo_ticket), demo_reserved) ∧
  Forall (held_reply demo_sha (demo_sha "exact") None demo_key)
    (run demo_sha [CBegin demo_key "exact" 2; CFinish demo_ticket true 3;
                   CBegin demo_key "other" 4] demo_reserved).1.
Proof.
  assert (begin demo_sha demo_key "exact" 1 (new 60000) =
    (Ok (Execute demo_ticket), demo_reserved)) as H by (vm_compute; reflexivity).
  split; [exact H|].
  apply (execute_at_most_once demo_sha demo_key "exact" 1 (new 60000) _ _ _ H).
  repeat constructor; vm_compute; congruence.
Defined.

Lemma terminal_outcome_replayed_witness :
  finish demo_ticket true 3 demo_reserved = (Ok tt, demo_terminal) ∧
  Forall (held_reply demo_sha (demo_sha "exact") (Some true) demo_key)
    (run demo_sha [CBegin demo_key "exact" 4; CFinish demo_ticket false 5]
       demo_terminal).1.
Proof.
  assert (finish demo_ticket true 3 demo_reserved = (Ok tt, demo_terminal)) as H
    by (vm_compute; reflexivity).
  split; [exact H|].
  apply (terminal_outcome_replayed demo_sha demo_ticket true 3 demo_reserved _ _ H).
  repeat constructor; vm_compute; congruence.
Defined.

