(* ===== verification/RoomModel.v ===== *)
(** * Room data, policy and validation

    The data model of the protocol-v10 room authority
    (mirage-server/src/rooms/model.rs), the room policy (rooms/policy.rs), the
    validation of identifiers and rosters (rooms/validation.rs) and the
    client platform (client_platform.rs).  A [HashMap] or [BTreeMap] is a
    [gmap]; [set_*] is the assignment of one field. *)

From S2P Require Import Prelude.

(** ** Limits (rooms.rs) *)

Definition GROUP_ID_BYTES : Z := 32.
Definition MEMBERSHIP_DIGEST_BYTES : Z := 32.
Definition STABLE_IDENTITY_BYTES : Z := 64.
Definition MAX_ROOM_ID_BYTES : Z := 128.
Definition MAX_USERNAME_BYTES : Z := 80.
Definition MAX_MEMBERS : Z := 117.
Definition MAX_ROOMS_PER_MEMBER : Z := 128.
Definition MAX_JOIN_REQUESTS : Z := 128.
Definition MAX_LEAVE_REQUESTS : Z := 128.
Definition MAX_GLOBAL_LEAVE_REQUESTS : Z := 16384.
Definition MAX_KEY_PACKAGE_BYTES : Z := 64 * 1024.
Definition MAX_CONTROL_BYTES : Z := 2 * 1024 * 1024.
Definition MAX_APPLICATION_CIPHERTEXT_BYTES : Z := 1024 * 1024.
Definition MAX_AUTHENTICATED_DATA_BYTES : Z := 4096.
Definition MAX_PENDING_BYTES : Z := 256 * 1024 * 1024.
Definition MAX_PENDING_APPLICATIONS : Z := 2048.
Definition MAX_GLOBAL_PENDING_APPLICATIONS : Z := 16384.
Definition MAX_GLOBAL_PENDING_BYTES : Z := 512 * 1024 * 1024.
Definition MAX_REPLAY_IDS : Z := 2048.
Definition MAX_GLOBAL_REPLAY_IDS : Z := 16384.
Definition MAX_STATE_SNAPSHOTS : Z := 117.
Definition MAX_STATE_BYTES : Z := 4 * 1024 * 1024.
Definition MAX_GLOBAL_STATE_SNAPSHOTS : Z := 16384.
Definition MAX_GLOBAL_STATE_BYTES : Z := 512 * 1024 * 1024.
Definition MAX_ROOMS_TOTAL : Z := 1024.
Definition MAX_DELIVERIES_PER_ROOM : Z := 4096.
Definition MAX_GLOBAL_DELIVERIES : Z := 16384.
Definition MAX_GLOBAL_DELIVERY_BYTES : Z := 512 * 1024 * 1024.
Definition MAX_RATCHET_BACK_HISTORY : Z := 1024.
Definition MAX_EXPIRED_GAP_PAIRS_PER_ROOM : Z := MAX_MEMBERS * MAX_MEMBERS.
Definition MAX_GLOBAL_EXPIRED_GAP_PAIRS : Z := 65536.
Definition DEFAULT_JOIN_TTL_MS : Z := 10 * 60 * 1000.
Definition DEFAULT_PENDING_TTL_MS : Z := 10 * 60 * 1000.
Definition DEFAULT_REPLAY_TTL_MS : Z := 24 * 60 * 60 * 1000.

(** ** Platforms (client_platform.rs) *)

Inductive ClientPlatform : Type :=
| Android
| Web.

#[export] Instance ClientPlatform_eq_dec : EqDecision ClientPlatform.
Proof. solve_decision. Defined.

Module ClientPlatform.
Definition parse (value : string) : option ClientPlatform :=
  if bool_decide (value = "android") then Some Android
  else if bool_decide (value = "web") then Some Web
  else None.
End ClientPlatform.

Record InteropPolicy : Type := mkInterop {
  allow_android_to_web : bool;
  allow_web_to_android : bool
}.

Module InteropPolicy.
Definition allows (p : InteropPolicy) (sender recipient : ClientPlatform) : bool :=
  match sender, recipient with
  | Android, Web => allow_android_to_web p
  | Web, Android => allow_web_to_android p
  | _, _ => true
  end.

(** [std::env::var]: the variable's text, or why there is none. *)
Inductive EnvVar : Type :=
| EnvValue (value : string)
| NotPresent
| NotUnicode.

(** The two functions panic on a malformed variable: [None]. *)
Definition parse_bool_env_value (value : string) : option bool :=
  if bool_decide (value = "true") then Some true
  else if bool_decide (value = "false") then Some false
  else None.

Definition strict_bool_env (var : EnvVar) (default : bool) : option bool :=
  match var with
  | EnvValue value => parse_bool_env_value value
  | NotPresent => Some default
  | NotUnicode => None
  end.

(** The arguments are [ABYSSAL_ALLOW_ANDROID_TO_WEB] and
    [ABYSSAL_ALLOW_WEB_TO_ANDROID]. *)
Definition from_env (android_to_web web_to_android : EnvVar) : option InteropPolicy :=
  a ← strict_bool_env android_to_web true;
  w ← strict_bool_env web_to_android true;
  Some (mkInterop a w).
End InteropPolicy.

(** ** Policy (rooms/policy.rs) *)

Record RoomPolicy : Type := mkPolicy {
  self_destruct_timer_sec : Z;
  overall_expiry_sec : Z;
  allow_images : bool;
  allow_videos : bool;
  allow_files : bool;
  enforce_text_absolute_expiry : bool;
  image_read_timer_sec : Z;
  image_overall_expiry_sec : Z;
  enforce_image_absolute_expiry : bool;
  video_read_timer_sec : Z;
  video_overall_expiry_sec : Z;
  enforce_video_absolute_expiry : bool;
  file_read_timer_sec : Z;
  file_overall_expiry_sec : Z;
  enforce_file_absolute_expiry : bool
}.

Module RoomPolicy.
Definition default : RoomPolicy :=
  mkPolicy 0 0 true true true false 0 0 false 0 0 false 0 0 false.

Definition normalized (p : RoomPolicy) : RoomPolicy :=
  mkPolicy
    (Z.min (self_destruct_timer_sec p) 86400)
    (Z.min (overall_expiry_sec p) 86400)
    (allow_images p) (allow_videos p) (allow_files p)
    (enforce_text_absolute_expiry p)
    (Z.min (image_read_timer_sec p) 86400)
    (Z.min (image_overall_expiry_sec p) 86400)
    (enforce_image_absolute_expiry p)
    (Z.min (video_read_timer_sec p) 86400)
    (Z.min (video_overall_expiry_sec p) 86400)
    (enforce_video_absolute_expiry p)
    (Z.min (file_read_timer_sec p) 86400)
    (Z.min (file_overall_expiry_sec p) 86400)
    (enforce_file_absolute_expiry p).
End RoomPolicy.

(** ** Data (rooms/model.rs) *)

(** [CodeId = [u8; 32]]. *)
Abbreviation CodeId := bytes.
Definition CODE_ID_BYTES : Z := 32.
Definition zero_code_id : CodeId := replicate 32 Byte.x00.

Inductive RoomVisibility : Type :=
| Public
| Private.

#[export] Instance RoomVisibility_eq_dec : EqDecision RoomVisibility.
Proof. solve_decision. Defined.

Inductive ReplayDomain : Type :=
| MembershipDomain
| ApplicationDomain.

Record ReplayKey : Type := mkReplayKey {
  rk_domain : ReplayDomain;
  rk_message_id : string
}.

#[export] Instance ReplayDomain_eq_dec : EqDecision ReplayDomain.
Proof. solve_decision. Defined.
#[export] Instance ReplayKey_eq_dec : EqDecision ReplayKey.
Proof. solve_decision. Defined.

Module ReplayKey.
Definition membership (message_id : string) : ReplayKey :=
  mkReplayKey MembershipDomain message_id.
Definition application (message_id : string) : ReplayKey :=
  mkReplayKey ApplicationDomain message_id.
End ReplayKey.

(** [RosterMember]. *)
Record RosterMember : Type := mkRosterMember {
  ros_username : string;
  ros_stable_identity : bytes
}.

#[export] Instance RosterMember_eq_dec : EqDecision RosterMember.
Proof. solve_decision. Defined.

(** [RecoverySnapshot]. *)
Record RecoverySnapshot : Type := mkRecoverySnapshot {
  rs_active : bool;
  rs_epoch : Z;
  rs_revision : Z;
  rs_membership_digest : bytes;
  rs_state_envelope : bytes;
  rs_roster : list RosterMember
}.

(** [RoomInfo]. *)
Record RoomInfo : Type := mkRoomInfo {
  ri_room_id : string;
  ri_owner_username : string;
  ri_group_id : bytes;
  ri_active : bool;
  ri_synchronized : bool;
  ri_epoch : Z;
  ri_revision : Z;
  ri_recovery_snapshot : option RecoverySnapshot;
  ri_membership_digest : bytes;
  ri_roster : list RosterMember;
  ri_policy : RoomPolicy;
  ri_visibility : RoomVisibility
}.

(** [PublicRoom]. *)
Record PublicRoom : Type := mkPublicRoom {
  pr_room_id : string;
  pr_owner_username : string;
  pr_group_id : bytes;
  pr_policy : RoomPolicy
}.

(** [JoinRequest]. *)
Record JoinRequest : Type := mkJoinRequest {
  jr_request_id : string;
  jr_room_id : string;
  jr_code_id : CodeId;
  jr_username : string;
  jr_stable_identity : bytes;
  jr_key_package : bytes;
  jr_created_at_ms : Z;
  jr_expires_at_ms : Z
}.

(** [LeaveRequest]. *)
Record LeaveRequest : Type := mkLeaveRequest {
  lr_request_id : string;
  lr_room_id : string;
  lr_code_id : CodeId;
  lr_username : string;
  lr_stable_identity : bytes;
  lr_created_at_ms : Z;
  lr_expires_at_ms : Z
}.

(** [PendingJoin]. *)
Record PendingJoin : Type := mkPendingJoin {
  pj_request : JoinRequest;
  pj_state_envelope : bytes
}.

(** [MembershipTransition]. *)
Record MembershipTransition : Type := mkTransition {
  mt_room_id : string;
  mt_message_id : string;
  mt_request_id : option string;
  mt_from_epoch : Z;
  mt_to_epoch : Z;
  mt_revision : Z;
  mt_group_id : bytes;
  mt_from_membership_digest : bytes;
  mt_membership_digest : bytes;
  mt_roster : list RosterMember;
  mt_control : bytes;
  mt_welcome : bytes;
  mt_authenticated_data : bytes;
  mt_state_envelope : bytes;
  mt_created_at_ms : Z;
  mt_expires_at_ms : Z
}.
Definition set_mt_created_at_ms (v : Z) (r : MembershipTransition) : MembershipTransition :=
  mkTransition
    (mt_room_id r) (mt_message_id r) (mt_request_id r) (mt_from_epoch r) (mt_to_epoch
    r) (mt_revision r) (mt_group_id r) (mt_from_membership_digest r)
    (mt_membership_digest r) (mt_roster r) (mt_control r) (mt_welcome r)
    (mt_authenticated_data r) (mt_state_envelope r) v (mt_expires_at_ms r).
Definition set_mt_expires_at_ms (v : Z) (r : MembershipTransition) : MembershipTransition :=
  mkTransition
    (mt_room_id r) (mt_message_id r) (mt_request_id r) (mt_from_epoch r) (mt_to_epoch
    r) (mt_revision r) (mt_group_id r) (mt_from_membership_digest r)
    (mt_membership_digest r) (mt_roster r) (mt_control r) (mt_welcome r)
    (mt_authenticated_data r) (mt_state_envelope r) (mt_created_at_ms r) v.

(** [ApplicationAdmission]. *)
Record ApplicationAdmission : Type := mkAdmission {
  aa_message_id : string;
  aa_room_id : string;
  aa_sender_username : string;
  aa_recipient_code_ids : list CodeId;
  aa_recipient_revisions : list (CodeId * Z);
  aa_sender_revision : Z;
  aa_epoch : Z;
  aa_membership_digest : bytes;
  aa_ciphertext : bytes;
  aa_authenticated_data : bytes;
  aa_state_envelope : bytes;
  aa_created_at_ms : Z;
  aa_expires_at_ms : Z
}.

(** [DeliveryPayload]. *)
Inductive DeliveryPayload : Type :=
| Membership (from_epoch : Z) (from_membership_digest group_id : bytes)
    (roster : list RosterMember) (control welcome authenticated_data : bytes)
| Application (sender_code_id : CodeId) (sender_username : string)
    (sender_platform : ClientPlatform) (ciphertext authenticated_data : bytes).

(** [PendingDelivery]. *)
Record PendingDelivery : Type := mkDelivery {
  pd_room_id : string;
  pd_message_id : string;
  pd_recipient_code_id : CodeId;
  pd_epoch : Z;
  pd_membership_digest : bytes;
  pd_revision : Z;
  pd_payload : DeliveryPayload;
  pd_created_at_ms : Z;
  pd_expires_at_ms : Z
}.
Definition set_pd_revision (v : Z) (r : PendingDelivery) : PendingDelivery :=
  mkDelivery
    (pd_room_id r) (pd_message_id r) (pd_recipient_code_id r) (pd_epoch r)
    (pd_membership_digest r) v (pd_payload r) (pd_created_at_ms r) (pd_expires_at_ms
    r).

(** [StateSnapshot]. *)
Record StateSnapshot : Type := mkSnapshot {
  ss_room_id : string;
  ss_message_id : string;
  ss_member_code_id : CodeId;
  ss_epoch : Z;
  ss_revision : Z;
  ss_membership_digest : bytes;
  ss_state_envelope : bytes;
  ss_roster : list RosterMember;
  ss_created_at_ms : Z;
  ss_expires_at_ms : Z
}.

(** [Member]. *)
Record Member : Type := mkMember {
  mem_username : string;
  mem_code_id : CodeId;
  mem_stable_identity : bytes;
  mem_active : bool
}.
Definition set_mem_active (v : bool) (r : Member) : Member :=
  mkMember
    (mem_username r) (mem_code_id r) (mem_stable_identity r) v.

(** [PendingApplication]. *)
Record PendingApplication : Type := mkPendingApplication {
  pa_admission : ApplicationAdmission;
  pa_sender_code_id : CodeId;
  pa_previous_sender_revision : Z;
  pa_previous_snapshot : option StateSnapshot
}.

(** [RelayRoom]. *)
Record RelayRoom : Type := mkRoom {
  room_id : string;
  room_owner_code_id : CodeId;
  room_owner_username : string;
  room_policy : RoomPolicy;
  room_visibility : RoomVisibility;
  room_group_id : bytes;
  room_epoch : Z;
  room_membership_digest : bytes;
  room_members : gmap string Member;
  room_joins : gmap string PendingJoin;
  room_leaves : gmap string LeaveRequest;
  room_pending_transition : option MembershipTransition;
  room_pending_applications : gmap string PendingApplication;
  room_pending_bytes : Z;
  room_replay_ids : list (ReplayKey * Z);
  room_snapshots : gmap CodeId StateSnapshot;
  room_snapshot_bytes : Z;
  room_member_revisions : gmap CodeId Z;
  room_deliveries : gmap CodeId (list PendingDelivery);
  room_delivery_bytes : Z;
  room_expired_sender_gaps : gmap (CodeId * CodeId) Z
}.
Definition set_room_epoch (v : Z) (r : RelayRoom) : RelayRoom :=
  mkRoom
    (room_id r) (room_owner_code_id r) (room_owner_username r) (room_policy r)
    (room_visibility r) (room_group_id r) v (room_membership_digest r) (room_members
    r) (room_joins r) (room_leaves r) (room_pending_transition r)
    (room_pending_applications r) (room_pending_bytes r) (room_replay_ids r)
    (room_snapshots r) (room_snapshot_bytes r) (room_member_revisions r)
    (room_deliveries r) (room_delivery_bytes r) (room_expired_sender_gaps r).
Definition set_room_membership_digest (v : bytes) (r : RelayRoom) : RelayRoom :=
  mkRoom
    (room_id r) (room_owner_code_id r) (room_owner_username r) (room_policy r)
    (room_visibility r) (room_group_id r) (room_epoch r) v (room_members r)
    (room_joins r) (room_leaves r) (room_pending_transition r)
    (room_pending_applications r) (room_pending_bytes r) (room_replay_ids r)
    (room_snapshots r) (room_snapshot_bytes r) (room_member_revisions r)
    (room_deliveries r) (room_delivery_bytes r) (room_expired_sender_gaps r).
Definition set_room_members (v : gmap string Member) (r : RelayRoom) : RelayRoom :=
  mkRoom
    (room_id r) (room_owner_code_id r) (room_owner_username r) (room_policy r)
    (room_visibility r) (room_group_id r) (room_epoch r) (room_membership_digest r) v
    (room_joins r) (room_leaves r) (room_pending_transition r)
    (room_pending_applications r) (room_pending_bytes r) (room_replay_ids r)
    (room_snapshots r) (room_snapshot_bytes r) (room_member_revisions r)
    (room_deliveries r) (room_delivery_bytes r) (room_expired_sender_gaps r).
Definition set_room_joins (v : gmap string PendingJoin) (r : RelayRoom) : RelayRoom :=
  mkRoom
    (room_id r) (room_owner_code_id r) (room_owner_username r) (room_policy r)
    (room_visibility r) (room_group_id r) (room_epoch r) (room_membership_digest r)
    (room_members r) v (room_leaves r) (room_pending_transition r)
    (room_pending_applications r) (room_pending_bytes r) (room_replay_ids r)
    (room_snapshots r) (room_snapshot_bytes r) (room_member_revisions r)
    (room_deliveries r) (room_delivery_bytes r) (room_expired_sender_gaps r).
Definition set_room_leaves (v : gmap string LeaveRequest) (r : RelayRoom) : RelayRoom :=
  mkRoom
    (room_id r) (room_owner_code_id r) (room_owner_username r) (room_policy r)
    (room_visibility r) (room_group_id r) (room_epoch r) (room_membership_digest r)
    (room_members r) (room_joins r) v (room_pending_transition r)
    (room_pending_applications r) (room_pending_bytes r) (room_replay_ids r)
    (room_snapshots r) (room_snapshot_bytes r) (room_member_revisions r)
    (room_deliveries r) (room_delivery_bytes r) (room_expired_sender_gaps r).
Definition set_room_pending_transition (v : option MembershipTransition) (r : RelayRoom) : RelayRoom :=
  mkRoom
    (room_id r) (room_owner_code_id r) (room_owner_username r) (room_policy r)
    (room_visibility r) (room_group_id r) (room_epoch r) (room_membership_digest r)
    (room_members r) (room_joins r) (room_leaves r) v (room_pending_applications r)
    (room_pending_bytes r) (room_replay_ids r) (room_snapshots r) (room_snapshot_bytes
    r) (room_member_revisions r) (room_deliveries r) (room_delivery_bytes r)
    (room_expired_sender_gaps r).
Definition set_room_pending_applications (v : gmap string PendingApplication) (r : RelayRoom) : RelayRoom :=
  mkRoom
    (room_id r) (room_owner_code_id r) (room_owner_username r) (room_policy r)
    (room_visibility r) (room_group_id r) (room_epoch r) (room_membership_digest r)
    (room_members r) (room_joins r) (room_leaves r) (room_pending_transition r) v
    (room_pending_bytes r) (room_replay_ids r) (room_snapshots r) (room_snapshot_bytes
    r) (room_member_revisions r) (room_deliveries r) (room_delivery_bytes r)
    (room_expired_sender_gaps r).
Definition set_room_pending_bytes (v : Z) (r : RelayRoom) : RelayRoom :=
  mkRoom
    (room_id r) (room_owner_code_id r) (room_owner_username r) (room_policy r)
    (room_visibility r) (room_group_id r) (room_epoch r) (room_membership_digest r)
    (room_members r) (room_joins r) (room_leaves r) (room_pending_transition r)
    (room_pending_applications r) v (room_replay_ids r) (room_snapshots r)
    (room_snapshot_bytes r) (room_member_revisions r) (room_deliveries r)
    (room_delivery_bytes r) (room_expired_sender_gaps r).
Definition set_room_replay_ids (v : list (ReplayKey * Z)) (r : RelayRoom) : RelayRoom :=
  mkRoom
    (room_id r) (room_owner_code_id r) (room_owner_username r) (room_policy r)
    (room_visibility r) (room_group_id r) (room_epoch r) (room_membership_digest r)
    (room_members r) (room_joins r) (room_leaves r) (room_pending_transition r)
    (room_pending_applications r) (room_pending_bytes r) v (room_snapshots r)
    (room_snapshot_bytes r) (room_member_revisions r) (room_deliveries r)
    (room_delivery_bytes r) (room_expired_sender_gaps r).
Definition set_room_snapshots (v : gmap CodeId StateSnapshot) (r : RelayRoom) : RelayRoom :=
  mkRoom
    (room_id r) (room_owner_code_id r) (room_owner_username r) (room_policy r)
    (room_visibility r) (room_group_id r) (room_epoch r) (room_membership_digest r)
    (room_members r) (room_joins r) (room_leaves r) (room_pending_transition r)
    (room_pending_applications r) (room_pending_bytes r) (room_replay_ids r) v
    (room_snapshot_bytes r) (room_member_revisions r) (room_deliveries r)
    (room_delivery_bytes r) (room_expired_sender_gaps r).
Definition set_room_snapshot_bytes (v : Z) (r : RelayRoom) : RelayRoom :=
  mkRoom
    (room_id r) (room_owner_code_id r) (room_owner_username r) (room_policy r)
    (room_visibility r) (room_group_id r) (room_epoch r) (room_membership_digest r)
    (room_members r) (room_joins r) (room_leaves r) (room_pending_transition r)
    (room_pending_applications r) (room_pending_bytes r) (room_replay_ids r)
    (room_snapshots r) v (room_member_revisions r) (room_deliveries r)
    (room_delivery_bytes r) (room_expired_sender_gaps r).
Definition set_room_member_revisions (v : gmap CodeId Z) (r : RelayRoom) : RelayRoom :=
  mkRoom
    (room_id r) (room_owner_code_id r) (room_owner_username r) (room_policy r)
    (room_visibility r) (room_group_id r) (room_epoch r) (room_membership_digest r)
    (room_members r) (room_joins r) (room_leaves r) (room_pending_transition r)
    (room_pending_applications r) (room_pending_bytes r) (room_replay_ids r)
    (room_snapshots r) (room_snapshot_bytes r) v (room_deliveries r)
    (room_delivery_bytes r) (room_expired_sender_gaps r).
Definition set_room_deliveries (v : gmap CodeId (list PendingDelivery)) (r : RelayRoom) : RelayRoom :=
  mkRoom
    (room_id r) (room_owner_code_id r) (room_owner_username r) (room_policy r)
    (room_visibility r) (room_group_id r) (room_epoch r) (room_membership_digest r)
    (room_members r) (room_joins r) (room_leaves r) (room_pending_transition r)
    (room_pending_applications r) (room_pending_bytes r) (room_replay_ids r)
    (room_snapshots r) (room_snapshot_bytes r) (room_member_revisions r) v
    (room_delivery_bytes r) (room_expired_sender_gaps r).
Definition set_room_delivery_bytes (v : Z) (r : RelayRoom) : RelayRoom :=
  mkRoom
    (room_id r) (room_owner_code_id r) (room_owner_username r) (room_policy r)
    (room_visibility r) (room_group_id r) (room_epoch r) (room_membership_digest r)
    (room_members r) (room_joins r) (room_leaves r) (room_pending_transition r)
    (room_pending_applications r) (room_pending_bytes r) (room_replay_ids r)
    (room_snapshots r) (room_snapshot_bytes r) (room_member_revisions r)
    (room_deliveries r) v (room_expired_sender_gaps r).
Definition set_room_expired_sender_gaps (v : gmap (CodeId * CodeId) Z) (r : RelayRoom) : RelayRoom :=
  mkRoom
    (room_id r) (room_owner_code_id r) (room_owner_username r) (room_policy r)
    (room_visibility r) (room_group_id r) (room_epoch r) (room_membership_digest r)
    (room_members r) (room_joins r) (room_leaves r) (room_pending_transition r)
    (room_pending_applications r) (room_pending_bytes r) (room_replay_ids r)
    (room_snapshots r) (room_snapshot_bytes r) (room_member_revisions r)
    (room_deliveries r) (room_delivery_bytes r) v.

(** [RoomAuthority]. *)
Record RoomAuthority : Type := mkAuthority {
  rooms : gmap string RelayRoom;
  max_rooms : Z;
  join_ttl_ms : Z;
  pending_ttl_ms : Z;
  replay_ttl_ms : Z;
  max_delivery_count : Z;
  max_delivery_bytes : Z;
  global_pending_bytes : Z;
  global_pending_count : Z;
  global_snapshot_bytes : Z;
  global_snapshot_count : Z;
  global_replay_count : Z;
  global_delivery_bytes : Z;
  global_delivery_count : Z;
  global_expired_gap_pairs : Z
}.
Definition set_rooms (v : gmap string RelayRoom) (r : RoomAuthority) : RoomAuthority :=
  mkAuthority
    v (max_rooms r) (join_ttl_ms r) (pending_ttl_ms r) (replay_ttl_ms r)
    (max_delivery_count r) (max_delivery_bytes r) (global_pending_bytes r)
    (global_pending_count r) (global_snapshot_bytes r) (global_snapshot_count r)
    (global_replay_count r) (global_delivery_bytes r) (global_delivery_count r)
    (global_expired_gap_pairs r).
Definition set_global_pending_bytes (v : Z) (r : RoomAuthority) : RoomAuthority :=
  mkAuthority
    (rooms r) (max_rooms r) (join_ttl_ms r) (pending_ttl_ms r) (replay_ttl_ms r)
    (max_delivery_count r) (max_delivery_bytes r) v (global_pending_count r)
    (global_snapshot_bytes r) (global_snapshot_count r) (global_replay_count r)
    (global_delivery_bytes r) (global_delivery_count r) (global_expired_gap_pairs r).
Definition set_global_pending_count (v : Z) (r : RoomAuthority) : RoomAuthority :=
  mkAuthority
    (rooms r) (max_rooms r) (join_ttl_ms r) (pending_ttl_ms r) (replay_ttl_ms r)
    (max_delivery_count r) (max_delivery_bytes r) (global_pending_bytes r) v
    (global_snapshot_bytes r) (global_snapshot_count r) (global_replay_count r)
    (global_delivery_bytes r) (global_delivery_count r) (global_expired_gap_pairs r).
Definition set_global_snapshot_bytes (v : Z) (r : RoomAuthority) : RoomAuthority :=
  mkAuthority
    (rooms r) (max_rooms r) (join_ttl_ms r) (pending_ttl_ms r) (replay_ttl_ms r)
    (max_delivery_count r) (max_delivery_bytes r) (global_pending_bytes r)
    (global_pending_count r) v (global_snapshot_count r) (global_replay_count r)
    (global_delivery_bytes r) (global_delivery_count r) (global_expired_gap_pairs r).
Definition set_global_snapshot_count (v : Z) (r : RoomAuthority) : RoomAuthority :=
  mkAuthority
    (rooms r) (max_rooms r) (join_ttl_ms r) (pending_ttl_ms r) (replay_ttl_ms r)
    (max_delivery_count r) (max_delivery_bytes r) (global_pending_bytes r)
    (global_pending_count r) (global_snapshot_bytes r) v (global_replay_count r)
    (global_delivery_bytes r) (global_delivery_count r) (global_expired_gap_pairs r).
Definition set_global_replay_count (v : Z) (r : RoomAuthority) : RoomAuthority :=
  mkAuthority
    (rooms r) (max_rooms r) (join_ttl_ms r) (pending_ttl_ms r) (replay_ttl_ms r)
    (max_delivery_count r) (max_delivery_bytes r) (global_pending_bytes r)
    (global_pending_count r) (global_snapshot_bytes r) (global_snapshot_count r) v
    (global_delivery_bytes r) (global_delivery_count r) (global_expired_gap_pairs r).
Definition set_global_delivery_bytes (v : Z) (r : RoomAuthority) : RoomAuthority :=
  mkAuthority
    (rooms r) (max_rooms r) (join_ttl_ms r) (pending_ttl_ms r) (replay_ttl_ms r)
    (max_delivery_count r) (max_delivery_bytes r) (global_pending_bytes r)
    (global_pending_count r) (global_snapshot_bytes r) (global_snapshot_count r)
    (global_replay_count r) v (global_delivery_count r) (global_expired_gap_pairs r).
Definition set_global_delivery_count (v : Z) (r : RoomAuthority) : RoomAuthority :=
  mkAuthority
    (rooms r) (max_rooms r) (join_ttl_ms r) (pending_ttl_ms r) (replay_ttl_ms r)
    (max_delivery_count r) (max_delivery_bytes r) (global_pending_bytes r)
    (global_pending_count r) (global_snapshot_bytes r) (global_snapshot_count r)
    (global_replay_count r) (global_delivery_bytes r) v (global_expired_gap_pairs r).
Definition set_global_expired_gap_pairs (v : Z) (r : RoomAuthority) : RoomAuthority :=
  mkAuthority
    (rooms r) (max_rooms r) (join_ttl_ms r) (pending_ttl_ms r) (replay_ttl_ms r)
    (max_delivery_count r) (max_delivery_bytes r) (global_pending_bytes r)
    (global_pending_count r) (global_snapshot_bytes r) (global_snapshot_count r)
    (global_replay_count r) (global_delivery_bytes r) (global_delivery_count r) v.

(** [AuthorityAccounting]. *)
Record AuthorityAccounting : Type := mkAccounting {
  acc_pending_bytes : Z;
  acc_pending_count : Z;
  acc_snapshot_bytes : Z;
  acc_snapshot_count : Z;
  acc_replay_count : Z;
  acc_delivery_bytes : Z;
  acc_delivery_count : Z;
  acc_expired_gap_pairs : Z
}.

(** [MembershipResult]. *)
Inductive MembershipResult : Type :=
| Accepted (transition : MembershipTransition)
| RolledBack (message_id : string) (revision : Z).

