(* ===== verification/RoomValidation.v ===== *)
(** * Room validation (mirage-server/src/rooms/validation.rs)

    Identifier and roster validation, the resolution of a proposed roster
    against the room's members and join requests, and the byte sizes that the
    room accounting charges. *)

From S2P Require Import Prelude RoomModel.

(** ** Identifiers *)

Definition is_ascii_alphanumeric (c : Ascii.ascii) : bool :=
  let z := ascii_code c in
  bool_decide (48 ≤ z ≤ 57) || bool_decide (65 ≤ z ≤ 90) || bool_decide (97 ≤ z ≤ 122).

(** [byte.is_ascii_alphanumeric() || matches!(byte, b'_' | b'-')]. *)
Definition id_byte (c : Ascii.ascii) : bool :=
  is_ascii_alphanumeric c || bool_decide (ascii_code c = 95)
  || bool_decide (ascii_code c = 45).

Definition to_ascii_lowercase_char (c : Ascii.ascii) : Ascii.ascii :=
  let z := ascii_code c in
  if decide (65 ≤ z ≤ 90) then ascii_of_code (z + 32) else c.

Fixpoint to_ascii_lowercase (s : string) : string :=
  match s with
  | EmptyString => EmptyString
  | String c s => String (to_ascii_lowercase_char c) (to_ascii_lowercase s)
  end.

Definition all_id_bytes (s : string) : bool :=
  forallb id_byte (String.list_ascii_of_string s).

Definition validate_room_id (value : string) : result string () :=
  reject_if
    (bool_decide (value = "") || bool_decide (MAX_ROOM_ID_BYTES < slen value)
     || negb (all_id_bytes value))
    "room id rejected".

Definition validate_request_id (value : string) : result string () :=
  match validate_room_id value with
  | Ok u => Ok u
  | Err _ => Err "message id rejected"
  end.

Definition validate_username (value : string) : result string () :=
  reject_if
    (bool_decide (value = "") || bool_decide (MAX_USERNAME_BYTES < slen value)
     || negb (all_id_bytes value))
    "username rejected".

Definition all_zero (value : bytes) : bool :=
  forallb (λ b, bool_decide (b = Byte.x00)) value.

Definition validate_group_id (value : bytes) : result string () :=
  reject_if (bool_decide (len value ≠ GROUP_ID_BYTES) || all_zero value)
    "group id rejected".

Definition validate_digest (value : bytes) : result string () :=
  reject_if (bool_decide (len value ≠ MEMBERSHIP_DIGEST_BYTES))
    "membership digest rejected".

Definition validate_stable_identity (value : bytes) : result string () :=
  reject_if (bool_decide (len value ≠ STABLE_IDENTITY_BYTES) || all_zero value)
    "stable identity rejected".

Definition validate_state_envelope (value : bytes) : result string () :=
  reject_if (bool_decide (value = []) || bool_decide (MAX_STATE_BYTES < len value))
    "state snapshot rejected".

Definition canonical_username (value : string) : result string string :=
  _ ← validate_username value;
  Ok (to_ascii_lowercase value).

(** ** Sizes *)

Definition roster_size (roster : list RosterMember) : result string Z :=
  ok_or
    (checked_sum (roster ≫= λ m, [slen (ros_username m); len (ros_stable_identity m)]))
    "state snapshot accounting rejected".

Definition snapshot_size (snapshot : StateSnapshot) : result string Z :=
  r ← roster_size (ss_roster snapshot);
  ok_or (checked_add usize_MAX (len (ss_state_envelope snapshot)) r)
    "state snapshot accounting rejected".

(** ** Rosters *)

Definition canonical_member (m : Member) : result string RosterMember :=
  u ← canonical_username (mem_username m);
  Ok (mkRosterMember u (mem_stable_identity m)).

(** [iter.map(f).collect::<Result<Vec<_>, _>>()]: the first error wins. *)
Fixpoint collect {A B} (f : A → result string B) (l : list A) : result string (list B) :=
  match l with
  | [] => Ok []
  | x :: l => y ← f x; ys ← collect f l; Ok (y :: ys)
  end.

Lemma collect_Ok {A B} (f : A → result string B) l ys :
  collect f l = Ok ys → Forall2 (λ x y, f x = Ok y) l ys.
Proof.
  revert ys. induction l as [|x l IH]; intros ys H; simpl in H; run_ok; [constructor|].
  constructor; auto.
Qed.

Lemma collect_run {A B} (f : A → result string B) l ys :
  Forall2 (λ x y, f x = Ok y) l ys → collect f l = Ok ys.
Proof. induction 1 as [|x y l ys H _ IH]; [done|]. simpl. rewrite H. simpl. by rewrite IH. Qed.

Definition canonical_room_roster (room : RelayRoom) : result string (list RosterMember) :=
  collect canonical_member (btree_values (room_members room)).

Fixpoint roster_map_loop (roster : list RosterMember) (members : gmap string Member)
    (identities : gset bytes) : result string (gmap string Member) :=
  match roster with
  | [] => Ok members
  | m :: roster =>
      _ ← validate_username (ros_username m);
      _ ← validate_stable_identity (ros_stable_identity m);
      canonical ← canonical_username (ros_username m);
      _ ← reject_if
            (bool_decide (ros_stable_identity m ∈ identities)
             || contains_key canonical members)
            "membership roster rejected";
      roster_map_loop roster
        (<[canonical := mkMember (ros_username m) zero_code_id
                          (ros_stable_identity m) false]> members)
        ({[ros_stable_identity m]} ∪ identities)
  end.

Definition roster_map (roster : list RosterMember)
    : result string (gmap string Member) :=
  _ ← reject_if (bool_decide (roster = []) || bool_decide (MAX_MEMBERS < len roster))
        "membership roster rejected";
  roster_map_loop roster ∅ ∅.

Definition rosters_match_room (roster : list RosterMember) (room : RelayRoom)
    : result string bool :=
  candidate ← roster_map roster;
  if bool_decide (map_len candidate ≠ map_len (room_members room)) then Ok false
  else
    Ok (forallb
          (λ um, match room_members room !! um.1 with
                 | Some current =>
                     bool_decide (mem_code_id current ≠ zero_code_id)
                     && bool_decide (mem_stable_identity current
                                     = mem_stable_identity um.2)
                 | None => false
                 end)
          (btree_iter candidate)).

(** What a transition may change about a member: its code and identity. *)
Definition member_key (m : Member) : CodeId * bytes :=
  (mem_code_id m, mem_stable_identity m).

Definition changed_usernames (current next : gmap string Member) : gset string :=
  filter (λ u, member_key <$> current !! u ≠ member_key <$> next !! u)
    (dom current ∪ dom next).

(** One iteration of the loop of [resolve_next_roster]. *)
Definition resolve_member (room : RelayRoom) (transition : MembershipTransition)
    (username : string) (member : Member) : result string Member :=
  match room_members room !! username with
  | Some current =>
      _ ← reject_if
            (bool_decide (mem_stable_identity current ≠ mem_stable_identity member))
            "membership roster identity changed";
      Ok current
  | None =>
      request ← ok_or (id ← mt_request_id transition; room_joins room !! id)
                  "join request required";
      u ← canonical_username (jr_username (pj_request request));
      _ ← reject_if
            (bool_decide (u ≠ username)
             || bool_decide (jr_stable_identity (pj_request request)
                             ≠ mem_stable_identity member))
            "join request binding rejected";
      Ok (mkMember (jr_username (pj_request request)) (jr_code_id (pj_request request))
            (mem_stable_identity member) false)
  end.

Fixpoint resolve_loop (room : RelayRoom) (transition : MembershipTransition)
    (requested : list (string * Member)) (next : gmap string Member)
    : result string (gmap string Member) :=
  match requested with
  | [] => Ok next
  | (username, member) :: requested =>
      m ← resolve_member room transition username member;
      resolve_loop room transition requested (<[username := m]> next)
  end.

Definition resolve_next_roster (room : RelayRoom) (transition : MembershipTransition)
    : result string (gmap string Member) :=
  requested_next ← roster_map (mt_roster transition);
  resolve_loop room transition (btree_iter requested_next) ∅.

(** ** Transitions and checkpoints *)

Definition validate_transition (t : MembershipTransition) : result string () :=
  _ ← validate_room_id (mt_room_id t);
  _ ← validate_request_id (mt_message_id t);
  _ ← match mt_request_id t with
      | Some request_id => validate_request_id request_id
      | None => Ok tt
      end;
  _ ← validate_group_id (mt_group_id t);
  _ ← validate_digest (mt_membership_digest t);
  _ ← reject_if
        (bool_decide (mt_control t = [])
         || bool_decide (MAX_CONTROL_BYTES < len (mt_control t)))
        "membership control rejected";
  _ ← reject_if (bool_decide (MAX_CONTROL_BYTES < len (mt_welcome t)))
        "membership welcome rejected";
  _ ← reject_if
        (bool_decide (mt_authenticated_data t = [])
         || bool_decide (MAX_AUTHENTICATED_DATA_BYTES < len (mt_authenticated_data t)))
        "membership authenticated data rejected";
  reject_if
    (bool_decide (mt_state_envelope t = [])
     || bool_decide (MAX_STATE_BYTES < len (mt_state_envelope t)))
    "membership state rejected".

Definition validate_current_metadata (room : RelayRoom) (group_id : bytes) (epoch : Z)
    (membership_digest : bytes) : result string () :=
  reject_if
    (bool_decide (room_group_id room ≠ group_id)
     || bool_decide (room_epoch room ≠ epoch)
     || bool_decide (room_membership_digest room ≠ membership_digest))
    "room checkpoint rejected".

(** * Rosters

    What a successful [roster_map] and [resolve_next_roster] establish. *)

Lemma NoDup_btree_keys {V} (m : gmap string V) : NoDup (btree_iter m).*1.
Proof. rewrite btree_iter_perm. apply NoDup_fst_map_to_list. Qed.

Lemma canonical_username_Ok s u :
  canonical_username s = Ok u → u = to_ascii_lowercase s ∧ s ≠ "" ∧ slen s ≤ MAX_USERNAME_BYTES.
Proof. unfold canonical_username, validate_username. intros. run_ok. split_bools. auto with lia. Qed.

(** ** [roster_map] *)

(** The member a roster entry stands for, before its code is resolved. *)
Definition entry_member (e : RosterMember) : Member :=
  mkMember (ros_username e) zero_code_id (ros_stable_identity e) false.

Lemma roster_map_loop_spec roster acc ids m :
  roster_map_loop roster acc ids = Ok m →
  (∀ u x, acc !! u = Some x → mem_stable_identity x ∈ ids) →
  (∀ u1 u2 x1 x2, acc !! u1 = Some x1 → acc !! u2 = Some x2 →
     mem_stable_identity x1 = mem_stable_identity x2 → u1 = u2) →
  map_len m = map_len acc + len roster ∧
  (∀ u1 u2 x1 x2, m !! u1 = Some x1 → m !! u2 = Some x2 →
     mem_stable_identity x1 = mem_stable_identity x2 → u1 = u2) ∧
  (∀ u x, m !! u = Some x ↔
     acc !! u = Some x ∨
     ∃ e, e ∈ roster ∧ canonical_username (ros_username e) = Ok u ∧ x = entry_member e).
Proof.
  revert acc ids. induction roster as [|e roster IH]; intros acc ids Hm Hids Hinj; simpl in Hm.
  { run_ok. split_and!; [unfold len; simpl; lia|done|]. intros u x. split; [by left|].
    intros [?|(e & He%elem_of_nil & _)]; done. }
  run_ok. rename x1 into u0. clear H H0. clear x x0 x2. split_bools.
  destruct (IH _ _ H3) as (Hl & Hi & Hs).
  - intros u x. destruct (decide (u = u0)) as [->|].
    + rewrite lookup_insert_eq. intros [= <-]. simpl. set_solver.
    + rewrite lookup_insert_ne by done. intros ?%Hids. set_solver.
  - intros u1 u2 x1 y2.
    destruct (decide (u1 = u0)) as [->|], (decide (u2 = u0)) as [->|];
      rewrite ?lookup_insert_eq, ?lookup_insert_ne by done; intros; simplify_eq/=; try done.
    + match goal with H : acc !! u2 = Some _ |- _ => apply Hids in H end. congruence.
    + match goal with H : acc !! u1 = Some _ |- _ => apply Hids in H end. congruence.
    + by eapply Hinj.
  - split_and!; [|done|].
    + rewrite Hl, map_len_insert, len_cons. rewrite (proj2 (contains_key_false _ _)) by done.
      lia.
    + intros u x. rewrite Hs. split.
      * intros [Hu|(e' & ? & ?)]; [|right; exists e'; set_solver].
        destruct (decide (u = u0)) as [->|].
        -- rewrite lookup_insert_eq in Hu. simplify_eq. right. exists e. split; [set_solver|done].
        -- rewrite lookup_insert_ne in Hu by done. by left.
      * intros [Hu|(e' & [->|]%elem_of_cons & Hu & ->)]; [|left|right; eauto].
        -- left. rewrite lookup_insert_ne; [done|]. intros ->. congruence.
        -- assert (u = u0) as -> by congruence. by rewrite lookup_insert_eq.
Qed.

Lemma roster_map_spec roster m :
  roster_map roster = Ok m →
  map_len m = len roster ∧ 0 < len roster ≤ MAX_MEMBERS ∧
  (∀ u1 u2 x1 x2, m !! u1 = Some x1 → m !! u2 = Some x2 →
     mem_stable_identity x1 = mem_stable_identity x2 → u1 = u2) ∧
  (∀ u x, m !! u = Some x ↔
     ∃ e, e ∈ roster ∧ canonical_username (ros_username e) = Ok u ∧ x = entry_member e).
Proof.
  unfold roster_map. intros Hm. run_ok. split_bools.
  destruct (roster_map_loop_spec _ _ _ _ H0) as (Hl & Hi & Hs); [done..|].
  split_and!; [|destruct roster; [done|rewrite len_cons; pose proof (len_nonneg roster); lia]
              |lia|done|].
  - rewrite Hl. unfold map_len. rewrite map_size_empty. lia.
  - intros u x'. rewrite Hs. rewrite lookup_empty. naive_solver.
Qed.

(** ** [resolve_next_roster] *)

Lemma resolve_loop_spec room t l acc next :
  resolve_loop room t l acc = Ok next → NoDup l.*1 →
  (∀ u, u ∉ l.*1 → next !! u = acc !! u) ∧
  (∀ u m, (u, m) ∈ l → ∃ m', next !! u = Some m' ∧ resolve_member room t u m = Ok m').
Proof.
  revert acc. induction l as [|[u m] l IH]; intros acc Hl Hnd; cbn [resolve_loop] in Hl.
  { run_ok. split; [done|]. intros ? ? ?%elem_of_nil. done. }
  apply NoDup_cons in Hnd as [Hu Hnd]. run_ok.
  destruct (IH _ H0 Hnd) as [H1 H2]. split.
  - intros u' Hu'. apply not_elem_of_cons in Hu' as [Hne Hni].
    rewrite H1 by done. by rewrite lookup_insert_ne.
  - intros u' m' [[= -> ->]|Hin]%elem_of_cons; [|eauto].
    exists x. split; [|done]. simpl in Hu. by rewrite H1, lookup_insert_eq.
Qed.

Lemma resolve_next_roster_spec room t next :
  resolve_next_roster room t = Ok next →
  ∃ req, roster_map (mt_roster t) = Ok req ∧
    (∀ u, is_Some (next !! u) ↔ is_Some (req !! u)) ∧
    (∀ u m', next !! u = Some m' → ∃ m, req !! u = Some m ∧ resolve_member room t u m = Ok m').
Proof.
  unfold resolve_next_roster. intros. run_ok. exists x. split; [done|].
  destruct (resolve_loop_spec _ _ _ _ _ H0 (NoDup_btree_keys x)) as [H1 H2].
  assert (∀ u m, x !! u = Some m → ∃ m', next !! u = Some m' ∧ resolve_member room t u m = Ok m')
    as H3. { intros u m Hu. apply H2. by apply elem_of_btree_iter. }
  assert (∀ u, x !! u = None → next !! u = None) as H4.
  { intros u Hu. rewrite H1, lookup_empty; [done|]. intros Hin.
    apply list_elem_of_fmap in Hin as ([u' m] & -> & Hin%elem_of_btree_iter).
    simpl in *. congruence. }
  split.
  - intros u. destruct (x !! u) as [m|] eqn:Hu.
    + destruct (H3 u m Hu) as (m' & -> & _). done.
    + by rewrite (H4 u Hu).
  - intros u m' Hm'. destruct (x !! u) as [m|] eqn:Hu.
    + destruct (H3 u m Hu) as (m2 & ? & ?). simplify_eq. eauto.
    + rewrite (H4 u Hu) in Hm'. done.
Qed.

(** The join request a transition answers, if any. *)
Definition answered_join (room : RelayRoom) (t : MembershipTransition) : option PendingJoin :=
  id ← mt_request_id t; room_joins room !! id.

(** A resolved member: unchanged, or the requested joiner, inactive. *)
Lemma resolve_member_cases room t u m m' :
  resolve_member room t u m = Ok m' →
  (room_members room !! u = Some m' ∧ mem_stable_identity m' = mem_stable_identity m) ∨
  (room_members room !! u = None ∧ ∃ j, answered_join room t = Some j ∧
     canonical_username (jr_username (pj_request j)) = Ok u ∧
     jr_stable_identity (pj_request j) = mem_stable_identity m ∧
     m' = mkMember (jr_username (pj_request j)) (jr_code_id (pj_request j))
            (jr_stable_identity (pj_request j)) false).
Proof.
  unfold resolve_member. destruct (room_members room !! u) as [c|] eqn:Hc; intros; run_ok.
  - left. split_bools. split; [done|]. by apply dec_stable.
  - right. split; [done|]. split_bools.
    repeat match goal with H : ¬ (_ ≠ _) |- _ => apply dec_stable in H end. subst.
    exists x. unfold answered_join. split_and!; try done. congruence.
Qed.
