(* ===== verification/RoomDelivery.v ===== *)
(** * Pending deliveries (mirage-server/src/rooms/delivery.rs)

    Delivery revisions, their compaction after a removal, the expiry of
    application deliveries with the ratchet gaps it opens, the deliveries of a
    membership transition, and their byte sizes. *)

From S2P Require Import Prelude RoomModel RoomValidation.

(** ** Sizes *)

Definition payload_bytes (payload : DeliveryPayload) : option Z :=
  match payload with
  | Membership _ from_membership_digest group_id roster control welcome
      authenticated_data =>
      let roster_bytes :=
        checked_sum
          (roster ≫= λ m, [slen (ros_username m); len (ros_stable_identity m)]) in
      b ← checked_add usize_MAX (len from_membership_digest) (len group_id);
      r ← roster_bytes;
      b ← checked_add usize_MAX b r;
      checked_add_all b [len control; len welcome; len authenticated_data]
  | Application _ sender_username _ ciphertext authenticated_data =>
      checked_add_all CODE_ID_BYTES
        [slen sender_username; len ciphertext; len authenticated_data]
  end.

Definition delivery_size (delivery : PendingDelivery) : result string Z :=
  p ← ok_or (payload_bytes (pd_payload delivery)) "delivery accounting rejected";
  ok_or
    (checked_add_all (slen (pd_room_id delivery))
       [slen (pd_message_id delivery); len (pd_membership_digest delivery); p])
    "delivery accounting rejected".

Definition delivery_bytes (deliveries : list PendingDelivery) : result string Z :=
  ok_or (try_sum ((ok ∘ delivery_size) <$> deliveries)) "delivery accounting rejected".

(** ** Revisions *)

(** The queue of one recipient; an absent queue has no deliveries. *)
Definition queue_of (room : RelayRoom) (code_id : CodeId) : list PendingDelivery :=
  default [] (room_deliveries room !! code_id).

Definition next_delivery_revision (room : RelayRoom) (code_id : CodeId)
    : result string Z :=
  ok_or
    (checked_add u64_MAX
       (Z.max (default 0 (room_member_revisions room !! code_id))
          (default 0 (q ← room_deliveries room !! code_id; d ← last q; Some (pd_revision d))))
       1)
    "delivery revision exhausted".

(** [room.members.values().find(|m| m.code_id == code)], in key order. *)
Definition find_member (room : RelayRoom) (code_id : CodeId) : option Member :=
  snd <$> list_find (λ m, mem_code_id m = code_id) (btree_values (room_members room)).

Definition member_active (room : RelayRoom) (code_id : CodeId) : bool :=
  match find_member room code_id with Some m => mem_active m | None => false end.

Definition has_welcome (payload : DeliveryPayload) : bool :=
  match payload with
  | Membership _ _ _ _ _ welcome _ => bool_decide (welcome ≠ [])
  | Application _ _ _ _ _ => false
  end.

(** The revisions the loop of [compact_delivery_revisions] assigns. *)
Fixpoint compact_loop (active : bool) (index : nat) (next : Z)
    (queue : list PendingDelivery) : option (list Z) :=
  match queue with
  | [] => Some []
  | d :: queue =>
      if negb active && bool_decide (index = 0%nat) && has_welcome (pd_payload d) then
        rs ← compact_loop active (S index) 1 queue; Some (0 :: rs)
      else
        next' ← checked_add u64_MAX next 1;
        rs ← compact_loop active (S index) next' queue; Some (next :: rs)
  end.

Definition compact_delivery_revisions (code_id : CodeId)
    : ST RelayRoom string () := λ room,
  match checked_add u64_MAX (default 0 (room_member_revisions room !! code_id)) 1 with
  | None => (Err "delivery revision exhausted", room)
  | Some next =>
      match room_deliveries room !! code_id with
      | None => (Ok tt, room)
      | Some queue =>
          match compact_loop (member_active room code_id) 0 next queue with
          | None => (Err "delivery revision exhausted", room)
          | Some revisions =>
              (Ok tt,
               set_room_deliveries
                 (<[code_id := zip_with (λ d r, set_pd_revision r d) queue revisions]>
                    (room_deliveries room)) room)
          end
      end
  end.

(** ** Expiry of application deliveries *)

(** The state of the inner loop over one recipient's queue. *)
Record gap_scan : Type := mkScan {
  scan_queue : list PendingDelivery;
  scan_gaps : gmap (CodeId * CodeId) Z;
  scan_removed : bool;
  scan_global : Z
}.

Definition expired_sender (now : Z) (delivery : PendingDelivery) : option CodeId :=
  match pd_payload delivery with
  | Application sender_code_id _ _ _ _ =>
      if decide (pd_expires_at_ms delivery ≤ now) then Some sender_code_id else None
  | Membership _ _ _ _ _ _ _ => None
  end.

Definition beyond_history (gaps : gmap (CodeId * CodeId) Z) (code_id : CodeId)
    (delivery : PendingDelivery) : bool :=
  match pd_payload delivery with
  | Application sender_code_id _ _ _ _ =>
      match gaps !! (code_id, sender_code_id) with
      | Some gap => bool_decide (MAX_RATCHET_BACK_HISTORY < gap)
      | None => false
      end
  | Membership _ _ _ _ _ _ _ => false
  end.

(** One iteration of the scan; an error keeps the global pair counter the
    iterations before it reached. *)
Definition scan_delivery (code_id : CodeId) (now : Z) (delivery : PendingDelivery)
    : ST gap_scan string () := λ s,
  match expired_sender now delivery with
  | Some sender =>
      let is_new := negb (contains_key (code_id, sender) (scan_gaps s)) in
      if is_new
         && (bool_decide (MAX_EXPIRED_GAP_PAIRS_PER_ROOM ≤ map_len (scan_gaps s))
             || bool_decide (MAX_GLOBAL_EXPIRED_GAP_PAIRS ≤ scan_global s))
      then (Err "expired sender gap limit reached", s)
      else
        match checked_add u16_MAX (default 0 (scan_gaps s !! (code_id, sender))) 1 with
        | None => (Err "expired sender gap exhausted", s)
        | Some gap =>
            let s' := mkScan (scan_queue s) (<[(code_id, sender) := gap]> (scan_gaps s))
                        true (scan_global s) in
            if is_new then
              match checked_add usize_MAX (scan_global s) 1 with
              | None => (Err "expired sender gap accounting rejected", s')
              | Some g =>
                  (Ok tt, mkScan (scan_queue s') (scan_gaps s') (scan_removed s') g)
              end
            else (Ok tt, s')
        end
  | None =>
      if beyond_history (scan_gaps s) code_id delivery then
        (Ok tt, mkScan (scan_queue s) (scan_gaps s) true (scan_global s))
      else
        (Ok tt, mkScan (scan_queue s ++ [delivery]) (scan_gaps s) (scan_removed s)
                  (scan_global s))
  end.

Fixpoint scan_queue_loop (code_id : CodeId) (now : Z) (queue : list PendingDelivery)
    : ST gap_scan string () :=
  match queue with
  | [] => mret tt
  | d :: queue => _ ← scan_delivery code_id now d; scan_queue_loop code_id now queue
  end.

(** The body of the loop over recipients: room and global pair counter. *)
Definition expire_recipient (now : Z) (code_id : CodeId)
    : ST (RelayRoom * Z) string () := λ '(room, global),
  match room_deliveries room !! code_id with
  | None => (Ok tt, (room, global))
  | Some queue =>
      let '(r, s) :=
        scan_queue_loop code_id now queue
          (mkScan [] (room_expired_sender_gaps room) false global) in
      match r with
      | Err e => (Err e, (room, scan_global s))
      | Ok _ =>
          if scan_removed s then
            let '(r, room') :=
              compact_delivery_revisions code_id
                (set_room_expired_sender_gaps (scan_gaps s)
                   (set_room_deliveries
                      (<[code_id := scan_queue s]> (room_deliveries room)) room)) in
            (r, (room', scan_global s))
          else (Ok tt, (room, scan_global s))
      end
  end.

Fixpoint expire_recipients (now : Z) (code_ids : list CodeId)
    : ST (RelayRoom * Z) string () :=
  match code_ids with
  | [] => mret tt
  | code_id :: code_ids =>
      _ ← expire_recipient now code_id; expire_recipients now code_ids
  end.

Definition prune_expired_application_deliveries {HO : HashOrder} (now : Z)
    : ST (RelayRoom * Z) string () := λ '(room, global),
  expire_recipients now (hash_keys (room_deliveries room)) (room, global).

(** ** Deliveries of a membership transition *)

Definition commit_delivery (room : RelayRoom) (t : MembershipTransition) (m : Member)
    : result string PendingDelivery :=
  revision ← next_delivery_revision room (mem_code_id m);
  Ok (mkDelivery (room_id room) (mt_message_id t) (mem_code_id m) (mt_to_epoch t)
        (mt_membership_digest t) revision
        (Membership (mt_from_epoch t) (mt_from_membership_digest t) (mt_group_id t)
           (mt_roster t) (mt_control t) [] (mt_authenticated_data t))
        (mt_created_at_ms t) u64_MAX).

Definition welcome_delivery (room : RelayRoom) (t : MembershipTransition) (m : Member)
    : PendingDelivery :=
  mkDelivery (room_id room) (mt_message_id t) (mem_code_id m) (mt_to_epoch t)
    (mt_membership_digest t) 0
    (Membership (mt_from_epoch t) (mt_from_membership_digest t) (mt_group_id t)
       (mt_roster t) [] (mt_welcome t) (mt_authenticated_data t))
    (mt_created_at_ms t) u64_MAX.

Definition membership_deliveries (room : RelayRoom) (t : MembershipTransition)
    (next : gmap string Member) : result string (list PendingDelivery) :=
  commits ← collect (commit_delivery room t)
    (snd <$> filter
       (λ um, mem_code_id um.2 ≠ room_owner_code_id room ∧ is_Some (next !! um.1))
       (btree_iter (room_members room)));
  Ok (commits ++
      (welcome_delivery room t ∘ snd <$>
         filter (λ um, room_members room !! um.1 = None) (btree_iter next))).

(** [entry(recipient).or_default().push_back(delivery)]. *)
Definition push_delivery (deliveries : gmap CodeId (list PendingDelivery))
    (d : PendingDelivery) : gmap CodeId (list PendingDelivery) :=
  <[pd_recipient_code_id d :=
      default [] (deliveries !! pd_recipient_code_id d) ++ [d]]> deliveries.

Definition push_deliveries (ds : list PendingDelivery)
    (deliveries : gmap CodeId (list PendingDelivery))
    : gmap CodeId (list PendingDelivery) :=
  foldl push_delivery deliveries ds.
