(* ===== verification/RoomAuthority.v ===== *)
(** * The room authority (mirage-server/src/rooms.rs, rooms/snapshot.rs views)

    Construction, the accounting of encrypted bytes and records, the expiry
    sweep every entry point runs first, room creation and deletion, and the
    read-only views.  Each reading of [now_ms()] is an argument. *)

From S2P Require Import Prelude RoomModel RoomValidation RoomDelivery.

(** [RoomAuthority::new_with_pending_ttl], [RoomAuthority::new]. *)
Definition new_with_pending_ttl (max_rooms pending_ttl : Z) : RoomAuthority :=
  mkAuthority ∅ (Z.max max_rooms 1) DEFAULT_JOIN_TTL_MS pending_ttl
    DEFAULT_REPLAY_TTL_MS MAX_GLOBAL_DELIVERIES MAX_GLOBAL_DELIVERY_BYTES
    0 0 0 0 0 0 0 0.

Definition new (max_rooms : Z) : RoomAuthority :=
  new_with_pending_ttl max_rooms DEFAULT_PENDING_TTL_MS.

Definition room_count (self : RoomAuthority) : Z := map_len (rooms self).

(** [RoomAuthority::room]. *)
Definition get_room (room_id : string) (self : RoomAuthority) : result string RelayRoom :=
  ok_or (rooms self !! room_id) "room unavailable".

(** A write through the reference [room_mut] returned. *)
Definition put_room (room_id : string) (room : RelayRoom) (self : RoomAuthority)
    : RoomAuthority :=
  set_rooms (<[room_id := room]> (rooms self)) self.

(** ** Views (rooms/snapshot.rs) *)

Definition is_member_of (room : RelayRoom) (code_id : CodeId) : bool :=
  existsb (λ m, bool_decide (mem_code_id m = code_id)) (btree_values (room_members room)).

Definition is_active_in (room : RelayRoom) (code_id : CodeId) : bool :=
  existsb (λ m, bool_decide (mem_code_id m = code_id) && mem_active m)
    (btree_values (room_members room)).

Definition gap_blocked {HO : HashOrder} (room : RelayRoom) (code_id : CodeId) : bool :=
  existsb (λ '((recipient, _), gap),
             bool_decide (recipient = code_id) && bool_decide (MAX_RATCHET_BACK_HISTORY < gap))
    (hash_iter (room_expired_sender_gaps room)).

Definition snapshot_current (room : RelayRoom) (code_id : CodeId) : bool :=
  match room_snapshots room !! code_id with
  | None => false
  | Some s =>
      bool_decide (room_member_revisions room !! code_id = Some (ss_revision s))
      && bool_decide (ss_epoch s = room_epoch room)
      && bool_decide (ss_membership_digest s = room_membership_digest room)
      && match rosters_match_room (ss_roster s) room with Ok b => b | Err _ => false end
  end.

Definition room_info_for {HO : HashOrder} (room : RelayRoom)
    (member_code_id : option CodeId) (include_roster : bool) : RoomInfo :=
  let active :=
    match member_code_id with Some c => is_active_in room c | None => false end in
  let revision :=
    default 0 (c ← member_code_id; room_member_revisions room !! c) in
  let recovery :=
    c ← member_code_id; s ← room_snapshots room !! c;
    Some (mkRecoverySnapshot active (ss_epoch s) (ss_revision s) (ss_membership_digest s)
            (ss_state_envelope s) (ss_roster s)) in
  let synchronized :=
    match member_code_id with
    | None => false
    | Some c =>
        active
        && bool_decide (queue_of room c = [])
        && negb (gap_blocked room c)
        && snapshot_current room c
    end in
  mkRoomInfo (room_id room) (room_owner_username room) (room_group_id room) active
    synchronized (room_epoch room) revision recovery (room_membership_digest room)
    (if include_roster
     then (λ m, mkRosterMember (mem_username m) (mem_stable_identity m)) <$>
            btree_values (room_members room)
     else [])
    (room_policy room) (room_visibility room).

Definition pending_room_info_for (room : RelayRoom) (state_envelope : bytes) : RoomInfo :=
  mkRoomInfo (room_id room) (room_owner_username room) (room_group_id room) false false
    0 0 (Some (mkRecoverySnapshot false 0 0 [] state_envelope [])) [] []
    (room_policy room) (room_visibility room).

(** ** Accounting *)

(** Bytes charged for an admitted application that is not yet committed. *)
Definition pending_app_bytes (p : PendingApplication) : option Z :=
  checked_add_all (len (aa_ciphertext (pa_admission p)))
    [len (aa_authenticated_data (pa_admission p)); slen (aa_message_id (pa_admission p))].

Definition zero_accounting : AuthorityAccounting := mkAccounting 0 0 0 0 0 0 0 0.

Section accounting.
Context {HO : HashOrder}.

(** One iteration of the loop of [checked_accounting_excluding]. *)
Definition add_room_accounting (totals : AuthorityAccounting) (room : RelayRoom)
    : result string AuthorityAccounting :=
  pending_count ←
    ok_or (checked_add usize_MAX (acc_pending_count totals)
             (map_len (room_pending_applications room)))
      "pending application accounting rejected";
  pending_bytes ←
    ok_or (try_sum_from (acc_pending_bytes totals)
             (pending_app_bytes <$> hash_values (room_pending_applications room)))
      "pending application accounting rejected";
  snapshot_count ←
    ok_or (checked_add_all (acc_snapshot_count totals)
             [map_len (room_snapshots room); map_len (room_joins room)])
      "state snapshot accounting rejected";
  snapshot_bytes ←
    ok_or (checked_add usize_MAX (acc_snapshot_bytes totals) (room_snapshot_bytes room))
      "state snapshot accounting rejected";
  snapshot_bytes ←
    ok_or (checked_add_all snapshot_bytes
             ((λ j, len (pj_state_envelope j)) <$> hash_values (room_joins room)))
      "state snapshot accounting rejected";
  replay_count ←
    ok_or (checked_add usize_MAX (acc_replay_count totals) (len (room_replay_ids room)))
      "replay accounting rejected";
  delivery_count ←
    ok_or (checked_add_all (acc_delivery_count totals)
             (len <$> hash_values (room_deliveries room)))
      "delivery accounting rejected";
  delivery_bytes ←
    ok_or (try_sum_from (acc_delivery_bytes totals)
             ((ok ∘ delivery_size) <$> concat (hash_values (room_deliveries room))))
      "delivery accounting rejected";
  expired_gap_pairs ←
    ok_or (count ← checked_add usize_MAX (acc_expired_gap_pairs totals)
                     (map_len (room_expired_sender_gaps room));
           if decide (count ≤ MAX_GLOBAL_EXPIRED_GAP_PAIRS) then Some count else None)
      "expired sender gap accounting rejected";
  Ok (mkAccounting pending_bytes pending_count snapshot_bytes snapshot_count
        replay_count delivery_bytes delivery_count expired_gap_pairs).

Definition account_rooms (rs : list RelayRoom) (totals : AuthorityAccounting)
    : result string AuthorityAccounting :=
  foldl (λ acc room, t ← acc; add_room_accounting t room) (Ok totals) rs.

Definition checked_accounting_excluding (excluded : option string)
    (self : RoomAuthority) : result string AuthorityAccounting :=
  account_rooms
    (filter (λ room, excluded ≠ Some (room_id room)) (hash_values (rooms self)))
    zero_accounting.

Definition apply_accounting (totals : AuthorityAccounting) (self : RoomAuthority)
    : RoomAuthority :=
  mkAuthority (rooms self) (max_rooms self) (join_ttl_ms self) (pending_ttl_ms self)
    (replay_ttl_ms self) (max_delivery_count self) (max_delivery_bytes self)
    (acc_pending_bytes totals) (acc_pending_count totals) (acc_snapshot_bytes totals)
    (acc_snapshot_count totals) (acc_replay_count totals) (acc_delivery_bytes totals)
    (acc_delivery_count totals) (acc_expired_gap_pairs totals).

Definition recompute_state_accounting : ST RoomAuthority string () := λ self,
  match checked_accounting_excluding None self with
  | Err e => (Err e, self)
  | Ok totals =>
      (Ok tt, set_global_snapshot_bytes (acc_snapshot_bytes totals)
                (set_global_snapshot_count (acc_snapshot_count totals) self))
  end.

Definition recompute_gap_accounting : ST RoomAuthority string () := λ self,
  match
    count ← checked_sum
              ((λ r, map_len (room_expired_sender_gaps r)) <$> hash_values (rooms self));
    (if decide (count ≤ MAX_GLOBAL_EXPIRED_GAP_PAIRS) then Some count else None)
  with
  | None => (Err "expired sender gap accounting rejected", self)
  | Some count => (Ok tt, set_global_expired_gap_pairs count self)
  end.

(** *** Replay identifiers *)

(** [min_by_key] over the front timestamps: the first minimum wins. *)
Definition oldest_replay_room (rs : list (string * RelayRoom)) : option (string * Z) :=
  foldl (λ best ir,
           match head (room_replay_ids ir.2) with
           | None => best
           | Some (_, created) =>
               match best with
               | Some (_, b) => if decide (created < b) then Some (ir.1, created) else best
               | None => Some (ir.1, created)
               end
           end) None rs.

Fixpoint trim_loop (fuel : nat) : ST RoomAuthority string () := λ self,
  if decide (global_replay_count self ≤ MAX_GLOBAL_REPLAY_IDS) then (Ok tt, self)
  else
    match fuel with
    | O => (Ok tt, self)
    | S fuel =>
        match oldest_replay_room (hash_iter (rooms self)) with
        | None => (Err "replay accounting rejected", self)
        | Some (oldest, _) =>
            match rooms self !! oldest with
            | None =>
                match checked_sub (global_replay_count self) 1 with
                | None => (Err "replay accounting rejected", self)
                | Some n => trim_loop fuel (set_global_replay_count n self)
                end
            | Some room =>
                match room_replay_ids room with
                | [] => (Err "replay accounting rejected", self)
                | _ :: rest =>
                    let self := put_room oldest (set_room_replay_ids rest room) self in
                    match checked_sub (global_replay_count self) 1 with
                    | None => (Err "replay accounting rejected", self)
                    | Some n => trim_loop fuel (set_global_replay_count n self)
                    end
                end
            end
        end
    end.

Definition trim_replay_ids : ST RoomAuthority string () := λ self,
  match checked_sum ((λ r, len (room_replay_ids r)) <$> hash_values (rooms self)) with
  | None => (Err "replay accounting rejected", self)
  | Some count => trim_loop (Z.to_nat count) (set_global_replay_count count self)
  end.

(** [if room.replay_ids.len() >= MAX { pop_front }; push_back(entry)]. *)
Definition push_replay (entry : ReplayKey * Z) (ids : list (ReplayKey * Z))
    : list (ReplayKey * Z) :=
  (if decide (MAX_REPLAY_IDS ≤ len ids) then tail ids else ids) ++ [entry].

(** ** The expiry sweep *)

(** [queue.retain(|d| d.message_id != message_id)] on one queue, if any. *)
Definition drop_message (message_id : string) (code_id : CodeId) (room : RelayRoom)
    : RelayRoom :=
  match room_deliveries room !! code_id with
  | None => room
  | Some queue =>
      set_room_deliveries
        (<[code_id := filter (λ d, pd_message_id d ≠ message_id) queue]>
           (room_deliveries room)) room
  end.

Definition restore_snapshot (sender : CodeId) (previous : option StateSnapshot)
    (room : RelayRoom) : RelayRoom :=
  match previous with
  | Some s => set_room_snapshots (<[sender := s]> (room_snapshots room)) room
  | None => set_room_snapshots (delete sender (room_snapshots room)) room
  end.

Definition drop_and_compact (message_id : string) (room : RelayRoom)
    (code_id : CodeId) : RelayRoom :=
  match compact_delivery_revisions code_id (drop_message message_id code_id room) with
  | (Ok _, room) => room
  | (Err _, room) => set_room_delivery_bytes usize_MAX room
  end.

(** Undo one admitted application whose admission expired. *)
Definition expire_application (room : RelayRoom) (message_id : string) : RelayRoom :=
  match room_pending_applications room !! message_id with
  | None => room
  | Some pending =>
      let room := set_room_pending_applications
                    (delete message_id (room_pending_applications room)) room in
      let room := foldl (drop_and_compact message_id) room
                    (hash_keys (room_deliveries room)) in
      let room := set_room_member_revisions
                    (<[pa_sender_code_id pending := pa_previous_sender_revision pending]>
                       (room_member_revisions room)) room in
      restore_snapshot (pa_sender_code_id pending) (pa_previous_snapshot pending) room
  end.

Fixpoint drop_replays (now ttl : Z) (ids : list (ReplayKey * Z))
    : list (ReplayKey * Z) :=
  match ids with
  | [] => []
  | (k, created) :: rest =>
      if decide (ttl ≤ saturating_sub now created) then drop_replays now ttl rest
      else ids
  end.

Definition sum_snapshot_bytes (m : gmap CodeId StateSnapshot) : option Z :=
  try_sum ((ok ∘ snapshot_size) <$> hash_values m).

Definition drop_empty_queues (room : RelayRoom) : RelayRoom :=
  set_room_deliveries
    (retain (λ _ q, bool_decide (q ≠ [])) (room_deliveries room)) room.

(** The requests, transition and admissions part of one room's sweep. *)
Definition prune_room_admissions (now : Z) (room : RelayRoom) : RelayRoom :=
  let room := set_room_joins
    (retain (λ _ j, bool_decide (now < jr_expires_at_ms (pj_request j)))
       (room_joins room)) room in
  let room := set_room_leaves
    (retain (λ _ l, bool_decide (now < lr_expires_at_ms l)) (room_leaves room)) room in
  let room :=
    match room_pending_transition room with
    | Some t => if decide (mt_expires_at_ms t ≤ now)
                then set_room_pending_transition None room else room
    | None => room
    end in
  let expired :=
    (filter (λ mp, aa_expires_at_ms (pa_admission mp.2) ≤ now)
       (hash_iter (room_pending_applications room))).*1 in
  drop_empty_queues (foldl expire_application room expired).

(** One iteration of the loop over rooms of [prune_expired]. *)
Definition prune_room (now ttl : Z) (room_global : RelayRoom * Z) : RelayRoom * Z :=
  let '(room, global) := room_global in
  let room := prune_room_admissions now room in
  let room := set_room_pending_bytes
    (default usize_MAX
       (try_sum (pending_app_bytes <$> hash_values (room_pending_applications room))))
    room in
  let room := set_room_snapshot_bytes
    (default usize_MAX (sum_snapshot_bytes (room_snapshots room))) room in
  let room := set_room_replay_ids (drop_replays now ttl (room_replay_ids room)) room in
  let room := set_room_snapshot_bytes
    (default usize_MAX (sum_snapshot_bytes (room_snapshots room))) room in
  let '(r, (room, global)) := prune_expired_application_deliveries now (room, global) in
  let room := match r with Ok _ => room | Err _ => set_room_delivery_bytes usize_MAX room end in
  let room := drop_empty_queues room in
  (set_room_delivery_bytes
     (match delivery_bytes (concat (hash_values (room_deliveries room))) with
      | Ok b => b | Err _ => usize_MAX end) room, global).

Definition prune_rooms (now ttl : Z) (rs : list (string * RelayRoom))
    (acc : gmap string RelayRoom * Z) : gmap string RelayRoom * Z :=
  foldl (λ '(m, global) '(id, room),
           let '(room', global') := prune_room now ttl (room, global) in
           (<[id := room']> m, global')) acc rs.

Definition saturate_accounting (self : RoomAuthority) : RoomAuthority :=
  mkAuthority (rooms self) (max_rooms self) (join_ttl_ms self) (pending_ttl_ms self)
    (replay_ttl_ms self) (max_delivery_count self) (max_delivery_bytes self)
    usize_MAX usize_MAX usize_MAX usize_MAX usize_MAX usize_MAX usize_MAX
    (global_expired_gap_pairs self).

Definition prune_expired (now : Z) (self : RoomAuthority) : RoomAuthority :=
  let global :=
    default usize_MAX
      (checked_sum
         ((λ r, map_len (room_expired_sender_gaps r)) <$> hash_values (rooms self))) in
  let self :=
    set_rooms
      (prune_rooms now (replay_ttl_ms self) (hash_iter (rooms self))
         (rooms self, global)).1 self in
  let self :=
    match checked_accounting_excluding None self with
    | Ok totals => apply_accounting totals self
    | Err _ => saturate_accounting self
    end in
  match trim_replay_ids self with
  | (Ok _, self) => self
  | (Err _, self) => set_global_replay_count usize_MAX self
  end.

Definition prune_at : Z → RoomAuthority → RoomAuthority := prune_expired.
End accounting.
