(* ===== verification/RoomLifecycle.v ===== *)
(** * Room lifecycle (mirage-server/src/rooms.rs)

    Creation, deletion, wipe, the removal of a join request, and the queries
    of the authority.  Every query runs the expiry sweep first, so it returns
    the swept authority with its answer. *)

From S2P Require Import Prelude RoomModel RoomValidation RoomDelivery RoomAuthority.

Section lifecycle.
Context {HO : HashOrder}.

(** The room [create_with_policy_visibility_and_state] builds, before its
    first snapshot is stored. *)
Definition fresh_room (owner_code_id : CodeId) (owner_username room_id : string)
    (group_id membership_digest stable_identity : bytes) (policy : RoomPolicy)
    (visibility : RoomVisibility) (canonical : string) : RelayRoom :=
  mkRoom room_id owner_code_id owner_username (RoomPolicy.normalized policy) visibility
    group_id 0 membership_digest
    {[canonical := mkMember owner_username owner_code_id stable_identity true]}
    ∅ ∅ None ∅ 0 [] ∅ 0 {[owner_code_id := 0]} ∅ 0 ∅.

(** The checks and the construction, on the swept authority; [now] is the
    second clock reading, taken for the initial snapshot. *)
Definition create_room (now : Z) (owner_code_id : CodeId)
    (owner_username room_id : string) (group_id : bytes) (epoch revision : Z)
    (membership_digest stable_identity : bytes) (policy : RoomPolicy)
    (visibility : RoomVisibility) (state_envelope : bytes) (self : RoomAuthority)
    : result string (RoomInfo * RoomAuthority) :=
  _ ← validate_room_id room_id;
  _ ← validate_username owner_username;
  _ ← validate_group_id group_id;
  _ ← validate_digest membership_digest;
  _ ← validate_stable_identity stable_identity;
  _ ← validate_state_envelope state_envelope;
  _ ← reject_if (bool_decide (epoch ≠ 0) || bool_decide (revision ≠ 0))
        "room initial checkpoint rejected";
  _ ← reject_if (bool_decide (MAX_ROOMS_TOTAL ≤ map_len (rooms self)))
        "room catalog limit reached";
  _ ← reject_if
        (bool_decide
           (max_rooms self ≤
            len (filter (λ r, room_owner_code_id r = owner_code_id)
                   (hash_values (rooms self)))))
        "room limit reached";
  _ ← reject_if (contains_key room_id (rooms self)) "room already exists";
  next_count ← ok_or (checked_add usize_MAX (global_snapshot_count self) 1)
                 "global state snapshot budget reached";
  canonical ← canonical_username owner_username;
  let roster := [mkRosterMember canonical stable_identity] in
  roster_bytes ← roster_size roster;
  initial_bytes ← ok_or (checked_add usize_MAX (len state_envelope) roster_bytes)
                    "global state snapshot budget reached";
  next_bytes ← ok_or (checked_add usize_MAX (global_snapshot_bytes self) initial_bytes)
                 "global state snapshot budget reached";
  _ ← reject_if
        (bool_decide (MAX_GLOBAL_STATE_SNAPSHOTS < next_count)
         || bool_decide (MAX_GLOBAL_STATE_BYTES < next_bytes))
        "global state snapshot budget reached";
  let snapshot :=
    mkSnapshot room_id "" owner_code_id 0 0 membership_digest state_envelope roster
      now u64_MAX in
  let room :=
    fresh_room owner_code_id owner_username room_id group_id membership_digest
      stable_identity policy visibility canonical in
  size ← snapshot_size snapshot;
  let room :=
    set_room_snapshots {[owner_code_id := snapshot]} (set_room_snapshot_bytes size room) in
  Ok (room_info_for room (Some owner_code_id) true,
      set_global_snapshot_bytes next_bytes
        (set_global_snapshot_count next_count (put_room room_id room self))).

Definition create_with_policy_visibility_and_state (now0 now1 : Z)
    (owner_code_id : CodeId) (owner_username room_id : string) (group_id : bytes)
    (epoch revision : Z) (membership_digest stable_identity : bytes)
    (policy : RoomPolicy) (visibility : RoomVisibility) (state_envelope : bytes)
    : ST RoomAuthority string RoomInfo := λ self,
  let self := prune_expired now0 self in
  match
    create_room now1 owner_code_id owner_username room_id group_id epoch revision
      membership_digest stable_identity policy visibility state_envelope self
  with
  | Err e => (Err e, self)
  | Ok (info, self) => (Ok info, self)
  end.

Definition create_with_policy_and_state (now0 now1 : Z) (owner_code_id : CodeId)
    (owner_username room_id : string) (group_id : bytes) (epoch revision : Z)
    (membership_digest stable_identity : bytes) (policy : RoomPolicy)
    (state_envelope : bytes) : ST RoomAuthority string RoomInfo :=
  create_with_policy_visibility_and_state now0 now1 owner_code_id owner_username
    room_id group_id epoch revision membership_digest stable_identity policy Private
    state_envelope.

Definition create (now0 now1 : Z) (owner_code_id : CodeId)
    (owner_username room_id : string) (group_id : bytes) (epoch revision : Z)
    (membership_digest stable_identity : bytes) : ST RoomAuthority string RoomInfo :=
  create_with_policy_and_state now0 now1 owner_code_id owner_username room_id group_id
    epoch revision membership_digest stable_identity RoomPolicy.default [Byte.x01].

(** ** Queries *)

(** A query: sweep, then answer from the swept state. *)
Definition query {A} (now : Z) (f : RoomAuthority → A) (self : RoomAuthority)
    : A * RoomAuthority :=
  let self := prune_expired now self in (f self, self).

Definition info (now : Z) (room_id : string) :=
  query now (λ self,
    (λ r, room_info_for r (Some (room_owner_code_id r)) true) <$> rooms self !! room_id).

Definition member_code_ids (now : Z) (room_id : string) :=
  query now (λ self,
    r ← get_room room_id self; Ok (mem_code_id <$> btree_values (room_members r))).

Definition active_member_code_ids (now : Z) (room_id : string) :=
  query now (λ self,
    r ← get_room room_id self;
    Ok (mem_code_id <$> filter (λ m, mem_active m = true) (btree_values (room_members r)))).

Definition member_revision (now : Z) (room_id : string) (code_id : CodeId) :=
  query now (λ self,
    r ← get_room room_id self;
    _ ← reject_if (negb (is_member_of r code_id)) "room member required";
    Ok (default 0 (room_member_revisions r !! code_id))).

Definition member_info (now : Z) (room_id : string) (code_id : CodeId) :=
  query now (λ self,
    r ← get_room room_id self;
    _ ← reject_if (negb (is_member_of r code_id)) "room member required";
    Ok (room_info_for r (Some code_id) true)).

Definition is_active_member (now : Z) (room_id : string) (code_id : CodeId) :=
  query now (λ self,
    match rooms self !! room_id with
    | Some r => is_active_in r code_id
    | None => false
    end).

Definition is_member (now : Z) (room_id : string) (code_id : CodeId) :=
  query now (λ self,
    match rooms self !! room_id with
    | Some r => is_member_of r code_id
    | None => false
    end).

Definition owner_code_id (now : Z) (room_id : string) :=
  query now (λ self, r ← get_room room_id self; Ok (room_owner_code_id r)).

Definition discover (now : Z) (room_id : string) :=
  query now (λ self, r ← get_room room_id self; Ok (room_info_for r None false)).

Definition public_rooms (now : Z) :=
  query now (λ self,
    take (Z.to_nat MAX_ROOMS_TOTAL)
      (merge_sort (λ a b, String.le (pr_room_id a) (pr_room_id b))
         ((λ r, mkPublicRoom (room_id r) (room_owner_username r) (room_group_id r)
                  (room_policy r)) <$>
            filter (λ r, room_visibility r = Public) (hash_values (rooms self))))).

Definition deliveries_for_member (now : Z) (room_id : string) (code_id : CodeId) :=
  query now (λ self, r ← get_room room_id self; Ok (queue_of r code_id)).

(** [[u8; 32]] compares byte by byte. *)
Fixpoint bytes_leb (a b : bytes) : bool :=
  match a, b with
  | [], _ => true
  | _ :: _, [] => false
  | x :: a, y :: b =>
      bool_decide (Byte.to_N x < Byte.to_N y)%N
      || (bool_decide (x = y) && bytes_leb a b)
  end.

Definition bytes_le (a b : bytes) : Prop := bytes_leb a b = true.
#[global] Instance bytes_le_dec : RelDecision bytes_le.
Proof. intros a b. unfold bytes_le. apply _. Defined.

(** [Vec::dedup]: of a run of equal elements the first stays. *)
Fixpoint dedup (l : list CodeId) : list CodeId :=
  match l with
  | [] => []
  | x :: rest =>
      match dedup rest with
      | [] => [x]
      | y :: rest' => if decide (x = y) then x :: rest' else x :: y :: rest'
      end
  end.

Definition pending_member_code_ids (now : Z) (room_id : string) :=
  query now (λ self,
    r ← get_room room_id self;
    let ids := mem_code_id <$> btree_values (room_members r) in
    let joiner : option PendingJoin :=
      t ← room_pending_transition r; id ← mt_request_id t; room_joins r !! id in
    let ids := match joiner with
               | Some j => ids ++ [jr_code_id (pj_request j)]
               | None => ids
               end in
    Ok (dedup (merge_sort bytes_le ids))).

Definition rooms_for_member (now : Z) (code_id : CodeId) :=
  query now (λ self,
    (λ r, room_info_for r (Some code_id) true) <$>
      filter (λ r, is_member_of r code_id = true) (hash_values (rooms self))).

Definition pending_rooms_for_member (now : Z) (code_id : CodeId) :=
  query now (λ self,
    omap (λ r,
      '(_, j) ← list_find (λ j, jr_code_id (pj_request j) = code_id)
                  (hash_values (room_joins r));
      Some (pending_room_info_for r (pj_state_envelope j)))
      (hash_values (rooms self))).

Definition snapshot (now : Z) (member_code_id : CodeId) (room_id : string) :=
  query now (λ self, r ← rooms self !! room_id; room_snapshots r !! member_code_id).

(** ** Removal *)

(** The removal stands even when the recount that follows fails. *)
Definition remove_join (now : Z) (owner_code_id : CodeId) (room_id request_id : string)
    : ST RoomAuthority string JoinRequest := λ self,
  let self := prune_expired now self in
  match
    room ← get_room room_id self;
    _ ← reject_if (bool_decide (room_owner_code_id room ≠ owner_code_id))
          "room owner required";
    pending ← ok_or (room_joins room !! request_id) "join request unavailable";
    Ok (pj_request pending,
        put_room room_id
          (set_room_joins (delete request_id (room_joins room)) room) self)
  with
  | Err e => (Err e, self)
  | Ok (request, self) =>
      (_ ← recompute_state_accounting; mret request) self
  end.

Definition delete_room (now : Z) (owner_code_id : CodeId) (room_id : string)
    : ST RoomAuthority string RoomInfo := λ self,
  let self := prune_expired now self in
  match
    room ← get_room room_id self;
    _ ← reject_if (bool_decide (room_owner_code_id room ≠ owner_code_id))
          "room owner required";
    totals ← checked_accounting_excluding (Some room_id) self;
    Ok (room_info_for room (Some owner_code_id) true,
        apply_accounting totals (set_rooms (delete room_id (rooms self)) self))
  with
  | Err e => (Err e, self)
  | Ok (info, self) => (Ok info, self)
  end.

Definition wipe (self : RoomAuthority) : RoomAuthority :=
  mkAuthority ∅ (max_rooms self) (join_ttl_ms self) (pending_ttl_ms self)
    (replay_ttl_ms self) (max_delivery_count self) (max_delivery_bytes self)
    0 0 0 0 0 0 0 0.
End lifecycle.
