(* ===== verification/RoomMembership.v ===== *)
(** * Membership (mirage-server/src/rooms/membership.rs)

    Join and leave requests and the two-phase membership transition: the
    owner stages a transition with [begin_membership]; [accept_membership]
    installs it and queues its deliveries, [rollback_membership] drops it. *)

From S2P Require Import Prelude RoomModel RoomValidation RoomDelivery RoomAuthority.

Section membership.
Context {HO : HashOrder}.

(** Run [f] on the swept authority; an error leaves the swept state. *)
Definition after_prune {A} (now : Z)
    (f : RoomAuthority → result string (A * RoomAuthority))
    : ST RoomAuthority string A := λ self,
  let self := prune_expired now self in
  match f self with
  | Err e => (Err e, self)
  | Ok (a, self) => (Ok a, self)
  end.

(** ** Leave requests *)

(** [members.iter().find(|m| m.code_id == code && m.active)]. *)
Definition find_active (room : RelayRoom) (code_id : CodeId) : option Member :=
  snd <$> list_find (λ m, mem_code_id m = code_id ∧ mem_active m = true)
            (btree_values (room_members room)).

Definition request_leave (now : Z) (code_id : CodeId) (room_id request_id : string)
    : ST RoomAuthority string LeaveRequest :=
  after_prune now (λ self,
    let expires_at_ms := saturating_add u64_MAX now (join_ttl_ms self) in
    _ ← validate_request_id request_id;
    global_leave_count ←
      ok_or (checked_sum ((λ r, map_len (room_leaves r)) <$> hash_values (rooms self)))
        "leave request limit reached";
    room ← get_room room_id self;
    _ ← reject_if (bool_decide (room_owner_code_id room = code_id))
          "room owner cannot leave";
    member ← ok_or (find_active room code_id) "active room member required";
    _ ← reject_if (contains_key request_id (room_joins room))
          "membership request already exists";
    match room_leaves room !! request_id with
    | Some existing =>
        if bool_decide (lr_code_id existing = code_id)
           && bool_decide (lr_username existing = mem_username member)
        then Ok (existing, self)
        else Err "leave request already exists"
    | None =>
        _ ← reject_if
              (bool_decide (MAX_LEAVE_REQUESTS ≤ map_len (room_leaves room))
               || bool_decide (MAX_GLOBAL_LEAVE_REQUESTS ≤ global_leave_count)
               || any_value (λ l, bool_decide (lr_code_id l = code_id)) (room_leaves room))
              "leave request limit reached";
        let request :=
          mkLeaveRequest request_id room_id code_id (mem_username member)
            (mem_stable_identity member) now expires_at_ms in
        Ok (request,
            put_room room_id
              (set_room_leaves (<[request_id := request]> (room_leaves room)) room) self)
    end).

Definition remove_leave (now : Z) (owner_code_id : CodeId) (room_id request_id : string)
    : ST RoomAuthority string LeaveRequest :=
  after_prune now (λ self,
    room ← get_room room_id self;
    _ ← reject_if (bool_decide (room_owner_code_id room ≠ owner_code_id))
          "room owner required";
    leave ← ok_or (room_leaves room !! request_id) "leave request unavailable";
    Ok (leave,
        put_room room_id
          (set_room_leaves (delete request_id (room_leaves room)) room) self)).

(** The order of the owner's request lists: age, then room, then request. *)
Definition request_le (key : Z * string * string) (key' : Z * string * string) : Prop :=
  let '(c, r, q) := key in
  let '(c', r', q') := key' in
  c < c' ∨ (c = c' ∧ ((r ≠ r' ∧ String.le r r') ∨ (r = r' ∧ String.le q q'))).

#[global] Instance request_le_dec : RelDecision request_le.
Proof. intros [[c r] q] [[c' r'] q']. unfold request_le. apply _. Defined.

Definition leave_key (l : LeaveRequest) : Z * string * string :=
  (lr_created_at_ms l, lr_room_id l, lr_request_id l).
Definition join_key (j : JoinRequest) : Z * string * string :=
  (jr_created_at_ms j, jr_room_id j, jr_request_id j).

Definition pending_leaves_for_owner (now : Z) (owner : CodeId) (self : RoomAuthority)
    : list LeaveRequest * RoomAuthority :=
  let self := prune_expired now self in
  (take (Z.to_nat MAX_LEAVE_REQUESTS)
     (merge_sort (λ a b, request_le (leave_key a) (leave_key b))
        (filter (λ r, room_owner_code_id r = owner) (hash_values (rooms self))
           ≫= λ r, hash_values (room_leaves r))), self).

Definition pending_leaves_for_member (now : Z) (code_id : CodeId) (self : RoomAuthority)
    : list LeaveRequest * RoomAuthority :=
  let self := prune_expired now self in
  (filter (λ l, lr_code_id l = code_id)
     (hash_values (rooms self) ≫= λ r, hash_values (room_leaves r)), self).

(** ** Join requests *)

(** The code is a member of the room or has a join request there. *)
Definition present_in (code_id : CodeId) (room : RelayRoom) : bool :=
  existsb (λ m, bool_decide (mem_code_id m = code_id)) (btree_values (room_members room))
  || any_value (λ j, bool_decide (jr_code_id (pj_request j) = code_id)) (room_joins room).

Definition same_join (j : PendingJoin) (code_id : CodeId) (username : string)
    (stable_identity key_package state_envelope : bytes) : bool :=
  bool_decide (jr_code_id (pj_request j) = code_id)
  && bool_decide (jr_username (pj_request j) = username)
  && bool_decide (jr_stable_identity (pj_request j) = stable_identity)
  && bool_decide (jr_key_package (pj_request j) = key_package)
  && bool_decide (pj_state_envelope j = state_envelope).

(** The checks of [request_join] on the room itself, up to the idempotent
    answer: [Ok (Some r)] returns the stored request [r], [Ok None] goes on
    to the budgets. *)
Definition join_room_checks (room : RelayRoom) (code_id : CodeId)
    (username request_id : string) (stable_identity key_package state_envelope : bytes)
    : result string (option JoinRequest) :=
  _ ← reject_if (contains_key request_id (room_leaves room))
        "membership request already exists";
  canonical ← canonical_username username;
  _ ← reject_if
        (contains_key canonical (room_members room)
         || existsb (λ m, bool_decide (mem_code_id m = code_id)
                          || bool_decide (mem_stable_identity m = stable_identity))
              (btree_values (room_members room)))
        "room member already exists";
  _ ← reject_if
        (bool_decide (MAX_JOIN_REQUESTS ≤ map_len (room_joins room))
         && negb (contains_key request_id (room_joins room)))
        "join request limit reached";
  _ ← reject_if
        (any_value (λ j,
           bool_decide (canonical_username (jr_username (pj_request j)) = Ok canonical)
           || bool_decide (jr_code_id (pj_request j) = code_id)
           || bool_decide (jr_stable_identity (pj_request j) = stable_identity))
           (room_joins room)
         && negb (contains_key request_id (room_joins room)))
        "join request already exists";
  match room_joins room !! request_id with
  | Some existing =>
      if same_join existing code_id username stable_identity key_package state_envelope
      then Ok (Some (pj_request existing))
      else Err "join request already exists"
  | None => Ok None
  end.

(** The room and global budgets of a new join request. *)
Definition join_budgets (room : RelayRoom) (state_envelope : bytes)
    (self : RoomAuthority) : result string (Z * Z) :=
  state_count ←
    ok_or (checked_add_all (map_len (room_snapshots room)) [map_len (room_joins room); 1])
      "state snapshot budget reached";
  join_bytes ←
    ok_or (checked_sum ((λ j, len (pj_state_envelope j)) <$> hash_values (room_joins room)))
      "state snapshot budget reached";
  state_bytes ←
    ok_or (checked_add_all (room_snapshot_bytes room) [join_bytes; len state_envelope])
      "state snapshot budget reached";
  _ ← reject_if
        (bool_decide (MAX_STATE_SNAPSHOTS < state_count)
         || bool_decide (MAX_STATE_BYTES < state_bytes))
        "state snapshot budget reached";
  global_count ← ok_or (checked_add usize_MAX (global_snapshot_count self) 1)
                   "global state snapshot budget reached";
  global_bytes ←
    ok_or (checked_add usize_MAX (global_snapshot_bytes self) (len state_envelope))
      "global state snapshot budget reached";
  _ ← reject_if
        (bool_decide (MAX_GLOBAL_STATE_SNAPSHOTS < global_count)
         || bool_decide (MAX_GLOBAL_STATE_BYTES < global_bytes))
        "global state snapshot budget reached";
  Ok (global_count, global_bytes).

Definition request_join (now : Z) (code_id : CodeId) (username room_id request_id : string)
    (stable_identity key_package state_envelope : bytes)
    : ST RoomAuthority string JoinRequest :=
  after_prune now (λ self,
    _ ← validate_username username;
    _ ← validate_request_id request_id;
    _ ← validate_stable_identity stable_identity;
    _ ← reject_if
          (bool_decide (key_package = []) || bool_decide (MAX_KEY_PACKAGE_BYTES < len key_package))
          "key package rejected";
    _ ← validate_state_envelope state_envelope;
    let member_room_count :=
      len (filter (λ r, present_in code_id r = true) (hash_values (rooms self))) in
    let already_present :=
      match rooms self !! room_id with Some r => present_in code_id r | None => false end in
    _ ← reject_if
          (negb already_present && bool_decide (MAX_ROOMS_PER_MEMBER ≤ member_room_count))
          "member room limit reached";
    room ← get_room room_id self;
    existing ← join_room_checks room code_id username request_id stable_identity
                 key_package state_envelope;
    match existing with
    | Some request => Ok (request, self)
    | None =>
        '(count, byte_total) ← join_budgets room state_envelope self;
        let request :=
          mkJoinRequest request_id room_id code_id username stable_identity key_package
            now (saturating_add u64_MAX now (join_ttl_ms self)) in
        Ok (request,
            set_global_snapshot_bytes byte_total
              (set_global_snapshot_count count
                 (put_room room_id
                    (set_room_joins
                       (<[request_id := mkPendingJoin request state_envelope]>
                          (room_joins room)) room) self)))
    end).

Definition pending_joins (now : Z) (room_id : string) (self : RoomAuthority)
    : result string (list JoinRequest) * RoomAuthority :=
  let self := prune_expired now self in
  (r ← get_room room_id self; Ok (pj_request <$> hash_values (room_joins r)), self).

Definition pending_joins_for_owner (now : Z) (owner : CodeId) (self : RoomAuthority)
    : list JoinRequest * RoomAuthority :=
  let self := prune_expired now self in
  (take (Z.to_nat MAX_JOIN_REQUESTS)
     (merge_sort (λ a b, request_le (join_key a) (join_key b))
        (filter (λ r, room_owner_code_id r = owner) (hash_values (rooms self))
           ≫= λ r, pj_request <$> hash_values (room_joins r))), self).

(** ** Staging a transition *)

Definition has_replay (key : ReplayKey) (room : RelayRoom) : bool :=
  existsb (λ e, bool_decide (e.1 = key)) (room_replay_ids room).

(** The guards on the room's own state and the transition's counters. *)
Definition begin_checkpoint (owner : CodeId) (room : RelayRoom)
    (t : MembershipTransition) : result string () :=
  _ ← reject_if (bool_decide (room_owner_code_id room ≠ owner)) "room owner required";
  _ ← reject_if (bool_decide (queue_of room owner ≠ []))
        "owner delivery snapshot required";
  _ ← reject_if (bool_decide (room_pending_applications room ≠ ∅))
        "application admission in flight";
  _ ← reject_if (bool_decide (is_Some (room_pending_transition room)))
        "membership transition already in flight";
  _ ← reject_if (has_replay (ReplayKey.membership (mt_message_id t)) room)
        "membership replay rejected";
  _ ← validate_digest (mt_from_membership_digest t);
  _ ← validate_current_metadata room (mt_group_id t) (mt_from_epoch t)
        (mt_from_membership_digest t);
  expected_epoch ← ok_or (checked_add u64_MAX (mt_from_epoch t) 1)
                     "membership epoch rejected";
  _ ← reject_if (bool_decide (mt_to_epoch t ≠ expected_epoch)) "membership epoch rejected";
  owner_revision ← ok_or (room_member_revisions room !! owner) "room owner unavailable";
  expected_revision ← ok_or (checked_add u64_MAX owner_revision 1)
                        "membership revision rejected";
  reject_if (bool_decide (mt_revision t ≠ expected_revision)) "membership revision rejected".

(** The request an addition must carry. *)
Definition check_addition (room : RelayRoom) (t : MembershipTransition)
    (next : gmap string Member) (changed : string) : result string () :=
  _ ← reject_if (bool_decide (mt_welcome t = [])) "membership welcome rejected";
  request_id ← ok_or (mt_request_id t) "join request required";
  request ← ok_or (room_joins room !! request_id) "join request unavailable";
  u ← canonical_username (jr_username (pj_request request));
  _ ← reject_if
        (bool_decide (u ≠ changed)
         || bool_decide (mem_stable_identity <$> next !! changed
                         ≠ Some (jr_stable_identity (pj_request request))))
        "join request binding rejected";
  member ← ok_or (next !! changed) "join request binding rejected";
  reject_if
    (bool_decide (mem_stable_identity member ≠ jr_stable_identity (pj_request request))
     || bool_decide (mem_code_id member ≠ jr_code_id (pj_request request)))
    "join request binding rejected".

(** The optional leave request of a removal. *)
Definition check_removal (room : RelayRoom) (t : MembershipTransition) (changed : string)
    : result string () :=
  _ ← reject_if (bool_decide (mt_welcome t ≠ [])) "membership welcome rejected";
  match mt_request_id t with
  | None => Ok tt
  | Some request_id =>
      leave ← ok_or (room_leaves room !! request_id) "leave request unavailable";
      member ← ok_or (room_members room !! changed) "leave request binding rejected";
      u ← canonical_username (lr_username leave);
      reject_if
        (bool_decide (u ≠ changed)
         || bool_decide (lr_code_id leave ≠ mem_code_id member)
         || bool_decide (lr_stable_identity leave ≠ mem_stable_identity member))
        "leave request binding rejected"
  end.

Definition begin_roster (room : RelayRoom) (t : MembershipTransition)
    : result string () :=
  next ← resolve_next_roster room t;
  owner_username ← canonical_username (room_owner_username room);
  _ ← reject_if
        (bool_decide (MAX_MEMBERS < map_len next)
         || negb (contains_key owner_username next))
        "membership roster rejected";
  let changed := changed_usernames (room_members room) next in
  _ ← reject_if (bool_decide (size changed ≠ 1%nat)) "membership transition rejected";
  changed_username ← ok_or (head (elements changed)) "membership transition rejected";
  if contains_key changed_username next
  then check_addition room t next changed_username
  else check_removal room t changed_username.

Definition begin_membership (now : Z) (owner : CodeId) (t : MembershipTransition)
    : ST RoomAuthority string MembershipTransition :=
  after_prune now (λ self,
    _ ← validate_transition t;
    room ← get_room (mt_room_id t) self;
    _ ← begin_checkpoint owner room t;
    _ ← begin_roster room t;
    let staged :=
      set_mt_expires_at_ms (saturating_add u64_MAX now (pending_ttl_ms self))
        (set_mt_created_at_ms now t) in
    Ok (staged,
        put_room (mt_room_id t) (set_room_pending_transition (Some staged) room) self)).

Definition rollback_membership (now : Z) (owner : CodeId) (room_id message_id : string)
    (revision : Z) : ST RoomAuthority string MembershipResult :=
  after_prune now (λ self,
    room ← get_room room_id self;
    _ ← reject_if (bool_decide (room_owner_code_id room ≠ owner)) "room owner required";
    t ← ok_or (room_pending_transition room) "membership transition unavailable";
    _ ← reject_if
          (bool_decide (mt_message_id t ≠ message_id) || bool_decide (mt_revision t ≠ revision))
          "membership result mismatch";
    Ok (RolledBack message_id revision,
        put_room room_id (set_room_pending_transition None room) self)).
End membership.

(** * Accepting a membership transition (rooms/membership.rs, [accept_membership])

    The method is split along its own phases: the guards, the delivery
    budget, the state budget, the installation in the room, and the global
    recount.  Nothing is written before every check has passed; after that,
    only the recounts can fail. *)

Definition member_codes (members : gmap string Member) : list CodeId :=
  mem_code_id <$> btree_values members.
Definition member_code_set (members : gmap string Member) : gset CodeId :=
  list_to_set (member_codes members).

(** The codes with a queue or a snapshot that the next roster drops. *)
Definition removed_codes (room : RelayRoom) (next : gmap string Member) : gset CodeId :=
  (dom (room_deliveries room) ∪ dom (room_snapshots room)) ∖ member_code_set next.

(** [room.snapshots.get(code).map(snapshot_size).transpose()?.unwrap_or_default()]. *)
Definition stored_snapshot_bytes (room : RelayRoom) (code_id : CodeId) : result string Z :=
  match room_snapshots room !! code_id with
  | Some s => snapshot_size s
  | None => Ok 0
  end.

Section accept.
Context {HO : HashOrder}.

(** Ownership, the staged transition, and the absence of replays. *)
Definition accept_guard (owner : CodeId) (message_id : string) (revision : Z)
    (room : RelayRoom) : result string MembershipTransition :=
  _ ← reject_if (bool_decide (room_owner_code_id room ≠ owner)) "room owner required";
  t ← ok_or (room_pending_transition room) "membership transition unavailable";
  _ ← reject_if
        (bool_decide (mt_message_id t ≠ message_id) || bool_decide (mt_revision t ≠ revision))
        "membership result mismatch";
  _ ← reject_if (bool_decide (room_pending_applications room ≠ ∅))
        "application admission in flight";
  _ ← reject_if (has_replay (ReplayKey.membership (mt_message_id t)) room)
        "membership replay rejected";
  Ok t.

(** The new deliveries and the room's delivery bytes after dropping the
    removed queues, within the room and global delivery budgets. *)
Definition accept_deliveries (self : RoomAuthority) (room : RelayRoom)
    (t : MembershipTransition) (next : gmap string Member)
    : result string (list PendingDelivery * Z) :=
  let removed := elements (removed_codes room next) in
  let removed_queues := omap (λ c, room_deliveries room !! c) removed in
  removed_count ← ok_or (checked_sum (len <$> removed_queues)) "room delivery budget reached";
  removed_bytes ← delivery_bytes (concat removed_queues);
  _ ← ok_or (try_sum ((ok ∘ snapshot_size) <$> omap (λ c, room_snapshots room !! c) removed))
        "state snapshot accounting rejected";
  deliveries ← membership_deliveries room t next;
  let queued_count := len deliveries in
  queued_bytes ← delivery_bytes deliveries;
  let room_count :=
    n ← checked_sum (len <$> hash_values (room_deliveries room));
    n ← checked_sub n removed_count; checked_add usize_MAX n queued_count in
  let global_count :=
    n ← checked_sub (global_delivery_count self) removed_count;
    checked_add usize_MAX n queued_count in
  let global_bytes :=
    n ← checked_sub (global_delivery_bytes self) removed_bytes;
    checked_add usize_MAX n queued_bytes in
  let room_bytes :=
    n ← checked_sub (room_delivery_bytes room) removed_bytes;
    checked_add usize_MAX n queued_bytes in
  _ ← reject_if
        (over_budget room_count MAX_DELIVERIES_PER_ROOM
         || over_budget global_count (max_delivery_count self)
         || over_budget global_bytes (max_delivery_bytes self)
         || bool_decide (room_bytes = None))
        "room delivery budget reached";
  room_bytes ← ok_or room_bytes "room delivery budget reached";
  Ok (deliveries, room_bytes).

(** The room's snapshot bytes and the global snapshot totals after the
    transition, within the state budgets. *)
Definition accept_state (self : RoomAuthority) (owner : CodeId) (room : RelayRoom)
    (t : MembershipTransition) (next : gmap string Member) : result string (Z * Z * Z) :=
  let removed := elements (removed_codes room next) in
  let removed_snapshots := omap (λ c, room_snapshots room !! c) removed in
  let removed_count := len removed_snapshots in
  removed_bytes ← ok_or (try_sum ((ok ∘ snapshot_size) <$> removed_snapshots))
                    "state snapshot accounting rejected";
  previous_bytes ← stored_snapshot_bytes room owner;
  roster_bytes ← roster_size (mt_roster t);
  owner_bytes ← ok_or (checked_add usize_MAX (len (mt_state_envelope t)) roster_bytes)
                  "state snapshot budget reached";
  let new_snapshot := negb (contains_key owner (room_snapshots room)) in
  let pending_join : option PendingJoin := id ← mt_request_id t; room_joins room !! id in
  let pending_leave : option LeaveRequest := id ← mt_request_id t; room_leaves room !! id in
  _ ← reject_if
        (bool_decide (is_Some (mt_request_id t))
         && eqb (bool_decide (is_Some pending_join)) (bool_decide (is_Some pending_leave)))
        "membership request unavailable";
  let join_bytes :=
    match pending_join with Some j => len (pj_state_envelope j) | None => 0 end in
  let join_count := match pending_join with Some _ => 1 | None => 0 end in
  let new_count := if new_snapshot then 1 else 0 in
  all_join_bytes ←
    ok_or (checked_sum ((λ j, len (pj_state_envelope j)) <$> hash_values (room_joins room)))
      "state snapshot budget reached";
  let room_count :=
    n ← checked_sub (map_len (room_snapshots room)) removed_count;
    n ← checked_add usize_MAX n (map_len (room_joins room));
    n ← checked_sub n join_count;
    n ← checked_add usize_MAX n new_count; checked_add usize_MAX n join_count in
  let global_count :=
    n ← checked_sub (global_snapshot_count self) removed_count;
    checked_add usize_MAX n new_count in
  let room_bytes :=
    n ← checked_sub (room_snapshot_bytes room) removed_bytes;
    n ← checked_sub n previous_bytes;
    n ← checked_add usize_MAX n owner_bytes; checked_add usize_MAX n join_bytes in
  let room_state_bytes :=
    n ← room_bytes; n ← checked_add usize_MAX n all_join_bytes; checked_sub n join_bytes in
  let global_bytes :=
    n ← checked_sub (global_snapshot_bytes self) removed_bytes;
    n ← checked_sub n previous_bytes; checked_add usize_MAX n owner_bytes in
  _ ← reject_if
        (over_budget room_count MAX_STATE_SNAPSHOTS
         || over_budget room_state_bytes MAX_STATE_BYTES
         || over_budget global_count MAX_GLOBAL_STATE_SNAPSHOTS
         || over_budget global_bytes MAX_GLOBAL_STATE_BYTES)
        "state snapshot budget reached";
  room_bytes ← ok_or room_bytes "state snapshot budget reached";
  global_count ← ok_or global_count "state snapshot budget reached";
  global_bytes ← ok_or global_bytes "state snapshot budget reached";
  Ok (room_bytes, global_count, global_bytes).

(** ** Installation *)

(** [retain] to the members, then [entry(code).or_insert(0)] for each. *)
Definition next_revisions (owner : CodeId) (revision : Z) (next : gmap string Member)
    (revisions : gmap CodeId Z) : gmap CodeId Z :=
  foldl (λ m c, match m !! c with Some _ => m | None => <[c := 0]> m end)
    (retain (λ c _, bool_decide (c ∈ member_code_set next)) (<[owner := revision]> revisions))
    (member_codes next).

Definition drop_codes {V : Type} (removed : gset CodeId) (m : gmap CodeId V) : gmap CodeId V :=
  foldl (λ m c, delete c m) m (elements removed).

(** The routing state: queues, members, gaps, epoch, revisions, leaves. *)
Definition install_routing (now : Z) (owner : CodeId) (t : MembershipTransition)
    (next : gmap string Member) (deliveries : list PendingDelivery) (delivery_bytes : Z)
    (room : RelayRoom) : RelayRoom :=
  let removed := removed_codes room next in
  let room := set_room_pending_transition None room in
  let room := set_room_replay_ids
    (push_replay (ReplayKey.membership (mt_message_id t), now) (room_replay_ids room)) room in
  let room := set_room_deliveries
    (push_deliveries deliveries (drop_codes removed (room_deliveries room))) room in
  let room := set_room_snapshots (drop_codes removed (room_snapshots room)) room in
  let room := set_room_delivery_bytes delivery_bytes room in
  let room := set_room_members next room in
  let room := set_room_expired_sender_gaps ∅ room in
  let room := set_room_epoch (mt_to_epoch t) room in
  let room := set_room_member_revisions
    (next_revisions owner (mt_revision t) next (room_member_revisions room)) room in
  let room := set_room_leaves
    (retain (λ _ l, bool_decide (lr_code_id l ∈ member_code_set next)) (room_leaves room))
    room in
  set_room_membership_digest (mt_membership_digest t) room.

(** The owner's snapshot, the joiner's snapshot, the consumed request.
    [join] and [leave] are the requests found before the installation. *)
Definition install_state (now2 now3 : Z) (owner : CodeId) (t : MembershipTransition)
    (snapshot_bytes : Z) (join : option PendingJoin) (leave : option LeaveRequest)
    (room : RelayRoom) : RelayRoom :=
  let owner_snapshot :=
    mkSnapshot (room_id room) (mt_message_id t) owner (room_epoch room) (mt_revision t)
      (room_membership_digest room) (mt_state_envelope t) (mt_roster t) now2 u64_MAX in
  let room := set_room_snapshot_bytes snapshot_bytes room in
  let room := set_room_snapshots (<[owner := owner_snapshot]> (room_snapshots room)) room in
  match mt_request_id t, join with
  | Some request_id, Some j =>
      let code := jr_code_id (pj_request j) in
      let room := set_room_joins (delete request_id (room_joins room)) room in
      set_room_snapshots
        (<[code := mkSnapshot (room_id room) "" code 0 0 [] (pj_state_envelope j) []
                     now3 u64_MAX]> (room_snapshots room)) room
  | Some request_id, None =>
      match leave with
      | Some _ => set_room_leaves (delete request_id (room_leaves room)) room
      | None => room
      end
  | None, _ => room
  end.

(** The part of [accept_membership] inside the borrow of the room. *)
Definition accept_room (now1 now2 now3 : Z) (owner : CodeId) (room_id message_id : string)
    (revision : Z) (self : RoomAuthority)
    : result string (MembershipTransition * Z * Z * RoomAuthority) :=
  room ← get_room room_id self;
  t ← accept_guard owner message_id revision room;
  next ← resolve_next_roster room t;
  '(deliveries, room_delivery_bytes) ← accept_deliveries self room t next;
  '(room_snapshot_bytes, global_count, global_bytes) ← accept_state self owner room t next;
  let join : option PendingJoin := id ← mt_request_id t; room_joins room !! id in
  let leave : option LeaveRequest := id ← mt_request_id t; room_leaves room !! id in
  let room := install_routing now1 owner t next deliveries room_delivery_bytes room in
  let room := install_state now2 now3 owner t room_snapshot_bytes join leave room in
  Ok (t, global_count, global_bytes, put_room room_id room self).

Definition recount_deliveries (self : RoomAuthority) : RoomAuthority :=
  let count :=
    default usize_MAX
      (checked_sum
         (hash_values (rooms self) ≫= λ r, len <$> hash_values (room_deliveries r))) in
  let bytes :=
    default usize_MAX (checked_sum (room_delivery_bytes <$> hash_values (rooms self))) in
  set_global_delivery_bytes bytes (set_global_delivery_count count self).

Definition accept_membership (now0 now1 now2 now3 : Z) (owner : CodeId)
    (room_id message_id : string) (revision : Z)
    : ST RoomAuthority string MembershipResult := λ self,
  let self := prune_expired now0 self in
  match accept_room now1 now2 now3 owner room_id message_id revision self with
  | Err e => (Err e, self)
  | Ok (t, global_count, global_bytes, self) =>
      (_ ← trim_replay_ids;
       _ ← modify (λ self, set_global_snapshot_bytes global_bytes
                             (set_global_snapshot_count global_count self));
       _ ← modify recount_deliveries;
       _ ← recompute_gap_accounting;
       mret (Accepted t)) self
  end.
End accept.
