(* ===== verification/RoomApplication.v ===== *)
(** * Applications (mirage-server/src/rooms/application.rs)

    An encrypted application message is admitted (its deliveries queued, the
    sender's revision and snapshot advanced), then committed or rolled back. *)

From S2P Require Import Prelude RoomModel RoomValidation RoomDelivery RoomAuthority.
From S2P Require Import RoomMembership.

Section application.
Context {HO : HashOrder}.

(** The limits on the request itself. *)
Definition validate_application (message_id : string)
    (group_id membership_digest ciphertext authenticated_data state_envelope : bytes)
    : result string () :=
  _ ← validate_request_id message_id;
  _ ← validate_group_id group_id;
  _ ← validate_digest membership_digest;
  _ ← reject_if
        (bool_decide (ciphertext = [])
         || bool_decide (MAX_APPLICATION_CIPHERTEXT_BYTES < len ciphertext))
        "application rejected";
  _ ← reject_if
        (bool_decide (authenticated_data = [])
         || bool_decide (MAX_AUTHENTICATED_DATA_BYTES < len authenticated_data))
        "authenticated data rejected";
  validate_state_envelope state_envelope.

(** [application_expires_at_ms]. *)
Definition application_expiry (now ttl : Z) (policy : RoomPolicy) : result string Z :=
  base ← ok_or (checked_add u64_MAX now ttl) "application expiry rejected";
  if enforce_text_absolute_expiry policy && bool_decide (0 < overall_expiry_sec policy) then
    policy_expiry ←
      ok_or (ttl ← checked_mul u64_MAX (overall_expiry_sec policy) 1000;
             checked_add u64_MAX now ttl)
        "application expiry rejected";
    Ok (Z.min base policy_expiry)
  else Ok base.

(** The guards on the room: checkpoint, an empty sender queue, one admission
    per sender, no transition in flight, the next sender revision, an active
    sender, no replay.  Yields the expiry, the current revision and the
    sender's name. *)
Definition admit_guard (now ttl : Z) (sender : CodeId) (message_id : string)
    (group_id : bytes) (epoch sender_revision : Z) (membership_digest : bytes)
    (room : RelayRoom) : result string (Z * Z * string) :=
  _ ← validate_current_metadata room group_id epoch membership_digest;
  _ ← reject_if (bool_decide (queue_of room sender ≠ [])) "sender delivery snapshot required";
  _ ← reject_if
        (any_value (λ p, bool_decide (pa_sender_code_id p = sender))
           (room_pending_applications room))
        "sender application admission in flight";
  _ ← reject_if (bool_decide (is_Some (room_pending_transition room)))
        "membership transition in flight";
  expires ← application_expiry now ttl (room_policy room);
  current ← ok_or (room_member_revisions room !! sender) "room member required";
  expected ← ok_or (checked_add u64_MAX current 1) "application revision rejected";
  _ ← reject_if (bool_decide (sender_revision ≠ expected)) "application revision rejected";
  member ← ok_or (find_active room sender) "active room member required";
  _ ← reject_if
        (contains_key message_id (room_pending_applications room)
         || has_replay (ReplayKey.application message_id) room)
        "application replay rejected";
  Ok (expires, current, mem_username member).

(** Room pending bytes, global pending count and bytes after admission. *)
Definition admit_pending (self : RoomAuthority) (room : RelayRoom) (message_id : string)
    (ciphertext authenticated_data : bytes) : result string (Z * Z * Z) :=
  bytes ← ok_or (checked_add_all (len ciphertext) [len authenticated_data; slen message_id])
            "pending application budget reached";
  let room_bytes := checked_add usize_MAX (room_pending_bytes room) bytes in
  let room_count := checked_add usize_MAX (map_len (room_pending_applications room)) 1 in
  let global_count := checked_add usize_MAX (global_pending_count self) 1 in
  let global_bytes := checked_add usize_MAX (global_pending_bytes self) bytes in
  _ ← reject_if (over_budget room_bytes MAX_PENDING_BYTES) "room pending limit reached";
  _ ← reject_if
        (over_budget room_count MAX_PENDING_APPLICATIONS
         || over_budget global_count MAX_GLOBAL_PENDING_APPLICATIONS
         || over_budget global_bytes MAX_GLOBAL_PENDING_BYTES)
        "pending application budget reached";
  room_bytes ← ok_or room_bytes "room pending limit reached";
  global_count ← ok_or global_count "pending application budget reached";
  global_bytes ← ok_or global_bytes "pending application budget reached";
  Ok (room_bytes, global_count, global_bytes).

(** The sender's next snapshot roster; room bytes, global count and bytes. *)
Definition admit_snapshot (self : RoomAuthority) (room : RelayRoom) (sender : CodeId)
    (state_envelope : bytes) : result string (list RosterMember * Z * Z * Z) :=
  previous_bytes ← stored_snapshot_bytes room sender;
  let previous := room_snapshots room !! sender in
  room_roster ← canonical_room_roster room;
  let roster := match previous with Some s => ss_roster s | None => room_roster end in
  roster_bytes ← roster_size roster;
  next_bytes ← ok_or (checked_add usize_MAX (len state_envelope) roster_bytes)
                 "state snapshot budget reached";
  let new_snapshot := negb (contains_key sender (room_snapshots room)) in
  let room_bytes :=
    n ← checked_sub (room_snapshot_bytes room) previous_bytes;
    checked_add usize_MAX n next_bytes in
  let global_count :=
    checked_add usize_MAX (global_snapshot_count self) (if new_snapshot then 1 else 0) in
  let global_bytes :=
    n ← checked_sub (global_snapshot_bytes self) previous_bytes;
    checked_add usize_MAX n next_bytes in
  _ ← reject_if
        ((new_snapshot && bool_decide (MAX_STATE_SNAPSHOTS ≤ map_len (room_snapshots room)))
         || over_budget room_bytes MAX_STATE_BYTES
         || over_budget global_count MAX_GLOBAL_STATE_SNAPSHOTS
         || over_budget global_bytes MAX_GLOBAL_STATE_BYTES)
        "state snapshot budget reached";
  room_bytes ← ok_or room_bytes "state snapshot budget reached";
  global_count ← ok_or global_count "state snapshot budget reached";
  global_bytes ← ok_or global_bytes "state snapshot budget reached";
  Ok (roster, room_bytes, global_count, global_bytes).

(** The active members other than the sender, each with its next revision,
    provided none of them lost too much of the sender's ratchet. *)
Definition admit_recipients (room : RelayRoom) (sender : CodeId)
    : result string (list (CodeId * Z)) :=
  recipients ←
    collect (λ m, r ← next_delivery_revision room (mem_code_id m); Ok (mem_code_id m, r))
      (filter (λ m, mem_active m = true ∧ mem_code_id m ≠ sender)
         (btree_values (room_members room)));
  _ ← reject_if
        (existsb (λ cr,
           match room_expired_sender_gaps room !! (cr.1, sender) with
           | Some gap => bool_decide (MAX_RATCHET_BACK_HISTORY < gap)
           | None => false
           end) recipients)
        "application sender generation gap rejected";
  Ok recipients.

(** The deliveries fit; room bytes, global count and bytes after queueing. *)
Definition admit_deliveries (self : RoomAuthority) (room : RelayRoom)
    (deliveries : list PendingDelivery) : result string (Z * Z * Z) :=
  let queued_count := len deliveries in
  queued_bytes ← delivery_bytes deliveries;
  let room_count :=
    n ← checked_sum (len <$> hash_values (room_deliveries room));
    checked_add usize_MAX n queued_count in
  let room_bytes := checked_add usize_MAX (room_delivery_bytes room) queued_bytes in
  let global_count := checked_add usize_MAX (global_delivery_count self) queued_count in
  let global_bytes := checked_add usize_MAX (global_delivery_bytes self) queued_bytes in
  _ ← reject_if
        (over_budget room_count MAX_DELIVERIES_PER_ROOM
         || bool_decide (room_bytes = None)
         || over_budget global_count (max_delivery_count self)
         || over_budget global_bytes (max_delivery_bytes self))
        "room delivery budget reached";
  room_bytes ← ok_or room_bytes "room delivery budget reached";
  global_count ← ok_or global_count "room delivery budget reached";
  global_bytes ← ok_or global_bytes "room delivery budget reached";
  Ok (room_bytes, global_count, global_bytes).

Definition application_delivery (room_id message_id : string) (sender : CodeId)
    (platform : ClientPlatform) (sender_username : string) (epoch : Z)
    (membership_digest ciphertext authenticated_data : bytes) (now expires : Z)
    (cr : CodeId * Z) : PendingDelivery :=
  mkDelivery room_id message_id cr.1 epoch membership_digest cr.2
    (Application sender sender_username platform ciphertext authenticated_data)
    now expires.

(** The room after an admission. *)
Definition install_application (room : RelayRoom) (sender : CodeId)
    (admission : ApplicationAdmission) (current_revision now : Z)
    (deliveries : list PendingDelivery) (roster : list RosterMember)
    (delivery_bytes snapshot_bytes pending_bytes : Z) : RelayRoom :=
  let message_id := aa_message_id admission in
  let previous := room_snapshots room !! sender in
  let snapshot :=
    mkSnapshot (room_id room) message_id sender (aa_epoch admission)
      (aa_sender_revision admission) (aa_membership_digest admission)
      (aa_state_envelope admission) roster now u64_MAX in
  let room := set_room_deliveries (push_deliveries deliveries (room_deliveries room)) room in
  let room := set_room_delivery_bytes delivery_bytes room in
  let room := set_room_member_revisions
    (<[sender := aa_sender_revision admission]> (room_member_revisions room)) room in
  let room := set_room_snapshot_bytes snapshot_bytes room in
  let room := set_room_snapshots (<[sender := snapshot]> (room_snapshots room)) room in
  let room := set_room_pending_bytes pending_bytes room in
  set_room_pending_applications
    (<[message_id := mkPendingApplication admission sender current_revision previous]>
       (room_pending_applications room)) room.

(** The admission on the swept authority. *)
Definition admit_room (now : Z) (sender : CodeId) (platform : ClientPlatform)
    (room_id message_id : string) (group_id : bytes) (epoch sender_revision : Z)
    (membership_digest ciphertext authenticated_data state_envelope : bytes)
    (self : RoomAuthority) : result string (ApplicationAdmission * RoomAuthority) :=
  _ ← validate_application message_id group_id membership_digest ciphertext
        authenticated_data state_envelope;
  room ← get_room room_id self;
  '(expires, current, username) ←
    admit_guard now (pending_ttl_ms self) sender message_id group_id epoch
      sender_revision membership_digest room;
  '(pending_bytes, global_pending_count, global_pending_bytes) ←
    admit_pending self room message_id ciphertext authenticated_data;
  '(roster, snapshot_bytes, global_snapshot_count, global_snapshot_bytes) ←
    admit_snapshot self room sender state_envelope;
  recipients ← admit_recipients room sender;
  let admission :=
    mkAdmission message_id room_id username recipients.*1 recipients sender_revision
      epoch membership_digest ciphertext authenticated_data state_envelope now expires in
  let deliveries :=
    application_delivery room_id message_id sender platform username epoch
      membership_digest ciphertext authenticated_data now expires <$> recipients in
  '(delivery_bytes, global_delivery_count, global_delivery_bytes) ←
    admit_deliveries self room deliveries;
  let room :=
    install_application room sender admission current now deliveries roster
      delivery_bytes snapshot_bytes pending_bytes in
  let self := put_room room_id room self in
  let self := set_global_delivery_count global_delivery_count self in
  let self := set_global_delivery_bytes global_delivery_bytes self in
  let self := set_global_pending_count global_pending_count self in
  let self := set_global_pending_bytes global_pending_bytes self in
  let self := set_global_snapshot_count global_snapshot_count self in
  let self := set_global_snapshot_bytes global_snapshot_bytes self in
  Ok (admission, self).

Definition admit_application_for_platform (now : Z) (sender : CodeId)
    (platform : ClientPlatform) (room_id message_id : string) (group_id : bytes)
    (epoch sender_revision : Z)
    (membership_digest ciphertext authenticated_data state_envelope : bytes)
    : ST RoomAuthority string ApplicationAdmission :=
  after_prune now
    (admit_room now sender platform room_id message_id group_id epoch sender_revision
       membership_digest ciphertext authenticated_data state_envelope).

(** ** Commit *)

(** Bytes of an admission under the identifier it is looked up by. *)
Definition admission_bytes (p : PendingApplication) (message_id : string)
    : result string Z :=
  ok_or (checked_add_all (len (aa_ciphertext (pa_admission p)))
           [len (aa_authenticated_data (pa_admission p)); slen message_id])
    "pending application accounting rejected".

Definition commit_room (now : Z) (room_id message_id : string) (self : RoomAuthority)
    : result string RoomAuthority :=
  room ← get_room room_id self;
  pending ← ok_or (room_pending_applications room !! message_id)
              "application admission unavailable";
  _ ← reject_if (has_replay (ReplayKey.application message_id) room)
        "application replay rejected";
  bytes ← admission_bytes pending message_id;
  room_bytes ← ok_or (checked_sub (room_pending_bytes room) bytes)
                 "pending application accounting rejected";
  global_count ← ok_or (checked_sub (global_pending_count self) 1)
                   "pending application accounting rejected";
  global_bytes ← ok_or (checked_sub (global_pending_bytes self) bytes)
                   "pending application accounting rejected";
  let room := set_room_pending_applications
    (delete message_id (room_pending_applications room)) room in
  let room := set_room_pending_bytes room_bytes room in
  let room := set_room_replay_ids
    (push_replay (ReplayKey.application message_id, now) (room_replay_ids room)) room in
  Ok (set_global_pending_bytes global_bytes
        (set_global_pending_count global_count (put_room room_id room self))).

Definition commit_application (now : Z) (room_id message_id : string)
    : ST RoomAuthority string () := λ self,
  match commit_room now room_id message_id self with
  | Err e => (Err e, self)
  | Ok self => trim_replay_ids self
  end.

(** ** Rollback *)

Record rollback_plan : Type := mkRollback {
  rb_pending : PendingApplication;
  rb_room_pending_bytes : Z;
  rb_room_delivery_bytes : Z;
  rb_room_snapshot_bytes : Z;
  rb_global_pending_count : Z;
  rb_global_pending_bytes : Z;
  rb_global_delivery_count : Z;
  rb_global_delivery_bytes : Z;
  rb_global_snapshot_count : Z;
  rb_global_snapshot_bytes : Z
}.

Definition rollback_totals (room_id message_id : string) (self : RoomAuthority)
    : result string rollback_plan :=
  room ← get_room room_id self;
  pending ← ok_or (room_pending_applications room !! message_id)
              "application admission unavailable";
  bytes ← admission_bytes pending message_id;
  room_pending ← ok_or (checked_sub (room_pending_bytes room) bytes)
                   "pending application accounting rejected";
  let removed :=
    filter (λ d, pd_message_id d = message_id) (concat (hash_values (room_deliveries room))) in
  removed_count ←
    ok_or (checked_sum ((λ q, len (filter (λ d, pd_message_id d = message_id) q)) <$>
             hash_values (room_deliveries room)))
      "delivery accounting rejected";
  removed_bytes ← delivery_bytes removed;
  room_delivery ← ok_or (checked_sub (room_delivery_bytes room) removed_bytes)
                    "delivery accounting rejected";
  let sender := pa_sender_code_id pending in
  current_bytes ← stored_snapshot_bytes room sender;
  restored_bytes ← match pa_previous_snapshot pending with
                   | Some s => snapshot_size s
                   | None => Ok 0
                   end;
  room_snapshot ← ok_or (n ← checked_sub (room_snapshot_bytes room) current_bytes;
                         checked_add usize_MAX n restored_bytes)
                    "state snapshot accounting rejected";
  global_pending_count ← ok_or (checked_sub (global_pending_count self) 1)
                           "pending application accounting rejected";
  global_pending_bytes ← ok_or (checked_sub (global_pending_bytes self) bytes)
                           "pending application accounting rejected";
  global_delivery_count ← ok_or (checked_sub (global_delivery_count self) removed_count)
                            "delivery accounting rejected";
  global_delivery_bytes ← ok_or (checked_sub (global_delivery_bytes self) removed_bytes)
                            "delivery accounting rejected";
  let current_count := if contains_key sender (room_snapshots room) then 1 else 0 in
  let restored_count := match pa_previous_snapshot pending with Some _ => 1 | None => 0 end in
  global_snapshot_count ←
    ok_or (n ← checked_sub (global_snapshot_count self) current_count;
           checked_add usize_MAX n restored_count)
      "state snapshot accounting rejected";
  global_snapshot_bytes ←
    ok_or (n ← checked_sub (global_snapshot_bytes self) current_bytes;
           checked_add usize_MAX n restored_bytes)
      "state snapshot accounting rejected";
  Ok (mkRollback pending room_pending room_delivery room_snapshot global_pending_count
        global_pending_bytes global_delivery_count global_delivery_bytes
        global_snapshot_count global_snapshot_bytes).

(** The loop over recipients; a failure keeps the queues filtered so far. *)
Fixpoint rollback_queues (message_id : string) (code_ids : list CodeId)
    : ST RelayRoom string () :=
  match code_ids with
  | [] => mret tt
  | code_id :: code_ids =>
      _ ← modify (drop_message message_id code_id);
      _ ← compact_delivery_revisions code_id;
      rollback_queues message_id code_ids
  end.

Definition rollback_room (message_id : string) (plan : rollback_plan)
    : ST RelayRoom string () := λ room,
  match room_pending_applications room !! message_id with
  | None => (Err "application admission unavailable", room)
  | Some _ =>
      let room := set_room_pending_applications
        (delete message_id (room_pending_applications room)) room in
      let sender := pa_sender_code_id (rb_pending plan) in
      (_ ← rollback_queues message_id (hash_keys (room_deliveries room));
       modify (λ room,
         let room := drop_empty_queues room in
         let room := set_room_delivery_bytes (rb_room_delivery_bytes plan) room in
         let room := set_room_member_revisions
           (<[sender := pa_previous_sender_revision (rb_pending plan)]>
              (room_member_revisions room)) room in
         let room := restore_snapshot sender (pa_previous_snapshot (rb_pending plan)) room in
         let room := set_room_snapshot_bytes (rb_room_snapshot_bytes plan) room in
         set_room_pending_bytes (rb_room_pending_bytes plan) room)) room
  end.

Definition rollback_application (room_id message_id : string)
    : ST RoomAuthority string () := λ self,
  match
    plan ← rollback_totals room_id message_id self;
    room ← get_room room_id self;
    Ok (plan, room)
  with
  | Err e => (Err e, self)
  | Ok (plan, room) =>
      match rollback_room message_id plan room with
      | (Err e, room) => (Err e, put_room room_id room self)
      | (Ok _, room) =>
          let self := put_room room_id room self in
          let self := set_global_pending_count (rb_global_pending_count plan) self in
          let self := set_global_pending_bytes (rb_global_pending_bytes plan) self in
          let self := set_global_delivery_count (rb_global_delivery_count plan) self in
          let self := set_global_delivery_bytes (rb_global_delivery_bytes plan) self in
          let self := set_global_snapshot_count (rb_global_snapshot_count plan) self in
          let self := set_global_snapshot_bytes (rb_global_snapshot_bytes plan) self in
          (Ok tt, self)
      end
  end.
End application.
