(* ===== verification/RoomSnapshot.v ===== *)
(** * Member state snapshots (rooms/snapshot.rs, [store_snapshot])

    A member acknowledges deliveries by storing its next encrypted state: the
    snapshot names a revision, and retires exactly the contiguous prefix of
    the member's queue up to it.  A joiner's first snapshot retires its
    Welcome and activates it. *)

From S2P Require Import Prelude RoomModel RoomValidation RoomDelivery RoomAuthority.
From S2P Require Import RoomMembership.

Section snapshot.
Context {HO : HashOrder}.

(** The loop that counts the contiguous prefix: [expected] is the revision
    the delivery at the front of [rest] must have. *)
Fixpoint retire_loop (expected revision : Z) (rest : list PendingDelivery) (count : nat)
    : result string nat :=
  match rest with
  | [] => Err "state snapshot delivery order rejected"
  | d :: rest =>
      _ ← reject_if (bool_decide (pd_revision d ≠ expected))
            "state snapshot delivery order rejected";
      if decide (expected = revision) then Ok (S count)
      else
        expected' ← ok_or (checked_add u64_MAX expected 1) "delivery revision exhausted";
        retire_loop expected' revision rest (S count)
  end.

(** The Welcome an inactive member must acknowledge first. *)
Definition check_welcome (room : RelayRoom) (queue : list PendingDelivery)
    (message_id : string) (epoch revision current_revision : Z) (membership_digest : bytes)
    : result string () :=
  welcome ← ok_or (head queue) "state snapshot welcome unavailable";
  _ ← reject_if
        (bool_decide (revision ≠ current_revision)
         || bool_decide (pd_revision welcome ≠ revision))
        "state snapshot delivery order rejected";
  _ ← reject_if (bool_decide (pd_message_id welcome ≠ message_id))
        "state snapshot message rejected";
  _ ← reject_if
        (bool_decide (pd_epoch welcome ≠ epoch)
         || bool_decide (pd_membership_digest welcome ≠ membership_digest))
        "state snapshot delivery checkpoint rejected";
  match pd_payload welcome with
  | Membership _ _ group_id _ _ w _ =>
      reject_if (bool_decide (group_id ≠ room_group_id room) || bool_decide (w = []))
        "state snapshot welcome rejected"
  | Application _ _ _ _ _ => Err "state snapshot welcome rejected"
  end.

(** How many deliveries the snapshot retires. *)
Definition retire_count (room : RelayRoom) (member : CodeId) (message_id : string)
    (epoch revision : Z) (membership_digest : bytes) : result string nat :=
  let current := default 0 (room_member_revisions room !! member) in
  let queue := room_deliveries room !! member in
  let max_queued :=
    default current (q ← queue; d ← last q; Some (pd_revision d)) in
  _ ← reject_if (bool_decide (revision < current) || bool_decide (max_queued < revision))
        "state snapshot revision rejected";
  if negb (member_active room member) then
    _ ← check_welcome room (queue_of room member) message_id epoch revision current
          membership_digest;
    Ok 1%nat
  else if decide (current < revision) then
    q ← ok_or queue "state snapshot delivery unavailable";
    expected ← ok_or (checked_add u64_MAX current 1) "delivery revision exhausted";
    n ← retire_loop expected revision q 0;
    _ ← reject_if
          (bool_decide (pd_message_id <$> q !! (n - 1)%nat ≠ Some message_id))
          "state snapshot message rejected";
    Ok n
  else Ok 0%nat.

(** The checkpoint an active member's snapshot must name. *)
Definition check_checkpoint (room : RelayRoom) (member : CodeId) (message_id : string)
    (epoch revision : Z) (membership_digest state_envelope : bytes) (n : nat)
    : result string () :=
  let current := default 0 (room_member_revisions room !! member) in
  if negb (member_active room member) then Ok tt
  else if decide (0 < n)%nat then
    target ← ok_or (q ← room_deliveries room !! member; q !! (n - 1)%nat)
               "state snapshot delivery unavailable";
    reject_if
      (bool_decide (pd_epoch target ≠ epoch)
       || bool_decide (pd_membership_digest target ≠ membership_digest))
      "state snapshot delivery checkpoint rejected"
  else
    match room_snapshots room !! member with
    | Some existing =>
        reject_if
          (bool_decide (ss_epoch existing ≠ epoch)
           || bool_decide (ss_revision existing ≠ revision)
           || bool_decide (ss_message_id existing ≠ message_id)
           || bool_decide (ss_membership_digest existing ≠ membership_digest)
           || bool_decide (ss_state_envelope existing ≠ state_envelope))
          "state snapshot checkpoint rejected"
    | None =>
        reject_if
          (bool_decide (room_epoch room ≠ epoch)
           || bool_decide (room_membership_digest room ≠ membership_digest)
           || bool_decide (current ≠ revision))
          "state snapshot checkpoint unavailable"
    end.

(** The roster the retired prefix leads to: the last Membership delivery
    wins; each one is validated. *)
Fixpoint retired_roster (retired : list PendingDelivery) (roster : list RosterMember)
    : result string (list RosterMember) :=
  match retired with
  | [] => Ok roster
  | d :: retired =>
      match pd_payload d with
      | Membership _ _ _ r _ _ _ => _ ← roster_map r; retired_roster retired r
      | Application _ _ _ _ _ => retired_roster retired roster
      end
  end.

Definition snapshot_roster (room : RelayRoom) (member : CodeId) (epoch : Z)
    (membership_digest : bytes) (n : nat) : result string (list RosterMember) :=
  let previous :=
    match room_snapshots room !! member with Some s => ss_roster s | None => [] end in
  roster ← retired_roster (take n (queue_of room member)) previous;
  roster ← (if bool_decide (roster = []) && member_active room member
               && bool_decide (n = 0%nat)
            then canonical_room_roster room
            else Ok roster);
  _ ← (if bool_decide (roster = []) then Err "state snapshot roster rejected"
       else if bool_decide (epoch = room_epoch room)
               && bool_decide (membership_digest = room_membership_digest room)
            then matches ← rosters_match_room roster room;
                 reject_if (negb matches) "state snapshot roster rejected"
            else Ok tt);
  Ok roster.

Record snapshot_totals : Type := mkTotals {
  st_room_delivery_bytes : Z;
  st_room_snapshot_bytes : Z;
  st_global_delivery_count : Z;
  st_global_delivery_bytes : Z;
  st_global_snapshot_count : Z;
  st_global_snapshot_bytes : Z
}.

(** The budgets of the new snapshot and the totals after the retirement. *)
Definition snapshot_budget (self : RoomAuthority) (room : RelayRoom) (member : CodeId)
    (state_envelope : bytes) (roster : list RosterMember) (n : nat)
    : result string snapshot_totals :=
  let is_new := negb (contains_key member (room_snapshots room)) in
  _ ← reject_if
        (bool_decide (MAX_STATE_SNAPSHOTS ≤ map_len (room_snapshots room)) && is_new)
        "state snapshot limit reached";
  previous_bytes ← stored_snapshot_bytes room member;
  roster_bytes ← roster_size roster;
  next_bytes ← ok_or (checked_add usize_MAX (len state_envelope) roster_bytes)
                 "state snapshot bytes limit reached";
  let room_snapshot :=
    k ← checked_sub (room_snapshot_bytes room) previous_bytes;
    checked_add usize_MAX k next_bytes in
  let global_snapshot_count :=
    checked_add usize_MAX (global_snapshot_count self) (if is_new then 1 else 0) in
  let global_snapshot_bytes :=
    k ← checked_sub (global_snapshot_bytes self) previous_bytes;
    checked_add usize_MAX k next_bytes in
  _ ← reject_if (over_budget room_snapshot MAX_STATE_BYTES)
        "state snapshot bytes limit reached";
  _ ← reject_if
        (over_budget global_snapshot_count MAX_GLOBAL_STATE_SNAPSHOTS
         || over_budget global_snapshot_bytes MAX_GLOBAL_STATE_BYTES)
        "global state snapshot budget reached";
  room_snapshot ← ok_or room_snapshot "state snapshot bytes limit reached";
  global_snapshot_count ← ok_or global_snapshot_count "global state snapshot budget reached";
  global_snapshot_bytes ← ok_or global_snapshot_bytes "global state snapshot budget reached";
  removed_bytes ← delivery_bytes (take n (queue_of room member));
  room_delivery ← ok_or (checked_sub (room_delivery_bytes room) removed_bytes)
                    "delivery accounting rejected";
  global_delivery_count ←
    ok_or (checked_sub (global_delivery_count self) (Z.of_nat n))
      "delivery accounting rejected";
  global_delivery_bytes ← ok_or (checked_sub (global_delivery_bytes self) removed_bytes)
                            "delivery accounting rejected";
  Ok (mkTotals room_delivery room_snapshot global_delivery_count global_delivery_bytes
        global_snapshot_count global_snapshot_bytes).

Definition application_sender (d : PendingDelivery) : option CodeId :=
  match pd_payload d with
  | Application sender _ _ _ _ => Some sender
  | Membership _ _ _ _ _ _ _ => None
  end.
Definition is_membership (d : PendingDelivery) : bool :=
  match pd_payload d with Membership _ _ _ _ _ _ _ => true | _ => false end.

(** The gaps after the retirement: the retired senders' gaps close, and a
    retired Membership delivery closes all of the member's gaps. *)
Definition retire_gaps (member : CodeId) (retired : list PendingDelivery)
    (gaps : gmap (CodeId * CodeId) Z) : gmap (CodeId * CodeId) Z :=
  let gaps := foldl (λ g sender, delete (member, sender) g) gaps
                (elements (list_to_set (omap application_sender retired) : gset CodeId)) in
  if existsb is_membership retired
  then retain (λ k _, bool_decide (k.1 ≠ member)) gaps
  else gaps.

(** [members.iter().find(|(_, m)| m.code_id == code)], the username. *)
Definition find_username (room : RelayRoom) (code_id : CodeId) : option string :=
  (λ p, p.2.1) <$> list_find (λ um, mem_code_id um.2 = code_id) (btree_iter (room_members room)).

(** The room after the snapshot is stored. *)
Definition install_snapshot (room : RelayRoom) (member : CodeId) (username : string)
    (revision : Z) (n : nat) (s : StateSnapshot) (totals : snapshot_totals) : RelayRoom :=
  let retired := take n (queue_of room member) in
  let room := set_room_members
    (alter (set_mem_active true) username (room_members room)) room in
  let room :=
    if decide (0 < n)%nat
    then set_room_deliveries (alter (drop n) member (room_deliveries room)) room
    else room in
  let room := set_room_expired_sender_gaps
    (retire_gaps member retired (room_expired_sender_gaps room)) room in
  let room := set_room_delivery_bytes (st_room_delivery_bytes totals) room in
  let room := set_room_member_revisions
    (<[member := revision]> (room_member_revisions room)) room in
  let room := set_room_snapshot_bytes (st_room_snapshot_bytes totals) room in
  set_room_snapshots (<[member := s]> (room_snapshots room)) room.

Definition snapshot_room (now : Z) (member : CodeId) (room_id message_id : string)
    (epoch revision : Z) (membership_digest state_envelope : bytes) (self : RoomAuthority)
    : result string (StateSnapshot * RoomAuthority) :=
  _ ← validate_request_id message_id;
  _ ← validate_digest membership_digest;
  _ ← validate_state_envelope state_envelope;
  room ← get_room room_id self;
  _ ← reject_if (negb (is_member_of room member)) "room member required";
  n ← retire_count room member message_id epoch revision membership_digest;
  _ ← check_checkpoint room member message_id epoch revision membership_digest
        state_envelope n;
  roster ← snapshot_roster room member epoch membership_digest n;
  totals ← snapshot_budget self room member state_envelope roster n;
  username ← ok_or (find_username room member) "room member required";
  _ ← (if decide (0 < n)%nat then
         q ← ok_or (room_deliveries room !! member) "state snapshot delivery unavailable";
         reject_if (bool_decide (length q < n)%nat) "state snapshot delivery order rejected"
       else Ok tt);
  let s :=
    mkSnapshot room_id message_id member epoch revision membership_digest state_envelope
      roster now u64_MAX in
  let room := install_snapshot room member username revision n s totals in
  let self := put_room room_id room self in
  let self := set_global_delivery_count (st_global_delivery_count totals) self in
  let self := set_global_delivery_bytes (st_global_delivery_bytes totals) self in
  let self := set_global_snapshot_count (st_global_snapshot_count totals) self in
  let self := set_global_snapshot_bytes (st_global_snapshot_bytes totals) self in
  Ok (s, self).

Definition store_snapshot (now : Z) (member : CodeId) (room_id message_id : string)
    (epoch revision : Z) (membership_digest state_envelope : bytes)
    : ST RoomAuthority string StateSnapshot := λ self,
  let self := prune_expired now self in
  match
    snapshot_room now member room_id message_id epoch revision membership_digest
      state_envelope self
  with
  | Err e => (Err e, self)
  | Ok (s, self) => (_ ← recompute_gap_accounting; mret s) self
  end.
End snapshot.
