(* ===== verification/RoomDemo.v ===== *)
(** * A concrete room

    The scenario of the repository's own room tests: an owner creates a room,
    a second account asks to join, the owner stages and the relay accepts the
    addition, the joiner acknowledges its Welcome, and both exchange
    applications.  The states are evaluated by the witnesses of the room
    theorems. *)

From S2P Require Import Prelude RoomModel RoomValidation RoomDelivery RoomAuthority RoomLifecycle.
From S2P Require Import RoomMembership RoomApplication RoomSnapshot.

Definition code (b : byte) : CodeId := replicate 32 b.
Definition stable (b : byte) : bytes := replicate 64 b.
Definition digest (b : byte) : bytes := replicate 32 b.
Definition owner : CodeId := code Byte.x01.
Definition bob : CodeId := code Byte.x02.
Definition gid : bytes := digest Byte.x07.

(** The state an ST computation leaves, and its answer. *)
Definition after {S E A} (m : ST S E A) (s : S) : S := (m s).2.
Definition answer {S E A} (m : ST S E A) (s : S) : result E A := (m s).1.

Definition demo_created : RoomAuthority :=
  after (create 1 1 owner "Alice" "room_1" gid 0 0 (digest Byte.x08) (stable Byte.x01))
    (new 4).

Definition demo_requested : RoomAuthority :=
  after (request_join 2 bob "Bob" "room_1" "join_1" (stable Byte.x02) [Byte.x05] [Byte.x06])
    demo_created.

Definition demo_roster : list RosterMember :=
  [mkRosterMember "alice" (stable Byte.x01); mkRosterMember "bob" (stable Byte.x02)].

Definition demo_transition : MembershipTransition :=
  mkTransition "room_1" "commit_1" (Some "join_1") 0 1 1 gid (digest Byte.x08)
    (digest Byte.x09) demo_roster [Byte.x0a] [Byte.x0b] [Byte.x0c] [Byte.x0d] 0 0.

Definition demo_staged : RoomAuthority :=
  after (begin_membership 3 owner demo_transition) demo_requested.

Definition demo_accepted : RoomAuthority :=
  after (accept_membership 4 4 4 4 owner "room_1" "commit_1" 1) demo_staged.

Definition demo_active : RoomAuthority :=
  after (store_snapshot 5 bob "room_1" "commit_1" 1 0 (digest Byte.x09) [Byte.x0e])
    demo_accepted.

Definition demo_admitted : RoomAuthority :=
  after (admit_application_for_platform 6 owner Android "room_1" "msg_1" gid 1 2
           (digest Byte.x09) [Byte.x21; Byte.x22] [Byte.x23] [Byte.x24]) demo_active.

Definition demo_committed : RoomAuthority :=
  after (commit_application 7 "room_1" "msg_1") demo_admitted.

Definition demo_rolled_back : RoomAuthority :=
  after (rollback_application "room_1" "msg_1") demo_admitted.

Definition demo_acked : RoomAuthority :=
  after (store_snapshot 8 bob "room_1" "msg_1" 1 1 (digest Byte.x09) [Byte.x31])
    demo_committed.

(** Every step of the scenario succeeds. *)
Example demo_scenario :
  is_ok (answer (create 1 1 owner "Alice" "room_1" gid 0 0 (digest Byte.x08) (stable Byte.x01))
           (new 4)) = true ∧
  is_ok (answer (request_join 2 bob "Bob" "room_1" "join_1" (stable Byte.x02) [Byte.x05]
           [Byte.x06]) demo_created) = true ∧
  is_ok (answer (begin_membership 3 owner demo_transition) demo_requested) = true ∧
  is_ok (answer (accept_membership 4 4 4 4 owner "room_1" "commit_1" 1) demo_staged) = true ∧
  is_ok (answer (store_snapshot 5 bob "room_1" "commit_1" 1 0 (digest Byte.x09) [Byte.x0e])
           demo_accepted) = true ∧
  is_ok (answer (admit_application_for_platform 6 owner Android "room_1" "msg_1" gid 1 2
           (digest Byte.x09) [Byte.x21; Byte.x22] [Byte.x23] [Byte.x24]) demo_active) = true ∧
  is_ok (answer (commit_application 7 "room_1" "msg_1") demo_admitted) = true ∧
  is_ok (answer (rollback_application "room_1" "msg_1") demo_admitted) = true ∧
  is_ok (answer (store_snapshot 8 bob "room_1" "msg_1" 1 1 (digest Byte.x09) [Byte.x31])
           demo_committed) = true.
Proof. vm_compute. repeat split. Qed.

(** * Behaviours of the room code that its contracts do not intend

    Each is a concrete run of the modelled operations. *)

Definition carol : CodeId := code Byte.x03.

(** The message identifiers queued for an account, with their revisions. *)
Definition queued (c : CodeId) (s : RoomAuthority) : list (string * Z) :=
  match rooms s !! "room_1" with
  | Some r => (λ d, (pd_message_id d, pd_revision d)) <$> queue_of r c
  | None => []
  end.

(** ** A rollback that drops a membership commit *)

Definition trio_roster : list RosterMember :=
  [mkRosterMember "alice" (stable Byte.x01); mkRosterMember "bob" (stable Byte.x02);
   mkRosterMember "carol" (stable Byte.x03)].

Definition trio_transition : MembershipTransition :=
  mkTransition "room_1" "id_2" (Some "join_2") 1 2 2 gid (digest Byte.x09)
    (digest Byte.x0a) trio_roster [Byte.x0a] [Byte.x0b] [Byte.x0c] [Byte.x0d] 0 0.

Definition trio : RoomAuthority :=
  after (accept_membership 8 8 8 8 owner "room_1" "id_2" 2)
    (after (begin_membership 7 owner trio_transition)
       (after (request_join 6 carol "Carol" "room_1" "join_2" (stable Byte.x03) [Byte.x05]
                 [Byte.x06]) demo_active)).

(** The owner then sends an application under the same identifier, which the
    separate replay domains allow. *)
Definition trio_admitted : RoomAuthority :=
  after (admit_application_for_platform 9 owner Android "room_1" "id_2" gid 2 3
           (digest Byte.x0a) [Byte.x21] [Byte.x23] [Byte.x24]) trio.

Definition trio_rolled_back : RoomAuthority :=
  after (rollback_application "room_1" "id_2") trio_admitted.

(** Rolling back an application also removes the queued membership commit that
    shares its identifier: the queues are filtered by message identifier
    alone, although identifiers are only unique per replay domain. *)
Example rollback_drops_membership_commit :
  queued bob trio = [("id_2", 1)] ∧
  queued bob trio_admitted = [("id_2", 1); ("id_2", 2)] ∧
  answer (rollback_application "room_1" "id_2") trio_admitted = Ok tt ∧
  queued bob trio_rolled_back = [].
Proof. vm_compute. repeat split. Qed.

(** ** A rollback that leaves a gap *)

(** Bob acknowledges the owner's message and answers before the owner's
    admission is rolled back. *)
Definition answered : RoomAuthority :=
  after (admit_application_for_platform 8 bob Web "room_1" "msg_2" gid 1 2
           (digest Byte.x09) [Byte.x31] [Byte.x33] [Byte.x34])
    (after (store_snapshot 7 bob "room_1" "msg_1" 1 1 (digest Byte.x09) [Byte.x31])
       demo_admitted).

Definition answered_rolled_back : RoomAuthority :=
  after (rollback_application "room_1" "msg_1") answered.

(** The rollback renumbers the sender's queue before it restores the sender's
    revision, so the queue no longer starts at the next revision and no
    snapshot of the sender is accepted. *)
Example rollback_leaves_gap :
  queued owner answered = [("msg_2", 3)] ∧
  answer (rollback_application "room_1" "msg_1") answered = Ok tt ∧
  queued owner answered_rolled_back = [("msg_2", 3)] ∧
  (r ← rooms answered_rolled_back !! "room_1"; room_member_revisions r !! owner) = Some 1 ∧
  answer (store_snapshot 9 owner "room_1" "msg_2" 1 2 (digest Byte.x09) [Byte.x41])
    answered_rolled_back = Err "state snapshot delivery order rejected" ∧
  answer (store_snapshot 9 owner "room_1" "msg_2" 1 3 (digest Byte.x09) [Byte.x41])
    answered_rolled_back = Err "state snapshot delivery order rejected".
Proof. vm_compute. repeat split. Qed.

(** ** A removal that consumes a stranger's join request *)

Definition removal : MembershipTransition :=
  mkTransition "room_1" "id_2" (Some "req_1") 1 2 2 gid (digest Byte.x09)
    (digest Byte.x0a) [mkRosterMember "alice" (stable Byte.x01)] [Byte.x0a] [] [Byte.x0c]
    [Byte.x0d] 0 0.

(** Bob asks to leave, the owner stages his removal, the leave request is
    removed and Carol asks to join under the same request identifier. *)
Definition reused : RoomAuthority :=
  after (request_join 9 carol "Carol" "room_1" "req_1" (stable Byte.x03) [Byte.x05] [Byte.x06])
    (after (remove_leave 8 owner "room_1" "req_1")
       (after (begin_membership 7 owner removal)
          (after (request_leave 6 bob "room_1" "req_1") demo_active))).

Definition reused_accepted : RoomAuthority :=
  after (accept_membership 10 10 10 10 owner "room_1" "id_2" 2) reused.

(** Accepting the removal takes Carol's join request for the answered one: it
    is deleted and a snapshot is stored for Carol, who is not a member. *)
Example removal_consumes_join :
  is_ok (answer (accept_membership 10 10 10 10 owner "room_1" "id_2" 2) reused) = true ∧
  (r ← rooms reused !! "room_1"; Some (dom (room_joins r))) = Some {["req_1"]} ∧
  (r ← rooms reused_accepted !! "room_1"; Some (dom (room_joins r))) = Some ∅ ∧
  (r ← rooms reused_accepted !! "room_1"; Some (dom (room_members r))) = Some {["alice"]} ∧
  (r ← rooms reused_accepted !! "room_1"; room_snapshots r !! carol ≫= λ s, Some (ss_state_envelope s))
    = Some [Byte.x06].
Proof. vm_compute. repeat split. Qed.
