(* ===== verification/RoomSizes.v ===== *)
(** * Exact sizes

    The relay computes every byte size with checked arithmetic.  Here is the
    exact size of each stored object, the measures of a room, and the proofs
    that a checked computation that succeeds returns the exact value and that
    it succeeds whenever the exact value fits a [usize]. *)

From S2P Require Import Prelude RoomModel RoomValidation RoomDelivery RoomAuthority.
From S2P Require Import RoomApplication.

(** ** Checked computations of a measure *)

(** [f] computes the measure [g], or fails because it does not fit. *)
Class Measures {A} (f : A → option Z) (g : A → Z) : Prop := {
  measure_nonneg : ∀ x, 0 ≤ g x;
  measure_exact : ∀ x v, f x = Some v → v = g x;
  measure_fits : ∀ x, g x ≤ usize_MAX → f x = Some (g x)
}.

Section measures.
Context {A : Type} (f : A → option Z) (g : A → Z) `{!Measures f g}.

Lemma try_sum_from_exact acc l r :
  try_sum_from acc (f <$> l) = Some r → r = acc + sumZ (g <$> l).
Proof.
  intros (vs & Hvs & ->)%try_sum_from_Some. do 2 f_equal.
  revert vs Hvs. induction l as [|x l IH]; intros [|v vs] Hvs; simplify_eq/=; [done|].
  f_equal; [by apply measure_exact|by apply IH].
Qed.

Lemma try_sum_from_fits acc l :
  0 ≤ acc → acc + sumZ (g <$> l) ≤ usize_MAX →
  try_sum_from acc (f <$> l) = Some (acc + sumZ (g <$> l)).
Proof.
  intros Hacc Hle.
  assert (f <$> l = Some <$> (g <$> l)) as ->.
  { rewrite <- list_fmap_compose. apply list_fmap_ext. intros i x Hx. simpl.
    apply measure_fits. apply list_elem_of_lookup_2, list_elem_of_split in Hx as (l1 & l2 & ->).
    rewrite fmap_app, fmap_cons, sumZ_app, sumZ_cons in Hle.
    pose proof (sumZ_fmap_nonneg g l1 measure_nonneg).
    pose proof (sumZ_fmap_nonneg g l2 measure_nonneg). lia. }
  apply try_sum_from_ok; [|done]. apply Forall_fmap, Forall_true. apply measure_nonneg.
Qed.

Lemma try_sum_exact l r : try_sum (f <$> l) = Some r → r = sumZ (g <$> l).
Proof. by intros ->%try_sum_from_exact. Qed.
Lemma try_sum_fits l :
  sumZ (g <$> l) ≤ usize_MAX → try_sum (f <$> l) = Some (sumZ (g <$> l)).
Proof. intros. unfold try_sum. by rewrite try_sum_from_fits. Qed.
End measures.

#[export] Instance measures_Some {A} (g : A → Z) :
  (∀ x, 0 ≤ g x) → Measures (λ x, Some (g x)) g.
Proof. intros. split; [done|by intros ? ? [= ->]|done]. Qed.

Lemma checked_add_all_fits a l :
  0 ≤ a → Forall (λ x, 0 ≤ x) l → a + sumZ l ≤ usize_MAX →
  checked_add_all a l = Some (a + sumZ l).
Proof. intros. by apply try_sum_from_ok. Qed.

Lemma checked_sum_fmap_exact {A} (g : A → Z) l r :
  checked_sum (g <$> l) = Some r → r = sumZ (g <$> l).
Proof. by intros ->%checked_sum_Some. Qed.

(** ** Exact sizes *)

Definition roster_bytes_of (roster : list RosterMember) : Z :=
  sumZ (roster ≫= λ m, [slen (ros_username m); len (ros_stable_identity m)]).

Definition snapshot_bytes_of (s : StateSnapshot) : Z :=
  len (ss_state_envelope s) + roster_bytes_of (ss_roster s).

Definition payload_bytes_of (p : DeliveryPayload) : Z :=
  match p with
  | Membership _ d g r c w a => len d + len g + roster_bytes_of r + len c + len w + len a
  | Application _ u _ c a => CODE_ID_BYTES + slen u + len c + len a
  end.

Definition delivery_bytes_of (d : PendingDelivery) : Z :=
  slen (pd_room_id d) + slen (pd_message_id d) + len (pd_membership_digest d)
  + payload_bytes_of (pd_payload d).

Definition queue_bytes (q : list PendingDelivery) : Z := sumZ (delivery_bytes_of <$> q).

Definition pending_bytes_of (p : PendingApplication) : Z :=
  len (aa_ciphertext (pa_admission p)) + len (aa_authenticated_data (pa_admission p))
  + slen (aa_message_id (pa_admission p)).

Definition join_bytes_of (j : PendingJoin) : Z := len (pj_state_envelope j).

Lemma roster_parts_nonneg (roster : list RosterMember) :
  Forall (λ x, 0 ≤ x)
    (roster ≫= λ m, [slen (ros_username m); len (ros_stable_identity m)]).
Proof.
  induction roster as [|m r IH]; [done|]. rewrite bind_cons. apply Forall_app.
  split; [|done]. repeat constructor; auto with relay.
Qed.

Lemma roster_bytes_nonneg r : 0 ≤ roster_bytes_of r.
Proof. apply sumZ_nonneg, roster_parts_nonneg. Qed.
Lemma snapshot_bytes_nonneg s : 0 ≤ snapshot_bytes_of s.
Proof.
  unfold snapshot_bytes_of. pose proof (roster_bytes_nonneg (ss_roster s)).
  pose proof (len_nonneg (ss_state_envelope s)). lia.
Qed.
Lemma payload_bytes_nonneg p : 0 ≤ payload_bytes_of p.
Proof.
  destruct p as [e d g r c w a|c u p ct a]; simpl;
    repeat match goal with
    | |- context [len ?l] => lazymatch goal with
        | H : 0 ≤ len l |- _ => fail | _ => pose proof (len_nonneg l) end
    | |- context [slen ?l] => lazymatch goal with
        | H : 0 ≤ slen l |- _ => fail | _ => pose proof (slen_nonneg l) end
    end; unfold CODE_ID_BYTES; try pose proof (roster_bytes_nonneg r); lia.
Qed.
Lemma delivery_bytes_nonneg d : 0 ≤ delivery_bytes_of d.
Proof.
  unfold delivery_bytes_of. pose proof (payload_bytes_nonneg (pd_payload d)).
  pose proof (slen_nonneg (pd_room_id d)). pose proof (slen_nonneg (pd_message_id d)).
  pose proof (len_nonneg (pd_membership_digest d)). lia.
Qed.
Lemma queue_bytes_nonneg q : 0 ≤ queue_bytes q.
Proof. apply sumZ_fmap_nonneg, delivery_bytes_nonneg. Qed.
Lemma pending_bytes_nonneg p : 0 ≤ pending_bytes_of p.
Proof.
  unfold pending_bytes_of. destruct p as [a c r s]. simpl.
  pose proof (len_nonneg (aa_ciphertext a)).
  pose proof (len_nonneg (aa_authenticated_data a)).
  pose proof (slen_nonneg (aa_message_id a)). lia.
Qed.
Lemma join_bytes_nonneg j : 0 ≤ join_bytes_of j.
Proof. apply len_nonneg. Qed.

#[export] Hint Resolve roster_bytes_nonneg snapshot_bytes_nonneg payload_bytes_nonneg
  delivery_bytes_nonneg queue_bytes_nonneg pending_bytes_nonneg join_bytes_nonneg : relay.

(** ** The checked computations measure them *)

Lemma roster_size_exact r v : roster_size r = Ok v → v = roster_bytes_of r.
Proof. unfold roster_size. by intros ->%ok_or_Ok%checked_sum_Some. Qed.

Lemma roster_size_fits r :
  roster_bytes_of r ≤ usize_MAX → roster_size r = Ok (roster_bytes_of r).
Proof.
  intros. unfold roster_size. rewrite checked_sum_ok; [done| |done].
  apply roster_parts_nonneg.
Qed.

Lemma snapshot_size_exact s v : snapshot_size s = Ok v → v = snapshot_bytes_of s.
Proof.
  unfold snapshot_size. intros. run_ok. checked.
  match goal with H : roster_size _ = _ |- _ => apply roster_size_exact in H as -> end.
  done.
Qed.

Lemma snapshot_size_fits s :
  snapshot_bytes_of s ≤ usize_MAX → snapshot_size s = Ok (snapshot_bytes_of s).
Proof.
  unfold snapshot_bytes_of, snapshot_size. intros Hle.
  pose proof (len_nonneg (ss_state_envelope s)).
  rewrite roster_size_fits by lia. simpl. by rewrite checked_add_ok.
Qed.

#[export] Instance snapshot_measures : Measures (ok ∘ snapshot_size) snapshot_bytes_of.
Proof.
  split; [auto with relay| |].
  - intros s v Hv. apply snapshot_size_exact. simpl in Hv.
    destruct (snapshot_size s); naive_solver.
  - intros s Hs. simpl. by rewrite snapshot_size_fits.
Qed.

#[export] Instance pending_measures : Measures pending_app_bytes pending_bytes_of.
Proof.
  unfold pending_app_bytes, pending_bytes_of. split.
  - apply pending_bytes_nonneg.
  - intros p v ->%checked_add_all_Some. simpl. lia.
  - intros p Hp. rewrite checked_add_all_fits; [f_equal; simpl; lia| | |];
      [auto with relay|repeat constructor; auto with relay|simpl; lia].
Qed.

#[export] Instance payload_measures : Measures payload_bytes payload_bytes_of.
Proof.
  split; [apply payload_bytes_nonneg| |].
  - intros [e d g r c w a|c u p ct a] v Hv; simpl in *.
    + checked. apply checked_sum_Some in H0 as ->.
      match goal with H : checked_add_all _ _ = _ |- _ => apply checked_add_all_Some in H as -> end.
      unfold roster_bytes_of. simpl. lia.
    + apply checked_add_all_Some in Hv as ->. simpl. lia.
  - intros [e d g r c w a|c u p ct a] Hv; simpl in *.
    + pose proof (len_nonneg d). pose proof (len_nonneg g). pose proof (len_nonneg c).
      pose proof (len_nonneg w). pose proof (len_nonneg a).
      pose proof (roster_bytes_nonneg r).
      rewrite checked_add_ok by lia. simpl. unfold roster_bytes_of in *.
      rewrite checked_sum_ok by (lia || apply roster_parts_nonneg). simpl.
      rewrite checked_add_ok by lia. simpl.
      rewrite checked_add_all_fits; [f_equal; simpl; lia|lia| |simpl; lia].
      repeat constructor; lia.
    + rewrite checked_add_all_fits; [f_equal; simpl; lia| | |simpl; lia].
      * unfold CODE_ID_BYTES. lia.
      * repeat constructor; auto with relay.
Qed.

Lemma delivery_size_exact d v : delivery_size d = Ok v → v = delivery_bytes_of d.
Proof.
  unfold delivery_size. intros. run_ok.
  match goal with H : payload_bytes _ = _ |- _ => apply measure_exact in H as -> end.
  match goal with H : checked_add_all _ _ = _ |- _ => apply checked_add_all_Some in H as -> end.
  unfold delivery_bytes_of. simpl. lia.
Qed.

Lemma delivery_size_fits d :
  delivery_bytes_of d ≤ usize_MAX → delivery_size d = Ok (delivery_bytes_of d).
Proof.
  unfold delivery_bytes_of, delivery_size. intros Hle.
  pose proof (slen_nonneg (pd_room_id d)). pose proof (slen_nonneg (pd_message_id d)).
  pose proof (len_nonneg (pd_membership_digest d)).
  pose proof (payload_bytes_nonneg (pd_payload d)).
  rewrite measure_fits by lia. simpl.
  rewrite checked_add_all_fits; [simpl; f_equal; lia|lia| |simpl; lia].
  repeat constructor; lia.
Qed.

#[export] Instance delivery_measures : Measures (ok ∘ delivery_size) delivery_bytes_of.
Proof.
  split; [auto with relay| |].
  - intros d v Hv. apply delivery_size_exact. simpl in Hv.
    destruct (delivery_size d); naive_solver.
  - intros d Hd. simpl. by rewrite delivery_size_fits.
Qed.

Lemma delivery_bytes_exact ds v : delivery_bytes ds = Ok v → v = queue_bytes ds.
Proof. unfold delivery_bytes. intros H%ok_or_Ok. by apply (try_sum_exact _ delivery_bytes_of) in H. Qed.
Lemma delivery_bytes_fits ds :
  queue_bytes ds ≤ usize_MAX → delivery_bytes ds = Ok (queue_bytes ds).
Proof. intros. unfold delivery_bytes. by rewrite (try_sum_fits _ delivery_bytes_of). Qed.

(** ** Queues *)

Lemma queue_bytes_cons d q : queue_bytes (d :: q) = delivery_bytes_of d + queue_bytes q.
Proof. done. Qed.
Lemma queue_bytes_app p q : queue_bytes (p ++ q) = queue_bytes p + queue_bytes q.
Proof. unfold queue_bytes. by rewrite fmap_app, sumZ_app. Qed.
Lemma queue_bytes_filter (P : PendingDelivery → Prop) `{!∀ d, Decision (P d)} q :
  queue_bytes (filter P q) ≤ queue_bytes q.
Proof.
  induction q as [|d q IH]; [done|]. rewrite filter_cons.
  pose proof (delivery_bytes_nonneg d).
  case_decide; rewrite ?queue_bytes_cons; lia.
Qed.
Lemma len_filter_le {A} (P : A → Prop) `{!∀ d, Decision (P d)} (q : list A) :
  len (filter P q) ≤ len q.
Proof. unfold len. pose proof (length_filter P q). lia. Qed.

(** The size of a delivery does not depend on its revision. *)
Lemma queue_bytes_zip q rs :
  length rs = length q →
  queue_bytes (zip_with (λ d r, set_pd_revision r d) q rs) = queue_bytes q.
Proof.
  revert rs. induction q as [|d q IH]; intros [|r rs] Hl; simplify_eq/=; [done|].
  rewrite !queue_bytes_cons, IH by done. done.
Qed.

Lemma queue_bytes_concat (qs : list (list PendingDelivery)) :
  queue_bytes (concat qs) = sumZ (queue_bytes <$> qs).
Proof.
  induction qs as [|q qs IH]; [done|].
  cbn [concat]. by rewrite queue_bytes_app, IH, fmap_cons, sumZ_cons.
Qed.

(** ** Measures of a room *)

Definition m_pending_count (r : RelayRoom) : Z := map_len (room_pending_applications r).
Definition m_pending_bytes (r : RelayRoom) : Z :=
  map_sum pending_bytes_of (room_pending_applications r).
Definition m_snapshot_count (r : RelayRoom) : Z :=
  map_len (room_snapshots r) + map_len (room_joins r).
Definition m_snapshot_bytes (r : RelayRoom) : Z :=
  map_sum snapshot_bytes_of (room_snapshots r) + map_sum join_bytes_of (room_joins r).
Definition m_replay (r : RelayRoom) : Z := len (room_replay_ids r).
Definition m_delivery_count (r : RelayRoom) : Z := map_sum len (room_deliveries r).
Definition m_delivery_bytes (r : RelayRoom) : Z := map_sum queue_bytes (room_deliveries r).
Definition m_gaps (r : RelayRoom) : Z := map_len (room_expired_sender_gaps r).

Lemma m_nonneg r :
  0 ≤ m_pending_count r ∧ 0 ≤ m_pending_bytes r ∧ 0 ≤ m_snapshot_count r ∧
  0 ≤ m_snapshot_bytes r ∧ 0 ≤ m_replay r ∧ 0 ≤ m_delivery_count r ∧
  0 ≤ m_delivery_bytes r ∧ 0 ≤ m_gaps r.
Proof.
  unfold m_pending_count, m_pending_bytes, m_snapshot_count, m_snapshot_bytes, m_replay,
    m_delivery_count, m_delivery_bytes, m_gaps.
  pose proof (map_len_nonneg (room_snapshots r)). pose proof (map_len_nonneg (room_joins r)).
  pose proof (map_sum_nonneg _ (room_snapshots r) snapshot_bytes_nonneg).
  pose proof (map_sum_nonneg _ (room_joins r) join_bytes_nonneg).
  split_and!; try lia; auto using map_len_nonneg, map_sum_nonneg, len_nonneg with relay.
Qed.

(** The total of a measure over all rooms. *)
Definition total (m : RelayRoom → Z) (self : RoomAuthority) : Z := map_sum m (rooms self).

(** * Delivery queues

    Pushing deliveries, filtering and compacting queues, and what each does to
    the counts and bytes of a room.  A compacted queue carries contiguous
    revisions. *)

(** ** Sums of related maps *)

Lemma map_sum_Forall2 {K A B} `{Countable K} (f : A → Z) (g : B → Z)
    (m1 : gmap K A) (m2 : gmap K B) :
  map_Forall2 (λ _ a b, f a = g b) m1 m2 → map_sum f m1 = map_sum g m2.
Proof.
  revert m2. induction m1 as [|k a m1 Hk IH] using map_ind; intros m2 HF.
  - apply map_Forall2_empty_inv_l in HF as ->. by rewrite !map_sum_empty.
  - apply map_Forall2_insert_inv_l in HF as (b & m2' & -> & Hk' & Hab & HF); [|done].
    rewrite !map_sum_insert_None by done. rewrite Hab, (IH m2'); done.
Qed.

Lemma map_sum_retain {K V} `{Countable K} (f : V → Z) (keep : K → V → bool) (m : gmap K V) :
  (∀ k v, m !! k = Some v → keep k v = false → f v = 0) →
  map_sum f (retain keep m) = map_sum f m.
Proof.
  unfold retain. induction m as [|k v m Hk IH] using map_ind; intros Hf.
  - by rewrite map_filter_empty.
  - rewrite map_sum_insert_None, map_filter_insert by done.
    assert (map_sum f (filter (λ kv, Is_true (keep kv.1 kv.2)) m) = map_sum f m) as E.
    { apply IH. intros k' v' Hv'. apply Hf. rewrite lookup_insert_ne; [done|].
      intros ->. congruence. }
    case_decide as Hd; simpl in Hd.
    + rewrite map_sum_insert_None, E; [done|]. apply map_lookup_filter_None. by left.
    + rewrite delete_id, E by done. rewrite (Hf k v); [done|by rewrite lookup_insert_eq|].
      destruct (keep k v); [by destruct Hd|done].
Qed.

(** ** Pushing *)

Lemma push_deliveries_lookup ds D c :
  default [] (push_deliveries ds D !! c)
    = default [] (D !! c) ++ filter (λ d, pd_recipient_code_id d = c) ds.
Proof.
  unfold push_deliveries. revert D. induction ds as [|d ds IH]; intros D; simpl.
  { by rewrite app_nil_r. }
  rewrite IH. unfold push_delivery. destruct (decide (pd_recipient_code_id d = c)) as [Hd|Hd].
  - rewrite filter_cons_True by done. subst c. rewrite lookup_insert_eq. simpl.
    by rewrite <- app_assoc.
  - rewrite filter_cons_False by done. by rewrite lookup_insert_ne.
Qed.

Lemma push_deliveries_keys ds D c :
  is_Some (push_deliveries ds D !! c) ↔
  is_Some (D !! c) ∨ ∃ d, d ∈ ds ∧ pd_recipient_code_id d = c.
Proof.
  unfold push_deliveries. revert D. induction ds as [|d ds IH]; intros D; simpl.
  { split; [by left|]. intros [?|(d & ?%elem_of_nil & _)]; done. }
  rewrite IH. unfold push_delivery. rewrite lookup_insert_is_Some.
  setoid_rewrite elem_of_cons. split.
  - intros [[<-|[? ?]]|(x & ? & ?)]; [right|by left|right]; eauto.
  - intros [?|(x & [->|?] & ?)]; [|by left; left|by right; eauto].
    left. destruct (decide (pd_recipient_code_id d = c)); auto.
Qed.

Lemma push_deliveries_sum (f : list PendingDelivery → Z) (g : PendingDelivery → Z) ds D :
  f [] = 0 → (∀ q d, f (q ++ [d]) = f q + g d) →
  map_sum f (push_deliveries ds D) = map_sum f D + sumZ (g <$> ds).
Proof.
  intros Hnil Happ. unfold push_deliveries. revert D.
  induction ds as [|d ds IH]; intros D; cbn [foldl]; [simpl; lia|].
  rewrite IH, fmap_cons, sumZ_cons. unfold push_delivery.
  rewrite map_sum_insert. unfold at_key.
  rewrite Happ. destruct (D !! pd_recipient_code_id d) as [q|]; simpl; lia.
Qed.

Lemma push_deliveries_count ds D :
  map_sum len (push_deliveries ds D) = map_sum len D + len ds.
Proof.
  rewrite (push_deliveries_sum _ (λ _, 1)); [|done|].
  - f_equal. induction ds as [|d ds IH]; [done|].
    rewrite fmap_cons, sumZ_cons, len_cons, IH. done.
  - intros q d. by rewrite len_app.
Qed.

Lemma push_deliveries_bytes ds D :
  map_sum queue_bytes (push_deliveries ds D) = map_sum queue_bytes D + queue_bytes ds.
Proof.
  rewrite (push_deliveries_sum _ delivery_bytes_of); [done|done|].
  intros q d. rewrite queue_bytes_app, queue_bytes_cons. change (queue_bytes []) with 0. lia.
Qed.

(** ** Filtering *)

(** Queues that lost exactly the deliveries of [message_id]. *)
Definition without (message_id : string) (q q' : list PendingDelivery) : Prop :=
  ∃ rs, length rs = length (filter (λ d, pd_message_id d ≠ message_id) q) ∧
    q' = zip_with (λ d r, set_pd_revision r d)
           (filter (λ d, pd_message_id d ≠ message_id) q) rs.

Lemma without_measures m q q' :
  without m q q' →
  len q' = len (filter (λ d, pd_message_id d ≠ m) q) ∧
  queue_bytes q' = queue_bytes (filter (λ d, pd_message_id d ≠ m) q).
Proof.
  intros (rs & Hl & ->). split; [|by apply queue_bytes_zip].
  unfold len. rewrite length_zip_with. lia.
Qed.

Lemma compact_loop_length a i n q rs : compact_loop a i n q = Some rs → length rs = length q.
Proof.
  revert i n rs. induction q as [|d q IH]; intros i n rs; simpl; [by intros [= <-]|].
  destruct (_ && _); intros; checked; simplify_eq/=; f_equal; eauto.
Qed.

(** One recipient of a rollback: its queue is filtered and renumbered. *)
Lemma rollback_queue_step m c r r' :
  compact_delivery_revisions c (drop_message m c r) = (Ok tt, r') →
  match room_deliveries r !! c with
  | None => r' = r
  | Some q => ∃ q', without m q q' ∧
      r' = set_room_deliveries (<[c := q']> (room_deliveries r)) r
  end.
Proof.
  unfold drop_message, compact_delivery_revisions. intros Hc.
  destruct (room_deliveries r !! c) as [q|] eqn:Hq; simpl in Hc.
  - rewrite lookup_insert_eq in Hc.
    destruct (checked_add _ _ _) as [n|]; [|done].
    destruct (compact_loop _ _ _ _) as [rs|] eqn:E; [|done]. simplify_eq.
    apply compact_loop_length in E. eexists. split; [by exists rs|].
    destruct r. simpl. by rewrite insert_insert_eq.
  - rewrite Hq in Hc. by destruct (checked_add _ _ _); simplify_eq.
Qed.

Section rollback_queues.
Context {HO : HashOrder}.

Lemma rollback_queues_spec m cs r r' :
  rollback_queues m cs r = (Ok tt, r') → NoDup cs →
  ∃ D', r' = set_room_deliveries D' r ∧
    ∀ c, if decide (c ∈ cs)
         then option_Forall2 (without m) (room_deliveries r !! c) (D' !! c)
         else D' !! c = room_deliveries r !! c.
Proof.
  revert r. induction cs as [|c cs IH]; intros r Hrun Hnd; cbn [rollback_queues] in Hrun.
  { unfold mret, ST_ret in Hrun. simplify_eq. exists (room_deliveries r').
    split; [by destruct r'|done]. }
  apply NoDup_cons in Hnd as [Hc Hnd].
  apply ST_bind_Ok in Hrun as (u & r1 & Hm & Hrun). unfold modify in Hm. simplify_eq.
  apply ST_bind_Ok in Hrun as ([] & r1 & Hstep & Hrun).
  apply rollback_queue_step in Hstep. destruct (IH _ Hrun Hnd) as (D' & -> & HD).
  assert (∀ c', c' ≠ c → room_deliveries r1 !! c' = room_deliveries r !! c') as Hne.
  { intros c' Hc'. destruct (room_deliveries r !! c); [|by subst].
    destruct Hstep as (q' & _ & ->). simpl. by rewrite lookup_insert_ne. }
  exists D'. split.
  { destruct (room_deliveries r !! c); [|by subst]. by destruct Hstep as (q' & _ & ->). }
  intros c'. specialize (HD c'). destruct (decide (c' = c)) as [->|Hcc].
  - rewrite decide_True by set_solver. rewrite decide_False in HD by done. rewrite HD.
    destruct (room_deliveries r !! c) as [q|] eqn:Hq.
    + destruct Hstep as (q' & ? & ->). simpl. rewrite lookup_insert_eq. by constructor.
    + subst r1. rewrite Hq. constructor.
  - rewrite (Hne c' Hcc) in HD. destruct (decide (c' ∈ cs)).
    + by rewrite decide_True by set_solver.
    + by rewrite decide_False by set_solver.
Qed.

(** Over all keys: every queue loses exactly the message. *)
Lemma rollback_all_queues m r r' :
  rollback_queues m (hash_keys (room_deliveries r)) r = (Ok tt, r') →
  ∃ D', r' = set_room_deliveries D' r ∧
    map_Forall2 (λ _, without m) (room_deliveries r) D'.
Proof.
  intros Hrun. destruct (rollback_queues_spec _ _ _ _ Hrun) as (D' & -> & HD).
  { apply NoDup_hash_keys. }
  exists D'. split; [done|]. intros c. specialize (HD c). destruct (decide _) as [Hin|Hin].
  - destruct HD; by constructor.
  - rewrite HD. rewrite elem_of_hash_keys in Hin.
    destruct (room_deliveries r !! c) eqn:E; [by destruct Hin|constructor].
Qed.
End rollback_queues.

(** ** Contiguity *)

Lemma compact_loop_numbers a i n q rs :
  compact_loop a i n q = Some rs →
  rs = match q with
       | d :: q' => if negb a && bool_decide (i = 0%nat) && has_welcome (pd_payload d)
                    then 0 :: seqZ 1 (len q') else seqZ n (len q)
       | [] => []
       end.
Proof.
  assert (∀ i n q rs, i ≠ 0%nat → compact_loop a i n q = Some rs → rs = seqZ n (len q)) as Hs.
  { clear. intros i n q. revert i n. induction q as [|d q IH]; intros i n rs Hi; simpl.
    { by intros [= <-]. }
    rewrite (bool_decide_false _ Hi), andb_false_r. simpl. intros. checked. simplify_eq.
    rewrite len_cons, seqZ_cons by (pose proof (len_nonneg q); lia).
    f_equal. match goal with H : compact_loop _ _ _ _ = _ |- _ => apply IH in H as ->; [|done] end.
    unfold Z.succ. f_equal. lia. }
  destruct q as [|d q]; simpl; [by intros [= <-]|].
  destruct (_ && _); intros; checked; simplify_eq.
  - f_equal. by apply (Hs (S i)).
  - rewrite len_cons, seqZ_cons by (pose proof (len_nonneg q); lia).
    f_equal. match goal with H : compact_loop _ _ _ _ = _ |- _ => apply Hs in H as ->; [|done] end.
    unfold Z.succ. f_equal. lia.
Qed.

(** The first revision a compacted queue gets. *)
Definition first_revision (room : RelayRoom) (c : CodeId) (q : list PendingDelivery) : Z :=
  match q with
  | d :: _ => if negb (member_active room c) && has_welcome (pd_payload d) then 0
              else default 0 (room_member_revisions room !! c) + 1
  | [] => 0
  end.

Lemma first_numbers room c q :
  match q with
  | d :: q' => if negb (member_active room c) && bool_decide (0%nat = 0%nat)
                    && has_welcome (pd_payload d)
               then 0 :: seqZ 1 (len q')
               else seqZ (default 0 (room_member_revisions room !! c) + 1) (len q)
  | [] => []
  end = seqZ (first_revision room c q) (len q).
Proof.
  destruct q as [|d q]; [done|]. unfold first_revision. simpl.
  rewrite andb_true_r. destruct (_ && _); [|done].
  rewrite len_cons, (seqZ_cons 0) by (pose proof (len_nonneg q); lia).
  f_equal. f_equal. lia.
Qed.

Lemma zip_set_revision_lookup (q : list PendingDelivery) s i d :
  zip_with (λ d r, set_pd_revision r d) q (seqZ s (len q)) !! i = Some d →
  ∃ d0, q !! i = Some d0 ∧ d = set_pd_revision (s + Z.of_nat i) d0.
Proof.
  intros Hd. apply lookup_zip_with_Some in Hd as (d0 & x & -> & H1 & H2).
  apply lookup_seqZ in H2 as [-> _]. eauto.
Qed.
