(* ===== verification/RoomInvariant.v ===== *)
(** * The invariant of the room authority

    [room_ok] is the well-formedness of one room, [authority_ok] adds the
    global bounds, and [exact] says that every counter the relay keeps equals
    the total it stands for.  [prune_expired] preserves the first two and
    establishes the third, from whatever values the counters had. *)

From S2P Require Import Prelude RoomModel RoomValidation RoomDelivery RoomAuthority RoomSizes.

(** ** The invariant *)

(** A room creation charges the envelope and one roster entry without the
    per-room budget, so a stored snapshot may exceed [MAX_STATE_BYTES] a
    little; twice the budget bounds every snapshot. *)
Definition SNAPSHOT_BOUND : Z := 2 * MAX_STATE_BYTES.

Definition is_code (members : gmap string Member) (c : CodeId) : Prop :=
  ∃ u m, members !! u = Some m ∧ mem_code_id m = c.

(** The usernames on exactly one of two rosters. *)
Definition one_sided (current next : gmap string Member) : gset string :=
  (dom current ∖ dom next) ∪ (dom next ∖ dom current).

(** The staged transition takes the room to its next epoch, keeps the owner
    on the roster and changes one name. *)
Definition staged_ok (r : RelayRoom) (t : MembershipTransition) : Prop :=
  mt_to_epoch t = room_epoch r + 1 ∧
  ∃ u req c, canonical_username (room_owner_username r) = Ok u ∧
    roster_map (mt_roster t) = Ok req ∧ is_Some (req !! u) ∧
    one_sided (room_members r) req = {[c]}.

(** Where a queued delivery goes: its room and its recipient. *)
Definition route (d : PendingDelivery) : string * CodeId :=
  (pd_room_id d, pd_recipient_code_id d).

(** Every delivery of [q'] goes where one of [q] goes. *)
Definition routed_in (q' q : list PendingDelivery) : Prop :=
  ∀ d', d' ∈ q' → ∃ d, d ∈ q ∧ route d' = route d.

Record room_ok (id : string) (r : RelayRoom) : Prop := {
  ok_id : room_id r = id;
  ok_owner : ∃ u m, canonical_username (room_owner_username r) = Ok u ∧
    room_members r !! u = Some m ∧ mem_code_id m = room_owner_code_id r ∧
    mem_active m = true;
  ok_codes : ∀ u1 u2 m1 m2, room_members r !! u1 = Some m1 →
    room_members r !! u2 = Some m2 → mem_code_id m1 = mem_code_id m2 → u1 = u2;
  ok_revisions : ∀ c, is_Some (room_member_revisions r !! c) ↔ is_code (room_members r) c;
  ok_deliveries : ∀ c, is_Some (room_deliveries r !! c) → is_code (room_members r) c;
  ok_snapshots : ∀ c s, room_snapshots r !! c = Some s →
    snapshot_bytes_of s ≤ SNAPSHOT_BOUND;
  ok_joins : ∀ k j, room_joins r !! k = Some j →
    join_bytes_of j ≤ MAX_STATE_BYTES ∧
    ¬ is_code (room_members r) (jr_code_id (pj_request j));
  ok_join_codes : ∀ k1 k2 j1 j2, room_joins r !! k1 = Some j1 →
    room_joins r !! k2 = Some j2 →
    jr_code_id (pj_request j1) = jr_code_id (pj_request j2) → k1 = k2;
  ok_pending : ∀ k p, room_pending_applications r !! k = Some p →
    aa_message_id (pa_admission p) = k ∧
    is_code (room_members r) (pa_sender_code_id p) ∧
    is_Some (room_snapshots r !! pa_sender_code_id p) ∧
    (∀ s, pa_previous_snapshot p = Some s → snapshot_bytes_of s ≤ SNAPSHOT_BOUND);
  ok_senders : ∀ k1 k2 p1 p2, room_pending_applications r !! k1 = Some p1 →
    room_pending_applications r !! k2 = Some p2 →
    pa_sender_code_id p1 = pa_sender_code_id p2 → k1 = k2;
  ok_replays : len (room_replay_ids r) ≤ MAX_REPLAY_IDS;
  ok_staged : ∀ t, room_pending_transition r = Some t → staged_ok r t;
  ok_size : map_len (room_members r) ≤ MAX_MEMBERS;
  ok_names : ∀ u m, room_members r !! u = Some m → canonical_username (mem_username m) = Ok u;
  ok_identities : ∀ u1 u2 m1 m2, room_members r !! u1 = Some m1 →
    room_members r !! u2 = Some m2 → mem_stable_identity m1 = mem_stable_identity m2 → u1 = u2;
  ok_exclusive : ∀ t, room_pending_transition r = Some t → room_pending_applications r = ∅;
  ok_routes : ∀ c q d, room_deliveries r !! c = Some q → d ∈ q → route d = (id, c)
}.

Record authority_ok (self : RoomAuthority) : Prop := {
  ok_rooms : ∀ id r, rooms self !! id = Some r → room_ok id r;
  ok_pending_count : total m_pending_count self ≤ MAX_GLOBAL_PENDING_APPLICATIONS;
  ok_pending_bytes : total m_pending_bytes self ≤ MAX_GLOBAL_PENDING_BYTES;
  ok_snapshot_count : total m_snapshot_count self ≤ MAX_GLOBAL_STATE_SNAPSHOTS;
  ok_replay_count : total m_replay self ≤ MAX_GLOBAL_REPLAY_IDS;
  ok_delivery_count : total m_delivery_count self ≤ max_delivery_count self;
  ok_delivery_bytes : total m_delivery_bytes self ≤ max_delivery_bytes self;
  ok_gaps : total m_gaps self ≤ MAX_GLOBAL_EXPIRED_GAP_PAIRS;
  ok_limits : max_delivery_count self ≤ usize_MAX ∧ max_delivery_bytes self ≤ usize_MAX
}.

(** Every byte counter of a room is the total of what the room stores. *)
Definition room_exact (r : RelayRoom) : Prop :=
  room_pending_bytes r = m_pending_bytes r ∧
  room_snapshot_bytes r = map_sum snapshot_bytes_of (room_snapshots r) ∧
  room_delivery_bytes r = m_delivery_bytes r.

Record exact (self : RoomAuthority) : Prop := {
  ex_rooms : ∀ id r, rooms self !! id = Some r → room_exact r;
  ex_pending_count : global_pending_count self = total m_pending_count self;
  ex_pending_bytes : global_pending_bytes self = total m_pending_bytes self;
  ex_snapshot_count : global_snapshot_count self = total m_snapshot_count self;
  ex_snapshot_bytes : global_snapshot_bytes self = total m_snapshot_bytes self;
  ex_replay_count : global_replay_count self = total m_replay self;
  ex_delivery_count : global_delivery_count self = total m_delivery_count self;
  ex_delivery_bytes : global_delivery_bytes self = total m_delivery_bytes self;
  ex_gaps : global_expired_gap_pairs self = total m_gaps self
}.

(** ** What the sweep may do to a room *)

(** The part of a room no sweep touches. *)
Definition room_core (r : RelayRoom) :=
  (room_id r, room_owner_code_id r, room_owner_username r, room_policy r,
   room_visibility r, room_group_id r, room_epoch r, room_membership_digest r,
   room_members r).

Definition m_le (r' r : RelayRoom) : Prop :=
  m_pending_count r' ≤ m_pending_count r ∧ m_pending_bytes r' ≤ m_pending_bytes r ∧
  m_snapshot_count r' ≤ m_snapshot_count r ∧ m_replay r' ≤ m_replay r ∧
  m_delivery_count r' ≤ m_delivery_count r ∧ m_delivery_bytes r' ≤ m_delivery_bytes r.

#[export] Instance m_le_preorder : PreOrder m_le.
Proof.
  split.
  - intros r. unfold m_le. split_and!; reflexivity.
  - unfold m_le. intros x y z (?&?&?&?&?&?) (?&?&?&?&?&?). split_and!; lia.
Qed.

(** A stage of the sweep: keeps the core and the invariant, shrinks the
    measures, leaves the gaps alone. *)
Definition sweeps (r r' : RelayRoom) : Prop :=
  room_core r' = room_core r ∧ m_gaps r' = m_gaps r ∧
  ∀ id, room_ok id r → room_ok id r' ∧ m_le r' r.

#[export] Instance sweeps_preorder : PreOrder sweeps.
Proof.
  split.
  - intros r. split_and!; [done|done|]. intros id H. split; [done|reflexivity].
  - intros x y z (E1 & G1 & H1) (E2 & G2 & H2).
    split_and!; [congruence|congruence|]. intros id H.
    destruct (H1 id H) as [Hy L1]. destruct (H2 id Hy) as [Hz L2].
    split; [done|by etrans].
Qed.

Ltac solve_m_le :=
  unfold m_le, m_pending_count, m_pending_bytes, m_snapshot_count, m_replay,
    m_delivery_count, m_delivery_bytes; simpl; split_and!; try lia.

Ltac destruct_ok H :=
  destruct H as [Hid Hown Hcodes Hrev Hdel Hsnap Hjoin Hjcodes Hpend Hsend Hrepl Hstage Hsize Hnames Hident Hexcl Hroute].

(** Sub-maps of the request maps. *)
Lemma sweeps_joins r keep :
  sweeps r (set_room_joins (retain keep (room_joins r)) r).
Proof.
  split_and!; [done|done|]. intros id H. split.
  - destruct_ok H. constructor; simpl; try done.
    + intros k j Hk%retain_lookup_Some_1. eauto.
    + intros k1 k2 j1 j2 ?%retain_lookup_Some_1 ?%retain_lookup_Some_1. eauto.
  - solve_m_le.
    pose proof (map_len_retain_le (room_joins r) keep). lia.
Qed.

Lemma sweeps_leaves r keep :
  sweeps r (set_room_leaves (retain keep (room_leaves r)) r).
Proof.
  split_and!; [done|done|]. intros id H. split; [|solve_m_le].
  by destruct_ok H; constructor.
Qed.

Lemma sweeps_transition r : sweeps r (set_room_pending_transition None r).
Proof.
  split_and!; [done|done|]. intros id H. split; [|solve_m_le].
  by destruct_ok H; constructor.
Qed.

Lemma sweeps_replays r ids :
  len ids ≤ len (room_replay_ids r) → sweeps r (set_room_replay_ids ids r).
Proof.
  intros Hle. split_and!; [done|done|]. intros id H. split.
  - destruct_ok H. constructor; simpl; try done. lia.
  - solve_m_le.
Qed.

Lemma sweeps_counters r a b c :
  sweeps r (set_room_pending_bytes a (set_room_snapshot_bytes b (set_room_delivery_bytes c r))).
Proof.
  split_and!; [done|done|]. intros id H. split; [|solve_m_le].
  by destruct_ok H; constructor.
Qed.
Lemma sweeps_pending_bytes r a : sweeps r (set_room_pending_bytes a r).
Proof. by destruct (sweeps_counters r a (room_snapshot_bytes r) (room_delivery_bytes r)), r. Qed.
Lemma sweeps_snapshot_bytes r b : sweeps r (set_room_snapshot_bytes b r).
Proof. by destruct (sweeps_counters r (room_pending_bytes r) b (room_delivery_bytes r)), r. Qed.
Lemma sweeps_delivery_bytes r c : sweeps r (set_room_delivery_bytes c r).
Proof. by destruct (sweeps_counters r (room_pending_bytes r) (room_snapshot_bytes r) c), r. Qed.

(** *** Deliveries *)

(** Queues that hold no more than before, for no new recipient. *)
Definition thinner (D' D : gmap CodeId (list PendingDelivery)) : Prop :=
  (∀ c q', D' !! c = Some q' → ∃ q, D !! c = Some q ∧ routed_in q' q) ∧
  map_sum len D' ≤ map_sum len D ∧ map_sum queue_bytes D' ≤ map_sum queue_bytes D.

#[export] Instance routed_in_preorder : PreOrder routed_in.
Proof.
  split; [intros q d Hd; by exists d|]. intros a b c H1 H2 d Hd.
  destruct (H1 d Hd) as (d1 & Hd1 & ->). by apply H2.
Qed.

#[export] Instance thinner_preorder : PreOrder thinner.
Proof.
  split.
  - intros D. split_and!; [|done|done]. intros c q Hq. by exists q.
  - intros A B C (H1&?&?) (H2&?&?). split_and!; [|lia|lia]. intros c q Hq.
    destruct (H1 c q Hq) as (q1 & Hq1 & S1). destruct (H2 c q1 Hq1) as (q2 & Hq2 & S2).
    exists q2. split; [done|by etrans].
Qed.

Lemma thinner_dom D' D c : thinner D' D → is_Some (D' !! c) → is_Some (D !! c).
Proof. intros [H _] [q Hq]. destruct (H c q Hq) as (q0 & Hq0 & _). eauto. Qed.
Lemma thinner_routes D' D (x : string) :
  thinner D' D → (∀ c q d, D !! c = Some q → d ∈ q → route d = (x, c)) →
  ∀ c q d, D' !! c = Some q → d ∈ q → route d = (x, c).
Proof.
  intros [H _] HD c q d Hq Hd. destruct (H c q Hq) as (q0 & Hq0 & Hin).
  destruct (Hin d Hd) as (d0 & Hd0 & ->). eauto.
Qed.

Lemma push_routes (x : string) ds D :
  (∀ d, d ∈ ds → pd_room_id d = x) →
  (∀ c q d, D !! c = Some q → d ∈ q → route d = (x, c)) →
  ∀ c q d, push_deliveries ds D !! c = Some q → d ∈ q → route d = (x, c).
Proof.
  intros Hds HD c q d Hq Hd. pose proof (push_deliveries_lookup ds D c) as E.
  rewrite Hq in E. simpl in E. rewrite E in Hd.
  apply elem_of_app in Hd as [Hd|[<- Hd]%list_elem_of_filter].
  - destruct (D !! c) as [q0|] eqn:Hc; simpl in Hd; [eauto|by apply not_elem_of_nil in Hd].
  - unfold route. by rewrite Hds.
Qed.

Lemma routed_in_sub q' q : (∀ d, d ∈ q' → d ∈ q) → routed_in q' q.
Proof. intros H d Hd. exists d. by split; [apply H|]. Qed.

Lemma routed_in_renumbered q rs : routed_in (zip_with (λ d r, set_pd_revision r d) q rs) q.
Proof.
  intros d Hd. apply elem_of_zip_with in Hd as (x & y & -> & Hx & _). by exists x.
Qed.

Lemma thinner_insert D c q q' :
  D !! c = Some q → len q' ≤ len q → queue_bytes q' ≤ queue_bytes q → routed_in q' q →
  thinner (<[c := q']> D) D.
Proof.
  intros Hc Hl Hb Hq. split_and!.
  - intros c' q1 Hc'. destruct (decide (c = c')) as [<-|].
    + rewrite lookup_insert_eq in Hc'. injection Hc' as <-. eauto.
    + rewrite lookup_insert_ne in Hc' by done. by exists q1.
  - rewrite map_sum_insert. unfold at_key. rewrite Hc. lia.
  - rewrite map_sum_insert. unfold at_key. rewrite Hc. lia.
Qed.

Lemma thinner_retain D keep : thinner (retain keep D) D.
Proof.
  split_and!.
  - intros c q Hq. apply retain_lookup_Some_1 in Hq. by exists q.
  - apply map_sum_retain_le. intros. apply len_nonneg.
  - apply map_sum_retain_le, queue_bytes_nonneg.
Qed.

Lemma sweeps_deliveries r D' :
  thinner D' (room_deliveries r) → sweeps r (set_room_deliveries D' r).
Proof.
  intros Ht. pose proof Ht as (_ & Hl & Hb). split_and!; [done|done|]. intros id H. split.
  - destruct_ok H. constructor; simpl; try done.
    + intros c Hc. apply Hdel. by eapply thinner_dom.
    + by eapply thinner_routes.
  - solve_m_le.
Qed.

(** Compaction only renumbers: same queues, same sizes. *)
Lemma compact_thinner c r :
  ∃ D', (compact_delivery_revisions c r).2 = set_room_deliveries D' r ∧
        thinner D' (room_deliveries r).
Proof.
  unfold compact_delivery_revisions.
  assert (∀ r, r = set_room_deliveries (room_deliveries r) r) as Hid by (by intros []).
  destruct (checked_add _ _ _); [|eexists; split; [apply Hid|done]].
  destruct (room_deliveries r !! c) as [q|] eqn:Hq; [|eexists; split; [apply Hid|done]].
  destruct (compact_loop _ _ _ _) as [rs|] eqn:Hc; [|eexists; split; [apply Hid|done]].
  eexists. split; [done|]. apply compact_loop_length in Hc.
  apply thinner_insert with q; [done| |by rewrite queue_bytes_zip|apply routed_in_renumbered].
  unfold len. rewrite length_zip_with. lia.
Qed.

Lemma drop_message_thinner m c r :
  ∃ D', drop_message m c r = set_room_deliveries D' r ∧ thinner D' (room_deliveries r).
Proof.
  unfold drop_message. destruct (room_deliveries r !! c) as [q|] eqn:Hq.
  - eexists. split; [done|]. apply thinner_insert with q; [done|apply len_filter_le|
      apply queue_bytes_filter|]. apply routed_in_sub. by intros d [_ ?]%list_elem_of_filter.
  - exists (room_deliveries r). split; [by destruct r|done].
Qed.

Lemma drop_and_compact_sweeps m r c :
  ∃ D' b, drop_and_compact m r c = set_room_delivery_bytes b (set_room_deliveries D' r) ∧
          thinner D' (room_deliveries r).
Proof.
  unfold drop_and_compact. destruct (drop_message_thinner m c r) as (D1 & -> & H1).
  destruct (compact_thinner c (set_room_deliveries D1 r)) as (D2 & E2 & H2).
  destruct (compact_delivery_revisions c _) as [[u|e] r2]; simpl in E2; subst r2.
  - exists D2, (room_delivery_bytes r). split; [by destruct r|by etrans].
  - exists D2, usize_MAX. split; [by destruct r|by etrans].
Qed.

Lemma drop_all_sweeps m r cs :
  ∃ D' b, foldl (drop_and_compact m) r cs
            = set_room_delivery_bytes b (set_room_deliveries D' r) ∧
          thinner D' (room_deliveries r).
Proof.
  revert r. induction cs as [|c cs IH]; intros r.
  - exists (room_deliveries r), (room_delivery_bytes r). split; [by destruct r|done].
  - cbn [foldl]. destruct (drop_and_compact_sweeps m r c) as (D1 & b1 & E1 & H1).
    destruct (IH (drop_and_compact m r c)) as (D2 & b2 & E2 & H2).
    exists D2, b2. rewrite E2, E1 in *. split; [by destruct r|]. simpl in *. by etrans.
Qed.

(** *** Expired admissions *)

Lemma restore_snapshots_spec sender previous r :
  ∃ S', restore_snapshot sender previous r = set_room_snapshots S' r ∧
    S' = match previous with
         | Some s => <[sender := s]> (room_snapshots r)
         | None => delete sender (room_snapshots r)
         end.
Proof. unfold restore_snapshot. destruct previous; eauto. Qed.

(** Undoing one admission: its queues thinned, its sender restored. *)
Lemma undo_sweeps r m p D' b :
  room_pending_applications r !! m = Some p → thinner D' (room_deliveries r) →
  sweeps r (restore_snapshot (pa_sender_code_id p) (pa_previous_snapshot p)
    (set_room_member_revisions
       (<[pa_sender_code_id p := pa_previous_sender_revision p]> (room_member_revisions r))
       (set_room_delivery_bytes b (set_room_deliveries D'
          (set_room_pending_applications (delete m (room_pending_applications r)) r))))).
Proof.
  intros Hp Ht. pose proof Ht as (_ & Hl & Hb).
  match goal with |- sweeps _ (restore_snapshot ?a ?b ?r0) =>
    destruct (restore_snapshots_spec a b r0) as (S' & -> & HS) end.
  simpl in *. split_and!; [done|done|]. intros id H. destruct_ok H.
  destruct (Hpend m p Hp) as (Hmid & Hcode & Hsnd & Hprev).
  assert (∀ c, c ≠ pa_sender_code_id p → S' !! c = room_snapshots r !! c) as HS'.
  { intros c Hc. subst S'. destruct (pa_previous_snapshot p);
      [by rewrite lookup_insert_ne|by rewrite lookup_delete_ne]. }
  split; [constructor; simpl; try done|].
  - intros c. rewrite <- Hrev. destruct (decide (pa_sender_code_id p = c)) as [<-|].
    + rewrite lookup_insert_eq. split; [|by eauto]. intros _. by apply Hrev.
    + by rewrite lookup_insert_ne.
  - intros c Hc. apply Hdel. by eapply thinner_dom.
  - intros c s Hs. destruct (decide (c = pa_sender_code_id p)) as [->|Hne].
    + subst S'. destruct (pa_previous_snapshot p) as [s0|].
      * rewrite lookup_insert_eq in Hs. simplify_eq. by apply Hprev.
      * by rewrite lookup_delete_eq in Hs.
    + rewrite HS' in Hs by done. eauto.
  - intros k p' Hk. apply lookup_delete_Some in Hk as [Hkm Hk].
    destruct (Hpend _ _ Hk) as (? & ? & Hs' & ?). split_and!; [done|done| |done].
    rewrite HS'; [done|]. intros E. apply Hkm. by eapply Hsend.
  - intros k1 k2 p1 p2 [_ H1]%lookup_delete_Some [_ H2]%lookup_delete_Some. eauto.
  - intros t Ht'. rewrite (Hexcl t Ht'). apply delete_empty.
  - by eapply thinner_routes.
  - solve_m_le; simpl.
    + rewrite map_len_delete. unfold contains_key. rewrite Hp. lia.
    + rewrite map_sum_delete_at. unfold at_key. rewrite Hp.
      pose proof (pending_bytes_nonneg p). lia.
    + destruct Hsnd as [s Hs]. subst S'. destruct (pa_previous_snapshot p).
      * rewrite map_len_insert. unfold contains_key. rewrite Hs. lia.
      * rewrite map_len_delete. unfold contains_key. rewrite Hs. lia.
Qed.

(** Dropping an admission without restoring its sender. *)
Lemma sweeps_drop_pending r m :
  sweeps r (set_room_pending_applications (delete m (room_pending_applications r)) r).
Proof.
  split_and!; [done|done|]. intros id H. destruct_ok H. split; [constructor; simpl; try done|].
  - intros k p [_ Hk]%lookup_delete_Some. eauto.
  - intros k1 k2 p1 p2 [_ H1]%lookup_delete_Some [_ H2]%lookup_delete_Some. eauto.
  - intros t Ht. rewrite (Hexcl t Ht). apply delete_empty.
  - solve_m_le.
    + rewrite map_len_delete. destruct (contains_key _ _); lia.
    + rewrite map_sum_delete_at. unfold at_key.
      destruct (room_pending_applications r !! m) as [p|]; [|lia].
      pose proof (pending_bytes_nonneg p). lia.
Qed.

Section sweep.
Context {HO : HashOrder}.

Lemma expire_application_sweeps r m : sweeps r (expire_application r m).
Proof.
  unfold expire_application.
  destruct (room_pending_applications r !! m) as [p|] eqn:Hp; [|reflexivity].
  set (r1 := set_room_pending_applications _ r).
  destruct (drop_all_sweeps m r1 (hash_keys (room_deliveries r1))) as (D' & b & -> & HD).
  by apply (undo_sweeps r m p D' b).
Qed.

Lemma expire_applications_sweeps r ms : sweeps r (foldl expire_application r ms).
Proof.
  revert r. induction ms as [|m ms IH]; intros r; [reflexivity|]. cbn [foldl].
  etrans; [apply expire_application_sweeps|apply IH].
Qed.

Lemma prune_admissions_sweeps now r : sweeps r (prune_room_admissions now r).
Proof.
  unfold prune_room_admissions.
  etrans; [apply sweeps_joins|]. etrans; [apply sweeps_leaves|].
  match goal with |- sweeps ?r0 (drop_empty_queues (foldl _ ?r1 _)) =>
    transitivity r1 end.
  { destruct (room_pending_transition _) as [t|]; [|reflexivity].
    case_decide; [apply sweeps_transition|reflexivity]. }
  etrans; [apply expire_applications_sweeps|].
  apply sweeps_deliveries, thinner_retain.
Qed.

Lemma drop_replays_len now ttl ids : len (drop_replays now ttl ids) ≤ len ids.
Proof.
  induction ids as [|[k t] ids IH]; simpl; [done|].
  case_decide; rewrite ?len_cons; lia.
Qed.
End sweep.

(** *** Expired deliveries and the gaps they open *)

(** A stage that may open gaps, each paid for by the global pair counter. *)
Definition gap_sweeps (x x' : RelayRoom * Z) : Prop :=
  room_core x'.1 = room_core x.1 ∧
  (∀ id, room_ok id x.1 → room_ok id x'.1 ∧ m_le x'.1 x.1) ∧
  x.2 ≤ x'.2 ∧
  (x.2 ≤ MAX_GLOBAL_EXPIRED_GAP_PAIRS → x'.2 ≤ MAX_GLOBAL_EXPIRED_GAP_PAIRS) ∧
  m_gaps x'.1 - m_gaps x.1 ≤ x'.2 - x.2.

#[export] Instance gap_sweeps_preorder : PreOrder gap_sweeps.
Proof.
  split.
  - intros x. split_and!; [done| |lia|done|lia]. intros id H. split; [done|reflexivity].
  - intros x y z (E1 & H1 & L1 & B1 & G1) (E2 & H2 & L2 & B2 & G2).
    split_and!; [congruence| |lia|auto|lia].
    intros id H. destruct (H1 id H) as [Hy M1]. destruct (H2 id Hy) as [Hz M2].
    split; [done|by etrans].
Qed.

Lemma sweeps_gap_sweeps r r' g : sweeps r r' → gap_sweeps (r, g) (r', g).
Proof. intros (E & G & H). split_and!; simpl; [done..|lia|done|lia]. Qed.

(** Progress of the scan of one queue. *)
Definition scans (n b : Z) (res : result string ()) (s s' : gap_scan) : Prop :=
  len (scan_queue s') ≤ len (scan_queue s) + n ∧
  queue_bytes (scan_queue s') ≤ queue_bytes (scan_queue s) + b ∧
  scan_global s ≤ scan_global s' ∧
  (scan_global s ≤ MAX_GLOBAL_EXPIRED_GAP_PAIRS →
   scan_global s' ≤ MAX_GLOBAL_EXPIRED_GAP_PAIRS) ∧
  (is_ok res = true →
   map_len (scan_gaps s') - map_len (scan_gaps s) = scan_global s' - scan_global s).

Lemma scan_delivery_scans c now d s :
  scans 1 (delivery_bytes_of d) (scan_delivery c now d s).1 s (scan_delivery c now d s).2.
Proof.
  pose proof (delivery_bytes_nonneg d). unfold scan_delivery, scans.
  destruct (expired_sender now d) as [sender|].
  - destruct (negb _ && _) eqn:Hlim; [simpl; split_and!; naive_solver lia|].
    destruct (checked_add u16_MAX _ _) as [g|]; [|simpl; split_and!; naive_solver lia].
    destruct (negb (contains_key (c, sender) (scan_gaps s))) eqn:Hnew.
    + simpl in Hlim. split_bools.
      destruct (checked_add usize_MAX _ _) as [g'|] eqn:Hg'.
      * checked. simpl. split_and!; try lia. intros _. rewrite map_len_insert.
        rewrite (proj2 (contains_key_false _ _) Hnew). lia.
      * simpl. split_and!; try lia; naive_solver.
    + apply negb_false_iff in Hnew. simpl. split_and!; try lia. intros _.
      rewrite map_len_insert, Hnew. lia.
  - destruct (beyond_history _ _ _); simpl; split_and!; try lia.
    + rewrite len_app. unfold len. simpl. lia.
    + rewrite queue_bytes_app, queue_bytes_cons. change (queue_bytes []) with 0. lia.
Qed.

Lemma scan_loop_scans c now q s :
  scans (len q) (queue_bytes q) (scan_queue_loop c now q s).1 s
    (scan_queue_loop c now q s).2.
Proof.
  revert s. induction q as [|d q IH]; intros s.
  { unfold scans. simpl. change (queue_bytes []) with 0. change (len []) with 0.
    split_and!; lia. }
  cbn [scan_queue_loop]. unfold mbind, ST_bind.
  pose proof (scan_delivery_scans c now d s) as H1.
  destruct (scan_delivery c now d s) as [[u|e] s1]; simpl in *.
  - specialize (IH s1). destruct (scan_queue_loop c now q s1) as [res s2]. simpl in *.
    destruct H1 as (?&?&?&?&HG1), IH as (?&?&?&?&HG2). unfold scans.
    rewrite len_cons, queue_bytes_cons. split_and!; try lia; auto.
    intros Hok. specialize (HG1 eq_refl). specialize (HG2 Hok). lia.
  - destruct H1 as (?&?&?&?&HG1). unfold scans. rewrite len_cons, queue_bytes_cons.
    pose proof (len_nonneg q). pose proof (queue_bytes_nonneg q).
    split_and!; try lia; auto; done.
Qed.

(** The scan keeps deliveries of the queue it reads. *)
Lemma scan_delivery_sub c now d s x :
  x ∈ scan_queue (scan_delivery c now d s).2 → x ∈ scan_queue s ∨ x = d.
Proof.
  unfold scan_delivery. destruct (expired_sender now d) as [sender|].
  - destruct (negb _ && _); [by left|]. destruct (checked_add _ _ _); [|by left].
    destruct (negb _); [destruct (checked_add _ _ _)|]; by left.
  - destruct (beyond_history _ _ _); simpl; [by left|]. rewrite elem_of_app, list_elem_of_singleton.
    tauto.
Qed.
Lemma scan_loop_sub c now q s x :
  x ∈ scan_queue (scan_queue_loop c now q s).2 → x ∈ scan_queue s ∨ x ∈ q.
Proof.
  revert s. induction q as [|d q IH]; intros s; [by left|].
  cbn [scan_queue_loop]. unfold mbind, ST_bind.
  pose proof (scan_delivery_sub c now d s x) as H1.
  destruct (scan_delivery c now d s) as [[u|e] s1]; simpl in *.
  - intros [Hx|Hx]%IH; [destruct (H1 Hx) as [?| ->]; [by left|right; left]|right; by right].
  - intros Hx. destruct (H1 Hx) as [?| ->]; [by left|right; left].
Qed.

Lemma gap_sweeps_install r g c q (q' : list PendingDelivery) G' g' :
  room_deliveries r !! c = Some q →
  len q' ≤ len q → queue_bytes q' ≤ queue_bytes q → routed_in q' q →
  map_len G' - map_len (room_expired_sender_gaps r) ≤ g' - g → g ≤ g' →
  (g ≤ MAX_GLOBAL_EXPIRED_GAP_PAIRS → g' ≤ MAX_GLOBAL_EXPIRED_GAP_PAIRS) →
  gap_sweeps (r, g)
    (set_room_expired_sender_gaps G'
       (set_room_deliveries (<[c := q']> (room_deliveries r)) r), g').
Proof.
  intros Hq Hl Hb Hrt HG Hg HM.
  pose proof (thinner_insert (room_deliveries r) c q q' Hq Hl Hb Hrt) as HT.
  destruct (sweeps_deliveries r _ HT) as (E & G & H).
  split_and!; simpl; [done| |done|done|done].
  intros id H0. destruct (H id H0) as [Hok Hm]. split; [|exact Hm].
  clear HG. by destruct_ok Hok; constructor.
Qed.

Lemma expire_recipient_gap_sweeps now c x :
  gap_sweeps x (expire_recipient now c x).2.
Proof.
  destruct x as [r g]. unfold expire_recipient.
  destruct (room_deliveries r !! c) as [q|] eqn:Hq; [|reflexivity].
  pose proof (scan_loop_scans c now q (mkScan [] (room_expired_sender_gaps r) false g)) as Hs.
  assert (routed_in (scan_queue
    (scan_queue_loop c now q (mkScan [] (room_expired_sender_gaps r) false g)).2) q) as Hrt.
  { apply routed_in_sub. intros d [Hd|?]%scan_loop_sub; [by apply not_elem_of_nil in Hd|done]. }
  destruct (scan_queue_loop _ _ _ _) as [[u|e] s]; simpl in Hs, Hrt;
    destruct Hs as (Hl & Hb & Hg & HM & HG).
  - specialize (HG eq_refl). simpl in *. unfold queue_bytes in Hb at 2. simpl in Hb.
    change (len []) with 0 in Hl.
    destruct (scan_removed s).
    + etrans.
      { apply (gap_sweeps_install r g c q (scan_queue s) (scan_gaps s) (scan_global s));
          try done; lia. }
      match goal with |- context [compact_delivery_revisions c ?r0] =>
        destruct (compact_thinner c r0) as (D' & E & HT);
        destruct (compact_delivery_revisions c r0) as [res r2] end.
      simpl in E. subst r2. apply sweeps_gap_sweeps, sweeps_deliveries, HT.
    + split_and!; simpl; [done| |done|done|lia]. intros id H. split; [done|reflexivity].
  - simpl in *. split_and!; simpl; [done| |done|done|lia]. intros id H. split; [done|reflexivity].
Qed.

Lemma expire_recipients_gap_sweeps now cs x :
  gap_sweeps x (expire_recipients now cs x).2.
Proof.
  revert x. induction cs as [|c cs IH]; intros x; [simpl; reflexivity|].
  cbn [expire_recipients]. unfold mbind, ST_bind.
  pose proof (expire_recipient_gap_sweeps now c x) as H1.
  destruct (expire_recipient now c x) as [[u|e] x1]; simpl in *; [|done].
  etrans; [exact H1|apply IH].
Qed.

(** Only the queues and the gaps change. *)
Lemma expire_recipients_frame now cs r g :
  ∃ D G, (expire_recipients now cs (r, g)).2.1 =
    set_room_expired_sender_gaps G (set_room_deliveries D r).
Proof.
  revert r g. induction cs as [|c cs IH]; intros r g.
  { exists (room_deliveries r), (room_expired_sender_gaps r). by destruct r. }
  cbn [expire_recipients]. unfold mbind, ST_bind.
  assert (∃ D G, (expire_recipient now c (r, g)).2.1 =
    set_room_expired_sender_gaps G (set_room_deliveries D r)) as (D & G & E).
  { unfold expire_recipient.
    assert (∃ D G, r = set_room_expired_sender_gaps G (set_room_deliveries D r)) as Hr
      by (exists (room_deliveries r), (room_expired_sender_gaps r); by destruct r).
    destruct (room_deliveries r !! c); [|done].
    destruct (scan_queue_loop _ _ _ _) as [[u|e] s]; [|done].
    destruct (scan_removed s); [|done].
    match goal with |- context [compact_delivery_revisions c ?r0] =>
      destruct (compact_thinner c r0) as (D' & E & HT);
      destruct (compact_delivery_revisions c r0) as [res r2] end.
    simpl in *. subst r2. by exists D', (scan_gaps s). }
  destruct (expire_recipient now c (r, g)) as [[u|e] [r1 g1]]; simpl in *; [|by exists D, G].
  destruct (IH r1 g1) as (D2 & G2 & E2). exists D2, G2. rewrite E2, E. done.
Qed.

Section sweep_rooms.
Context {HO : HashOrder}.

(** *** One room *)

Definition swept_fits (r : RelayRoom) : Prop :=
  m_pending_bytes r ≤ usize_MAX ∧
  map_sum snapshot_bytes_of (room_snapshots r) ≤ usize_MAX ∧
  m_delivery_bytes r ≤ usize_MAX.

Lemma queue_bytes_values (D : gmap CodeId (list PendingDelivery)) :
  queue_bytes (concat (hash_values D)) = map_sum queue_bytes D.
Proof. by rewrite queue_bytes_concat, map_sum_hash. Qed.

Lemma prune_room_spec now ttl r g :
  gap_sweeps (r, g) (prune_room now ttl (r, g)) ∧
  (swept_fits (prune_room now ttl (r, g)).1 → room_exact (prune_room now ttl (r, g)).1).
Proof.
  unfold prune_room. pose proof (prune_admissions_sweeps now r) as H1.
  set (r1 := prune_room_admissions now r) in *.
  set (pb := default usize_MAX
    (try_sum (pending_app_bytes <$> hash_values (room_pending_applications r1)))).
  set (r2 := set_room_pending_bytes pb r1).
  set (sb := default usize_MAX (sum_snapshot_bytes (room_snapshots r2))).
  set (r3 := set_room_snapshot_bytes sb r2).
  set (r4 := set_room_replay_ids (drop_replays now ttl (room_replay_ids r3)) r3).
  set (sb' := default usize_MAX (sum_snapshot_bytes (room_snapshots r4))).
  set (r5 := set_room_snapshot_bytes sb' r4).
  assert (sweeps r r5) as H5.
  { etrans; [exact H1|]. etrans; [apply (sweeps_pending_bytes _ pb)|].
    etrans; [apply (sweeps_snapshot_bytes _ sb)|].
    etrans; [apply (sweeps_replays r3), drop_replays_len|].
    apply (sweeps_snapshot_bytes r4 sb'). }
  pose proof (expire_recipients_gap_sweeps now (hash_keys (room_deliveries r5)) (r5, g)) as H6.
  assert (∃ D G, (prune_expired_application_deliveries now (r5, g)).2.1 =
    set_room_expired_sender_gaps G (set_room_deliveries D r5)) as (D & G & E6).
  { apply expire_recipients_frame. }
  unfold prune_expired_application_deliveries in *.
  destruct (expire_recipients now _ (r5, g)) as [res [r6 g6]]. simpl in H6, E6.
  set (r7 := match res with Ok _ => r6 | Err _ => _ end).
  set (db := match delivery_bytes _ with Ok b => b | Err _ => usize_MAX end).
  simpl. split.
  - etrans; [apply sweeps_gap_sweeps, H5|]. etrans; [exact H6|].
    apply sweeps_gap_sweeps. transitivity r7.
    { subst r7. destruct res; [reflexivity|apply sweeps_delivery_bytes]. }
    transitivity (drop_empty_queues r7).
    + apply sweeps_deliveries, thinner_retain.
    + apply sweeps_delivery_bytes.
  - assert (room_pending_applications r7 = room_pending_applications r1 ∧
      room_snapshots r7 = room_snapshots r1 ∧ room_pending_bytes r7 = pb ∧
      room_snapshot_bytes r7 = sb') as (Ep & Es & Epb & Esb).
    { subst r7 r6. destruct res; done. }
    unfold swept_fits, room_exact, m_pending_bytes, m_delivery_bytes. simpl.
    rewrite Ep, Es, Epb, Esb. intros (F1 & F2 & F3). split_and!.
    + subst pb. rewrite (try_sum_fits _ pending_bytes_of); simpl; by rewrite map_sum_hash.
    + subst sb'. unfold sum_snapshot_bytes. simpl.
      rewrite (try_sum_fits _ snapshot_bytes_of); simpl; by rewrite map_sum_hash.
    + subst db. rewrite delivery_bytes_fits; by rewrite queue_bytes_values.
Qed.
End sweep_rooms.
