(* ===== verification/RoomSweep.v ===== *)
(** * The expiry sweep of the whole authority

    Every entry point of the relay first runs [prune_expired].  It keeps the
    invariant, and it re-establishes every counter: the saturated value
    [usize::MAX] its error branches write is never reached.  [trim_replay_ids]
    ends within its fuel and leaves the newest identifiers. *)

From S2P Require Import Prelude RoomModel RoomValidation RoomDelivery RoomAuthority.
From S2P Require Import RoomSizes RoomInvariant.

(** ** Sums over the rooms *)

Lemma map_sum_mono {K V} `{Countable K} (f : V → Z) (m m' : gmap K V) :
  (∀ v, 0 ≤ f v) →
  (∀ k v', m' !! k = Some v' → ∃ v, m !! k = Some v ∧ f v' ≤ f v) →
  map_sum f m' ≤ map_sum f m.
Proof.
  intros Hf. revert m. induction m' as [|k v' m' Hk IH] using map_ind; intros m Hm.
  - rewrite map_sum_empty. by apply map_sum_nonneg.
  - destruct (Hm k v') as (v & Hv & Hle); [by rewrite lookup_insert_eq|].
    rewrite map_sum_insert_None by done. rewrite <- (insert_delete_id m k v Hv).
    rewrite map_sum_insert_None by (by rewrite lookup_delete_eq).
    assert (map_sum f m' ≤ map_sum f (delete k m)); [|lia].
    apply IH. intros k' w Hw.
    assert (k ≠ k') by (intros ->; congruence).
    destruct (Hm k' w) as (w0 & Hw0 & ?); [by rewrite lookup_insert_ne|].
    exists w0. by rewrite lookup_delete_ne.
Qed.

Lemma map_sum_le_const {K V} `{Countable K} (f : V → Z) (m : gmap K V) b :
  (∀ k v, m !! k = Some v → f v ≤ b) → map_sum f m ≤ map_len m * b.
Proof.
  induction m as [|k v m Hk IH] using map_ind; intros Hb.
  - by rewrite map_sum_empty.
  - rewrite map_sum_insert_None, map_len_insert by done.
    rewrite (proj2 (contains_key_false _ _) Hk).
    assert (f v ≤ b) by (apply (Hb k); by rewrite lookup_insert_eq).
    assert (map_sum f m ≤ map_len m * b); [|lia].
    apply IH. intros k' w Hw. apply (Hb k').
    rewrite lookup_insert_ne; [done|]. intros ->. congruence.
Qed.

Lemma total_room_le (m : RelayRoom → Z) self id r :
  (∀ r, 0 ≤ m r) → rooms self !! id = Some r → m r ≤ total m self.
Proof. intros. by eapply map_sum_entry_le. Qed.

Ltac nonneg := first [apply m_nonneg | intros ?r; pose proof (m_nonneg r); lia].

(** ** Sweeping the rooms *)

(** What the sweep makes of each room. *)
Definition swept (id : string) (r r' : RelayRoom) : Prop :=
  room_core r' = room_core r ∧
  (room_ok id r → room_ok id r' ∧ m_le r' r) ∧ (swept_fits r' → room_exact r').

Definition all_swept (R R' : gmap string RelayRoom) : Prop :=
  ∀ id r', R' !! id = Some r' → ∃ r, R !! id = Some r ∧ swept id r r'.

Section sweep_authority.
Context {HO : HashOrder}.

Lemma prune_room_swept id now ttl r g : swept id r (prune_room now ttl (r, g)).1.
Proof.
  destruct (prune_room_spec now ttl r g) as [(E & H & _) Hx].
  split_and!; [exact E|apply H|exact Hx].
Qed.

Lemma prune_rooms_spec now ttl l m g :
  NoDup l.*1 → (∀ id r, (id, r) ∈ l → m !! id = Some r) →
  let x := prune_rooms now ttl l (m, g) in
  (∀ id, id ∉ l.*1 → x.1 !! id = m !! id) ∧
  (∀ id r, (id, r) ∈ l → ∃ r', x.1 !! id = Some r' ∧ swept id r r') ∧
  g ≤ x.2 ∧
  (g ≤ MAX_GLOBAL_EXPIRED_GAP_PAIRS → x.2 ≤ MAX_GLOBAL_EXPIRED_GAP_PAIRS) ∧
  map_sum m_gaps x.1 - map_sum m_gaps m ≤ x.2 - g.
Proof.
  unfold prune_rooms. revert m g. induction l as [|[id r] l IH]; intros m g; cbn [foldl].
  { intros _ _. simpl. split_and!; [done| |lia|done|lia].
    intros ? ? ?%elem_of_nil. done. }
  rewrite fmap_cons. intros [Hid Hnd]%NoDup_cons Hin.
  pose proof (prune_room_swept id now ttl r g) as Hs.
  destruct (prune_room_spec now ttl r g) as [(_ & _ & Hg & HM & HG) _].
  destruct (prune_room now ttl (r, g)) as [r' g'] eqn:E. simpl in *.
  destruct (IH (<[id := r']> m) g' Hnd) as (H1 & H2 & H3 & H4 & H5).
  { intros id2 r2 H2. rewrite lookup_insert_ne; [apply Hin; by right|].
    intros ->. apply Hid. apply list_elem_of_fmap. by exists (id2, r2). }
  rewrite map_sum_insert in H5. unfold at_key in H5.
  rewrite (Hin id r) in H5 by (by left).
  split_and!; [| |lia|auto|lia].
  - intros id2 [Hne Hni]%not_elem_of_cons. rewrite H1 by done.
    by rewrite lookup_insert_ne.
  - intros id2 r2 [[= -> ->]|H0]%elem_of_cons; [|eauto].
    rewrite H1 by done. rewrite lookup_insert_eq. eauto.
Qed.

Lemma prune_all_rooms now ttl m g :
  let x := prune_rooms now ttl (hash_iter m) (m, g) in
  all_swept m x.1 ∧ (∀ id, is_Some (x.1 !! id) ↔ is_Some (m !! id)) ∧
  (g ≤ MAX_GLOBAL_EXPIRED_GAP_PAIRS → x.2 ≤ MAX_GLOBAL_EXPIRED_GAP_PAIRS) ∧
  map_sum m_gaps x.1 - map_sum m_gaps m ≤ x.2 - g.
Proof.
  assert (∀ id r, (id, r) ∈ hash_iter m ↔ m !! id = Some r) as Hin.
  { intros. by rewrite hash_iter_perm, elem_of_map_to_list. }
  destruct (prune_rooms_spec now ttl (hash_iter m) m g) as (H1 & H2 & _ & H4 & H5).
  { apply NoDup_hash_keys. }
  { intros. by apply Hin. }
  assert (∀ id, id ∈ (hash_iter m).*1 ↔ is_Some (m !! id)) as Hk by apply elem_of_hash_keys.
  split_and!; [| |done|done].
  - intros id r' Hr'. destruct (m !! id) as [r|] eqn:Hm.
    + exists r. split; [done|]. destruct (H2 id r) as (r2 & ? & ?); [by apply Hin|].
      by simplify_eq.
    + rewrite H1 in Hr'; [congruence|]. rewrite Hk, Hm. by intros [].
  - intros id. destruct (m !! id) as [r|] eqn:Hm.
    + destruct (H2 id r) as (r2 & -> & ?); [by apply Hin|]. done.
    + by rewrite H1, Hm by (rewrite Hk, Hm; by intros []).
Qed.
End sweep_authority.

(** ** The recount *)

(** The accounting of a list of rooms, exactly. *)
Definition accounting_of (t : AuthorityAccounting) (rs : list RelayRoom)
    : AuthorityAccounting :=
  mkAccounting (acc_pending_bytes t + sumZ (m_pending_bytes <$> rs))
    (acc_pending_count t + sumZ (m_pending_count <$> rs))
    (acc_snapshot_bytes t + sumZ (m_snapshot_bytes <$> rs))
    (acc_snapshot_count t + sumZ (m_snapshot_count <$> rs))
    (acc_replay_count t + sumZ (m_replay <$> rs))
    (acc_delivery_bytes t + sumZ (m_delivery_bytes <$> rs))
    (acc_delivery_count t + sumZ (m_delivery_count <$> rs))
    (acc_expired_gap_pairs t + sumZ (m_gaps <$> rs)).

Definition accounting_fits (t : AuthorityAccounting) : Prop :=
  acc_pending_bytes t ≤ usize_MAX ∧ acc_pending_count t ≤ usize_MAX ∧
  acc_snapshot_bytes t ≤ usize_MAX ∧ acc_snapshot_count t ≤ usize_MAX ∧
  acc_replay_count t ≤ usize_MAX ∧ acc_delivery_bytes t ≤ usize_MAX ∧
  acc_delivery_count t ≤ usize_MAX ∧
  acc_expired_gap_pairs t ≤ MAX_GLOBAL_EXPIRED_GAP_PAIRS.

Definition accounting_nonneg (t : AuthorityAccounting) : Prop :=
  0 ≤ acc_pending_bytes t ∧ 0 ≤ acc_pending_count t ∧ 0 ≤ acc_snapshot_bytes t ∧
  0 ≤ acc_snapshot_count t ∧ 0 ≤ acc_replay_count t ∧ 0 ≤ acc_delivery_bytes t ∧
  0 ≤ acc_delivery_count t ∧ 0 ≤ acc_expired_gap_pairs t.

Lemma accounting_of_nonneg t rs :
  accounting_nonneg t → accounting_nonneg (accounting_of t rs).
Proof.
  unfold accounting_nonneg. simpl. intros (?&?&?&?&?&?&?&?).
  split_and!; apply Z.add_nonneg_nonneg; try done; apply sumZ_fmap_nonneg; nonneg.
Qed.

Lemma accounting_of_cons t r rs :
  accounting_of t (r :: rs) = accounting_of (accounting_of t [r]) rs.
Proof.
  unfold accounting_of. rewrite !fmap_cons, !sumZ_cons, !fmap_nil.
  cbn -[sumZ fmap]. f_equal; simpl; lia.
Qed.

Lemma accounting_fits_prefix t rs : accounting_fits (accounting_of t rs) → accounting_fits t.
Proof.
  unfold accounting_fits. simpl.
  pose proof (sumZ_fmap_nonneg m_pending_bytes rs ltac:(nonneg)).
  pose proof (sumZ_fmap_nonneg m_pending_count rs ltac:(nonneg)).
  pose proof (sumZ_fmap_nonneg m_snapshot_bytes rs ltac:(nonneg)).
  pose proof (sumZ_fmap_nonneg m_snapshot_count rs ltac:(nonneg)).
  pose proof (sumZ_fmap_nonneg m_replay rs ltac:(nonneg)).
  pose proof (sumZ_fmap_nonneg m_delivery_bytes rs ltac:(nonneg)).
  pose proof (sumZ_fmap_nonneg m_delivery_count rs ltac:(nonneg)).
  pose proof (sumZ_fmap_nonneg m_gaps rs ltac:(nonneg)).
  intros (?&?&?&?&?&?&?&?). split_and!; lia.
Qed.

Section recount.
Context {HO : HashOrder}.

Lemma checked_add_all_map {K V} `{Countable K} a (f : V → Z) (m : gmap K V) :
  (∀ v, 0 ≤ f v) → 0 ≤ a → a + map_sum f m ≤ usize_MAX →
  checked_add_all a (f <$> hash_values m) = Some (a + map_sum f m).
Proof.
  intros. rewrite checked_add_all_fits; rewrite ?map_sum_hash; try done.
  by apply Forall_fmap, Forall_true.
Qed.

Lemma checked_sum_map {K V} `{Countable K} (f : V → Z) (m : gmap K V) :
  (∀ v, 0 ≤ f v) → map_sum f m ≤ usize_MAX →
  checked_sum (f <$> hash_values m) = Some (map_sum f m).
Proof.
  intros. rewrite checked_sum_ok; rewrite ?map_sum_hash; try done.
  by apply Forall_fmap, Forall_true.
Qed.

Lemma add_room_accounting_fits t r :
  room_snapshot_bytes r = map_sum snapshot_bytes_of (room_snapshots r) →
  accounting_nonneg t → accounting_fits (accounting_of t [r]) →
  add_room_accounting t r = Ok (accounting_of t [r]).
Proof.
  unfold accounting_nonneg, accounting_fits, add_room_accounting, accounting_of.
  intros Hsb (?&?&?&?&?&?&?&?) (F1&F2&F3&F4&F5&F6&F7&F8). simpl in *.
  rewrite !Z.add_0_r in *. unfold m_pending_bytes, m_pending_count, m_snapshot_bytes,
    m_snapshot_count, m_replay, m_delivery_bytes, m_delivery_count, m_gaps in *.
  pose proof (map_sum_nonneg _ (room_joins r) join_bytes_nonneg).
  pose proof (map_sum_nonneg _ (room_snapshots r) snapshot_bytes_nonneg).
  pose proof (map_len_nonneg (room_joins r)).
  pose proof (map_len_nonneg (room_snapshots r)).
  rewrite (checked_add_ok _ (acc_pending_count t)) by done. simpl.
  rewrite (try_sum_from_fits _ pending_bytes_of) by (rewrite ?map_sum_hash; lia). simpl.
  rewrite (checked_add_all_fits (acc_snapshot_count t));
    [|lia|repeat constructor; lia|simpl; lia]. simpl.
  rewrite (checked_add_ok _ (acc_snapshot_bytes t)) by lia. simpl.
  rewrite (checked_add_all_map _ join_bytes_of) by (auto with relay; lia). simpl.
  rewrite (checked_add_ok _ (acc_replay_count t)) by done. simpl.
  rewrite checked_add_all_map by (auto with relay; lia). simpl.
  rewrite (try_sum_from_fits _ delivery_bytes_of);
    [|lia|by rewrite <- queue_bytes_values in F6]. simpl.
  rewrite (checked_add_ok _ (acc_expired_gap_pairs t))
    by (unfold usize_MAX, MAX_GLOBAL_EXPIRED_GAP_PAIRS in *; lia).
  simpl. rewrite decide_True by done. simpl. rewrite !map_sum_hash.
  do 2 f_equal; try lia. by rewrite <- queue_bytes_values.
Qed.

Lemma account_rooms_fits rs t :
  Forall (λ r, room_snapshot_bytes r = map_sum snapshot_bytes_of (room_snapshots r)) rs →
  accounting_nonneg t → accounting_fits (accounting_of t rs) →
  account_rooms rs t = Ok (accounting_of t rs).
Proof.
  unfold account_rooms. intros Hrs. revert t.
  induction Hrs as [|r rs Hr Hrs IH]; intros t Hn Hf; cbn [foldl].
  - destruct t. unfold accounting_of. simpl. by rewrite !Z.add_0_r.
  - rewrite accounting_of_cons in Hf |- *. simpl.
    rewrite add_room_accounting_fits; [|done|done|by eapply accounting_fits_prefix].
    apply IH; [by apply accounting_of_nonneg|done].
Qed.

(** The totals of the accounting, over all rooms or all but one. *)
Definition exact_accounting (R : gmap string RelayRoom) : AuthorityAccounting :=
  mkAccounting (map_sum m_pending_bytes R) (map_sum m_pending_count R)
    (map_sum m_snapshot_bytes R) (map_sum m_snapshot_count R) (map_sum m_replay R)
    (map_sum m_delivery_bytes R) (map_sum m_delivery_count R) (map_sum m_gaps R).

Lemma accounting_of_perm rs R :
  rs ≡ₚ (map_to_list R).*2 → accounting_of zero_accounting rs = exact_accounting R.
Proof. intros Hp. unfold accounting_of, exact_accounting, map_sum. by rewrite !Hp. Qed.

Lemma excluded_rooms id R :
  (∀ k r, R !! k = Some r → room_id r = k) →
  filter (λ r, Some id ≠ Some (room_id r)) (hash_values R) ≡ₚ (map_to_list (delete id R)).*2.
Proof.
  intros Hid. unfold hash_values. rewrite hash_iter_perm.
  assert (filter (λ r, Some id ≠ Some (room_id r)) (map_to_list (delete id R)).*2
          = (map_to_list (delete id R)).*2) as Hkeep.
  { apply list_filter_id, Forall_fmap, Forall_forall. intros [k r] Hin. simpl.
    apply elem_of_map_to_list, lookup_delete_Some in Hin as [Hne Hk].
    rewrite (Hid k r Hk). congruence. }
  destruct (R !! id) as [r|] eqn:Hr; [|by rewrite delete_id in * by done; rewrite Hkeep].
  rewrite <- (map_to_list_delete R id r Hr).
  rewrite fmap_cons, filter_cons_False; [by rewrite Hkeep|].
  simpl. rewrite (Hid _ _ Hr). naive_solver.
Qed.
End recount.

(** ** Bounds that make the recount succeed *)

(** The bounds on a set of rooms under which no counter overflows. *)
Record rooms_bounded (count_max bytes_max : Z) (R : gmap string RelayRoom) : Prop := {
  rb_ok : ∀ id r, R !! id = Some r → room_ok id r;
  rb_pending_count : map_sum m_pending_count R ≤ MAX_GLOBAL_PENDING_APPLICATIONS;
  rb_pending_bytes : map_sum m_pending_bytes R ≤ MAX_GLOBAL_PENDING_BYTES;
  rb_snapshot_count : map_sum m_snapshot_count R ≤ MAX_GLOBAL_STATE_SNAPSHOTS;
  rb_replay : map_sum m_replay R ≤ usize_MAX;
  rb_delivery_count : map_sum m_delivery_count R ≤ count_max;
  rb_delivery_bytes : map_sum m_delivery_bytes R ≤ bytes_max;
  rb_gaps : map_sum m_gaps R ≤ MAX_GLOBAL_EXPIRED_GAP_PAIRS;
  rb_limits : count_max ≤ usize_MAX ∧ bytes_max ≤ usize_MAX
}.

Lemma room_snapshot_bound id r :
  room_ok id r → m_snapshot_bytes r ≤ m_snapshot_count r * SNAPSHOT_BOUND.
Proof.
  intros H. unfold m_snapshot_bytes, m_snapshot_count.
  assert (map_sum snapshot_bytes_of (room_snapshots r)
          ≤ map_len (room_snapshots r) * SNAPSHOT_BOUND).
  { apply map_sum_le_const. intros c s Hs. by apply (ok_snapshots _ _ H) in Hs. }
  assert (map_sum join_bytes_of (room_joins r) ≤ map_len (room_joins r) * SNAPSHOT_BOUND).
  { apply map_sum_le_const. intros c j Hj. apply (ok_joins _ _ H) in Hj as [? _].
    unfold SNAPSHOT_BOUND, MAX_STATE_BYTES in *. lia. }
  lia.
Qed.

Lemma map_sum_scale {K V} `{Countable K} (f : V → Z) (m : gmap K V) b :
  map_sum (λ v, f v * b) m = map_sum f m * b.
Proof.
  induction m as [|k v m Hk IH] using map_ind; [by rewrite !map_sum_empty|].
  rewrite !map_sum_insert_None, IH by done. lia.
Qed.

Lemma snapshot_total_bound R :
  (∀ id r, R !! id = Some r → room_ok id r) →
  map_sum m_snapshot_bytes R ≤ map_sum m_snapshot_count R * SNAPSHOT_BOUND.
Proof.
  intros H. rewrite <- map_sum_scale.
  induction R as [|id r R Hid IH] using map_ind; [by rewrite !map_sum_empty|].
  rewrite !map_sum_insert_None by done.
  pose proof (room_snapshot_bound id r (H id r (lookup_insert_eq _ _ _))).
  assert (map_sum m_snapshot_bytes R ≤ map_sum (λ v, m_snapshot_count v * SNAPSHOT_BOUND) R);
    [|lia].
  apply IH. intros id' r' Hr'. apply H. rewrite lookup_insert_ne; [done|].
  intros ->. congruence.
Qed.

Ltac limits :=
  unfold usize_MAX, SNAPSHOT_BOUND, MAX_STATE_BYTES, MAX_GLOBAL_STATE_SNAPSHOTS,
    MAX_GLOBAL_PENDING_APPLICATIONS, MAX_GLOBAL_PENDING_BYTES, MAX_GLOBAL_REPLAY_IDS,
    MAX_GLOBAL_EXPIRED_GAP_PAIRS, MAX_REPLAY_IDS in *; lia.

Lemma bounded_fits a b R :
  rooms_bounded a b R → accounting_fits (exact_accounting R).
Proof.
  intros []. pose proof (snapshot_total_bound R rb_ok0).
  unfold accounting_fits. simpl. split_and!; limits.
Qed.

Section recount_all.
Context {HO : HashOrder}.

Lemma checked_accounting_all a b self :
  rooms_bounded a b (rooms self) →
  (∀ id r, rooms self !! id = Some r → room_exact r) →
  checked_accounting_excluding None self = Ok (exact_accounting (rooms self)).
Proof.
  intros HB Hx. unfold checked_accounting_excluding.
  rewrite list_filter_id by (by apply Forall_true).
  assert (accounting_of zero_accounting (hash_values (rooms self))
          = exact_accounting (rooms self)) as E.
  { apply accounting_of_perm. unfold hash_values. by rewrite hash_iter_perm. }
  rewrite account_rooms_fits, E; [done| |done|rewrite E; by eapply bounded_fits].
  apply Forall_forall. intros r [id Hr]%elem_of_hash_values. by destruct (Hx id r Hr) as (_&?&_).
Qed.

Lemma checked_accounting_except a b id self :
  rooms_bounded a b (delete id (rooms self)) →
  (∀ id r, rooms self !! id = Some r → room_exact r ∧ room_id r = id) →
  checked_accounting_excluding (Some id) self
    = Ok (exact_accounting (delete id (rooms self))).
Proof.
  intros HB Hx. unfold checked_accounting_excluding.
  assert (∀ k r, rooms self !! k = Some r → room_id r = k) as Hid.
  { intros k r Hk. by apply Hx in Hk as [_ ?]. }
  pose proof (excluded_rooms id (rooms self) Hid) as Hp.
  rewrite account_rooms_fits, (accounting_of_perm _ _ Hp); [done| |done|].
  - apply Forall_forall. intros r Hr. apply list_elem_of_filter in Hr as [_ Hr].
    apply elem_of_hash_values in Hr as [k Hr]. by destruct (Hx k r Hr) as [(_&?&_) _].
  - rewrite (accounting_of_perm _ _ Hp). by eapply bounded_fits.
Qed.
End recount_all.

(** ** Trimming the replay identifiers *)

(** The room keeps a suffix of its identifiers: the newest ones. *)
Definition trimmed (r r' : RelayRoom) : Prop :=
  ∃ k, r' = set_room_replay_ids (drop k (room_replay_ids r)) r.

Definition all_trimmed (R R' : gmap string RelayRoom) : Prop :=
  map_Forall2 (λ _ r r', trimmed r r') R R'.

Lemma trimmed_refl r : trimmed r r.
Proof. exists 0%nat. rewrite drop_0. by destruct r. Qed.
Lemma trimmed_tail r k rest :
  room_replay_ids r = k :: rest → trimmed r (set_room_replay_ids rest r).
Proof. intros E. exists 1%nat. by rewrite E. Qed.
#[export] Instance trimmed_preorder : PreOrder trimmed.
Proof.
  split; [exact trimmed_refl|]. intros a b c [k ->] [k' ->]. exists (k + k')%nat.
  simpl. by rewrite drop_drop.
Qed.
#[export] Instance all_trimmed_preorder : PreOrder all_trimmed.
Proof.
  split.
  - intros R id. destruct (R !! id); constructor. reflexivity.
  - intros A B C H1 H2 id. specialize (H1 id). specialize (H2 id).
    destruct (A !! id) as [a|], (B !! id) as [b|], (C !! id) as [c|];
      inversion H1; inversion H2; constructor.
    by transitivity b.
Qed.

Lemma all_trimmed_insert R id r r' :
  R !! id = Some r → trimmed r r' → all_trimmed R (<[id := r']> R).
Proof.
  intros Hr Ht. rewrite <- (insert_id R id r Hr) at 1.
  apply map_Forall2_insert_2; [done|]. change (all_trimmed R R). reflexivity.
Qed.

Lemma all_trimmed_lookup R R' id r' :
  all_trimmed R R' → R' !! id = Some r' → ∃ r, R !! id = Some r ∧ trimmed r r'.
Proof.
  intros H Hr. specialize (H id). rewrite Hr in H.
  inversion H; subst; eauto.
Qed.

Lemma trimmed_sweeps r r' : trimmed r r' → sweeps r r'.
Proof.
  intros [k ->]. apply sweeps_replays. unfold len. rewrite length_drop. lia.
Qed.

Section trim.
Context {HO : HashOrder}.

Lemma oldest_replay_room_spec rs :
  match oldest_replay_room rs with
  | None => Forall (λ ir, room_replay_ids ir.2 = []) rs
  | Some (id, _) => ∃ r, (id, r) ∈ rs ∧ room_replay_ids r ≠ []
  end.
Proof.
  unfold oldest_replay_room.
  induction rs as [|[id r] rs IH] using rev_ind; [by constructor|].
  rewrite foldl_app. simpl. destruct (foldl _ None rs) as [[b t]|].
  - destruct IH as (r0 & Hin & Hne).
    assert (∃ r1, (b, r1) ∈ rs ++ [(id, r)] ∧ room_replay_ids r1 ≠ []) as Hb.
    { exists r0. rewrite elem_of_app. auto. }
    destruct (room_replay_ids r) as [|[k c] ids] eqn:E; simpl; [done|].
    case_decide; [|done]. exists r.
    rewrite elem_of_app, list_elem_of_singleton. split; [auto|by rewrite E].
  - destruct (room_replay_ids r) as [|[k c] ids] eqn:E; simpl.
    + apply Forall_app. split; [done|]. by constructor.
    + exists r. rewrite elem_of_app, list_elem_of_singleton. split; [auto|by rewrite E].
Qed.

Lemma no_oldest_total R :
  oldest_replay_room (hash_iter R) = None → map_sum m_replay R = 0.
Proof.
  intros E. pose proof (oldest_replay_room_spec (hash_iter R)) as H. rewrite E in H.
  rewrite (map_sum_ext _ (λ _, 0 * 0)); [by rewrite (map_sum_scale (λ _, 0)), Z.mul_0_r|].
  intros id r Hr. rewrite Forall_forall in H. specialize (H (id, r)). simpl in H.
  unfold m_replay. rewrite H; [done|]. by rewrite hash_iter_perm, elem_of_map_to_list.
Qed.

Lemma trim_loop_spec fuel self :
  global_replay_count self = map_sum m_replay (rooms self) →
  map_sum m_replay (rooms self) ≤ Z.of_nat fuel →
  ∃ R', trim_loop fuel self
          = (Ok tt, set_global_replay_count (map_sum m_replay R') (set_rooms R' self)) ∧
    all_trimmed (rooms self) R' ∧ map_sum m_replay R' ≤ MAX_GLOBAL_REPLAY_IDS.
Proof.
  revert self. induction fuel as [|fuel IH]; intros self Hc Hf; simpl;
    (case_decide as Hd; [exists (rooms self); split_and!;
      [rewrite <- Hc; by destruct self|reflexivity|lia]|]).
  { unfold MAX_GLOBAL_REPLAY_IDS in *. lia. }
  pose proof (oldest_replay_room_spec (hash_iter (rooms self))) as Ho.
  destruct (oldest_replay_room _) as [[id t]|] eqn:E.
  - destruct Ho as (r & Hin & Hne).
    rewrite hash_iter_perm, elem_of_map_to_list in Hin. rewrite Hin.
    destruct (room_replay_ids r) as [|k rest] eqn:Er; [done|].
    assert (map_sum m_replay (<[id := set_room_replay_ids rest r]> (rooms self))
            = map_sum m_replay (rooms self) - 1) as Es.
    { rewrite map_sum_insert. unfold at_key, m_replay. rewrite Hin, Er. simpl.
      rewrite len_cons. lia. }
    rewrite checked_sub_ok by (simpl; unfold MAX_GLOBAL_REPLAY_IDS in *; lia).
    destruct (IH (set_global_replay_count (global_replay_count self - 1)
                (put_room id (set_room_replay_ids rest r) self))) as (R' & -> & HT & HM);
      [simpl; lia|simpl; lia|].
    exists R'. split_and!; [by destruct self| |done].
    etrans; [|exact HT]. simpl. eapply all_trimmed_insert; [done|by eapply trimmed_tail].
  - apply no_oldest_total in E. unfold MAX_GLOBAL_REPLAY_IDS in *. lia.
Qed.

(** Any fuel of at least the number of identifiers gives the same result. *)
Lemma trim_loop_fuel f1 f2 self :
  global_replay_count self = map_sum m_replay (rooms self) →
  map_sum m_replay (rooms self) ≤ Z.of_nat f1 → map_sum m_replay (rooms self) ≤ Z.of_nat f2 →
  trim_loop f1 self = trim_loop f2 self.
Proof.
  revert f2 self. induction f1 as [|f1 IH]; intros [|f2] self Hc H1 H2; simpl; case_decide; try done;
    try (unfold MAX_GLOBAL_REPLAY_IDS in *; lia).
  pose proof (oldest_replay_room_spec (hash_iter (rooms self))) as Ho.
  destruct (oldest_replay_room _) as [[id t]|]; [|done]. destruct Ho as (r & Hin & Hne).
  rewrite hash_iter_perm, elem_of_map_to_list in Hin. rewrite Hin.
  destruct (room_replay_ids r) as [|k rest] eqn:Er; [done|].
  rewrite checked_sub_ok by (simpl; unfold MAX_GLOBAL_REPLAY_IDS in *; lia).
  assert (map_sum m_replay (<[id := set_room_replay_ids rest r]> (rooms self))
          = map_sum m_replay (rooms self) - 1) as Es.
  { rewrite map_sum_insert. unfold at_key, m_replay. rewrite Hin, Er. simpl.
    rewrite len_cons. lia. }
  apply IH; simpl; lia.
Qed.

(** [trim_replay_ids] succeeds, drops only oldest identifiers and reaches
    the global limit. *)
Lemma trim_replay_ids_spec self :
  map_sum m_replay (rooms self) ≤ usize_MAX →
  ∃ R', trim_replay_ids self
          = (Ok tt, set_global_replay_count (map_sum m_replay R') (set_rooms R' self)) ∧
    all_trimmed (rooms self) R' ∧ map_sum m_replay R' ≤ MAX_GLOBAL_REPLAY_IDS.
Proof.
  intros Hle. unfold trim_replay_ids.
  pose proof (map_sum_nonneg m_replay (rooms self) ltac:(nonneg)).
  rewrite (checked_sum_map m_replay) by (try nonneg; done).
  destruct (trim_loop_spec (Z.to_nat (map_sum m_replay (rooms self)))
    (set_global_replay_count (map_sum m_replay (rooms self)) self)) as (R' & -> & ?);
    [done|simpl; lia|].
  exists R'. split; [by destruct self|done].
Qed.

Lemma trim_replay_ids_id self :
  map_sum m_replay (rooms self) ≤ MAX_GLOBAL_REPLAY_IDS →
  trim_replay_ids self
    = (Ok tt, set_global_replay_count (map_sum m_replay (rooms self)) self).
Proof.
  intros Hle. unfold trim_replay_ids. rewrite (checked_sum_map m_replay);
    [|nonneg|limits].
  destruct (Z.to_nat _); simpl; by rewrite decide_True.
Qed.
End trim.

(** ** The sweep of the authority *)

Lemma authority_bounded self :
  authority_ok self ↔
  rooms_bounded (max_delivery_count self) (max_delivery_bytes self) (rooms self) ∧
  total m_replay self ≤ MAX_GLOBAL_REPLAY_IDS.
Proof.
  unfold total. split.
  - intros []. unfold total in *. split; [|done]. constructor; try done. limits.
  - intros [[] ?]. constructor; done.
Qed.

Lemma rooms_bounded_swept a b R R' :
  rooms_bounded a b R → all_swept R R' →
  map_sum m_gaps R' ≤ MAX_GLOBAL_EXPIRED_GAP_PAIRS → rooms_bounded a b R'.
Proof.
  intros [] HS HG.
  assert (∀ id r', R' !! id = Some r' → ∃ r, R !! id = Some r ∧ room_ok id r' ∧ m_le r' r)
    as Hle.
  { intros id r' Hr'. destruct (HS id r' Hr') as (r & Hr & _ & Hok & _).
    destruct (Hok (rb_ok0 id r Hr)). eauto. }
  assert (∀ f, (∀ r, 0 ≤ f r) → (∀ r r', m_le r' r → f r' ≤ f r) →
    map_sum f R' ≤ map_sum f R) as Hmono.
  { intros f Hf Hm. apply map_sum_mono; [done|]. intros id r' Hr'.
    destruct (Hle id r' Hr') as (r & ? & _ & ?). eauto. }
  pose proof (Hmono m_pending_count ltac:(nonneg) ltac:(unfold m_le; lia)).
  pose proof (Hmono m_pending_bytes ltac:(nonneg) ltac:(unfold m_le; lia)).
  pose proof (Hmono m_snapshot_count ltac:(nonneg) ltac:(unfold m_le; lia)).
  pose proof (Hmono m_replay ltac:(nonneg) ltac:(unfold m_le; lia)).
  pose proof (Hmono m_delivery_count ltac:(nonneg) ltac:(unfold m_le; lia)).
  pose proof (Hmono m_delivery_bytes ltac:(nonneg) ltac:(unfold m_le; lia)).
  constructor; try lia; try done. intros id r' Hr'. by destruct (Hle id r' Hr') as (?&_&?&_).
Qed.

Lemma bounded_room_fits a b R id r :
  rooms_bounded a b R → R !! id = Some r → swept_fits r.
Proof.
  intros HB Hr. pose proof (snapshot_total_bound R (rb_ok _ _ _ HB)).
  pose proof (map_sum_entry_le m_pending_bytes R id r ltac:(nonneg) Hr).
  pose proof (map_sum_entry_le m_delivery_bytes R id r ltac:(nonneg) Hr).
  pose proof (map_sum_entry_le m_snapshot_bytes R id r ltac:(nonneg) Hr).
  pose proof (map_sum_nonneg _ (room_joins r) join_bytes_nonneg).
  destruct HB. unfold swept_fits, m_snapshot_bytes in *. split_and!; limits.
Qed.

(** The configuration no operation changes. *)
Definition config (self : RoomAuthority) :=
  (max_rooms self, join_ttl_ms self, pending_ttl_ms self, replay_ttl_ms self,
   max_delivery_count self, max_delivery_bytes self).

(** The core of every room survives. *)
Definition same_cores (R R' : gmap string RelayRoom) : Prop :=
  ∀ id, room_core <$> R' !! id = room_core <$> R !! id.

Section prune.
Context {HO : HashOrder}.

Lemma prune_expired_spec now self :
  authority_ok self →
  ∃ R', all_swept (rooms self) R' ∧ same_cores (rooms self) R' ∧
    rooms_bounded (max_delivery_count self) (max_delivery_bytes self) R' ∧
    map_sum m_replay R' ≤ MAX_GLOBAL_REPLAY_IDS ∧
    prune_expired now self
      = apply_accounting (exact_accounting R') (set_rooms R' self) ∧
    ∃ g, R' = (prune_rooms now (replay_ttl_ms self) (hash_iter (rooms self)) (rooms self, g)).1.
Proof.
  intros [HB HR]%authority_bounded. unfold prune_expired.
  pose proof HB as HB'. destruct HB'.
  rewrite (checked_sum_map m_gaps) by (nonneg || limits).
  destruct (prune_all_rooms now (replay_ttl_ms self) (rooms self)
    (map_sum m_gaps (rooms self))) as (HS & Hdom & HM & HG).
  cbn [default from_option id]. set (x := prune_rooms _ _ _ _) in *.
  assert (rooms_bounded (max_delivery_count self) (max_delivery_bytes self) x.1) as HBx.
  { eapply rooms_bounded_swept; [done|done|]. specialize (HM rb_gaps0). lia. }
  assert (map_sum m_replay x.1 ≤ MAX_GLOBAL_REPLAY_IDS) as HRx.
  { etrans; [|exact HR]. apply map_sum_mono; [nonneg|]. intros id r' Hr'.
    destruct (HS id r' Hr') as (r & Hr & _ & Hok & _).
    destruct (Hok (rb_ok0 _ _ Hr)) as [_ (_&_&_&?&_)]. eauto. }
  exists x.1. split_and!; [done| |done|done| |by eexists].
  - intros id. destruct (x.1 !! id) as [r'|] eqn:Hr'.
    + destruct (HS id r' Hr') as (r & -> & E & _). simpl. by f_equal.
    + destruct (rooms self !! id) eqn:Hr; [|done].
      destruct (proj2 (Hdom id)) as [? ?]; [by rewrite Hr|]. congruence.
  - rewrite (checked_accounting_all (max_delivery_count self) (max_delivery_bytes self));
      simpl; [|done|].
    + rewrite trim_replay_ids_id by done. by destruct self.
    + intros id r Hr. destruct (HS id r Hr) as (r0 & _ & _ & _ & Hx).
      apply Hx. by eapply bounded_room_fits.
Qed.

Lemma prune_expired_ok now self :
  authority_ok self →
  authority_ok (prune_expired now self) ∧ exact (prune_expired now self) ∧
  same_cores (rooms self) (rooms (prune_expired now self)) ∧
  config (prune_expired now self) = config self.
Proof.
  intros Hok. destruct (prune_expired_spec now self Hok) as (R' & HS & HC & HB & HR & -> & _).
  split_and!; [by apply authority_bounded| |done|done].
  constructor; try done. intros id r Hr.
  destruct (HS id r Hr) as (r0 & _ & _ & _ & Hx). apply Hx. by eapply bounded_room_fits.
Qed.
End prune.
