(* ===== verification/RoomUpdate.v ===== *)
(** * Operations keep the invariant: the simple ones

    The effect of replacing one room on the invariant and on the counters,
    then the operations that stage, add or drop requests and rooms. *)

From S2P Require Import Prelude RoomModel RoomValidation RoomDelivery RoomAuthority.
From S2P Require Import RoomLifecycle RoomMembership RoomSizes.
From S2P Require Import RoomInvariant RoomSweep.

(** The state an operation promises: invariant and exact counters. *)
Definition good (self : RoomAuthority) : Prop := authority_ok self ∧ exact self.

(** An operation keeps the configuration and [good]. *)
Definition keeps (self self' : RoomAuthority) : Prop :=
  good self' ∧ config self' = config self.

(** ** Replacing one room *)

(** The total of a measure once room [id] is replaced by [r]. *)
Definition moved (m : RelayRoom → Z) (self : RoomAuthority) (id : string) (r : RelayRoom) : Z :=
  total m self - at_key m id (rooms self) + m r.

Lemma total_insert m self self' id r :
  rooms self' = <[id := r]> (rooms self) → total m self' = moved m self id r.
Proof. intros E. unfold total, moved. by rewrite E, map_sum_insert. Qed.

Lemma moved_at m self id r r' :
  rooms self !! id = Some r → moved m self id r' = total m self - m r + m r'.
Proof. intros Hr. unfold moved, at_key. by rewrite Hr. Qed.

Record fits_limits (self : RoomAuthority) (id : string) (r : RelayRoom) : Prop := {
  fl_pending_count : moved m_pending_count self id r ≤ MAX_GLOBAL_PENDING_APPLICATIONS;
  fl_pending_bytes : moved m_pending_bytes self id r ≤ MAX_GLOBAL_PENDING_BYTES;
  fl_snapshot_count : moved m_snapshot_count self id r ≤ MAX_GLOBAL_STATE_SNAPSHOTS;
  fl_replay : moved m_replay self id r ≤ MAX_GLOBAL_REPLAY_IDS;
  fl_delivery_count : moved m_delivery_count self id r ≤ max_delivery_count self;
  fl_delivery_bytes : moved m_delivery_bytes self id r ≤ max_delivery_bytes self;
  fl_gaps : moved m_gaps self id r ≤ MAX_GLOBAL_EXPIRED_GAP_PAIRS
}.

Lemma update_ok self self' id r :
  authority_ok self → rooms self' = <[id := r]> (rooms self) → config self' = config self →
  room_ok id r → fits_limits self id r → authority_ok self'.
Proof.
  intros [] ER EC Hr []. unfold config in EC. simplify_eq.
  constructor; rewrite ?(total_insert _ _ _ _ _ ER); try congruence.
  - intros id' r'. rewrite ER. destruct (decide (id = id')) as [<-|].
    + rewrite lookup_insert_eq. by intros [= <-].
    + rewrite lookup_insert_ne by done. eauto.
Qed.

(** The invariant does not read the counters. *)
Lemma authority_ok_ext self self' :
  rooms self' = rooms self → config self' = config self →
  authority_ok self → authority_ok self'.
Proof.
  intros ER EC [HB HR]%authority_bounded. unfold config in EC. simplify_eq.
  apply authority_bounded. unfold total in *. rewrite ER. split; [|done].
  destruct HB; constructor; try done; congruence.
Qed.

Record counts_moved (self self' : RoomAuthority) (id : string) (r : RelayRoom) : Prop := {
  cm_pending_count : global_pending_count self' = moved m_pending_count self id r;
  cm_pending_bytes : global_pending_bytes self' = moved m_pending_bytes self id r;
  cm_snapshot_count : global_snapshot_count self' = moved m_snapshot_count self id r;
  cm_snapshot_bytes : global_snapshot_bytes self' = moved m_snapshot_bytes self id r;
  cm_replay_count : global_replay_count self' = moved m_replay self id r;
  cm_delivery_count : global_delivery_count self' = moved m_delivery_count self id r;
  cm_delivery_bytes : global_delivery_bytes self' = moved m_delivery_bytes self id r;
  cm_gaps : global_expired_gap_pairs self' = moved m_gaps self id r
}.

Lemma update_exact self self' id r :
  exact self → rooms self' = <[id := r]> (rooms self) → room_exact r →
  counts_moved self self' id r → exact self'.
Proof.
  intros [] ER Hr []. constructor; rewrite ?(total_insert _ _ _ _ _ ER); try done.
  intros id' r'. rewrite ER. destruct (decide (id = id')) as [<-|].
  - rewrite lookup_insert_eq. by intros [= <-].
  - rewrite lookup_insert_ne by done. eauto.
Qed.

(** Both at once, with the new totals as the counters. *)
Lemma update_keeps self self' id r :
  good self → rooms self' = <[id := r]> (rooms self) → config self' = config self →
  room_ok id r → room_exact r → counts_moved self self' id r → fits_limits self id r →
  keeps self self'.
Proof.
  intros [Hok Hx] ER EC Hr Hxr HM HF.
  split; [split|done]; [by eapply update_ok|by eapply update_exact].
Qed.

(** A room that keeps every measure. *)
Definition same_measures (r r' : RelayRoom) : Prop :=
  m_pending_count r' = m_pending_count r ∧ m_pending_bytes r' = m_pending_bytes r ∧
  m_snapshot_count r' = m_snapshot_count r ∧ m_snapshot_bytes r' = m_snapshot_bytes r ∧
  m_replay r' = m_replay r ∧ m_delivery_count r' = m_delivery_count r ∧
  m_delivery_bytes r' = m_delivery_bytes r ∧ m_gaps r' = m_gaps r.

Lemma update_same self id r r' :
  good self → rooms self !! id = Some r → room_ok id r' → room_exact r' →
  same_measures r r' → keeps self (put_room id r' self).
Proof.
  intros [Hok Hx] Hr Hr' Hxr (?&?&?&?&?&?&?&?).
  assert (∀ m, m r' = m r → moved m self id r' = total m self) as HM.
  { intros m E. unfold moved, at_key. rewrite Hr. lia. }
  apply update_keeps with id r'; try done.
  - by destruct Hx; constructor; simpl; rewrite HM.
  - by destruct Hok; constructor; rewrite HM.
Qed.

(** Turn goals about [moved] into arithmetic on one room. *)
Ltac abstract_totals :=
  repeat match goal with
  | |- context [total ?m ?s] =>
      let x := fresh "T" in set (x := total m s) in *; clearbody x
  end.
Ltac solve_moved Hr :=
  unfold moved, at_key; rewrite ?Hr; abstract_totals;
  unfold m_pending_count, m_pending_bytes, m_snapshot_count, m_snapshot_bytes, m_replay,
    m_delivery_count, m_delivery_bytes, m_gaps; simpl.

Lemma good_room self id r : good self → rooms self !! id = Some r → room_ok id r ∧ room_exact r.
Proof. intros [[] []] Hr. eauto. Qed.

Section simple.
Context {HO : HashOrder}.

Lemma prune_keeps now self : authority_ok self → keeps self (prune_expired now self).
Proof. intros H. destruct (prune_expired_ok now self H) as (?&?&_&?). done. Qed.

Lemma after_prune_keeps {A} now (f : RoomAuthority → result string (A * RoomAuthority)) self :
  authority_ok self →
  (∀ self a self', good self → f self = Ok (a, self') → keeps self self') →
  keeps self (after_prune now f self).2.
Proof.
  intros Hok Hf. unfold after_prune.
  destruct (prune_keeps now self Hok) as [Hg Hc].
  destruct (f (prune_expired now self)) as [[a self']|e] eqn:E; simpl; [|done].
  destruct (Hf _ _ _ Hg E) as [? ?]. split; [done|congruence].
Qed.

(** *** Leave requests *)

Lemma set_leaves_keeps self id r L :
  good self → rooms self !! id = Some r → keeps self (put_room id (set_room_leaves L r) self).
Proof.
  intros Hg Hr. destruct (good_room _ _ _ Hg Hr) as [Hok Hx].
  apply update_same with r; try done. by destruct_ok Hok; constructor.
Qed.

Lemma request_leave_keeps now code id req self :
  authority_ok self → keeps self (request_leave now code id req self).2.
Proof.
  intros Hok. apply after_prune_keeps; [done|]. clear self Hok.
  intros self a self' Hg Hf. unfold get_room in Hf. run_ok.
  destruct (room_leaves _ !! req) as [l|].
  - destruct (_ && _); simplify_eq. by split.
  - run_ok. simplify_eq. by apply set_leaves_keeps.
Qed.

Lemma remove_leave_keeps now owner id req self :
  authority_ok self → keeps self (remove_leave now owner id req self).2.
Proof.
  intros Hok. apply after_prune_keeps; [done|]. clear self Hok.
  intros self a self' Hg Hf. unfold get_room in Hf. run_ok. simplify_eq.
  by apply set_leaves_keeps.
Qed.

(** *** Staging and dropping a transition *)

Lemma rollback_membership_keeps now owner id mid rev self :
  authority_ok self → keeps self (rollback_membership now owner id mid rev self).2.
Proof.
  intros Hok. apply after_prune_keeps; [done|]. clear self Hok.
  intros self a self' Hg Hf. unfold get_room in Hf. run_ok. simplify_eq.
  destruct (good_room _ _ _ Hg H) as [Hok Hx].
  apply update_same with x; try done. by destruct_ok Hok; constructor.
Qed.

Lemma begin_checkpoint_Ok owner room t :
  begin_checkpoint owner room t = Ok tt →
  room_owner_code_id room = owner ∧ queue_of room owner = [] ∧
  room_pending_applications room = ∅ ∧ room_pending_transition room = None ∧
  mt_from_epoch t = room_epoch room ∧ mt_to_epoch t = room_epoch room + 1 ∧
  mt_to_epoch t ≤ u64_MAX ∧ mt_group_id t = room_group_id room ∧
  mt_from_membership_digest t = room_membership_digest room ∧
  room_member_revisions room !! owner = Some (mt_revision t - 1) ∧
  mt_revision t ≤ u64_MAX.
Proof.
  unfold begin_checkpoint, validate_current_metadata. intros. run_ok. split_bools. checked.
  repeat match goal with H : ¬ (_ ≠ _) |- _ => apply dec_stable in H end.
  repeat match goal with H : ¬ is_Some _ |- _ => apply eq_None_not_Some in H end.
  subst. split_and!; try done; try lia; try congruence.
  replace (mt_revision t - 1) with x8 by lia. done.
Qed.

Lemma begin_roster_Ok room t :
  begin_roster room t = Ok tt →
  ∃ next u c, resolve_next_roster room t = Ok next ∧
    canonical_username (room_owner_username room) = Ok u ∧ is_Some (next !! u) ∧
    map_len next ≤ MAX_MEMBERS ∧ changed_usernames (room_members room) next = {[c]} ∧
    (if contains_key c next then check_addition room t next c
     else check_removal room t c) = Ok tt.
Proof.
  unfold begin_roster. intros. run_ok. split_bools.
  apply dec_stable, size_1_elem_of in H2 as [c Hc]. fold_leibniz.
  exists x, x0, c. split_and!; try done; try lia.
      rewrite Hc, elements_singleton in H3. by simplify_eq/=.
Qed.

(** The change a resolved roster makes is the names it adds or drops. *)
Lemma changed_one_sided room t next req :
  resolve_next_roster room t = Ok next → roster_map (mt_roster t) = Ok req →
  changed_usernames (room_members room) next = one_sided (room_members room) req.
Proof.
  intros Hnext Hreq. apply resolve_next_roster_spec in Hnext as (req' & Hreq' & Hdom & Hres).
  assert (req' = req) as -> by congruence. apply set_eq. intros u.
  unfold changed_usernames, one_sided.
  specialize (Hdom u). specialize (Hres u).
  rewrite elem_of_filter, !elem_of_union, !elem_of_difference, !elem_of_dom.
  destruct (room_members room !! u) as [m|] eqn:Hm, (next !! u) as [m'|] eqn:Hn; simpl.
  - destruct (Hres m' eq_refl) as (m0 & _ & Hm0).
    destruct (resolve_member_cases _ _ _ _ _ Hm0) as [[? _]|[? _]]; [|congruence].
    simplify_eq. rewrite <- Hdom. naive_solver.
  - rewrite <- Hdom. naive_solver.
  - rewrite <- Hdom. naive_solver.
  - rewrite <- Hdom. naive_solver.
Qed.

Lemma begin_membership_keeps now owner t self :
  authority_ok self → keeps self (begin_membership now owner t self).2.
Proof.
  intros Hok. apply after_prune_keeps; [done|]. clear self Hok.
  intros self a self' Hg Hf. unfold get_room in Hf. run_ok. simplify_eq.
  destruct x1, x2. destruct (good_room _ _ _ Hg H0) as [Hok Hx].
  apply begin_checkpoint_Ok in H1. apply begin_roster_Ok in H2.
  destruct H2 as (next & u & c & Hnext & Hu & Hin & _ & Hch & _).
  pose proof (resolve_next_roster_spec _ _ _ Hnext) as (req & Hreq & Hdom & _).
  rewrite (changed_one_sided _ _ _ _ Hnext Hreq) in Hch.
  apply update_same with x0; try done.
  destruct_ok Hok; constructor; try done; [|naive_solver].
  intros ? [= <-]. split; simpl; [naive_solver|]. exists u, req, c.
  split_and!; [done|done|by apply Hdom|done].
Qed.

(** *** Join requests *)

Lemma is_member_of_spec room c : is_member_of room c = true ↔ is_code (room_members room) c.
Proof.
  unfold is_member_of, is_code. rewrite existsb_exists. split.
  - intros (m & Hin & Hm). apply list_elem_of_In, elem_of_btree_values in Hin as [u Hu].
    split_bools. eauto.
  - intros (u & m & Hu & Hm). exists m. rewrite <- list_elem_of_In, elem_of_btree_values.
    split; [eauto|]. by apply bool_decide_eq_true.
Qed.

Lemma join_room_checks_new room c u req ident kp env :
  join_room_checks room c u req ident kp env = Ok None →
  room_joins room !! req = None ∧ room_leaves room !! req = None ∧
  ¬ is_code (room_members room) c ∧
  (∀ k j, room_joins room !! k = Some j → jr_code_id (pj_request j) ≠ c).
Proof.
  unfold join_room_checks. intros. run_ok. split_bools.
  destruct (room_joins room !! req) as [j|] eqn:Hj;
    [match goal with H : (if ?b then _ else _) = _ |- _ => by destruct b end|].
  split_and!; [done|done| |].
  - intros Hc. apply is_member_of_spec in Hc. unfold is_member_of in Hc.
    rewrite existsb_exists in Hc. destruct Hc as (m & Hin & Hm). split_bools.
    match goal with H : existsb _ _ = false |- _ => rename H into Hex end.
    assert (existsb (λ m, bool_decide (mem_code_id m = c)
      || bool_decide (mem_stable_identity m = ident)) (btree_values (room_members room)) = true);
      [|congruence].
    apply existsb_exists. exists m. split; [done|]. by rewrite bool_decide_true.
  - intros k j Hk <-. match goal with H : any_value _ _ && _ = false |- _ => rename H into Ha end.
    rewrite (proj2 (contains_key_false _ _) Hj), andb_true_r in Ha.
    apply any_value_false with (k := k) (v := j) in Ha; [|done].
    split_bools. congruence.
Qed.

Lemma join_budgets_Ok room env self cnt bts :
  join_budgets room env self = Ok (cnt, bts) →
  cnt = global_snapshot_count self + 1 ∧ cnt ≤ MAX_GLOBAL_STATE_SNAPSHOTS ∧
  bts = global_snapshot_bytes self + len env ∧ bts ≤ MAX_GLOBAL_STATE_BYTES ∧
  map_len (room_snapshots room) + map_len (room_joins room) + 1 ≤ MAX_STATE_SNAPSHOTS ∧
  room_snapshot_bytes room + map_sum join_bytes_of (room_joins room) + len env
    ≤ MAX_STATE_BYTES.
Proof.
  unfold join_budgets. intros. run_ok. split_bools. checked.
  apply checked_add_all_Some in H, H1. apply checked_sum_Some in H0.
  change (λ j, len (pj_state_envelope j)) with join_bytes_of in H0.
  rewrite map_sum_hash in H0. subst. simpl in *. simplify_eq. split_and!; lia.
Qed.

Lemma request_join_keeps now c u id req ident kp env self :
  authority_ok self → keeps self (request_join now c u id req ident kp env self).2.
Proof.
  intros Hok. apply after_prune_keeps; [done|]. clear self Hok.
  intros self a self' Hg Hf. unfold get_room in Hf. run_ok.
  destruct x6 as [r|]; [simplify_eq; by split|]. run_ok. destruct x6 as [cnt bts].
  simplify_eq/=.
  match goal with H : rooms self !! id = Some ?r0 |- _ => rename H into Hr, r0 into r end.
  match goal with H : join_room_checks _ _ _ _ _ _ _ = _ |- _ =>
    apply join_room_checks_new in H as (Hreq & _ & Hnc & Hnj) end.
  match goal with H : join_budgets _ _ _ = _ |- _ =>
    apply join_budgets_Ok in H as (? & ? & ? & ? & ? & ?) end.
  match goal with H : validate_state_envelope _ = _ |- _ =>
    unfold validate_state_envelope in H end.
  run_ok. split_bools.
  destruct (good_room _ _ _ Hg Hr) as [Hok Hx]. destruct (Hg) as [Ha He].
  apply (update_keeps self _ id (set_room_joins
    (<[req := mkPendingJoin (mkJoinRequest req id c u ident kp now
         (saturating_add u64_MAX now (join_ttl_ms self))) env]> (room_joins r)) r)); try done.
  - destruct_ok Hok. constructor; try done; simpl.
    + intros k j. destruct (decide (req = k)) as [<-|].
      * rewrite lookup_insert_eq. intros [= <-]. unfold join_bytes_of. simpl. split; [lia|done].
      * rewrite lookup_insert_ne by done. eauto.
    + intros k1 k2 j1 j2.
      destruct (decide (req = k1)) as [<-|], (decide (req = k2)) as [<-|];
        rewrite ?lookup_insert_eq, ?lookup_insert_ne by done; intros; simplify_eq/=; try done.
      * by exfalso; eapply Hnj.
      * by exfalso; eapply Hnj.
      * by eapply Hjcodes.
  - destruct He. constructor; solve_moved Hr; try lia.
    + rewrite map_len_insert, (proj2 (contains_key_false _ _) Hreq). lia.
    + rewrite map_sum_insert_None by done. unfold join_bytes_of at 2. simpl. lia.
  - destruct Ha, He. constructor; solve_moved Hr; try lia.
    rewrite map_len_insert, (proj2 (contains_key_false _ _) Hreq). lia.
Qed.

(** *** Recounts *)

Lemma recompute_state_ok self :
  authority_ok self → (∀ id r, rooms self !! id = Some r → room_exact r) →
  recompute_state_accounting self
    = (Ok tt, set_global_snapshot_bytes (total m_snapshot_bytes self)
                (set_global_snapshot_count (total m_snapshot_count self) self)).
Proof.
  intros [HB _]%authority_bounded Hx. unfold recompute_state_accounting.
  by rewrite (checked_accounting_all _ _ self HB Hx).
Qed.

Lemma recompute_gap_ok self :
  total m_gaps self ≤ MAX_GLOBAL_EXPIRED_GAP_PAIRS →
  recompute_gap_accounting self
    = (Ok tt, set_global_expired_gap_pairs (total m_gaps self) self).
Proof.
  intros HG. unfold recompute_gap_accounting.
  rewrite (checked_sum_map m_gaps (rooms self)) by (nonneg || (unfold total in *; limits)).
  simpl. by rewrite decide_True.
Qed.

Lemma delete_join_ok id r k :
  room_ok id r → room_ok id (set_room_joins (delete k (room_joins r)) r).
Proof.
  intros Hok. destruct_ok Hok. constructor; try done; simpl.
  - intros k' j [_ Hj]%lookup_delete_Some. eauto.
  - intros k1 k2 j1 j2 [_ H1]%lookup_delete_Some [_ H2]%lookup_delete_Some. eauto.
Qed.

Lemma remove_join_keeps now owner id req self :
  authority_ok self → keeps self (remove_join now owner id req self).2.
Proof.
  intros Hok. unfold remove_join. destruct (prune_keeps now self Hok) as [Hg Hc].
  set (s := prune_expired now self) in *. clearbody s.
  destruct (get_room id s) as [r|e] eqn:Hr; simpl; [|done]. apply ok_or_Ok in Hr.
  destruct (reject_if _ _); simpl; [|done].
  destruct (room_joins r !! req) as [j|] eqn:Hj; simpl; [|done].
  destruct (good_room _ _ _ Hg Hr) as [Hrok Hrx]. destruct (Hg) as [Ha He].
  set (r' := set_room_joins (delete req (room_joins r)) r).
  assert (map_len (delete req (room_joins r)) = map_len (room_joins r) - 1) as Hlen.
  { rewrite map_len_delete. unfold contains_key. by rewrite Hj. }
  assert (authority_ok (put_room id r' s)) as Hok'.
  { eapply update_ok with (id := id) (r := r'); try done; [by apply delete_join_ok|].
    destruct Ha. constructor; solve_moved Hr; lia. }
  unfold mbind, ST_bind. rewrite recompute_state_ok; [|exact Hok'|]; simpl.
  - split; [|by rewrite <- Hc]. split; [by eapply authority_ok_ext, Hok'|].
    eapply update_exact with (id := id) (r := r'); try done.
    destruct He. constructor; simpl; try (by eapply total_insert); solve_moved Hr; lia.
  - intros k r2. destruct (decide (id = k)) as [<-|].
    + rewrite lookup_insert_eq. by intros [= <-].
    + rewrite lookup_insert_ne by done. apply He.
Qed.

(** *** Deletion and wipe *)

Lemma delete_bounded s id r :
  authority_ok s → rooms s !! id = Some r →
  authority_ok (set_rooms (delete id (rooms s)) s).
Proof.
  intros Ha Hr.
  assert (∀ m, (∀ r, 0 ≤ m r) → total m (set_rooms (delete id (rooms s)) s) ≤ total m s) as Hle.
  { intros m Hm. unfold total. simpl. rewrite map_sum_delete_at. unfold at_key.
    rewrite Hr. specialize (Hm r). lia. }
  destruct Ha. constructor; simpl; try done;
    try (etrans; [apply Hle; nonneg|done]).
  intros k r2 [_ ?]%lookup_delete_Some. eauto.
Qed.

(** The recount of the other rooms cannot fail. *)
Lemma delete_accounting s id r :
  authority_ok s → exact s → rooms s !! id = Some r →
  checked_accounting_excluding (Some id) s = Ok (exact_accounting (delete id (rooms s))).
Proof.
  intros Ha He Hr. pose proof (delete_bounded s id r Ha Hr) as [HB _]%authority_bounded.
  apply (checked_accounting_except _ _ id s HB).
  intros k r2 Hk. split; [by eapply (ex_rooms _ He)|by apply (ok_rooms _ Ha) in Hk as []].
Qed.

Lemma delete_room_keeps now owner id self :
  authority_ok self → keeps self (delete_room now owner id self).2.
Proof.
  intros Hok. unfold delete_room. destruct (prune_keeps now self Hok) as [Hg Hc].
  set (s := prune_expired now self) in *. clearbody s.
  destruct (get_room id s) as [r|e] eqn:Hr; simpl; [|done]. apply ok_or_Ok in Hr.
  destruct (reject_if _ _); simpl; [|done]. destruct Hg as [Ha He].
  rewrite (delete_accounting s id r Ha He Hr). simpl.
  split; [split|done].
  - by eapply authority_ok_ext, delete_bounded.
  - constructor; try done. intros k r2 Hk. simpl in Hk.
    apply lookup_delete_Some in Hk as [_ Hk]. by eapply (ex_rooms _ He).
Qed.

Lemma wipe_keeps self : authority_ok self → keeps self (wipe self).
Proof.
  intros [_ _ _ _ _ Hd Hb _ HL].
  assert (0 ≤ total m_delivery_count self ∧ 0 ≤ total m_delivery_bytes self) as [? ?].
  { split; apply map_sum_nonneg; nonneg. }
  split; [split|done]; constructor; simpl; try done; unfold total; simpl;
    rewrite ?map_sum_empty; try done; unfold total in *; lia.
Qed.

(** *** Creation *)

(** The room a creation installs. *)
Definition first_room (now : Z) (owner : CodeId) (name id : string)
    (gid dig ident : bytes) (pol : RoomPolicy) (vis : RoomVisibility) (env : bytes)
    (canonical : string) : RelayRoom :=
  let s := mkSnapshot id "" owner 0 0 dig env [mkRosterMember canonical ident] now u64_MAX in
  set_room_snapshots {[owner := s]}
    (set_room_snapshot_bytes (snapshot_bytes_of s)
       (fresh_room owner name id gid dig ident pol vis canonical)).

Lemma create_room_Ok now owner name id gid epoch rev dig ident pol vis env self i self' :
  create_room now owner name id gid epoch rev dig ident pol vis env self = Ok (i, self') →
  ∃ canonical, canonical_username name = Ok canonical ∧ rooms self !! id = None ∧
    len ident = STABLE_IDENTITY_BYTES ∧ 0 < len env ≤ MAX_STATE_BYTES ∧
    map_len (rooms self) < MAX_ROOMS_TOTAL ∧
    let r := first_room now owner name id gid dig ident pol vis env canonical in
    global_snapshot_count self + 1 ≤ MAX_GLOBAL_STATE_SNAPSHOTS ∧
    i = room_info_for r (Some owner) true ∧
    self' = set_global_snapshot_bytes (global_snapshot_bytes self + map_sum snapshot_bytes_of (room_snapshots r))
      (set_global_snapshot_count (global_snapshot_count self + 1) (put_room id r self)).
Proof.
  unfold create_room, validate_state_envelope, validate_stable_identity. intros.
  run_ok. split_bools. checked.
  repeat match goal with
  | H : snapshot_size _ = Ok _ |- _ => apply snapshot_size_exact in H
  | H : roster_size _ = Ok _ |- _ => apply roster_size_exact in H
  | H : ¬ (_ ≠ _) |- _ => apply dec_stable in H
  end. simplify_eq.
  match goal with H : canonical_username name = Ok ?c |- _ => exists c end.
  split_and!; try done; try lia.
  - pose proof (len_nonneg env). destruct env; [done|]. rewrite len_cons in *.
    pose proof (len_nonneg env). lia.
  - unfold first_room. simpl. rewrite map_sum_singleton. done.
Qed.

Lemma first_room_ok now owner name id gid dig ident pol vis env canonical :
  canonical_username name = Ok canonical → len ident = STABLE_IDENTITY_BYTES →
  len env ≤ MAX_STATE_BYTES →
  room_ok id (first_room now owner name id gid dig ident pol vis env canonical).
Proof.
  intros Hc Hi He.
  assert (slen canonical ≤ MAX_USERNAME_BYTES) as Hu.
  { apply canonical_username_Ok in Hc as (-> & _ & Hn). etrans; [|exact Hn].
    clear. induction name as [|a s IH]; [done|]. unfold slen in *. simpl in *. lia. }
  assert (∀ c, is_code {[canonical := mkMember name owner ident true]} c ↔ c = owner) as Hcode.
  { intros c. unfold is_code. split.
    - intros (u & m & [<- <-]%lookup_singleton_Some & <-). done.
    - intros ->. exists canonical, (mkMember name owner ident true).
      by rewrite lookup_singleton_eq. }
  constructor; simpl; try done.
  - exists canonical, (mkMember name owner ident true). by rewrite lookup_singleton_eq.
  - intros u1 u2 m1 m2 [<- <-]%lookup_singleton_Some [<- <-]%lookup_singleton_Some. done.
  - intros c. rewrite Hcode, lookup_singleton_is_Some. naive_solver.
  - intros c [? Hq]. by rewrite lookup_empty in Hq.
  - intros c s [<- <-]%lookup_singleton_Some. unfold snapshot_bytes_of, roster_bytes_of. simpl.
    unfold SNAPSHOT_BOUND, MAX_STATE_BYTES, MAX_USERNAME_BYTES, STABLE_IDENTITY_BYTES in *. lia.
  - unfold map_len. by rewrite map_size_singleton.
  - intros u m [<- <-]%lookup_singleton_Some. done.
  - intros u1 u2 m1 m2 [<- <-]%lookup_singleton_Some [<- <-]%lookup_singleton_Some. done.
Qed.

Lemma first_room_exact now owner name id gid dig ident pol vis env canonical :
  room_exact (first_room now owner name id gid dig ident pol vis env canonical).
Proof.
  unfold room_exact, first_room, m_pending_bytes, m_delivery_bytes. simpl.
  by rewrite map_sum_singleton, !map_sum_empty.
Qed.

Lemma create_keeps now0 now1 owner name id gid epoch rev dig ident pol vis env self :
  authority_ok self →
  keeps self (create_with_policy_visibility_and_state now0 now1 owner name id gid epoch rev
                dig ident pol vis env self).2.
Proof.
  intros Hok. unfold create_with_policy_visibility_and_state.
  destruct (prune_keeps now0 self Hok) as [Hg Hc].
  set (s := prune_expired now0 self) in *. clearbody s.
  destruct (create_room _ _ _ _ _ _ _ _ _ _ _ _ s) as [[i s']|e] eqn:E; simpl; [|done].
  apply create_room_Ok in E as (canonical & Hcan & Hnone & Hi & He & _ & Hcnt & _ & ->).
  set (r := first_room _ _ _ _ _ _ _ _ _ _ _) in *.
  assert (room_snapshots r = {[owner := mkSnapshot id "" owner 0 0 dig env
    [mkRosterMember canonical ident] now1 u64_MAX]}) as Es by done.
  destruct (Hg) as [Ha Hx].
  destruct (update_keeps s _ id r Hg (eq_refl : rooms (set_global_snapshot_bytes
     (global_snapshot_bytes s + map_sum snapshot_bytes_of (room_snapshots r))
     (set_global_snapshot_count (global_snapshot_count s + 1) (put_room id r s))) = _))
    as [? ?]; [done|by apply first_room_ok, He|apply first_room_exact| | |split; [done|congruence]].
  - destruct Hx. constructor; solve_moved Hnone; unfold map_len;
      rewrite ?map_sum_empty, ?map_size_empty, ?map_size_singleton;
      try lia; unfold len; simpl; lia.
  - destruct Ha, Hx. constructor; solve_moved Hnone; unfold map_len;
      rewrite ?map_sum_empty, ?map_size_empty, ?map_size_singleton;
      try lia; unfold len; simpl; lia.
Qed.
End simple.
