(* ===== verification/RoomApplicationFacts.v ===== *)
(** * Applications keep the invariant

    What each phase of an admission establishes, and that admission, commit
    and rollback keep the invariant and the counters. *)

From S2P Require Import Prelude RoomModel RoomValidation RoomDelivery RoomAuthority RoomMembership.
From S2P Require Import RoomApplication RoomSizes RoomInvariant RoomSweep RoomUpdate.

(** ** Shared facts *)

Lemma stored_snapshot_bytes_exact r c v :
  stored_snapshot_bytes r c = Ok v → v = at_key snapshot_bytes_of c (room_snapshots r).
Proof.
  unfold stored_snapshot_bytes, at_key. destruct (room_snapshots r !! c).
  - apply snapshot_size_exact.
  - by intros [= <-].
Qed.

Lemma find_active_Some room c m :
  find_active room c = Some m →
  (∃ u, room_members room !! u = Some m) ∧ mem_code_id m = c ∧ mem_active m = true.
Proof.
  unfold find_active. intros H. apply fmap_Some in H as ([i m'] & H & ->). simpl.
  apply list_find_Some in H as (Hl & (? & ?) & _).
  split_and!; [|done|done]. apply elem_of_btree_values. by eapply list_elem_of_lookup_2.
Qed.

Lemma find_active_code room c m :
  find_active room c = Some m → is_code (room_members room) c.
Proof. intros ((u & Hu) & Hc & _)%find_active_Some. by exists u, m. Qed.

(** ** The phases of an admission *)

Section admission.
Context {HO : HashOrder}.

Lemma admit_pending_Ok self room mid ct ad pb gc gb :
  admit_pending self room mid ct ad = Ok (pb, gc, gb) →
  let b := len ct + len ad + slen mid in
  pb = room_pending_bytes room + b ∧ pb ≤ MAX_PENDING_BYTES ∧
  gc = global_pending_count self + 1 ∧ gc ≤ MAX_GLOBAL_PENDING_APPLICATIONS ∧
  gb = global_pending_bytes self + b ∧ gb ≤ MAX_GLOBAL_PENDING_BYTES ∧
  map_len (room_pending_applications room) + 1 ≤ MAX_PENDING_APPLICATIONS.
Proof.
  unfold admit_pending. intros. run_ok. split_bools. checked. simplify_eq.
  match goal with H : checked_add_all _ _ = _ |- _ => apply checked_add_all_Some in H as -> end.
  simpl in *. split_and!; lia.
Qed.

Lemma admit_snapshot_Ok self room c env roster sb gc gb :
  admit_snapshot self room c env = Ok (roster, sb, gc, gb) →
  let prev := at_key snapshot_bytes_of c (room_snapshots room) in
  let next := len env + roster_bytes_of roster in
  sb = room_snapshot_bytes room - prev + next ∧ prev ≤ room_snapshot_bytes room ∧
  sb ≤ MAX_STATE_BYTES ∧
  gc = global_snapshot_count self + (if contains_key c (room_snapshots room) then 0 else 1) ∧
  gc ≤ MAX_GLOBAL_STATE_SNAPSHOTS ∧
  gb = global_snapshot_bytes self - prev + next ∧ gb ≤ MAX_GLOBAL_STATE_BYTES.
Proof.
  unfold admit_snapshot. intros. run_ok. apply orb_false_iff in H3 as [H3 ?].
  apply orb_false_iff in H3 as [H3 ?]. apply orb_false_iff in H3 as [_ ?].
  split_bools. checked. simplify_eq.
  apply stored_snapshot_bytes_exact in H as ->. apply roster_size_exact in H1 as ->.
  destruct (contains_key c (room_snapshots room)); simpl in *; split_and!; lia.
Qed.

Lemma admit_deliveries_Ok self room ds db gc gb :
  admit_deliveries self room ds = Ok (db, gc, gb) →
  db = room_delivery_bytes room + queue_bytes ds ∧
  gc = global_delivery_count self + len ds ∧ gc ≤ max_delivery_count self ∧
  gb = global_delivery_bytes self + queue_bytes ds ∧ gb ≤ max_delivery_bytes self ∧
  map_sum len (room_deliveries room) + len ds ≤ MAX_DELIVERIES_PER_ROOM.
Proof.
  unfold admit_deliveries. intros. run_ok. split_bools. checked.
  apply delivery_bytes_exact in H as ->. simplify_eq.
  match goal with H : checked_sum _ = _ |- _ =>
    apply checked_sum_Some in H; rewrite map_sum_hash in H end.
  split_and!; lia.
Qed.

Lemma admit_recipients_Ok room sender rs :
  admit_recipients room sender = Ok rs →
  Forall2 (λ m cr, cr.1 = mem_code_id m ∧
             next_delivery_revision room (mem_code_id m) = Ok cr.2)
    (filter (λ m, mem_active m = true ∧ mem_code_id m ≠ sender)
       (btree_values (room_members room))) rs ∧
  Forall (λ cr, ∀ gap, room_expired_sender_gaps room !! (cr.1, sender) = Some gap →
            gap ≤ MAX_RATCHET_BACK_HISTORY) rs.
Proof.
  unfold admit_recipients. intros. run_ok. split.
  - apply collect_Ok in H. eapply Forall2_impl; [exact H|].
    intros m cr Hm. simpl in Hm. run_ok. simplify_eq/=. done.
  - apply Forall_forall. intros cr Hcr gap Hgap. apply not_true_iff_false in H0.
    destruct (decide (gap ≤ MAX_RATCHET_BACK_HISTORY)) as [|Hn]; [done|].
    destruct H0. apply existsb_exists. exists cr. rewrite <- list_elem_of_In, Hgap.
    split; [done|]. apply bool_decide_eq_true. lia.
Qed.

Lemma admit_recipients_code room sender rs c :
  admit_recipients room sender = Ok rs → c ∈ rs.*1 → is_code (room_members room) c.
Proof.
  intros [H _]%admit_recipients_Ok Hc.
  apply list_elem_of_fmap in Hc as (cr & -> & Hin). apply list_elem_of_lookup in Hin as [i Hi].
  destruct (Forall2_lookup_r _ _ _ _ _ H Hi) as (m & Hm & -> & _).
  apply list_elem_of_lookup_2, list_elem_of_filter in Hm as [_ Hm].
  apply elem_of_btree_values in Hm as [u Hu]. by exists u, m.
Qed.

Lemma admit_guard_Ok now ttl sender mid gid epoch rev dig room e cur u :
  admit_guard now ttl sender mid gid epoch rev dig room = Ok (e, cur, u) →
  room_group_id room = gid ∧ room_epoch room = epoch ∧ room_membership_digest room = dig ∧
  queue_of room sender = [] ∧
  (∀ k p, room_pending_applications room !! k = Some p → pa_sender_code_id p ≠ sender) ∧
  room_pending_transition room = None ∧
  application_expiry now ttl (room_policy room) = Ok e ∧
  room_member_revisions room !! sender = Some cur ∧ rev = cur + 1 ∧ rev ≤ u64_MAX ∧
  (∃ m, find_active room sender = Some m ∧ u = mem_username m) ∧
  room_pending_applications room !! mid = None ∧
  has_replay (ReplayKey.application mid) room = false.
Proof.
  unfold admit_guard, validate_current_metadata. intros. run_ok. split_bools. checked.
  repeat match goal with H : ¬ (_ ≠ _) |- _ => apply dec_stable in H end.
  repeat match goal with H : ¬ is_Some _ |- _ => apply eq_None_not_Some in H end.
  simplify_eq. split_and!; try done; try lia; [|eauto].
  intros k p Hk Hs. match goal with H : any_value _ _ = false |- _ =>
    apply any_value_false with (k := k) (v := p) in H; [|done] end.
  split_bools. congruence.
Qed.
End admission.

(** ** Admission *)

Lemma at_key_nonneg {K V} `{Countable K} (f : V → Z) k (m : gmap K V) :
  (∀ v, 0 ≤ f v) → 0 ≤ at_key f k m.
Proof. intros Hf. unfold at_key. destruct (m !! k); auto with lia. Qed.

Section admit_ok.
Context {HO : HashOrder}.

Lemma install_application_ok id r sender adm cur now ds roster db sb pb :
  room_ok id r → is_code (room_members r) sender →
  (∀ d, d ∈ ds → is_code (room_members r) (pd_recipient_code_id d)) →
  (∀ d, d ∈ ds → pd_room_id d = id) →
  len (aa_state_envelope adm) + roster_bytes_of roster ≤ MAX_STATE_BYTES →
  (∀ k p, room_pending_applications r !! k = Some p → pa_sender_code_id p ≠ sender) →
  room_pending_transition r = None →
  room_ok id (install_application r sender adm cur now ds roster db sb pb).
Proof.
  intros Hok Hs Hds Hroom Hsz Hnp Hnt. destruct_ok Hok. constructor; simpl; try done; try congruence.
  - intros c. rewrite <- Hrev. destruct (decide (sender = c)) as [<-|].
    + rewrite lookup_insert_eq. split; [|by eauto]. intros _. by apply Hrev.
    + by rewrite lookup_insert_ne.
  - intros c [?|(d & Hd & <-)]%push_deliveries_keys; auto.
  - intros c s. destruct (decide (sender = c)) as [<-|].
    + rewrite lookup_insert_eq. intros [= <-]. unfold snapshot_bytes_of. simpl.
      unfold SNAPSHOT_BOUND, MAX_STATE_BYTES in *. lia.
    + rewrite lookup_insert_ne by done. eauto.
  - intros k p. destruct (decide (aa_message_id adm = k)) as [<-|].
    + rewrite lookup_insert_eq. intros [= <-]. simpl. split_and!; [done|done| |eauto].
      by rewrite lookup_insert_eq.
    + rewrite lookup_insert_ne by done. intros Hk. destruct (Hpend _ _ Hk) as (?&?&?&?).
      split_and!; try done. rewrite lookup_insert_is_Some'. auto.
  - intros k1 k2 p1 p2.
    destruct (decide (aa_message_id adm = k1)) as [<-|],
      (decide (aa_message_id adm = k2)) as [<-|];
      rewrite ?lookup_insert_eq, ?lookup_insert_ne by done; intros; simplify_eq/=; try done.
    + by exfalso; eapply Hnp.
    + by exfalso; eapply Hnp.
    + by eapply Hsend.
  - by apply push_routes.
Qed.

Lemma install_application_measures r sender adm cur now ds roster db sb pb :
  room_pending_applications r !! aa_message_id adm = None →
  let r' := install_application r sender adm cur now ds roster db sb pb in
  m_pending_count r' = m_pending_count r + 1 ∧
  m_pending_bytes r' = m_pending_bytes r + len (aa_ciphertext adm)
    + len (aa_authenticated_data adm) + slen (aa_message_id adm) ∧
  m_snapshot_count r' = m_snapshot_count r
    + (if contains_key sender (room_snapshots r) then 0 else 1) ∧
  map_sum snapshot_bytes_of (room_snapshots r')
    = map_sum snapshot_bytes_of (room_snapshots r)
      - at_key snapshot_bytes_of sender (room_snapshots r)
      + (len (aa_state_envelope adm) + roster_bytes_of roster) ∧
  m_snapshot_bytes r' = m_snapshot_bytes r
    - at_key snapshot_bytes_of sender (room_snapshots r)
    + (len (aa_state_envelope adm) + roster_bytes_of roster) ∧
  m_replay r' = m_replay r ∧ m_delivery_count r' = m_delivery_count r + len ds ∧
  m_delivery_bytes r' = m_delivery_bytes r + queue_bytes ds ∧ m_gaps r' = m_gaps r.
Proof.
  intros Hnone.
  unfold m_pending_count, m_pending_bytes, m_snapshot_count, m_snapshot_bytes, m_replay,
    m_delivery_count, m_delivery_bytes, m_gaps. simpl.
  rewrite map_len_insert, map_sum_insert_None, (proj2 (contains_key_false _ _) Hnone) by done.
  rewrite map_len_insert, map_sum_insert, push_deliveries_count, push_deliveries_bytes.
  repeat match goal with
  | |- context [snapshot_bytes_of (mkSnapshot ?a ?b ?c ?d ?e ?f ?g ?h ?i ?j)] =>
      change (snapshot_bytes_of (mkSnapshot a b c d e f g h i j))
        with (len g + roster_bytes_of h)
  | |- context [pending_bytes_of (mkPendingApplication ?a ?b ?c ?d)] =>
      change (pending_bytes_of (mkPendingApplication a b c d))
        with (len (aa_ciphertext a) + len (aa_authenticated_data a) + slen (aa_message_id a))
  end.
  destruct (contains_key sender _); split_and!; lia.
Qed.

Lemma admit_keeps now sender platform id mid gid epoch rev dig ct ad env self :
  authority_ok self →
  keeps self (admit_application_for_platform now sender platform id mid gid epoch rev dig
                ct ad env self).2.
Proof.
  intros Hok. apply after_prune_keeps; [done|]. clear self Hok.
  intros self a self' Hg Hf. unfold admit_room, get_room in Hf. run_ok.
  destruct x1 as [[e cur] u]. run_ok. destruct x1 as [[pb gpc] gpb]. run_ok.
  destruct x1 as [[[roster sb] gsc] gsb]. run_ok. destruct x2 as [[db gdc] gdb]. run_ok.
  simplify_eq. rename x0 into r, x1 into rs.
  match goal with H : rooms self !! id = Some r |- _ => rename H into Hr end.
  match goal with H : admit_guard _ _ _ _ _ _ _ _ _ = _ |- _ =>
    apply admit_guard_Ok in H as (_&_&_&_&Hnp&Hnt&_&_&_&_&(m & Hm & _)&Hnone&_) end.
  match goal with H : admit_pending _ _ _ _ _ = _ |- _ =>
    apply admit_pending_Ok in H as (?&?&?&?&?&?&?) end.
  match goal with H : admit_snapshot _ _ _ _ = _ |- _ =>
    apply admit_snapshot_Ok in H as (?&?&?&?&?&?&?) end.
  match goal with H : admit_deliveries _ _ _ = _ |- _ =>
    apply admit_deliveries_Ok in H as (?&?&?&?&?&?) end.
  match goal with H : admit_recipients _ _ = _ |- _ => rename H into Hrs end.
  destruct (good_room _ _ _ Hg Hr) as [Hrok (Hx1 & Hx2 & Hx3)]. destruct (Hg) as [Ha He].
  set (adm := mkAdmission _ _ _ _ _ _ _ _ _ _ _ _ _) in *.
  set (ds := _ <$> rs) in *.
  destruct (install_application_measures r sender adm cur now ds roster db sb pb Hnone)
    as (E1&E2&E3&E3'&E4&E5&E6&E7&E8).
  eapply update_keeps with (id := id); [done|reflexivity|done| | | |].
  - apply install_application_ok; try done; [by eapply find_active_code| | |].
    + intros d Hd. apply list_elem_of_fmap in Hd as (cr & -> & Hcr).
      eapply admit_recipients_code; [done|]. apply list_elem_of_fmap. eauto.
    + by intros d (cr & -> & _)%list_elem_of_fmap.
    + simpl in *. lia.
  - split_and!;
      [refine (eq_trans _ (eq_sym E2))|refine (eq_trans _ (eq_sym E3'))
      |refine (eq_trans _ (eq_sym E7))]; simpl in *; lia.
  - destruct He. constructor; unfold moved, at_key; rewrite Hr; simpl in *; lia.
  - destruct Ha, He. constructor; unfold moved, at_key; rewrite Hr; simpl in *; lia.
Qed.
End admit_ok.

(** ** Trimming after a commit *)

Lemma all_trimmed_sum R R' m :
  all_trimmed R R' → (∀ r ids, m (set_room_replay_ids ids r) = m r) →
  map_sum m R' = map_sum m R.
Proof.
  intros HT Hm. symmetry. apply map_sum_Forall2. eapply map_Forall2_impl; [exact HT|].
  intros id r r' [k ->]. by rewrite Hm.
Qed.

Section trim_ok.
Context {HO : HashOrder}.

(** Exact counters, except perhaps the replay count. *)
Definition exact_but_replay (self : RoomAuthority) : Prop :=
  exact (set_global_replay_count (total m_replay self) self).

Lemma exact_exact_but_replay self : exact self → exact_but_replay self.
Proof. intros []. by constructor. Qed.

Lemma trim_ok self :
  rooms_bounded (max_delivery_count self) (max_delivery_bytes self) (rooms self) →
  ∃ self', trim_replay_ids self = (Ok tt, self') ∧ authority_ok self' ∧
    config self' = config self ∧ all_trimmed (rooms self) (rooms self') ∧
    (exact_but_replay self → exact self').
Proof.
  intros HB. destruct (trim_replay_ids_spec self) as (R' & -> & HT & HR); [by destruct HB|].
  eexists. split_and!; [done| |done|done|].
  - apply authority_bounded. split; [|done]. simpl. destruct HB.
    constructor; try (rewrite (all_trimmed_sum _ _ _ HT) by done; done); try done; [|limits].
    intros id r' Hr'. destruct (all_trimmed_lookup _ _ _ _ HT Hr') as (r & Hr & Ht).
    apply trimmed_sweeps in Ht as (_ & _ & Ht). by apply Ht, rb_ok.
  - intros []. constructor; simpl in *;
      try (etrans; [eassumption|]; unfold total; simpl;
           by rewrite (all_trimmed_sum _ _ _ HT)); [|done].
    intros id r' Hr'. destruct (all_trimmed_lookup _ _ _ _ HT Hr') as (r & Hr & k & ->).
    by apply ex_rooms in Hr.
Qed.

(** It writes only the rooms and the replay count. *)
Lemma trim_ok_shape self self' :
  total m_replay self ≤ usize_MAX → trim_replay_ids self = (Ok tt, self') →
  self' = set_global_replay_count (map_sum m_replay (rooms self'))
            (set_rooms (rooms self') self).
Proof.
  intros Hle E. destruct (trim_replay_ids_spec self Hle) as (R' & E' & _).
  rewrite E' in E. injection E as <-. done.
Qed.
End trim_ok.

(** ** Commit *)

Lemma push_replay_len e ids :
  len ids ≤ MAX_REPLAY_IDS → len (push_replay e ids) ≤ MAX_REPLAY_IDS.
Proof.
  unfold push_replay, MAX_REPLAY_IDS. intros. rewrite len_app, len_cons, len_nil.
  case_decide; destruct ids as [|x ids]; simpl; rewrite ?len_cons, ?len_nil in *; lia.
Qed.
Lemma push_replay_len_le e ids : len (push_replay e ids) ≤ len ids + 1.
Proof.
  unfold push_replay. rewrite len_app, len_cons, len_nil.
  case_decide; destruct ids as [|x ids]; simpl; rewrite ?len_cons, ?len_nil in *; lia.
Qed.

Section commit_ok.
Context {HO : HashOrder}.

(** The room after a commit. *)
Definition committed (now : Z) (mid : string) (b : Z) (r : RelayRoom) : RelayRoom :=
  set_room_replay_ids (push_replay (ReplayKey.application mid, now) (room_replay_ids r))
    (set_room_pending_bytes b
       (set_room_pending_applications (delete mid (room_pending_applications r)) r)).

Lemma commit_room_Ok now id mid self self' :
  commit_room now id mid self = Ok self' →
  ∃ r p, rooms self !! id = Some r ∧ room_pending_applications r !! mid = Some p ∧
    has_replay (ReplayKey.application mid) r = false ∧
    let b := len (aa_ciphertext (pa_admission p))
             + len (aa_authenticated_data (pa_admission p)) + slen mid in
    self' = set_global_pending_bytes (global_pending_bytes self - b)
              (set_global_pending_count (global_pending_count self - 1)
                 (put_room id (committed now mid (room_pending_bytes r - b) r) self)).
Proof.
  unfold commit_room, get_room, admission_bytes. intros. run_ok. checked.
  match goal with H : checked_add_all _ _ = _ |- _ => apply checked_add_all_Some in H as -> end.
  eexists _, _. split_and!; try done. unfold committed. simpl.
  by rewrite !Z.add_0_r, !Z.add_assoc.
Qed.

Lemma committed_ok now mid b id r :
  room_ok id r → room_ok id (committed now mid b r).
Proof.
  intros Hok. destruct_ok Hok. constructor; simpl; try done.
  - intros k p [_ Hk]%lookup_delete_Some. eauto.
  - intros k1 k2 p1 p2 [_ ?]%lookup_delete_Some [_ ?]%lookup_delete_Some. eauto.
  - by apply push_replay_len.
  - intros t Ht. rewrite (Hexcl t Ht). apply delete_empty.
Qed.

Lemma put_committed_bounded now id mid b r p self :
  authority_ok self → rooms self !! id = Some r →
  room_pending_applications r !! mid = Some p →
  rooms_bounded (max_delivery_count self) (max_delivery_bytes self)
    (<[id := committed now mid b r]> (rooms self)).
Proof.
  intros Hok Hr Hp. pose proof Hok as [HB HR]%authority_bounded. destruct HB.
  assert (map_len (delete mid (room_pending_applications r))
          = map_len (room_pending_applications r) - 1) as El.
  { rewrite map_len_delete. unfold contains_key. by rewrite Hp. }
  pose proof (push_replay_len_le (ReplayKey.application mid, now) (room_replay_ids r)).
  pose proof (pending_bytes_nonneg p).
  constructor; try done; rewrite ?map_sum_insert; unfold at_key; rewrite ?Hr;
    unfold total in HR; try lia.
  - intros id' r'. destruct (decide (id = id')) as [<-|].
    + rewrite lookup_insert_eq. intros [= <-]. apply committed_ok. eauto.
    + rewrite lookup_insert_ne by done. eauto.
  - unfold m_pending_count at 2 3. simpl. lia.
  - unfold m_pending_bytes at 2 3. simpl. rewrite map_sum_delete_at. unfold at_key.
    rewrite Hp. lia.
  - unfold m_snapshot_count at 2 3. simpl. lia.
  - unfold m_replay at 2 3. simpl. limits.
  - unfold m_delivery_count at 2 3. simpl. lia.
  - unfold m_delivery_bytes at 2 3. simpl. lia.
  - unfold m_gaps at 2 3. simpl. lia.
Qed.

Lemma commit_ok now id mid self :
  authority_ok self →
  authority_ok (commit_application now id mid self).2 ∧
  config (commit_application now id mid self).2 = config self ∧
  (exact self → exact (commit_application now id mid self).2).
Proof.
  intros Hok. unfold commit_application.
  destruct (commit_room now id mid self) as [s|e] eqn:E; [|done].
  apply commit_room_Ok in E as (r & p & Hr & Hp & _ & Es). simpl in Es.
  set (b := len _ + _ + _) in Es.
  destruct (trim_ok s) as (s' & -> & Hok' & Hc & _ & Hx).
  { subst s. simpl. by eapply put_committed_bounded. }
  split_and!; simpl; [done|by rewrite Hc, Es|]. intros He. apply Hx. clear Hx Hok' Hc s'.
  destruct (ok_pending _ _ (ok_rooms _ Hok _ _ Hr) _ _ Hp) as (Hmid & _).
  assert (pending_bytes_of p = b) as Hb by (unfold pending_bytes_of; by rewrite Hmid).
  assert (map_sum pending_bytes_of (delete mid (room_pending_applications r))
          = m_pending_bytes r - b) as Eb.
  { rewrite map_sum_delete_at. unfold at_key. rewrite Hp, Hb. done. }
  destruct (ex_rooms _ He _ _ Hr) as (Hx1 & Hx2 & Hx3).
  eapply update_exact with (id := id); [done|by rewrite Es| |].
  - split_and!; [|done|done]. unfold m_pending_bytes at 1. simpl. rewrite Eb. lia.
  - subst s. destruct He. constructor; simpl; try (by apply (total_insert _ self));
      solve_moved Hr; try lia.
    + rewrite map_len_delete. unfold contains_key. rewrite Hp. lia.
    + rewrite Eb. unfold m_pending_bytes. lia.
Qed.
End commit_ok.

(** ** Rollback *)

Lemma update_sweeps self self' id r r' :
  authority_ok self → rooms self !! id = Some r → sweeps r r' →
  rooms self' = <[id := r']> (rooms self) → config self' = config self → authority_ok self'.
Proof.
  intros Hok Hr (_ & HG & HS) ER EC.
  destruct (HS id (ok_rooms _ Hok _ _ Hr)) as [Hr' (?&?&?&?&?&?)].
  eapply update_ok with (id := id); [done|done|done|done|].
  destruct Hok. constructor; unfold moved, at_key; rewrite Hr; lia.
Qed.

(** The deliveries of a message, in one queue. *)
Definition of_message (mid : string) (q : list PendingDelivery) : list PendingDelivery :=
  filter (λ d, pd_message_id d = mid) q.

Lemma message_split mid q :
  len (filter (λ d, pd_message_id d ≠ mid) q) = len q - len (of_message mid q) ∧
  queue_bytes (filter (λ d, pd_message_id d ≠ mid) q)
    = queue_bytes q - queue_bytes (of_message mid q).
Proof.
  unfold of_message. induction q as [|d q [IHl IHb]]; [done|].
  destruct (decide (pd_message_id d = mid)) as [E|E].
  - rewrite filter_cons_False, filter_cons_True by (done || by intros []).
    rewrite !len_cons, !queue_bytes_cons. lia.
  - rewrite filter_cons_True, filter_cons_False by done.
    rewrite !len_cons, !queue_bytes_cons. lia.
Qed.

Lemma map_sum_sub {K V} `{Countable K} (f g : V → Z) (m : gmap K V) :
  map_sum (λ v, f v - g v) m = map_sum f m - map_sum g m.
Proof.
  induction m as [|k v m Hk IH] using map_ind; [by rewrite !map_sum_empty|].
  rewrite !map_sum_insert_None, IH by done. lia.
Qed.

(** What the queues lose when a message is rolled back. *)
Lemma without_sums (mid : string) (D D' : gmap CodeId (list PendingDelivery)) :
  map_Forall2 (λ _, without mid) D D' →
  map_sum len D' = map_sum len D - map_sum (len ∘ of_message mid) D ∧
  map_sum queue_bytes D' = map_sum queue_bytes D - map_sum (queue_bytes ∘ of_message mid) D.
Proof.
  intros HF. rewrite <- !map_sum_sub. split; symmetry; apply map_sum_Forall2;
    (eapply map_Forall2_impl; [exact HF|]); intros c q q' [Hl Hb]%without_measures; simpl.
  - rewrite Hl. symmetry. apply message_split.
  - rewrite Hb. symmetry. apply message_split.
Qed.

Section rollback_ok.
Context {HO : HashOrder}.

Lemma drop_empty_sum (f : list PendingDelivery → Z) (D : gmap CodeId (list PendingDelivery)) :
  f [] = 0 → map_sum f (retain (λ _ q, bool_decide (q ≠ [])) D) = map_sum f D.
Proof.
  intros Hf. apply map_sum_retain. intros c q _ Hq. split_bools.
  apply dec_stable in Hq. by subst.
Qed.

Lemma rollback_queues_thinner m cs r :
  ∃ D', (rollback_queues m cs r).2 = set_room_deliveries D' r ∧
        thinner D' (room_deliveries r).
Proof.
  revert r. induction cs as [|c cs IH]; intros r; cbn [rollback_queues].
  { exists (room_deliveries r). split; [by destruct r|done]. }
  unfold mbind, ST_bind, modify. destruct (drop_message_thinner m c r) as (D1 & -> & H1).
  destruct (compact_thinner c (set_room_deliveries D1 r)) as (D2 & E2 & H2).
  destruct (compact_delivery_revisions c _) as [[u|e] r2]; simpl in E2; subst r2.
  - destruct (IH (set_room_deliveries D2 (set_room_deliveries D1 r))) as (D3 & -> & H3).
    exists D3. split; [done|]. simpl in *. etrans; [exact H3|]. by etrans.
  - exists D2. split; [done|]. by etrans.
Qed.

(** The room a successful rollback leaves. *)
Definition rolled_back (m : string) (plan : rollback_plan)
    (D' : gmap CodeId (list PendingDelivery)) (r : RelayRoom) : RelayRoom :=
  let p := rb_pending plan in
  set_room_pending_bytes (rb_room_pending_bytes plan)
    (set_room_snapshot_bytes (rb_room_snapshot_bytes plan)
       (restore_snapshot (pa_sender_code_id p) (pa_previous_snapshot p)
          (set_room_member_revisions
             (<[pa_sender_code_id p := pa_previous_sender_revision p]> (room_member_revisions r))
             (set_room_delivery_bytes (rb_room_delivery_bytes plan)
                (set_room_deliveries (retain (λ _ q, bool_decide (q ≠ [])) D')
                   (set_room_pending_applications
                      (delete m (room_pending_applications r)) r)))))).

Lemma rollback_room_cases m plan p r :
  room_pending_applications r !! m = Some p → rb_pending plan = p →
  match rollback_room m plan r with
  | (Ok _, r') => ∃ D', r' = rolled_back m plan D' r ∧ thinner D' (room_deliveries r) ∧
                    map_Forall2 (λ _, without m) (room_deliveries r) D'
  | (Err _, r') => ∃ D', r' = set_room_deliveries D'
                      (set_room_pending_applications (delete m (room_pending_applications r)) r)
                    ∧ thinner D' (room_deliveries r)
  end.
Proof.
  intros Hp Hplan. unfold rollback_room. rewrite Hp.
  set (r1 := set_room_pending_applications _ r).
  destruct (rollback_queues_thinner m (hash_keys (room_deliveries r1)) r1) as (D' & ED & HD).
  unfold mbind at 1, ST_bind at 1.
  destruct (rollback_queues m _ r1) as [[[]|e] r2] eqn:E; simpl in ED; subst r2.
  - apply rollback_all_queues in E as (D2 & E2 & HF). exists D'. split; [done|].
    split; [exact HD|]. assert (D2 = D') as -> by (by apply (f_equal room_deliveries) in E2).
    done.
  - exists D'. done.
Qed.
End rollback_ok.

Section rollback_totals.
Context {HO : HashOrder}.

Definition restored_bytes (p : PendingApplication) : Z :=
  match pa_previous_snapshot p with Some s => snapshot_bytes_of s | None => 0 end.
Definition restored_count (p : PendingApplication) : Z :=
  match pa_previous_snapshot p with Some _ => 1 | None => 0 end.

Lemma filter_concat_bytes (m : string) (D : gmap CodeId (list PendingDelivery)) :
  queue_bytes (filter (λ d, pd_message_id d = m) (concat (hash_values D)))
    = map_sum (queue_bytes ∘ of_message m) D.
Proof.
  rewrite <- map_sum_hash. induction (hash_values D) as [|q qs IH]; [done|].
  cbn [concat]. by rewrite filter_app, queue_bytes_app, IH, fmap_cons, sumZ_cons.
Qed.

Lemma rollback_totals_Ok id m self plan :
  rollback_totals id m self = Ok plan →
  ∃ r p, rooms self !! id = Some r ∧ room_pending_applications r !! m = Some p ∧
    let D := room_deliveries r in
    let b := len (aa_ciphertext (pa_admission p))
             + len (aa_authenticated_data (pa_admission p)) + slen m in
    let rc := map_sum (len ∘ of_message m) D in
    let rb := map_sum (queue_bytes ∘ of_message m) D in
    let cb := at_key snapshot_bytes_of (pa_sender_code_id p) (room_snapshots r) in
    let cc := if contains_key (pa_sender_code_id p) (room_snapshots r) then 1 else 0 in
    plan = mkRollback p (room_pending_bytes r - b) (room_delivery_bytes r - rb)
      (room_snapshot_bytes r - cb + restored_bytes p)
      (global_pending_count self - 1) (global_pending_bytes self - b)
      (global_delivery_count self - rc) (global_delivery_bytes self - rb)
      (global_snapshot_count self - cc + restored_count p)
      (global_snapshot_bytes self - cb + restored_bytes p).
Proof.
  unfold rollback_totals, get_room, admission_bytes. intros H0. run_ok.
  match goal with H : match pa_previous_snapshot ?p with _ => _ end = Ok ?v |- _ =>
    assert (v = restored_bytes p) as -> by
      (unfold restored_bytes; destruct (pa_previous_snapshot p);
         [by apply snapshot_size_exact|by injection H as ->]) end.
  checked.
  repeat match goal with
  | H : checked_add_all _ _ = Some _ |- _ => apply checked_add_all_Some in H as ->
  | H : stored_snapshot_bytes _ _ = Ok _ |- _ => apply stored_snapshot_bytes_exact in H as ->
  | H : delivery_bytes _ = Ok _ |- _ => apply delivery_bytes_exact in H as ->
  | H : checked_sum _ = Some _ |- _ =>
      apply checked_sum_Some in H as ->
  end.
  eexists _, _. split_and!; [done|done|]. rewrite filter_concat_bytes.
  change (λ q, len (filter (λ d, pd_message_id d = m) q)) with (len ∘ of_message m).
  rewrite map_sum_hash. unfold restored_count. simpl.
  by rewrite !Z.add_0_r, !Z.add_assoc.
Qed.

Lemma restore_snapshot_spec c prev r :
  ∃ S', restore_snapshot c prev r = set_room_snapshots S' r ∧
    map_len S' = map_len (room_snapshots r)
      - (if contains_key c (room_snapshots r) then 1 else 0)
      + match prev with Some _ => 1 | None => 0 end ∧
    map_sum snapshot_bytes_of S' = map_sum snapshot_bytes_of (room_snapshots r)
      - at_key snapshot_bytes_of c (room_snapshots r)
      + match prev with Some s => snapshot_bytes_of s | None => 0 end.
Proof.
  unfold restore_snapshot. destruct prev as [s|]; eexists; (split; [done|]).
  - rewrite map_len_insert, map_sum_insert. destruct (contains_key _ _); split; lia.
  - rewrite map_len_delete, map_sum_delete_at. lia.
Qed.

Lemma rollback_ok id m self :
  authority_ok self →
  authority_ok (rollback_application id m self).2 ∧
  config (rollback_application id m self).2 = config self ∧
  (exact self → is_ok (rollback_application id m self).1 = true →
   exact (rollback_application id m self).2).
Proof.
  intros Hok. unfold rollback_application.
  destruct (rollback_totals id m self) as [plan|e] eqn:E; simpl; [|done].
  apply rollback_totals_Ok in E as (r & p & Hr & Hp & Hplan). unfold get_room.
  rewrite Hr. simpl. pose proof (rollback_room_cases m plan p r Hp) as HC.
  destruct (rollback_room m plan r) as [[u|e] r'].
  - destruct HC as (D' & -> & HT & HF); [by rewrite Hplan|]. split_and!; [|done|].
    + eapply update_sweeps; [exact Hok|exact Hr| |done|done]. unfold rolled_back.
      etrans; [|apply sweeps_pending_bytes]. etrans; [|apply sweeps_snapshot_bytes].
      rewrite Hplan. apply undo_sweeps; [done|]. etrans; [apply thinner_retain|done].
    + intros He _. destruct (ex_rooms _ He _ _ Hr) as (Hx1 & Hx2 & Hx3).
      destruct (ok_pending _ _ (ok_rooms _ Hok _ _ Hr) _ _ Hp) as (Hmid & _).
      destruct (without_sums m _ _ HF) as [Hl Hb].
      pose proof (drop_empty_sum len D' eq_refl) as Hl'.
      pose proof (drop_empty_sum queue_bytes D' eq_refl) as Hb'.
      unfold rolled_back.
      match goal with |- context [restore_snapshot ?a ?b ?r0] =>
        destruct (restore_snapshot_spec a b r0) as (S' & ES & HSl & HSb);
        rewrite ES end. simpl in HSl, HSb.
      assert (map_sum pending_bytes_of (delete m (room_pending_applications r))
        = m_pending_bytes r - (len (aa_ciphertext (pa_admission p))
             + len (aa_authenticated_data (pa_admission p)) + slen m)) as Eb.
      { rewrite map_sum_delete_at. unfold at_key. rewrite Hp, <- Hmid. done. }
      assert (map_len (delete m (room_pending_applications r))
        = m_pending_count r - 1) as El.
      { rewrite map_len_delete. unfold contains_key. by rewrite Hp. }
      cbv zeta in Hplan. subst plan. cbn [rb_pending] in *.
      unfold restored_bytes, restored_count in *.
      eapply update_exact with (id := id); [done|done| |].
      * unfold room_exact, m_pending_bytes, m_delivery_bytes in *. simpl in *. lia.
      * destruct He. constructor; simpl in *; solve_moved Hr; simpl in *;
          unfold at_key, m_pending_count, m_pending_bytes in *; lia.
  - destruct HC as (D' & -> & HT); [by rewrite Hplan|]. split_and!; [|done|done].
    eapply update_sweeps; [exact Hok|exact Hr| |done|done].
    etrans; [apply sweeps_drop_pending|]. by apply sweeps_deliveries.
Qed.
End rollback_totals.
