(* ===== verification/RoomSnapshotFacts.v ===== *)
(** * Snapshots keep the invariant *)

From S2P Require Import Prelude RoomModel RoomValidation RoomDelivery RoomAuthority.
From S2P Require Import RoomMembership RoomSnapshot RoomSizes.
From S2P Require Import RoomInvariant RoomSweep RoomUpdate RoomApplicationFacts.

Lemma find_username_Some room c u :
  find_username room c = Some u → ∃ m, room_members room !! u = Some m ∧ mem_code_id m = c.
Proof.
  unfold find_username. intros H. apply fmap_Some in H as ([i [u' m]] & H & ->). simpl.
  apply list_find_Some in H as (Hl & Hc & _). exists m. split; [|done].
  apply elem_of_btree_iter. by eapply list_elem_of_lookup_2.
Qed.

(** Activating a member changes no code. *)
Lemma activate_lookup (M : gmap string Member) u u' m' :
  alter (set_mem_active true) u M !! u' = Some m' →
  ∃ m, M !! u' = Some m ∧ mem_code_id m' = mem_code_id m ∧
    mem_stable_identity m' = mem_stable_identity m ∧ mem_username m' = mem_username m ∧
    (mem_active m = true → mem_active m' = true) ∧ (u' ≠ u → m' = m).
Proof.
  destruct (decide (u = u')) as [<-|].
  - rewrite lookup_alter_eq. intros (m & Hm & ->)%fmap_Some. exists m. done.
  - rewrite lookup_alter_ne by done. intros Hm. exists m'. done.
Qed.

Lemma activate_codes (M : gmap string Member) u c :
  is_code (alter (set_mem_active true) u M) c ↔ is_code M c.
Proof.
  unfold is_code. split.
  - intros (u' & m' & Hm' & <-). apply activate_lookup in Hm' as (m & Hm & E & _).
    exists u', m. by rewrite E.
  - intros (u' & m & Hm & <-). destruct (decide (u = u')) as [<-|].
    + exists u, (set_mem_active true m). by rewrite lookup_alter_eq, Hm.
    + exists u', m. by rewrite lookup_alter_ne.
Qed.

Lemma retire_gaps_len member retired gaps :
  map_len (retire_gaps member retired gaps) ≤ map_len gaps.
Proof.
  unfold retire_gaps.
  assert (∀ l (g : gmap (CodeId * CodeId) Z),
    map_len (foldl (λ g sender, delete (member, sender) g) g l) ≤ map_len g) as Hd.
  { induction l as [|s l IH]; intros g; simpl; [done|]. etrans; [apply IH|].
    rewrite map_len_delete. destruct (contains_key _ _); lia. }
  destruct (existsb _ _); [etrans; [apply map_len_retain_le|]|]; apply Hd.
Qed.

Section snapshot_ok.
Context {HO : HashOrder}.

Lemma snapshot_budget_Ok self room c env roster n t :
  snapshot_budget self room c env roster n = Ok t →
  let prev := at_key snapshot_bytes_of c (room_snapshots room) in
  let next := len env + roster_bytes_of roster in
  let rb := queue_bytes (take n (queue_of room c)) in
  let nc := if contains_key c (room_snapshots room) then 0 else 1 in
  t = mkTotals (room_delivery_bytes room - rb) (room_snapshot_bytes room - prev + next)
        (global_delivery_count self - Z.of_nat n) (global_delivery_bytes self - rb)
        (global_snapshot_count self + nc) (global_snapshot_bytes self - prev + next) ∧
  prev ≤ room_snapshot_bytes room ∧ room_snapshot_bytes room - prev + next ≤ MAX_STATE_BYTES ∧
  global_snapshot_count self + nc ≤ MAX_GLOBAL_STATE_SNAPSHOTS ∧
  global_snapshot_bytes self - prev + next ≤ MAX_GLOBAL_STATE_BYTES.
Proof.
  unfold snapshot_budget. intros H0. run_ok. clear H.
  match goal with H : over_budget _ _ || over_budget _ _ = false |- _ =>
    apply orb_false_iff in H as [? ?] end.
  repeat match goal with H : over_budget _ _ = false |- _ =>
    apply over_budget_false in H; destruct H as (? & ? & ?) end.
  checked. simplify_eq.
  repeat match goal with
  | H : stored_snapshot_bytes _ _ = Ok _ |- _ => apply stored_snapshot_bytes_exact in H as ->
  | H : delivery_bytes _ = Ok _ |- _ => apply delivery_bytes_exact in H as ->
  | H : roster_size _ = Ok _ |- _ => apply roster_size_exact in H as ->
  end.
  destruct (contains_key c (room_snapshots room)); simpl in *; split_and!; try lia; done.
Qed.

(** What a successful [snapshot_room] checked and installed. *)
Lemma snapshot_room_Ok now c id mid epoch rev dig env self s self' :
  snapshot_room now c id mid epoch rev dig env self = Ok (s, self') →
  ∃ r n roster t u, rooms self !! id = Some r ∧ is_code (room_members r) c ∧
    retire_count r c mid epoch rev dig = Ok n ∧
    check_checkpoint r c mid epoch rev dig env n = Ok tt ∧
    snapshot_roster r c epoch dig n = Ok roster ∧
    snapshot_budget self r c env roster n = Ok t ∧
    find_username r c = Some u ∧ (n ≤ length (queue_of r c))%nat ∧
    s = mkSnapshot id mid c epoch rev dig env roster now u64_MAX ∧
    self' = set_global_snapshot_bytes (st_global_snapshot_bytes t)
      (set_global_snapshot_count (st_global_snapshot_count t)
        (set_global_delivery_bytes (st_global_delivery_bytes t)
          (set_global_delivery_count (st_global_delivery_count t)
            (put_room id (install_snapshot r c u rev n s t) self)))).
Proof.
  unfold snapshot_room, get_room. intros H0. run_ok. simplify_eq.
  match goal with H : negb (is_member_of _ _) = false |- _ =>
    apply negb_false_iff, is_member_of_spec in H end.
  repeat match goal with x : () |- _ => destruct x end.
  eexists _, _, _, _, _. split_and!; try done.
  match goal with H : (if decide (0 < ?n)%nat then _ else _) = _ |- _ =>
    destruct (decide (0 < n)%nat) end; [|lia].
  run_ok. split_bools. unfold queue_of.
  match goal with H : room_deliveries _ !! c = Some _ |- _ => rewrite H end. simpl. lia.
Qed.

Lemma install_snapshot_ok id r c u rev n s t :
  room_ok id r → is_code (room_members r) c → snapshot_bytes_of s ≤ SNAPSHOT_BOUND →
  room_ok id (install_snapshot r c u rev n s t).
Proof.
  intros Hok Hc Hs. unfold install_snapshot. destruct_ok Hok.
  assert (∀ D, (if decide (0 < n)%nat
                then set_room_deliveries D (set_room_members
                       (alter (set_mem_active true) u (room_members r)) r)
                else set_room_members (alter (set_mem_active true) u (room_members r)) r)
    = set_room_deliveries (if decide (0 < n)%nat then D else room_deliveries r)
        (set_room_members (alter (set_mem_active true) u (room_members r)) r)) as E.
  { intros D. destruct (decide (0 < n)%nat); [done|by destruct r]. }
  simpl. rewrite E. clear E.
  constructor; simpl; try done.
  - destruct Hown as (u0 & m & Hu & Hm & ? & ?).
    destruct (decide (u = u0)) as [<-|].
    + exists u, (set_mem_active true m). by rewrite lookup_alter_eq, Hm.
    + exists u0, m. by rewrite lookup_alter_ne.
  - intros u1 u2 m1 m2 H1 H2 E.
    apply activate_lookup in H1 as (? & ? & ? & _), H2 as (? & ? & ? & _).
    eapply Hcodes; [done|done|congruence].
  - intros c'. rewrite activate_codes, <- Hrev. destruct (decide (c = c')) as [<-|].
    + rewrite lookup_insert_eq. split; [|by eauto]. intros _. by apply Hrev.
    + by rewrite lookup_insert_ne.
  - intros c' Hc'. apply activate_codes, Hdel. destruct (decide (0 < n)%nat); [|done].
    rewrite lookup_alter_is_Some in Hc'. done.
  - intros c' s'. destruct (decide (c = c')) as [<-|].
    + rewrite lookup_insert_eq. by intros [= <-].
    + rewrite lookup_insert_ne by done. eauto.
  - intros k j Hj. rewrite activate_codes. eauto.
  - intros k p Hk. destruct (Hpend _ _ Hk) as (?&?&?&?). rewrite activate_codes.
    split_and!; try done. rewrite lookup_insert_is_Some'. auto.
  - intros t0 Ht0. destruct (Hstage t0 Ht0) as (? & u0 & req & c0 & ? & ? & ? & Hone).
    split; [done|]. exists u0, req, c0. split_and!; try done. simpl.
    unfold one_sided in *. by rewrite dom_alter_L.
  - unfold map_len in *. by rewrite <- size_dom, dom_alter_L, size_dom.
  - intros u1 m1 H1. apply activate_lookup in H1 as (? & ? & _ & _ & -> & _). eauto.
  - intros u1 u2 m1 m2 H1 H2 E.
    apply activate_lookup in H1 as (? & ? & _ & ? & _), H2 as (? & ? & _ & ? & _).
    eapply Hident; [done|done|congruence].
  - intros c' q d. destruct (decide (0 < n)%nat); [|by apply Hroute].
    destruct (decide (c = c')) as [<-|]; [|rewrite lookup_alter_ne by done; by apply Hroute].
    rewrite lookup_alter_eq. destruct (room_deliveries r !! c) as [q0|] eqn:Hq0; [|done].
    intros [= <-] Hd. apply (Hroute c q0 d Hq0). rewrite <- (take_drop n q0).
    apply elem_of_app. by right.
Qed.

Lemma alter_drop_sums (D : gmap CodeId (list PendingDelivery)) c n q :
  D !! c = Some q →
  map_sum len (alter (drop n) c D) = map_sum len D - len (take n q) ∧
  map_sum queue_bytes (alter (drop n) c D) = map_sum queue_bytes D - queue_bytes (take n q).
Proof.
  intros Hq. rewrite <- (insert_id D c q Hq) at 1 3. rewrite !alter_insert_eq.
  rewrite !map_sum_insert. unfold at_key. rewrite Hq.
  assert (len (take n q) + len (drop n q) = len q) by (by rewrite <- len_app, take_drop).
  assert (queue_bytes (take n q) + queue_bytes (drop n q) = queue_bytes q)
    by (by rewrite <- queue_bytes_app, take_drop).
  lia.
Qed.

Lemma install_snapshot_measures r c u rev n s t :
  (n ≤ length (queue_of r c))%nat →
  let r' := install_snapshot r c u rev n s t in
  m_pending_count r' = m_pending_count r ∧ m_pending_bytes r' = m_pending_bytes r ∧
  m_snapshot_count r' = m_snapshot_count r
    + (if contains_key c (room_snapshots r) then 0 else 1) ∧
  map_sum snapshot_bytes_of (room_snapshots r')
    = map_sum snapshot_bytes_of (room_snapshots r)
      - at_key snapshot_bytes_of c (room_snapshots r) + snapshot_bytes_of s ∧
  m_snapshot_bytes r' = m_snapshot_bytes r
    - at_key snapshot_bytes_of c (room_snapshots r) + snapshot_bytes_of s ∧
  m_replay r' = m_replay r ∧
  m_delivery_count r' = m_delivery_count r - Z.of_nat n ∧
  m_delivery_bytes r' = m_delivery_bytes r - queue_bytes (take n (queue_of r c)) ∧
  m_gaps r' ≤ m_gaps r ∧
  room_pending_bytes r' = room_pending_bytes r ∧
  room_snapshot_bytes r' = st_room_snapshot_bytes t ∧
  room_delivery_bytes r' = st_room_delivery_bytes t.
Proof.
  intros Hn.
  assert (∀ D, room_deliveries (install_snapshot r c u rev n s t) = D →
    map_sum len D = map_sum len (room_deliveries r) - Z.of_nat n ∧
    map_sum queue_bytes D = map_sum queue_bytes (room_deliveries r)
      - queue_bytes (take n (queue_of r c))) as HD.
  { intros D <-. unfold install_snapshot. simpl. destruct (decide (0 < n)%nat) as [Hp|Hp]; simpl.
    - unfold queue_of in *. destruct (room_deliveries r !! c) as [q|] eqn:Hq; simpl in *; [|lia].
      destruct (alter_drop_sums _ _ n _ Hq) as [-> ->]. unfold len at 2.
      rewrite length_take. lia.
    - assert (n = 0%nat) as -> by lia. rewrite take_0. change (queue_bytes []) with 0. lia. }
  destruct (HD _ eq_refl) as [Hl Hb]. clear HD.
  unfold m_pending_count, m_pending_bytes, m_snapshot_count, m_snapshot_bytes, m_replay,
    m_delivery_count, m_delivery_bytes, m_gaps.
  unfold install_snapshot in *. simpl in *.
  pose proof (retire_gaps_len c (take n (queue_of r c)) (room_expired_sender_gaps r)).
  destruct (decide (0 < n)%nat); simpl in *; rewrite map_len_insert, map_sum_insert;
    destruct (contains_key c _); split_and!; lia.
Qed.

Lemma store_snapshot_keeps now c id mid epoch rev dig env self :
  authority_ok self →
  keeps self (store_snapshot now c id mid epoch rev dig env self).2.
Proof.
  intros Hok. unfold store_snapshot. destruct (prune_keeps now self Hok) as [Hg Hc].
  set (s0 := prune_expired now self) in *. clearbody s0.
  destruct (snapshot_room _ _ _ _ _ _ _ _ s0) as [[s s1]|e] eqn:E; simpl; [|done].
  apply snapshot_room_Ok in E
    as (r & n & roster & t & u & Hr & Hcode & _ & _ & _ & Hbud & _ & Hn & Es & E1).
  apply snapshot_budget_Ok in Hbud as (Et & ? & ? & ? & ?). cbv zeta in *.
  assert (snapshot_bytes_of s = len env + roster_bytes_of roster) as Hsz by (by rewrite Es).
  set (r' := install_snapshot r c u rev n s t) in *.
  destruct (install_snapshot_measures r c u rev n s t Hn)
    as (M1&M2&M3&M3'&M4&M5&M6&M7&M8&M9&M10&M11). fold r' in M1, M2, M3, M3', M4, M5, M6, M7, M8, M9, M10, M11.
  destruct (good_room _ _ _ Hg Hr) as [Hrok (Hx1 & Hx2 & Hx3)]. destruct (Hg) as [Ha He].
  pose proof (roster_bytes_nonneg roster). pose proof (len_nonneg env).
  pose proof (queue_bytes_nonneg (take n (queue_of r c))).
  assert (rooms s1 = <[id := r']> (rooms s0)) as ER by (by rewrite E1).
  assert (authority_ok s1) as Hok1.
  { eapply update_ok; [exact Ha|exact ER|by rewrite E1| |].
    - apply install_snapshot_ok; [done..|]. rewrite Hsz.
      unfold SNAPSHOT_BOUND, MAX_STATE_BYTES in *. lia.
    - destruct Ha, He. constructor; unfold moved, at_key; rewrite Hr; lia. }
  unfold mbind, ST_bind. rewrite recompute_gap_ok by (by destruct Hok1). simpl.
  split; [split|by rewrite E1, <- Hc].
  - by eapply authority_ok_ext, Hok1.
  - eapply update_exact; [exact He|exact ER| |].
    + split_and!; [lia|rewrite M3', M10, Et|rewrite M7, M11, Et];
        cbn [st_room_snapshot_bytes st_room_delivery_bytes]; lia.
    + destruct He. constructor; simpl; try (by apply (total_insert _ s0));
        rewrite E1; simpl; rewrite ?Et, (moved_at _ _ _ _ _ Hr); simpl; lia.
Qed.
End snapshot_ok.

(** ** The retired prefix *)

Lemma retire_loop_Ok expected revision rest count n :
  retire_loop expected revision rest count = Ok n →
  ∃ k, n = (count + k)%nat ∧ (0 < k ≤ length rest)%nat ∧
    expected + Z.of_nat k = revision + 1 ∧
    ∀ i d, (i < k)%nat → rest !! i = Some d → pd_revision d = expected + Z.of_nat i.
Proof.
  revert expected count. induction rest as [|d rest IH]; intros expected count; simpl; [done|].
  intros H. run_ok. split_bools. apply dec_stable in H.
  destruct (decide (expected = revision)) as [->|Hne].
  - run_ok. exists 1%nat. split_and!; try lia. intros [|i] d' Hi Hd; [|lia].
    simplify_eq/=. lia.
  - run_ok. checked. apply IH in H1 as (k & -> & Hk & Hr & Hd).
    exists (S k). split_and!; try lia. intros [|i] d' Hi Hd'; simplify_eq/=; [lia|].
    rewrite (Hd i d'); [lia|lia|done].
Qed.

(** Which deliveries a snapshot retires. *)
Lemma retire_count_Ok r c m e v d n :
  retire_count r c m e v d = Ok n →
  let cur := default 0 (room_member_revisions r !! c) in
  cur ≤ v ∧
  if member_active r c
  then Z.of_nat n = v - cur ∧ (n ≤ length (queue_of r c))%nat ∧
    (∀ i x, (i < n)%nat → queue_of r c !! i = Some x → pd_revision x = cur + 1 + Z.of_nat i) ∧
    (∀ i x, n = S i → queue_of r c !! i = Some x → pd_message_id x = m)
  else n = 1%nat ∧ v = cur ∧ ∃ w, head (queue_of r c) = Some w ∧ pd_revision w = v ∧
    pd_message_id w = m ∧ pd_epoch w = e ∧ pd_membership_digest w = d ∧
    has_welcome (pd_payload w) = true.
Proof.
  unfold retire_count. intros H. run_ok. split_bools.
  destruct (member_active r c); simpl in *.
  - destruct (decide _) as [Hlt|Hle].
    + run_ok. checked. split_bools.
      match goal with H : retire_loop _ _ _ _ = _ |- _ =>
        apply retire_loop_Ok in H as (k & -> & Hk & Hr & Hd) end.
      match goal with H : room_deliveries r !! c = Some ?q |- _ =>
        assert (queue_of r c = q) as Eq by (unfold queue_of; by rewrite H) end.
      rewrite Eq. split; [lia|]. split_and!; [lia|lia|intros; by apply Hd|].
      intros i y Hi Hy. match goal with H : ¬ (_ ≠ _) |- _ => apply dec_stable in H; rename H into Hm end.
      assert (0 + k - 1 = i)%nat as Ei by lia. rewrite Ei, Hy in Hm. by injection Hm.
    + run_ok. split; [lia|]. split_and!; [lia|lia|intros; lia|done].
  - run_ok. split; [lia|].
    match goal with H : check_welcome _ _ _ _ _ _ _ = _ |- _ => unfold check_welcome in H end.
    run_ok. split_bools.
    repeat match goal with H : ¬ (_ ≠ _) |- _ => apply dec_stable in H end.
    match goal with H : match pd_payload ?w with _ => _ end = _ |- _ =>
      destruct (pd_payload w) eqn:Hp; [|done] end.
    run_ok. split_bools. split_and!; [done|done|]. eexists. split_and!; try done.
    rewrite Hp. simpl. by apply bool_decide_eq_true.
Qed.

Lemma check_checkpoint_Ok r c m e v d env n x i :
  check_checkpoint r c m e v d env n = Ok tt → member_active r c = true →
  n = S i → queue_of r c !! i = Some x → pd_epoch x = e ∧ pd_membership_digest x = d.
Proof.
  unfold check_checkpoint, queue_of. intros H Ha -> Hx. rewrite Ha in H. cbn [negb] in H.
  rewrite decide_True in H by lia. run_ok. split_bools.
  repeat match goal with H : ¬ (_ ≠ _) |- _ => apply dec_stable in H end.
  destruct (room_deliveries r !! c); simplify_eq/=. rewrite Nat.sub_0_r in *. by simplify_eq.
Qed.

Lemma install_snapshot_queue r c u v n s t c' :
  queue_of (install_snapshot r c u v n s t) c'
    = if decide (c' = c) then drop n (queue_of r c) else queue_of r c'.
Proof.
  unfold queue_of, install_snapshot. simpl. destruct (decide (0 < n)%nat); simpl.
  - destruct (decide (c' = c)) as [->|]; [|by rewrite lookup_alter_ne].
    rewrite lookup_alter_eq. by destruct (room_deliveries r !! c); simpl; rewrite ?drop_nil.
  - assert (n = 0%nat) as -> by lia. rewrite drop_0. by destruct (decide (c' = c)) as [->|].
Qed.
