(* ===== verification/RoomAcceptFacts.v ===== *)
(** * Accepting a transition keeps the invariant *)

From S2P Require Import Prelude RoomModel RoomValidation RoomDelivery RoomAuthority RoomMembership.
From S2P Require Import RoomSizes RoomInvariant RoomSweep RoomUpdate.
From S2P Require Import RoomApplicationFacts.

(** ** Code sets and dropped codes *)

Lemma elem_of_member_codes members c : c ∈ member_codes members ↔ is_code members c.
Proof.
  unfold member_codes, is_code. rewrite list_elem_of_fmap. split.
  - intros (m & -> & [u Hu]%elem_of_btree_values). eauto.
  - intros (u & m & Hu & <-). exists m. split; [done|]. apply elem_of_btree_values. eauto.
Qed.
Lemma elem_of_member_code_set members c : c ∈ member_code_set members ↔ is_code members c.
Proof. unfold member_code_set. by rewrite elem_of_list_to_set, elem_of_member_codes. Qed.

Section drop.
Context {V : Type}.
Implicit Types (D : gmap CodeId V) (f : V → Z).

Lemma delete_all_lookup ks D c :
  foldl (λ m k, delete k m) D ks !! c = if decide (c ∈ ks) then None else D !! c.
Proof.
  revert D. induction ks as [|k ks IH]; intros D; simpl; [done|].
  rewrite IH. destruct (decide (c = k)) as [->|Hne].
  - rewrite lookup_delete_eq. rewrite (decide_True (P := k ∈ k :: ks)) by set_solver.
    by destruct (decide _).
  - rewrite lookup_delete_ne by done. destruct (decide (c ∈ ks)).
    + by rewrite decide_True by set_solver.
    + by rewrite decide_False by set_solver.
Qed.

Lemma drop_codes_lookup removed D c :
  drop_codes removed D !! c = if decide (c ∈ removed) then None else D !! c.
Proof.
  unfold drop_codes. rewrite delete_all_lookup.
  destruct (decide (c ∈ removed)); [rewrite decide_True|rewrite decide_False];
    by rewrite ?elem_of_elements.
Qed.

Lemma delete_all_sum f ks D :
  NoDup ks →
  map_sum f (foldl (λ m k, delete k m) D ks)
    = map_sum f D - sumZ (f <$> omap (λ c, D !! c) ks).
Proof.
  revert D. induction ks as [|k ks IH]; intros D; cbn [foldl]; [simpl; lia|].
  intros [Hk Hnd]%NoDup_cons. rewrite IH by done. rewrite map_sum_delete_at.
  assert (omap (λ c, delete k D !! c) ks = omap (λ c, D !! c) ks) as ->.
  { apply list_omap_ext, Forall_Forall2_diag, Forall_forall. intros c Hc.
    rewrite lookup_delete_ne; [done|]. by intros ->. }
  change (omap (λ c, D !! c) (k :: ks)) with
    (match D !! k with Some x => x :: omap (λ c, D !! c) ks | None => omap (λ c, D !! c) ks end).
  unfold at_key. destruct (D !! k); rewrite ?fmap_cons, ?sumZ_cons; lia.
Qed.

Lemma drop_codes_sum f removed D :
  map_sum f (drop_codes removed D)
    = map_sum f D - sumZ (f <$> omap (λ c, D !! c) (elements removed)).
Proof. apply delete_all_sum, NoDup_elements. Qed.

Lemma drop_codes_len removed D :
  map_len (drop_codes removed D)
    = map_len D - len (omap (λ c, D !! c) (elements removed)).
Proof.
  rewrite <- !map_sum_const_one, drop_codes_sum. f_equal.
  induction (omap _ _) as [|x l IH]; [done|]. rewrite fmap_cons, sumZ_cons, IH, len_cons. done.
Qed.
End drop.

(** ** Revisions *)

Lemma or_insert_keys (cs : list CodeId) (m : gmap CodeId Z) c :
  is_Some (foldl (λ m c, match m !! c with Some _ => m | None => <[c := 0]> m end) m cs !! c)
  ↔ is_Some (m !! c) ∨ c ∈ cs.
Proof.
  revert m. induction cs as [|k cs IH]; intros m; simpl.
  { split; [by left|]. intros [?|?%elem_of_nil]; done. }
  rewrite IH, elem_of_cons. destruct (m !! k) as [x|] eqn:Hk.
  - split; [naive_solver|]. intros [?|[->|?]]; eauto.
  - rewrite lookup_insert_is_Some'. naive_solver.
Qed.

Lemma next_revisions_keys owner rev next revisions c :
  is_Some (next_revisions owner rev next revisions !! c) ↔ is_code next c.
Proof.
  unfold next_revisions. rewrite or_insert_keys, elem_of_member_codes. split.
  - intros [[x Hx]|?]; [|done]. apply retain_lookup_Some in Hx as [_ Hx]. split_bools.
    by apply elem_of_member_code_set.
  - by right.
Qed.

(** ** The resolved roster of a staged transition *)

Section resolved.
Context (id : string) (r : RelayRoom) (t : MembershipTransition) (next : gmap string Member).
Hypothesis Hok : room_ok id r.
Hypothesis Hnext : resolve_next_roster r t = Ok next.

(** Each resolved member is a current one, or the answered joiner. *)
Lemma next_cases u m :
  next !! u = Some m →
  room_members r !! u = Some m ∨
  (room_members r !! u = None ∧ ∃ j, answered_join r t = Some j ∧
     canonical_username (jr_username (pj_request j)) = Ok u ∧
     mem_code_id m = jr_code_id (pj_request j) ∧ mem_active m = false).
Proof.
  intros Hu. destruct (resolve_next_roster_spec _ _ _ Hnext) as (req & _ & _ & Hres).
  destruct (Hres u m Hu) as (m0 & _ & Hm).
  destruct (resolve_member_cases _ _ _ _ _ Hm) as [[? _]|(? & j & ? & ? & _ & ->)]; [by left|].
  right. split; [done|]. exists j. done.
Qed.

Lemma next_code_cases c :
  is_code next c → is_code (room_members r) c ∨
  ∃ j, answered_join r t = Some j ∧ jr_code_id (pj_request j) = c.
Proof.
  intros (u & m & Hu & <-). destruct (next_cases u m Hu) as [?|(_ & j & ? & _ & ? & _)].
  - left. by exists u, m.
  - right. exists j. done.
Qed.

Lemma answered_not_member j :
  answered_join r t = Some j → ¬ is_code (room_members r) (jr_code_id (pj_request j)).
Proof.
  unfold answered_join. intros (k & _ & Hj)%bind_Some. by apply (ok_joins _ _ Hok) in Hj as [_ ?].
Qed.

Lemma next_codes_inj u1 u2 m1 m2 :
  next !! u1 = Some m1 → next !! u2 = Some m2 → mem_code_id m1 = mem_code_id m2 → u1 = u2.
Proof.
  intros H1 H2 E.
  destruct (next_cases _ _ H1) as [C1|(_ & j1 & J1 & U1 & C1 & _)],
    (next_cases _ _ H2) as [C2|(_ & j2 & J2 & U2 & C2 & _)].
  - by eapply (ok_codes _ _ Hok).
  - exfalso. eapply (answered_not_member j2); [done|]. exists u1, m1. split; [done|congruence].
  - exfalso. eapply (answered_not_member j1); [done|]. exists u2, m2. split; [done|congruence].
  - simplify_eq. congruence.
Qed.

Lemma next_size : map_len next ≤ MAX_MEMBERS.
Proof.
  destruct (resolve_next_roster_spec _ _ _ Hnext) as (req & Hreq & Hdom & _).
  apply roster_map_spec in Hreq as (Hl & Hm & _).
  assert (dom next = dom req) as E.
  { apply set_eq. intros u. by rewrite !elem_of_dom. }
  unfold map_len in *. rewrite <- !size_dom, E, size_dom. lia.
Qed.

Lemma next_names u m : next !! u = Some m → canonical_username (mem_username m) = Ok u.
Proof.
  intros Hu. destruct (resolve_next_roster_spec _ _ _ Hnext) as (req & _ & _ & Hres).
  destruct (Hres u m Hu) as (m0 & _ & Hm).
  destruct (resolve_member_cases _ _ _ _ _ Hm) as [[? _]|(_ & j & _ & ? & _ & ->)]; [|done].
  by eapply (ok_names _ _ Hok).
Qed.

(** The resolved identities are those of the proposed roster. *)
Lemma next_identities u1 u2 m1 m2 :
  next !! u1 = Some m1 → next !! u2 = Some m2 →
  mem_stable_identity m1 = mem_stable_identity m2 → u1 = u2.
Proof.
  destruct (resolve_next_roster_spec _ _ _ Hnext) as (req & Hreq & _ & Hres).
  assert (∀ u m, next !! u = Some m → ∃ m0, req !! u = Some m0 ∧
    mem_stable_identity m = mem_stable_identity m0) as Hid.
  { intros u m Hu. destruct (Hres u m Hu) as (m0 & ? & Hm). exists m0. split; [done|].
    by destruct (resolve_member_cases _ _ _ _ _ Hm) as [[_ ?]|(_ & j & _ & _ & ? & ->)]. }
  intros (x1 & ? & ?)%Hid (x2 & ? & ?)%Hid E.
  apply roster_map_spec in Hreq as (_ & _ & Hinj & _). eapply Hinj; [done|done|congruence].
Qed.

(** A current member kept by name keeps its record. *)
Lemma next_keeps u m : room_members r !! u = Some m → is_Some (next !! u) → next !! u = Some m.
Proof.
  intros Hm [m' Hm']. destruct (next_cases _ _ Hm') as [?|[? _]]; congruence.
Qed.

Lemma next_owner :
  staged_ok r t →
  ∃ u m, canonical_username (room_owner_username r) = Ok u ∧ next !! u = Some m ∧
    mem_code_id m = room_owner_code_id r ∧ mem_active m = true.
Proof.
  intros (_ & u & req & c & Hu & Hreq & Hin & _).
  destruct (ok_owner _ _ Hok) as (u' & m & Hu' & Hm & Hc & Hact). simplify_eq.
  destruct (resolve_next_roster_spec _ _ _ Hnext) as (req' & Hreq' & Hdom & _). simplify_eq.
  exists u', m. split_and!; try done. apply next_keeps; [congruence|].
  apply Hdom. congruence.
Qed.

(** Every delivery of the transition goes to a member of the next roster. *)
Lemma membership_deliveries_codes ds d :
  membership_deliveries r t next = Ok ds → d ∈ ds → is_code next (pd_recipient_code_id d).
Proof.
  unfold membership_deliveries. intros. run_ok.
  match goal with H : d ∈ _ |- _ => apply elem_of_app in H as [Hd|Hd] end.
  - match goal with H : collect _ _ = _ |- _ => apply collect_Ok in H as HF end.
    apply list_elem_of_lookup in Hd as [i Hi].
    destruct (Forall2_lookup_r _ _ _ _ _ HF Hi) as (m & Hm & Hc).
    apply list_elem_of_lookup_2, list_elem_of_fmap in Hm as ([u m'] & -> & Hm).
    apply list_elem_of_filter in Hm as [[_ Hin] Hm%elem_of_btree_iter]. simpl in *.
    unfold commit_delivery in Hc. run_ok. simpl. exists u, m'. split; [|done].
    by apply next_keeps.
  - apply list_elem_of_fmap in Hd as ([u m] & -> & Hm).
    apply list_elem_of_filter in Hm as [_ Hm%elem_of_btree_iter]. simpl. by exists u, m.
Qed.

(** And names the room. *)
Lemma membership_deliveries_room ds d :
  membership_deliveries r t next = Ok ds → d ∈ ds → pd_room_id d = room_id r.
Proof.
  unfold membership_deliveries. intros. run_ok.
  match goal with H : d ∈ _ |- _ => apply elem_of_app in H as [Hd|Hd] end.
  - match goal with H : collect _ _ = _ |- _ => apply collect_Ok in H as HF end.
    apply list_elem_of_lookup in Hd as [i Hi].
    destruct (Forall2_lookup_r _ _ _ _ _ HF Hi) as (m & _ & Hc).
    unfold commit_delivery in Hc. by run_ok.
  - by apply list_elem_of_fmap in Hd as (um & -> & _).
Qed.
End resolved.

(** ** Guards and budgets *)

Section accept_ok.
Context {HO : HashOrder}.

Lemma accept_guard_Ok owner mid rev r t :
  accept_guard owner mid rev r = Ok t →
  room_owner_code_id r = owner ∧ room_pending_transition r = Some t ∧
  mt_message_id t = mid ∧ mt_revision t = rev ∧ room_pending_applications r = ∅ ∧
  has_replay (ReplayKey.membership mid) r = false.
Proof.
  unfold accept_guard. intros. run_ok. split_bools.
  repeat match goal with H : ¬ (_ ≠ _) |- _ => apply dec_stable in H end.
  subst. done.
Qed.

(** The queues the next roster drops. *)
Definition removed_queues (r : RelayRoom) (next : gmap string Member)
    : list (list PendingDelivery) :=
  omap (λ c, room_deliveries r !! c) (elements (removed_codes r next)).
Definition removed_snapshots (r : RelayRoom) (next : gmap string Member)
    : list StateSnapshot :=
  omap (λ c, room_snapshots r !! c) (elements (removed_codes r next)).

Lemma accept_deliveries_Ok self r t next ds db :
  accept_deliveries self r t next = Ok (ds, db) →
  membership_deliveries r t next = Ok ds ∧
  let rc := sumZ (len <$> removed_queues r next) in
  let rb := sumZ (queue_bytes <$> removed_queues r next) in
  db = room_delivery_bytes r - rb + queue_bytes ds ∧
  m_delivery_count r - rc + len ds ≤ MAX_DELIVERIES_PER_ROOM ∧
  global_delivery_count self - rc + len ds ≤ max_delivery_count self ∧
  global_delivery_bytes self - rb + queue_bytes ds ≤ max_delivery_bytes self.
Proof.
  unfold accept_deliveries. intros. run_ok. split_bools. checked. simplify_eq.
  match goal with H : delivery_bytes (concat _) = Ok _ |- _ =>
    apply delivery_bytes_exact in H as ->; rewrite queue_bytes_concat in * end.
  match goal with H : delivery_bytes _ = Ok _ |- _ => apply delivery_bytes_exact in H as -> end.
  repeat match goal with H : checked_sum _ = Some _ |- _ => apply checked_sum_Some in H as -> end.
  rewrite map_sum_hash in *. unfold removed_queues, m_delivery_count. split_and!; try done; lia.
Qed.

Definition join_size (j : option PendingJoin) : Z :=
  match j with Some j => join_bytes_of j | None => 0 end.

Definition join_count (j : option PendingJoin) : Z :=
  match j with Some _ => 1 | None => 0 end.

Lemma accept_state_Ok self owner r t next sb gc gb :
  accept_state self owner r t next = Ok (sb, gc, gb) →
  let j := answered_join r t in
  let rc := len (removed_snapshots r next) in
  let rb := sumZ (snapshot_bytes_of <$> removed_snapshots r next) in
  let prev := at_key snapshot_bytes_of owner (room_snapshots r) in
  let own := len (mt_state_envelope t) + roster_bytes_of (mt_roster t) in
  let nc := if contains_key owner (room_snapshots r) then 0 else 1 in
  sb = room_snapshot_bytes r - rb - prev + own + join_size j ∧
  0 ≤ room_snapshot_bytes r - rb - prev ∧
  sb + map_sum join_bytes_of (room_joins r) - join_size j ≤ MAX_STATE_BYTES ∧
  gc = global_snapshot_count self - rc + nc ∧ gc ≤ MAX_GLOBAL_STATE_SNAPSHOTS ∧
  gb = global_snapshot_bytes self - rb - prev + own ∧ gb ≤ MAX_GLOBAL_STATE_BYTES ∧
  (is_Some (mt_request_id t) → is_Some j ∨ ∃ k l, mt_request_id t = Some k ∧
     room_leaves r !! k = Some l).
Proof.
  unfold accept_state. intros. run_ok.
  match goal with H : over_budget _ _ || _ || _ || _ = false |- _ => rename H into Hbud end.
  match goal with H : _ && eqb _ _ = false |- _ => rename H into Hreq end.
  repeat (apply orb_false_iff in Hbud as [Hbud ?]).
  repeat match goal with H : over_budget _ _ = false |- _ =>
    apply over_budget_false in H; destruct H as (? & ? & ?) end.
  checked. simplify_eq.
  repeat match goal with
  | H : stored_snapshot_bytes _ _ = Ok _ |- _ => apply stored_snapshot_bytes_exact in H as ->
  | H : roster_size _ = Ok _ |- _ => apply roster_size_exact in H as ->
  | H : try_sum _ = Some _ |- _ => apply (try_sum_exact _ snapshot_bytes_of) in H as ->
  | H : checked_sum _ = Some _ |- _ => apply checked_sum_Some in H as ->
  end.
  change (λ j, len (pj_state_envelope j)) with join_bytes_of in *.
  rewrite map_sum_hash in *. unfold removed_snapshots, answered_join, join_size.
  change (λ j, len (pj_state_envelope j)) with join_bytes_of in *.
  assert (∀ o : option PendingJoin, match o with Some j => len (pj_state_envelope j) | None => 0 end
    = match o with Some j => join_bytes_of j | None => 0 end) as Ej by (by intros []).
  rewrite Ej in *.
  split_and!; try (destruct (contains_key owner _); simpl in *; lia).
  intros [k Hk]. rewrite Hk in *. simpl in *.
  destruct (room_joins r !! k) as [j|]; [left; eauto|].
  destruct (room_leaves r !! k) as [l|] eqn:Hl; [right; eauto|done].
Qed.
End accept_ok.

(** ** The installed room *)

Definition owner_snapshot (now : Z) (owner : CodeId) (t : MembershipTransition) (r : RelayRoom)
    : StateSnapshot :=
  mkSnapshot (room_id r) (mt_message_id t) owner (mt_to_epoch t) (mt_revision t)
    (mt_membership_digest t) (mt_state_envelope t) (mt_roster t) now u64_MAX.
Definition joiner_snapshot (now : Z) (j : PendingJoin) (r : RelayRoom) : StateSnapshot :=
  mkSnapshot (room_id r) "" (jr_code_id (pj_request j)) 0 0 [] (pj_state_envelope j) [] now
    u64_MAX.

(** The snapshots and joins of the room after the transition. *)
Definition accepted_snapshots (now2 now3 : Z) (owner : CodeId) (t : MembershipTransition)
    (next : gmap string Member) (r : RelayRoom) : gmap CodeId StateSnapshot :=
  let S := <[owner := owner_snapshot now2 owner t r]>
             (drop_codes (removed_codes r next) (room_snapshots r)) in
  match answered_join r t with
  | Some j => <[jr_code_id (pj_request j) := joiner_snapshot now3 j r]> S
  | None => S
  end.
Definition accepted_joins (t : MembershipTransition) (r : RelayRoom) : gmap string PendingJoin :=
  match mt_request_id t with
  | Some k => delete k (room_joins r)
  | None => room_joins r
  end.

Definition accepted_room (now1 now2 now3 : Z) (owner : CodeId) (t : MembershipTransition)
    (next : gmap string Member) (ds : list PendingDelivery) (db sb : Z)
    (r : RelayRoom) : RelayRoom :=
  install_state now2 now3 owner t sb (answered_join r t)
    (id ← mt_request_id t; room_leaves r !! id)
    (install_routing now1 owner t next ds db r).

Lemma accepted_shape now1 now2 now3 owner t next ds db sb r :
  ∃ L, accepted_room now1 now2 now3 owner t next ds db sb r
    = set_room_leaves L (set_room_joins (accepted_joins t r)
        (set_room_snapshots (accepted_snapshots now2 now3 owner t next r)
           (set_room_snapshot_bytes sb (install_routing now1 owner t next ds db r)))).
Proof.
  unfold accepted_room, accepted_joins, accepted_snapshots, owner_snapshot, joiner_snapshot,
    answered_join.
  set (r1 := install_routing now1 owner t next ds db r).
  assert (room_joins r1 = room_joins r ∧ room_id r1 = room_id r ∧
    room_snapshots r1 = drop_codes (removed_codes r next) (room_snapshots r) ∧
    room_epoch r1 = mt_to_epoch t ∧ room_membership_digest r1 = mt_membership_digest t)
    as (<- & <- & <- & <- & <-) by done.
  clearbody r1. unfold install_state.
  destruct (mt_request_id t) as [k|]; cbn [mbind option_bind];
    [|exists (room_leaves r1); by destruct r1].
  destruct (room_joins r1 !! k) as [j|] eqn:Hj; [exists (room_leaves r1); by destruct r1|].
  rewrite (delete_id (room_joins r1)) by done.
  destruct (room_leaves r !! k); [exists (delete k (room_leaves r1))|exists (room_leaves r1)];
    by destruct r1.
Qed.

Lemma accepted_ok now1 now2 now3 id owner t next ds db sb r :
  room_ok id r → resolve_next_roster r t = Ok next → staged_ok r t →
  room_owner_code_id r = owner → room_pending_applications r = ∅ →
  membership_deliveries r t next = Ok ds →
  len (mt_state_envelope t) + roster_bytes_of (mt_roster t) ≤ SNAPSHOT_BOUND →
  room_ok id (accepted_room now1 now2 now3 owner t next ds db sb r).
Proof.
  intros Hok Hnext Hst Hown Hpend Hds Hsz.
  destruct (accepted_shape now1 now2 now3 owner t next ds db sb r) as (L & ->).
  assert (∀ c, is_code next c → is_code (room_members r) c ∨
    ∃ j, answered_join r t = Some j ∧ jr_code_id (pj_request j) = c) as Hcases
    by (by apply next_code_cases).
  assert (∀ k j, accepted_joins t r !! k = Some j →
    room_joins r !! k = Some j ∧ mt_request_id t ≠ Some k) as Hj.
  { unfold accepted_joins. intros k j. destruct (mt_request_id t); [|done].
    intros [? ?]%lookup_delete_Some. naive_solver. }
  constructor; simpl.
  - apply Hok.
  - by eapply next_owner.
  - intros. by eapply next_codes_inj.
  - intros c. apply next_revisions_keys.
  - intros c [Hc|(d & Hd & <-)]%push_deliveries_keys; [|by eapply membership_deliveries_codes].
    rewrite drop_codes_lookup in Hc. destruct (decide _) as [|Hn]; [by destruct Hc|].
    apply elem_of_member_code_set. apply dec_stable. intros Hn'. apply Hn.
    unfold removed_codes. apply elem_of_difference. split; [|done].
    apply elem_of_union_l, elem_of_dom, Hc.
  - intros c s. unfold accepted_snapshots.
    assert (∀ c s, <[owner := owner_snapshot now2 owner t r]>
      (drop_codes (removed_codes r next) (room_snapshots r)) !! c = Some s →
      snapshot_bytes_of s ≤ SNAPSHOT_BOUND) as HS.
    { intros c' s'. destruct (decide (owner = c')) as [<-|].
      - rewrite lookup_insert_eq. by intros [= <-].
      - rewrite lookup_insert_ne, drop_codes_lookup by done.
        destruct (decide _); [done|]. apply (ok_snapshots _ _ Hok). }
    destruct (answered_join r t) as [j|] eqn:Ej; [|apply HS].
    destruct (decide (jr_code_id (pj_request j) = c)) as [<-|].
    + rewrite lookup_insert_eq. intros [= <-]. unfold answered_join in Ej.
      apply bind_Some in Ej as (k & _ & Ej). apply (ok_joins _ _ Hok) in Ej as [Ej _].
      unfold snapshot_bytes_of, join_bytes_of, SNAPSHOT_BOUND, MAX_STATE_BYTES in *. simpl.
      change (roster_bytes_of []) with 0. lia.
    + rewrite lookup_insert_ne by done. apply HS.
  - intros k j [Hk Hne]%Hj. split; [by apply (ok_joins _ _ Hok) in Hk as [? _]|].
    intros [Hc|(j' & Hj' & E)]%Hcases; [by apply (ok_joins _ _ Hok) in Hk as [_ []]|].
    unfold answered_join in Hj'. apply bind_Some in Hj' as (k' & Hk' & Hj').
    assert (k' = k) as -> by (by eapply (ok_join_codes _ _ Hok)). done.
  - intros k1 k2 j1 j2 [H1 _]%Hj [H2 _]%Hj. by eapply (ok_join_codes _ _ Hok).
  - intros k p Hk. by rewrite Hpend, lookup_empty in Hk.
  - intros k1 k2 p1 p2 Hk. by rewrite Hpend, lookup_empty in Hk.
  - apply push_replay_len, Hok.
  - done.
  - by eapply next_size.
  - intros u m Hu. by eapply next_names.
  - intros u1 u2 m1 m2 H1 H2. by eapply next_identities.
  - done.
  - apply push_routes.
    + intros d Hd. rewrite <- (ok_id _ _ Hok). by eapply membership_deliveries_room.
    + intros c q d. rewrite drop_codes_lookup. destruct (decide _); [done|].
      apply (ok_routes _ _ Hok).
Qed.

(** No snapshot of an earlier holder of the joiner's code survives. *)
Definition joiner_fresh (t : MembershipTransition) (next : gmap string Member) (r : RelayRoom)
    : Prop :=
  ∀ j, answered_join r t = Some j →
    drop_codes (removed_codes r next) (room_snapshots r) !! jr_code_id (pj_request j) = None.

Lemma accepted_joins_sums t r :
  map_len (accepted_joins t r) = map_len (room_joins r)
    - join_count (answered_join r t) ∧
  map_sum join_bytes_of (accepted_joins t r)
    = map_sum join_bytes_of (room_joins r) - join_size (answered_join r t).
Proof.
  unfold accepted_joins, answered_join, join_size, join_count. destruct (mt_request_id t) as [k|]; simpl;
    [|split; lia].
  rewrite map_len_delete, map_sum_delete_at. unfold contains_key, at_key.
  destruct (room_joins r !! k); split; lia.
Qed.

Lemma accepted_snapshots_sums now2 now3 owner t next r :
  owner ∉ removed_codes r next →
  (∀ j, answered_join r t = Some j → jr_code_id (pj_request j) ≠ owner) →
  let S' := accepted_snapshots now2 now3 owner t next r in
  let own := len (mt_state_envelope t) + roster_bytes_of (mt_roster t) in
  let n := map_len (room_snapshots r) - len (removed_snapshots r next)
           + (if contains_key owner (room_snapshots r) then 0 else 1)
           + join_count (answered_join r t) in
  map_len S' ≤ n ∧
  (joiner_fresh t next r → map_len S' = n ∧
   map_sum snapshot_bytes_of S' = map_sum snapshot_bytes_of (room_snapshots r)
     - sumZ (snapshot_bytes_of <$> removed_snapshots r next)
     - at_key snapshot_bytes_of owner (room_snapshots r) + own
     + join_size (answered_join r t)).
Proof.
  intros Hown Hne. unfold accepted_snapshots.
  set (S0 := drop_codes (removed_codes r next) (room_snapshots r)).
  assert (S0 !! owner = room_snapshots r !! owner) as Eo.
  { unfold S0. rewrite drop_codes_lookup. by rewrite decide_False. }
  assert (map_len S0 = map_len (room_snapshots r) - len (removed_snapshots r next)) as El
    by apply drop_codes_len.
  assert (map_sum snapshot_bytes_of S0 = map_sum snapshot_bytes_of (room_snapshots r)
    - sumZ (snapshot_bytes_of <$> removed_snapshots r next)) as Eb by apply drop_codes_sum.
  set (S1 := <[owner := owner_snapshot now2 owner t r]> S0).
  assert (map_len S1 = map_len S0 + (if contains_key owner (room_snapshots r) then 0 else 1)) as El1.
  { unfold S1. rewrite map_len_insert. unfold contains_key. by rewrite Eo. }
  assert (map_sum snapshot_bytes_of S1 = map_sum snapshot_bytes_of S0
    - at_key snapshot_bytes_of owner (room_snapshots r)
    + (len (mt_state_envelope t) + roster_bytes_of (mt_roster t))) as Eb1.
  { unfold S1. rewrite map_sum_insert. unfold at_key. by rewrite Eo. }
  destruct (answered_join r t) as [j|] eqn:Ej; cbn [join_size join_count]; [|split; [lia|intros _; split; lia]].
  rewrite map_len_insert, map_sum_insert. split; [destruct (contains_key _ S1); lia|].
  intros Hf. specialize (Hf j Ej). fold S0 in Hf.
  assert (S1 !! jr_code_id (pj_request j) = None) as Hn.
  { unfold S1. rewrite lookup_insert_ne; [done|]. intros E. by apply (Hne j). }
  rewrite (proj2 (contains_key_false _ _) Hn).
  assert (at_key snapshot_bytes_of (jr_code_id (pj_request j)) S1 = 0) as ->
    by (unfold at_key; by rewrite Hn).
  change (snapshot_bytes_of (joiner_snapshot now3 j r)) with (join_bytes_of j + 0). lia.
Qed.

Lemma accepted_measures now1 now2 now3 owner t next ds db sb r :
  owner ∉ removed_codes r next →
  (∀ j, answered_join r t = Some j → jr_code_id (pj_request j) ≠ owner) →
  let r' := accepted_room now1 now2 now3 owner t next ds db sb r in
  let own := len (mt_state_envelope t) + roster_bytes_of (mt_roster t) in
  let n := m_snapshot_count r - len (removed_snapshots r next)
           + (if contains_key owner (room_snapshots r) then 0 else 1) in
  m_pending_count r' = m_pending_count r ∧ m_pending_bytes r' = m_pending_bytes r ∧
  m_replay r' ≤ m_replay r + 1 ∧ m_gaps r' = 0 ∧
  m_delivery_count r' = m_delivery_count r - sumZ (len <$> removed_queues r next) + len ds ∧
  m_delivery_bytes r' = m_delivery_bytes r - sumZ (queue_bytes <$> removed_queues r next)
    + queue_bytes ds ∧
  m_snapshot_count r' ≤ n ∧
  (joiner_fresh t next r → m_snapshot_count r' = n ∧
   map_sum snapshot_bytes_of (room_snapshots r')
     = map_sum snapshot_bytes_of (room_snapshots r)
       - sumZ (snapshot_bytes_of <$> removed_snapshots r next)
       - at_key snapshot_bytes_of owner (room_snapshots r) + own
       + join_size (answered_join r t) ∧
   m_snapshot_bytes r' = m_snapshot_bytes r
     - sumZ (snapshot_bytes_of <$> removed_snapshots r next)
     - at_key snapshot_bytes_of owner (room_snapshots r) + own) ∧
  room_pending_bytes r' = room_pending_bytes r ∧ room_snapshot_bytes r' = sb ∧
  room_delivery_bytes r' = db.
Proof.
  intros Hown Hne.
  destruct (accepted_shape now1 now2 now3 owner t next ds db sb r) as (L & ->).
  destruct (accepted_snapshots_sums now2 now3 owner t next r Hown Hne) as [Hle Heq].
  destruct (accepted_joins_sums t r) as [Ejl Ejb].
  unfold m_pending_count, m_pending_bytes, m_snapshot_count, m_snapshot_bytes, m_replay,
    m_delivery_count, m_delivery_bytes, m_gaps. simpl.
  rewrite push_deliveries_count, push_deliveries_bytes, !drop_codes_sum.
  pose proof (push_replay_len_le (ReplayKey.membership (mt_message_id t), now1) (room_replay_ids r)).
  unfold removed_queues.
  split_and!; try lia; try done.
  intros Hf. destruct (Heq Hf) as [? ?]. split_and!; lia.
Qed.

(** ** The whole method *)

Section accept_all.
Context {HO : HashOrder}.

(** What a successful [accept_room] checked and installed. *)
Lemma accept_room_Ok now1 now2 now3 owner id mid rev self t gc gb self' :
  accept_room now1 now2 now3 owner id mid rev self = Ok (t, gc, gb, self') →
  ∃ r next ds db sb, rooms self !! id = Some r ∧ accept_guard owner mid rev r = Ok t ∧
    resolve_next_roster r t = Ok next ∧ accept_deliveries self r t next = Ok (ds, db) ∧
    accept_state self owner r t next = Ok (sb, gc, gb) ∧
    self' = put_room id (accepted_room now1 now2 now3 owner t next ds db sb r) self.
Proof.
  unfold accept_room, get_room. intros. run_ok.
  repeat match goal with x : _ * _ |- _ => destruct x end. run_ok.
  repeat match goal with x : _ * _ |- _ => destruct x end. run_ok. simplify_eq.
  eexists _, _, _, _, _. split_and!; done.
Qed.

Lemma recount_deliveries_spec self :
  total m_delivery_count self ≤ usize_MAX → total m_delivery_bytes self ≤ usize_MAX →
  (∀ id r, rooms self !! id = Some r → room_exact r) →
  recount_deliveries self
    = set_global_delivery_bytes (total m_delivery_bytes self)
        (set_global_delivery_count (total m_delivery_count self) self).
Proof.
  intros Hc Hb Hx. unfold recount_deliveries.
  assert (sumZ (hash_values (rooms self) ≫= λ r, len <$> hash_values (room_deliveries r))
          = total m_delivery_count self) as Ec.
  { unfold total. rewrite <- map_sum_hash. induction (hash_values (rooms self)) as [|r l IH]; [done|].
    rewrite bind_cons, sumZ_app, IH, map_sum_hash, fmap_cons, sumZ_cons. done. }
  assert (map_sum room_delivery_bytes (rooms self) = total m_delivery_bytes self) as Eb.
  { apply map_sum_ext. intros id r Hr. by destruct (Hx id r Hr) as (_&_&?). }
  rewrite !checked_sum_ok, Ec, map_sum_hash, Eb; [done| | | |]; rewrite ?map_sum_hash, ?Ec, ?Eb; try done.
  - apply Forall_bind, Forall_forall. intros r _. apply Forall_fmap, Forall_true.
    intros q. apply len_nonneg.
  - apply Forall_fmap, Forall_forall. intros r [id Hr]%elem_of_hash_values. simpl.
    destruct (Hx id r Hr) as (_&_&->). nonneg.
Qed.

(** The facts about the room that the installation needs. *)
Lemma accept_room_facts id r t next owner :
  room_ok id r → room_pending_transition r = Some t → room_owner_code_id r = owner →
  resolve_next_roster r t = Ok next →
  (owner ∉ removed_codes r next) ∧
  (∀ j, answered_join r t = Some j → jr_code_id (pj_request j) ≠ owner).
Proof.
  intros Hok Ht Ho Hn. split.
  - destruct (next_owner id r t next Hok Hn (ok_staged _ _ Hok _ Ht)) as (u & m & _ & Hu & Hc & _).
    unfold removed_codes. intros [_ Hnot]%elem_of_difference. apply Hnot.
    apply elem_of_member_code_set. exists u, m. split; [done|congruence].
  - intros j Hj E. destruct (answered_not_member id r t Hok j Hj).
    destruct (ok_owner _ _ Hok) as (u & m & _ & Hm & Hc & _). exists u, m. split; [done|congruence].
Qed.

(** The recounts after the installation cannot fail. *)
Definition accept_tail (t : MembershipTransition) (gc gb : Z)
    : ST RoomAuthority string MembershipResult :=
  _ ← trim_replay_ids;
  _ ← modify (λ self, set_global_snapshot_bytes gb (set_global_snapshot_count gc self));
  _ ← modify recount_deliveries;
  _ ← recompute_gap_accounting;
  mret (Accepted t).

Lemma accept_tail_run t gc gb s1 s2 :
  trim_replay_ids s1 = (Ok tt, s2) → authority_ok s2 →
  accept_tail t gc gb s1
    = (Ok (Accepted t),
       set_global_expired_gap_pairs (total m_gaps s2)
         (recount_deliveries
            (set_global_snapshot_bytes gb (set_global_snapshot_count gc s2)))).
Proof.
  intros E2 Hok2. unfold accept_tail, mbind, ST_bind, modify. rewrite E2.
  rewrite recompute_gap_ok; [done|]. by destruct Hok2.
Qed.

(** The counters after the recounts, from the measures of the new room. *)
Lemma accept_tail_exact s0 s1 s2 id r r' gc gb :
  exact s0 → rooms s0 !! id = Some r → s1 = put_room id r' s0 →
  total m_replay s1 ≤ usize_MAX → trim_replay_ids s1 = (Ok tt, s2) → authority_ok s2 →
  all_trimmed (rooms s1) (rooms s2) → room_exact r' →
  m_pending_count r' = m_pending_count r → m_pending_bytes r' = m_pending_bytes r →
  gc = moved m_snapshot_count s0 id r' → gb = moved m_snapshot_bytes s0 id r' →
  exact (set_global_expired_gap_pairs (total m_gaps s2)
           (recount_deliveries
              (set_global_snapshot_bytes gb (set_global_snapshot_count gc s2)))).
Proof.
  intros He Hr E1 Hrep E2 Hok2 HT Hx Mp Mb Egc Egb.
  assert (rooms s1 = <[id := r']> (rooms s0)) as ER by (by subst).
  assert (∀ m, (∀ r ids, m (set_room_replay_ids ids r) = m r) →
    total m s2 = moved m s0 id r') as Htot.
  { intros m Hm. rewrite <- (total_insert m s0 s1 id r' ER). by apply all_trimmed_sum. }
  assert (∀ k r2, rooms s2 !! k = Some r2 → room_exact r2) as Hx2.
  { intros k r2 Hk. destruct (all_trimmed_lookup _ _ _ _ HT Hk) as (r1 & Hr1 & n & ->).
    change (room_exact r1). rewrite ER in Hr1. destruct (decide (id = k)) as [<-|].
    - rewrite lookup_insert_eq in Hr1. by simplify_eq.
    - rewrite lookup_insert_ne in Hr1 by done. by eapply ex_rooms. }
  pose proof (trim_ok_shape s1 s2 Hrep E2) as Es2.
  assert (config s2 = config s0) as EC by (by rewrite Es2, E1).
  assert (total m_delivery_count s2 ≤ usize_MAX ∧ total m_delivery_bytes s2 ≤ usize_MAX) as [? ?]
    by (destruct Hok2; lia).
  rewrite recount_deliveries_spec by done.
  constructor; simpl; try done.
  - transitivity (global_pending_count s0); [by rewrite Es2, E1|].
    rewrite (ex_pending_count _ He). etrans; [|symmetry; by apply Htot].
    rewrite (moved_at _ _ _ _ _ Hr). lia.
  - transitivity (global_pending_bytes s0); [by rewrite Es2, E1|].
    rewrite (ex_pending_bytes _ He). etrans; [|symmetry; by apply Htot].
    rewrite (moved_at _ _ _ _ _ Hr). lia.
  - rewrite Egc. symmetry. by apply Htot.
  - rewrite Egb. symmetry. by apply Htot.
  - by rewrite Es2.
Qed.

Lemma accept_bounded now1 now2 now3 owner id r t next ds db sb gc gb s0 :
  good s0 → rooms s0 !! id = Some r →
  room_owner_code_id r = owner → room_pending_transition r = Some t →
  room_pending_applications r = ∅ → resolve_next_roster r t = Ok next →
  accept_deliveries s0 r t next = Ok (ds, db) →
  accept_state s0 owner r t next = Ok (sb, gc, gb) →
  rooms_bounded (max_delivery_count s0) (max_delivery_bytes s0)
    (<[id := accepted_room now1 now2 now3 owner t next ds db sb r]> (rooms s0)).
Proof.
  intros Hg Hr Ho Ht Hp Hnext Hd Hs. destruct (Hg) as [Ha He].
  destruct (good_room _ _ _ Hg Hr) as [Hrok (Hx1 & Hx2 & Hx3)].
  apply accept_deliveries_Ok in Hd as (Hds & Edb & _ & Hdc & Hdb).
  apply accept_state_Ok in Hs as (Esb & Hnn & Hmax & Egc & Hgc & Egb & Hgb & _).
  destruct (accept_room_facts id r t next owner Hrok Ht Ho Hnext) as [Hor Hjo].
  set (r' := accepted_room now1 now2 now3 owner t next ds db sb r).
  destruct (accepted_measures now1 now2 now3 owner t next ds db sb r Hor Hjo)
    as (M1&M2&M3&M4&M5&M6&M7&_). fold r' in M1, M2, M3, M4, M5, M6, M7.
  pose proof (m_nonneg r) as (_&_&_&_&_&_&_&?). pose proof (roster_bytes_nonneg (mt_roster t)).
  pose proof (map_sum_nonneg _ (room_joins r) join_bytes_nonneg).
  pose proof Ha as [[] HR]%authority_bounded. destruct He.
  constructor; try done; rewrite ?map_sum_insert; unfold at_key; rewrite ?Hr;
    unfold total in *; try limits.
  intros k r2. destruct (decide (id = k)) as [<-|].
  - rewrite lookup_insert_eq. intros [= <-].
    apply accepted_ok; try done; [by eapply ok_staged|].
    unfold SNAPSHOT_BOUND, MAX_STATE_BYTES in *. lia.
  - rewrite lookup_insert_ne by done. eauto.
Qed.

Lemma accept_ok now0 now1 now2 now3 owner id mid rev self :
  authority_ok self →
  let x := accept_membership now0 now1 now2 now3 owner id mid rev self in
  authority_ok x.2 ∧ config x.2 = config self ∧
  ((∀ r t next, rooms (prune_expired now0 self) !! id = Some r →
      room_pending_transition r = Some t → resolve_next_roster r t = Ok next →
      joiner_fresh t next r) →
   exact x.2).
Proof.
  intros Hok x. subst x. unfold accept_membership.
  destruct (prune_keeps now0 self Hok) as [Hg Hc].
  set (s0 := prune_expired now0 self) in *. clearbody s0. destruct (Hg) as [Ha He].
  destruct (accept_room _ _ _ _ _ _ _ s0) as [[[[t gc] gb] s1]|e] eqn:E; cbn [fst snd]; [|done].
  apply accept_room_Ok in E as (r & next & ds & db & sb & Hr & Hguard & Hnext & Hd & Hs & E1).
  apply accept_guard_Ok in Hguard as (Ho & Ht & _ & _ & Hp & _).
  pose proof (accept_bounded now1 now2 now3 owner id r t next ds db sb gc gb s0
    Hg Hr Ho Ht Hp Hnext Hd Hs) as HB.
  set (r' := accepted_room now1 now2 now3 owner t next ds db sb r) in *.
  assert (rooms_bounded (max_delivery_count s1) (max_delivery_bytes s1) (rooms s1)) as HB1
    by (by rewrite E1).
  destruct (trim_ok s1 HB1) as (s2 & E2 & Hok2 & Hc2 & HT & _).
  pose proof (accept_tail_run t gc gb s1 s2 E2 Hok2) as Erun. unfold accept_tail in Erun.
  rewrite Erun. cbn [fst snd]. split_and!.
  - by eapply authority_ok_ext, Hok2.
  - transitivity (config s2); [done|]. rewrite Hc2, <- Hc. by rewrite E1.
  - intros Hf. specialize (Hf r t next Hr Ht Hnext).
    destruct (good_room _ _ _ Hg Hr) as [Hrok (Hx1 & Hx2 & Hx3)].
    destruct (accept_room_facts id r t next owner Hrok Ht Ho Hnext) as [Hor Hjo].
    destruct (accepted_measures now1 now2 now3 owner t next ds db sb r Hor Hjo)
      as (M1&M2&_&_&_&M6&_&M8&M9&M10&M11).
    fold r' in M1, M2, M6, M8, M9, M10, M11. destruct (M8 Hf) as (M8a & M8b & M8c).
    apply accept_deliveries_Ok in Hd as (_ & Edb & _).
    apply accept_state_Ok in Hs as (Esb & _ & _ & Egc & _ & Egb & _ & _). cbv zeta in *.
    eapply (accept_tail_exact s0 s1 s2 id r r'); try done.
    + by destruct HB1.
    + split_and!; lia.
    + rewrite (moved_at _ _ _ _ _ Hr), <- (ex_snapshot_count _ He). lia.
    + rewrite (moved_at _ _ _ _ _ Hr), <- (ex_snapshot_bytes _ He). lia.
Qed.
End accept_all.
