(* ===== verification/RoomReachable.v ===== *)
(** * Reachable states of the room authority

    The operations of [RoomAuthority] as one type, the states any sequence of
    them reaches from a fresh authority, and the theorems that hold in all of
    them: the invariant, the exactness of the counters, and what may change
    about an existing room. *)

From S2P Require Import Prelude RoomModel RoomValidation RoomDelivery RoomAuthority RoomLifecycle.
From S2P Require Import RoomMembership RoomApplication RoomSnapshot RoomDemo.
From S2P Require Import RoomSizes RoomInvariant RoomSweep RoomUpdate RoomApplicationFacts.
From S2P Require Import RoomSnapshotFacts RoomAcceptFacts.

(** ** Operations *)

(** Every call that changes the authority, with its clock readings.  [Query]
    stands for the read-only methods, which all sweep first. *)
Inductive Op : Type :=
| Create (now0 now1 : Z) (owner : CodeId) (name room : string) (group : bytes)
    (epoch revision : Z) (digest identity : bytes) (policy : RoomPolicy)
    (visibility : RoomVisibility) (envelope : bytes)
| Query (now : Z)
| RemoveJoin (now : Z) (owner : CodeId) (room request : string)
| DeleteRoom (now : Z) (owner : CodeId) (room : string)
| Wipe
| RequestLeave (now : Z) (member : CodeId) (room request : string)
| RemoveLeave (now : Z) (owner : CodeId) (room request : string)
| RequestJoin (now : Z) (account : CodeId) (name room request : string)
    (identity key_package envelope : bytes)
| BeginMembership (now : Z) (owner : CodeId) (t : MembershipTransition)
| AcceptMembership (now0 now1 now2 now3 : Z) (owner : CodeId) (room message : string)
    (revision : Z)
| RollbackMembership (now : Z) (owner : CodeId) (room message : string) (revision : Z)
| AdmitApplication (now : Z) (sender : CodeId) (platform : ClientPlatform)
    (room message : string) (group : bytes) (epoch revision : Z)
    (digest ciphertext authenticated envelope : bytes)
| CommitApplication (now : Z) (room message : string)
| RollbackApplication (room message : string)
| StoreSnapshot (now : Z) (member : CodeId) (room message : string) (epoch revision : Z)
    (digest envelope : bytes).

(** The clock readings of an operation. *)
Definition op_times (op : Op) : list Z :=
  match op with
  | Create now0 now1 _ _ _ _ _ _ _ _ _ _ _ => [now0; now1]
  | AcceptMembership now0 now1 now2 now3 _ _ _ _ => [now0; now1; now2; now3]
  | Query now | RemoveJoin now _ _ _ | DeleteRoom now _ _ | RequestLeave now _ _ _
  | RemoveLeave now _ _ _ | RequestJoin now _ _ _ _ _ _ _ | BeginMembership now _ _
  | RollbackMembership now _ _ _ _ | AdmitApplication now _ _ _ _ _ _ _ _ _ _ _
  | CommitApplication now _ _ | StoreSnapshot now _ _ _ _ _ _ _ => [now]
  | Wipe | RollbackApplication _ _ => []
  end.

Definition outcome {A} (x : result string A * RoomAuthority) : bool * RoomAuthority :=
  (is_ok x.1, x.2).

Section reachable.
Context {HO : HashOrder}.

(** The state an operation leaves, and whether it succeeded. *)
Definition run (op : Op) (self : RoomAuthority) : bool * RoomAuthority :=
  match op with
  | Create n0 n1 o u id g e v d i p vis env =>
      outcome (create_with_policy_visibility_and_state n0 n1 o u id g e v d i p vis env self)
  | Query now => (true, prune_expired now self)
  | RemoveJoin now o id q => outcome (remove_join now o id q self)
  | DeleteRoom now o id => outcome (delete_room now o id self)
  | Wipe => (true, wipe self)
  | RequestLeave now c id q => outcome (request_leave now c id q self)
  | RemoveLeave now o id q => outcome (remove_leave now o id q self)
  | RequestJoin now c u id q i k env => outcome (request_join now c u id q i k env self)
  | BeginMembership now o t => outcome (begin_membership now o t self)
  | AcceptMembership n0 n1 n2 n3 o id m v => outcome (accept_membership n0 n1 n2 n3 o id m v self)
  | RollbackMembership now o id m v => outcome (rollback_membership now o id m v self)
  | AdmitApplication now s p id m g e v d c a env =>
      outcome (admit_application_for_platform now s p id m g e v d c a env self)
  | CommitApplication now id m => outcome (commit_application now id m self)
  | RollbackApplication id m => outcome (rollback_application id m self)
  | StoreSnapshot now c id m e v d env => outcome (store_snapshot now c id m e v d env self)
  end.

Definition perform (self : RoomAuthority) (op : Op) : RoomAuthority := (run op self).2.

Inductive reachable (max_rooms pending_ttl : Z) : RoomAuthority → Prop :=
| reach_new : reachable max_rooms pending_ttl (new_with_pending_ttl max_rooms pending_ttl)
| reach_op self op :
    reachable max_rooms pending_ttl self →
    reachable max_rooms pending_ttl (perform self op).

Lemma new_good max_rooms ttl : good (new_with_pending_ttl max_rooms ttl).
Proof.
  split; constructor; unfold total; simpl; rewrite ?map_sum_empty; try done;
    unfold MAX_GLOBAL_DELIVERIES, MAX_GLOBAL_DELIVERY_BYTES, usize_MAX; lia.
Qed.

(** Each operation keeps the invariant and the configuration. *)
Lemma perform_ok self op :
  authority_ok self → authority_ok (perform self op) ∧ config (perform self op) = config self.
Proof.
  intros Hok. assert (∀ s, keeps self s → authority_ok s ∧ config s = config self) as Hk.
  { by intros s [[? _] ?]. }
  destruct op; unfold perform, run, outcome; cbn [fst snd];
    try (apply Hk; eauto using create_keeps, prune_keeps, remove_join_keeps,
           delete_room_keeps, wipe_keeps, request_leave_keeps, remove_leave_keeps,
           request_join_keeps, begin_membership_keeps, rollback_membership_keeps,
           admit_keeps, store_snapshot_keeps; fail).
  - by destruct (accept_ok now0 now1 now2 now3 owner room message revision self Hok) as (?&?&_).
  - by destruct (commit_ok now room message self Hok) as (?&?&_).
  - by destruct (rollback_ok room message self Hok) as (?&?&_).
Qed.

(** When an operation leaves exact counters: the two that do not sweep need
    exact counters to start from, a rollback must complete, and an accepted
    addition must not overwrite a stale snapshot. *)
Definition counts_kept (self : RoomAuthority) (op : Op) : Prop :=
  match op with
  | CommitApplication _ _ _ => exact self
  | RollbackApplication _ _ => exact self ∧ (run op self).1 = true
  | AcceptMembership now0 _ _ _ _ id _ _ =>
      ∀ r t next, rooms (prune_expired now0 self) !! id = Some r →
        room_pending_transition r = Some t → resolve_next_roster r t = Ok next →
        joiner_fresh t next r
  | _ => True
  end.

Lemma perform_exact self op :
  authority_ok self → counts_kept self op → exact (perform self op).
Proof.
  intros Hok. assert (∀ s, keeps self s → exact s) as Hk by (by intros s [[_ ?] _]).
  destruct op; unfold counts_kept, perform, run, outcome; cbn [fst snd]; intros HK;
    try (apply Hk; eauto using create_keeps, prune_keeps, remove_join_keeps,
           delete_room_keeps, wipe_keeps, request_leave_keeps, remove_leave_keeps,
           request_join_keeps, begin_membership_keeps, rollback_membership_keeps,
           admit_keeps, store_snapshot_keeps; fail).
  - destruct (accept_ok now0 now1 now2 now3 owner room message revision self Hok) as (_&_&H).
    by apply H.
  - destruct (commit_ok now room message self Hok) as (_&_&H). by apply H.
  - destruct (rollback_ok room message self Hok) as (_&_&H). by apply H; destruct HK.
Qed.

Lemma reachable_ok max_rooms ttl self :
  reachable max_rooms ttl self →
  authority_ok self ∧ config self = config (new_with_pending_ttl max_rooms ttl).
Proof.
  induction 1 as [|self op Hr [Hok Hc]]; [split; [apply new_good|done]|].
  destruct (perform_ok self op Hok) as [? ?]. split; [done|congruence].
Qed.
End reachable.

(** * What an operation may change about a room *)

(** The part of a room fixed at its creation. *)
Definition identity (r : RelayRoom) :=
  (room_id r, room_owner_code_id r, room_owner_username r, room_policy r, room_visibility r,
   room_group_id r).

(** What a member is, whether or not it is active yet. *)
Definition who (m : Member) : string * CodeId * bytes :=
  (mem_username m, mem_code_id m, mem_stable_identity m).

(** The epoch, the digest and the membership stand. *)
Definition stands (r r' : RelayRoom) : Prop :=
  identity r' = identity r ∧ room_epoch r' = room_epoch r ∧
  room_membership_digest r' = room_membership_digest r ∧
  who <$> room_members r' = who <$> room_members r.

#[export] Instance stands_preorder : PreOrder stands.
Proof.
  split; [by intros r|]. intros a b c (?&?&?&?) (?&?&?&?). unfold stands.
  split_and!; congruence.
Qed.

(** Every room of [R] is still there and related to what it was. *)
Definition all_rel (Q : relation RelayRoom) (R R' : gmap string RelayRoom) : Prop :=
  ∀ id r, R !! id = Some r → ∃ r', R' !! id = Some r' ∧ Q r r'.
Abbreviation all_stand := (all_rel stands).

#[export] Instance all_rel_preorder Q `{!PreOrder Q} : PreOrder (all_rel Q).
Proof.
  split.
  - intros R id r Hr. exists r. split; [done|reflexivity].
  - intros A B C H1 H2 id r Hr. destruct (H1 id r Hr) as (r1 & Hr1 & S1).
    destruct (H2 id r1 Hr1) as (r2 & Hr2 & S2). exists r2. split; [done|by etrans].
Qed.

Lemma core_stands r r' : room_core r' = room_core r → stands r r'.
Proof. unfold room_core, stands, identity. intros. simplify_eq. split_and!; congruence. Qed.

Lemma same_cores_stand R R' : same_cores R R' → all_stand R R'.
Proof.
  intros HC id r Hr. specialize (HC id). rewrite Hr in HC. simpl in HC.
  apply fmap_Some in HC as (r' & Hr' & E). exists r'. split; [done|].
  by apply core_stands.
Qed.

Lemma put_room_rel Q `{!PreOrder Q} R id r r' :
  R !! id = Some r → Q r r' → all_rel Q R (<[id := r']> R).
Proof.
  intros Hr HS k r0 Hk. destruct (decide (id = k)) as [<-|].
  - exists r'. rewrite lookup_insert_eq. simplify_eq. done.
  - exists r0. rewrite lookup_insert_ne by done. split; [done|reflexivity].
Qed.

Lemma new_room_rel Q `{!PreOrder Q} R id r : R !! id = None → all_rel Q R (<[id := r]> R).
Proof.
  intros Hn k r0 Hk. exists r0. rewrite lookup_insert_ne by congruence.
  split; [done|reflexivity].
Qed.

Lemma all_trimmed_stand R R' : all_trimmed R R' → all_stand R R'.
Proof.
  intros HT id r Hr. specialize (HT id). rewrite Hr in HT. inversion HT as [? r' Ht E1 E2|].
  exists r'. split; [done|]. destruct Ht as [n ->]. by apply core_stands.
Qed.

(** The membership and the replay identifiers stand: the operations that neither
    delete a room, nor move its epoch, nor register an identifier are within every
    preorder that allows this and the sweeps at the times considered. *)
Definition routine (op : Op) : bool :=
  match op with
  | Wipe | DeleteRoom _ _ _ | AcceptMembership _ _ _ _ _ _ _ _ | CommitApplication _ _ _ => false
  | _ => true
  end.

(** The snapshot's member becomes active; nobody changes otherwise. *)
Lemma install_snapshot_stands r c u rev n s t : stands r (install_snapshot r c u rev n s t).
Proof.
  unfold stands, install_snapshot, identity. simpl.
  destruct (decide (0 < n)%nat); simpl; split_and!; try done; apply map_eq; intros u';
    rewrite !lookup_fmap; (destruct (decide (u = u')) as [<-|];
      [rewrite lookup_alter_eq; by destruct (room_members r !! u)|by rewrite lookup_alter_ne]).
Qed.

Lemma install_snapshot_replays r c u rev n s t :
  room_replay_ids (install_snapshot r c u rev n s t) = room_replay_ids r.
Proof. unfold install_snapshot. by destruct (decide (0 < n)%nat). Qed.

Lemma rolled_back_keeps m plan D' r :
  stands r (rolled_back m plan D' r) ∧
  room_replay_ids (rolled_back m plan D' r) = room_replay_ids r.
Proof.
  unfold rolled_back.
  destruct (restore_snapshots_spec (pa_sender_code_id (rb_pending plan))
    (pa_previous_snapshot (rb_pending plan)) (set_room_member_revisions
      (<[pa_sender_code_id (rb_pending plan) := pa_previous_sender_revision (rb_pending plan)]>
         (room_member_revisions r))
      (set_room_delivery_bytes (rb_room_delivery_bytes plan)
         (set_room_deliveries (retain (λ _ q, bool_decide (q ≠ [])) D')
            (set_room_pending_applications (delete m (room_pending_applications r)) r)))))
    as (S' & -> & _). split; [by apply core_stands|done].
Qed.

Section frame.
Context {HO : HashOrder} (Q : relation RelayRoom) `{!PreOrder Q} (timely : Z → Prop).
Context (Q_keeps : ∀ r r', stands r r' → room_replay_ids r' = room_replay_ids r → Q r r').
Context (self : RoomAuthority) (self_ok : authority_ok self).
Context (Q_sweep : ∀ now, timely now → all_rel Q (rooms self) (rooms (prune_expired now self))).

Lemma after_prune_frame {A} now (f : RoomAuthority → result string (A * RoomAuthority)) :
  timely now →
  (∀ s a s', good s → f s = Ok (a, s') → all_rel Q (rooms s) (rooms s')) →
  all_rel Q (rooms self) (rooms (after_prune now f self).2).
Proof.
  intros Ht Hf. unfold after_prune. etrans; [by apply (Q_sweep now)|].
  destruct (prune_keeps now self self_ok) as [Hg _].
  destruct (f (prune_expired now self)) as [[a s']|e] eqn:E; simpl; [|reflexivity]. eauto.
Qed.

Ltac put_core Hr := eapply (put_room_rel Q); [exact Hr|apply Q_keeps; [by apply core_stands|done]].

Lemma request_leave_frame now c id q :
  timely now → all_rel Q (rooms self) (rooms (request_leave now c id q self).2).
Proof.
  intros Ht. apply after_prune_frame; [done|]. clear self self_ok Q_sweep. intros s a s' Hg Hf.
  unfold get_room in Hf. run_ok. match goal with H : rooms s !! id = _ |- _ => rename H into Hr end.
  destruct (room_leaves _ !! q) as [l|]; [destruct (_ && _); simplify_eq; reflexivity|].
  run_ok. simplify_eq. put_core Hr.
Qed.

Lemma remove_leave_frame now c id q :
  timely now → all_rel Q (rooms self) (rooms (remove_leave now c id q self).2).
Proof.
  intros Ht. apply after_prune_frame; [done|]. clear self self_ok Q_sweep. intros s a s' Hg Hf.
  unfold get_room in Hf. run_ok. simplify_eq.
  match goal with H : rooms s !! id = _ |- _ => put_core H end.
Qed.

Lemma request_join_frame now c u id q i k env :
  timely now → all_rel Q (rooms self) (rooms (request_join now c u id q i k env self).2).
Proof.
  intros Ht. apply after_prune_frame; [done|]. clear self self_ok Q_sweep. intros s a s' Hg Hf.
  unfold get_room in Hf. run_ok. match goal with H : rooms s !! id = _ |- _ => rename H into Hr end.
  destruct x6 as [r|]; [simplify_eq; reflexivity|]. run_ok. destruct x6. simplify_eq/=.
  put_core Hr.
Qed.

Lemma begin_membership_frame now o t :
  timely now → all_rel Q (rooms self) (rooms (begin_membership now o t self).2).
Proof.
  intros Ht. apply after_prune_frame; [done|]. clear self self_ok Q_sweep. intros s a s' Hg Hf.
  unfold get_room in Hf. run_ok. simplify_eq.
  match goal with H : rooms s !! _ = _ |- _ => put_core H end.
Qed.

Lemma rollback_membership_frame now o id m v :
  timely now → all_rel Q (rooms self) (rooms (rollback_membership now o id m v self).2).
Proof.
  intros Ht. apply after_prune_frame; [done|]. clear self self_ok Q_sweep. intros s a s' Hg Hf.
  unfold get_room in Hf. run_ok. simplify_eq.
  match goal with H : rooms s !! _ = _ |- _ => put_core H end.
Qed.

Lemma admit_application_frame now sender p id m g e v d c a env :
  timely now →
  all_rel Q (rooms self)
    (rooms (admit_application_for_platform now sender p id m g e v d c a env self).2).
Proof.
  intros Ht. apply after_prune_frame; [done|]. clear self self_ok Q_sweep. intros s adm s' Hg Hf.
  unfold admit_room, get_room in Hf. run_ok.
  repeat match goal with x : _ * _ |- _ => destruct x | _ => progress run_ok end.
  simplify_eq. match goal with H : rooms s !! _ = _ |- _ => put_core H end.
Qed.

Lemma create_frame now0 now1 o u id g e v d i p vis env :
  timely now0 →
  all_rel Q (rooms self)
    (rooms (create_with_policy_visibility_and_state now0 now1 o u id g e v d i p vis env self).2).
Proof.
  intros Ht. unfold create_with_policy_visibility_and_state.
  etrans; [by apply (Q_sweep now0)|].
  destruct (create_room _ _ _ _ _ _ _ _ _ _ _ _ _) as [[info s']|e0] eqn:E; [|reflexivity].
  apply create_room_Ok in E as (cn & _ & Hn & _ & _ & _ & _ & _ & ->). simpl.
  by apply new_room_rel.
Qed.

Lemma remove_join_frame now o id q :
  timely now → all_rel Q (rooms self) (rooms (remove_join now o id q self).2).
Proof.
  intros Ht. unfold remove_join. etrans; [by apply (Q_sweep now)|].
  set (s := prune_expired now self). clearbody s.
  destruct (get_room id s) as [r|e] eqn:Hr; simpl; [|reflexivity]. apply ok_or_Ok in Hr.
  destruct (reject_if _ _); simpl; [|reflexivity].
  destruct (room_joins r !! q) as [j|]; simpl; [|reflexivity].
  unfold mbind, ST_bind, recompute_state_accounting.
  destruct (checked_accounting_excluding None _); simpl; put_core Hr.
Qed.

(** Deletion: the other rooms are within the relation. *)
Lemma delete_room_frame now o id k r r' :
  timely now → rooms self !! k = Some r →
  rooms (delete_room now o id self).2 !! k = Some r' → Q r r'.
Proof.
  intros Ht Hr. unfold delete_room.
  destruct (Q_sweep now Ht k r Hr) as (r1 & Hr1 & HS).
  set (s := prune_expired now self) in *. clearbody s.
  destruct (get_room id s) as [r0|e] eqn:Hr0; simpl; [|by intros; simplify_eq].
  destruct (reject_if _ _); simpl; [|by intros; simplify_eq].
  destruct (checked_accounting_excluding _ s); simpl; [|by intros; simplify_eq].
  intros [_ ?]%lookup_delete_Some. by simplify_eq.
Qed.

Lemma rollback_application_frame id m :
  all_rel Q (rooms self) (rooms (rollback_application id m self).2).
Proof.
  unfold rollback_application.
  destruct (rollback_totals id m self) as [plan|e] eqn:E; simpl; [|reflexivity].
  apply rollback_totals_Ok in E as (r & p & Hr & Hp & Hplan). unfold get_room.
  rewrite Hr. simpl. pose proof (rollback_room_cases m plan p r Hp) as HC.
  destruct (rollback_room m plan r) as [[u|e] r'].
  - destruct HC as (D' & -> & _); [by rewrite Hplan|]. simpl.
    eapply (put_room_rel Q); [exact Hr|]. by apply Q_keeps; apply rolled_back_keeps.
  - destruct HC as (D' & -> & _); [by rewrite Hplan|]. put_core Hr.
Qed.

Lemma store_snapshot_frame now c id m e v d env :
  timely now → all_rel Q (rooms self) (rooms (store_snapshot now c id m e v d env self).2).
Proof.
  intros Ht. unfold store_snapshot. etrans; [by apply (Q_sweep now)|].
  destruct (snapshot_room _ _ _ _ _ _ _ _ _) as [[s s1]|e0] eqn:E; [|reflexivity].
  apply snapshot_room_Ok in E as (r & n & roster & t & u & Hr & _ & _ & _ & _ & _ & _ & _ & _ & ->).
  unfold mbind, ST_bind, recompute_gap_accounting. simpl.
  destruct (_ ≫= _); simpl; (eapply (put_room_rel Q); [exact Hr|apply Q_keeps; [apply install_snapshot_stands|by apply install_snapshot_replays]]).
Qed.

Lemma perform_frame op :
  routine op = true → Forall timely (op_times op) →
  all_rel Q (rooms self) (rooms (perform self op)).
Proof.
  intros Hop Ht. destruct op; try done; unfold perform, run, outcome; cbn [fst snd];
    simpl in Ht; repeat (apply Forall_cons in Ht as [? Ht]);
    eauto using create_frame, remove_join_frame, request_leave_frame, remove_leave_frame,
      request_join_frame, begin_membership_frame, rollback_membership_frame, admit_application_frame,
      rollback_application_frame, store_snapshot_frame.
Qed.
End frame.

Section stand.
Context {HO : HashOrder}.

Lemma prune_stand now self :
  authority_ok self → all_stand (rooms self) (rooms (prune_expired now self)).
Proof. intros H. by apply same_cores_stand, prune_expired_ok. Qed.
Lemma perform_stand op self :
  routine op = true → authority_ok self → all_stand (rooms self) (rooms (perform self op)).
Proof.
  intros Hop Hok. apply (perform_frame stands (λ _, True)); try done.
  - intros now _. by apply prune_stand.
  - by apply Forall_forall.
Qed.

Lemma commit_stand now id m self :
  authority_ok self → all_stand (rooms self) (rooms (commit_application now id m self).2).
Proof.
  intros Hok. unfold commit_application.
  destruct (commit_room now id m self) as [s|e] eqn:E; [|reflexivity].
  apply commit_room_Ok in E as (r & p & Hr & Hp & _ & Es). cbv zeta in Es.
  set (r' := committed _ _ _ _) in Es.
  assert (rooms s = <[id := r']> (rooms self)) as ER by (by rewrite Es).
  destruct (trim_ok s) as (s' & -> & _ & _ & HT & _).
  { rewrite ER, Es. simpl. by eapply put_committed_bounded. }
  simpl. etrans; [|by apply all_trimmed_stand]. rewrite ER.
  eapply (put_room_rel stands); [exact Hr|by apply core_stands].
Qed.

(** An accepted transition: the room it names moves, the others stand. *)
Lemma accept_cases now0 now1 now2 now3 o id m v self :
  authority_ok self →
  match accept_membership now0 now1 now2 now3 o id m v self with
  | (Err _, self') => all_stand (rooms self) (rooms self')
  | (Ok res, self') =>
      ∃ r0 r t next ds db sb k,
        rooms self !! id = Some r0 ∧ stands r0 r ∧ room_ok id r ∧
        rooms (prune_expired now0 self) !! id = Some r ∧
        room_pending_transition r = Some t ∧ mt_message_id t = m ∧ mt_revision t = v ∧
        room_owner_code_id r = o ∧ res = Accepted t ∧
        resolve_next_roster r t = Ok next ∧ membership_deliveries r t next = Ok ds ∧
        rooms self' !! id = Some (set_room_replay_ids
          (drop k (room_replay_ids (accepted_room now1 now2 now3 o t next ds db sb r)))
          (accepted_room now1 now2 now3 o t next ds db sb r)) ∧
        all_stand (delete id (rooms self)) (delete id (rooms self'))
  end.
Proof.
  intros Hok. unfold accept_membership. destruct (prune_keeps now0 self Hok) as [Hg _].
  pose proof (prune_expired_ok now0 self Hok) as (_ & _ & HC & _).
  set (s0 := prune_expired now0 self) in *. clearbody s0.
  destruct (accept_room _ _ _ _ _ _ _ s0) as [[[[t gc] gb] s1]|e] eqn:E;
    [|by apply same_cores_stand].
  apply accept_room_Ok in E as (r & next & ds & db & sb & Hr & Hguard & Hnext & Hd & Hs & E1).
  apply accept_guard_Ok in Hguard as (Ho & Ht & Em & Ev & Hp & _).
  pose proof (accept_bounded now1 now2 now3 o id r t next ds db sb gc gb s0
    Hg Hr Ho Ht Hp Hnext Hd Hs) as HB.
  set (r' := accepted_room now1 now2 now3 o t next ds db sb r) in *.
  destruct (trim_ok s1) as (s2 & E2 & Hok2 & _ & HT & _); [by rewrite E1|].
  pose proof (accept_tail_run t gc gb s1 s2 E2 Hok2) as Erun. unfold accept_tail in Erun.
  rewrite Erun. simpl.
  assert (rooms s1 = <[id := r']> (rooms s0)) as ER by (by rewrite E1).
  assert (∃ r0, rooms self !! id = Some r0 ∧ room_core r = room_core r0) as (r0 & Hr0 & E0).
  { specialize (HC id). rewrite Hr in HC. simpl in HC. symmetry in HC.
    apply fmap_Some in HC as (r0 & ? & ?). eauto. }
  assert (∃ k, rooms s2 !! id
    = Some (set_room_replay_ids (drop k (room_replay_ids r')) r')) as [k Hk].
  { specialize (HT id). rewrite ER, lookup_insert_eq in HT.
    inversion HT as [? r2 [k ->] EA EB|]. exists k. done. }
  exists r0, r, t, next, ds, db, sb, k. split_and!; try done.
  - by apply core_stands.
  - by destruct (good_room _ _ _ Hg Hr).
  - by apply accept_deliveries_Ok in Hd as (? & _).
  - transitivity (delete id (rooms s0)).
    { intros k0 r1 [Hne Hk0]%lookup_delete_Some.
      destruct (same_cores_stand _ _ HC k0 r1 Hk0) as (r2 & ? & ?). exists r2.
      by rewrite lookup_delete_ne. }
    intros k0 r1 [Hne Hk0]%lookup_delete_Some.
    destruct (all_trimmed_stand _ _ HT k0 r1) as (r2 & ? & ?).
    { by rewrite ER, lookup_insert_ne. }
    exists r2. by rewrite lookup_delete_ne.
Qed.
End stand.
