(* ===== verification/RoomFanout.v ===== *)
(** * Fan-out: which queue gets which delivery *)

From S2P Require Import Prelude RoomModel RoomValidation RoomDelivery RoomAuthority RoomMembership.
From S2P Require Import RoomApplication RoomSizes RoomInvariant RoomSweep.
From S2P Require Import RoomUpdate RoomApplicationFacts RoomSnapshotFacts RoomAcceptFacts.

(** ** Deliveries to distinct recipients *)

Abbreviation recipients ds := (pd_recipient_code_id <$> ds).

Lemma filter_recipient_one (ds : list PendingDelivery) d :
  NoDup (recipients ds) → d ∈ ds →
  filter (λ x, pd_recipient_code_id x = pd_recipient_code_id d) ds = [d].
Proof.
  induction ds as [|x ds IH]; intros Hnd Hd; [by apply elem_of_nil in Hd|].
  rewrite fmap_cons in Hnd. apply NoDup_cons in Hnd as [Hx Hnd].
  apply elem_of_cons in Hd as [->|Hd].
  - rewrite filter_cons_True by done. f_equal. apply list_filter_none.
    apply Forall_forall. intros y Hy E. apply Hx. rewrite <- E. by apply list_elem_of_fmap_2.
  - rewrite filter_cons_False; [by apply IH|]. intros E. apply Hx. rewrite E.
    by apply list_elem_of_fmap_2.
Qed.

Lemma filter_recipient_none (ds : list PendingDelivery) c :
  c ∉ recipients ds → filter (λ x, pd_recipient_code_id x = c) ds = [].
Proof.
  intros Hc. apply list_filter_none, Forall_forall. intros y Hy <-. apply Hc.
  by apply list_elem_of_fmap_2.
Qed.

(** Distinct names with distinct codes give distinct codes. *)
Lemma NoDup_codes (l : list (string * Member)) :
  NoDup l.*1 →
  (∀ u1 u2 m1 m2, (u1, m1) ∈ l → (u2, m2) ∈ l → mem_code_id m1 = mem_code_id m2 → u1 = u2) →
  NoDup ((λ um, mem_code_id um.2) <$> l).
Proof.
  induction l as [|[u m] l IH]; intros Hnd Hinj; [constructor|].
  apply NoDup_cons in Hnd as [Hu Hnd]. apply NoDup_cons. split.
  - intros Hin. apply list_elem_of_fmap in Hin as ([u2 m2] & E & Hin). simpl in *.
    assert (u = u2) as -> by (eapply Hinj; [by left|by right|done]).
    apply Hu, list_elem_of_fmap. by exists (u2, m2).
  - apply IH; [done|]. intros u1 u2 m1 m2 H1 H2. apply Hinj; by right.
Qed.

Lemma NoDup_filter_keys {V} (P : string * V → Prop) `{!∀ x, Decision (P x)} (m : gmap string V) :
  NoDup (filter P (btree_iter m)).*1.
Proof.
  assert (∀ l : list (string * V), NoDup l.*1 → NoDup (filter P l).*1) as Hf.
  { induction l as [|x l IH]; [done|]. intros [Hx Hnd]%NoDup_cons.
    rewrite filter_cons. destruct (decide (P x)); [|auto].
    apply NoDup_cons. split; [|auto]. intros Hin. apply Hx.
    apply list_elem_of_fmap in Hin as (y & -> & Hy%list_elem_of_filter).
    apply list_elem_of_fmap_2, Hy. }
  apply Hf, NoDup_btree_keys.
Qed.

(** ** A membership transition *)

Section transition.
Context (id : string) (r : RelayRoom) (t : MembershipTransition) (next : gmap string Member).
Hypothesis Hok : room_ok id r.
Hypothesis Hnext : resolve_next_roster r t = Ok next.

Let kept : list (string * Member) :=
  filter (λ um, mem_code_id um.2 ≠ room_owner_code_id r ∧ is_Some (next !! um.1))
    (btree_iter (room_members r)).
Let added : list (string * Member) :=
  filter (λ um, room_members r !! um.1 = None) (btree_iter next).

Lemma notified_in_next u m : (u, m) ∈ kept ++ added → next !! u = Some m.
Proof.
  intros [H|H]%elem_of_app; apply list_elem_of_filter in H as [H Hin%elem_of_btree_iter]; [|done].
  destruct H as [_ H]. by eapply next_keeps.
Qed.

Lemma NoDup_notified : NoDup ((λ um, mem_code_id um.2) <$> kept ++ added).
Proof.
  apply NoDup_codes.
  - rewrite fmap_app. apply NoDup_app. split_and!; try apply NoDup_filter_keys.
    intros u Hu Hu'. apply list_elem_of_fmap in Hu as ([u1 m1] & -> & H1).
    apply list_elem_of_fmap in Hu' as ([u2 m2] & E & H2). simpl in *. subst u2.
    apply list_elem_of_filter in H1 as [_ H1%elem_of_btree_iter].
    apply list_elem_of_filter in H2 as [H2 _]. simpl in *. congruence.
  - intros u1 u2 m1 m2 H1%notified_in_next H2%notified_in_next. by eapply next_codes_inj.
Qed.

Lemma membership_recipients ds :
  membership_deliveries r t next = Ok ds →
  recipients ds = (λ um, mem_code_id um.2) <$> kept ++ added.
Proof.
  unfold membership_deliveries. fold kept added. intros. run_ok.
  match goal with H : collect _ _ = _ |- _ => apply collect_Ok in H as HF end.
  rewrite !fmap_app, <- list_fmap_compose. f_equal.
  clear - HF. revert x HF. induction kept as [|[u m] l IH]; intros x HF; simpl in HF.
  - by inversion HF.
  - inversion HF as [|? d ? ds' Hd HF']; subst. simpl. f_equal; [|by apply IH].
    unfold commit_delivery in Hd. by run_ok.
Qed.

Lemma kept_delivery ds u m :
  membership_deliveries r t next = Ok ds →
  room_members r !! u = Some m → is_Some (next !! u) → mem_code_id m ≠ room_owner_code_id r →
  ∃ d, d ∈ ds ∧ commit_delivery r t m = Ok d.
Proof.
  unfold membership_deliveries. intros H Hm Hin Hne. run_ok.
  match goal with H : collect _ _ = _ |- _ => apply collect_Ok in H as HF end.
  assert (m ∈ (filter (λ um, mem_code_id um.2 ≠ room_owner_code_id r ∧ is_Some (next !! um.1))
    (btree_iter (room_members r))).*2) as Hl.
  { apply list_elem_of_fmap. exists (u, m). split; [done|]. apply list_elem_of_filter.
    split; [done|]. by apply elem_of_btree_iter. }
  apply list_elem_of_lookup in Hl as [i Hi].
  destruct (Forall2_lookup_l _ _ _ _ _ HF Hi) as (d & Hd & Hc). exists d.
  split; [|done]. apply elem_of_app. left. by eapply list_elem_of_lookup_2.
Qed.

Lemma added_delivery ds u m :
  membership_deliveries r t next = Ok ds →
  next !! u = Some m → room_members r !! u = None → welcome_delivery r t m ∈ ds.
Proof.
  unfold membership_deliveries. intros H Hm Hn. run_ok. apply elem_of_app. right.
  apply list_elem_of_fmap. exists (u, m). split; [done|]. apply list_elem_of_filter.
  split; [done|]. by apply elem_of_btree_iter.
Qed.

Lemma unnotified ds c :
  membership_deliveries r t next = Ok ds →
  (∀ u m, next !! u = Some m → mem_code_id m = c → c = room_owner_code_id r) →
  c ∉ recipients ds.
Proof.
  intros Hds Hc. rewrite (membership_recipients ds Hds). intros Hin.
  apply list_elem_of_fmap in Hin as ([u m] & -> & Hin). simpl in *.
  pose proof (notified_in_next _ _ Hin) as Hu. specialize (Hc u m Hu eq_refl).
  apply elem_of_app in Hin as [H|H]; apply list_elem_of_filter in H as [H Hin];
    [by destruct H|]. simpl in H.
  destruct (next_cases r t next Hnext u m Hu) as [?|(_ & j & Hj & _ & E & _)]; [congruence|].
  destruct (answered_not_member id r t Hok j Hj).
  destruct (ok_owner _ _ Hok) as (u0 & m0 & _ & ? & ? & _). exists u0, m0.
  split; [done|congruence].
Qed.

(** The queues after the deliveries of the transition are pushed. *)
Lemma transition_queues ds :
  room_pending_transition r = Some t → membership_deliveries r t next = Ok ds →
  let D' := push_deliveries ds (drop_codes (removed_codes r next) (room_deliveries r)) in
  default [] (D' !! room_owner_code_id r)
    = default [] (room_deliveries r !! room_owner_code_id r) ∧
  (∀ u x, next !! u = Some x → mem_code_id x ≠ room_owner_code_id r →
     match room_members r !! u with
     | Some _ => ∃ d, commit_delivery r t x = Ok d ∧
         default [] (D' !! mem_code_id x)
           = default [] (room_deliveries r !! mem_code_id x) ++ [d]
     | None => default [] (D' !! mem_code_id x) = [welcome_delivery r t x]
     end) ∧
  (∀ c, ¬ is_code next c → default [] (D' !! c) = []).
Proof.
  intros Ht Hds D'. subst D'.
  assert (NoDup (recipients ds)) as Hnd.
  { rewrite (membership_recipients ds Hds). apply NoDup_notified. }
  assert (∀ c, is_code next c →
    drop_codes (removed_codes r next) (room_deliveries r) !! c = room_deliveries r !! c) as Hkeep.
  { intros c Hc%elem_of_member_code_set. rewrite drop_codes_lookup, decide_False; [done|].
    unfold removed_codes. set_solver. }
  destruct (next_owner id r t next Hok Hnext (ok_staged _ _ Hok t Ht))
    as (uo & mo & _ & Huo & Hco & _).
  split_and!.
  - rewrite push_deliveries_lookup, Hkeep by (by exists uo, mo).
    rewrite filter_recipient_none; [by rewrite app_nil_r|].
    by apply unnotified.
  - intros u x Hx Hne.
    rewrite push_deliveries_lookup, Hkeep by (by exists u, x).
    destruct (room_members r !! u) as [x0|] eqn:Hu.
    + assert (x0 = x) as -> by
        (rewrite (next_keeps r t next Hnext u x0 Hu) in Hx by (by rewrite Hx); congruence).
      destruct (kept_delivery ds u x Hds Hu) as (d & Hd & Hcd); [by rewrite Hx|done|].
      exists d. split; [done|].
      assert (pd_recipient_code_id d = mem_code_id x) as <-
        by (unfold commit_delivery in Hcd; by run_ok).
      by rewrite filter_recipient_one.
    + assert (room_deliveries r !! mem_code_id x = None) as ->.
      { destruct (next_cases r t next Hnext u x Hx) as [?|(_ & j & Hj & _ & E & _)]; [congruence|].
        apply eq_None_not_Some. intros Hs%(ok_deliveries _ _ Hok). rewrite E in Hs.
        by eapply answered_not_member. }
      pose proof (added_delivery ds u x Hds Hx Hu) as Hd.
      exact (filter_recipient_one ds _ Hnd Hd).
  - intros c Hc. rewrite push_deliveries_lookup, drop_codes_lookup.
    rewrite filter_recipient_none, app_nil_r.
    + destruct (decide (c ∈ removed_codes r next)) as [|Hn]; [done|].
      destruct (room_deliveries r !! c) eqn:Hq; [|done]. destruct Hn. unfold removed_codes.
      rewrite elem_of_difference, elem_of_member_code_set, elem_of_union, elem_of_dom, Hq.
      split; [by left|done].
    + apply unnotified; [done|]. intros u x Hx <-. destruct Hc. by exists u, x.
Qed.
End transition.

(** ** An application *)

Section application.
Context {HO : HashOrder}.

(** What a successful admission checked and installed. *)
Lemma admit_room_Ok now sender p id m g e v d ct ad env s adm s' :
  admit_room now sender p id m g e v d ct ad env s = Ok (adm, s') →
  ∃ r exp cur u roster rs db sb pb,
    rooms s !! id = Some r ∧
    admit_guard now (pending_ttl_ms s) sender m g e v d r = Ok (exp, cur, u) ∧
    admit_recipients r sender = Ok rs ∧
    adm = mkAdmission m id u rs.*1 rs v e d ct ad env now exp ∧
    rooms s' = <[id := install_application r sender adm cur now
      (application_delivery id m sender p u e d ct ad now exp <$> rs) roster db sb pb]> (rooms s).
Proof.
  unfold admit_room, get_room. intros. run_ok.
  repeat match goal with x : _ * _ |- _ => destruct x | _ => progress run_ok end.
  simplify_eq. repeat eexists; eassumption.
Qed.

Lemma NoDup_others r sender id :
  room_ok id r →
  NoDup (mem_code_id <$> filter (λ m, mem_active m = true ∧ mem_code_id m ≠ sender)
           (btree_values (room_members r))).
Proof.
  intros Hok.
  assert (∀ l : list Member, NoDup (mem_code_id <$> l) →
    NoDup (mem_code_id <$> filter (λ m, mem_active m = true ∧ mem_code_id m ≠ sender) l)) as Hf.
  { induction l as [|x l IH]; [done|]. intros [Hx Hnd]%NoDup_cons. rewrite filter_cons.
    destruct (decide _); [|auto]. apply NoDup_cons. split; [|auto]. intros Hin. apply Hx.
    apply list_elem_of_fmap in Hin as (y & -> & Hy%list_elem_of_filter).
    apply list_elem_of_fmap_2, Hy. }
  apply Hf. unfold btree_values. rewrite <- list_fmap_compose. apply NoDup_codes.
  - apply NoDup_btree_keys.
  - intros u1 u2 m1 m2 H1%elem_of_btree_iter H2%elem_of_btree_iter.
    by eapply (ok_codes _ _ Hok).
Qed.

(** The queues after an admission. *)
Lemma admission_queues id r sender rs mid p u e d ct ad now exp :
  room_ok id r → admit_recipients r sender = Ok rs →
  let ds := application_delivery id mid sender p u e d ct ad now exp <$> rs in
  let D' := push_deliveries ds (room_deliveries r) in
  (∀ x c, mem_code_id x = c → mem_active x = true → c ≠ sender →
     (∃ k, room_members r !! k = Some x) →
     ∃ n, next_delivery_revision r c = Ok n ∧
       default [] (D' !! c) = default [] (room_deliveries r !! c)
         ++ [application_delivery id mid sender p u e d ct ad now exp (c, n)]) ∧
  (∀ c, (∀ k x, room_members r !! k = Some x → mem_code_id x = c →
           mem_active x = true → c = sender) →
     default [] (D' !! c) = default [] (room_deliveries r !! c)).
Proof.
  intros Hok Hrs ds D'. subst D'. destruct (admit_recipients_Ok _ _ _ Hrs) as [HF _].
  assert (recipients ds = mem_code_id <$> filter
    (λ m, mem_active m = true ∧ mem_code_id m ≠ sender) (btree_values (room_members r))) as Erc.
  { unfold ds. rewrite <- list_fmap_compose. clear -HF.
    induction HF as [|x cr l rs [E _] HF IH]; [done|]. rewrite !fmap_cons, IH. simpl. by f_equal. }
  assert (NoDup (recipients ds)) as Hnd by (rewrite Erc; by eapply NoDup_others).
  split.
  - intros x c Hc Hact Hne (k & Hk). rewrite push_deliveries_lookup.
    assert (x ∈ filter (λ m, mem_active m = true ∧ mem_code_id m ≠ sender)
      (btree_values (room_members r))) as Hx.
    { apply list_elem_of_filter. split; [split; [done|congruence]|].
      apply elem_of_btree_values. eauto. }
    apply list_elem_of_lookup in Hx as [i Hi].
    destruct (Forall2_lookup_l _ _ _ _ _ HF Hi) as ([c' n] & Hcr & E & Hn). simpl in *.
    exists n. rewrite <- Hc in *. split; [done|]. f_equal. subst c'.
    apply (filter_recipient_one ds
      (application_delivery id mid sender p u e d ct ad now exp (mem_code_id x, n)) Hnd).
    apply list_elem_of_fmap. eexists. split; [done|]. by eapply list_elem_of_lookup_2.
  - intros c Hc. rewrite push_deliveries_lookup, filter_recipient_none, app_nil_r; [done|].
    rewrite Erc. intros Hin. apply list_elem_of_fmap in Hin as (x & -> & Hin).
    apply list_elem_of_filter in Hin as [[? Hne] [k Hk]%elem_of_btree_values]. by eapply Hne, Hc.
Qed.
End application.
