(* ===== verification/RoomRollback.v ===== *)
(** * Expiry, replay and rollback

    What the sweep removes, and that a committed message is not admitted again
    while its identifier is remembered.  In a state with exact counters no
    accounting step of a rollback fails, and rolling back an application right
    after its admission restores the state the admission started from. *)

From S2P Require Import Prelude RoomModel RoomValidation RoomDelivery RoomAuthority RoomLifecycle.
From S2P Require Import RoomMembership RoomApplication RoomSnapshot RoomDemo RoomSizes.
From S2P Require Import RoomInvariant RoomSweep RoomUpdate RoomApplicationFacts RoomReachable.
From S2P Require Import RoomFanout RoomAcceptFacts.

(** ** What the sweep removes *)

(** The fields of a room no expired admission touches. *)
Definition requests (r : RelayRoom) :=
  (room_joins r, room_leaves r, room_pending_transition r, room_replay_ids r).

Section expiry.
Context {HO : HashOrder}.

Lemma expire_application_frame r m :
  requests (expire_application r m) = requests r ∧
  room_pending_applications (expire_application r m) = delete m (room_pending_applications r).
Proof.
  unfold expire_application.
  destruct (room_pending_applications r !! m) as [p|] eqn:Hp;
    [|by rewrite delete_id].
  set (r1 := set_room_pending_applications _ r).
  destruct (drop_all_sweeps m r1 (hash_keys (room_deliveries r1))) as (D' & b & -> & _).
  match goal with |- context [restore_snapshot ?a ?b ?r0] =>
    destruct (restore_snapshots_spec a b r0) as (S' & -> & _) end.
  done.
Qed.

Lemma expire_applications_frame r ms :
  requests (foldl expire_application r ms) = requests r ∧
  ∀ k, room_pending_applications (foldl expire_application r ms) !! k
    = if decide (k ∈ ms) then None else room_pending_applications r !! k.
Proof.
  revert r. induction ms as [|m ms IH]; intros r; cbn [foldl]; [done|].
  destruct (IH (expire_application r m)) as [E HP].
  destruct (expire_application_frame r m) as [E' HP']. split; [congruence|].
  intros k. rewrite HP, HP'. destruct (decide (k = m)) as [->|Hne].
  - rewrite lookup_delete_eq, (decide_True (P := m ∈ m :: ms)) by set_solver.
    by destruct (decide _).
  - rewrite lookup_delete_ne by done. destruct (decide (k ∈ ms)).
    + by rewrite decide_True by set_solver.
    + by rewrite decide_False by set_solver.
Qed.

(** The requests, transition and admissions the sweep leaves. *)
Definition unexpired (now ttl : Z) (r r' : RelayRoom) : Prop :=
  room_joins r' = retain (λ _ j, bool_decide (now < jr_expires_at_ms (pj_request j))) (room_joins r) ∧
  room_leaves r' = retain (λ _ l, bool_decide (now < lr_expires_at_ms l)) (room_leaves r) ∧
  (∀ t, room_pending_transition r' = Some t ↔
     room_pending_transition r = Some t ∧ now < mt_expires_at_ms t) ∧
  (∀ k p, room_pending_applications r' !! k = Some p ↔
     room_pending_applications r !! k = Some p ∧ now < aa_expires_at_ms (pa_admission p)) ∧
  room_replay_ids r' = drop_replays now ttl (room_replay_ids r) ∧
  (∀ c q, room_deliveries r' !! c = Some q → q ≠ []).

Lemma no_empty_queues (D : gmap CodeId (list PendingDelivery)) c (q : list PendingDelivery) :
  retain (λ _ q, bool_decide (q ≠ [])) D !! c = Some q → q ≠ [].
Proof. intros [_ ?]%retain_lookup_Some. by split_bools. Qed.

Lemma prune_admissions_frame now r :
  let r' := prune_room_admissions now r in
  room_replay_ids r' = room_replay_ids r ∧
  unexpired now 0 (set_room_replay_ids [] r) (set_room_replay_ids [] r').
Proof.
  unfold prune_room_admissions, drop_empty_queues.
  set (r1 := set_room_leaves _ _).
  set (r2 := match room_pending_transition r1 with Some _ => _ | None => _ end).
  set (ms := (filter _ _).*1).
  destruct (expire_applications_frame r2 ms) as [E HP]. unfold requests in E.
  injection E as Ej El Et Er.
  assert (requests (set_room_pending_transition None r2)
          = requests (set_room_pending_transition None r1) ∧
          room_pending_applications r2 = room_pending_applications r) as [E2 Ep].
  { subst r2. destruct (room_pending_transition r1); [|done]. by destruct (decide _). }
  unfold requests in E2. injection E2 as Ej2 El2 Er2. simpl in *.
  unfold unexpired. simpl. rewrite Ej, El, Et, Er, Ej2, El2, Er2.
  split; [done|]. split_and!; [done|done| | |done|intros c q; apply no_empty_queues].
  - intros t. subst r2. change (room_pending_transition r1) with (room_pending_transition r).
    destruct (room_pending_transition r) as [t0|] eqn:E0; simpl; [|naive_solver].
    destruct (decide (mt_expires_at_ms t0 ≤ now)); simpl; naive_solver lia.
  - intros k p. rewrite HP, Ep. subst ms. rewrite Ep.
    destruct (decide (k ∈ _)) as [Hin|Hin].
    + split; [done|]. intros [Hk Hlt]. apply list_elem_of_fmap in Hin as ([k' p'] & -> & Hin).
      apply list_elem_of_filter in Hin as [Hexp Hin]. simpl in *.
      rewrite hash_iter_perm, elem_of_map_to_list in Hin. simplify_eq. lia.
    + split; [|naive_solver]. intros Hk. split; [done|].
      destruct (decide (now < aa_expires_at_ms (pa_admission p))); [done|].
      destruct Hin. apply list_elem_of_fmap. exists (k, p). split; [done|].
      apply list_elem_of_filter. split; [simpl; lia|].
      by rewrite hash_iter_perm, elem_of_map_to_list.
Qed.

Lemma prune_room_unexpired now ttl r g : unexpired now ttl r (prune_room now ttl (r, g)).1.
Proof.
  unfold prune_room. cbv beta iota zeta.
  destruct (prune_admissions_frame now r) as [Er (Ej & El & Et & Ep & _)].
  set (r1 := prune_room_admissions now r) in *. clearbody r1. simpl in Er, Ej, El, Et, Ep.
  match goal with |- context [prune_expired_application_deliveries now (?r5, g)] =>
    set (r5' := r5) end.
  destruct (expire_recipients_frame now (hash_keys (room_deliveries r5')) r5' g)
    as (D & G & E6).
  unfold prune_expired_application_deliveries.
  destruct (expire_recipients now _ (r5', g)) as [res [r6 g6]]. simpl in E6. subst r6 r5'.
  simpl. unfold unexpired. rewrite <- Ej, <- El, <- Er.
  destruct res; split_and!; try done; intros c q; apply no_empty_queues.
Qed.

Lemma prune_rooms_lookup now ttl l m g id r :
  NoDup l.*1 → (id, r) ∈ l →
  ∃ g', (prune_rooms now ttl l (m, g)).1 !! id = Some (prune_room now ttl (r, g')).1.
Proof.
  unfold prune_rooms. revert m g. induction l as [|[k r0] l IH]; intros m g; cbn [foldl];
    [by intros _ ?%elem_of_nil|].
  intros [Hk Hnd]%NoDup_cons Hin.
  destruct (prune_room now ttl (r0, g)) as [r0' g0] eqn:E.
  apply elem_of_cons in Hin as [[= -> ->]|Hin]; [|by apply IH].
  exists g. rewrite E. simpl.
  assert (∀ l (m : gmap string RelayRoom) g, k ∉ l.*1 →
    (foldl (λ '(m, global) '(id, room),
       let '(room', global') := prune_room now ttl (room, global) in
       (<[id := room']> m, global')) (m, g) l).1 !! k = m !! k) as Hout.
  { clear. induction l as [|[k' r'] l IH]; intros m g Hk; [done|]. cbn [foldl].
    apply not_elem_of_cons in Hk as [? ?].
    destruct (prune_room now ttl (r', g)) as [r2 g2]. rewrite IH by done.
    by rewrite lookup_insert_ne. }
  rewrite Hout by done. by rewrite lookup_insert_eq.
Qed.

Lemma prune_expired_lookup now self id r :
  authority_ok self → rooms self !! id = Some r →
  ∃ r', rooms (prune_expired now self) !! id = Some r' ∧
    unexpired now (replay_ttl_ms self) r r'.
Proof.
  intros Hok Hr. destruct (prune_expired_spec now self Hok) as (R' & _ & _ & _ & _ & -> & g & ->).
  destruct (prune_rooms_lookup now (replay_ttl_ms self) (hash_iter (rooms self)) (rooms self) g id r)
    as (g' & Hg').
  { apply NoDup_hash_keys. }
  { by rewrite hash_iter_perm, elem_of_map_to_list. }
  simpl. rewrite Hg'. eexists. split; [done|]. apply prune_room_unexpired.
Qed.
End expiry.

(** ** Replay *)

(** An identifier of a room's list, with what was registered after it. *)
Lemma drop_replays_split now ttl before k created after :
  saturating_sub now created < ttl →
  ∃ before', drop_replays now ttl (before ++ (k, created) :: after) = before' ++ (k, created) :: after.
Proof.
  intros Hlt. induction before as [|[k' c'] before IH]; simpl.
  - rewrite decide_False by lia. by exists [].
  - destruct (decide _); [done|]. by exists ((k', c') :: before).
Qed.
Lemma push_replay_split x before e after :
  len after + 1 < MAX_REPLAY_IDS →
  ∃ before', push_replay x (before ++ e :: after) = before' ++ e :: (after ++ [x]).
Proof.
  intros Hlen. unfold push_replay. destruct (decide _) as [Hfull|]; [|exists before; by rewrite <- app_assoc].
  destruct before as [|y before]; [rewrite app_nil_l, len_cons in Hfull; lia|].
  exists before. simpl. by rewrite <- app_assoc.
Qed.

Lemma has_replay_spec key r :
  has_replay key r = true ↔ ∃ created, (key, created) ∈ room_replay_ids r.
Proof.
  unfold has_replay. rewrite existsb_exists. split.
  - intros ([k c] & Hin & Hk). split_bools. simpl in Hk. subst k.
    exists c. by apply list_elem_of_In.
  - intros [c Hc]. exists (key, c). split; [by apply list_elem_of_In|].
    by apply bool_decide_eq_true.
Qed.

Section replay.
Context {HO : HashOrder}.

Lemma trim_noop_rooms self self' :
  map_sum m_replay (rooms self) ≤ MAX_GLOBAL_REPLAY_IDS →
  trim_replay_ids self = (Ok tt, self') → rooms self' = rooms self ∧ config self' = config self.
Proof. intros Hle. rewrite trim_replay_ids_id by done. by intros [= <-]. Qed.

(** The sweep removes what expired and nothing else: of a room's join
    requests, leave requests, staged transition and admissions, exactly those
    with a deadline after [now] remain, unchanged. *)
Theorem sweep_drops_expired max_rooms ttl now self id r :
  reachable max_rooms ttl self → rooms self !! id = Some r →
  ∃ r', rooms (prune_expired now self) !! id = Some r' ∧
    (∀ k j, room_joins r' !! k = Some j ↔
       room_joins r !! k = Some j ∧ now < jr_expires_at_ms (pj_request j)) ∧
    (∀ k l, room_leaves r' !! k = Some l ↔
       room_leaves r !! k = Some l ∧ now < lr_expires_at_ms l) ∧
    (∀ t, room_pending_transition r' = Some t ↔
       room_pending_transition r = Some t ∧ now < mt_expires_at_ms t) ∧
    (∀ k p, room_pending_applications r' !! k = Some p ↔
       room_pending_applications r !! k = Some p ∧ now < aa_expires_at_ms (pa_admission p)).
Proof.
  intros [Hok _]%reachable_ok Hr.
  destruct (prune_expired_lookup now self id r Hok Hr) as (r' & Hr' & Ej & El & Et & Ep & _).
  exists r'. rewrite Ej, El. split_and!; try done; intros k x;
    rewrite retain_lookup_Some, bool_decide_eq_true; done.
Qed.

(** The identifier stays in the list of its room, and nothing is registered. *)
Definition recalls (e : ReplayKey * Z) (r r' : RelayRoom) : Prop :=
  ∀ before after, room_replay_ids r = before ++ e :: after →
    ∃ before', room_replay_ids r' = before' ++ e :: after.
#[local] Instance recalls_preorder e : PreOrder (recalls e).
Proof.
  split; [by intros r before after E; eauto|]. intros r1 r2 r3 H1 H2 before after E.
  destruct (H1 _ _ E) as [b2 E2]. eauto.
Qed.

(** The identifier is in the list of room [id], and at most [k] were registered
    there after it. *)
Definition recalled (id : string) (e : ReplayKey * Z) (k : Z) (self : RoomAuthority) : Prop :=
  ∃ r before after, rooms self !! id = Some r ∧
    room_replay_ids r = before ++ e :: after ∧ len after ≤ k.

Lemma recalled_rel id e k self R' :
  recalled id e k self → all_rel (recalls e) (rooms self) R' →
  ∃ r before after, R' !! id = Some r ∧ room_replay_ids r = before ++ e :: after ∧ len after ≤ k.
Proof.
  intros (r & b & a & Hr & E & Hl) HR. destruct (HR id r Hr) as (r' & Hr' & HQ).
  destruct (HQ _ _ E) as [b' E']. by exists r', b', a.
Qed.

Lemma sweep_recalls key created now self :
  saturating_sub now created < replay_ttl_ms self → authority_ok self →
  all_rel (recalls (key, created)) (rooms self) (rooms (prune_expired now self)).
Proof.
  intros Ht Hok id r Hr.
  destruct (prune_expired_lookup now self id r Hok Hr) as (r' & Hr' & _ & _ & _ & _ & E & _).
  exists r'. split; [done|]. intros before after Eb. rewrite E, Eb. by apply drop_replays_split.
Qed.

Lemma prune_total_replay now self :
  authority_ok self → total m_replay (prune_expired now self) ≤ total m_replay self.
Proof.
  intros Hok. destruct (prune_expired_spec now self Hok) as (R' & HS & _ & _ & _ & -> & _).
  unfold total. simpl. apply map_sum_mono; [nonneg|]. intros id r' Hr'.
  destruct (HS id r' Hr') as (r & Hr & _ & Hsw & _). exists r. split; [done|].
  destruct (Hsw (ok_rooms _ Hok _ _ Hr)) as [_ (_ & _ & _ & ? & _)]. done.
Qed.

(** The rooms after a commit and after an acceptance that do not fill the store. *)
Lemma commit_rooms now id m self :
  authority_ok self → total m_replay self < MAX_GLOBAL_REPLAY_IDS →
  match commit_application now id m self with
  | (Err _, self') => rooms self' = rooms self
  | (Ok _, self') => ∃ r b, rooms self !! id = Some r ∧
      rooms self' = <[id := committed now m b r]> (rooms self)
  end.
Proof.
  intros Hok Htot. unfold commit_application.
  destruct (commit_room now id m self) as [s|e0] eqn:E; [|done].
  apply commit_room_Ok in E as (r & pa & Hr & _ & _ & Es). cbv zeta in Es.
  match type of Es with context [committed now m ?b r] => set (b0 := b) in Es end.
  assert (rooms s = <[id := committed now m b0 r]> (rooms self)) as ER by (by rewrite Es).
  rewrite trim_replay_ids_id; [by exists r, b0|].
  rewrite ER, map_sum_insert. unfold at_key. rewrite Hr. unfold total in Htot.
  pose proof (push_replay_len_le (ReplayKey.application m, now) (room_replay_ids r)).
  unfold m_replay at 2 3. simpl. lia.
Qed.

Lemma accept_rooms now0 now1 now2 now3 o id m v self :
  authority_ok self → total m_replay self < MAX_GLOBAL_REPLAY_IDS →
  match accept_membership now0 now1 now2 now3 o id m v self with
  | (Err _, self') => rooms self' = rooms (prune_expired now0 self)
  | (Ok _, self') => ∃ r r' x, rooms (prune_expired now0 self) !! id = Some r ∧
      rooms self' = <[id := r']> (rooms (prune_expired now0 self)) ∧
      room_replay_ids r' = push_replay x (room_replay_ids r)
  end.
Proof.
  intros Hok Htot. unfold accept_membership. destruct (prune_keeps now0 self Hok) as [Hg _].
  pose proof (prune_total_replay now0 self Hok) as Hle.
  set (s0 := prune_expired now0 self) in *. clearbody s0.
  destruct (accept_room _ _ _ _ _ _ _ s0) as [[[[t gc] gb] s1]|e] eqn:E; [|done].
  apply accept_room_Ok in E as (r & next & ds & db & sb & Hr & Hguard & Hnext & Hd & Hs & E1).
  apply accept_guard_Ok in Hguard as (Ho & Ht & Em & Ev & Hp & _).
  pose proof (accept_bounded now1 now2 now3 o id r t next ds db sb gc gb s0
    Hg Hr Ho Ht Hp Hnext Hd Hs) as HB.
  set (r' := accepted_room now1 now2 now3 o t next ds db sb r) in *.
  assert (room_replay_ids r'
    = push_replay (ReplayKey.membership (mt_message_id t), now1) (room_replay_ids r)) as Erep.
  { unfold r'. by destruct (accepted_shape now1 now2 now3 o t next ds db sb r) as (L & ->). }
  assert (rooms s1 = <[id := r']> (rooms s0)) as ER by (by rewrite E1).
  destruct (trim_ok s1) as (s2 & E2 & Hok2 & _); [by rewrite E1|].
  pose proof (accept_tail_run t gc gb s1 s2 E2 Hok2) as Erun. unfold accept_tail in Erun.
  rewrite Erun. simpl. apply trim_noop_rooms in E2 as [E2 _].
  - exists r, r', (ReplayKey.membership (mt_message_id t), now1). by rewrite E2.
  - rewrite ER, map_sum_insert. unfold at_key. rewrite Hr. unfold total in *.
    pose proof (push_replay_len_le (ReplayKey.membership (mt_message_id t), now1) (room_replay_ids r)).
    unfold m_replay at 2 3. rewrite Erep. lia.
Qed.

(** ** Operations within the replay window *)

(** Whether an operation registers an identifier, and whether in room [id]. *)
Definition registers (op : Op) : bool :=
  match op with AcceptMembership _ _ _ _ _ _ _ _ | CommitApplication _ _ _ => true | _ => false end.
Definition registers_in (id : string) (op : Op) : bool :=
  match op with
  | AcceptMembership _ _ _ _ _ room _ _ | CommitApplication _ room _ => bool_decide (room = id)
  | _ => false
  end.

(** Sequences of operations while an identifier registered at [created] in room
    [id] is remembered: the clock stays within the replay window, the room is not
    deleted and the store of identifiers is not full when one is registered.  The
    number counts the successful registrations in the room. *)
Inductive window_run (id : string) (created : Z) (self0 : RoomAuthority) : Z → RoomAuthority → Prop :=
| window_start : window_run id created self0 0 self0
| window_next k self op :
    window_run id created self0 k self →
    Forall (λ now, saturating_sub now created < replay_ttl_ms self) (op_times op) →
    is_Some (rooms (perform self op) !! id) →
    (registers op = true → total m_replay self < MAX_GLOBAL_REPLAY_IDS) →
    window_run id created self0
      (k + if registers_in id op && (RoomReachable.run op self).1 then 1 else 0) (perform self op).

Lemma registered_recalled id e k (R : gmap string RelayRoom) id' r r' x room before after :
  R !! id' = Some r → room_replay_ids r' = push_replay x (room_replay_ids r) →
  R !! id = Some room → room_replay_ids room = before ++ e :: after → len after ≤ k →
  k + (if bool_decide (id' = id) then 1 else 0) < MAX_REPLAY_IDS →
  ∃ room before after, <[id' := r']> R !! id = Some room ∧
    room_replay_ids room = before ++ e :: after ∧
    len after ≤ k + if bool_decide (id' = id) then 1 else 0.
Proof.
  intros Hr Er Hroom E Hl Hk. destruct (decide (id' = id)) as [->|Hne].
  - assert (room = r) as -> by congruence. rewrite bool_decide_true in * by done.
    destruct (push_replay_split x before e after) as [b' Eb]; [lia|].
    exists r', b', (after ++ [x]). rewrite lookup_insert_eq, Er, E. split_and!; [done|done|].
    rewrite len_app, len_cons, len_nil. lia.
  - rewrite bool_decide_false in * by done. exists room, before, after. rewrite lookup_insert_ne by done.
    split_and!; [done|done|lia].
Qed.

Lemma perform_recalled id key created k self op :
  authority_ok self → recalled id (key, created) k self →
  k + (if registers_in id op && (RoomReachable.run op self).1 then 1 else 0) < MAX_REPLAY_IDS →
  Forall (λ now, saturating_sub now created < replay_ttl_ms self) (op_times op) →
  is_Some (rooms (perform self op) !! id) →
  (registers op = true → total m_replay self < MAX_GLOBAL_REPLAY_IDS) →
  recalled id (key, created)
    (k + if registers_in id op && (RoomReachable.run op self).1 then 1 else 0) (perform self op).
Proof.
  intros Hok Hrec Hk Ht Hsome Htot.
  set (Q := recalls (key, created)).
  assert (∀ r r', stands r r' → room_replay_ids r' = room_replay_ids r → Q r r') as HQ1.
  { intros r r' _ E before after Eb. exists before. congruence. }
  assert (∀ now, saturating_sub now created < replay_ttl_ms self →
    all_rel Q (rooms self) (rooms (prune_expired now self))) as HQ2
    by (intros; by apply sweep_recalls).
  destruct (routine op) eqn:Hop.
  { assert (registers_in id op = false) as -> by (by destruct op). simpl. rewrite Z.add_0_r.
    eapply recalled_rel; [exact Hrec|]. 
    by apply (perform_frame Q (λ now, saturating_sub now created < replay_ttl_ms self)). }
  destruct op; try done; unfold perform, RoomReachable.run, outcome in *; cbn [fst snd] in *;
    simpl registers_in in *; cbn [andb] in *; simpl in Ht.
  - apply Forall_cons in Ht as [Ht _].
    rewrite Z.add_0_r. destruct Hrec as (r & b & a & Hr & E & Hl), Hsome as [r' Hr'].
    pose proof (delete_room_frame Q _ self HQ2 now owner room id r r' Ht Hr Hr') as HQ.
    destruct (HQ _ _ E) as [b' E']. by exists r', b', a.
  - by destruct Hsome as [? ?].
  - apply Forall_cons in Ht as [Ht _].
    pose proof (accept_rooms now0 now1 now2 now3 owner room message revision self Hok (Htot eq_refl)) as HA.
    destruct (recalled_rel _ _ _ _ _ Hrec (sweep_recalls key created now0 self Ht Hok))
      as (r0 & b & a & Hr0 & E & Hl).
    destruct (accept_membership _ _ _ _ _ _ _ _ self) as [[res|e] s']; simpl in *.
    + destruct HA as (r & r' & x & Hr & ER & Ex). rewrite andb_true_r in *. unfold recalled. rewrite ER.
      by eapply registered_recalled.
    + rewrite andb_false_r, Z.add_0_r. exists r0, b, a. by rewrite HA.
  - pose proof (commit_rooms now room message self Hok (Htot eq_refl)) as HA.
    destruct Hrec as (r0 & b & a & Hr0 & E & Hl).
    destruct (commit_application _ _ _ self) as [[res|e] s']; simpl in *.
    + destruct HA as (r & z & Hr & ER). rewrite andb_true_r in *. unfold recalled. rewrite ER.
      by eapply registered_recalled.
    + rewrite andb_false_r, Z.add_0_r. exists r0, b, a. by rewrite HA.
Qed.

Lemma window_run_ok id created self0 k self :
  authority_ok self0 → window_run id created self0 k self →
  authority_ok self ∧ config self = config self0 ∧ 0 ≤ k.
Proof.
  intros Hok. induction 1 as [|k self op Hr (IH1 & IH2 & IH3) Ht Hs Htot]; [done|].
  destruct (perform_ok self op IH1) as [? ?]. split_and!; [done|congruence|].
  destruct (_ && _); lia.
Qed.
Lemma window_run_recalled id key created self0 k self :
  authority_ok self0 → recalled id (key, created) 0 self0 →
  window_run id created self0 k self → k < MAX_REPLAY_IDS →
  recalled id (key, created) k self.
Proof.
  intros Hok Hrec. induction 1 as [|k self op Hr IH Ht Hs Htot]; intros Hk; [done|].
  destruct (window_run_ok _ _ _ _ _ Hok Hr) as (Hok' & _ & _).
  apply perform_recalled; try done. apply IH. destruct (_ && _); lia.
Qed.

(** C21: a committed application is not admitted twice.  For as long as the replay
    window lasts, every later admission under the same message identifier in that
    room is refused, whatever operations came in between, provided the room was not
    deleted, fewer than 2048 other identifiers were registered in it since (by
    commits and acceptances), and the relay's store of identifiers was never full
    when one was registered (then the oldest ones are forgotten). *)
Theorem committed_not_readmitted max_rooms ttl now id m self self' k self'' now' sender p g e v d
    ct ad env :
  reachable max_rooms ttl self →
  commit_application now id m self = (Ok tt, self') →
  total m_replay self < MAX_GLOBAL_REPLAY_IDS →
  window_run id now self' k self'' → k < MAX_REPLAY_IDS →
  saturating_sub now' now < replay_ttl_ms self →
  is_ok (admit_application_for_platform now' sender p id m g e v d ct ad env self'').1 = false.
Proof.
  intros [Hok _]%reachable_ok Hcommit Htot Hrun Hk Httl.
  pose proof (commit_ok now id m self Hok) as (Hok' & Hc' & _). rewrite Hcommit in Hok', Hc'.
  simpl in Hok', Hc'. pose proof (commit_rooms now id m self Hok Htot) as HC. rewrite Hcommit in HC.
  destruct HC as (r & b & Hr & ER).
  assert (recalled id (ReplayKey.application m, now) 0 self') as Hrec.
  { eexists _, _, []. rewrite ER, lookup_insert_eq. by split_and!. }
  destruct (window_run_ok _ _ _ _ _ Hok' Hrun) as (Hok'' & Hc'' & _).
  pose proof (window_run_recalled _ _ _ _ _ _ Hok' Hrec Hrun Hk) as Hrec''.
  assert (saturating_sub now' now < replay_ttl_ms self'') as Ht by (unfold config in *; congruence).
  destruct (recalled_rel _ _ _ _ _ Hrec'' (sweep_recalls _ _ now' self'' Ht Hok''))
    as (r2 & b2 & a2 & Hr2 & E2 & _).
  assert (has_replay (ReplayKey.application m) r2 = true) as Hrep.
  { apply has_replay_spec. exists now. rewrite E2. set_solver. }
  unfold admit_application_for_platform, after_prune.
  destruct (admit_room _ _ _ _ _ _ _ _ _ _ _ _ _) as [[adm s2]|e0] eqn:Ea; [|done].
  apply admit_room_Ok in Ea as (r3 & exp & cur & u & ro & rs & db & sb & pb & Hr3 & Hg & _).
  assert (r3 = r2) as -> by congruence.
  apply admit_guard_Ok in Hg as (_&_&_&_&_&_&_&_&_&_&_&_&Hno). congruence.
Qed.
End replay.

(** Treat the totals of a state as opaque numbers. *)
Ltac hide_totals s :=
  repeat match goal with
  | H : context [total ?m s] |- _ =>
      let x := fresh "T" in set (x := total m s) in *; clearbody x
  end.

Section totals.
Context {HO : HashOrder}.

Lemma map_sum_le {K V} `{Countable K} (f g : V → Z) (m : gmap K V) :
  (∀ v, f v ≤ g v) → map_sum f m ≤ map_sum g m.
Proof.
  intros Hfg. induction m as [|k v m Hk IH] using map_ind; [by rewrite !map_sum_empty|].
  rewrite !map_sum_insert_None by done. specialize (Hfg v). lia.
Qed.

Lemma of_message_sums (m : string) (D : gmap CodeId (list PendingDelivery)) :
  0 ≤ map_sum (len ∘ of_message m) D ≤ map_sum len D ∧
  0 ≤ map_sum (queue_bytes ∘ of_message m) D ≤ map_sum queue_bytes D.
Proof.
  repeat split.
  - apply map_sum_nonneg. intros q. apply len_nonneg.
  - apply map_sum_le. intros q. apply len_filter_le.
  - apply map_sum_nonneg. intros q. apply queue_bytes_nonneg.
  - apply map_sum_le. intros q. apply queue_bytes_filter.
Qed.

Lemma at_key_le {K V} `{Countable K} (f : V → Z) k (m : gmap K V) :
  (∀ v, 0 ≤ f v) → 0 ≤ at_key f k m ≤ map_sum f m.
Proof.
  intros Hf. split; [by apply at_key_nonneg|]. unfold at_key.
  destruct (m !! k) eqn:E; [by eapply map_sum_entry_le|by apply map_sum_nonneg].
Qed.

(** The size computations of a rollback, without failures. *)
Lemma rollback_sizes id r m p :
  room_ok id r → swept_fits r → m_delivery_count r ≤ usize_MAX →
  room_pending_applications r !! m = Some p →
  admission_bytes p m = Ok (pending_bytes_of p) ∧
  checked_sum ((λ q, len (filter (λ d, pd_message_id d = m) q)) <$> hash_values (room_deliveries r))
    = Some (map_sum (len ∘ of_message m) (room_deliveries r)) ∧
  delivery_bytes (filter (λ d, pd_message_id d = m) (concat (hash_values (room_deliveries r))))
    = Ok (map_sum (queue_bytes ∘ of_message m) (room_deliveries r)) ∧
  stored_snapshot_bytes r (pa_sender_code_id p)
    = Ok (at_key snapshot_bytes_of (pa_sender_code_id p) (room_snapshots r)) ∧
  match pa_previous_snapshot p with Some s => snapshot_size s | None => Ok 0 end
    = Ok (restored_bytes p) ∧ 0 ≤ restored_bytes p ≤ SNAPSHOT_BOUND.
Proof.
  intros Hok (F1 & F2 & F3) Fc Hp.
  destruct (of_message_sums m (room_deliveries r)) as [Hc Hb].
  destruct (ok_pending _ _ Hok m p Hp) as (Hmid & _ & _ & Hprev).
  pose proof (map_sum_entry_le pending_bytes_of _ _ _ pending_bytes_nonneg Hp) as Hpb.
  pose proof (at_key_le snapshot_bytes_of (pa_sender_code_id p) (room_snapshots r)
    snapshot_bytes_nonneg) as Hsb.
  unfold m_pending_bytes, m_delivery_bytes, m_delivery_count in *. split_and!.
  - unfold admission_bytes. rewrite <- Hmid at 1.
    pose proof (measure_fits (f := pending_app_bytes) (g := pending_bytes_of) p ltac:(lia)) as E.
    unfold pending_app_bytes in E. by rewrite E.
  - change (λ q, len (filter (λ d, pd_message_id d = m) q)) with (len ∘ of_message m).
    apply checked_sum_map; [intros q; apply len_nonneg|lia].
  - rewrite <- filter_concat_bytes in Hb |- *. apply delivery_bytes_fits. lia.
  - unfold stored_snapshot_bytes. unfold at_key in *. destruct (room_snapshots r !! _); [|done].
    apply snapshot_size_fits. lia.
  - unfold restored_bytes. destruct (pa_previous_snapshot p) as [s|]; [|done].
    apply snapshot_size_fits. specialize (Hprev s eq_refl). limits.
  - unfold restored_bytes. destruct (pa_previous_snapshot p) as [s|]; [|done].
    apply snapshot_bytes_nonneg.
  - unfold restored_bytes. destruct (pa_previous_snapshot p) as [s|]; [auto|].
    unfold SNAPSHOT_BOUND, MAX_STATE_BYTES. lia.
Qed.

(** With exact counters every accounting step of a rollback succeeds. *)
Lemma rollback_totals_run id m s r p :
  good s → rooms s !! id = Some r → room_pending_applications r !! m = Some p →
  ∃ plan, rollback_totals id m s = Ok plan ∧ rb_pending plan = p.
Proof.
  intros [Ha He] Hr Hp. pose proof (ok_rooms _ Ha _ _ Hr) as Hrok.
  pose proof Ha as [HB _]%authority_bounded.
  pose proof (bounded_room_fits _ _ _ _ _ HB Hr) as Hfit.
  pose proof (total_room_le m_delivery_count s id r ltac:(nonneg) Hr) as Tc.
  pose proof (total_room_le m_delivery_bytes s id r ltac:(nonneg) Hr) as Tb.
  pose proof (total_room_le m_pending_count s id r ltac:(nonneg) Hr) as Tp.
  pose proof (total_room_le m_pending_bytes s id r ltac:(nonneg) Hr) as Tpb.
  pose proof (total_room_le m_snapshot_count s id r ltac:(nonneg) Hr) as Ts.
  pose proof (total_room_le m_snapshot_bytes s id r ltac:(nonneg) Hr) as Tsb.
  pose proof (snapshot_total_bound _ (ok_rooms _ Ha)) as Hsb.
  destruct (ex_rooms _ He _ _ Hr) as (X1 & X2 & X3).
  destruct (rollback_sizes id r m p Hrok Hfit) as (E1 & E2 & E3 & E4 & E5 & HR); [|done|].
  { destruct Ha. lia. }
  destruct (of_message_sums m (room_deliveries r)) as [Hc Hb].
  pose proof (map_sum_entry_le pending_bytes_of _ _ _ pending_bytes_nonneg Hp) as Hpb.
  pose proof (pending_bytes_nonneg p).
  pose proof (at_key_le snapshot_bytes_of (pa_sender_code_id p) (room_snapshots r)
    snapshot_bytes_nonneg) as Hkey.
  pose proof (map_sum_nonneg _ (room_joins r) join_bytes_nonneg).
  pose proof (map_len_nonneg (room_joins r)).
  assert (1 ≤ map_len (room_pending_applications r)) as Hlen.
  { pose proof (map_len_nonneg (delete m (room_pending_applications r))) as Hd.
    rewrite map_len_delete in Hd. unfold contains_key in Hd. rewrite Hp in Hd. lia. }
  assert (0 ≤ (if contains_key (pa_sender_code_id p) (room_snapshots r) then 1 else 0)
          ≤ map_len (room_snapshots r)) as Hcc.
  { split; [by destruct (contains_key _ _)|]. pose proof (map_len_nonneg (delete (pa_sender_code_id p) (room_snapshots r))) as Hd.
    rewrite map_len_delete in Hd. lia. }
  change (map_sum m_snapshot_bytes (rooms s)) with (total m_snapshot_bytes s) in Hsb.
  change (map_sum m_snapshot_count (rooms s)) with (total m_snapshot_count s) in Hsb.
  destruct He, Ha. hide_totals s.
  unfold m_delivery_count, m_delivery_bytes, m_pending_count, m_pending_bytes,
    m_snapshot_count, m_snapshot_bytes in *.
  assert (0 ≤ match pa_previous_snapshot p with Some _ => 1 | None => 0 end ≤ 1) as Hrc
    by (destruct (pa_previous_snapshot p); lia).
  eexists. unfold rollback_totals, get_room. rewrite Hr. simpl. rewrite Hp. simpl.
  rewrite E1. simpl. rewrite (checked_sub_ok (room_pending_bytes r)) by lia. simpl.
  rewrite E2, E3. simpl. rewrite (checked_sub_ok (room_delivery_bytes r)) by lia. simpl.
  rewrite E4. simpl. rewrite E5. simpl.
  rewrite (checked_sub_ok (room_snapshot_bytes r)) by lia. simpl.
  rewrite (checked_add_ok _ (room_snapshot_bytes r - _)) by limits. simpl.
  rewrite (checked_sub_ok (global_pending_count s)) by lia. simpl.
  rewrite (checked_sub_ok (global_pending_bytes s)) by lia. simpl.
  rewrite (checked_sub_ok (global_delivery_count s)) by lia. simpl.
  rewrite (checked_sub_ok (global_delivery_bytes s)) by lia. simpl.
  rewrite (checked_sub_ok (global_snapshot_count s)) by lia. simpl.
  rewrite (checked_add_ok _ (global_snapshot_count s - _)) by limits. simpl.
  rewrite (checked_sub_ok (global_snapshot_bytes s)) by lia. simpl.
  rewrite (checked_add_ok _ (global_snapshot_bytes s - _)) by limits. simpl.
  done.
Qed.
End totals.

(** ** Compact queues *)

(** Compaction has nothing to do for the members of the room. *)
Definition compacted (r : RelayRoom) : Prop :=
  ∀ c, is_code (room_members r) c → compact_delivery_revisions c r = (Ok tt, r).

(** Compaction leaves [q] as it is, if [c] is at revision [v]. *)
Definition settled (active : bool) (v : Z) (q : list PendingDelivery) : Prop :=
  v + 1 ≤ u64_MAX ∧ compact_loop active 0 (v + 1) q = Some (pd_revision <$> q).

Lemma zip_set_revision (q : list PendingDelivery) rs :
  length rs = length q → zip_with (λ d r, set_pd_revision r d) q rs = q →
  rs = pd_revision <$> q.
Proof.
  revert rs. induction q as [|d q IH]; intros [|v rs] Hl E; try done.
  cbn [zip_with] in E. injection E as E1 E2. rewrite fmap_cons. f_equal.
  - by apply (f_equal pd_revision) in E1.
  - apply IH; [by injection Hl|done].
Qed.
Lemma zip_own_revision (q : list PendingDelivery) :
  zip_with (λ d r, set_pd_revision r d) q (pd_revision <$> q) = q.
Proof. induction q as [|[] q IH]; [done|]. simpl. by f_equal. Qed.

Lemma compacted_settled id r c :
  room_ok id r → compacted r → is_code (room_members r) c →
  settled (member_active r c) (default 0 (room_member_revisions r !! c))
    (default [] (room_deliveries r !! c)).
Proof.
  intros Hok Hc Hcode. specialize (Hc c Hcode). unfold compact_delivery_revisions in Hc.
  destruct (checked_add _ _ _) as [n|] eqn:En; [|done]. checked.
  destruct (room_deliveries r !! c) as [q|] eqn:Hq; [|done].
  destruct (compact_loop _ _ _ q) as [rs|] eqn:E; [|done]. injection Hc as Hc.
  split; [done|]. simpl. rewrite E. f_equal. apply zip_set_revision.
  - by eapply compact_loop_length.
  - apply (f_equal (λ x, room_deliveries x !! c)) in Hc. simpl in Hc.
    rewrite lookup_insert_eq, Hq in Hc. by injection Hc.
Qed.

(** Dropping a message whose removal leaves settled queues. *)
Definition without_message (m : string) (q : list PendingDelivery) : list PendingDelivery :=
  filter (λ d, pd_message_id d ≠ m) q.

Lemma rollback_queues_run m cs r :
  NoDup cs →
  (∀ c q, c ∈ cs → room_deliveries r !! c = Some q →
     settled (member_active r c) (default 0 (room_member_revisions r !! c)) (without_message m q)) →
  (∀ c, c ∈ cs → default 0 (room_member_revisions r !! c) + 1 ≤ u64_MAX) →
  ∃ D', rollback_queues m cs r = (Ok tt, set_room_deliveries D' r) ∧
    ∀ c, D' !! c = if decide (c ∈ cs) then without_message m <$> room_deliveries r !! c
                   else room_deliveries r !! c.
Proof.
  revert r. induction cs as [|c cs IH]; intros r Hnd Hset Hrev.
  { exists (room_deliveries r). split; [by destruct r|done]. }
  apply NoDup_cons in Hnd as [Hc Hnd]. cbn [rollback_queues].
  set (D1 := match room_deliveries r !! c with
             | Some q => <[c := without_message m q]> (room_deliveries r)
             | None => room_deliveries r end).
  assert (compact_delivery_revisions c (drop_message m c r) = (Ok tt, set_room_deliveries D1 r)) as E1.
  { unfold drop_message, compact_delivery_revisions, D1. pose proof (Hrev c ltac:(by left)) as Hv.
    destruct (room_deliveries r !! c) as [q|] eqn:Hq; simpl.
    - rewrite checked_add_ok by done. rewrite lookup_insert_eq.
      destruct (Hset c q ltac:(by left) Hq) as [_ HL].
      change (member_active (set_room_deliveries _ r) c) with (member_active r c).
      fold (without_message m q). rewrite HL. rewrite zip_own_revision, insert_insert_eq. done.
    - rewrite checked_add_ok by done. rewrite Hq. by destruct r. }
  unfold mbind, ST_bind, modify. rewrite E1.
  destruct (IH (set_room_deliveries D1 r) Hnd) as (D' & -> & HD).
  - intros c' q Hc' Hq. apply (Hset c' q); [by right|]. simpl in Hq. unfold D1 in Hq.
    destruct (room_deliveries r !! c); [|done].
    rewrite lookup_insert_ne in Hq; [done|]. by intros ->.
  - intros c' Hc'. apply Hrev. by right.
  - exists D'. split; [done|]. intros c'. rewrite HD. simpl. unfold D1.
    destruct (decide (c' = c)) as [->|Hne].
    + rewrite decide_False by done. rewrite decide_True by (by left).
      destruct (room_deliveries r !! c) eqn:Hq; [by rewrite lookup_insert_eq|by rewrite Hq].
    + assert ((match room_deliveries r !! c with
        | Some q => <[c := without_message m q]> (room_deliveries r)
        | None => room_deliveries r end) !! c' = room_deliveries r !! c') as ->.
      { destruct (room_deliveries r !! c); [by rewrite lookup_insert_ne|done]. }
      destruct (decide (c' ∈ cs)).
      * by rewrite decide_True by (by right).
      * rewrite decide_False; [done|]. by intros [|]%elem_of_cons.
Qed.

(** ** Undoing one admission *)

Section undo.
Context {HO : HashOrder}.
Context (id : string) (r : RelayRoom) (sender : CodeId) (adm : ApplicationAdmission)
  (cur now : Z) (ds : list PendingDelivery) (roster : list RosterMember) (db sb pb : Z).
Let m := aa_message_id adm.
Let r1 := install_application r sender adm cur now ds roster db sb pb.
Hypothesis Hok : room_ok id r.
Hypothesis Hcompact : compacted r.
Hypothesis Hnonempty : ∀ c q, room_deliveries r !! c = Some q → q ≠ [].
Hypothesis Hfresh : ∀ c d, d ∈ queue_of r c → pd_message_id d ≠ m.
Hypothesis Hsender : queue_of r sender = [].
Hypothesis Hpending : room_pending_applications r !! m = None.
Hypothesis Hcur : room_member_revisions r !! sender = Some cur.
Hypothesis Hds : ∀ d, d ∈ ds → pd_message_id d = m ∧
  pd_recipient_code_id d ≠ sender ∧ is_code (room_members r) (pd_recipient_code_id d).

Lemma pushed_without c q :
  push_deliveries ds (room_deliveries r) !! c = Some q →
  without_message m q = default [] (room_deliveries r !! c).
Proof.
  intros Hq. pose proof (push_deliveries_lookup ds (room_deliveries r) c) as E.
  rewrite Hq in E. simpl in E. subst q. unfold without_message. rewrite filter_app.
  rewrite list_filter_id, list_filter_none; [by rewrite app_nil_r| |].
  - apply Forall_forall. intros d [_ Hd]%list_elem_of_filter Hn. by destruct (Hds d Hd).
  - apply Forall_forall. intros d Hd. by eapply Hfresh.
Qed.

Lemma pushed_key c :
  is_Some (push_deliveries ds (room_deliveries r) !! c) →
  c ≠ sender ∧ is_code (room_members r) c.
Proof.
  intros [Hs|(d & Hd & <-)]%push_deliveries_keys; [|by destruct (Hds d Hd) as (_&?&?)].
  split; [|by apply (ok_deliveries _ _ Hok)]. intros ->. unfold queue_of in Hsender.
  destruct Hs as [q Hq]. rewrite Hq in Hsender. simpl in Hsender. by eapply Hnonempty.
Qed.

Lemma undo_queues :
  ∃ D', rollback_queues m (hash_keys (room_deliveries r1))
          (set_room_pending_applications (delete m (room_pending_applications r1)) r1)
        = (Ok tt, set_room_deliveries D'
             (set_room_pending_applications (delete m (room_pending_applications r1)) r1)) ∧
    retain (λ _ q, bool_decide (q ≠ [])) D' = room_deliveries r.
Proof.
  set (r2 := set_room_pending_applications _ r1).
  assert (∀ c, is_Some (room_deliveries r1 !! c) → settled (member_active r2 c)
    (default 0 (room_member_revisions r2 !! c)) (default [] (room_deliveries r !! c))) as Hset.
  { intros c [Hne Hcode]%pushed_key. change (member_active r2 c) with (member_active r c).
    change (room_member_revisions r2) with
      (<[sender := aa_sender_revision adm]> (room_member_revisions r)).
    rewrite lookup_insert_ne by done. by eapply compacted_settled. }
  destruct (rollback_queues_run m (hash_keys (room_deliveries r1)) r2) as (D' & E & HD).
  - apply NoDup_hash_keys.
  - intros c q Hc Hq. rewrite (pushed_without c q Hq). apply Hset. by rewrite <- elem_of_hash_keys.
  - intros c Hc%elem_of_hash_keys. by apply Hset.
  - exists D'. split; [done|]. apply map_eq. intros c. apply option_eq. intros q.
    rewrite retain_lookup_Some, bool_decide_eq_true, HD.
    change (room_deliveries r2) with (push_deliveries ds (room_deliveries r)).
    change (room_deliveries r1) with (push_deliveries ds (room_deliveries r)).
    destruct (push_deliveries ds (room_deliveries r) !! c) as [q1|] eqn:Hq1.
    + rewrite decide_True by (rewrite elem_of_hash_keys, Hq1; done). simpl.
      rewrite (pushed_without c q1 Hq1).
      destruct (room_deliveries r !! c) as [q0|] eqn:Hq0; simpl; [|naive_solver].
      split; [by intros [? _]|]. intros [= <-]. split; [done|by eapply Hnonempty].
    + rewrite decide_False by (rewrite elem_of_hash_keys, Hq1; by intros []).
      destruct (room_deliveries r !! c) as [q0|] eqn:Hq0; [|naive_solver].
      destruct (proj2 (push_deliveries_keys ds (room_deliveries r) c)) as [? ?];
        [left; by rewrite Hq0|]. congruence.
Qed.

Lemma undo_room plan :
  rb_pending plan = mkPendingApplication adm sender cur (room_snapshots r !! sender) →
  rollback_room m plan r1
    = (Ok tt, set_room_pending_bytes (rb_room_pending_bytes plan)
         (set_room_snapshot_bytes (rb_room_snapshot_bytes plan)
            (set_room_delivery_bytes (rb_room_delivery_bytes plan) r))).
Proof.
  intros Ep. destruct undo_queues as (D' & Hrun & HD).
  unfold rollback_room.
  change (room_pending_applications r1) with
    (<[m := mkPendingApplication adm sender cur (room_snapshots r !! sender)]>
       (room_pending_applications r)) in *.
  rewrite lookup_insert_eq. unfold mbind, ST_bind.
  rewrite delete_insert_id in * by done.
  change (room_deliveries (set_room_pending_applications ?x r1)) with (room_deliveries r1).
  rewrite Hrun. unfold modify. f_equal.
  rewrite Ep. unfold drop_empty_queues. simpl. rewrite HD.
  rewrite insert_insert_eq, insert_id by done.
  unfold restore_snapshot. destruct (room_snapshots r !! sender) as [s|] eqn:Es; simpl.
  - rewrite insert_insert_eq, insert_id by done. by destruct r.
  - rewrite delete_insert_id by done. by destruct r.
Qed.
End undo.

(** The rooms and the configuration determine a state with exact counters. *)
Lemma exact_determines a b :
  exact a → exact b → rooms a = rooms b → config a = config b → a = b.
Proof.
  intros [_ A1 A2 A3 A4 A5 A6 A7 A8] [_ B1 B2 B3 B4 B5 B6 B7 B8] ER EC.
  unfold config in EC. destruct a, b. simpl in *. unfold total in *. simpl in *.
  simplify_eq. f_equal; congruence.
Qed.

Lemma exact_room_bytes r a b c :
  room_exact r →
  room_exact (set_room_pending_bytes a (set_room_snapshot_bytes b (set_room_delivery_bytes c r))) →
  set_room_pending_bytes a (set_room_snapshot_bytes b (set_room_delivery_bytes c r)) = r.
Proof.
  unfold room_exact, m_pending_bytes, m_delivery_bytes. simpl. intros (E1 & E2 & E3) (-> & -> & ->).
  rewrite <- E1, <- E2, <- E3. by destruct r.
Qed.

Section rollback_undoes.
Context {HO : HashOrder}.

Lemma swept_no_empty now self id r c q :
  authority_ok self → rooms (prune_expired now self) !! id = Some r →
  room_deliveries r !! c = Some q → q ≠ [].
Proof.
  intros Hok Hr. destruct (prune_expired_ok now self Hok) as (_ & _ & HC & _).
  specialize (HC id). rewrite Hr in HC. simpl in HC. symmetry in HC.
  apply fmap_Some in HC as (r0 & Hr0 & _).
  destruct (prune_expired_lookup now self id r0 Hok Hr0) as (r2 & Hr2 & _ & _ & _ & _ & _ & Hq).
  assert (r2 = r) as -> by congruence. apply Hq.
Qed.

Lemma admitted_deliveries r sender rs id m p u e d ct ad now exp x :
  admit_recipients r sender = Ok rs →
  x ∈ (application_delivery id m sender p u e d ct ad now exp <$> rs) →
  pd_message_id x = m ∧ pd_recipient_code_id x ≠ sender ∧
  is_code (room_members r) (pd_recipient_code_id x).
Proof.
  intros Hrs Hx. apply list_elem_of_fmap in Hx as (cr & -> & Hcr). simpl.
  split_and!; [done| |eapply admit_recipients_code; [done|by apply list_elem_of_fmap_2]].
  destruct (admit_recipients_Ok _ _ _ Hrs) as [HF _].
  apply list_elem_of_lookup in Hcr as [i Hi].
  destruct (Forall2_lookup_r _ _ _ _ _ HF Hi) as (y & Hy & -> & _).
  by apply list_elem_of_lookup_2, list_elem_of_filter in Hy as [[_ ?] _].
Qed.

(** The rollback of a fresh admission finds everything it needs and restores
    the authority. *)
Lemma admission_undone max_rooms ttl now sender p id m g e v d ct ad env self adm s1 r :
  reachable max_rooms ttl self →
  admit_application_for_platform now sender p id m g e v d ct ad env self = (Ok adm, s1) →
  rooms (prune_expired now self) !! id = Some r → compacted r →
  (∀ c x, x ∈ queue_of r c → pd_message_id x ≠ m) →
  rollback_application id m s1 = (Ok tt, prune_expired now self).
Proof.
  intros [Hok _]%reachable_ok Hadm Hr Hcompact Hfresh.
  destruct (prune_keeps now self Hok) as [Hg Hcs].
  pose proof (admit_keeps now sender p id m g e v d ct ad env self Hok) as [[Ha1 He1] Hc1].
  rewrite Hadm in Ha1, He1, Hc1. simpl in Ha1, He1, Hc1.
  assert (∀ c q, room_deliveries r !! c = Some q → q ≠ []) as Hne.
  { intros c q. exact (swept_no_empty now self id r c q Hok Hr). }
  set (s := prune_expired now self) in *.
  unfold admit_application_for_platform, after_prune in Hadm. fold s in Hadm. clearbody s.
  destruct (admit_room _ _ _ _ _ _ _ _ _ _ _ _ s) as [[adm0 s1']|e0] eqn:E; [|done].
  injection Hadm as -> ->.
  apply admit_room_Ok in E
    as (r0 & exp & cur & u & roster & rs & db & sb & pb & Hr0 & Hgd & Hrs & Eadm & ER).
  assert (r0 = r) as -> by congruence.
  destruct (good_room _ _ _ Hg Hr) as [Hrok Hrx].
  apply admit_guard_Ok in Hgd as (_ & _ & _ & Hq & _ & _ & _ & Hcur & _ & _ & _ & Hnone & _).
  assert (aa_message_id adm = m) as Em by (by rewrite Eadm).
  set (ds := application_delivery _ _ _ _ _ _ _ _ _ _ _ <$> rs) in ER.
  set (r1 := install_application r sender adm cur now ds roster db sb pb) in ER.
  assert (rooms s1 !! id = Some r1) as Hr1 by (by rewrite ER, lookup_insert_eq).
  assert (room_pending_applications r1 !! m
    = Some (mkPendingApplication adm sender cur (room_snapshots r !! sender))) as Hp1.
  { simpl. by rewrite Em, lookup_insert_eq. }
  destruct (rollback_totals_run id m s1 r1 _ (conj Ha1 He1) Hr1 Hp1) as (plan & Etot & Epl).
  pose proof (undo_room id r sender adm cur now ds roster db sb pb) as HU. rewrite Em in HU.
  specialize (HU Hrok Hcompact Hne Hfresh Hq Hnone Hcur).
  assert (∀ x, x ∈ ds → pd_message_id x = m ∧ pd_recipient_code_id x ≠ sender ∧
    is_code (room_members r) (pd_recipient_code_id x)) as Hds.
  { intros x. exact (admitted_deliveries r sender rs id m p u e d ct ad now exp x Hrs). }
  specialize (HU Hds plan Epl). fold r1 in HU.
  pose proof (rollback_ok id m s1 Ha1) as (_ & Hc2 & Hx2).
  unfold rollback_application in Hc2, Hx2 |- *. rewrite Etot in *. unfold get_room in *.
  rewrite Hr1 in *. simpl in Hc2, Hx2 |- *. rewrite HU in *. simpl in Hc2, Hx2 |- *.
  f_equal. specialize (Hx2 He1 eq_refl).
  set (r2 := set_room_pending_bytes _ _) in *.
  assert (r2 = r) as E2.
  { apply exact_room_bytes; [done|]. apply (ex_rooms _ Hx2 id). simpl.
    by rewrite lookup_insert_eq. }
  apply exact_determines; [done|by destruct Hg| |by rewrite Hc2, Hc1, Hcs].
  simpl. rewrite E2, ER. by rewrite insert_insert_eq, insert_id.
Qed.

(** Rolling back right after an admission undoes it completely: if the
    queues of the room are compact and no queued delivery carries the same
    message identifier, the rollback succeeds and leaves exactly the
    authority the admission started from, counters, revisions and the
    sender's previous snapshot included. *)
Theorem rollback_undoes_admission max_rooms ttl now sender p id m g e v d ct ad env self adm s1 r :
  reachable max_rooms ttl self →
  admit_application_for_platform now sender p id m g e v d ct ad env self = (Ok adm, s1) →
  rooms (prune_expired now self) !! id = Some r → compacted r →
  (∀ c x, x ∈ queue_of r c → pd_message_id x ≠ m) →
  rollback_application id m s1 = (Ok tt, prune_expired now self).
Proof. apply admission_undone. Qed.
End rollback_undoes.
