(* ===== verification/RoomTheorems.v ===== *)
(** * Theorems on the room authority: invariant, counters, epochs, membership

    Each holds in every state that any sequence of operations reaches. *)

From S2P Require Import Prelude RoomModel RoomValidation RoomDelivery RoomAuthority RoomLifecycle.
From S2P Require Import RoomMembership RoomApplication RoomSnapshot RoomDemo.
From S2P Require Import RoomSizes RoomInvariant RoomSweep RoomUpdate RoomApplicationFacts.
From S2P Require Import RoomSnapshotFacts RoomAcceptFacts RoomReachable RoomFanout.

Lemma reachable_delivery_limits self max_rooms ttl :
  authority_ok self → config self = config (new_with_pending_ttl max_rooms ttl) →
  total m_delivery_count self ≤ MAX_GLOBAL_DELIVERIES ∧
  total m_delivery_bytes self ≤ MAX_GLOBAL_DELIVERY_BYTES.
Proof.
  intros [] Hc. unfold config in Hc. simpl in Hc. injection Hc as _ _ _ _ Hd Hb.
  rewrite Hd, Hb in *. done.
Qed.

Section theorems.
Context {HO : HashOrder}.

(** C17: in every state the relay reaches, each room is well formed: it is
    filed under its id, its owner is an active member, codes, usernames and
    stable identities of members are unique, every member and nobody else
    has a revision, queues belong to members, join requests come from
    non-members, a sender has at most one admission in flight, and a staged
    transition leads to the next epoch by changing one name. *)
Theorem reachable_rooms_well_formed max_rooms ttl self id r :
  reachable max_rooms ttl self → rooms self !! id = Some r → room_ok id r.
Proof. intros [Hok _]%reachable_ok. by apply Hok. Qed.

(** C18: the global limits of the relay hold in every reachable state, for
    the true totals of what is stored and not only for the counters. *)
Theorem reachable_limits max_rooms ttl self :
  reachable max_rooms ttl self →
  total m_pending_count self ≤ MAX_GLOBAL_PENDING_APPLICATIONS ∧
  total m_pending_bytes self ≤ MAX_GLOBAL_PENDING_BYTES ∧
  total m_snapshot_count self ≤ MAX_GLOBAL_STATE_SNAPSHOTS ∧
  total m_replay self ≤ MAX_GLOBAL_REPLAY_IDS ∧
  total m_delivery_count self ≤ MAX_GLOBAL_DELIVERIES ∧
  total m_delivery_bytes self ≤ MAX_GLOBAL_DELIVERY_BYTES ∧
  total m_gaps self ≤ MAX_GLOBAL_EXPIRED_GAP_PAIRS.
Proof.
  intros [Hok Hc]%reachable_ok. destruct (reachable_delivery_limits self _ _ Hok Hc).
  destruct Hok. repeat split; assumption.
Qed.

(** The sweep that opens every entry point recounts exactly: whatever
    the counters were, afterwards each one equals the total it stands for,
    and the saturated value of its error branches is never written. *)
Theorem sweep_recounts max_rooms ttl now self :
  reachable max_rooms ttl self →
  exact (prune_expired now self) ∧
  global_delivery_bytes (prune_expired now self) < usize_MAX ∧
  global_snapshot_bytes (prune_expired now self) < usize_MAX.
Proof.
  intros [Hok Hc]%reachable_ok.
  destruct (prune_expired_ok now self Hok) as (Ha & He & _ & Hc').
  destruct (reachable_delivery_limits (prune_expired now self) max_rooms ttl Ha) as [_ Hb];
    [congruence|].
  pose proof (snapshot_total_bound _ (ok_rooms _ Ha)) as Hsb.
  split; [done|]. destruct He, Ha. unfold total in *.
  unfold MAX_GLOBAL_DELIVERY_BYTES in *. split; limits.
Qed.

(** Incremental accounting is exact: an operation on a reachable state
    leaves every counter equal to its total, on its error paths too.
    [CommitApplication] and [RollbackApplication], which do not sweep, need
    exact counters to start from; [counts_kept] lists the two exceptions. *)
Theorem operations_count_exactly max_rooms ttl self op :
  reachable max_rooms ttl self → counts_kept self op → exact (perform self op).
Proof. intros [Hok _]%reachable_ok HK. by apply perform_exact. Qed.

(** C19: epochs and identity: no operation changes what a room was created
    with.  Its epoch, digest and membership stand under every operation but
    a successful acceptance by its owner, which moves it to the next epoch. *)
Theorem epoch_moves_by_one max_rooms ttl self op id r r' :
  reachable max_rooms ttl self →
  rooms self !! id = Some r → rooms (perform self op) !! id = Some r' →
  stands r r' ∨
  (identity r' = identity r ∧ room_epoch r' = room_epoch r + 1 ∧ (run op self).1 = true ∧
   ∃ n0 n1 n2 n3 m v, op = AcceptMembership n0 n1 n2 n3 (room_owner_code_id r) id m v).
Proof.
  intros [Hok _]%reachable_ok Hr.
  assert (∀ R', all_stand (rooms self) R' → R' !! id = Some r' → stands r r') as Hs.
  { intros R' HS Hr'. destruct (HS id r Hr) as (r2 & ? & ?). by simplify_eq. }
  intros Hr'. destruct (routine op) eqn:Hop; [left; eapply Hs; [by apply (perform_stand op)|done]|].
  revert Hr'. destruct op; try done; unfold perform, run, outcome; cbn [fst snd]; intros Hr'.
  - left. eapply (delete_room_frame stands (λ _, True)); try done.
    intros t _. by apply prune_stand.
  - pose proof (accept_cases now0 now1 now2 now3 owner room message revision self Hok) as HC.
    destruct (accept_membership _ _ _ _ _ _ _ _ self) as [[res|e] s']; simpl in *;
      [|left; by eapply Hs].
    destruct HC as (r0 & r1 & t & next & ds & db & sb & k & Hr0 & S0 & Hrok & _ & Ht & _ & _ &
      Ho & _ & _ & _ & Hnew & Hoth).
    destruct (decide (room = id)) as [->|Hne].
    + right. assert (r0 = r) as -> by congruence. destruct S0 as (I0 & E0 & _ & _).
      assert (owner = room_owner_code_id r) as -> by (unfold identity in I0; congruence).
      destruct (accepted_shape now1 now2 now3 (room_owner_code_id r) t next ds db sb r1)
        as (L & ES). rewrite ES, Hnew in *. injection Hr' as <-.
      destruct (ok_staged _ _ Hrok t Ht) as (Hep & _).
      split_and!; [exact I0|simpl; lia|done|]. by repeat eexists.
    + left. destruct (Hoth id r) as (r2 & Hr2 & S2); [by rewrite lookup_delete_ne|].
      rewrite lookup_delete_ne in Hr2 by done. by simplify_eq.
  - left. eapply Hs; [by apply commit_stand|done].
Qed.

Lemma accepted_members n1 n2 n3 o t next ds db sb r k :
  let r' := accepted_room n1 n2 n3 o t next ds db sb r in
  room_members (set_room_replay_ids (drop k (room_replay_ids r')) r') = next ∧
  room_deliveries (set_room_replay_ids (drop k (room_replay_ids r')) r')
    = push_deliveries ds (drop_codes (removed_codes r next) (room_deliveries r)).
Proof.
  destruct (accepted_shape n1 n2 n3 o t next ds db sb r) as (L & ->). done.
Qed.

Lemma accepted_one_change id r t next :
  room_ok id r → room_pending_transition r = Some t → resolve_next_roster r t = Ok next →
  ∃ c, one_sided (room_members r) next = {[c]} ∧
    canonical_username (room_owner_username r) ≠ Ok c ∧
    (∀ u, u ≠ c → next !! u = room_members r !! u).
Proof.
  intros Hok Ht Hnext. destruct (ok_staged _ _ Hok t Ht) as (_ & u & req & c & Hu & Hreq & Hin & Hone).
  destruct (resolve_next_roster_spec _ _ _ Hnext) as (req' & Hreq' & Hdom & _).
  assert (req' = req) as -> by congruence.
  assert (dom next = dom req) as Ed by (apply set_eq; intros x; by rewrite !elem_of_dom).
  assert (one_sided (room_members r) next = {[c]}) as Hone'.
  { unfold one_sided in *. by rewrite Ed. }
  exists c. split_and!; [done| |].
  - intros E. assert (u = c) as -> by congruence.
    destruct (ok_owner _ _ Hok) as (u' & m & Hu' & Hm & _). assert (u' = c) as -> by congruence.
    assert (c ∈ one_sided (room_members r) req) as Hc by (rewrite Hone; set_solver).
    unfold one_sided in Hc. rewrite elem_of_union, !elem_of_difference, !elem_of_dom in Hc.
    rewrite Hm in Hc. naive_solver.
  - intros x Hx.
    assert (x ∉ one_sided (room_members r) next) as Hnx by (rewrite Hone'; set_solver).
    unfold one_sided in Hnx. rewrite elem_of_union, !elem_of_difference, !elem_of_dom in Hnx.
    destruct (room_members r !! x) as [m|] eqn:Em, (next !! x) as [m'|] eqn:En; try done.
    + rewrite <- En. by eapply next_keeps.
    + destruct Hnx. left. split; [done|]. by intros [].
    + destruct Hnx. right. split; [done|]. by intros [].
Qed.

(** An accepted transition adds or removes exactly one member, never the
    owner; everyone else stays as they were, and the one added is the account
    of the answered join request, inactive until it stores its first
    snapshot. *)
Theorem accepted_changes_one_member max_rooms ttl n0 n1 n2 n3 o id m v self res self' r' :
  reachable max_rooms ttl self →
  accept_membership n0 n1 n2 n3 o id m v self = (Ok res, self') →
  rooms self' !! id = Some r' →
  ∃ r t c, rooms (prune_expired n0 self) !! id = Some r ∧
    room_pending_transition r = Some t ∧ res = Accepted t ∧ mt_message_id t = m ∧
    one_sided (room_members r) (room_members r') = {[c]} ∧
    canonical_username (room_owner_username r) ≠ Ok c ∧
    (∀ u, u ≠ c → room_members r' !! u = room_members r !! u) ∧
    (∀ x, room_members r' !! c = Some x → ∃ j, answered_join r t = Some j ∧
       x = mkMember (jr_username (pj_request j)) (jr_code_id (pj_request j))
             (jr_stable_identity (pj_request j)) false).
Proof.
  intros [Hok _]%reachable_ok Hrun Hr'.
  pose proof (accept_cases n0 n1 n2 n3 o id m v self Hok) as HC. rewrite Hrun in HC.
  destruct HC as (r0 & r & t & next & ds & db & sb & k & Hr0 & _ & Hrok & Hr & Ht & Em & _ &
    _ & Eres & Hnext & _ & Hnew & _).
  rewrite Hr' in Hnew. injection Hnew as ->.
  destruct (accepted_members n1 n2 n3 o t next ds db sb r k) as [-> _].
  destruct (accepted_one_change id r t next Hrok Ht Hnext) as (c & Hc1 & Hc2 & Hc3).
  exists r, t, c. split_and!; try done. intros x Hx.
  destruct (resolve_next_roster_spec _ _ _ Hnext) as (req & _ & _ & Hres).
  destruct (Hres c x Hx) as (m0 & _ & Hm).
  destruct (resolve_member_cases _ _ _ _ _ Hm) as [[Hold _]|(_ & j & Hj & _ & _ & ->)]; [|eauto].
  assert (c ∈ one_sided (room_members r) next) as Hin by (rewrite Hc1; set_solver).
  unfold one_sided in Hin. rewrite elem_of_union, !elem_of_difference, !elem_of_dom in Hin.
  rewrite Hold, Hx in Hin. naive_solver.
Qed.

(** An accepted transition reaches every member: each remaining member
    but the owner gets exactly one commit, at the end of its queue and with
    its next revision; the joiner gets exactly its Welcome, at revision 0;
    the owner's queue is left alone and a removed account keeps no queue. *)
Theorem accepted_fan_out max_rooms ttl n0 n1 n2 n3 o id m v self res self' r' :
  reachable max_rooms ttl self →
  accept_membership n0 n1 n2 n3 o id m v self = (Ok res, self') →
  rooms self' !! id = Some r' →
  ∃ r t, rooms (prune_expired n0 self) !! id = Some r ∧ res = Accepted t ∧
    queue_of r' (room_owner_code_id r) = queue_of r (room_owner_code_id r) ∧
    (∀ u x, room_members r' !! u = Some x → mem_code_id x ≠ room_owner_code_id r →
       match room_members r !! u with
       | Some _ => ∃ d, commit_delivery r t x = Ok d ∧
           queue_of r' (mem_code_id x) = queue_of r (mem_code_id x) ++ [d]
       | None => queue_of r' (mem_code_id x) = [welcome_delivery r t x]
       end) ∧
    (∀ c, ¬ is_code (room_members r') c → queue_of r' c = []).
Proof.
  intros [Hok _]%reachable_ok Hrun Hr'.
  pose proof (accept_cases n0 n1 n2 n3 o id m v self Hok) as HC. rewrite Hrun in HC.
  destruct HC as (r0 & r & t & next & ds & db & sb & k & Hr0 & _ & Hrok & Hr & Ht & Em & _ &
    Ho & Eres & Hnext & Hds & Hnew & _).
  rewrite Hr' in Hnew. injection Hnew as ->. unfold queue_of.
  destruct (accepted_members n1 n2 n3 o t next ds db sb r k) as [-> ->].
  exists r, t. split; [done|]. split; [done|].
  by eapply transition_queues.
Qed.

(** C20: an admitted application reaches exactly the other active members:
    each gets one delivery, at the end of its queue and with its next
    revision; every other queue is untouched.  The sender had acknowledged
    everything queued for it and moves to its next revision. *)
Theorem admitted_fan_out max_rooms ttl now sender p id m g e v d ct ad env self adm self' r' :
  reachable max_rooms ttl self →
  admit_application_for_platform now sender p id m g e v d ct ad env self = (Ok adm, self') →
  rooms self' !! id = Some r' →
  ∃ r exp u, rooms (prune_expired now self) !! id = Some r ∧
    queue_of r sender = [] ∧ room_member_revisions r !! sender = Some (v - 1) ∧
    room_member_revisions r' !! sender = Some v ∧
    (∀ k x, room_members r !! k = Some x → mem_active x = true → mem_code_id x ≠ sender →
       ∃ n, next_delivery_revision r (mem_code_id x) = Ok n ∧
         queue_of r' (mem_code_id x) = queue_of r (mem_code_id x)
           ++ [application_delivery id m sender p u e d ct ad now exp (mem_code_id x, n)]) ∧
    (∀ c, (∀ k x, room_members r !! k = Some x → mem_code_id x = c →
             mem_active x = true → c = sender) → queue_of r' c = queue_of r c).
Proof.
  intros [Hok _]%reachable_ok Hrun Hr'.
  unfold admit_application_for_platform, after_prune in Hrun.
  destruct (prune_keeps now self Hok) as [Hg _].
  set (s := prune_expired now self) in *. clearbody s.
  destruct (admit_room _ _ _ _ _ _ _ _ _ _ _ _ s) as [[adm0 s']|e0] eqn:E; simplify_eq.
  apply admit_room_Ok in E
    as (r & exp & cur & u & roster & rs & db & sb & pb & Hr & Hgd & Hrs & Eadm & ER).
  rewrite ER, lookup_insert_eq in Hr'. injection Hr' as <-.
  destruct (good_room _ _ _ Hg Hr) as [Hrok _].
  apply admit_guard_Ok in Hgd as (_ & _ & _ & Hq & _ & _ & _ & Hcur & Hv & _).
  destruct (admission_queues id r sender rs m p u e d ct ad now exp Hrok Hrs) as [H1 H2].
  exists r, exp, u. split_and!; [done|done| | | |exact H2].
  - rewrite Hcur. f_equal. lia.
  - simpl. rewrite Eadm. by rewrite lookup_insert_eq.
  - intros k x Hk Hact Hne. apply (H1 x); eauto.
Qed.

(** No application is in flight during a membership change: in every
    reachable state a room with a staged transition has no admission
    waiting for its commit, so the acceptance is never blocked by one. *)
Theorem transition_excludes_applications max_rooms ttl self id r t :
  reachable max_rooms ttl self → rooms self !! id = Some r →
  room_pending_transition r = Some t → room_pending_applications r = ∅.
Proof. intros [Hok _]%reachable_ok Hr Ht. by eapply (ok_exclusive _ _ (ok_rooms _ Hok _ _ Hr)). Qed.

(** Who may send: an application is admitted only from an active member
    of the room, at the room's current epoch and digest and at the member's
    next revision, while no transition is staged, and it expires no later
    than the relay's admission window and the room's own text policy. *)
Theorem admission_guarded max_rooms ttl now sender p id m g e v d ct ad env self adm self' :
  reachable max_rooms ttl self →
  admit_application_for_platform now sender p id m g e v d ct ad env self = (Ok adm, self') →
  ∃ r u x, rooms (prune_expired now self) !! id = Some r ∧
    room_members r !! u = Some x ∧ mem_code_id x = sender ∧ mem_active x = true ∧
    room_epoch r = e ∧ room_membership_digest r = d ∧ room_group_id r = g ∧
    room_pending_transition r = None ∧
    aa_sender_username adm = mem_username x ∧
    aa_expires_at_ms adm ≤ now + pending_ttl_ms self ∧
    (enforce_text_absolute_expiry (room_policy r) = true →
     0 < overall_expiry_sec (room_policy r) →
     aa_expires_at_ms adm ≤ now + overall_expiry_sec (room_policy r) * 1000).
Proof.
  intros [Hok _]%reachable_ok Hrun.
  destruct (prune_expired_ok now self Hok) as (_ & _ & _ & Hc).
  assert (pending_ttl_ms (prune_expired now self) = pending_ttl_ms self) as Ettl
    by (unfold config in Hc; congruence).
  unfold admit_application_for_platform, after_prune in Hrun.
  set (s := prune_expired now self) in *. clearbody s.
  destruct (admit_room _ _ _ _ _ _ _ _ _ _ _ _ s) as [[adm0 s']|e0] eqn:E; simplify_eq.
  apply admit_room_Ok in E
    as (r & exp & cur & u & roster & rs & db & sb & pb & Hr & Hgd & _ & Eadm & _).
  apply admit_guard_Ok in Hgd
    as (Hg & He & Hd & _ & _ & Hnt & Hexp & _ & _ & _ & (x & Hx & ->) & _ & _).
  apply find_active_Some in Hx as ((k & Hk) & Hcx & Hax).
  exists r, k, x. subst adm. simpl. split_and!; try done.
  - unfold application_expiry in Hexp. rewrite Ettl in Hexp. run_ok. checked.
    destruct (_ && _); run_ok; checked; lia.
  - intros Hen Hpos. unfold application_expiry in Hexp. rewrite Hen in Hexp. run_ok.
    rewrite bool_decide_true in * by done. simpl in *. run_ok. checked. lia.
Qed.

(** Only the owner deletes a room; deletion removes exactly that room
    from the swept authority, and a refused deletion removes nothing. *)
Theorem only_owner_deletes max_rooms ttl now o id self res self' :
  reachable max_rooms ttl self → delete_room now o id self = (res, self') →
  match res with
  | Ok _ => (∃ r, rooms (prune_expired now self) !! id = Some r ∧ room_owner_code_id r = o) ∧
            rooms self' = delete id (rooms (prune_expired now self))
  | Err _ => self' = prune_expired now self ∧
             (∀ r, rooms (prune_expired now self) !! id = Some r → room_owner_code_id r ≠ o)
  end.
Proof.
  intros [Hok _]%reachable_ok. unfold delete_room.
  destruct (prune_keeps now self Hok) as [[Ha He] _].
  set (s := prune_expired now self) in *. clearbody s. unfold get_room.
  destruct (rooms s !! id) as [r|] eqn:Hr; simpl; [|by intros [= <- <-]; split].
  destruct (bool_decide (room_owner_code_id r ≠ o)) eqn:Ho; simpl; split_bools.
  - intros [= <- <-]. split; [done|]. intros r0 Hr0. by simplify_eq.
  - apply dec_stable in Ho. rewrite (delete_accounting s id r Ha He Hr). simpl.
    intros [= <- <-]. split; [by eauto|done].
Qed.

(** C22: the loop that trims the global replay store ends.  Whatever the
    rooms hold, it succeeds within one round per stored identifier, takes only
    from the old end of each room's queue, and ends at or below the global
    limit; more rounds than identifiers never change its result. *)
Theorem trimming_terminates self :
  map_sum m_replay (rooms self) ≤ usize_MAX →
  (∃ R', trim_replay_ids self
           = (Ok tt, set_global_replay_count (map_sum m_replay R') (set_rooms R' self)) ∧
     all_trimmed (rooms self) R' ∧ map_sum m_replay R' ≤ MAX_GLOBAL_REPLAY_IDS) ∧
  ∀ fuel, map_sum m_replay (rooms self) ≤ Z.of_nat fuel →
    trim_loop fuel (set_global_replay_count (map_sum m_replay (rooms self)) self)
    = trim_replay_ids self.
Proof.
  intros Hle. split; [by apply trim_replay_ids_spec|]. intros fuel Hf. unfold trim_replay_ids.
  pose proof (map_sum_nonneg m_replay (rooms self) ltac:(nonneg)).
  rewrite (checked_sum_map m_replay) by (try nonneg; done).
  apply trim_loop_fuel; simpl; [done|done|lia].
Qed.
End theorems.

(** ** Rosters *)

(** A roster is accepted only if it names between 1 and [MAX_MEMBERS]
    members with pairwise different identities and pairwise different canonical
    names; the map then holds exactly its entries, each under its canonical
    name. *)
Theorem roster_map_faithful roster m :
  roster_map roster = Ok m →
  0 < len roster ≤ MAX_MEMBERS ∧ map_len m = len roster ∧
  (∀ u1 u2 x1 x2, m !! u1 = Some x1 → m !! u2 = Some x2 →
     mem_stable_identity x1 = mem_stable_identity x2 → u1 = u2) ∧
  (∀ u x, m !! u = Some x ↔
     ∃ e, e ∈ roster ∧ canonical_username (ros_username e) = Ok u ∧ x = entry_member e).
Proof. intros (H1 & H2 & H3 & H4)%roster_map_spec. split_and!; try done; lia. Qed.

(** Resolving a proposed roster cannot forge anyone: it keeps the record
    of every member it names, refuses a changed identity, and any other name
    must be the canonical name of the account whose join request the
    transition answers, with that request's code and identity. *)
Theorem resolution_binds_identities room t next :
  resolve_next_roster room t = Ok next →
  ∃ req, roster_map (mt_roster t) = Ok req ∧ dom next = dom req ∧
    ∀ u x, next !! u = Some x →
      (mem_stable_identity <$> req !! u = Some (mem_stable_identity x)) ∧
      (room_members room !! u = Some x ∨
       (room_members room !! u = None ∧ ∃ j, answered_join room t = Some j ∧
          canonical_username (jr_username (pj_request j)) = Ok u ∧
          x = mkMember (jr_username (pj_request j)) (jr_code_id (pj_request j))
                (jr_stable_identity (pj_request j)) false)).
Proof.
  intros (req & Hreq & Hdom & Hres)%resolve_next_roster_spec. exists req.
  split_and!; [done|apply set_eq; intros u; by rewrite !elem_of_dom|].
  intros u x Hx. destruct (Hres u x Hx) as (m0 & Hm0 & Hm). rewrite Hm0.
  destruct (resolve_member_cases _ _ _ _ _ Hm) as [[? E]|(? & j & ? & ? & E & ->)]; simpl.
  - split; [by f_equal|by left].
  - split; [by f_equal|]. right. eauto.
Qed.

(** * Theorems on deliveries: acknowledgement, compaction, replay, expiry *)

Section acknowledgement.
Context {HO : HashOrder}.

(** A stored snapshot acknowledges a contiguous prefix and nothing else:
    an active member's snapshot at revision [v] retires exactly the
    deliveries numbered from its current revision plus one to [v], whose last
    one carries the named message, epoch and digest; a joiner's first
    snapshot retires exactly its Welcome.  Other queues are untouched. *)
Theorem snapshot_retires_prefix max_rooms ttl now c id m e v d env self s self' r' :
  reachable max_rooms ttl self →
  store_snapshot now c id m e v d env self = (Ok s, self') →
  rooms self' !! id = Some r' →
  ∃ r n, rooms (prune_expired now self) !! id = Some r ∧
    let cur := default 0 (room_member_revisions r !! c) in
    queue_of r' c = drop n (queue_of r c) ∧
    (∀ c', c' ≠ c → queue_of r' c' = queue_of r c') ∧
    room_member_revisions r' !! c = Some v ∧ room_snapshots r' !! c = Some s ∧
    (n ≤ length (queue_of r c))%nat ∧ cur ≤ v ∧
    if member_active r c
    then Z.of_nat n = v - cur ∧
      (∀ i x, (i < n)%nat → queue_of r c !! i = Some x →
         pd_revision x = cur + 1 + Z.of_nat i) ∧
      (∀ i x, n = S i → queue_of r c !! i = Some x →
         pd_message_id x = m ∧ pd_epoch x = e ∧ pd_membership_digest x = d)
    else n = 1%nat ∧ v = cur ∧ ∃ w, head (queue_of r c) = Some w ∧ pd_revision w = v ∧
      pd_message_id w = m ∧ pd_epoch w = e ∧ pd_membership_digest w = d ∧
      has_welcome (pd_payload w) = true.
Proof.
  intros [Hok _]%reachable_ok Hrun Hr'. unfold store_snapshot in Hrun.
  set (s0 := prune_expired now self) in *. clearbody s0.
  destruct (snapshot_room _ _ _ _ _ _ _ _ s0) as [[s1 x1]|e0] eqn:E; [|done].
  apply snapshot_room_Ok in E
    as (r & n & roster & t & u & Hr & _ & Hn & Hck & _ & _ & _ & Hlen & Es & E1).
  apply ST_bind_Ok in Hrun as (w & x2 & Hgap & Hret).
  unfold mret, ST_ret in Hret. injection Hret as <- <-.
  assert (r' = install_snapshot r c u v n s1 t) as ->.
  { unfold recompute_gap_accounting in Hgap. destruct (_ ≫= _); [|done].
    injection Hgap as _ <-. rewrite E1 in Hr'. simpl in Hr'.
    rewrite lookup_insert_eq in Hr'. congruence. }
  exists r, n. split; [done|]. cbv zeta. rewrite !install_snapshot_queue, decide_True by done.
  apply retire_count_Ok in Hn as [Hcur Hn]. cbv zeta in *.
  split_and!; [done| |simpl; by rewrite lookup_insert_eq|simpl; by rewrite lookup_insert_eq
              |done|done|].
  - intros c' Hc'. by rewrite install_snapshot_queue, decide_False.
  - destruct (member_active r c) eqn:Ha; [|done]. destruct Hn as (Hnv & _ & Hrev & Hmid).
    split_and!; [done|done|]. intros i x Hi Hx.
    destruct (check_checkpoint_Ok r c m e v d env n x i Hck Ha Hi Hx).
    split_and!; eauto.
Qed.
End acknowledgement.

Section compaction.
(** Compaction renumbers a queue without gaps: after it succeeds the
    deliveries of the recipient are the same, in the same order, with
    consecutive revisions from [first_revision] (the member's revision plus
    one, or 0 for the Welcome of an inactive member), and nothing else of the
    room changed. *)
Theorem compaction_contiguous c r r' :
  compact_delivery_revisions c r = (Ok tt, r') →
  length (queue_of r' c) = length (queue_of r c) ∧
  (∀ i x, queue_of r' c !! i = Some x → ∃ x0, queue_of r c !! i = Some x0 ∧
     x = set_pd_revision (first_revision r c (queue_of r c) + Z.of_nat i) x0) ∧
  (∀ c', c' ≠ c → room_deliveries r' !! c' = room_deliveries r !! c') ∧
  r' = set_room_deliveries (room_deliveries r') r.
Proof.
  unfold compact_delivery_revisions, queue_of. intros H.
  destruct (checked_add _ _ _) as [next|] eqn:En; [|done]. checked.
  destruct (room_deliveries r !! c) as [q|] eqn:Hq.
  - destruct (compact_loop _ _ _ q) as [rs|] eqn:E; [|done]. injection H as <-. simpl.
    apply compact_loop_numbers in E. rewrite first_numbers in E. subst rs.
    rewrite lookup_insert_eq. simpl. split_and!.
    + rewrite length_zip_with, length_seqZ. unfold len. lia.
    + intros i x Hx. by apply zip_set_revision_lookup.
    + intros c' Hc'. by rewrite lookup_insert_ne.
    + done.
  - injection H as <-. rewrite Hq. simpl. split_and!; [done|done|done|by destruct r].
Qed.
End compaction.
