(* ===== verification/RoomWitnesses.v ===== *)
(** * The room theorems at work

    Each theorem applied to a state of the concrete scenario of RoomDemo,
    where its hypotheses hold. *)

From S2P Require Import Prelude RoomModel RoomValidation RoomDelivery RoomAuthority RoomLifecycle.
From S2P Require Import RoomMembership RoomApplication RoomSnapshot RoomDemo.
From S2P Require Import RoomSizes RoomInvariant RoomSweep RoomUpdate RoomApplicationFacts.
From S2P Require Import RoomSnapshotFacts RoomAcceptFacts RoomReachable RoomFanout.
From S2P Require Import RoomRollback RoomTheorems.

(** ** The scenario is a sequence of operations *)

Abbreviation demo_reachable := (reachable 4 DEFAULT_PENDING_TTL_MS).

Definition op_create : Op :=
  Create 1 1 owner "Alice" "room_1" gid 0 0 (digest Byte.x08) (stable Byte.x01)
    RoomPolicy.default Private [Byte.x01].
Definition op_request : Op :=
  RequestJoin 2 bob "Bob" "room_1" "join_1" (stable Byte.x02) [Byte.x05] [Byte.x06].
Definition op_begin : Op := BeginMembership 3 owner demo_transition.
Definition op_accept : Op := AcceptMembership 4 4 4 4 owner "room_1" "commit_1" 1.
Definition op_welcome : Op :=
  StoreSnapshot 5 bob "room_1" "commit_1" 1 0 (digest Byte.x09) [Byte.x0e].
Definition op_admit : Op :=
  AdmitApplication 6 owner Android "room_1" "msg_1" gid 1 2 (digest Byte.x09)
    [Byte.x21; Byte.x22] [Byte.x23] [Byte.x24].
Definition op_commit : Op := CommitApplication 7 "room_1" "msg_1".

Lemma created_reachable : demo_reachable demo_created.
Proof. exact (reach_op _ _ _ op_create (reach_new _ _)). Qed.
Lemma requested_reachable : demo_reachable demo_requested.
Proof. exact (reach_op _ _ _ op_request created_reachable). Qed.
Lemma staged_reachable : demo_reachable demo_staged.
Proof. exact (reach_op _ _ _ op_begin requested_reachable). Qed.
Lemma accepted_reachable : demo_reachable demo_accepted.
Proof. exact (reach_op _ _ _ op_accept staged_reachable). Qed.
Lemma active_reachable : demo_reachable demo_active.
Proof. exact (reach_op _ _ _ op_welcome accepted_reachable). Qed.
Lemma admitted_reachable : demo_reachable demo_admitted.
Proof. exact (reach_op _ _ _ op_admit active_reachable). Qed.
Lemma committed_reachable : demo_reachable demo_committed.
Proof. exact (reach_op _ _ _ op_commit admitted_reachable). Qed.

(** Take the room of a concrete state, or refute that it is missing. *)
Ltac take_room s r E :=
  destruct (rooms s !! "room_1") as [r|] eqn:E;
  [|exfalso; assert (contains_key "room_1" (rooms s) = true) as Hin by (vm_compute; reflexivity);
     unfold contains_key in Hin; rewrite E in Hin; discriminate Hin].

(** Take the successful outcome of a concrete call. *)
Ltac take_ok call a s E :=
  destruct call as [[a|?e] s] eqn:E;
  [|exfalso; assert (is_ok call.1 = true) as Hok by (vm_compute; reflexivity);
     rewrite E in Hok; discriminate Hok].

Lemma reachable_rooms_well_formed_witness :
  ∃ r, rooms demo_staged !! "room_1" = Some r ∧ room_ok "room_1" r.
Proof.
  take_room demo_staged r E. exists r. split; [reflexivity|].
  exact (reachable_rooms_well_formed 4 DEFAULT_PENDING_TTL_MS demo_staged "room_1" r
           staged_reachable E).
Defined.

Lemma reachable_limits_witness :
  total m_delivery_count demo_admitted = 1 ∧
  total m_delivery_count demo_admitted ≤ MAX_GLOBAL_DELIVERIES.
Proof.
  split; [vm_compute; reflexivity|].
  exact (proj1 (proj2 (proj2 (proj2 (proj2
    (reachable_limits 4 DEFAULT_PENDING_TTL_MS demo_admitted admitted_reachable)))))).
Defined.

Lemma sweep_recounts_witness :
  global_delivery_count (prune_expired 7 demo_admitted) = 1 ∧ exact (prune_expired 7 demo_admitted).
Proof.
  split; [vm_compute; reflexivity|].
  exact (proj1 (sweep_recounts 4 DEFAULT_PENDING_TTL_MS 7 demo_admitted admitted_reachable)).
Defined.

Lemma operations_count_exactly_witness :
  (run op_admit demo_active).1 = true ∧ exact (perform demo_active op_admit).
Proof.
  split; [vm_compute; reflexivity|].
  exact (operations_count_exactly 4 DEFAULT_PENDING_TTL_MS demo_active op_admit
           active_reachable I).
Defined.

Lemma epoch_moves_by_one_witness :
  ∃ r r', rooms demo_staged !! "room_1" = Some r ∧
    rooms (perform demo_staged op_accept) !! "room_1" = Some r' ∧
    room_epoch r = 0 ∧ room_epoch r' = 1 ∧
    (stands r r' ∨
     (identity r' = identity r ∧ room_epoch r' = room_epoch r + 1 ∧
      (run op_accept demo_staged).1 = true ∧
      ∃ n0 n1 n2 n3 m v,
        op_accept = AcceptMembership n0 n1 n2 n3 (room_owner_code_id r) "room_1" m v)).
Proof.
  assert (room_epoch <$> rooms demo_staged !! "room_1" = Some 0) as E0 by (vm_compute; reflexivity).
  assert (room_epoch <$> rooms (perform demo_staged op_accept) !! "room_1" = Some 1) as E1
    by (vm_compute; reflexivity).
  destruct (rooms demo_staged !! "room_1") as [r|] eqn:Hr; [|discriminate E0].
  destruct (rooms (perform demo_staged op_accept) !! "room_1") as [r'|] eqn:Hr'; [|discriminate E1].
  exists r, r'. injection E0 as E0. injection E1 as E1.
  split; [reflexivity|]. split; [reflexivity|]. split; [exact E0|]. split; [exact E1|].
  exact (epoch_moves_by_one 4 DEFAULT_PENDING_TTL_MS demo_staged op_accept "room_1" r r'
           staged_reachable Hr Hr').
Defined.

Lemma accepted_changes_one_member_witness :
  ∃ res s' r', accept_membership 4 4 4 4 owner "room_1" "commit_1" 1 demo_staged = (Ok res, s') ∧
    rooms s' !! "room_1" = Some r' ∧
    ∃ r t c, rooms (prune_expired 4 demo_staged) !! "room_1" = Some r ∧
      room_pending_transition r = Some t ∧ res = Accepted t ∧ mt_message_id t = "commit_1" ∧
      one_sided (room_members r) (room_members r') = {[c]} ∧
      canonical_username (room_owner_username r) ≠ Ok c ∧
      (∀ u, u ≠ c → room_members r' !! u = room_members r !! u) ∧
      (∀ x, room_members r' !! c = Some x → ∃ j, answered_join r t = Some j ∧
         x = mkMember (jr_username (pj_request j)) (jr_code_id (pj_request j))
               (jr_stable_identity (pj_request j)) false).
Proof.
  take_room demo_accepted r' Hr'. unfold demo_accepted, after in Hr'.
  take_ok (accept_membership 4 4 4 4 owner "room_1" "commit_1" 1 demo_staged) res s' E.
  exists res, s', r'. split; [reflexivity|]. split; [exact Hr'|].
  exact (accepted_changes_one_member 4 DEFAULT_PENDING_TTL_MS 4 4 4 4 owner "room_1" "commit_1" 1
           demo_staged res s' r' staged_reachable E Hr').
Defined.

Lemma accepted_fan_out_witness :
  ∃ res s' r', accept_membership 4 4 4 4 owner "room_1" "commit_1" 1 demo_staged = (Ok res, s') ∧
    rooms s' !! "room_1" = Some r' ∧
    ∃ r t, rooms (prune_expired 4 demo_staged) !! "room_1" = Some r ∧ res = Accepted t ∧
      queue_of r' (room_owner_code_id r) = queue_of r (room_owner_code_id r) ∧
      (∀ u x, room_members r' !! u = Some x → mem_code_id x ≠ room_owner_code_id r →
         match room_members r !! u with
         | Some _ => ∃ d, commit_delivery r t x = Ok d ∧
             queue_of r' (mem_code_id x) = queue_of r (mem_code_id x) ++ [d]
         | None => queue_of r' (mem_code_id x) = [welcome_delivery r t x]
         end) ∧
      (∀ c, ¬ is_code (room_members r') c → queue_of r' c = []).
Proof.
  take_room demo_accepted r' Hr'. unfold demo_accepted, after in Hr'.
  take_ok (accept_membership 4 4 4 4 owner "room_1" "commit_1" 1 demo_staged) res s' E.
  exists res, s', r'. split; [reflexivity|]. split; [exact Hr'|].
  exact (accepted_fan_out 4 DEFAULT_PENDING_TTL_MS 4 4 4 4 owner "room_1" "commit_1" 1
           demo_staged res s' r' staged_reachable E Hr').
Defined.

Abbreviation demo_admit :=
  (admit_application_for_platform 6 owner Android "room_1" "msg_1" gid 1 2 (digest Byte.x09)
     [Byte.x21; Byte.x22] [Byte.x23] [Byte.x24]).

Lemma admitted_fan_out_witness :
  ∃ adm s' r', demo_admit demo_active = (Ok adm, s') ∧ rooms s' !! "room_1" = Some r' ∧
    ∃ r exp u, rooms (prune_expired 6 demo_active) !! "room_1" = Some r ∧
      queue_of r owner = [] ∧ room_member_revisions r !! owner = Some (2 - 1) ∧
      room_member_revisions r' !! owner = Some 2 ∧
      (∀ k x, room_members r !! k = Some x → mem_active x = true → mem_code_id x ≠ owner →
         ∃ n, next_delivery_revision r (mem_code_id x) = Ok n ∧
           queue_of r' (mem_code_id x) = queue_of r (mem_code_id x)
             ++ [application_delivery "room_1" "msg_1" owner Android u 1 (digest Byte.x09)
                   [Byte.x21; Byte.x22] [Byte.x23] 6 exp (mem_code_id x, n)]) ∧
      (∀ c, (∀ k x, room_members r !! k = Some x → mem_code_id x = c →
               mem_active x = true → c = owner) → queue_of r' c = queue_of r c).
Proof.
  take_room demo_admitted r' Hr'. unfold demo_admitted, after in Hr'.
  take_ok (demo_admit demo_active) adm s' E.
  exists adm, s', r'. split; [reflexivity|]. split; [exact Hr'|].
  exact (admitted_fan_out 4 DEFAULT_PENDING_TTL_MS 6 owner Android "room_1" "msg_1" gid 1 2
           (digest Byte.x09) [Byte.x21; Byte.x22] [Byte.x23] [Byte.x24] demo_active adm s' r'
           active_reachable E Hr').
Defined.

Lemma snapshot_retires_prefix_witness :
  ∃ s s' r', store_snapshot 8 bob "room_1" "msg_1" 1 1 (digest Byte.x09) [Byte.x31] demo_committed
      = (Ok s, s') ∧ rooms s' !! "room_1" = Some r' ∧
    ∃ r n, rooms (prune_expired 8 demo_committed) !! "room_1" = Some r ∧
      queue_of r' bob = drop n (queue_of r bob) ∧ room_member_revisions r' !! bob = Some 1.
Proof.
  take_room demo_acked r' Hr'. unfold demo_acked, after in Hr'.
  take_ok (store_snapshot 8 bob "room_1" "msg_1" 1 1 (digest Byte.x09) [Byte.x31] demo_committed)
    s s' E.
  exists s, s', r'. split; [reflexivity|]. split; [exact Hr'|].
  destruct (snapshot_retires_prefix 4 DEFAULT_PENDING_TTL_MS 8 bob "room_1" "msg_1" 1 1
    (digest Byte.x09) [Byte.x31] demo_committed s s' r' committed_reachable E Hr')
    as (r & n & Hr & Hq & _ & Hv & _).
  exists r, n. split; [exact Hr|]. split; [exact Hq|exact Hv].
Defined.

(** Bob's queue after two deliveries, the first of which was dropped. *)
Definition gapped : RelayRoom :=
  match rooms demo_admitted !! "room_1" with
  | Some r => set_room_deliveries
      {[bob := (λ d, set_pd_revision 9 d) <$> queue_of r bob]} r
  | None => fresh_room owner "Alice" "room_1" gid (digest Byte.x08) (stable Byte.x01)
              RoomPolicy.default Private "alice"
  end.

(** Between the commit and the second attempt, Bob stores his snapshot and somebody
    looks at the room. *)
Definition bob_stores : Op :=
  StoreSnapshot 8 bob "room_1" "msg_1" 1 1 (digest Byte.x09) [Byte.x31].
Definition demo_later : RoomAuthority := perform (perform demo_committed bob_stores) (Query 500).

Lemma later_in_window : window_run "room_1" 7 demo_committed 0 demo_later.
Proof.
  apply (window_next _ _ _ 0 (perform demo_committed bob_stores) (Query 500)).
  - apply (window_next _ _ _ 0 demo_committed bob_stores); [apply window_start| | |discriminate].
    + apply Forall_singleton. vm_compute. reflexivity.
    + vm_compute. eauto.
  - apply Forall_singleton. vm_compute. reflexivity.
  - vm_compute. eauto.
  - discriminate.
Defined.

Lemma committed_not_readmitted_witness :
  commit_application 7 "room_1" "msg_1" demo_admitted = (Ok tt, demo_committed) ∧
  is_ok (admit_application_for_platform 1000 owner Android "room_1" "msg_1" gid 1 3
           (digest Byte.x09) [Byte.x21] [Byte.x23] [Byte.x24] demo_later).1 = false.
Proof.
  assert (commit_application 7 "room_1" "msg_1" demo_admitted = (Ok tt, demo_committed)) as E.
  { assert ((commit_application 7 "room_1" "msg_1" demo_admitted).1 = Ok tt) as E1
      by (vm_compute; reflexivity).
    rewrite <- E1. apply surjective_pairing. }
  split; [exact E|].
  exact (committed_not_readmitted 4 DEFAULT_PENDING_TTL_MS 7 "room_1" "msg_1" demo_admitted
    demo_committed 0 demo_later 1000 owner Android gid 1 3 (digest Byte.x09) [Byte.x21] [Byte.x23]
    [Byte.x24] admitted_reachable E ltac:(vm_compute; reflexivity) later_in_window
    ltac:(vm_compute; reflexivity) ltac:(vm_compute; reflexivity)).
Defined.

(** The room the admission of the scenario starts from. *)
Definition start_room : RelayRoom :=
  default gapped (rooms (prune_expired 6 demo_active) !! "room_1").

Lemma start_room_compacted : compacted start_room.
Proof.
  intros c Hc%elem_of_member_codes.
  assert (member_codes (room_members start_room) = [owner; bob]) as E by (vm_compute; reflexivity).
  rewrite E in Hc. apply elem_of_cons in Hc as [->|Hc]; [vm_compute; reflexivity|].
  apply list_elem_of_singleton in Hc as ->. vm_compute. reflexivity.
Qed.

Lemma start_room_fresh c x : x ∈ queue_of start_room c → pd_message_id x ≠ "msg_1".
Proof.
  unfold queue_of. assert (room_deliveries start_room = ∅) as -> by (vm_compute; reflexivity).
  rewrite lookup_empty. simpl. intros Hx. by apply elem_of_nil in Hx.
Qed.

Lemma rollback_undoes_admission_witness :
  ∃ adm s', demo_admit demo_active = (Ok adm, s') ∧
    rollback_application "room_1" "msg_1" s' = (Ok tt, prune_expired 6 demo_active).
Proof.
  take_ok (demo_admit demo_active) adm s' E.
  exists adm, s'. split; [reflexivity|].
  exact (rollback_undoes_admission 4 DEFAULT_PENDING_TTL_MS 6 owner Android "room_1" "msg_1" gid 1 2
    (digest Byte.x09) [Byte.x21; Byte.x22] [Byte.x23] [Byte.x24] demo_active adm s' start_room
    active_reachable E ltac:(vm_compute; reflexivity) start_room_compacted start_room_fresh).
Defined.

Lemma admission_guarded_witness :
  ∃ adm s', demo_admit demo_active = (Ok adm, s') ∧
    ∃ r u x, rooms (prune_expired 6 demo_active) !! "room_1" = Some r ∧
      room_members r !! u = Some x ∧ mem_code_id x = owner ∧ mem_active x = true ∧
      room_epoch r = 1.
Proof.
  take_ok (demo_admit demo_active) adm s' E.
  exists adm, s'. split; [reflexivity|].
  destruct (admission_guarded 4 DEFAULT_PENDING_TTL_MS 6 owner Android "room_1" "msg_1" gid 1 2
    (digest Byte.x09) [Byte.x21; Byte.x22] [Byte.x23] [Byte.x24] demo_active adm s'
    active_reachable E) as (r & u & x & H1 & H2 & H3 & H4 & H5 & _).
  exists r, u, x. split; [exact H1|]. split; [exact H2|]. split; [exact H3|].
  split; [exact H4|exact H5].
Defined.

Definition staged_room : RelayRoom := default gapped (rooms demo_staged !! "room_1").

Lemma resolution_binds_identities_witness :
  ∃ next req, resolve_next_roster staged_room demo_transition = Ok next ∧
    roster_map demo_roster = Ok req ∧ dom next = dom req.
Proof.
  destruct (resolve_next_roster staged_room demo_transition) as [next|e] eqn:E;
    [|exfalso; assert (is_ok (resolve_next_roster staged_room demo_transition) = true) as Hok
        by (vm_compute; reflexivity); rewrite E in Hok; discriminate Hok].
  destruct (resolution_binds_identities staged_room demo_transition next E) as (req & H1 & H2 & _).
  exists next, req. split; [reflexivity|]. split; [exact H1|exact H2].
Defined.

Lemma trimming_terminates_witness :
  map_sum m_replay (rooms demo_committed) ≤ usize_MAX ∧
  trim_loop 7 (set_global_replay_count (map_sum m_replay (rooms demo_committed)) demo_committed)
  = trim_replay_ids demo_committed.
Proof.
  assert (map_sum m_replay (rooms demo_committed) ≤ usize_MAX) as H by (vm_compute; discriminate).
  split; [exact H|].
  apply (proj2 (trimming_terminates demo_committed H) 7%nat). vm_compute. discriminate.
Defined.
