(* ===== verification/TransportWire.v ===== *)
(** * Bytes of machine integers

    [to_be_bytes] and [from_be_bytes] at every width, sub-slices, ASCII and
    UTF-8 text: what the binary codecs of the transport use of the language
    and its standard library. *)

From S2P Require Import Prelude.

Definition byte_Z (b : byte) : Z := Z.of_N (Byte.to_N b).
(** [z as u8]. *)
Definition Z_byte (z : Z) : byte := default Byte.x00 (Byte.of_N (Z.to_N (z mod 256))).

Lemma byte_Z_range b : 0 ≤ byte_Z b < 256.
Proof. unfold byte_Z. pose proof (Byte.to_N_bounded b). lia. Qed.

Lemma byte_Z_byte z : byte_Z (Z_byte z) = z mod 256.
Proof.
  unfold byte_Z, Z_byte. pose proof (Z.mod_pos_bound z 256 ltac:(lia)) as Hz.
  destruct (Byte.of_N _) as [b|] eqn:E; simpl.
  - apply Byte.to_of_N_iff in E. lia.
  - apply Byte.of_N_None_iff in E. lia.
Qed.

Lemma Z_byte_Z b : Z_byte (byte_Z b) = b.
Proof.
  unfold byte_Z, Z_byte. pose proof (Byte.to_N_bounded b).
  rewrite Z.mod_small by lia. by rewrite N2Z.id, Byte.of_to_N.
Qed.

Lemma Z_byte_eq z b : 0 ≤ z < 256 → Z_byte z = b ↔ z = byte_Z b.
Proof.
  intros Hz. split; [intros <-|intros ->; apply Z_byte_Z].
  by rewrite byte_Z_byte, Z.mod_small.
Qed.

(** [uN::to_be_bytes] on [n] bytes (the low bytes of [z]) and its inverse. *)
Fixpoint be_bytes (n : nat) (z : Z) : bytes :=
  match n with
  | O => []
  | S n => be_bytes n (z / 256) ++ [Z_byte z]
  end.

Definition be_value (l : bytes) : Z := foldl (λ a b, 256 * a + byte_Z b) 0 l.

Lemma length_be_bytes n z : length (be_bytes n z) = n.
Proof. revert z. induction n as [|n IH]; intros z; simpl; [done|]. rewrite length_app, IH. simpl. lia. Qed.
Lemma len_be_bytes n z : len (be_bytes n z) = Z.of_nat n.
Proof. unfold len. by rewrite length_be_bytes. Qed.

Lemma be_value_snoc l b : be_value (l ++ [b]) = 256 * be_value l + byte_Z b.
Proof. unfold be_value. by rewrite foldl_app. Qed.

Lemma be_value_range l : 0 ≤ be_value l < 256 ^ len l.
Proof.
  induction l as [|b l IH] using rev_ind; [done|].
  rewrite be_value_snoc, len_app, Z.pow_add_r by (apply len_nonneg || done).
  change (256 ^ len [b]) with 256. pose proof (byte_Z_range b). lia.
Qed.

Lemma be_value_be_bytes n z : 0 ≤ z < 256 ^ Z.of_nat n → be_value (be_bytes n z) = z.
Proof.
  revert z. induction n as [|n IH]; intros z Hz; simpl be_bytes.
  - change (be_value []) with 0. change (256 ^ Z.of_nat 0) with 1 in Hz. lia.
  - rewrite Nat2Z.inj_succ, Z.pow_succ_r in Hz by lia.
    rewrite be_value_snoc, byte_Z_byte, IH.
    + pose proof (Z.div_mod z 256). lia.
    + split; [apply Z.div_pos; lia|]. apply Z.div_lt_upper_bound; lia.
Qed.

Lemma be_bytes_be_value l : be_bytes (length l) (be_value l) = l.
Proof.
  induction l as [|b l IH] using rev_ind; [done|].
  rewrite length_app, Nat.add_1_r, be_value_snoc. simpl be_bytes.
  pose proof (byte_Z_range b).
  assert ((256 * be_value l + byte_Z b) / 256 = be_value l) as ->.
  { symmetry. apply (Z.div_unique _ _ _ (byte_Z b)); lia. }
  rewrite IH. do 2 f_equal. rewrite <- (Z_byte_Z b) at 2. unfold Z_byte. do 3 f_equal.
  rewrite Z.mul_comm, Z.add_comm, Z_mod_plus_full. done.
Qed.

Lemma be_bytes_of_value n l : len l = Z.of_nat n → be_bytes n (be_value l) = l.
Proof. unfold len. intros ?%Nat2Z.inj. subst n. apply be_bytes_be_value. Qed.

Lemma be_bytes_inj n a b :
  0 ≤ a < 256 ^ Z.of_nat n → 0 ≤ b < 256 ^ Z.of_nat n → be_bytes n a = be_bytes n b → a = b.
Proof.
  intros Ha Hb E. rewrite <- (be_value_be_bytes n a), <- (be_value_be_bytes n b) by done.
  by rewrite E.
Qed.

Lemma len_pos {A} (l : list A) : l ≠ [] ↔ 0 < len l.
Proof.
  destruct l; [done|]. rewrite len_cons. pose proof (len_nonneg l). split; [lia|done].
Qed.

(** ** Slices *)

(** [&l[i..j]], for [i ≤ j ≤ len l]. *)
Definition slice (i j : Z) (l : bytes) : bytes :=
  take (Z.to_nat (j - i)) (drop (Z.to_nat i) l).

Lemma slice_app (p m q : bytes) i j :
  i = len p → j = len p + len m → slice i j (p ++ m ++ q) = m.
Proof.
  unfold slice, len. intros -> ->.
  rewrite Nat2Z.id, drop_app_length.
  replace (Z.to_nat _) with (length m) by lia. apply take_app_length.
Qed.

Lemma len_slice i j l : 0 ≤ i ≤ j → j ≤ len l → len (slice i j l) = j - i.
Proof. unfold slice, len. rewrite length_take, length_drop. lia. Qed.

Lemma slice_split i j k l :
  0 ≤ i ≤ j → j ≤ k → k ≤ len l → slice i k l = slice i j l ++ slice j k l.
Proof.
  unfold slice, len. intros ? ? ?.
  replace (Z.to_nat (k - i)) with (Z.to_nat (j - i) + Z.to_nat (k - j))%nat by lia.
  rewrite <- take_take_drop, drop_drop. do 3 f_equal. lia.
Qed.

Lemma slice_all l k : k = len l → slice 0 k l = l.
Proof. unfold slice, len. intros ->. simpl. rewrite drop_0. apply take_ge. lia. Qed.

(** ** Text *)

Definition text_bytes (s : string) : bytes := String.list_byte_of_string s.
Definition bytes_text (l : bytes) : string := String.string_of_list_byte l.

Lemma bytes_text_bytes s : bytes_text (text_bytes s) = s.
Proof. apply String.string_of_list_byte_of_string. Qed.
Lemma text_bytes_text l : text_bytes (bytes_text l) = l.
Proof. apply String.list_byte_of_string_of_list_byte. Qed.
Lemma len_text_bytes s : len (text_bytes s) = slen s.
Proof.
  unfold len, slen. f_equal. induction s as [|c s IH]; [done|].
  change (text_bytes (String c s)) with (Ascii.byte_of_ascii c :: text_bytes s).
  simpl. by rewrite IH.
Qed.
#[export] Instance text_bytes_inj : Inj (=) (=) text_bytes.
Proof. intros a b E. by rewrite <- (bytes_text_bytes a), <- (bytes_text_bytes b), E. Qed.

(** [slice::is_ascii]. *)
Definition is_ascii (l : bytes) : bool := forallb (λ b, bool_decide (byte_Z b < 128)) l.

(** [core::str::from_utf8] accepts: the table of well-formed sequences. *)
Definition between (lo hi : Z) (b : byte) : bool :=
  bool_decide (lo ≤ byte_Z b) && bool_decide (byte_Z b ≤ hi).

Fixpoint utf8_valid (l : bytes) : bool :=
  match l with
  | [] => true
  | b :: l1 =>
      if between 0 127 b then utf8_valid l1
      else if between 194 223 b then
        match l1 with c :: l2 => between 128 191 c && utf8_valid l2 | [] => false end
      else if between 224 239 b then
        match l1 with
        | c :: d :: l3 =>
            (if bool_decide (byte_Z b = 224) then between 160 191 c
             else if bool_decide (byte_Z b = 237) then between 128 159 c
             else between 128 191 c)
            && between 128 191 d && utf8_valid l3
        | _ => false
        end
      else if between 240 244 b then
        match l1 with
        | c :: d :: e :: l4 =>
            (if bool_decide (byte_Z b = 240) then between 144 191 c
             else if bool_decide (byte_Z b = 244) then between 128 143 c
             else between 128 191 c)
            && between 128 191 d && between 128 191 e && utf8_valid l4
        | _ => false
        end
      else false
  end.

Lemma is_ascii_utf8 l : is_ascii l = true → utf8_valid l = true.
Proof.
  induction l as [|b l IH]; simpl; [done|]. intros [Hb Hl]%andb_true_iff.
  apply bool_decide_eq_true in Hb. pose proof (byte_Z_range b).
  unfold between. rewrite !bool_decide_true by lia. simpl. by apply IH.
Qed.

(** ** Slices of concatenations *)

Lemma slice_app_l i j (a b : bytes) : 0 ≤ i ≤ j → j ≤ len a → slice i j (a ++ b) = slice i j a.
Proof.
  unfold slice, len. intros. rewrite drop_app_le by lia.
  apply take_app_le. rewrite length_drop. lia.
Qed.

Lemma slice_app_r i j (a b : bytes) :
  len a ≤ i → slice i j (a ++ b) = slice (i - len a) (j - len a) b.
Proof.
  unfold slice, len. intros. rewrite drop_app_ge by lia. f_equal; [lia|]. f_equal. lia.
Qed.

Lemma slice_eq i j (a : bytes) : i = 0 → j = len a → slice i j a = a.
Proof. intros ->. apply slice_all. Qed.

Lemma slice_lookup (l : bytes) i b : l !! i = Some b → slice (Z.of_nat i) (Z.of_nat i + 1) l = [b].
Proof.
  intros Hb. unfold slice. replace (Z.to_nat _) with 1%nat by lia. rewrite Nat2Z.id.
  rewrite (drop_S l b i) by done. done.
Qed.

(** * Shared wire format of the transport crate (abyssal-transport/src/lib.rs)

    Limits, errors, directions and the length-prefixed [canonical_parts]
    encoding; the bounded [Reader] of the binary codecs (control.rs,
    account_bootstrap.rs and attachment.rs each carry the same one); and the
    interfaces of the primitives the crate imports: ChaCha20-Poly1305, HKDF
    and the random source.  Their laws are separate classes, so that a
    definition never depends on a law. *)

(** ** Limits *)

Definition TRANSPORT_VERSION : byte := Byte.x0b.
Definition MAX_BOOTSTRAP_PLAINTEXT_BYTES : Z := 64 * 1024.
Definition MAX_RECORD_PLAINTEXT_BYTES : Z := 1024 * 1024.
Definition MAX_WS_RECORD_PLAINTEXT_BYTES : Z := 16 * 1024 * 1024.
Definition MAX_AAD_BYTES : Z := 4 * 1024.
Definition MAX_OPERATION_BYTES : Z := 64.
Definition MAX_SESSION_CONTEXT_BYTES : Z := 512.
Definition MAX_HTTP_HANDLES : Z := 4096.
Definition MAX_BOOTSTRAP_REQUEST_IDS : Z := 4096.
Definition MIN_BOOTSTRAP_REPLAY_TTL_MS : Z := 1.
Definition MAX_BOOTSTRAP_REPLAY_TTL_MS : Z := 24 * 60 * 60 * 1000.
Definition TAG_BYTES : Z := 16.
Definition WS_FRAME_AAD : bytes := text_bytes "ABYSSAL-TRANSPORT-V11-WS-FRAME".

Definition u32_MAX : Z := 4294967295.

(** ** Errors and directions *)

Inductive TransportError : Type :=
| InvalidInput
| TooLarge
| AuthenticationFailed
| NonCanonical
| Replayed
| CounterGap
| CounterExhausted
| CapacityExhausted
| ClockRollback.

#[export] Instance TransportError_eq_dec : EqDecision TransportError.
Proof. solve_decision. Defined.

Abbreviation res := (result TransportError).

Inductive Direction : Type :=
| ClientToServer
| ServerToClient.

#[export] Instance Direction_eq_dec : EqDecision Direction.
Proof. solve_decision. Defined.

(** [direction as u8] and [Direction::from_byte]. *)
Definition direction_byte (d : Direction) : byte :=
  match d with ClientToServer => Byte.x01 | ServerToClient => Byte.x02 end.

Definition direction_from_byte (b : byte) : res Direction :=
  if bool_decide (b = Byte.x01) then Ok ClientToServer
  else if bool_decide (b = Byte.x02) then Ok ServerToClient
  else Err NonCanonical.

Lemma direction_from_byte_Ok b d : direction_from_byte b = Ok d ↔ b = direction_byte d.
Proof.
  unfold direction_from_byte. repeat case_bool_decide; subst; destruct d; simpl;
    split; intros; simplify_eq; done.
Qed.

(** [[0; n]]. *)
Definition zeros (n : nat) : bytes := replicate n Byte.x00.
Lemma len_zeros n : len (zeros n) = Z.of_nat n.
Proof. unfold len, zeros. by rewrite length_replicate. Qed.

(** ** Canonical concatenation *)

Definition prefixed (part : bytes) : bytes := be_bytes 4 (len part mod 2 ^ 32) ++ part.
Definition canonical_parts (parts : list bytes) : bytes := concat (prefixed <$> parts).

Definition small_part (part : bytes) : Prop := len part < 2 ^ 32.

Lemma prefixed_app_inj p q k l :
  small_part p → small_part q → prefixed p ++ k = prefixed q ++ l → p = q ∧ k = l.
Proof.
  unfold small_part, prefixed. intros Hp Hq. pose proof (len_nonneg p). pose proof (len_nonneg q).
  rewrite !Z.mod_small by lia. rewrite <- !(assoc_L (++)).
  intros [E1 E2]%app_inj_1; [|by rewrite !length_be_bytes].
  apply be_bytes_inj in E1; [|done|done].
  apply app_inj_1 in E2; [done|unfold len in *; lia].
Qed.

Lemma canonical_parts_cons p ps : canonical_parts (p :: ps) = prefixed p ++ canonical_parts ps.
Proof. done. Qed.
Lemma prefixed_not_nil p k : prefixed p ++ k ≠ [].
Proof.
  intros E. apply (f_equal length) in E. unfold prefixed in E.
  rewrite !length_app, length_be_bytes in E. change (length (@nil byte)) with 0%nat in E. lia.
Qed.

Lemma canonical_parts_unique ps qs :
  Forall small_part ps → Forall small_part qs → canonical_parts ps = canonical_parts qs → ps = qs.
Proof.
  intros Hp. revert qs. induction Hp as [|p ps Hp _ IH]; intros qs Hq E.
  - destruct Hq as [|q qs]; [done|]. rewrite canonical_parts_cons in E.
    by symmetry in E; apply prefixed_not_nil in E.
  - destruct Hq as [|q qs Hq Hqs]; rewrite !canonical_parts_cons in E.
    + by apply prefixed_not_nil in E.
    + apply prefixed_app_inj in E as [-> E]; [|done|done]. f_equal. by apply IH.
Qed.

Lemma len_prefixed p : len (prefixed p) = 4 + len p.
Proof. unfold prefixed. rewrite len_app, len_be_bytes. lia. Qed.
Lemma len_canonical_parts ps : len (canonical_parts ps) = sumZ ((λ p, 4 + len p) <$> ps).
Proof.
  induction ps as [|p ps IH]; [done|].
  rewrite canonical_parts_cons, len_app, len_prefixed, IH. done.
Qed.

(** ** Bounds checks and integers *)

Definition validate_aad (aad : bytes) : res () :=
  reject_if (bool_decide (MAX_AAD_BYTES < len aad)) TooLarge.

Definition validate_plaintext (value : bytes) (maximum : Z) : res () :=
  _ ← reject_if (bool_decide (value = [])) InvalidInput;
  reject_if (bool_decide (maximum < len value)) TooLarge.

(** [value.try_into()] to an array of the width, then [from_be_bytes]; the
    conversion of a [u32] to [usize] never fails on the 64-bit target. *)
Definition read_u32 (value : bytes) : res Z :=
  _ ← reject_if (bool_decide (len value ≠ 4)) NonCanonical; Ok (be_value value).
Definition read_u64 (value : bytes) : res Z :=
  _ ← reject_if (bool_decide (len value ≠ 8)) NonCanonical; Ok (be_value value).

(** [u32::try_from(n)], [u16::try_from(n)]. *)
Definition try_u32 (n : Z) : res Z := _ ← reject_if (bool_decide (u32_MAX < n)) TooLarge; Ok n.
Definition try_u16 (n : Z) : res Z := _ ← reject_if (bool_decide (u16_MAX < n)) TooLarge; Ok n.

Lemma validate_plaintext_Ok v m u : validate_plaintext v m = Ok u ↔ v ≠ [] ∧ len v ≤ m.
Proof.
  unfold validate_plaintext. destruct u. repeat case_bool_decide; simpl; naive_solver lia.
Qed.
Lemma validate_aad_Ok a u : validate_aad a = Ok u ↔ len a ≤ MAX_AAD_BYTES.
Proof. unfold validate_aad. rewrite reject_if_Ok, bool_decide_eq_false. lia. Qed.
Lemma try_u32_Ok n m : try_u32 n = Ok m ↔ n ≤ u32_MAX ∧ m = n.
Proof. unfold try_u32. case_bool_decide; simpl; naive_solver lia. Qed.
Lemma try_u16_Ok n m : try_u16 n = Ok m ↔ n ≤ u16_MAX ∧ m = n.
Proof. unfold try_u16. case_bool_decide; simpl; naive_solver lia. Qed.
Lemma read_u32_Ok l n : read_u32 l = Ok n ↔ len l = 4 ∧ n = be_value l.
Proof. unfold read_u32. case_bool_decide; simpl; naive_solver. Qed.
Lemma read_u64_Ok l n : read_u64 l = Ok n ↔ len l = 8 ∧ n = be_value l.
Proof. unfold read_u64. case_bool_decide; simpl; naive_solver. Qed.

(** ** The primitives the crate imports *)

(** [chacha20poly1305]: key, nonce, associated data, message. *)
Class Aead : Type := {
  encrypt : bytes → bytes → bytes → bytes → option bytes;
  decrypt : bytes → bytes → bytes → bytes → option bytes
}.

(** RFC 8439: encryption is deterministic, succeeds up to the message limit
    and appends a 16-byte tag; decryption inverts it and accepts nothing that
    encryption under the same key, nonce and data would not produce. *)
Class AeadLaws `{Aead} : Prop := {
  encrypt_total k n a m : len m ≤ 2 ^ 36 → is_Some (encrypt k n a m);
  encrypt_len k n a m c : encrypt k n a m = Some c → len c = len m + TAG_BYTES;
  decrypt_encrypt k n a m c : encrypt k n a m = Some c → decrypt k n a c = Some m;
  decrypt_tidy k n a m c : decrypt k n a c = Some m → encrypt k n a m = Some c
}.

(** [hkdf::Hkdf<Sha256>]: salt, input key, info, output length. *)
Class Hkdf : Type := { hkdf_expand : bytes → bytes → bytes → Z → option bytes }.

(** Expansion fails only beyond 255 blocks of the hash and fills the output. *)
Class HkdfLaws `{Hkdf} : Prop := {
  hkdf_total salt ikm info n :
    0 ≤ n ≤ 255 * 32 → ∃ out, hkdf_expand salt ikm info n = Some out ∧ len out = n
}.

(** [getrandom::fill] on a buffer of the given length; [None] is its error. *)
Class Entropy : Type := { fill : Z → option bytes }.
Class EntropyLaws `{Entropy} : Prop := {
  fill_len n t : fill n = Some t → len t = n
}.

(** * Key schedule (abyssal-transport/src/key_schedule.rs) *)

Definition OPAQUE_ROOT_DOMAIN : bytes := text_bytes "ABYSSAL-TRANSPORT-V11-OPAQUE-ROOT".
Definition RECORD_KDF_DOMAIN : bytes := text_bytes "ABYSSAL-TRANSPORT-V11-RECORD-KEY".
Definition HTTP_NONCE_DOMAIN : bytes := text_bytes "ABYSSAL-TRANSPORT-V11-HTTP-NONCE".

Section derive.
Context {HK : Hkdf}.

Definition derive_opaque_transport_root (session_key context : bytes) : res bytes :=
  _ ← reject_if
        (bool_decide (len session_key < 32)
         || forallb (λ b, bool_decide (b = Byte.x00)) session_key
         || bool_decide (context = [])
         || bool_decide (MAX_SESSION_CONTEXT_BYTES < len context)) InvalidInput;
  let info := canonical_parts [OPAQUE_ROOT_DOMAIN; context] in
  ok_or (hkdf_expand OPAQUE_ROOT_DOMAIN session_key info 32) InvalidInput.

Definition derive_record_key (root protocol : bytes) (direction : Direction)
    (connection_context : bytes) : res bytes :=
  _ ← reject_if
        (bool_decide (root = zeros 32)
         || bool_decide (connection_context = [])
         || bool_decide (MAX_SESSION_CONTEXT_BYTES < len connection_context)) InvalidInput;
  let info :=
    canonical_parts [RECORD_KDF_DOMAIN; protocol; [direction_byte direction];
                     connection_context] in
  ok_or (hkdf_expand RECORD_KDF_DOMAIN root info 32) InvalidInput.

Definition http_nonce (key : bytes) (direction : Direction) (handle : bytes) : res bytes :=
  let info := canonical_parts [[direction_byte direction]; handle] in
  ok_or (hkdf_expand HTTP_NONCE_DOMAIN key info 12) InvalidInput.
End derive.

Definition ws_nonce (direction : Direction) (counter : Z) : bytes :=
  zeros 3 ++ [direction_byte direction] ++ be_bytes 8 counter.

Lemma pow_256_8 : 256 ^ Z.of_nat 8 = u64_MAX + 1.
Proof. done. Qed.
Lemma pow_256_4 : 256 ^ Z.of_nat 4 = u32_MAX + 1.
Proof. done. Qed.

(** A nonce names its direction and counter. *)
Lemma ws_nonce_inj d1 d2 c1 c2 :
  0 ≤ c1 ≤ u64_MAX → 0 ≤ c2 ≤ u64_MAX → ws_nonce d1 c1 = ws_nonce d2 c2 → d1 = d2 ∧ c1 = c2.
Proof.
  unfold ws_nonce. intros H1 H2 [_ E]%app_inj_1; [|done].
  apply app_inj_1 in E as [E1 E2]; [|done]. split.
  - by destruct d1, d2.
  - apply be_bytes_inj in E2; rewrite ?pow_256_8; lia.
Qed.

Lemma http_nonce_total `{HkdfLaws} key d h : ∃ n, http_nonce key d h = Ok n ∧ len n = 12.
Proof.
  unfold http_nonce. destruct (hkdf_total HTTP_NONCE_DOMAIN key
    (canonical_parts [[direction_byte d]; h]) 12) as (n & -> & ?); [lia|]. eauto.
Qed.

Lemma record_key_total `{HkdfLaws} root proto d ctx :
  root ≠ zeros 32 → 0 < len ctx ≤ MAX_SESSION_CONTEXT_BYTES →
  ∃ key, derive_record_key root proto d ctx = Ok key.
Proof.
  intros Hr Hc. unfold derive_record_key.
  assert (ctx ≠ []) by (apply len_pos; lia).
  rewrite !bool_decide_false by (done || lia). simpl.
  destruct (hkdf_total RECORD_KDF_DOMAIN root
    (canonical_parts [RECORD_KDF_DOMAIN; proto; [direction_byte d]; ctx]) 32) as (k & -> & _); [lia|].
  by eexists.
Qed.
