(* ===== verification/Invite.v ===== *)
(** * Node descriptors and locator selection (abyssal-invite/src/descriptor.rs,
    locator.rs)

    A node proves its identity to the holder of an invite with a signed
    descriptor, in a first version and in one that also carries the key of the
    sealed bootstrap.  The canonical CBOR of the shared invite format, its
    locators and their validation are the crate invite-capsule, Ed25519 the crate
    ed25519-dalek: [InviteFormat] has their operations, [InviteFormatLaws] what
    the code relies on. *)

From S2P Require Import Prelude TransportWire.

Module InviteError.
Inductive t : Type :=
| Invalid
| TooLarge
| UnsupportedVersion
| WrongApplication
| UnsupportedCapability
| InvalidSignature
| Expired
| UnsupportedTransport
| UnsafeLocator
| InvalidChecksum
| NodeIdentityMismatch
| InvalidDescriptor.
End InviteError.
Import InviteError.

Definition ABYSSAL_APPLICATION_ID : string := "org.abyssal.chat".
Definition INVITE_FORMAT_VERSION : Z := 1.
Definition DIRECT_PROTOCOL_VERSION : Z := 9.
Definition ROOM_PROTOCOL_VERSION : Z := 10.
Definition TRANSPORT_PROTOCOL_VERSION : Z := 11.
Definition u8_MAX : Z := 255.
Definition MAX_BINARY_DESCRIPTOR_BYTES : Z := 1024.
Definition DESCRIPTOR_SIGNATURE_DOMAIN : bytes := text_bytes "ABYSSAL-NODE-DESCRIPTOR-V1".
Definition DESCRIPTOR_VERSION : Z := 1.
Definition DESCRIPTOR_PAYLOAD_FIELDS : Z := 8.
Definition SIGNED_DESCRIPTOR_FIELDS : Z := 2.
Definition DESCRIPTOR_V2_SIGNATURE_DOMAIN : bytes := text_bytes "ABYSSAL-NODE-DESCRIPTOR-V2".
Definition DESCRIPTOR_V2_VERSION : Z := 2.
Definition DESCRIPTOR_V2_PAYLOAD_FIELDS : Z := 10.

(** ** Parameters *)

Class InviteFormat : Type := {
  NodeLocator : Type;
  NodeLocator_eq_dec :: EqDecision NodeLocator;
  is_https : NodeLocator → bool;
  is_loopback_development : NodeLocator → bool;
  validate_locator_set : list NodeLocator → bool;
  MAX_LOCATORS : Z;
  MAX_BINARY_INVITE_BYTES : Z;
  MAX_APPLICATION_ID_BYTES : Z;
  (** What each encoder appends. *)
  encode_array : Z → bytes;
  encode_uint : Z → bytes;
  encode_text : string → bytes;
  encode_bytes : bytes → bytes;
  encode_locator : NodeLocator → bytes;
  (** A decoder over a slice; the errors of the crate are not told apart, except
      that the one of a locator is passed on. *)
  Decoder : Type;
  decoder_new : bytes → Decoder;
  decode_array : Z → Decoder → option Decoder;
  decode_array_len : Decoder → option (Z * Decoder);
  decode_uint : Decoder → option (Z * Decoder);
  decode_text : Z → Decoder → option (string * Decoder);
  decode_bytes : Z → Decoder → option (bytes * Decoder);
  decode_locator : Decoder → result InviteError.t (NodeLocator * Decoder);
  decoder_finish : Decoder → bool;
  signature_input : bytes → string → bytes → bytes;
  (** Ed25519. *)
  SigningKey : Type;
  verifying_key_of : SigningKey → bytes;
  sign_with : SigningKey → bytes → bytes;
  valid_verifying_key : bytes → bool;
  verify_with : bytes → bytes → bytes → bool
}.

(** What was encoded is decoded, with the rest left; [left d b]: the decoder has
    the bytes [b] left. *)
Class InviteFormatLaws `{InviteFormat} : Type := {
  left : Decoder → bytes → Prop;
  left_new b : left (decoder_new b) b;
  left_array n d b :
    0 ≤ n ≤ u64_MAX → left d (encode_array n ++ b) → ∃ d', decode_array n d = Some d' ∧ left d' b;
  left_array_len n d b :
    0 ≤ n ≤ u64_MAX → left d (encode_array n ++ b) →
    ∃ d', decode_array_len d = Some (n, d') ∧ left d' b;
  left_uint n d b :
    0 ≤ n ≤ u64_MAX → left d (encode_uint n ++ b) → ∃ d', decode_uint d = Some (n, d') ∧ left d' b;
  left_text s m d b :
    slen s ≤ m → m ≤ u64_MAX → left d (encode_text s ++ b) →
    ∃ d', decode_text m d = Some (s, d') ∧ left d' b;
  left_bytes v m d b :
    len v ≤ m → m ≤ u64_MAX → left d (encode_bytes v ++ b) →
    ∃ d', decode_bytes m d = Some (v, d') ∧ left d' b;
  left_locator ls l d b :
    validate_locator_set ls = true → l ∈ ls → left d (encode_locator l ++ b) →
    ∃ d', decode_locator d = Ok (l, d') ∧ left d' b;
  decoded_bytes_bounded v m d d' : decode_bytes m d = Some (v, d') → len v ≤ m;
  left_finish d : left d [] → decoder_finish d = true;
  encode_bytes_longer v : len v ≤ len (encode_bytes v);
  locators_bounded ls : validate_locator_set ls = true → 0 < len ls ≤ MAX_LOCATORS;
  locators_width : MAX_LOCATORS ≤ u64_MAX;
  invite_width : MAX_BINARY_INVITE_BYTES ≤ u64_MAX;
  application_id_fits : slen ABYSSAL_APPLICATION_ID ≤ MAX_APPLICATION_ID_BYTES ≤ u64_MAX;
  signature_length k m : len (sign_with k m) = 64;
  key_length k : len (verifying_key_of k) = 32;
  key_valid k : valid_verifying_key (verifying_key_of k) = true;
  signature_verifies k m : verify_with (verifying_key_of k) m (sign_with k m) = true
}.

Section invite.
Context {FMT : InviteFormat}.
Abbreviation res A := (result InviteError.t A).

(** ** Locator selection (locator.rs) *)

Record SupportedTransports : Type := mkSupported {
  st_https : bool;
  st_loopback_development : bool
}.
Definition PRODUCTION : SupportedTransports := mkSupported true false.
Definition DEVELOPMENT : SupportedTransports := mkSupported true true.
Inductive RuntimeLocatorPolicy : Type := Production | ExplicitDevelopment.
#[export] Instance RuntimeLocatorPolicy_eq_dec : EqDecision RuntimeLocatorPolicy.
Proof. solve_decision. Defined.

Definition select_locator (locators : list NodeLocator) (supported : SupportedTransports)
    (policy : RuntimeLocatorPolicy) : res NodeLocator :=
  let development :=
    if st_loopback_development supported && bool_decide (policy = ExplicitDevelopment)
    then ok_or (List.find is_loopback_development locators) UnsupportedTransport
    else Err UnsupportedTransport in
  if st_https supported then
    match List.find is_https locators with Some locator => Ok locator | None => development end
  else development.

(** ** Shared by both versions *)

Definition invalid {A} (o : option A) : res A := ok_or o InvalidDescriptor.
Definition exact_array (n : Z) (value : bytes) : res bytes :=
  if bool_decide (len value = n) then Ok value else Err InvalidDescriptor.
Definition bounded_uint (max n : Z) : res Z :=
  if bool_decide (n ≤ max) then Ok n else Err InvalidDescriptor.

Fixpoint decode_locators (n : nat) (d : Decoder) : res (list NodeLocator * Decoder) :=
  match n with
  | O => Ok ([], d)
  | S n =>
      '(locator, d) ← decode_locator d;
      '(locators, d) ← decode_locators n d;
      Ok (locator :: locators, d)
  end.
Definition decode_locator_list (d : Decoder) : res (list NodeLocator * Decoder) :=
  '(count, d) ← invalid (decode_array_len d);
  _ ← reject_if (bool_decide (count = 0) || bool_decide (MAX_LOCATORS < count)) InvalidDescriptor;
  decode_locators (Z.to_nat count) d.
Definition encode_locators (locators : list NodeLocator) : bytes :=
  encode_array (len locators) ++ concat (encode_locator <$> locators).

(** The outer array of a signed descriptor. *)
Definition encode_signed (payload signature : bytes) : bytes :=
  encode_array SIGNED_DESCRIPTOR_FIELDS ++ encode_bytes payload ++ encode_bytes signature.
Definition decode_signed (max_payload : Z) (binary : bytes) : res (bytes * bytes) :=
  _ ← reject_if (bool_decide (binary = []) || bool_decide (MAX_BINARY_DESCRIPTOR_BYTES < len binary))
        TooLarge;
  d ← invalid (decode_array SIGNED_DESCRIPTOR_FIELDS (decoder_new binary));
  '(payload, d) ← invalid (decode_bytes max_payload d);
  '(signature, d) ← invalid (decode_bytes 64 d);
  signature ← exact_array 64 signature;
  _ ← reject_if (negb (decoder_finish d)) InvalidDescriptor;
  Ok (payload, signature).

(** ** Version 1 *)

Record NodeDescriptorV1 : Type := mkDescriptorV1 {
  d1_application_id : string;
  d1_node_public_key : bytes;
  d1_locators : list NodeLocator;
  d1_invite_format : Z;
  d1_direct_protocol : Z;
  d1_room_protocol : Z;
  d1_flags : Z
}.
Record SignedNodeDescriptor : Type := mkSignedV1 {
  s1_descriptor : NodeDescriptorV1;
  s1_signature : bytes
}.

Definition validate_v1 (d : NodeDescriptorV1) : res () :=
  _ ← reject_if
        (negb (bool_decide (d1_application_id d = ABYSSAL_APPLICATION_ID))
         || bool_decide (d1_node_public_key d = zeros 32)
         || bool_decide (d1_invite_format d ≠ INVITE_FORMAT_VERSION)
         || bool_decide (d1_direct_protocol d ≠ DIRECT_PROTOCOL_VERSION)
         || bool_decide (d1_room_protocol d ≠ ROOM_PROTOCOL_VERSION)
         || bool_decide (d1_flags d ≠ 0)) InvalidDescriptor;
  reject_if (negb (validate_locator_set (d1_locators d))) InvalidDescriptor.

Definition abyssal_v1 (node_public_key : bytes) (locators : list NodeLocator) : res NodeDescriptorV1 :=
  let descriptor :=
    mkDescriptorV1 ABYSSAL_APPLICATION_ID node_public_key locators INVITE_FORMAT_VERSION
      DIRECT_PROTOCOL_VERSION ROOM_PROTOCOL_VERSION 0 in
  _ ← validate_v1 descriptor;
  Ok descriptor.

Definition canonical_payload_v1 (d : NodeDescriptorV1) : res bytes :=
  _ ← validate_v1 d;
  Ok (encode_array DESCRIPTOR_PAYLOAD_FIELDS ++ encode_uint DESCRIPTOR_VERSION
      ++ encode_text (d1_application_id d) ++ encode_bytes (d1_node_public_key d)
      ++ encode_locators (d1_locators d) ++ encode_uint (d1_invite_format d)
      ++ encode_uint (d1_direct_protocol d) ++ encode_uint (d1_room_protocol d)
      ++ encode_uint (d1_flags d)).

Definition decode_payload_v1 (payload : bytes) : res NodeDescriptorV1 :=
  d ← invalid (decode_array DESCRIPTOR_PAYLOAD_FIELDS (decoder_new payload));
  '(version, d) ← invalid (decode_uint d);
  _ ← reject_if (bool_decide (version ≠ DESCRIPTOR_VERSION)) UnsupportedVersion;
  '(application_id, d) ← invalid (decode_text MAX_APPLICATION_ID_BYTES d);
  _ ← reject_if (negb (bool_decide (application_id = ABYSSAL_APPLICATION_ID))) WrongApplication;
  '(key, d) ← invalid (decode_bytes 32 d);
  node_public_key ← exact_array 32 key;
  '(locators, d) ← decode_locator_list d;
  '(n, d) ← invalid (decode_uint d);
  invite_format ← bounded_uint u8_MAX n;
  '(n, d) ← invalid (decode_uint d);
  direct_protocol ← bounded_uint u16_MAX n;
  '(n, d) ← invalid (decode_uint d);
  room_protocol ← bounded_uint u16_MAX n;
  '(n, d) ← invalid (decode_uint d);
  flags ← bounded_uint u32_MAX n;
  _ ← reject_if (negb (decoder_finish d)) InvalidDescriptor;
  let descriptor :=
    mkDescriptorV1 application_id node_public_key locators invite_format direct_protocol
      room_protocol flags in
  _ ← validate_v1 descriptor;
  canonical ← canonical_payload_v1 descriptor;
  _ ← reject_if (negb (bool_decide (canonical = payload))) InvalidDescriptor;
  Ok descriptor.

Definition sign_v1 (descriptor : NodeDescriptorV1) (signing_key : SigningKey)
    : res SignedNodeDescriptor :=
  _ ← reject_if (negb (bool_decide (verifying_key_of signing_key = d1_node_public_key descriptor)))
        NodeIdentityMismatch;
  payload ← canonical_payload_v1 descriptor;
  Ok (mkSignedV1 descriptor
        (sign_with signing_key
           (signature_input DESCRIPTOR_SIGNATURE_DOMAIN (d1_application_id descriptor) payload))).

Definition verify_for_invite_v1 (s : SignedNodeDescriptor) (expected_node_key : bytes)
    (expected_locator : NodeLocator) : res () :=
  let d := s1_descriptor s in
  _ ← validate_v1 d;
  _ ← reject_if (negb (bool_decide (d1_node_public_key d = expected_node_key))
                 || negb (bool_decide (expected_locator ∈ d1_locators d))) NodeIdentityMismatch;
  payload ← canonical_payload_v1 d;
  let input := signature_input DESCRIPTOR_SIGNATURE_DOMAIN (d1_application_id d) payload in
  _ ← reject_if (negb (valid_verifying_key expected_node_key)) InvalidDescriptor;
  reject_if (negb (verify_with expected_node_key input (s1_signature s))) InvalidDescriptor.

Definition verify_self_v1 (s : SignedNodeDescriptor) : res () :=
  locator ← ok_or (head (d1_locators (s1_descriptor s))) InvalidDescriptor;
  verify_for_invite_v1 s (d1_node_public_key (s1_descriptor s)) locator.

Definition canonical_binary_v1 (s : SignedNodeDescriptor) : res bytes :=
  _ ← verify_self_v1 s;
  payload ← canonical_payload_v1 (s1_descriptor s);
  let output := encode_signed payload (s1_signature s) in
  _ ← reject_if (bool_decide (MAX_BINARY_DESCRIPTOR_BYTES < len output)) TooLarge;
  Ok output.

Definition decode_for_invite_v1 (binary expected_node_key : bytes) (expected_locator : NodeLocator)
    : res SignedNodeDescriptor :=
  '(payload, signature) ← decode_signed MAX_BINARY_INVITE_BYTES binary;
  descriptor ← decode_payload_v1 payload;
  let signed := mkSignedV1 descriptor signature in
  _ ← verify_for_invite_v1 signed expected_node_key expected_locator;
  canonical ← canonical_binary_v1 signed;
  _ ← reject_if (negb (bool_decide (canonical = binary))) InvalidDescriptor;
  Ok signed.

(** ** Version 2 *)

Record NodeDescriptorV2 : Type := mkDescriptorV2 {
  d2_application_id : string;
  d2_node_public_key : bytes;
  d2_bootstrap_hpke_public_key : bytes;
  d2_locators : list NodeLocator;
  d2_invite_format : Z;
  d2_direct_protocol : Z;
  d2_transport_protocol : Z;
  d2_room_protocol : Z;
  d2_flags : Z
}.
Record SignedNodeDescriptorV2 : Type := mkSignedV2 {
  s2_descriptor : NodeDescriptorV2;
  s2_signature : bytes
}.

Definition validate_v2 (d : NodeDescriptorV2) : res () :=
  _ ← reject_if
        (negb (bool_decide (d2_application_id d = ABYSSAL_APPLICATION_ID))
         || bool_decide (d2_node_public_key d = zeros 32)
         || bool_decide (d2_bootstrap_hpke_public_key d = zeros 32)
         || bool_decide (d2_invite_format d ≠ INVITE_FORMAT_VERSION)
         || bool_decide (d2_direct_protocol d ≠ DIRECT_PROTOCOL_VERSION)
         || bool_decide (d2_transport_protocol d ≠ TRANSPORT_PROTOCOL_VERSION)
         || bool_decide (d2_room_protocol d ≠ ROOM_PROTOCOL_VERSION)
         || bool_decide (d2_flags d ≠ 0)) InvalidDescriptor;
  reject_if (negb (validate_locator_set (d2_locators d))) InvalidDescriptor.

Definition abyssal_v2 (node_public_key bootstrap_hpke_public_key : bytes)
    (locators : list NodeLocator) : res NodeDescriptorV2 :=
  let descriptor :=
    mkDescriptorV2 ABYSSAL_APPLICATION_ID node_public_key bootstrap_hpke_public_key locators
      INVITE_FORMAT_VERSION DIRECT_PROTOCOL_VERSION TRANSPORT_PROTOCOL_VERSION
      ROOM_PROTOCOL_VERSION 0 in
  _ ← validate_v2 descriptor;
  Ok descriptor.

Definition canonical_payload_v2 (d : NodeDescriptorV2) : res bytes :=
  _ ← validate_v2 d;
  Ok (encode_array DESCRIPTOR_V2_PAYLOAD_FIELDS ++ encode_uint DESCRIPTOR_V2_VERSION
      ++ encode_text (d2_application_id d) ++ encode_bytes (d2_node_public_key d)
      ++ encode_bytes (d2_bootstrap_hpke_public_key d) ++ encode_locators (d2_locators d)
      ++ encode_uint (d2_invite_format d) ++ encode_uint (d2_direct_protocol d)
      ++ encode_uint (d2_transport_protocol d) ++ encode_uint (d2_room_protocol d)
      ++ encode_uint (d2_flags d)).

Definition decode_payload_v2 (payload : bytes) : res NodeDescriptorV2 :=
  d ← invalid (decode_array DESCRIPTOR_V2_PAYLOAD_FIELDS (decoder_new payload));
  '(version, d) ← invalid (decode_uint d);
  _ ← reject_if (bool_decide (version ≠ DESCRIPTOR_V2_VERSION)) UnsupportedVersion;
  '(application_id, d) ← invalid (decode_text MAX_APPLICATION_ID_BYTES d);
  _ ← reject_if (negb (bool_decide (application_id = ABYSSAL_APPLICATION_ID))) WrongApplication;
  '(key, d) ← invalid (decode_bytes 32 d);
  node_public_key ← exact_array 32 key;
  '(key, d) ← invalid (decode_bytes 32 d);
  bootstrap_hpke_public_key ← exact_array 32 key;
  '(locators, d) ← decode_locator_list d;
  '(n, d) ← invalid (decode_uint d);
  invite_format ← bounded_uint u8_MAX n;
  '(n, d) ← invalid (decode_uint d);
  direct_protocol ← bounded_uint u16_MAX n;
  '(n, d) ← invalid (decode_uint d);
  transport_protocol ← bounded_uint u16_MAX n;
  '(n, d) ← invalid (decode_uint d);
  room_protocol ← bounded_uint u16_MAX n;
  '(n, d) ← invalid (decode_uint d);
  flags ← bounded_uint u32_MAX n;
  _ ← reject_if (negb (decoder_finish d)) InvalidDescriptor;
  let descriptor :=
    mkDescriptorV2 application_id node_public_key bootstrap_hpke_public_key locators invite_format
      direct_protocol transport_protocol room_protocol flags in
  _ ← validate_v2 descriptor;
  canonical ← canonical_payload_v2 descriptor;
  _ ← reject_if (negb (bool_decide (canonical = payload))) InvalidDescriptor;
  Ok descriptor.

Definition sign_v2 (descriptor : NodeDescriptorV2) (signing_key : SigningKey)
    : res SignedNodeDescriptorV2 :=
  _ ← reject_if (negb (bool_decide (verifying_key_of signing_key = d2_node_public_key descriptor)))
        NodeIdentityMismatch;
  payload ← canonical_payload_v2 descriptor;
  Ok (mkSignedV2 descriptor
        (sign_with signing_key
           (signature_input DESCRIPTOR_V2_SIGNATURE_DOMAIN (d2_application_id descriptor) payload))).

Definition verify_for_invite_v2 (s : SignedNodeDescriptorV2) (expected_node_key : bytes)
    (expected_locator : NodeLocator) : res () :=
  let d := s2_descriptor s in
  _ ← validate_v2 d;
  _ ← reject_if (negb (bool_decide (d2_node_public_key d = expected_node_key))
                 || negb (bool_decide (expected_locator ∈ d2_locators d))) NodeIdentityMismatch;
  payload ← canonical_payload_v2 d;
  let input := signature_input DESCRIPTOR_V2_SIGNATURE_DOMAIN (d2_application_id d) payload in
  _ ← reject_if (negb (valid_verifying_key expected_node_key)) InvalidDescriptor;
  reject_if (negb (verify_with expected_node_key input (s2_signature s))) InvalidDescriptor.

Definition verify_self_v2 (s : SignedNodeDescriptorV2) : res () :=
  locator ← ok_or (head (d2_locators (s2_descriptor s))) InvalidDescriptor;
  verify_for_invite_v2 s (d2_node_public_key (s2_descriptor s)) locator.

Definition canonical_binary_v2 (s : SignedNodeDescriptorV2) : res bytes :=
  _ ← verify_self_v2 s;
  payload ← canonical_payload_v2 (s2_descriptor s);
  let output := encode_signed payload (s2_signature s) in
  _ ← reject_if (bool_decide (MAX_BINARY_DESCRIPTOR_BYTES < len output)) TooLarge;
  Ok output.

Definition decode_for_invite_v2 (binary expected_node_key : bytes) (expected_locator : NodeLocator)
    : res SignedNodeDescriptorV2 :=
  '(payload, signature) ← decode_signed MAX_BINARY_DESCRIPTOR_BYTES binary;
  descriptor ← decode_payload_v2 payload;
  let signed := mkSignedV2 descriptor signature in
  _ ← verify_for_invite_v2 signed expected_node_key expected_locator;
  canonical ← canonical_binary_v2 signed;
  _ ← reject_if (negb (bool_decide (canonical = binary))) InvalidDescriptor;
  Ok signed.
End invite.

(** ** Facts *)

Section facts.
Context {FMT : InviteFormat}.

Record valid_v1 (d : NodeDescriptorV1) : Prop := {
  v1_application : d1_application_id d = ABYSSAL_APPLICATION_ID;
  v1_key : d1_node_public_key d ≠ zeros 32;
  v1_invite : d1_invite_format d = INVITE_FORMAT_VERSION;
  v1_direct : d1_direct_protocol d = DIRECT_PROTOCOL_VERSION;
  v1_room : d1_room_protocol d = ROOM_PROTOCOL_VERSION;
  v1_flags : d1_flags d = 0;
  v1_locators : validate_locator_set (d1_locators d) = true
}.
Record valid_v2 (d : NodeDescriptorV2) : Prop := {
  v2_application : d2_application_id d = ABYSSAL_APPLICATION_ID;
  v2_key : d2_node_public_key d ≠ zeros 32;
  v2_hpke : d2_bootstrap_hpke_public_key d ≠ zeros 32;
  v2_invite : d2_invite_format d = INVITE_FORMAT_VERSION;
  v2_direct : d2_direct_protocol d = DIRECT_PROTOCOL_VERSION;
  v2_transport : d2_transport_protocol d = TRANSPORT_PROTOCOL_VERSION;
  v2_room : d2_room_protocol d = ROOM_PROTOCOL_VERSION;
  v2_flags : d2_flags d = 0;
  v2_locators : validate_locator_set (d2_locators d) = true
}.
Ltac plain := split_bools; repeat match goal with H : ¬ (_ ≠ _) |- _ => apply dec_stable in H end.

Ltac go := cbn [mbind result_bind reject_if ok_or negb orb invalid].
Ltac read d E l H := destruct l as (d & E & H); rewrite E; go.

Lemma validate_v1_iff d : validate_v1 d = Ok tt ↔ valid_v1 d.
Proof.
  unfold validate_v1. split.
  - intros H. run_ok. plain. by split.
  - intros []. rewrite !bool_decide_true, !bool_decide_false by tauto. cbn.
    by rewrite v1_locators0.
Qed.
Lemma validate_v2_iff d : validate_v2 d = Ok tt ↔ valid_v2 d.
Proof.
  unfold validate_v2. split.
  - intros H. run_ok. plain. by split.
  - intros []. rewrite !bool_decide_true, !bool_decide_false by tauto. cbn.
    by rewrite v2_locators0.
Qed.
Lemma canonical_payload_v1_valid d p : canonical_payload_v1 d = Ok p → valid_v1 d.
Proof. unfold canonical_payload_v1. intros H. run_ok. destruct x. by apply validate_v1_iff. Qed.
Lemma canonical_payload_v2_valid d p : canonical_payload_v2 d = Ok p → valid_v2 d.
Proof. unfold canonical_payload_v2. intros H. run_ok. destruct x. by apply validate_v2_iff. Qed.

Lemma exact_array_Ok n v w : exact_array n v = Ok w ↔ w = v ∧ len v = n.
Proof. unfold exact_array. case_bool_decide; naive_solver. Qed.
Lemma bounded_uint_Ok m n : n ≤ m → bounded_uint m n = Ok n.
Proof. intros. unfold bounded_uint. by rewrite bool_decide_true. Qed.

(** What a verification establishes of a signed descriptor. *)
Lemma verify_for_invite_v1_iff s key locator u :
  verify_for_invite_v1 s key locator = Ok u ↔
  let d := s1_descriptor s in
  valid_v1 d ∧ d1_node_public_key d = key ∧ locator ∈ d1_locators d ∧
  valid_verifying_key key = true ∧
  ∃ payload, canonical_payload_v1 d = Ok payload ∧
    verify_with key (signature_input DESCRIPTOR_SIGNATURE_DOMAIN (d1_application_id d) payload)
      (s1_signature s) = true.
Proof.
  destruct u. unfold verify_for_invite_v1. cbn zeta. split.
  - intros H. run_ok. destruct x. plain. rename select (validate_v1 _ = _) into Hv.
    apply validate_v1_iff in Hv. eauto 10.
  - intros (Hv & Hk & Hl & Hkey & payload & Hp & Hs).
    rewrite (proj2 (validate_v1_iff _) Hv), Hp, !bool_decide_true, Hkey by done.
    cbn [mbind result_bind negb orb reject_if]. by rewrite Hs.
Qed.
Lemma verify_for_invite_v2_iff s key locator u :
  verify_for_invite_v2 s key locator = Ok u ↔
  let d := s2_descriptor s in
  valid_v2 d ∧ d2_node_public_key d = key ∧ locator ∈ d2_locators d ∧
  valid_verifying_key key = true ∧
  ∃ payload, canonical_payload_v2 d = Ok payload ∧
    verify_with key (signature_input DESCRIPTOR_V2_SIGNATURE_DOMAIN (d2_application_id d) payload)
      (s2_signature s) = true.
Proof.
  destruct u. unfold verify_for_invite_v2. cbn zeta. split.
  - intros H. run_ok. destruct x. plain. rename select (validate_v2 _ = _) into Hv.
    apply validate_v2_iff in Hv. eauto 10.
  - intros (Hv & Hk & Hl & Hkey & payload & Hp & Hs).
    rewrite (proj2 (validate_v2_iff _) Hv), Hp, !bool_decide_true, Hkey by done.
    cbn [mbind result_bind negb orb reject_if]. by rewrite Hs.
Qed.

(** *** With the laws of the format *)

Context {LAW : InviteFormatLaws}.

Lemma decode_locators_back all ls d b :
  validate_locator_set all = true → Forall (.∈ all) ls →
  left d (concat (encode_locator <$> ls) ++ b) →
  ∃ d', decode_locators (length ls) d = Ok (ls, d') ∧ left d' b.
Proof.
  intros Hv Hall. revert d. induction Hall as [|l ls Hl _ IH]; intros d Hd; cbn; [eauto|].
  cbn in Hd. rewrite <- app_assoc in Hd.
  read d1 E1 (left_locator all l d _ Hv Hl Hd) H1.
  read d2 E2 (IH d1 H1) H2. eauto.
Qed.
Lemma decode_locator_list_back ls d b :
  validate_locator_set ls = true → left d (encode_locators ls ++ b) →
  ∃ d', decode_locator_list d = Ok (ls, d') ∧ left d' b.
Proof.
  intros Hv Hd. pose proof (locators_bounded ls Hv). pose proof locators_width.
  unfold encode_locators in Hd. rewrite <- app_assoc in Hd. unfold decode_locator_list.
  read d1 E1 (left_array_len (len ls) d _ ltac:(lia) Hd) H1.
  rewrite !bool_decide_false by lia. cbn. unfold len. rewrite Nat2Z.id.
  eapply decode_locators_back; [done| |done]. by apply Forall_forall.
Qed.

Lemma decode_signed_back max payload signature :
  len payload ≤ max → max ≤ u64_MAX → len signature = 64 →
  len (encode_signed payload signature) ≤ MAX_BINARY_DESCRIPTOR_BYTES →
  decode_signed max (encode_signed payload signature) = Ok (payload, signature).
Proof.
  intros Hp Hm Hs Hl. unfold decode_signed. rewrite (bool_decide_false (_ < _)) by lia.
  pose proof (encode_bytes_longer signature).
  assert (encode_signed payload signature ≠ []) as Hne.
  { intros E. apply (f_equal len) in E. unfold encode_signed in E. rewrite !len_app in E.
    unfold len in *. cbn in E. lia. }
  rewrite (bool_decide_false _ Hne). cbn.
  pose proof (left_new (encode_signed payload signature)) as H0. unfold encode_signed in H0 at 2.
  read d1 E1 (left_array SIGNED_DESCRIPTOR_FIELDS _ _ ltac:(done) H0) H1.
  read d2 E2 (left_bytes payload max d1 _ Hp Hm H1) H2.
  rewrite <- (app_nil_r (encode_bytes signature)) in H2.
  read d3 E3 (left_bytes signature 64 d2 _ ltac:(lia) ltac:(done) H2) H3.
  rewrite (proj2 (exact_array_Ok 64 _ _) (conj eq_refl Hs)). cbn. by rewrite left_finish.
Qed.
Lemma decode_payload_v1_back d p :
  canonical_payload_v1 d = Ok p → len (d1_node_public_key d) = 32 → decode_payload_v1 p = Ok d.
Proof.
  intros Hc Hkey. pose proof (canonical_payload_v1_valid d p Hc) as Hv.
  pose proof Hv as [V1 _ V2 V3 V4 V5 VL]. pose proof application_id_fits as [Ha Hw].
  pose proof Hc as Hp. unfold canonical_payload_v1 in Hp. rewrite (proj2 (validate_v1_iff d) Hv) in Hp.
  cbn [mbind result_bind] in Hp. injection Hp as Hp.
  pose proof (left_new p) as H0. rewrite <- Hp in H0 at 2. unfold decode_payload_v1.
  read d1 E1 (left_array DESCRIPTOR_PAYLOAD_FIELDS _ _ ltac:(done) H0) H1.
  read d2 E2 (left_uint DESCRIPTOR_VERSION _ _ ltac:(done) H1) H2.
  rewrite V1 in H2. read d3 E3 (left_text ABYSSAL_APPLICATION_ID _ _ _ Ha Hw H2) H3.
  rewrite bool_decide_true by done. go.
  read d4 E4 (left_bytes (d1_node_public_key d) 32 _ _ ltac:(lia) ltac:(done) H3) H4.
  rewrite (proj2 (exact_array_Ok 32 _ _) (conj eq_refl Hkey)). go.
  read d5 E5 (decode_locator_list_back _ _ _ VL H4) H5.
  read d6 E6 (left_uint (d1_invite_format d) _ _ ltac:(by rewrite V2) H5) H6.
  rewrite bounded_uint_Ok by (by rewrite V2). go.
  read d7 E7 (left_uint (d1_direct_protocol d) _ _ ltac:(by rewrite V3) H6) H7.
  rewrite bounded_uint_Ok by (by rewrite V3). go.
  read d8 E8 (left_uint (d1_room_protocol d) _ _ ltac:(by rewrite V4) H7) H8.
  rewrite bounded_uint_Ok by (by rewrite V4). go. rewrite <- (app_nil_r (encode_uint _)) in H8.
  read d9 E9 (left_uint (d1_flags d) _ _ ltac:(by rewrite V5) H8) H9.
  rewrite bounded_uint_Ok by (by rewrite V5). rewrite left_finish by done. go.
  rewrite <- V1. replace (mkDescriptorV1 _ _ _ _ _ _ _) with d by (by destruct d).
  rewrite (proj2 (validate_v1_iff d) Hv), Hc. go. by rewrite bool_decide_true.
Qed.
Lemma decode_payload_v2_back d p :
  canonical_payload_v2 d = Ok p → len (d2_node_public_key d) = 32 →
  len (d2_bootstrap_hpke_public_key d) = 32 → decode_payload_v2 p = Ok d.
Proof.
  intros Hc Hkey Hhpke. pose proof (canonical_payload_v2_valid d p Hc) as Hv.
  pose proof Hv as [V1 _ _ V2 V3 V6 V4 V5 VL]. pose proof application_id_fits as [Ha Hw].
  pose proof Hc as Hp. unfold canonical_payload_v2 in Hp. rewrite (proj2 (validate_v2_iff d) Hv) in Hp.
  cbn [mbind result_bind] in Hp. injection Hp as Hp.
  pose proof (left_new p) as H0. rewrite <- Hp in H0 at 2. unfold decode_payload_v2.
  read d1 E1 (left_array DESCRIPTOR_V2_PAYLOAD_FIELDS _ _ ltac:(done) H0) H1.
  read d2 E2 (left_uint DESCRIPTOR_V2_VERSION _ _ ltac:(done) H1) H2.
  rewrite V1 in H2. read d3 E3 (left_text ABYSSAL_APPLICATION_ID _ _ _ Ha Hw H2) H3.
  rewrite bool_decide_true by done. go.
  read d4 E4 (left_bytes (d2_node_public_key d) 32 _ _ ltac:(lia) ltac:(done) H3) H4.
  rewrite (proj2 (exact_array_Ok 32 _ _) (conj eq_refl Hkey)). go.
  read d5 E5 (left_bytes (d2_bootstrap_hpke_public_key d) 32 _ _ ltac:(lia) ltac:(done) H4) H5.
  rewrite (proj2 (exact_array_Ok 32 _ _) (conj eq_refl Hhpke)). go.
  read d6 E6 (decode_locator_list_back _ _ _ VL H5) H6.
  read d7 E7 (left_uint (d2_invite_format d) _ _ ltac:(by rewrite V2) H6) H7.
  rewrite bounded_uint_Ok by (by rewrite V2). go.
  read d8 E8 (left_uint (d2_direct_protocol d) _ _ ltac:(by rewrite V3) H7) H8.
  rewrite bounded_uint_Ok by (by rewrite V3). go.
  read d9 E9 (left_uint (d2_transport_protocol d) _ _ ltac:(by rewrite V6) H8) H9.
  rewrite bounded_uint_Ok by (by rewrite V6). go.
  read d10 E10 (left_uint (d2_room_protocol d) _ _ ltac:(by rewrite V4) H9) H10.
  rewrite bounded_uint_Ok by (by rewrite V4). go. rewrite <- (app_nil_r (encode_uint _)) in H10.
  read d11 E11 (left_uint (d2_flags d) _ _ ltac:(by rewrite V5) H10) H11.
  rewrite bounded_uint_Ok by (by rewrite V5). rewrite left_finish by done. go.
  rewrite <- V1. replace (mkDescriptorV2 _ _ _ _ _ _ _ _ _) with d by (by destruct d).
  rewrite (proj2 (validate_v2_iff d) Hv), Hc. go. by rewrite bool_decide_true.
Qed.
(** The fixed-size arrays of a signed descriptor. *)
Definition arrays_v1 (s : SignedNodeDescriptor) : Prop :=
  len (d1_node_public_key (s1_descriptor s)) = 32 ∧ len (s1_signature s) = 64.
Definition arrays_v2 (s : SignedNodeDescriptorV2) : Prop :=
  len (d2_node_public_key (s2_descriptor s)) = 32 ∧
  len (d2_bootstrap_hpke_public_key (s2_descriptor s)) = 32 ∧ len (s2_signature s) = 64.

(** [binary] is the signed descriptor [s] of the node [key] at [locator]. *)
Record describes_v1 (binary key : bytes) (locator : NodeLocator) (s : SignedNodeDescriptor) : Prop := {
  de1_arrays : arrays_v1 s;
  de1_valid : valid_v1 (s1_descriptor s);
  de1_node : d1_node_public_key (s1_descriptor s) = key;
  de1_locator : locator ∈ d1_locators (s1_descriptor s);
  de1_key : valid_verifying_key key = true;
  de1_signed : ∃ payload,
    canonical_payload_v1 (s1_descriptor s) = Ok payload ∧ len payload ≤ MAX_BINARY_INVITE_BYTES ∧
    verify_with key (signature_input DESCRIPTOR_SIGNATURE_DOMAIN ABYSSAL_APPLICATION_ID payload)
      (s1_signature s) = true ∧
    binary = encode_signed payload (s1_signature s);
  de1_size : len binary ≤ MAX_BINARY_DESCRIPTOR_BYTES
}.
Record describes_v2 (binary key : bytes) (locator : NodeLocator) (s : SignedNodeDescriptorV2) : Prop := {
  de2_arrays : arrays_v2 s;
  de2_valid : valid_v2 (s2_descriptor s);
  de2_node : d2_node_public_key (s2_descriptor s) = key;
  de2_locator : locator ∈ d2_locators (s2_descriptor s);
  de2_key : valid_verifying_key key = true;
  de2_signed : ∃ payload,
    canonical_payload_v2 (s2_descriptor s) = Ok payload ∧
    verify_with key (signature_input DESCRIPTOR_V2_SIGNATURE_DOMAIN ABYSSAL_APPLICATION_ID payload)
      (s2_signature s) = true ∧
    binary = encode_signed payload (s2_signature s);
  de2_size : len binary ≤ MAX_BINARY_DESCRIPTOR_BYTES
}.

Lemma canonical_binary_v1_iff s b :
  canonical_binary_v1 s = Ok b ↔
  verify_self_v1 s = Ok tt ∧ len b ≤ MAX_BINARY_DESCRIPTOR_BYTES ∧
  ∃ payload, canonical_payload_v1 (s1_descriptor s) = Ok payload ∧
    b = encode_signed payload (s1_signature s).
Proof.
  unfold canonical_binary_v1. split.
  - intros H. run_ok. destruct x. split_bools. split_and!; [done|lia|eauto].
  - intros (-> & Hl & p & -> & ->). go. by rewrite bool_decide_false by lia.
Qed.
Lemma canonical_binary_v2_iff s b :
  canonical_binary_v2 s = Ok b ↔
  verify_self_v2 s = Ok tt ∧ len b ≤ MAX_BINARY_DESCRIPTOR_BYTES ∧
  ∃ payload, canonical_payload_v2 (s2_descriptor s) = Ok payload ∧
    b = encode_signed payload (s2_signature s).
Proof.
  unfold canonical_binary_v2. split.
  - intros H. run_ok. destruct x. split_bools. split_and!; [done|lia|eauto].
  - intros (-> & Hl & p & -> & ->). go. by rewrite bool_decide_false by lia.
Qed.

(** Who verifies for an invite verifies for itself. *)
Lemma verify_self_v1_of s key locator :
  verify_for_invite_v1 s key locator = Ok tt → verify_self_v1 s = Ok tt.
Proof.
  intros H. apply verify_for_invite_v1_iff in H as (Hv & <- & Hl & H).
  unfold verify_self_v1. destruct (d1_locators (s1_descriptor s)) as [|l ls] eqn:E; [set_solver|].
  apply verify_for_invite_v1_iff. cbv zeta. rewrite E. split_and!; [done|done|set_solver|apply H..].
Qed.
Lemma verify_self_v2_of s key locator :
  verify_for_invite_v2 s key locator = Ok tt → verify_self_v2 s = Ok tt.
Proof.
  intros H. apply verify_for_invite_v2_iff in H as (Hv & <- & Hl & H).
  unfold verify_self_v2. destruct (d2_locators (s2_descriptor s)) as [|l ls] eqn:E; [set_solver|].
  apply verify_for_invite_v2_iff. cbv zeta. rewrite E. split_and!; [done|done|set_solver|apply H..].
Qed.

Lemma decode_payload_v1_key p d :
  decode_payload_v1 p = Ok d → len (d1_node_public_key d) = 32 ∧ canonical_payload_v1 d = Ok p.
Proof.
  unfold decode_payload_v1. intros H. run_ok. repeat (case_match; subst; run_ok). split_bools. subst.
  by match goal with H : exact_array _ _ = Ok _ |- _ => apply exact_array_Ok in H as [-> ?] end.
Qed.
Lemma decode_payload_v2_keys p d :
  decode_payload_v2 p = Ok d →
  len (d2_node_public_key d) = 32 ∧ len (d2_bootstrap_hpke_public_key d) = 32 ∧
  canonical_payload_v2 d = Ok p.
Proof.
  unfold decode_payload_v2. intros H. run_ok. repeat (case_match; subst; run_ok). split_bools. subst.
  by repeat match goal with H : exact_array _ _ = Ok _ |- _ => apply exact_array_Ok in H as [-> ?] end.
Qed.
Lemma decode_signed_sizes max binary payload signature :
  decode_signed max binary = Ok (payload, signature) → len payload ≤ max ∧ len signature = 64.
Proof.
  unfold decode_signed, invalid. intros H. run_ok. repeat (case_match; subst; run_ok). simplify_eq.
  match goal with H : exact_array _ _ = Ok _ |- _ => apply exact_array_Ok in H as [-> ?] end.
  split; [by eapply decoded_bytes_bounded|done].
Qed.

Lemma signed_payload_fits p s :
  len (encode_signed p s) ≤ MAX_BINARY_DESCRIPTOR_BYTES → len p ≤ MAX_BINARY_DESCRIPTOR_BYTES.
Proof.
  intros H. pose proof (encode_bytes_longer p). unfold encode_signed in H. rewrite !len_app in H.
  unfold len in *. lia.
Qed.
Lemma decode_for_invite_v1_iff binary key locator s :
  decode_for_invite_v1 binary key locator = Ok s ↔ describes_v1 binary key locator s.
Proof.
  unfold decode_for_invite_v1. split.
  - intros H. run_ok. destruct x as [payload signature]. run_ok. split_bools. subst.
    rename select (decode_signed _ _ = _) into Hd. apply decode_signed_sizes in Hd as [Hmax Hsig].
    rename select (decode_payload_v1 _ = _) into Hp. apply decode_payload_v1_key in Hp as [Hk Hp].
    rename select (canonical_binary_v1 _ = _) into Hc. apply canonical_binary_v1_iff in Hc.
    rename select (verify_for_invite_v1 _ _ _ = _) into Hv. apply verify_for_invite_v1_iff in Hv.
    cbn [s1_descriptor s1_signature] in *.
    destruct Hv as (Hv & <- & Hl & Hkey & p & Ep & Hs), Hc as (_ & Hlen & p' & Ep' & ->).
    rewrite (v1_application _ Hv) in Hs. simplify_eq.
    rewrite Ep in Hp, Ep'. simplify_eq. split; [done..| |done]. eexists. by split_and!.
  - intros [[Hk Hsig] Hv <- Hl Hkey (p & Ep & Hmax & Hs & ->) Hlen].
    rewrite decode_signed_back by (done || apply invite_width). go.
    rewrite (decode_payload_v1_back _ p) by done. go.
    replace (mkSignedV1 _ _) with s by (by destruct s).
    assert (verify_for_invite_v1 s (d1_node_public_key (s1_descriptor s)) locator = Ok tt) as Hok.
    { apply verify_for_invite_v1_iff. cbv zeta. rewrite (v1_application _ Hv). eauto 10. }
    rewrite Hok, (proj2 (canonical_binary_v1_iff s (encode_signed p (s1_signature s)))); go.
    { by rewrite bool_decide_true. }
    split_and!; [by eapply verify_self_v1_of|done|eauto].
Qed.
Lemma decode_for_invite_v2_iff binary key locator s :
  decode_for_invite_v2 binary key locator = Ok s ↔ describes_v2 binary key locator s.
Proof.
  unfold decode_for_invite_v2. split.
  - intros H. run_ok. destruct x as [payload signature]. run_ok. split_bools. subst.
    rename select (decode_signed _ _ = _) into Hd. apply decode_signed_sizes in Hd as [Hmax Hsig].
    rename select (decode_payload_v2 _ = _) into Hp. apply decode_payload_v2_keys in Hp as (Hk & Hh & Hp).
    rename select (canonical_binary_v2 _ = _) into Hc. apply canonical_binary_v2_iff in Hc.
    rename select (verify_for_invite_v2 _ _ _ = _) into Hv. apply verify_for_invite_v2_iff in Hv.
    cbn [s2_descriptor s2_signature] in *.
    destruct Hv as (Hv & <- & Hl & Hkey & p & Ep & Hs), Hc as (_ & Hlen & p' & Ep' & ->).
    rewrite (v2_application _ Hv) in Hs. simplify_eq.
    rewrite Ep in Hp, Ep'. simplify_eq. split; [done..| |done]. eexists. by split_and!.
  - intros [(Hk & Hh & Hsig) Hv <- Hl Hkey (p & Ep & Hs & ->) Hlen].
    assert (len p ≤ MAX_BINARY_DESCRIPTOR_BYTES) as Hmax.
    { by eapply signed_payload_fits. }
    rewrite decode_signed_back by done. go.
    rewrite (decode_payload_v2_back _ p) by done. go.
    replace (mkSignedV2 _ _) with s by (by destruct s).
    assert (verify_for_invite_v2 s (d2_node_public_key (s2_descriptor s)) locator = Ok tt) as Hok.
    { apply verify_for_invite_v2_iff. cbv zeta. rewrite (v2_application _ Hv). eauto 10. }
    rewrite Hok, (proj2 (canonical_binary_v2_iff s (encode_signed p (s2_signature s)))); go.
    { by rewrite bool_decide_true. }
    split_and!; [by eapply verify_self_v2_of|done|eauto].
Qed.

(** A node that signs its own valid descriptor gets one that verifies. *)
Lemma sign_v2_verifies d k s locator :
  sign_v2 d k = Ok s → locator ∈ d2_locators d →
  s2_descriptor s = d ∧ len (s2_signature s) = 64 ∧
  verify_for_invite_v2 s (verifying_key_of k) locator = Ok tt.
Proof.
  unfold sign_v2. intros H Hl. run_ok. split_bools. cbn. split_and!; [done|apply signature_length|].
  apply verify_for_invite_v2_iff. cbn. split_and!; try done; [by eapply canonical_payload_v2_valid|
    apply key_valid|]. eexists. split; [done|]. apply signature_verifies.
Qed.

Lemma payload_unique p1 s1 p2 s2 :
  len p1 ≤ MAX_BINARY_DESCRIPTOR_BYTES → len p2 ≤ MAX_BINARY_DESCRIPTOR_BYTES →
  encode_signed p1 s1 = encode_signed p2 s2 → p1 = p2.
Proof.
  intros L1 L2 E. pose proof (left_new (encode_signed p1 s1)) as H1.
  pose proof (left_new (encode_signed p2 s2)) as H2. rewrite <- E in H2. unfold encode_signed in H1 at 2.
  rewrite E in H2 at 2. unfold encode_signed in H2 at 2.
  destruct (left_array SIGNED_DESCRIPTOR_FIELDS _ _ ltac:(done) H1) as (d & E1 & G1).
  destruct (left_array SIGNED_DESCRIPTOR_FIELDS _ _ ltac:(done) H2) as (d' & E2 & G2). simplify_eq.
  destruct (left_bytes p1 _ d _ L1 ltac:(done) G1) as (? & E3 & _).
  destruct (left_bytes p2 _ d _ L2 ltac:(done) G2) as (? & E4 & _). congruence.
Qed.
Lemma payload_version d1 d2 p :
  canonical_payload_v1 d1 = Ok p → canonical_payload_v2 d2 = Ok p → False.
Proof.
  unfold canonical_payload_v1, canonical_payload_v2. intros H1 H2.
  apply bind_Ok in H1 as (_ & _ & H1). apply bind_Ok in H2 as (_ & _ & H2).
  injection H1 as H1. injection H2 as H2.
  pose proof (left_new p) as G1. rewrite <- H1 in G1 at 2.
  pose proof (left_new p) as G2. rewrite <- H2 in G2 at 2.
  destruct (left_array_len DESCRIPTOR_PAYLOAD_FIELDS _ _ ltac:(done) G1) as (? & E1 & _).
  destruct (left_array_len DESCRIPTOR_V2_PAYLOAD_FIELDS _ _ ltac:(done) G2) as (? & E2 & _).
  rewrite E1 in E2. discriminate.
Qed.
End facts.

(** ** Theorems *)

Section theorems.
Context {FMT : InviteFormat} {LAW : InviteFormatLaws}.

(** C9: the holder of an invite accepts exactly the descriptors of its node.
    Bytes are decoded to a descriptor, of either version, exactly when they are
    the canonical encoding of it, at most 1024 bytes, it carries the versions of
    this program, no flags and a valid set of locators with the one of the invite,
    and the node key of the invite signed it in the domain of its version; and no
    bytes are accepted as both versions, whatever the invites. *)
Theorem descriptor_decoded_exactly (binary key : bytes) (locator : NodeLocator) :
  (∀ s, decode_for_invite_v1 binary key locator = Ok s ↔ describes_v1 binary key locator s) ∧
  (∀ s, decode_for_invite_v2 binary key locator = Ok s ↔ describes_v2 binary key locator s) ∧
  (∀ s1 s2 key' locator', decode_for_invite_v1 binary key locator = Ok s1 →
     decode_for_invite_v2 binary key' locator' = Ok s2 → False).
Proof.
  split_and!; [intros; apply decode_for_invite_v1_iff|intros; apply decode_for_invite_v2_iff|].
  intros s1 s2 key' locator' H1 H2.
  apply decode_for_invite_v1_iff in H1 as [_ _ _ _ _ (p1 & C1 & _ & _ & E1) L1].
  apply decode_for_invite_v2_iff in H2 as [_ _ _ _ _ (p2 & C2 & _ & E2) L2].
  rewrite E1 in L1, L2, E2. rewrite E2 in L2.
  assert (p1 = p2) as -> by (eapply payload_unique; [by eapply signed_payload_fits..|done]).
  by eapply payload_version.
Qed.

(** What a node publishes its clients accept.  A descriptor the node signed
    with its own key is either too large to publish, or its binary form is
    decoded to the same signed descriptor by the holder of an invite for this
    node key and any of its locators. *)
Theorem published_descriptor_accepted (d : NodeDescriptorV2) (k : SigningKey)
    (s : SignedNodeDescriptorV2) :
  sign_v2 d k = Ok s → len (d2_bootstrap_hpke_public_key d) = 32 →
  canonical_binary_v2 s = Err TooLarge ∨
  ∃ binary, canonical_binary_v2 s = Ok binary ∧
    ∀ locator, locator ∈ d2_locators d →
      decode_for_invite_v2 binary (verifying_key_of k) locator = Ok s.
Proof.
  intros Hs Hh. assert (∃ l, l ∈ d2_locators d) as [l Hl].
  { pose proof Hs as H. unfold sign_v2 in H. run_ok.
    rename select (canonical_payload_v2 d = _) into Hc. apply canonical_payload_v2_valid in Hc.
    pose proof (locators_bounded _ (v2_locators _ Hc)) as [Hpos _].
    destruct (d2_locators d) as [|l ls]; [done|]. exists l. set_solver. }
  destruct (sign_v2_verifies d k s l Hs Hl) as (<- & Hsig & Hv).
  pose proof (verify_self_v2_of _ _ _ Hv) as Hself.
  apply verify_for_invite_v2_iff in Hv as (Hval & Hkey & _ & Hok & p & Hp & Hver).
  rewrite (v2_application _ Hval) in Hver.
  destruct (decide (len (encode_signed p (s2_signature s)) ≤ MAX_BINARY_DESCRIPTOR_BYTES)) as [Hfit|Hbig].
  - right. exists (encode_signed p (s2_signature s)). split; [apply canonical_binary_v2_iff; eauto|].
    intros locator Hin. apply decode_for_invite_v2_iff. split; [|done..|eauto|done].
    split_and!; [rewrite Hkey; apply key_length|done..].
  - left. unfold canonical_binary_v2. rewrite Hself, Hp. cbn [mbind result_bind].
    by rewrite bool_decide_true by lia.
Qed.

(** A production client never dials a development address. *)
Lemma production_https ls supported l :
  select_locator ls supported Production = Ok l → is_https l = true ∧ l ∈ ls.
Proof.
  unfold select_locator. rewrite (bool_decide_false (Production = _)), andb_false_r by done.
  intros H. destruct (st_https supported); [|done].
  destruct (List.find is_https ls) eqn:E; simplify_eq.
  apply List.find_some in E as [Hin ?]. split; [done|]. by apply list_elem_of_In.
Qed.
End theorems.

(** ** A concrete format *)

(** Every item is a type byte, a count of eight bytes and its content; a locator
    is its kind and its host; a signature is the key with the start of what it
    signs. *)
Module InviteRun.

Record Locator : Type := mkLocator { https : bool; host : string }.
#[local] Instance Locator_eq_dec : EqDecision Locator.
Proof. solve_decision. Defined.

Definition item (tag : byte) (n : Z) (content : bytes) : bytes := tag :: be_bytes 8 n ++ content.
Definition take_item (tag : byte) (d : bytes) : option (Z * bytes) :=
  match d with
  | t :: d => if bool_decide (t = tag) then Some (be_value (take 8 d), drop 8 d) else None
  | [] => None
  end.
Definition take_content (tag : byte) (m : Z) (d : bytes) : option (bytes * bytes) :=
  '(n, d) ← take_item tag d;
  if bool_decide (n ≤ m ∧ n ≤ len d) then Some (take (Z.to_nat n) d, drop (Z.to_nat n) d) else None.

Lemma take_item_back tag n b : 0 ≤ n ≤ u64_MAX → take_item tag (item tag n b) = Some (n, b).
Proof.
  intros Hn. unfold take_item, item. rewrite bool_decide_true by done.
  rewrite take_app_length', drop_app_length' by (by rewrite length_be_bytes).
  rewrite be_value_be_bytes; [done|]. unfold u64_MAX in Hn. change (256 ^ Z.of_nat 8) with (2 ^ 64). lia.
Qed.
Lemma take_content_back tag m v b :
  len v ≤ m → m ≤ u64_MAX → take_content tag m (item tag (len v) (v ++ b)) = Some (v, b).
Proof.
  intros Hv Hm. unfold take_content. rewrite take_item_back by (pose proof (len_nonneg v); lia). cbn.
  rewrite bool_decide_true by (rewrite len_app; pose proof (len_nonneg b); lia).
  unfold len. by rewrite Nat2Z.id, take_app_length, drop_app_length.
Qed.
Lemma item_app tag n v b : item tag n v ++ b = item tag n (v ++ b).
Proof. unfold item. by rewrite <- app_comm_cons, app_assoc. Qed.

Definition HOST_MAX : Z := 253.
Definition mac (k : byte) (m : bytes) : bytes := take 64 (k :: m ++ zeros 63).
#[local] Instance format : InviteFormat := {|
  NodeLocator := Locator;
  is_https := https;
  is_loopback_development l := negb (https l);
  validate_locator_set ls :=
    bool_decide (0 < len ls ≤ 3) && forallb (λ l, bool_decide (slen (host l) ≤ HOST_MAX)) ls;
  MAX_LOCATORS := 3;
  MAX_BINARY_INVITE_BYTES := 768;
  MAX_APPLICATION_ID_BYTES := 64;
  encode_array n := item Byte.x80 n [];
  encode_uint n := item Byte.x00 n [];
  encode_text s := item Byte.x60 (slen s) (text_bytes s);
  encode_bytes v := item Byte.x40 (len v) v;
  encode_locator l :=
    (if https l then Byte.x01 else Byte.x02) :: item Byte.x60 (slen (host l)) (text_bytes (host l));
  Decoder := bytes;
  decoder_new b := b;
  decode_array n d := '(m, d) ← take_item Byte.x80 d; if bool_decide (m = n) then Some d else None;
  decode_array_len := take_item Byte.x80;
  decode_uint := take_item Byte.x00;
  decode_text m d := '(t, d) ← take_content Byte.x60 m d; Some (bytes_text t, d);
  decode_bytes := take_content Byte.x40;
  decode_locator d :=
    match d with
    | k :: d =>
        '(t, d) ← ok_or (take_content Byte.x60 HOST_MAX d) Invalid;
        if bool_decide (k = Byte.x01) then Ok (mkLocator true (bytes_text t), d)
        else if bool_decide (k = Byte.x02) then Ok (mkLocator false (bytes_text t), d)
        else Err UnsafeLocator
    | [] => Err Invalid
    end;
  decoder_finish d := bool_decide (d = []);
  signature_input domain application payload := domain ++ text_bytes application ++ payload;
  SigningKey := byte;
  verifying_key_of k := replicate 32 k;
  sign_with := mac;
  valid_verifying_key _ := true;
  verify_with key m s :=
    match key with k :: _ => bool_decide (s = mac k m) | [] => false end
|}.

#[local] Instance laws : InviteFormatLaws.
Proof.
  refine {| left d b := d = b |}; cbn -[item take_item take_content mac len slen].
  - done.
  - intros n d b Hn ->. rewrite item_app, take_item_back by done. cbn. rewrite bool_decide_true; eauto.
  - intros n d b Hn ->. rewrite item_app, take_item_back by done. eauto.
  - intros n d b Hn ->. rewrite item_app, take_item_back by done. eauto.
  - intros s m d b Hs Hm ->. rewrite item_app, <- len_text_bytes.
    rewrite take_content_back by (rewrite ?len_text_bytes; lia). cbn. rewrite bytes_text_bytes. eauto.
  - intros v m d b Hv Hm ->. rewrite item_app, take_content_back by done. eauto.
  - intros ls l d b Hls Hl ->. split_bools. rename select (forallb _ _ = true) into Hf.
    rewrite forallb_forall in Hf. specialize (Hf l (proj1 (list_elem_of_In _ _) Hl)). split_bools.
    rewrite item_app, <- len_text_bytes, take_content_back by (rewrite ?len_text_bytes; done || lia).
    cbn. rewrite bytes_text_bytes. destruct l as [[|] h]; cbn; eauto.
  - intros v m d d' H. unfold take_content in H. apply bind_Some in H as ([n r] & Ht & H).
    unfold take_item in Ht. repeat case_match; simplify_eq. split_bools.
    match goal with |- context [be_value ?x] => pose proof (be_value_range x) end.
    unfold len in *. rewrite length_take. lia.
  - by intros d ->.
  - intros v. unfold item, len. rewrite length_cons, length_app. lia.
  - intros ls H. by split_bools.
  - done.
  - done.
  - done.
  - intros k m. unfold mac, len. rewrite length_take, length_cons, length_app. unfold zeros.
    rewrite length_replicate. lia.
  - done.
  - done.
  - intros k m. by apply bool_decide_true.
Defined.

(** Conversion by evaluation, without writing the normal form of the format into
    the goal. *)
Ltac evaluate := match goal with |- _ = ?x => vm_cast_no_check (eq_refl x) end.

Definition key : byte := Byte.x07.
Definition node : Locator := mkLocator true "node.example.com".
Definition loopback : Locator := mkLocator false "localhost".
Definition hpke : bytes := replicate 32 Byte.x08.
Definition descriptor : NodeDescriptorV2 :=
  mkDescriptorV2 ABYSSAL_APPLICATION_ID (replicate 32 key) hpke [node; loopback] INVITE_FORMAT_VERSION
    DIRECT_PROTOCOL_VERSION TRANSPORT_PROTOCOL_VERSION ROOM_PROTOCOL_VERSION 0.
Definition signed : SignedNodeDescriptorV2 :=
  match sign_v2 descriptor key with Ok s => s | Err _ => mkSignedV2 descriptor [] end.
Definition binary : bytes :=
  match canonical_binary_v2 signed with Ok b => b | Err _ => [] end.

Example selected :
  (abyssal_v2 (replicate 32 key) hpke [node; loopback],
   select_locator [loopback; node] PRODUCTION Production,
   select_locator [loopback] DEVELOPMENT ExplicitDevelopment,
   select_locator [loopback] DEVELOPMENT Production) =
  (Ok descriptor, Ok node, Ok loopback, Err UnsupportedTransport).
Proof. evaluate. Qed.

(** A changed bootstrap key, another node, another locator and the first version
    are all refused. *)
Example refused :
  (is_ok (decode_for_invite_v2 (<[200%nat := Byte.xff]> binary) (replicate 32 key) node),
   decode_for_invite_v2 binary (replicate 32 Byte.x09) node,
   decode_for_invite_v2 binary (replicate 32 key) (mkLocator true "evil.example.com"),
   decode_for_invite_v1 binary (replicate 32 key) node, decode_for_invite_v2 [] (replicate 32 key) node) =
  (false, Err NodeIdentityMismatch, Err NodeIdentityMismatch, Err InvalidDescriptor, Err TooLarge).
Proof. evaluate. Qed.

Lemma descriptor_decoded_exactly_witness :
  describes_v2 binary (replicate 32 key) loopback signed ∧
  ∀ s, decode_for_invite_v1 binary (replicate 32 key) loopback ≠ Ok s.
Proof.
  assert (decode_for_invite_v2 binary (replicate 32 key) loopback = Ok signed) as H
    by evaluate.
  destruct (descriptor_decoded_exactly (FMT := format) binary (replicate 32 key) loopback) as (_ & H2 & H3).
  exact (conj (proj1 (H2 signed) H) (λ s Hs, H3 s signed _ _ Hs H)).
Defined.

Lemma published_descriptor_accepted_witness :
  canonical_binary_v2 signed = Ok binary ∧
  (canonical_binary_v2 signed = Err TooLarge ∨
   ∃ b, canonical_binary_v2 signed = Ok b ∧
     ∀ locator, locator ∈ d2_locators descriptor →
       decode_for_invite_v2 b (verifying_key_of key) locator = Ok signed).
Proof.
  split; [evaluate|].
  apply (published_descriptor_accepted (FMT := format) descriptor key signed); evaluate.
Defined.
End InviteRun.
