(* ===== verification/Records.v ===== *)
(** * Encrypted records (abyssal-transport/src/records.rs)

    HTTP records are one request or response under a fresh 16-byte handle;
    WebSocket records are an ordered stream numbered by a 64-bit counter.
    Each direction has its own key, one sealer and one opener. *)

From S2P Require Import Prelude TransportWire.

Definition HTTP_MAGIC : bytes := text_bytes "ABR1".
Definition HTTP_HEADER_BYTES : Z := 58.
Definition WS_MAGIC : bytes := text_bytes "ABW1".
Definition WS_HEADER_BYTES : Z := 18.
Definition HTTP_BINDING_DOMAIN : bytes := text_bytes "ABYSSAL-TRANSPORT-V11-HTTP-SESSION".
Definition WS_BINDING_DOMAIN : bytes := text_bytes "ABYSSAL-TRANSPORT-V11-WS-CONNECTION".

Definition handle_set : Type := gset bytes.

Record DecodedHttpRecord : Type := mkDecodedHttp {
  dh_header : bytes;
  dh_direction : Direction;
  dh_session_id : bytes;
  dh_handle : bytes;
  dh_ciphertext : bytes
}.

Record HttpRecordHeader : Type := mkHttpRecordHeader {
  hh_direction : Direction;
  hh_session_id : bytes;
  hh_handle : bytes;
  hh_ciphertext_len : Z
}.

(** ** Headers *)

Definition http_header (direction : Direction) (session_id handle : bytes)
    (ciphertext_len : Z) : res bytes :=
  _ ← reject_if (bool_decide (session_id = zeros 32)) InvalidInput;
  length ← try_u32 ciphertext_len;
  Ok (HTTP_MAGIC ++ [TRANSPORT_VERSION; direction_byte direction] ++ session_id ++ handle
        ++ be_bytes 4 length).

Definition decode_http (record : bytes) : res DecodedHttpRecord :=
  _ ← reject_if
        (bool_decide (len record < HTTP_HEADER_BYTES + TAG_BYTES + 1)
         || bool_decide (HTTP_HEADER_BYTES + MAX_RECORD_PLAINTEXT_BYTES + TAG_BYTES < len record))
        TooLarge;
  _ ← reject_if
        (bool_decide (slice 0 4 record ≠ HTTP_MAGIC)
         || bool_decide (slice 4 5 record ≠ [TRANSPORT_VERSION])) NonCanonical;
  d ← ok_or (record !! 5%nat) NonCanonical;
  direction ← direction_from_byte d;
  length ← read_u32 (slice 54 58 record);
  _ ← reject_if (bool_decide (length ≠ len record - HTTP_HEADER_BYTES)) NonCanonical;
  Ok (mkDecodedHttp (slice 0 58 record) direction (slice 6 38 record) (slice 38 54 record)
        (slice 58 (len record) record)).

Definition inspect_http_record (record : bytes) : res HttpRecordHeader :=
  decoded ← decode_http record;
  _ ← reject_if
        (bool_decide (dh_session_id decoded = zeros 32)
         || bool_decide (dh_handle decoded = zeros 16)) NonCanonical;
  Ok (mkHttpRecordHeader (dh_direction decoded) (dh_session_id decoded) (dh_handle decoded)
        (len (dh_ciphertext decoded))).

Definition ws_header (direction : Direction) (counter ciphertext_len : Z) : res bytes :=
  length ← try_u32 ciphertext_len;
  Ok (WS_MAGIC ++ [TRANSPORT_VERSION; direction_byte direction] ++ be_bytes 8 counter
        ++ be_bytes 4 length).

(** Header, direction, counter, ciphertext. *)
Definition decode_ws (record : bytes) : res (bytes * Direction * Z * bytes) :=
  _ ← reject_if
        (bool_decide (len record < WS_HEADER_BYTES + TAG_BYTES + 1)
         || bool_decide (WS_HEADER_BYTES + MAX_WS_RECORD_PLAINTEXT_BYTES + TAG_BYTES < len record))
        TooLarge;
  _ ← reject_if
        (bool_decide (slice 0 4 record ≠ WS_MAGIC)
         || bool_decide (slice 4 5 record ≠ [TRANSPORT_VERSION])) NonCanonical;
  d ← ok_or (record !! 5%nat) NonCanonical;
  direction ← direction_from_byte d;
  counter ← read_u64 (slice 6 14 record);
  length ← read_u32 (slice 14 18 record);
  _ ← reject_if (bool_decide (length ≠ len record - WS_HEADER_BYTES)) NonCanonical;
  Ok (slice 0 18 record, direction, counter, slice 18 (len record) record).

(** ** Handles *)

Definition validate_record_input (handle aad plaintext : bytes) : res () :=
  _ ← reject_if (bool_decide (handle = zeros 16)) InvalidInput;
  _ ← validate_aad aad;
  validate_plaintext plaintext MAX_RECORD_PLAINTEXT_BYTES.

Definition ensure_handle_available (handles : handle_set) (handle : bytes) : res () :=
  _ ← reject_if (bool_decide (handle ∈ handles)) Replayed;
  reject_if (bool_decide (MAX_HTTP_HANDLES ≤ Z.of_nat (size handles))) CapacityExhausted.

Definition insert_handle (handles : handle_set) (handle : bytes) : res handle_set :=
  _ ← ensure_handle_available handles handle; Ok ({[handle]} ∪ handles).

(** ** Sealers and openers *)

(** [HttpSealer] and [HttpOpener] have the same fields, and so have
    [WsSealer] and [WsOpener]. *)
Record HttpEnd : Type := mkHttpEnd {
  he_key : bytes;
  he_direction : Direction;
  he_session_id : bytes;
  he_used_handles : handle_set
}.
Definition set_used_handles (v : handle_set) (e : HttpEnd) : HttpEnd :=
  mkHttpEnd (he_key e) (he_direction e) (he_session_id e) v.

Record WsEnd : Type := mkWsEnd {
  we_key : bytes;
  we_direction : Direction;
  we_next_counter : Z
}.
Definition set_next_counter (v : Z) (e : WsEnd) : WsEnd :=
  mkWsEnd (we_key e) (we_direction e) v.

(** [&mut self] methods whose checks come before every write. *)
Definition guarded {S A} (f : S → res (A * S)) : ST S TransportError A := λ s,
  match f s with Err e => (Err e, s) | Ok (a, s') => (Ok a, s') end.

Section ends.
Context {AE : Aead} {HK : Hkdf}.

(** [HttpSealer::new] and [HttpOpener::new]. *)
Definition http_end (transport_root : bytes) (direction : Direction)
    (session_context session_id : bytes) : res HttpEnd :=
  key ← derive_record_key transport_root (text_bytes "HTTP") direction session_context;
  Ok (mkHttpEnd key direction session_id ∅).

Definition http_seal (request_handle aad plaintext : bytes) : ST HttpEnd TransportError bytes :=
  guarded (λ self,
    _ ← validate_record_input request_handle aad plaintext;
    _ ← ensure_handle_available (he_used_handles self) request_handle;
    header ← http_header (he_direction self) (he_session_id self) request_handle
               (len plaintext + TAG_BYTES);
    let bound_aad := canonical_parts [header; aad] in
    nonce ← http_nonce (he_key self) (he_direction self) request_handle;
    ciphertext ← ok_or (encrypt (he_key self) nonce bound_aad plaintext) AuthenticationFailed;
    used ← insert_handle (he_used_handles self) request_handle;
    Ok (header ++ ciphertext, set_used_handles used self)).

Definition http_open (expected_handle aad record : bytes) : ST HttpEnd TransportError bytes :=
  guarded (λ self,
    _ ← validate_aad aad;
    decoded ← decode_http record;
    _ ← reject_if
          (bool_decide (dh_direction decoded ≠ he_direction self)
           || bool_decide (dh_session_id decoded ≠ he_session_id self)
           || bool_decide (dh_handle decoded ≠ expected_handle)
           || bool_decide (dh_handle decoded = zeros 16)) AuthenticationFailed;
    _ ← reject_if (bool_decide (dh_handle decoded ∈ he_used_handles self)) Replayed;
    let bound_aad := canonical_parts [dh_header decoded; aad] in
    nonce ← http_nonce (he_key self) (he_direction self) (dh_handle decoded);
    plaintext ← ok_or (decrypt (he_key self) nonce bound_aad (dh_ciphertext decoded))
                  AuthenticationFailed;
    _ ← validate_plaintext plaintext MAX_RECORD_PLAINTEXT_BYTES;
    used ← insert_handle (he_used_handles self) (dh_handle decoded);
    Ok (plaintext, set_used_handles used self)).

(** [WsSealer::new] and [WsOpener::new]. *)
Definition ws_end (transport_root : bytes) (direction : Direction)
    (connection_context : bytes) : res WsEnd :=
  key ← derive_record_key transport_root (text_bytes "WS") direction connection_context;
  Ok (mkWsEnd key direction 0).

Definition ws_seal (aad plaintext : bytes) : ST WsEnd TransportError bytes :=
  guarded (λ self,
    _ ← validate_aad aad;
    _ ← validate_plaintext plaintext MAX_WS_RECORD_PLAINTEXT_BYTES;
    _ ← reject_if (bool_decide (we_next_counter self = u64_MAX)) CounterExhausted;
    let counter := we_next_counter self in
    header ← ws_header (we_direction self) counter (len plaintext + TAG_BYTES);
    let bound_aad := canonical_parts [header; aad] in
    let nonce := ws_nonce (we_direction self) counter in
    ciphertext ← ok_or (encrypt (we_key self) nonce bound_aad plaintext) AuthenticationFailed;
    Ok (header ++ ciphertext,
        set_next_counter (saturating_add u64_MAX (we_next_counter self) 1) self)).

Definition ws_open (aad record : bytes) : ST WsEnd TransportError bytes :=
  guarded (λ self,
    _ ← validate_aad aad;
    _ ← reject_if (bool_decide (we_next_counter self = u64_MAX)) CounterExhausted;
    '(header, direction, counter, ciphertext) ← decode_ws record;
    _ ← reject_if (bool_decide (direction ≠ we_direction self)) AuthenticationFailed;
    _ ← reject_if (bool_decide (counter < we_next_counter self)) Replayed;
    _ ← reject_if (bool_decide (we_next_counter self < counter)) CounterGap;
    let bound_aad := canonical_parts [header; aad] in
    let nonce := ws_nonce (we_direction self) counter in
    plaintext ← ok_or (decrypt (we_key self) nonce bound_aad ciphertext) AuthenticationFailed;
    _ ← validate_plaintext plaintext MAX_WS_RECORD_PLAINTEXT_BYTES;
    Ok (plaintext,
        set_next_counter (saturating_add u64_MAX (we_next_counter self) 1) self)).
End ends.

(** ** Bindings: who holds which end *)

(** [ConnectionNonce::new]. *)
Definition connection_nonce (value : bytes) : res bytes :=
  _ ← reject_if (bool_decide (value = zeros 32)) InvalidInput; Ok value.

Record HttpSessionBinding : Type := mkHttpBinding {
  hb_node_public_key : bytes;
  hb_session_id : bytes
}.

Record WsConnectionBinding : Type := mkWsBinding {
  wb_session_id : bytes;
  wb_client_nonce : bytes;
  wb_server_nonce : bytes
}.

Definition http_binding (node_public_key session_id : bytes) : res HttpSessionBinding :=
  _ ← reject_if
        (bool_decide (node_public_key = zeros 32) || bool_decide (session_id = zeros 32))
        InvalidInput;
  Ok (mkHttpBinding node_public_key session_id).

Definition http_key_context (b : HttpSessionBinding) : bytes :=
  canonical_parts [HTTP_BINDING_DOMAIN; hb_node_public_key b; hb_session_id b].

Definition ws_binding (session_id client_nonce server_nonce : bytes) : res WsConnectionBinding :=
  _ ← reject_if
        (bool_decide (session_id = zeros 32) || bool_decide (client_nonce = server_nonce))
        InvalidInput;
  Ok (mkWsBinding session_id client_nonce server_nonce).

Definition ws_key_context (b : WsConnectionBinding) : bytes :=
  canonical_parts [WS_BINDING_DOMAIN; wb_session_id b; wb_client_nonce b; wb_server_nonce b].

Section bindings.
Context {HK : Hkdf}.

(** Sealer first, opener second. *)
Definition http_into_client (b : HttpSessionBinding) (root : bytes) : res (HttpEnd * HttpEnd) :=
  let context := http_key_context b in
  sealer ← http_end root ClientToServer context (hb_session_id b);
  opener ← http_end root ServerToClient context (hb_session_id b);
  Ok (sealer, opener).

Definition http_into_server (b : HttpSessionBinding) (root : bytes) : res (HttpEnd * HttpEnd) :=
  let context := http_key_context b in
  sealer ← http_end root ServerToClient context (hb_session_id b);
  opener ← http_end root ClientToServer context (hb_session_id b);
  Ok (sealer, opener).

Definition ws_into_client (b : WsConnectionBinding) (root : bytes) : res (WsEnd * WsEnd) :=
  let context := ws_key_context b in
  sealer ← ws_end root ClientToServer context;
  opener ← ws_end root ServerToClient context;
  Ok (sealer, opener).

Definition ws_into_server (b : WsConnectionBinding) (root : bytes) : res (WsEnd * WsEnd) :=
  let context := ws_key_context b in
  sealer ← ws_end root ServerToClient context;
  opener ← ws_end root ClientToServer context;
  Ok (sealer, opener).
End bindings.
