(* ===== verification/TransportReader.v ===== *)
(** * The bounded reader of the binary codecs

    control.rs, account_bootstrap.rs and attachment.rs each declare the same
    private [Reader] over a byte slice; the operations they share are defined
    here once, the others in the file of their module.

    [codec p E] says that [p] reads exactly the encodings [E] describes: it
    gives round trip and canonicity at once, and is closed under sequencing. *)

From S2P Require Import Prelude TransportWire.

Record Reader : Type := mkReader { rd_input : bytes; rd_offset : Z }.

Definition reader_new (input : bytes) : Reader := mkReader input 0.

Abbreviation RD := (ST Reader TransportError).

(** [slice.get(i..j)]. *)
Definition get_range (i j : Z) (l : bytes) : option bytes :=
  if decide (i ≤ j ∧ j ≤ len l) then Some (slice i j l) else None.

(** [Reader::take]. *)
Definition take_raw (count : Z) : RD bytes :=
  self ← get;
  last ← lift (ok_or (checked_add usize_MAX (rd_offset self) count) TooLarge);
  value ← lift (ok_or (get_range (rd_offset self) last (rd_input self)) NonCanonical);
  _ ← put (mkReader (rd_input self) last);
  mret value.

(** [value.try_into()] to an array of [n] bytes. *)
Definition array_of (n : Z) (value : bytes) : res bytes :=
  _ ← reject_if (bool_decide (len value ≠ n)) NonCanonical; Ok value.

(** [take_array::<N>] and the integers read through it. *)
Definition take_array (n : nat) : RD bytes :=
  value ← take_raw (Z.of_nat n); lift (array_of (Z.of_nat n) value).
Definition take_uint (n : nat) : RD Z :=
  value ← take_array n; mret (be_value value).
Definition take_u8 : RD byte :=
  value ← take_raw 1; lift (ok_or (head value) NonCanonical).
Definition take_u16 : RD Z := take_uint 2.
Definition take_u32 : RD Z := take_uint 4.
Definition take_u64 : RD Z := take_uint 8.

Definition finish (self : Reader) : res () :=
  reject_if (bool_decide (rd_offset self ≠ len (rd_input self))) NonCanonical.

(** A whole message: the fields, then [reader.finish()?]. *)
Definition read_all {A} (p : RD A) (self : Reader) : res A :=
  let '(out, self) := p self in
  a ← out; _ ← finish self; Ok a.

(** ** Readers of described encodings *)

(** Take apart a described encoding. *)
Ltac open_enc := repeat match goal with
  | H : ∃ _, _ |- _ => destruct H as [? H]
  | H : _ ∧ _ |- _ => destruct H
  | H : reject_if _ _ = Ok _ |- _ => apply reject_if_Ok in H
  | H : _ || _ = false |- _ => apply orb_false_elim in H
  | H : negb _ = false |- _ => apply negb_false_iff in H
  | H : bool_decide (_ ≠ _) = false |- _ => apply bool_decide_eq_false, dec_stable in H
  | H : bool_decide _ = false |- _ => apply bool_decide_eq_false in H
  | H : ?x = _ |- _ => is_var x; subst x
  | H : _ = ?x |- _ => is_var x; subst x
  end.

Definition codec {A} (p : RD A) (E : A → bytes → Prop) : Prop :=
  ∀ pre rest a r', len (pre ++ rest) ≤ usize_MAX →
    p (mkReader (pre ++ rest) (len pre)) = (Ok a, r') ↔
    ∃ enc post, rest = enc ++ post ∧ E a enc ∧
      r' = mkReader (pre ++ rest) (len (pre ++ enc)).

Lemma codec_ext {A} (p : RD A) (E F : A → bytes → Prop) :
  codec p E → (∀ a enc, E a enc ↔ F a enc) → codec p F.
Proof. intros Hp HEF pre rest a r' Hl. rewrite (Hp _ _ _ _ Hl). by setoid_rewrite HEF. Qed.

Lemma codec_ret {A} (a : A) : codec (mret a) (λ b enc, b = a ∧ enc = []).
Proof.
  intros pre rest b r' _. split.
  - intros [= <- <-]. exists [], rest. by rewrite app_nil_r.
  - intros (enc & post & -> & [-> ->] & ->). by rewrite app_nil_r.
Qed.

Lemma codec_lift {A} (r : res A) : codec (lift r) (λ b enc, r = Ok b ∧ enc = []).
Proof.
  intros pre rest b r' _. unfold lift. split.
  - intros [= -> <-]. exists [], rest. by rewrite app_nil_r.
  - intros (enc & post & -> & [-> ->] & ->). by rewrite app_nil_r.
Qed.

Lemma codec_fail {A} (e : TransportError) : codec (lift (Err e) : RD A) (λ _ _, False).
Proof. eapply codec_ext; [apply codec_lift|]. naive_solver. Qed.

Lemma codec_bind {A B} (p : RD A) (k : A → RD B) (E : A → bytes → Prop)
    (F : A → B → bytes → Prop) :
  codec p E → (∀ a e, E a e → codec (k a) (F a)) →
  codec (p ≫= k) (λ b enc, ∃ a e1 e2, enc = e1 ++ e2 ∧ E a e1 ∧ F a b e2).
Proof.
  intros Hp Hk pre rest b r' Hl. rewrite ST_bind_Ok. split.
  - intros (a & r1 & H1 & H2). apply Hp in H1 as (e1 & post & -> & HE & ->); [|done].
    rewrite (assoc_L (++)) in *. apply (Hk _ _ HE) in H2 as (e2 & post' & -> & HF & ->); [|done].
    exists (e1 ++ e2), post'. rewrite <- !(assoc_L (++)). split_and!; [done| |done].
    by exists a, e1, e2.
  - intros (enc & post & -> & (a & e1 & e2 & -> & HE & HF) & ->).
    rewrite <- (assoc_L (++)) in Hl |- *.
    exists a, (mkReader (pre ++ e1 ++ e2 ++ post) (len (pre ++ e1))). split.
    + apply Hp; [done|]. by exists e1, (e2 ++ post).
    + rewrite !(assoc_L (++) pre e1) in *. apply (Hk _ _ HE); [done|]. exists e2, post.
      by rewrite <- !(assoc_L (++)).
Qed.

Lemma codec_lift_bind {A B} (r : res A) (k : A → RD B) (F : A → B → bytes → Prop) :
  (∀ a, r = Ok a → codec (k a) (F a)) →
  codec (lift r ≫= k) (λ b enc, ∃ a, r = Ok a ∧ F a b enc).
Proof.
  intros Hk. eapply codec_ext; [apply codec_bind; [apply codec_lift|]|].
  - intros a e [Ha ->]. by apply Hk.
  - simpl. intros b enc. split.
    + intros (a & ? & e & -> & [Ha ->] & HF). eauto.
    + intros (a & Ha & HF). by exists a, [], enc.
Qed.

Lemma codec_guard {B} (c : bool) e (k : () → RD B) (F : B → bytes → Prop) :
  (c = false → codec (k tt) F) →
  codec (lift (reject_if c e) ≫= k) (λ b enc, c = false ∧ F b enc).
Proof.
  intros Hk. eapply codec_ext.
  - apply (codec_lift_bind _ _ (λ _, F)). intros [] Hc%reject_if_Ok. by apply Hk.
  - simpl. intros b enc. split.
    + intros (u & Hc%reject_if_Ok & HF). done.
    + intros [-> HF]. by exists tt.
Qed.

Lemma codec_fmap {A B} (p : RD A) (f : A → B) E :
  codec p E → codec (a ← p; mret (f a)) (λ b enc, ∃ a, b = f a ∧ E a enc).
Proof.
  intros Hp. eapply codec_ext; [apply codec_bind; [apply Hp|]; intros; apply codec_ret|].
  simpl. intros b enc. split.
  - intros (a & e1 & e2 & -> & HE & -> & ->). rewrite app_nil_r. eauto.
  - intros (a & -> & HE). exists a, enc, []. by rewrite app_nil_r.
Qed.

Lemma codec_take_raw n :
  0 ≤ n → codec (take_raw n) (λ a enc, a = enc ∧ len enc = n).
Proof.
  intros Hn pre rest a r' Hl. unfold take_raw, get_range.
  pose proof (len_nonneg pre). rewrite len_app in Hl. split.
  - intros Hr. apply ST_bind_Ok in Hr as (s & s' & [= <- <-] & Hr).
    apply ST_bind_Ok in Hr as (e & s' & [= He <-] & Hr). apply ok_or_Ok, checked_add_Some in He as [? ->].
    simpl in *. apply ST_bind_Ok in Hr as (v & s' & [= Hv <-] & [= -> <-]).
    apply ok_or_Ok in Hv. case_decide as Hd; [|done]. rewrite len_app in Hd.
    rewrite slice_app_r in Hv by lia. rewrite Z.sub_diag in Hv.
    replace (len pre + n - len pre) with n in Hv by lia. injection Hv as <-.
    exists (slice 0 n rest), (slice n (len rest) rest).
    assert (rest = slice 0 n rest ++ slice n (len rest) rest) as Hs.
    { rewrite <- slice_split by lia. by rewrite slice_all. }
    split_and!; [done|done| |]; rewrite ?len_app, ?len_slice by lia; [lia|].
    f_equal. lia.
  - intros (enc & post & -> & [-> Hlen] & ->). rewrite !len_app in Hl.
    pose proof (len_nonneg post).
    apply ST_bind_Ok. do 2 eexists. split; [done|]. simpl.
    rewrite checked_add_ok by lia. apply ST_bind_Ok. do 2 eexists. split; [done|].
    rewrite decide_True by (rewrite !len_app; lia). rewrite slice_app by lia. simpl.
    unfold put. simpl. by rewrite len_app, Hlen.
Qed.

Lemma codec_take_array n : codec (take_array n) (λ a enc, len a = Z.of_nat n ∧ enc = a).
Proof.
  eapply codec_ext; [apply codec_bind; [apply codec_take_raw; lia|intros; apply codec_lift]|].
  intros a enc. unfold array_of. split.
  - intros (x & e1 & e2 & -> & [-> Hn] & [Ha ->]). rewrite app_nil_r.
    apply bind_Ok in Ha as (? & _ & [= ->]). done.
  - intros [Hn ->]. exists a, a, []. rewrite app_nil_r, bool_decide_false by naive_solver. done.
Qed.

(** Integers in range have one encoding. *)
Definition uint_enc (n : nat) (z : Z) (enc : bytes) : Prop :=
  0 ≤ z < 256 ^ Z.of_nat n ∧ enc = be_bytes n z.

Lemma codec_take_uint n : codec (take_uint n) (uint_enc n).
Proof.
  eapply codec_ext; [apply codec_bind; [apply codec_take_array|intros; apply codec_ret]|].
  intros z enc. unfold uint_enc. split.
  - intros (e1 & ? & e2 & -> & [Hn ->] & [-> ->]). rewrite app_nil_r.
    pose proof (be_value_range e1) as Hr. rewrite Hn in Hr. split; [done|].
    unfold len in Hn. apply Nat2Z.inj in Hn as <-. by rewrite be_bytes_be_value.
  - intros [Hz ->]. exists (be_bytes n z), (be_bytes n z), [].
    by rewrite app_nil_r, be_value_be_bytes, len_be_bytes.
Qed.

Lemma codec_take_u8 : codec take_u8 (λ b enc, True ∧ enc = [b]).
Proof.
  eapply codec_ext; [apply codec_bind; [by apply codec_take_raw|intros; apply codec_lift]|].
  intros b enc. split.
  - intros (x & e1 & e2 & -> & [-> Hn] & [Hb ->]). rewrite app_nil_r.
    destruct e1 as [|c [|c' e1]]; simpl in *; simplify_eq; [done|].
    exfalso. rewrite !len_cons in Hn. pose proof (len_nonneg e1). lia.
  - intros [_ ->]. by exists [b], [b], [].
Qed.

Lemma read_all_Ok {A} (p : RD A) E payload a :
  codec p E → len payload ≤ usize_MAX →
  read_all p (reader_new payload) = Ok a ↔ E a payload.
Proof.
  intros Hp Hl. unfold read_all, reader_new. specialize (Hp [] payload). simpl in Hp.
  change (len (@nil byte)) with 0 in Hp. split.
  - destruct (p _) as [out r] eqn:E1. intros (x & -> & Hx)%bind_Ok.
    apply bind_Ok in Hx as (u & Hf & [= ->]). destruct (proj1 (Hp a r Hl) eq_refl) as (enc & post & -> & HE & ->).
    unfold finish in Hf. apply reject_if_Ok, bool_decide_eq_false, dec_stable in Hf. simpl in Hf.
    rewrite len_app in Hf. pose proof (len_nonneg post). destruct post as [|c post].
    + by rewrite app_nil_r.
    + rewrite len_cons in Hf. pose proof (len_nonneg post). lia.
  - intros HE. rewrite (proj2 (Hp a (mkReader payload (len payload)) Hl)).
    + unfold finish. simpl. by rewrite bool_decide_false by naive_solver.
    + exists payload, []. by rewrite app_nil_r.
Qed.

Create HintDb codecs.
#[export] Hint Resolve codec_take_array codec_take_uint codec_take_u8 : codecs.

(** Describe a sequence of reads field by field. *)
Ltac describe := repeat lazymatch goal with
  | |- codec (mret _) _ => apply codec_ret
  | |- codec (lift (Err _)) _ => apply codec_fail
  | |- codec (lift (reject_if _ _) ≫= _) _ => apply codec_guard; intros _
  | |- codec (lift _ ≫= _) _ => apply codec_lift_bind; intros ? _
  | |- codec (_ ≫= _) _ => apply codec_bind; [solve [eauto with codecs]|intros ? ? _]
  end.

(** Provide the parts of a described message, in order. *)
Ltac supply := repeat (eexists; eexists; eexists;
  (split; [reflexivity|]); (split; [refine (conj _ eq_refl); by auto|])).

(** ** Padded messages *)

(** [vec![0; size]] with header and payload copied in and the rest filled
    from the random source. *)
Definition padded {EN : Entropy} (size : Z) (header payload : bytes) : res bytes :=
  tail ← ok_or (fill (size - len header - len payload)) InvalidInput;
  Ok (header ++ payload ++ tail).

(** Some random source fills exactly the room that is left. *)
Definition fillable {A} (enc : ∀ {EN : Entropy}, A → res bytes) (a : A) (out : bytes) : Prop :=
  ∃ EN : Entropy, EntropyLaws ∧ enc a = Ok out.

Definition constant_entropy (tail : bytes) : Entropy :=
  {| fill n := if decide (n = len tail) then Some tail else None |}.
Lemma constant_entropy_laws tail : @EntropyLaws (constant_entropy tail).
Proof. split. simpl. intros n t E. case_decide; by simplify_eq. Qed.

Lemma padded_Ok {EN : Entropy} {EL : EntropyLaws} size h p out :
  padded size h p = Ok out → ∃ tail, out = h ++ p ++ tail ∧ len out = size.
Proof.
  unfold padded. intros (t & Ht & [= <-])%bind_Ok. apply ok_or_Ok, fill_len in Ht.
  exists t. split; [done|]. rewrite !len_app. lia.
Qed.

Lemma padded_constant size h p tail :
  len (h ++ p ++ tail) = size →
  @padded (constant_entropy tail) size h p = Ok (h ++ p ++ tail).
Proof.
  rewrite !len_app. intros Hl. unfold padded. simpl. rewrite decide_True by lia. done.
Qed.

(** ** Envelopes: version, kind, length, payload, random padding

    control.rs and account_bootstrap.rs wrap their payload the same way, at
    different sizes and with different rules on which kinds carry a payload. *)

Definition CODEC_VERSION : byte := Byte.x01.
Definition ENVELOPE_BYTES : Z := 6.

Definition envelope_header (kind : byte) (n : Z) : bytes :=
  [CODEC_VERSION; kind] ++ be_bytes 4 n.

(** [pad]. *)
Definition pad_envelope {EN : Entropy} (size : Z) (payload : bytes) (kind : byte) : res bytes :=
  _ ← reject_if (bool_decide (size - ENVELOPE_BYTES < len payload)) TooLarge;
  length ← try_u32 (len payload);
  padded size (envelope_header kind length) payload.

(** [decode_envelope]; [misfit] is the rule on kinds and payload lengths. *)
Definition open_envelope (size : Z) (misfit : byte → Z → bool) (plaintext : bytes) :
    res (byte * Reader) :=
  _ ← reject_if
        (bool_decide (len plaintext ≠ size)
         || bool_decide (plaintext !! 0%nat ≠ Some CODEC_VERSION)) NonCanonical;
  kind ← ok_or (plaintext !! 1%nat) NonCanonical;
  payload_len ← read_u32 (slice 2 6 plaintext);
  _ ← reject_if (bool_decide (size - ENVELOPE_BYTES < payload_len)) NonCanonical;
  _ ← reject_if (misfit kind payload_len) NonCanonical;
  payload ← ok_or (get_range ENVELOPE_BYTES (ENVELOPE_BYTES + payload_len) plaintext) NonCanonical;
  Ok (kind, reader_new payload).

Lemma len_envelope_header k n : len (envelope_header k n) = 6.
Proof. done. Qed.

Lemma open_envelope_Ok size misfit pt k r :
  6 ≤ size ≤ u32_MAX →
  open_envelope size misfit pt = Ok (k, r) ↔
  ∃ payload tail, pt = envelope_header k (len payload) ++ payload ++ tail ∧ len pt = size ∧
    misfit k (len payload) = false ∧ r = reader_new payload.
Proof.
  intros Hsize. unfold open_envelope, get_range, ENVELOPE_BYTES. split.
  - intros Hr. apply bind_Ok in Hr as (? & [Hl Hv]%reject_if_Ok%orb_false_elim & Hr).
    apply bool_decide_eq_false, dec_stable in Hl, Hv.
    apply bind_Ok in Hr as (k' & Hk%ok_or_Ok & Hr).
    apply bind_Ok in Hr as (n & [H4 ->]%read_u32_Ok & Hr).
    apply bind_Ok in Hr as (? & Hn%reject_if_Ok%bool_decide_eq_false & Hr).
    apply bind_Ok in Hr as (? & Hm%reject_if_Ok & Hr).
    apply bind_Ok in Hr as (p & Hp%ok_or_Ok & [= -> <-]). case_decide; simplify_eq.
    pose proof (be_value_range (slice 2 6 pt)). set (n := be_value (slice 2 6 pt)) in *.
    assert (len (slice 6 (6 + n) pt) = n) as Hpl by (rewrite len_slice; lia).
    exists (slice 6 (6 + n) pt), (slice (6 + n) (len pt) pt). rewrite Hpl.
    split_and!; [|done..]. unfold envelope_header, n.
    replace (be_bytes 4 (be_value (slice 2 6 pt))) with (slice 2 6 pt).
    2:{ symmetry. unfold len in H4. pose proof (be_bytes_be_value (slice 2 6 pt)) as E.
        by replace (length (slice 2 6 pt)) with 4%nat in E by lia. }
    assert (slice 0 1 pt = [CODEC_VERSION]) as E0 by (by apply (slice_lookup pt 0)).
    assert (slice 1 2 pt = [k]) as E1 by (by apply (slice_lookup pt 1)).
    transitivity (slice 0 (len pt) pt); [by rewrite slice_all|].
    rewrite (slice_split 0 1), (slice_split 1 2), (slice_split 2 6), (slice_split 6 (6 + n)) by lia.
    by rewrite E0, E1.
  - intros (p & tail & -> & Hl & Hm & ->). rewrite Hl. rewrite !len_app, len_envelope_header in Hl.
    pose proof (len_nonneg p). pose proof (len_nonneg tail).
    rewrite !bool_decide_false by naive_solver. cbn [orb reject_if mbind result_bind].
    change ((_ ++ _) !! 1%nat) with (Some k). cbn [ok_or mbind result_bind].
    change (slice 2 6 _) with (be_bytes 4 (len p)).
    unfold read_u32. rewrite len_be_bytes, be_value_be_bytes by (change (256 ^ _) with (u32_MAX + 1); lia).
    rewrite !bool_decide_false by (lia || naive_solver). cbn [reject_if mbind result_bind].
    rewrite Hm. cbn [reject_if mbind result_bind].
    rewrite decide_True by lia.
    rewrite slice_app by (rewrite len_envelope_header; lia).
    by rewrite bool_decide_false by lia.
Qed.

Lemma pad_envelope_Ok `{EL : EntropyLaws} size payload k out :
  pad_envelope size payload k = Ok out →
  ∃ tail, out = envelope_header k (len payload) ++ payload ++ tail ∧ len out = size.
Proof.
  unfold pad_envelope. intros (? & _ & Hr)%bind_Ok.
  apply bind_Ok in Hr as (n & [_ ->]%try_u32_Ok & Hr). by apply padded_Ok.
Qed.

Lemma pad_envelope_constant size payload k tail :
  let out := envelope_header k (len payload) ++ payload ++ tail in
  len out = size → size ≤ u32_MAX →
  @pad_envelope (constant_entropy tail) size payload k = Ok out.
Proof.
  intros out Hl Hs. unfold pad_envelope, ENVELOPE_BYTES. pose proof Hl as Hl'.
  unfold out in Hl'. rewrite !len_app, len_envelope_header in Hl'.
  pose proof (len_nonneg tail).
  rewrite bool_decide_false by lia. unfold try_u32.
  rewrite bool_decide_false by lia. by apply padded_constant.
Qed.

(** An encoder and a decoder of enveloped messages that agree on the payload
    of every value agree on whole messages: the decoder accepts exactly what
    the encoder can produce with some padding. *)
Section envelope_codec.
Context {A : Type} (size : Z) (misfit : byte → Z → bool).
Context (typed : A → Prop) (rel : A → byte → bytes → Prop).
Context (fields : byte → RD A).

Definition envelope_encodes (enc : ∀ {EN : Entropy}, A → res bytes) : Prop :=
  ∀ (EN : Entropy) a out, typed a →
    enc a = Ok out ↔ ∃ k p, rel a k p ∧ pad_envelope size p k = Ok out.

Lemma envelope_roundtrip (enc : ∀ {EN : Entropy}, A → res bytes) :
  6 ≤ size ≤ u32_MAX →
  envelope_encodes (@enc) →
  (∀ k, codec (fields k) (λ a p, rel a k p)) →
  (∀ a k p, rel a k p → typed a ∧ misfit k (len p) = false) →
  ∀ pt a,
    ('(k, r) ← open_envelope size misfit pt; read_all (fields k) r) = Ok a ↔
    typed a ∧ fillable (@enc) a pt.
Proof.
  intros Hs Henc Hdec Hrel pt a. rewrite bind_Ok. split.
  - intros ([k r] & (p & tail & -> & Hl & Hm & ->)%open_envelope_Ok & Hr); [|done].
    assert (len p ≤ usize_MAX).
    { rewrite !len_app, len_envelope_header in Hl. pose proof (len_nonneg tail).
      unfold usize_MAX, u32_MAX in *. lia. }
    apply (read_all_Ok _ _ _ _ (Hdec k)) in Hr; [|done]. pose proof (Hrel _ _ _ Hr) as [Ht _].
    split; [done|]. exists (constant_entropy tail). split; [apply constant_entropy_laws|].
    apply Henc; [done|]. exists k, p. split; [done|]. apply pad_envelope_constant; [done|lia].
  - intros (Ht & EN & EL & (k & p & Hr & Hp)%Henc); [|done].
    apply pad_envelope_Ok in Hp as (tail & -> & Hl). exists (k, reader_new p). split.
    + apply open_envelope_Ok; [done|]. exists p, tail. split_and!; [done..|by apply (Hrel a)|done].
    + apply (read_all_Ok _ _ _ _ (Hdec k)); [|done].
      rewrite !len_app, len_envelope_header in Hl. pose proof (len_nonneg tail).
      unfold usize_MAX, u32_MAX in *. lia.
Qed.
End envelope_codec.
