(* ===== verification/RecordChannel.v ===== *)
(** * Records: headers decode to what they encode, and to nothing else *)

From S2P Require Import Prelude TransportWire Records.

(** Arithmetic on the lengths of concatenations. *)
Ltac lens := repeat rewrite ?len_app, ?len_cons, ?len_nil, ?len_be_bytes, ?len_zeros in *;
  unfold HTTP_HEADER_BYTES, WS_HEADER_BYTES, TAG_BYTES, MAX_RECORD_PLAINTEXT_BYTES,
    MAX_WS_RECORD_PLAINTEXT_BYTES, u32_MAX in *; try lia.

(** Evaluate a slice of a concatenation whose parts have known lengths. *)
Ltac slices :=
  repeat first
    [ rewrite slice_eq by lens
    | rewrite slice_app_l by lens
    | rewrite slice_app_r by lens ].

Lemma len_HTTP_MAGIC : len HTTP_MAGIC = 4.
Proof. done. Qed.
Lemma len_WS_MAGIC : len WS_MAGIC = 4.
Proof. done. Qed.

Definition ws_bytes (d : Direction) (c n : Z) : bytes :=
  WS_MAGIC ++ [TRANSPORT_VERSION; direction_byte d] ++ be_bytes 8 c ++ be_bytes 4 n.

Lemma len_ws_bytes d c n : len (ws_bytes d c n) = 18.
Proof. unfold ws_bytes. lens. rewrite len_WS_MAGIC. lia. Qed.

Lemma ws_header_Ok d c n h : ws_header d c n = Ok h ↔ n ≤ u32_MAX ∧ h = ws_bytes d c n.
Proof.
  unfold ws_header. rewrite bind_Ok. split.
  - intros (m & [? ->]%try_u32_Ok & [= <-]). done.
  - intros [? ->]. exists n. by rewrite try_u32_Ok.
Qed.

Lemma decode_ws_bytes d c ct :
  0 ≤ c ≤ u64_MAX → TAG_BYTES < len ct ≤ MAX_WS_RECORD_PLAINTEXT_BYTES + TAG_BYTES →
  decode_ws (ws_bytes d c (len ct) ++ ct) = Ok (ws_bytes d c (len ct), d, c, ct).
Proof.
  intros Hc Hct. pose proof (len_ws_bytes d c (len ct)) as Hh.
  assert (len (ws_bytes d c (len ct) ++ ct) = 18 + len ct) as Hl by (rewrite len_app; lia).
  assert (slice 0 18 (ws_bytes d c (len ct) ++ ct) = ws_bytes d c (len ct)) as E0
    by (by rewrite slice_app_l, slice_eq by lia).
  assert (slice 18 (18 + len ct) (ws_bytes d c (len ct) ++ ct) = ct) as E1
    by (by rewrite slice_app_r, slice_eq by lia).
  unfold decode_ws. rewrite !Hl, E0, E1.
  change (slice 0 4 _) with WS_MAGIC. change (slice 4 5 _) with [TRANSPORT_VERSION].
  change ((_ ++ ct) !! 5%nat) with (Some (direction_byte d)).
  change (slice 6 14 _) with (be_bytes 8 c). change (slice 14 18 _) with (be_bytes 4 (len ct)).
  unfold read_u64, read_u32. rewrite !len_be_bytes.
  rewrite !be_value_be_bytes by (rewrite ?pow_256_8, ?pow_256_4; lens).
  rewrite !(bool_decide_false (_ < _)), !(bool_decide_false (_ ≠ _)) by (lens || naive_solver lens).
  simpl. destruct d; simpl; by rewrite bool_decide_false by (lens || naive_solver lens).
Qed.

Definition http_bytes (d : Direction) (session handle : bytes) (n : Z) : bytes :=
  HTTP_MAGIC ++ [TRANSPORT_VERSION; direction_byte d] ++ session ++ handle ++ be_bytes 4 n.

Lemma len_http_bytes d s h n : len s = 32 → len h = 16 → len (http_bytes d s h n) = 58.
Proof. intros. unfold http_bytes. lens. rewrite len_HTTP_MAGIC. lia. Qed.

Lemma http_header_Ok d s h n hd :
  http_header d s h n = Ok hd ↔ s ≠ zeros 32 ∧ n ≤ u32_MAX ∧ hd = http_bytes d s h n.
Proof.
  unfold http_header. rewrite !bind_Ok. split.
  - intros (u & Hu & Hm). apply bind_Ok in Hm as (m & [? ->]%try_u32_Ok & [= <-]).
    apply reject_if_Ok, bool_decide_eq_false in Hu. done.
  - intros (? & ? & ->). exists tt. rewrite bool_decide_false by done. split; [done|].
    apply bind_Ok. exists n. by rewrite try_u32_Ok.
Qed.

(** Run past the checks that are known to pass. *)
Ltac go := cbn [mbind result_bind reject_if ok_or orb].

(** The checks a run passed, as hypotheses. *)
Ltac passed H :=
  repeat match type of H with
  | (_ ≫= _) = Ok _ => apply bind_Ok in H as (? & ?C & H)
  | reject_if _ _ = Ok _ => apply reject_if_Ok in H
  | ok_or _ _ = Ok _ => apply ok_or_Ok in H
  end;
  repeat match goal with
  | C : reject_if _ _ = Ok _ |- _ => apply reject_if_Ok in C
  | C : ok_or _ _ = Ok _ |- _ => apply ok_or_Ok in C
  | C : _ || _ = false |- _ => apply orb_false_elim in C as [? ?]
  | C : bool_decide (_ ≠ _) = false |- _ => apply bool_decide_eq_false, dec_stable in C
  | C : bool_decide _ = false |- _ => apply bool_decide_eq_false in C
  | C : validate_aad _ = Ok _ |- _ => apply validate_aad_Ok in C
  | C : validate_plaintext _ _ = Ok _ |- _ => apply validate_plaintext_Ok in C as [? ?]
  | C : ws_header _ _ _ = Ok _ |- _ => apply ws_header_Ok in C as [? ->]
  | C : http_header _ _ _ _ = Ok _ |- _ => apply http_header_Ok in C as (? & ? & ->)
  | C : direction_from_byte _ = Ok _ |- _ => apply direction_from_byte_Ok in C
  | C : read_u32 _ = Ok _ |- _ => apply read_u32_Ok in C as [? ?]
  | C : read_u64 _ = Ok _ |- _ => apply read_u64_Ok in C as [? ?]
  end.

(** Replace the parts of a record a decoder compared with constants. *)
Ltac fold_known := repeat match goal with
  | H : slice ?i ?j ?r = ?x |- context [slice ?i ?j ?r] => rewrite H
  end.

Lemma decode_ws_Ok rec h d c ct :
  decode_ws rec = Ok (h, d, c, ct) →
  rec = h ++ ct ∧ h = ws_bytes d c (len ct) ∧ 0 ≤ c ≤ u64_MAX ∧
  TAG_BYTES < len ct ≤ MAX_WS_RECORD_PLAINTEXT_BYTES + TAG_BYTES.
Proof.
  unfold decode_ws. intros H. passed H. simplify_eq.
  assert (18 ≤ len rec) by lens.
  assert (rec = slice 0 18 rec ++ slice 18 (len rec) rec) as Hrec.
  { rewrite <- slice_split by lia. by rewrite slice_all. }
  assert (len (slice 18 (len rec) rec) = len rec - 18) as Hct by (rewrite len_slice; lia).
  split_and!; [done| | | |lens|lens].
  - unfold ws_bytes. rewrite Hct.
    rewrite (slice_split 0 4), (slice_split 4 5), (slice_split 5 6), (slice_split 6 14) by lia.
    replace (slice 5 6 rec) with [direction_byte d].
    2:{ symmetry. by apply (slice_lookup rec 5). }
    rewrite (be_bytes_of_value 8) by done.
    replace (len rec - 18) with (be_value (slice 14 18 rec)) by lens.
    rewrite (be_bytes_of_value 4) by done. by fold_known.
  - apply be_value_range.
  - pose proof (be_value_range (slice 6 14 rec)) as Hr.
    replace (len (slice 6 14 rec)) with 8 in Hr by done. change (256 ^ 8) with (u64_MAX + 1) in Hr. lia.
Qed.

(** ** HTTP *)

Lemma decode_http_bytes d s h ct :
  len s = 32 → len h = 16 →
  TAG_BYTES < len ct ≤ MAX_RECORD_PLAINTEXT_BYTES + TAG_BYTES →
  decode_http (http_bytes d s h (len ct) ++ ct)
    = Ok (mkDecodedHttp (http_bytes d s h (len ct)) d s h ct).
Proof.
  intros Hs Hh Hct. pose proof (len_http_bytes d s h (len ct) Hs Hh) as Hl.
  set (hd := http_bytes d s h (len ct)) in *.
  assert (len (hd ++ ct) = 58 + len ct) as Hr by (rewrite len_app; lia).
  assert (slice 0 58 (hd ++ ct) = hd) as E0 by (by rewrite slice_app_l, slice_eq by lia).
  assert (slice 58 (58 + len ct) (hd ++ ct) = ct) as E1 by (by rewrite slice_app_r, slice_eq by lia).
  set (p := HTTP_MAGIC ++ [TRANSPORT_VERSION; direction_byte d]).
  assert (hd = p ++ s ++ h ++ be_bytes 4 (len ct)) as Ehd by done.
  assert (len p = 6) as Hp by done.
  assert (slice 6 38 (hd ++ ct) = s ∧ slice 38 54 (hd ++ ct) = h ∧
          slice 54 58 (hd ++ ct) = be_bytes 4 (len ct)) as (E2 & E3 & E4).
  { rewrite Ehd, <- !(assoc_L (++)). clearbody p. split_and!; by slices. }
  unfold decode_http. rewrite !Hr, E0, E1, E2, E3, E4.
  change (slice 0 4 _) with HTTP_MAGIC. change (slice 4 5 _) with [TRANSPORT_VERSION].
  change ((hd ++ ct) !! 5%nat) with (Some (direction_byte d)).
  unfold read_u32. rewrite !len_be_bytes.
  rewrite !be_value_be_bytes by (rewrite ?pow_256_4; lens).
  rewrite !(bool_decide_false (_ < _)), !(bool_decide_false (_ ≠ _)) by (lens || naive_solver lens).
  simpl. destruct d; simpl; by rewrite bool_decide_false by (lens || naive_solver lens).
Qed.

Lemma decode_http_Ok rec x :
  decode_http rec = Ok x →
  rec = dh_header x ++ dh_ciphertext x ∧
  dh_header x = http_bytes (dh_direction x) (dh_session_id x) (dh_handle x)
                  (len (dh_ciphertext x)) ∧
  len (dh_session_id x) = 32 ∧ len (dh_handle x) = 16 ∧
  TAG_BYTES < len (dh_ciphertext x) ≤ MAX_RECORD_PLAINTEXT_BYTES + TAG_BYTES.
Proof.
  unfold decode_http. intros H. passed H. simplify_eq. simpl.
  assert (58 ≤ len rec) by lens.
  assert (len (slice 58 (len rec) rec) = len rec - 58) as Hct by (rewrite len_slice; lia).
  rewrite Hct, !len_slice by lia. split_and!; [| |lia|lia|lens|lens].
  - rewrite <- slice_split by lia. by rewrite slice_all.
  - unfold http_bytes.
    rewrite (slice_split 0 4), (slice_split 4 5), (slice_split 5 6), (slice_split 6 38),
      (slice_split 38 54) by lia.
    replace (slice 5 6 rec) with [direction_byte x3].
    2:{ symmetry. by apply (slice_lookup rec 5). }
    replace (len rec - 58) with (be_value (slice 54 58 rec)) by lens.
    rewrite (be_bytes_of_value 4) by done. by fold_known.
Qed.

(** * Records: what a sealer produces is what its opener accepts

    Characterisations of [seal] and [open] on both protocols, the duality
    between them, and the ordered channel they implement over a network that
    drops, duplicates, reorders and corrupts. *)

Lemma guarded_Ok {S A} (f : S → res (A * S)) s a s' :
  guarded f s = (Ok a, s') ↔ f s = Ok (a, s').
Proof. unfold guarded. destruct (f s) as [[]|]; naive_solver. Qed.

Lemma guarded_Err {S A} (f : S → res (A * S)) s e s' :
  guarded f s = (Err e, s') ↔ f s = Err e ∧ s' = s.
Proof. unfold guarded. destruct (f s) as [[]|]; naive_solver. Qed.

Section channel.
Context {AE : Aead} {AL : AeadLaws} {HK : Hkdf}.

(** ** WebSocket *)

(** The record with counter [c] that carries [m]. *)
Definition ws_record (key : bytes) (d : Direction) (c : Z) (aad m r : bytes) : Prop :=
  ∃ ct, encrypt key (ws_nonce d c) (canonical_parts [ws_bytes d c (len m + TAG_BYTES); aad]) m
          = Some ct ∧
        r = ws_bytes d c (len m + TAG_BYTES) ++ ct.

Definition ws_input (aad m : bytes) : Prop :=
  len aad ≤ MAX_AAD_BYTES ∧ m ≠ [] ∧ len m ≤ MAX_WS_RECORD_PLAINTEXT_BYTES.

(** The counter of an end that can still move. *)
Definition ws_live (s : WsEnd) : Prop := 0 ≤ we_next_counter s < u64_MAX.

Definition ws_advance (s : WsEnd) : WsEnd := set_next_counter (we_next_counter s + 1) s.

Lemma ws_saturating s : ws_live s →
  set_next_counter (saturating_add u64_MAX (we_next_counter s) 1) s = ws_advance s.
Proof. unfold ws_live, ws_advance, saturating_add. intros. f_equal. lia. Qed.

Lemma ws_seal_Ok aad m s r s' : 0 ≤ we_next_counter s ≤ u64_MAX →
  ws_seal aad m s = (Ok r, s') ↔
  ws_input aad m ∧ ws_live s ∧ ws_record (we_key s) (we_direction s) (we_next_counter s) aad m r ∧
  s' = ws_advance s.
Proof.
  intros Hc. unfold ws_seal. rewrite guarded_Ok. split.
  - intros Hr. passed Hr. simplify_eq.
    assert (ws_live s) by (unfold ws_live; lia). rewrite ws_saturating by done.
    split_and!; [done|done| |done]. by eexists.
  - intros ((? & ? & Hm) & Hl & (ct & Hct & ->) & ->).
    apply bind_Ok. exists tt. split; [by apply validate_aad_Ok|].
    apply bind_Ok. exists tt. split; [by apply validate_plaintext_Ok|].
    rewrite bool_decide_false by (destruct Hl; lia). go.
    apply bind_Ok. eexists. split; [apply ws_header_Ok; split; [|done]|].
    { revert Hm. unfold MAX_WS_RECORD_PLAINTEXT_BYTES, TAG_BYTES, u32_MAX. lia. }
    rewrite Hct. go. by rewrite ws_saturating.
Qed.

Lemma ws_open_Ok aad m s r s' : 0 ≤ we_next_counter s ≤ u64_MAX →
  ws_open aad r s = (Ok m, s') ↔
  ws_input aad m ∧ ws_live s ∧ ws_record (we_key s) (we_direction s) (we_next_counter s) aad m r ∧
  s' = ws_advance s.
Proof.
  intros Hc. unfold ws_open. rewrite guarded_Ok. split.
  - intros Hr. passed Hr. destruct x1 as [[[h d] c] ct]. passed Hr.
    apply decode_ws_Ok in C1 as (-> & -> & ? & ?).
    simplify_eq. assert (c = we_next_counter s) as -> by lia.
    assert (ws_live s) by (unfold ws_live; lia). rewrite ws_saturating by done.
    pose proof C5 as Hd. apply decrypt_tidy in C5. pose proof (encrypt_len _ _ _ _ _ C5) as Hl.
    rewrite Hl in *. split_and!; [done|done| |done]. by eexists.
  - intros ((? & Hm0 & Hm) & Hl & (ct & Hct & ->) & ->).
    apply bind_Ok. exists tt. split; [by apply validate_aad_Ok|].
    rewrite bool_decide_false by (destruct Hl; lia). go.
    pose proof (encrypt_len _ _ _ _ _ Hct) as Hlen. rewrite <- Hlen in Hct |- *.
    assert (0 < len m) by (destruct m; [done|rewrite len_cons; pose proof (len_nonneg m); lia]).
    rewrite decode_ws_bytes by lia. go.
    rewrite (bool_decide_false (_ ≠ _)) by naive_solver. go.
    rewrite !(bool_decide_false (_ < _)) by lia. go.
    rewrite (decrypt_encrypt _ _ _ _ _ Hct). go.
    apply bind_Ok. exists tt. split; [by apply validate_plaintext_Ok|].
    by rewrite ws_saturating.
Qed.

Lemma ws_seal_Err aad m s e s' : ws_seal aad m s = (Err e, s') → s' = s.
Proof. unfold ws_seal. by intros [_ ?]%guarded_Err. Qed.
Lemma ws_open_Err aad r s e s' : ws_open aad r s = (Err e, s') → s' = s.
Proof. unfold ws_open. by intros [_ ?]%guarded_Err. Qed.

Lemma ws_record_fun key d c aad m r1 r2 :
  ws_record key d c aad m r1 → ws_record key d c aad m r2 → r1 = r2.
Proof. intros (c1 & E1 & ->) (c2 & E2 & ->). congruence. Qed.

Lemma ws_record_total key d c aad m :
  len m ≤ MAX_WS_RECORD_PLAINTEXT_BYTES → ∃ r, ws_record key d c aad m r.
Proof.
  intros Hm. destruct (encrypt_total key (ws_nonce d c)
    (canonical_parts [ws_bytes d c (len m + TAG_BYTES); aad]) m) as [ct Hct].
  - revert Hm. unfold MAX_WS_RECORD_PLAINTEXT_BYTES. lia.
  - by exists (ws_bytes d c (len m + TAG_BYTES) ++ ct), ct.
Qed.

(** What the decoder sees of a genuine record. *)
Lemma ws_record_decodes key d c aad m r :
  0 ≤ c ≤ u64_MAX → m ≠ [] → len m ≤ MAX_WS_RECORD_PLAINTEXT_BYTES →
  ws_record key d c aad m r →
  ∃ ct, decode_ws r = Ok (ws_bytes d c (len ct), d, c, ct) ∧
        decrypt key (ws_nonce d c) (canonical_parts [ws_bytes d c (len ct); aad]) ct = Some m.
Proof.
  intros Hc Hm0 Hm (ct & Hct & ->). pose proof (encrypt_len _ _ _ _ _ Hct) as Hl.
  assert (0 < len m) by (destruct m; [done|rewrite len_cons; pose proof (len_nonneg m); lia]).
  exists ct. rewrite Hl. split; [|by apply decrypt_encrypt].
  rewrite <- Hl. apply decode_ws_bytes; lia.
Qed.

(** A genuine record out of turn is refused for what it is. *)
Lemma ws_open_out_of_turn aad s c m r :
  ws_input aad m → ws_live s → 0 ≤ c ≤ u64_MAX → c ≠ we_next_counter s →
  ws_record (we_key s) (we_direction s) c aad m r →
  ws_open aad r s = (Err (if decide (c < we_next_counter s) then Replayed else CounterGap), s).
Proof.
  intros (Ha & Hm0 & Hm) Hs Hc Hne Hr. apply ws_record_decodes in Hr as (ct & Hr & _); [|done..].
  unfold ws_open. apply guarded_Err. split; [|done].
  rewrite (proj2 (validate_aad_Ok aad tt)) by done. go.
  rewrite bool_decide_false by (destruct Hs; lia). go. rewrite Hr. go.
  rewrite (bool_decide_false (_ ≠ _)) by naive_solver. go.
  case_decide; [by rewrite (bool_decide_true (c < _))|].
  rewrite (bool_decide_false (c < _)) by done. go.
  by rewrite (bool_decide_true (_ < c)) by lia.
Qed.

(** ** HTTP *)

Definition http_record (key : bytes) (d : Direction) (session handle aad m r : bytes) : Prop :=
  let h := http_bytes d session handle (len m + TAG_BYTES) in
  ∃ nonce ct, http_nonce key d handle = Ok nonce ∧
    encrypt key nonce (canonical_parts [h; aad]) m = Some ct ∧ r = h ++ ct.

Definition http_input (handle aad m : bytes) : Prop :=
  handle ≠ zeros 16 ∧ len aad ≤ MAX_AAD_BYTES ∧ m ≠ [] ∧ len m ≤ MAX_RECORD_PLAINTEXT_BYTES.

Definition handle_free (s : HttpEnd) (handle : bytes) : Prop :=
  (handle ∉ he_used_handles s) ∧ Z.of_nat (size (he_used_handles s)) < MAX_HTTP_HANDLES.

Definition http_use (handle : bytes) (s : HttpEnd) : HttpEnd :=
  set_used_handles ({[handle]} ∪ he_used_handles s) s.

(** Widths the arrays of the source have, and a session identifier that is
    not the refused one. *)
Definition http_sound (s : HttpEnd) : Prop :=
  len (he_session_id s) = 32 ∧ he_session_id s ≠ zeros 32.

Lemma ensure_handle_Ok hs h u :
  ensure_handle_available hs h = Ok u ↔ (h ∉ hs) ∧ Z.of_nat (size hs) < MAX_HTTP_HANDLES.
Proof.
  unfold ensure_handle_available. destruct u.
  repeat case_bool_decide; simpl; naive_solver lia.
Qed.

Lemma insert_handle_Ok hs h hs' :
  insert_handle hs h = Ok hs' ↔
  (h ∉ hs) ∧ Z.of_nat (size hs) < MAX_HTTP_HANDLES ∧ hs' = {[h]} ∪ hs.
Proof.
  unfold insert_handle. rewrite bind_Ok. setoid_rewrite ensure_handle_Ok.
  split; [naive_solver|]. intros (? & ? & ->). by exists tt.
Qed.

Lemma http_seal_Ok h aad m s r s' : http_sound s →
  http_seal h aad m s = (Ok r, s') ↔
  http_input h aad m ∧ handle_free s h ∧
  http_record (he_key s) (he_direction s) (he_session_id s) h aad m r ∧ s' = http_use h s.
Proof.
  intros [Hs Hz]. unfold http_seal, validate_record_input. rewrite guarded_Ok. split.
  - intros Hr. passed Hr. apply bind_Ok in C as (? & ?%reject_if_Ok%bool_decide_eq_false & C).
    apply bind_Ok in C as (? & ? & C). passed Hr. apply ensure_handle_Ok in C0.
    apply insert_handle_Ok in C4 as (? & ? & ->). simplify_eq.
    split_and!; [done|done| |done]. by do 2 eexists.
  - intros ((? & ? & ? & Hm) & Hf & (n & ct & Hn & Hct & ->) & ->).
    rewrite bool_decide_false by done. go.
    rewrite (proj2 (validate_aad_Ok aad tt)) by done. go.
    rewrite (proj2 (validate_plaintext_Ok m _ tt)) by done. go.
    rewrite (proj2 (ensure_handle_Ok _ h tt)) by apply Hf. go.
    assert (len m + TAG_BYTES ≤ u32_MAX) as Hu by lens.
    rewrite (proj2 (http_header_Ok _ _ h (len m + TAG_BYTES) _) (conj Hz (conj Hu eq_refl))).
    go. rewrite Hn. go. rewrite Hct. go.
    by rewrite (proj2 (insert_handle_Ok _ h _) (conj (proj1 Hf) (conj (proj2 Hf) eq_refl))).
Qed.

Lemma http_open_Ok h aad m s r s' : http_sound s → len h = 16 →
  http_open h aad r s = (Ok m, s') ↔
  http_input h aad m ∧ handle_free s h ∧
  http_record (he_key s) (he_direction s) (he_session_id s) h aad m r ∧ s' = http_use h s.
Proof.
  intros [Hs Hz] Hh. unfold http_open. rewrite guarded_Ok. split.
  - intros Hr. passed Hr. apply decode_http_Ok in C0 as (-> & Eh & ? & ? & ?).
    apply insert_handle_Ok in C6 as (? & ? & ->). simplify_eq. rewrite Eh in *.
    apply decrypt_tidy in C4. pose proof (encrypt_len _ _ _ _ _ C4) as Hl. rewrite Hl in *.
    rewrite H, H2 in *. split_and!; [done|done| |done]. by do 2 eexists.
  - intros ((? & ? & Hm0 & Hm) & Hf & (n & ct & Hn & Hct & ->) & ->).
    rewrite (proj2 (validate_aad_Ok aad tt)) by done. go.
    pose proof (encrypt_len _ _ _ _ _ Hct) as Hl.
    assert (0 < len m) by (destruct m; [done|rewrite len_cons; pose proof (len_nonneg m); lia]).
    rewrite <- Hl in Hct |- *. rewrite decode_http_bytes by lia.
    cbn [mbind result_bind dh_direction dh_session_id dh_handle dh_header dh_ciphertext].
    rewrite !(bool_decide_false (_ ≠ _)), (bool_decide_false (h = _)) by naive_solver. go.
    rewrite (bool_decide_false (h ∈ _)) by apply Hf. go.
    rewrite Hn. go. rewrite (decrypt_encrypt _ _ _ _ _ Hct). go.
    rewrite (proj2 (validate_plaintext_Ok m _ tt)) by done. go.
    by rewrite (proj2 (insert_handle_Ok _ h _) (conj (proj1 Hf) (conj (proj2 Hf) eq_refl))).
Qed.

(** *** Each handle serves once *)

Lemma http_open_Err h aad r s e s' : http_open h aad r s = (Err e, s') → s' = s.
Proof. unfold http_open. by intros [_ ?]%guarded_Err. Qed.
Lemma http_seal_Err h aad r s e s' : http_seal h aad r s = (Err e, s') → s' = s.
Proof. unfold http_seal. by intros [_ ?]%guarded_Err. Qed.

Lemma http_open_uses h aad r s m s' :
  http_open h aad r s = (Ok m, s') → handle_free s h ∧ s' = http_use h s.
Proof.
  unfold http_open. intros Hr%guarded_Ok. passed Hr.
  apply insert_handle_Ok in C6 as (? & ? & ->). by simplify_eq.
Qed.

Lemma http_seal_uses h aad m s r s' :
  http_seal h aad m s = (Ok r, s') → handle_free s h ∧ s' = http_use h s.
Proof.
  unfold http_seal. intros Hr%guarded_Ok. passed Hr.
  apply insert_handle_Ok in C4 as (? & ? & ->). by simplify_eq.
Qed.
End channel.

(** The handles a sequence of calls on one end is granted. *)
Section granted.
Context (op : bytes → bytes → bytes → ST HttpEnd TransportError bytes).

Fixpoint granted (calls : list (bytes * bytes * bytes)) (s : HttpEnd) : list bytes :=
  match calls with
  | [] => []
  | (h, aad, x) :: calls =>
      let '(out, s') := op h aad x s in
      (if is_ok out then [h] else []) ++ granted calls s'
  end.

Lemma granted_once calls s :
  (∀ h a x s m s', op h a x s = (Ok m, s') → handle_free s h ∧ s' = http_use h s) →
  (∀ h a x s e s', op h a x s = (Err e, s') → s' = s) →
  Z.of_nat (size (he_used_handles s)) ≤ MAX_HTTP_HANDLES →
  NoDup (granted calls s) ∧ (∀ h, h ∈ granted calls s → h ∉ he_used_handles s) ∧
  len (granted calls s) + Z.of_nat (size (he_used_handles s)) ≤ MAX_HTTP_HANDLES.
Proof.
  intros Hok Herr. revert s. induction calls as [|[[h a] x] calls IH]; intros s Hs; simpl.
  { split_and!; [constructor|by intros h ?%elem_of_nil|rewrite len_nil; lia]. }
  destruct (op h a x s) as [[m|e] s'] eqn:Hop; simpl.
  - apply Hok in Hop as [[Hf Hc] ->].
    assert (size (he_used_handles (http_use h s)) = S (size (he_used_handles s))) as Hsz.
    { simpl. rewrite size_union by set_solver. by rewrite size_singleton. }
    destruct (IH (http_use h s)) as (Hnd & Hin & Hle); [lia|].
    split_and!.
    + constructor; [|done]. intros Hh%Hin. apply Hh. simpl. set_solver.
    + intros k [->|Hk]%elem_of_cons; [done|]. apply Hin in Hk. simpl in Hk. set_solver.
    + rewrite len_cons. lia.
  - apply Herr in Hop as ->. by apply IH.
Qed.
End granted.

(** * The WebSocket record stream implements an ordered channel

    One direction of a connection: the sealer on one side, the opener on the
    other, and between them a network that may drop, duplicate, reorder and
    corrupt records.  The specification is a first-in first-out channel; the
    simulation relates the two counters to positions in it. *)

(** ** The specification *)

Record Fifo : Type := mkFifo { f_sent : list bytes; f_taken : nat }.

(** What the two applications observe. *)
Inductive Event : Type :=
| Send (m : bytes) (out : res ())
| Receive (out : res bytes).

Definition fifo_new : Fifo := mkFifo [] 0.

Inductive fifo_step (aad : bytes) : Fifo → Event → Fifo → Prop :=
| fifo_send q m :
    ws_input aad m → len (f_sent q) < u64_MAX →
    fifo_step aad q (Send m (Ok tt)) (mkFifo (f_sent q ++ [m]) (f_taken q))
| fifo_refuse q m e :
    ¬ (ws_input aad m ∧ len (f_sent q) < u64_MAX) → fifo_step aad q (Send m (Err e)) q
| fifo_receive q m :
    f_sent q !! f_taken q = Some m →
    fifo_step aad q (Receive (Ok m)) (mkFifo (f_sent q) (S (f_taken q)))
| fifo_ignore q e : fifo_step aad q (Receive (Err e)) q.

(** ** The implementation *)

Record Net : Type := mkNet { n_sealer : WsEnd; n_opener : WsEnd; n_wire : list bytes }.

Section net.
Context {AE : Aead} (aad : bytes).

(** Nothing the receiver's key would open. *)
Definition unauthentic (key r : bytes) : Prop :=
  ∀ h d c ct, decode_ws r = Ok (h, d, c, ct) →
    decrypt key (ws_nonce d c) (canonical_parts [h; aad]) ct = None.

Inductive net_step : Net → Event → Net → Prop :=
| net_send n m r s :
    ws_seal aad m (n_sealer n) = (Ok r, s) →
    net_step n (Send m (Ok tt)) (mkNet s (n_opener n) (n_wire n ++ [r]))
| net_refuse n m e s :
    ws_seal aad m (n_sealer n) = (Err e, s) →
    net_step n (Send m (Err e)) (mkNet s (n_opener n) (n_wire n))
| net_deliver n r out o :
    r ∈ n_wire n ∨ unauthentic (we_key (n_opener n)) r →
    ws_open aad r (n_opener n) = (out, o) →
    net_step n (Receive out) (mkNet (n_sealer n) o (n_wire n)).
End net.

(** Sequences of observed events. *)
Inductive run {S} (step : S → Event → S → Prop) : S → list Event → S → Prop :=
| run_nil s : run step s [] s
| run_cons s e s' es s'' : step s e s' → run step s' es s'' → run step s (e :: es) s''.

Lemma run_app {S} (step : S → Event → S → Prop) s es s' es' s'' :
  run step s es s' → run step s' es' s'' → run step s (es ++ es') s''.
Proof. induction 1; simpl; [done|]. intros. eapply run_cons; eauto. Qed.

Lemma run_simulation {A B} (sa : A → Event → A → Prop) (sb : B → Event → B → Prop)
    (R : A → B → Prop) :
  (∀ a b e a', R a b → sa a e a' → ∃ b', sb b e b' ∧ R a' b') →
  ∀ a es a', run sa a es a' → ∀ b, R a b → ∃ b', run sb b es b' ∧ R a' b'.
Proof.
  intros Hsim. induction 1 as [a|a e a1 es a2 Hs _ IH]; intros b HR.
  - exists b. split; [constructor|done].
  - destruct (Hsim _ _ _ _ HR Hs) as (b1 & Hb & HR1).
    destruct (IH _ HR1) as (b2 & Hr & HR2). exists b2. split; [by econstructor|done].
Qed.

Definition sends (es : list Event) : list bytes :=
  omap (λ e, match e with Send m (Ok _) => Some m | _ => None end) es.
Definition receives (es : list Event) : list bytes :=
  omap (λ e, match e with Receive (Ok m) => Some m | _ => None end) es.

Lemma fifo_run_prefix aad q es q' :
  run (fifo_step aad) q es q' → (f_taken q ≤ length (f_sent q))%nat →
  f_sent q' = f_sent q ++ sends es ∧
  take (f_taken q') (f_sent q') = take (f_taken q) (f_sent q) ++ receives es ∧
  (f_taken q' ≤ length (f_sent q'))%nat.
Proof.
  induction 1 as [q|q e q1 es q2 Hs _ IH]; intros Hle.
  - simpl. by rewrite !app_nil_r.
  - destruct Hs as [q m ??|q m e ?|q m Hm|q e]; simpl in *; [|by apply IH| |by apply IH].
    + destruct IH as (E1 & E2 & ?); [rewrite length_app; lia|].
      split_and!; [by rewrite E1, <- (assoc_L (++))|by rewrite E2, take_app_le|done].
    + pose proof (lookup_lt_Some _ _ _ Hm). destruct IH as (E1 & E2 & ?); [lia|].
      split_and!; [done|by rewrite E2, (take_S_r _ _ m), <- (assoc_L (++))|done].
Qed.

(** ** The simulation *)

Section simulation.
Context {AE : Aead} {AL : AeadLaws} (key aad : bytes) (d : Direction).

Record refines (n : Net) (q : Fifo) : Prop := {
  rf_sealer : n_sealer n = mkWsEnd key d (len (f_sent q));
  rf_opener : n_opener n = mkWsEnd key d (Z.of_nat (f_taken q));
  rf_taken : (f_taken q ≤ length (f_sent q))%nat;
  rf_limit : len (f_sent q) ≤ u64_MAX;
  rf_inputs : Forall (ws_input aad) (f_sent q);
  rf_wire : Forall2 (λ im r, ws_record key d (Z.of_nat im.1) aad im.2 r)
              (imap pair (f_sent q)) (n_wire n)
}.

Lemma refines_new : refines (mkNet (mkWsEnd key d 0) (mkWsEnd key d 0) []) fifo_new.
Proof. split; simpl; try done; constructor. Qed.

Lemma refines_genuine n q r : refines n q → r ∈ n_wire n →
  ∃ i m, f_sent q !! i = Some m ∧ ws_record key d (Z.of_nat i) aad m r.
Proof.
  intros [] (j & Hj)%list_elem_of_lookup.
  destruct (Forall2_lookup_r _ _ _ _ _ rf_wire0 Hj) as ([i m] & Him & Hr).
  rewrite list_lookup_imap in Him. destruct (f_sent q !! j) eqn:E; simplify_eq/=. eauto.
Qed.

Lemma refines_sent n q i m : refines n q → f_sent q !! i = Some m →
  ∃ r, n_wire n !! i = Some r ∧ ws_record key d (Z.of_nat i) aad m r.
Proof.
  intros [] Hi. assert (imap pair (f_sent q) !! i = Some (i, m)) as Him.
  { by rewrite list_lookup_imap, Hi. }
  destruct (Forall2_lookup_l _ _ _ _ _ rf_wire0 Him) as (r & ? & ?). eauto.
Qed.

Lemma sim_send n q m r s : refines n q → ws_seal aad m (n_sealer n) = (Ok r, s) →
  ws_input aad m ∧ len (f_sent q) < u64_MAX ∧
  refines (mkNet s (n_opener n) (n_wire n ++ [r])) (mkFifo (f_sent q ++ [m]) (f_taken q)).
Proof.
  intros [Hs Ho Ht Hl Hi Hw] Hseal. pose proof (len_nonneg (f_sent q)).
  rewrite Hs in Hseal. apply ws_seal_Ok in Hseal as (Hm & [? Hlive] & Hr & ->); [|simpl; lia].
  simpl in *. split_and!; [done|done|]. split; simpl.
  - unfold ws_advance, set_next_counter. simpl. by rewrite len_app, len_cons, len_nil.
  - done.
  - rewrite length_app. simpl. lia.
  - rewrite len_app, len_cons, len_nil. lia.
  - apply Forall_app. auto.
  - rewrite imap_app. apply Forall2_app; [done|]. constructor; [|constructor]. simpl.
    by rewrite Nat.add_0_r.
Qed.

Lemma sim_refuse n q m e s : refines n q → ws_seal aad m (n_sealer n) = (Err e, s) →
  ¬ (ws_input aad m ∧ len (f_sent q) < u64_MAX) ∧ s = n_sealer n.
Proof.
  intros [Hs Ho Ht Hl Hi Hw] Hseal. pose proof (len_nonneg (f_sent q)).
  pose proof Hseal as ->%ws_seal_Err. split; [|done]. intros [Hm Hlive].
  destruct (ws_record_total key d (len (f_sent q)) aad m) as [r Hr]; [by apply Hm|].
  assert (ws_seal aad m (n_sealer n) = (Ok r, ws_advance (n_sealer n))) as Hok.
  { rewrite Hs. apply ws_seal_Ok; [simpl; lia|]. by split_and!. }
  congruence.
Qed.

(** The opener takes exactly the next message of the channel. *)
Lemma sim_receive n q r m o : refines n q →
  r ∈ n_wire n ∨ unauthentic aad (we_key (n_opener n)) r →
  ws_open aad r (n_opener n) = (Ok m, o) →
  f_sent q !! f_taken q = Some m ∧
  refines (mkNet (n_sealer n) o (n_wire n)) (mkFifo (f_sent q) (S (f_taken q))).
Proof.
  intros Href Hr Hopen. pose proof Href as [Hs Ho Ht Hl Hi Hw]. unfold len in Hl.
  rewrite Ho in *. apply ws_open_Ok in Hopen as (Hm & [? Hlive] & Hrec & ->); [|simpl; lia].
  simpl in *. assert (f_sent q !! f_taken q = Some m) as Htk.
  { destruct (ws_record_decodes key d (Z.of_nat (f_taken q)) aad m r) as (ct & Hd & Hdec);
      [lia|by apply Hm|by apply Hm|done|].
    destruct Hr as [Hr|Hr]; [|by rewrite (Hr _ _ _ _ Hd) in Hdec].
    destruct (refines_genuine _ _ _ Href Hr) as (i & m' & Him & Hrec').
    pose proof (lookup_lt_Some _ _ _ Him). pose proof (Forall_lookup_1 _ _ _ _ Hi Him) as (?&?&?).
    apply ws_record_decodes in Hrec' as (ct' & Hd' & Hdec'); [|lia|done..].
    rewrite Hd in Hd'. injection Hd' as E1 E2 E3. assert (i = f_taken q) as -> by lia.
    subst. rewrite Hdec in Hdec'. by simplify_eq. }
  split; [done|]. apply lookup_lt_Some in Htk. split; simpl; try done.
  unfold ws_advance, set_next_counter. simpl. f_equal. lia.
Qed.

Lemma sim_step n q e n' :
  refines n q → net_step aad n e n' → ∃ q', fifo_step aad q e q' ∧ refines n' q'.
Proof.
  intros Href Hstep. destruct Hstep as [n m r s Hs|n m e s Hs|n r out o Hr Ho].
  - apply (sim_send n q) in Hs as (? & ? & ?); [|done]. eexists. split; [by constructor|done].
  - apply (sim_refuse n q) in Hs as (? & ->); [|done]. exists q. split; [by constructor|].
    by destruct Href.
  - destruct out as [m|e].
    + apply (sim_receive n q) in Ho as (? & ?); [|done..]. eexists. split; [by constructor|done].
    + apply ws_open_Err in Ho as ->. exists q. split; [constructor|]. by destruct Href.
Qed.

(** The next outstanding record is always accepted. *)
Lemma next_accepted n q m : refines n q → f_sent q !! f_taken q = Some m →
  ∃ n', net_step aad n (Receive (Ok m)) n' ∧ refines n' (mkFifo (f_sent q) (S (f_taken q))).
Proof.
  intros Href Hm. pose proof (refines_sent _ _ _ _ Href Hm) as (r & Hr & Hrec).
  pose proof Href as [Hs Ho Ht Hl Hi Hw]. pose proof (lookup_lt_Some _ _ _ Hm). unfold len in Hl.
  assert (ws_open aad r (n_opener n) = (Ok m, ws_advance (n_opener n))) as Hopen.
  { rewrite Ho. apply ws_open_Ok; [simpl; lia|]. split_and!; [|unfold ws_live; simpl; lia|done..].
    by eapply Forall_lookup_1. }
  assert (r ∈ n_wire n) by (by eapply list_elem_of_lookup_2).
  eexists. split; [by eapply net_deliver; eauto|].
  eapply (sim_receive n q); eauto.
Qed.

Lemma all_accepted n q : refines n q →
  ∃ n', run (net_step aad) n ((λ m, Receive (Ok m)) <$> drop (f_taken q) (f_sent q)) n' ∧
        refines n' (mkFifo (f_sent q) (length (f_sent q))).
Proof.
  remember (length (f_sent q) - f_taken q)%nat as k eqn:Hk. revert n q Hk.
  induction k as [|k IH]; intros n q Hk Href.
  - pose proof (rf_taken _ _ Href). rewrite drop_ge by lia.
    exists n. split; [constructor|]. destruct q as [sent taken]. simpl in *.
    by replace (length sent) with taken by lia.
  - destruct (lookup_lt_is_Some_2 (f_sent q) (f_taken q)) as [m Hm]; [lia|].
    destruct (next_accepted n q m) as (n1 & Hstep & H1); [done..|].
    destruct (IH n1 (mkFifo (f_sent q) (S (f_taken q)))) as (n2 & Hrun & H2); [simpl; lia|done|].
    rewrite (drop_S _ _ _ Hm). exists n2. split; [by eapply run_cons|done].
Qed.
End simulation.
