(* ===== verification/RecordTheorems.v ===== *)
(** * Concrete primitives

    Instances of the primitive interfaces that satisfy their laws (they are
    not secure), so that the transport can be run on concrete inputs. *)

From S2P Require Import Prelude TransportWire Records RecordChannel.

Module Demo.

Definition demo_tag (k n a : bytes) : bytes := take 16 (n ++ k ++ a ++ zeros 16).

Lemma len_demo_tag k n a : len (demo_tag k n a) = TAG_BYTES.
Proof.
  unfold demo_tag, len. rewrite length_take, !length_app. unfold zeros.
  rewrite length_replicate. unfold TAG_BYTES. lia.
Qed.

(** The message in the clear, then the tag. *)
#[export] Instance demo_aead : Aead := {|
  encrypt k n a m := if decide (len m ≤ 2 ^ 36) then Some (m ++ demo_tag k n a) else None;
  decrypt k n a c :=
    let m := take (length c - 16) c in
    if decide (drop (length c - 16) c = demo_tag k n a ∧ len m ≤ 2 ^ 36) then Some m else None
|}.

#[export] Instance demo_aead_laws : AeadLaws.
Proof.
  assert (∀ k n a, length (demo_tag k n a) = 16%nat) as Htag.
  { intros. pose proof (len_demo_tag k n a) as E. unfold len, TAG_BYTES in E. lia. }
  split; simpl; intros k n a m.
  - intros. rewrite decide_True by done. eauto.
  - intros c E. case_decide; simplify_eq. by rewrite len_app, len_demo_tag.
  - intros c E. case_decide as Hm; simplify_eq. rewrite length_app, Htag.
    replace (length m + 16 - 16)%nat with (length m) by lia.
    rewrite take_app_length, drop_app_length. by rewrite decide_True.
  - intros c E. case_decide as Hm; simplify_eq. destruct Hm as [Hd Hm].
    rewrite decide_True by done. f_equal. by rewrite <- Hd, take_drop.
Qed.

#[export] Instance demo_hkdf : Hkdf := {|
  hkdf_expand salt ikm info n :=
    if decide (0 ≤ n ≤ 255 * 32)
    then Some (take (Z.to_nat n) (reverse info ++ ikm ++ salt ++ zeros (Z.to_nat n)))
    else None
|}.

#[export] Instance demo_hkdf_laws : HkdfLaws.
Proof.
  split. simpl. intros salt ikm info n Hn. rewrite decide_True by done.
  eexists. split; [done|]. unfold len, zeros.
  rewrite length_take, !length_app, length_replicate. lia.
Qed.

#[export] Instance demo_entropy : Entropy := {|
  fill n := if decide (0 ≤ n) then Some (replicate (Z.to_nat n) Byte.xaa) else None
|}.

#[export] Instance demo_entropy_laws : EntropyLaws.
Proof.
  split. simpl. intros n t E. case_decide; simplify_eq. unfold len. rewrite length_replicate. lia.
Qed.

End Demo.

(** * Records: theorems *)

Section theorems.
Context {AE : Aead} {AL : AeadLaws} {HK : Hkdf} {HL : HkdfLaws}.

(** The network between what the sealing side and the opening side of one direction
    derive from a binding and a root.  That the two hold the same key is not part
    of it: it follows from the derivations ([both_ends_new], [handshake_connects]). *)
Definition both_ends (b : WsConnectionBinding) (root : bytes) (d : Direction) (n : Net) : Prop :=
  ∃ client server,
    ws_into_client b root = Ok client ∧ ws_into_server b root = Ok server ∧
    n = match d with
        | ClientToServer => mkNet client.1 server.2 []
        | ServerToClient => mkNet server.1 client.2 []
        end.

Lemma both_ends_new b root d n aad : both_ends b root d n →
  ∃ key, refines key aad d n fifo_new ∧
         derive_record_key root (text_bytes "WS") d (ws_key_context b) = Ok key.
Proof.
  intros (c & s & Hc & Hs & ->). unfold ws_into_client, ws_into_server, ws_end in *.
  passed Hc. passed Hs.
  repeat match goal with C : _ ≫= _ = Ok _ |- _ => apply bind_Ok in C as (? & ? & C) end.
  repeat match goal with
  | E1 : ?t = Ok ?a, E2 : ?t = Ok ?b |- _ => rewrite E1 in E2
  end. simplify_eq.
  destruct d; simpl; eexists; (split; [apply refines_new|done]).
Qed.

Lemma both_ends_run b root d aad n es n' :
  both_ends b root d n → run (net_step aad) n es n' →
  ∃ key q, refines key aad d n' q ∧ run (fifo_step aad) fifo_new es q ∧
    f_sent q = sends es ∧ take (f_taken q) (f_sent q) = receives es ∧
    length (receives es) = f_taken q.
Proof.
  intros (key & Href & _)%(both_ends_new b root d n aad) Hrun.
  destruct (run_simulation _ _ _ (sim_step key aad d) _ _ _ Hrun _ Href) as (q & Hq & Hr).
  exists key, q. pose proof Hq as (E1 & E2 & ?)%fifo_run_prefix; [|done]. simpl in *.
  split_and!; [done..|]. rewrite <- E2, length_take. lia.
Qed.

(** C35: the two ends of a WebSocket connection implement an ordered
    channel.  Over a network that may drop, repeat, reorder and replace
    records, every run of a sealer and an opener derived from one binding is a
    run of an abstract first-in-first-out queue with the same results, refusals
    included, so the messages accepted are a prefix of the messages sent. *)
Theorem ws_channel_refines_fifo b root d aad n es n' :
  both_ends b root d n → run (net_step aad) n es n' →
  (∃ q, run (fifo_step aad) fifo_new es q ∧ len (f_sent q) = len (n_wire n')) ∧
  receives es `prefix_of` sends es.
Proof.
  intros Hn Hrun. destruct (both_ends_run _ _ _ _ _ _ _ Hn Hrun) as (key & q & Hr & Hq & E1 & E2 & _).
  split.
  - exists q. split; [done|]. destruct Hr as [_ _ _ _ _ Hw]. apply Forall2_length in Hw.
    unfold len. by rewrite <- Hw, length_imap.
  - rewrite <- E1, <- E2. apply prefix_take.
Qed.

(** C36: a connection never wedges.  Whatever was refused before, the
    messages sent and not yet accepted can all still be delivered, in order,
    by handing the opener their records. *)
Theorem ws_outstanding_delivered b root d aad n es n' :
  both_ends b root d n → run (net_step aad) n es n' →
  ∃ n'', run (net_step aad) n'
    ((λ m, Receive (Ok m)) <$> drop (length (receives es)) (sends es)) n''.
Proof.
  intros Hn Hrun. destruct (both_ends_run _ _ _ _ _ _ _ Hn Hrun) as (key & q & Hr & _ & <- & _ & ->).
  destruct (all_accepted _ _ _ _ _ Hr) as (n'' & ? & _). by exists n''.
Qed.

(** An opener accepts a record as message [m] exactly when a sealer in
    the same state would have produced that very record for [m], and both move
    to the same state: nothing else opens, and every sealed record opens. *)
Theorem ws_open_iff_sealed aad m r s s' :
  0 ≤ we_next_counter s ≤ u64_MAX →
  ws_open aad r s = (Ok m, s') ↔ ws_seal aad m s = (Ok r, s').
Proof. intros. by rewrite ws_seal_Ok, ws_open_Ok. Qed.

(** A record opened out of turn is reported as a replay or a gap and leaves
    the opener as it was. *)
Lemma ws_out_of_turn aad m r s s1 o :
  0 ≤ we_next_counter s ≤ u64_MAX → 0 ≤ we_next_counter o < u64_MAX →
  we_key o = we_key s → we_direction o = we_direction s →
  we_next_counter o ≠ we_next_counter s →
  ws_seal aad m s = (Ok r, s1) →
  ws_open aad r o =
    (Err (if decide (we_next_counter s < we_next_counter o) then Replayed else CounterGap), o).
Proof.
  intros Hs Ho Ek Ed Hne (Hm & Hl & Hr & _)%ws_seal_Ok; [|done].
  rewrite <- Ek, <- Ed in Hr. by apply (ws_open_out_of_turn _ _ _ m).
Qed.

(** The same exactness for HTTP records: an opener accepts a record under
    a request handle as message [m] exactly when a sealer with the same session
    and the same used handles would have produced it, and both then hold the
    handle as used. *)
Theorem http_open_iff_sealed h aad m r s s' :
  len (he_session_id s) = 32 → he_session_id s ≠ zeros 32 → len h = 16 →
  http_open h aad r s = (Ok m, s') ↔ http_seal h aad m s = (Ok r, s').
Proof. intros. by rewrite http_seal_Ok, http_open_Ok. Qed.

(** A fresh HTTP sealer or opener grants no request handle twice and at
    most [MAX_HTTP_HANDLES] handles in all, whatever calls it serves. *)
Theorem http_handles_granted_once calls s :
  he_used_handles s = ∅ →
  NoDup (granted http_seal calls s) ∧ len (granted http_seal calls s) ≤ MAX_HTTP_HANDLES ∧
  NoDup (granted http_open calls s) ∧ len (granted http_open calls s) ≤ MAX_HTTP_HANDLES.
Proof.
  intros Hs.
  destruct (granted_once http_seal calls s) as (? & _ & ?);
    [apply http_seal_uses|apply http_seal_Err|by rewrite Hs|].
  destruct (granted_once http_open calls s) as (? & _ & ?);
    [apply http_open_uses|apply http_open_Err|by rewrite Hs|].
  rewrite Hs, size_empty in *. split_and!; (done || lia).
Qed.
End theorems.

(** ** Concrete runs *)

Import Demo.

Definition demo_root : bytes := replicate 32 Byte.x07.
Definition demo_binding : WsConnectionBinding :=
  mkWsBinding (replicate 32 Byte.x01) (replicate 32 Byte.x02) (replicate 32 Byte.x03).
Definition demo_net : Net :=
  match ws_into_client demo_binding demo_root, ws_into_server demo_binding demo_root with
  | Ok c, Ok s => mkNet c.1 s.2 []
  | _, _ => mkNet (mkWsEnd [] ClientToServer 0) (mkWsEnd [] ClientToServer 0) []
  end.

Lemma demo_both_ends : both_ends demo_binding demo_root ClientToServer demo_net.
Proof.
  unfold both_ends, demo_net.
  destruct (ws_into_client demo_binding demo_root) as [c|] eqn:Ec; [|by vm_compute in Ec].
  destruct (ws_into_server demo_binding demo_root) as [s|] eqn:Es; [|by vm_compute in Es].
  by exists c, s.
Qed.

Definition demo_m (b : byte) : bytes := [b; b; b].
(** What the demo sealer produces at a counter. *)
Definition demo_sealed (c : Z) (m : bytes) : bytes :=
  match ws_seal WS_FRAME_AAD m (set_next_counter c (n_sealer demo_net)) with
  | (Ok r, _) => r
  | _ => []
  end.

(** The second record overtakes the first, is delivered in turn, then twice. *)
Definition demo_events : list Event :=
  [Send (demo_m Byte.x61) (Ok tt); Send (demo_m Byte.x62) (Ok tt); Send [] (Err InvalidInput);
   Receive (Err CounterGap); Receive (Ok (demo_m Byte.x61)); Receive (Err Replayed)].

Definition demo_end : Net :=
  mkNet (set_next_counter 2 (n_sealer demo_net)) (set_next_counter 1 (n_opener demo_net))
    [demo_sealed 0 (demo_m Byte.x61); demo_sealed 1 (demo_m Byte.x62)].

Ltac deliver i := eapply run_cons;
  [apply (net_deliver _ _ (demo_sealed i (if decide (i = 0) then demo_m Byte.x61 else demo_m Byte.x62)));
   [left; apply (list_elem_of_lookup_2 _ (Z.to_nat i)); vm_compute; reflexivity|vm_compute; reflexivity]|].

Lemma demo_run : run (net_step WS_FRAME_AAD) demo_net demo_events demo_end.
Proof.
  unfold demo_events.
  eapply run_cons; [apply net_send; vm_compute; reflexivity|].
  eapply run_cons; [apply net_send; vm_compute; reflexivity|].
  eapply run_cons; [apply net_refuse; vm_compute; reflexivity|].
  deliver 1. deliver 0. deliver 0.
  lazymatch goal with
  | |- run _ ?n [] _ => replace n with demo_end by (vm_compute; reflexivity)
  end. apply run_nil.
Qed.

Lemma ws_channel_refines_fifo_witness :
  ∃ q, run (fifo_step WS_FRAME_AAD) fifo_new demo_events q ∧ len (f_sent q) = 2.
Proof.
  destruct (ws_channel_refines_fifo _ _ _ _ _ _ _ demo_both_ends demo_run) as ((q & ? & E) & _).
  exists q. split; [assumption|exact E].
Defined.

Lemma ws_outstanding_delivered_witness :
  ∃ n, run (net_step WS_FRAME_AAD) demo_end [Receive (Ok (demo_m Byte.x62))] n.
Proof. exact (ws_outstanding_delivered _ _ _ _ _ _ _ demo_both_ends demo_run). Defined.

Lemma ws_open_iff_sealed_witness :
  ws_open WS_FRAME_AAD (demo_sealed 0 (demo_m Byte.x61)) (n_opener demo_net)
    = (Ok (demo_m Byte.x61), set_next_counter 1 (n_opener demo_net)).
Proof.
  apply ws_open_iff_sealed; [vm_compute; split; discriminate|]. vm_compute. reflexivity.
Defined.

Definition demo_http : HttpEnd :=
  mkHttpEnd (replicate 32 Byte.x05) ClientToServer (replicate 32 Byte.x01) ∅.
Definition demo_handle : bytes := replicate 16 Byte.x09.
Definition demo_http_record : bytes :=
  match http_seal demo_handle [] (demo_m Byte.x61) demo_http with (Ok r, _) => r | _ => [] end.

Lemma http_open_iff_sealed_witness :
  (http_open demo_handle [] demo_http_record demo_http).1 = Ok (demo_m Byte.x61).
Proof.
  rewrite (proj2 (http_open_iff_sealed demo_handle [] (demo_m Byte.x61) demo_http_record demo_http
    (http_seal demo_handle [] (demo_m Byte.x61) demo_http).2 ltac:(vm_compute; reflexivity)
    ltac:(vm_compute; discriminate) ltac:(vm_compute; reflexivity))
    ltac:(vm_compute; reflexivity)).
  reflexivity.
Defined.
