(* ===== verification/Control.v ===== *)
(** * Control messages (abyssal-transport/src/control.rs) *)

From S2P Require Import Prelude TransportWire TransportReader.

Definition CONTROL_PLAINTEXT_BYTES : Z := 4096.
Definition CONTROL_RECORD_BYTES : Z := 4 + 1 + 1 + 32 + 16 + 4 + CONTROL_PLAINTEXT_BYTES + 16.
Definition MAX_CONTROL_PLATFORM_BYTES : Z := 32.
Definition MAX_CONTROL_VERSION_BYTES : Z := 64.
Definition MAX_CONTROL_SIGNATURE_BYTES : Z := 256.
Definition MAX_CONTROL_TICKET_BYTES : Z := 128.

Definition ACTION_ISSUE_WS_TICKET : byte := Byte.x01.
Definition ACTION_LOGOUT : byte := Byte.x02.
Definition RESULT_FAILURE : byte := Byte.x00.
Definition RESULT_WS_TICKET : byte := Byte.x01.
Definition RESULT_LOGGED_OUT : byte := Byte.x02.

Inductive ControlAction : Type :=
| IssueWsTicket (platform version build_signature : string)
| Logout.

Inductive ControlResult : Type :=
| Failure
| WsTicket (ticket : string) (expires_in_sec : Z)
| LoggedOut.

(** ** Encoding *)

Definition put_text (output : bytes) (value : string) (maximum : Z) : res bytes :=
  _ ← reject_if
        (bool_decide (value = EmptyString) || bool_decide (maximum < slen value)
         || negb (is_ascii (text_bytes value)))
        (if bool_decide (maximum < slen value) then TooLarge else InvalidInput);
  length ← try_u16 (slen value);
  Ok (output ++ be_bytes 2 length ++ text_bytes value).

Section encode.
Context {EN : Entropy}.

Definition pad (payload : bytes) (kind : byte) : res bytes :=
  pad_envelope CONTROL_PLAINTEXT_BYTES payload kind.

Definition encode_control_action (action : ControlAction) : res bytes :=
  '(payload, kind) ←
    match action with
    | IssueWsTicket platform version build_signature =>
        payload ← put_text [] platform MAX_CONTROL_PLATFORM_BYTES;
        payload ← put_text payload version MAX_CONTROL_VERSION_BYTES;
        payload ← put_text payload build_signature MAX_CONTROL_SIGNATURE_BYTES;
        Ok (payload, ACTION_ISSUE_WS_TICKET)
    | Logout => Ok ([], ACTION_LOGOUT)
    end;
  pad payload kind.

Definition encode_control_result (result : ControlResult) : res bytes :=
  '(payload, kind) ←
    match result with
    | Failure => Ok ([], RESULT_FAILURE)
    | WsTicket ticket expires_in_sec =>
        payload ← put_text [] ticket MAX_CONTROL_TICKET_BYTES;
        _ ← reject_if
              (bool_decide (expires_in_sec = 0) || bool_decide (24 * 60 * 60 < expires_in_sec))
              InvalidInput;
        Ok (payload ++ be_bytes 4 expires_in_sec, RESULT_WS_TICKET)
    | LoggedOut => Ok ([], RESULT_LOGGED_OUT)
    end;
  pad payload kind.
End encode.

(** ** Decoding *)

Definition carries_nothing (kind : byte) : bool :=
  bool_decide (kind = RESULT_FAILURE) || bool_decide (kind = RESULT_LOGGED_OUT)
  || bool_decide (kind = ACTION_LOGOUT).

Definition decode_envelope (plaintext : bytes) : res (byte * Reader) :=
  open_envelope CONTROL_PLAINTEXT_BYTES
    (λ kind payload_len,
      carries_nothing kind && bool_decide (payload_len ≠ 0)
      || bool_decide (kind ≠ RESULT_FAILURE) && bool_decide (kind ≠ RESULT_LOGGED_OUT)
         && bool_decide (kind ≠ ACTION_LOGOUT) && bool_decide (payload_len = 0))
    plaintext.

Definition take_text (maximum : Z) : RD string :=
  length ← take_u16;
  _ ← lift (reject_if (bool_decide (length = 0) || bool_decide (maximum < length))
              (if bool_decide (maximum < length) then TooLarge else NonCanonical));
  value ← take_raw length;
  _ ← lift (reject_if (negb (is_ascii value)) NonCanonical);
  _ ← lift (reject_if (negb (utf8_valid value)) NonCanonical);
  mret (bytes_text value).

(** The fields of each kind: the [match] of the decoders. *)
Definition action_fields (kind : byte) : RD ControlAction :=
  if bool_decide (kind = ACTION_ISSUE_WS_TICKET) then
    platform ← take_text MAX_CONTROL_PLATFORM_BYTES;
    version ← take_text MAX_CONTROL_VERSION_BYTES;
    build_signature ← take_text MAX_CONTROL_SIGNATURE_BYTES;
    mret (IssueWsTicket platform version build_signature)
  else if bool_decide (kind = ACTION_LOGOUT) then mret Logout
  else lift (Err NonCanonical).

Definition decode_control_action (plaintext : bytes) : res ControlAction :=
  '(kind, reader) ← decode_envelope plaintext;
  read_all (action_fields kind) reader.

Definition result_fields (kind : byte) : RD ControlResult :=
  if bool_decide (kind = RESULT_FAILURE) then mret Failure
  else if bool_decide (kind = RESULT_WS_TICKET) then
    ticket ← take_text MAX_CONTROL_TICKET_BYTES;
    expires_in_sec ← take_u32;
    _ ← lift (reject_if
          (bool_decide (expires_in_sec = 0) || bool_decide (24 * 60 * 60 < expires_in_sec))
          NonCanonical);
    mret (WsTicket ticket expires_in_sec)
  else if bool_decide (kind = RESULT_LOGGED_OUT) then mret LoggedOut
  else lift (Err NonCanonical).

Definition decode_control_result (plaintext : bytes) : res ControlResult :=
  '(kind, reader) ← decode_envelope plaintext;
  read_all (result_fields kind) reader.

(** ** The encodings *)

Definition text_enc (maximum : Z) (s : string) (enc : bytes) : Prop :=
  s ≠ EmptyString ∧ slen s ≤ maximum ∧ is_ascii (text_bytes s) = true ∧
  enc = be_bytes 2 (slen s) ++ text_bytes s.

Lemma slen_zero s : slen s = 0 ↔ s = EmptyString.
Proof. unfold slen. destruct s; simpl; split; try done; lia. Qed.

Lemma put_text_Ok output s m out : m ≤ u16_MAX →
  put_text output s m = Ok out ↔ ∃ enc, text_enc m s enc ∧ out = output ++ enc.
Proof.
  intros Hm. unfold put_text, text_enc. split.
  - intros Hr. apply bind_Ok in Hr as (? & Hc%reject_if_Ok & Hr).
    apply orb_false_elim in Hc as [[H1 H2]%orb_false_elim H3%negb_false_iff].
    apply bool_decide_eq_false in H1, H2. apply bind_Ok in Hr as (n & [? ->]%try_u16_Ok & [= <-]).
    eexists. split_and!; [done|lia|done|done|done].
  - intros (enc & (H1 & H2 & H3 & ->) & ->). rewrite H3, !bool_decide_false by (lia || done). simpl.
    apply bind_Ok. exists (slen s). split; [|done]. apply try_u16_Ok. lia.
Qed.

Lemma codec_take_text m : m ≤ u16_MAX → codec (take_text m) (text_enc m).
Proof.
  intros Hm. unfold take_text.
  eapply codec_ext.
  { apply codec_bind; [apply codec_take_uint|]. intros n ? [Hn _].
    apply codec_guard. intros _.
    apply codec_bind; [apply codec_take_raw; lia|]. intros v _ _.
    do 2 (apply codec_guard; intros _). apply codec_ret. }
  intros s enc. unfold text_enc, uint_enc. split.
  - intros Hr. open_enc. rewrite app_nil_r, text_bytes_text.
    rewrite <- len_text_bytes, text_bytes_text.
    assert (len x3 ≠ 0) by done. split_and!; [|lia|done|done].
    intros E%(f_equal (len ∘ text_bytes)). simpl in E. by rewrite text_bytes_text in E.
  - intros (H1 & H2 & H3 & ->). pose proof (slen_nonneg s). rewrite <- slen_zero in H1.
    exists (slen s), (be_bytes 2 (slen s)), (text_bytes s).
    split_and!; [done|lia| |done| |].
    { revert H2 Hm. unfold u16_MAX. change (256 ^ _) with 65536. lia. }
    { by rewrite !bool_decide_false by lia. }
    exists (text_bytes s), (text_bytes s), []. rewrite app_nil_r, H3, len_text_bytes.
    rewrite is_ascii_utf8 by done. by rewrite bytes_text_bytes.
Qed.

(** Kind and payload of an action. *)
Definition action_enc (a : ControlAction) (kind : byte) (payload : bytes) : Prop :=
  match a with
  | IssueWsTicket p v b =>
      kind = ACTION_ISSUE_WS_TICKET ∧
      ∃ e1 e2 e3, payload = e1 ++ e2 ++ e3 ∧ text_enc MAX_CONTROL_PLATFORM_BYTES p e1 ∧
        text_enc MAX_CONTROL_VERSION_BYTES v e2 ∧ text_enc MAX_CONTROL_SIGNATURE_BYTES b e3
  | Logout => kind = ACTION_LOGOUT ∧ payload = []
  end.

Lemma text_enc_pos m s enc : text_enc m s enc → 2 < len enc.
Proof.
  intros (H1 & _ & _ & ->). rewrite len_app, len_be_bytes, len_text_bytes.
  rewrite <- slen_zero in H1. pose proof (slen_nonneg s). lia.
Qed.

Lemma control_encode_action_Ok :
  envelope_encodes CONTROL_PLAINTEXT_BYTES (λ _, True) action_enc (@encode_control_action).
Proof.
  intros EN a out _. unfold encode_control_action, pad. rewrite bind_Ok. split.
  - intros ([p k] & Hp & Hout). exists k, p. split; [|done]. destruct a; simpl in *; [|by simplify_eq].
    apply bind_Ok in Hp as (p1 & (e1 & ? & ->)%put_text_Ok & Hp); [|done].
    apply bind_Ok in Hp as (p2 & (e2 & ? & ->)%put_text_Ok & Hp); [|done].
    apply bind_Ok in Hp as (p3 & (e3 & ? & ->)%put_text_Ok & [= <- <-]); [|done].
    split; [done|]. exists e1, e2, e3. by rewrite <- !(assoc_L (++)).
  - intros (k & p & Hr & Hout). exists (p, k). split; [|done]. destruct a; simpl in *; [|by open_enc].
    destruct Hr as (-> & e1 & e2 & e3 & -> & ? & ? & ?).
    apply bind_Ok. exists ([] ++ e1). split; [apply put_text_Ok; eauto; done|].
    apply bind_Ok. exists (([] ++ e1) ++ e2). split; [apply put_text_Ok; eauto; done|].
    apply bind_Ok. exists ((([] ++ e1) ++ e2) ++ e3). split; [apply put_text_Ok; eauto; done|].
    by rewrite <- !(assoc_L (++)).
Qed.

Lemma codec_platform : codec (take_text MAX_CONTROL_PLATFORM_BYTES) (text_enc MAX_CONTROL_PLATFORM_BYTES).
Proof. by apply codec_take_text. Qed.
Lemma codec_version : codec (take_text MAX_CONTROL_VERSION_BYTES) (text_enc MAX_CONTROL_VERSION_BYTES).
Proof. by apply codec_take_text. Qed.
Lemma codec_signature : codec (take_text MAX_CONTROL_SIGNATURE_BYTES) (text_enc MAX_CONTROL_SIGNATURE_BYTES).
Proof. by apply codec_take_text. Qed.
Lemma codec_ticket : codec (take_text MAX_CONTROL_TICKET_BYTES) (text_enc MAX_CONTROL_TICKET_BYTES).
Proof. by apply codec_take_text. Qed.
#[export] Hint Resolve codec_platform codec_version codec_signature codec_ticket : codecs.

(** Kind and payload of a result; the field is a [u32]. *)
Definition result_enc (a : ControlResult) (kind : byte) (payload : bytes) : Prop :=
  match a with
  | Failure => kind = RESULT_FAILURE ∧ payload = []
  | WsTicket t n =>
      kind = RESULT_WS_TICKET ∧ 0 < n ≤ 24 * 60 * 60 ∧
      ∃ e, payload = e ++ be_bytes 4 n ∧ text_enc MAX_CONTROL_TICKET_BYTES t e
  | LoggedOut => kind = RESULT_LOGGED_OUT ∧ payload = []
  end.
Definition result_typed (a : ControlResult) : Prop :=
  match a with WsTicket _ n => 0 ≤ n ≤ u32_MAX | _ => True end.

Lemma control_encode_result_Ok :
  envelope_encodes CONTROL_PLAINTEXT_BYTES result_typed result_enc (@encode_control_result).
Proof.
  intros EN a out Ht. unfold encode_control_result, pad. rewrite bind_Ok. split.
  - intros ([p k] & Hp & Hout). exists k, p. split; [|done].
    destruct a as [|t n|]; simpl in *; [by simplify_eq| |by simplify_eq].
    apply bind_Ok in Hp as (p1 & (e & ? & ->)%put_text_Ok & Hp); [|done].
    apply bind_Ok in Hp as (? & Hn & [= <- <-]). open_enc. split_and!; [done|lia..|].
    exists e. done.
  - intros (k & p & Hr & Hout). exists (p, k). split; [|done].
    destruct a as [|t n|]; simpl in *; [by open_enc| |by open_enc].
    destruct Hr as (-> & ? & e & -> & ?).
    apply bind_Ok. exists ([] ++ e). split; [apply put_text_Ok; eauto; done|].
    by rewrite !bool_decide_false by lia.
Qed.

Lemma control_action_fields_codec k : codec (action_fields k) (λ a p, action_enc a k p).
Proof.
  unfold action_fields. repeat case_bool_decide; subst.
  - eapply codec_ext; [describe|]. intros a p. split.
    + intros. open_enc. rewrite app_nil_r. simpl. split; [done|]. by do 3 eexists.
    + intros Ha. destruct a; [|by destruct Ha]. destruct Ha as (_ & e1 & e2 & e3 & -> & ? & ? & ?).
      do 3 eexists. split_and!; [done..|]. do 3 eexists. split_and!; [done..|].
      exists build_signature, e3, []. by rewrite app_nil_r.
  - eapply codec_ext; [describe|]. intros a p. destruct a; simpl; naive_solver.
  - eapply codec_ext; [describe|]. intros a p. destruct a; simpl; naive_solver.
Qed.

Lemma control_result_fields_codec k : codec (result_fields k) (λ a p, result_enc a k p).
Proof.
  unfold result_fields. repeat case_bool_decide; subst.
  - eapply codec_ext; [describe|]. intros a p. destruct a; simpl; naive_solver.
  - eapply codec_ext; [unfold take_u32; describe|]. intros a p. unfold uint_enc. split.
    + intros. open_enc. rewrite app_nil_r. simpl. split_and!; [done|lia|lia|]. by eexists.
    + intros Ha. destruct a as [|t n|]; [by destruct Ha| |by destruct Ha].
      destruct Ha as (_ & ? & e & -> & ?). do 3 eexists. split_and!; [done..|].
      exists n, (be_bytes 4 n), []. rewrite app_nil_r, !bool_decide_false by lia.
      change (256 ^ _) with 4294967296. by split_and!; lia || done.
  - eapply codec_ext; [describe|]. intros a p. destruct a; simpl; naive_solver.
  - eapply codec_ext; [describe|]. intros a p. destruct a; simpl; naive_solver.
Qed.

Lemma some_payload a b p : text_enc a b p → ∀ q, len (p ++ q) ≠ 0.
Proof. intros H%text_enc_pos q. rewrite len_app. pose proof (len_nonneg q). lia. Qed.

Lemma control_action_codec pt a :
  decode_control_action pt = Ok a ↔ fillable (@encode_control_action) a pt.
Proof.
  unfold decode_control_action, decode_envelope.
  rewrite (envelope_roundtrip CONTROL_PLAINTEXT_BYTES _ _ _ _ _ ltac:(done) control_encode_action_Ok control_action_fields_codec).
  { naive_solver. }
  intros x k p Hx. split; [done|]. destruct x; simpl in Hx.
  - destruct Hx as (-> & e1 & e2 & e3 & -> & H & _). simpl.
    by rewrite bool_decide_false by (apply (some_payload _ _ _ H)).
  - by destruct Hx as [-> ->].
Qed.

Lemma control_result_codec pt a :
  decode_control_result pt = Ok a ↔ result_typed a ∧ fillable (@encode_control_result) a pt.
Proof.
  unfold decode_control_result, decode_envelope.
  apply (envelope_roundtrip CONTROL_PLAINTEXT_BYTES _ _ _ _ _ ltac:(done) control_encode_result_Ok control_result_fields_codec).
  intros x k p Hx. destruct x; simpl in Hx.
  - by destruct Hx as [-> ->].
  - destruct Hx as (-> & ? & e & -> & H). split; [simpl; unfold u32_MAX; lia|]. simpl.
    by rewrite bool_decide_false by (apply (some_payload _ _ _ H)).
  - by destruct Hx as [-> ->].
Qed.

(** The decoders of control messages accept exactly what the encoders
    produce, with whatever random padding, for the same value: nothing else
    decodes, every encoded value decodes to itself, and a decoded expiry fits
    its [u32]. *)
Theorem control_codec pt a b :
  (decode_control_action pt = Ok a ↔ fillable (@encode_control_action) a pt) ∧
  (decode_control_result pt = Ok b ↔ result_typed b ∧ fillable (@encode_control_result) b pt).
Proof. split; [apply control_action_codec|apply control_result_codec]. Qed.
