(* ===== verification/AccountBootstrap.v ===== *)
(** * Account bootstrap messages (abyssal-transport/src/account_bootstrap.rs) *)

From S2P Require Import Prelude TransportWire TransportReader.

Definition ACCOUNT_BOOTSTRAP_OPERATION : bytes := text_bytes "account-bootstrap-v11".
Definition MAX_ACCOUNT_BOOTSTRAP_FIELD_BYTES : Z := 48 * 1024.

Definition ACTION_START : byte := Byte.x01.
Definition ACTION_FINISH_REGISTRATION : byte := Byte.x02.
Definition ACTION_FINISH_LOGIN : byte := Byte.x03.
Definition RESULT_FAILURE : byte := Byte.x00.
Definition RESULT_LOGIN_START : byte := Byte.x01.
Definition RESULT_REGISTRATION_START : byte := Byte.x02.
Definition RESULT_REGISTRATION_CONTINUATION : byte := Byte.x03.
Definition RESULT_SESSION : byte := Byte.x04.
Definition MIN_MAX_ROOMS_PER_USER : Z := 1.
Definition MAX_MAX_ROOMS_PER_USER : Z := 100.
Definition MIN_SESSION_INACTIVITY_SEC : Z := 60.
Definition MAX_SESSION_INACTIVITY_SEC : Z := 24 * 60 * 60.

Inductive AccountBootstrapAction : Type :=
| Start (capability registration_request credential_request : bytes)
| FinishRegistration (handshake_id registration_upload identity_public : bytes)
    (identity_prekey_id : string) (identity_envelope identity_proof : bytes)
| FinishLogin (handshake_id credential_finalization : bytes).

Inductive AccountBootstrapResult : Type :=
| Failure
| LoginStart (handshake_id credential_response identity_public : bytes)
    (identity_prekey_id : string) (identity_envelope : bytes)
| RegistrationStart (handshake_id registration_response challenge : bytes)
| RegistrationContinuation (handshake_id credential_response : bytes)
| Session (session_id : bytes) (created : bool)
    (max_rooms_per_user session_inactivity_sec : Z) (username : string)
    (identity_public : bytes) (identity_prekey_id : string) (identity_envelope : bytes).

(** ** Encoding *)

Definition put_bytes (output value : bytes) : res bytes :=
  _ ← reject_if
        (bool_decide (value = []) || bool_decide (MAX_ACCOUNT_BOOTSTRAP_FIELD_BYTES < len value))
        InvalidInput;
  length ← try_u32 (len value);
  Ok (output ++ be_bytes 4 length ++ value).

Definition put_text (output : bytes) (value : string) : res bytes :=
  put_bytes output (text_bytes value).

Definition require_nonzero (n : nat) (value : bytes) : res () :=
  reject_if (bool_decide (value = zeros n)) InvalidInput.

Definition outside (lo hi v : Z) : bool := negb (bool_decide (lo ≤ v) && bool_decide (v ≤ hi)).

Definition validate_session_policy (max_rooms_per_user session_inactivity_sec : Z) : res () :=
  reject_if
    (outside MIN_MAX_ROOMS_PER_USER MAX_MAX_ROOMS_PER_USER max_rooms_per_user
     || outside MIN_SESSION_INACTIVITY_SEC MAX_SESSION_INACTIVITY_SEC session_inactivity_sec)
    InvalidInput.

Definition bool_byte (b : bool) : byte := if b then Byte.x01 else Byte.x00.

Section encode.
Context {EN : Entropy}.

Definition pad (payload : bytes) (kind : byte) : res bytes :=
  pad_envelope MAX_BOOTSTRAP_PLAINTEXT_BYTES payload kind.

Definition encode_account_bootstrap_action (action : AccountBootstrapAction) : res bytes :=
  '(payload, kind) ←
    match action with
    | Start capability registration_request credential_request =>
        _ ← require_nonzero 32 capability;
        payload ← put_bytes capability registration_request;
        payload ← put_bytes payload credential_request;
        Ok (payload, ACTION_START)
    | FinishRegistration handshake_id registration_upload identity_public identity_prekey_id
        identity_envelope identity_proof =>
        _ ← require_nonzero 16 handshake_id;
        payload ← put_bytes handshake_id registration_upload;
        payload ← put_bytes payload identity_public;
        payload ← put_text payload identity_prekey_id;
        payload ← put_bytes payload identity_envelope;
        payload ← put_bytes payload identity_proof;
        Ok (payload, ACTION_FINISH_REGISTRATION)
    | FinishLogin handshake_id credential_finalization =>
        _ ← require_nonzero 16 handshake_id;
        payload ← put_bytes handshake_id credential_finalization;
        Ok (payload, ACTION_FINISH_LOGIN)
    end;
  pad payload kind.

Definition encode_account_bootstrap_result (result : AccountBootstrapResult) : res bytes :=
  '(payload, kind) ←
    match result with
    | Failure => Ok ([], RESULT_FAILURE)
    | LoginStart handshake_id credential_response identity_public identity_prekey_id
        identity_envelope =>
        _ ← require_nonzero 16 handshake_id;
        payload ← put_bytes handshake_id credential_response;
        payload ← put_bytes payload identity_public;
        payload ← put_text payload identity_prekey_id;
        payload ← put_bytes payload identity_envelope;
        Ok (payload, RESULT_LOGIN_START)
    | RegistrationStart handshake_id registration_response challenge =>
        _ ← require_nonzero 16 handshake_id;
        payload ← put_bytes handshake_id registration_response;
        payload ← put_bytes payload challenge;
        Ok (payload, RESULT_REGISTRATION_START)
    | RegistrationContinuation handshake_id credential_response =>
        _ ← require_nonzero 16 handshake_id;
        payload ← put_bytes handshake_id credential_response;
        Ok (payload, RESULT_REGISTRATION_CONTINUATION)
    | Session session_id created max_rooms_per_user session_inactivity_sec username
        identity_public identity_prekey_id identity_envelope =>
        _ ← require_nonzero 32 session_id;
        _ ← validate_session_policy max_rooms_per_user session_inactivity_sec;
        payload ← put_text
                    (session_id ++ [bool_byte created] ++ be_bytes 4 max_rooms_per_user
                       ++ be_bytes 4 session_inactivity_sec) username;
        payload ← put_bytes payload identity_public;
        payload ← put_text payload identity_prekey_id;
        payload ← put_bytes payload identity_envelope;
        Ok (payload, RESULT_SESSION)
    end;
  pad payload kind.
End encode.

(** ** Decoding *)

Definition decode_envelope (plaintext : bytes) : res (byte * Reader) :=
  open_envelope MAX_BOOTSTRAP_PLAINTEXT_BYTES
    (λ kind payload_len,
      bool_decide (kind ≠ RESULT_FAILURE) && bool_decide (payload_len = 0)
      || bool_decide (kind = RESULT_FAILURE) && bool_decide (payload_len ≠ 0))
    plaintext.

Definition take_nonzero_array (n : nat) : RD bytes :=
  value ← take_array n;
  _ ← lift (reject_if (negb (is_ok (require_nonzero n value))) NonCanonical);
  mret value.

Definition take_bool : RD bool :=
  value ← take_u8;
  if bool_decide (value = Byte.x00) then mret false
  else if bool_decide (value = Byte.x01) then mret true
  else lift (Err NonCanonical).

Definition take_between (lo hi : Z) : RD Z :=
  value ← take_u32;
  _ ← lift (reject_if (outside lo hi value) NonCanonical);
  mret value.
Definition take_session_max_rooms_per_user : RD Z :=
  take_between MIN_MAX_ROOMS_PER_USER MAX_MAX_ROOMS_PER_USER.
Definition take_session_inactivity_sec : RD Z :=
  take_between MIN_SESSION_INACTIVITY_SEC MAX_SESSION_INACTIVITY_SEC.

Definition take_bytes : RD bytes :=
  length ← take_u32;
  _ ← lift (reject_if
        (bool_decide (length = 0) || bool_decide (MAX_ACCOUNT_BOOTSTRAP_FIELD_BYTES < length))
        NonCanonical);
  take_raw length.

Definition take_text : RD string :=
  value ← take_bytes;
  _ ← lift (reject_if (negb (utf8_valid value)) NonCanonical);
  mret (bytes_text value).

(** The fields of each kind: the [match] of the decoders. *)
Definition action_fields (kind : byte) : RD AccountBootstrapAction :=
  if bool_decide (kind = ACTION_START) then
    capability ← take_nonzero_array 32;
    registration_request ← take_bytes;
    credential_request ← take_bytes;
    mret (Start capability registration_request credential_request)
  else if bool_decide (kind = ACTION_FINISH_REGISTRATION) then
    handshake_id ← take_nonzero_array 16;
    registration_upload ← take_bytes;
    identity_public ← take_bytes;
    identity_prekey_id ← take_text;
    identity_envelope ← take_bytes;
    identity_proof ← take_bytes;
    mret (FinishRegistration handshake_id registration_upload identity_public
            identity_prekey_id identity_envelope identity_proof)
  else if bool_decide (kind = ACTION_FINISH_LOGIN) then
    handshake_id ← take_nonzero_array 16;
    credential_finalization ← take_bytes;
    mret (FinishLogin handshake_id credential_finalization)
  else lift (Err NonCanonical).

Definition decode_account_bootstrap_action (plaintext : bytes) : res AccountBootstrapAction :=
  '(kind, reader) ← decode_envelope plaintext;
  read_all (action_fields kind) reader.

Definition result_fields (kind : byte) : RD AccountBootstrapResult :=
  if bool_decide (kind = RESULT_FAILURE) then mret Failure
  else if bool_decide (kind = RESULT_LOGIN_START) then
    handshake_id ← take_nonzero_array 16;
    credential_response ← take_bytes;
    identity_public ← take_bytes;
    identity_prekey_id ← take_text;
    identity_envelope ← take_bytes;
    mret (LoginStart handshake_id credential_response identity_public identity_prekey_id
            identity_envelope)
  else if bool_decide (kind = RESULT_REGISTRATION_START) then
    handshake_id ← take_nonzero_array 16;
    registration_response ← take_bytes;
    challenge ← take_bytes;
    mret (RegistrationStart handshake_id registration_response challenge)
  else if bool_decide (kind = RESULT_REGISTRATION_CONTINUATION) then
    handshake_id ← take_nonzero_array 16;
    credential_response ← take_bytes;
    mret (RegistrationContinuation handshake_id credential_response)
  else if bool_decide (kind = RESULT_SESSION) then
    session_id ← take_nonzero_array 32;
    created ← take_bool;
    max_rooms_per_user ← take_session_max_rooms_per_user;
    session_inactivity_sec ← take_session_inactivity_sec;
    username ← take_text;
    identity_public ← take_bytes;
    identity_prekey_id ← take_text;
    identity_envelope ← take_bytes;
    mret (Session session_id created max_rooms_per_user session_inactivity_sec username
            identity_public identity_prekey_id identity_envelope)
  else lift (Err NonCanonical).

Definition decode_account_bootstrap_result (plaintext : bytes) : res AccountBootstrapResult :=
  '(kind, reader) ← decode_envelope plaintext;
  read_all (result_fields kind) reader.

(** ** What the messages look like *)

Definition field (value : bytes) : bytes := be_bytes 4 (len value) ++ value.
Definition field_ok (value : bytes) : Prop :=
  value ≠ [] ∧ len value ≤ MAX_ACCOUNT_BOOTSTRAP_FIELD_BYTES.
Definition nonzero (n : nat) (value : bytes) : Prop := value ≠ zeros n.
Definition within (lo hi v : Z) : Prop := lo ≤ v ≤ hi.

(** The [String]s and arrays of the source. *)
Definition utf8 (s : string) : Prop := utf8_valid (text_bytes s) = true.
Definition array (n : Z) (value : bytes) : Prop := len value = n.

Definition action_typed (a : AccountBootstrapAction) : Prop :=
  match a with
  | Start c _ _ => array 32 c
  | FinishRegistration h _ _ k _ _ => array 16 h ∧ utf8 k
  | FinishLogin h _ => array 16 h
  end.

Definition action_ok (a : AccountBootstrapAction) : Prop :=
  match a with
  | Start c r q => nonzero 32 c ∧ field_ok r ∧ field_ok q
  | FinishRegistration h u i k e p =>
      nonzero 16 h ∧ field_ok u ∧ field_ok i ∧ field_ok (text_bytes k) ∧ field_ok e ∧ field_ok p
  | FinishLogin h f => nonzero 16 h ∧ field_ok f
  end.

Definition action_kind (a : AccountBootstrapAction) : byte :=
  match a with
  | Start _ _ _ => ACTION_START
  | FinishRegistration _ _ _ _ _ _ => ACTION_FINISH_REGISTRATION
  | FinishLogin _ _ => ACTION_FINISH_LOGIN
  end.

Definition action_payload (a : AccountBootstrapAction) : bytes :=
  match a with
  | Start c r q => c ++ field r ++ field q
  | FinishRegistration h u i k e p =>
      h ++ field u ++ field i ++ field (text_bytes k) ++ field e ++ field p
  | FinishLogin h f => h ++ field f
  end.

Definition result_typed (a : AccountBootstrapResult) : Prop :=
  match a with
  | Failure => True
  | LoginStart h _ _ k _ => array 16 h ∧ utf8 k
  | RegistrationStart h _ _ | RegistrationContinuation h _ => array 16 h
  | Session s _ _ _ n _ k _ => array 32 s ∧ utf8 n ∧ utf8 k
  end.

Definition result_ok (a : AccountBootstrapResult) : Prop :=
  match a with
  | Failure => True
  | LoginStart h c i k e =>
      nonzero 16 h ∧ field_ok c ∧ field_ok i ∧ field_ok (text_bytes k) ∧ field_ok e
  | RegistrationStart h r c => nonzero 16 h ∧ field_ok r ∧ field_ok c
  | RegistrationContinuation h c => nonzero 16 h ∧ field_ok c
  | Session s _ m t n i k e =>
      nonzero 32 s ∧ within MIN_MAX_ROOMS_PER_USER MAX_MAX_ROOMS_PER_USER m ∧
      within MIN_SESSION_INACTIVITY_SEC MAX_SESSION_INACTIVITY_SEC t ∧
      field_ok (text_bytes n) ∧ field_ok i ∧ field_ok (text_bytes k) ∧ field_ok e
  end.

Definition result_kind (a : AccountBootstrapResult) : byte :=
  match a with
  | Failure => RESULT_FAILURE
  | LoginStart _ _ _ _ _ => RESULT_LOGIN_START
  | RegistrationStart _ _ _ => RESULT_REGISTRATION_START
  | RegistrationContinuation _ _ => RESULT_REGISTRATION_CONTINUATION
  | Session _ _ _ _ _ _ _ _ => RESULT_SESSION
  end.

Definition result_payload (a : AccountBootstrapResult) : bytes :=
  match a with
  | Failure => []
  | LoginStart h c i k e => h ++ field c ++ field i ++ field (text_bytes k) ++ field e
  | RegistrationStart h r c => h ++ field r ++ field c
  | RegistrationContinuation h c => h ++ field c
  | Session s b m t n i k e =>
      s ++ [bool_byte b] ++ be_bytes 4 m ++ be_bytes 4 t ++ field (text_bytes n) ++ field i
        ++ field (text_bytes k) ++ field e
  end.

Lemma put_bytes_Ok output v out : put_bytes output v = Ok out ↔ field_ok v ∧ out = output ++ field v.
Proof.
  unfold put_bytes, field_ok. split.
  - intros Hr. apply bind_Ok in Hr as (? & Hc & Hr). open_enc.
    apply bind_Ok in Hr as (n & [? ->]%try_u32_Ok & [= <-]). split; [|done]. split; [done|lia].
  - intros [[H1 H2] ->]. rewrite !bool_decide_false by (done || lia). simpl.
    apply bind_Ok. exists (len v). split; [|done]. apply try_u32_Ok. split; [|done].
    revert H2. unfold MAX_ACCOUNT_BOOTSTRAP_FIELD_BYTES, u32_MAX. lia.
Qed.
Lemma put_bytes_run output v : field_ok v → put_bytes output v = Ok (output ++ field v).
Proof. intros. by apply put_bytes_Ok. Qed.
Lemma require_nonzero_Ok n v u : require_nonzero n v = Ok u ↔ nonzero n v.
Proof. unfold require_nonzero, nonzero. by rewrite reject_if_Ok, bool_decide_eq_false. Qed.
Lemma outside_false lo hi v : outside lo hi v = false ↔ within lo hi v.
Proof. unfold outside, within. rewrite negb_false_iff, andb_true_iff, !bool_decide_eq_true. done. Qed.
Lemma session_policy_Ok m t u :
  validate_session_policy m t = Ok u ↔
  within MIN_MAX_ROOMS_PER_USER MAX_MAX_ROOMS_PER_USER m ∧
  within MIN_SESSION_INACTIVITY_SEC MAX_SESSION_INACTIVITY_SEC t.
Proof.
  unfold validate_session_policy. by rewrite reject_if_Ok, orb_false_iff, !outside_false.
Qed.

Ltac put_parts := repeat match goal with
  | H : _ ≫= _ = Ok _ |- _ => apply bind_Ok in H as (? & ? & H)
  | H : put_text _ _ = Ok _ |- _ => apply put_bytes_Ok in H as [? ->]
  | H : put_bytes _ _ = Ok _ |- _ => apply put_bytes_Ok in H as [? ->]
  | H : require_nonzero _ _ = Ok _ |- _ => apply require_nonzero_Ok in H
  | H : validate_session_policy _ _ = Ok _ |- _ => apply session_policy_Ok in H
  end.
Ltac put_all := repeat first
  [ rewrite (proj2 (require_nonzero_Ok _ _ tt)) by done; simpl
  | rewrite (proj2 (session_policy_Ok _ _ tt)) by done; simpl
  | rewrite put_bytes_run by done; simpl ].

Lemma account_encode_action_Ok :
  envelope_encodes MAX_BOOTSTRAP_PLAINTEXT_BYTES action_typed
    (λ a k p, action_typed a ∧ action_ok a ∧ k = action_kind a ∧ p = action_payload a)
    (@encode_account_bootstrap_action).
Proof.
  intros EN a out Ht. unfold encode_account_bootstrap_action, pad. rewrite bind_Ok. split.
  - intros ([p k] & Hp & Hout). exists k, p. split; [|done]. split; [done|].
    destruct a; put_parts; simplify_eq; simpl; rewrite <- ?(assoc_L (++)); by split_and!.
  - intros (k & p & (_ & Hok & -> & ->) & Hout). exists (action_payload a, action_kind a). split; [|done].
    destruct a; simpl in *; destruct_and? Hok; unfold put_text; put_all; by rewrite <- ?(assoc_L (++)).
Qed.

Lemma account_encode_result_Ok :
  envelope_encodes MAX_BOOTSTRAP_PLAINTEXT_BYTES result_typed
    (λ a k p, result_typed a ∧ result_ok a ∧ k = result_kind a ∧ p = result_payload a)
    (@encode_account_bootstrap_result).
Proof.
  intros EN a out Ht. unfold encode_account_bootstrap_result, pad. rewrite bind_Ok. split.
  - intros ([p k] & Hp & Hout). exists k, p. split; [|done]. split; [done|].
    destruct a; put_parts; simplify_eq; simpl; rewrite <- ?(assoc_L (++)); naive_solver.
  - intros (k & p & (_ & Hok & -> & ->) & Hout). exists (result_payload a, result_kind a). split; [|done].
    destruct a; simpl in *; destruct_and? Hok; unfold put_text; put_all; by rewrite <- ?(assoc_L (++)).
Qed.

(** ** The readers describe them *)

Lemma codec_nonzero n :
  codec (take_nonzero_array n) (λ v enc, (array (Z.of_nat n) v ∧ nonzero n v) ∧ enc = v).
Proof.
  eapply codec_ext; [unfold take_nonzero_array; describe|].
  intros v enc. unfold array. split.
  - intros H. open_enc. rewrite app_nil_r.
    match goal with H : is_ok _ = true |- _ => apply is_ok_Ok in H as [? ?%require_nonzero_Ok] end.
    done.
  - intros [[H1 H2] ->]. exists v, v, []. rewrite app_nil_r.
    rewrite (proj2 (require_nonzero_Ok n v tt)) by done. done.
Qed.

Lemma codec_bool : codec take_bool (λ b enc, True ∧ enc = [bool_byte b]).
Proof.
  unfold take_bool. eapply codec_ext.
  { apply (codec_bind _ _ (λ c enc, True ∧ enc = [c]) (λ c b enc, c = bool_byte b ∧ enc = []));
      [apply codec_take_u8|].
    intros c _ _. repeat case_bool_decide; subst.
    - eapply codec_ext; [apply codec_ret|]. intros [] ?; simpl; naive_solver.
    - eapply codec_ext; [apply codec_ret|]. intros [] ?; simpl; naive_solver.
    - eapply codec_ext; [apply codec_fail|]. intros [] ?; simpl; naive_solver. }
  intros b enc. split; [intros; by open_enc|]. intros [_ ->]. by exists (bool_byte b), [bool_byte b], [].
Qed.

Lemma codec_between lo hi : 0 ≤ lo → hi ≤ u32_MAX →
  codec (take_between lo hi) (λ v enc, within lo hi v ∧ enc = be_bytes 4 v).
Proof.
  intros Hlo Hhi. eapply codec_ext; [unfold take_between, take_u32; describe|].
  intros v enc. unfold uint_enc. split.
  - intros. open_enc. rewrite app_nil_r. by rewrite outside_false in *.
  - intros [H ->]. exists v, (be_bytes 4 v), []. rewrite app_nil_r, outside_false.
    change (256 ^ _) with (u32_MAX + 1). unfold within in *. split_and!; done || lia.
Qed.

Lemma codec_bytes : codec take_bytes (λ v enc, field_ok v ∧ enc = field v).
Proof.
  unfold take_bytes, take_u32. eapply codec_ext.
  { apply codec_bind; [apply codec_take_uint|]. intros n ? [Hn _].
    apply codec_guard. intros _. apply codec_take_raw. lia. }
  intros v enc. unfold uint_enc, field_ok. split.
  - intros. open_enc. split; [|done]. split; [|lia]. intros ->. done.
  - intros [[H1 H2] ->]. exists (len v), (be_bytes 4 (len v)), v.
    assert (0 < len v) by (destruct v; [done|rewrite len_cons; pose proof (len_nonneg v); lia]).
    split_and!; [done|lia| |done| |done|done].
    + revert H2. unfold MAX_ACCOUNT_BOOTSTRAP_FIELD_BYTES. change (256 ^ _) with 4294967296. lia.
    + by rewrite !bool_decide_false by lia.
Qed.

Lemma codec_text :
  codec take_text (λ s enc, (utf8 s ∧ field_ok (text_bytes s)) ∧ enc = field (text_bytes s)).
Proof.
  unfold take_text. eapply codec_ext.
  { apply codec_bind; [apply codec_bytes|]. intros v ? _. describe. }
  intros s enc. unfold utf8. split.
  - intros. open_enc. by rewrite app_nil_r, text_bytes_text.
  - intros [[H1 H2] ->]. exists (text_bytes s), (field (text_bytes s)), [].
    rewrite app_nil_r, H1, bytes_text_bytes. done.
Qed.

Lemma codec_rooms : codec take_session_max_rooms_per_user
  (λ v enc, within MIN_MAX_ROOMS_PER_USER MAX_MAX_ROOMS_PER_USER v ∧ enc = be_bytes 4 v).
Proof. by apply codec_between. Qed.
Lemma codec_inactivity : codec take_session_inactivity_sec
  (λ v enc, within MIN_SESSION_INACTIVITY_SEC MAX_SESSION_INACTIVITY_SEC v ∧ enc = be_bytes 4 v).
Proof. by apply codec_between. Qed.
#[export] Hint Resolve codec_nonzero codec_bool codec_bytes codec_text codec_rooms codec_inactivity
  : codecs.

(** Compare the described encodings of a kind with the payload of a value. *)
Ltac expose := cbn [action_typed action_ok action_kind action_payload
  result_typed result_ok result_kind result_payload] in *; rewrite <- ?(assoc_L (++)).
Ltac compare a := split;
  [ intros; open_enc; try done; expose; by split_and!
  | intros (? & ? & ? & ->); destruct a; try done; expose; destruct_and?; supply; try done ].

Lemma account_action_fields_codec k :
  codec (action_fields k)
    (λ a p, action_typed a ∧ action_ok a ∧ k = action_kind a ∧ p = action_payload a).
Proof.
  unfold action_fields. repeat case_bool_decide; subst;
    (eapply codec_ext; [describe|]); intros a p; cbv beta;
    rewrite <- (app_nil_r (action_payload a)); compare a.
Qed.

Lemma account_result_fields_codec k :
  codec (result_fields k)
    (λ a p, result_typed a ∧ result_ok a ∧ k = result_kind a ∧ p = result_payload a).
Proof.
  unfold result_fields. repeat case_bool_decide; subst;
    (eapply codec_ext; [describe|]); intros a p; cbv beta;
    rewrite <- (app_nil_r (result_payload a)); compare a.
Qed.

Lemma len_field_pos v l k : len (l ++ field v ++ k) ≠ 0.
Proof.
  unfold field. rewrite !len_app, len_be_bytes.
  pose proof (len_nonneg l). pose proof (len_nonneg v). pose proof (len_nonneg k). lia.
Qed.

Lemma action_payload_pos a : len (action_payload a) ≠ 0.
Proof.
  destruct a; simpl; try apply len_field_pos.
  rewrite <- (app_nil_r (field _)). apply len_field_pos.
Qed.

Lemma result_payload_pos a : a ≠ Failure → len (result_payload a) ≠ 0.
Proof.
  destruct a; cbn [result_payload]; intros; try done; try apply len_field_pos.
  - rewrite <- (app_nil_r (field _)). apply len_field_pos.
  - do 3 rewrite (assoc_L (++)). apply len_field_pos.
Qed.

Lemma account_action_codec pt a :
  decode_account_bootstrap_action pt = Ok a ↔
  action_typed a ∧ fillable (@encode_account_bootstrap_action) a pt.
Proof.
  apply (envelope_roundtrip MAX_BOOTSTRAP_PLAINTEXT_BYTES _ _ _ _ _ ltac:(done)
           account_encode_action_Ok account_action_fields_codec).
  intros x k p (Ht & _ & -> & ->). split; [done|].
  rewrite (bool_decide_false (len _ = 0)) by apply action_payload_pos. by destruct x.
Qed.

Lemma account_result_codec pt a :
  decode_account_bootstrap_result pt = Ok a ↔
  result_typed a ∧ fillable (@encode_account_bootstrap_result) a pt.
Proof.
  apply (envelope_roundtrip MAX_BOOTSTRAP_PLAINTEXT_BYTES _ _ _ _ _ ltac:(done)
           account_encode_result_Ok account_result_fields_codec).
  intros x k p (Ht & _ & -> & ->). split; [done|]. assert (x = Failure ∨ x ≠ Failure) as [->|Hx] by (destruct x; (by left) || (by right)); [done|].
  rewrite (bool_decide_false (len _ = 0)) by (by apply result_payload_pos). by destruct x.
Qed.

(** The decoders of account bootstrap messages accept exactly what the
    encoders produce, with whatever random padding, for the same value; a
    decoded value has the widths and the UTF-8 text its Rust type has. *)
Theorem account_bootstrap_codec pt a b :
  (decode_account_bootstrap_action pt = Ok a ↔
   action_typed a ∧ fillable (@encode_account_bootstrap_action) a pt) ∧
  (decode_account_bootstrap_result pt = Ok b ↔
   result_typed b ∧ fillable (@encode_account_bootstrap_result) b pt).
Proof. split; [apply account_action_codec|apply account_result_codec]. Qed.
