(* ===== verification/Attachment.v ===== *)
(** * Attachment control messages (abyssal-transport/src/attachment.rs)

    Actions and results of attachment transfers, in fixed-size padded
    messages, and the frame counts both ends derive from a length. *)

From S2P Require Import Prelude TransportWire TransportReader.

Definition ATTACHMENT_ACTION_PLAINTEXT_BYTES : Z := 4096.
Definition ATTACHMENT_STREAM_PAYLOAD_BYTES : Z := 256 * 1024.
Definition ATTACHMENT_STREAM_PLAINTEXT_BYTES : Z := 8 + ATTACHMENT_STREAM_PAYLOAD_BYTES.
Definition ATTACHMENT_STREAM_HEADER_BYTES : Z := 16.
Definition ATTACHMENT_STREAM_FRAME_BYTES : Z :=
  ATTACHMENT_STREAM_HEADER_BYTES + ATTACHMENT_STREAM_PLAINTEXT_BYTES + 16.
Definition MAX_ATTACHMENT_CHAT_ID_BYTES : Z := 128.
Definition MAX_ATTACHMENT_MESSAGE_ID_BYTES : Z := 128.
Definition MAX_ATTACHMENT_TTL_SEC : Z := 30 * 24 * 60 * 60.
Definition MAX_ATTACHMENT_BUCKET_FRAMES : Z := 1024.
Definition MAX_ATTACHMENT_CIPHERTEXT_BYTES : Z := 800 * 262201.

Definition CODEC_HEADER_BYTES : Z := 8.
Definition ACTION_BEGIN_UPLOAD : byte := Byte.x01.
Definition ACTION_BEGIN_DOWNLOAD : byte := Byte.x02.
Definition ACTION_COMPLETE_DOWNLOAD : byte := Byte.x03.
Definition ACTION_RELEASE_DOWNLOAD : byte := Byte.x04.
Definition ACTION_DELETE_ATTACHMENT : byte := Byte.x05.
Definition RESULT_FAILURE : byte := Byte.x00.
Definition RESULT_SUCCESS : byte := Byte.x01.
Definition RESULT_UPLOAD_ACCEPTED : byte := Byte.x02.
Definition RESULT_DOWNLOAD_ACCEPTED : byte := Byte.x03.
Definition FLAG_ONE_TIME : Z := 1.
Definition FLAG_DELETE_AFTER_DOWNLOAD : Z := 2.
Definition FLAG_HAS_CLAIM : Z := 1.

Inductive AttachmentMediaType : Type := Image | Video | File.

(** [media_type as u8] and [AttachmentMediaType::from_byte]. *)
Definition media_byte (t : AttachmentMediaType) : byte :=
  match t with Image => Byte.x01 | Video => Byte.x02 | File => Byte.x03 end.
Definition media_from_byte (value : byte) : res AttachmentMediaType :=
  if bool_decide (value = Byte.x01) then Ok Image
  else if bool_decide (value = Byte.x02) then Ok Video
  else if bool_decide (value = Byte.x03) then Ok File
  else Err NonCanonical.

Record Upload : Type := mkUpload {
  up_chat_id : string;
  up_message_id : string;
  up_media_type : AttachmentMediaType;
  up_cipher_version : byte;
  up_ciphertext_len : Z;
  up_ciphertext_sha256 : bytes;
  up_one_time : bool;
  up_delete_after_download : bool;
  up_requested_ttl_sec : Z
}.

Inductive AttachmentAction : Type :=
| BeginUpload (upload : Upload)
| BeginDownload (attachment_id : bytes)
| CompleteDownload (attachment_id : bytes) (claim_id : option bytes)
| ReleaseDownload (attachment_id : bytes) (claim_id : option bytes)
| DeleteAttachment (attachment_id : bytes).

Inductive AttachmentResult : Type :=
| Failure
| Success
| UploadAccepted (attachment_id : bytes)
| DownloadAccepted (claim_id : option bytes) (ciphertext_len : Z) (ciphertext_sha256 : bytes)
    (data_frame_count bucket_frame_count : Z).

(** ** Frame counts *)

Definition attachment_data_frame_count (ciphertext_len : Z) : res Z :=
  _ ← reject_if
        (bool_decide (ciphertext_len = 0)
         || bool_decide (MAX_ATTACHMENT_CIPHERTEXT_BYTES < ciphertext_len)) InvalidInput;
  let capacity := ATTACHMENT_STREAM_PAYLOAD_BYTES in
  total ← ok_or (checked_add u64_MAX ciphertext_len (capacity - 1)) TooLarge;
  try_u16 (total / capacity).

(** [u16::checked_next_power_of_two]. *)
Definition checked_next_power_of_two (n : Z) : option Z :=
  let p := 2 ^ Z.log2_up n in if bool_decide (p ≤ u16_MAX) then Some p else None.

Definition attachment_bucket_frame_count (data_frames : Z) : res Z :=
  _ ← reject_if
        (bool_decide (data_frames = 0) || bool_decide (MAX_ATTACHMENT_BUCKET_FRAMES < data_frames))
        InvalidInput;
  ok_or
    (match checked_next_power_of_two data_frames with
     | Some count => if bool_decide (count ≤ MAX_ATTACHMENT_BUCKET_FRAMES) then Some count else None
     | None => None
     end) TooLarge.

(** ** Validation *)

(** [u8::is_ascii_alphanumeric], or underscore or hyphen. *)
Definition identifier_byte (b : byte) : bool :=
  between 48 57 b || between 65 90 b || between 97 122 b
  || bool_decide (byte_Z b = 95) || bool_decide (byte_Z b = 45).

Definition validate_identifier (value : string) (maximum : Z) : res () :=
  _ ← reject_if (bool_decide (value = EmptyString) || bool_decide (maximum < slen value))
        (if bool_decide (maximum < slen value) then TooLarge else InvalidInput);
  reject_if (negb (forallb identifier_byte (text_bytes value))) InvalidInput.

Definition validate_upload (chat_id message_id : string) (cipher_version : byte)
    (ciphertext_len : Z) (ciphertext_sha256 : bytes) (requested_ttl_sec : Z) : res () :=
  _ ← validate_identifier chat_id MAX_ATTACHMENT_CHAT_ID_BYTES;
  _ ← validate_identifier message_id MAX_ATTACHMENT_MESSAGE_ID_BYTES;
  _ ← reject_if
        (bool_decide (cipher_version = Byte.x00) || bool_decide (ciphertext_sha256 = zeros 32)
         || bool_decide (MAX_ATTACHMENT_TTL_SEC < requested_ttl_sec)) InvalidInput;
  _ ← attachment_data_frame_count ciphertext_len;
  Ok tt.

Definition validate_download_result (ciphertext_len : Z) (ciphertext_sha256 : bytes)
    (data_frame_count bucket_frame_count : Z) : res () :=
  _ ← reject_if (bool_decide (ciphertext_sha256 = zeros 32)) InvalidInput;
  data ← attachment_data_frame_count ciphertext_len;
  _ ← reject_if (bool_decide (data ≠ data_frame_count)) InvalidInput;
  bucket ← attachment_bucket_frame_count data_frame_count;
  reject_if (bool_decide (bucket ≠ bucket_frame_count)) InvalidInput.

(** ** Encoding *)

Definition put_identifier (output : bytes) (value : string) (maximum : Z) : res bytes :=
  _ ← validate_identifier value maximum;
  length ← try_u16 (slen value);
  Ok (output ++ be_bytes 2 length ++ text_bytes value).

Definition put_nonzero_id (output id : bytes) : res bytes :=
  _ ← reject_if (bool_decide (id = zeros 16)) InvalidInput;
  Ok (output ++ id).

(** [u8::from(b)]. *)
Definition bool_byte (b : bool) : byte := if b then Byte.x01 else Byte.x00.

Definition put_optional_id (output : bytes) (id : option bytes) : res bytes :=
  let output := output ++ [bool_byte (bool_decide (is_Some id))] ++ zeros 3 in
  match id with
  | Some id => put_nonzero_id output id
  | None => Ok output
  end.

Section encode.
Context {EN : Entropy}.

Definition encode_envelope (kind flags : byte) (payload : bytes) : res bytes :=
  payload_len ← try_u16 (len payload);
  _ ← reject_if
        (bool_decide (ATTACHMENT_ACTION_PLAINTEXT_BYTES - CODEC_HEADER_BYTES < len payload))
        TooLarge;
  padded ATTACHMENT_ACTION_PLAINTEXT_BYTES
    ([CODEC_VERSION; kind; flags; Byte.x00] ++ be_bytes 2 payload_len ++ zeros 2) payload.

Definition upload_flags (one_time delete_after_download : bool) : byte :=
  Z_byte (Z.lor (Z.b2z one_time * FLAG_ONE_TIME)
            (Z.b2z delete_after_download * FLAG_DELETE_AFTER_DOWNLOAD)).

Definition encode_attachment_action (action : AttachmentAction) : res bytes :=
  '(kind, flags, payload) ←
    match action with
    | BeginUpload u =>
        _ ← validate_upload (up_chat_id u) (up_message_id u) (up_cipher_version u)
              (up_ciphertext_len u) (up_ciphertext_sha256 u) (up_requested_ttl_sec u);
        payload ← put_identifier [] (up_chat_id u) MAX_ATTACHMENT_CHAT_ID_BYTES;
        payload ← put_identifier payload (up_message_id u) MAX_ATTACHMENT_MESSAGE_ID_BYTES;
        Ok (ACTION_BEGIN_UPLOAD, upload_flags (up_one_time u) (up_delete_after_download u),
            payload ++ [media_byte (up_media_type u); up_cipher_version u] ++ be_bytes 2 0
              ++ be_bytes 8 (up_ciphertext_len u) ++ up_ciphertext_sha256 u
              ++ be_bytes 4 (up_requested_ttl_sec u))
    | BeginDownload attachment_id =>
        payload ← put_nonzero_id [] attachment_id;
        Ok (ACTION_BEGIN_DOWNLOAD, Byte.x00, payload)
    | CompleteDownload attachment_id claim_id =>
        payload ← put_nonzero_id [] attachment_id;
        payload ← put_optional_id payload claim_id;
        Ok (ACTION_COMPLETE_DOWNLOAD, Byte.x00, payload)
    | ReleaseDownload attachment_id claim_id =>
        payload ← put_nonzero_id [] attachment_id;
        payload ← put_optional_id payload claim_id;
        Ok (ACTION_RELEASE_DOWNLOAD, Byte.x00, payload)
    | DeleteAttachment attachment_id =>
        payload ← put_nonzero_id [] attachment_id;
        Ok (ACTION_DELETE_ATTACHMENT, Byte.x00, payload)
    end;
  encode_envelope kind flags payload.

Definition encode_attachment_result (result : AttachmentResult) : res bytes :=
  '(kind, flags, payload) ←
    match result with
    | Failure => Ok (RESULT_FAILURE, Byte.x00, [])
    | Success => Ok (RESULT_SUCCESS, Byte.x00, [])
    | UploadAccepted attachment_id =>
        payload ← put_nonzero_id [] attachment_id;
        Ok (RESULT_UPLOAD_ACCEPTED, Byte.x00, payload)
    | DownloadAccepted claim_id ciphertext_len ciphertext_sha256 data bucket =>
        _ ← validate_download_result ciphertext_len ciphertext_sha256 data bucket;
        payload ← match claim_id with
                  | Some id => put_nonzero_id [] id
                  | None => Ok []
                  end;
        Ok (RESULT_DOWNLOAD_ACCEPTED, bool_byte (bool_decide (is_Some claim_id)),
            payload ++ be_bytes 8 ciphertext_len ++ ciphertext_sha256 ++ be_bytes 2 data
              ++ be_bytes 2 bucket)
    end;
  encode_envelope kind flags payload.
End encode.

(** ** Decoding *)

Definition decode_envelope (plaintext : bytes) : res (byte * byte * Reader) :=
  _ ← reject_if
        (bool_decide (len plaintext ≠ ATTACHMENT_ACTION_PLAINTEXT_BYTES)
         || bool_decide (plaintext !! 0%nat ≠ Some CODEC_VERSION)
         || bool_decide (plaintext !! 3%nat ≠ Some Byte.x00)
         || bool_decide (slice 6 8 plaintext ≠ zeros 2)) NonCanonical;
  let payload_len := be_value (slice 4 6 plaintext) in
  _ ← reject_if
        (bool_decide (ATTACHMENT_ACTION_PLAINTEXT_BYTES - CODEC_HEADER_BYTES < payload_len))
        NonCanonical;
  kind ← ok_or (plaintext !! 1%nat) NonCanonical;
  flags ← ok_or (plaintext !! 2%nat) NonCanonical;
  Ok (kind, flags,
      reader_new (slice CODEC_HEADER_BYTES (CODEC_HEADER_BYTES + payload_len) plaintext)).

Definition take_identifier (maximum : Z) : RD string :=
  length ← take_u16;
  value ← take_raw length;
  _ ← lift (reject_if (negb (utf8_valid value)) NonCanonical);
  _ ← lift (reject_if (negb (is_ok (validate_identifier (bytes_text value) maximum)))
              NonCanonical);
  mret (bytes_text value).

Definition take_nonzero_id : RD bytes :=
  id ← take_array 16;
  _ ← lift (reject_if (bool_decide (id = zeros 16)) NonCanonical);
  mret id.

Definition take_optional_id : RD (option bytes) :=
  present ← take_u8;
  reserved ← take_raw 3;
  _ ← lift (reject_if (bool_decide (reserved ≠ zeros 3)) NonCanonical);
  if bool_decide (present = Byte.x00) then mret None
  else if bool_decide (present = Byte.x01) then id ← take_nonzero_id; mret (Some id)
  else lift (Err NonCanonical).

(** [flags & !mask != 0] and [flags & flag != 0] on [u8]. *)
Definition flags_beyond (mask : Z) (flags : byte) : bool :=
  bool_decide (Z.land (byte_Z flags) (Z.lxor 255 mask) ≠ 0).
Definition has_flag (flag : Z) (flags : byte) : bool :=
  bool_decide (Z.land (byte_Z flags) flag ≠ 0).
Definition require_zero_flags (flags : byte) : res () :=
  reject_if (bool_decide (flags ≠ Byte.x00)) NonCanonical.

Definition upload_fields (flags : byte) : RD AttachmentAction :=
  _ ← lift (reject_if
        (flags_beyond (Z.lor FLAG_ONE_TIME FLAG_DELETE_AFTER_DOWNLOAD) flags) NonCanonical);
  chat_id ← take_identifier MAX_ATTACHMENT_CHAT_ID_BYTES;
  message_id ← take_identifier MAX_ATTACHMENT_MESSAGE_ID_BYTES;
  media ← take_u8;
  media_type ← lift (media_from_byte media);
  cipher_version ← take_u8;
  reserved ← take_u16;
  _ ← lift (reject_if (bool_decide (reserved ≠ 0)) NonCanonical);
  ciphertext_len ← take_u64;
  ciphertext_sha256 ← take_array 32;
  requested_ttl_sec ← take_u32;
  _ ← lift (reject_if
        (negb (is_ok (validate_upload chat_id message_id cipher_version ciphertext_len
                        ciphertext_sha256 requested_ttl_sec))) NonCanonical);
  mret (BeginUpload (mkUpload chat_id message_id media_type cipher_version ciphertext_len
    ciphertext_sha256 (has_flag FLAG_ONE_TIME flags) (has_flag FLAG_DELETE_AFTER_DOWNLOAD flags)
    requested_ttl_sec)).

(** The fields of each kind: the [match] of the decoders. *)
Definition action_fields (kind flags : byte) : RD AttachmentAction :=
  if bool_decide (kind = ACTION_BEGIN_UPLOAD) then upload_fields flags
  else if bool_decide (kind = ACTION_BEGIN_DOWNLOAD) then
    _ ← lift (require_zero_flags flags);
    attachment_id ← take_nonzero_id;
    mret (BeginDownload attachment_id)
  else if bool_decide (kind = ACTION_COMPLETE_DOWNLOAD)
          || bool_decide (kind = ACTION_RELEASE_DOWNLOAD) then
    _ ← lift (require_zero_flags flags);
    attachment_id ← take_nonzero_id;
    claim_id ← take_optional_id;
    mret (if bool_decide (kind = ACTION_COMPLETE_DOWNLOAD)
          then CompleteDownload attachment_id claim_id
          else ReleaseDownload attachment_id claim_id)
  else if bool_decide (kind = ACTION_DELETE_ATTACHMENT) then
    _ ← lift (require_zero_flags flags);
    attachment_id ← take_nonzero_id;
    mret (DeleteAttachment attachment_id)
  else lift (Err NonCanonical).

Definition decode_attachment_action (plaintext : bytes) : res AttachmentAction :=
  '(kind, flags, reader) ← decode_envelope plaintext;
  read_all (action_fields kind flags) reader.

Definition download_fields (flags : byte) : RD AttachmentResult :=
  _ ← lift (reject_if (flags_beyond FLAG_HAS_CLAIM flags) NonCanonical);
  claim_id ← (if has_flag FLAG_HAS_CLAIM flags then id ← take_nonzero_id; mret (Some id)
              else mret None);
  ciphertext_len ← take_u64;
  ciphertext_sha256 ← take_array 32;
  data_frame_count ← take_u16;
  bucket_frame_count ← take_u16;
  _ ← lift (reject_if
        (negb (is_ok (validate_download_result ciphertext_len ciphertext_sha256
                        data_frame_count bucket_frame_count))) NonCanonical);
  mret (DownloadAccepted claim_id ciphertext_len ciphertext_sha256 data_frame_count
          bucket_frame_count).

Definition result_fields (kind flags : byte) : RD AttachmentResult :=
  if bool_decide (kind = RESULT_FAILURE) then
    _ ← lift (require_zero_flags flags); mret Failure
  else if bool_decide (kind = RESULT_SUCCESS) then
    _ ← lift (require_zero_flags flags); mret Success
  else if bool_decide (kind = RESULT_UPLOAD_ACCEPTED) then
    _ ← lift (require_zero_flags flags);
    attachment_id ← take_nonzero_id;
    mret (UploadAccepted attachment_id)
  else if bool_decide (kind = RESULT_DOWNLOAD_ACCEPTED) then download_fields flags
  else lift (Err NonCanonical).

Definition decode_attachment_result (plaintext : bytes) : res AttachmentResult :=
  '(kind, flags, reader) ← decode_envelope plaintext;
  read_all (result_fields kind flags) reader.
