(* ===== verification/AttachmentCodec.v ===== *)
(** * Attachment control messages: the decoders invert the encoders *)

From S2P Require Import Prelude TransportWire TransportReader Attachment.

(** ** Values and their encodings *)

Definition id_ok (id : bytes) : Prop := len id = 16 ∧ id ≠ zeros 16.
Definition opt_ok (o : option bytes) : Prop := ∀ id, o = Some id → id_ok id.
Definition identifier (value : string) : bytes := be_bytes 2 (slen value) ++ text_bytes value.
Definition optional_id (o : option bytes) : bytes :=
  [bool_byte (bool_decide (is_Some o))] ++ zeros 3 ++ default [] o.

(** Widths of arrays and integers of the source. *)
Definition id_typed (id : bytes) : Prop := len id = 16.
Definition opt_typed (o : option bytes) : Prop := ∀ id, o = Some id → id_typed id.

Definition action_typed (a : AttachmentAction) : Prop :=
  match a with
  | BeginUpload u =>
      len (up_ciphertext_sha256 u) = 32 ∧ 0 ≤ up_ciphertext_len u ≤ u64_MAX ∧
      0 ≤ up_requested_ttl_sec u ≤ u32_MAX
  | BeginDownload id | DeleteAttachment id => id_typed id
  | CompleteDownload id c | ReleaseDownload id c => id_typed id ∧ opt_typed c
  end.

Definition upload_ok (u : Upload) : Prop :=
  validate_upload (up_chat_id u) (up_message_id u) (up_cipher_version u)
    (up_ciphertext_len u) (up_ciphertext_sha256 u) (up_requested_ttl_sec u) = Ok tt.

Definition action_ok (a : AttachmentAction) : Prop :=
  match a with
  | BeginUpload u => upload_ok u
  | BeginDownload id | DeleteAttachment id => id_ok id
  | CompleteDownload id c | ReleaseDownload id c => id_ok id ∧ opt_ok c
  end.

Definition action_kind (a : AttachmentAction) : byte :=
  match a with
  | BeginUpload _ => ACTION_BEGIN_UPLOAD
  | BeginDownload _ => ACTION_BEGIN_DOWNLOAD
  | CompleteDownload _ _ => ACTION_COMPLETE_DOWNLOAD
  | ReleaseDownload _ _ => ACTION_RELEASE_DOWNLOAD
  | DeleteAttachment _ => ACTION_DELETE_ATTACHMENT
  end.

Definition action_flags (a : AttachmentAction) : byte :=
  match a with
  | BeginUpload u => upload_flags (up_one_time u) (up_delete_after_download u)
  | _ => Byte.x00
  end.

Definition action_payload (a : AttachmentAction) : bytes :=
  match a with
  | BeginUpload u =>
      identifier (up_chat_id u) ++ identifier (up_message_id u) ++ [media_byte (up_media_type u)]
        ++ [up_cipher_version u] ++ be_bytes 2 0 ++ be_bytes 8 (up_ciphertext_len u)
        ++ up_ciphertext_sha256 u ++ be_bytes 4 (up_requested_ttl_sec u)
  | BeginDownload id | DeleteAttachment id => id
  | CompleteDownload id c | ReleaseDownload id c => id ++ optional_id c
  end.

Definition result_typed (a : AttachmentResult) : Prop :=
  match a with
  | Failure | Success => True
  | UploadAccepted id => id_typed id
  | DownloadAccepted c n h d b =>
      opt_typed c ∧ 0 ≤ n ≤ u64_MAX ∧ len h = 32 ∧ 0 ≤ d ≤ u16_MAX ∧ 0 ≤ b ≤ u16_MAX
  end.

Definition result_ok (a : AttachmentResult) : Prop :=
  match a with
  | Failure | Success => True
  | UploadAccepted id => id_ok id
  | DownloadAccepted c n h d b => opt_ok c ∧ validate_download_result n h d b = Ok tt
  end.

Definition result_kind (a : AttachmentResult) : byte :=
  match a with
  | Failure => RESULT_FAILURE
  | Success => RESULT_SUCCESS
  | UploadAccepted _ => RESULT_UPLOAD_ACCEPTED
  | DownloadAccepted _ _ _ _ _ => RESULT_DOWNLOAD_ACCEPTED
  end.

Definition result_flags (a : AttachmentResult) : byte :=
  match a with
  | DownloadAccepted c _ _ _ _ => bool_byte (bool_decide (is_Some c))
  | _ => Byte.x00
  end.

Definition result_payload (a : AttachmentResult) : bytes :=
  match a with
  | Failure | Success => []
  | UploadAccepted id => id
  | DownloadAccepted c n h d b =>
      default [] c ++ be_bytes 8 n ++ h ++ be_bytes 2 d ++ be_bytes 2 b
  end.

(** ** The readers describe them *)

Lemma validate_identifier_Ok v m u :
  validate_identifier v m = Ok u ↔
  v ≠ EmptyString ∧ slen v ≤ m ∧ forallb identifier_byte (text_bytes v) = true.
Proof.
  unfold validate_identifier. split.
  - intros Hr. apply bind_Ok in Hr as (? & Hc & Hr). open_enc. split_and!; [done|lia|done].
  - intros (? & ? & H). rewrite !bool_decide_false by (done || lia). simpl. rewrite H. by destruct u.
Qed.

Lemma identifier_ascii l : forallb identifier_byte l = true → is_ascii l = true.
Proof.
  unfold is_ascii. rewrite !forallb_forall. intros H b Hb. apply H in Hb.
  unfold identifier_byte, between in Hb. apply bool_decide_eq_true.
  rewrite !orb_true_iff, !andb_true_iff, !bool_decide_eq_true in Hb. lia.
Qed.

Lemma media_from_byte_Ok b t : media_from_byte b = Ok t ↔ b = media_byte t.
Proof.
  unfold media_from_byte. repeat case_bool_decide; subst; destruct t; simpl;
    split; intros; simplify_eq; done.
Qed.

Lemma upload_flags_exact flags :
  flags_beyond (Z.lor FLAG_ONE_TIME FLAG_DELETE_AFTER_DOWNLOAD) flags = false →
  flags = upload_flags (has_flag FLAG_ONE_TIME flags) (has_flag FLAG_DELETE_AFTER_DOWNLOAD flags).
Proof. destruct flags; by vm_compute. Qed.
Lemma upload_flags_read a b :
  flags_beyond (Z.lor FLAG_ONE_TIME FLAG_DELETE_AFTER_DOWNLOAD) (upload_flags a b) = false ∧
  has_flag FLAG_ONE_TIME (upload_flags a b) = a ∧
  has_flag FLAG_DELETE_AFTER_DOWNLOAD (upload_flags a b) = b.
Proof. by destruct a, b. Qed.
Lemma claim_flag_exact flags :
  flags_beyond FLAG_HAS_CLAIM flags = false ↔ flags = bool_byte (has_flag FLAG_HAS_CLAIM flags).
Proof. split; destruct flags; by vm_compute. Qed.
Lemma claim_flag_read b : has_flag FLAG_HAS_CLAIM (bool_byte b) = b.
Proof. by destruct b. Qed.

Lemma codec_identifier m : m ≤ u16_MAX →
  codec (take_identifier m) (λ s enc, validate_identifier s m = Ok tt ∧ enc = identifier s).
Proof.
  intros Hm. unfold take_identifier, take_u16. eapply codec_ext.
  { apply codec_bind; [apply codec_take_uint|]. intros n ? [Hn _].
    apply codec_bind; [apply codec_take_raw; lia|]. intros v ? _. describe. }
  intros s enc. unfold identifier, uint_enc. split.
  - intros. open_enc. rewrite app_nil_r, <- len_text_bytes, text_bytes_text.
    match goal with H : is_ok _ = true |- _ => apply is_ok_Ok in H as [[] H] end. done.
  - intros [H ->]. pose proof H as (? & ? & Hi)%validate_identifier_Ok.
    exists (slen s), (be_bytes 2 (slen s)), (text_bytes s). pose proof (slen_nonneg s).
    split_and!; [done|lia| |done|].
    { unfold u16_MAX in *. change (256 ^ _) with 65536. lia. }
    exists (text_bytes s), (text_bytes s), []. rewrite app_nil_r, len_text_bytes, bytes_text_bytes, H.
    by rewrite is_ascii_utf8 by (by apply identifier_ascii).
Qed.

Lemma codec_id : codec take_nonzero_id (λ v enc, id_ok v ∧ enc = v).
Proof.
  eapply codec_ext; [unfold take_nonzero_id; describe|]. intros v enc. unfold id_ok. split.
  - intros. open_enc. by rewrite app_nil_r.
  - intros [[H1 H2] ->]. exists v, v, []. by rewrite app_nil_r, bool_decide_false.
Qed.

Lemma codec_some_id :
  codec (id ← take_nonzero_id; mret (Some id)) (λ o enc, ∃ v, o = Some v ∧ id_ok v ∧ enc = v).
Proof. apply (codec_fmap _ Some). apply codec_id. Qed.

Lemma opt_ok_None : opt_ok None.
Proof. done. Qed.
Lemma opt_ok_Some id : opt_ok (Some id) ↔ id_ok id.
Proof. unfold opt_ok. naive_solver. Qed.

Ltac settle := split; intros; open_enc; simplify_eq; try done; eauto 6.

Lemma codec_optional : codec take_optional_id (λ o enc, opt_ok o ∧ enc = optional_id o).
Proof.
  unfold take_optional_id. eapply codec_ext.
  { apply codec_bind; [apply codec_take_u8|]. intros c _ _.
    apply codec_bind; [by apply codec_take_raw|]. intros r _ _.
    apply (codec_guard _ _ _ (λ o enc, opt_ok o ∧ c = bool_byte (bool_decide (is_Some o)) ∧
                                enc = default [] o)).
    intros _. repeat case_bool_decide; subst.
    - eapply codec_ext; [apply codec_ret|]. intros [id|] enc; simpl.
      + settle.
      + settle.
    - eapply codec_ext; [apply codec_some_id|]. intros [id|] enc; simpl.
      + rewrite opt_ok_Some. settle.
      + settle.
    - eapply codec_ext; [apply codec_fail|]. intros [id|] enc; case_bool_decide; settle. }
  intros o enc. unfold optional_id. split.
  - intros. open_enc. done.
  - intros [Ho ->]. do 3 eexists. split_and!; [reflexivity|done|done|].
    exists (zeros 3), (zeros 3), (default [] o). by rewrite bool_decide_false by naive_solver.
Qed.

Lemma codec_claim flags : flags_beyond FLAG_HAS_CLAIM flags = false →
  codec (if has_flag FLAG_HAS_CLAIM flags then id ← take_nonzero_id; mret (Some id) else mret None)
    (λ o enc, (opt_ok o ∧ flags = bool_byte (bool_decide (is_Some o))) ∧ enc = default [] o).
Proof.
  intros Hf%claim_flag_exact. rewrite Hf, claim_flag_read.
  destruct (has_flag _ _).
  - eapply codec_ext; [apply codec_some_id|]. intros [id|] enc; simpl.
    + rewrite opt_ok_Some. settle.
    + settle.
  - eapply codec_ext; [apply codec_ret|]. intros [id|] enc; simpl.
    + settle.
    + settle.
Qed.

Lemma codec_chat_id : codec (take_identifier MAX_ATTACHMENT_CHAT_ID_BYTES)
  (λ s enc, validate_identifier s MAX_ATTACHMENT_CHAT_ID_BYTES = Ok tt ∧ enc = identifier s).
Proof. by apply codec_identifier. Qed.
#[export] Hint Resolve codec_id codec_optional codec_chat_id : codecs.

Lemma id_ok_typed id : id_ok id → id_typed id.
Proof. by intros []. Qed.
Lemma opt_ok_typed o : opt_ok o → opt_typed o.
Proof. intros H id Hid. by apply id_ok_typed, H. Qed.
#[export] Hint Resolve id_ok_typed opt_ok_typed : codecs.

(** What a message of a kind and flags carries. *)
Definition action_rel (a : AttachmentAction) (k f : byte) (p : bytes) : Prop :=
  action_typed a ∧ action_ok a ∧ k = action_kind a ∧ f = action_flags a ∧ p = action_payload a.
Definition result_rel (a : AttachmentResult) (k f : byte) (p : bytes) : Prop :=
  result_typed a ∧ result_ok a ∧ k = result_kind a ∧ f = result_flags a ∧ p = result_payload a.

Ltac expose := cbn [action_typed action_ok action_kind action_flags action_payload
  result_typed result_ok result_kind result_flags result_payload up_chat_id up_message_id
  up_media_type up_cipher_version up_ciphertext_len up_ciphertext_sha256 up_one_time
  up_delete_after_download up_requested_ttl_sec] in *; rewrite <- ?(assoc_L (++)).
Ltac widths := repeat match goal with
  | H : uint_enc _ _ _ |- _ => destruct H as [? ->]
  | H : context [256 ^ Z.of_nat 8] |- _ => change (256 ^ Z.of_nat 8) with (u64_MAX + 1) in H
  | H : context [256 ^ Z.of_nat 4] |- _ => change (256 ^ Z.of_nat 4) with (u32_MAX + 1) in H
  | H : context [256 ^ Z.of_nat 2] |- _ => change (256 ^ Z.of_nat 2) with (u16_MAX + 1) in H
  | H : is_ok _ = true |- _ => apply is_ok_Ok in H as [[] H]
  | H : media_from_byte _ = Ok _ |- _ => apply media_from_byte_Ok in H as ->
  end.
(** The next part of a described message; its validity is left. *)
Ltac part := eexists; eexists; eexists; (split; [reflexivity|]); (split; [refine (conj _ eq_refl)|]).

Lemma validate_upload_ids u : upload_ok u →
  validate_identifier (up_chat_id u) MAX_ATTACHMENT_CHAT_ID_BYTES = Ok tt ∧
  validate_identifier (up_message_id u) MAX_ATTACHMENT_CHAT_ID_BYTES = Ok tt.
Proof.
  unfold upload_ok, validate_upload. intros ([] & ? & H)%bind_Ok.
  by apply bind_Ok in H as ([] & ? & _).
Qed.

Lemma upload_fields_codec flags :
  codec (upload_fields flags) (λ a p, action_rel a ACTION_BEGIN_UPLOAD flags p).
Proof.
  unfold upload_fields, take_u16, take_u32, take_u64. eapply codec_ext; [describe|].
  intros a p. cbv beta. unfold action_rel. rewrite <- (app_nil_r (action_payload a)). split.
  - intros. open_enc. widths. expose. split_and!; try done; try lia. by apply upload_flags_exact.
  - intros (Ht & Hok & Hk & -> & ->). destruct a as [u| | | |]; try done.
    destruct (validate_upload_ids u Hok) as [Hc Hm]. unfold upload_ok in Hok. expose.
    destruct (upload_flags_read (up_one_time u) (up_delete_after_download u)) as (Hf & H1 & H2).
    split; [done|]. part; [done|]. part; [done|]. part; [done|].
    eexists. split; [by apply media_from_byte_Ok|].
    part; [done|]. part; [done|]. split; [done|].
    part; [change (256 ^ _) with (u64_MAX + 1); lia|]. part; [by apply Ht|].
    part; [change (256 ^ _) with (u32_MAX + 1); lia|].
    rewrite Hok, H1, H2. split_and!; [done| |done]. by destruct u.
Qed.

Lemma download_fields_codec flags :
  codec (download_fields flags) (λ a p, result_rel a RESULT_DOWNLOAD_ACCEPTED flags p).
Proof.
  unfold download_fields, take_u16, take_u64. eapply codec_ext.
  { apply codec_guard. intros Hf. apply codec_bind; [by apply codec_claim|]. intros ? ? _. describe. }
  intros a p. cbv beta. unfold result_rel. rewrite <- (app_nil_r (result_payload a)). split.
  - intros. open_enc. widths. expose. split_and!; try done; try lia; by apply opt_ok_typed.
  - intros (Ht & Hok & Hk & -> & ->). destruct a as [| | |c n h d b]; try done. expose.
    split; [apply claim_flag_exact; by rewrite claim_flag_read|].
    part; [by destruct Hok|].
    part; [change (256 ^ _) with (u64_MAX + 1); lia|]. part; [by apply Ht|].
    do 2 (part; [change (256 ^ _) with (u16_MAX + 1); lia|]).
    destruct Hok as [_ ->]. done.
Qed.

Ltac compare a := split;
  [ intros; open_enc; try done; expose; split_and!; by eauto with codecs
  | intros (? & ? & ? & -> & ->); destruct a; try done; expose; destruct_and?;
    (split; [done|]); repeat (part; [done|]); try done ].

Lemma attachment_action_fields_codec k f : codec (action_fields k f) (λ a p, action_rel a k f p).
Proof.
  unfold action_fields. case_bool_decide; [subst; apply upload_fields_codec|].
  repeat case_bool_decide; subst; simpl orb; cbv iota;
    (eapply codec_ext; [unfold require_zero_flags; describe|]); intros a p; cbv beta;
    unfold action_rel;
    rewrite <- (app_nil_r (action_payload a)); compare a.
Qed.

Lemma attachment_result_fields_codec k f : codec (result_fields k f) (λ a p, result_rel a k f p).
Proof.
  unfold result_fields.
  repeat case_bool_decide; subst; try apply download_fields_codec;
    (eapply codec_ext; [unfold require_zero_flags; describe|]); intros a p; cbv beta;
    unfold result_rel;
    rewrite <- (app_nil_r (result_payload a)); compare a.
Qed.

(** ** Envelopes *)

Definition header (kind flags : byte) (n : Z) : bytes :=
  [CODEC_VERSION; kind; flags; Byte.x00] ++ be_bytes 2 n ++ zeros 2.
Lemma len_header k f n : len (header k f n) = 8.
Proof. done. Qed.

Lemma decode_envelope_Ok pt k f r :
  decode_envelope pt = Ok (k, f, r) ↔
  ∃ p tail, pt = header k f (len p) ++ p ++ tail ∧ len pt = 4096 ∧ r = reader_new p.
Proof.
  unfold decode_envelope, ATTACHMENT_ACTION_PLAINTEXT_BYTES, CODEC_HEADER_BYTES. split.
  - intros Hr. apply bind_Ok in Hr as (? & Hc & Hr). apply bind_Ok in Hr as (? & Hn & Hr).
    apply bind_Ok in Hr as (k' & Hk & Hr). apply bind_Ok in Hr as (f' & Hf & [= -> -> <-]).
    apply ok_or_Ok in Hk, Hf. open_enc. set (n := be_value (slice 4 6 pt)) in *.
    pose proof (be_value_range (slice 4 6 pt)).
    exists (slice 8 (8 + n) pt), (slice (8 + n) (len pt) pt). split_and!; [|done..].
    assert (slice 0 1 pt = [CODEC_VERSION]) as E0 by (by apply (slice_lookup pt 0)).
    assert (slice 1 2 pt = [k]) as E1 by (by apply (slice_lookup pt 1)).
    assert (slice 2 3 pt = [f]) as E2 by (by apply (slice_lookup pt 2)).
    assert (slice 3 4 pt = [Byte.x00]) as E3 by (by apply (slice_lookup pt 3)).
    rewrite (len_slice 8) by lia. unfold header. replace (8 + n - 8) with n by lia.
    assert (be_bytes 2 n = slice 4 6 pt) as ->.
    { assert (length (slice 4 6 pt) = 2%nat) as E.
      { assert (len (slice 4 6 pt) = 2) as E by (rewrite len_slice; lia). unfold len in E. lia. }
      pose proof (be_bytes_be_value (slice 4 6 pt)) as E'. by rewrite E in E'. }
    transitivity (slice 0 (len pt) pt); [by rewrite slice_all|].
    rewrite (slice_split 0 1), (slice_split 1 2), (slice_split 2 3), (slice_split 3 4),
      (slice_split 4 6), (slice_split 6 8), (slice_split 8 (8 + n)) by lia.
    rewrite E0, E1, E2, E3. match goal with E : slice 6 8 pt = _ |- _ => rewrite E end.
    by rewrite <- !(assoc_L (++)).
  - intros (p & tail & -> & Hl & ->). rewrite Hl. rewrite !len_app, len_header in Hl.
    pose proof (len_nonneg p). pose proof (len_nonneg tail).
    change ((header k f (len p) ++ _) !! 0%nat) with (Some CODEC_VERSION).
    change ((header k f (len p) ++ _) !! 1%nat) with (Some k).
    change ((header k f (len p) ++ _) !! 2%nat) with (Some f).
    change ((header k f (len p) ++ _) !! 3%nat) with (Some Byte.x00).
    change (slice 6 8 _) with (zeros 2). change (slice 4 6 _) with (be_bytes 2 (len p)).
    rewrite be_value_be_bytes by (change (256 ^ _) with 65536; lia).
    rewrite slice_app by (rewrite len_header; lia).
    by rewrite (bool_decide_false (_ < _)) by lia.
Qed.

Lemma encode_envelope_Ok `{EL : EntropyLaws} k f p out :
  encode_envelope k f p = Ok out →
  ∃ tail, out = header k f (len p) ++ p ++ tail ∧ len out = 4096.
Proof.
  unfold encode_envelope. intros (n & [? ->]%try_u16_Ok & Hr)%bind_Ok.
  apply bind_Ok in Hr as (? & _ & Hr). by apply padded_Ok.
Qed.

Lemma encode_envelope_constant k f p tail :
  len (header k f (len p) ++ p ++ tail) = 4096 →
  @encode_envelope (constant_entropy tail) k f p = Ok (header k f (len p) ++ p ++ tail).
Proof.
  intros Hl. pose proof Hl as Hl'. rewrite !len_app, len_header in Hl'.
  pose proof (len_nonneg tail). unfold encode_envelope, try_u16.
  unfold ATTACHMENT_ACTION_PLAINTEXT_BYTES, CODEC_HEADER_BYTES.
  rewrite !bool_decide_false by (unfold u16_MAX; lia). by apply padded_constant.
Qed.

(** Encoder and decoder of the same kinds agree on whole messages. *)
Lemma attachment_roundtrip {A} (typed : A → Prop) (rel : A → byte → byte → bytes → Prop)
    (fields : byte → byte → RD A) (enc : ∀ {EN : Entropy}, A → res bytes) :
  (∀ (EN : Entropy) a out, typed a →
    enc a = Ok out ↔ ∃ k f p, rel a k f p ∧ encode_envelope k f p = Ok out) →
  (∀ k f, codec (fields k f) (λ a p, rel a k f p)) →
  (∀ a k f p, rel a k f p → typed a) →
  ∀ pt a,
    ('(k, f, r) ← decode_envelope pt; read_all (fields k f) r) = Ok a ↔
    typed a ∧ fillable (@enc) a pt.
Proof.
  intros Henc Hdec Hrel pt a. rewrite bind_Ok. split.
  - intros ([[k f] r] & (p & tail & -> & Hl & ->)%decode_envelope_Ok & Hr).
    apply (read_all_Ok _ _ _ _ (Hdec k f)) in Hr.
    2:{ rewrite !len_app, len_header in Hl. pose proof (len_nonneg tail). unfold usize_MAX. lia. }
    pose proof (Hrel _ _ _ _ Hr). split; [done|].
    exists (constant_entropy tail). split; [apply constant_entropy_laws|].
    apply Henc; [done|]. exists k, f, p. split; [done|]. by apply encode_envelope_constant.
  - intros (Ht & EN & EL & (k & f & p & Hr & Hp)%Henc); [|done].
    apply encode_envelope_Ok in Hp as (tail & -> & Hl). exists (k, f, reader_new p). split.
    + apply decode_envelope_Ok. by exists p, tail.
    + apply (read_all_Ok _ _ _ _ (Hdec k f)); [|done].
      rewrite !len_app, len_header in Hl. pose proof (len_nonneg tail). unfold usize_MAX. lia.
Qed.

(** ** The encoders *)

Lemma put_identifier_Ok o v m out : m ≤ u16_MAX →
  put_identifier o v m = Ok out ↔ validate_identifier v m = Ok tt ∧ out = o ++ identifier v.
Proof.
  intros Hm. unfold put_identifier. split.
  - intros ([] & ? & Hr)%bind_Ok. by apply bind_Ok in Hr as (n & [? ->]%try_u16_Ok & [= <-]).
  - intros [Hv ->]. pose proof Hv as (_ & ? & _)%validate_identifier_Ok. rewrite Hv. simpl.
    apply bind_Ok. exists (slen v). split; [|done]. apply try_u16_Ok. lia.
Qed.
Lemma put_identifier_run o v m : m ≤ u16_MAX → validate_identifier v m = Ok tt →
  put_identifier o v m = Ok (o ++ identifier v).
Proof. intros. by apply put_identifier_Ok. Qed.
Lemma put_nonzero_id_Ok o id out : id_typed id →
  put_nonzero_id o id = Ok out ↔ id_ok id ∧ out = o ++ id.
Proof.
  intros Ht. unfold put_nonzero_id, id_ok. rewrite bind_Ok. setoid_rewrite reject_if_Ok.
  split.
  - intros (? & ?%bool_decide_eq_false & [= <-]). done.
  - intros [[_ H] ->]. exists tt. by rewrite bool_decide_false.
Qed.
Lemma put_optional_id_Ok o id out : opt_typed id →
  put_optional_id o id = Ok out ↔ opt_ok id ∧ out = o ++ optional_id id.
Proof.
  intros Ht. unfold put_optional_id, optional_id. destruct id as [id|]; simpl.
  - rewrite put_nonzero_id_Ok by (by apply Ht). rewrite opt_ok_Some, <- (assoc_L (++)). done.
  - split; [intros [= <-]; done|]. by intros [_ ->].
Qed.

Ltac put_parts := repeat match goal with
  | H : _ ≫= _ = Ok _ |- _ => apply bind_Ok in H as (? & ? & H)
  | H : put_identifier _ _ _ = Ok _ |- _ => apply put_identifier_Ok in H as [? ->]; [|done]
  | H : put_nonzero_id _ _ = Ok _ |- _ => apply put_nonzero_id_Ok in H as [? ->]; [|by auto]
  | H : put_optional_id _ _ = Ok _ |- _ => apply put_optional_id_Ok in H as [? ->]; [|done]
  end.

Lemma attachment_encode_action_Ok (EN : Entropy) a out : action_typed a →
  encode_attachment_action a = Ok out ↔
  ∃ k f p, action_rel a k f p ∧ encode_envelope k f p = Ok out.
Proof.
  intros Ht. unfold encode_attachment_action, action_rel. rewrite bind_Ok. split.
  - intros ([[k f] p] & Hp & Hout). exists k, f, p. split; [|done]. split; [done|].
    destruct a; cbn [action_typed] in Ht; destruct_and?; put_parts; simplify_eq; expose;
      rewrite ?app_nil_l; try by split_and!.
    match goal with x : () |- _ => destruct x end. by split_and!.
  - intros (k & f & p & (_ & Hok & -> & -> & ->) & Hout).
    exists (action_kind a, action_flags a, action_payload a). split; [|done].
    destruct a as [u|id|id c|id c|id]; expose.
    + destruct (validate_upload_ids u Hok) as [Hc Hm]. unfold upload_ok in Hok. rewrite Hok. cbn [mbind result_bind].
      rewrite put_identifier_run by done. cbn [mbind result_bind].
      rewrite put_identifier_run by done. cbn [mbind result_bind].
      by rewrite <- !(assoc_L (++)).
    + by rewrite (proj2 (put_nonzero_id_Ok [] _ _ Ht) (conj Hok eq_refl)).
    + destruct Ht as [Ht1 Ht2], Hok as [Hok1 Hok2].
      rewrite (proj2 (put_nonzero_id_Ok [] _ _ Ht1) (conj Hok1 eq_refl)). simpl.
      by rewrite (proj2 (put_optional_id_Ok _ _ _ Ht2) (conj Hok2 eq_refl)).
    + destruct Ht as [Ht1 Ht2], Hok as [Hok1 Hok2].
      rewrite (proj2 (put_nonzero_id_Ok [] _ _ Ht1) (conj Hok1 eq_refl)). simpl.
      by rewrite (proj2 (put_optional_id_Ok _ _ _ Ht2) (conj Hok2 eq_refl)).
    + by rewrite (proj2 (put_nonzero_id_Ok [] _ _ Ht) (conj Hok eq_refl)).
Qed.

Lemma attachment_encode_result_Ok (EN : Entropy) a out : result_typed a →
  encode_attachment_result a = Ok out ↔
  ∃ k f p, result_rel a k f p ∧ encode_envelope k f p = Ok out.
Proof.
  intros Ht. unfold encode_attachment_result, result_rel. rewrite bind_Ok. split.
  - intros ([[k f] p] & Hp & Hout). exists k, f, p. split; [|done]. split; [done|].
    destruct a as [| |id|c n h d b]; cbn [result_typed] in Ht; [by simplify_eq..| |].
    + put_parts. by simplify_eq.
    + destruct_and?. apply bind_Ok in Hp as ([] & Hv & Hp). apply bind_Ok in Hp as (q & Hq & [= <- <- <-]).
      expose. destruct c as [id|]; [|by simplify_eq].
      apply put_nonzero_id_Ok in Hq as [? ->]; [|by auto]. by rewrite opt_ok_Some.
  - intros (k & f & p & (_ & Hok & -> & -> & ->) & Hout).
    exists (result_kind a, result_flags a, result_payload a). split; [|done].
    destruct a as [| |id|c n h d b]; expose; [done..| |].
    + by rewrite (proj2 (put_nonzero_id_Ok [] _ _ Ht) (conj Hok eq_refl)).
    + destruct Hok as [Hc ->]. simpl. destruct c as [id|]; [|done].
      rewrite opt_ok_Some in Hc.
      by rewrite (proj2 (put_nonzero_id_Ok [] _ _ (id_ok_typed _ Hc)) (conj Hc eq_refl)).
Qed.

(** C40: the decoders of attachment messages accept exactly what the encoders
    produce, with whatever random padding, for the same value; a decoded
    value has the widths of its Rust type. *)
Theorem attachment_codec pt a b :
  (decode_attachment_action pt = Ok a ↔
   action_typed a ∧ fillable (@encode_attachment_action) a pt) ∧
  (decode_attachment_result pt = Ok b ↔
   result_typed b ∧ fillable (@encode_attachment_result) b pt).
Proof.
  split.
  - apply (attachment_roundtrip _ action_rel); [apply attachment_encode_action_Ok|apply attachment_action_fields_codec|].
    by intros ???? [].
  - apply (attachment_roundtrip _ result_rel); [apply attachment_encode_result_Ok|apply attachment_result_fields_codec|].
    by intros ???? [].
Qed.
