(* ===== verification/AttachmentStream.v ===== *)
(** * Attachment streams (abyssal-transport/src/attachment.rs)

    A stream carries one attachment in a fixed number of equal frames: data
    frames, padding up to a power of two, and one end frame. *)

From S2P Require Import Prelude TransportWire TransportReader Attachment.

Definition STREAM_MAGIC : bytes := text_bytes "ABS1".
Definition STREAM_CONTEXT_DOMAIN : bytes := text_bytes "ABYSSAL-TRANSPORT-V11-ATTACHMENT-STREAM".
Definition STREAM_PROTOCOL : bytes := text_bytes "ATTACHMENT-STREAM".
Definition FRAME_DATA : byte := Byte.x01.
Definition FRAME_PADDING : byte := Byte.x02.
Definition FRAME_END : byte := Byte.x03.

Inductive AttachmentFrame : Type :=
| Data (payload : bytes)
| Padding
| End_.

Record AttachmentStreamBinding : Type := mkStreamBinding {
  sb_node_public_key : bytes;
  sb_session_id : bytes;
  sb_operation_handle : bytes
}.

Definition stream_binding (node_public_key session_id operation_handle : bytes) :
    res AttachmentStreamBinding :=
  _ ← reject_if
        (bool_decide (node_public_key = zeros 32) || bool_decide (session_id = zeros 32)
         || bool_decide (operation_handle = zeros 16)) InvalidInput;
  Ok (mkStreamBinding node_public_key session_id operation_handle).

Definition stream_context (b : AttachmentStreamBinding) : bytes :=
  canonical_parts
    [STREAM_CONTEXT_DOMAIN; sb_node_public_key b; sb_session_id b; sb_operation_handle b].

(** ** Layout *)

Record StreamLayout : Type := mkLayout {
  sl_ciphertext_len : Z;
  sl_data_frames : Z;
  sl_bucket_frames : Z
}.

Definition stream_layout (ciphertext_len : Z) : res StreamLayout :=
  data_frames ← attachment_data_frame_count ciphertext_len;
  bucket_frames ← attachment_bucket_frame_count data_frames;
  Ok (mkLayout ciphertext_len data_frames bucket_frames).

Definition expected_data_len (l : StreamLayout) (data_frames_seen : Z) : res Z :=
  _ ← reject_if (bool_decide (sl_data_frames l ≤ data_frames_seen)) CounterGap;
  seen ← ok_or (checked_mul u64_MAX data_frames_seen ATTACHMENT_STREAM_PAYLOAD_BYTES) TooLarge;
  rest ← ok_or (checked_sub (sl_ciphertext_len l) seen) NonCanonical;
  Ok (Z.min rest ATTACHMENT_STREAM_PAYLOAD_BYTES).

(** ** Records *)

Definition stream_header (direction : Direction) (counter : Z) : bytes :=
  STREAM_MAGIC ++ [TRANSPORT_VERSION; direction_byte direction] ++ zeros 2 ++ be_bytes 8 counter.

Definition decode_stream_record (record : bytes) : res (bytes * Direction * Z * bytes) :=
  _ ← reject_if (bool_decide (len record ≠ ATTACHMENT_STREAM_FRAME_BYTES)) NonCanonical;
  let header := slice 0 ATTACHMENT_STREAM_HEADER_BYTES record in
  _ ← reject_if
        (bool_decide (slice 0 4 header ≠ STREAM_MAGIC)
         || bool_decide (header !! 4%nat ≠ Some TRANSPORT_VERSION)
         || bool_decide (slice 6 8 header ≠ zeros 2)) NonCanonical;
  d ← ok_or (header !! 5%nat) NonCanonical;
  direction ← direction_from_byte d;
  counter ← read_u64 (slice 8 16 header);
  Ok (header, direction, counter, slice ATTACHMENT_STREAM_HEADER_BYTES (len record) record).

Definition frame_plaintext {EN : Entropy} (kind : byte) (payload : bytes) : res bytes :=
  _ ← reject_if
        (bool_decide (ATTACHMENT_STREAM_PAYLOAD_BYTES < len payload)
         || bool_decide (kind = FRAME_DATA) && bool_decide (payload = [])
         || bool_decide (kind ≠ FRAME_DATA)
            && (bool_decide (payload ≠ [])
                || negb (bool_decide (kind = FRAME_PADDING) || bool_decide (kind = FRAME_END))))
        InvalidInput;
  length ← try_u32 (len payload);
  padded ATTACHMENT_STREAM_PLAINTEXT_BYTES ([kind] ++ zeros 3 ++ be_bytes 4 length) payload.

Definition decode_frame_plaintext (plaintext : bytes) : res AttachmentFrame :=
  _ ← reject_if
        (bool_decide (len plaintext ≠ ATTACHMENT_STREAM_PLAINTEXT_BYTES)
         || bool_decide (slice 1 4 plaintext ≠ zeros 3)) NonCanonical;
  payload_len ← read_u32 (slice 4 8 plaintext);
  _ ← reject_if (bool_decide (ATTACHMENT_STREAM_PAYLOAD_BYTES < payload_len)) NonCanonical;
  kind ← ok_or (head plaintext) NonCanonical;
  if bool_decide (kind = FRAME_DATA) && bool_decide (0 < payload_len)
  then Ok (Data (slice 8 (8 + payload_len) plaintext))
  else if bool_decide (kind = FRAME_PADDING) && bool_decide (payload_len = 0) then Ok Padding
  else if bool_decide (kind = FRAME_END) && bool_decide (payload_len = 0) then Ok End_
  else Err NonCanonical.

Definition stream_nonce (direction : Direction) (counter : Z) : bytes :=
  zeros 3 ++ [direction_byte direction] ++ be_bytes 8 counter.

(** ** Sealer and opener *)

(** [AttachmentStreamSealer] and [AttachmentStreamOpener] have the same
    fields. *)
Record StreamEnd : Type := mkStreamEnd {
  se_key : bytes;
  se_context : bytes;
  se_direction : Direction;
  se_layout : StreamLayout;
  se_next_counter : Z;
  se_data_frames : Z;
  se_padding_frames : Z;
  se_bytes_seen : Z;
  se_ended : bool
}.
Definition se_set_counter (v : Z) (e : StreamEnd) : StreamEnd :=
  mkStreamEnd (se_key e) (se_context e) (se_direction e) (se_layout e) v
    (se_data_frames e) (se_padding_frames e) (se_bytes_seen e) (se_ended e).
Definition se_set_data (v : Z) (e : StreamEnd) : StreamEnd :=
  mkStreamEnd (se_key e) (se_context e) (se_direction e) (se_layout e) (se_next_counter e)
    v (se_padding_frames e) (se_bytes_seen e) (se_ended e).
Definition se_set_padding (v : Z) (e : StreamEnd) : StreamEnd :=
  mkStreamEnd (se_key e) (se_context e) (se_direction e) (se_layout e) (se_next_counter e)
    (se_data_frames e) v (se_bytes_seen e) (se_ended e).
Definition se_set_bytes (v : Z) (e : StreamEnd) : StreamEnd :=
  mkStreamEnd (se_key e) (se_context e) (se_direction e) (se_layout e) (se_next_counter e)
    (se_data_frames e) (se_padding_frames e) v (se_ended e).
Definition se_set_ended (v : bool) (e : StreamEnd) : StreamEnd :=
  mkStreamEnd (se_key e) (se_context e) (se_direction e) (se_layout e) (se_next_counter e)
    (se_data_frames e) (se_padding_frames e) (se_bytes_seen e) v.

Abbreviation STREAM := (ST StreamEnd TransportError).

Section binding.
Context {HK : Hkdf}.

Definition into_sealer (b : AttachmentStreamBinding) (transport_root : bytes)
    (direction : Direction) (ciphertext_len : Z) : res StreamEnd :=
  layout ← stream_layout ciphertext_len;
  let context := stream_context b in
  key ← derive_record_key transport_root STREAM_PROTOCOL direction context;
  Ok (mkStreamEnd key context direction layout 0 0 0 0 false).

Definition into_opener (b : AttachmentStreamBinding) (transport_root : bytes)
    (direction : Direction) (ciphertext_len data_frame_count bucket_frame_count : Z) :
    res StreamEnd :=
  layout ← stream_layout ciphertext_len;
  _ ← reject_if
        (bool_decide (sl_data_frames layout ≠ data_frame_count)
         || bool_decide (sl_bucket_frames layout ≠ bucket_frame_count)) InvalidInput;
  let context := stream_context b in
  key ← derive_record_key transport_root STREAM_PROTOCOL direction context;
  Ok (mkStreamEnd key context direction layout 0 0 0 0 false).
End binding.

Definition stream_aad (header context : bytes) : bytes :=
  canonical_parts [header; STREAM_CONTEXT_DOMAIN; context].

Section ends.
Context {AE : Aead}.

Section sealer.
Context {EN : Entropy}.

(** [AttachmentStreamSealer::seal]. *)
Definition stream_seal (kind : byte) (payload : bytes) : STREAM bytes :=
  self ← get;
  _ ← lift (reject_if (bool_decide (se_next_counter self = u64_MAX)) CounterExhausted);
  let counter := se_next_counter self in
  let header := stream_header (se_direction self) counter in
  plaintext ← lift (frame_plaintext kind payload);
  let aad := stream_aad header (se_context self) in
  let nonce := stream_nonce (se_direction self) counter in
  ciphertext ← lift (ok_or (encrypt (se_key self) nonce aad plaintext) AuthenticationFailed);
  let record := header ++ ciphertext in
  _ ← lift (reject_if (bool_decide (len record ≠ ATTACHMENT_STREAM_FRAME_BYTES)) NonCanonical);
  next ← lift (ok_or (checked_add u64_MAX (se_next_counter self) 1) CounterExhausted);
  _ ← modify (se_set_counter next);
  mret record.

Definition seal_data (payload : bytes) : STREAM bytes :=
  self ← get;
  _ ← lift (reject_if (se_ended self || bool_decide (se_padding_frames self ≠ 0)) CounterGap);
  expected ← lift (expected_data_len (se_layout self) (se_data_frames self));
  _ ← lift (reject_if (bool_decide (len payload ≠ expected)) InvalidInput);
  record ← stream_seal FRAME_DATA payload;
  data ← lift (ok_or (checked_add u16_MAX (se_data_frames self) 1) CounterExhausted);
  _ ← modify (se_set_data data);
  seen ← lift (ok_or (checked_add u64_MAX (se_bytes_seen self) (len payload)) TooLarge);
  _ ← modify (se_set_bytes seen);
  mret record.

Definition seal_padding : STREAM bytes :=
  self ← get;
  _ ← lift (reject_if
        (se_ended self
         || bool_decide (se_data_frames self ≠ sl_data_frames (se_layout self))
         || bool_decide (sl_bucket_frames (se_layout self)
                           ≤ se_data_frames self + se_padding_frames self)) CounterGap);
  record ← stream_seal FRAME_PADDING [];
  _ ← modify (se_set_padding (se_padding_frames self + 1));
  mret record.

Definition seal_end : STREAM bytes :=
  self ← get;
  _ ← lift (reject_if
        (se_ended self
         || bool_decide (se_bytes_seen self ≠ sl_ciphertext_len (se_layout self))
         || bool_decide (se_data_frames self + se_padding_frames self
                           ≠ sl_bucket_frames (se_layout self))) CounterGap);
  record ← stream_seal FRAME_END [];
  _ ← modify (se_set_ended true);
  mret record.
End sealer.

Definition accept_frame (frame : AttachmentFrame) : STREAM () :=
  self ← get;
  match frame with
  | Data payload =>
      _ ← lift (reject_if (bool_decide (se_padding_frames self ≠ 0)) NonCanonical);
      expected ← lift (expected_data_len (se_layout self) (se_data_frames self));
      _ ← lift (reject_if (bool_decide (len payload ≠ expected)) NonCanonical);
      _ ← modify (se_set_data (se_data_frames self + 1));
      seen ← lift (ok_or (checked_add u64_MAX (se_bytes_seen self) (len payload)) TooLarge);
      modify (se_set_bytes seen)
  | Padding =>
      _ ← lift (reject_if
            (bool_decide (se_data_frames self ≠ sl_data_frames (se_layout self))
             || bool_decide (sl_bucket_frames (se_layout self)
                               ≤ se_data_frames self + se_padding_frames self)) NonCanonical);
      modify (se_set_padding (se_padding_frames self + 1))
  | End_ =>
      _ ← lift (reject_if
            (bool_decide (se_bytes_seen self ≠ sl_ciphertext_len (se_layout self))
             || bool_decide (se_data_frames self + se_padding_frames self
                               ≠ sl_bucket_frames (se_layout self))) NonCanonical);
      modify (se_set_ended true)
  end.

Definition stream_open (record : bytes) : STREAM AttachmentFrame :=
  self ← get;
  _ ← lift (reject_if
        (se_ended self || bool_decide (se_next_counter self = u64_MAX))
        (if bool_decide (se_next_counter self = u64_MAX) then CounterExhausted else Replayed));
  '(header, direction, counter, ciphertext) ← lift (decode_stream_record record);
  _ ← lift (reject_if (bool_decide (direction ≠ se_direction self)) AuthenticationFailed);
  _ ← lift (reject_if (bool_decide (counter < se_next_counter self)) Replayed);
  _ ← lift (reject_if (bool_decide (se_next_counter self < counter)) CounterGap);
  let aad := stream_aad header (se_context self) in
  let nonce := stream_nonce (se_direction self) counter in
  plaintext ← lift (ok_or (decrypt (se_key self) nonce aad ciphertext) AuthenticationFailed);
  frame ← lift (decode_frame_plaintext plaintext);
  _ ← accept_frame frame;
  next ← lift (ok_or (checked_add u64_MAX (se_next_counter self) 1) CounterExhausted);
  _ ← modify (se_set_counter next);
  mret frame.
End ends.
