(* ===== verification/StreamFacts.v ===== *)
(** * Attachment streams: frames, records and steps *)

From S2P Require Import Prelude TransportWire TransportReader Attachment AttachmentStream.
From S2P Require Import RecordChannel.

(** ** Frame counts *)

Lemma data_frame_count_Ok n d :
  0 ≤ n → attachment_data_frame_count n = Ok d →
  0 < n ≤ MAX_ATTACHMENT_CIPHERTEXT_BYTES ∧ 1 ≤ d ≤ MAX_ATTACHMENT_BUCKET_FRAMES ∧
  (d - 1) * ATTACHMENT_STREAM_PAYLOAD_BYTES < n ≤ d * ATTACHMENT_STREAM_PAYLOAD_BYTES.
Proof.
  intros Hn. unfold attachment_data_frame_count. intros Hr.
  apply bind_Ok in Hr as (? & Hc & Hr). apply bind_Ok in Hr as (t & Ht & Hr). open_enc.
  apply ok_or_Ok, checked_add_Some in Ht as [? ->]. apply try_u16_Ok in Hr as [_ ->].
  unfold ATTACHMENT_STREAM_PAYLOAD_BYTES, MAX_ATTACHMENT_CIPHERTEXT_BYTES,
    MAX_ATTACHMENT_BUCKET_FRAMES in *.
  pose proof (Z.div_mod (n + (256 * 1024 - 1)) (256 * 1024) ltac:(lia)).
  pose proof (Z.mod_pos_bound (n + (256 * 1024 - 1)) (256 * 1024) ltac:(lia)).
  lia.
Qed.

Lemma data_frame_count_total n :
  0 < n ≤ MAX_ATTACHMENT_CIPHERTEXT_BYTES → ∃ d, attachment_data_frame_count n = Ok d.
Proof.
  intros Hn. unfold attachment_data_frame_count.
  rewrite !bool_decide_false by lia. simpl.
  unfold ATTACHMENT_STREAM_PAYLOAD_BYTES, MAX_ATTACHMENT_CIPHERTEXT_BYTES in *.
  rewrite checked_add_ok by (unfold u64_MAX; lia). simpl.
  eexists. apply try_u16_Ok. split; [|reflexivity]. unfold u16_MAX.
  apply Z.div_le_upper_bound; lia.
Qed.

Lemma log2_up_10 d : 1 ≤ d ≤ 1024 → 0 ≤ Z.log2_up d ≤ 10.
Proof.
  intros. split; [apply Z.log2_up_nonneg|]. change 10 with (Z.log2_up 1024).
  apply Z.log2_up_le_mono. lia.
Qed.

(** The bucket is the least power of two that holds the data frames. *)
Lemma bucket_frame_count_Ok d b :
  0 ≤ d → attachment_bucket_frame_count d = Ok b →
  1 ≤ d ≤ b ∧ b ≤ MAX_ATTACHMENT_BUCKET_FRAMES ∧ b < 2 * d ∧ ∃ k, 0 ≤ k ∧ b = 2 ^ k.
Proof.
  intros Hd. unfold attachment_bucket_frame_count, checked_next_power_of_two. intros Hr.
  apply bind_Ok in Hr as (? & Hc & Hr). open_enc. apply ok_or_Ok in Hr.
  case_bool_decide; [|done]. case_bool_decide; simplify_eq.
  unfold MAX_ATTACHMENT_BUCKET_FRAMES in *. pose proof (log2_up_10 d ltac:(lia)).
  destruct (decide (d = 1)) as [->|Hd1]; [by split_and!; [..|exists 0]|].
  pose proof (Z.log2_up_spec d ltac:(lia)) as [Hlo Hhi].
  assert (2 ^ Z.log2_up d = 2 * 2 ^ Z.pred (Z.log2_up d)) as E.
  { rewrite <- Z.pow_succ_r by (assert (0 < Z.log2_up d) by (apply Z.log2_up_pos; lia); lia).
    f_equal. lia. }
  split_and!; [lia..|]. exists (Z.log2_up d). lia.
Qed.

Lemma bucket_frame_count_total d :
  1 ≤ d ≤ MAX_ATTACHMENT_BUCKET_FRAMES → ∃ b, attachment_bucket_frame_count d = Ok b.
Proof.
  intros Hd. unfold attachment_bucket_frame_count, checked_next_power_of_two.
  rewrite (bool_decide_false (d = 0)), (bool_decide_false (_ < d)) by lia. simpl. unfold MAX_ATTACHMENT_BUCKET_FRAMES in *.
  assert (2 ^ Z.log2_up d ≤ 1024).
  { change 1024 with (2 ^ 10). apply Z.pow_le_mono_r; [lia|]. by apply log2_up_10. }
  rewrite !bool_decide_true by (unfold u16_MAX; lia). eauto.
Qed.

(** ** Frames *)

Definition frame_kind (f : AttachmentFrame) : byte :=
  match f with Data _ => FRAME_DATA | Padding => FRAME_PADDING | End_ => FRAME_END end.
Definition frame_payload (f : AttachmentFrame) : bytes :=
  match f with Data p => p | _ => [] end.
Definition frame_sized (f : AttachmentFrame) : Prop :=
  match f with Data p => 0 < len p ≤ ATTACHMENT_STREAM_PAYLOAD_BYTES | _ => True end.

Definition frame_header (k : byte) (n : Z) : bytes := [k] ++ zeros 3 ++ be_bytes 4 n.
Lemma len_frame_header k n : len (frame_header k n) = 8.
Proof. done. Qed.

Definition frame_pt (f : AttachmentFrame) (pt : bytes) : Prop :=
  frame_sized f ∧ len pt = ATTACHMENT_STREAM_PLAINTEXT_BYTES ∧
  ∃ tail, pt = frame_header (frame_kind f) (len (frame_payload f)) ++ frame_payload f ++ tail.

Lemma frame_plaintext_Ok `{EL : EntropyLaws} f pt :
  frame_plaintext (frame_kind f) (frame_payload f) = Ok pt → frame_pt f pt.
Proof.
  unfold frame_plaintext. intros Hr. apply bind_Ok in Hr as (? & Hc & Hr). open_enc.
  apply bind_Ok in Hr as (n & [? ->]%try_u32_Ok & Hr). apply padded_Ok in Hr as (tail & -> & Hl).
  split_and!; [|done|by exists tail]. destruct f as [p| |]; simpl in *; try done.
  destruct p; [done|]. rewrite len_cons in *. pose proof (len_nonneg p). lia.
Qed.

Lemma frame_plaintext_run {EN : Entropy} f tail :
  frame_sized f →
  fill (ATTACHMENT_STREAM_PLAINTEXT_BYTES - 8 - len (frame_payload f)) = Some tail →
  frame_plaintext (frame_kind f) (frame_payload f)
    = Ok (frame_header (frame_kind f) (len (frame_payload f)) ++ frame_payload f ++ tail).
Proof.
  intros Hs Hf. assert (len (frame_payload f) ≤ ATTACHMENT_STREAM_PAYLOAD_BYTES) as Hlen.
  { destruct f; simpl in *; [lia|done|done]. }
  unfold frame_plaintext. rewrite (bool_decide_false (_ < _)) by lia.
  assert (bool_decide (frame_kind f = FRAME_DATA) && bool_decide (frame_payload f = []) = false) as ->.
  { destruct f as [p| |]; simpl; try done. destruct p; [|done]. destruct Hs. done. }
  assert (bool_decide (frame_kind f ≠ FRAME_DATA)
    && (bool_decide (frame_payload f ≠ [])
        || negb (bool_decide (frame_kind f = FRAME_PADDING) || bool_decide (frame_kind f = FRAME_END)))
    = false) as -> by (by destruct f).
  go. unfold try_u32. rewrite bool_decide_false.
  2:{ unfold ATTACHMENT_STREAM_PAYLOAD_BYTES, u32_MAX in *. lia. }
  go. unfold padded.
  change (len ([frame_kind f] ++ zeros 3 ++ be_bytes 4 (len (frame_payload f)))) with 8.
  rewrite Hf. done.
Qed.

Lemma decode_frame_Ok pt f : decode_frame_plaintext pt = Ok f ↔ frame_pt f pt.
Proof.
  unfold decode_frame_plaintext, frame_pt. split.
  - intros Hr. apply bind_Ok in Hr as (? & Hc & Hr). apply bind_Ok in Hr as (n & [H4 ->]%read_u32_Ok & Hr).
    apply bind_Ok in Hr as (? & Hn & Hr). apply bind_Ok in Hr as (k & Hk%ok_or_Ok & Hr). open_enc.
    set (n := be_value (slice 4 8 pt)) in *. pose proof (be_value_range (slice 4 8 pt)).
    match goal with H : len pt = _ |- _ => rename H into Hl end.
    unfold ATTACHMENT_STREAM_PLAINTEXT_BYTES in *.
    assert (pt = frame_header k n ++ slice 8 (8 + n) pt ++ slice (8 + n) (len pt) pt) as Hpt.
    { assert (slice 0 1 pt = [k]) as E0.
      { apply (slice_lookup pt 0). by destruct pt. }
      unfold frame_header, n. rewrite be_bytes_of_value by done.
      transitivity (slice 0 (len pt) pt); [by rewrite slice_all|].
      rewrite (slice_split 0 1), (slice_split 1 4), (slice_split 4 8), (slice_split 8 (8 + n)) by lia.
      rewrite E0. fold_known. by rewrite <- !(assoc_L (++)). }
    assert (len (slice 8 (8 + n) pt) = n) as Hs by (rewrite len_slice; lia).
    repeat (case_match; [injection Hr as <-; split_bools; subst k|]);
      cbn [frame_sized frame_kind frame_payload].
    + rewrite Hs. split_and!; [lia|lia|done|]. by eexists.
    + split_and!; [done|done|]. exists (slice 8 (8 + n) pt ++ slice (8 + n) (len pt) pt).
      replace (len []) with n by (rewrite len_nil; lia). done.
    + split_and!; [done|done|]. exists (slice 8 (8 + n) pt ++ slice (8 + n) (len pt) pt).
      replace (len []) with n by (rewrite len_nil; lia). done.
    + done.
  - intros (Hs & Hl & tail & ->). set (p := frame_payload f) in *. set (k := frame_kind f) in *.
    assert (len p ≤ ATTACHMENT_STREAM_PAYLOAD_BYTES) as Hp.
    { subst p. destruct f; simpl in *; [lia|done|done]. }
    rewrite Hl. change (slice 1 4 _) with (zeros 3). change (slice 4 8 _) with (be_bytes 4 (len p)).
    change (head (frame_header k (len p) ++ p ++ tail)) with (Some k).
    pose proof (len_nonneg p).
    unfold read_u32. rewrite len_be_bytes, be_value_be_bytes.
    2:{ change (256 ^ _) with 4294967296. unfold ATTACHMENT_STREAM_PAYLOAD_BYTES in *. lia. }
    rewrite !(bool_decide_false (_ ≠ _)) by naive_solver. go.
    rewrite (bool_decide_false (ATTACHMENT_STREAM_PAYLOAD_BYTES < len p)) by lia. go.
    subst k p. destruct f as [q| |]; cbn [frame_kind frame_payload frame_sized] in *; [|done|done].
    rewrite (bool_decide_true (FRAME_DATA = FRAME_DATA)), (bool_decide_true (0 < _)) by (done || lia).
    cbn [andb]. by rewrite slice_app by (rewrite len_frame_header; lia).
Qed.

(** ** Records *)

Lemma len_stream_header d c : len (stream_header d c) = 16.
Proof. done. Qed.

Lemma decode_stream_Ok r h d c ct :
  decode_stream_record r = Ok (h, d, c, ct) ↔
  r = h ++ ct ∧ h = stream_header d c ∧ 0 ≤ c ≤ u64_MAX ∧ len r = ATTACHMENT_STREAM_FRAME_BYTES.
Proof.
  unfold decode_stream_record. split.
  - intros Hr. passed Hr. simplify_eq. unfold ATTACHMENT_STREAM_HEADER_BYTES in *.
    assert (16 ≤ len r) by (match goal with H : len r = _ |- _ => rewrite H end; done).
    assert (len (slice 0 16 r) = 16) as H16 by (rewrite len_slice; lia).
    pose proof (be_value_range (slice 8 16 (slice 0 16 r))) as Hr.
    split_and!; [| |lia| |done].
    + rewrite <- slice_split by lia. by rewrite slice_all.
    + set (h := slice 0 16 r) in *.
      assert (slice 4 5 h = [TRANSPORT_VERSION]) as E4 by (by apply (slice_lookup h 4)).
      assert (slice 5 6 h = [direction_byte d]) as E5 by (by apply (slice_lookup h 5)).
      unfold stream_header. rewrite be_bytes_of_value by done.
      transitivity (slice 0 (len h) h); [by rewrite slice_all|]. rewrite H16.
      rewrite (slice_split 0 4), (slice_split 4 5), (slice_split 5 6), (slice_split 6 8),
        (slice_split 8 16) by lia.
      by fold_known.
    + match goal with H : len (slice 8 16 _) = 8 |- _ => rewrite H in Hr end.
      change (256 ^ 8) with (u64_MAX + 1) in Hr. lia.
  - intros (-> & -> & Hc & Hl). rewrite Hl. unfold ATTACHMENT_STREAM_HEADER_BYTES.
    rewrite len_app, len_stream_header in Hl.
    assert (slice 0 16 (stream_header d c ++ ct) = stream_header d c) as ->
      by (by rewrite slice_app_l, slice_eq by (rewrite ?len_stream_header; lia)).
    assert (slice 16 ATTACHMENT_STREAM_FRAME_BYTES (stream_header d c ++ ct) = ct) as ->.
    { by rewrite slice_app_r, slice_eq by (rewrite ?len_stream_header; lia). }
    change (slice 0 4 _) with STREAM_MAGIC. change (slice 6 8 _) with (zeros 2).
    change (stream_header d c !! 4%nat) with (Some TRANSPORT_VERSION).
    change (stream_header d c !! 5%nat) with (Some (direction_byte d)).
    change (slice 8 16 _) with (be_bytes 8 c).
    rewrite !(bool_decide_false (_ ≠ _)) by naive_solver. go.
    rewrite (proj2 (direction_from_byte_Ok _ d)) by done. go. unfold read_u64.
    rewrite len_be_bytes, be_value_be_bytes by (change (256 ^ _) with (u64_MAX + 1); lia).
    by rewrite bool_decide_false by naive_solver.
Qed.

Lemma stream_nonce_inj d1 d2 c1 c2 :
  0 ≤ c1 ≤ u64_MAX → 0 ≤ c2 ≤ u64_MAX → stream_nonce d1 c1 = stream_nonce d2 c2 → d1 = d2 ∧ c1 = c2.
Proof. apply ws_nonce_inj. Qed.

(** ** States of a stream *)

Definition P := ATTACHMENT_STREAM_PAYLOAD_BYTES.

Definition layout_ok (l : StreamLayout) : Prop :=
  0 < sl_ciphertext_len l ≤ MAX_ATTACHMENT_CIPHERTEXT_BYTES ∧
  1 ≤ sl_data_frames l ≤ sl_bucket_frames l ∧ sl_bucket_frames l ≤ MAX_ATTACHMENT_BUCKET_FRAMES ∧
  (sl_data_frames l - 1) * P < sl_ciphertext_len l ≤ sl_data_frames l * P.

Lemma stream_layout_Ok n l : 0 ≤ n → stream_layout n = Ok l → layout_ok l ∧ sl_ciphertext_len l = n.
Proof.
  intros Hn. unfold stream_layout. intros (d & Hd & H)%bind_Ok.
  apply bind_Ok in H as (b & Hb & [= <-]). apply data_frame_count_Ok in Hd as (? & ? & ?); [|done].
  apply bucket_frame_count_Ok in Hb as (? & ? & _); [|lia]. split; [|done].
  unfold layout_ok, P. simpl. lia.
Qed.

Lemma stream_layout_power n l :
  0 ≤ n → stream_layout n = Ok l → ∃ k, 0 ≤ k ∧ sl_bucket_frames l = 2 ^ k.
Proof.
  intros Hn. unfold stream_layout. intros (d & Hd & H)%bind_Ok.
  apply bind_Ok in H as (b & Hb & [= <-]). apply data_frame_count_Ok in Hd as (_ & ? & _); [|done].
  by apply bucket_frame_count_Ok in Hb as (_ & _ & _ & ?); [|lia].
Qed.

Lemma stream_layout_total n :
  0 < n ≤ MAX_ATTACHMENT_CIPHERTEXT_BYTES → ∃ l, stream_layout n = Ok l.
Proof.
  intros Hn. unfold stream_layout. destruct (data_frame_count_total n Hn) as [d Hd].
  pose proof (data_frame_count_Ok n d ltac:(lia) Hd) as (_ & ? & _).
  destruct (bucket_frame_count_total d) as [b Hb]; [done|]. rewrite Hd. simpl. rewrite Hb. eauto.
Qed.

(** Frames so far, in order: data, then padding, then the end. *)
Record stream_ok (s : StreamEnd) : Prop := {
  so_layout : layout_ok (se_layout s);
  so_data : 0 ≤ se_data_frames s ≤ sl_data_frames (se_layout s);
  so_padding : 0 ≤ se_padding_frames s;
  so_padded : 0 < se_padding_frames s → se_data_frames s = sl_data_frames (se_layout s);
  so_bucket : se_data_frames s + se_padding_frames s ≤ sl_bucket_frames (se_layout s);
  so_bytes : se_bytes_seen s = Z.min (se_data_frames s * P) (sl_ciphertext_len (se_layout s));
  so_counter : se_next_counter s
    = se_data_frames s + se_padding_frames s + Z.b2z (se_ended s);
  so_ended : se_ended s = true →
    se_bytes_seen s = sl_ciphertext_len (se_layout s) ∧
    se_data_frames s + se_padding_frames s = sl_bucket_frames (se_layout s)
}.

(** When a frame may come next, and the state after it. *)
Definition due (f : AttachmentFrame) (s : StreamEnd) : Prop :=
  se_ended s = false ∧
  match f with
  | Data p =>
      se_padding_frames s = 0 ∧ se_data_frames s < sl_data_frames (se_layout s) ∧
      len p = Z.min (sl_ciphertext_len (se_layout s) - se_data_frames s * P) P
  | Padding =>
      se_data_frames s = sl_data_frames (se_layout s) ∧
      se_data_frames s + se_padding_frames s < sl_bucket_frames (se_layout s)
  | End_ =>
      se_bytes_seen s = sl_ciphertext_len (se_layout s) ∧
      se_data_frames s + se_padding_frames s = sl_bucket_frames (se_layout s)
  end.

Definition counted (f : AttachmentFrame) (s : StreamEnd) : StreamEnd :=
  match f with
  | Data p => se_set_bytes (se_bytes_seen s + len p) (se_set_data (se_data_frames s + 1) s)
  | Padding => se_set_padding (se_padding_frames s + 1) s
  | End_ => se_set_ended true s
  end.
Definition advance (f : AttachmentFrame) (s : StreamEnd) : StreamEnd :=
  se_set_counter (se_next_counter s + 1) (counted f s).

Lemma advance_ok f s : stream_ok s → due f s → stream_ok (advance f s).
Proof.
  intros [[? [? [? ?]]] ? ? ? ? Hb Hc He] [Hf Hd]. unfold P, ATTACHMENT_STREAM_PAYLOAD_BYTES in *.
  destruct f as [p| |]; split; simpl; rewrite ?Hf in *; simpl in *; unfold layout_ok, P; simpl;
    unfold ATTACHMENT_STREAM_PAYLOAD_BYTES; try done; lia.
Qed.

(** ** Runs of the state monad *)

Lemma get_bind {S E A} (k : S → ST S E A) s : (get ≫= k) s = k s s.
Proof. done. Qed.
Lemma lift_bind {S E A B} (r : result E A) (k : A → ST S E B) s :
  (lift r ≫= k) s = match r with Ok a => k a s | Err e => (Err e, s) end.
Proof. done. Qed.
Lemma check_bind {S E A} (b : bool) (e : E) (k : () → ST S E A) s :
  (lift (reject_if b e) ≫= k) s = if b then (Err e, s) else k tt s.
Proof. by destruct b. Qed.
Lemma modify_bind {S E A} (f : S → S) (k : () → ST S E A) s : (modify f ≫= k) s = k tt (f s).
Proof. done. Qed.

(** ** Steps *)

Section steps.
Context {AE : Aead} {AL : AeadLaws}.

Definition stream_record (s : StreamEnd) (pt r : bytes) : Prop :=
  let h := stream_header (se_direction s) (se_next_counter s) in
  ∃ ct, encrypt (se_key s) (stream_nonce (se_direction s) (se_next_counter s))
          (stream_aad h (se_context s)) pt = Some ct ∧ r = h ++ ct.

(** [f] is sealed in [r] at the current position. *)
Definition carries (s : StreamEnd) (f : AttachmentFrame) (r : bytes) : Prop :=
  ∃ pt, frame_pt f pt ∧ stream_record s pt r.

Lemma len_record s f r : carries s f r → len r = ATTACHMENT_STREAM_FRAME_BYTES.
Proof.
  intros (pt & (_ & Hl & _) & ct & Hct%encrypt_len & ->).
  rewrite len_app, len_stream_header, Hct, Hl. done.
Qed.

Lemma counter_small s : stream_ok s → 0 ≤ se_next_counter s < u64_MAX - 1.
Proof.
  intros [(? & ? & ? & ?) ? ? ? ? ? Hc _]. unfold MAX_ATTACHMENT_BUCKET_FRAMES, u64_MAX in *.
  destruct (se_ended s); simpl in Hc; lia.
Qed.

Lemma expected_len s n : stream_ok s →
  expected_data_len (se_layout s) (se_data_frames s) = Ok n ↔
  se_data_frames s < sl_data_frames (se_layout s) ∧
  n = Z.min (sl_ciphertext_len (se_layout s) - se_data_frames s * P) P.
Proof.
  intros [(? & ? & ? & ?) ? _ _ _ _ _ _]. unfold expected_data_len.
  unfold P, ATTACHMENT_STREAM_PAYLOAD_BYTES, MAX_ATTACHMENT_BUCKET_FRAMES in *.
  case_bool_decide; simpl; [split; [done|lia]|].
  unfold checked_mul. rewrite decide_True by (unfold u64_MAX; lia). simpl.
  rewrite checked_sub_ok by lia. simpl. split; [intros [= <-]; lia|]. by intros [_ ->].
Qed.

Definition seal_frame {EN : Entropy} (f : AttachmentFrame) : STREAM bytes :=
  match f with Data p => seal_data p | Padding => seal_padding | End_ => seal_end end.

Lemma stream_seal_spec `{EL : EntropyLaws} f s : stream_ok s →
  match stream_seal (frame_kind f) (frame_payload f) s with
  | (Ok r, s') => carries s f r ∧ s' = se_set_counter (se_next_counter s + 1) s
  | (Err _, s') => s' = s
  end.
Proof.
  intros Hs. pose proof (counter_small s Hs). unfold stream_seal.
  rewrite get_bind, lift_bind. destruct (reject_if _ _); [|done]. rewrite lift_bind.
  destruct (frame_plaintext _ _) as [pt|] eqn:Hpt; [|done]. rewrite lift_bind.
  destruct (encrypt _ _ _ _) as [ct|] eqn:Hct; [|done]. cbn [ok_or]. rewrite lift_bind.
  destruct (reject_if _ _); [|done]. rewrite lift_bind, checked_add_ok by lia. cbn [ok_or].
  rewrite modify_bind. simpl. split; [|done]. exists pt. split; [by apply frame_plaintext_Ok|].
  by exists ct.
Qed.

Lemma due_sized f s : stream_ok s → due f s → frame_sized f.
Proof.
  intros [(? & ? & ? & ?) ? _ _ _ _ _ _] [_ Hd]. destruct f; simpl in *; [|done|done].
  unfold P, ATTACHMENT_STREAM_PAYLOAD_BYTES in *. lia.
Qed.

(** Sealing succeeds only on the frame that is due; a refusal changes nothing. *)
Lemma seal_frame_spec `{EL : EntropyLaws} f s : stream_ok s →
  match seal_frame f s with
  | (Ok r, s') => due f s ∧ carries s f r ∧ s' = advance f s
  | (Err _, s') => s' = s
  end.
Proof.
  intros Hs. pose proof (stream_seal_spec f s Hs) as Hseal.
  pose proof Hs as [(? & ? & ? & ?) ? ? ? ? ? ? ?].
  destruct f as [p| |]; simpl in *;
    [unfold seal_data|unfold seal_padding|unfold seal_end]; rewrite get_bind, lift_bind;
    (destruct (reject_if _ _) eqn:Hg; [|done]); open_enc; unfold due.
  - rewrite lift_bind. destruct (expected_data_len _ _) as [n|] eqn:Hn; [|done].
    apply expected_len in Hn as [? ->]; [|done]. rewrite lift_bind.
    destruct (reject_if _ _) eqn:Hl; [|done]. open_enc.
    unfold mbind at 1, ST_bind at 1. destruct (stream_seal _ _ _) as [[r|] s1]; [|done].
    destruct Hseal as [Hr ->].
    rewrite lift_bind, checked_add_ok.
    2:{ unfold MAX_ATTACHMENT_BUCKET_FRAMES, u16_MAX in *. lia. }
    cbn [ok_or]. rewrite modify_bind, lift_bind, checked_add_ok.
    2:{ unfold P, ATTACHMENT_STREAM_PAYLOAD_BYTES, MAX_ATTACHMENT_CIPHERTEXT_BYTES, u64_MAX in *. lia. }
    cbn [ok_or]. rewrite modify_bind. simpl. by split_and!.
  - unfold mbind, ST_bind. destruct (stream_seal _ _ _) as [[r|] s1]; [|done].
    destruct Hseal as [Hr ->]. simpl. split_and!; try done. lia.
  - unfold mbind, ST_bind. destruct (stream_seal _ _ _) as [[r|] s1]; [|done].
    destruct Hseal as [Hr ->]. simpl. by split_and!.
Qed.

Lemma accept_frame_spec f s : stream_ok s → se_ended s = false →
  match accept_frame f s with
  | (Ok _, s') => due f s ∧ s' = counted f s
  | (Err _, s') => s' = s
  end.
Proof.
  intros Hs He. pose proof Hs as [(? & ? & ? & ?) ? ? ? ? ? ? ?]. unfold accept_frame, due.
  rewrite get_bind. destruct f as [p| |]; rewrite lift_bind;
    (destruct (reject_if _ _) eqn:Hg; [|done]); open_enc; simpl.
  - rewrite lift_bind. destruct (expected_data_len _ _) as [n|] eqn:Hn; [|done].
    apply expected_len in Hn as [? ->]; [|done]. rewrite lift_bind.
    destruct (reject_if _ _) eqn:Hl; [|done]. open_enc.
    rewrite modify_bind, lift_bind, checked_add_ok.
    2:{ unfold P, ATTACHMENT_STREAM_PAYLOAD_BYTES, MAX_ATTACHMENT_CIPHERTEXT_BYTES, u64_MAX in *. lia. }
    by split_and!.
  - split_and!; try done. lia.
  - by split_and!.
Qed.

Lemma accept_frame_run f s : stream_ok s → due f s → accept_frame f s = (Ok tt, counted f s).
Proof.
  intros Hs [He Hd]. pose proof (accept_frame_spec f s Hs He) as Hspec.
  assert (∀ e, (accept_frame f s).1 ≠ Err e) as Hok.
  { unfold accept_frame. rewrite get_bind. intros e.
    destruct f as [p| |]; rewrite lift_bind; destruct_and? Hd.
    - rewrite bool_decide_false by naive_solver. cbn [reject_if]. rewrite lift_bind.
      rewrite (proj2 (expected_len s _ Hs)) by done. rewrite lift_bind.
      rewrite bool_decide_false by naive_solver. cbn [reject_if]. rewrite modify_bind, lift_bind.
      rewrite checked_add_ok; [done|]. destruct Hs as [(? & ? & ? & ?) ? ? ? ? ? ? ?].
      unfold P, ATTACHMENT_STREAM_PAYLOAD_BYTES, MAX_ATTACHMENT_CIPHERTEXT_BYTES, u64_MAX in *. lia.
    - by rewrite !bool_decide_false by (lia || naive_solver).
    - by rewrite !bool_decide_false by naive_solver. }
  destruct (accept_frame f s) as [[[]|e] s']; [|by destruct (Hok e)]. by destruct Hspec as [_ ->].
Qed.

(** Opening succeeds only on the record of the frame that is due. *)
Lemma stream_open_spec r s : stream_ok s →
  match stream_open r s with
  | (Ok f, s') => due f s ∧ carries s f r ∧ s' = advance f s
  | (Err _, s') => s' = s
  end.
Proof.
  intros Hs. pose proof (counter_small s Hs). unfold stream_open. rewrite get_bind, lift_bind.
  destruct (reject_if _ _) eqn:Hg; [|done]. open_enc. rewrite lift_bind.
  destruct (decode_stream_record r) as [[[[h d] c] ct]|] eqn:Hr; [|done].
  apply decode_stream_Ok in Hr as (-> & -> & ? & ?).
  do 3 (rewrite check_bind; case_bool_decide; [done|]).
  subst d.
  assert (c = se_next_counter s) as -> by lia. rewrite lift_bind.
  destruct (decrypt _ _ _ _) as [pt|] eqn:Hpt; [|done]. cbn [ok_or]. rewrite lift_bind.
  destruct (decode_frame_plaintext pt) as [f|] eqn:Hf; [|done]. apply decode_frame_Ok in Hf.
  unfold mbind at 1, ST_bind at 1.
  pose proof (accept_frame_spec f s Hs ltac:(done)) as Hacc.
  destruct (accept_frame f s) as [[u|] s1]; [|done]. destruct Hacc as [Hd ->].
  rewrite lift_bind, checked_add_ok by lia. cbn [ok_or]. rewrite modify_bind. simpl.
  split_and!; [done| |by destruct f]. exists pt. split; [done|]. exists ct.
  split; [by apply decrypt_tidy|done].
Qed.

Lemma stream_open_run f r s :
  stream_ok s → due f s → carries s f r → stream_open r s = (Ok f, advance f s).
Proof.
  intros Hs Hd Hc. pose proof (counter_small s Hs). pose proof (len_record s f r Hc).
  destruct Hc as (pt & Hf & ct & Hct & ->). unfold stream_open.
  rewrite get_bind, lift_bind, (proj1 Hd), bool_decide_false by lia. cbn [orb reject_if].
  set (h := stream_header (se_direction s) (se_next_counter s)) in *.
  rewrite lift_bind, (proj2 (decode_stream_Ok (h ++ ct) h (se_direction s) (se_next_counter s) ct)).
  2:{ split_and!; [done|done|lia|lia|done]. }
  rewrite check_bind, (bool_decide_false (_ ≠ _)) by naive_solver.
  do 2 (rewrite check_bind, ?(bool_decide_false (_ < _)) by lia).
  rewrite lift_bind, (decrypt_encrypt _ _ _ _ _ Hct). cbn [ok_or].
  rewrite lift_bind, (proj2 (decode_frame_Ok pt f)) by done.
  unfold mbind at 1, ST_bind at 1. rewrite (accept_frame_run f s Hs Hd).
  rewrite lift_bind, checked_add_ok by lia. cbn [ok_or]. rewrite modify_bind. by destruct f.
Qed.

(** Sealing the due frame succeeds when the random source does. *)
Lemma seal_frame_run {EN : Entropy} {EL : EntropyLaws} f s :
  stream_ok s → due f s →
  is_Some (fill (ATTACHMENT_STREAM_PLAINTEXT_BYTES - 8 - len (frame_payload f))) →
  ∃ r, seal_frame f s = (Ok r, advance f s).
Proof.
  intros Hs Hd [tail Ht]. pose proof (counter_small s Hs).
  pose proof (seal_frame_spec f s Hs) as Hspec.
  assert (∃ r s1, stream_seal (frame_kind f) (frame_payload f) s = (Ok r, s1)) as (r & s1 & Hseal).
  { pose proof (frame_plaintext_run f tail (due_sized f s Hs Hd) Ht) as Hpt.
    pose proof (frame_plaintext_Ok _ _ Hpt) as Hfp. set (pt := frame_header _ _ ++ _) in *.
    destruct (encrypt_total (se_key s) (stream_nonce (se_direction s) (se_next_counter s))
      (stream_aad (stream_header (se_direction s) (se_next_counter s)) (se_context s)) pt) as [ct Hct].
    { rewrite (proj1 (proj2 Hfp)). done. }
    assert (carries s f (stream_header (se_direction s) (se_next_counter s) ++ ct)) as Hcar.
    { exists pt. split; [done|]. by exists ct. }
    unfold stream_seal. rewrite get_bind, lift_bind, bool_decide_false by lia. cbn [reject_if].
    rewrite lift_bind, Hpt, lift_bind, Hct. cbn [ok_or].
    rewrite lift_bind, bool_decide_false by (rewrite (len_record _ _ _ Hcar); naive_solver).
    cbn [reject_if]. rewrite lift_bind, checked_add_ok by lia. cbn [ok_or]. rewrite modify_bind.
    by do 2 eexists. }
  assert (∀ e, (seal_frame f s).1 ≠ Err e) as Hok.
  { intros e. destruct f as [p| |]; cbn [seal_frame frame_kind frame_payload] in *;
      unfold seal_data, seal_padding, seal_end;
      rewrite get_bind, lift_bind, (proj1 Hd); destruct Hd as [_ Hd]; destruct_and? Hd.
    - rewrite bool_decide_false by naive_solver. cbn [orb reject_if]. rewrite lift_bind.
      rewrite (proj2 (expected_len s _ Hs)) by done. rewrite lift_bind.
      rewrite bool_decide_false by naive_solver. cbn [reject_if].
      unfold mbind at 1, ST_bind at 1. rewrite Hseal. destruct Hs as [(? & ? & ? & ?) ? ? ? ? ? ? ?].
      rewrite lift_bind, checked_add_ok by (unfold MAX_ATTACHMENT_BUCKET_FRAMES, u16_MAX in *; lia).
      cbn [ok_or]. rewrite modify_bind, lift_bind, checked_add_ok; [done|].
      unfold P, ATTACHMENT_STREAM_PAYLOAD_BYTES, MAX_ATTACHMENT_CIPHERTEXT_BYTES, u64_MAX in *. lia.
    - rewrite !bool_decide_false by (lia || naive_solver). cbn [orb reject_if].
      unfold mbind, ST_bind. by rewrite Hseal.
    - rewrite !bool_decide_false by naive_solver. cbn [orb reject_if].
      unfold mbind, ST_bind. by rewrite Hseal. }
  destruct (seal_frame f s) as [[r'|e] s']; [|by destruct (Hok e)].
  exists r'. by destruct Hspec as (_ & _ & ->).
Qed.
End steps.
