(* ===== verification/StreamTheorems.v ===== *)
(** * Attachment streams: integrity and completion

    A stream between a sealer and an opener over a network that may drop,
    duplicate, reorder and corrupt records.  The frames the opener accepts
    are a prefix of those sealed, it completes only with all of them, and an
    undisturbed stream completes with the whole attachment. *)

From S2P Require Import Prelude TransportWire TransportReader Attachment AttachmentStream.
From S2P Require Import RecordChannel StreamFacts RecordTheorems.

(** ** Sequences of frames *)

Definition after (s : StreamEnd) (fs : list AttachmentFrame) : StreamEnd :=
  foldl (λ s f, advance f s) s fs.

Fixpoint plays (s : StreamEnd) (fs : list AttachmentFrame) : Prop :=
  match fs with
  | [] => True
  | f :: fs => due f s ∧ plays (advance f s) fs
  end.

Lemma after_cons s f fs : after s (f :: fs) = after (advance f s) fs.
Proof. done. Qed.
Lemma after_app s fs gs : after s (fs ++ gs) = after (after s fs) gs.
Proof. apply foldl_app. Qed.
Lemma plays_app s fs gs : plays s (fs ++ gs) ↔ plays s fs ∧ plays (after s fs) gs.
Proof. revert s. induction fs as [|f fs IH]; intros s; simpl; [tauto|]. rewrite IH. tauto. Qed.

Lemma after_ok s fs : stream_ok s → plays s fs → stream_ok (after s fs).
Proof.
  revert s. induction fs as [|f fs IH]; simpl; [done|]. intros s Hs [Hd Hp].
  apply IH; [|done]. by apply advance_ok.
Qed.

(** What no frame changes. *)
Definition same_stream (s t : StreamEnd) : Prop :=
  se_key s = se_key t ∧ se_context s = se_context t ∧ se_direction s = se_direction t ∧
  se_layout s = se_layout t.
Lemma after_same s fs : same_stream s (after s fs).
Proof.
  revert s. induction fs as [|f fs IH]; [done|]. intros s. rewrite after_cons.
  unfold same_stream. destruct (IH (advance f s)) as (<- & <- & <- & <-). by destruct f.
Qed.
Lemma after_counter s fs : se_next_counter (after s fs) = se_next_counter s + len fs.
Proof.
  revert s. induction fs as [|f fs IH]; intros s; [simpl; rewrite len_nil; lia|].
  rewrite after_cons, IH, len_cons. simpl. lia.
Qed.

Definition frame_data (fs : list AttachmentFrame) : bytes := concat (frame_payload <$> fs).

Lemma frame_data_cons f fs : frame_data (f :: fs) = frame_payload f ++ frame_data fs.
Proof. done. Qed.

Lemma after_bytes s fs : se_bytes_seen (after s fs) = se_bytes_seen s + len (frame_data fs).
Proof.
  revert s. induction fs as [|f fs IH]; intros s; [change (len (frame_data [])) with 0; simpl; lia|].
  rewrite after_cons, IH, frame_data_cons, len_app. destruct f; simpl; rewrite ?len_nil; lia.
Qed.

Lemma after_ended s fs : se_ended s = true → se_ended (after s fs) = true.
Proof.
  revert s. induction fs as [|f fs IH]; intros s Hs; [done|]. rewrite after_cons. apply IH.
  by destruct f.
Qed.

(** ** The system *)

Inductive StreamEvent : Type :=
| Seal (f : AttachmentFrame) (out : res ())
| Open (out : res AttachmentFrame).

Record StreamNet : Type := mkStreamNet {
  sn_sealer : StreamEnd;
  sn_opener : StreamEnd;
  sn_wire : list bytes
}.

Section net.
Context {AE : Aead} {AL : AeadLaws}.

(** Nothing the receiver's key would open. *)
Definition stream_unauthentic (s : StreamEnd) (r : bytes) : Prop :=
  ∀ h d c ct, decode_stream_record r = Ok (h, d, c, ct) →
    decrypt (se_key s) (stream_nonce d c) (stream_aad h (se_context s)) ct = None.

(** Each seal draws fresh padding. *)
Inductive stream_step : StreamNet → StreamEvent → StreamNet → Prop :=
| stream_sealed (EN : Entropy) (EL : EntropyLaws) n f r s :
    seal_frame f (sn_sealer n) = (Ok r, s) →
    stream_step n (Seal f (Ok tt)) (mkStreamNet s (sn_opener n) (sn_wire n ++ [r]))
| stream_refused (EN : Entropy) (EL : EntropyLaws) n f e s :
    seal_frame f (sn_sealer n) = (Err e, s) →
    stream_step n (Seal f (Err e)) (mkStreamNet s (sn_opener n) (sn_wire n))
| stream_delivered n r out o :
    r ∈ sn_wire n ∨ stream_unauthentic (sn_opener n) r →
    stream_open r (sn_opener n) = (out, o) →
    stream_step n (Open out) (mkStreamNet (sn_sealer n) o (sn_wire n)).

Inductive stream_run : StreamNet → list StreamEvent → StreamNet → Prop :=
| stream_run_nil n : stream_run n [] n
| stream_run_cons n e n' es n'' :
    stream_step n e n' → stream_run n' es n'' → stream_run n (e :: es) n''.

Definition sealed (es : list StreamEvent) : list AttachmentFrame :=
  omap (λ e, match e with Seal f (Ok _) => Some f | _ => None end) es.
Definition opened (es : list StreamEvent) : list AttachmentFrame :=
  omap (λ e, match e with Open (Ok f) => Some f | _ => None end) es.

(** The records of a sequence of frames. *)
Fixpoint recorded (s : StreamEnd) (fs : list AttachmentFrame) (rs : list bytes) : Prop :=
  match fs, rs with
  | [], [] => True
  | f :: fs, r :: rs => carries s f r ∧ recorded (advance f s) fs rs
  | _, _ => False
  end.

Lemma recorded_snoc s fs rs f r :
  recorded s fs rs → carries (after s fs) f r → recorded s (fs ++ [f]) (rs ++ [r]).
Proof.
  revert s rs. induction fs as [|g fs IH]; intros s [|q rs] H Hc; simpl in *; try done.
  destruct H as [? H]. split; [done|]. by apply IH.
Qed.

Lemma recorded_elem s fs rs r : recorded s fs rs → r ∈ rs →
  ∃ fs1 f fs2, fs = fs1 ++ f :: fs2 ∧ carries (after s fs1) f r.
Proof.
  revert s rs. induction fs as [|g fs IH]; intros s [|q rs] H Hr; simpl in *; try done.
  { by apply elem_of_nil in Hr. }
  destruct H as [Hq H]. apply elem_of_cons in Hr as [->|Hr].
  - by exists [], g, fs.
  - destruct (IH _ _ H Hr) as (fs1 & f & fs2 & -> & Hc). by exists (g :: fs1), f, fs2.
Qed.

(** A record carries one frame, at one position. *)
Lemma carries_decodes s f r : 0 ≤ se_next_counter s ≤ u64_MAX → carries s f r →
  ∃ ct pt, decode_stream_record r
      = Ok (stream_header (se_direction s) (se_next_counter s), se_direction s,
            se_next_counter s, ct) ∧
    decrypt (se_key s) (stream_nonce (se_direction s) (se_next_counter s))
      (stream_aad (stream_header (se_direction s) (se_next_counter s)) (se_context s)) ct = Some pt ∧
    decode_frame_plaintext pt = Ok f.
Proof.
  intros Hc H. pose proof (len_record s f r H) as Hl. destruct H as (pt & Hf & ct & Hct & ->).
  exists ct, pt. split_and!; [|by apply decrypt_encrypt|by apply decode_frame_Ok].
  apply decode_stream_Ok. split_and!; [done|done|lia|lia|done].
Qed.

(** ** The invariant of a run *)

(** [gs] were opened, [gs ++ hs] were sealed, from the common start [s0]. *)
Record streaming (s0 : StreamEnd) (gs hs : list AttachmentFrame) (n : StreamNet) : Prop := {
  st_start : stream_ok s0;
  st_plays : plays s0 (gs ++ hs);
  st_sealer : sn_sealer n = after s0 (gs ++ hs);
  st_opener : sn_opener n = after s0 gs;
  st_wire : recorded s0 (gs ++ hs) (sn_wire n)
}.

Lemma streaming_opener_ok s0 gs hs n : streaming s0 gs hs n → stream_ok (sn_opener n).
Proof.
  intros [Hs Hp _ -> _]. apply after_ok; [done|]. by apply plays_app in Hp as [? _].
Qed.

Lemma streaming_step s0 gs hs n e n' :
  streaming s0 gs hs n → stream_step n e n' →
  ∃ gs' hs', streaming s0 gs' hs' n' ∧ gs' = gs ++ opened [e] ∧ gs' ++ hs' = (gs ++ hs) ++ sealed [e].
Proof.
  intros Hst Hstep. pose proof (streaming_opener_ok _ _ _ _ Hst) as Hok.
  destruct Hst as [Hs Hp Hse Hop Hw].
  assert (stream_ok (after s0 (gs ++ hs))) as Hsok by (by apply after_ok).
  destruct Hstep as [EN EL n f r s Hseal|EN EL n f e s Hseal|n r out o Hr Hopen]; simpl.
  - rewrite Hse in Hseal. pose proof (seal_frame_spec f _ Hsok) as Hspec. rewrite Hseal in Hspec.
    destruct Hspec as (Hd & Hc & ->). exists gs, (hs ++ [f]).
    rewrite app_nil_r, !(assoc_L (++)). split_and!; [|done|done]. split; simpl;
      rewrite ?(assoc_L (++)), ?after_app; try done.
    + rewrite plays_app. split; [done|]. by split.
    + by apply recorded_snoc.
  - rewrite Hse in Hseal. pose proof (seal_frame_spec f _ Hsok) as Hspec. rewrite Hseal in Hspec.
    subst s. exists gs, hs. rewrite !app_nil_r. by split_and!.
  - pose proof (stream_open_spec r _ Hok) as Hspec. rewrite Hopen in Hspec.
    destruct out as [f|e]; simpl.
    2:{ subst o. exists gs, hs. rewrite !app_nil_r. by split_and!. }
    destruct Hspec as (Hd & Hc & ->). pose proof (counter_small _ Hok) as Hcount.
    destruct (carries_decodes (sn_opener n) f r) as (ct & pt & Hdec & Hpt & Hf); [lia|done|].
    destruct Hr as [Hr|Hr]; [|by rewrite (Hr _ _ _ _ Hdec) in Hpt].
    destruct (recorded_elem _ _ _ _ Hw Hr) as (fs1 & g & fs2 & E & Hg).
    assert (plays s0 fs1) as Hp1 by (rewrite E in Hp; by apply plays_app in Hp as [? _]).
    pose proof (counter_small _ (after_ok _ _ Hs Hp1)) as Hcount1.
    destruct (carries_decodes (after s0 fs1) g r) as (ct' & pt' & Hdec' & Hpt' & Hf'); [lia|done|].
    rewrite Hdec in Hdec'.
    assert (se_next_counter (sn_opener n) = se_next_counter (after s0 fs1) ∧ ct = ct') as [Ec <-]
      by (split; congruence).
    rewrite Hop, !after_counter in Ec.
    assert (gs = fs1 ∧ hs = g :: fs2) as [-> ->].
    { apply app_inj_1; [|done]. unfold len in Ec. lia. }
    rewrite Hop in Hpt; rewrite Hpt in Hpt'. simplify_eq.
    rewrite Hf in Hf'. simplify_eq.
    exists (fs1 ++ [g]), fs2. rewrite <- !(assoc_L (++)). simpl. rewrite app_nil_r.
    split_and!; [|done|done]. split; simpl; rewrite <- ?(assoc_L (++)); try done.
    by rewrite after_app, <- Hop.
Qed.

Lemma streaming_run s0 n es n' : stream_run n es n' → ∀ gs hs, streaming s0 gs hs n →
  ∃ gs' hs', streaming s0 gs' hs' n' ∧ gs' = gs ++ opened es ∧ gs' ++ hs' = (gs ++ hs) ++ sealed es.
Proof.
  induction 1 as [n|n e n1 es n2 Hstep _ IH]; intros gs hs Hst.
  - exists gs, hs. by rewrite !app_nil_r.
  - destruct (streaming_step _ _ _ _ _ _ Hst Hstep) as (gs1 & hs1 & H1 & -> & E1).
    destruct (IH _ _ H1) as (gs2 & hs2 & H2 & -> & E2).
    eexists _, hs2. split; [done|]. rewrite E1 in E2.
    unfold opened, sealed in *. simpl in *. rewrite <- !(assoc_L (++)) in *.
    destruct e as [f [[]|]|[f|]]; simpl in *; rewrite ?app_nil_r in *; done.
Qed.

Context {HK : Hkdf}.

(** Fresh ends from the same binding and root, the opener having been told
    the frame counts. *)
Definition stream_start (b : AttachmentStreamBinding) (root : bytes) (d : Direction) (total : Z)
    (n : StreamNet) : Prop :=
  ∃ s o data bucket,
    into_sealer b root d total = Ok s ∧ into_opener b root d total data bucket = Ok o ∧
    n = mkStreamNet s o [].

Lemma start_streaming b root d total n : 0 ≤ total → stream_start b root d total n →
  ∃ s0, streaming s0 [] [] n ∧ stream_layout total = Ok (se_layout s0) ∧
    se_data_frames s0 = 0 ∧ se_padding_frames s0 = 0 ∧ se_ended s0 = false ∧ se_bytes_seen s0 = 0.
Proof.
  intros Ht (s & o & data & bucket & Hs & Ho & ->). unfold into_sealer, into_opener in *.
  apply bind_Ok in Hs as (l & Hl & Hs). rewrite Hl in Ho. simpl in Ho.
  apply bind_Ok in Ho as (? & _ & Ho). apply bind_Ok in Hs as (k & Hk & [= <-]).
  rewrite Hk in Ho. simpl in Ho. injection Ho as <-.
  exists (mkStreamEnd k (stream_context b) d l 0 0 0 0 false).
  split; [|done]. apply stream_layout_Ok in Hl as [(? & ? & ? & ?) _]; [|done]. split; try done.
  split; simpl; try done; unfold P in *; lia.
Qed.

(** ** Completion *)

(** A source that always answers. *)
Definition zero_entropy : Entropy :=
  {| fill n := if decide (0 ≤ n) then Some (zeros (Z.to_nat n)) else None |}.
Lemma zero_entropy_laws : @EntropyLaws zero_entropy.
Proof. split. simpl. intros n t E. case_decide; simplify_eq. rewrite len_zeros. lia. Qed.

Lemma stream_run_app n es n' es' n'' :
  stream_run n es n' → stream_run n' es' n'' → stream_run n (es ++ es') n''.
Proof. induction 1; simpl; [done|]. intros. eapply stream_run_cons; eauto. Qed.

Lemma seal_due s0 gs hs n f :
  streaming s0 gs hs n → due f (after s0 (gs ++ hs)) →
  ∃ n', stream_step n (Seal f (Ok tt)) n' ∧ streaming s0 gs (hs ++ [f]) n'.
Proof.
  intros Hst Hd. pose proof Hst as [Hs Hp Hse Hop Hw].
  pose proof (after_ok _ _ Hs Hp) as Hok.
  destruct (@seal_frame_run _ _ zero_entropy zero_entropy_laws f _ Hok Hd) as [r Hr].
  { pose proof (due_sized f _ Hok Hd) as Hsz. simpl. rewrite decide_True; [by eexists|].
    unfold ATTACHMENT_STREAM_PLAINTEXT_BYTES.
    destruct f; cbn [frame_sized frame_payload] in *; 
      unfold ATTACHMENT_STREAM_PAYLOAD_BYTES in *; (lia || done). }
  rewrite <- Hse in Hr. assert (stream_step n (Seal f (Ok tt))
    (mkStreamNet (advance f (sn_sealer n)) (sn_opener n) (sn_wire n ++ [r]))) as Hstep.
  { eapply (stream_sealed zero_entropy zero_entropy_laws). exact Hr. }
  destruct (streaming_step _ _ _ _ _ _ Hst Hstep) as (gs' & hs' & Hst' & -> & E).
  eexists. split; [exact Hstep|]. simpl in *. rewrite app_nil_r, <- (assoc_L (++)) in *.
  by apply app_inv_head in E as ->.
Qed.

Lemma seal_all s0 gs hs n fs :
  streaming s0 gs hs n → plays (after s0 (gs ++ hs)) fs →
  ∃ n', stream_run n ((λ f, Seal f (Ok tt)) <$> fs) n' ∧ streaming s0 gs (hs ++ fs) n'.
Proof.
  revert hs n. induction fs as [|f fs IH]; intros hs n Hst Hp.
  - exists n. split; [constructor|]. by rewrite app_nil_r.
  - destruct Hp as [Hd Hp]. destruct (seal_due _ _ _ _ _ Hst Hd) as (n1 & Hstep & H1).
    destruct (IH (hs ++ [f]) n1 H1) as (n2 & Hrun & H2).
    { by rewrite (assoc_L (++)), after_app. }
    exists n2. split; [by eapply stream_run_cons|]. by rewrite <- (assoc_L (++)) in H2.
Qed.

Lemma recorded_next s gs f hs rs : recorded s (gs ++ f :: hs) rs →
  ∃ r, r ∈ rs ∧ carries (after s gs) f r.
Proof.
  revert s rs. induction gs as [|g gs IH]; intros s [|r rs] H; simpl in *; try done.
  - exists r. split; [apply elem_of_cons; by left|apply H].
  - destruct H as [_ H]. destruct (IH _ _ H) as (q & ? & ?). exists q. split; [|done].
    apply elem_of_cons. by right.
Qed.

(** Outstanding records, delivered in order, are all accepted. *)
Lemma open_all s0 gs hs n :
  streaming s0 gs hs n →
  ∃ n', stream_run n ((λ f, Open (Ok f)) <$> hs) n' ∧ streaming s0 (gs ++ hs) [] n'.
Proof.
  revert gs n. induction hs as [|f hs IH]; intros gs n Hst.
  - exists n. split; [constructor|]. by rewrite app_nil_r.
  - pose proof (streaming_opener_ok _ _ _ _ Hst) as Hok. pose proof Hst as [Hs Hp Hse Hop Hw].
    destruct (recorded_next _ _ _ _ _ Hw) as (r & Hr & Hc). rewrite <- Hop in Hc.
    apply plays_app in Hp as [_ [Hd _]]. rewrite <- Hop in Hd.
    assert (stream_step n (Open (Ok f))
      (mkStreamNet (sn_sealer n) (advance f (sn_opener n)) (sn_wire n))) as Hstep.
    { eapply stream_delivered; [by left|]. by apply stream_open_run. }
    destruct (streaming_step _ _ _ _ _ _ Hst Hstep) as (gs' & hs' & H1 & -> & E).
    simpl in E. rewrite app_nil_r, <- (assoc_L (++)) in E. apply app_inv_head in E. simpl in E.
    injection E as ->. destruct (IH _ _ H1) as (n2 & Hrun & H2).
    exists n2. split; [by eapply stream_run_cons|]. by rewrite <- (assoc_L (++)) in H2.
Qed.

(** The frames an attachment is sent in. *)
Definition chunk (content : bytes) (i : Z) : bytes :=
  slice (i * P) (Z.min ((i + 1) * P) (len content)) content.
Definition chunks (content : bytes) (i j : nat) : list AttachmentFrame :=
  (λ k, Data (chunk content (Z.of_nat k))) <$> seq i j.
Definition stream_frames (content : bytes) (l : StreamLayout) : list AttachmentFrame :=
  chunks content 0 (Z.to_nat (sl_data_frames l))
    ++ replicate (Z.to_nat (sl_bucket_frames l - sl_data_frames l)) Padding ++ [End_].

Lemma P_pos : 0 < P.
Proof. done. Qed.

Lemma plays_chunks content i j s :
  stream_ok s → se_ended s = false → se_padding_frames s = 0 →
  sl_ciphertext_len (se_layout s) = len content → se_data_frames s = Z.of_nat i →
  Z.of_nat i + Z.of_nat j ≤ sl_data_frames (se_layout s) →
  plays s (chunks content i j) ∧
  se_data_frames (after s (chunks content i j)) = Z.of_nat (i + j) ∧
  se_padding_frames (after s (chunks content i j)) = 0 ∧
  se_ended (after s (chunks content i j)) = false.
Proof.
  revert i s. induction j as [|j IH]; intros i s Hs He Hp Hl Hi Hj.
  { simpl. by rewrite Nat.add_0_r. }
  assert (due (Data (chunk content (Z.of_nat i))) s) as Hd.
  { split; [done|]. rewrite Hl, Hi. split_and!; [done|lia|]. pose proof P_pos.
    destruct Hs as [(? & ? & ? & ?) _ _ _ _ _ _ _]. unfold chunk. rewrite len_slice by nia. lia. }
  change (chunks content i (S j)) with (Data (chunk content (Z.of_nat i)) :: chunks content (S i) j).
  destruct (IH (S i) (advance (Data (chunk content (Z.of_nat i))) s)) as (H1 & H2 & H3 & H4);
    [by apply advance_ok|done|done|done|simpl; lia|simpl; lia|].
  rewrite after_cons. split_and!; [by split|rewrite H2; lia|done|done].
Qed.

Lemma plays_padding j s :
  stream_ok s → se_ended s = false → se_data_frames s = sl_data_frames (se_layout s) →
  se_data_frames s + se_padding_frames s + Z.of_nat j = sl_bucket_frames (se_layout s) →
  plays s (replicate j Padding ++ [End_]) ∧ se_ended (after s (replicate j Padding ++ [End_])) = true.
Proof.
  revert s. induction j as [|j IH]; intros s Hs He Hd Hj.
  - pose proof Hs as [(? & ? & ? & ?) ? ? ? ? Hb ? ?]. simpl.
    split; [|done]. split; [|done]. split; [done|]. split; [rewrite Hb; lia|lia].
  - assert (due Padding s) as Hp by (split; [done|lia]).
    change (replicate (S j) Padding ++ [End_]) with (Padding :: replicate j Padding ++ [End_]).
    rewrite after_cons. destruct (IH (advance Padding s)) as [? ?];
      [by apply advance_ok|done|done|simpl; lia|]. done.
Qed.

Lemma chunks_data content i j :
  Z.of_nat i * P ≤ len content →
  frame_data (chunks content i j)
    = slice (Z.of_nat i * P) (Z.min (Z.of_nat (i + j) * P) (len content)) content.
Proof.
  pose proof P_pos. revert i. induction j as [|j IH]; intros i Hi.
  { rewrite Nat.add_0_r, Z.min_l by lia. unfold slice. by rewrite Z.sub_diag. }
  change (chunks content i (S j)) with (Data (chunk content (Z.of_nat i)) :: chunks content (S i) j).
  rewrite frame_data_cons. cbn [frame_payload]. unfold chunk.
  destruct (decide (Z.of_nat (S i) * P ≤ len content)) as [Hle|Hgt].
  - rewrite IH by done. rewrite (Z.min_l ((Z.of_nat i + 1) * P)) by lia.
    replace (S i + j)%nat with (i + S j)%nat by lia.
    rewrite (slice_split (Z.of_nat i * P) (Z.of_nat (S i) * P) (Z.min (Z.of_nat (i + S j) * P) _))
      by nia.
    by replace ((Z.of_nat i + 1) * P) with (Z.of_nat (S i) * P) by lia.
  - assert (frame_data (chunks content (S i) j) = []) as ->.
    { clear IH. unfold frame_data, chunks. apply concat_nil_Forall, Forall_fmap, Forall_fmap.
      apply Forall_seq. intros k Hk. simpl. unfold chunk, slice.
      replace (Z.to_nat _) with 0%nat by nia. done. }
    rewrite app_nil_r. f_equal. nia.
Qed.

Lemma frames_data content l :
  layout_ok l → sl_ciphertext_len l = len content →
  frame_data (stream_frames content l) = content.
Proof.
  intros (? & ? & ? & ?) Hl. unfold stream_frames, frame_data.
  rewrite !fmap_app, !concat_app. fold (frame_data (chunks content 0 (Z.to_nat (sl_data_frames l)))).
  rewrite chunks_data by (simpl; lia).
  assert (∀ k, concat (frame_payload <$> replicate k Padding) = []) as ->.
  { intros k. induction k; simpl; [done|]. done. }
  simpl. rewrite app_nil_r. apply slice_eq; [done|]. rewrite Z2Nat.id by lia. lia.
Qed.

Lemma recorded_length s fs rs : recorded s fs rs → len rs = len fs.
Proof.
  revert s rs. induction fs as [|f fs IH]; intros s [|r rs] H; simpl in *; try done.
  rewrite !len_cons. by rewrite (IH _ _ (proj2 H)).
Qed.

(** Both ends can be set up for every attachment of an allowed size. *)
Lemma stream_start_total {HL : HkdfLaws} b root d total :
  len (sb_node_public_key b) = 32 → len (sb_session_id b) = 32 → len (sb_operation_handle b) = 16 →
  root ≠ zeros 32 → 0 < total ≤ MAX_ATTACHMENT_CIPHERTEXT_BYTES →
  ∃ n, stream_start b root d total n.
Proof.
  intros H1 H2 H3 Hroot Ht. destruct (stream_layout_total total Ht) as [l Hl].
  assert (∃ k, derive_record_key root STREAM_PROTOCOL d (stream_context b) = Ok k) as [k Hk].
  { apply record_key_total; [done|].
    assert (len (stream_context b) = 135) as ->; [|done].
    unfold stream_context. rewrite len_canonical_parts. simpl. by rewrite H1, H2, H3. }
  eexists _, _, _, (sl_data_frames l), (sl_bucket_frames l).
  unfold into_sealer, into_opener. rewrite Hl. simpl. rewrite Hk. simpl. split; [done|].
  rewrite !bool_decide_false by naive_solver. by split.
Qed.

Lemma transfer_run {HL : HkdfLaws} b root d content :
  len (sb_node_public_key b) = 32 → len (sb_session_id b) = 32 → len (sb_operation_handle b) = 16 →
  root ≠ zeros 32 → 0 < len content ≤ MAX_ATTACHMENT_CIPHERTEXT_BYTES →
  ∃ n fs n',
    stream_start b root d (len content) n ∧
    stream_run n (((λ f, Seal f (Ok tt)) <$> fs) ++ ((λ f, Open (Ok f)) <$> fs)) n' ∧
    frame_data fs = content ∧ se_ended (sn_sealer n') = true ∧ se_ended (sn_opener n') = true ∧
    ∃ k, 0 ≤ k ∧ len (sn_wire n') = 2 ^ k + 1.
Proof.
  intros H1 H2 H3 Hroot Hlen. destruct (stream_start_total b root d (len content)) as [n Hn]; [done..|].
  exists n. pose proof Hn as (s0 & Hst & Hl & Hd & Hp & He & _)%start_streaming; [|lia].
  pose proof (st_start _ _ _ _ Hst) as Hs. set (l := se_layout s0) in *.
  destruct (stream_layout_Ok (len content) l) as [Hlay Htot]; [lia|done|]. pose proof Hlay as (? & ? & ? & ?).
  destruct (plays_chunks content 0 (Z.to_nat (sl_data_frames l)) s0) as (Hp1 & Hd1 & Hp2 & He1);
    [done..|fold l; lia|].
  set (cs := chunks content 0 (Z.to_nat (sl_data_frames l))) in *.
  destruct (after_same s0 cs) as (_ & _ & _ & El). fold l in El.
  destruct (plays_padding (Z.to_nat (sl_bucket_frames l - sl_data_frames l)) (after s0 cs))
    as [Hpp Hend]; [by apply after_ok|done|rewrite Hd1, <- El; lia|rewrite Hd1, Hp2, <- El; lia|].
  exists (stream_frames content l).
  assert (plays s0 (stream_frames content l)) as Hplay by (by apply plays_app).
  assert (se_ended (after s0 (stream_frames content l)) = true) as Hended.
  { unfold stream_frames. fold cs. by rewrite after_app. }
  destruct (seal_all _ _ _ _ _ Hst Hplay) as (n1 & Hrun1 & Hst1).
  destruct (open_all _ _ _ _ Hst1) as (n2 & Hrun2 & Hst2). simpl in *.
  exists n2. split; [done|]. split; [by eapply stream_run_app|].
  destruct Hst2 as [_ _ Hse Hop Hw]. rewrite app_nil_r in *. rewrite Hse, Hop.
  split_and!; [by apply frames_data|done|done|].
  destruct (stream_layout_power (len content) l) as (k & Hk & Ek); [lia|done|].
  exists k. split; [done|]. rewrite (recorded_length _ _ _ Hw), <- Ek.
  unfold stream_frames, chunks, len. rewrite !length_app, length_fmap, length_seq, length_replicate.
  simpl length. lia.
Qed.

(** ** Theorems *)

(** C37: over a network that drops, repeats, reorders and corrupts records,
    the frames the opener of an attachment stream accepts are a prefix of the
    frames the sealer sealed, and if it completes it has them all: the data
    is exactly what was sealed, and exactly as long as announced. *)
Theorem stream_integrity b root d total n es n' :
  0 ≤ total → stream_start b root d total n → stream_run n es n' →
  opened es `prefix_of` sealed es ∧
  (se_ended (sn_opener n') = true →
   opened es = sealed es ∧ len (frame_data (opened es)) = total).
Proof.
  intros Ht (s0 & Hst & Hlay & _ & _ & _ & Hb)%start_streaming Hrun; [|done].
  apply stream_layout_Ok in Hlay as [_ Htot]; [|done].
  destruct (streaming_run _ _ _ _ Hrun _ _ Hst) as (gs & hs & [Hs0 Hp Hse Hop _] & -> & E).
  simpl in *. split; [rewrite <- E; by apply prefix_app_r|]. intros He.
  apply plays_app in Hp as [Hp1 Hp2]. rewrite Hop in He.
  destruct (so_ended _ (after_ok _ _ Hs0 Hp1) He) as [Hbytes _].
  destruct (after_same s0 (opened es)) as (_ & _ & _ & El).
  rewrite after_bytes, <- El, Hb in Hbytes. split; [|lia].
  rewrite <- E. destruct hs as [|f hs]; [by rewrite app_nil_r|].
  destruct Hp2 as [[Hf _] _]. congruence.
Qed.

(** Every attachment of an allowed size goes through: both ends can be
    set up, sealing the frames of its content in order always succeeds, and
    delivering the records in order completes both ends with exactly the
    content.  The number of records is a power of two plus one, whatever the
    length. *)
Theorem stream_transfers {HL : HkdfLaws} b root d content :
  len (sb_node_public_key b) = 32 → len (sb_session_id b) = 32 → len (sb_operation_handle b) = 16 →
  root ≠ zeros 32 → 0 < len content ≤ MAX_ATTACHMENT_CIPHERTEXT_BYTES →
  ∃ n fs n',
    stream_start b root d (len content) n ∧
    stream_run n (((λ f, Seal f (Ok tt)) <$> fs) ++ ((λ f, Open (Ok f)) <$> fs)) n' ∧
    frame_data fs = content ∧ se_ended (sn_sealer n') = true ∧ se_ended (sn_opener n') = true ∧
    ∃ k, 0 ≤ k ∧ len (sn_wire n') = 2 ^ k + 1.
Proof. apply transfer_run. Qed.
End net.

(** ** Concrete runs *)

Import Demo.

Definition demo_stream_binding : AttachmentStreamBinding :=
  mkStreamBinding (replicate 32 Byte.x01) (replicate 32 Byte.x02) (replicate 16 Byte.x03).
Definition demo_stream_root : bytes := replicate 32 Byte.x07.
Definition demo_content : bytes := text_bytes "attachment".

Lemma stream_integrity_witness :
  ∃ n es n',
    stream_start demo_stream_binding demo_stream_root ClientToServer 10 n ∧ stream_run n es n' ∧
    opened es = sealed es ∧ len (frame_data (opened es)) = 10.
Proof.
  destruct (transfer_run demo_stream_binding demo_stream_root ClientToServer demo_content)
    as (n & fs & n' & H1 & H2 & H3 & _ & H4 & _).
  - reflexivity.
  - reflexivity.
  - reflexivity.
  - discriminate.
  - split; vm_compute; (reflexivity || discriminate).
  - eexists n, _, n'. split; [exact H1|]. split; [exact H2|].
    exact (proj2 (stream_integrity demo_stream_binding demo_stream_root ClientToServer 10
             n _ n' ltac:(lia) H1 H2) H4).
Defined.
