(* ===== verification/Handshake.v ===== *)
(** * WebSocket handshake (abyssal-transport/src/handshake.rs)

    Two fixed-size messages: the client's carries its nonce and a one-time
    ticket, the server's answers with its own nonce; both are sealed under
    keys derived from the session's transport root. *)

From S2P Require Import Prelude TransportWire TransportReader Records RecordChannel RecordTheorems.

Definition WS_HELLO_MAGIC : bytes := text_bytes "ABW2".
Definition MAX_WS_TICKET_BYTES : Z := 43.
Definition WS_HELLO_HEADER_BYTES : Z := 4 + 1 + 1 + 32 + 32.
Definition WS_HELLO_PLAINTEXT_BYTES : Z := 64.
Definition WS_HELLO_CIPHERTEXT_BYTES : Z := WS_HELLO_PLAINTEXT_BYTES + TAG_BYTES.
Definition WS_CLIENT_HELLO_BYTES : Z := WS_HELLO_HEADER_BYTES + WS_HELLO_CIPHERTEXT_BYTES.
Definition WS_CLIENT_KIND : byte := Byte.x01.
Definition WS_SERVER_KIND : byte := Byte.x02.
Definition CLIENT_TICKET_DOMAIN : bytes := text_bytes "ABYSSAL-TRANSPORT-V11-WS-CLIENT-HELLO".
Definition SERVER_HELLO_DOMAIN : bytes := text_bytes "ABYSSAL-TRANSPORT-V11-WS-SERVER-HELLO".

(** [DecodedHello] and [WsClientHelloHeader]. *)
Record WsClientHelloHeader : Type := mkHelloHeader {
  ch_session_id : bytes;
  ch_client_nonce : bytes
}.

Record WsServerHelloHeader : Type := mkServerHelloHeader {
  sh_session_id : bytes;
  sh_client_nonce : bytes;
  sh_server_nonce : bytes
}.

(** ** Parts *)

Definition validate_material (root session_id client_nonce : bytes) : res () :=
  reject_if
    (bool_decide (root = zeros 32) || bool_decide (session_id = zeros 32)
     || bool_decide (client_nonce = zeros 32)) InvalidInput.

(** [client_context] and [server_context]. *)
Definition hello_context (domain node_public_key session_id client_nonce : bytes) : bytes :=
  canonical_parts [domain; node_public_key; session_id; client_nonce].
Definition client_context : bytes → bytes → bytes → bytes := hello_context CLIENT_TICKET_DOMAIN.
Definition server_context : bytes → bytes → bytes → bytes := hello_context SERVER_HELLO_DOMAIN.

(** [client_header] and [server_header]. *)
Definition hello_header (kind : byte) (session_id client_nonce : bytes) : bytes :=
  WS_HELLO_MAGIC ++ [TRANSPORT_VERSION; kind] ++ session_id ++ client_nonce.
Definition client_header : bytes → bytes → bytes := hello_header WS_CLIENT_KIND.
Definition server_header : bytes → bytes → bytes := hello_header WS_SERVER_KIND.

Definition decode_hello (input : bytes) (expected_kind : byte) :
    res (WsClientHelloHeader * bytes) :=
  _ ← reject_if (bool_decide (len input ≠ WS_HELLO_HEADER_BYTES + WS_HELLO_CIPHERTEXT_BYTES))
        (if bool_decide (WS_CLIENT_HELLO_BYTES < len input) then TooLarge else NonCanonical);
  _ ← reject_if
        (bool_decide (slice 0 4 input ≠ WS_HELLO_MAGIC)
         || bool_decide (input !! 4%nat ≠ Some TRANSPORT_VERSION)
         || bool_decide (input !! 5%nat ≠ Some expected_kind)) NonCanonical;
  session_id ← array_of 32 (slice 6 38 input);
  client_nonce ← array_of 32 (slice 38 70 input);
  _ ← reject_if
        (bool_decide (session_id = zeros 32) || bool_decide (client_nonce = zeros 32))
        NonCanonical;
  ciphertext ← ok_or (get_range WS_HELLO_HEADER_BYTES (len input) input) NonCanonical;
  Ok (mkHelloHeader session_id client_nonce, ciphertext).

Definition inspect_ws_client_hello (input : bytes) : res WsClientHelloHeader :=
  '(header, _) ← decode_hello input WS_CLIENT_KIND; Ok header.

Definition inspect_ws_server_hello (input : bytes) : res WsServerHelloHeader :=
  '(header, _) ← decode_hello input WS_SERVER_KIND;
  Ok (mkServerHelloHeader (ch_session_id header) (ch_client_nonce header) (zeros 32)).

Section handshake.
Context {AE : Aead} {HK : Hkdf}.

Definition derive_handshake_material (root domain context : bytes) : res (bytes * bytes) :=
  let info := canonical_parts [domain; context] in
  key ← ok_or (hkdf_expand domain root info 32) InvalidInput;
  let nonce_info := canonical_parts [text_bytes "nonce"; info] in
  nonce ← ok_or (hkdf_expand domain key nonce_info 12) InvalidInput;
  Ok (key, nonce).

(** ** Client hello *)

Definition seal_ws_client_hello {EN : Entropy} (transport_root node_public_key session_id
    client_nonce ticket : bytes) : res bytes :=
  _ ← reject_if (bool_decide (node_public_key = zeros 32)) InvalidInput;
  _ ← validate_material transport_root session_id client_nonce;
  _ ← reject_if (bool_decide (ticket = []) || bool_decide (MAX_WS_TICKET_BYTES < len ticket))
        (if bool_decide (MAX_WS_TICKET_BYTES < len ticket) then TooLarge else InvalidInput);
  let header := client_header session_id client_nonce in
  let context := client_context node_public_key session_id client_nonce in
  '(key, nonce) ← derive_handshake_material transport_root CLIENT_TICKET_DOMAIN context;
  plaintext ← padded WS_HELLO_PLAINTEXT_BYTES (be_bytes 2 (len ticket)) ticket;
  ciphertext ← ok_or (encrypt key nonce header plaintext) AuthenticationFailed;
  Ok (header ++ ciphertext).

Definition open_ws_client_hello (transport_root node_public_key input : bytes) :
    res (WsClientHelloHeader * bytes) :=
  _ ← reject_if (bool_decide (node_public_key = zeros 32)) InvalidInput;
  '(header, ciphertext) ← decode_hello input WS_CLIENT_KIND;
  _ ← validate_material transport_root (ch_session_id header) (ch_client_nonce header);
  let context := client_context node_public_key (ch_session_id header) (ch_client_nonce header) in
  '(key, nonce) ← derive_handshake_material transport_root CLIENT_TICKET_DOMAIN context;
  plaintext ← ok_or (decrypt key nonce (slice 0 WS_HELLO_HEADER_BYTES input) ciphertext)
                AuthenticationFailed;
  length ← array_of 2 (slice 0 2 plaintext);
  let ticket_len := be_value length in
  _ ← reject_if (bool_decide (ticket_len = 0) || bool_decide (MAX_WS_TICKET_BYTES < ticket_len))
        NonCanonical;
  Ok (header, slice 2 (2 + ticket_len) plaintext).

(** ** Server hello *)

Definition seal_ws_server_hello {EN : Entropy} (transport_root node_public_key session_id
    client_nonce server_nonce : bytes) : res bytes :=
  _ ← reject_if (bool_decide (node_public_key = zeros 32)) InvalidInput;
  _ ← validate_material transport_root session_id client_nonce;
  _ ← reject_if (bool_decide (server_nonce = zeros 32)) InvalidInput;
  let header := server_header session_id client_nonce in
  let context := server_context node_public_key session_id client_nonce in
  '(key, nonce) ← derive_handshake_material transport_root SERVER_HELLO_DOMAIN context;
  plaintext ← padded WS_HELLO_PLAINTEXT_BYTES [] server_nonce;
  ciphertext ← ok_or (encrypt key nonce header plaintext) AuthenticationFailed;
  Ok (header ++ ciphertext).

Definition open_ws_server_hello (transport_root node_public_key expected_session_id
    expected_client_nonce input : bytes) : res bytes :=
  _ ← reject_if (bool_decide (node_public_key = zeros 32)) InvalidInput;
  '(header, ciphertext) ← decode_hello input WS_SERVER_KIND;
  _ ← reject_if
        (bool_decide (ch_session_id header ≠ expected_session_id)
         || bool_decide (ch_client_nonce header ≠ expected_client_nonce)) AuthenticationFailed;
  _ ← validate_material transport_root (ch_session_id header) (ch_client_nonce header);
  let context := server_context node_public_key (ch_session_id header) (ch_client_nonce header) in
  '(key, nonce) ← derive_handshake_material transport_root SERVER_HELLO_DOMAIN context;
  plaintext ← ok_or (decrypt key nonce (slice 0 WS_HELLO_HEADER_BYTES input) ciphertext)
                AuthenticationFailed;
  server_nonce ← array_of 32 (slice 0 32 plaintext);
  connection_nonce server_nonce.
End handshake.

(** ** A hello decodes to what it carries *)

Lemma len_hello_header k s c : len s = 32 → len c = 32 → len (hello_header k s c) = 70.
Proof. intros. unfold hello_header. rewrite !len_app. change (len WS_HELLO_MAGIC) with 4.
  change (len [_; _]) with 2. lia. Qed.

Lemma array_of_Ok n v a : array_of n v = Ok a ↔ len v = n ∧ a = v.
Proof. unfold array_of. case_bool_decide; simpl; naive_solver. Qed.

Definition hello_ids (s c : bytes) : Prop :=
  len s = 32 ∧ len c = 32 ∧ s ≠ zeros 32 ∧ c ≠ zeros 32.

Lemma decode_hello_Ok input k hd ct :
  decode_hello input k = Ok (hd, ct) ↔
  hello_ids (ch_session_id hd) (ch_client_nonce hd) ∧ len ct = WS_HELLO_CIPHERTEXT_BYTES ∧
  input = hello_header k (ch_session_id hd) (ch_client_nonce hd) ++ ct.
Proof.
  unfold decode_hello, get_range, hello_ids, WS_HELLO_CIPHERTEXT_BYTES, WS_HELLO_HEADER_BYTES,
    WS_HELLO_PLAINTEXT_BYTES, TAG_BYTES. simpl Z.add. split.
  - intros Hr. apply bind_Ok in Hr as (? & Hl & Hr). apply bind_Ok in Hr as (? & Hc & Hr).
    apply bind_Ok in Hr as (s & [Hs ->]%array_of_Ok & Hr).
    apply bind_Ok in Hr as (c & [Hcn ->]%array_of_Ok & Hr). apply bind_Ok in Hr as (? & Hz & Hr).
    apply bind_Ok in Hr as (ct' & Hct & [= <- <-]). open_enc. simpl.
    apply ok_or_Ok in Hct. case_decide; simplify_eq.
    assert (slice 4 5 input = [TRANSPORT_VERSION]) as E4 by (by apply (slice_lookup input 4)).
    assert (slice 5 6 input = [k]) as E5 by (by apply (slice_lookup input 5)).
    rewrite (len_slice 70) by lia. split_and!; try done; try lia.
    transitivity (slice 0 (len input) input); [by rewrite slice_all|].
    rewrite (slice_split 0 4), (slice_split 4 5), (slice_split 5 6), (slice_split 6 38),
      (slice_split 38 70) by lia.
    unfold hello_header. rewrite E4, E5. fold_known. by rewrite <- !(assoc_L (++)).
  - intros ((H1 & H2 & H3 & H4) & Hl & ->). destruct hd as [s c]. cbn [ch_session_id ch_client_nonce] in *.
    pose proof (len_hello_header k s c H1 H2) as Hh.
    assert (len (hello_header k s c ++ ct) = 150) as Hlen by (rewrite len_app; lia).
    assert (slice 6 38 (hello_header k s c ++ ct) = s ∧ slice 38 70 (hello_header k s c ++ ct) = c)
      as [E1 E2].
    { unfold hello_header. set (p := WS_HELLO_MAGIC ++ [TRANSPORT_VERSION; k]).
      replace (WS_HELLO_MAGIC ++ [TRANSPORT_VERSION; k] ++ s ++ c) with (p ++ s ++ c) by done.
      assert (len p = 6) as Hp by done. clearbody p. rewrite <- !(assoc_L (++)).
      split; by slices. }
    rewrite Hlen, E1, E2. change (slice 0 4 _) with WS_HELLO_MAGIC.
    change ((hello_header k s c ++ ct) !! 4%nat) with (Some TRANSPORT_VERSION).
    change ((hello_header k s c ++ ct) !! 5%nat) with (Some k).
    rewrite !(bool_decide_false (_ ≠ _)) by naive_solver. go.
    rewrite (proj2 (array_of_Ok 32 s s)), (proj2 (array_of_Ok 32 c c)) by done. go.
    rewrite !bool_decide_false by done. go. rewrite decide_True by lia. go.
    by rewrite slice_app_r, slice_eq by lia.
Qed.

Lemma validate_material_Ok r s c u :
  validate_material r s c = Ok u ↔ r ≠ zeros 32 ∧ s ≠ zeros 32 ∧ c ≠ zeros 32.
Proof.
  unfold validate_material. rewrite reject_if_Ok, !orb_false_iff, !bool_decide_eq_false. tauto.
Qed.

Section exact.
Context {AE : Aead} {AL : AeadLaws} {HK : Hkdf}.

(** The hello that carries a plaintext. *)
Definition hello_record (kind : byte) (domain root npk s c pt input : bytes) : Prop :=
  npk ≠ zeros 32 ∧ root ≠ zeros 32 ∧ s ≠ zeros 32 ∧ c ≠ zeros 32 ∧ len pt = 64 ∧
  ∃ key nonce ct,
    derive_handshake_material root domain (hello_context domain npk s c) = Ok (key, nonce) ∧
    encrypt key nonce (hello_header kind s c) pt = Some ct ∧ input = hello_header kind s c ++ ct.

Definition ticket_pt (ticket pt : bytes) : Prop :=
  0 < len ticket ≤ MAX_WS_TICKET_BYTES ∧ ∃ tail, pt = be_bytes 2 (len ticket) ++ ticket ++ tail.

Lemma seal_client_Ok {EN : Entropy} {EL : EntropyLaws} root npk s c t input :
  seal_ws_client_hello root npk s c t = Ok input →
  ∃ pt, ticket_pt t pt ∧ hello_record WS_CLIENT_KIND CLIENT_TICKET_DOMAIN root npk s c pt input.
Proof.
  unfold seal_ws_client_hello. intros Hr. apply bind_Ok in Hr as (? & Hn & Hr).
  apply bind_Ok in Hr as (? & (? & ? & ?)%validate_material_Ok & Hr).
  apply bind_Ok in Hr as (? & Ht & Hr). apply bind_Ok in Hr as ([key nonce] & Hk & Hr).
  apply bind_Ok in Hr as (pt & (tail & -> & Hl)%padded_Ok & Hr).
  apply bind_Ok in Hr as (ct & Hct%ok_or_Ok & [= <-]). open_enc.
  rewrite len_pos in *. eexists. split; [split; [lia|by eexists]|].
  split_and!; try done. by exists key, nonce, ct.
Qed.

Lemma seal_client_run root npk s c t pt input :
  ticket_pt t pt → hello_record WS_CLIENT_KIND CLIENT_TICKET_DOMAIN root npk s c pt input →
  ∃ EN : Entropy, EntropyLaws ∧ seal_ws_client_hello root npk s c t = Ok input.
Proof.
  intros (Ht & tail & ->) (? & ? & ? & ? & Hl & key & nonce & ct & Hk & Hct & ->).
  exists (constant_entropy tail). split; [apply constant_entropy_laws|].
  unfold seal_ws_client_hello, client_context.
  assert (t ≠ []) by (apply len_pos; lia).
  rewrite bool_decide_false by done. go.
  rewrite (proj2 (validate_material_Ok _ _ _ tt)) by done. go.
  rewrite !bool_decide_false by (done || lia). go. rewrite Hk. go.
  rewrite padded_constant by done. go. unfold client_header. by rewrite Hct.
Qed.

Lemma open_client_Ok root npk input s c t :
  open_ws_client_hello root npk input = Ok (mkHelloHeader s c, t) ↔
  len s = 32 ∧ len c = 32 ∧
  ∃ pt, ticket_pt t pt ∧ hello_record WS_CLIENT_KIND CLIENT_TICKET_DOMAIN root npk s c pt input.
Proof.
  unfold open_ws_client_hello, client_context, WS_HELLO_HEADER_BYTES. simpl Z.add. split.
  - intros Hr. apply bind_Ok in Hr as (? & Hn & Hr). apply bind_Ok in Hr as ([hd ct] & Hd & Hr).
    apply decode_hello_Ok in Hd as ((? & ? & ? & ?) & Hlc & ->).
    apply bind_Ok in Hr as (? & (? & _ & _)%validate_material_Ok & Hr).
    apply bind_Ok in Hr as ([key nonce] & Hk & Hr). apply bind_Ok in Hr as (pt & Hpt%ok_or_Ok & Hr).
    apply bind_Ok in Hr as (l & [Hl2 ->]%array_of_Ok & Hr).
    apply bind_Ok in Hr as (? & Ht & [= -> <-]). open_enc. cbn [ch_session_id ch_client_nonce] in *.
    rewrite slice_app_l, slice_eq in Hpt by (rewrite ?len_hello_header by done; lia).
    apply decrypt_tidy in Hpt. pose proof (encrypt_len _ _ _ _ _ Hpt) as Hl. rewrite Hlc in Hl.
    unfold WS_HELLO_CIPHERTEXT_BYTES, WS_HELLO_PLAINTEXT_BYTES, MAX_WS_TICKET_BYTES in *.
    pose proof (be_value_range (slice 0 2 pt)). set (n := be_value (slice 0 2 pt)) in *.
    assert (len (slice 2 (2 + n) pt) = n) as Hn' by (rewrite len_slice; lia).
    split_and!; [done|done|]. exists pt. split.
    + split; [unfold MAX_WS_TICKET_BYTES; lia|]. exists (slice (2 + n) (len pt) pt). rewrite Hn'.
      unfold n. rewrite be_bytes_of_value by done. fold n.
      transitivity (slice 0 (len pt) pt); [by rewrite slice_all|].
      by rewrite (slice_split 0 2), (slice_split 2 (2 + n)) by lia.
    + split_and!; try done; [lia|]. by exists key, nonce, ct.
  - intros (Hs & Hc & pt & (Ht & tail & Ept) & (? & ? & ? & ? & Hl & key & nonce & ct & Hk & Hct & ->)).
    pose proof (encrypt_len _ _ _ _ _ Hct) as Hlc. unfold MAX_WS_TICKET_BYTES in *.
    rewrite bool_decide_false by done. go.
    rewrite (proj2 (decode_hello_Ok _ WS_CLIENT_KIND (mkHelloHeader s c) ct)).
    2:{ split_and!; try done. by rewrite Hlc, Hl. }
    cbn [mbind result_bind ch_session_id ch_client_nonce].
    rewrite (proj2 (validate_material_Ok _ _ _ tt)) by done. go. rewrite Hk. go.
    rewrite slice_app_l, slice_eq by (rewrite ?len_hello_header by done; lia).
    rewrite (decrypt_encrypt _ _ _ _ _ Hct). go. rewrite Ept at 1.
    rewrite slice_app_l, slice_eq by (rewrite ?len_be_bytes; lia).
    rewrite (proj2 (array_of_Ok 2 (be_bytes 2 (len t)) _) (conj (len_be_bytes 2 _) eq_refl)). go.
    rewrite be_value_be_bytes by (change (256 ^ _) with 65536; lia).
    rewrite !bool_decide_false by lia. go. rewrite Ept.
    by rewrite slice_app by (rewrite len_be_bytes; lia).
Qed.

Definition nonce_pt (sn pt : bytes) : Prop :=
  len sn = 32 ∧ sn ≠ zeros 32 ∧ ∃ tail, pt = sn ++ tail.

Lemma seal_server_Ok {EN : Entropy} {EL : EntropyLaws} root npk s c sn input : len sn = 32 →
  seal_ws_server_hello root npk s c sn = Ok input →
  ∃ pt, nonce_pt sn pt ∧ hello_record WS_SERVER_KIND SERVER_HELLO_DOMAIN root npk s c pt input.
Proof.
  unfold seal_ws_server_hello. intros Hsn Hr. apply bind_Ok in Hr as (? & Hn & Hr).
  apply bind_Ok in Hr as (? & (? & ? & ?)%validate_material_Ok & Hr).
  apply bind_Ok in Hr as (? & Ht & Hr). apply bind_Ok in Hr as ([key nonce] & Hk & Hr).
  apply bind_Ok in Hr as (pt & (tail & -> & Hl)%padded_Ok & Hr).
  apply bind_Ok in Hr as (ct & Hct%ok_or_Ok & [= <-]). open_enc.
  eexists. split; [split_and!; [done|done|by eexists]|].
  split_and!; try done. by exists key, nonce, ct.
Qed.

Lemma seal_server_run root npk s c sn pt input :
  nonce_pt sn pt → hello_record WS_SERVER_KIND SERVER_HELLO_DOMAIN root npk s c pt input →
  ∃ EN : Entropy, EntropyLaws ∧ seal_ws_server_hello root npk s c sn = Ok input.
Proof.
  intros (Hsn & Hz & tail & ->) (? & ? & ? & ? & Hl & key & nonce & ct & Hk & Hct & ->).
  exists (constant_entropy tail). split; [apply constant_entropy_laws|].
  unfold seal_ws_server_hello, server_context. rewrite bool_decide_false by done. go.
  rewrite (proj2 (validate_material_Ok _ _ _ tt)) by done. go.
  rewrite bool_decide_false by done. go. rewrite Hk. go.
  rewrite (padded_constant _ [] sn) by done. go. unfold server_header.
  by rewrite app_nil_l, Hct.
Qed.

Lemma open_server_Ok root npk s c input sn :
  open_ws_server_hello root npk s c input = Ok sn ↔
  len s = 32 ∧ len c = 32 ∧
  ∃ pt, nonce_pt sn pt ∧ hello_record WS_SERVER_KIND SERVER_HELLO_DOMAIN root npk s c pt input.
Proof.
  unfold open_ws_server_hello, server_context, WS_HELLO_HEADER_BYTES, connection_nonce.
  simpl Z.add. split.
  - intros Hr. apply bind_Ok in Hr as (? & Hn & Hr). apply bind_Ok in Hr as ([hd ct] & Hd & Hr).
    apply decode_hello_Ok in Hd as ((? & ? & ? & ?) & Hlc & ->).
    apply bind_Ok in Hr as (? & Hids & Hr).
    apply bind_Ok in Hr as (? & (? & _ & _)%validate_material_Ok & Hr).
    apply bind_Ok in Hr as ([key nonce] & Hk & Hr). apply bind_Ok in Hr as (pt & Hpt%ok_or_Ok & Hr).
    apply bind_Ok in Hr as (l & [Hl2 ->]%array_of_Ok & Hr). apply bind_Ok in Hr as (? & Hz & [= <-]).
    open_enc. cbn [ch_session_id ch_client_nonce] in *.
    rewrite slice_app_l, slice_eq in Hpt by (rewrite ?len_hello_header by done; lia).
    apply decrypt_tidy in Hpt. pose proof (encrypt_len _ _ _ _ _ Hpt) as Hl. rewrite Hlc in Hl.
    unfold WS_HELLO_CIPHERTEXT_BYTES, WS_HELLO_PLAINTEXT_BYTES in *.
    split_and!; [done|done|]. exists pt. split.
    + split_and!; [done|done|]. exists (slice 32 (len pt) pt).
      rewrite <- slice_split by lia. by rewrite slice_all.
    + split_and!; try done; [lia|]. by exists key, nonce, ct.
  - intros (Hs & Hc & pt & (Hsn & Hz & tail & Ept) & (? & ? & ? & ? & Hl & key & nonce & ct & Hk & Hct & ->)).
    pose proof (encrypt_len _ _ _ _ _ Hct) as Hlc.
    rewrite bool_decide_false by done. go.
    rewrite (proj2 (decode_hello_Ok _ WS_SERVER_KIND (mkHelloHeader s c) ct)).
    2:{ split_and!; try done. by rewrite Hlc, Hl. }
    cbn [mbind result_bind ch_session_id ch_client_nonce].
    rewrite !(bool_decide_false (_ ≠ _)) by naive_solver. go.
    rewrite (proj2 (validate_material_Ok _ _ _ tt)) by done. go. rewrite Hk. go.
    rewrite slice_app_l, slice_eq by (rewrite ?len_hello_header by done; lia).
    rewrite (decrypt_encrypt _ _ _ _ _ Hct). go. rewrite Ept.
    rewrite slice_app_l, slice_eq by lia.
    rewrite (proj2 (array_of_Ok 32 sn sn)) by done. go. by rewrite bool_decide_false.
Qed.

(** The client and the server hello are exact.  A hello opens, with a
    session, a client nonce and a ticket or a server nonce, exactly when sealing
    these values under the same root and node key produces it for some padding:
    no other byte string of any length opens. *)
Theorem hello_exact root npk input s c t sn :
  (open_ws_client_hello root npk input = Ok (mkHelloHeader s c, t) ↔
   len s = 32 ∧ len c = 32 ∧
   ∃ EN : Entropy, EntropyLaws ∧ seal_ws_client_hello root npk s c t = Ok input) ∧
  (open_ws_server_hello root npk s c input = Ok sn ↔
   len s = 32 ∧ len c = 32 ∧ len sn = 32 ∧
   ∃ EN : Entropy, EntropyLaws ∧ seal_ws_server_hello root npk s c sn = Ok input).
Proof.
  rewrite open_client_Ok, open_server_Ok. split; split.
  - intros (? & ? & pt & Ht & Hr). split_and!; [done..|]. by eapply seal_client_run.
  - intros (? & ? & EN & EL & Hr). split_and!; [done..|]. by apply seal_client_Ok.
  - intros (? & ? & pt & Ht & Hr). pose proof Ht as [? _]. split_and!; [done..|].
    by eapply seal_server_run.
  - intros (? & ? & ? & EN & EL & Hr). split_and!; [done..|]. by apply seal_server_Ok.
Qed.

(** ** The handshake sets up one channel *)

Lemma ws_context_len b :
  len (wb_session_id b) = 32 → len (wb_client_nonce b) = 32 → len (wb_server_nonce b) = 32 →
  len (ws_key_context b) = 147.
Proof.
  intros H1 H2 H3. unfold ws_key_context. rewrite len_canonical_parts. simpl. rewrite H1, H2, H3. done.
Qed.

(** An end of a direction that has not sealed or opened a record yet, under the
    key of the binding for that direction. *)
Definition fresh_end (root : bytes) (b : WsConnectionBinding) (d : Direction) (e : WsEnd) : Prop :=
  derive_record_key root (text_bytes "WS") d (ws_key_context b) = Ok (we_key e) ∧
  we_direction e = d ∧ we_next_counter e = 0.

(** C38: the handshake sets up one channel.  If the client and the server seal
    their hellos for the same root and session with distinct nonces, each opens the
    other's to the values sealed, the binding built from the nonces they exchanged
    is accepted, and the two sides derive one pair of record states from it: what
    the client seals with is what the server opens with and the other way round,
    the first under the key of the direction to the server and the second under the
    key of the direction to the client, both before their first record. *)
Theorem handshake_connects {HL : HkdfLaws} {EN : Entropy} {EL : EntropyLaws}
    root npk s c t sn hello answer :
  len s = 32 → len c = 32 → len sn = 32 → sn ≠ c →
  seal_ws_client_hello root npk s c t = Ok hello →
  seal_ws_server_hello root npk s c sn = Ok answer →
  open_ws_client_hello root npk hello = Ok (mkHelloHeader s c, t) ∧
  open_ws_server_hello root npk s c answer = Ok sn ∧
  ∃ b up down,
    ws_binding s c sn = Ok b ∧
    ws_into_client b root = Ok (up, down) ∧ ws_into_server b root = Ok (down, up) ∧
    fresh_end root b ClientToServer up ∧ fresh_end root b ServerToClient down.
Proof.
  intros Hs Hc Hsn Hne Hhello Hanswer.
  apply seal_client_Ok in Hhello as (pt & Ht & Hr). apply seal_server_Ok in Hanswer as (pt' & Hp & Hr'); [|done].
  split; [apply open_client_Ok; eauto|]. split; [apply open_server_Ok; eauto|].
  destruct Hr as (_ & Hroot & Hsz & _). unfold ws_binding.
  exists (mkWsBinding s c sn). rewrite !bool_decide_false by congruence. simpl.
  pose proof (ws_context_len (mkWsBinding s c sn) Hs Hc Hsn) as Hctx.
  destruct (record_key_total root (text_bytes "WS") ClientToServer (ws_key_context (mkWsBinding s c sn)))
    as [k1 Hk1]; [done|rewrite Hctx; done|].
  destruct (record_key_total root (text_bytes "WS") ServerToClient (ws_key_context (mkWsBinding s c sn)))
    as [k2 Hk2]; [done|rewrite Hctx; done|].
  unfold fresh_end, ws_into_client, ws_into_server, ws_end. rewrite Hk1, Hk2. simpl.
  by exists (mkWsEnd k1 ClientToServer 0), (mkWsEnd k2 ServerToClient 0).
Qed.
End exact.

(** ** A concrete handshake *)

Import Demo.

Definition demo_npk : bytes := replicate 32 Byte.x04.
Definition demo_session : bytes := replicate 32 Byte.x01.
Definition demo_client_nonce : bytes := replicate 32 Byte.x02.
Definition demo_server_nonce : bytes := replicate 32 Byte.x03.
Definition demo_ticket : bytes := text_bytes "ticket".
Definition demo_hello : bytes :=
  default [] (ok (seal_ws_client_hello demo_root demo_npk demo_session demo_client_nonce demo_ticket)).
Definition demo_answer : bytes :=
  default [] (ok (seal_ws_server_hello demo_root demo_npk demo_session demo_client_nonce
                    demo_server_nonce)).

Lemma handshake_connects_witness :
  open_ws_client_hello demo_root demo_npk demo_hello
    = Ok (mkHelloHeader demo_session demo_client_nonce, demo_ticket) ∧
  open_ws_server_hello demo_root demo_npk demo_session demo_client_nonce demo_answer
    = Ok demo_server_nonce ∧
  ∃ b up down,
    ws_binding demo_session demo_client_nonce demo_server_nonce = Ok b ∧
    ws_into_client b demo_root = Ok (up, down) ∧ ws_into_server b demo_root = Ok (down, up) ∧
    fresh_end demo_root b ClientToServer up ∧ fresh_end demo_root b ServerToClient down.
Proof.
  apply handshake_connects.
  - reflexivity.
  - reflexivity.
  - reflexivity.
  - discriminate.
  - vm_compute. reflexivity.
  - vm_compute. reflexivity.
Defined.

Lemma hello_exact_witness :
  open_ws_client_hello demo_root demo_npk demo_hello
    = Ok (mkHelloHeader demo_session demo_client_nonce, demo_ticket).
Proof.
  apply (proj2 (proj1 (hello_exact demo_root demo_npk demo_hello demo_session demo_client_nonce
                         demo_ticket []))).
  split; [reflexivity|]. split; [reflexivity|].
  exists demo_entropy. split; [exact demo_entropy_laws|]. vm_compute. reflexivity.
Defined.
