(* ===== verification/Bootstrap.v ===== *)
(** * Bootstrap exchanges (abyssal-transport/src/bootstrap.rs)

    One request sealed to the node's HPKE key and one response under a key
    exported from the same HPKE context; and the guard that refuses a request
    identifier it has already accepted. *)

From S2P Require Import Prelude TransportWire TransportReader RecordChannel RecordTheorems.

Definition BOOTSTRAP_MAGIC : bytes := text_bytes "ABH1".
Definition BOOTSTRAP_HEADER_BYTES : Z := 4 + 1 + 32 + 32 + 4.
Definition BOOTSTRAP_DOMAIN : bytes := text_bytes "ABYSSAL-TRANSPORT-V11-BOOTSTRAP".
Definition RESPONSE_EXPORT_DOMAIN : bytes := text_bytes "ABYSSAL-TRANSPORT-V11-BOOTSTRAP-RESPONSE".

(** ** The [hpke] crate *)

(** Base mode of DHKEM(X25519) with ChaCha20-Poly1305.  A context seals or
    opens one message here, so its sequence number does not appear; the
    sender's ephemeral key is an argument. *)
Class Hpke : Type := {
  HpkeSender : Type;
  HpkeReceiver : Type;
  kem_public_ok : bytes → bool;
  kem_private_ok : bytes → bool;
  encapped_ok : bytes → bool;
  setup_sender : bytes → bytes → bytes → option (bytes * HpkeSender);
  setup_receiver : bytes → bytes → bytes → option HpkeReceiver;
  hpke_seal : HpkeSender → bytes → bytes → option bytes;
  hpke_open : HpkeReceiver → bytes → bytes → option bytes;
  sender_export : HpkeSender → bytes → Z → option bytes;
  receiver_export : HpkeReceiver → bytes → Z → option bytes
}.

(** RFC 9180: a receiver set up with the private key of the public key the
    sender used opens what the sender sealed and exports the same secrets;
    an encapsulated key has 32 bytes, a ciphertext 16 more than its message. *)
Class HpkeLaws `{Hpke} (sk pk : bytes) : Prop := {
  hpke_agree eph info enc snd :
    setup_sender eph pk info = Some (enc, snd) →
    len enc = 32 ∧ encapped_ok enc = true ∧
    ∃ rcv, setup_receiver sk enc info = Some rcv ∧
      (∀ m aad c, hpke_seal snd m aad = Some c →
         len c = len m + TAG_BYTES ∧ hpke_open rcv c aad = Some m) ∧
      (∀ ctx n, sender_export snd ctx n = receiver_export rcv ctx n)
}.

(** ** Contexts and records *)

Record BootstrapContext : Type := mkBootstrapContext {
  bc_node_signing_public_key : bytes;
  bc_bootstrap_hpke_public_key : bytes;
  bc_operation : bytes;
  bc_request_id : bytes
}.

Record BootstrapRequestHeader : Type := mkBootstrapRequestHeader {
  bh_request_id : bytes;
  bh_ciphertext_len : Z
}.

Record DecodedBootstrapRequest : Type := mkDecodedBootstrap {
  db_request_id : bytes;
  db_encapped_key : bytes;
  db_ciphertext : bytes
}.

Definition context_validate (c : BootstrapContext) : res () :=
  reject_if
    (bool_decide (bc_node_signing_public_key c = zeros 32)
     || bool_decide (bc_bootstrap_hpke_public_key c = zeros 32)
     || bool_decide (bc_request_id c = zeros 32)
     || bool_decide (bc_operation c = [])
     || bool_decide (MAX_OPERATION_BYTES < len (bc_operation c))) InvalidInput.

Definition bootstrap_context (node_signing_public_key bootstrap_hpke_public_key operation
    request_id : bytes) : res BootstrapContext :=
  let value := mkBootstrapContext node_signing_public_key bootstrap_hpke_public_key operation
                 request_id in
  _ ← context_validate value;
  Ok value.

Definition context_info (c : BootstrapContext) : res bytes :=
  _ ← context_validate c;
  Ok (canonical_parts [BOOTSTRAP_DOMAIN; bc_node_signing_public_key c;
                       bc_bootstrap_hpke_public_key c; bc_operation c; bc_request_id c]).

Definition encode_bootstrap (request_id encapped ciphertext : bytes) : res bytes :=
  _ ← reject_if
        (bool_decide (request_id = zeros 32) || bool_decide (len encapped ≠ 32)
         || bool_decide (len ciphertext ≤ TAG_BYTES)
         || bool_decide (MAX_BOOTSTRAP_PLAINTEXT_BYTES + TAG_BYTES < len ciphertext)) TooLarge;
  length ← try_u32 (len ciphertext);
  Ok (BOOTSTRAP_MAGIC ++ [TRANSPORT_VERSION] ++ request_id ++ encapped ++ be_bytes 4 length
        ++ ciphertext).

Definition decode_bootstrap (record : bytes) : res DecodedBootstrapRequest :=
  _ ← reject_if
        (bool_decide (len record < BOOTSTRAP_HEADER_BYTES + TAG_BYTES + 1)
         || bool_decide
              (BOOTSTRAP_HEADER_BYTES + MAX_BOOTSTRAP_PLAINTEXT_BYTES + TAG_BYTES < len record))
        TooLarge;
  _ ← reject_if
        (bool_decide (slice 0 4 record ≠ BOOTSTRAP_MAGIC)
         || bool_decide (record !! 4%nat ≠ Some TRANSPORT_VERSION)) NonCanonical;
  request_id ← array_of 32 (slice 5 37 record);
  length ← read_u32 (slice 69 73 record);
  _ ← reject_if (bool_decide (length ≠ len record - BOOTSTRAP_HEADER_BYTES)) NonCanonical;
  Ok (mkDecodedBootstrap request_id (slice 37 69 record)
        (slice BOOTSTRAP_HEADER_BYTES (len record) record)).

Definition inspect_bootstrap_request (record : bytes) : res BootstrapRequestHeader :=
  decoded ← decode_bootstrap record;
  _ ← reject_if (bool_decide (db_request_id decoded = zeros 32)) NonCanonical;
  Ok (mkBootstrapRequestHeader (db_request_id decoded) (len (db_ciphertext decoded))).

(** ** Responses *)

(** [BootstrapResponseOpener] and [BootstrapResponseSealer] have the same
    fields. *)
Record ResponseEnd : Type := mkResponseEnd { re_key : bytes; re_nonce : bytes; re_aad : bytes }.

Section responses.
Context {AE : Aead}.

Definition response_seal (self : ResponseEnd) (plaintext : bytes) : res bytes :=
  _ ← validate_plaintext plaintext MAX_BOOTSTRAP_PLAINTEXT_BYTES;
  ok_or (encrypt (re_key self) (re_nonce self) (re_aad self) plaintext) AuthenticationFailed.

Definition response_open (self : ResponseEnd) (ciphertext : bytes) : res bytes :=
  _ ← reject_if
        (bool_decide (len ciphertext ≤ TAG_BYTES)
         || bool_decide (MAX_BOOTSTRAP_PLAINTEXT_BYTES + TAG_BYTES < len ciphertext)) TooLarge;
  plaintext ← ok_or (decrypt (re_key self) (re_nonce self) (re_aad self) ciphertext)
                AuthenticationFailed;
  _ ← validate_plaintext plaintext MAX_BOOTSTRAP_PLAINTEXT_BYTES;
  Ok plaintext.
End responses.

(** ** Exchanges *)

Section exchanges.
Context {HP : Hpke}.

(** [BootstrapPrivateKey::from_bytes]; [parsed] repeats its last check. *)
Definition private_key_from_bytes (value : bytes) : res bytes :=
  _ ← reject_if (bool_decide (value = zeros 32)) InvalidInput;
  _ ← reject_if (negb (kem_private_ok value)) InvalidInput;
  Ok value.

(** [response_material] over the exporter of either context. *)
Definition response_material (export_secret : bytes → Z → option bytes) (info : bytes) :
    res (bytes * bytes) :=
  let exporter_context := canonical_parts [RESPONSE_EXPORT_DOMAIN; info] in
  material ← ok_or (export_secret exporter_context 44) AuthenticationFailed;
  Ok (slice 0 32 material, slice 32 44 material).

(** The request and the opener of its response. *)
Definition seal_bootstrap_request (ephemeral : bytes) (context : BootstrapContext)
    (plaintext : bytes) : res (bytes * ResponseEnd) :=
  _ ← validate_plaintext plaintext MAX_BOOTSTRAP_PLAINTEXT_BYTES;
  info ← context_info context;
  _ ← reject_if (negb (kem_public_ok (bc_bootstrap_hpke_public_key context))) InvalidInput;
  '(encapped, sender) ←
    ok_or (setup_sender ephemeral (bc_bootstrap_hpke_public_key context) info)
      AuthenticationFailed;
  ciphertext ← ok_or (hpke_seal sender plaintext info) AuthenticationFailed;
  '(key, nonce) ← response_material (sender_export sender) info;
  request ← encode_bootstrap (bc_request_id context) encapped ciphertext;
  Ok (request, mkResponseEnd key nonce info).

(** The plaintext and the sealer of its response. *)
Definition open_request (private_key : bytes) (context : BootstrapContext)
    (request : DecodedBootstrapRequest) : res (bytes * ResponseEnd) :=
  info ← context_info context;
  _ ← reject_if (bool_decide (db_request_id request ≠ bc_request_id context))
        AuthenticationFailed;
  _ ← reject_if (negb (kem_private_ok private_key)) InvalidInput;
  _ ← reject_if (negb (encapped_ok (db_encapped_key request))) NonCanonical;
  receiver ← ok_or (setup_receiver private_key (db_encapped_key request) info)
               AuthenticationFailed;
  plaintext ← ok_or (hpke_open receiver (db_ciphertext request) info) AuthenticationFailed;
  _ ← validate_plaintext plaintext MAX_BOOTSTRAP_PLAINTEXT_BYTES;
  '(key, nonce) ← response_material (receiver_export receiver) info;
  Ok (plaintext, mkResponseEnd key nonce info).

(** ** The replay guard *)

Record BootstrapReplayGuard : Type := mkGuard {
  g_consumed_request_ids : gmap bytes Z;
  g_replay_ttl_ms : Z;
  g_last_seen_ms : option Z
}.

Definition guard_new (replay_ttl_ms : Z) : res BootstrapReplayGuard :=
  _ ← reject_if
        (negb (bool_decide (MIN_BOOTSTRAP_REPLAY_TTL_MS ≤ replay_ttl_ms)
               && bool_decide (replay_ttl_ms ≤ MAX_BOOTSTRAP_REPLAY_TTL_MS))) InvalidInput;
  Ok (mkGuard ∅ replay_ttl_ms None).

Definition active_ids (now_ms ttl : Z) (ids : gmap bytes Z) : gmap bytes Z :=
  retain (λ _ consumed_at_ms, bool_decide (saturating_sub now_ms consumed_at_ms < ttl)) ids.

(** [BootstrapReplayGuard::open_request]. *)
Definition guard_open_request (private_key : bytes) (context : BootstrapContext)
    (request : bytes) (now_ms : Z) : ST BootstrapReplayGuard TransportError (bytes * ResponseEnd) :=
  _ ← lift (context_validate context);
  self ← get;
  _ ← lift (reject_if
        (match g_last_seen_ms self with
         | Some last_seen_ms => bool_decide (now_ms < last_seen_ms)
         | None => false
         end) ClockRollback);
  _ ← put (mkGuard (g_consumed_request_ids self) (g_replay_ttl_ms self) (Some now_ms));
  decoded ← lift (decode_bootstrap request);
  _ ← lift (reject_if (bool_decide (db_request_id decoded ≠ bc_request_id context))
              AuthenticationFailed);
  let active := active_ids now_ms (g_replay_ttl_ms self) (g_consumed_request_ids self) in
  _ ← lift (reject_if (contains_key (bc_request_id context) active) Replayed);
  _ ← lift (reject_if (bool_decide (MAX_BOOTSTRAP_REQUEST_IDS ≤ map_len active))
              CapacityExhausted);
  exchange ← lift (open_request private_key context decoded);
  _ ← put (mkGuard (<[bc_request_id context := now_ms]> active) (g_replay_ttl_ms self)
             (Some now_ms));
  mret exchange.

Definition discard_authenticated_request (request_id : bytes) (consumed_at_ms : Z)
    (self : BootstrapReplayGuard) : bool * BootstrapReplayGuard :=
  if bool_decide (g_consumed_request_ids self !! request_id ≠ Some consumed_at_ms)
  then (false, self)
  else (contains_key request_id (g_consumed_request_ids self),
        mkGuard (delete request_id (g_consumed_request_ids self)) (g_replay_ttl_ms self)
          (g_last_seen_ms self)).
End exchanges.

(** * Bootstrap exchanges: round trip and replay protection *)

(** ** Records *)

Lemma decode_encode_bootstrap id enc ct req :
  len id = 32 → encode_bootstrap id enc ct = Ok req →
  decode_bootstrap req = Ok (mkDecodedBootstrap id enc ct).
Proof.
  intros Hid. unfold encode_bootstrap. intros (? & Hc & Hr)%bind_Ok.
  apply bind_Ok in Hr as (n & [Hn ->]%try_u32_Ok & Hreq). open_enc. injection Hreq as Hreq.
  match goal with H : len enc = 32 |- _ => rename H into Henc end.
  pose proof (len_nonneg ct).
  set (p := BOOTSTRAP_MAGIC ++ [TRANSPORT_VERSION]).
  assert (len p = 5) as Hp by done.
  assert (req = p ++ id ++ enc ++ be_bytes 4 (len ct) ++ ct) as E by (by rewrite <- Hreq).
  assert (len req = 73 + len ct) as Hl by (rewrite E, !len_app, len_be_bytes; lia).
  assert (slice 0 4 req = BOOTSTRAP_MAGIC) as E0 by (by rewrite <- Hreq).
  assert (req !! 4%nat = Some TRANSPORT_VERSION) as E4 by (by rewrite <- Hreq).
  assert (slice 5 37 req = id ∧ slice 37 69 req = enc ∧ slice 69 73 req = be_bytes 4 (len ct) ∧
          slice 73 (len req) req = ct) as (E1 & E2 & E3 & E5).
  { rewrite Hl, E. clearbody p. clear - Hp Hid Henc. split_and!; by slices. }
  unfold decode_bootstrap. change BOOTSTRAP_HEADER_BYTES with 73.
  rewrite E0, E1, E2, E3, E4, E5, Hl. unfold MAX_BOOTSTRAP_PLAINTEXT_BYTES, TAG_BYTES in *.
  rewrite !(bool_decide_false (_ < _)), !(bool_decide_false (_ ≠ _)) by (lia || naive_solver). go.
  unfold array_of. rewrite bool_decide_false by naive_solver. go.
  unfold read_u32. rewrite len_be_bytes, be_value_be_bytes by (rewrite pow_256_4; lia).
  rewrite bool_decide_false by naive_solver. go. by rewrite bool_decide_false by lia.
Qed.

Section theorems.
Context {AE : Aead} {AL : AeadLaws} {HP : Hpke}.

(** ** Responses *)

Lemma response_roundtrip e m c : response_seal e m = Ok c ↔ response_open e c = Ok m.
Proof.
  unfold response_seal, response_open. rewrite !bind_Ok. split.
  - intros (? & [Hm0 Hm]%validate_plaintext_Ok & Hc%ok_or_Ok).
    pose proof (encrypt_len _ _ _ _ _ Hc) as Hl. rewrite len_pos in Hm0.
    exists tt. rewrite !bool_decide_false by lia. split; [done|].
    rewrite (decrypt_encrypt _ _ _ _ _ Hc). go.
    rewrite (proj2 (validate_plaintext_Ok m _ tt)); [done|]. by rewrite len_pos.
  - intros (? & _ & Hr). apply bind_Ok in Hr as (m' & Hm%ok_or_Ok & Hr).
    apply bind_Ok in Hr as (? & Hv & [= ->]). exists tt. split.
    + apply validate_plaintext_Ok. by apply validate_plaintext_Ok in Hv.
    + apply ok_or_Ok. by apply decrypt_tidy.
Qed.

(** ** The guard *)

Definition ready (g : BootstrapReplayGuard) (id : bytes) (now : Z) : Prop :=
  (∀ last, g_last_seen_ms g = Some last → last ≤ now) ∧
  let active := active_ids now (g_replay_ttl_ms g) (g_consumed_request_ids g) in
  active !! id = None ∧ map_len active < MAX_BOOTSTRAP_REQUEST_IDS.

(** What a call does, in one step. *)
Lemma guard_open_spec sk ctx req now g :
  let active := active_ids now (g_replay_ttl_ms g) (g_consumed_request_ids g) in
  match guard_open_request sk ctx req now g with
  | (Ok x, g') =>
      ready g (bc_request_id ctx) now ∧
      g' = mkGuard (<[bc_request_id ctx := now]> active) (g_replay_ttl_ms g) (Some now) ∧
      ∃ decoded, decode_bootstrap req = Ok decoded ∧ open_request sk ctx decoded = Ok x
  | (Err _, g') =>
      g' = g ∨ ((∀ last, g_last_seen_ms g = Some last → last ≤ now) ∧
                g' = mkGuard (g_consumed_request_ids g) (g_replay_ttl_ms g) (Some now))
  end.
Proof.
  intros active. unfold guard_open_request, ready, mbind, ST_bind, lift, get, put.
  destruct (context_validate ctx); [|by left].
  assert (∀ last, g_last_seen_ms g = Some last →
    (match g_last_seen_ms g with Some l => bool_decide (now < l) | None => false end) = false →
    last ≤ now) as Hclock.
  { intros last -> Hb%bool_decide_eq_false. lia. }
  destruct (match g_last_seen_ms g with Some _ => _ | None => _ end); simpl; [by left|].
  destruct (decode_bootstrap req) as [dec|]; simpl; [|right; naive_solver].
  case_bool_decide; simpl; [right; naive_solver|].
  fold active. destruct (contains_key _ active) eqn:Hk; simpl; [right; naive_solver|].
  case_bool_decide; simpl; [right; naive_solver|].
  destruct (open_request sk ctx dec) as [x|] eqn:Hx; simpl; [|right; naive_solver].
  apply contains_key_false in Hk. split_and!; [naive_solver|done|lia|done|by eexists].
Qed.

Inductive GuardCall : Type :=
| OpenCall (sk : bytes) (ctx : BootstrapContext) (req : bytes) (now : Z)
| DiscardCall (id : bytes) (at_ms : Z).

Definition guard_do (g : BootstrapReplayGuard) (c : GuardCall) : BootstrapReplayGuard :=
  match c with
  | OpenCall sk ctx req now => (guard_open_request sk ctx req now g).2
  | DiscardCall id at_ms => (discard_authenticated_request id at_ms g).2
  end.
Definition guard_after (calls : list GuardCall) (g : BootstrapReplayGuard) : BootstrapReplayGuard :=
  foldl guard_do g calls.

(** The evidence that [id] was accepted at [t0]. *)
Definition evidence (id : bytes) (t0 ttl : Z) (g : BootstrapReplayGuard) : Prop :=
  g_replay_ttl_ms g = ttl ∧
  ∃ last, g_last_seen_ms g = Some last ∧ t0 ≤ last ∧
    ((∃ t, g_consumed_request_ids g !! id = Some t ∧ t0 ≤ t) ∨ t0 + ttl ≤ last).

Lemma active_lookup (now ttl : Z) (ids : gmap bytes Z) (id : bytes) (t : Z) :
  ids !! id = Some t → saturating_sub now t < ttl → active_ids now ttl ids !! id = Some t.
Proof.
  intros Hid Ht. unfold active_ids. apply retain_lookup_Some. split; [done|]. by apply bool_decide_eq_true.
Qed.

Lemma evidence_kept id t0 ttl g c : 0 < ttl →
  evidence id t0 ttl g → (∀ at_ms, c ≠ DiscardCall id at_ms) → evidence id t0 ttl (guard_do g c).
Proof.
  intros Httl (Ht & last & Hlast & Hle & Hev) Hc. destruct c as [sk ctx req now|id' at_ms]; simpl.
  - pose proof (guard_open_spec sk ctx req now g) as Hspec. simpl in Hspec.
    destruct (guard_open_request sk ctx req now g) as [[x|e] g']; simpl.
    + destruct Hspec as ([Hclock _] & -> & _). specialize (Hclock _ Hlast). rewrite Ht.
      split; [done|]. exists now. split_and!; [done|lia|]. simpl.
      destruct (decide (id = bc_request_id ctx)) as [->|Hne].
      { left. exists now. rewrite lookup_insert_eq. split; [done|lia]. }
      destruct Hev as [(t & Hid & Ht0)|?]; [|right; lia].
      destruct (decide (saturating_sub now t < ttl)) as [Hs|Hs].
      * left. exists t. rewrite lookup_insert_ne by done. split; [|done]. by apply active_lookup.
      * right. unfold saturating_sub in Hs. lia.
    + destruct Hspec as [->|[Hclock ->]]; [by split; [|exists last]|].
      specialize (Hclock _ Hlast). split; [done|]. exists now. simpl. split_and!; [done|lia|].
      destruct Hev as [?|?]; [by left|right; lia].
  - unfold discard_authenticated_request. case_bool_decide; simpl; [by split; [|exists last]|].
    split; [done|]. exists last. simpl. split_and!; [done|done|].
    destruct Hev as [(t & Hid & ?)|?]; [|by right]. left. exists t. split; [|done].
    rewrite lookup_delete_ne; [done|]. intros <-. by apply (Hc at_ms).
Qed.

Lemma evidence_after id t0 ttl calls g : 0 < ttl →
  evidence id t0 ttl g → Forall (λ c, ∀ at_ms, c ≠ DiscardCall id at_ms) calls →
  evidence id t0 ttl (guard_after calls g).
Proof.
  intros Httl Hev Hcs. revert g Hev. induction Hcs as [|c calls Hc _ IH]; intros g Hev; [done|].
  apply IH. by apply evidence_kept.
Qed.

Lemma evidence_refuses sk ctx req now t0 ttl g :
  evidence (bc_request_id ctx) t0 ttl g → now < t0 + ttl →
  ∃ e g', guard_open_request sk ctx req now g = (Err e, g').
Proof.
  intros (Ht & last & Hlast & Hle & Hev) Hnow.
  pose proof (guard_open_spec sk ctx req now g) as Hspec. simpl in Hspec.
  destruct (guard_open_request sk ctx req now g) as [[x|e] g']; [|eauto].
  exfalso. destruct Hspec as ([Hclock [Hno _]] & _). specialize (Hclock _ Hlast).
  destruct Hev as [(t & Hid & ?)|?]; [|lia].
  rewrite (active_lookup _ _ _ _ t Hid) in Hno; [done|]. unfold saturating_sub. lia.
Qed.

Lemma seal_request_Ok eph ctx m req opener :
  seal_bootstrap_request eph ctx m = Ok (req, opener) →
  ∃ info enc snd ct key nonce,
    m ≠ [] ∧ len m ≤ MAX_BOOTSTRAP_PLAINTEXT_BYTES ∧ context_info ctx = Ok info ∧
    setup_sender eph (bc_bootstrap_hpke_public_key ctx) info = Some (enc, snd) ∧
    hpke_seal snd m info = Some ct ∧ response_material (sender_export snd) info = Ok (key, nonce) ∧
    encode_bootstrap (bc_request_id ctx) enc ct = Ok req ∧ opener = mkResponseEnd key nonce info.
Proof.
  unfold seal_bootstrap_request. intros (? & [? ?]%validate_plaintext_Ok & Hr)%bind_Ok.
  apply bind_Ok in Hr as (info & Hi & Hr). apply bind_Ok in Hr as (? & _ & Hr).
  apply bind_Ok in Hr as ([enc snd] & Hs%ok_or_Ok & Hr). apply bind_Ok in Hr as (ct & Hc%ok_or_Ok & Hr).
  apply bind_Ok in Hr as ([key nonce] & Hm & Hr). apply bind_Ok in Hr as (rq & Hq & [= <- <-]).
  by exists info, enc, snd, ct, key, nonce.
Qed.

Lemma guard_open_run sk ctx req now g decoded x :
  context_validate ctx = Ok tt → ready g (bc_request_id ctx) now →
  decode_bootstrap req = Ok decoded → db_request_id decoded = bc_request_id ctx →
  open_request sk ctx decoded = Ok x →
  (guard_open_request sk ctx req now g).1 = Ok x.
Proof.
  intros Hv (Hclock & Hno & Hcap) Hd Hid Hx.
  unfold guard_open_request, mbind, ST_bind, lift, get, put. rewrite Hv, Hd. simpl.
  replace (match g_last_seen_ms g with Some l => bool_decide (now < l) | None => false end) with false.
  2:{ destruct (g_last_seen_ms g) as [l|]; [|done]. symmetry. apply bool_decide_eq_false.
      specialize (Hclock l eq_refl). lia. }
  simpl. rewrite bool_decide_false by naive_solver. simpl.
  rewrite (proj2 (contains_key_false _ _)) by done. simpl.
  rewrite bool_decide_false by lia. simpl. by rewrite Hx.
Qed.

(** A bootstrap exchange round-trips.  A request sealed for a node's key
    is accepted by that node's replay guard, with the plaintext that was sealed,
    when the guard has room and has not seen the identifier; the response sealer
    it returns and the client's response opener are then inverse. *)
Theorem bootstrap_roundtrip sk eph ctx m req opener now g :
  HpkeLaws sk (bc_bootstrap_hpke_public_key ctx) → kem_private_ok sk = true →
  len (bc_request_id ctx) = 32 → ready g (bc_request_id ctx) now →
  seal_bootstrap_request eph ctx m = Ok (req, opener) →
  ∃ sealer g', guard_open_request sk ctx req now g = (Ok (m, sealer), g') ∧
    ∀ r c, response_seal sealer r = Ok c ↔ response_open opener c = Ok r.
Proof.
  intros HL Hsk Hid Hready Hseal.
  apply seal_request_Ok in Hseal as (info & enc & snd & ct & key & nonce & Hm0 & Hm & Hi & Hs & Hc & He & Hq & ->).
  destruct (hpke_agree _ _ _ _ Hs) as (Henc & Heok & rcv & Hrcv & Hopen & Hexp).
  destruct (Hopen _ _ _ Hc) as [_ Ho].
  assert (open_request sk ctx (mkDecodedBootstrap (bc_request_id ctx) enc ct)
    = Ok (m, mkResponseEnd key nonce info)) as Hx.
  { unfold open_request. rewrite Hi. simpl. rewrite bool_decide_false by naive_solver. simpl.
    rewrite Hsk, Heok. simpl. rewrite Hrcv. simpl. rewrite Ho. simpl.
    rewrite (proj2 (validate_plaintext_Ok m _ tt)) by done. simpl.
    unfold response_material in *. by rewrite <- Hexp, He. }
  assert (context_validate ctx = Ok tt) as Hv.
  { unfold context_info in Hi. by apply bind_Ok in Hi as ([] & ? & _). }
  pose proof (guard_open_run _ _ _ _ _ _ _ Hv Hready (decode_encode_bootstrap _ _ _ _ Hid Hq)
    eq_refl Hx) as Hrun.
  exists (mkResponseEnd key nonce info), (guard_open_request sk ctx req now g).2.
  split; [by rewrite <- Hrun, <- surjective_pairing|]. intros r c. apply response_roundtrip.
Qed.

(** C39: an accepted bootstrap request is not accepted again.  Whatever calls
    the guard serves in between, other than discarding that very request, any
    request under the same identifier is refused until the replay window has
    passed. *)
Theorem bootstrap_replay_refused sk ctx req now x g g1 calls sk' ctx' req' now' :
  0 < g_replay_ttl_ms g →
  guard_open_request sk ctx req now g = (Ok x, g1) →
  Forall (λ c, ∀ at_ms, c ≠ DiscardCall (bc_request_id ctx) at_ms) calls →
  bc_request_id ctx' = bc_request_id ctx → now' < now + g_replay_ttl_ms g →
  ∃ e g2, guard_open_request sk' ctx' req' now' (guard_after calls g1) = (Err e, g2).
Proof.
  intros Httl Hopen Hcalls Hid Hnow. pose proof (guard_open_spec sk ctx req now g) as Hspec.
  simpl in Hspec. rewrite Hopen in Hspec. destruct Hspec as (_ & -> & _).
  apply (evidence_refuses _ _ _ _ now (g_replay_ttl_ms g)); [|done]. rewrite Hid.
  apply evidence_after; [done| |done]. split; [done|]. exists now. simpl. split_and!; [done|lia|].
  left. exists now. rewrite lookup_insert_eq. split; [done|lia].
Qed.

Lemma guard_do_bounded g c :
  map_len (g_consumed_request_ids g) ≤ MAX_BOOTSTRAP_REQUEST_IDS →
  map_len (g_consumed_request_ids (guard_do g c)) ≤ MAX_BOOTSTRAP_REQUEST_IDS.
Proof.
  intros Hg. destruct c as [sk ctx req now|id at_ms]; simpl.
  - pose proof (guard_open_spec sk ctx req now g) as Hspec. simpl in Hspec.
    destruct (guard_open_request sk ctx req now g) as [[x|e] g']; simpl.
    + destruct Hspec as ((_ & Hno & Hcap) & -> & _). simpl. rewrite map_len_insert.
      rewrite (proj2 (contains_key_false _ _) Hno). lia.
    + by destruct Hspec as [->|[_ ->]].
  - unfold discard_authenticated_request. case_bool_decide; simpl; [done|].
    rewrite map_len_delete. destruct (contains_key _ _); lia.
Qed.
End theorems.

(** The guard never holds more identifiers than its limit. *)
Lemma guard_bounded {HP : Hpke} ttl g calls :
  guard_new ttl = Ok g →
  map_len (g_consumed_request_ids (guard_after calls g)) ≤ MAX_BOOTSTRAP_REQUEST_IDS.
Proof.
  unfold guard_new. intros (? & _ & [= <-])%bind_Ok.
  assert (map_len (g_consumed_request_ids (mkGuard ∅ ttl None)) ≤ MAX_BOOTSTRAP_REQUEST_IDS) as H
    by done.
  revert H. generalize (mkGuard ∅ ttl None). induction calls as [|c calls IH]; intros g Hg; [done|].
  apply IH. by apply guard_do_bounded.
Qed.

(** ** A concrete exchange *)

Import Demo.

(** A sender whose key is its public key in reverse. *)
Definition demo_public (sk : bytes) : bytes := reverse sk.
#[local] Instance demo_hpke : Hpke := {|
  HpkeSender := bytes;
  HpkeReceiver := bytes;
  kem_public_ok _ := true;
  kem_private_ok _ := true;
  encapped_ok _ := true;
  setup_sender eph pk info := if decide (len eph = 32) then Some (eph, pk ++ eph ++ info) else None;
  setup_receiver sk enc info := Some (demo_public sk ++ enc ++ info);
  hpke_seal k m aad := encrypt k [] aad m;
  hpke_open k c aad := decrypt k [] aad c;
  sender_export k ctx n := hkdf_expand [] k ctx n;
  receiver_export k ctx n := hkdf_expand [] k ctx n
|}.

Lemma demo_hpke_laws sk : HpkeLaws sk (demo_public sk).
Proof.
  split. intros eph info enc snd E. unfold setup_sender, demo_hpke in E. case_decide; simplify_eq.
  split_and!; [done|done|]. eexists. split; [done|]. split; [|done].
  intros m aad c Hc. exact (conj (encrypt_len _ _ _ _ _ Hc) (decrypt_encrypt _ _ _ _ _ Hc)).
Qed.

Definition demo_sk : bytes := replicate 32 Byte.x05.
Definition demo_ctx : BootstrapContext :=
  mkBootstrapContext (replicate 32 Byte.x01) (demo_public demo_sk) (text_bytes "account-bootstrap-v11")
    (replicate 32 Byte.x09).
Definition demo_request : bytes :=
  match seal_bootstrap_request (replicate 32 Byte.x06) demo_ctx (text_bytes "hello") with
  | Ok (req, _) => req
  | Err _ => []
  end.
Definition demo_guard : BootstrapReplayGuard := mkGuard ∅ 1000 None.

Lemma demo_ready : ready demo_guard (bc_request_id demo_ctx) 50.
Proof. split; [done|]. split; [by vm_compute|]. vm_compute. reflexivity. Qed.

Lemma bootstrap_roundtrip_witness :
  ∃ sealer g', guard_open_request demo_sk demo_ctx demo_request 50 demo_guard
                 = (Ok (text_bytes "hello", sealer), g').
Proof.
  destruct (seal_bootstrap_request (replicate 32 Byte.x06) demo_ctx (text_bytes "hello"))
    as [[req opener]|e] eqn:E; [|vm_compute in E; discriminate].
  destruct (bootstrap_roundtrip demo_sk (replicate 32 Byte.x06) demo_ctx (text_bytes "hello") req
    opener 50 demo_guard (demo_hpke_laws demo_sk) eq_refl eq_refl demo_ready E)
    as (sealer & g' & H & _).
  exists sealer, g'. unfold demo_request. rewrite E. exact H.
Defined.

Lemma bootstrap_replay_refused_witness :
  ∃ e g2, guard_open_request demo_sk demo_ctx demo_request 1049
            (guard_after [OpenCall demo_sk demo_ctx [] 60]
               (guard_open_request demo_sk demo_ctx demo_request 50 demo_guard).2) = (Err e, g2).
Proof.
  destruct (guard_open_request demo_sk demo_ctx demo_request 50 demo_guard) as [[x|e] g1] eqn:E;
    [|vm_compute in E; discriminate].
  apply (bootstrap_replay_refused demo_sk demo_ctx demo_request 50 x demo_guard g1).
  - reflexivity.
  - exact E.
  - repeat constructor. discriminate.
  - reflexivity.
  - reflexivity.
Defined.
