(* ===== verification/TransportPadding.v ===== *)
(** * Padding of control frames (mirage-server/src/transport_padding.rs)

    A JSON object is padded to one of a few sizes by two trailing members;
    the other side checks the padding is the canonical one and strips it. *)

From S2P Require Import Prelude TransportWire MlsWire.

Definition MESSAGE_TRANSPORT_BUCKETS : list Z := [4096; 16384; 65536; 262144; 1048576].
Definition MESSAGE_TRANSPORT_MAX_BUCKET : Z := 1048576.
Definition CONTROL_TRANSPORT_BUCKETS : list Z :=
  [4096; 16384; 65536; 262144; 1048576; 4194304; 16777216; 17825792].
Definition CONTROL_TRANSPORT_MAX_BUCKET : Z := 17825792.

Definition FILLER_ALPHABET : bytes :=
  text_bytes "ABCDEFGHIJKLMNOPQRSTUVWXYZabcdefghijklmnopqrstuvwxyz0123456789-_".

Definition in_alphabet (b : byte) : bool := bool_decide (b ∈ FILLER_ALPHABET).

(** [rand::rngs::OsRng] filling a buffer; it panics instead of failing. *)
Class OsRng : Type := { fill_bytes : Z → bytes }.
Class OsRngLaws `{OsRng} : Prop := { fill_bytes_len n : 0 ≤ n → len (fill_bytes n) = n }.

(** [serde_json::from_str::<Value>] followed by [as_object]: the members of
    the object, the last of equal names. *)
Inductive JsonValue : Type :=
| JsonU64 (n : Z)
| JsonString (s : bytes)
| JsonOther.

Class SerdeJson : Type := { parse_object : bytes → option (gmap string JsonValue) }.

(** ** Filler *)

Definition valid_transport_padding (value : bytes) (max : Z) : bool :=
  bool_decide (len value ≤ max) && forallb in_alphabet value.
Definition valid_message_transport_padding (value : bytes) : bool :=
  valid_transport_padding value MESSAGE_TRANSPORT_MAX_BUCKET.

(** [FILLER_ALPHABET[usize::from(byte & 63)]]. *)
Definition filler_byte (b : byte) : byte :=
  default Byte.x00 (FILLER_ALPHABET !! Z.to_nat (Z.land (byte_Z b) 63)).

Definition control_transport_wire_limit (domain_limit : Z) : Z :=
  if bool_decide (domain_limit ≤ MESSAGE_TRANSPORT_MAX_BUCKET)
  then MESSAGE_TRANSPORT_MAX_BUCKET else CONTROL_TRANSPORT_MAX_BUCKET.

Definition quote : byte := Byte.x22.
Definition open_brace : byte := Byte.x7b.
Definition close_brace : byte := Byte.x7d.

Definition control_transport_suffix (bucket : Z) (padding : bytes) : bytes :=
  [Byte.x2c; quote] ++ text_bytes "padding_bucket" ++ [quote; Byte.x3a]
    ++ text_bytes (serialize bucket) ++ [Byte.x2c; quote] ++ text_bytes "padding"
    ++ [quote; Byte.x3a; quote] ++ padding ++ [quote; close_brace].

(** [str::strip_suffix]. *)
Definition strip_suffix (suffix text : bytes) : option bytes :=
  let n := (length text - length suffix)%nat in
  if bool_decide (drop n text = suffix) then Some (take n text) else None.

Section padding.
Context {RNG : OsRng} {JSON : SerdeJson}.

(** [random_transport_padding] and [random_message_transport_padding];
    [String::from_utf8] accepts the ASCII alphabet. *)
Definition random_transport_padding (length max : Z) : result string bytes :=
  _ ← reject_if (bool_decide (max < length)) "control transport padding length rejected"%string;
  let bytes := filler_byte <$> fill_bytes length in
  _ ← reject_if (negb (utf8_valid bytes)) "control transport padding generation failed"%string;
  Ok bytes.

Definition random_message_transport_padding (length : Z) : result string bytes :=
  _ ← reject_if (bool_decide (MESSAGE_TRANSPORT_MAX_BUCKET < length))
        "message transport padding length rejected"%string;
  let bytes := filler_byte <$> fill_bytes length in
  _ ← reject_if (negb (utf8_valid bytes)) "message transport padding generation failed"%string;
  Ok bytes.

Definition bucket_fits (prefix_len wire_limit bucket : Z) : bool :=
  bool_decide (bucket ≤ wire_limit)
  && match checked_add usize_MAX prefix_len (len (control_transport_suffix bucket [])) with
     | Some empty_len => bool_decide (empty_len ≤ bucket)
     | None => false
     end.

Definition control_transport_frame_len (inner : bytes) (domain_limit : Z) : option Z :=
  if bool_decide (domain_limit < len inner) || bool_decide (head inner ≠ Some open_brace)
     || bool_decide (last inner ≠ Some close_brace)
  then None
  else
    match parse_object inner with
    | None => None
    | Some object =>
        if contains_key "padding_bucket"%string object || contains_key "padding"%string object
        then None
        else
          match checked_sub (len inner) 1 with
          | None => None
          | Some prefix_len =>
              find (bucket_fits prefix_len (control_transport_wire_limit domain_limit))
                CONTROL_TRANSPORT_BUCKETS
          end
    end.

Definition pad_control_transport_frame (inner : bytes) (domain_limit : Z) : result string bytes :=
  bucket ← ok_or (control_transport_frame_len inner domain_limit)
             "control transport padding unavailable"%string;
  prefix ← ok_or (strip_suffix [close_brace] inner) "control transport frame rejected"%string;
  empty_len ← ok_or (checked_add usize_MAX (len prefix) (len (control_transport_suffix bucket [])))
                "control transport padding length rejected"%string;
  filler_len ← ok_or (checked_sub bucket empty_len)
                 "control transport padding length rejected"%string;
  filler ← random_transport_padding filler_len (control_transport_wire_limit domain_limit);
  let padded := prefix ++ control_transport_suffix bucket filler in
  _ ← reject_if (bool_decide (len padded ≠ bucket))
        "control transport padding length rejected"%string;
  Ok padded.

(** [as_u64] and [as_str] of a member. *)
Definition member_u64 (o : gmap string JsonValue) (k : string) : option Z :=
  match o !! k with Some (JsonU64 n) => Some n | _ => None end.
Definition member_str (o : gmap string JsonValue) (k : string) : option bytes :=
  match o !! k with Some (JsonString s) => Some s | _ => None end.

Definition strip_control_transport_frame (text : bytes) (domain_limit : Z) :
    result string bytes :=
  let wire_limit := control_transport_wire_limit domain_limit in
  _ ← reject_if (bool_decide (wire_limit < len text)) "control transport frame too large"%string;
  object ← ok_or (parse_object text) "control transport frame rejected"%string;
  bucket ← ok_or (member_u64 object "padding_bucket")
             "control transport padding bucket rejected"%string;
  padding ← ok_or (member_str object "padding") "control transport padding rejected"%string;
  _ ← reject_if
        (bool_decide (wire_limit < bucket)
         || negb (bool_decide (bucket ∈ CONTROL_TRANSPORT_BUCKETS))
         || negb (valid_transport_padding padding wire_limit))
        "control transport padding rejected"%string;
  prefix ← ok_or (strip_suffix (control_transport_suffix bucket padding) text)
             "control transport padding suffix rejected"%string;
  let inner := prefix ++ [close_brace] in
  _ ← reject_if (bool_decide (domain_limit < len inner)) "control transport frame too large"%string;
  canonical_bucket ← ok_or (control_transport_frame_len inner domain_limit)
                       "control transport padding unavailable"%string;
  empty_len ← ok_or (checked_add usize_MAX (len prefix)
                       (len (control_transport_suffix canonical_bucket [])))
                "control transport padding length rejected"%string;
  _ ← reject_if
        (bool_decide (bucket ≠ canonical_bucket)
         || bool_decide (len padding ≠ saturating_sub canonical_bucket empty_len)
         || bool_decide (len text ≠ canonical_bucket))
        "control transport padding length rejected"%string;
  Ok inner.
End padding.

(** ** Lengths of JSON values, computed without printing them *)

Definition escaped_len (b : byte) : Z :=
  let z := byte_Z b in
  if bool_decide (z = 8) || bool_decide (z = 9) || bool_decide (z = 10) || bool_decide (z = 12)
     || bool_decide (z = 13) || bool_decide (z = 34) || bool_decide (z = 92) then 2
  else if bool_decide (z ≤ 31) then 6 else 1.

Definition json_string_len (value : bytes) : option Z :=
  foldl (λ acc b, length ← acc; checked_add usize_MAX length (escaped_len b)) (Some 2) value.

Definition json_field_len (key : bytes) (value_len : Z) : option Z :=
  n ← json_string_len key; n ← checked_add usize_MAX n 1; checked_add usize_MAX n value_len.

Definition json_string_field_len (key value : bytes) : option Z :=
  n ← json_string_len value; json_field_len key n.

(** One fold serves objects and arrays: a separator before every element but
    the first. *)
Definition json_elements_len (values : list (option Z)) : option Z :=
  foldl (λ acc iv,
    length ← acc;
    length ← checked_add usize_MAX length (if bool_decide (iv.1 = 0%nat) then 0 else 1);
    value ← iv.2;
    checked_add usize_MAX length value) (Some 2) (imap pair values).
Definition json_object_len (fields : list Z) : option Z := json_elements_len (Some <$> fields).
Definition json_array_len (values : list (option Z)) : option Z := json_elements_len values.

Definition json_number_len (value : Z) : option Z := Some (slen (serialize value)).
Definition json_bool_len (value : bool) : Z := if value then 4 else 5.

(** * Stripping inverts padding *)

(** JSON syntax: two members can be appended to the members of an object, and
    a comma may not follow the opening brace. *)
Class SerdeJsonLaws `{SerdeJson} : Prop := {
  json_append p obj bucket padding :
    parse_object (p ++ [close_brace]) = Some obj → obj ≠ ∅ → 0 ≤ bucket ≤ u64_MAX →
    forallb in_alphabet padding = true →
    parse_object (p ++ control_transport_suffix bucket padding)
      = Some (<["padding"%string := JsonString padding]>
                (<["padding_bucket"%string := JsonU64 bucket]> obj));
  json_append_empty p bucket padding :
    parse_object (p ++ [close_brace]) = Some ∅ →
    parse_object (p ++ control_transport_suffix bucket padding) = None
}.

(** ** Filler *)

Lemma filler_in_alphabet b : in_alphabet (filler_byte b) = true.
Proof. destruct b; vm_compute; reflexivity. Qed.
Lemma alphabet_ascii b : in_alphabet b = true → byte_Z b < 128.
Proof. destruct b; vm_compute; done. Qed.
Lemma filler_onto b : in_alphabet b = true → ∃ c, filler_byte c = b.
Proof.
  unfold in_alphabet. intros Hb%bool_decide_eq_true.
  apply list_elem_of_lookup in Hb as [i Hi]. exists (Z_byte (Z.of_nat i)). unfold filler_byte.
  pose proof (lookup_lt_Some _ _ _ Hi) as Hlt. change (length FILLER_ALPHABET) with 64%nat in Hlt.
  rewrite byte_Z_byte, Z.mod_small by lia.
  change 63 with (Z.ones 6). rewrite Z.land_ones, Z.mod_small by (simpl; lia).
  by rewrite Nat2Z.id, Hi.
Qed.

Lemma alphabet_utf8 l : forallb in_alphabet l = true → utf8_valid l = true.
Proof.
  intros Hl. apply is_ascii_utf8. unfold is_ascii. rewrite forallb_forall in *.
  intros b Hb%Hl. by apply bool_decide_eq_true, alphabet_ascii.
Qed.
Lemma filler_alphabet l : forallb in_alphabet (filler_byte <$> l) = true.
Proof. apply forallb_forall. intros b (c & <- & _)%in_map_iff. apply filler_in_alphabet. Qed.

(** Every filler is one some random source produces. *)
Lemma filler_source l : forallb in_alphabet l = true →
  ∃ RNG : OsRng, OsRngLaws ∧ filler_byte <$> fill_bytes (len l) = l.
Proof.
  intros Hl.
  assert (∃ cs, filler_byte <$> cs = l) as [cs Hcs].
  { induction l as [|b l IH]; [by exists []|]. apply andb_true_iff in Hl as [Hb Hl].
    destruct (filler_onto b Hb) as [c Hc], (IH Hl) as [cs Hcs]. exists (c :: cs). simpl. by f_equal. }
  assert (len cs = len l) as Hlen by (by rewrite <- Hcs, len_fmap).
  exists {| fill_bytes n := if decide (n = len l) then cs else replicate (Z.to_nat n) Byte.x00 |}.
  split; [|simpl; by rewrite decide_True].
  split. simpl. intros n Hn. case_decide; [by subst|]. unfold len. rewrite length_replicate. lia.
Qed.

Lemma random_padding_Ok `{OsRngLaws} n m f : 0 ≤ n →
  random_transport_padding n m = Ok f →
  len f = n ∧ n ≤ m ∧ forallb in_alphabet f = true ∧ f = filler_byte <$> fill_bytes n.
Proof.
  intros Hn. unfold random_transport_padding. intros (? & Hm & Hr)%bind_Ok.
  apply reject_if_Ok, bool_decide_eq_false in Hm. apply bind_Ok in Hr as (? & _ & [= <-]).
  split_and!; [|lia|apply filler_alphabet|done]. by rewrite len_fmap, fill_bytes_len.
Qed.

(** ** Suffixes *)

Lemma len_suffix b p : len (control_transport_suffix b p) = len (control_transport_suffix b []) + len p.
Proof. unfold control_transport_suffix. rewrite !len_app. change (len (@nil byte)) with 0. lia. Qed.

Lemma strip_suffix_Some s t p : strip_suffix s t = Some p ↔ t = p ++ s.
Proof.
  unfold strip_suffix. case_bool_decide as Hd; split; intros E; simplify_eq.
  - rewrite <- Hd at 2. by rewrite take_drop.
  - f_equal. rewrite length_app, Nat.add_sub. apply take_app_length.
  - destruct Hd. by rewrite length_app, Nat.add_sub, drop_app_length.
Qed.

(** ** Bucket sizes *)

Section frames.
Context {JSON : SerdeJson}.

Lemma find_Some {A} (f : A → bool) l x : find f l = Some x → x ∈ l ∧ f x = true.
Proof.
  induction l as [|y l IH]; simpl; [done|]. destruct (f y) eqn:E.
  - intros [= ->]. split; [by left|done].
  - intros [? ?]%IH. split; [by right|done].
Qed.

Lemma frame_len_Some inner limit b : control_transport_frame_len inner limit = Some b →
  ∃ p obj, inner = p ++ [close_brace] ∧ len inner ≤ limit ∧ parse_object inner = Some obj ∧
    obj !! "padding_bucket"%string = None ∧ obj !! "padding"%string = None ∧
    b ∈ CONTROL_TRANSPORT_BUCKETS ∧ b ≤ control_transport_wire_limit limit ∧
    len p + len (control_transport_suffix b []) ≤ b.
Proof.
  unfold control_transport_frame_len. destruct (_ || _) eqn:Hc; [done|].
  apply orb_false_elim in Hc as [[Hl _]%orb_false_elim Hlast].
  apply bool_decide_eq_false in Hl. apply bool_decide_eq_false, dec_stable in Hlast.
  destruct (parse_object inner) as [obj|] eqn:Hp; [|done].
  destruct (_ || _) eqn:Hk; [done|]. apply orb_false_elim in Hk as [Hk1 Hk2].
  apply contains_key_false in Hk1, Hk2. destruct (checked_sub _ _) as [n|] eqn:Hn; [|done].
  apply checked_sub_Some in Hn as [_ ->]. intros [Hin Hfit]%find_Some.
  apply last_Some in Hlast as [p ->]. exists p, obj. rewrite len_app in *.
  change (len [close_brace]) with 1 in *. unfold bucket_fits in Hfit.
  apply andb_true_iff in Hfit as [Hw%bool_decide_eq_true Hfit].
  destruct (checked_add _ _ _) as [e|] eqn:He; [|done]. apply checked_add_Some in He as [_ ->].
  apply bool_decide_eq_true in Hfit. split_and!; try done; lia.
Qed.

Lemma bucket_range b : b ∈ CONTROL_TRANSPORT_BUCKETS → 0 ≤ b ≤ CONTROL_TRANSPORT_MAX_BUCKET.
Proof.
  unfold CONTROL_TRANSPORT_MAX_BUCKET. intros Hb. repeat (apply elem_of_cons in Hb as [->|Hb]; [lia|]).
  by apply elem_of_nil in Hb.
Qed.

(** What padding produces. *)
Lemma pad_Ok {RNG : OsRng} {RL : OsRngLaws} inner limit t :
  pad_control_transport_frame inner limit = Ok t →
  ∃ p b f, inner = p ++ [close_brace] ∧ control_transport_frame_len inner limit = Some b ∧
    t = p ++ control_transport_suffix b f ∧ len t = b ∧ forallb in_alphabet f = true ∧
    len f ≤ control_transport_wire_limit limit.
Proof.
  unfold pad_control_transport_frame. intros (b & Hb%ok_or_Ok & Hr)%bind_Ok.
  apply bind_Ok in Hr as (p & Hp%ok_or_Ok%strip_suffix_Some & Hr).
  apply bind_Ok in Hr as (e & [_ ->]%ok_or_Ok%checked_add_Some & Hr).
  apply bind_Ok in Hr as (n & [? ->]%ok_or_Ok%checked_sub_Some & Hr).
  apply bind_Ok in Hr as (f & (Hf1 & ? & Hf2 & _)%random_padding_Ok & Hr); [|lia].
  apply bind_Ok in Hr as (? & Hl & [= <-]). apply reject_if_Ok, bool_decide_eq_false, dec_stable in Hl.
  exists p, b, f. split_and!; try done; lia.
Qed.

Lemma pad_run inner limit p b f :
  inner = p ++ [close_brace] → control_transport_frame_len inner limit = Some b →
  len (p ++ control_transport_suffix b f) = b → forallb in_alphabet f = true →
  len f ≤ control_transport_wire_limit limit →
  ∃ RNG : OsRng, OsRngLaws ∧
    pad_control_transport_frame inner limit = Ok (p ++ control_transport_suffix b f).
Proof.
  intros -> Hb Hl Hf Hw. destruct (filler_source f Hf) as (RNG & RL & Hsrc). exists RNG.
  split; [done|]. unfold pad_control_transport_frame. rewrite Hb. simpl.
  rewrite (proj2 (strip_suffix_Some [close_brace] (p ++ [close_brace]) p)) by done. simpl.
  pose proof (frame_len_Some _ _ _ Hb) as (_ & _ & _ & _ & _ & _ & _ & Hin & _ & _).
  pose proof (bucket_range b Hin) as Hr. rewrite len_app, len_suffix in Hl.
  pose proof (len_nonneg f). unfold CONTROL_TRANSPORT_MAX_BUCKET in Hr.
  rewrite checked_add_ok by (unfold usize_MAX; lia). simpl. rewrite checked_sub_ok by lia. simpl.
  replace (b - _) with (len f) by lia. unfold random_transport_padding.
  rewrite bool_decide_false by lia. simpl. rewrite Hsrc, (alphabet_utf8 f) by done. simpl.
  rewrite bool_decide_false; [done|]. rewrite len_app, len_suffix. lia.
Qed.
End frames.

Section theorems.
Context {JSON : SerdeJson} {JL : SerdeJsonLaws}.

(** Stripping accepts only the canonical padding. *)
Lemma strip_Ok t limit inner : strip_control_transport_frame t limit = Ok inner →
  ∃ p b f, inner = p ++ [close_brace] ∧ control_transport_frame_len inner limit = Some b ∧
    t = p ++ control_transport_suffix b f ∧ len t = b ∧ forallb in_alphabet f = true ∧
    len f ≤ control_transport_wire_limit limit.
Proof.
  unfold strip_control_transport_frame. intros (? & _ & Hr)%bind_Ok.
  apply bind_Ok in Hr as (obj & _ & Hr). apply bind_Ok in Hr as (b & _ & Hr).
  apply bind_Ok in Hr as (f & _ & Hr). apply bind_Ok in Hr as (? & Hc%reject_if_Ok & Hr).
  apply orb_false_elim in Hc as [_ Hf%negb_false_iff]. apply andb_true_iff in Hf as [Hw Hf].
  apply bool_decide_eq_true in Hw.
  apply bind_Ok in Hr as (p & Hp%ok_or_Ok%strip_suffix_Some & Hr).
  apply bind_Ok in Hr as (? & _ & Hr). apply bind_Ok in Hr as (cb & Hcb%ok_or_Ok & Hr).
  apply bind_Ok in Hr as (e & _ & Hr). apply bind_Ok in Hr as (? & Hk%reject_if_Ok & [= <-]).
  apply orb_false_elim in Hk as [[Hb _]%orb_false_elim Hl].
  apply bool_decide_eq_false, dec_stable in Hb, Hl. subst cb. by exists p, b, f.
Qed.

Lemma strip_run p b f limit obj :
  control_transport_frame_len (p ++ [close_brace]) limit = Some b →
  len (p ++ control_transport_suffix b f) = b → forallb in_alphabet f = true →
  len f ≤ control_transport_wire_limit limit →
  parse_object (p ++ control_transport_suffix b f) = Some obj →
  member_u64 obj "padding_bucket" = Some b → member_str obj "padding" = Some f →
  strip_control_transport_frame (p ++ control_transport_suffix b f) limit = Ok (p ++ [close_brace]).
Proof.
  intros Hb Hl Hf Hw Hp Hm1 Hm2. unfold strip_control_transport_frame.
  pose proof (frame_len_Some _ _ _ Hb) as (p' & ? & E & Hlim & _ & _ & _ & Hin & Hwl & Hfit).
  apply app_inj_tail in E as [<- _]. pose proof (bucket_range b Hin).
  rewrite Hl, Hp, (bool_decide_false (_ < b)) by lia. simpl. rewrite Hm1. simpl. rewrite Hm2. simpl.
  rewrite (bool_decide_false (_ < b)), (bool_decide_true (b ∈ _)) by (done || lia). simpl.
  unfold valid_transport_padding. rewrite bool_decide_true, Hf by lia. simpl.
  rewrite (proj2 (strip_suffix_Some (control_transport_suffix b f) _ p)) by done. simpl.
  rewrite bool_decide_false by lia. simpl. rewrite Hb. simpl.
  unfold CONTROL_TRANSPORT_MAX_BUCKET in *.
  rewrite checked_add_ok by (unfold usize_MAX; lia). simpl. unfold saturating_sub.
  rewrite len_app, len_suffix in Hl.
  rewrite !bool_decide_false by (naive_solver lia). done.
Qed.

(** Control padding is canonical and lossless.  For a frame that is a JSON
    object with at least one member, [strip] returns it exactly from the texts
    [pad] can produce for it; for the empty object every padded text is refused
    by [strip]. *)
Theorem control_padding_canonical inner limit t obj :
  parse_object inner = Some obj →
  (obj ≠ ∅ →
   strip_control_transport_frame t limit = Ok inner ↔
   ∃ RNG : OsRng, OsRngLaws ∧ pad_control_transport_frame inner limit = Ok t) ∧
  (obj = ∅ →
   ∀ (RNG : OsRng) (RL : OsRngLaws), pad_control_transport_frame inner limit = Ok t →
   strip_control_transport_frame t limit = Err "control transport frame rejected"%string).
Proof.
  intros Hobj. split.
  - intros Hne. split.
    + intros (p & b & f & -> & Hb & -> & Hl & Hf & Hw)%strip_Ok. by apply (pad_run _ limit).
    + intros (RNG & RL & (p & b & f & -> & Hb & -> & Hl & Hf & Hw)%pad_Ok).
      pose proof (frame_len_Some _ _ _ Hb) as (_ & _ & _ & _ & _ & _ & _ & Hin & _ & _).
      apply bucket_range in Hin. unfold CONTROL_TRANSPORT_MAX_BUCKET in Hin.
      eapply strip_run; [done..| | |].
      * apply (json_append p obj b f); [done|done|unfold u64_MAX; lia|done].
      * unfold member_u64. rewrite lookup_insert_ne, lookup_insert_eq by done. done.
      * unfold member_str. by rewrite lookup_insert_eq.
  - intros -> RNG RL (p & b & f & -> & Hb & -> & Hl & _)%pad_Ok.
    pose proof (frame_len_Some _ _ _ Hb) as (_ & _ & _ & _ & _ & _ & _ & _ & Hwl & _).
    unfold strip_control_transport_frame. rewrite Hl, bool_decide_false by lia. simpl.
    by rewrite json_append_empty.
Qed.
End theorems.

(** * A parser of flat JSON objects that satisfies the assumed syntax rules

    Members are numbers and strings without escapes, with no white space: a
    small instance of the parser interface, to run the padding on. *)

Module JsonDemo.

Inductive state : Type :=
| Begin
| Opened
| Comma (acc : gmap string JsonValue)
| Name (acc : gmap string JsonValue) (k : bytes)
| Colon (acc : gmap string JsonValue) (k : bytes)
| Value (acc : gmap string JsonValue) (k : bytes)
| Number (acc : gmap string JsonValue) (k : bytes) (n : Z)
| Text (acc : gmap string JsonValue) (k s : bytes)
| Quoted (acc : gmap string JsonValue) (k s : bytes)
| Finished (acc : gmap string JsonValue)
| Failed.

Definition put_member (acc : gmap string JsonValue) (k : bytes) (v : JsonValue) :
    gmap string JsonValue := <[bytes_text k := v]> acc.

Definition is_digit (b : byte) : bool := between 48 57 b.

Definition next (s : state) (b : byte) : state :=
  match s with
  | Begin => if bool_decide (b = open_brace) then Opened else Failed
  | Opened =>
      if bool_decide (b = quote) then Name ∅ []
      else if bool_decide (b = close_brace) then Finished ∅ else Failed
  | Comma acc => if bool_decide (b = quote) then Name acc [] else Failed
  | Name acc k => if bool_decide (b = quote) then Colon acc k else Name acc (k ++ [b])
  | Colon acc k => if bool_decide (b = Byte.x3a) then Value acc k else Failed
  | Value acc k =>
      if bool_decide (b = quote) then Text acc k []
      else if is_digit b then Number acc k (byte_Z b - 48) else Failed
  | Number acc k n =>
      if is_digit b then Number acc k (10 * n + (byte_Z b - 48))
      else if bool_decide (b = Byte.x2c) then Comma (put_member acc k (JsonU64 n))
      else if bool_decide (b = close_brace) then Finished (put_member acc k (JsonU64 n)) else Failed
  | Text acc k s => if bool_decide (b = quote) then Quoted acc k s else Text acc k (s ++ [b])
  | Quoted acc k s =>
      if bool_decide (b = Byte.x2c) then Comma (put_member acc k (JsonString s))
      else if bool_decide (b = close_brace) then Finished (put_member acc k (JsonString s))
      else Failed
  | Finished _ | Failed => Failed
  end.

Definition run (s : state) (l : bytes) : state := foldl next s l.

#[export] Instance demo_json : SerdeJson :=
  {| parse_object t := match run Begin t with Finished o => Some o | _ => None end |}.

Lemma json_run_app s l k : run s (l ++ k) = run (run s l) k.
Proof. apply foldl_app. Qed.
Lemma run_failed l : run Failed l = Failed.
Proof. by induction l. Qed.

Lemma run_text acc k s l :
  forallb in_alphabet l = true → run (Text acc k s) l = Text acc k (s ++ l).
Proof.
  revert s. induction l as [|b l IH]; intros s Hl; [by rewrite app_nil_r|].
  apply andb_true_iff in Hl as [Hb Hl]. simpl. rewrite bool_decide_false by (by intros ->).
  fold (run (Text acc k (s ++ [b])) l). rewrite IH by done. by rewrite <- (assoc_L (++)).
Qed.

Definition digit_byte (d : Z) : byte := Ascii.byte_of_ascii (ascii_of_code (48 + d)).

Lemma digit_byte_ok d : digit d → is_digit (digit_byte d) = true ∧ byte_Z (digit_byte d) - 48 = d ∧
  digit_byte d ≠ quote.
Proof.
  unfold digit. intros Hd.
  assert (d = 0 ∨ d = 1 ∨ d = 2 ∨ d = 3 ∨ d = 4 ∨ d = 5 ∨ d = 6 ∨ d = 7 ∨ d = 8 ∨ d = 9) as H by lia.
  repeat destruct H as [->|H]; try subst d; by vm_compute.
Qed.

Lemma run_number acc k n l : Forall digit l →
  run (Number acc k n) (digit_byte <$> l) = Number acc k (foldl (λ a d, 10 * a + d) n l).
Proof.
  intros Hl. revert n. induction Hl as [|d l Hd _ IH]; intros n; [done|]. simpl.
  destruct (digit_byte_ok d Hd) as (-> & -> & _). apply IH.
Qed.

Lemma text_bytes_digits l : text_bytes (print_digits l) = digit_byte <$> l.
Proof.
  unfold text_bytes, String.list_byte_of_string. rewrite print_digits_chars.
  symmetry. exact (list_fmap_compose (λ d, ascii_of_code (48 + d)) Ascii.byte_of_ascii l).
Qed.

Lemma run_decimal acc k n : 0 ≤ n ≤ u64_MAX →
  run (Value acc k) (text_bytes (serialize n)) = Number acc k n.
Proof.
  intros Hn. unfold serialize. rewrite text_bytes_digits.
  assert (0 ≤ n < 10 ^ Z.of_nat 20) as Hr by (revert Hn; change (10 ^ Z.of_nat 20)
    with 100000000000000000000; unfold u64_MAX; lia).
  pose proof (to_digits_digit 20 n ltac:(lia)) as Hd. pose proof (to_digits_value 20 n Hr) as Hv.
  destruct (to_digits_canonical 20 n ltac:(done) Hr) as (d & l & E & _). rewrite E in *.
  apply Forall_cons in Hd as [Hd Hl]. destruct (digit_byte_ok d Hd) as (H1 & H2 & H3).
  simpl. rewrite bool_decide_false, H1, H2 by done. fold (run (Number acc k d) (digit_byte <$> l)).
  rewrite run_number by done. f_equal. exact Hv.
Qed.

(** From a state where an object could end, the two members are read. *)
Lemma run_suffix s acc bucket padding :
  next s Byte.x2c = Comma acc → 0 ≤ bucket ≤ u64_MAX → forallb in_alphabet padding = true →
  run s (control_transport_suffix bucket padding)
    = Finished (<["padding"%string := JsonString padding]>
                  (<["padding_bucket"%string := JsonU64 bucket]> acc)).
Proof.
  intros Hs Hb Hp. unfold control_transport_suffix. rewrite !json_run_app.
  assert (run s [Byte.x2c; quote] = Name acc []) as -> by (simpl; by rewrite Hs).
  change (run (Name acc []) (text_bytes "padding_bucket"))
    with (Name acc (text_bytes "padding_bucket")).
  change (run (Name acc (text_bytes "padding_bucket")) [quote; Byte.x3a])
    with (Value acc (text_bytes "padding_bucket")).
  rewrite run_decimal by done.
  set (acc1 := put_member acc (text_bytes "padding_bucket") (JsonU64 bucket)).
  change (run (Number acc _ bucket) [Byte.x2c; quote]) with (Name acc1 []).
  change (run (Name acc1 []) (text_bytes "padding")) with (Name acc1 (text_bytes "padding")).
  change (run (Name acc1 (text_bytes "padding")) [quote; Byte.x3a; quote])
    with (Text acc1 (text_bytes "padding") []).
  rewrite run_text by done. done.
Qed.

Lemma finish_cases s o : next s close_brace = Finished o →
  (s = Opened ∧ o = ∅) ∨ (o ≠ ∅ ∧ next s Byte.x2c = Comma o).
Proof.
  destruct s; simpl; intros E; try done; injection E as <-; [by left|right..];
    (split; [apply insert_non_empty|done]).
Qed.

#[export] Instance demo_json_laws : SerdeJsonLaws.
Proof.
  split; intros p; [intros obj|]; intros bucket padding;
    unfold parse_object, demo_json; rewrite !json_run_app;
    change (run (run Begin p) [close_brace]) with (next (run Begin p) close_brace).
  - destruct (next (run Begin p) close_brace) as [| | | | | | | | |o|] eqn:E; try done.
    intros [= ->] Hne Hb Hp. destruct (finish_cases _ _ E) as [[_ ->]|[_ Hc]]; [done|].
    by rewrite (run_suffix _ obj).
  - destruct (next (run Begin p) close_brace) as [| | | | | | | | |o|] eqn:E; try done.
    intros [= ->]. destruct (finish_cases _ _ E) as [[-> _]|[? _]]; [|done].
    unfold control_transport_suffix. simpl. by rewrite run_failed.
Qed.

End JsonDemo.

Import JsonDemo.

#[local] Instance demo_rng : OsRng := {| fill_bytes n := replicate (Z.to_nat n) Byte.x07 |}.
#[local] Instance demo_rng_laws : OsRngLaws.
Proof. split. simpl. intros n Hn. unfold len. rewrite length_replicate. lia. Qed.

(** [{"type":"ping"}]. *)
Definition demo_inner : bytes :=
  [open_brace; quote] ++ text_bytes "type" ++ [quote; Byte.x3a; quote] ++ text_bytes "ping"
    ++ [quote; close_brace].
Definition demo_padded : bytes :=
  default [] (ok (pad_control_transport_frame demo_inner 65536)).

Lemma control_padding_canonical_witness :
  strip_control_transport_frame demo_padded 65536 = Ok demo_inner.
Proof.
  destruct (pad_control_transport_frame demo_inner 65536) as [t|] eqn:E; [|vm_compute in E; discriminate].
  destruct (parse_object demo_inner) as [obj|] eqn:Eo; [|vm_compute in Eo; discriminate].
  destruct (control_padding_canonical demo_inner 65536 t obj Eo) as [H _].
  unfold demo_padded. rewrite E. apply H.
  - intros ->. vm_compute in Eo. discriminate.
  - exists demo_rng. split; [exact demo_rng_laws|exact E].
Defined.
