(* ===== verification/AttachmentAccess.v ===== *)
(** * Who may use an attachment, and for how long (mirage-server/src/attachments.rs)

    The conversation a caller has access to, the media its policy allows, the
    lifetime of an upload and the accounts that may download it.  The catalogs
    the relay keeps beside the room authority are maps; the authority itself is
    the one of RoomAuthority, and asking it sweeps it. *)

From S2P Require Import Prelude RoomModel RoomValidation RoomAuthority RoomLifecycle.

(** ** Catalogs (main.rs) *)

Definition MAX_CHAT_ID_BYTES : Z := 128.

Record RoomRecord : Type := mkRoomRecord {
  rr_id : string;
  rr_name : string;
  rr_owner_username : string;
  rr_self_destruct_timer_sec : Z;
  rr_overall_expiry_sec : Z;
  rr_allow_images : bool;
  rr_allow_videos : bool;
  rr_allow_files : bool;
  rr_enforce_text_absolute_expiry : bool;
  rr_image_read_timer_sec : Z;
  rr_image_overall_expiry_sec : Z;
  rr_enforce_image_absolute_expiry : bool;
  rr_video_read_timer_sec : Z;
  rr_video_overall_expiry_sec : Z;
  rr_enforce_video_absolute_expiry : bool;
  rr_file_read_timer_sec : Z;
  rr_file_overall_expiry_sec : Z;
  rr_enforce_file_absolute_expiry : bool
}.

Record RoomEntry : Type := mkRoomEntry { re_room : RoomRecord; re_owner_code_id : CodeId }.

Record DirectEntry : Type := mkDirect { de_id : string; de_user_a : string; de_user_b : string }.

(** The fields of an account that the attachment code reads. *)
Record Account : Type := mkAccount {
  ac_username : string;
  ac_client_platform : option ClientPlatform
}.

Inductive ConversationAccess : Type :=
| MlsRoom (policy : RoomPolicy)
| Room (room : RoomRecord)
| Direct.

(** The maps of [AppState] that decide access. *)
Record Catalog : Type := mkCatalog {
  ct_accounts : gmap CodeId Account;
  ct_mls_rooms : RoomAuthority;
  ct_room_catalog : gmap string RoomEntry;
  ct_direct_catalog : gmap string DirectEntry
}.
Definition set_mls_rooms (v : RoomAuthority) (c : Catalog) : Catalog :=
  mkCatalog (ct_accounts c) v (ct_room_catalog c) (ct_direct_catalog c).

Definition peer_for (d : DirectEntry) (username : string) : option string :=
  if bool_decide (de_user_a d = username) then Some (de_user_b d)
  else if bool_decide (de_user_b d = username) then Some (de_user_a d)
  else None.

(** ** Media and lifetimes *)

Definition valid_chat_id (chat_id : string) : bool :=
  negb (bool_decide (chat_id = EmptyString)) && bool_decide (slen chat_id ≤ MAX_CHAT_ID_BYTES)
  && all_id_bytes chat_id.

Definition room_allows_media (room : RoomRecord) (media_type : string) : bool :=
  if bool_decide (media_type = "IMAGE") then rr_allow_images room
  else if bool_decide (media_type = "VIDEO") then rr_allow_videos room
  else rr_allow_files room.

Definition policy_allows_media (policy : RoomPolicy) (media_type : string) : bool :=
  if bool_decide (media_type = "IMAGE") then allow_images policy
  else if bool_decide (media_type = "VIDEO") then allow_videos policy
  else allow_files policy.

(** [option.filter(|ttl| *ttl > 0).into_iter().chain(media).min().unwrap_or(0)]:
    the smaller of the two lifetimes that are set, 0 when neither is. *)
Definition shortest_ttl (room_ttl : option Z) (media_ttl : Z) : Z :=
  match room_ttl with
  | Some r => if decide (0 < media_ttl) then Z.min r media_ttl else r
  | None => if decide (0 < media_ttl) then media_ttl else 0
  end.

(** [enabled.then_some(ttl).filter(|ttl| *ttl > 0)]. *)
Definition enabled_ttl (enabled : bool) (ttl : Z) : option Z :=
  if enabled && bool_decide (0 < ttl) then Some ttl else None.

Definition enforced_attachment_ttl_sec (room : RoomRecord) (media_type : string) : Z :=
  let media_ttl :=
    if bool_decide (media_type = "IMAGE") && rr_enforce_image_absolute_expiry room
    then rr_image_overall_expiry_sec room
    else if bool_decide (media_type = "VIDEO") && rr_enforce_video_absolute_expiry room
    then rr_video_overall_expiry_sec room
    else if bool_decide (media_type = "FILE") && rr_enforce_file_absolute_expiry room
    then rr_file_overall_expiry_sec room
    else 0 in
  shortest_ttl (enabled_ttl (rr_enforce_text_absolute_expiry room) (rr_overall_expiry_sec room))
    media_ttl.

Definition enforced_attachment_ttl_sec_policy (policy : RoomPolicy) (media_type : string) : Z :=
  let media_ttl :=
    if bool_decide (media_type = "IMAGE") && enforce_image_absolute_expiry policy
    then image_overall_expiry_sec policy
    else if bool_decide (media_type = "VIDEO") && enforce_video_absolute_expiry policy
    then video_overall_expiry_sec policy
    else if bool_decide (media_type = "FILE") && enforce_file_absolute_expiry policy
    then file_overall_expiry_sec policy
    else 0 in
  shortest_ttl (enabled_ttl (enforce_text_absolute_expiry policy) (overall_expiry_sec policy))
    media_ttl.

(** [match (requested, enforced)]. *)
Definition merge_ttl (requested enforced : Z) : Z :=
  if decide (requested = 0) then enforced
  else if decide (enforced = 0) then requested
  else Z.min requested enforced.

Definition effective_attachment_ttl_sec (requested : option Z) (access : ConversationAccess)
    (media_type : string) (max_lifetime_sec : Z) : Z :=
  let requested := Z.min (default 0 requested) 86400 in
  let effective :=
    match access with
    | MlsRoom policy => merge_ttl requested (enforced_attachment_ttl_sec_policy policy media_type)
    | Room room => merge_ttl requested (enforced_attachment_ttl_sec room media_type)
    | Direct => requested
    end in
  if decide (effective = 0) then max_lifetime_sec else Z.min effective max_lifetime_sec.

(** ** Access *)

Section access.
Context {HO : HashOrder}.

(** The three readings of the clock are those of the three questions to the
    authority. *)
Definition conversation_access (now1 now2 now3 : Z) (username chat_id : string) (c : Catalog)
    : option ConversationAccess * Catalog :=
  let catalogs (c : Catalog) :=
    match ct_room_catalog c !! chat_id with
    | Some entry => Some (Room (re_room entry))
    | None =>
        match ct_direct_catalog c !! chat_id with
        | Some d =>
            if bool_decide (de_user_a d = username) || bool_decide (de_user_b d = username)
            then Some Direct else None
        | None => None
        end
    end in
  if negb (valid_chat_id chat_id) then (None, c)
  else
    match List.find (λ ca, bool_decide (ac_username ca.2 = username)) (hash_iter (ct_accounts c)) with
    | None => (catalogs c, c)
    | Some (code_id, _) =>
        let '(member, a) := is_member now1 chat_id code_id (ct_mls_rooms c) in
        if negb member then (catalogs c, set_mls_rooms a c)
        else
          let '(active, a) := is_active_member now2 chat_id code_id a in
          if negb active then (None, set_mls_rooms a c)
          else
            let '(info, a) := member_info now3 chat_id code_id a in
            match info with
            | Ok info => (Some (MlsRoom (ri_policy info)), set_mls_rooms a c)
            | Err _ => (catalogs c, set_mls_rooms a c)
            end
    end.

Definition allows_media (access : ConversationAccess) (media_type : string) : bool :=
  match access with
  | MlsRoom policy => policy_allows_media policy media_type
  | Room room => room_allows_media room media_type
  | Direct => true
  end.

(** The statuses the attachment code answers with. *)
Inductive StatusCode : Type :=
| NO_CONTENT
| BAD_REQUEST
| FORBIDDEN
| NOT_FOUND
| TOO_MANY_REQUESTS.

Definition attachment_conversation_access (now1 now2 now3 : Z)
    (username chat_id media_type : string) (c : Catalog)
    : result StatusCode ConversationAccess * Catalog :=
  if negb (valid_chat_id chat_id) then (Err BAD_REQUEST, c)
  else
    match conversation_access now1 now2 now3 username chat_id c with
    | (None, c) => (Err FORBIDDEN, c)
    | (Some access, c) =>
        if negb (allows_media access media_type) then (Err FORBIDDEN, c) else (Ok access, c)
    end.

Definition snapshot_attachment_recipients (now : Z) (access : ConversationAccess)
    (chat_id owner_username : string) (owner_code_id : CodeId) (c : Catalog)
    : gset CodeId * Catalog :=
  match access with
  | MlsRoom _ =>
      let '(codes, a) := active_member_code_ids now chat_id (ct_mls_rooms c) in
      (list_to_set
         (filter (λ code : CodeId, code ≠ owner_code_id)
            match codes with Ok codes => codes | Err _ => [] end),
       set_mls_rooms a c)
  | _ =>
      let peer_username :=
        match access with
        | Direct => d ← ct_direct_catalog c !! chat_id; peer_for d owner_username
        | _ => None
        end in
      (list_to_set
         (hash_keys
            (retain (λ code account,
               negb (bool_decide (code = owner_code_id))
               && match access, peer_username with
                  | MlsRoom _, _ => false
                  | Room _, _ => true
                  | Direct, Some peer => bool_decide (ac_username account = peer)
                  | Direct, None => false
                  end) (ct_accounts c))), c)
  end.
End access.
