(* ===== verification/AttachmentStore.v ===== *)
(** * The attachment registry (mirage-server/src/attachments.rs)

    Encrypted attachments wait in memory until their recipients fetched them:
    the records, the index that binds a message to its attachment, and the bytes
    each owner uses.  A record is staged by an upload, published with its
    message, claimed by recipients and removed when it expires, is deleted or
    every recipient is done.  The memory permits of the blobs belong to the
    runtime's semaphores and are not part of the state. *)

From S2P Require Import Prelude RoomModel AttachmentAccess.

Definition ATTACHMENT_CLAIM_TTL_MS : Z := 10 * 60 * 1000.
Definition ATTACHMENT_STAGING_TTL_MS : Z := 10 * 60 * 1000.

(** [Uuid]: its sixteen bytes. *)
Abbreviation Uuid := bytes.

Record AttachmentBindingKey : Type := mkBindingKey {
  bk_owner_code_id : CodeId;
  bk_chat_id : string;
  bk_message_id : string
}.

#[export] Instance AttachmentBindingKey_eq_dec : EqDecision AttachmentBindingKey.
Proof. solve_decision. Defined.
#[export] Instance AttachmentBindingKey_countable : Countable AttachmentBindingKey :=
  inj_countable' (λ k, (bk_owner_code_id k, bk_chat_id k, bk_message_id k))
    (λ x, mkBindingKey x.1.1 x.1.2 x.2) (λ k, match k with mkBindingKey _ _ _ => eq_refl end).

Record AttachmentDownloadClaim : Type := mkClaim {
  dc_recipient_code_id : CodeId;
  dc_created_at_ms : Z
}.

Record AttachmentRecord : Type := mkAttachment {
  ar_blob : bytes;
  ar_chat_id : string;
  ar_message_id : string;
  ar_media_type : string;
  ar_owner_code_id : CodeId;
  ar_sender_platform : ClientPlatform;
  ar_published : bool;
  ar_staged_expires_at_ms : option Z;
  ar_one_time : bool;
  ar_delete_after_download : bool;
  ar_expires_at_ms : option Z;
  ar_eligible_recipient_code_ids : gset CodeId;
  ar_download_claims : gmap Uuid AttachmentDownloadClaim;
  ar_completed_recipient_code_ids : gset CodeId
}.

(** Assignments. *)
Definition set_ar_staging (published : bool) (staged : option Z) (r : AttachmentRecord) :=
  mkAttachment (ar_blob r) (ar_chat_id r) (ar_message_id r) (ar_media_type r)
    (ar_owner_code_id r) (ar_sender_platform r) published staged (ar_one_time r)
    (ar_delete_after_download r) (ar_expires_at_ms r) (ar_eligible_recipient_code_ids r)
    (ar_download_claims r) (ar_completed_recipient_code_ids r).
Definition set_ar_recipients (eligible : gset CodeId) (claims : gmap Uuid AttachmentDownloadClaim)
    (completed : gset CodeId) (r : AttachmentRecord) :=
  mkAttachment (ar_blob r) (ar_chat_id r) (ar_message_id r) (ar_media_type r)
    (ar_owner_code_id r) (ar_sender_platform r) (ar_published r) (ar_staged_expires_at_ms r)
    (ar_one_time r) (ar_delete_after_download r) (ar_expires_at_ms r) eligible claims completed.
Definition set_ar_eligible v r :=
  set_ar_recipients v (ar_download_claims r) (ar_completed_recipient_code_ids r) r.
Definition set_ar_claims v r :=
  set_ar_recipients (ar_eligible_recipient_code_ids r) v (ar_completed_recipient_code_ids r) r.
Definition set_ar_completed v r :=
  set_ar_recipients (ar_eligible_recipient_code_ids r) (ar_download_claims r) v r.

Record StagedAttachmentRollback : Type := mkStagedRollback {
  sr_attachment_id : Uuid;
  sr_owner_code_id : CodeId;
  sr_chat_id : string;
  sr_message_id : string;
  sr_eligible_recipient_code_ids : gset CodeId;
  sr_published : bool;
  sr_staged_expires_at_ms : option Z
}.

Record AttachmentDownloadReservation : Type := mkReservation {
  rv_blob : bytes;
  rv_claim_id : option Uuid;
  rv_epoch : Z
}.

(** The three maps of [AppState], always locked together in this order. *)
Record AttachmentStore : Type := mkStore {
  st_bindings : gmap AttachmentBindingKey Uuid;
  st_attachments : gmap Uuid AttachmentRecord;
  st_usage : gmap CodeId Z
}.
Definition set_bindings v s := mkStore v (st_attachments s) (st_usage s).
Definition set_attachments v s := mkStore (st_bindings s) v (st_usage s).
Definition set_usage v s := mkStore (st_bindings s) (st_attachments s) v.

Definition store_new : AttachmentStore := mkStore ∅ ∅ ∅.

Definition matches_record (k : AttachmentBindingKey) (r : AttachmentRecord) : bool :=
  bool_decide (bk_owner_code_id k = ar_owner_code_id r)
  && bool_decide (bk_chat_id k = ar_chat_id r)
  && bool_decide (bk_message_id k = ar_message_id r).

Definition record_key (r : AttachmentRecord) : AttachmentBindingKey :=
  mkBindingKey (ar_owner_code_id r) (ar_chat_id r) (ar_message_id r).

Definition remove_attachment_binding_if_matches (attachment_id : Uuid) (r : AttachmentRecord)
    (bindings : gmap AttachmentBindingKey Uuid) : gmap AttachmentBindingKey Uuid :=
  if bool_decide (bindings !! record_key r = Some attachment_id)
  then delete (record_key r) bindings else bindings.

Definition subtract_attachment_usage (owner_code_id : CodeId) (n : Z) (usage : gmap CodeId Z)
    : gmap CodeId Z :=
  match usage !! owner_code_id with
  | None => usage
  | Some current =>
      if decide (current ≤ n) then delete owner_code_id usage
      else <[owner_code_id := current - n]> usage
  end.

(** What every removal does beside removing the record. *)
Definition release_record (attachment_id : Uuid) (r : AttachmentRecord) (s : AttachmentStore)
    : AttachmentStore :=
  mkStore (remove_attachment_binding_if_matches attachment_id r (st_bindings s))
    (st_attachments s)
    (subtract_attachment_usage (ar_owner_code_id r) (len (ar_blob r)) (st_usage s)).

Definition remove_record (attachment_id : Uuid) (r : AttachmentRecord) (s : AttachmentStore)
    : AttachmentStore :=
  release_record attachment_id r (set_attachments (delete attachment_id (st_attachments s)) s).

(** The removal of a record no binding names: only the usage is settled. *)
Definition remove_orphan (attachment_id : Uuid) (s : AttachmentStore) : AttachmentStore :=
  match st_attachments s !! attachment_id with
  | Some r =>
      mkStore (st_bindings s) (delete attachment_id (st_attachments s))
        (subtract_attachment_usage (ar_owner_code_id r) (len (ar_blob r)) (st_usage s))
  | None => s
  end.

Definition claim_fresh (now : Z) (c : AttachmentDownloadClaim) : bool :=
  bool_decide (saturating_sub now (dc_created_at_ms c) < ATTACHMENT_CLAIM_TTL_MS).

(** [deadline.is_none_or(|expires| now < expires)] and
    [deadline.is_some_and(|expires| now < expires)]. *)
Definition none_or_before (now : Z) (deadline : option Z) : bool :=
  match deadline with Some d => bool_decide (now < d) | None => true end.
Definition some_and_before (now : Z) (deadline : option Z) : bool :=
  match deadline with Some d => bool_decide (now < d) | None => false end.

Section store.
Context {HO : HashOrder}.

(** ** Sweeps *)

(** [attachments.retain(|id, record| ...)]: [visit] is what the closure does to
    the record, [keep] whether it stays; a record that goes is released. *)
Definition retain_records (visit : AttachmentRecord → AttachmentRecord)
    (keep : AttachmentRecord → bool) (s : AttachmentStore) : AttachmentStore :=
  foldl (λ s ir,
      let r := visit ir.2 in
      if keep r then set_attachments (<[ir.1 := r]> (st_attachments s)) s
      else remove_record ir.1 r s)
    s (hash_iter (st_attachments s)).

Definition drop_stale_claims (now : Z) (r : AttachmentRecord) : AttachmentRecord :=
  set_ar_claims (retain (λ _ c, claim_fresh now c) (ar_download_claims r)) r.

Definition record_live (now : Z) (r : AttachmentRecord) : bool :=
  let live :=
    if ar_published r then none_or_before now (ar_expires_at_ms r)
    else some_and_before now (ar_staged_expires_at_ms r) in
  live || (ar_published r && negb (bool_decide (ar_download_claims r = ∅))).

(** Bindings that name a record of another message. *)
Definition stale_bindings (s : AttachmentStore) : list (AttachmentBindingKey * Uuid) :=
  List.filter (λ kb, match st_attachments s !! kb.2 with
                     | Some r => negb (matches_record kb.1 r)
                     | None => false
                     end) (hash_iter (st_bindings s)).

Definition drop_stale_binding (s : AttachmentStore) (kb : AttachmentBindingKey * Uuid)
    : AttachmentStore :=
  let s := set_bindings (delete kb.1 (st_bindings s)) s in
  if any_value (λ id, bool_decide (id = kb.2)) (st_bindings s) then s
  else remove_orphan kb.2 s.

Definition binding_live (s : AttachmentStore) (k : AttachmentBindingKey) (id : Uuid) : bool :=
  match st_attachments s !! id with Some r => matches_record k r | None => false end.

Definition prune_expired_attachments_locked (now : Z) (s : AttachmentStore) : AttachmentStore :=
  let s := retain_records (drop_stale_claims now) (record_live now) s in
  let s := foldl drop_stale_binding s (stale_bindings s) in
  set_bindings (retain (binding_live s) (st_bindings s)) s.

Definition remove_chat_attachments (chat_id : string) (s : AttachmentStore) : AttachmentStore :=
  retain_records id (λ r, negb (bool_decide (ar_chat_id r = chat_id))) s.

Definition revoke_record (room_id : string) (removed_code_id : CodeId) (r : AttachmentRecord)
    : AttachmentRecord :=
  if bool_decide (ar_chat_id r = room_id) then
    set_ar_recipients (ar_eligible_recipient_code_ids r ∖ {[removed_code_id]})
      (retain (λ _ c, negb (bool_decide (dc_recipient_code_id c = removed_code_id)))
         (ar_download_claims r))
      (ar_completed_recipient_code_ids r ∖ {[removed_code_id]}) r
  else r.

Definition revoke_mls_attachment_access (room_id : string) (removed_code_id : CodeId)
    (s : AttachmentStore) : AttachmentStore :=
  set_attachments (revoke_record room_id removed_code_id <$> st_attachments s) s.

(** The attachment part of [wipe_relay_state] (main.rs). *)
Definition wipe_attachments (s : AttachmentStore) : AttachmentStore := store_new.

(** ** Staging and publication *)

(** [bindings.iter().any(|(k, id)| k != key && id == attachment_id)]. *)
Definition bound_elsewhere (key : AttachmentBindingKey) (attachment_id : Uuid)
    (bindings : gmap AttachmentBindingKey Uuid) : bool :=
  existsb (λ kb, negb (bool_decide (kb.1 = key)) && bool_decide (kb.2 = attachment_id))
    (hash_iter bindings).

Definition drop_binding (key : AttachmentBindingKey) (s : AttachmentStore) : AttachmentStore :=
  set_bindings (delete key (st_bindings s)) s.

(** The actions [staged_attachment_for_message] chooses between. *)
Inductive StagedAction : Type :=
| ActMissing | ActMismatch | ActExpired | ActDuplicate | ActStaged.

Definition staged_action (now : Z) (key : AttachmentBindingKey) (r : option AttachmentRecord)
    : StagedAction :=
  match r with
  | None => ActMissing
  | Some r =>
      if negb (matches_record key r) then ActMismatch
      else if ar_published r then
        if negb (none_or_before now (ar_expires_at_ms r))
           && bool_decide (ar_download_claims r = ∅)
        then ActExpired else ActDuplicate
      else if negb (some_and_before now (ar_staged_expires_at_ms r))
              || negb (none_or_before now (ar_expires_at_ms r))
      then ActExpired else ActStaged
  end.

Definition staged_attachment_for_message (now : Z) (owner_code_id : CodeId)
    (chat_id message_id : string) : ST AttachmentStore string (option Uuid) := λ s,
  let key := mkBindingKey owner_code_id chat_id message_id in
  match st_bindings s !! key with
  | None => (Ok None, s)
  | Some attachment_id =>
      let s :=
        match st_attachments s !! attachment_id with
        | Some r =>
            if matches_record key r
            then set_attachments (<[attachment_id := drop_stale_claims now r]> (st_attachments s)) s
            else s
        | None => s
        end in
      match staged_action now key (st_attachments s !! attachment_id) with
      | ActMissing => (Ok None, drop_binding key s)
      | ActMismatch =>
          let orphaned := negb (bound_elsewhere key attachment_id (st_bindings s)) in
          let s := drop_binding key s in
          (Ok None, if orphaned then remove_orphan attachment_id s else s)
      | ActExpired =>
          (Ok None,
           match st_attachments s !! attachment_id with
           | Some r => remove_record attachment_id r s
           | None => drop_binding key s
           end)
      | ActDuplicate => (Err "duplicate attachment message binding"%string, s)
      | ActStaged => (Ok (Some attachment_id), s)
      end
  end.

Definition publish_staged_attachment_checked (now : Z) (attachment_id : Uuid)
    (owner_code_id : CodeId) (chat_id message_id : string)
    : ST AttachmentStore string () := λ s,
  let key := mkBindingKey owner_code_id chat_id message_id in
  match st_bindings s !! key with
  | None => (Err "staged attachment unavailable"%string, s)
  | Some indexed_id =>
      if bool_decide (indexed_id ≠ attachment_id)
      then (Err "staged attachment binding mismatch"%string, drop_binding key s)
      else
        match st_attachments s !! attachment_id with
        | Some r =>
            if matches_record key r then
              if ar_published r then (Ok tt, s)
              else if some_and_before now (ar_staged_expires_at_ms r)
                      && none_or_before now (ar_expires_at_ms r)
              then (Ok tt,
                    set_attachments
                      (<[attachment_id := set_ar_staging true None r]> (st_attachments s)) s)
              else (Err "staged attachment expired"%string, remove_record attachment_id r s)
            else
              let orphaned := negb (bound_elsewhere key attachment_id (st_bindings s)) in
              let s := drop_binding key s in
              (Err "staged attachment unavailable"%string,
               if orphaned then remove_orphan attachment_id s else s)
        | None => (Err "staged attachment unavailable"%string, drop_binding key s)
        end
  end.

Definition destructive (r : AttachmentRecord) : bool :=
  ar_one_time r || ar_delete_after_download r.

Definition rebind_staged_attachment_recipients (attachment_id : Uuid) (recipients : gset CodeId)
    : ST AttachmentStore string StagedAttachmentRollback := λ s,
  match st_attachments s !! attachment_id with
  | None => (Err "staged attachment unavailable"%string, s)
  | Some r =>
      if ar_published r then (Err "staged attachment already published"%string, s)
      else if destructive r && bool_decide (recipients = ∅)
      then (Err "attachment recipient roster rejected"%string, s)
      else
        (Ok (mkStagedRollback attachment_id (ar_owner_code_id r) (ar_chat_id r) (ar_message_id r)
               (ar_eligible_recipient_code_ids r) (ar_published r) (ar_staged_expires_at_ms r)),
         if destructive r
         then set_attachments (<[attachment_id := set_ar_eligible recipients r]> (st_attachments s)) s
         else s)
  end.

Definition rollback_staged_attachment (rollback : StagedAttachmentRollback) (s : AttachmentStore)
    : AttachmentStore :=
  let key := mkBindingKey (sr_owner_code_id rollback) (sr_chat_id rollback)
               (sr_message_id rollback) in
  match st_attachments s !! sr_attachment_id rollback with
  | Some r =>
      if matches_record key r then
        let r := set_ar_staging (sr_published rollback) (sr_staged_expires_at_ms rollback)
                   (set_ar_eligible (sr_eligible_recipient_code_ids rollback) r) in
        mkStore (<[key := sr_attachment_id rollback]> (st_bindings s))
          (<[sr_attachment_id rollback := r]> (st_attachments s)) (st_usage s)
      else s
  | None => s
  end.

(** ** Capacity *)

Definition current_attachment_bytes (attachments : gmap Uuid AttachmentRecord) : Z :=
  sumZ ((λ r, len (ar_blob r)) <$> hash_values attachments).

Definition current_attachment_records_for_owner (owner_code_id : CodeId)
    (attachments : gmap Uuid AttachmentRecord) : Z :=
  len (filter (λ r, ar_owner_code_id r = owner_code_id) (hash_values attachments)).

Definition attachment_record_capacity_allows
    (used_total used_account total_limit account_limit : Z) : bool :=
  bool_decide (used_total < total_limit) && bool_decide (used_account < account_limit).

(** [used.checked_add(incoming).is_some_and(|n| n <= limit)]. *)
Definition fits_within (used incoming limit : Z) : bool :=
  match checked_add usize_MAX used incoming with
  | Some n => bool_decide (n ≤ limit)
  | None => false
  end.

Definition attachment_capacity_allows
    (used_total used_account incoming total_limit account_limit : Z) : bool :=
  fits_within used_total incoming total_limit && fits_within used_account incoming account_limit.

(** The configured limits of [AppState]. *)
Record AttachmentLimits : Type := mkLimits {
  al_ram_limit_bytes : Z;
  al_account_limit_bytes : Z;
  al_record_limit : Z;
  al_account_record_limit : Z;
  al_max_lifetime_sec : Z
}.

(** The end of an upload, under the three locks: the capacity tests, the test
    that the message has no attachment yet, and the insertions. *)
Definition stage_record (limits : AttachmentLimits) (attachment_id : Uuid) (r : AttachmentRecord)
    : ST AttachmentStore () () := λ s,
  let owner := ar_owner_code_id r in
  let account_used := default 0 (st_usage s !! owner) in
  if negb (attachment_capacity_allows (current_attachment_bytes (st_attachments s)) account_used
             (len (ar_blob r)) (al_ram_limit_bytes limits) (al_account_limit_bytes limits))
     || negb (attachment_record_capacity_allows (map_len (st_attachments s))
                (current_attachment_records_for_owner owner (st_attachments s))
                (al_record_limit limits) (al_account_record_limit limits))
  then (Err tt, s)
  else
    let key := record_key r in
    let insert (s : AttachmentStore) :=
      mkStore (<[key := attachment_id]> (st_bindings s))
        (<[attachment_id := r]> (st_attachments s))
        (<[owner := saturating_add usize_MAX account_used (len (ar_blob r))]> (st_usage s)) in
    match st_bindings s !! key with
    | Some existing =>
        if binding_live s key existing then (Err tt, s)
        else (Ok tt, insert (drop_binding key s))
    | None => (Ok tt, insert s)
    end.

(** ** Downloads *)

(** The loop that draws identifiers until one is unused; [None] while every
    draw so far was taken. *)
Definition insert_download_claim (now : Z) (draws : list Uuid) (recipient_code_id : CodeId)
    (claims : gmap Uuid AttachmentDownloadClaim)
    : option (Uuid * gmap Uuid AttachmentDownloadClaim) :=
  claim_id ← List.find (λ candidate, negb (contains_key candidate claims)) draws;
  Some (claim_id, <[claim_id := mkClaim recipient_code_id now]> claims).

(** [epoch] is the relay's attachment epoch when the reservation is answered;
    [now0] is the reading of the sweep, [now1] of the expiry test, [nows id] of
    the freshness test of claim [id] and [now2] of a new claim. *)
Definition reserve_attachment_download_inner (epoch now0 now1 now2 : Z) (nows : Uuid → Z)
    (draws : list Uuid) (policy : InteropPolicy) (accounts : gmap CodeId Account)
    (attachment_id : Uuid) (requester_code_id : CodeId) (allow_existing_claim : bool)
    (s : AttachmentStore)
    : option (result StatusCode AttachmentDownloadReservation * AttachmentStore) :=
  let s := prune_expired_attachments_locked now0 s in
  let requester_platform := a ← accounts !! requester_code_id; ac_client_platform a in
  match st_attachments s !! attachment_id with
  | None => Some (Err NOT_FOUND, s)
  | Some r =>
      if negb (ar_published r) then Some (Err NOT_FOUND, s)
      else if negb (none_or_before now1 (ar_expires_at_ms r)) then
        if bool_decide (ar_download_claims r ≠ ∅) then Some (Err TOO_MANY_REQUESTS, s)
        else Some (Err NOT_FOUND, remove_record attachment_id r s)
      else
        let owner := bool_decide (requester_code_id = ar_owner_code_id r) in
        let allowed :=
          owner ||
          match requester_platform with
          | None => false
          | Some platform =>
              bool_decide (requester_code_id ∈ ar_eligible_recipient_code_ids r)
              && InteropPolicy.allows policy (ar_sender_platform r) platform
          end in
        if negb allowed then Some (Err FORBIDDEN, s)
        else if negb (destructive r) || owner
        then Some (Ok (mkReservation (ar_blob r) None epoch), s)
        else
          let claims :=
            if allow_existing_claim
            then retain (λ id c, claim_fresh (nows id) c) (ar_download_claims r)
            else ar_download_claims r in
          let s := set_attachments (<[attachment_id := set_ar_claims claims r]> (st_attachments s)) s in
          if bool_decide (requester_code_id ∈ ar_completed_recipient_code_ids r)
          then Some (Err NOT_FOUND, s)
          else
            match List.find (λ ic, bool_decide (dc_recipient_code_id ic.2 = requester_code_id))
                    (hash_iter claims) with
            | Some (claim_id, _) =>
                if negb allow_existing_claim then Some (Err TOO_MANY_REQUESTS, s)
                else Some (Ok (mkReservation (ar_blob r) (Some claim_id) epoch), s)
            | None =>
                '(claim_id, claims) ← insert_download_claim now2 draws requester_code_id claims;
                Some (Ok (mkReservation (ar_blob r) (Some claim_id) epoch),
                      set_attachments
                        (<[attachment_id := set_ar_claims claims r]> (st_attachments s)) s)
            end
  end.

Definition complete_attachment_download_claim (now : Z) (attachment_id : Uuid)
    (requester_code_id : CodeId) (claim_id : Uuid) : ST AttachmentStore StatusCode () := λ s,
  match st_attachments s !! attachment_id with
  | None => (Err NOT_FOUND, s)
  | Some r =>
      match ar_download_claims r !! claim_id with
      | None => (Err NOT_FOUND, s)
      | Some claim =>
          if bool_decide (dc_recipient_code_id claim ≠ requester_code_id) then (Err FORBIDDEN, s)
          else
            let r := set_ar_claims (delete claim_id (ar_download_claims r)) r in
            if negb (claim_fresh now claim)
            then (Err NOT_FOUND, set_attachments (<[attachment_id := r]> (st_attachments s)) s)
            else
              let completed :=
                {[dc_recipient_code_id claim]} ∪ ar_completed_recipient_code_ids r in
              let r := set_ar_completed completed r in
              if bool_decide (ar_eligible_recipient_code_ids r ⊆ completed)
              then (Ok tt, remove_record attachment_id r s)
              else (Ok tt, set_attachments (<[attachment_id := r]> (st_attachments s)) s)
      end
  end.

Definition release_attachment_download_claim (attachment_id : Uuid) (requester_code_id : CodeId)
    (claim_id : Uuid) : ST AttachmentStore StatusCode () := λ s,
  match st_attachments s !! attachment_id with
  | None => (Err NOT_FOUND, s)
  | Some r =>
      match ar_download_claims r !! claim_id with
      | None => (Err NOT_FOUND, s)
      | Some claim =>
          if bool_decide (dc_recipient_code_id claim ≠ requester_code_id) then (Err FORBIDDEN, s)
          else
            (Ok tt,
             set_attachments
               (<[attachment_id := set_ar_claims (delete claim_id (ar_download_claims r)) r]>
                  (st_attachments s)) s)
      end
  end.

Definition delete_owned_attachment (id : Uuid) (owner_code_id : CodeId) (s : AttachmentStore)
    : StatusCode * AttachmentStore :=
  match st_attachments s !! id with
  | None => (NOT_FOUND, s)
  | Some r =>
      if bool_decide (ar_owner_code_id r ≠ owner_code_id) then (FORBIDDEN, s)
      else (NO_CONTENT, remove_record id r s)
  end.
End store.
