(* ===== verification/AttachmentStoreFacts.v ===== *)
(** * The attachment registry: invariant

    Every binding names a live record of exactly its message, the bytes counted
    for an owner are the bytes of its records, and the configured limits hold.
    Each operation of AttachmentStore.v preserves it. *)

From S2P Require Import Prelude RoomModel AttachmentAccess AttachmentStore.

(** ** Measures *)

Definition blob_len (r : AttachmentRecord) : Z := len (ar_blob r).
Definition owned_len (c : CodeId) (r : AttachmentRecord) : Z :=
  if bool_decide (ar_owner_code_id r = c) then len (ar_blob r) else 0.
Definition owned_one (c : CodeId) (r : AttachmentRecord) : Z :=
  if bool_decide (ar_owner_code_id r = c) then 1 else 0.

Lemma blob_len_nonneg r : 0 ≤ blob_len r.
Proof. apply len_nonneg. Qed.
Lemma owned_len_nonneg c r : 0 ≤ owned_len c r.
Proof. unfold owned_len. case_bool_decide; [apply len_nonneg|done]. Qed.
Lemma owned_one_nonneg c r : 0 ≤ owned_one c r.
Proof. unfold owned_one. by case_bool_decide. Qed.
Lemma owned_len_le c r : owned_len c r ≤ blob_len r.
Proof. unfold owned_len, blob_len. case_bool_decide; [done|apply len_nonneg]. Qed.
#[export] Hint Resolve blob_len_nonneg owned_len_nonneg owned_one_nonneg : relay.

Record limits_ok (l : AttachmentLimits) (m : gmap Uuid AttachmentRecord) : Prop := {
  lo_bytes : map_sum blob_len m ≤ al_ram_limit_bytes l;
  lo_records : map_len m ≤ al_record_limit l;
  lo_account_bytes c : map_sum (owned_len c) m ≤ al_account_limit_bytes l;
  lo_account_records c : map_sum (owned_one c) m ≤ al_account_record_limit l
}.

Record store_ok (l : AttachmentLimits) (s : AttachmentStore) : Prop := {
  so_bindings k id :
    st_bindings s !! k = Some id →
    ∃ r, st_attachments s !! id = Some r ∧ record_key r = k;
  so_usage c : default 0 (st_usage s !! c) = map_sum (owned_len c) (st_attachments s);
  so_limits : limits_ok l (st_attachments s)
}.

(** Limits that fit the machine and are not negative. *)
Record limits_sane (l : AttachmentLimits) : Prop := {
  ls_ram : 0 ≤ al_ram_limit_bytes l ≤ usize_MAX;
  ls_account : 0 ≤ al_account_limit_bytes l ≤ usize_MAX;
  ls_records : 0 ≤ al_record_limit l;
  ls_account_records : 0 ≤ al_account_record_limit l
}.

Lemma store_new_ok l : limits_sane l → store_ok l store_new.
Proof.
  intros []. split; simpl.
  - intros ??. by rewrite lookup_empty.
  - intros c. by rewrite lookup_empty, map_sum_empty.
  - split; [| |intros c|intros c]; rewrite ?map_sum_empty; try lia.
    unfold map_len. rewrite map_size_empty. lia.
Qed.

(** ** One record replaced or removed *)

(** What no operation changes of a record. *)
Definition same_core (r r' : AttachmentRecord) : Prop :=
  record_key r' = record_key r ∧ ar_blob r' = ar_blob r.

#[export] Instance same_core_refl : Reflexive same_core.
Proof. by split. Qed.

Lemma same_core_owner r r' : same_core r r' → ar_owner_code_id r' = ar_owner_code_id r.
Proof. by intros [[=] _]. Qed.
Lemma same_core_measures r r' c : same_core r r' →
  blob_len r' = blob_len r ∧ owned_len c r' = owned_len c r ∧ owned_one c r' = owned_one c r.
Proof.
  intros H. pose proof (same_core_owner _ _ H) as Ho. destruct H as [_ Hb].
  unfold blob_len, owned_len, owned_one. by rewrite Ho, Hb.
Qed.

Lemma matches_record_true k r : matches_record k r = true ↔ record_key r = k.
Proof.
  unfold matches_record, record_key. destruct k as [o c m]; simpl.
  rewrite !andb_true_iff, !bool_decide_eq_true. split; [by intros [[-> ->] ->]|by intros [= -> -> ->]].
Qed.

Lemma map_sum_update {K V} `{Countable K} (f : V → Z) (m : gmap K V) k v v' :
  m !! k = Some v → f v' = f v → map_sum f (<[k := v']> m) = map_sum f m.
Proof. intros Hk Hf. rewrite map_sum_insert. unfold at_key. rewrite Hk, Hf. lia. Qed.

Lemma map_len_update {K V} `{Countable K} (m : gmap K V) k v v' :
  m !! k = Some v → map_len (<[k := v']> m) = map_len m.
Proof. intros Hk. rewrite map_len_insert. unfold contains_key. rewrite Hk. lia. Qed.

Section one.
Context (l : AttachmentLimits).

Lemma update_record_ok s id r r' :
  store_ok l s → st_attachments s !! id = Some r → same_core r r' →
  store_ok l (set_attachments (<[id := r']> (st_attachments s)) s).
Proof.
  intros [Hb Hu [L1 L2 L3 L4]] Hr Hc. split; simpl.
  - intros k i (r0 & Hi & Hk)%Hb. destruct (decide (i = id)) as [->|Hne].
    + exists r'. rewrite lookup_insert_eq. simplify_eq. split; [done|apply Hc].
    + exists r0. by rewrite lookup_insert_ne.
  - intros c. rewrite Hu. symmetry.
    eapply map_sum_update; [done|by apply (same_core_measures _ _ c)].
  - split; [| |intros c|intros c].
    + erewrite map_sum_update; [done..|by apply (same_core_measures _ _ [])].
    + by erewrite map_len_update.
    + erewrite map_sum_update; [done..|by apply (same_core_measures _ _ c)].
    + erewrite map_sum_update; [done..|by apply (same_core_measures _ _ c)].
Qed.

Lemma limits_delete m id : limits_ok l m → limits_ok l (delete id m).
Proof.
  intros [L1 L2 L3 L4].
  assert (∀ f, (∀ r, 0 ≤ f r) → map_sum f (delete id m) ≤ map_sum f m) as Hle.
  { intros f Hf. rewrite map_sum_delete_at. unfold at_key.
    destruct (m !! id) as [r|]; [specialize (Hf r)|]; lia. }
  split; [| |intros c|intros c]; (etrans; [|by eauto]); try (apply Hle; auto with relay).
  rewrite map_len_delete. destruct (contains_key id m); lia.
Qed.

Lemma subtract_usage_spec usage owner n c total :
  default 0 (usage !! owner) = total → 0 ≤ n ≤ total →
  default 0 (subtract_attachment_usage owner n usage !! c)
    = default 0 (usage !! c) - (if bool_decide (owner = c) then n else 0).
Proof.
  unfold subtract_attachment_usage. intros Ht Hn.
  destruct (usage !! owner) as [cur|] eqn:Ho; simpl in Ht.
  - subst total. case_decide; case_bool_decide as Hc; subst.
    + rewrite lookup_delete_eq, Ho. simpl. lia.
    + rewrite lookup_delete_ne by done. lia.
    + rewrite lookup_insert_eq, Ho. simpl. lia.
    + rewrite lookup_insert_ne by done. lia.
  - subst total. case_bool_decide; lia.
Qed.

Lemma usage_after_removal s id r r' c :
  store_ok l s → st_attachments s !! id = Some r → same_core r r' →
  default 0 (subtract_attachment_usage (ar_owner_code_id r') (len (ar_blob r')) (st_usage s) !! c)
    = map_sum (owned_len c) (delete id (st_attachments s)).
Proof.
  intros Hs Hr Hc. rewrite (same_core_owner _ _ Hc). destruct Hc as [_ ->].
  erewrite subtract_usage_spec; [|apply Hs|].
  - rewrite (so_usage _ _ Hs c), (map_sum_delete _ _ _ _ Hr). unfold owned_len at 3.
    by case_bool_decide.
  - split; [apply len_nonneg|].
    pose proof (map_sum_entry_le (owned_len (ar_owner_code_id r)) _ _ _
      (owned_len_nonneg _) Hr) as H. unfold owned_len in H at 1.
    by rewrite bool_decide_true in H.
Qed.

Lemma remove_record_ok s id r r' :
  store_ok l s → st_attachments s !! id = Some r → same_core r r' →
  store_ok l (remove_record id r' s).
Proof.
  intros Hs Hr Hc. pose proof Hs as [Hb _ Hl]. split; simpl.
  - intros k i. unfold remove_attachment_binding_if_matches. rewrite (proj1 Hc).
    case_bool_decide as Hk; intros Hi.
    + apply lookup_delete_Some in Hi as [Hne Hi].
      apply Hb in Hi as (r0 & Hi & Hk0). exists r0. split; [|done].
      rewrite lookup_delete_ne; [done|]. intros ->. simplify_eq.
    + destruct (Hb _ _ Hi) as (r0 & H0 & Hk0). exists r0. split; [|done].
      rewrite lookup_delete_ne; [done|]. intros ->. simplify_eq.
  - intros c. by apply (usage_after_removal s id r).
  - by apply limits_delete.
Qed.

Lemma remove_orphan_ok s id r :
  store_ok l s → st_attachments s !! id = Some r →
  (∀ k, st_bindings s !! k ≠ Some id) → store_ok l (remove_orphan id s).
Proof.
  intros Hs Hr Hno. pose proof Hs as [Hb _ Hl]. unfold remove_orphan. rewrite Hr. split; simpl.
  - intros k i Hi. destruct (Hb _ _ Hi) as (r0 & H0 & Hk0). exists r0. split; [|done].
    rewrite lookup_delete_ne; [done|]. intros ->. by apply (Hno k).
  - intros c. by apply (usage_after_removal s id r).
  - by apply limits_delete.
Qed.

Lemma drop_binding_ok s k : store_ok l s → store_ok l (drop_binding k s).
Proof.
  intros [Hb Hu Hl]. split; simpl; [|done|done].
  intros k' i [_ Hi]%lookup_delete_Some. by apply Hb.
Qed.
End one.

(** * The attachment registry: what its operations do

    The sweeps as pointwise functions of the store, and the invariant of
    AttachmentStoreFacts.v through every operation. *)

Lemma list_to_map_hash {HO : HashOrder} {K V} `{Countable K} (m : gmap K V) :
  list_to_map (hash_iter m) = m.
Proof.
  rewrite (list_to_map_proper _ (map_to_list m)); [apply list_to_map_to_list| |apply hash_iter_perm].
  apply NoDup_hash_keys.
Qed.

Lemma elem_of_hash_iter {HO : HashOrder} {K V} `{Countable K} (m : gmap K V) k v :
  (k, v) ∈ hash_iter m ↔ m !! k = Some v.
Proof. by rewrite hash_iter_perm, elem_of_map_to_list. Qed.

Lemma List_filter_none {A} (f : A → bool) (xs : list A) :
  (∀ x, x ∈ xs → f x = false) → List.filter f xs = [].
Proof.
  induction xs as [|x xs IH]; intros H; [done|]. simpl.
  rewrite (H x) by (by left). apply IH. intros y Hy. apply H. by right.
Qed.

Lemma retain_all {K V} `{Countable K} (keep : K → V → bool) (m : gmap K V) :
  (∀ k v, m !! k = Some v → keep k v = true) → retain keep m = m.
Proof.
  intros Hall. apply map_eq. intros k. apply option_eq. intros v.
  rewrite retain_lookup_Some. naive_solver.
Qed.

Section ops.
Context {HO : HashOrder} (l : AttachmentLimits).

Lemma remove_record_bindings s id r r' k i :
  store_ok l s → st_attachments s !! id = Some r → same_core r r' →
  st_bindings (remove_record id r' s) !! k = Some i ↔ st_bindings s !! k = Some i ∧ i ≠ id.
Proof.
  intros [Hb _ _] Hr [Hk _]. simpl. unfold remove_attachment_binding_if_matches. rewrite Hk.
  case_bool_decide as Hd; [rewrite lookup_delete_Some|]; split.
  - intros [Hne Hi]. split; [done|]. intros ->. apply Hb in Hi as (r0 & H0 & <-). simplify_eq.
  - intros [Hi Hne]. split; [|done]. intros <-. simplify_eq.
  - intros Hi. split; [done|]. intros ->. pose proof Hi as (r0 & H0 & <-)%Hb. simplify_eq.
  - by intros [Hi _].
Qed.

(** ** The retain loop *)

Section retain.
Context (visit : AttachmentRecord → AttachmentRecord) (keep : AttachmentRecord → bool).
Context (Hvisit : ∀ r, same_core r (visit r)).

Definition kept (r : AttachmentRecord) : option AttachmentRecord :=
  if keep (visit r) then Some (visit r) else None.

Definition retain_step (s : AttachmentStore) (ir : Uuid * AttachmentRecord) : AttachmentStore :=
  let r := visit ir.2 in
  if keep r then set_attachments (<[ir.1 := r]> (st_attachments s)) s else remove_record ir.1 r s.

Record retained (xs : gmap Uuid AttachmentRecord) (s s' : AttachmentStore) : Prop := {
  rt_ok : store_ok l s';
  rt_attachments i :
    st_attachments s' !! i = match xs !! i with Some r => kept r | None => st_attachments s !! i end;
  rt_bindings k i :
    st_bindings s' !! k = Some i ↔
    st_bindings s !! k = Some i ∧ (∀ r, xs !! i = Some r → keep (visit r) = true)
}.

Lemma retain_step_spec s i r :
  store_ok l s → st_attachments s !! i = Some r →
  retained {[i := r]} s (retain_step s (i, r)).
Proof.
  intros Hs Hi. unfold retain_step. simpl. destruct (keep (visit r)) eqn:E; split.
  - eapply update_record_ok; [done..|apply Hvisit].
  - intros j. simpl. unfold kept. destruct (decide (j = i)) as [->|Hne].
    + rewrite lookup_singleton_eq, lookup_insert_eq, E. done.
    + by rewrite lookup_singleton_ne, lookup_insert_ne.
  - intros k j. simpl. split; [|naive_solver]. intros Hj. split; [done|].
    intros r0 [-> ->]%lookup_singleton_Some. done.
  - eapply remove_record_ok; [done..|apply Hvisit].
  - intros j. simpl. unfold kept. destruct (decide (j = i)) as [->|Hne].
    + rewrite lookup_singleton_eq, lookup_delete_eq, E. done.
    + by rewrite lookup_singleton_ne, lookup_delete_ne.
  - intros k j. rewrite remove_record_bindings by done || apply Hvisit. split.
    + intros [Hk Hne]. split; [done|]. intros r0 [? _]%lookup_singleton_Some. congruence.
    + intros [Hk Hr]. split; [done|]. intros ->. specialize (Hr r).
      rewrite lookup_singleton_eq in Hr. rewrite Hr in E by done. done.
Qed.

Lemma retain_fold xs s :
  store_ok l s → NoDup xs.*1 → (∀ i r, (i, r) ∈ xs → st_attachments s !! i = Some r) →
  retained (list_to_map xs) s (foldl retain_step s xs).
Proof.
  revert s. induction xs as [|[i r] xs IH]; intros s Hs Hnd Hin.
  { simpl. split; [done|..]; intros; simpl; rewrite ?lookup_empty; [done|].
    split; [intros Hk; split; [done|]; done|by intros [? _]]. }
  apply NoDup_cons in Hnd as [Hi Hnd]. simpl.
  assert ((list_to_map xs : gmap Uuid AttachmentRecord) !! i = None) as Hnone
    by (by apply not_elem_of_list_to_map_1).
  destruct (retain_step_spec s i r Hs) as [H1 H2 H3]; [apply Hin; by left|].
  destruct (IH (retain_step s (i, r)) H1 Hnd) as [H4 H5 H6].
  { intros j r' Hj. rewrite H2, lookup_singleton_ne.
    - apply Hin. by right.
    - intros ->. apply Hi. apply list_elem_of_fmap. by exists (j, r'). }
  split; [done|..].
  - intros j. rewrite H5, H2. destruct (decide (j = i)) as [->|Hne].
    + by rewrite Hnone, lookup_singleton_eq, lookup_insert_eq.
    + by rewrite lookup_singleton_ne, lookup_insert_ne.
  - intros k j. rewrite H6, H3. destruct (decide (j = i)) as [->|Hne].
    + rewrite lookup_insert_eq, lookup_singleton_eq, Hnone. naive_solver.
    + rewrite lookup_insert_ne, lookup_singleton_ne by done. naive_solver.
Qed.

Lemma retain_records_spec s :
  store_ok l s → retained (st_attachments s) s (retain_records visit keep s).
Proof.
  intros Hs. rewrite <- (list_to_map_hash (st_attachments s)) at 1.
  apply retain_fold; [done|apply NoDup_hash_keys|]. intros i r. by rewrite elem_of_hash_iter.
Qed.
End retain.

(** ** The expiry sweep *)

Lemma drop_stale_claims_core now r : same_core r (drop_stale_claims now r).
Proof. by split. Qed.
#[local] Hint Resolve drop_stale_claims_core : core.

(** On a sound index the passes over the bindings find nothing to do. *)
Lemma prune_is_retain now s :
  store_ok l s →
  prune_expired_attachments_locked now s
    = retain_records (drop_stale_claims now) (record_live now) s.
Proof.
  intros Hs. destruct (retain_records_spec (drop_stale_claims now) (record_live now)
    (drop_stale_claims_core now) s Hs) as [[Hb _ _] _ _].
  unfold prune_expired_attachments_locked. set (s1 := retain_records _ _ s) in *. clearbody s1.
  assert (∀ k i, st_bindings s1 !! k = Some i → binding_live s1 k i = true) as Hlive.
  { intros k i (r & Hr & Hk)%Hb. unfold binding_live. rewrite Hr. by apply matches_record_true. }
  assert (stale_bindings s1 = []) as ->.
  { unfold stale_bindings. apply List_filter_none. intros [k i] Hin.
    apply elem_of_hash_iter, Hlive in Hin. unfold binding_live in Hin. simpl.
    destruct (st_attachments s1 !! i); [|done]. by rewrite Hin. }
  simpl. rewrite retain_all by done. by destruct s1.
Qed.

Lemma prune_ok now s :
  store_ok l s → store_ok l (prune_expired_attachments_locked now s).
Proof.
  intros Hs. rewrite prune_is_retain by done. by apply retain_records_spec.
Qed.

(** The sweep, record by record. *)
Lemma prune_lookup now s i :
  store_ok l s →
  st_attachments (prune_expired_attachments_locked now s) !! i
    = r ← st_attachments s !! i; kept (drop_stale_claims now) (record_live now) r.
Proof.
  intros Hs. rewrite prune_is_retain by done.
  rewrite (rt_attachments _ _ _ _ _ (retain_records_spec _ _ (drop_stale_claims_core now) s Hs)).
  by destruct (st_attachments s !! i).
Qed.

Lemma prune_keeps_absent now s i :
  store_ok l s → st_attachments s !! i = None →
  st_attachments (prune_expired_attachments_locked now s) !! i = None.
Proof. intros Hs Hi. by rewrite prune_lookup, Hi. Qed.

Lemma fmap_ok f s :
  (∀ r, same_core r (f r)) → store_ok l s →
  store_ok l (set_attachments (f <$> st_attachments s) s).
Proof.
  intros Hf [Hb Hu [L1 L2 L3 L4]].
  assert (∀ g, (∀ r, g (f r) = g r) →
    map_sum g (f <$> st_attachments s) = map_sum g (st_attachments s)) as Hsum.
  { intros g Hg. rewrite map_sum_fmap. apply map_sum_ext. intros. apply Hg. }
  split; simpl.
  - intros k i (r & Hi & Hk)%Hb. exists (f r). rewrite lookup_fmap, Hi. split; [done|].
    rewrite <- Hk. apply Hf.
  - intros c. rewrite Hu. symmetry. apply Hsum. intros r. by apply same_core_measures.
  - split; [| |intros c|intros c].
    + rewrite Hsum; [done|]. intros r. by apply (same_core_measures _ _ []).
    + unfold map_len. by rewrite map_size_fmap.
    + rewrite Hsum; [done|]. intros r. by apply same_core_measures.
    + rewrite Hsum; [done|]. intros r. by apply same_core_measures.
Qed.

Lemma revoke_core room c r : same_core r (revoke_record room c r).
Proof. unfold revoke_record. by case_bool_decide. Qed.

(** A binding of a sound index leads to the record of its message. *)
Lemma bound_record s k id :
  store_ok l s → st_bindings s !! k = Some id →
  ∃ r, st_attachments s !! id = Some r ∧ matches_record k r = true.
Proof. intros [Hb _ _] (r & Hr & Hk)%Hb. exists r. split; [done|]. by apply matches_record_true. Qed.

Lemma staged_attachment_ok now owner chat msg s :
  store_ok l s → store_ok l (staged_attachment_for_message now owner chat msg s).2.
Proof.
  intros Hs. unfold staged_attachment_for_message.
  destruct (st_bindings s !! _) as [id|] eqn:Hk; [|done].
  destruct (bound_record _ _ _ Hs Hk) as (r & Hr & Hm). rewrite Hr, Hm. simpl.
  pose proof (update_record_ok l s id r _ Hs Hr (drop_stale_claims_core now r)) as Hu.
  rewrite lookup_insert_eq. unfold staged_action.
  change (matches_record _ (drop_stale_claims now r)) with
    (matches_record (mkBindingKey owner chat msg) r). rewrite Hm. simpl.
  assert (store_ok l (remove_record id (drop_stale_claims now r)
    (set_attachments (<[id:=drop_stale_claims now r]> (st_attachments s)) s))) as Hrm.
  { eapply remove_record_ok; [done|simpl; apply lookup_insert_eq|done]. }
  repeat case_match; done.
Qed.

Lemma publish_ok now id owner chat msg s :
  store_ok l s → store_ok l (publish_staged_attachment_checked now id owner chat msg s).2.
Proof.
  intros Hs. unfold publish_staged_attachment_checked.
  destruct (st_bindings s !! _) as [id'|] eqn:Hk; [|done].
  case_bool_decide as Hid; [by apply drop_binding_ok|].
  subst id'. destruct (bound_record _ _ _ Hs Hk) as (r & Hr & Hm).
  rewrite Hr, Hm. destruct (ar_published r); [done|]. case_match; simpl.
  - by eapply update_record_ok.
  - by eapply remove_record_ok.
Qed.

Lemma rebind_ok id recipients s :
  store_ok l s → store_ok l (rebind_staged_attachment_recipients id recipients s).2.
Proof.
  intros Hs. unfold rebind_staged_attachment_recipients.
  destruct (st_attachments s !! id) as [r|] eqn:Hr; [|done].
  repeat (case_match; simpl; try done). by eapply update_record_ok.
Qed.

Lemma rollback_store_ok rb s : store_ok l s → store_ok l (rollback_staged_attachment rb s).
Proof.
  intros Hs. unfold rollback_staged_attachment.
  destruct (st_attachments s !! _) as [r|] eqn:Hr; [|done].
  destruct (matches_record _ r) eqn:Hm; [|done]. apply matches_record_true in Hm.
  set (r' := set_ar_staging _ _ _). assert (same_core r r') as Hc by done.
  destruct (update_record_ok l s _ r r' Hs Hr Hc) as [Hb Hu Hl]. split; simpl in *; [|done|done].
  intros k i [[<- <-]|[_ Hi]]%lookup_insert_Some; [|by apply Hb].
  exists r'. rewrite lookup_insert_eq. split; [done|]. by rewrite (proj1 Hc), Hm.
Qed.

Lemma current_bytes_sum m : current_attachment_bytes m = map_sum blob_len m.
Proof. apply map_sum_hash. Qed.
Lemma current_records_sum c m : current_attachment_records_for_owner c m = map_sum (owned_one c) m.
Proof.
  rewrite <- map_sum_hash. unfold current_attachment_records_for_owner.
  induction (hash_values m) as [|r rs IH]; [done|]. rewrite filter_cons, fmap_cons, sumZ_cons.
  unfold owned_one at 1. case_decide.
  - rewrite len_cons, IH, bool_decide_true by done. done.
  - rewrite IH, bool_decide_false by done. done.
Qed.

Lemma fits_within_true a b n : fits_within a b n = true → a + b ≤ n.
Proof. unfold fits_within, checked_add. case_decide; [|done]. by rewrite bool_decide_eq_true. Qed.

Lemma stage_record_ok id r s :
  limits_sane l → store_ok l s → st_attachments s !! id = None →
  store_ok l (stage_record l id r s).2.
Proof.
  intros Hl Hs Hid. unfold stage_record.
  destruct (negb _ || negb _) eqn:Hcap; [done|]. apply orb_false_iff in Hcap as [Hc1 Hc2].
  split_bools. unfold attachment_capacity_allows, attachment_record_capacity_allows in *. split_bools.
  rewrite current_bytes_sum, current_records_sum in *.
  repeat match goal with H : fits_within _ _ _ = true |- _ => apply fits_within_true in H end.
  destruct (st_bindings s !! record_key r) as [e|] eqn:Hk.
  { destruct (bound_record _ _ _ Hs Hk) as (r0 & Hr0 & Hm). unfold binding_live. by rewrite Hr0, Hm. }
  destruct Hs as [Hb Hu [L1 L2 L3 L4]]. rewrite Hu in *. split; simpl.
  - intros k i [[<- <-]|[_ Hi]]%lookup_insert_Some.
    + exists r. by rewrite lookup_insert_eq.
    + apply Hb in Hi as (r0 & Hr0 & ?). exists r0. rewrite lookup_insert_ne; [done|congruence].
  - intros c. rewrite map_sum_insert_None by done. unfold owned_len at 2.
    destruct (decide (ar_owner_code_id r = c)) as [<-|Hne].
    + rewrite lookup_insert_eq, bool_decide_true by done. simpl.
      unfold saturating_add. destruct Hl as [_ ? _ _]. lia.
    + rewrite lookup_insert_ne, bool_decide_false, Hu by done. done.
  - split; [| |intros c|intros c].
    + rewrite map_sum_insert_None by done. unfold blob_len at 1. lia.
    + rewrite map_len_insert, (proj2 (contains_key_false _ _)) by done. lia.
    + rewrite map_sum_insert_None by done. unfold owned_len at 1. specialize (L3 c).
      case_bool_decide; subst; lia.
    + rewrite map_sum_insert_None by done. unfold owned_one at 1. specialize (L4 c).
      case_bool_decide; subst; lia.
Qed.

Lemma reserve_ok epoch now0 now1 now2 nows draws policy accounts id who again s x s' :
  store_ok l s →
  reserve_attachment_download_inner epoch now0 now1 now2 nows draws policy accounts id who again s
    = Some (x, s') → store_ok l s'.
Proof.
  intros Hs. unfold reserve_attachment_download_inner.
  pose proof (prune_ok now0 s Hs) as Hp. set (p := prune_expired_attachments_locked now0 s) in *.
  clearbody p. destruct (st_attachments p !! id) as [r|] eqn:Hr; [|by intros [= <- <-]].
  assert (∀ c, store_ok l (set_attachments (<[id := set_ar_claims c r]> (st_attachments p)) p)) as Hc.
  { intros c. by eapply update_record_ok. }
  assert (store_ok l (remove_record id r p)) as Hrm by (by eapply remove_record_ok).
  repeat (case_match; try (intros [= <- <-]; done)).
  all: destruct (insert_download_claim _ _ _ _) as [[cid cl]|]; [|done]; intros [= <- <-];
    cbn [set_attachments st_attachments]; rewrite insert_insert_eq; apply Hc.
Qed.

Lemma complete_ok now id who claim s :
  store_ok l s → store_ok l (complete_attachment_download_claim now id who claim s).2.
Proof.
  intros Hs. unfold complete_attachment_download_claim.
  destruct (st_attachments s !! id) as [r|] eqn:Hr; [|done].
  repeat (case_match; try done); simpl; first [by eapply update_record_ok|by eapply remove_record_ok].
Qed.

Lemma release_ok id who claim s :
  store_ok l s → store_ok l (release_attachment_download_claim id who claim s).2.
Proof.
  intros Hs. unfold release_attachment_download_claim.
  destruct (st_attachments s !! id) as [r|] eqn:Hr; [|done].
  repeat (case_match; try done). by eapply update_record_ok.
Qed.

Lemma delete_owned_ok id who s :
  store_ok l s → store_ok l (delete_owned_attachment id who s).2.
Proof.
  intros Hs. unfold delete_owned_attachment.
  destruct (st_attachments s !! id) as [r|] eqn:Hr; [|done].
  case_bool_decide; [done|]. by eapply remove_record_ok.
Qed.
End ops.
