(* ===== verification/AttachmentBlob.v ===== *)
(** * Encrypted attachments (rust-core/src/secure_protocol.rs)

    A client cuts an attachment into chunks of fixed size, fills the last one
    with random bytes and seals each under one key with the conversation, the
    message, the sender, the media type and the position as associated data.
    The relay checks the public part of the blob without the key.  The nonce and
    the filler a chunk draws from the generator are arguments. *)

From S2P Require Import Prelude TransportWire RoomValidation.

Definition IMAGE_ATTACHMENT_LIMIT_BYTES : Z := 20 * 1024 * 1024.
Definition VIDEO_ATTACHMENT_LIMIT_BYTES : Z := 100 * 1024 * 1024.
Definition MAX_ATTACHMENT_PLAINTEXT_BYTES : Z := 200 * 1024 * 1024.
Definition ATTACHMENT_BLOB_VERSION : byte := Byte.x02.
Definition ATTACHMENT_NONCE_BYTES : Z := 24.
Definition ATTACHMENT_KEY_BYTES : Z := 32.
Definition ATTACHMENT_TAG_BYTES : Z := 16.
Definition ATTACHMENT_CHUNK_PLAINTEXT_BYTES : Z := 256 * 1024.
Definition ATTACHMENT_CHUNK_HEADER_BYTES : Z := 1 + 4 + 4 + 8 + ATTACHMENT_NONCE_BYTES.
Definition ATTACHMENT_CHUNK_RECORD_BYTES : Z :=
  ATTACHMENT_CHUNK_HEADER_BYTES + ATTACHMENT_CHUNK_PLAINTEXT_BYTES + ATTACHMENT_TAG_BYTES.

(** [usize::div_ceil]. *)
Definition div_ceil (n d : Z) : Z := (n + d - 1) / d.

Definition MAX_ATTACHMENT_CHUNKS : Z :=
  div_ceil MAX_ATTACHMENT_PLAINTEXT_BYTES ATTACHMENT_CHUNK_PLAINTEXT_BYTES.
Definition MAX_ATTACHMENT_BLOB_BYTES : Z := MAX_ATTACHMENT_CHUNKS * ATTACHMENT_CHUNK_RECORD_BYTES.
Definition ATTACHMENT_AAD_DOMAIN : bytes := text_bytes "ABYSSAL_ATTACHMENT_CHUNK_AEAD_V2".

Definition UNAVAILABLE : string := "Payload unavailable".

(** The strings every function takes: chat, message, sender, media type. *)
Record AttachmentContext : Type := mkContext {
  cx_chat_id : string;
  cx_message_id : string;
  cx_sender_username : string;
  cx_media_type : string
}.

Record AttachmentChunkHeader : Type := mkChunkHeader {
  ch_chunk_index : Z;
  ch_chunk_count : Z;
  ch_total_plaintext_bytes : Z
}.

(** ** Contexts and limits *)

Definition valid_context_identifier (value : string) : bool :=
  negb (bool_decide (value = EmptyString)) && bool_decide (slen value ≤ 128) && all_id_bytes value.

(** [validate_username] of this file. *)
Definition validate_sender (username : string) : result string () :=
  if negb (bool_decide (username = EmptyString)) && bool_decide (slen username ≤ 80)
     && all_id_bytes username
  then Ok tt else Err "Recipient unavailable"%string.

Definition validate_message_context (chat_id message_id sender : string) : result string () :=
  _ ← reject_if (negb (valid_context_identifier chat_id)
                 || negb (valid_context_identifier message_id)) UNAVAILABLE;
  validate_sender sender.

Definition attachment_plaintext_limit (media_type : string) : result string Z :=
  if bool_decide (media_type = "IMAGE") then Ok IMAGE_ATTACHMENT_LIMIT_BYTES
  else if bool_decide (media_type = "VIDEO") then Ok VIDEO_ATTACHMENT_LIMIT_BYTES
  else if bool_decide (media_type = "FILE") then Ok MAX_ATTACHMENT_PLAINTEXT_BYTES
  else Err UNAVAILABLE.

Definition validate_attachment_context (cx : AttachmentContext) : result string () :=
  _ ← validate_message_context (cx_chat_id cx) (cx_message_id cx) (cx_sender_username cx);
  _ ← attachment_plaintext_limit (cx_media_type cx);
  Ok tt.

Definition attachment_blob_limit (media_type : string) : Z :=
  Z.min
    (Z.min usize_MAX
       (div_ceil (default MAX_ATTACHMENT_PLAINTEXT_BYTES (ok (attachment_plaintext_limit media_type)))
          ATTACHMENT_CHUNK_PLAINTEXT_BYTES * ATTACHMENT_CHUNK_RECORD_BYTES))
    MAX_ATTACHMENT_BLOB_BYTES.

(** ** Layout and header *)

(** The number of chunks and the plaintext bytes of one of them. *)
Definition attachment_chunk_layout (total_plaintext_bytes chunk_index : Z)
    : result string (Z * Z) :=
  _ ← reject_if (bool_decide (total_plaintext_bytes = 0)
                 || bool_decide (MAX_ATTACHMENT_PLAINTEXT_BYTES < total_plaintext_bytes)) UNAVAILABLE;
  let chunk_count := div_ceil total_plaintext_bytes ATTACHMENT_CHUNK_PLAINTEXT_BYTES in
  _ ← reject_if (bool_decide (chunk_count = 0)
                 || bool_decide (MAX_ATTACHMENT_CHUNKS < chunk_count)
                 || bool_decide (chunk_count ≤ chunk_index)) UNAVAILABLE;
  let expected :=
    if decide (chunk_index + 1 = chunk_count)
    then total_plaintext_bytes - chunk_index * ATTACHMENT_CHUNK_PLAINTEXT_BYTES
    else ATTACHMENT_CHUNK_PLAINTEXT_BYTES in
  Ok (chunk_count, expected).

Definition attachment_encrypted_size (media_type : string) (total_plaintext_bytes : Z)
    : result string Z :=
  plaintext_limit ← attachment_plaintext_limit media_type;
  '(chunk_count, _) ← attachment_chunk_layout total_plaintext_bytes 0;
  _ ← reject_if (bool_decide (plaintext_limit < total_plaintext_bytes)) UNAVAILABLE;
  ok_or (checked_mul usize_MAX chunk_count ATTACHMENT_CHUNK_RECORD_BYTES) UNAVAILABLE.

Definition attachment_chunk_header (chunk_index chunk_count total_plaintext_bytes : Z)
    (nonce : bytes) : bytes :=
  [ATTACHMENT_BLOB_VERSION] ++ be_bytes 4 chunk_index ++ be_bytes 4 chunk_count
    ++ be_bytes 8 total_plaintext_bytes ++ nonce.

Definition parse_attachment_chunk_header (record : bytes) : result string AttachmentChunkHeader :=
  _ ← reject_if (bool_decide (len record ≠ ATTACHMENT_CHUNK_RECORD_BYTES)
                 || bool_decide (head record ≠ Some ATTACHMENT_BLOB_VERSION)) UNAVAILABLE;
  let chunk_index := be_value (slice 1 5 record) in
  let chunk_count := be_value (slice 5 9 record) in
  let total_plaintext_bytes := be_value (slice 9 17 record) in
  '(expected_count, _) ← attachment_chunk_layout total_plaintext_bytes chunk_index;
  _ ← reject_if (bool_decide (chunk_count ≠ expected_count)) UNAVAILABLE;
  Ok (mkChunkHeader chunk_index chunk_count total_plaintext_bytes).

Definition attachment_chunk_aad (cx : AttachmentContext) (authenticated_header : bytes) : bytes :=
  canonical_parts
    [ATTACHMENT_AAD_DOMAIN; text_bytes (cx_chat_id cx); text_bytes (cx_message_id cx);
     text_bytes (cx_sender_username cx); text_bytes (cx_media_type cx); authenticated_header].

(** [blob.chunks_exact(n)]. *)
Definition chunks_exact (n : Z) (blob : bytes) : list bytes :=
  (λ i : nat, slice (Z.of_nat i * n) ((Z.of_nat i + 1) * n) blob)
    <$> seq 0 (Z.to_nat (len blob / n)).

(** The relay's reading of a blob: every header in place and in agreement. *)
Fixpoint blob_total (index count : Z) (total : option Z) (records : list bytes)
    : result string (option Z) :=
  match records with
  | [] => Ok total
  | record :: records =>
      header ← parse_attachment_chunk_header record;
      _ ← reject_if (bool_decide (ch_chunk_index header ≠ index)
                     || bool_decide (ch_chunk_count header ≠ count)) UNAVAILABLE;
      _ ← reject_if
            (match total with
             | Some t => bool_decide (t ≠ ch_total_plaintext_bytes header)
             | None => false
             end) UNAVAILABLE;
      blob_total (index + 1) count (Some (ch_total_plaintext_bytes header)) records
  end.

Definition attachment_plaintext_size_from_blob (media_type : string) (blob : bytes)
    : result string Z :=
  limit ← attachment_plaintext_limit media_type;
  _ ← reject_if (bool_decide (blob = []) || bool_decide (attachment_blob_limit media_type < len blob)
                 || bool_decide (len blob mod ATTACHMENT_CHUNK_RECORD_BYTES ≠ 0)) UNAVAILABLE;
  total ← blob_total 0 (len blob / ATTACHMENT_CHUNK_RECORD_BYTES) None
            (chunks_exact ATTACHMENT_CHUNK_RECORD_BYTES blob);
  total ← ok_or total UNAVAILABLE;
  _ ← reject_if (bool_decide (total = 0) || bool_decide (limit < total)) UNAVAILABLE;
  Ok total.

(** ** Sealing and opening *)

Section cipher.
Context {AE : Aead}.

(** [filler] is what the generator writes behind a short plaintext. *)
Definition encrypt_attachment_chunk (cx : AttachmentContext) (key : bytes)
    (total_plaintext_bytes chunk_index : Z) (plaintext nonce filler : bytes)
    : result string bytes :=
  _ ← validate_attachment_context cx;
  plaintext_limit ← attachment_plaintext_limit (cx_media_type cx);
  '(chunk_count, expected_chunk_bytes) ← attachment_chunk_layout total_plaintext_bytes chunk_index;
  _ ← reject_if (bool_decide (len key ≠ ATTACHMENT_KEY_BYTES)
                 || bool_decide (plaintext_limit < total_plaintext_bytes)
                 || bool_decide (len plaintext ≠ expected_chunk_bytes)) UNAVAILABLE;
  let padded :=
    if bool_decide (len plaintext < ATTACHMENT_CHUNK_PLAINTEXT_BYTES)
    then plaintext ++ filler else plaintext in
  let header := attachment_chunk_header chunk_index chunk_count total_plaintext_bytes nonce in
  let aad := attachment_chunk_aad cx
    (slice 0 (ATTACHMENT_CHUNK_HEADER_BYTES - ATTACHMENT_NONCE_BYTES) header) in
  ciphertext ← ok_or (encrypt key nonce aad padded) UNAVAILABLE;
  let record := header ++ ciphertext in
  _ ← reject_if (bool_decide (len record ≠ ATTACHMENT_CHUNK_RECORD_BYTES)) UNAVAILABLE;
  Ok record.

Definition decrypt_attachment_chunk (cx : AttachmentContext) (key : bytes)
    (expected_total expected_chunk_index : Z) (record : bytes) : result string bytes :=
  _ ← validate_attachment_context cx;
  _ ← reject_if (bool_decide (len key ≠ ATTACHMENT_KEY_BYTES)
                 || bool_decide (len record ≠ ATTACHMENT_CHUNK_RECORD_BYTES)) UNAVAILABLE;
  header ← parse_attachment_chunk_header record;
  plaintext_limit ← attachment_plaintext_limit (cx_media_type cx);
  '(expected_chunk_count, expected_chunk_bytes) ←
    attachment_chunk_layout expected_total expected_chunk_index;
  _ ← reject_if (bool_decide (plaintext_limit < expected_total)
                 || bool_decide (ch_total_plaintext_bytes header ≠ expected_total)
                 || bool_decide (ch_chunk_index header ≠ expected_chunk_index)
                 || bool_decide (ch_chunk_count header ≠ expected_chunk_count)) UNAVAILABLE;
  let aad := attachment_chunk_aad cx
    (slice 0 (ATTACHMENT_CHUNK_HEADER_BYTES - ATTACHMENT_NONCE_BYTES) record) in
  plaintext ← ok_or
    (decrypt key
       (slice (ATTACHMENT_CHUNK_HEADER_BYTES - ATTACHMENT_NONCE_BYTES)
          ATTACHMENT_CHUNK_HEADER_BYTES record) aad
       (slice ATTACHMENT_CHUNK_HEADER_BYTES (len record) record)) UNAVAILABLE;
  _ ← reject_if (bool_decide (len plaintext ≠ ATTACHMENT_CHUNK_PLAINTEXT_BYTES)) UNAVAILABLE;
  Ok (take (Z.to_nat expected_chunk_bytes) plaintext).

(** [draws i] is the nonce and the filler of chunk [i]. *)
Definition encrypt_attachment (cx : AttachmentContext) (key plaintext : bytes)
    (draws : Z → bytes * bytes) : result string bytes :=
  plaintext_limit ← attachment_plaintext_limit (cx_media_type cx);
  _ ← reject_if (bool_decide (plaintext = []) || bool_decide (plaintext_limit < len plaintext))
        UNAVAILABLE;
  let chunk_count := div_ceil (len plaintext) ATTACHMENT_CHUNK_PLAINTEXT_BYTES in
  records ←
    collect (λ i : nat,
        let chunk_index := Z.of_nat i in
        let start := chunk_index * ATTACHMENT_CHUNK_PLAINTEXT_BYTES in
        let end_ := Z.min (len plaintext) (start + ATTACHMENT_CHUNK_PLAINTEXT_BYTES) in
        encrypt_attachment_chunk cx key (len plaintext) chunk_index (slice start end_ plaintext)
          (draws chunk_index).1 (draws chunk_index).2)
      (seq 0 (Z.to_nat chunk_count));
  Ok (concat records).

Definition decrypt_attachment (cx : AttachmentContext) (key blob : bytes) : result string bytes :=
  _ ← reject_if (bool_decide (len key ≠ ATTACHMENT_KEY_BYTES) || bool_decide (blob = [])
                 || bool_decide (attachment_blob_limit (cx_media_type cx) < len blob)
                 || bool_decide (len blob mod ATTACHMENT_CHUNK_RECORD_BYTES ≠ 0)) UNAVAILABLE;
  first ← parse_attachment_chunk_header (slice 0 ATTACHMENT_CHUNK_RECORD_BYTES blob);
  plaintext_limit ← attachment_plaintext_limit (cx_media_type cx);
  let total := ch_total_plaintext_bytes first in
  _ ← reject_if (bool_decide (total = 0) || bool_decide (plaintext_limit < total)) UNAVAILABLE;
  _ ← reject_if (bool_decide (ch_chunk_count first ≠ len blob / ATTACHMENT_CHUNK_RECORD_BYTES))
        UNAVAILABLE;
  chunks ←
    collect (λ ir, decrypt_attachment_chunk cx key total (Z.of_nat ir.1) ir.2)
      (imap pair (chunks_exact ATTACHMENT_CHUNK_RECORD_BYTES blob));
  let plaintext := concat chunks in
  _ ← reject_if (bool_decide (len plaintext ≠ total)) UNAVAILABLE;
  Ok plaintext.
End cipher.

(** ** What the relay uses (mirage-server/src/attachments.rs) *)

Definition valid_encrypted_attachment_body (media_type : string) (body : bytes) : bool :=
  is_ok (attachment_plaintext_size_from_blob media_type body).

Definition max_serialized_attachment_bytes (media_type : string) : Z :=
  let plain_limit :=
    if bool_decide (media_type = "IMAGE") then IMAGE_ATTACHMENT_LIMIT_BYTES
    else if bool_decide (media_type = "VIDEO") then VIDEO_ATTACHMENT_LIMIT_BYTES
    else MAX_ATTACHMENT_PLAINTEXT_BYTES in
  default 0 (ok (attachment_encrypted_size media_type plain_limit)).
