(* ===== verification/AttachmentBlobTheorems.v ===== *)
(** * Encrypted attachments: chunks, headers and records *)

From S2P Require Import Prelude RoomValidation TransportWire RecordTheorems Attachment.
From S2P Require Import AttachmentBlob.

(** ** Cutting a list into chunks *)

Lemma div_ceil_spec n d : 0 < d → d * (div_ceil n d - 1) < n ≤ d * div_ceil n d.
Proof.
  intros Hd. unfold div_ceil. pose proof (Z.div_mod (n + d - 1) d). pose proof (Z.mod_pos_bound (n + d - 1) d). lia.
Qed.

Lemma div_ceil_unique n d q : 0 < d → d * (q - 1) < n ≤ d * q → div_ceil n d = q.
Proof. intros Hd Hq. pose proof (div_ceil_spec n d Hd). nia. Qed.

Definition piece (c : Z) (p : bytes) (k : nat) : bytes :=
  slice (Z.of_nat k * c) (Z.min (len p) (Z.of_nat k * c + c)) p.

(** Every list but the last is full. *)
Fixpoint cut_ok (c : Z) (qs : list bytes) : Prop :=
  match qs with
  | [] => True
  | q :: qs => (if decide (qs = []) then len q ≤ c else len q = c) ∧ cut_ok c qs
  end.

Lemma piece_app c pre q rest i :
  0 < c → len pre = Z.of_nat i * c → len q ≤ c → (rest = [] ∨ len q = c) →
  piece c (pre ++ q ++ rest) i = q.
Proof.
  intros Hc Hp Hq Hr. unfold piece. pose proof (len_nonneg q). pose proof (len_nonneg rest).
  rewrite (slice_app pre q rest); [done|lia|]. rewrite !len_app.
  destruct Hr as [->|Hr]; [rewrite len_nil|]; lia.
Qed.

Lemma cut_concat c pre qs i :
  0 < c → len pre = Z.of_nat i * c → cut_ok c qs →
  piece c (pre ++ concat qs) <$> seq i (length qs) = qs.
Proof.
  intros Hc. revert pre i. induction qs as [|q qs IH]; intros pre i Hp Hq; [done|].
  destruct Hq as [Hq Hqs]. simpl. f_equal.
  - apply piece_app; [done|done|case_decide; lia|].
    case_decide; [left; by subst|by right].
  - destruct (decide (qs = [])) as [->|Hne]; [done|].
    rewrite (assoc_L (++)). apply IH; [|done]. rewrite len_app. lia.
Qed.

Lemma concat_pieces c p i j :
  0 < c → Z.of_nat i * c ≤ len p →
  concat (piece c p <$> seq i j) = slice (Z.of_nat i * c) (Z.min (len p) (Z.of_nat (i + j) * c)) p.
Proof.
  intros Hc. revert i. induction j as [|j IH]; intros i Hi.
  { rewrite Nat.add_0_r, Z.min_r by lia. unfold slice. by rewrite Z.sub_diag. }
  rewrite <- cons_seq, fmap_cons. cbn [concat]. unfold piece at 1. destruct (decide (Z.of_nat (S i) * c ≤ len p)) as [Hle|Hgt].
  - rewrite IH by done. rewrite (Z.min_r _ (Z.of_nat i * c + c)) by lia.
    replace (S i + j)%nat with (i + S j)%nat by lia.
    rewrite (slice_split (Z.of_nat i * c) (Z.of_nat i * c + c) (Z.min (len p) (Z.of_nat (i + S j) * c)))
      by nia.
    do 2 f_equal. lia.
  - assert (concat (piece c p <$> seq (S i) j) = []) as ->.
    { clear IH. apply concat_nil_Forall, Forall_fmap, Forall_seq. intros k Hk. simpl.
      unfold piece, slice. by replace (Z.to_nat _) with 0%nat by nia. }
    rewrite app_nil_r. f_equal. nia.
Qed.

Definition cut (c : Z) (p : bytes) : list bytes :=
  piece c p <$> seq 0 (Z.to_nat (div_ceil (len p) c)).

Lemma concat_cut c p : 0 < c → concat (cut c p) = p.
Proof.
  intros Hc. unfold cut. pose proof (div_ceil_spec (len p) c Hc). pose proof (len_nonneg p).
  rewrite concat_pieces by (done || lia). apply slice_eq; [lia|]. simpl.
  rewrite Z2Nat.id by nia. lia.
Qed.

Lemma len_piece c p k :
  0 < c → Z.of_nat k * c ≤ len p → len (piece c p k) = Z.min c (len p - Z.of_nat k * c).
Proof. intros. unfold piece. rewrite len_slice by lia. lia. Qed.

Lemma cut_lookup c p k q :
  0 < c → cut c p !! k = Some q →
  Z.of_nat k < div_ceil (len p) c ∧ q = piece c p k ∧ len q = Z.min c (len p - Z.of_nat k * c).
Proof.
  intros Hc. unfold cut. rewrite list_lookup_fmap_Some. intros (k' & -> & [-> Hk]%lookup_seq).
  simpl in *. pose proof (div_ceil_spec (len p) c Hc).
  split_and!; [lia|done|]. apply len_piece; [done|]. nia.
Qed.

Lemma length_cut c p : Z.of_nat (length (cut c p)) = Z.max 0 (div_ceil (len p) c).
Proof. unfold cut. rewrite length_fmap, length_seq. lia. Qed.

(** Lists of the lengths a total of [t] prescribes are the pieces of their
    concatenation. *)
Lemma cut_ok_lengths c t (qs : list bytes) :
  0 < c → (∀ k q, qs !! k = Some q → len q = Z.min c (t - Z.of_nat k * c)) →
  Z.of_nat (length qs) = div_ceil t c → cut_ok c qs.
Proof.
  intros Hc Hq Hn. pose proof (div_ceil_spec t c Hc) as [Hlo _]. rewrite <- Hn in Hlo. clear Hn.
  assert (∀ i, (∀ k q, qs !! k = Some q → len q = Z.min c (t - Z.of_nat (i + k) * c)) →
    c * (Z.of_nat (i + length qs) - 1) < t → cut_ok c qs) as Hgen.
  { clear Hq Hlo. induction qs as [|q qs IH]; intros i Hq Hlo; [done|]. simpl in *. split.
    - pose proof (Hq 0%nat q eq_refl) as H0. case_decide as Hd; [lia|].
      destruct qs as [|q' qs]; [done|]. simpl in *. nia.
    - apply (IH (S i)).
      + intros k q' Hk. replace (S i + k)%nat with (i + S k)%nat by lia. by apply (Hq (S k)).
      + by replace (S i + length qs)%nat with (i + S (length qs))%nat by lia. }
  by apply (Hgen 0%nat).
Qed.

Lemma len_concat_lengths c t (qs : list bytes) :
  0 < c → 0 < t → (∀ k q, qs !! k = Some q → len q = Z.min c (t - Z.of_nat k * c)) →
  Z.of_nat (length qs) = div_ceil t c → len (concat qs) = t.
Proof.
  intros Hc Ht Hq Hn. pose proof (div_ceil_spec t c Hc) as Hs. rewrite <- Hn in Hs.
  assert (∀ n, (n ≤ length qs)%nat → len (concat (take n qs)) = Z.min t (Z.of_nat n * c)) as Hgen.
  { induction n as [|n IH]; intros Hle; [rewrite take_0; change (len (concat [])) with 0; lia|].
    destruct (lookup_lt_is_Some_2 qs n) as [q Hk]; [lia|].
    rewrite (take_S_r _ _ q) by done. rewrite concat_app, len_app, IH by lia. simpl.
    rewrite app_nil_r, (Hq _ _ Hk). nia. }
  rewrite <- (take_ge qs (length qs)) by lia. rewrite Hgen by lia. nia.
Qed.

Lemma cut_unique c t (qs : list bytes) :
  0 < c → 0 < t → (∀ k q, qs !! k = Some q → len q = Z.min c (t - Z.of_nat k * c)) →
  Z.of_nat (length qs) = div_ceil t c → cut c (concat qs) = qs.
Proof.
  intros Hc Ht Hq Hn. unfold cut. rewrite (len_concat_lengths c t) by done. rewrite <- Hn, Nat2Z.id.
  apply (cut_concat c [] qs 0); [done|change (len (@nil byte)) with 0; lia|]. by apply (cut_ok_lengths c t).
Qed.

(** Blobs of whole records. *)
Lemma chunks_exact_cut n blob : 0 < n → len blob mod n = 0 → chunks_exact n blob = cut n blob.
Proof.
  intros Hn Hm. unfold chunks_exact, cut. apply Z.mod_divide in Hm as [q Hq]; [|lia].
  assert (div_ceil (len blob) n = len blob / n) as ->.
  { rewrite Hq, Z.div_mul by lia. apply div_ceil_unique; lia. }
  apply list_fmap_ext. intros i k [-> Hi]%lookup_seq. unfold piece. simpl in *.
  rewrite Hq, Z.div_mul in Hi by lia. f_equal. nia.
Qed.

Lemma concat_records n records :
  0 < n → Forall (λ r, len r = n) records →
  len (concat records) = n * len records ∧ chunks_exact n (concat records) = records.
Proof.
  intros Hn Hr.
  assert (len (concat records) = n * len records) as Hl.
  { induction Hr as [|r rs Hr Hrs IH]; cbn [concat]; [unfold len; simpl; lia|].
    rewrite len_app, len_cons, IH. lia. }
  split; [done|]. rewrite chunks_exact_cut; [|done|by rewrite Hl, Z.mul_comm, Z_mod_mult].
  destruct records as [|r rs].
  { unfold cut. simpl. rewrite len_nil, (div_ceil_unique _ _ 0) by lia. done. }
  set (records := r :: rs) in *.
  pose proof (len_nonneg rs). assert (len records = 1 + len rs) by apply len_cons.
  apply (cut_unique n (n * len records)); [done|nia| |].
  - intros k q Hk. pose proof (lookup_lt_Some _ _ _ Hk). rewrite Forall_lookup in Hr.
    rewrite (Hr _ _ Hk). unfold len in *. nia.
  - symmetry. apply div_ceil_unique; unfold len; lia.
Qed.

(** ** Layout and headers *)

Abbreviation C := ATTACHMENT_CHUNK_PLAINTEXT_BYTES.
Abbreviation R := ATTACHMENT_CHUNK_RECORD_BYTES.

Ltac sizes := unfold ATTACHMENT_CHUNK_RECORD_BYTES, ATTACHMENT_CHUNK_HEADER_BYTES,
  ATTACHMENT_CHUNK_PLAINTEXT_BYTES, ATTACHMENT_TAG_BYTES, ATTACHMENT_NONCE_BYTES,
  MAX_ATTACHMENT_PLAINTEXT_BYTES, TAG_BYTES in *; try lia.

Lemma layout_Ok total i n e :
  0 ≤ total → 0 ≤ i →
  attachment_chunk_layout total i = Ok (n, e) ↔
  0 < total ≤ MAX_ATTACHMENT_PLAINTEXT_BYTES ∧ n = div_ceil total C ∧ i < n ∧
  e = Z.min C (total - i * C).
Proof.
  intros Ht Hi. unfold attachment_chunk_layout.
  pose proof (div_ceil_spec total C ltac:(done)) as Hs.
  assert (MAX_ATTACHMENT_CHUNKS = 800) as E by done.
  assert (∀ q, 0 < total ≤ MAX_ATTACHMENT_PLAINTEXT_BYTES → q = div_ceil total C → i < q →
    (if decide (i + 1 = q) then total - i * C else C) = Z.min C (total - i * C)) as Hmin.
  { intros q ? -> ?. case_decide; sizes; nia. }
  split.
  - intros H. run_ok. split_bools. simplify_eq. rewrite Hmin by (done || sizes).
    split_and!; sizes; done.
  - intros (? & -> & ? & ->). rewrite !bool_decide_false by (rewrite ?E; sizes). simpl.
    by rewrite Hmin by (done || sizes).
Qed.

Lemma layout_count total i n e :
  0 ≤ total → 0 ≤ i → attachment_chunk_layout total i = Ok (n, e) → 0 < n ≤ 800 ∧ total < 2 ^ 32.
Proof.
  intros Ht Hi (? & -> & ? & _)%layout_Ok; [|done|done].
  pose proof (div_ceil_spec total C ltac:(done)). sizes.
Qed.

Definition chunk_head (i n t : Z) : bytes :=
  [ATTACHMENT_BLOB_VERSION] ++ be_bytes 4 i ++ be_bytes 4 n ++ be_bytes 8 t.

Lemma len_chunk_head i n t : len (chunk_head i n t) = 17.
Proof. unfold chunk_head. by rewrite !len_app, !len_be_bytes. Qed.

Lemma chunk_header_head i n t nonce : attachment_chunk_header i n t nonce = chunk_head i n t ++ nonce.
Proof. unfold attachment_chunk_header, chunk_head. by rewrite <- !(assoc_L (++)). Qed.

Lemma chunk_head_slices i n t rest :
  slice 1 5 (chunk_head i n t ++ rest) = be_bytes 4 i ∧
  slice 5 9 (chunk_head i n t ++ rest) = be_bytes 4 n ∧
  slice 9 17 (chunk_head i n t ++ rest) = be_bytes 8 t.
Proof.
  rewrite !slice_app_l by (rewrite ?len_chunk_head; lia). unfold chunk_head. split_and!.
  - apply (slice_app [_]); done.
  - change ([_] ++ ?a ++ ?b ++ ?c) with (([ATTACHMENT_BLOB_VERSION] ++ a) ++ b ++ c).
    apply slice_app; by rewrite len_app, ?len_be_bytes.
  - rewrite !(assoc_L (++)). rewrite slice_app_r; rewrite !len_app, !len_be_bytes; [|done].
    apply slice_eq; [done|]. by rewrite len_be_bytes.
Qed.

Lemma chunk_head_first i n t rest :
  head (chunk_head i n t ++ rest) = Some ATTACHMENT_BLOB_VERSION.
Proof. done. Qed.

Lemma chunk_head_values i n t rest :
  0 ≤ i < 2 ^ 32 → 0 ≤ n < 2 ^ 32 → 0 ≤ t < 2 ^ 32 →
  be_value (slice 1 5 (chunk_head i n t ++ rest)) = i ∧
  be_value (slice 5 9 (chunk_head i n t ++ rest)) = n ∧
  be_value (slice 9 17 (chunk_head i n t ++ rest)) = t.
Proof.
  intros Hi Hn Ht. destruct (chunk_head_slices i n t rest) as (-> & -> & ->).
  rewrite !be_value_be_bytes; [done|change (256 ^ Z.of_nat 8) with (2 ^ 64)
    |change (256 ^ Z.of_nat 4) with (2 ^ 32)..]; lia.
Qed.

Lemma parse_run i n t e record :
  be_value (slice 1 5 record) = i → be_value (slice 5 9 record) = n →
  be_value (slice 9 17 record) = t → attachment_chunk_layout t i = Ok (n, e) →
  len record = R → head record = Some ATTACHMENT_BLOB_VERSION →
  parse_attachment_chunk_header record = Ok (mkChunkHeader i n t).
Proof.
  intros E1 E2 E3 Hl Hlen Hh. unfold parse_attachment_chunk_header.
  rewrite Hlen, Hh, !(bool_decide_false (_ ≠ _)) by (intros Hf; by apply Hf).
  cbn [orb reject_if mbind result_bind]. rewrite E1, E2, E3, Hl.
  cbn [mbind result_bind]. by rewrite bool_decide_false by (intros Hf; by apply Hf).
Qed.

Lemma parse_head i n t e rest :
  0 ≤ i < 2 ^ 32 → 0 ≤ t → attachment_chunk_layout t i = Ok (n, e) →
  len (chunk_head i n t ++ rest) = R →
  parse_attachment_chunk_header (chunk_head i n t ++ rest) = Ok (mkChunkHeader i n t).
Proof.
  intros Hi Ht Hl Hlen. destruct (layout_count t i n e Ht) as [? ?]; [lia|done|].
  destruct (chunk_head_values i n t rest) as (E1 & E2 & E3); [done|lia|lia|].
  by apply (parse_run i n t e).
Qed.

Lemma parse_Ok record h :
  parse_attachment_chunk_header record = Ok h →
  ∃ nonce ct e, len nonce = 24 ∧ len ct = C + 16 ∧
    record = chunk_head (ch_chunk_index h) (ch_chunk_count h) (ch_total_plaintext_bytes h)
               ++ nonce ++ ct ∧
    0 ≤ ch_chunk_index h < 2 ^ 32 ∧ 0 ≤ ch_total_plaintext_bytes h ∧
    attachment_chunk_layout (ch_total_plaintext_bytes h) (ch_chunk_index h)
      = Ok (ch_chunk_count h, e).
Proof.
  unfold parse_attachment_chunk_header. intros H.
  apply bind_Ok in H as ([] & Hg & H). apply reject_if_Ok in Hg. split_bools.
  apply bind_Ok in H as ([n e] & Hl & H). apply bind_Ok in H as ([] & Hn & H).
  apply reject_if_Ok in Hn. split_bools. injection H as <-.
  cbn [ch_chunk_index ch_chunk_count ch_total_plaintext_bytes].
  assert (len record = R) as Hlen by (by apply dec_stable).
  assert (be_value (slice 5 9 record) = n) as En by (by apply dec_stable).
  assert (head record = Some ATTACHMENT_BLOB_VERSION) as Hv by (by apply dec_stable).
  pose proof (be_value_range (slice 1 5 record)) as R1. pose proof (be_value_range (slice 9 17 record)) as R3.
  rewrite len_slice in R1 by sizes. change (256 ^ (5 - 1)) with (2 ^ 32) in R1.
  exists (slice 17 41 record), (slice 41 R record), e. subst n.
  split; [rewrite len_slice by sizes; done|]. split; [rewrite len_slice by sizes; sizes|].
  split; [|split; [done|]; split; [lia|done]].
  unfold chunk_head. rewrite !be_bytes_of_value by (rewrite len_slice by sizes; done).
  rewrite <- !(assoc_L (++)).
  rewrite <- (slice_all record R) at 1 by done.
  rewrite (slice_split 0 1 R), (slice_split 1 5 R), (slice_split 5 9 R), (slice_split 9 17 R),
    (slice_split 17 41 R) by sizes.
  f_equal. destruct record as [|b record]; [done|]. injection Hv as ->. done.
Qed.

(** ** One chunk *)

Definition limit_of (media : string) (limit : Z) : Prop := attachment_plaintext_limit media = Ok limit.

(** What must hold of the arguments whatever the direction. *)
Definition chunk_valid (cx : AttachmentContext) (key : bytes) (total i n e : Z) : Prop :=
  validate_attachment_context cx = Ok tt ∧ len key = 32 ∧
  (∃ limit, limit_of (cx_media_type cx) limit ∧ total ≤ limit) ∧
  attachment_chunk_layout total i = Ok (n, e).

Section chunk.
Context {AE : Aead} {AL : AeadLaws}.

(** The record of a chunk for some nonce and filler. *)
Definition chunk_record (cx : AttachmentContext) (key : bytes) (total i : Z)
    (plaintext nonce filler record : bytes) : Prop :=
  ∃ n ct, chunk_valid cx key total i n (len plaintext) ∧
    encrypt key nonce (attachment_chunk_aad cx (chunk_head i n total)) (plaintext ++ filler) = Some ct ∧
    record = chunk_head i n total ++ nonce ++ ct.

Lemma slice_head i n t rest : slice 0 17 (chunk_head i n t ++ rest) = chunk_head i n t.
Proof. rewrite slice_app_l, slice_eq; rewrite ?len_chunk_head; lia || done. Qed.

Lemma len_chunk_record cx key total i p nonce filler record :
  len nonce = 24 → len p + len filler = C → chunk_record cx key total i p nonce filler record →
  len record = R.
Proof.
  intros Hn Hf (n & ct & _ & Hct & ->). apply encrypt_len in Hct.
  rewrite !len_app, len_chunk_head, Hn, Hct, len_app. sizes.
Qed.

Lemma encrypt_chunk_Ok cx key total i p nonce filler record :
  len nonce = 24 → len p + len filler = C →
  encrypt_attachment_chunk cx key total i p nonce filler = Ok record ↔
  chunk_record cx key total i p nonce filler record.
Proof.
  intros Hn Hf. unfold encrypt_attachment_chunk.
  change (ATTACHMENT_CHUNK_HEADER_BYTES - ATTACHMENT_NONCE_BYTES) with 17.
  assert ((if bool_decide (len p < C) then p ++ filler else p) = p ++ filler) as ->.
  { case_bool_decide as Hd; [done|]. pose proof (len_nonneg filler).
    destruct filler; [by rewrite app_nil_r|]. rewrite len_cons in *. pose proof (len_nonneg filler). lia. }
  split.
  - intros H. apply bind_Ok in H as ([] & Hcx & H). apply bind_Ok in H as (limit & Hlim & H).
    apply bind_Ok in H as ([n e] & Hl & H). apply bind_Ok in H as ([] & Hg & H).
    apply bind_Ok in H as (ct & Hct & H). apply bind_Ok in H as ([] & _ & H).
    apply reject_if_Ok in Hg. apply ok_or_Ok in Hct. split_bools.
    match type of H with Ok ?a = _ => assert (record = a) as -> by congruence end. clear H.
    rewrite chunk_header_head, slice_head in *. rewrite <- (assoc_L (++)).
    assert (len key = 32) by (by apply dec_stable).
    assert (len p = e) as <- by (by apply dec_stable).
    exists n, ct. split; [|by split]. split_and!; [done|done| |done].
    exists limit. split; [done|lia].
  - intros Hr. pose proof (len_chunk_record _ _ _ _ _ _ _ _ Hn Hf Hr) as Hlen.
    destruct Hr as (n & ct & (Hcx & Hk & (limit & Hlim & Hle) & Hl) & Hct & ->).
    rewrite Hcx. cbn [mbind result_bind]. rewrite Hlim. cbn [mbind result_bind].
    rewrite Hl. cbn [mbind result_bind]. rewrite !bool_decide_false by (auto || lia).
    cbn [mbind result_bind reject_if orb]. rewrite !chunk_header_head, slice_head, Hct.
    cbn [mbind result_bind ok_or]. rewrite <- (assoc_L (++)), bool_decide_false by auto. done.
Qed.

Lemma decrypt_chunk_Ok cx key total i record p :
  0 ≤ i < 2 ^ 32 → 0 ≤ total →
  decrypt_attachment_chunk cx key total i record = Ok p ↔
  ∃ nonce filler, len nonce = 24 ∧ len p + len filler = C ∧
    chunk_record cx key total i p nonce filler record.
Proof.
  intros Hi Ht. unfold decrypt_attachment_chunk.
  change (ATTACHMENT_CHUNK_HEADER_BYTES - ATTACHMENT_NONCE_BYTES) with 17.
  change ATTACHMENT_CHUNK_HEADER_BYTES with 41. split.
  - intros H. apply bind_Ok in H as ([] & Hcx & H). apply bind_Ok in H as ([] & Hg & H).
    apply bind_Ok in H as (h & Hh & H). apply bind_Ok in H as (limit & Hlim & H).
    apply bind_Ok in H as ([n e] & Hl & H). apply bind_Ok in H as ([] & Hg' & H).
    apply bind_Ok in H as (pt & Hpt & H). apply bind_Ok in H as ([] & Hlen & H).
    apply reject_if_Ok in Hg, Hg', Hlen. apply ok_or_Ok in Hpt. split_bools. injection H as <-.
    apply parse_Ok in Hh as (nonce & ct & e' & Hn & Hct & -> & _ & _ & _).
    assert (len key = 32) by (by apply dec_stable).
    assert (len pt = C) as Hpl by (by apply dec_stable).
    destruct h as [hi hn ht]. cbn [ch_chunk_index ch_chunk_count ch_total_plaintext_bytes] in *.
    assert (ht = total) as -> by (by apply dec_stable).
    assert (hi = i) as -> by (by apply dec_stable).
    assert (hn = n) as -> by (by apply dec_stable).
    assert (0 ≤ e ≤ C) as Hee.
    { apply layout_Ok in Hl as (? & -> & ? & ->); [|lia|lia].
      pose proof (div_ceil_spec total C ltac:(done)). sizes. }
    rewrite slice_head in Hpt.
    assert (slice 17 41 (chunk_head i n total ++ nonce ++ ct) = nonce) as En.
    { apply slice_app; rewrite len_chunk_head; lia. }
    assert (slice 41 (len (chunk_head i n total ++ nonce ++ ct)) (chunk_head i n total ++ nonce ++ ct)
      = ct) as Ec.
    { rewrite (assoc_L (++)), slice_app_r; rewrite !len_app, len_chunk_head, Hn; [|lia].
      apply slice_eq; lia. }
    rewrite En, Ec in Hpt. apply decrypt_tidy in Hpt.
    assert (len (take (Z.to_nat e) pt) = e) as Htk by (unfold len in *; rewrite length_take; lia).
    exists nonce, (drop (Z.to_nat e) pt). split; [done|]. split.
    { rewrite <- len_app, take_drop. done. }
    exists n, ct. rewrite take_drop, Htk. split; [|by split]. split_and!; [done|done| |done].
    exists limit. split; [done|lia].
  - intros (nonce & filler & Hn & Hf & Hr).
    pose proof (len_chunk_record _ _ _ _ _ _ _ _ Hn Hf Hr) as Hlen.
    destruct Hr as (n & ct & (Hcx & Hk & (limit & Hlim & Hle) & Hl) & Hct & ->).
    pose proof (encrypt_len _ _ _ _ _ Hct) as Hcl. rewrite len_app in Hcl.
    rewrite Hcx. cbn [mbind result_bind]. rewrite !bool_decide_false by (auto || sizes).
    cbn [mbind result_bind reject_if orb]. rewrite (parse_head i n total (len p)) by (done || lia).
    cbn [mbind result_bind]. rewrite Hlim. cbn [mbind result_bind]. rewrite Hl.
    cbn [mbind result_bind ch_chunk_index ch_chunk_count ch_total_plaintext_bytes].
    rewrite !bool_decide_false by (auto || lia). cbn [mbind result_bind reject_if orb].
    rewrite slice_head. rewrite (slice_app (chunk_head i n total) nonce ct)
      by (rewrite ?len_chunk_head; lia).
    rewrite (assoc_L (++)), slice_app_r; rewrite !len_app, len_chunk_head, Hn; [|lia].
    rewrite slice_eq by lia. rewrite (decrypt_encrypt _ _ _ _ _ Hct). cbn [mbind result_bind ok_or].
    rewrite bool_decide_false by (rewrite len_app; sizes). cbn [mbind result_bind reject_if].
    f_equal. replace (Z.to_nat (len p)) with (length p) by (unfold len; lia). apply take_app_length.
Qed.
End chunk.

(** * Encrypted attachments: what opens, and what the relay accepts *)

(** The generator's output has the size asked for. *)
Definition draws_ok (total : Z) (draws : Z → bytes * bytes) : Prop :=
  ∀ i, 0 ≤ i < div_ceil total C →
    len (draws i).1 = 24 ∧ len (draws i).2 = C - Z.min C (total - i * C).

(** One choice per element of a list. *)
Lemma finite_choice {A B} (P : nat → A → B → Prop) (l : list A) :
  (∀ k x, l !! k = Some x → ∃ y, P k x y) →
  ∃ ys, length ys = length l ∧ ∀ k x y, l !! k = Some x → ys !! k = Some y → P k x y.
Proof.
  induction l as [|x l IH] using rev_ind; intros H; [by exists []|].
  destruct IH as (ys & Hl & Hys).
  { intros k y Hk. apply (H k). by apply lookup_app_l_Some. }
  destruct (H (length l) x) as [y Hy]; [by rewrite lookup_app_r, Nat.sub_diag|].
  exists (ys ++ [y]). split; [by rewrite !length_app, Hl|].
  intros k a b [Hk|[? Hk]]%lookup_app_Some Hb.
  - rewrite lookup_app_l in Hb by (rewrite Hl; by eapply lookup_lt_Some). by apply Hys.
  - apply list_lookup_singleton_Some in Hk as [? <-].
    rewrite lookup_app_r in Hb by lia. apply list_lookup_singleton_Some in Hb as [? <-].
    by replace k with (length l) by lia.
Qed.

Lemma limit_range media limit :
  attachment_plaintext_limit media = Ok limit → 0 < limit ≤ MAX_ATTACHMENT_PLAINTEXT_BYTES.
Proof. unfold attachment_plaintext_limit. repeat case_bool_decide; by intros [= <-]. Qed.

Lemma blob_limit_count media limit t :
  attachment_plaintext_limit media = Ok limit → 0 < t ≤ limit →
  div_ceil t C * R ≤ attachment_blob_limit media.
Proof.
  intros Hl Ht. unfold attachment_blob_limit. rewrite Hl. cbn [ok from_option id].
  pose proof (limit_range _ _ Hl) as Hr. change MAX_ATTACHMENT_BLOB_BYTES with (800 * R).
  pose proof (div_ceil_spec t C ltac:(done)). pose proof (div_ceil_spec limit C ltac:(done)).
  unfold usize_MAX. sizes.
Qed.

Section theorems.
Context {AE : Aead} {AL : AeadLaws}.

(** The records of the pieces of a plaintext. *)
Definition records_of (cx : AttachmentContext) (key : bytes) (total : Z) (ps records : list bytes)
    : Prop :=
  length records = length ps ∧
  ∀ k p r, ps !! k = Some p → records !! k = Some r →
    ∃ nonce filler, len nonce = 24 ∧ len p + len filler = C ∧
      chunk_record cx key total (Z.of_nat k) p nonce filler r.

Lemma records_len cx key total ps records :
  records_of cx key total ps records → Forall (λ r, len r = R) records.
Proof.
  intros [Hlen Hr]. apply Forall_lookup. intros k r Hk.
  destruct (lookup_lt_is_Some_2 ps k) as [p Hp].
  { rewrite <- Hlen. by eapply lookup_lt_Some. }
  destruct (Hr k p r Hp Hk) as (nonce & filler & ? & ? & ?). by eapply len_chunk_record.
Qed.

Lemma records_valid cx key p limit records :
  0 < len p ≤ limit → records_of cx key (len p) (cut C p) records →
  len key = 32 ∧ validate_attachment_context cx = Ok tt.
Proof.
  intros Hp [Hlen Hr]. pose proof (length_cut C p) as Hc.
  pose proof (div_ceil_spec (len p) C ltac:(done)) as Hs.
  assert (0 < Z.of_nat (length (cut C p))) as Hpos by sizes.
  destruct (lookup_lt_is_Some_2 (cut C p) 0) as [q Hq]; [lia|].
  destruct (lookup_lt_is_Some_2 records 0) as [r Hr0]; [lia|].
  by destruct (Hr _ _ _ Hq Hr0) as (? & ? & _ & _ & (n & ct & (? & ? & _) & _)).
Qed.

Lemma encrypt_attachment_Ok cx key p draws blob :
  draws_ok (len p) draws → encrypt_attachment cx key p draws = Ok blob →
  ∃ limit records, attachment_plaintext_limit (cx_media_type cx) = Ok limit ∧
    0 < len p ≤ limit ∧ records_of cx key (len p) (cut C p) records ∧ blob = concat records.
Proof.
  intros Hd H. unfold encrypt_attachment in H.
  apply bind_Ok in H as (limit & Hlim & H). apply bind_Ok in H as ([] & Hg & H).
  apply bind_Ok in H as (records & Hc & [= <-]). apply reject_if_Ok in Hg. split_bools.
  assert (0 < len p) as Hp by (by apply len_pos).
  exists limit, records. split; [done|]. split; [lia|]. split; [|done].
  apply collect_Ok in Hc. split.
  { apply Forall2_length in Hc. rewrite <- Hc, length_seq. unfold cut.
    by rewrite length_fmap, length_seq. }
  intros k q r Hq Hr. destruct (cut_lookup C p k q ltac:(done) Hq) as (Hk & -> & Hlen).
  destruct (Forall2_lookup_r _ _ _ _ _ Hc Hr) as (k' & [-> _]%lookup_seq & E). simpl in E.
  destruct (Hd (Z.of_nat k)) as [Hn Hf]; [lia|].
  exists (draws (Z.of_nat k)).1, (draws (Z.of_nat k)).2. split; [done|].
  split; [lia|]. apply encrypt_chunk_Ok in E; [done|done|]. unfold piece in Hlen. lia.
Qed.

Lemma encrypt_attachment_run cx key p records limit :
  attachment_plaintext_limit (cx_media_type cx) = Ok limit → 0 < len p ≤ limit →
  records_of cx key (len p) (cut C p) records →
  ∃ draws, draws_ok (len p) draws ∧ encrypt_attachment cx key p draws = Ok (concat records).
Proof.
  intros Hlim Hp [Hlen Hr]. pose proof (length_cut C p) as Hc. rewrite <- Hlen in Hc.
  pose proof (div_ceil_spec (len p) C ltac:(done)) as Hs.
  destruct (finite_choice (λ k r d, len d.1 = 24 ∧ len (piece C p k) + len d.2 = C ∧
    chunk_record cx key (len p) (Z.of_nat k) (piece C p k) d.1 d.2 r) records) as (ds & Hds & Hd).
  { intros k r Hk. pose proof (lookup_lt_Some _ _ _ Hk).
    destruct (Hr k (piece C p k) r) as (nonce & filler & ?); [|done|by exists (nonce, filler)].
    unfold cut. rewrite list_lookup_fmap, lookup_seq_lt by lia. done. }
  assert (∀ k r, records !! k = Some r → ∃ d, ds !! k = Some d ∧ len d.1 = 24 ∧
    len (piece C p k) + len d.2 = C ∧
    chunk_record cx key (len p) (Z.of_nat k) (piece C p k) d.1 d.2 r) as Hget.
  { intros k r Hk. destruct (lookup_lt_is_Some_2 ds k) as [d Hdk].
    { rewrite Hds. by eapply lookup_lt_Some. }
    exists d. split; [done|]. by apply Hd. }
  exists (λ i, default ([], []) (ds !! Z.to_nat i)). split.
  - intros i Hi. destruct (lookup_lt_is_Some_2 records (Z.to_nat i)) as [r Hrk]; [lia|].
    destruct (Hget _ _ Hrk) as (d & -> & ? & Hl & _). split; [done|]. simpl.
    rewrite len_piece in Hl by (done || (rewrite Z2Nat.id by lia; sizes)).
    rewrite Z2Nat.id in Hl by lia. lia.
  - unfold encrypt_attachment. rewrite Hlim. cbn [mbind result_bind].
    rewrite !bool_decide_false; [|lia|by apply len_pos; lia]. cbn [mbind result_bind reject_if orb].
    rewrite (collect_run _ _ records); [done|]. apply Forall2_same_length_lookup_2.
    { rewrite length_seq. lia. }
    intros k k' r [-> Hk]%lookup_seq Hrk. destruct (Hget _ _ Hrk) as (d & Hdk & ? & ? & ?).
    cbn [plus Nat.add]. rewrite Nat2Z.id, Hdk. by apply encrypt_chunk_Ok.
Qed.

Lemma decrypt_attachment_Ok cx key blob p :
  decrypt_attachment cx key blob = Ok p →
  ∃ limit records, attachment_plaintext_limit (cx_media_type cx) = Ok limit ∧
    0 < len p ≤ limit ∧ records_of cx key (len p) (cut C p) records ∧ blob = concat records.
Proof.
  unfold decrypt_attachment. intros H. apply bind_Ok in H as ([] & Hg & H).
  apply bind_Ok in H as (h & Hh & H). apply bind_Ok in H as (limit & Hlim & H).
  apply bind_Ok in H as ([] & Hg1 & H). apply bind_Ok in H as ([] & Hg2 & H).
  apply bind_Ok in H as (chunks & Hc & H). apply bind_Ok in H as ([] & Hg3 & [= <-]).
  apply reject_if_Ok in Hg, Hg1, Hg2, Hg3. split_bools.
  set (t := ch_total_plaintext_bytes h) in *.
  assert (len (concat chunks) = t) as Ht by (by apply dec_stable).
  assert (len blob mod R = 0) as Hm by (by apply dec_stable).
  assert (ch_chunk_count h = len blob / R) as Hn by (by apply dec_stable).
  apply parse_Ok in Hh as (_ & _ & e & _ & _ & _ & Hi0 & Ht0 & Hl). fold t in Ht0, Hl.
  pose proof Hl as (Hl1 & Hl2 & _)%layout_Ok; [|done|lia].
  rewrite chunks_exact_cut in Hc by done. apply collect_Ok in Hc.
  set (records := cut R blob) in *.
  assert (∀ k r, records !! k = Some r → ∃ q, chunks !! k = Some q ∧
    decrypt_attachment_chunk cx key t (Z.of_nat k) r = Ok q) as Hdec.
  { intros k r Hk. destruct (Forall2_lookup_l _ _ _ k (k, r) Hc) as (q & Hq & E).
    { by rewrite list_lookup_imap, Hk. }
    by exists q. }
  assert (length records = length chunks) as Hlen
    by (apply Forall2_length in Hc; by rewrite length_imap in Hc).
  assert (Z.of_nat (length chunks) = div_ceil t C) as Hcount.
  { rewrite <- Hlen. unfold records. rewrite length_cut, <- Hl2, Hn.
    apply Z.mod_divide in Hm as [m Hm]; [|done]. rewrite Hm, Z.div_mul by done.
    rewrite (div_ceil_unique _ R m) by (done || sizes). pose proof (len_nonneg blob). sizes. }
  assert (∀ k r q, records !! k = Some r → chunks !! k = Some q → ∃ nonce filler,
    len nonce = 24 ∧ len q + len filler = C ∧
    chunk_record cx key t (Z.of_nat k) q nonce filler r) as Hrec.
  { intros k r q Hk Hq. pose proof (lookup_lt_Some _ _ _ Hq). destruct (Hdec k r Hk) as (q' & Hq' & E).
    assert (q' = q) as -> by congruence. apply decrypt_chunk_Ok in E; [done| |lia].
    pose proof (div_ceil_spec t C ltac:(done)). sizes. }
  assert (cut C (concat chunks) = chunks) as Hcut.
  { apply (cut_unique C t); [done|lia| |done]. intros k q Hq.
    destruct (lookup_lt_is_Some_2 records k) as [r Hr]; [rewrite Hlen; by eapply lookup_lt_Some|].
    destruct (Hrec k r q Hr Hq) as (? & ? & _ & _ & (n & ct & (_ & _ & _ & Hlay) & _)).
    apply layout_Ok in Hlay as (_ & _ & _ & ?); [done|lia|lia]. }
  exists limit, records. split; [done|]. split; [lia|]. split.
  - rewrite Ht, Hcut. split; [done|]. intros k q r Hq Hr. by apply (Hrec k r q).
  - unfold records. by rewrite concat_cut.
Qed.

Lemma decrypt_attachment_run cx key p records limit :
  attachment_plaintext_limit (cx_media_type cx) = Ok limit → 0 < len p ≤ limit →
  records_of cx key (len p) (cut C p) records →
  decrypt_attachment cx key (concat records) = Ok p.
Proof.
  intros Hlim Hp Hr. destruct (concat_records R records) as [Hbl Hch];
    [done|by eapply records_len|]. destruct Hr as [Hlen Hr].
  pose proof (length_cut C p) as Hc. rewrite <- Hlen in Hc.
  pose proof (div_ceil_spec (len p) C ltac:(done)) as Hs.
  assert (len records = div_ceil (len p) C) as Hn by (unfold len at 1; sizes).
  assert (0 < div_ceil (len p) C) as Hpos by sizes.
  assert (∀ k r, records !! k = Some r → ∃ nonce filler, len nonce = 24 ∧
    len (piece C p k) + len filler = C ∧
    chunk_record cx key (len p) (Z.of_nat k) (piece C p k) nonce filler r) as Hrec.
  { intros k r Hk. pose proof (lookup_lt_Some _ _ _ Hk). apply (Hr k); [|done].
    unfold cut. rewrite list_lookup_fmap, lookup_seq_lt by lia. done. }
  destruct records as [|r0 records']; [by rewrite len_nil in Hn; lia|].
  set (records := r0 :: records') in *.
  destruct (Hrec 0%nat r0 eq_refl) as (nonce & filler & Hno & Hf & Hr0).
  pose proof (len_chunk_record _ _ _ _ _ _ _ _ Hno Hf Hr0) as Hr0l.
  destruct Hr0 as (n & ct & (Hcx & Hk & _ & Hl) & Hct & Er0).
  assert (slice 0 R (concat records) = r0) as E0.
  { change (concat records) with (r0 ++ concat records'). rewrite slice_app_l by sizes. by apply slice_eq. }
  assert (parse_attachment_chunk_header r0 = Ok (mkChunkHeader 0 n (len p))) as Hparse.
  { rewrite Er0 in Hr0l |- *. apply (parse_head _ _ _ (len (piece C p 0))); done || lia. }
  unfold decrypt_attachment. rewrite Hbl, E0, Hch.
  rewrite !bool_decide_false;
    [|rewrite Z.mul_comm, Z_mod_mult; lia
     |rewrite Hn, (Z.mul_comm R); pose proof (blob_limit_count _ _ (len p) Hlim Hp); lia
     |by apply len_pos; rewrite Hbl, Hn; sizes|auto].
  cbn [mbind result_bind reject_if orb]. rewrite Hparse.
  cbn [mbind result_bind]. rewrite Hlim. cbn [mbind result_bind ch_total_plaintext_bytes ch_chunk_count].
  apply layout_Ok in Hl as (_ & -> & _); [|lia|done].
  rewrite (Z.mul_comm R), Z.div_mul, Hn by done. rewrite !bool_decide_false by (auto || lia).
  cbn [mbind result_bind reject_if orb]. rewrite (collect_run _ _ (cut C p)).
  { cbn [mbind result_bind]. rewrite concat_cut by done. rewrite bool_decide_false by auto. done. }
  apply Forall2_same_length_lookup_2; [by rewrite length_imap|].
  intros k [k' r] q. rewrite list_lookup_imap. destruct (records !! k) as [r'|] eqn:E; [|done].
  intros [= <- <-] Hq. destruct (cut_lookup C p k q ltac:(done) Hq) as (Hkk & -> & _). simpl.
  apply decrypt_chunk_Ok; [pose proof (limit_range _ _ Hlim); sizes|lia|]. by apply Hrec.
Qed.

Lemma blob_total_run index count t total records :
  (∀ k r, records !! k = Some r →
     parse_attachment_chunk_header r = Ok (mkChunkHeader (index + Z.of_nat k) count t)) →
  (total = None ∨ total = Some t) →
  blob_total index count total records = Ok (if decide (records = []) then total else Some t).
Proof.
  revert index total. induction records as [|r records IH]; intros index total Hp Ht; [done|].
  cbn [blob_total]. rewrite (Hp 0%nat r eq_refl), Z.add_0_r. cbn [mbind result_bind ch_chunk_index
    ch_chunk_count ch_total_plaintext_bytes]. rewrite !bool_decide_false by auto.
  cbn [orb reject_if mbind result_bind].
  assert (match total with Some t0 => bool_decide (t0 ≠ t) | None => false end = false) as ->.
  { destruct Ht as [->| ->]; [done|]. by rewrite bool_decide_false by auto. }
  cbn [reject_if mbind result_bind]. rewrite IH; [by case_decide| |by right].
  intros k r' Hk. replace (index + 1 + Z.of_nat k) with (index + Z.of_nat (S k)) by lia. by apply Hp.
Qed.

Lemma relay_accepts cx key p records limit :
  attachment_plaintext_limit (cx_media_type cx) = Ok limit → 0 < len p ≤ limit →
  records_of cx key (len p) (cut C p) records →
  attachment_plaintext_size_from_blob (cx_media_type cx) (concat records) = Ok (len p) ∧
  attachment_encrypted_size (cx_media_type cx) (len p) = Ok (len (concat records)) ∧
  len (concat records) ≤ MAX_ATTACHMENT_CIPHERTEXT_BYTES.
Proof.
  intros Hlim Hp Hr. pose proof (limit_range _ _ Hlim) as Hlr.
  destruct (concat_records R records) as [Hbl Hch]; [done|by eapply records_len|].
  pose proof (records_len _ _ _ _ _ Hr) as Hrl. destruct Hr as [Hlen Hr].
  pose proof (length_cut C p) as Hc. rewrite <- Hlen in Hc.
  pose proof (div_ceil_spec (len p) C ltac:(done)) as Hs.
  assert (len records = div_ceil (len p) C) as Hn by (unfold len at 1; sizes).
  assert (0 < div_ceil (len p) C ≤ 800) as Hpos by sizes.
  split_and!.
  - unfold attachment_plaintext_size_from_blob. rewrite Hlim, Hbl, Hch. cbn [mbind result_bind].
    rewrite !bool_decide_false;
      [|rewrite Z.mul_comm, Z_mod_mult; lia
       |rewrite Hn, (Z.mul_comm R); pose proof (blob_limit_count _ _ (len p) Hlim Hp); lia
       |by apply len_pos; rewrite Hbl, Hn; sizes].
    cbn [orb reject_if mbind result_bind].
    rewrite (blob_total_run _ _ (len p)); [|intros k r Hk|by left].
    + rewrite decide_False by (intros ->; rewrite len_nil in Hn; lia).
      cbn [mbind result_bind ok_or]. by rewrite !bool_decide_false by lia.
    + pose proof (lookup_lt_Some _ _ _ Hk). rewrite Forall_lookup in Hrl. specialize (Hrl _ _ Hk).
      destruct (Hr k (piece C p k) r) as (? & ? & _ & _ & (n & ct & (_ & _ & _ & Hl) & _ & ->));
        [|done|]. { unfold cut. rewrite list_lookup_fmap, lookup_seq_lt by lia. done. }
      rewrite (Z.mul_comm R), Z.div_mul, Hn, Z.add_0_l by done.
      pose proof Hl as (_ & -> & _)%layout_Ok; [|lia|lia].
      apply (parse_head _ _ _ (len (piece C p k))); [lia|lia|done|done].
  - unfold attachment_encrypted_size. rewrite Hlim. cbn [mbind result_bind].
    rewrite (proj2 (layout_Ok (len p) 0 (div_ceil (len p) C) (Z.min C (len p - 0 * C))
      ltac:(lia) ltac:(lia))) by (split_and!; done || lia).
    cbn [mbind result_bind]. rewrite bool_decide_false by lia. cbn [mbind result_bind reject_if].
    apply ok_or_Ok, checked_mul_Some. rewrite Hbl, Hn. unfold usize_MAX. sizes.
  - rewrite Hbl, Hn. change MAX_ATTACHMENT_CIPHERTEXT_BYTES with (800 * R). sizes.
Qed.

Lemma encrypt_attachment_total cx key p draws limit :
  validate_attachment_context cx = Ok tt → len key = 32 →
  attachment_plaintext_limit (cx_media_type cx) = Ok limit → 0 < len p ≤ limit →
  draws_ok (len p) draws → ∃ blob, encrypt_attachment cx key p draws = Ok blob.
Proof.
  intros Hcx Hk Hlim Hp Hd. pose proof (limit_range _ _ Hlim) as Hlr.
  pose proof (div_ceil_spec (len p) C ltac:(done)) as Hs.
  unfold encrypt_attachment. rewrite Hlim. cbn [mbind result_bind].
  rewrite !bool_decide_false; [|lia|by apply len_pos; lia]. cbn [mbind result_bind reject_if orb].
  destruct (finite_choice (λ k (i : nat) r,
    encrypt_attachment_chunk cx key (len p) (Z.of_nat i) (piece C p i)
      (draws (Z.of_nat i)).1 (draws (Z.of_nat i)).2 = Ok r)
    (seq 0 (Z.to_nat (div_ceil (len p) C)))) as (rs & Hl & Hrs).
  { intros k i [-> Hi]%lookup_seq. simpl. destruct (Hd (Z.of_nat k)) as [Hn Hf]; [lia|].
    assert (len (piece C p k) = Z.min C (len p - Z.of_nat k * C)) as Hpl
      by (apply len_piece; [done|sizes]).
    destruct (encrypt_total key (draws (Z.of_nat k)).1
      (attachment_chunk_aad cx (chunk_head (Z.of_nat k) (div_ceil (len p) C) (len p)))
      (piece C p k ++ (draws (Z.of_nat k)).2)) as [ct Hct].
    { rewrite len_app, Hf, Hpl. sizes. }
    eexists. apply encrypt_chunk_Ok; [done|lia|]. eexists _, ct. split; [|by split].
    split_and!; [done|done|exists limit; split; [done|lia]|].
    apply layout_Ok; [lia|lia|]. split_and!; [lia|lia|done|lia|done]. }
  exists (concat rs). rewrite (collect_run _ _ rs); [done|].
  apply Forall2_same_length_lookup_2; [done|]. intros k i r Hi Hr. by apply (Hrs k).
Qed.

(** C34: client-side attachment encryption is exact, total and accepted by the
    relay.  A blob opens under a key and a context to a plaintext exactly when
    sealing that plaintext produces it for some nonces and fillers; every
    plaintext the media type allows can be sealed; and the relay, which has no
    key, reads the size of the plaintext from such a blob, whose length is the
    announced one and fits one attachment stream. *)
Theorem attachment_blob_exact cx key blob p :
  (decrypt_attachment cx key blob = Ok p ↔
   len key = 32 ∧ validate_attachment_context cx = Ok tt ∧
   ∃ draws, draws_ok (len p) draws ∧ encrypt_attachment cx key p draws = Ok blob) ∧
  (decrypt_attachment cx key blob = Ok p →
   attachment_plaintext_size_from_blob (cx_media_type cx) blob = Ok (len p) ∧
   attachment_encrypted_size (cx_media_type cx) (len p) = Ok (len blob) ∧
   len blob ≤ MAX_ATTACHMENT_CIPHERTEXT_BYTES) ∧
  (∀ draws limit,
   len key = 32 → validate_attachment_context cx = Ok tt →
   attachment_plaintext_limit (cx_media_type cx) = Ok limit → 0 < len p ≤ limit →
   draws_ok (len p) draws → ∃ blob, encrypt_attachment cx key p draws = Ok blob).
Proof.
  split; [split|split].
  - intros (limit & records & Hlim & Hp & Hr & ->)%decrypt_attachment_Ok.
    destruct (records_valid _ _ _ _ _ Hp Hr) as [? ?]. split_and!; [done|done|].
    by eapply encrypt_attachment_run.
  - intros (_ & _ & draws & Hd & E).
    apply encrypt_attachment_Ok in E as (limit & records & ? & ? & ? & ->); [|done].
    by eapply decrypt_attachment_run.
  - intros (limit & records & Hlim & Hp & Hr & ->)%decrypt_attachment_Ok. by eapply relay_accepts.
  - intros. by eapply encrypt_attachment_total.
Qed.
End theorems.

(** ** A concrete attachment *)

Import Demo.

Definition demo_context : AttachmentContext := mkContext "chat_1" "msg_1" "alice" "IMAGE".
Definition demo_key : bytes := replicate 32 Byte.x07.
Definition demo_plaintext : bytes := text_bytes "attachment".

Lemma attachment_blob_exact_witness :
  ∃ blob draws, encrypt_attachment demo_context demo_key demo_plaintext draws = Ok blob ∧
    decrypt_attachment demo_context demo_key blob = Ok demo_plaintext.
Proof.
  set (draws := λ _ : Z, (replicate 24 Byte.x01, replicate (Z.to_nat (C - 10)) Byte.x02)).
  assert (draws_ok (len demo_plaintext) draws) as Hd.
  { intros i Hi. change (div_ceil (len demo_plaintext) C) with 1 in Hi.
    assert (i = 0) as -> by lia. unfold draws. cbn [fst snd]. unfold len. rewrite !length_replicate.
    split; [reflexivity|]. reflexivity. }
  destruct (attachment_blob_exact demo_context demo_key [] demo_plaintext) as (_ & _ & Htot).
  destruct (Htot draws IMAGE_ATTACHMENT_LIMIT_BYTES) as [blob Hblob];
    [reflexivity|reflexivity|reflexivity|vm_compute; split; [reflexivity|discriminate]|exact Hd|].
  exists blob, draws. split; [exact Hblob|].
  apply (proj2 (proj1 (attachment_blob_exact demo_context demo_key blob demo_plaintext))).
  split; [reflexivity|]. split; [reflexivity|]. exists draws. split; [exact Hd|exact Hblob].
Defined.
