(* ===== verification/AttachmentUpload.v ===== *)
(** * Committing an upload (mirage-server/src/attachment_transport_actions.rs)

    [commit_upload] checks the received ciphertext and the sender's access once
    more, snapshots the accounts that may download, fixes the deadlines and
    stages the record.  What the session table answers and the identifier drawn
    for the record are arguments; the memory permit and the activity timestamp
    are not part of the state. *)

From S2P Require Import Prelude RoomModel RoomValidation RoomAuthority RoomLifecycle TransportWire.
From S2P Require Import Attachment AttachmentAccess AttachmentStore AttachmentBlob.

Definition saturating_mul (m a b : Z) : Z := Z.min m (a * b).

Record AuthSession : Type := mkAuth { au_code_id : CodeId; au_username : string }.

Definition media_type_name (media_type : AttachmentMediaType) : string :=
  match media_type with Image => "IMAGE" | Video => "VIDEO" | File => "FILE" end.

(** The readings of the clock, in the order [commit_upload] makes them. *)
Record UploadClock : Type := mkUploadClock {
  uc_member : Z; uc_active : Z; uc_info : Z; uc_recipients : Z;
  uc_expiry : Z; uc_staging : Z; uc_prune : Z
}.

(** The relay state an upload touches. *)
Record UploadState : Type := mkUploadState {
  us_catalog : Catalog;
  us_store : AttachmentStore;
  us_epoch : Z
}.

Section upload.
Context {HO : HashOrder}.

Definition expires_at (now ttl_sec : Z) : Z :=
  saturating_add u64_MAX now (saturating_mul u64_MAX ttl_sec 1000).
Definition staged_until (now expires : Z) : Z :=
  Z.min (saturating_add u64_MAX now ATTACHMENT_STAGING_TTL_MS) expires.

Definition commit_upload (clock : UploadClock) (limits : AttachmentLimits) (epoch : Z)
    (session : option AuthSession) (initial_code_id : CodeId) (upload : Upload)
    (ciphertext : bytes) (attachment_id : Uuid) (state : UploadState)
    : result () bytes * UploadState :=
  let media_type := media_type_name (up_media_type upload) in
  let chat_id := up_chat_id upload in
  if negb (valid_encrypted_attachment_body media_type ciphertext) then (Err tt, state)
  else if bool_decide (us_epoch state ≠ epoch) then (Err tt, state)
  else
    match session with
    | None => (Err tt, state)
    | Some auth =>
        if bool_decide (au_code_id auth ≠ initial_code_id) then (Err tt, state)
        else
          match a ← ct_accounts (us_catalog state) !! au_code_id auth; ac_client_platform a with
          | None => (Err tt, state)
          | Some sender_platform =>
              match attachment_conversation_access (uc_member clock) (uc_active clock)
                      (uc_info clock) (au_username auth) chat_id media_type (us_catalog state) with
              | (Err _, c) => (Err tt, mkUploadState c (us_store state) (us_epoch state))
              | (Ok access, c) =>
                  let '(recipients, c) :=
                    snapshot_attachment_recipients (uc_recipients clock) access chat_id
                      (au_username auth) (au_code_id auth) c in
                  let with_store s := mkUploadState c s (us_epoch state) in
                  if (up_one_time upload || up_delete_after_download upload)
                     && bool_decide (recipients = ∅)
                  then (Err tt, with_store (us_store state))
                  else
                    let ttl_sec :=
                      effective_attachment_ttl_sec (Some (up_requested_ttl_sec upload)) access
                        media_type (al_max_lifetime_sec limits) in
                    let expires := expires_at (uc_expiry clock) ttl_sec in
                    let s := prune_expired_attachments_locked (uc_prune clock) (us_store state) in
                    let record :=
                      mkAttachment ciphertext chat_id (up_message_id upload) media_type
                        (au_code_id auth) sender_platform false
                        (Some (staged_until (uc_staging clock) expires))
                        (up_one_time upload) (up_delete_after_download upload) (Some expires)
                        recipients ∅ ∅ in
                    match stage_record limits attachment_id record s with
                    | (Err _, s) => (Err tt, with_store s)
                    | (Ok _, s) => (Ok attachment_id, with_store s)
                    end
              end
          end
    end.
End upload.

(** * Uploads: access, recipients and deadlines

    What [commit_upload] accepted when it accepted: the conversation the sender
    belongs to, the recipients of that conversation, and deadlines no later than
    any limit that applies. *)

(** ** Lifetimes *)

(** The lifetime the conversation imposes, 0 for none. *)
Definition enforced_ttl (access : ConversationAccess) (media_type : string) : Z :=
  match access with
  | MlsRoom policy => enforced_attachment_ttl_sec_policy policy media_type
  | Room room => enforced_attachment_ttl_sec room media_type
  | Direct => 0
  end.

Lemma shortest_ttl_nonneg enabled ttl media : 0 ≤ shortest_ttl (enabled_ttl enabled ttl) media.
Proof.
  unfold shortest_ttl, enabled_ttl. destruct enabled; simpl; [case_bool_decide|]; case_decide; lia.
Qed.

Lemma enforced_ttl_nonneg access media : 0 ≤ enforced_ttl access media.
Proof.
  destruct access; simpl;
    [apply shortest_ttl_nonneg|apply shortest_ttl_nonneg|done].
Qed.

Lemma effective_ttl_bounds requested access media max_lifetime :
  0 ≤ requested →
  let ttl := effective_attachment_ttl_sec (Some requested) access media max_lifetime in
  ttl ≤ max_lifetime ∧ (0 < requested → ttl ≤ requested) ∧
  (0 < enforced_ttl access media → ttl ≤ enforced_ttl access media).
Proof.
  intros Hr. pose proof (enforced_ttl_nonneg access media) as He. simpl.
  unfold effective_attachment_ttl_sec. destruct access; simpl in *; unfold merge_ttl;
    repeat case_decide; lia.
Qed.

Lemma expires_at_le now ttl : expires_at now ttl ≤ now + ttl * 1000.
Proof. unfold expires_at, saturating_add, saturating_mul. lia. Qed.

Lemma staged_until_le now expires :
  staged_until now expires ≤ now + ATTACHMENT_STAGING_TTL_MS ∧ staged_until now expires ≤ expires.
Proof. unfold staged_until, saturating_add. lia. Qed.

(** ** Recipients *)

Section access.
Context {HO : HashOrder}.

(** The accounts that may receive in a conversation. *)
Definition may_receive (access : ConversationAccess) (chat_id username : string) (c : Catalog)
    (u : CodeId) : Prop :=
  match access with
  | MlsRoom _ =>
      ∃ room k m, rooms (ct_mls_rooms c) !! chat_id = Some room ∧
        room_members room !! k = Some m ∧ mem_code_id m = u ∧ mem_active m = true
  | Room _ => is_Some (ct_accounts c !! u)
  | Direct =>
      ∃ a d, ct_accounts c !! u = Some a ∧ ct_direct_catalog c !! chat_id = Some d ∧
        peer_for d username = Some (ac_username a)
  end.

Lemma recipients_exact now access chat username owner c rs c' u :
  snapshot_attachment_recipients now access chat username owner c = (rs, c') →
  u ∈ rs ↔ u ≠ owner ∧ may_receive access chat username c' u.
Proof.
  unfold snapshot_attachment_recipients. destruct access as [policy|room|]; simpl.
  - unfold get_room. set (a := prune_expired now (ct_mls_rooms c)). intros [= <- <-]. simpl.
    rewrite elem_of_list_to_set, list_elem_of_filter.
    destruct (rooms a !! chat) as [room|]; simpl.
    + rewrite list_elem_of_fmap. setoid_rewrite list_elem_of_filter.
      setoid_rewrite elem_of_btree_values. naive_solver.
    + set_solver.
  - intros [= <- <-]. rewrite elem_of_list_to_set, elem_of_hash_keys. unfold is_Some.
    setoid_rewrite retain_lookup_Some. setoid_rewrite andb_true_iff.
    setoid_rewrite negb_true_iff. setoid_rewrite bool_decide_eq_false. naive_solver.
  - intros [= <- <-]. rewrite elem_of_list_to_set, elem_of_hash_keys. unfold is_Some.
    setoid_rewrite retain_lookup_Some. setoid_rewrite andb_true_iff.
    setoid_rewrite negb_true_iff. setoid_rewrite bool_decide_eq_false.
    destruct (ct_direct_catalog c !! chat) as [d|]; simpl; [|naive_solver].
    destruct (peer_for d username) as [peer|] eqn:Hp.
    + setoid_rewrite bool_decide_eq_true. split.
      * intros (a & ? & ? & <-). eauto 10.
      * intros (? & a & d' & ? & [= <-] & ?). rewrite Hp in *. simplify_eq. eauto.
    + split; [by intros (? & _ & _ & ?)|]. intros (_ & a & d' & _ & [= <-] & ?). congruence.
Qed.

(** ** Access *)

(** What a grant of access rests on. *)
Definition belongs (access : ConversationAccess) (username chat_id : string) (c : Catalog) : Prop :=
  match access with
  | MlsRoom policy =>
      ∃ code a room, ct_accounts c !! code = Some a ∧ ac_username a = username ∧
        rooms (ct_mls_rooms c) !! chat_id = Some room ∧ is_member_of room code = true ∧
        policy = room_policy room
  | Room room => ∃ e, ct_room_catalog c !! chat_id = Some e ∧ re_room e = room
  | Direct =>
      ∃ d, ct_direct_catalog c !! chat_id = Some d ∧
        (de_user_a d = username ∨ de_user_b d = username)
  end.

Lemma catalog_access username chat c access :
  match ct_room_catalog c !! chat with
  | Some entry => Some (Room (re_room entry))
  | None =>
      match ct_direct_catalog c !! chat with
      | Some d =>
          if bool_decide (de_user_a d = username) || bool_decide (de_user_b d = username)
          then Some Direct else None
      | None => None
      end
  end = Some access → belongs access username chat c.
Proof.
  destruct (ct_room_catalog c !! chat) as [e|] eqn:He; [intros [= <-]; by exists e|].
  destruct (ct_direct_catalog c !! chat) as [d|] eqn:Hd; [|done].
  destruct (_ || _) eqn:Hb; [|done]. intros [= <-]. exists d. split; [done|].
  apply orb_true_iff in Hb. by rewrite !bool_decide_eq_true in Hb.
Qed.

Lemma conversation_access_belongs now1 now2 now3 username chat c access c' :
  conversation_access now1 now2 now3 username chat c = (Some access, c') →
  belongs access username chat c'.
Proof.
  unfold conversation_access. destruct (negb (valid_chat_id chat)); [done|].
  destruct (List.find _ _) as [[code a]|] eqn:Hf.
  2:{ intros [= H <-]. by apply catalog_access. }
  apply List.find_some in Hf as [Hf Hu]. apply list_elem_of_In in Hf.
  rewrite hash_iter_perm in Hf. apply elem_of_map_to_list in Hf.
  apply bool_decide_eq_true in Hu. unfold is_member, is_active_member, member_info, query.
  destruct (negb _); [intros [= H <-]; by apply (catalog_access username chat (set_mls_rooms _ c))|].
  destruct (negb _); [done|].
  set (s := prune_expired now3 _). unfold get_room.
  destruct (rooms s !! chat) as [room|] eqn:Hr; cbn [ok_or mbind result_bind].
  - destruct (is_member_of room code) eqn:Hm; cbn [negb reject_if mbind result_bind].
    + intros [= <- <-]. simpl. eauto 10.
    + intros [= H <-]. by apply (catalog_access username chat (set_mls_rooms _ c)).
  - intros [= H <-]. by apply (catalog_access username chat (set_mls_rooms _ c)).
Qed.
End access.

(** ** The record of an accepted upload *)

Section upload.
Context {HO : HashOrder}.

(** The record an upload stages, from what access and the recipients turned out
    to be. *)
Definition uploaded (clock : UploadClock) (l : AttachmentLimits) (code : CodeId) (upload : Upload)
    (ciphertext : bytes) (platform : ClientPlatform) (access : ConversationAccess)
    (recipients : gset CodeId) : AttachmentRecord :=
  let media_type := media_type_name (up_media_type upload) in
  let ttl := effective_attachment_ttl_sec (Some (up_requested_ttl_sec upload)) access media_type
               (al_max_lifetime_sec l) in
  let expires := expires_at (uc_expiry clock) ttl in
  mkAttachment ciphertext (up_chat_id upload) (up_message_id upload) media_type code platform false
    (Some (staged_until (uc_staging clock) expires)) (up_one_time upload)
    (up_delete_after_download upload) (Some expires) recipients ∅ ∅.

Lemma stage_record_Ok l id r s u s' :
  stage_record l id r s = (Ok u, s') →
  st_attachments s' !! id = Some r ∧ st_bindings s' !! record_key r = Some id.
Proof.
  unfold stage_record. repeat (case_match; try done); intros [= <- <-]; simpl;
    by rewrite !lookup_insert_eq.
Qed.

Lemma commit_upload_Ok clock l epoch session code upload ct id st id' st' :
  let media_type := media_type_name (up_media_type upload) in
  let chat := up_chat_id upload in
  commit_upload clock l epoch session code upload ct id st = (Ok id', st') →
  ∃ username platform access c1 rs,
    id' = id ∧ valid_encrypted_attachment_body media_type ct = true ∧ us_epoch st = epoch ∧
    session = Some (mkAuth code username) ∧
    conversation_access (uc_member clock) (uc_active clock) (uc_info clock) username chat
      (us_catalog st) = (Some access, c1) ∧
    allows_media access media_type = true ∧
    snapshot_attachment_recipients (uc_recipients clock) access chat username code c1
      = (rs, us_catalog st') ∧
    (up_one_time upload || up_delete_after_download upload = true → rs ≠ ∅) ∧
    let r := uploaded clock l code upload ct platform access rs in
    st_attachments (us_store st') !! id = Some r ∧
    st_bindings (us_store st') !! record_key r = Some id.
Proof.
  cbn zeta. unfold commit_upload. set (media := media_type_name _).
  destruct (valid_encrypted_attachment_body media ct) eqn:Hbody; [|done]. simpl negb. cbv iota.
  case_bool_decide as He; [done|]. destruct session as [[code' username]|]; [|done]. simpl.
  case_bool_decide as Hc; [done|]. subst code'.
  destruct (a ← _; _) as [platform|]; [|done]. unfold attachment_conversation_access.
  destruct (negb (valid_chat_id _)); [done|].
  destruct (conversation_access _ _ _ _ _ _) as [[access|] c1] eqn:Ha; [|done].
  destruct (allows_media access media) eqn:Hm; [|done]. simpl negb. cbv iota.
  destruct (snapshot_attachment_recipients _ _ _ _ _ _) as [rs c2] eqn:Hs.
  destruct (_ && _) eqn:Hd; [done|].
  destruct (stage_record _ _ _ _) as [[u|] s'] eqn:E; intros [= <- <-].
  apply stage_record_Ok in E. exists username, platform, access, c1, rs.
  repeat (split; [done|]). split; [|exact E]. intros Ho. rewrite Ho in Hd. simpl in Hd.
  by apply bool_decide_eq_false in Hd.
Qed.

(** An accepted upload comes from the account that opened it, in the epoch
    it was opened in, to a conversation the sender belongs to and that allows
    the media type; the staged record holds the ciphertext unpublished under
    exactly that message; its recipients are exactly the other accounts that may
    receive there, and there is one if the attachment is destructive; and it
    expires no later than the relay's maximum, the lifetime asked for and the
    lifetime the conversation enforces, its staging within ten minutes and no
    later than that. *)
Theorem upload_staged clock l epoch session code upload ct id st id' st' :
  let media_type := media_type_name (up_media_type upload) in
  let chat := up_chat_id upload in
  0 ≤ up_requested_ttl_sec upload →
  commit_upload clock l epoch session code upload ct id st = (Ok id', st') →
  id' = id ∧ us_epoch st = epoch ∧ valid_encrypted_attachment_body media_type ct = true ∧
  ∃ username access c r expires staged,
    session = Some (mkAuth code username) ∧
    (conversation_access (uc_member clock) (uc_active clock) (uc_info clock) username chat
       (us_catalog st)).2 = c ∧
    belongs access username chat c ∧ allows_media access media_type = true ∧
    st_attachments (us_store st') !! id = Some r ∧
    st_bindings (us_store st') !! mkBindingKey code chat (up_message_id upload) = Some id ∧
    ar_blob r = ct ∧ ar_published r = false ∧
    (∀ u, u ∈ ar_eligible_recipient_code_ids r ↔
       u ≠ code ∧ may_receive access chat username (us_catalog st') u) ∧
    (destructive r = true → ar_eligible_recipient_code_ids r ≠ ∅) ∧
    ar_expires_at_ms r = Some expires ∧ ar_staged_expires_at_ms r = Some staged ∧
    expires ≤ uc_expiry clock + al_max_lifetime_sec l * 1000 ∧
    (0 < up_requested_ttl_sec upload →
       expires ≤ uc_expiry clock + up_requested_ttl_sec upload * 1000) ∧
    (0 < enforced_ttl access media_type →
       expires ≤ uc_expiry clock + enforced_ttl access media_type * 1000) ∧
    staged ≤ uc_staging clock + ATTACHMENT_STAGING_TTL_MS ∧ staged ≤ expires.
Proof.
  cbn zeta. intros Hreq E. apply commit_upload_Ok in E
    as (username & platform & access & c1 & rs & -> & Hb & He & -> & Ha & Hm & Hs & Hd & Hr & Hk).
  repeat (split; [done|]). do 6 eexists. split; [done|]. split; [by rewrite Ha|].
  split; [by eapply conversation_access_belongs|]. split; [done|]. split; [done|].
  split; [done|]. split; [done|]. split; [done|].
  split; [intros u; by eapply recipients_exact|]. split; [exact Hd|].
  split; [done|]. split; [done|].
  pose proof (effective_ttl_bounds (up_requested_ttl_sec upload) access
    (media_type_name (up_media_type upload)) (al_max_lifetime_sec l) Hreq) as (B1 & B2 & B3).
  set (ttl := effective_attachment_ttl_sec _ _ _ _) in *.
  pose proof (expires_at_le (uc_expiry clock) ttl).
  pose proof (staged_until_le (uc_staging clock) (expires_at (uc_expiry clock) ttl)).
  split_and!; lia.
Qed.
End upload.
