(* ===== verification/AttachmentEvolution.v ===== *)
(** * The life of an attachment record

    Beside an upload, no operation makes a record: it keeps, changes or removes
    the records that are there.  [evolves] says what a change may do to a record
    that has left its staging, [keeps] what even a rollback of the staging
    respects; both compose along any run.  [swept T] says what the readings [T]
    of the clock may take out of the registry. *)

From S2P Require Import Prelude RoomModel AttachmentAccess AttachmentStore AttachmentStoreFacts.

(** ** Changes of one record *)

(** What an upload fixes once and for all. *)
Definition same_terms (r r' : AttachmentRecord) : Prop :=
  same_core r r' ∧ destructive r' = destructive r ∧ ar_expires_at_ms r' = ar_expires_at_ms r.

(** A claim that is there was there before, or was made on a destructive
    attachment by another account than its owner. *)
Definition claims_justified (r r' : AttachmentRecord) : Prop :=
  ∀ i c, ar_download_claims r' !! i = Some c →
    ar_download_claims r !! i = Some c ∨
    (destructive r = true ∧ dc_recipient_code_id c ≠ ar_owner_code_id r).

Record keeps (r r' : AttachmentRecord) : Prop := {
  kp_terms : same_terms r r';
  kp_claims : claims_justified r r'
}.

(** An account that is done with a record, or was never meant to have it. *)
Definition barred (u : CodeId) (r : AttachmentRecord) : Prop :=
  u ∈ ar_completed_recipient_code_ids r ∨ u ∉ ar_eligible_recipient_code_ids r.

Record evolves (r r' : AttachmentRecord) : Prop := {
  ev_keeps : keeps r r';
  ev_published : ar_published r = true → ar_published r' = true;
  ev_barred u : ar_published r = true → barred u r → barred u r'
}.

#[export] Instance same_terms_preorder : PreOrder same_terms.
Proof.
  split; [by repeat split|]. intros r1 r2 r3 ([H1 H2] & H3 & H4) ([H5 H6] & H7 & H8).
  repeat split; congruence.
Qed.

#[export] Instance keeps_preorder : PreOrder keeps.
Proof.
  split.
  - intros r. split; [done|]. intros i c. by left.
  - intros r1 r2 r3 [H1 H2] [H3 H4]. split; [by etrans|]. intros i c Hi.
    destruct H1 as (Hc & Hd & _).
    destruct (H4 _ _ Hi) as [Hi'|[Hx Hy]]; [by apply H2|right].
    rewrite <- Hd, <- (same_core_owner _ _ Hc). done.
Qed.

#[export] Instance evolves_preorder : PreOrder evolves.
Proof.
  split; [by split|]. intros r1 r2 r3 [H1 H2 H3] [H4 H5 H6].
  split; [by etrans|by auto|]. intros u Hp Hb. apply H6; auto.
Qed.

(** ** Changes of the registry *)

Definition records_via (R : relation AttachmentRecord) (s s' : AttachmentStore) : Prop :=
  ∀ i r', st_attachments s' !! i = Some r' → ∃ r, st_attachments s !! i = Some r ∧ R r r'.

#[export] Instance records_via_preorder R : PreOrder R → PreOrder (records_via R).
Proof.
  intros [Hr Ht]. split.
  - intros s i r Hi. by exists r.
  - intros s1 s2 s3 H1 H2 i r (r2 & (r1 & ? & ?)%H1 & ?)%H2. exists r1. split; [done|by eapply Ht].
Qed.

Lemma records_via_mono R R' s s' :
  (∀ r r', R r r' → R' r r') → records_via R s s' → records_via R' s s'.
Proof. intros HR H i r (r0 & ? & ?)%H. eauto. Qed.

Lemma via_update R s id r r' :
  PreOrder R → st_attachments s !! id = Some r → R r r' →
  records_via R s (set_attachments (<[id := r']> (st_attachments s)) s).
Proof.
  intros HR Hr HRr i r0. simpl. rewrite lookup_insert_Some.
  intros [[<- <-]|[_ ?]]; eexists; split; try done; reflexivity.
Qed.

Lemma via_remove R s id r : PreOrder R → records_via R s (remove_record id r s).
Proof. intros HR i r0. simpl. intros [_ ?]%lookup_delete_Some. eexists. split; [done|reflexivity]. Qed.

Lemma via_drop R s k : PreOrder R → records_via R s (drop_binding k s).
Proof. intros HR i r0 Hi. exists r0. split; [done|reflexivity]. Qed.

Lemma via_orphan R s id : PreOrder R → records_via R s (remove_orphan id s).
Proof.
  intros HR i r0. unfold remove_orphan. destruct (st_attachments s !! id).
  - simpl. intros [_ ?]%lookup_delete_Some. eexists. split; [done|reflexivity].
  - intros Hi. exists r0. split; [done|reflexivity].
Qed.

Lemma claims_subset_evolves r m :
  m ⊆ ar_download_claims r → evolves r (set_ar_claims m r).
Proof.
  intros Hm. split; [split; [done|]|done|done].
  intros i c Hi. left. by eapply lookup_weaken.
Qed.

Lemma drop_stale_evolves now r : evolves r (drop_stale_claims now r).
Proof.
  apply claims_subset_evolves. apply map_subseteq_spec. intros i c.
  by intros [? _]%retain_lookup_Some.
Qed.

Lemma publish_evolves r staged : evolves r (set_ar_staging true staged r).
Proof. split; [split; [done|by left]|done|done]. Qed.

Lemma rebind_evolves r v : ar_published r = false → evolves r (set_ar_eligible v r).
Proof. intros Hp. split; [split; [done|by left]|done|by rewrite Hp]. Qed.

Lemma rollback_keeps r p d v : keeps r (set_ar_staging p d (set_ar_eligible v r)).
Proof. split; [done|by left]. Qed.

Lemma revoke_evolves room u r : evolves r (revoke_record room u r).
Proof.
  unfold revoke_record. case_bool_decide; [|done]. split; [split; [done|]|done|].
  - intros i c [? _]%retain_lookup_Some. by left.
  - intros v _ Hv. destruct (decide (v = u)) as [->|Hne]; unfold barred in *; simpl;
      rewrite !elem_of_difference, !elem_of_singleton; naive_solver.
Qed.

Lemma completed_evolves r m u :
  m ⊆ ar_download_claims r →
  evolves r (set_ar_completed ({[u]} ∪ ar_completed_recipient_code_ids r) (set_ar_claims m r)).
Proof.
  intros Hm. split; [split; [done|]|done|].
  - intros i c Hi. left. by eapply lookup_weaken.
  - intros v _ [Hv|Hv]; [left|right]; simpl; set_solver.
Qed.

#[export] Hint Resolve claims_subset_evolves drop_stale_evolves publish_evolves rebind_evolves
  revoke_evolves completed_evolves via_remove via_drop via_orphan evolves_preorder : relay.

(** ** The operations *)

Section ops.
Context {HO : HashOrder} (l : AttachmentLimits).

Lemma retain_via visit keep s :
  (∀ r, same_core r (visit r)) → (∀ r, evolves r (visit r)) → store_ok l s →
  records_via evolves s (retain_records visit keep s).
Proof.
  intros Hc He Hs i r' Hi. rewrite (rt_attachments _ _ _ _ _ _ (retain_records_spec l visit keep Hc s Hs)) in Hi.
  destruct (st_attachments s !! i) as [r|]; [|done]. exists r. split; [done|].
  unfold kept in Hi. case_match; simplify_eq. apply He.
Qed.

Lemma prune_via now s :
  store_ok l s → records_via evolves s (prune_expired_attachments_locked now s).
Proof.
  intros Hs. rewrite (prune_is_retain l) by done.
  apply retain_via; auto using drop_stale_claims_core with relay.
Qed.

Lemma lookup_via now owner chat msg s :
  records_via evolves s (staged_attachment_for_message now owner chat msg s).2.
Proof.
  unfold staged_attachment_for_message. destruct (st_bindings s !! _) as [id|]; [|done].
  set (s1 := match st_attachments s !! id with Some _ => _ | None => s end).
  assert (records_via evolves s s1) as H1.
  { subst s1. destruct (st_attachments s !! id) as [r|] eqn:Hr; [|done].
    case_match; [|done]. eapply via_update; eauto with relay. }
  clearbody s1. transitivity s1; [done|].
  repeat case_match; simpl; eauto with relay; try reflexivity.
  etrans; [|apply via_orphan]; eauto with relay.
Qed.

Lemma publish_via now id owner chat msg s :
  records_via evolves s (publish_staged_attachment_checked now id owner chat msg s).2.
Proof.
  unfold publish_staged_attachment_checked. destruct (st_bindings s !! _) as [id'|]; [|done].
  case_bool_decide; [simpl; eauto with relay|].
  destruct (st_attachments s !! id) as [r|] eqn:Hr; [|simpl; eauto with relay].
  repeat case_match; simpl; eauto with relay; try reflexivity.
  - eapply via_update; eauto with relay.
  - etrans; [|apply via_orphan]; eauto with relay.
Qed.

Lemma rebind_via id recipients s :
  records_via evolves s (rebind_staged_attachment_recipients id recipients s).2.
Proof.
  unfold rebind_staged_attachment_recipients.
  destruct (st_attachments s !! id) as [r|] eqn:Hr; [|done].
  repeat (case_match; simpl; try done). eapply via_update; eauto with relay.
Qed.

Lemma rollback_via rb s : records_via keeps s (rollback_staged_attachment rb s).
Proof.
  unfold rollback_staged_attachment.
  destruct (st_attachments s !! _) as [r|] eqn:Hr; [|done]. case_match; [|done].
  intros i r0. simpl. rewrite lookup_insert_Some.
  intros [[<- <-]|[_ ?]]; eexists; (split; [done|]); [apply rollback_keeps|done].
Qed.

(** Only the record a rollback names is changed. *)
Lemma rollback_elsewhere rb s i :
  sr_attachment_id rb ≠ i →
  st_attachments (rollback_staged_attachment rb s) !! i = st_attachments s !! i.
Proof.
  intros Hne. unfold rollback_staged_attachment. repeat (case_match; try done). simpl.
  by rewrite lookup_insert_ne.
Qed.

Lemma insert_claim_spec now draws who m id m' :
  insert_download_claim now draws who m = Some (id, m') →
  m !! id = None ∧ m' = <[id := mkClaim who now]> m.
Proof.
  unfold insert_download_claim. destruct (List.find _ draws) as [x|] eqn:Hf; [|done].
  intros [= <- <-]. apply List.find_some in Hf as [_ Hf].
  apply negb_true_iff, contains_key_false in Hf. done.
Qed.

Lemma claimed_evolves r m id who now :
  m ⊆ ar_download_claims r → destructive r = true → who ≠ ar_owner_code_id r →
  evolves r (set_ar_claims (<[id := mkClaim who now]> m) r).
Proof.
  intros Hm Hd Ho. split; [split; [done|]|done|done]. intros i c. simpl.
  rewrite lookup_insert_Some. intros [[<- <-]|[_ Hi]]; [by right|left; by eapply lookup_weaken].
Qed.

Lemma retain_subseteq {K V} `{Countable K} (f : K → V → bool) (m : gmap K V) : retain f m ⊆ m.
Proof. apply map_subseteq_spec. by intros i v [? _]%retain_lookup_Some. Qed.

Lemma complete_via now id who claim s :
  records_via evolves s (complete_attachment_download_claim now id who claim s).2.
Proof.
  unfold complete_attachment_download_claim.
  destruct (st_attachments s !! id) as [r|] eqn:Hr; [|done].
  assert (delete claim (ar_download_claims r) ⊆ ar_download_claims r) by apply delete_subseteq.
  repeat (case_match; simpl; try done); eauto with relay; eapply via_update; eauto with relay.
Qed.

Lemma release_via id who claim s :
  records_via evolves s (release_attachment_download_claim id who claim s).2.
Proof.
  unfold release_attachment_download_claim.
  destruct (st_attachments s !! id) as [r|] eqn:Hr; [|done].
  repeat (case_match; simpl; try done). eapply via_update; eauto with relay.
  apply claims_subset_evolves, delete_subseteq.
Qed.

Lemma delete_owned_via id who s : records_via evolves s (delete_owned_attachment id who s).2.
Proof. unfold delete_owned_attachment. repeat (case_match; simpl; try done). eauto with relay. Qed.

Lemma revoke_via room u s : records_via evolves s (revoke_mls_attachment_access room u s).
Proof.
  intros i r'. simpl. rewrite lookup_fmap. intros (r & ? & ->)%fmap_Some. eauto with relay.
Qed.


(** ** A download, granted or refused *)

(** Who may ask for a record: its owner, or an eligible recipient on a platform
    the interoperation policy lets receive from the sender's. *)
Definition may_download (policy : InteropPolicy) (accounts : gmap CodeId Account)
    (who : CodeId) (r : AttachmentRecord) : Prop :=
  who = ar_owner_code_id r ∨
  ∃ a platform, accounts !! who = Some a ∧ ac_client_platform a = Some platform ∧
    who ∈ ar_eligible_recipient_code_ids r ∧
    InteropPolicy.allows policy (ar_sender_platform r) platform = true.

(** The claim a granted download leaves: none on a record that stays, or for
    its owner; otherwise one of the requester's, who has not completed yet. *)
Definition claim_left (who : CodeId) (claim : option Uuid) (r r' : AttachmentRecord) : Prop :=
  match claim with
  | None => r' = r ∧ (destructive r = false ∨ who = ar_owner_code_id r)
  | Some id =>
      destructive r = true ∧ who ≠ ar_owner_code_id r ∧
      (who ∉ ar_completed_recipient_code_ids r) ∧
      (∃ c m, ar_download_claims r' !! id = Some c ∧ dc_recipient_code_id c = who ∧
        r' = set_ar_claims m r)
  end.

Lemma reserve_outcome epoch now0 now1 now2 nows draws policy accounts id who again s x s' :
  reserve_attachment_download_inner epoch now0 now1 now2 nows draws policy accounts id who again s
    = Some (x, s') →
  let p := prune_expired_attachments_locked now0 s in
  records_via evolves p s' ∧
  ∀ v, x = Ok v →
    ∃ r r', st_attachments p !! id = Some r ∧ st_attachments s' !! id = Some r' ∧
      ar_published r = true ∧ none_or_before now1 (ar_expires_at_ms r) = true ∧
      may_download policy accounts who r ∧ rv_blob v = ar_blob r ∧
      claim_left who (rv_claim_id v) r r'.
Proof.
  unfold reserve_attachment_download_inner.
  set (p := prune_expired_attachments_locked now0 s). clearbody p. cbn zeta.
  destruct (st_attachments p !! id) as [r|] eqn:Hr; [|by intros [= <- <-]].
  destruct (ar_published r) eqn:Hp; [|by intros [= <- <-]]. simpl negb. cbv iota.
  destruct (none_or_before _ _) eqn:He; simpl negb; cbv iota.
  2:{ case_bool_decide; intros [= <- <-]; (split; [|done]); eauto with relay. reflexivity. }
  destruct (_ || _) eqn:Ha; simpl negb; cbv iota; [|by intros [= <- <-]].
  assert (may_download policy accounts who r) as Hmay.
  { apply orb_true_iff in Ha as [Ha|Ha]; [left; by apply bool_decide_eq_true in Ha|right].
    destruct (accounts !! who) as [a|]; simpl in Ha; [|done].
    destruct (ac_client_platform a) as [pl|] eqn:Hpl; [|done]. split_bools. eauto 10. }
  clear Ha. destruct (negb (destructive r) || _) eqn:Hd.
  { intros [= <- <-]. split; [done|]. intros v [= <-]. exists r, r. repeat (split; [done|]).
    apply orb_true_iff in Hd as [Hd|Hd]; [left|right]; [by apply negb_true_iff|].
    by apply bool_decide_eq_true in Hd. }
  apply orb_false_iff in Hd as [Hd Ho]. apply negb_false_iff in Hd.
  apply bool_decide_eq_false in Ho.
  set (m := if again then _ else _).
  assert (m ⊆ ar_download_claims r) as Hm.
  { subst m. destruct again; [apply retain_subseteq|done]. }
  clearbody m. set (s1 := set_attachments _ p).
  assert (records_via evolves p s1) as H1 by (eapply via_update; eauto with relay).
  case_bool_decide as Hc; [by intros [= <- <-]|].
  destruct (List.find _ _) as [[ci c]|] eqn:Hf.
  - apply List.find_some in Hf as [Hf Hw]. apply list_elem_of_In, elem_of_hash_iter in Hf.
    apply bool_decide_eq_true in Hw. destruct again; simpl; intros [= <- <-]; [|done].
    split; [done|]. intros v [= <-]. exists r, (set_ar_claims m r). simpl.
    rewrite lookup_insert_eq. eauto 20.
  - destruct (insert_download_claim _ _ _ _) as [[ci m']|] eqn:Hi; [|done].
    apply insert_claim_spec in Hi as [Hn ->]. intros [= <- <-]. split.
    + subst s1. unfold set_attachments. simpl. rewrite insert_insert_eq.
      apply (via_update evolves p id r); eauto using claimed_evolves with relay.
    + intros v [= <-]. eexists r, _. simpl. rewrite lookup_insert_eq.
      repeat (split; [done|]). eexists _, _. simpl. rewrite lookup_insert_eq. done.
Qed.
End ops.

(** ** Looking for a staged record *)

Definition passed (T : Z → Prop) (deadline : option Z) : Prop :=
  ∃ d now, deadline = Some d ∧ T now ∧ d ≤ now.

(** The time of the record is over at the readings [T] of the clock: a published
    one has expired and nobody downloads it, a staged one may no longer be
    published. *)
Definition over (T : Z → Prop) (r : AttachmentRecord) : Prop :=
  if ar_published r then
    passed T (ar_expires_at_ms r) ∧
    ∀ i c, ar_download_claims r !! i = Some c → aged T ATTACHMENT_CLAIM_TTL_MS (dc_created_at_ms c)
  else
    ar_staged_expires_at_ms r = None ∨ passed T (ar_staged_expires_at_ms r) ∨
    passed T (ar_expires_at_ms r).

(** The record, less claims that are too old. *)
Record fewer_claims (T : Z → Prop) (r r' : AttachmentRecord) : Prop := {
  fc_record : r' = set_ar_claims (ar_download_claims r') r;
  fc_claims : ar_download_claims r' ⊆ ar_download_claims r;
  fc_lost i c : ar_download_claims r !! i = Some c → ar_download_claims r' !! i = None →
    aged T ATTACHMENT_CLAIM_TTL_MS (dc_created_at_ms c)
}.

(** What the clock alone may do to the registry.  A record that stays loses old
    claims only; one that goes is over, or a binding of another message named it;
    a binding goes with its record, or because it is not its own. *)
Record swept (T : Z → Prop) (s s' : AttachmentStore) : Prop := mkSwept {
  sw_record i r' :
    st_attachments s' !! i = Some r' → ∃ r, st_attachments s !! i = Some r ∧ fewer_claims T r r';
  sw_gone i r :
    st_attachments s !! i = Some r → st_attachments s' !! i = None →
    over T r ∨ ∃ k, st_bindings s !! k = Some i ∧ matches_record k r = false;
  sw_bindings : st_bindings s' ⊆ st_bindings s;
  sw_unbound k i r' :
    st_bindings s !! k = Some i → st_bindings s' !! k = None →
    st_attachments s' !! i = Some r' → matches_record k r' = false
}.

Section swept.
Context (T : Z → Prop).

#[export] Instance fewer_claims_preorder : PreOrder (fewer_claims T).
Proof.
  split.
  - intros r. split; [by destruct r|done|congruence].
  - intros r1 r2 r3 [E1 C1 L1] [E2 C2 L2]. split; [rewrite E2; by rewrite E1|by etrans|].
    intros i c H1 H3. destruct (ar_download_claims r2 !! i) as [c'|] eqn:H2; [|by eapply L1].
    assert (c' = c) as -> by (pose proof (lookup_weaken _ _ _ _ H2 C1); congruence). by eapply L2.
Qed.
Lemma fewer_matches r r' k : fewer_claims T r r' → matches_record k r' = matches_record k r.
Proof. intros [-> _ _]. done. Qed.
Lemma fewer_over r r' : fewer_claims T r r' → over T r' → over T r.
Proof.
  intros [E C L]. unfold over. rewrite E. simpl. destruct (ar_published r); [|done].
  intros [He Hc]. split; [done|]. intros i c Hi.
  destruct (ar_download_claims r' !! i) as [c'|] eqn:H'; [|by eapply L].
  assert (c' = c) as -> by (pose proof (lookup_weaken _ _ _ _ H' C); congruence). by eapply Hc.
Qed.

#[export] Instance swept_preorder : PreOrder (swept T).
Proof.
  split.
  - intros s. split; [|congruence|done|congruence]. intros i r Hi. by exists r.
  - intros s1 s2 s3 [R1 G1 B1 U1] [R2 G2 B2 U2]. split; [| |by etrans|].
    + intros i r3 (r2 & (r1 & ? & ?)%R1 & ?)%R2. exists r1. split; [done|by etrans].
    + intros i r Hi Hn. destruct (st_attachments s2 !! i) as [r2|] eqn:H2; [|by eapply G1].
      destruct (R1 _ _ H2) as (r' & Hr' & Hf). assert (r' = r) as -> by congruence.
      destruct (G2 _ _ H2 Hn) as [Ho|(k & Hk & Hm)]; [left; by eapply fewer_over|right].
      exists k. split; [by eapply lookup_weaken|]. by rewrite <- (fewer_matches r r2).
    + intros k i r3 Hk Hn Hi. destruct (st_bindings s2 !! k) as [i'|] eqn:H2.
      * assert (i' = i) as -> by (pose proof (lookup_weaken _ _ _ _ H2 B1); congruence). by eapply U2.
      * destruct (R2 _ _ Hi) as (r2 & Hr2 & Hf). rewrite (fewer_matches r2 r3) by done. by eapply U1.
Qed.

Lemma swept_claims now s id r :
  T now → st_attachments s !! id = Some r →
  swept T s (set_attachments (<[id := drop_stale_claims now r]> (st_attachments s)) s).
Proof.
  intros HT Hr. split; simpl; [| |done|congruence].
  - intros i r' [[<- <-]|[_ Hi]]%lookup_insert_Some; [|by exists r']. exists r. split; [done|].
    split; [done|apply map_filter_subseteq|]. simpl. unfold retain.
    intros i c Hi [Hn|Hn]%map_lookup_filter_None; [congruence|]. specialize (Hn _ Hi). simpl in Hn.
    exists now. split; [done|]. apply Z.nlt_ge. intros Hlt. apply Hn.
    unfold claim_fresh. by rewrite bool_decide_true.
  - intros i r' Hi [Hn _]%lookup_insert_None. congruence.
Qed.
(** A binding whose record is missing or another's, and then that record too. *)
Lemma swept_unbind s key id :
  st_bindings s !! key = Some id →
  (∀ r, st_attachments s !! id = Some r → matches_record key r = false) →
  swept T s (drop_binding key s) ∧ swept T s (remove_orphan id (drop_binding key s)).
Proof.
  intros Hk Hm. assert (swept T s (drop_binding key s)) as Hd.
  { split; simpl; [|congruence|apply delete_subseteq|]; [by intros i r' ?; exists r'|].
    intros k i r' Hki [<-|?]%lookup_delete_None Hi; [|congruence].
    assert (i = id) as -> by congruence. by apply Hm. }
  split; [done|]. unfold remove_orphan. cbn [st_attachments drop_binding set_bindings].
  destruct (st_attachments s !! id) as [r|] eqn:Hr; [|done].
  split; simpl; [| |apply delete_subseteq|].
  - by intros i r' [_ ?]%lookup_delete_Some; exists r'.
  - intros i r' Hi [<-|?]%lookup_delete_None; [|congruence]. right. exists key.
    split; [done|]. apply Hm. congruence.
  - intros k i r' Hki [<-|?]%lookup_delete_None; [|congruence].
    assert (i = id) as -> by congruence. by rewrite lookup_delete_eq.
Qed.
Lemma swept_remove s id r :
  st_attachments s !! id = Some r → over T r → swept T s (remove_record id r s).
Proof.
  intros Hr Ho. unfold remove_record, release_record, remove_attachment_binding_if_matches.
  split; simpl.
  - by intros i r' [_ ?]%lookup_delete_Some; exists r'.
  - intros i r' Hi [<-|?]%lookup_delete_None; [|congruence]. left. by assert (r' = r) as -> by congruence.
  - case_bool_decide; [apply delete_subseteq|done].
  - intros k i r' Hk Hn. case_bool_decide as Hb; [|congruence].
    apply lookup_delete_None in Hn as [<-|?]; [|congruence].
    assert (i = id) as -> by congruence. by rewrite lookup_delete_eq.
Qed.

Lemma not_before now deadline :
  T now → none_or_before now deadline = false → passed T deadline.
Proof.
  intros HT H. destruct deadline as [d|]; [|done]. simpl in H. split_bools. exists d, now.
  split_and!; [done..|lia].
Qed.
Lemma staged_action_over now key r :
  T now → staged_action now key (Some r) = ActExpired → over T r.
Proof.
  intros HT. unfold staged_action, over. destruct (negb _); [done|]. destruct (ar_published r).
  - destruct (_ && _) eqn:H; [|done]. intros _. split_bools.
    split; [by apply (not_before now)|]. intros i c Hi.
    match goal with H : ar_download_claims r = ∅ |- _ => rewrite H in Hi end. done.
  - destruct (_ || _) eqn:H; [|done]. intros _. apply orb_true_iff in H as [H|H]; split_bools.
    + destruct (ar_staged_expires_at_ms r) as [d|] eqn:Hd; [|by left]. right. left.
      by apply (not_before now).
    + right. right. by apply (not_before now).
Qed.

Lemma lookup_swept {HO : HashOrder} now owner chat msg s :
  T now → swept T s (staged_attachment_for_message now owner chat msg s).2.
Proof.
  intros HT. unfold staged_attachment_for_message. set (key := mkBindingKey owner chat msg).
  destruct (st_bindings s !! key) as [id|] eqn:Hk; [|done].
  set (s1 := match st_attachments s !! id with Some _ => _ | None => s end).
  assert (swept T s s1 ∧ st_bindings s1 !! key = Some id) as [H1 Hk1].
  { subst s1. destruct (st_attachments s !! id) as [r|] eqn:Hr; [|done].
    destruct (matches_record key r); [|done]. split; [by apply swept_claims|done]. }
  clearbody s1. transitivity s1; [done|].
  destruct (st_attachments s1 !! id) as [r|] eqn:Hr.
  2: { apply (swept_unbind s1 key id); [done|congruence]. }
  destruct (staged_action now key (Some r)) eqn:Ha; cbn [snd]; try reflexivity.
  - by unfold staged_action in Ha; repeat case_match.
  - assert (matches_record key r = false) as Hm.
    { unfold staged_action in Ha. destruct (matches_record key r); [|done]. by repeat case_match. }
    destruct (swept_unbind s1 key id) as [Hd Ho]; [done|congruence|]. by destruct (negb _).
  - apply swept_remove; [done|by eapply staged_action_over].
Qed.
End swept.

Lemma passed_mono (T T' : Z → Prop) d : (∀ now, T now → T' now) → passed T d → passed T' d.
Proof. intros HT (x & now & ? & ? & ?). exists x, now. auto. Qed.
Lemma over_mono (T T' : Z → Prop) r : (∀ now, T now → T' now) → over T r → over T' r.
Proof.
  intros HT. unfold over. destruct (ar_published r).
  - intros [? H]. split; eauto using passed_mono, aged_mono.
  - intros [?|[?|?]]; eauto using passed_mono.
Qed.
Lemma swept_mono (T T' : Z → Prop) s s' : (∀ now, T now → T' now) → swept T s s' → swept T' s s'.
Proof.
  intros HT [R G B U]. split; try done.
  - intros i r' (r & ? & [? ? ?])%R. exists r. split; [done|]. split; eauto using aged_mono.
  - intros i r Hi Hn. destruct (G _ _ Hi Hn) as [?|?]; eauto using over_mono.
Qed.

(** Afterwards the binding of the message names a record that may be published,
    the one found, or there is none. *)
Lemma lookup_found {HO : HashOrder} now owner chat msg s found s' :
  staged_attachment_for_message now owner chat msg s = (Ok found, s') →
  st_bindings s' !! mkBindingKey owner chat msg = found.
Proof.
  unfold staged_attachment_for_message. set (key := mkBindingKey owner chat msg).
  destruct (st_bindings s !! key) as [id|] eqn:Hk; [|by intros [= <- <-]].
  set (s1 := match st_attachments s !! id with Some _ => _ | None => s end).
  assert (st_bindings s1 !! key = Some id) as Hk1.
  { subst s1. destruct (st_attachments s !! id) as [r|]; [|done]. by destruct (matches_record key r). }
  clearbody s1. destruct (st_attachments s1 !! id) as [r|] eqn:Hr.
  2: { intros [= <- <-]. apply lookup_delete_eq. }
  destruct (staged_action now key (Some r)) eqn:Ha; intros [= <- <-]; simpl; try apply lookup_delete_eq; try done.
  - destruct (negb _); [|apply lookup_delete_eq]. unfold remove_orphan. simpl. rewrite Hr. apply lookup_delete_eq.
  - assert (record_key r = key) as E.
    { unfold staged_action in Ha. destruct (matches_record key r) eqn:Hm; [|done].
      unfold matches_record in Hm. split_bools. unfold record_key, key in *. simpl in *. congruence. }
    unfold remove_attachment_binding_if_matches. rewrite E, bool_decide_true by done. apply lookup_delete_eq.
Qed.
