(* ===== verification/AttachmentTheorems.v ===== *)
(** * The attachment registry: theorems *)

From S2P Require Import Prelude TransportWire RoomModel RoomValidation RoomAuthority RoomLifecycle.
From S2P Require Import Attachment AttachmentBlob AttachmentAccess AttachmentStore.
From S2P Require Import AttachmentStoreFacts AttachmentUpload AttachmentEvolution.

(** ** Every sequence of operations *)

Section runs.
Context {HO : HashOrder}.

(** What a caller may want to know of an operation: the record an upload made,
    the record a rollback touched. *)
Inductive StepLabel : Type := LUpload (id : Uuid) | LRollback (id : Uuid) | LOther.

(** One operation on the relay, with any arguments and any answer.  The catalog
    may change in between in any way; an identifier drawn for a new record is
    unused. *)
Inductive attachment_step (l : AttachmentLimits)
    : StepLabel → AttachmentStore → AttachmentStore → Prop :=
| StepUpload clock epoch session code upload ciphertext id c e s x c' e' s' :
    st_attachments s !! id = None →
    commit_upload clock l epoch session code upload ciphertext id (mkUploadState c s e)
      = (x, mkUploadState c' s' e') →
    attachment_step l (LUpload id) s s'
| StepPrune now s : attachment_step l LOther s (prune_expired_attachments_locked now s)
| StepRemoveChat chat s : attachment_step l LOther s (remove_chat_attachments chat s)
| StepRevoke room code s : attachment_step l LOther s (revoke_mls_attachment_access room code s)
| StepWipe s : attachment_step l LOther s (wipe_attachments s)
| StepLookup now owner chat msg s :
    attachment_step l LOther s (staged_attachment_for_message now owner chat msg s).2
| StepPublish now id owner chat msg s :
    attachment_step l LOther s (publish_staged_attachment_checked now id owner chat msg s).2
| StepRebind id recipients s :
    attachment_step l LOther s (rebind_staged_attachment_recipients id recipients s).2
| StepRollback rollback s :
    attachment_step l (LRollback (sr_attachment_id rollback)) s
      (rollback_staged_attachment rollback s)
| StepReserve epoch now0 now1 now2 nows draws policy accounts id who again s x s' :
    reserve_attachment_download_inner epoch now0 now1 now2 nows draws policy accounts id who again s
      = Some (x, s') → attachment_step l LOther s s'
| StepComplete now id who claim s :
    attachment_step l LOther s (complete_attachment_download_claim now id who claim s).2
| StepRelease id who claim s :
    attachment_step l LOther s (release_attachment_download_claim id who claim s).2
| StepDelete id who s : attachment_step l LOther s (delete_owned_attachment id who s).2.

Definition some_step (l : AttachmentLimits) (s s' : AttachmentStore) : Prop :=
  ∃ label, attachment_step l label s s'.

Definition attachments_reachable (l : AttachmentLimits) (s : AttachmentStore) : Prop :=
  rtc (some_step l) store_new s.

Lemma commit_upload_ok l clock epoch session code upload ciphertext id st :
  limits_sane l → store_ok l (us_store st) →
  st_attachments (us_store st) !! id = None →
  store_ok l (us_store (commit_upload clock l epoch session code upload ciphertext id st).2).
Proof.
  intros Hl Hs Hid. unfold commit_upload.
  repeat (case_match; try done); simplify_eq; simpl in *;
    match goal with
    | H : stage_record _ _ ?r ?p = _ |- _ =>
        pose proof (stage_record_ok l id r p Hl (prune_ok l _ _ Hs) (prune_keeps_absent l _ _ _ Hs Hid)) as Hst;
        rewrite H in Hst; exact Hst
    end.
Qed.

Lemma attachment_step_ok l label s s' :
  limits_sane l → store_ok l s → attachment_step l label s s' → store_ok l s'.
Proof.
  intros Hl Hs Hstep. destruct Hstep as
    [clock epoch session code upload ct id c e s x c' e' s' Hid E| | | | | | | | |? ? ? ? ? ? ? ? ? ? ? ? ? ? E| | |].
  - pose proof (commit_upload_ok l clock epoch session code upload ct id (mkUploadState c s e)
      Hl Hs Hid) as H. by rewrite E in H.
  - by apply prune_ok.
  - by apply retain_records_spec.
  - apply fmap_ok; [apply revoke_core|done].
  - by apply store_new_ok.
  - by apply staged_attachment_ok.
  - by apply publish_ok.
  - by apply rebind_ok.
  - by apply rollback_store_ok.
  - by eapply reserve_ok.
  - by apply complete_ok.
  - by apply release_ok.
  - by apply delete_owned_ok.
Qed.

(** A blob the relay checked when it took it. *)
Definition checked_blob (r : AttachmentRecord) : Prop :=
  ∃ media_type, valid_encrypted_attachment_body media_type (ar_blob r) = true.

(** An accepted upload adds one record to the swept store, anything else none. *)
Lemma commit_upload_store l clock epoch session code upload ciphertext id st x st' :
  commit_upload clock l epoch session code upload ciphertext id st = (x, st') →
  us_store st' = us_store st ∨
  ∃ r, us_store st' =
    (stage_record l id r (prune_expired_attachments_locked (uc_prune clock) (us_store st))).2 ∧
    ar_download_claims r = ∅ ∧ checked_blob r.
Proof.
  unfold commit_upload. destruct (valid_encrypted_attachment_body _ _) eqn:Hb;
    [simpl negb; cbv iota|intros [= <- <-]; by left].
  repeat (case_match; try (intros [= <- <-]; by left)).
  all: intros [= <- <-]; right; eexists; simpl;
    match goal with H : stage_record _ _ _ _ = _ |- _ => rewrite H end;
    (split; [done|]); split; [done|]; eexists; exact Hb.
Qed.

Lemma stage_record_records l id r s i r' :
  st_attachments (stage_record l id r s).2 !! i = Some r' →
  (i = id ∧ r' = r) ∨ st_attachments s !! i = Some r'.
Proof.
  unfold stage_record. repeat (case_match; simpl; try by right).
  all: intros [[<- <-]|[_ ?]]%lookup_insert_Some; auto.
Qed.

(** The records of a store reached by changes alone. *)
Ltac via :=
  right; match goal with
  | Hvia : ∀ s, records_via _ _ s → _, Hi : _ !! _ = Some _ |- _ =>
      apply (Hvia _) in Hi; [exact Hi|]
  end.

(** Where the records after a step come from. *)
Lemma step_records l label s s' i r' :
  store_ok l s → attachment_step l label s s' → st_attachments s' !! i = Some r' →
  (label = LUpload i ∧ ar_download_claims r' = ∅ ∧ checked_blob r') ∨
  ∃ r, st_attachments s !! i = Some r ∧ keeps r r' ∧ (label ≠ LRollback i → evolves r r').
Proof.
  intros Hs Hstep Hi.
  assert (∀ s', records_via evolves s s' → st_attachments s' !! i = Some r' →
    ∃ r, st_attachments s !! i = Some r ∧ keeps r r' ∧ (label ≠ LRollback i → evolves r r')) as Hvia.
  { intros s1 H1 (r & ? & [])%H1. exists r. split; [done|]. by split. }
  destruct Hstep as
    [clock epoch session code upload ct id c e s x c' e' s' Hid E| | | | | | |
    |rb s|? ? ? ? ? ? ? ? ? ? ? ? ? ? E| | |];
    [|via|via|via|via|via|via|via| |via|via|via|via].
  - apply commit_upload_store in E as [E|(r & E & Hr & Hb)]; simpl in E; subst s'.
    { right. by eapply Hvia. }
    apply stage_record_records in Hi as [[-> ->]|Hi]; [by left|right].
    eapply Hvia, Hi. by eapply prune_via.
  - by eapply prune_via.
  - by eapply (retain_via l id).
  - apply revoke_via.
  - done.
  - apply lookup_via.
  - apply publish_via.
  - apply rebind_via.
  - right. destruct (decide (sr_attachment_id rb = i)) as [<-|Hne].
    + apply rollback_via in Hi as (r & ? & ?). by exists r.
    + rewrite rollback_elsewhere in Hi by done. by exists r'.
  - apply reserve_outcome in E as [E _]. etrans; [by eapply prune_via|exact E].
  - apply complete_via.
  - apply release_via.
  - apply delete_owned_via.
Qed.

(** Claims are held on destructive attachments only, and never by the owner. *)
Definition claims_sound (s : AttachmentStore) : Prop :=
  ∀ i r j c, st_attachments s !! i = Some r → ar_download_claims r !! j = Some c →
    destructive r = true ∧ dc_recipient_code_id c ≠ ar_owner_code_id r.

Lemma step_claims l label s s' :
  store_ok l s → attachment_step l label s s' → claims_sound s → claims_sound s'.
Proof.
  intros Hs Hstep Hc i r' j c Hi Hj.
  destruct (step_records _ _ _ _ _ _ Hs Hstep Hi) as [(_ & Hr & _)|(r & Hr & [([Hk _] & Hd & _) Hjs] & _)].
  { by rewrite Hr, lookup_empty in Hj. }
  assert (ar_owner_code_id r' = ar_owner_code_id r) as -> by (by injection Hk).
  rewrite Hd. destruct (Hjs _ _ Hj) as [Hj'|?]; [by eapply Hc|done].
Qed.

Definition blobs_checked (s : AttachmentStore) : Prop :=
  ∀ i r, st_attachments s !! i = Some r → checked_blob r.

Lemma step_blobs l label s s' :
  store_ok l s → attachment_step l label s s' → blobs_checked s → blobs_checked s'.
Proof.
  intros Hs Hstep Hc i r' Hi.
  destruct (step_records _ _ _ _ _ _ Hs Hstep Hi) as [(_ & _ & Hr)|(r & Hr & [([_ Hb] & _) _] & _)];
    [done|]. destruct (Hc _ _ Hr) as [m Hm]. exists m. by rewrite Hb.
Qed.

Lemma attachments_reachable_ok l s :
  limits_sane l → attachments_reachable l s → store_ok l s ∧ claims_sound s ∧ blobs_checked s.
Proof.
  intros Hl Hr. unfold attachments_reachable in Hr.
  refine (rtc_ind_r (R := some_step l)
    (λ s, store_ok l s ∧ claims_sound s ∧ blobs_checked s) store_new _ _ s Hr).
  { split; [by apply store_new_ok|]. split.
    - intros i r j c Hi. simplify_map_eq.
    - intros i r Hi. simplify_map_eq. }
  intros y z _ [label Hstep] (Hy & Hc & Hb).
  split_and!; [by eapply attachment_step_ok|by eapply step_claims|by eapply step_blobs].
Qed.

(** ** What a run guarantees *)

(** C29: whatever the relay did since it started - uploads, publications,
    rollbacks, downloads, sweeps, room deletions and revocations, in any order -
    every binding names a live record of exactly its message, the bytes charged
    to an account are the bytes of the records it owns, the total and
    per-account limits on bytes and records hold, and download claims exist only
    on destructive attachments and never for their owner. *)
Theorem attachments_invariant l s :
  limits_sane l → attachments_reachable l s →
  (∀ k id, st_bindings s !! k = Some id →
     ∃ r, st_attachments s !! id = Some r ∧ record_key r = k) ∧
  (∀ c, default 0 (st_usage s !! c) = map_sum (owned_len c) (st_attachments s)) ∧
  limits_ok l (st_attachments s) ∧ claims_sound s.
Proof. intros Hl Hr. by destruct (attachments_reachable_ok l s Hl Hr) as ([] & ? & _). Qed.

(** C31: a download is granted only on a published attachment that has not
    expired, to its owner or to an eligible recipient whose platform may receive
    from the sender's; it hands out exactly the uploaded bytes; and on a
    one-time or delete-after-download attachment a recipient leaves a claim of
    its own and has not completed a download before. *)
Theorem download_authorised l epoch now0 now1 now2 nows draws policy accounts id who again s v s' :
  limits_sane l → attachments_reachable l s →
  reserve_attachment_download_inner epoch now0 now1 now2 nows draws policy accounts id who again s
    = Some (Ok v, s') →
  ∃ r r', st_attachments s !! id = Some r ∧ st_attachments s' !! id = Some r' ∧
    ar_published r = true ∧ none_or_before now1 (ar_expires_at_ms r) = true ∧
    may_download policy accounts who r ∧ rv_blob v = ar_blob r ∧
    match rv_claim_id v with
    | None => destructive r = false ∨ who = ar_owner_code_id r
    | Some claim =>
        destructive r = true ∧ who ≠ ar_owner_code_id r ∧
        (who ∉ ar_completed_recipient_code_ids r) ∧
        dc_recipient_code_id <$> ar_download_claims r' !! claim = Some who
    end.
Proof.
  intros Hl Hr E. destruct (attachments_reachable_ok l s Hl Hr) as [Hs _].
  apply reserve_outcome in E as [_ E]. destruct (E v eq_refl) as (r1 & r' & H1 & H' & Hp & He & Hm & Hb & Hc).
  rewrite (prune_lookup l) in H1 by done. destruct (st_attachments s !! id) as [r|]; [|done].
  simpl in H1. unfold kept in H1. case_match; [|done]. injection H1 as <-.
  exists r, r'. repeat (split; [done|]). unfold claim_left in Hc.
  destruct (rv_claim_id v) as [c|]; [|by destruct Hc].
  destruct Hc as (? & ? & ? & c0 & m & Hc & <- & _). rewrite Hc. done.
Qed.

(** ** Destructive downloads *)

(** A step that neither draws the identifier again nor takes its publication
    back. *)
Definition leaves_alone (id : Uuid) (label : StepLabel) : Prop :=
  label ≠ LUpload id ∧ label ≠ LRollback id.

Definition step_leaving (l : AttachmentLimits) (id : Uuid) (s s' : AttachmentStore) : Prop :=
  ∃ label, leaves_alone id label ∧ attachment_step l label s s'.

(** What is left of a record for an account that completed its download. *)
Definition spent (u : CodeId) (id : Uuid) (s : AttachmentStore) : Prop :=
  ∀ r, st_attachments s !! id = Some r →
    ar_published r = true ∧ destructive r = true ∧ u ≠ ar_owner_code_id r ∧ barred u r.

Lemma evolves_spent u r r' :
  evolves r r' →
  ar_published r = true ∧ destructive r = true ∧ u ≠ ar_owner_code_id r ∧ barred u r →
  ar_published r' = true ∧ destructive r' = true ∧ u ≠ ar_owner_code_id r' ∧ barred u r'.
Proof.
  intros [[([Hk _] & Hd & _) _] Hp Hb] (? & ? & ? & ?). rewrite Hd.
  assert (ar_owner_code_id r' = ar_owner_code_id r) as -> by (by injection Hk).
  auto 6.
Qed.

Lemma spent_run l u id s s' :
  limits_sane l → store_ok l s → spent u id s → rtc (step_leaving l id) s s' →
  store_ok l s' ∧ spent u id s'.
Proof.
  intros Hl Hs Hu Hrun. induction Hrun as [|s s1 s2 [label [[Hn1 Hn2] Hstep]] _ IH]; [done|].
  apply IH; [by eapply attachment_step_ok|]. intros r' Hr'.
  destruct (step_records _ _ _ _ _ _ Hs Hstep Hr') as [(? & _)|(r & Hr & _ & He)]; [done|].
  eapply evolves_spent; eauto.
Qed.

Lemma complete_spends now id who claim s s' :
  claims_sound s →
  (∀ r, st_attachments s !! id = Some r → ar_published r = true) →
  complete_attachment_download_claim now id who claim s = (Ok tt, s') → spent who id s'.
Proof.
  intros Hc Hp. unfold complete_attachment_download_claim.
  destruct (st_attachments s !! id) as [r|] eqn:Hr; [|done].
  destruct (ar_download_claims r !! claim) as [c|] eqn:Hcl; [|done].
  case_bool_decide as Hw; [done|]. subst who.
  destruct (Hc _ _ _ _ Hr Hcl) as [Hd Ho]. specialize (Hp _ eq_refl).
  case_match; [done|]. case_bool_decide; intros [= <-] r1; simpl.
  - by rewrite lookup_delete_eq.
  - rewrite lookup_insert_eq. intros [= <-]. simpl. repeat (split; [done|]). left. simpl. set_solver.
Qed.

(** C30: once a recipient has completed its download of a one-time or
    delete-after-download attachment, no later request of the same account for
    it is granted - whatever happens in between, revocations included, unless
    the relay takes the publication itself back. *)
Theorem destructive_once l now id who claim s s1 s2
    epoch now0 now1 now2 nows draws policy accounts again v s3 :
  limits_sane l → attachments_reachable l s →
  (∀ r, st_attachments s !! id = Some r → ar_published r = true) →
  complete_attachment_download_claim now id who claim s = (Ok tt, s1) →
  rtc (step_leaving l id) s1 s2 →
  reserve_attachment_download_inner epoch now0 now1 now2 nows draws policy accounts id who again s2
    ≠ Some (Ok v, s3).
Proof.
  intros Hl Hr Hp Hc Hrun E. destruct (attachments_reachable_ok l s Hl Hr) as (Hs & Hcl & _).
  pose proof (complete_spends _ _ _ _ _ _ Hcl Hp Hc) as Hsp.
  assert (store_ok l s1) as Hs1.
  { pose proof (complete_ok l now id who claim s Hs) as H. by rewrite Hc in H. }
  destruct (spent_run _ _ _ _ _ Hl Hs1 Hsp Hrun) as [Hs2 Hsp2].
  apply reserve_outcome in E as [_ E].
  destruct (E v eq_refl) as (r1 & r' & H1 & _ & _ & _ & Hm & _ & Hleft).
  apply (prune_via l) in H1 as (r & Hr2 & He); [|done].
  destruct (evolves_spent _ _ _ He (Hsp2 _ Hr2)) as (_ & Hd & Ho & Hb).
  destruct Hm as [?|(a & pl & _ & _ & Hel & _)]; [done|].
  unfold claim_left in Hleft. destruct (rv_claim_id v); [|by destruct Hleft as [_ []]; congruence].
  destruct Hleft as (_ & _ & Hn & _). by destruct Hb.
Qed.

(** ** Publication and its reversal *)

(** Publication and rollback cancel out. *)
Lemma published_undone now id recipients owner chat msg s rb s1 s2 :
  rebind_staged_attachment_recipients id recipients s = (Ok rb, s1) →
  publish_staged_attachment_checked now id owner chat msg s1 = (Ok tt, s2) →
  rollback_staged_attachment rb s2 = s.
Proof.
  unfold rebind_staged_attachment_recipients.
  destruct (st_attachments s !! id) as [r|] eqn:Hr; [|done].
  destruct (ar_published r) eqn:Hp; [done|]. case_match; [done|]. intros [= <- <-].
  set (r1 := if destructive r then set_ar_eligible recipients r else r).
  assert ((if destructive r
    then set_attachments (<[id:=set_ar_eligible recipients r]> (st_attachments s)) s else s)
    = set_attachments (<[id := r1]> (st_attachments s)) s) as ->.
  { subst r1. destruct (destructive r); [done|]. rewrite insert_id by done. by destruct s. }
  assert (ar_published r1 = false) as Hp1 by (subst r1; by destruct (destructive r)).
  assert (record_key r1 = record_key r) as Hk1 by (subst r1; by destruct (destructive r)).
  assert (set_ar_staging false (ar_staged_expires_at_ms r)
    (set_ar_eligible (ar_eligible_recipient_code_ids r) (set_ar_staging true None r1)) = r) as Hback.
  { subst r1. destruct r; simpl in *; subst. by case_match. }
  unfold publish_staged_attachment_checked. simpl.
  destruct (st_bindings s !! _) as [id'|] eqn:Hb; [|done].
  destruct (bool_decide (id' ≠ id)) eqn:Hid; [done|]. apply bool_decide_eq_false, dec_stable in Hid.
  subst id'. rewrite lookup_insert_eq.
  destruct (matches_record _ r1) eqn:Hm; [|done]. rewrite Hp1.
  case_match; [|done]. intros [= <-]. apply matches_record_true in Hm. rewrite Hk1 in Hm.
  unfold rollback_staged_attachment. simpl. rewrite lookup_insert_eq.
  change (matches_record _ (set_ar_staging true None r1)) with (matches_record (record_key r) r1).
  rewrite (proj2 (matches_record_true (record_key r) r1)) by done.
  rewrite Hback. change (mkBindingKey _ _ _) with (record_key r). rewrite Hm.
  rewrite !insert_insert_eq, !insert_id by done. by destruct s.
Qed.

(** When an application is refused after its attachment was bound to the
    application's recipients and published, rolling the attachment back restores
    the registry exactly - the index, the records and the accounting. *)
Theorem staged_rollback_restores now id recipients owner chat msg s rb s1 s2 :
  rebind_staged_attachment_recipients id recipients s = (Ok rb, s1) →
  publish_staged_attachment_checked now id owner chat msg s1 = (Ok tt, s2) →
  rollback_staged_attachment rb s2 = s.
Proof. apply published_undone. Qed.
End runs.
