(* ===== verification/AttachmentActions.v ===== *)
(** * Attachment actions (mirage-server/src/attachment_transport_actions.rs)

    The decisions of the attachment endpoint beside [commit_upload]: admitting
    an upload before its body is read, answering a download, and the three
    commands.  What the session table, the epoch counter and the semaphores
    answer at each question is an argument.  A download is two steps, because
    its locks are released while the blob is hashed: other operations may run
    between the reservation and the answer. *)

From S2P Require Import Prelude RoomModel RoomAuthority RoomLifecycle TransportWire Attachment.
From S2P Require Import AttachmentStream StreamFacts AttachmentAccess AttachmentStore.
From S2P Require Import AttachmentStoreFacts AttachmentBlob AttachmentUpload AttachmentEvolution.
From S2P Require Import AttachmentTheorems.

(** [active_session(..).is_none_or(|current| current.code_id != auth.code_id)],
    negated. *)
Definition same_session (session : option AuthSession) (auth : AuthSession) : bool :=
  match session with
  | Some current => bool_decide (au_code_id current = au_code_id auth)
  | None => false
  end.

Definition encrypted_attachment_limit_bytes (media_type : string) : Z :=
  max_serialized_attachment_bytes media_type.

(** Results of the relay as a whole: the catalog, the registry and the epoch. *)
Abbreviation Step A := (UploadState → result () A * UploadState).

Record UploadAdmission : Type := mkAdmission {
  ad_action : Upload;
  ad_expected_digest : bytes;
  ad_ciphertext_len : Z;
  ad_epoch : Z
}.

Section actions.
Context {HO : HashOrder}.

Definition with_store (s : AttachmentStore) (state : UploadState) : UploadState :=
  mkUploadState (us_catalog state) s (us_epoch state).
Definition with_catalog (c : Catalog) (state : UploadState) : UploadState :=
  mkUploadState c (us_store state) (us_epoch state).

Definition attachment_record_capacity_available (now : Z) (limits : AttachmentLimits)
    (owner_code_id : CodeId) (s : AttachmentStore) : bool * AttachmentStore :=
  let s := prune_expired_attachments_locked now s in
  (attachment_record_capacity_allows (map_len (st_attachments s))
     (current_attachment_records_for_owner owner_code_id (st_attachments s))
     (al_record_limit limits) (al_account_record_limit limits), s).

(** Whether the memory semaphore may be asked for that many permits. *)
Definition memory_request_ok (n : Z) : bool :=
  negb (bool_decide (n = 0) || bool_decide (4294967295 < n)).

(** The permits that were free. *)
Record UploadPermits : Type := mkPermits {
  pm_account : bool; pm_global : bool; pm_memory : bool
}.

Definition admit_upload (clock : UploadClock) (limits : AttachmentLimits)
    (session : option AuthSession) (auth : AuthSession) (action : AttachmentAction)
    (expected_epoch : Z) (permits : UploadPermits) : Step UploadAdmission := λ state,
  if bool_decide (us_epoch state ≠ expected_epoch) then (Err tt, state)
  else if negb (same_session session auth) then (Err tt, state)
  else
    match action with
    | BeginUpload upload =>
        let media_type := media_type_name (up_media_type upload) in
        let chat_id := up_chat_id upload in
        let ciphertext_len := up_ciphertext_len upload in
        if bool_decide (up_cipher_version upload ≠ ATTACHMENT_BLOB_VERSION)
           || negb (valid_chat_id chat_id) || negb (valid_chat_id (up_message_id upload))
        then (Err tt, state)
        else if bool_decide (usize_MAX < ciphertext_len) then (Err tt, state)
        else if bool_decide (ciphertext_len = 0)
                || bool_decide (encrypted_attachment_limit_bytes media_type < ciphertext_len)
        then (Err tt, state)
        else
          match attachment_conversation_access (uc_member clock) (uc_active clock) (uc_info clock)
                  (au_username auth) chat_id media_type (us_catalog state) with
          | (Err _, c) => (Err tt, with_catalog c state)
          | (Ok _, c) =>
              let '(free, s) :=
                attachment_record_capacity_available (uc_prune clock) limits (au_code_id auth)
                  (us_store state) in
              let state := mkUploadState c s (us_epoch state) in
              if negb free then (Err tt, state)
              else
                match ct_accounts c !! au_code_id auth with
                | None => (Err tt, state)
                | Some _ =>
                    if negb (pm_account permits) || negb (pm_global permits)
                       || negb (memory_request_ok ciphertext_len) || negb (pm_memory permits)
                    then (Err tt, state)
                    else
                      (Ok (mkAdmission upload (up_ciphertext_sha256 upload) ciphertext_len
                             expected_epoch), state)
                end
          end
    | _ => (Err tt, state)
    end.

(** ** Downloads *)

(** What is read on the way to a reservation. *)
Record DownloadReadings : Type := mkReadings {
  dr_session : option AuthSession;
  dr_clock : UploadClock;
  dr_epoch : Z;
  dr_session_again : option AuthSession;
  dr_permit : bool;
  dr_now0 : Z; dr_now1 : Z; dr_now2 : Z;
  dr_nows : Uuid → Z;
  dr_draws : list Uuid
}.

(** [begin_download] until its locks are released. *)
Definition begin_download_reserve (q : DownloadReadings) (policy : InteropPolicy)
    (auth : AuthSession) (attachment_id : Uuid) (expected_epoch : Z) (state : UploadState)
    : option (result () AttachmentDownloadReservation * UploadState) :=
  if negb (same_session (dr_session q) auth) then Some (Err tt, state)
  else if bool_decide (us_epoch state ≠ expected_epoch) then Some (Err tt, state)
  else
    match st_attachments (us_store state) !! attachment_id with
    | None => Some (Err tt, state)
    | Some r =>
        if negb (ar_published r) then Some (Err tt, state)
        else
          let '(access, c) :=
            conversation_access (uc_member (dr_clock q)) (uc_active (dr_clock q))
              (uc_info (dr_clock q)) (au_username auth) (ar_chat_id r) (us_catalog state) in
          let state := with_catalog c state in
          match access with
          | None => Some (Err tt, state)
          | Some _ =>
              if bool_decide (dr_epoch q ≠ expected_epoch)
                 || negb (same_session (dr_session_again q) auth)
              then Some (Err tt, state)
              else if negb (dr_permit q) then Some (Err tt, state)
              else
                '(answer, s) ←
                  reserve_attachment_download_inner (us_epoch state) (dr_now0 q) (dr_now1 q)
                    (dr_now2 q) (dr_nows q) (dr_draws q) policy (ct_accounts c) attachment_id
                    (au_code_id auth) true (us_store state);
                Some (match answer with Ok v => Ok v | Err _ => Err tt end, with_store s state)
          end
    end.

(** The rest of it, on the registry as it is by then; [sha256] digests the
    blob. *)
Definition begin_download_answer (sha256 : bytes → bytes) (session : option AuthSession)
    (epoch : Z) (auth : AuthSession) (attachment_id : Uuid) (expected_epoch : Z)
    (reservation : AttachmentDownloadReservation) (s : AttachmentStore)
    : result () AttachmentResult * AttachmentStore :=
  let ciphertext_len := len (rv_blob reservation) in
  match
    data ← attachment_data_frame_count ciphertext_len;
    bucket ← attachment_bucket_frame_count data;
    Ok (data, bucket)
  with
  | Err _ => (Err tt, s)
  | Ok (data, bucket) =>
      if bool_decide (epoch ≠ expected_epoch) || negb (same_session session auth) then
        (Err tt,
         match rv_claim_id reservation with
         | Some claim_id =>
             (release_attachment_download_claim attachment_id (au_code_id auth) claim_id s).2
         | None => s
         end)
      else
        (Ok (DownloadAccepted (rv_claim_id reservation) ciphertext_len
               (sha256 (rv_blob reservation)) data bucket), s)
  end.

(** ** Commands *)

Definition execute_command (now : Z) (session : option AuthSession) (epoch : Z)
    (auth : AuthSession) (action : AttachmentAction) (expected_epoch : Z) (s : AttachmentStore)
    : AttachmentResult * AttachmentStore :=
  if bool_decide (epoch ≠ expected_epoch) || negb (same_session session auth) then (Failure, s)
  else
    let '(status, s) :=
      match action with
      | CompleteDownload attachment_id (Some claim_id) =>
          complete_attachment_download_claim now attachment_id (au_code_id auth) claim_id s
      | ReleaseDownload attachment_id (Some claim_id) =>
          release_attachment_download_claim attachment_id (au_code_id auth) claim_id s
      | DeleteAttachment attachment_id =>
          let '(status, s) := delete_owned_attachment attachment_id (au_code_id auth) s in
          (match status with
           | NO_CONTENT | NOT_FOUND => Ok tt
           | _ => Err status
           end, s)
      | _ => (Err BAD_REQUEST, s)
      end in
    (if is_ok status then Success else Failure, s).
End actions.

(** * Attachment actions: theorems *)

(** A blob the relay took fits one attachment stream. *)
Lemma valid_body_len media_type body :
  valid_encrypted_attachment_body media_type body = true →
  0 < len body ≤ MAX_ATTACHMENT_CIPHERTEXT_BYTES.
Proof.
  unfold valid_encrypted_attachment_body, attachment_plaintext_size_from_blob.
  destruct (attachment_plaintext_limit media_type) as [limit|]; [|done]. cbn [mbind result_bind].
  destruct (_ || _) eqn:Hc; [done|]. intros _. split_bools.
  split; [by apply len_pos|].
  assert (attachment_blob_limit media_type ≤ MAX_ATTACHMENT_CIPHERTEXT_BYTES); [|lia].
  transitivity MAX_ATTACHMENT_BLOB_BYTES; [apply Z.le_min_r|done].
Qed.

Lemma blob_streams media_type body :
  valid_encrypted_attachment_body media_type body = true →
  ∃ data bucket, attachment_data_frame_count (len body) = Ok data ∧
    attachment_bucket_frame_count data = Ok bucket ∧
    stream_layout (len body) = Ok (mkLayout (len body) data bucket).
Proof.
  intros Hb%valid_body_len. destruct (data_frame_count_total _ Hb) as [data Hd].
  pose proof (data_frame_count_Ok (len body) data ltac:(lia) Hd) as (_ & Hr & _).
  destruct (bucket_frame_count_total _ Hr) as [bucket Hk]. exists data, bucket.
  split_and!; [done|done|]. unfold stream_layout. rewrite Hd. simpl. by rewrite Hk.
Qed.

Section downloads.
Context {HO : HashOrder}.

Lemma begin_download_reserve_Ok q policy auth id e st v st' :
  begin_download_reserve q policy auth id e st = Some (Ok v, st') →
  ∃ r access c, us_epoch st = e ∧ same_session (dr_session q) auth = true ∧
    st_attachments (us_store st) !! id = Some r ∧ ar_published r = true ∧
    belongs access (au_username auth) (ar_chat_id r) c ∧
    reserve_attachment_download_inner e (dr_now0 q) (dr_now1 q) (dr_now2 q) (dr_nows q)
      (dr_draws q) policy (ct_accounts c) id (au_code_id auth) true (us_store st)
      = Some (Ok v, us_store st') ∧ us_catalog st' = c.
Proof.
  unfold begin_download_reserve. destruct (same_session (dr_session q) auth) eqn:Hs; [|done].
  simpl negb. cbv iota. destruct (bool_decide (us_epoch st ≠ e)) eqn:He; [done|].
  apply bool_decide_eq_false, dec_stable in He.
  destruct (st_attachments (us_store st) !! id) as [r|] eqn:Hr; [|done].
  destruct (ar_published r) eqn:Hp; [|done]. simpl negb. cbv iota.
  destruct (conversation_access _ _ _ _ _ _) as [[access|] c] eqn:Ha; [|done].
  destruct (_ || _); [done|]. destruct (negb (dr_permit q)); [done|]. simpl.
  destruct (reserve_attachment_download_inner _ _ _ _ _ _ _ _ _ _ _ _) as [[[v'|] s]|] eqn:E;
    [|done..].
  intros [= <- <-]. exists r, access, c. rewrite He in E. simpl.
  split_and!; try done. by eapply conversation_access_belongs.
Qed.

(** The handlers add nothing to the steps of AttachmentTheorems.v. *)
Lemma execute_command_steps l now session epoch auth action e s :
  rtc (some_step l) s (execute_command now session epoch auth action e s).2.
Proof.
  unfold execute_command. destruct (_ || _); [done|].
  destruct action as [|?|? [c|]|? [c|]|id]; try done; simpl.
  - destruct (complete_attachment_download_claim _ _ _ _ _) as [x s'] eqn:E. apply rtc_once.
    exists LOther. change s' with ((x, s').2). rewrite <- E. apply StepComplete.
  - destruct (release_attachment_download_claim _ _ _ _) as [x s'] eqn:E. apply rtc_once.
    exists LOther. change s' with ((x, s').2). rewrite <- E. apply StepRelease.
  - destruct (delete_owned_attachment _ _ _) as [x s'] eqn:E. apply rtc_once.
    exists LOther. change s' with ((x, s').2). rewrite <- E. apply StepDelete.
Qed.

Lemma begin_download_answer_steps sha256 l session epoch auth id e v s :
  rtc (some_step l) s (begin_download_answer sha256 session epoch auth id e v s).2.
Proof.
  unfold begin_download_answer. repeat (case_match; try done). apply rtc_once.
  exists LOther. apply StepRelease.
Qed.

Lemma release_gone id who claim s r c :
  st_attachments (release_attachment_download_claim id who claim s).2 !! id = Some r →
  ar_download_claims r !! claim = Some c → dc_recipient_code_id c ≠ who.
Proof.
  unfold release_attachment_download_claim.
  destruct (st_attachments s !! id) as [r0|] eqn:Hr; simpl; [|by rewrite Hr].
  destruct (ar_download_claims r0 !! claim) as [c0|] eqn:Hc; simpl;
    [|rewrite Hr; intros [= <-]; congruence].
  case_bool_decide; simpl; [rewrite Hr; intros [= <-]; congruence|].
  rewrite lookup_insert_eq. intros [= <-]. simpl. by rewrite lookup_delete_eq.
Qed.

(** A granted download is always answered in full or leaves nothing
    behind.  The requester belongs to the conversation of a published
    attachment; if its session and the epoch still stand when the blob is
    hashed, the answer carries the claim, the exact length and digest and the
    frame counts of the stream that will follow; otherwise the answer is a
    failure and, whatever ran in between, the claim of the reservation is gone. *)
Theorem download_answered sha256 l q policy auth id e st v st' session epoch s :
  limits_sane l → attachments_reachable l (us_store st) →
  begin_download_reserve q policy auth id e st = Some (Ok v, st') →
  (∃ r access, st_attachments (us_store st) !! id = Some r ∧ ar_published r = true ∧
     belongs access (au_username auth) (ar_chat_id r) (us_catalog st') ∧ rv_blob v = ar_blob r) ∧
  let answer := begin_download_answer sha256 session epoch auth id e v s in
  if bool_decide (epoch = e) && same_session session auth then
    ∃ data bucket, stream_layout (len (rv_blob v)) = Ok (mkLayout (len (rv_blob v)) data bucket) ∧
      answer = (Ok (DownloadAccepted (rv_claim_id v) (len (rv_blob v)) (sha256 (rv_blob v))
                      data bucket), s)
  else
    answer.1 = Err tt ∧
    ∀ r claim c, rv_claim_id v = Some claim → st_attachments answer.2 !! id = Some r →
      ar_download_claims r !! claim = Some c → dc_recipient_code_id c ≠ au_code_id auth.
Proof.
  intros Hl Hr (r & access & c & He & _ & Hi & Hp & Hb & E & Hc)%begin_download_reserve_Ok.
  destruct (attachments_reachable_ok l _ Hl Hr) as (Hs & _ & Hblobs).
  apply reserve_outcome in E as [_ E]. destruct (E v eq_refl) as (r1 & _ & H1 & _ & _ & _ & _ & Hv & _).
  apply (prune_via l) in H1 as (r2 & H2 & [[([_ Hblob] & _) _] _ _]); [|done].
  assert (r2 = r) as -> by congruence. rewrite Hblob in Hv. subst c. split; [eauto 10|].
  destruct (Hblobs _ _ Hi) as [m Hm]. rewrite <- Hv in Hm.
  destruct (blob_streams _ _ Hm) as (data & bucket & Hd & Hk & Hlay).
  unfold begin_download_answer. rewrite Hd. cbn [mbind result_bind]. rewrite Hk.
  cbn [mbind result_bind]. destruct (bool_decide (epoch = e)) eqn:Hep.
  - apply bool_decide_eq_true in Hep. rewrite (bool_decide_false (epoch ≠ e)) by auto.
    destruct (same_session session auth); simpl; [eauto|]. split; [done|].
    intros r' claim c' ->. apply release_gone.
  - apply bool_decide_eq_false in Hep. rewrite bool_decide_true by done. simpl. split; [done|].
    intros r' claim c' ->. apply release_gone.
Qed.
End downloads.
