(* ===== verification/AttachmentReceipts.v ===== *)
(** * Receipts of the attachment endpoint (mirage-server/src/attachment_transport.rs)

    A request handle names the keys of one exchange, so it must be worked on
    once.  The store keeps a receipt for each handle, first in flight, then with
    the response, and moves it to the spent handles when it is old. *)

From S2P Require Import Prelude TransportWire Attachment.

Module AttachmentReceipts.

Definition ATTACHMENT_ACTION_RECORD_BYTES : Z :=
  4 + 1 + 1 + 32 + 16 + 4 + ATTACHMENT_ACTION_PLAINTEXT_BYTES + 16.
Definition RECEIPT_TTL_MS : Z := 10 * 60 * 1000.
Definition MAX_RECEIPTS : Z := 4096.
Definition MAX_RECEIPT_BYTES : Z := 32 * 1024 * 1024.
Definition MAX_SPENT_HANDLES : Z := 8192.

Record ReceiptKey : Type := mkKey { rk_session_id : bytes; rk_handle : bytes }.

#[export] Instance ReceiptKey_eq_dec : EqDecision ReceiptKey.
Proof. solve_decision. Defined.
#[export] Instance ReceiptKey_countable : Countable ReceiptKey :=
  inj_countable' (λ k, (rk_session_id k, rk_handle k)) (λ x, mkKey x.1 x.2)
    (λ k, match k with mkKey _ _ => eq_refl end).

(** The watch channel of a receipt in flight only wakes waiting requests. *)
Inductive ReceiptState : Type := InFlight | Complete (response : bytes).

Record Receipt : Type := mkReceipt {
  rc_request_digest : bytes;
  rc_generation : Z;
  rc_upload_retry : bool;
  rc_created_at_ms : Z;
  rc_state : ReceiptState
}.

Record AttachmentReceiptStore : Type := mkReceipts {
  entries : gmap ReceiptKey Receipt;
  spent_handles : gset ReceiptKey;
  used_bytes : Z
}.

Inductive Lookup : Type :=
| LMissing | LMismatch | LStale | LInFlight (upload_retry : bool)
| LComplete (response : bytes) (upload_retry : bool) | LSpent | LSaturated.

Inductive Reservation : Type := Owner | Existing | Mismatch | Capacity | Spent | Stale.

Definition new : AttachmentReceiptStore := mkReceipts ∅ ∅ 0.
Definition clear (self : AttachmentReceiptStore) : AttachmentReceiptStore := new.

Definition is_complete (s : ReceiptState) : bool :=
  match s with Complete _ => true | InFlight => false end.
Definition past_ttl (now : Z) (r : Receipt) : bool :=
  bool_decide (RECEIPT_TTL_MS ≤ saturating_sub now (rc_created_at_ms r)).

(** The loop of [prune] over the keys it collected. *)
Fixpoint spend (expired : list ReceiptKey) (self : AttachmentReceiptStore)
    : AttachmentReceiptStore :=
  match expired with
  | [] => self
  | key :: expired =>
      if bool_decide (MAX_SPENT_HANDLES ≤ Z.of_nat (size (spent_handles self))) then self
      else
        spend expired
          match entries self !! key with
          | Some _ =>
              mkReceipts (delete key (entries self)) ({[key]} ∪ spent_handles self)
                (saturating_sub (used_bytes self) ATTACHMENT_ACTION_RECORD_BYTES)
          | None => self
          end
  end.

Section store.
Context {HO : HashOrder}.

Definition prune (now : Z) (self : AttachmentReceiptStore) : AttachmentReceiptStore :=
  spend (fst <$> List.filter (λ kr, past_ttl now kr.2) (hash_iter (entries self))) self.

Definition lookup (key : ReceiptKey) (digest : bytes) (generation now : Z)
    (self : AttachmentReceiptStore) : Lookup * AttachmentReceiptStore :=
  let self := prune now self in
  (if bool_decide (key ∈ spent_handles self) then LSpent
   else
     match entries self !! key with
     | None => LMissing
     | Some receipt =>
         if bool_decide (rc_generation receipt ≠ generation) then LStale
         else if bool_decide (rc_request_digest receipt ≠ digest) then LMismatch
         else if is_complete (rc_state receipt) && past_ttl now receipt then LSaturated
         else
           match rc_state receipt with
           | InFlight => LInFlight (rc_upload_retry receipt)
           | Complete response => LComplete response (rc_upload_retry receipt)
           end
     end, self).

Definition reserve (key : ReceiptKey) (digest : bytes) (generation : Z) (upload_retry : bool)
    (now : Z) (self : AttachmentReceiptStore) : Reservation * AttachmentReceiptStore :=
  let self := prune now self in
  if bool_decide (key ∈ spent_handles self) then (Spent, self)
  else
    match entries self !! key with
    | Some receipt =>
        (if is_complete (rc_state receipt) && past_ttl now receipt then Capacity
         else if bool_decide (rc_request_digest receipt = digest) then Existing
         else Mismatch, self)
    | None =>
        if bool_decide (MAX_SPENT_HANDLES ≤ Z.of_nat (size (spent_handles self)))
        then (Capacity, self)
        else
          match checked_add usize_MAX (used_bytes self) ATTACHMENT_ACTION_RECORD_BYTES with
          | None => (Capacity, self)
          | Some next_bytes =>
              if bool_decide (MAX_RECEIPTS ≤ map_len (entries self))
                 || bool_decide (MAX_RECEIPT_BYTES < next_bytes)
              then (Capacity, self)
              else
                (Owner,
                 mkReceipts
                   (<[key := mkReceipt digest generation upload_retry now InFlight]> (entries self))
                   (spent_handles self) next_bytes)
          end
    end.

Definition complete (key : ReceiptKey) (digest : bytes) (generation : Z) (response : bytes)
    (now : Z) (self : AttachmentReceiptStore) : AttachmentReceiptStore :=
  let self := prune now self in
  match entries self !! key with
  | None => self
  | Some receipt =>
      if bool_decide (rc_request_digest receipt ≠ digest)
         || bool_decide (rc_generation receipt ≠ generation)
         || bool_decide (len response ≠ ATTACHMENT_ACTION_RECORD_BYTES)
      then self
      else
        mkReceipts
          (<[key := mkReceipt (rc_request_digest receipt) (rc_generation receipt)
                      (rc_upload_retry receipt) now (Complete response)]> (entries self))
          (spent_handles self) (used_bytes self)
  end.

(** ** Sequences of calls *)

Inductive call : Type :=
| CLookup (key : ReceiptKey) (digest : bytes) (generation now : Z)
| CReserve (key : ReceiptKey) (digest : bytes) (generation : Z) (upload_retry : bool) (now : Z)
| CComplete (key : ReceiptKey) (digest : bytes) (generation : Z) (response : bytes) (now : Z).

Definition perform (self : AttachmentReceiptStore) (c : call) : AttachmentReceiptStore :=
  match c with
  | CLookup k d g now => (lookup k d g now self).2
  | CReserve k d g u now => (reserve k d g u now self).2
  | CComplete k d g r now => complete k d g r now self
  end.
End store.

(** ** Invariant *)

Record receipts_ok (self : AttachmentReceiptStore) : Prop := {
  ro_bytes : used_bytes self = map_len (entries self) * ATTACHMENT_ACTION_RECORD_BYTES;
  ro_entries : map_len (entries self) ≤ MAX_RECEIPTS;
  ro_spent : Z.of_nat (size (spent_handles self)) ≤ MAX_SPENT_HANDLES
}.

(** A handle the store knows, in flight, answered or spent. *)
Definition known (key : ReceiptKey) (self : AttachmentReceiptStore) : Prop :=
  is_Some (entries self !! key) ∨ key ∈ spent_handles self.

Section facts.
Context {HO : HashOrder}.

Lemma spend_spec expired self :
  receipts_ok self →
  receipts_ok (spend expired self) ∧ (∀ key, known key (spend expired self) ↔ known key self) ∧
  entries (spend expired self) ⊆ entries self.
Proof.
  revert self. induction expired as [|k ks IH]; intros self Hok; [by simpl|]. simpl.
  case_bool_decide as Hfull; [by simpl|].
  destruct (entries self !! k) as [r|] eqn:Hk; [|by apply IH].
  destruct Hok as [Hb He Hs].
  assert (map_len (delete k (entries self)) = map_len (entries self) - 1) as Hlen.
  { rewrite map_len_delete, (proj2 (contains_key_true _ _)) by (by eexists). lia. }
  set (self' := mkReceipts _ _ _).
  assert (receipts_ok self') as Hok'.
  { split; simpl.
    - rewrite Hlen, Hb. unfold saturating_sub.
      pose proof (map_len_nonneg (delete k (entries self))).
      change ATTACHMENT_ACTION_RECORD_BYTES with 4170. lia.
    - lia.
    - destruct (decide (k ∈ spent_handles self)).
      + replace ({[k]} ∪ spent_handles self) with (spent_handles self) by set_solver. lia.
      + rewrite size_union, size_singleton by set_solver. lia. }
  destruct (IH self' Hok') as (H1 & H2 & H3). split_and!; [done| |].
  - intros key. rewrite H2. unfold known. simpl. destruct (decide (key = k)) as [->|Hne].
    + rewrite Hk. split; [eauto|]. intros _. right. set_solver.
    + rewrite lookup_delete_ne by done. set_solver.
  - etrans; [exact H3|]. apply delete_subseteq.
Qed.

Lemma prune_spec now self :
  receipts_ok self →
  receipts_ok (prune now self) ∧ (∀ key, known key (prune now self) ↔ known key self) ∧
  entries (prune now self) ⊆ entries self.
Proof. apply spend_spec. Qed.

Lemma perform_spec self c :
  receipts_ok self →
  receipts_ok (perform self c) ∧ (∀ key, known key self → known key (perform self c)).
Proof.
  intros Hok. destruct c as [k d g now|k d g u now|k d g r now]; simpl;
    destruct (prune_spec now self Hok) as (Hp & Hk & _).
  - split; [done|]. intros key. by rewrite Hk.
  - unfold reserve. set (p := prune now self) in *. clearbody p.
    case_bool_decide; [split; [done|intros key; by rewrite Hk]|].
    destruct (entries p !! k) eqn:He; [split; [done|intros key; by rewrite Hk]|].
    repeat (case_match; [split; [done|intros key; by rewrite Hk]|]).
    case_match eqn:Ha; [|split; [done|intros key; by rewrite Hk]].
    apply checked_add_Some in Ha as [_ ->].
    case_match eqn:Hc; simpl; [split; [done|intros key; by rewrite Hk]|].
    split_bools. destruct Hp as [Hb Hn Hs]. split.
    + assert (map_len (<[k:=mkReceipt d g u now InFlight]> (entries p)) = map_len (entries p) + 1)
        as Hl by (by rewrite map_len_insert, (proj2 (contains_key_false _ _))).
      split; simpl; [|lia|done]. rewrite Hl, Hb. lia.
    + intros key. rewrite <- Hk. intros [[r Hr]|Hr]; [left|by right]. simpl.
      destruct (decide (key = k)) as [->|]; [by rewrite lookup_insert_eq|].
      rewrite lookup_insert_ne by done. by exists r.
  - unfold complete. set (p := prune now self) in *. clearbody p.
    destruct (entries p !! k) as [rc|] eqn:He; [|split; [done|intros key; by rewrite Hk]].
    case_match; [split; [done|intros key; by rewrite Hk]|]. destruct Hp as [Hb Hn Hs].
    assert (∀ v, map_len (<[k:=v]> (entries p)) = map_len (entries p)) as Hl.
    { intros v. rewrite map_len_insert, (proj2 (contains_key_true _ _)) by (by eexists). lia. }
    split; [split; simpl; rewrite ?Hl; done|]. intros key. rewrite <- Hk.
    intros [[x Hx]|Hx]; [left|by right]. simpl.
    destruct (decide (key = k)) as [->|]; [by rewrite lookup_insert_eq|].
    rewrite lookup_insert_ne by done. by exists x.
Qed.

Lemma run_spec cs self :
  receipts_ok self →
  receipts_ok (foldl perform self cs) ∧
  (∀ key, known key self → known key (foldl perform self cs)).
Proof.
  revert self. induction cs as [|c cs IH]; intros self Hok; [done|]. simpl.
  destruct (perform_spec self c Hok) as [H1 H2]. destruct (IH _ H1) as [H3 H4]. auto.
Qed.

Lemma reserve_Owner k d g u now self :
  receipts_ok self → (reserve k d g u now self).1 = Owner → ¬ known k self.
Proof.
  intros Hok. destruct (prune_spec now self Hok) as (_ & Hk & _). unfold reserve. rewrite <- Hk.
  set (p := prune now self). clearbody p. case_bool_decide as Hs; [done|].
  destruct (entries p !! k) as [r|] eqn:He.
  - simpl. repeat case_match; done.
  - intros _ [[r Hr]|Hr]; congruence.
Qed.

Lemma reserve_knows k d g u now self :
  (reserve k d g u now self).1 = Owner → known k (reserve k d g u now self).2.
Proof.
  unfold reserve. repeat (case_match; simpl; try done). intros _. left. simpl.
  by rewrite lookup_insert_eq.
Qed.

(** ** Retries *)

(** A call that is early enough, and does not answer [key] itself. *)
Definition early (deadline : Z) (key : ReceiptKey) (c : call) : Prop :=
  match c with
  | CLookup _ _ _ now | CReserve _ _ _ _ now => now < deadline
  | CComplete k _ _ _ now => now < deadline ∧ k ≠ key
  end.

Lemma spend_keeps expired self k :
  k ∉ expired → entries (spend expired self) !! k = entries self !! k ∧
  (k ∉ spent_handles self → k ∉ spent_handles (spend expired self)).
Proof.
  revert self. induction expired as [|x xs IH]; intros self Hk; [done|]. simpl.
  case_bool_decide; [done|].
  destruct (IH match entries self !! x with
    | Some _ => mkReceipts (delete x (entries self)) ({[x]} ∪ spent_handles self)
                  (saturating_sub (used_bytes self) ATTACHMENT_ACTION_RECORD_BYTES)
    | None => self end) as [H1 H2]; [set_solver|].
  rewrite H1. destruct (entries self !! x) as [r|] eqn:Hx; simpl in *; [|done].
  rewrite lookup_delete_ne by set_solver. split; [done|]. set_solver.
Qed.

Lemma prune_keeps_receipt now self k r :
  entries self !! k = Some r → past_ttl now r = false →
  entries (prune now self) !! k = Some r ∧
  (k ∉ spent_handles self → k ∉ spent_handles (prune now self)).
Proof.
  intros Hr Hp. rewrite <- Hr. apply spend_keeps. intros ([k' r'] & Hk & Hin)%list_elem_of_fmap.
  simpl in Hk. subst k'. apply list_elem_of_In, List.filter_In in Hin as [Hin Hx].
  apply list_elem_of_In in Hin. rewrite hash_iter_perm in Hin. apply elem_of_map_to_list in Hin.
  simplify_eq. simpl in Hx. congruence.
Qed.

(** The receipt of an answered handle. *)
Definition answered (k : ReceiptKey) (r : Receipt) (self : AttachmentReceiptStore) : Prop :=
  entries self !! k = Some r ∧ k ∉ spent_handles self.

Lemma answered_prune k r now self :
  answered k r self → now < rc_created_at_ms r + RECEIPT_TTL_MS → answered k r (prune now self).
Proof.
  intros [Hr Hs] Hn. destruct (prune_keeps_receipt now self k r) as [H1 H2]; [done| |by split; auto].
  unfold past_ttl. apply bool_decide_eq_false. unfold saturating_sub, RECEIPT_TTL_MS in *. lia.
Qed.

Lemma answered_perform k r self c :
  answered k r self → early (rc_created_at_ms r + RECEIPT_TTL_MS) k c → answered k r (perform self c).
Proof.
  intros Ha He. destruct c as [k' d g now|k' d g u now|k' d g x now]; simpl in *.
  - by apply answered_prune.
  - apply (answered_prune _ _ now) in Ha as [Hr Hs]; [|done]. unfold reserve.
    set (p := prune now self) in *. clearbody p.
    repeat (case_match; simpl; try done). split; [|done]. simpl.
    rewrite lookup_insert_ne; [done|]. intros ->. congruence.
  - destruct He as [He Hne]. apply (answered_prune _ _ now) in Ha as [Hr Hs]; [|done]. unfold complete.
    set (p := prune now self) in *. clearbody p.
    repeat (case_match; simpl; try done). split; [|done]. simpl. by rewrite lookup_insert_ne.
Qed.

(** A request handle is worked on once.  After the endpoint was told it
    owns a handle, no sequence of calls makes it owner of that handle again, at
    any later time and for any request, and the handle is never reported
    missing; an answered request is given the very response for ten minutes.
    All along the store holds at most [MAX_RECEIPTS] receipts and
    [MAX_SPENT_HANDLES] spent handles and counts its bytes exactly. *)
Theorem attachment_handle_owned_once before key digest generation upload_retry now after :
  let s0 := foldl perform new before in
  let s1 := (reserve key digest generation upload_retry now s0).2 in
  let s2 := foldl perform s1 after in
  (reserve key digest generation upload_retry now s0).1 = Owner →
  receipts_ok s2 ∧
  (∀ d g u t, (reserve key d g u t s2).1 ≠ Owner ∧ (lookup key d g t s2).1 ≠ LMissing) ∧
  (∀ receipt response calls t,
     answered key receipt s2 → rc_state receipt = Complete response →
     Forall (early (rc_created_at_ms receipt + RECEIPT_TTL_MS) key) calls →
     t < rc_created_at_ms receipt + RECEIPT_TTL_MS →
     (lookup key (rc_request_digest receipt) (rc_generation receipt) t
        (foldl perform s2 calls)).1 = LComplete response (rc_upload_retry receipt)).
Proof.
  cbn zeta. intros Hown. set (s0 := foldl perform new before) in *.
  destruct (run_spec before new) as [H0 _]; [done|].
  destruct (perform_spec s0 (CReserve key digest generation upload_retry now) H0) as [H1 _].
  apply reserve_knows in Hown. simpl in H1.
  destruct (run_spec after _ H1) as [H2 Hk]. apply Hk in Hown.
  set (s2 := foldl perform _ after) in *. clearbody s2. clear Hk H1 H0.
  split; [done|]. split.
  - intros d g u t. split; [intros Ho; by eapply reserve_Owner|].
    destruct (prune_spec t s2 H2) as (_ & Hk & _). apply Hk in Hown. unfold lookup. simpl.
    repeat case_match; try done. destruct Hown as [[? ?]|]; [congruence|].
    rewrite bool_decide_eq_false in *. done.
  - intros r response calls t Ha Hst Hcs Ht.
    assert (answered key r (foldl perform s2 calls)) as Hr.
    { clear H2 Hown. revert s2 Ha. induction Hcs as [|c cs Hc _ IH]; intros s2 Ha; [done|].
      simpl. apply IH. by apply answered_perform. }
    pose proof (answered_prune _ _ t _ Hr Ht) as [Hx Hy]. unfold lookup. simpl.
    rewrite bool_decide_false by done. rewrite Hx, !bool_decide_false by auto. rewrite Hst. simpl.
    assert (past_ttl t r = false) as ->; [|done].
    apply bool_decide_eq_false. unfold saturating_sub, RECEIPT_TTL_MS in *. lia.
Qed.
End facts.

(** ** A handle, answered *)

Definition demo_key : ReceiptKey := mkKey [Byte.x01] [Byte.x02].

Lemma attachment_handle_owned_once_witness :
  (reserve demo_key [] 1 false 5 (reserve demo_key [] 1 false 5 new).2).1 ≠ Owner.
Proof.
  destruct (attachment_handle_owned_once [] demo_key [] 1 false 5 []) as (_ & H & _).
  - vm_compute. reflexivity.
  - apply H.
Defined.
End AttachmentReceipts.
