(* ===== verification/AttachmentReceive.v ===== *)
(** * Stream bodies on the relay (mirage-server/src/attachment_stream.rs)

    An upload arrives as a byte stream cut into chunks at arbitrary places.
    [receive_upload_stream] puts the fixed-size records back together, opens
    them in order and accepts only a whole stream of the announced length.  The
    opposite direction, [download_response], seals a blob record by record.
    Every reading of the epoch counter is [epochs] at the number of readings
    before it; a body that stalls or breaks off is a failed event. *)

From S2P Require Import Prelude TransportWire Attachment AttachmentStream.

(** What [stream.next()] yields before the end of the body: a chunk, or an error
    or timeout. *)
Inductive BodyEvent : Type := Chunk (chunk : bytes) | BodyFailed.

Record Receiver : Type := mkReceiver {
  rx_opener : StreamEnd;
  rx_frame : bytes;
  rx_ciphertext : bytes;
  rx_stream_bytes : Z;
  rx_ended : bool;
  rx_reads : nat
}.

(** The loop variables changed by a record, and by the bytes of a chunk. *)
Definition rx_set_frame (v : bytes) (r : Receiver) : Receiver :=
  mkReceiver (rx_opener r) v (rx_ciphertext r) (rx_stream_bytes r) (rx_ended r) (rx_reads r).
Definition rx_set_bytes (v : Z) (r : Receiver) : Receiver :=
  mkReceiver (rx_opener r) (rx_frame r) (rx_ciphertext r) v (rx_ended r) (rx_reads r).

Section receive.
Context {AE : Aead} (sha256 : bytes → bytes) (epochs : nat → Z) (captured_epoch : Z).

(** The work on a complete record. *)
Definition receive_record (ciphertext_len : Z) (rx : Receiver) : result () Receiver :=
  _ ← reject_if (bool_decide (epochs (rx_reads rx) ≠ captured_epoch)) tt;
  match stream_open (rx_frame rx) (rx_opener rx) with
  | (Err _, _) => Err tt
  | (Ok frame, opener) =>
      '(ciphertext, ended) ←
        match frame with
        | Data payload =>
            next_len ← ok_or (checked_add usize_MAX (len (rx_ciphertext rx)) (len payload)) tt;
            _ ← reject_if (bool_decide (ciphertext_len < next_len)) tt;
            Ok (rx_ciphertext rx ++ payload, rx_ended rx)
        | Padding => Ok (rx_ciphertext rx, rx_ended rx)
        | End_ => Ok (rx_ciphertext rx, true)
        end;
      _ ← reject_if (bool_decide (epochs (S (rx_reads rx)) ≠ captured_epoch)) tt;
      Ok (mkReceiver opener [] ciphertext (rx_stream_bytes rx) ended (S (S (rx_reads rx))))
  end.

(** [while offset < chunk.len()]: [rest] is [chunk[offset..]], and each turn
    takes at least one byte of it, so its length is fuel enough. *)
Fixpoint receive_bytes (fuel : nat) (ciphertext_len : Z) (rest : bytes) (rx : Receiver)
    : result () Receiver :=
  if bool_decide (rest = []) then Ok rx
  else
    match fuel with
    | O => Err tt
    | S fuel =>
        let n := Z.min (ATTACHMENT_STREAM_FRAME_BYTES - len (rx_frame rx)) (len rest) in
        let rx := rx_set_frame (rx_frame rx ++ take (Z.to_nat n) rest) rx in
        let rest := drop (Z.to_nat n) rest in
        if bool_decide (len (rx_frame rx) ≠ ATTACHMENT_STREAM_FRAME_BYTES)
        then receive_bytes fuel ciphertext_len rest rx
        else
          rx ← receive_record ciphertext_len rx;
          _ ← reject_if (rx_ended rx && bool_decide (rest ≠ [])) tt;
          receive_bytes fuel ciphertext_len rest rx
    end.

Fixpoint receive_chunks (expected_stream_bytes ciphertext_len : Z) (body : list BodyEvent)
    (rx : Receiver) : result () Receiver :=
  match body with
  | [] => Ok rx
  | BodyFailed :: _ => Err tt
  | Chunk chunk :: body =>
      if bool_decide (chunk = [])
      then receive_chunks expected_stream_bytes ciphertext_len body rx
      else
        stream_bytes ← ok_or (checked_add usize_MAX (rx_stream_bytes rx) (len chunk)) tt;
        _ ← reject_if (bool_decide (expected_stream_bytes < stream_bytes)) tt;
        _ ← reject_if (rx_ended rx) tt;
        rx ← receive_bytes (length chunk) ciphertext_len chunk (rx_set_bytes stream_bytes rx);
        receive_chunks expected_stream_bytes ciphertext_len body rx
  end.

(** [AttachmentStreamOpener::is_complete]. *)
Definition is_complete (o : StreamEnd) : bool := se_ended o.

Definition receive_upload_stream (body : list BodyEvent) (opener : StreamEnd)
    (ciphertext_len : Z) : result () (bytes * bytes) :=
  data_frames ← ok_or (ok (attachment_data_frame_count ciphertext_len)) tt;
  bucket_frames ← ok_or (ok (attachment_bucket_frame_count data_frames)) tt;
  frames ← ok_or (checked_add u16_MAX bucket_frames 1) tt;
  expected_stream_bytes ← ok_or (checked_mul usize_MAX frames ATTACHMENT_STREAM_FRAME_BYTES) tt;
  rx ← receive_chunks expected_stream_bytes ciphertext_len body
         (mkReceiver opener [] [] 0 false 0);
  _ ← reject_if
        (negb (rx_ended rx) || negb (is_complete (rx_opener rx))
         || negb (bool_decide (rx_frame rx = []))
         || bool_decide (len (rx_ciphertext rx) ≠ ciphertext_len)
         || bool_decide (rx_stream_bytes rx ≠ expected_stream_bytes)
         || bool_decide (epochs (rx_reads rx) ≠ captured_epoch)) tt;
  Ok (rx_ciphertext rx, sha256 (rx_ciphertext rx)).
End receive.

(** ** Bodies that must be empty or are only drained *)

Fixpoint digest_empty_stream (body : list BodyEvent) : result () () :=
  match body with
  | [] => Ok tt
  | BodyFailed :: _ => Err tt
  | Chunk chunk :: body =>
      _ ← reject_if (negb (bool_decide (chunk = []))) tt; digest_empty_stream body
  end.

Fixpoint drain_stream (total maximum_bytes : Z) (body : list BodyEvent) : result () () :=
  match body with
  | [] => Ok tt
  | BodyFailed :: _ => Err tt
  | Chunk chunk :: body =>
      total ← ok_or (checked_add usize_MAX total (len chunk)) tt;
      _ ← reject_if (bool_decide (maximum_bytes < total)) tt;
      drain_stream total maximum_bytes body
  end.

Definition consume_retry_stream (maximum_bytes : Z) (body : list BodyEvent) : result () () :=
  drain_stream 0 maximum_bytes body.

(** ** The action in front of a body (mirage-server/src/attachment_transport.rs) *)

(** The action record and the body behind it: the rest of the chunk that
    completed the record goes first. *)
Fixpoint read_prefix_loop (total : Z) (prefix : bytes) (body : list BodyEvent)
    : result () (bytes * list BodyEvent) :=
  match body with
  | [] | BodyFailed :: _ => Err tt
  | Chunk chunk :: body =>
      let n := Z.min (total - len prefix) (len chunk) in
      let prefix := prefix ++ take (Z.to_nat n) chunk in
      if bool_decide (len prefix = total)
      then Ok (prefix, Chunk (drop (Z.to_nat n) chunk) :: body)
      else read_prefix_loop total prefix body
  end.

Definition read_action_prefix (record_bytes : Z) (body : list BodyEvent)
    : result () (bytes * list BodyEvent) := read_prefix_loop record_bytes [] body.

Definition consume_cached_retry_body_kind (max_body_bytes record_bytes : Z)
    (allow_upload_retry : bool) (body : list BodyEvent) : result () () :=
  if allow_upload_retry
  then consume_retry_stream (saturating_sub max_body_bytes record_bytes) body
  else digest_empty_stream body.

(** ** Sending a blob *)

(** [slice.chunks(n)]. *)
Fixpoint chunks_of (fuel : nat) (n : Z) (l : bytes) : list bytes :=
  match fuel with
  | O => []
  | S fuel =>
      if bool_decide (l = []) then []
      else take (Z.to_nat n) l :: chunks_of fuel n (drop (Z.to_nat n) l)
  end.

Section send.
Context {AE : Aead} {EN : Entropy} (epochs : nat → Z) (captured_epoch : Z) (sends : nat → bool).

(** What was handed to the channel, and whether the task is still going; [sends]
    says whether a send got through before its deadline. *)
Record Sender : Type := mkSender {
  tx_sealer : StreamEnd;
  tx_sent : list bytes;
  tx_reads : nat
}.

Definition send_frame (frame : bytes) (tx : Sender) : bool * Sender :=
  let reads := tx_reads tx in
  if bool_decide (epochs reads ≠ captured_epoch)
  then (false, mkSender (tx_sealer tx) (tx_sent tx) (S reads))
  else if negb (sends (length (tx_sent tx)))
  then (false, mkSender (tx_sealer tx) (tx_sent tx) (S reads))
  else
    (negb (bool_decide (epochs (S reads) ≠ captured_epoch)),
     mkSender (tx_sealer tx) (tx_sent tx ++ [frame]) (S (S reads))).

(** One iteration of the loops: seal a frame and send it. *)
Definition seal_and_send (seal : ST StreamEnd TransportError bytes) (tx : Sender) : bool * Sender :=
  let reads := tx_reads tx in
  if bool_decide (epochs reads ≠ captured_epoch)
  then (false, mkSender (tx_sealer tx) (tx_sent tx) (S reads))
  else
    match seal (tx_sealer tx) with
    | (Err _, sealer) => (false, mkSender sealer (tx_sent tx) (S reads))
    | (Ok record, sealer) => send_frame record (mkSender sealer (tx_sent tx) (S reads))
    end.

(** The iterations of a loop until one returns. *)
Fixpoint send_all (seals : list (ST StreamEnd TransportError bytes)) (tx : Sender) : bool * Sender :=
  match seals with
  | [] => (true, tx)
  | seal :: seals =>
      match seal_and_send seal tx with
      | (true, tx) => send_all seals tx
      | (false, tx) => (false, tx)
      end
  end.

(** The task [download_response] spawns: everything it put on the channel. *)
Definition download_response (result_record blob : bytes) (sealer : StreamEnd) : list bytes :=
  match send_frame result_record (mkSender sealer [] 0) with
  | (false, tx) => tx_sent tx
  | (true, tx) =>
      match send_all (seal_data <$> chunks_of (length blob) ATTACHMENT_STREAM_PAYLOAD_BYTES blob) tx with
      | (false, tx) => tx_sent tx
      | (true, tx) =>
          let layout := se_layout (tx_sealer tx) in
          let padding_frames :=
            saturating_sub (sl_bucket_frames layout) (sl_data_frames layout) in
          match send_all (replicate (Z.to_nat padding_frames) seal_padding) tx with
          | (false, tx) => tx_sent tx
          | (true, tx) => tx_sent (send_all [seal_end] tx).2
          end
      end
  end.
End send.
