(* ===== verification/AttachmentReceiveTheorems.v ===== *)
(** * Stream bodies: theorems

    However the network cuts a body into chunks, the relay accepts it exactly
    when its bytes are the records of one complete stream. *)

From S2P Require Import Prelude TransportWire TransportReader Attachment AttachmentStream.
From S2P Require Import RecordChannel StreamFacts StreamTheorems RecordTheorems AttachmentReceive.

Abbreviation FRAME := ATTACHMENT_STREAM_FRAME_BYTES.

Lemma FRAME_pos : 0 < FRAME.
Proof. done. Qed.

Lemma frame_data_app fs gs : frame_data (fs ++ gs) = frame_data fs ++ frame_data gs.
Proof. unfold frame_data. by rewrite fmap_app, concat_app. Qed.

(** The frames of a whole stream. *)
Definition complete_stream (o : StreamEnd) (fs : list AttachmentFrame) : Prop :=
  plays o fs ∧ se_ended (after o fs) = true.

Section facts.
Context {AE : Aead} {AL : AeadLaws}.
Context (epochs : nat → Z) (captured : Z).
Context (epoch_stands : ∀ i, epochs i = captured).

Lemma recorded_app s fs gs rs qs :
  recorded s fs rs → recorded (after s fs) gs qs → recorded s (fs ++ gs) (rs ++ qs).
Proof.
  revert s rs. induction fs as [|f fs IH]; intros s [|r rs] H Hq; simpl in *; try done.
  destruct H as [? H]. split; [done|]. by apply IH.
Qed.

Lemma recorded_lengths s fs rs : recorded s fs rs → Forall (λ r, len r = FRAME) rs.
Proof.
  revert s rs. induction fs as [|f fs IH]; intros s [|r rs] H; simpl in *; try done.
  destruct H as [Hc H]. constructor; [by eapply len_record|by eapply IH].
Qed.

Lemma len_concat_records (rs : list bytes) : Forall (λ r, len r = FRAME) rs → len (concat rs) = len rs * FRAME.
Proof.
  induction 1 as [|r rs Hr _ IH]; [done|]. simpl. rewrite len_app, IH, Hr, len_cons. lia.
Qed.

(** ** One record *)

Record rx_ok (n : Z) (rx : Receiver) : Prop := {
  rxo_stream : stream_ok (rx_opener rx);
  rxo_layout : sl_ciphertext_len (se_layout (rx_opener rx)) = n;
  rxo_bytes : len (rx_ciphertext rx) = se_bytes_seen (rx_opener rx);
  rxo_ended : rx_ended rx = se_ended (rx_opener rx)
}.

(** The receiver after some more frames, with the bytes of an unfinished record. *)
Definition after_frames (rx : Receiver) (fs : list AttachmentFrame) (rx' : Receiver) : Prop :=
  rx_opener rx' = after (rx_opener rx) fs ∧
  rx_ciphertext rx' = rx_ciphertext rx ++ frame_data fs ∧
  rx_ended rx' = se_ended (after (rx_opener rx) fs) ∧
  rx_stream_bytes rx' = rx_stream_bytes rx.

Lemma after_frames_ok n rx fs rx' :
  rx_ok n rx → plays (rx_opener rx) fs → after_frames rx fs rx' → rx_ok n rx'.
Proof.
  intros [Hs Hl Hb He] Hp (Ho & Hc & Hx & _). destruct (after_same (rx_opener rx) fs) as (_ & _ & _ & El).
  split; rewrite ?Ho.
  - by apply after_ok.
  - by rewrite <- El.
  - by rewrite Hc, len_app, after_bytes, Hb.
  - done.
Qed.

Lemma after_frames_trans rx fs rx1 gs rx2 :
  after_frames rx fs rx1 → after_frames rx1 gs rx2 → after_frames rx (fs ++ gs) rx2.
Proof.
  intros (Ho & Hc & Hx & Hn) (Ho' & Hc' & Hx' & Hn'). unfold after_frames.
  rewrite after_app, frame_data_app, (assoc_L (++)), <- Hc, <- Ho. rewrite Hn', Hn. done.
Qed.

Definition record_taken (f : AttachmentFrame) (rx : Receiver) : Receiver :=
  mkReceiver (advance f (rx_opener rx)) [] (rx_ciphertext rx ++ frame_payload f)
    (rx_stream_bytes rx)
    (match f with End_ => true | _ => rx_ended rx end) (S (S (rx_reads rx))).

Lemma record_taken_after n rx f :
  rx_ok n rx → after_frames rx [f] (record_taken f rx).
Proof.
  intros [_ _ _ He]. unfold after_frames. simpl. unfold frame_data. simpl.
  rewrite app_nil_r. split_and!; [done|done| |done]. by destruct f.
Qed.

Lemma receive_record_Ok n rx rx' :
  rx_ok n rx →
  receive_record epochs captured n rx = Ok rx' ↔
  ∃ f, due f (rx_opener rx) ∧ carries (rx_opener rx) f (rx_frame rx) ∧ rx' = record_taken f rx.
Proof.
  intros [Hs Hl Hb He]. unfold receive_record.
  rewrite !epoch_stands, bool_decide_false by naive_solver. cbn [reject_if mbind result_bind].
  assert (∀ f, due f (rx_opener rx) →
    ('(ciphertext, ended) ←
        match f with
        | Data payload =>
            next_len ← ok_or (checked_add usize_MAX (len (rx_ciphertext rx)) (len payload)) tt;
            _ ← reject_if (bool_decide (n < next_len)) tt;
            Ok (rx_ciphertext rx ++ payload, rx_ended rx)
        | Padding => Ok (rx_ciphertext rx, rx_ended rx)
        | End_ => Ok (rx_ciphertext rx, true)
        end;
      Ok (mkReceiver (advance f (rx_opener rx)) [] ciphertext (rx_stream_bytes rx) ended
            (S (S (rx_reads rx))))) = Ok (record_taken f rx) :> result () Receiver) as Hrun.
  { intros f Hd. unfold record_taken. destruct f as [p| |]; simpl; rewrite ?app_nil_r; try done.
    pose proof (advance_ok _ _ Hs Hd) as [Hlay _ _ _ _ Hbytes _ _]. simpl in *.
    destruct Hlay as (? & _). unfold MAX_ATTACHMENT_CIPHERTEXT_BYTES in *.
    rewrite checked_add_ok by (unfold usize_MAX; lia). simpl.
    rewrite bool_decide_false by lia. done. }
  pose proof (stream_open_spec (rx_frame rx) _ Hs) as Hspec. split.
  - destruct (stream_open (rx_frame rx) (rx_opener rx)) as [[f|] o]; [|done].
    destruct Hspec as (Hd & Hc & ->). intros E. exists f. split_and!; [done|done|].
    rewrite Hrun in E by done. by injection E.
  - intros (f & Hd & Hc & ->). rewrite (stream_open_run f) by done. by apply Hrun.
Qed.

(** ** The bytes of a chunk *)

Lemma take_len (k : Z) (l : bytes) : 0 ≤ k ≤ len l → len (take (Z.to_nat k) l) = k.
Proof. intros. unfold len in *. rewrite length_take. lia. Qed.
Lemma drop_len (k : Z) (l : bytes) : 0 ≤ k ≤ len l → len (drop (Z.to_nat k) l) = len l - k.
Proof. intros. unfold len in *. rewrite length_drop. lia. Qed.

Lemma receive_bytes_sound fuel n rest rx rx' :
  rx_ok n rx → len (rx_frame rx) < FRAME →
  receive_bytes epochs captured fuel n rest rx = Ok rx' →
  ∃ fs rs, plays (rx_opener rx) fs ∧ recorded (rx_opener rx) fs rs ∧ after_frames rx fs rx' ∧
    rx_frame rx ++ rest = concat rs ++ rx_frame rx' ∧ len (rx_frame rx') < FRAME.
Proof.
  revert rest rx. induction fuel as [|fuel IH]; intros rest rx Hok Hf.
  { simpl. case_bool_decide; [|done]. intros [= <-]. subst. exists [], [].
    unfold after_frames, frame_data. simpl. rewrite !app_nil_r.
    split_and!; [done|done|done|done|apply Hok|done|done|done]. }
  simpl. case_bool_decide as Hnil.
  { intros [= <-]. subst. exists [], []. unfold after_frames, frame_data. simpl.
    rewrite !app_nil_r. split_and!; [done|done|done|done|apply Hok|done|done|done]. }
  set (k := Z.min (FRAME - len (rx_frame rx)) (len rest)).
  assert (0 ≤ k ≤ len rest) as Hk by (pose proof (len_nonneg rest); lia).
  case_bool_decide as Hfull.
  - intros E. apply IH in E as (fs & rs & Hp & Hr & Ha & Hc & Hl).
    + exists fs, rs. split_and!; [done|done|done| |done]. simpl in Hc.
      by rewrite <- Hc, <- (assoc_L (++)), take_drop.
    + by destruct Hok.
    + simpl in *. rewrite len_app, take_len in * by done. lia.
  - intros (rx1 & H1 & E)%bind_Ok. apply receive_record_Ok in H1 as (f & Hd & Hc & ->);
      [|by destruct Hok]. cbn [rx_set_frame rx_opener rx_frame] in *.
    apply bind_Ok in E as (_ & _ & E).
    assert (rx_ok n (rx_set_frame (rx_frame rx ++ take (Z.to_nat k) rest) rx)) as Hok1
      by (by destruct Hok).
    pose proof (record_taken_after n _ f Hok1) as Ha1.
    apply IH in E as (fs & rs & Hp & Hr & Ha & Hb & Hl).
    + exists (f :: fs), ((rx_frame rx ++ take (Z.to_nat k) rest) :: rs). split_and!; [done|done| |..].
      * apply (after_frames_trans _ [f] _ fs _ Ha1 Ha).
      * simpl in *. rewrite <- (assoc_L (++)), <- Hb.
        by rewrite <- (assoc_L (++)), take_drop.
      * done.
    + eapply (after_frames_ok n _ [f]); [exact Hok1|exact (conj Hd I)|exact Ha1].
    + done.
Qed.

(** What is left of a stream: its frames, their records, and the bytes of them
    that are still to come. *)
Definition awaiting (rx : Receiver) (fs : list AttachmentFrame) (rs : list bytes) (data : bytes)
    : Prop :=
  plays (rx_opener rx) fs ∧ recorded (rx_opener rx) fs rs ∧
  rx_frame rx ++ data = concat rs ∧ len (rx_frame rx) < FRAME.

Lemma ended_awaits_nothing n rx fs rs data :
  rx_ok n rx → awaiting rx fs rs data → rx_ended rx = true → data = [].
Proof.
  intros [_ _ _ He] (Hp & Hr & Hc & _) Hend. rewrite He in Hend.
  destruct fs as [|f fs]; [|by destruct Hp as [[? _] _]; congruence].
  destruct rs; [|done]. by apply app_eq_nil in Hc as [_ ?].
Qed.

Lemma receive_bytes_complete fuel n rest rx fs rs data :
  rx_ok n rx → awaiting rx fs rs (rest ++ data) → (length rest ≤ fuel)%nat →
  ∃ fs1 fs2 rs2 rx', fs = fs1 ++ fs2 ∧ receive_bytes epochs captured fuel n rest rx = Ok rx' ∧
    after_frames rx fs1 rx' ∧ awaiting rx' fs2 rs2 data.
Proof.
  revert rest rx fs rs. induction fuel as [|fuel IH]; intros rest rx fs rs Hok Haw Hfuel.
  { destruct rest; [|simpl in *; lia]. exists [], fs, rs, rx. split_and!; [done|done| |done].
    unfold after_frames, frame_data. simpl. rewrite app_nil_r. split_and!; [done|done|apply Hok|done]. }
  simpl. case_bool_decide as Hnil.
  { subst rest. exists [], fs, rs, rx. split_and!; [done|done| |done].
    unfold after_frames, frame_data. simpl. rewrite app_nil_r. split_and!; [done|done|apply Hok|done]. }
  destruct Haw as (Hp & Hr & Hc & Hl). set (k := Z.min (FRAME - len (rx_frame rx)) (len rest)).
  pose proof (proj1 (len_pos rest) Hnil) as Hpos. assert (0 < k ≤ len rest) as Hk by lia.
  assert (length (drop (Z.to_nat k) rest) ≤ fuel)%nat as Hfuel'.
  { rewrite length_drop. unfold len in *. lia. }
  set (rx1 := rx_set_frame (rx_frame rx ++ take (Z.to_nat k) rest) rx).
  assert (rx_ok n rx1) as Hok1 by (by destruct Hok).
  assert (rx_frame rx1 ++ drop (Z.to_nat k) rest ++ data = concat rs) as Hc1.
  { rewrite <- Hc. simpl. rewrite <- (assoc_L (++)). f_equal. by rewrite (assoc_L (++)), take_drop. }
  assert (len (rx_frame rx1) = len (rx_frame rx) + k) as Hl1.
  { simpl. rewrite len_app, take_len by lia. done. }
  case_bool_decide as Hfull.
  - destruct (IH (drop (Z.to_nat k) rest) rx1 fs rs Hok1) as (fs1 & fs2 & rs2 & rx' & H1 & H2 & H3 & H4);
      [|done|by exists fs1, fs2, rs2, rx'].
    split_and!; [done|done|done|]. change (len (rx_frame rx1) ≠ FRAME) in Hfull. lia.
  - change (len (rx_frame rx1) = FRAME) in Hfull.
    destruct fs as [|f fs], rs as [|r rs]; simpl in Hr; try done.
    { simpl in Hc. apply app_eq_nil in Hc as [_ [? _]%app_eq_nil]. done. }
    destruct Hr as [Hcar Hr], Hp as [Hd Hp]. pose proof (len_record _ _ _ Hcar) as Hlr.
    assert (rx_frame rx1 = r ∧ drop (Z.to_nat k) rest ++ data = concat rs) as [Hfr Hc2].
    { simpl in Hc1. apply app_inj_1; [|done]. unfold len in *. lia. }
    rewrite (proj2 (receive_record_Ok n rx1 (record_taken f rx1) Hok1)).
    2:{ exists f. rewrite Hfr. done. }
    cbn [mbind result_bind]. pose proof (record_taken_after n rx1 f Hok1) as Ha1.
    pose proof (after_frames_ok n rx1 [f] _ Hok1 (conj Hd I) Ha1) as Hok2.
    assert (awaiting (record_taken f rx1) fs rs (drop (Z.to_nat k) rest ++ data)) as Haw2
      by (split_and!; done).
    assert (rx_ended (record_taken f rx1) && bool_decide (drop (Z.to_nat k) rest ≠ []) = false) as ->.
    { destruct (rx_ended (record_taken f rx1)) eqn:He; [|done].
      eapply ended_awaits_nothing in Haw2 as [? _]%app_eq_nil; [|done..].
      by rewrite bool_decide_false by naive_solver. }
    cbn [reject_if mbind result_bind].
    destruct (IH _ _ _ _ Hok2 Haw2 Hfuel') as (fs1 & fs2 & rs2 & rx' & -> & H2 & H3 & H4).
    exists (f :: fs1), fs2, rs2, rx'. split_and!; [done|done| |done].
    apply (after_frames_trans _ [f] _ fs1 _ Ha1 H3).
Qed.

(** ** The chunks of a body *)

Lemma rx_set_bytes_ok n v rx : rx_ok n rx → rx_ok n (rx_set_bytes v rx).
Proof. by intros []. Qed.

(** As [after_frames], the byte count aside. *)
Definition advanced (rx : Receiver) (fs : list AttachmentFrame) (rx' : Receiver) : Prop :=
  after_frames (rx_set_bytes (rx_stream_bytes rx') rx) fs rx'.

Lemma receive_chunks_sound expected n chunks rx rx' :
  rx_ok n rx → len (rx_frame rx) < FRAME →
  receive_chunks epochs captured expected n (Chunk <$> chunks) rx = Ok rx' →
  ∃ fs rs, plays (rx_opener rx) fs ∧ recorded (rx_opener rx) fs rs ∧ advanced rx fs rx' ∧
    rx_frame rx ++ concat chunks = concat rs ++ rx_frame rx' ∧ len (rx_frame rx') < FRAME ∧
    rx_stream_bytes rx' = rx_stream_bytes rx + len (concat chunks).
Proof.
  revert rx. induction chunks as [|c cs IH]; intros rx Hok Hf.
  { intros [= <-]. exists [], []. unfold advanced, after_frames, frame_data. simpl.
    rewrite !app_nil_r, len_nil, Z.add_0_r. split_and!; try done. apply Hok. }
  simpl. case_bool_decide as Hnil; [subst c; by apply IH|].
  intros (m & (Hm & ->)%ok_or_Ok%checked_add_Some & E)%bind_Ok. apply bind_Ok in E as (_ & _ & E).
  apply bind_Ok in E as (_ & _ & E). apply bind_Ok in E as (rx1 & H1 & E).
  apply receive_bytes_sound in H1 as (fs & rs & Hp & Hr & Ha & Hc & Hl);
    [|by apply rx_set_bytes_ok|done]. simpl in *.
  assert (rx_ok n rx1) as Hok1.
  { eapply (after_frames_ok n (rx_set_bytes _ rx)); [by apply rx_set_bytes_ok|exact Hp|exact Ha]. }
  destruct Ha as (Ho & Hct & He & Hb). simpl in *.
  apply IH in E as (gs & qs & Hp' & Hr' & Ha' & Hc' & Hl' & Hb'); [|done|done].
  exists (fs ++ gs), (rs ++ qs). rewrite Ho in *. split_and!.
  - by apply plays_app.
  - by apply recorded_app.
  - destruct Ha' as (Ho' & Hct' & He' & _). unfold advanced, after_frames in *. simpl in *.
    rewrite after_app, frame_data_app, (assoc_L (++)), <- Hct, <- Ho. done.
  - rewrite concat_app, <- (assoc_L (++)), <- Hc', !(assoc_L (++)), Hc. done.
  - done.
  - rewrite Hb', Hb, len_app. lia.
Qed.

Lemma receive_chunks_complete expected n chunks rx fs rs :
  rx_ok n rx → awaiting rx fs rs (concat chunks) →
  rx_stream_bytes rx + len (concat chunks) = expected → expected ≤ usize_MAX →
  ∃ rx', receive_chunks epochs captured expected n (Chunk <$> chunks) rx = Ok rx' ∧
    advanced rx fs rx' ∧ rx_frame rx' = [] ∧ rx_stream_bytes rx' = expected.
Proof.
  revert rx fs rs. induction chunks as [|c cs IH]; intros rx fs rs Hok Haw Hb Hmax.
  { destruct Haw as (Hp & Hr & Hc & Hl). simpl in Hc. rewrite app_nil_r in Hc.
    pose proof (len_concat_records rs (recorded_lengths _ _ _ Hr)) as Hlen.
    rewrite <- Hc in Hlen. pose proof FRAME_pos. pose proof (len_nonneg rs).
    assert (rs = []) as -> by (destruct rs; [done|rewrite len_cons in *; pose proof (len_nonneg rs); nia]).
    destruct fs; [|done]. exists rx. simpl in *. rewrite len_nil in Hb.
    split_and!; [done| |done|lia]. unfold advanced, after_frames, frame_data. simpl.
    rewrite app_nil_r. split_and!; [done|done|apply Hok|done]. }
  simpl. case_bool_decide as Hnil; [subst c; by apply (IH rx fs rs)|].
  simpl in *. rewrite len_app in Hb. pose proof (len_nonneg (concat cs)).
  rewrite checked_add_ok by lia. cbn [ok_or mbind result_bind].
  rewrite bool_decide_false by lia. cbn [reject_if mbind result_bind].
  assert (rx_ended rx = false) as ->.
  { destruct (rx_ended rx) eqn:He; [|done].
    by eapply ended_awaits_nothing in Haw as [? _]%app_eq_nil. }
  cbn [reject_if mbind result_bind]. set (rx0 := rx_set_bytes _ rx).
  destruct (receive_bytes_complete (length c) n c rx0 fs rs (concat cs))
    as (fs1 & fs2 & rs2 & rx1 & -> & H1 & H2 & H3); [by apply rx_set_bytes_ok|done|done|].
  rewrite H1. cbn [mbind result_bind].
  assert (rx_ok n rx1) as Hok1.
  { eapply (after_frames_ok n rx0 fs1); [by apply rx_set_bytes_ok| |exact H2].
    by destruct Haw as ([? _]%plays_app & _). }
  destruct H2 as (Ho & Hct & He & Hb1).
  destruct (IH rx1 fs2 rs2 Hok1 H3) as (rx' & H4 & H5 & H6 & H7); [rewrite Hb1; simpl; lia|done|].
  exists rx'. split_and!; [done| |done|done]. destruct H5 as (Ho' & Hct' & He' & _).
  unfold advanced, after_frames in *. simpl in *.
  rewrite after_app, frame_data_app, (assoc_L (++)), <- Hct, <- Ho. done.
Qed.

(** ** Whole bodies *)

Lemma opener_start {HK : Hkdf} b root d n data bucket o :
  0 ≤ n → into_opener b root d n data bucket = Ok o →
  stream_ok o ∧ stream_layout n = Ok (se_layout o) ∧ sl_ciphertext_len (se_layout o) = n ∧
  se_next_counter o = 0 ∧ se_bytes_seen o = 0 ∧ se_data_frames o = 0 ∧ se_padding_frames o = 0 ∧
  se_ended o = false.
Proof.
  intros Hn. unfold into_opener. intros (l & Hl & H)%bind_Ok.
  apply bind_Ok in H as (? & _ & H). apply bind_Ok in H as (k & Hk & [= <-]). simpl.
  pose proof (stream_layout_Ok _ _ Hn Hl) as [(? & ? & ? & ?) Hlen]. split_and!; try done.
  split; simpl; try done; unfold P in *; lia.
Qed.

(** The bytes of a complete stream of records. *)
Lemma complete_stream_len o fs rs :
  stream_ok o → se_next_counter o = 0 → complete_stream o fs → recorded o fs rs →
  len (concat rs) = (sl_bucket_frames (se_layout o) + 1) * FRAME.
Proof.
  intros Hs Hz [Hp He] Hr. pose proof (after_ok _ _ Hs Hp) as Hok.
  destruct (after_same o fs) as (_ & _ & _ & El).
  rewrite (len_concat_records rs (recorded_lengths _ _ _ Hr)), (recorded_length _ _ _ Hr).
  pose proof (after_counter o fs) as Hc. destruct (so_ended _ Hok He) as [_ Hb].
  rewrite (so_counter _ Hok), He, Hz in Hc. rewrite El, <- Hb. simpl in Hc. f_equal. lia.
Qed.

Lemma complete_stream_data o fs :
  stream_ok o → se_bytes_seen o = 0 → complete_stream o fs →
  len (frame_data fs) = sl_ciphertext_len (se_layout o).
Proof.
  intros Hs Hz [Hp He]. destruct (so_ended _ (after_ok _ _ Hs Hp) He) as [Hb _].
  destruct (after_same o fs) as (_ & _ & _ & El). rewrite after_bytes, Hz, <- El in Hb. lia.
Qed.

Lemma upload_stream_iff {HK : Hkdf} (sha256 : bytes → bytes) b root d n data bucket o chunks ct digest :
  0 ≤ n → into_opener b root d n data bucket = Ok o →
  receive_upload_stream sha256 epochs captured (Chunk <$> chunks) o n = Ok (ct, digest) ↔
  digest = sha256 ct ∧ len ct = n ∧
  ∃ fs rs, complete_stream o fs ∧ recorded o fs rs ∧ frame_data fs = ct ∧ concat chunks = concat rs.
Proof.
  intros Hn Ho. destruct (opener_start _ _ _ _ _ _ _ Hn Ho) as (Hs & Hlay & Hlen & Hz & Hb & _ & _ & He).
  unfold receive_upload_stream. pose proof Hlay as Hlay'. unfold stream_layout in Hlay'.
  apply bind_Ok in Hlay' as (dt & Hd & Hlay'). apply bind_Ok in Hlay' as (bk & Hk & Hl).
  rewrite Hd. cbn [ok ok_or mbind result_bind]. rewrite Hk. cbn [ok ok_or mbind result_bind].
  assert (sl_bucket_frames (se_layout o) = bk) as Hbk by (by injection Hl as <-).
  pose proof (so_layout _ Hs) as (_ & Hdb & Hbm & _). rewrite Hbk in *.
  unfold MAX_ATTACHMENT_BUCKET_FRAMES in Hbm.
  rewrite checked_add_ok by (unfold u16_MAX; lia). cbn [ok_or mbind result_bind].
  assert (checked_mul usize_MAX (bk + 1) FRAME = Some ((bk + 1) * FRAME)) as ->.
  { apply checked_mul_Some. split; [|done]. change FRAME with 262184. unfold usize_MAX. lia. }
  cbn [ok_or mbind result_bind]. set (rx0 := mkReceiver o [] [] 0 false 0).
  assert (rx_ok n rx0) as Hok0 by (split; simpl; rewrite ?len_nil; done).
  split.
  - intros (rx & Hrx & E)%bind_Ok. apply bind_Ok in E as ([] & Hc & [= <- <-]).
    apply receive_chunks_sound in Hrx as (fs & rs & Hp & Hr & (Ho' & Hct & He' & _) & Hcc & _ & _);
      [|done|done]. simpl in *. apply reject_if_Ok in Hc. split_bools.
    split_and!; [done|by apply dec_stable|]. exists fs, rs. rewrite Hct.
    split_and!; try done; [by split; congruence|].
    match goal with H : rx_frame rx = [] |- _ => rewrite H, app_nil_r in Hcc end. done.
  - intros (-> & Hl' & fs & rs & Hcs & Hr & <- & Hcc).
    pose proof (complete_stream_len o fs rs Hs Hz Hcs Hr) as Hbytes. rewrite Hbk in Hbytes.
    destruct (receive_chunks_complete ((bk + 1) * FRAME) n chunks rx0 fs rs)
      as (rx & Hrx & (Ho' & Hct & He' & _) & Hf & Hsb); [done| | | |].
    + split_and!; [apply Hcs|done|done|done].
    + simpl. by rewrite Hcc, Hbytes.
    + change FRAME with 262184. unfold usize_MAX. lia.
    + rewrite Hrx. cbn [mbind result_bind]. simpl in *.
      rewrite He', Ho', Hf, Hct, Hsb, epoch_stands. unfold is_complete.
      rewrite (proj2 Hcs), (bool_decide_true ([] = [])) by done.
      rewrite !bool_decide_false by naive_solver. done.
Qed.

(** ** Sending *)

(** A random source that always answers. *)
Definition answers {EN : Entropy} : Prop := ∀ n, 0 ≤ n → is_Some (fill n).

Lemma send_all_run {EN : Entropy} {EL : EntropyLaws} sends fs tx :
  (∀ i, sends i = true) → answers → stream_ok (tx_sealer tx) → plays (tx_sealer tx) fs →
  ∃ rs tx', send_all epochs captured sends (seal_frame <$> fs) tx = (true, tx') ∧
    recorded (tx_sealer tx) fs rs ∧ tx_sealer tx' = after (tx_sealer tx) fs ∧
    tx_sent tx' = tx_sent tx ++ rs.
Proof.
  intros Hsend Hans. revert tx. induction fs as [|f fs IH]; intros tx Hs Hp.
  { exists [], tx. rewrite app_nil_r. done. }
  destruct Hp as [Hd Hp]. pose proof (due_sized f _ Hs Hd) as Hsz.
  destruct (seal_frame_run f (tx_sealer tx) Hs Hd) as [r Hr].
  { apply Hans. unfold ATTACHMENT_STREAM_PLAINTEXT_BYTES.
    destruct f; cbn [frame_sized frame_payload] in *;
      unfold ATTACHMENT_STREAM_PAYLOAD_BYTES in *; (lia || done). }
  pose proof (seal_frame_spec f _ Hs) as Hspec. rewrite Hr in Hspec. destruct Hspec as (_ & Hc & _).
  set (tx1 := mkSender (advance f (tx_sealer tx)) (tx_sent tx ++ [r]) (S (S (S (tx_reads tx))))).
  destruct (IH tx1) as (rs & tx' & H1 & H2 & H3 & H4); [by apply advance_ok|done|].
  exists (r :: rs), tx'. split_and!; [|by split|done|].
  - simpl. unfold seal_and_send. rewrite epoch_stands, bool_decide_false by naive_solver.
    rewrite Hr. unfold send_frame. simpl.
    rewrite !epoch_stands, !bool_decide_false, Hsend by naive_solver. simpl. exact H1.
  - rewrite H4. simpl. by rewrite <- (assoc_L (++)).
Qed.
End facts.

Lemma chunks_of_frames content (i j fuel : nat) :
  (length (drop (Z.to_nat (Z.of_nat i * P)) content) ≤ fuel)%nat →
  (Z.of_nat (i + j) - 1) * P < len content ∨ j = 0%nat → len content ≤ Z.of_nat (i + j) * P →
  Data <$> chunks_of fuel P (drop (Z.to_nat (Z.of_nat i * P)) content) = chunks content i j.
Proof.
  pose proof P_pos as HP. revert i fuel. induction j as [|j IH]; intros i fuel Hfuel Hlo Hhi.
  { assert (drop (Z.to_nat (Z.of_nat i * P)) content = []) as ->.
    { apply drop_ge. unfold len in Hhi. rewrite Nat.add_0_r in Hhi. lia. }
    by destruct fuel. }
  destruct Hlo as [Hlo|?]; [|done].
  assert (drop (Z.to_nat (Z.of_nat i * P)) content ≠ []) as Hne.
  { intros E. apply (f_equal length) in E. rewrite length_drop in E. unfold len in Hlo.
    change (length (@nil byte)) with 0%nat in E. nia. }
  destruct fuel as [|fuel].
  { apply Nat.le_0_r, length_zero_iff_nil in Hfuel. done. }
  cbn [chunks_of]. rewrite bool_decide_false by done. rewrite fmap_cons.
  change (chunks content i (S j)) with (Data (chunk content (Z.of_nat i)) :: chunks content (S i) j).
  f_equal.
  - f_equal. unfold chunk, slice. destruct (decide ((Z.of_nat i + 1) * P ≤ len content)) as [Hle|Hgt].
    + f_equal. lia.
    + rewrite !take_ge; [done| |]; rewrite length_drop; unfold len in *; lia.
  - rewrite drop_drop.
    replace (Z.to_nat (Z.of_nat i * P) + Z.to_nat P)%nat with (Z.to_nat (Z.of_nat (S i) * P)) by lia.
    apply IH.
    + rewrite length_drop in *. assert (1 ≤ Z.to_nat P)%nat by lia.
      assert (0 < length (drop (Z.to_nat (Z.of_nat i * P)) content))%nat
        by (destruct (drop (Z.to_nat (Z.of_nat i * P)) content); [done|simpl; lia]).
      rewrite length_drop in *. nia.
    + left. replace (S i + j)%nat with (i + S j)%nat by lia. done.
    + replace (S i + j)%nat with (i + S j)%nat by lia. done.
Qed.

(** Reading the action leaves exactly the rest of the body. *)
Lemma read_prefix_loop_Ok total prefix chunks record body :
  len prefix < total →
  read_prefix_loop total prefix (Chunk <$> chunks) = Ok (record, body) →
  len record = total ∧
  ∃ rest, body = Chunk <$> rest ∧ record ++ concat rest = prefix ++ concat chunks.
Proof.
  revert prefix. induction chunks as [|c cs IH]; intros prefix Hp; [done|]. simpl.
  set (k := Z.min (total - len prefix) (len c)).
  assert (0 ≤ k ≤ len c) as Hk by (pose proof (len_nonneg c); lia).
  case_bool_decide as Hd.
  - intros [= <- <-]. split; [done|]. exists (drop (Z.to_nat k) c :: cs). split; [done|].
    simpl. rewrite <- (assoc_L (++)). f_equal. by rewrite (assoc_L (++)), take_drop.
  - intros E. apply IH in E as (Hl & rest & -> & Hc).
    + split; [done|]. exists rest. split; [done|]. rewrite Hc, <- (assoc_L (++)). f_equal.
      rewrite len_app, take_len in Hd by done.
      assert (k = len c) as Hkc by lia. rewrite Hkc. unfold len. rewrite Nat2Z.id.
      by rewrite take_ge.
    + rewrite len_app, take_len in * by done. lia.
Qed.

(** ** Theorems *)

Section theorems.
Context {AE : Aead} {AL : AeadLaws} {HK : Hkdf}.

(** C33: an upload body is accepted exactly when it is a whole stream.  However
    the network cut it into chunks, and as long as the relay is not wiped, the
    relay takes a ciphertext and its digest from a body if and only if the bytes
    of the body are the records of a complete sequence of frames, sealed under
    this session, handle and direction, that carry exactly this ciphertext; its
    length is then the announced one. *)
Theorem upload_stream_exact sha256 epochs captured b root d n data bucket o chunks ct digest :
  (∀ i, epochs i = captured) → 0 ≤ n → into_opener b root d n data bucket = Ok o →
  receive_upload_stream sha256 epochs captured (Chunk <$> chunks) o n = Ok (ct, digest) ↔
  digest = sha256 ct ∧ len ct = n ∧
  ∃ fs rs, complete_stream o fs ∧ recorded o fs rs ∧ frame_data fs = ct ∧ concat chunks = concat rs.
Proof. intros He. by apply upload_stream_iff. Qed.

Lemma same_ends b root d n data bucket s o :
  into_sealer b root d n = Ok s → into_opener b root d n data bucket = Ok o → s = o.
Proof.
  unfold into_sealer, into_opener. intros (l & Hl & Hs)%bind_Ok. rewrite Hl.
  cbn [mbind result_bind]. intros (? & _ & Ho)%bind_Ok.
  apply bind_Ok in Hs as (k & Hk & [= <-]). rewrite Hk in Ho. by injection Ho as <-.
Qed.

Lemma stream_frames_complete content s :
  stream_ok s → se_ended s = false → se_data_frames s = 0 → se_padding_frames s = 0 →
  sl_ciphertext_len (se_layout s) = len content →
  plays s (chunks content 0 (Z.to_nat (sl_data_frames (se_layout s)))) ∧
  complete_stream s (stream_frames content (se_layout s)).
Proof.
  intros Hs He Hd Hp Hl. pose proof (so_layout _ Hs) as (L1 & L2 & L3 & L4).
  set (l := se_layout s) in *.
  destruct (plays_chunks content 0 (Z.to_nat (sl_data_frames l)) s) as (H1 & H2 & H3 & H4);
    [done..|fold l; lia|].
  set (cs := chunks content 0 (Z.to_nat (sl_data_frames l))) in *.
  destruct (after_same s cs) as (_ & _ & _ & El). fold l in El.
  destruct (plays_padding (Z.to_nat (sl_bucket_frames l - sl_data_frames l)) (after s cs))
    as [H5 H6]; [by apply after_ok|done|rewrite H2, <- El; lia|rewrite H2, H3, <- El; lia|].
  split; [done|]. unfold complete_stream, stream_frames. fold cs.
  rewrite plays_app, after_app. done.
Qed.

(** What the download task sends, when nothing interrupts it. *)
Lemma download_response_run {EN : Entropy} {EL : EntropyLaws} epochs captured sends record blob s :
  (∀ i, epochs i = captured) → (∀ i, sends i = true) → answers →
  stream_ok s → se_ended s = false → se_data_frames s = 0 → se_padding_frames s = 0 →
  sl_ciphertext_len (se_layout s) = len blob →
  ∃ rs, download_response epochs captured sends record blob s = record :: rs ∧
    recorded s (stream_frames blob (se_layout s)) rs.
Proof.
  intros Hep Hsend Hans Hs He Hd Hp Hl.
  destruct (stream_frames_complete blob s Hs He Hd Hp Hl) as [Hcs [Hall _]].
  pose proof (so_layout _ Hs) as (? & ? & ? & ?).
  set (l := se_layout s) in *. set (cs := chunks blob 0 (Z.to_nat (sl_data_frames l))) in *.
  unfold download_response, send_frame at 1. simpl.
  rewrite !Hep, !bool_decide_false, Hsend by naive_solver. simpl.
  assert (seal_data <$> chunks_of (length blob) ATTACHMENT_STREAM_PAYLOAD_BYTES blob
    = seal_frame <$> cs) as ->.
  { change ATTACHMENT_STREAM_PAYLOAD_BYTES with P.
    transitivity (seal_frame <$> (Data <$> chunks_of (length blob) P blob)).
    { rewrite <- list_fmap_compose. done. }
    f_equal. rewrite <- (drop_0 blob) at 2.
    apply (chunks_of_frames blob 0); [rewrite length_drop; lia|left; simpl; lia|simpl; lia]. }
  destruct (send_all_run epochs captured Hep sends cs (mkSender s [record] 2) Hsend Hans Hs Hcs)
    as (rs1 & tx1 & -> & Hr1 & Hs1 & Hsent1). simpl in *.
  destruct (after_same s cs) as (_ & _ & _ & El). rewrite Hs1, <- El. fold l.
  set (pads := Z.to_nat (saturating_sub (sl_bucket_frames l) (sl_data_frames l))).
  assert (stream_frames blob l = cs ++ replicate pads Padding ++ [End_]) as Hfr.
  { unfold stream_frames, pads, saturating_sub. by rewrite Z.max_r by lia. }
  rewrite Hfr, plays_app in Hall. destruct Hall as [_ Hrest].
  apply plays_app in Hrest as [Hpad Hend].
  assert (stream_ok (after s cs)) as Hok1 by (by apply after_ok).
  assert (replicate pads seal_padding = seal_frame <$> replicate pads Padding) as ->
    by (by rewrite fmap_replicate).
  destruct (send_all_run epochs captured Hep sends (replicate pads Padding) tx1 Hsend Hans)
    as (rs2 & tx2 & -> & Hr2 & Hs2 & Hsent2); [by rewrite Hs1..|].
  destruct (send_all_run epochs captured Hep sends [End_] tx2 Hsend Hans)
    as (rs3 & tx3 & E3 & Hr3 & _ & Hsent3).
  { rewrite Hs2, Hs1. by apply after_ok. }
  { by rewrite Hs2, Hs1. }
  simpl in E3. rewrite E3. cbn [snd].
  exists (rs1 ++ rs2 ++ rs3). rewrite Hsent3, Hsent2, Hsent1, <- !(assoc_L (++)). split; [done|].
  rewrite Hfr. rewrite Hs1 in Hr2. rewrite Hs2, Hs1 in Hr3. repeat apply recorded_app; done.
Qed.

(** The two stream loops are inverse.  For every blob of an allowed size,
    the task that answers a download sends the result record and then records
    that the loop receiving a stream at the other end of the same binding, fed
    them in chunks of any sizes, turns into exactly the blob and its digest. *)
Theorem blob_stream_roundtrip {EN : Entropy} {EL : EntropyLaws} sha256 epochs captured sends
    b root d blob data bucket s o record :
  (∀ i, epochs i = captured) → (∀ i, sends i = true) → answers →
  into_sealer b root d (len blob) = Ok s → into_opener b root d (len blob) data bucket = Ok o →
  ∃ rs, download_response epochs captured sends record blob s = record :: rs ∧
    ∀ cut, concat cut = concat rs →
      receive_upload_stream sha256 epochs captured (Chunk <$> cut) o (len blob)
        = Ok (blob, sha256 blob).
Proof.
  intros Hep Hsend Hans Hse Hop. pose proof (same_ends _ _ _ _ _ _ _ _ Hse Hop) as <-.
  pose proof (len_nonneg blob) as Hn.
  destruct (opener_start _ _ _ _ _ _ _ Hn Hop) as (Hs & Hlay & Hl & Hz & Hb & Hd & Hp & He).
  destruct (download_response_run epochs captured sends record blob s) as (rs & Hrs & Hr); [done..|].
  exists rs. split; [done|]. intros cut Hcut.
  apply (upload_stream_iff epochs captured Hep sha256 b root d (len blob) data bucket s cut);
    [done|done|]. split_and!; [done|done|].
  destruct (stream_frames_complete blob s) as [_ Hcs]; [done..|].
  exists (stream_frames blob (se_layout s)), rs. split_and!; [done|done| |done].
  apply frames_data; [apply Hs|done].
Qed.
End theorems.

(** ** A concrete stream *)

Import Demo.

Lemma zero_entropy_answers : @answers zero_entropy.
Proof. intros n Hn. simpl. rewrite decide_True by done. by eexists. Qed.

Lemma demo_ends : ∃ s data bucket,
  into_sealer demo_stream_binding demo_stream_root ClientToServer (len demo_content) = Ok s ∧
  into_opener demo_stream_binding demo_stream_root ClientToServer (len demo_content) data bucket
    = Ok s.
Proof.
  destruct (stream_start_total demo_stream_binding demo_stream_root ClientToServer (len demo_content))
    as (n & s & o & data & bucket & Hs & Ho & _);
    [done..|split; vm_compute; (reflexivity || discriminate)|].
  exists s, data, bucket. split; [done|]. by rewrite (same_ends _ _ _ _ _ _ _ _ Hs Ho).
Qed.

Lemma blob_stream_roundtrip_witness :
  ∃ o rs, receive_upload_stream (λ x, x) (λ _, 0) 0 (Chunk <$> rs) o (len demo_content)
    = Ok (demo_content, demo_content).
Proof.
  destruct demo_ends as (s & data & bucket & Hs & Ho).
  destruct (@blob_stream_roundtrip _ _ _ zero_entropy zero_entropy_laws (λ x, x) (λ _, 0) 0
    (λ _, true) demo_stream_binding demo_stream_root ClientToServer demo_content data bucket s s []
    (λ _, eq_refl) (λ _, eq_refl) zero_entropy_answers Hs Ho) as (rs & _ & Hr).
  exists s, rs. apply Hr. reflexivity.
Defined.

Lemma upload_stream_exact_witness :
  ∃ o fs rs, complete_stream o fs ∧ recorded o fs rs ∧ frame_data fs = demo_content ∧
    receive_upload_stream (λ x, x) (λ _, 0) 0 (Chunk <$> rs) o (len demo_content)
      = Ok (demo_content, demo_content).
Proof.
  destruct demo_ends as (s & data & bucket & Hs & Ho).
  pose proof (len_nonneg demo_content) as Hn.
  destruct (opener_start _ _ _ _ _ _ _ Hn Ho) as (Hok & _ & Hl & _ & _ & Hd & Hp & He).
  destruct (@download_response_run _ _ zero_entropy zero_entropy_laws (λ _, 0) 0 (λ _, true) []
    demo_content s (λ _, eq_refl) (λ _, eq_refl) zero_entropy_answers Hok He Hd Hp Hl)
    as (rs & _ & Hr).
  destruct (stream_frames_complete demo_content s Hok He Hd Hp Hl) as [_ Hc].
  pose proof (frames_data demo_content (se_layout s) (so_layout _ Hok) Hl) as Hf.
  exists s, (stream_frames demo_content (se_layout s)), rs.
  split; [exact Hc|]. split; [exact Hr|]. split; [exact Hf|].
  apply (proj2 (upload_stream_exact (λ x, x) (λ _, 0) 0 demo_stream_binding demo_stream_root
    ClientToServer (len demo_content) data bucket s rs demo_content demo_content
    (λ _, eq_refl) Hn Ho)).
  split; [reflexivity|]. split; [reflexivity|].
  exists (stream_frames demo_content (se_layout s)), rs.
  split; [exact Hc|]. split; [exact Hr|]. split; [exact Hf|reflexivity].
Defined.
