(* ===== verification/AttachmentExecute.v ===== *)
(** * The attachment endpoint (mirage-server/src/attachment_transport.rs)

    An authenticated request carries one action; [execute] runs it and seals the
    result.  An upload reads the rest of the body between its admission and its
    commit, a download hashes its blob between the reservation and the answer:
    [meanwhile] is whatever the rest of the relay did to the state in that
    time. *)

From S2P Require Import Prelude RoomModel RoomAuthority RoomLifecycle TransportWire Records.
From S2P Require Import Attachment AttachmentStream StreamFacts StreamTheorems AttachmentAccess.
From S2P Require Import AttachmentStore AttachmentBlob AttachmentUpload AttachmentActions.
From S2P Require Import AttachmentReceive AttachmentReceiveTheorems.

Definition ATTACHMENT_ACTION_AAD : bytes :=
  text_bytes "ABYSSAL-TRANSPORT-V11-ATTACHMENT-ACTION".

Record AuthenticatedRequest : Type := mkRequest {
  rq_session_id : bytes;
  rq_handle : bytes;
  rq_generation : Z;
  rq_root : bytes;
  rq_auth : AuthSession;
  rq_action : AttachmentAction;
  rq_response_sealer : HttpEnd
}.

(** What the client gets first, and the stream that follows a download. *)
Record DownloadResponse : Type := mkDownload {
  dl_blob : bytes;
  dl_sealer : StreamEnd;
  dl_epoch : Z
}.
Record FirstResponse : Type := mkFirst {
  fr_record : bytes;
  fr_download : option DownloadResponse
}.

Section endpoint.
Context {HO : HashOrder} {AE : Aead} {HK : Hkdf} {EN : Entropy}.
Context (sha256 : bytes → bytes) (node_public_key : bytes).

(** [session] is the transport session's root, [auth] what its token stands
    for. *)
Definition authenticate (session : option bytes) (auth : option AuthSession)
    (session_id handle record : bytes) (generation : Z) : result () AuthenticatedRequest :=
  root ← ok_or session tt;
  auth ← ok_or auth tt;
  binding ← ok_or (ok (http_binding node_public_key session_id)) tt;
  '(sealer, opener) ← ok_or (ok (http_into_server binding root)) tt;
  plaintext ← ok_or (ok (http_open handle ATTACHMENT_ACTION_AAD record opener).1) tt;
  action ← ok_or (ok (decode_attachment_action plaintext)) tt;
  Ok (mkRequest session_id handle generation root auth action sealer).

Definition seal_result (sealer : HttpEnd) (handle : bytes) (result : AttachmentResult)
    : option bytes * HttpEnd :=
  match encode_attachment_result result with
  | Err _ => (None, sealer)
  | Ok encoded =>
      let '(record, sealer) := http_seal handle ATTACHMENT_ACTION_AAD encoded sealer in
      (ok record, sealer)
  end.

(** [random_record] is the answer of last resort, of the same length. *)
Definition terminal_failure (request : AuthenticatedRequest) (random_record : bytes)
    : FirstResponse :=
  mkFirst (default random_record
             (seal_result (rq_response_sealer request) (rq_handle request) Failure).1) None.

Definition upload_opener (request : AuthenticatedRequest) (ciphertext_len : Z) : res StreamEnd :=
  data ← attachment_data_frame_count ciphertext_len;
  bucket ← attachment_bucket_frame_count data;
  binding ← stream_binding node_public_key (rq_session_id request) (rq_handle request);
  into_opener binding (rq_root request) ClientToServer ciphertext_len data bucket.

(** What is asked and read while an upload runs. *)
Record UploadRun : Type := mkUploadRun {
  ur_admit_clock : UploadClock;
  ur_admit_session : option AuthSession;
  ur_permits : UploadPermits;
  ur_epochs : nat → Z;
  ur_commit_clock : UploadClock;
  ur_commit_session : option AuthSession;
  ur_attachment_id : Uuid
}.

Definition execute_upload (x : UploadRun) (limits : AttachmentLimits)
    (request : AuthenticatedRequest) (body : list BodyEvent)
    (meanwhile : UploadState → UploadState) (state : UploadState)
    : AttachmentResult * UploadState :=
  match admit_upload (ur_admit_clock x) limits (ur_admit_session x) (rq_auth request)
          (rq_action request) (rq_generation request) (ur_permits x) state with
  | (Err _, state) => (Failure, state)
  | (Ok admission, state) =>
      match upload_opener request (ad_ciphertext_len admission) with
      | Err _ => (Failure, state)
      | Ok opener =>
          match receive_upload_stream sha256 (ur_epochs x) (ad_epoch admission) body opener
                  (ad_ciphertext_len admission) with
          | Err _ => (Failure, meanwhile state)
          | Ok (ciphertext, digest) =>
              if bool_decide (digest ≠ ad_expected_digest admission)
              then (Failure, meanwhile state)
              else
                match commit_upload (ur_commit_clock x) limits (ad_epoch admission)
                        (ur_commit_session x) (au_code_id (rq_auth request)) (ad_action admission)
                        ciphertext (ur_attachment_id x) (meanwhile state) with
                | (Ok attachment_id, state) => (UploadAccepted attachment_id, state)
                | (Err _, state) => (Failure, state)
                end
          end
      end
  end.

(** A download that goes through, or the failure to report; and the sealer of
    the response, which has used its handle once a result was sealed. *)
Definition execute_download (q : DownloadReadings) (session : option AuthSession) (epoch : Z)
    (policy : InteropPolicy) (request : AuthenticatedRequest) (attachment_id : Uuid)
    (body : list BodyEvent) (meanwhile : UploadState → UploadState) (state : UploadState)
    : option (option FirstResponse * HttpEnd * UploadState) :=
  let response_sealer := rq_response_sealer request in
  if negb (is_ok (digest_empty_stream body)) then Some (None, response_sealer, state)
  else
    '(reserved, state) ←
      begin_download_reserve q policy (rq_auth request) attachment_id (rq_generation request) state;
    match reserved with
    | Err _ => Some (None, response_sealer, state)
    | Ok reservation =>
        let state := meanwhile state in
        let '(answer, s) :=
          begin_download_answer sha256 session epoch (rq_auth request) attachment_id
            (rq_generation request) reservation (us_store state) in
        let state := with_store s state in
        match answer with
        | Err _ => Some (None, response_sealer, state)
        | Ok result =>
            let '(record, response_sealer) :=
              seal_result response_sealer (rq_handle request) result in
            let sealer :=
              binding ← stream_binding node_public_key (rq_session_id request) (rq_handle request);
              into_sealer binding (rq_root request) ServerToClient (len (rv_blob reservation)) in
            match record, sealer with
            | Some record, Ok sealer =>
                Some (Some (mkFirst record
                        (Some (mkDownload (rv_blob reservation) sealer (rv_epoch reservation)))),
                      response_sealer, state)
            | _, _ => Some (None, response_sealer, state)
            end
        end
    end.

(** The three kinds of action; the arguments of the kinds not taken are not
    used. *)
Definition execute (x : UploadRun) (q : DownloadReadings) (session : option AuthSession)
    (epoch now : Z) (limits : AttachmentLimits) (policy : InteropPolicy)
    (request : AuthenticatedRequest) (body : list BodyEvent) (random_record : bytes)
    (meanwhile : UploadState → UploadState) (state : UploadState)
    : option (FirstResponse * UploadState) :=
  let respond sealer result :=
    mkFirst (default random_record (seal_result sealer (rq_handle request) result).1) None in
  let sealer := rq_response_sealer request in
  match rq_action request with
  | BeginUpload _ =>
      let '(result, state) := execute_upload x limits request body meanwhile state in
      Some (respond sealer result, state)
  | BeginDownload attachment_id =>
      '(response, sealer, state) ←
        execute_download q session epoch policy request attachment_id body meanwhile state;
      Some (default (respond sealer Failure) response, state)
  | action =>
      if negb (is_ok (digest_empty_stream body)) then Some (respond sealer Failure, state)
      else
        let '(result, s) :=
          execute_command now session epoch (rq_auth request) action (rq_generation request)
            (us_store state) in
        Some (respond sealer result, with_store s state)
  end.
End endpoint.

(** * The attachment endpoint: theorems *)

Section endpoint.
Context {HO : HashOrder} {AE : Aead} {AL : AeadLaws} {HK : Hkdf}.
Context (sha256 : bytes → bytes) (node_public_key : bytes).

Lemma admit_upload_Ok clock l session auth action epoch permits st adm st' :
  admit_upload clock l session auth action epoch permits st = (Ok adm, st') →
  action = BeginUpload (ad_action adm) ∧ ad_epoch adm = epoch ∧
  ad_expected_digest adm = up_ciphertext_sha256 (ad_action adm) ∧
  ad_ciphertext_len adm = up_ciphertext_len (ad_action adm) ∧
  0 ≠ ad_ciphertext_len adm ∧ us_epoch st = epoch ∧ same_session session auth = true.
Proof.
  unfold admit_upload. destruct (bool_decide (us_epoch st ≠ epoch)) eqn:He; [done|].
  apply bool_decide_eq_false, dec_stable in He.
  destruct (same_session session auth) eqn:Hs; [|done]. simpl negb. cbv iota.
  destruct action as [up|?|? ?|? ?|?]; try done.
  destruct (_ || _); [done|]. destruct (bool_decide (usize_MAX < _)); [done|].
  destruct (bool_decide (up_ciphertext_len up = 0) || _) eqn:Hz; [done|].
  apply orb_false_iff in Hz as [Hz _]. apply bool_decide_eq_false in Hz.
  repeat (case_match; try done). intros [= <- <-]. simpl. split_and!; done.
Qed.

Lemma upload_opener_Ok request n o :
  upload_opener node_public_key request n = Ok o →
  ∃ data bucket,
    into_opener (mkStreamBinding node_public_key (rq_session_id request) (rq_handle request))
      (rq_root request) ClientToServer n data bucket = Ok o.
Proof.
  unfold upload_opener, stream_binding. intros (data & _ & H)%bind_Ok.
  apply bind_Ok in H as (bucket & _ & H). apply bind_Ok in H as (b & Hb & H).
  apply bind_Ok in Hb as (_ & _ & [= <-]). eauto.
Qed.

(** C32: an upload is end to end.  When the endpoint accepts one while the relay
    is not wiped, the bytes of the body are the records of a complete stream
    sealed under this session, handle and direction; the ciphertext it carries
    has the announced length and digest; and the attachment staged under the
    answered identifier, for the announced conversation and message and owned by
    the requesting account, holds exactly that ciphertext, unpublished -
    whatever the relay did between the admission and the commit. *)
Theorem upload_end_to_end x limits request chunks meanwhile st id st' upload :
  (∀ i, ur_epochs x i = rq_generation request) →
  rq_action request = BeginUpload upload → 0 ≤ up_ciphertext_len upload →
  execute_upload sha256 node_public_key x limits request (Chunk <$> chunks) meanwhile st
    = (UploadAccepted id, st') →
  ∃ o fs rs r,
    upload_opener node_public_key request (up_ciphertext_len upload) = Ok o ∧
    complete_stream o fs ∧ recorded o fs rs ∧ concat chunks = concat rs ∧
    len (frame_data fs) = up_ciphertext_len upload ∧
    sha256 (frame_data fs) = up_ciphertext_sha256 upload ∧
    st_attachments (us_store st') !! id = Some r ∧ ar_blob r = frame_data fs ∧
    record_key r = mkBindingKey (au_code_id (rq_auth request)) (up_chat_id upload)
                     (up_message_id upload) ∧
    st_bindings (us_store st') !! record_key r = Some id ∧ ar_published r = false.
Proof.
  intros Hep Hact Hlen. unfold execute_upload.
  destruct (admit_upload _ _ _ _ _ _ _ _) as [[adm|] st1] eqn:Ha; [|done].
  apply admit_upload_Ok in Ha as (Hup & He & Hdg & Hl & _ & _ & _).
  rewrite Hact in Hup. injection Hup as ->. rewrite Hl, He in *.
  destruct (upload_opener _ _ _) as [o|] eqn:Ho; [|done].
  destruct (receive_upload_stream _ _ _ _ _ _) as [[ct digest]|] eqn:Hr; [|done].
  destruct (bool_decide (digest ≠ _)) eqn:Hd; [done|]. apply bool_decide_eq_false, dec_stable in Hd.
  destruct (commit_upload _ _ _ _ _ _ _ _ _) as [[id'|] st2] eqn:Hc; [|done].
  intros [= <- <-]. destruct (upload_opener_Ok _ _ _ Ho) as (data & bucket & Ho').
  eapply (upload_stream_iff (ur_epochs x) (rq_generation request) Hep sha256) in Hr
    as (-> & Hct & fs & rs & Hcs & Hrec & <- & Hcc); [|done|exact Ho'].
  apply commit_upload_Ok in Hc
    as (username & platform & access & c1 & rcp & -> & _ & _ & _ & _ & _ & _ & _ & Hst & Hb).
  eexists o, fs, rs, _. rewrite Hdg in Hd. split_and!; done.
Qed.
End endpoint.
