(* ===== verification/AttachmentDemo.v ===== *)
(** * The attachment registry: a concrete run

    One attachment of a shared room: uploaded, published with its message,
    fetched once by a recipient; and the same attachment rolled back.  The runs
    instantiate the theorems of AttachmentTheorems.v and AttachmentUpload.v. *)

From S2P Require Import Prelude TransportWire RoomModel RoomValidation RoomAuthority RoomLifecycle.
From S2P Require Import Attachment AttachmentBlob AttachmentAccess AttachmentStore.
From S2P Require Import AttachmentStoreFacts AttachmentUpload AttachmentEvolution.
From S2P Require Import AttachmentTheorems AttachmentActions Records AttachmentStream StreamFacts.
From S2P Require Import StreamTheorems AttachmentReceive AttachmentReceiveTheorems.
From S2P Require Import AttachmentExecute RecordTheorems.

Module AttachmentRun.

Definition alice : CodeId := [Byte.x01].
Definition bob : CodeId := [Byte.x02].
Definition carol : CodeId := [Byte.x03].

Definition room : RoomRecord :=
  mkRoomRecord "room_1" "room" "alice" 0 0 true true true false 0 0 false 0 0 false 0 3600 true.
Definition catalog : Catalog :=
  mkCatalog
    {[alice := mkAccount "alice" (Some Web); bob := mkAccount "bob" (Some Web);
      carol := mkAccount "carol" (Some Web)]}
    (RoomAuthority.new 8) {["room_1" := mkRoomEntry room alice]} ∅.

Definition limits : AttachmentLimits := mkLimits 1000000 1000000 10 10 86400.

Definition body : bytes :=
  attachment_chunk_header 0 1 10 (replicate 24 Byte.x01)
    ++ replicate (Z.to_nat (ATTACHMENT_CHUNK_RECORD_BYTES - 41)) Byte.x02.

Definition offer : Upload := mkUpload "room_1" "msg_1" File Byte.x02 ATTACHMENT_CHUNK_RECORD_BYTES [] true false 600.
Definition clock : UploadClock := mkUploadClock 1000 1000 1000 1000 1000 1000 1000.
Definition file_id : Uuid := [Byte.xaa].
Definition claim : Uuid := [Byte.xbb].

(** The run of a ciphertext. *)
Section run.
Context (ct : bytes).

Definition upload_run :=
  commit_upload clock limits 7 (Some (mkAuth alice "alice")) alice offer ct file_id
    (mkUploadState catalog store_new 7).
Definition uploaded_store : AttachmentStore := us_store upload_run.2.

(** The recipients of the message, bound and published. *)
Definition rebound := rebind_staged_attachment_recipients file_id {[bob; carol]} uploaded_store.
Definition published :=
  publish_staged_attachment_checked 2000 file_id alice "room_1" "msg_1" rebound.2.

Definition accounts : gmap CodeId Account := ct_accounts catalog.
Definition policy : InteropPolicy := mkInterop false false.
Definition ask (now : Z) (who : CodeId) (s : AttachmentStore) :=
  reserve_attachment_download_inner 7 now now now (λ _, now) [claim] policy accounts file_id who true s.
Definition store_after {A} (answer : option (A * AttachmentStore)) : AttachmentStore :=
  match answer with Some (_, s) => s | None => store_new end.
Definition reserved := ask 3000 bob published.2.
Definition completed :=
  complete_attachment_download_claim 4000 file_id bob claim (store_after reserved).

(** The same download through the endpoint. *)
Definition bob_session : AuthSession := mkAuth bob "bob".
Definition readings : DownloadReadings :=
  mkReadings (Some bob_session) clock 7 (Some bob_session) true 3000 3000 3000 (λ _, 3000) [claim].
Definition downloaded :=
  begin_download_reserve readings policy bob_session file_id 7
    (mkUploadState catalog published.2 7).

(** The upload through the endpoint. *)
Definition alice_session : AuthSession := mkAuth alice "alice".
Definition admitted :=
  admit_upload clock limits (Some alice_session) alice_session (BeginUpload offer) 7
    (mkPermits true true true) (mkUploadState catalog store_new 7).
Definition committed :=
  commit_upload clock limits 7 (Some alice_session) alice offer ct file_id admitted.2.
End run.

Definition node_key : bytes := sb_node_public_key demo_stream_binding.
Definition upload_request : AuthenticatedRequest :=
  mkRequest (sb_session_id demo_stream_binding) (sb_operation_handle demo_stream_binding) 7
    demo_stream_root alice_session (BeginUpload offer)
    (mkHttpEnd [] ServerToClient [] ∅).
Definition upload_run_readings : UploadRun :=
  mkUploadRun clock (Some alice_session) (mkPermits true true true) (λ _, 7) clock
    (Some alice_session) file_id.

(** The answers of the run. *)
Definition granted {E A} (answer : option (result E A * AttachmentStore)) : bool :=
  match answer with Some (Ok _, _) => true | _ => false end.
Definition went_well (ct : bytes) : Prop :=
  is_ok (upload_run ct).1 = true ∧ is_ok (rebound ct).1 = true ∧ is_ok (published ct).1 = true ∧
  granted (reserved ct) = true ∧ is_ok (completed ct).1 = true ∧
  ar_published <$> st_attachments (store_after (reserved ct)) !! file_id = Some true ∧
  is_ok (default (Err tt) (fst <$> downloaded ct)) = true ∧
  admitted.1 = Ok (mkAdmission offer [] ATTACHMENT_CHUNK_RECORD_BYTES 7) ∧
  (committed ct).1 = Ok file_id ∧ len ct = ATTACHMENT_CHUNK_RECORD_BYTES.

Lemma body_goes_well : went_well body.
Proof. unfold went_well. split_and!; vm_compute; reflexivity. Qed.

Lemma limits_fine : limits_sane limits.
Proof. split; simpl; unfold usize_MAX; lia. Qed.

Lemma step_to {l label s s'} : attachment_step l label s s' → some_step l s s'.
Proof. by exists label. Qed.

Lemma granted_answer {E A} (answer : option (result E A * AttachmentStore)) :
  granted answer = true → ∃ v, answer = Some (Ok v, store_after answer).
Proof. destruct answer as [[[v|] s]|]; [|done..]. by exists v. Qed.

Lemma uploaded_reachable ct : attachments_reachable limits (uploaded_store ct).
Proof.
  unfold uploaded_store, upload_run. apply rtc_once, (step_to (label := LUpload file_id)).
  destruct (commit_upload _ _ _ _ _ _ _ _ _) as [x [c' s' e']] eqn:E. by eapply StepUpload.
Qed.

Lemma published_reachable ct : attachments_reachable limits (published ct).2.
Proof.
  eapply rtc_r; [|eapply step_to, StepPublish].
  eapply rtc_r; [|eapply step_to, StepRebind]. apply uploaded_reachable.
Qed.

Lemma reserved_reachable ct :
  granted (reserved ct) = true → attachments_reachable limits (store_after (reserved ct)).
Proof.
  intros [v Hv]%granted_answer. eapply rtc_r; [apply (published_reachable ct)|].
  eapply step_to, StepReserve, Hv.
Qed.
End AttachmentRun.
Import AttachmentRun.

(** ** The theorems at this run *)

Lemma upload_staged_witness :
  ∃ r, st_attachments (uploaded_store body) !! file_id = Some r ∧ ar_published r = false.
Proof.
  generalize body, body_goes_well. intros ct (Hu & _).
  unfold uploaded_store. destruct (upload_run ct) as [x st'] eqn:E.
  destruct (proj1 (is_ok_Ok _) Hu) as [id' Hid]. cbn [fst] in Hid. subst x.
  destruct (upload_staged clock limits 7 (Some (mkAuth alice "alice")) alice offer ct
    file_id (mkUploadState catalog store_new 7) id' st' ltac:(vm_compute; discriminate) E)
    as (_ & _ & _ & u & a & c & r & e & d & _ & _ & _ & _ & Hr & _ & _ & Hp & _).
  exists r. split; [exact Hr|exact Hp].
Defined.

Lemma attachments_invariant_witness :
  default 0 (st_usage (store_after (reserved body)) !! alice)
    = map_sum (owned_len alice) (st_attachments (store_after (reserved body))).
Proof.
  generalize body, body_goes_well. intros ct (_ & _ & _ & Hg & _).
  destruct (attachments_invariant limits _ limits_fine (reserved_reachable ct Hg))
    as (_ & H & _). apply H.
Defined.

Lemma download_authorised_witness :
  ∃ v r, reserved body = Some (Ok v, store_after (reserved body)) ∧
    st_attachments (published body).2 !! file_id = Some r ∧ may_download policy accounts bob r.
Proof.
  generalize body, body_goes_well. intros ct (_ & _ & _ & Hg & _).
  destruct (granted_answer _ Hg) as [v Hv].
  destruct (download_authorised limits 7 3000 3000 3000 (λ _, 3000) [claim] policy accounts file_id bob
    true (published ct).2 v (store_after (reserved ct)) limits_fine (published_reachable ct) Hv)
    as (r & r' & Hr & _ & _ & _ & Hm & _).
  exists v, r. split; [exact Hv|]. split; [exact Hr|exact Hm].
Defined.

Lemma destructive_once_witness :
  granted (ask 6000 bob (prune_expired_attachments_locked 5000 (completed body).2)) = false.
Proof.
  generalize body, body_goes_well. intros ct (_ & _ & _ & Hg & Hc & Hp & _).
  unfold completed in *.
  destruct (complete_attachment_download_claim _ _ _ _ _) as [x s1] eqn:E.
  destruct (proj1 (is_ok_Ok _) Hc) as [[] Hx]. cbn [fst] in Hx. subst x. cbn [snd].
  destruct (granted (ask 6000 bob (prune_expired_attachments_locked 5000 s1))) eqn:Hgr;
    [|reflexivity].
  destruct (granted_answer _ Hgr) as [v Hv]. exfalso. revert Hv.
  apply (destructive_once limits 4000 file_id bob claim (store_after (reserved ct)) s1
    (prune_expired_attachments_locked 5000 s1) 7 6000 6000 6000 (λ _, 6000) [claim] policy
    accounts true v _ limits_fine (reserved_reachable ct Hg)).
  - intros r Hr. rewrite Hr in Hp. injection Hp as Hp. exact Hp.
  - exact E.
  - apply rtc_once. exists LOther. split; [split; discriminate|apply StepPrune].
Defined.

Lemma staged_rollback_restores_witness :
  ∃ rb, (rebound body).1 = Ok rb ∧
    rollback_staged_attachment rb (published body).2 = uploaded_store body.
Proof.
  generalize body, body_goes_well. intros ct (_ & Hr & Hp & _). unfold published, rebound in *.
  destruct (rebind_staged_attachment_recipients _ _ _) as [x s1] eqn:E1.
  destruct (proj1 (is_ok_Ok _) Hr) as [rb Hx]. cbn [fst snd] in *. subst x.
  destruct (publish_staged_attachment_checked _ _ _ _ _ _) as [y s2] eqn:E2.
  destruct (proj1 (is_ok_Ok _) Hp) as [[] Hy]. cbn [fst snd] in *. subst y.
  exists rb. split; [reflexivity|].
  exact (staged_rollback_restores 2000 file_id {[bob; carol]} alice "room_1" "msg_1"
    (uploaded_store ct) rb s1 s2 E1 E2).
Defined.

Lemma download_answered_witness :
  ∃ v data bucket,
    (begin_download_answer (λ _, []) (Some bob_session) 7 bob_session file_id 7 v
       (published body).2).1
    = Ok (DownloadAccepted (rv_claim_id v) (len (rv_blob v)) [] data bucket).
Proof.
  generalize body, body_goes_well. intros ct (_ & _ & _ & _ & _ & _ & Hd & _).
  destruct (downloaded ct) as [[[v|] st']|] eqn:E; [|discriminate..].
  destruct (download_answered (λ _, []) limits readings policy bob_session file_id 7
    (mkUploadState catalog (published ct).2 7) v st' (Some bob_session) 7 (published ct).2
    limits_fine (published_reachable ct) E) as [_ (data & bucket & _ & Ha)].
  exists v, data, bucket. exact (f_equal fst Ha).
Defined.

Import Demo.

(** The records of the body, and their acceptance. *)
Lemma upload_body_received ct :
  len ct = ATTACHMENT_CHUNK_RECORD_BYTES →
  ∃ o rs, upload_opener node_key upload_request ATTACHMENT_CHUNK_RECORD_BYTES = Ok o ∧
    receive_upload_stream (λ _, []) (λ _, 7) 7 (Chunk <$> rs) o ATTACHMENT_CHUNK_RECORD_BYTES
      = Ok (ct, []).
Proof.
  intros Hl.
  destruct (stream_start_total demo_stream_binding demo_stream_root ClientToServer
    ATTACHMENT_CHUNK_RECORD_BYTES) as (n & s & o & data & bucket & Hs & Ho & _);
    [done..|split; vm_compute; (reflexivity || discriminate)|].
  pose proof (same_ends _ _ _ _ _ _ _ _ Hs Ho) as <-. exists s.
  assert (0 ≤ ATTACHMENT_CHUNK_RECORD_BYTES) as Hz by (vm_compute; discriminate).
  destruct (opener_start _ _ _ _ _ _ _ Hz Ho)
    as (Hok & _ & Hsl & _ & _ & Hd & Hp & He).
  rewrite <- Hl in Hsl.
  destruct (@download_response_run _ _ zero_entropy zero_entropy_laws (λ _, 7) 7 (λ _, true) []
    ct s (λ _, eq_refl) (λ _, eq_refl) zero_entropy_answers Hok He Hd Hp Hsl) as (rs & _ & Hr).
  exists rs. split.
  - unfold upload_opener. unfold into_opener in Ho.
    apply bind_Ok in Ho as (l' & Hl' & Ho). unfold stream_layout in Hl'.
    apply bind_Ok in Hl' as (dt & Hdt & Hl'). apply bind_Ok in Hl' as (bk & Hbk & [= <-]).
    rewrite Hdt. cbn [mbind result_bind]. rewrite Hbk. cbn [mbind result_bind].
    apply bind_Ok in Ho as (? & _ & Ho). change (stream_binding _ _ _) with (Ok demo_stream_binding : res _).
    cbn [mbind result_bind]. unfold into_opener, stream_layout. rewrite Hdt.
    cbn [mbind result_bind]. rewrite Hbk. cbn [mbind result_bind].
    rewrite !bool_decide_false by (simpl; auto). cbn [orb reject_if mbind result_bind]. exact Ho.
  - rewrite <- Hl in *. apply (upload_stream_iff (λ _, 7) 7 (λ _, eq_refl) (λ _, []) _ _ _ _ _ _ _ rs ct []
      (len_nonneg ct) Ho). split; [done|]. split; [done|].
    exists (stream_frames ct (se_layout s)), rs. split; [by apply stream_frames_complete|].
    split; [done|]. split; [|done]. apply frames_data; [apply Hok|done].
Qed.

Lemma upload_end_to_end_witness :
  ∃ chunks id st' r,
    execute_upload (λ _, []) node_key upload_run_readings limits upload_request (Chunk <$> chunks)
      (λ st, st) (mkUploadState catalog store_new 7) = (UploadAccepted id, st') ∧
    st_attachments (us_store st') !! id = Some r ∧ ar_published r = false.
Proof.
  generalize body, body_goes_well. intros ct (_ & _ & _ & _ & _ & _ & _ & Ha & Hc & Hl).
  destruct (upload_body_received ct Hl) as (o & rs & Ho & Hr).
  assert (execute_upload (λ _, []) node_key upload_run_readings limits upload_request (Chunk <$> rs)
    (λ st, st) (mkUploadState catalog store_new 7) = (UploadAccepted file_id, (committed ct).2)) as E.
  { unfold execute_upload.
    change (admit_upload _ _ _ _ _ _ _ _) with admitted. unfold committed in *.
    destruct admitted as [a st1]. cbn [fst snd] in *. subst a. cbn [ad_ciphertext_len ad_epoch].
    rewrite Ho. change (ur_epochs upload_run_readings) with (λ _ : nat, 7). rewrite Hr.
    cbn [ad_expected_digest ad_action].
    rewrite bool_decide_false by (intros H; apply H; reflexivity).
    change (ur_commit_clock upload_run_readings) with clock.
    change (ur_commit_session upload_run_readings) with (Some alice_session).
    change (ur_attachment_id upload_run_readings) with file_id.
    change (au_code_id (rq_auth upload_request)) with alice.
    destruct (commit_upload _ _ _ _ _ _ _ _ _) as [y st2]. cbn [fst snd] in *. subst y. reflexivity. }
  destruct (upload_end_to_end (λ _, []) node_key upload_run_readings limits upload_request rs
    (λ st, st) (mkUploadState catalog store_new 7) file_id (committed ct).2 offer)
    as (o' & fs & rs' & r & _ & _ & _ & _ & _ & _ & Hst & _ & _ & _ & Hp).
  - reflexivity.
  - reflexivity.
  - vm_compute. discriminate.
  - exact E.
  - exists rs, file_id, (committed ct).2, r. split; [exact E|]. split; [exact Hst|exact Hp].
Defined.
