(* ===== verification/RelayFrame.v ===== *)
(** * Frames the relay sends (mirage-server/src/main.rs)

    The outbound frames and their wire records, the byte weight a frame has in
    the outbound queues, and the exact padding of direct messages.  The JSON
    text of a frame is what [serde_json::to_string] prints, a parameter;
    base64 comes from the [base64] crate and is a parameter too. *)

From S2P Require Import Prelude MlsWire RoomModel TransportWire TransportPadding AttachmentAccess.

Definition WS_MAX_FRAME_BYTES : Z := 1024 * 1024.
Definition MLS_WS_MAX_FRAME_BYTES : Z := 16 * 1024 * 1024.
Definition MLS_PROTOCOL_VERSION : Z := 10.

(** ** Wire records *)

Record MlsRosterWire : Type := mkRosterWire {
  rw_username : string;
  rw_stable_identity_b64 : string
}.

Record MlsRecoverySnapshotWire : Type := mkRecoveryWire {
  sw_active : bool;
  sw_epoch : Z;
  sw_revision : Z;
  sw_membership_digest_b64 : string;
  sw_state_envelope_b64 : string;
  sw_roster : list MlsRosterWire
}.

Record MlsRoomWire : Type := mkRoomWire {
  mw_room_id : string;
  mw_owner_username : string;
  mw_group_id_b64 : string;
  mw_active : bool;
  mw_synchronized : bool;
  mw_epoch : Z;
  mw_revision : Z;
  mw_membership_digest_b64 : string;
  mw_roster : list MlsRosterWire;
  mw_recovery_snapshot : option MlsRecoverySnapshotWire;
  mw_policy : RoomPolicy;
  mw_visibility : RoomVisibility
}.

Record MlsPublicRoomWire : Type := mkPublicWire {
  pw_room_id : string;
  pw_group_id_b64 : string;
  pw_owner_username : string;
  pw_policy : RoomPolicy
}.

Record PresenceUser : Type := mkPresence {
  pu_username : string;
  pu_connected : bool;
  pu_identity_public_b64 : string;
  pu_identity_prekey_id : string;
  pu_directory_digest : string;
  pu_directory_node_id : string;
  pu_directory_revision : Z
}.

Record DirectRecord : Type := mkDirectRecord { dr_id : string; dr_peer_username : string }.

(** The fields of [OutboundFrame::Message]. *)
Record MessageFrame : Type := mkMessage {
  om_chat_id : string;
  om_version : Z;
  om_message_id : string;
  om_nonce_b64 : string;
  om_ciphertext_b64 : string;
  om_signature_b64 : string;
  om_wrapped_key_b64 : string;
  om_prekey_id : string;
  om_is_prekey : bool;
  om_sender_username : string;
  om_sender_public_key_b64 : string;
  om_identity_public_b64 : string;
  om_directory_node_id : string;
  om_directory_revision : Z;
  om_directory_digest : string;
  om_padding_bucket : Z;
  om_padding : bytes
}.
Definition set_om_padding (bucket : Z) (padding : bytes) (m : MessageFrame) : MessageFrame :=
  mkMessage (om_chat_id m) (om_version m) (om_message_id m) (om_nonce_b64 m)
    (om_ciphertext_b64 m) (om_signature_b64 m) (om_wrapped_key_b64 m) (om_prekey_id m)
    (om_is_prekey m) (om_sender_username m) (om_sender_public_key_b64 m)
    (om_identity_public_b64 m) (om_directory_node_id m) (om_directory_revision m)
    (om_directory_digest m) bucket padding.

Module OutboundFrame.
Inductive t : Type :=
| Message (message : MessageFrame)
| PrekeyLease (chat_id message_id recipient_username recipient_public_key_b64 prekey_id : string)
    (expires_at_ms : Z)
| Presence (users : list PresenceUser)
| GlobalWipe
| Rooms (rooms : list RoomRecord)
| RoomCreated (room : RoomRecord)
| RoomDeleted (chat_id : string)
| Directs (directs : list DirectRecord)
| DirectOpened (direct : DirectRecord)
| MlsRooms (protocol_version : Z) (rooms : list MlsRoomWire)
| MlsPublicRooms (protocol_version : Z) (rooms : list MlsPublicRoomWire)
| MlsRoomDiscovered (protocol_version : Z) (room_id group_id_b64 owner_username : string)
| MlsRoomCreated (protocol_version : Z) (room : MlsRoomWire)
| MlsJoinRequested (protocol_version : Z)
    (room_id request_id username stable_identity_b64 key_package_b64 : string)
| MlsJoinRejected (protocol_version : Z) (room_id request_id : string)
| MlsLeaveRequested (protocol_version : Z)
    (room_id request_id username stable_identity_b64 : string)
| MlsLeavePending (protocol_version : Z) (room_id request_id : string)
| MlsLeaveRejected (protocol_version : Z) (room_id request_id : string)
| MlsLeft (protocol_version : Z) (room_id : string)
| MlsMembership (protocol_version : Z) (room_id message_id : string)
    (from_epoch to_epoch revision : Z)
    (from_membership_digest_b64 group_id_b64 membership_digest_b64 : string)
    (roster : list MlsRosterWire) (control_b64 welcome_b64 authenticated_data_b64 : string)
| MlsApplication (protocol_version : Z) (room_id message_id sender_username : string)
    (epoch revision : Z)
    (membership_digest_b64 ciphertext_b64 authenticated_data_b64 : string)
| MlsRoomResult (protocol_version : Z) (room_id message_id : string) (revision : Z)
    (accepted : bool)
| MlsRoomDeleted (protocol_version : Z) (room_id : string)
| MlsSnapshotResult (protocol_version : Z) (room_id message_id : string) (revision : Z)
    (accepted : bool)
| MessageResult (message_id : string) (accepted : bool)
| AckResult (message_id : string) (accepted : bool).

Definition is_mls (frame : t) : bool :=
  match frame with
  | MlsRooms _ _ | MlsPublicRooms _ _ | MlsRoomDiscovered _ _ _ _ | MlsRoomCreated _ _
  | MlsJoinRequested _ _ _ _ _ _ | MlsJoinRejected _ _ _ | MlsLeaveRequested _ _ _ _ _
  | MlsLeavePending _ _ _ | MlsLeaveRejected _ _ _ | MlsLeft _ _
  | MlsMembership _ _ _ _ _ _ _ _ _ _ _ _ _ | MlsApplication _ _ _ _ _ _ _ _ _
  | MlsRoomResult _ _ _ _ _ | MlsRoomDeleted _ _ | MlsSnapshotResult _ _ _ _ _ => true
  | _ => false
  end.

Definition is_presence (frame : t) : bool :=
  match frame with Presence _ => true | _ => false end.
End OutboundFrame.

(** [serde_json::to_string(frame)]. *)
Class FrameJson : Type := { frame_json : OutboundFrame.t → option bytes }.

(** ** Padding of direct messages *)

(** The length of the JSON text of a message, computed field by field. *)
Definition outbound_message_wire_len (m : MessageFrame) (padding_bucket : Z) (padding : bytes)
    : option Z :=
  let str (key : string) (value : string) :=
    json_string_field_len (text_bytes key) (text_bytes value) in
  let num (key : string) (value : Z) :=
    n ← json_number_len value; json_field_len (text_bytes key) n in
  f1 ← str "type" "message";
  f2 ← str "chat_id" (om_chat_id m);
  f3 ← num "version" (om_version m);
  f4 ← str "message_id" (om_message_id m);
  f5 ← str "nonce_b64" (om_nonce_b64 m);
  f6 ← str "ciphertext_b64" (om_ciphertext_b64 m);
  f7 ← str "signature_b64" (om_signature_b64 m);
  f8 ← str "wrapped_key_b64" (om_wrapped_key_b64 m);
  f9 ← str "prekey_id" (om_prekey_id m);
  f10 ← json_field_len (text_bytes "is_prekey") (json_bool_len (om_is_prekey m));
  f11 ← str "sender_username" (om_sender_username m);
  f12 ← str "sender_public_key_b64" (om_sender_public_key_b64 m);
  f13 ← str "identity_public_b64" (om_identity_public_b64 m);
  f14 ← str "directory_node_id" (om_directory_node_id m);
  f15 ← num "directory_revision" (om_directory_revision m);
  f16 ← str "directory_digest" (om_directory_digest m);
  f17 ← num "padding_bucket" padding_bucket;
  f18 ← json_string_field_len (text_bytes "padding") padding;
  json_object_len [f1; f2; f3; f4; f5; f6; f7; f8; f9; f10; f11; f12; f13; f14; f15; f16; f17; f18].

(** [iter().find_map(f)]. *)
Fixpoint find_map {A B} (f : A → option B) (l : list A) : option B :=
  match l with
  | [] => None
  | x :: l => match f x with Some y => Some y | None => find_map f l end
  end.

Definition canonical_outbound_message_bucket (m : MessageFrame) : option (Z * Z) :=
  find_map (λ bucket,
    empty_len ← outbound_message_wire_len m bucket [];
    if bool_decide (empty_len ≤ bucket) then Some (bucket, empty_len) else None)
    MESSAGE_TRANSPORT_BUCKETS.

Definition outbound_message_padding_is_canonical (frame : OutboundFrame.t) (serialized_len : Z)
    : bool :=
  match frame with
  | OutboundFrame.Message m =>
      bool_decide (om_padding_bucket m ∈ MESSAGE_TRANSPORT_BUCKETS)
      && valid_message_transport_padding (om_padding m)
      && match canonical_outbound_message_bucket m with
         | None => false
         | Some (canonical_bucket, empty_len) =>
             match checked_sub canonical_bucket empty_len with
             | None => false
             | Some expected_padding_len =>
                 bool_decide (om_padding_bucket m = canonical_bucket)
                 && bool_decide (expected_padding_len = len (om_padding m))
                 && bool_decide (serialized_len = canonical_bucket)
             end
         end
  | _ => true
  end.

(** The limit on the JSON text of a control frame. *)
Definition domain_limit (frame : OutboundFrame.t) : Z :=
  if OutboundFrame.is_mls frame then MLS_WS_MAX_FRAME_BYTES else WS_MAX_FRAME_BYTES.

Section frames.
Context {RNG : OsRng} {JSON : SerdeJson} {FJ : FrameJson}.

(** [prepare_outbound_message_padding]: on an error the frame keeps an empty
    padding, as the code leaves it. *)
Definition prepare_outbound_message_padding (frame : OutboundFrame.t)
    : result string () * OutboundFrame.t :=
  match frame with
  | OutboundFrame.Message m =>
      let m := set_om_padding 0 [] m in
      let plan :=
        '(canonical_bucket, empty_len) ←
          ok_or (canonical_outbound_message_bucket m) "message transport padding unavailable"%string;
        filler_len ← ok_or (checked_sub canonical_bucket empty_len)
                       "message transport padding length rejected"%string;
        filler ← random_message_transport_padding filler_len;
        Ok (canonical_bucket, filler) in
      match plan with
      | Err e => (Err e, OutboundFrame.Message m)
      | Ok (canonical_bucket, filler) =>
          let padded := OutboundFrame.Message (set_om_padding canonical_bucket filler m) in
          match len <$> frame_json padded with
          | None => (Err "message transport padding serialization failed"%string, padded)
          | Some serialized_len =>
              if bool_decide (serialized_len ≠ canonical_bucket)
              then (Err "message transport padding length rejected"%string,
                    OutboundFrame.Message (set_om_padding 0 [] m))
              else (Ok tt, padded)
          end
      end
  | _ => (Ok tt, frame)
  end.

Definition serialize_outbound_frame (frame : OutboundFrame.t) : option bytes :=
  serialized ← frame_json frame;
  if negb (outbound_message_padding_is_canonical frame (len serialized)) then None
  else
    match frame with
    | OutboundFrame.Message _ =>
        if bool_decide (len serialized ≤ MESSAGE_TRANSPORT_MAX_BUCKET) then Some serialized
        else None
    | _ => ok (pad_control_transport_frame serialized (domain_limit frame))
    end.

(** ** The weight of a frame in the outbound queues *)

(** [outbound_frame_bytes] (messages.rs). *)
Definition outbound_frame_bytes (frame : OutboundFrame.t) : Z :=
  match frame with
  | OutboundFrame.Message m =>
      match canonical_outbound_message_bucket m with
      | None => saturating_add usize_MAX WS_MAX_FRAME_BYTES 1
      | Some (canonical_bucket, empty_len) =>
          match checked_sub canonical_bucket empty_len with
          | None => saturating_add usize_MAX WS_MAX_FRAME_BYTES 1
          | Some expected_padding_len =>
              if bool_decide (om_padding_bucket m ≠ canonical_bucket)
                 || bool_decide (expected_padding_len ≠ len (om_padding m))
              then saturating_add usize_MAX WS_MAX_FRAME_BYTES 1
              else canonical_bucket
          end
      end
  | _ => 0
  end.

Definition outbound_queue_bytes (frame : OutboundFrame.t) : Z :=
  match frame with
  | OutboundFrame.Message _ => outbound_frame_bytes frame
  | _ =>
      default
        (if OutboundFrame.is_mls frame
         then saturating_add usize_MAX CONTROL_TRANSPORT_MAX_BUCKET 1
         else saturating_add usize_MAX WS_MAX_FRAME_BYTES 1)
        (serialized ← frame_json frame;
         control_transport_frame_len serialized (domain_limit frame))
  end.
End frames.
