(* ===== verification/OutboundQueue.v ===== *)
(** * Outbound queues (mirage-server/src/main.rs, transport.rs)

    Every connected client has a bounded channel of frames, one of results and
    one of controls, read by its writer task, and a counter of the bytes queued
    for it; the relay keeps one counter for all of them.  Until the snapshot of
    a new connection is complete its frames wait in a stage.

    A [tokio::sync::mpsc] channel is the list of its items and whether its
    receiver lives; [try_send] fails on a full or closed channel.  Each
    function runs without interruption, so the compare-and-swap loops succeed
    at their first attempt. *)

From S2P Require Import Prelude RoomModel TransportPadding AttachmentStore RelayFrame.

Definition CLIENT_OUTBOUND_QUEUE_CAPACITY : Z := 256.
Definition CLIENT_CONTROL_QUEUE_CAPACITY : Z := 1.
Definition CLIENT_RESULT_QUEUE_CAPACITY : Z := 2.
Definition CLIENT_OUTBOUND_BYTES : Z := WS_MAX_FRAME_BYTES.
Definition MLS_CLIENT_OUTBOUND_BYTES : Z := CONTROL_TRANSPORT_MAX_BUCKET.
Definition GLOBAL_OUTBOUND_BYTES : Z := 64 * 1024 * 1024.

(** ** State *)

Inductive ClientControl : Type := GlobalWipe | Close.

(** [delivered] names the one-shot channel the sender waits on. *)
Record ClientResult : Type := mkResult {
  cr_frame : OutboundFrame.t;
  cr_delivered : Z
}.

(** [ClientHandle], without the channel ends and the counter that the
    connection holds. *)
Record ClientHandle : Type := mkClient {
  cl_code_id : CodeId;
  cl_username : string;
  cl_platform : ClientPlatform
}.

(** The channels behind a handle: the writer outlives the handle, so they are
    kept apart from it.  [cn_bootstrapped] is the signal of [bootstrap_tx]. *)
Record Connection : Type := mkConnection {
  cn_tx : list OutboundFrame.t;
  cn_results : list ClientResult;
  cn_controls : list ClientControl;
  cn_open : bool;
  cn_queued_bytes : Z;
  cn_bootstrapped : bool
}.
Definition set_cn_tx v c :=
  mkConnection v (cn_results c) (cn_controls c) (cn_open c) (cn_queued_bytes c) (cn_bootstrapped c).
Definition set_cn_results v c :=
  mkConnection (cn_tx c) v (cn_controls c) (cn_open c) (cn_queued_bytes c) (cn_bootstrapped c).
Definition set_cn_controls v c :=
  mkConnection (cn_tx c) (cn_results c) v (cn_open c) (cn_queued_bytes c) (cn_bootstrapped c).
Definition set_cn_open v c :=
  mkConnection (cn_tx c) (cn_results c) (cn_controls c) v (cn_queued_bytes c) (cn_bootstrapped c).
Definition set_cn_queued_bytes v c :=
  mkConnection (cn_tx c) (cn_results c) (cn_controls c) (cn_open c) v (cn_bootstrapped c).
Definition set_cn_bootstrapped v c :=
  mkConnection (cn_tx c) (cn_results c) (cn_controls c) (cn_open c) (cn_queued_bytes c) v.

Record PendingClientStage : Type := mkStage {
  ps_initial_frames : list OutboundFrame.t;
  ps_live_frames : list OutboundFrame.t;
  ps_results : list ClientResult;
  ps_controls : list ClientControl;
  ps_aborted : bool
}.

Record Outbound : Type := mkOutbound {
  ob_clients : gmap Uuid ClientHandle;
  ob_connections : gmap Uuid Connection;
  ob_stages : gmap Uuid PendingClientStage;
  ob_outbound_bytes : Z;
  ob_delivered : list (Z * bool)
}.
Definition set_clients v ob :=
  mkOutbound v (ob_connections ob) (ob_stages ob) (ob_outbound_bytes ob) (ob_delivered ob).
Definition set_connections v ob :=
  mkOutbound (ob_clients ob) v (ob_stages ob) (ob_outbound_bytes ob) (ob_delivered ob).
Definition set_stages v ob :=
  mkOutbound (ob_clients ob) (ob_connections ob) v (ob_outbound_bytes ob) (ob_delivered ob).
Definition set_outbound_bytes v ob :=
  mkOutbound (ob_clients ob) (ob_connections ob) (ob_stages ob) v (ob_delivered ob).
Definition set_delivered v ob :=
  mkOutbound (ob_clients ob) (ob_connections ob) (ob_stages ob) (ob_outbound_bytes ob) v.

Definition outbound_new : Outbound := mkOutbound ∅ ∅ ∅ 0 [].

(** What a task does to the channels of one client. *)
Definition on_connection (client_id : Uuid) (f : Connection → Connection) (ob : Outbound)
    : Outbound := set_connections (alter f client_id (ob_connections ob)) ob.

(** [completion.send(value)] on the one-shot channels of results. *)
Definition complete (value : bool) (results : list ClientResult) (ob : Outbound) : Outbound :=
  set_delivered (ob_delivered ob ++ ((λ r, (cr_delivered r, value)) <$> results)) ob.

(** [Sender::try_send]. *)
Definition try_send {A} (capacity : Z) (open : bool) (items : list A) (x : A) : option (list A) :=
  if open && bool_decide (len items < capacity) then Some (items ++ [x]) else None.

(** [AtomicUsize::fetch_sub]. *)
Definition wrapping_sub (a b : Z) : Z := (a - b) mod (usize_MAX + 1).

Section queue.
Context {JSON : SerdeJson} {FJ : FrameJson}.

(** The bytes a queued frame holds. *)
Definition weight (frame : OutboundFrame.t) : Z := Z.max (outbound_queue_bytes frame) 1.

Definition reserve_outbound_bytes (client_id : Uuid) (bytes limit : Z) (ob : Outbound)
    : bool * Outbound :=
  match ob_connections ob !! client_id with
  | None => (false, ob)
  | Some c =>
      let bytes := Z.max bytes 1 in
      match checked_add usize_MAX (cn_queued_bytes c) bytes with
      | None => (false, ob)
      | Some local_next =>
          if bool_decide (limit < local_next) then (false, ob)
          else
            match checked_add usize_MAX (ob_outbound_bytes ob) bytes with
            | None => (false, ob)
            | Some global_next =>
                if bool_decide (GLOBAL_OUTBOUND_BYTES < global_next) then (false, ob)
                else
                  (true, set_outbound_bytes global_next
                           (on_connection client_id (set_cn_queued_bytes local_next) ob))
            end
      end
  end.

Definition release_client_outbound_bytes (client_id : Uuid) (frame : OutboundFrame.t)
    (ob : Outbound) : Outbound :=
  set_outbound_bytes (wrapping_sub (ob_outbound_bytes ob) (weight frame))
    (on_connection client_id
       (λ c, set_cn_queued_bytes (wrapping_sub (cn_queued_bytes c) (weight frame)) c) ob).

Definition release_all (client_id : Uuid) (frames : list OutboundFrame.t) (ob : Outbound)
    : Outbound := foldl (λ ob f, release_client_outbound_bytes client_id f ob) ob frames.

(** ** The stage of a new connection *)

Definition begin_client_stage (client_id : Uuid) (ob : Outbound) : Outbound :=
  set_stages (<[client_id := mkStage [] [] [] [] false]> (ob_stages ob)) ob.

Inductive StageOutcome (A : Type) : Type :=
| Pending | Ready (x : A) | Full (x : A) | Aborted (x : A).
Arguments Pending {A}.
Arguments Ready {A} x.
Arguments Full {A} x.
Arguments Aborted {A} x.

(** An initial presence replaces the live ones staged before it. *)
Definition superseded (frame staged : OutboundFrame.t) : bool :=
  OutboundFrame.is_presence frame && OutboundFrame.is_presence staged.

Definition stage_frame (initial : bool) (client_id : Uuid) (frame : OutboundFrame.t)
    (ob : Outbound) : StageOutcome OutboundFrame.t * Outbound :=
  match ob_stages ob !! client_id with
  | None => (Ready frame, ob)
  | Some stage =>
      if ps_aborted stage then (Aborted frame, ob)
      else if bool_decide
                (CLIENT_OUTBOUND_QUEUE_CAPACITY ≤
                 saturating_add usize_MAX (len (ps_initial_frames stage))
                   (len (ps_live_frames stage)))
      then (Full frame, ob)
      else if initial then
        let ob :=
          release_all client_id (filter (λ f, superseded frame f = true) (ps_live_frames stage)) ob in
        let stage :=
          mkStage (ps_initial_frames stage ++ [frame])
            (filter (λ f, superseded frame f = false) (ps_live_frames stage)) (ps_results stage)
            (ps_controls stage) (ps_aborted stage) in
        (Pending, set_stages (<[client_id := stage]> (ob_stages ob)) ob)
      else
        let stage :=
          mkStage (ps_initial_frames stage) (ps_live_frames stage ++ [frame])
            (ps_results stage) (ps_controls stage) (ps_aborted stage) in
        (Pending, set_stages (<[client_id := stage]> (ob_stages ob)) ob)
  end.

(** [stage_control]: the outcome carries the control it was given. *)
Definition stage_control (client_id : Uuid) (control : ClientControl) (ob : Outbound)
    : StageOutcome ClientControl * Outbound :=
  match ob_stages ob !! client_id with
  | None => (Ready control, ob)
  | Some stage =>
      if ps_aborted stage then (Aborted control, ob)
      else if bool_decide (CLIENT_CONTROL_QUEUE_CAPACITY ≤ len (ps_controls stage))
      then (Full control, ob)
      else
        let stage :=
          mkStage (ps_initial_frames stage) (ps_live_frames stage) (ps_results stage)
            (ps_controls stage ++ [control]) (ps_aborted stage) in
        (Pending, set_stages (<[client_id := stage]> (ob_stages ob)) ob)
  end.

Definition stage_client_result (client_id : Uuid) (result : ClientResult) (ob : Outbound)
    : StageOutcome ClientResult * Outbound :=
  match ob_stages ob !! client_id with
  | None => (Ready result, ob)
  | Some stage =>
      if ps_aborted stage then (Aborted result, ob)
      else if bool_decide (CLIENT_RESULT_QUEUE_CAPACITY ≤ len (ps_results stage))
      then (Full result, ob)
      else
        let stage :=
          mkStage (ps_initial_frames stage) (ps_live_frames stage)
            (ps_results stage ++ [result]) (ps_controls stage) (ps_aborted stage) in
        (Pending, set_stages (<[client_id := stage]> (ob_stages ob)) ob)
  end.

Definition staged_frames (stage : PendingClientStage) : list OutboundFrame.t :=
  ps_initial_frames stage ++ ps_live_frames stage.

Definition abort_client_stage (client_id : Uuid) (ob : Outbound) : Outbound :=
  match ob_stages ob !! client_id with
  | None => ob
  | Some stage =>
      if ps_aborted stage then ob
      else
        let ob := set_stages (<[client_id := mkStage [] [] [] [] true]> (ob_stages ob)) ob in
        complete false (ps_results stage) (release_all client_id (staged_frames stage) ob)
  end.

Definition discard_client_stage (client_id : Uuid) (ob : Outbound) : Outbound :=
  match ob_stages ob !! client_id with
  | None => ob
  | Some stage =>
      let ob := set_stages (delete client_id (ob_stages ob)) ob in
      on_connection client_id (set_cn_bootstrapped true)
        (complete false (ps_results stage) (release_all client_id (staged_frames stage) ob))
  end.

(** The three loops of [commit_client_stage]. *)
Definition flush_frame (client_id : Uuid) (ob : Outbound) (frame : OutboundFrame.t) : Outbound :=
  match c ← ob_connections ob !! client_id;
        try_send CLIENT_OUTBOUND_QUEUE_CAPACITY (cn_open c) (cn_tx c) frame with
  | Some tx => on_connection client_id (set_cn_tx tx) ob
  | None => release_client_outbound_bytes client_id frame ob
  end.

Definition flush_result (client_id : Uuid) (ob : Outbound) (result : ClientResult) : Outbound :=
  match c ← ob_connections ob !! client_id;
        try_send CLIENT_RESULT_QUEUE_CAPACITY (cn_open c) (cn_results c) result with
  | Some results => on_connection client_id (set_cn_results results) ob
  | None => complete false [result] ob
  end.

(** [let _ = control_tx.try_send(control)]. *)
Definition try_send_control (client_id : Uuid) (control : ClientControl) (ob : Outbound)
    : Outbound :=
  match c ← ob_connections ob !! client_id;
        try_send CLIENT_CONTROL_QUEUE_CAPACITY (cn_open c) (cn_controls c) control with
  | Some controls => on_connection client_id (set_cn_controls controls) ob
  | None => ob
  end.

Definition commit_client_stage (client_id : Uuid) (ob : Outbound) : Outbound :=
  match ob_clients ob !! client_id with
  | None => discard_client_stage client_id ob
  | Some _ =>
      match ob_stages ob !! client_id with
      | None => ob
      | Some stage =>
          let ob := set_stages (delete client_id (ob_stages ob)) ob in
          let ob :=
            if ps_aborted stage then ob
            else
              let ob := foldl (flush_frame client_id) ob (staged_frames stage) in
              let ob := foldl (flush_result client_id) ob (ps_results stage) in
              foldl (λ ob c, try_send_control client_id c ob) ob (ps_controls stage) in
          on_connection client_id (set_cn_bootstrapped true) ob
      end
  end.

(** ** Sending *)

Definition close_client_transport (client_id : Uuid) (ob : Outbound) : Outbound :=
  match ob_clients ob !! client_id with
  | None => ob
  | Some _ => try_send_control client_id Close ob
  end.

Definition send_control_to_client (client_id : Uuid) (control : ClientControl) (ob : Outbound)
    : Outbound :=
  match ob_clients ob !! client_id with
  | None => ob
  | Some _ =>
      match stage_control client_id control ob with
      | (Pending, ob) => ob
      | (Full _, ob) => try_send_control client_id Close (abort_client_stage client_id ob)
      | (Aborted control, ob) =>
          match control with
          | Close => try_send_control client_id Close ob
          | GlobalWipe => ob
          end
      | (Ready control, ob) => try_send_control client_id control ob
      end
  end.

Definition queue_limits (frame : OutboundFrame.t) : Z * Z :=
  if OutboundFrame.is_mls frame then (CONTROL_TRANSPORT_MAX_BUCKET, MLS_CLIENT_OUTBOUND_BYTES)
  else (WS_MAX_FRAME_BYTES, CLIENT_OUTBOUND_BYTES).

(** [if bytes > frame_limit || !reserve_outbound_bytes(..)]. *)
Definition admit_frame (client_id : Uuid) (frame : OutboundFrame.t) (ob : Outbound)
    : bool * Outbound :=
  let bytes := outbound_queue_bytes frame in
  let '(frame_limit, queue_limit) := queue_limits frame in
  if bool_decide (frame_limit < bytes) then (false, ob)
  else reserve_outbound_bytes client_id bytes queue_limit ob.

Definition send_to_client_internal (initial : bool) (client_id : Uuid) (frame : OutboundFrame.t)
    (ob : Outbound) : Outbound :=
  match ob_clients ob !! client_id with
  | None => ob
  | Some _ =>
      match admit_frame client_id frame ob with
      | (false, ob) => close_client_transport client_id (abort_client_stage client_id ob)
      | (true, ob) =>
          match stage_frame initial client_id frame ob with
          | (Pending, ob) => ob
          | (Ready frame, ob) =>
              match c ← ob_connections ob !! client_id;
                    try_send CLIENT_OUTBOUND_QUEUE_CAPACITY (cn_open c) (cn_tx c) frame with
              | Some tx => on_connection client_id (set_cn_tx tx) ob
              | None =>
                  send_control_to_client client_id Close
                    (release_client_outbound_bytes client_id frame ob)
              end
          | (Full frame, ob) =>
              close_client_transport client_id
                (abort_client_stage client_id (release_client_outbound_bytes client_id frame ob))
          | (Aborted frame, ob) => release_client_outbound_bytes client_id frame ob
          end
      end
  end.

Definition send_to_client := send_to_client_internal false.
Definition send_initial_to_client := send_to_client_internal true.

(** [send_client_result]: [token] is the fresh one-shot channel and [answer]
    what it yields before the timeout. *)
Definition send_client_result (token : Z) (answer : bool) (client_id : Uuid)
    (frame : OutboundFrame.t) : ST Outbound string () := λ ob,
  match ob_clients ob !! client_id with
  | None => (Err "client connection unavailable"%string, ob)
  | Some _ =>
      let await ob :=
        if answer then (Ok tt, ob)
        else (Err "client result delivery failed"%string, close_client_transport client_id ob) in
      match stage_client_result client_id (mkResult frame token) ob with
      | (Pending, ob) => await ob
      | (Ready result, ob) =>
          match c ← ob_connections ob !! client_id;
                try_send CLIENT_RESULT_QUEUE_CAPACITY (cn_open c) (cn_results c) result with
          | Some results => await (on_connection client_id (set_cn_results results) ob)
          | None =>
              (Err "client result channel unavailable"%string, close_client_transport client_id ob)
          end
      | (Full result, ob) =>
          (Err "client result channel unavailable"%string,
           close_client_transport client_id
             (complete false [result] (abort_client_stage client_id ob)))
      | (Aborted result, ob) =>
          (Err "client staging aborted"%string, complete false [result] ob)
      end
  end.

(** ** The connection and its writer task (transport.rs [socket_loop_v11]) *)

(** Channels, stage and handle of an accepted connection. *)
Definition open_connection (client_id : Uuid) (client : ClientHandle) (ob : Outbound) : Outbound :=
  let ob := set_connections
    (<[client_id := mkConnection [] [] [] true 0 false]> (ob_connections ob)) ob in
  let ob := begin_client_stage client_id ob in
  set_clients (<[client_id := client]> (ob_clients ob)) ob.

(** [frame = rx.recv()]: the frame leaves the queue and its bytes are
    released; yields what the writer then sends. *)
Definition writer_recv (client_id : Uuid) (ob : Outbound) : option OutboundFrame.t * Outbound :=
  match ob_connections ob !! client_id with
  | None => (None, ob)
  | Some c =>
      if negb (cn_bootstrapped c) then (None, ob)
      else
        match cn_tx c with
        | [] => (None, ob)
        | frame :: tx =>
            (Some frame,
             release_client_outbound_bytes client_id frame
               (on_connection client_id (set_cn_tx tx) ob))
        end
  end.

(** [result = result_rx.recv()]; [delivered] is whether the sink took it. *)
Definition writer_recv_result (delivered : bool) (client_id : Uuid) (ob : Outbound)
    : option OutboundFrame.t * Outbound :=
  match ob_connections ob !! client_id with
  | None => (None, ob)
  | Some c =>
      if negb (cn_bootstrapped c) then (None, ob)
      else
        match cn_results c with
        | [] => (None, ob)
        | result :: results =>
            (Some (cr_frame result),
             complete delivered [result] (on_connection client_id (set_cn_results results) ob))
        end
  end.

(** The writer ends in two steps, between which other tasks may send: its last
    loops empty the channels and release what they find, then the receivers are
    dropped at the end of the task, with what is in the channels by then.  A control
    is not taken out of its list when it is received: the writer reads no other one
    and ends, and the list is emptied when the receiver is dropped. *)
Definition writer_drain (client_id : Uuid) (ob : Outbound) : Outbound :=
  match ob_connections ob !! client_id with
  | None => ob
  | Some c =>
      complete false (cn_results c)
        (release_all client_id (cn_tx c)
           (on_connection client_id (λ c, set_cn_results [] (set_cn_tx [] c)) ob))
  end.
Definition writer_drop (client_id : Uuid) (ob : Outbound) : Outbound :=
  on_connection client_id
    (λ c, set_cn_open false (set_cn_controls [] (set_cn_results [] (set_cn_tx [] c)))) ob.

(** Handles that leave the table of clients while their writers still run. *)
Definition forget_clients (old_ids : gset Uuid) (ob : Outbound) : Outbound :=
  set_clients (retain (λ id _, negb (bool_decide (id ∈ old_ids))) (ob_clients ob)) ob.

(** The queue part of [cleanup_client]: the handle goes, then the stage. *)
Definition remove_client (client_id : Uuid) (ob : Outbound) : Outbound :=
  discard_client_stage client_id (set_clients (delete client_id (ob_clients ob)) ob).
End queue.
Arguments Pending {A}.
Arguments Ready {A} x.
Arguments Full {A} x.
Arguments Aborted {A} x.
