(* ===== verification/OutboundFacts.v ===== *)
(** * Accounting of the outbound queues

    The invariant of OutboundQueue: each connection counts exactly the bytes of
    its staged and queued frames and of the frames that were lost in its channel
    when its writer ended, and the relay's counter is the sum.  The lost bytes are
    a ghost of the invariant, [lost id] for client [id], nothing while the channel
    is open.  While a frame is between its reservation and its queue, its bytes are
    in flight: [holds lost id x] is the invariant with [x] bytes in flight for
    client [id]. *)

From S2P Require Import Prelude RoomModel TransportPadding AttachmentStore RelayFrame.
From S2P Require Import OutboundQueue.

Section facts.
Context {JSON : SerdeJson} {FJ : FrameJson}.
Context {lost : Uuid → Z}.
Implicit Types (ob : Outbound) (c : Connection) (st : option PendingClientStage).

(** The bytes of a list of frames. *)
Definition W (frames : list OutboundFrame.t) : Z := sumZ (weight <$> frames).

Definition stage_frames st : list OutboundFrame.t :=
  match st with Some s => staged_frames s | None => [] end.

(** The stage of a connection: the queue stays empty and unread while there is
    one, and an aborted stage is empty. *)
Definition stage_ok (c : Connection) (s : PendingClientStage) : Prop :=
  cn_tx c = [] ∧ cn_bootstrapped c = false ∧
  len (staged_frames s) ≤ CLIENT_OUTBOUND_QUEUE_CAPACITY ∧
  len (ps_results s) ≤ CLIENT_RESULT_QUEUE_CAPACITY ∧
  len (ps_controls s) ≤ CLIENT_CONTROL_QUEUE_CAPACITY ∧
  (ps_aborted s = true → staged_frames s = []).

Definition conn_ok (gone x : Z) st (c : Connection) : Prop :=
  0 ≤ x ∧ cn_queued_bytes c = W (stage_frames st) + W (cn_tx c) + gone + x ∧
  cn_queued_bytes c ≤ MLS_CLIENT_OUTBOUND_BYTES ∧
  len (cn_tx c) ≤ CLIENT_OUTBOUND_QUEUE_CAPACITY ∧
  len (cn_results c) ≤ CLIENT_RESULT_QUEUE_CAPACITY ∧
  len (cn_controls c) ≤ CLIENT_CONTROL_QUEUE_CAPACITY ∧
  (cn_open c = false → cn_tx c = []) ∧
  0 ≤ gone ∧ (cn_open c = true → gone = 0) ∧
  (∀ s, st = Some s → stage_ok c s).

Record holds (id : Uuid) (x : Z) (ob : Outbound) : Prop := mkHolds {
  h_global : ob_outbound_bytes ob = map_sum cn_queued_bytes (ob_connections ob);
  h_bound : ob_outbound_bytes ob ≤ GLOBAL_OUTBOUND_BYTES;
  h_conn : ∀ j c, ob_connections ob !! j = Some c →
    conn_ok (lost j) (if decide (j = id) then x else 0) (ob_stages ob !! j) c;
  h_stage : ∀ j, is_Some (ob_stages ob !! j) → is_Some (ob_connections ob !! j);
  h_client : ∀ j, is_Some (ob_clients ob !! j) → is_Some (ob_connections ob !! j);
  h_lost : ∀ j, ob_connections ob !! j = None → lost j = 0
}.

(** The invariant between operations. *)
Definition counted (ob : Outbound) : Prop := ∀ id, holds id 0 ob.

Lemma holds_ok id ob : holds id 0 ob ↔ counted ob.
Proof.
  split; [|intros H; apply H].
  intros [Hg Hb Hc Hs Hcl Hl] j. split; try done. intros i c Hi.
  specialize (Hc i c Hi). by repeat case_decide.
Qed.

(** ** Weights *)

Lemma weight_pos f : 1 ≤ weight f.
Proof. unfold weight. lia. Qed.
Lemma W_nonneg l : 0 ≤ W l.
Proof. apply sumZ_fmap_nonneg. intros f. pose proof (weight_pos f). lia. Qed.
Lemma W_nil : W [] = 0.
Proof. done. Qed.
Lemma W_cons f l : W (f :: l) = weight f + W l.
Proof. done. Qed.
Lemma W_app l k : W (l ++ k) = W l + W k.
Proof. unfold W. rewrite fmap_app. apply sumZ_app. Qed.
Lemma W_one f : W [f] = weight f.
Proof. unfold W. simpl. lia. Qed.

Lemma W_filter_split (p : OutboundFrame.t → bool) l :
  W l = W (filter (λ f, p f = true) l) + W (filter (λ f, p f = false) l).
Proof.
  induction l as [|f l IH]; [done|].
  rewrite W_cons, IH, !filter_cons. destruct (p f); simpl;
    repeat case_decide; try congruence;
    rewrite ?W_cons; lia.
Qed.

Lemma len_snoc {A} (l : list A) y : len (l ++ [y]) = len l + 1.
Proof. unfold len. rewrite length_app. simpl. lia. Qed.

(** Goals about one connection: the parts of [conn_ok] one by one. *)
Ltac conn_solve :=
  unfold conn_ok, stage_ok in *; simpl in *; destruct_and?; split_and!; intros;
  simplify_eq; simpl in *; destruct_and?;
  repeat match goal with
  | H : ∀ s, Some ?y = Some s → _ |- _ => specialize (H y eq_refl); destruct_and?
  | H : ∀ s, _ = Some s → _, H' : _ = Some _ |- _ => specialize (H _ H'); destruct_and?
  end;
  split_and?; try done; auto; try congruence; rewrite ?len_snoc; try lia.

(** ** One connection changes *)

Lemma on_connection_eq id f ob c :
  ob_connections ob !! id = Some c →
  on_connection id f ob = set_connections (<[id := f c]> (ob_connections ob)) ob.
Proof.
  intros Hc. unfold on_connection. f_equal. apply map_eq. intros j.
  destruct (decide (id = j)) as [<-|Hne].
  - by rewrite lookup_alter_eq, lookup_insert_eq, Hc.
  - by rewrite lookup_alter_ne, lookup_insert_ne.
Qed.

Lemma holds_step id x x' ob c c' clients stages g dl :
  holds id x ob → ob_connections ob !! id = Some c →
  conn_ok (lost id) x' (stages !! id) c' →
  (∀ j, j ≠ id → stages !! j = ob_stages ob !! j) →
  (∀ j, is_Some (clients !! j) → is_Some (ob_clients ob !! j) ∨ j = id) →
  g = ob_outbound_bytes ob + cn_queued_bytes c' - cn_queued_bytes c →
  g ≤ GLOBAL_OUTBOUND_BYTES →
  holds id x' (mkOutbound clients (<[id := c']> (ob_connections ob)) stages g dl).
Proof.
  intros [Hg Hb Hc Hs Hcl Hl] Hid Hok Hst Hclients -> Hle. split; simpl.
  - rewrite map_sum_insert. unfold at_key. rewrite Hid. lia.
  - done.
  - intros j d. destruct (decide (j = id)) as [->|Hne].
    + rewrite lookup_insert_eq. intros [= <-]. done.
    + rewrite lookup_insert_ne by done. intros Hj. rewrite Hst by done.
      specialize (Hc j d Hj). by rewrite decide_False in Hc.
  - intros j Hj. destruct (decide (j = id)) as [->|Hne].
    + rewrite lookup_insert_eq. eauto.
    + rewrite lookup_insert_ne by done. apply Hs. by rewrite <- Hst.
  - intros j Hj. destruct (decide (j = id)) as [->|Hne].
    + rewrite lookup_insert_eq. eauto.
    + rewrite lookup_insert_ne by done. destruct (Hclients j Hj); [by apply Hcl|done].
  - intros j [Hj _]%lookup_insert_None. by apply Hl.
Qed.

(** The same when the counters do not move. *)
Lemma holds_same_bytes id x x' ob c c' stages dl :
  holds id x ob → ob_connections ob !! id = Some c →
  cn_queued_bytes c' = cn_queued_bytes c →
  conn_ok (lost id) x' (stages !! id) c' →
  (∀ j, j ≠ id → stages !! j = ob_stages ob !! j) →
  holds id x' (mkOutbound (ob_clients ob) (<[id := c']> (ob_connections ob)) stages
                 (ob_outbound_bytes ob) dl).
Proof.
  intros Hh Hid Hq Hok Hst. eapply holds_step; eauto; [lia|]. apply (h_bound _ _ _ Hh).
Qed.

(** Only the stage changes. *)
Lemma holds_stage id x x' ob c st' dl stages :
  holds id x ob → ob_connections ob !! id = Some c →
  stages !! id = st' → (∀ j, j ≠ id → stages !! j = ob_stages ob !! j) →
  conn_ok (lost id) x' st' c →
  holds id x' (mkOutbound (ob_clients ob) (ob_connections ob) stages (ob_outbound_bytes ob) dl).
Proof.
  intros Hh Hid <- Hst Hok.
  rewrite <- (insert_id (ob_connections ob) id c) at 1 by done.
  by eapply holds_same_bytes.
Qed.

(** One-shot completions are not part of the accounting. *)
Lemma holds_complete id x b rs ob : holds id x (complete b rs ob) ↔ holds id x ob.
Proof. split; intros [? ? ? ? ? ?]; by split. Qed.

Lemma holds_conn id x ob c :
  holds id x ob → ob_connections ob !! id = Some c → conn_ok (lost id) x (ob_stages ob !! id) c.
Proof. intros Hh Hc. pose proof (h_conn _ _ _ Hh id c Hc) as H. by rewrite decide_True in H. Qed.

Lemma holds_queued_le id x ob c :
  holds id x ob → ob_connections ob !! id = Some c →
  0 ≤ cn_queued_bytes c ≤ ob_outbound_bytes ob.
Proof.
  intros Hh Hc.
  assert (∀ j d, ob_connections ob !! j = Some d → 0 ≤ cn_queued_bytes d) as Hnn.
  { intros j d Hd. destruct (h_conn _ _ _ Hh j d Hd) as (Hx & -> & _ & _ & _ & _ & _ & ? & _).
    pose proof (W_nonneg (stage_frames (ob_stages ob !! j))).
    pose proof (W_nonneg (cn_tx d)). lia. }
  split; [eauto|]. rewrite (h_global _ _ _ Hh).
  rewrite (map_sum_ext _ (λ d, Z.max 0 (cn_queued_bytes d))).
  - transitivity (Z.max 0 (cn_queued_bytes c)); [lia|].
    apply (map_sum_entry_le (λ d, Z.max 0 (cn_queued_bytes d)) _ id); [lia|done].
  - intros j d Hd. specialize (Hnn j d Hd). lia.
Qed.

(** ** Reservation and release *)

Lemma queue_limits_le f : (queue_limits f).2 ≤ MLS_CLIENT_OUTBOUND_BYTES.
Proof. unfold queue_limits. by destruct (OutboundFrame.is_mls f). Qed.

Lemma admit_frame_holds id f ob b ob' :
  counted ob → admit_frame id f ob = (b, ob') →
  if b then holds id (weight f) ob' else ob' = ob.
Proof.
  intros Hok. unfold admit_frame, reserve_outbound_bytes.
  pose proof (queue_limits_le f) as Hlim.
  destruct (queue_limits f) as [fl ql]. simpl in Hlim.
  case_bool_decide; [by intros [= <- <-]|].
  destruct (ob_connections ob !! id) as [c|] eqn:Hc; [|by intros [= <- <-]].
  destruct (checked_add _ (cn_queued_bytes c) _) as [l|] eqn:Hl; [|by intros [= <- <-]].
  case_bool_decide; [by intros [= <- <-]|].
  destruct (checked_add _ (ob_outbound_bytes ob) _) as [g|] eqn:Hg; [|by intros [= <- <-]].
  case_bool_decide as Hgb; [by intros [= <- <-]|]. intros [= <- <-].
  apply checked_add_Some in Hl as [_ ->]. apply checked_add_Some in Hg as [_ ->].
  rewrite (on_connection_eq id _ ob c Hc). fold (weight f) in *.
  destruct (holds_conn id 0 ob c (Hok id) Hc) as (_ & Hq & Hle & Hrest).
  eapply holds_step; [apply Hok|done| |done|by left|simpl; lia|simpl in *; lia].
  pose proof (weight_pos f). conn_solve.
Qed.

Lemma wrapping_sub_exact a b : 0 ≤ b ≤ a → a ≤ usize_MAX → wrapping_sub a b = a - b.
Proof. intros. unfold wrapping_sub. apply Z.mod_small. lia. Qed.

Lemma holds_usize id x ob c :
  holds id x ob → ob_connections ob !! id = Some c → ob_outbound_bytes ob ≤ usize_MAX.
Proof. intros Hh _. pose proof (h_bound _ _ _ Hh). unfold GLOBAL_OUTBOUND_BYTES, usize_MAX in *. lia. Qed.

Lemma release_holds id x f ob :
  holds id (x + weight f) ob → is_Some (ob_connections ob !! id) → 0 ≤ x →
  holds id x (release_client_outbound_bytes id f ob).
Proof.
  intros Hh [c Hc] Hx. pose proof (weight_pos f) as Hw.
  pose proof (holds_queued_le _ _ _ _ Hh Hc). pose proof (holds_usize _ _ _ _ Hh Hc).
  pose proof (holds_conn _ _ _ _ Hh Hc) as Hok.
  pose proof (W_nonneg (stage_frames (ob_stages ob !! id))).
  pose proof (W_nonneg (cn_tx c)).
  assert (weight f ≤ cn_queued_bytes c) by (destruct Hok as (_ & -> & _ & _ & _ & _ & _ & ? & _); lia).
  unfold release_client_outbound_bytes. rewrite (on_connection_eq id _ ob c Hc).
  rewrite !wrapping_sub_exact by lia.
  eapply holds_step; [done|done| |done|by left|simpl; lia|].
  - conn_solve.
  - pose proof (h_bound _ _ _ Hh). simpl. lia.
Qed.

Lemma on_connection_is_Some id j f ob :
  is_Some (ob_connections (on_connection id f ob) !! j) ↔ is_Some (ob_connections ob !! j).
Proof. simpl. rewrite lookup_alter. case_decide; subst; by rewrite ?fmap_is_Some. Qed.

Lemma release_all_holds id x fs ob :
  holds id (x + W fs) ob → is_Some (ob_connections ob !! id) → 0 ≤ x →
  holds id x (release_all id fs ob).
Proof.
  revert ob. induction fs as [|f fs IH]; intros ob; [by rewrite W_nil, Z.add_0_r|].
  rewrite W_cons. intros Hh Hc Hx. pose proof (W_nonneg fs). apply IH; [|by apply on_connection_is_Some|done].
  apply release_holds; [|done|lia]. by replace (x + W fs + weight f) with (x + (weight f + W fs)) by lia.
Qed.

(** ** Queues *)

Lemma try_send_Some {A} cap open (l : list A) y l' :
  try_send cap open l y = Some l' ↔ open = true ∧ len l < cap ∧ l' = l ++ [y].
Proof. unfold try_send. destruct open; simpl; [case_bool_decide|]; naive_solver. Qed.

(** A frame in flight enters the queue of a connection without a stage. *)
Lemma push_holds id x f ob c :
  holds id (x + weight f) ob → ob_connections ob !! id = Some c →
  ob_stages ob !! id = None → cn_open c = true →
  len (cn_tx c) < CLIENT_OUTBOUND_QUEUE_CAPACITY → 0 ≤ x →
  holds id x (on_connection id (set_cn_tx (cn_tx c ++ [f])) ob).
Proof.
  intros Hh Hc Hst Hop Hlen Hx. rewrite (on_connection_eq id _ ob c Hc).
  pose proof (holds_conn _ _ _ _ Hh Hc) as Hok.
  eapply holds_same_bytes; [done|done|done| |done]. simpl. rewrite Hst in *.
  unfold conn_ok in *. simpl in *. rewrite W_app, W_one, len_snoc. conn_solve.
Qed.

Lemma try_send_control_holds id x ctl ob : holds id x ob → holds id x (try_send_control id ctl ob).
Proof.
  intros Hh. unfold try_send_control.
  destruct (ob_connections ob !! id) as [c|] eqn:Hc; simpl; [|done].
  destruct (try_send _ _ _ _) as [l|] eqn:Hs; [|done].
  apply try_send_Some in Hs as (Hop & Hlen & ->).
  rewrite (on_connection_eq id _ ob c Hc). pose proof (holds_conn _ _ _ _ Hh Hc).
  eapply holds_same_bytes; [done|done|done| |done]. simpl.
  conn_solve.
Qed.

(** ** Stages *)

Lemma stages_insert_ne (m : gmap Uuid PendingClientStage) id s j :
  j ≠ id → <[id := s]> m !! j = m !! j.
Proof. intros. by rewrite lookup_insert_ne. Qed.
Lemma stages_delete_ne (m : gmap Uuid PendingClientStage) id j :
  j ≠ id → delete id m !! j = m !! j.
Proof. intros. by rewrite lookup_delete_ne. Qed.

(** The stage is replaced; its frames and the bytes in flight balance. *)
Lemma restage_holds id x x' ob c s s' :
  holds id x ob → ob_connections ob !! id = Some c → ob_stages ob !! id = Some s →
  W (staged_frames s') + x' = W (staged_frames s) + x → 0 ≤ x' → stage_ok c s' →
  holds id x' (set_stages (<[id := s']> (ob_stages ob)) ob).
Proof.
  intros Hh Hc Hs Hw Hx Hok. pose proof (holds_conn _ _ _ _ Hh Hc) as Hcok. rewrite Hs in Hcok.
  eapply holds_stage; [done|done|by rewrite lookup_insert_eq|apply stages_insert_ne|].
  unfold conn_ok in *. simpl in *. destruct_and!. split_and!; intros; simplify_eq; auto. lia.
Qed.

(** The stage is removed; its frames are in flight. *)
Lemma unstage_holds id x ob c s :
  holds id x ob → ob_connections ob !! id = Some c → ob_stages ob !! id = Some s →
  holds id (x + W (staged_frames s)) (set_stages (delete id (ob_stages ob)) ob).
Proof.
  intros Hh Hc Hs. pose proof (holds_conn _ _ _ _ Hh Hc) as Hcok. rewrite Hs in Hcok.
  pose proof (W_nonneg (staged_frames s)).
  eapply holds_stage; [done|done|by rewrite lookup_delete_eq|apply stages_delete_ne|].
  unfold conn_ok in *. simpl in *. destruct_and!. rewrite W_nil.
  split_and!; intros; simplify_eq; auto; lia.
Qed.

Lemma release_all_stages id fs ob : ob_stages (release_all id fs ob) = ob_stages ob.
Proof. revert ob. induction fs as [|f fs IH]; intros; simpl; [done|]. by rewrite IH. Qed.
Lemma release_all_clients id fs ob : ob_clients (release_all id fs ob) = ob_clients ob.
Proof. revert ob. induction fs as [|f fs IH]; intros; simpl; [done|]. by rewrite IH. Qed.
Lemma release_all_set_stages id fs v ob :
  release_all id fs (set_stages v ob) = set_stages v (release_all id fs ob).
Proof. revert ob. induction fs as [|f fs IH]; intros ob; simpl; [done|]. by rewrite <- IH. Qed.

Lemma holds_stage_ok id x ob c s :
  holds id x ob → ob_connections ob !! id = Some c → ob_stages ob !! id = Some s →
  stage_ok c s.
Proof. intros Hh Hc Hs. apply (holds_conn _ _ _ _ Hh Hc). by rewrite Hs. Qed.

Lemma stage_frame_holds initial id f ob o ob' :
  holds id (weight f) ob → is_Some (ob_connections ob !! id) →
  stage_frame initial id f ob = (o, ob') →
  match o with
  | Pending => holds id 0 ob'
  | Ready f' => f' = f ∧ ob' = ob ∧ ob_stages ob !! id = None
  | Full f' | Aborted f' => f' = f ∧ ob' = ob
  end.
Proof.
  intros Hh [c Hc]. unfold stage_frame.
  destruct (ob_stages ob !! id) as [s|] eqn:Hs; [|by intros [= <- <-]].
  pose proof (holds_stage_ok _ _ _ _ _ Hh Hc Hs) as Hok.
  destruct (ps_aborted s) eqn:Hab; [by intros [= <- <-]|].
  case_bool_decide as Hfull; [by intros [= <- <-]|].
  assert (len (ps_initial_frames s) + len (ps_live_frames s) < CLIENT_OUTBOUND_QUEUE_CAPACITY)
    as Hroom by (unfold saturating_add, usize_MAX, CLIENT_OUTBOUND_QUEUE_CAPACITY in *; lia).
  unfold staged_frames in *. destruct initial; intros [= <- <-].
  - rewrite release_all_stages, <- release_all_set_stages.
    pose proof (W_filter_split (superseded f) (ps_live_frames s)) as Hsplit.
    pose proof (W_nonneg (filter (λ f0, superseded f f0 = true) (ps_live_frames s))).
    assert (len (filter (λ f0, superseded f f0 = false) (ps_live_frames s)) ≤ len (ps_live_frames s)) as Hfl.
    { unfold len. apply inj_le, length_filter. }
    apply release_all_holds; [|done|done]. eapply restage_holds; try done; unfold staged_frames; simpl.
    + rewrite !W_app, W_one. lia.
    + unfold stage_ok, staged_frames, len in *. simpl in *. destruct_and!.
      rewrite !length_app in *. simpl. split_and!; first [done|lia|congruence].
  - eapply restage_holds; try done; unfold staged_frames; simpl.
    + rewrite !W_app, W_one. lia.
    + unfold stage_ok, staged_frames, len in *. simpl in *. destruct_and!.
      rewrite !length_app in *. simpl. split_and!; first [done|lia|congruence].
Qed.

Lemma stage_nonaborted_ok c s s' :
  stage_ok c s → staged_frames s' = staged_frames s → ps_aborted s' = ps_aborted s →
  len (ps_results s') ≤ CLIENT_RESULT_QUEUE_CAPACITY →
  len (ps_controls s') ≤ CLIENT_CONTROL_QUEUE_CAPACITY → stage_ok c s'.
Proof. unfold stage_ok. intros Hok -> -> ??. by destruct_and!. Qed.

Lemma stage_control_holds id x ctl ob :
  holds id x ob → 0 ≤ x → holds id x (stage_control id ctl ob).2.
Proof.
  intros Hh Hx. unfold stage_control.
  destruct (ob_stages ob !! id) as [s|] eqn:Hs; [|done].
  destruct (ps_aborted s) eqn:Hab; [done|]. case_bool_decide; [done|]. simpl.
  destruct (h_stage _ _ _ Hh id) as [c Hc]; [eauto|].
  pose proof (holds_stage_ok _ _ _ _ _ Hh Hc Hs) as Hok.
  eapply restage_holds; try done. eapply stage_nonaborted_ok; [done|done|simpl; congruence| |].
  - apply Hok.
  - simpl. rewrite len_snoc. lia.
Qed.

Lemma stage_client_result_holds id x r ob :
  holds id x ob → 0 ≤ x → holds id x (stage_client_result id r ob).2.
Proof.
  intros Hh Hx. unfold stage_client_result.
  destruct (ob_stages ob !! id) as [s|] eqn:Hs; [|done].
  destruct (ps_aborted s) eqn:Hab; [done|]. case_bool_decide; [done|]. simpl.
  destruct (h_stage _ _ _ Hh id) as [c Hc]; [eauto|].
  pose proof (holds_stage_ok _ _ _ _ _ Hh Hc Hs) as Hok.
  eapply restage_holds; try done. eapply stage_nonaborted_ok; [done|done|simpl; congruence| |].
  - simpl. rewrite len_snoc. lia.
  - apply Hok.
Qed.

Lemma abort_holds id x ob : holds id x ob → 0 ≤ x → holds id x (abort_client_stage id ob).
Proof.
  intros Hh Hx. unfold abort_client_stage.
  destruct (ob_stages ob !! id) as [s|] eqn:Hs; [|done].
  destruct (ps_aborted s); [done|].
  destruct (h_stage _ _ _ Hh id) as [c Hc]; [eauto|].
  pose proof (holds_stage_ok _ _ _ _ _ Hh Hc Hs) as Hok.
  pose proof (W_nonneg (staged_frames s)).
  apply holds_complete, release_all_holds; [|done|done].
  eapply restage_holds; try done; [change (W (staged_frames (mkStage [] [] [] [] true))) with 0; lia|lia|].
  unfold stage_ok, staged_frames in *. simpl. destruct_and!. split_and!; done.
Qed.
End facts.
#[global] Arguments holds {JSON FJ} lost id x ob.
#[global] Arguments counted {JSON FJ} lost ob.

(** The invariant without its ghost. *)
Definition outbound_ok `{SerdeJson, FrameJson} (ob : Outbound) : Prop := ∃ lost, counted lost ob.

(** * Steps of the outbound queues

    Every operation of OutboundQueue preserves the accounting invariant, and an
    operation on one client leaves the stage, the channels and the counter of
    every other client as they are. *)

(** ** Only one client is touched *)

Record only (id : Uuid) (ob ob' : Outbound) : Prop := mkOnly {
  only_clients : ob_clients ob' = ob_clients ob;
  only_connections j : j ≠ id → ob_connections ob' !! j = ob_connections ob !! j;
  only_stages j : j ≠ id → ob_stages ob' !! j = ob_stages ob !! j;
  only_dom j : is_Some (ob_connections ob' !! j) ↔ is_Some (ob_connections ob !! j)
}.

#[export] Instance only_preorder id : PreOrder (only id).
Proof.
  split; [done|]. intros a b c [H1 H2 H3 H4] [H5 H6 H7 H8]. split.
  - congruence.
  - intros. by rewrite H6, H2.
  - intros. by rewrite H7, H3.
  - intros. by rewrite H8, H4.
Qed.

Section only.
Context {JSON : SerdeJson} {FJ : FrameJson}.
Implicit Types ob : Outbound.

Lemma only_on_connection id f ob : only id ob (on_connection id f ob).
Proof.
  split; simpl; try done.
  - intros. by rewrite lookup_alter_ne.
  - intros j. apply (on_connection_is_Some id j f ob).
Qed.
Lemma only_complete id b rs ob : only id ob (complete b rs ob).
Proof. done. Qed.
Lemma only_bytes id v ob : only id ob (set_outbound_bytes v ob).
Proof. done. Qed.
Lemma only_stage_insert id s ob : only id ob (set_stages (<[id := s]> (ob_stages ob)) ob).
Proof. split; simpl; try done. intros. by rewrite lookup_insert_ne. Qed.
Lemma only_stage_delete id ob : only id ob (set_stages (delete id (ob_stages ob)) ob).
Proof. split; simpl; try done. intros. by rewrite lookup_delete_ne. Qed.

Lemma only_release id f ob : only id ob (release_client_outbound_bytes id f ob).
Proof. unfold release_client_outbound_bytes. etrans; [apply only_on_connection|apply only_bytes]. Qed.

Lemma only_foldl {A} id (g : Outbound → A → Outbound) l ob :
  (∀ ob x, only id ob (g ob x)) → only id ob (foldl g ob l).
Proof. intros Hg. revert ob. induction l as [|x l IH]; intros; simpl; [done|]. etrans; [apply Hg|apply IH]. Qed.

Lemma only_release_all id fs ob : only id ob (release_all id fs ob).
Proof. apply only_foldl. intros. apply only_release. Qed.

Lemma only_stage_frame initial id f ob : only id ob (stage_frame initial id f ob).2.
Proof.
  unfold stage_frame. destruct (ob_stages ob !! id); [|done].
  destruct (ps_aborted _); [done|]. case_bool_decide; [done|].
  destruct initial; simpl; [etrans; [apply only_release_all|]|]; apply only_stage_insert.
Qed.
Lemma only_stage_control id c ob : only id ob (stage_control id c ob).2.
Proof.
  unfold stage_control. destruct (ob_stages ob !! id); [|done].
  destruct (ps_aborted _); [done|]. case_bool_decide; [done|]. apply only_stage_insert.
Qed.
Lemma only_stage_client_result id r ob : only id ob (stage_client_result id r ob).2.
Proof.
  unfold stage_client_result. destruct (ob_stages ob !! id); [|done].
  destruct (ps_aborted _); [done|]. case_bool_decide; [done|]. apply only_stage_insert.
Qed.

Lemma only_abort id ob : only id ob (abort_client_stage id ob).
Proof.
  unfold abort_client_stage. destruct (ob_stages ob !! id); [|done].
  destruct (ps_aborted _); [done|].
  etrans; [apply only_stage_insert|]. etrans; [apply only_release_all|]. apply only_complete.
Qed.
Lemma only_discard id ob : only id ob (discard_client_stage id ob).
Proof.
  unfold discard_client_stage. destruct (ob_stages ob !! id); [|done].
  etrans; [apply only_stage_delete|]. etrans; [apply only_release_all|].
  etrans; [apply only_complete|apply only_on_connection].
Qed.

Lemma only_try_send_control id c ob : only id ob (try_send_control id c ob).
Proof. unfold try_send_control. destruct (_ ≫= _); [apply only_on_connection|done]. Qed.
Lemma only_flush_frame id ob f : only id ob (flush_frame id ob f).
Proof. unfold flush_frame. destruct (_ ≫= _); [apply only_on_connection|apply only_release]. Qed.
Lemma only_flush_result id ob r : only id ob (flush_result id ob r).
Proof. unfold flush_result. destruct (_ ≫= _); [apply only_on_connection|apply only_complete]. Qed.

Lemma only_commit id ob : only id ob (commit_client_stage id ob).
Proof.
  unfold commit_client_stage. destruct (ob_clients ob !! id); [|apply only_discard].
  destruct (ob_stages ob !! id) as [s|]; [|done].
  etrans; [|apply only_on_connection]. etrans; [apply only_stage_delete|].
  destruct (ps_aborted s); [done|].
  etrans; [|apply only_foldl; intros; apply only_try_send_control].
  etrans; [|apply only_foldl; intros; apply only_flush_result].
  apply only_foldl. intros. apply only_flush_frame.
Qed.

Lemma only_close id ob : only id ob (close_client_transport id ob).
Proof. unfold close_client_transport. destruct (ob_clients ob !! id); [apply only_try_send_control|done]. Qed.

Lemma only_send_control id c ob : only id ob (send_control_to_client id c ob).
Proof.
  unfold send_control_to_client. destruct (ob_clients ob !! id); [|done].
  pose proof (only_stage_control id c ob) as H. destruct (stage_control id c ob) as [o ob1].
  simpl in H. destruct o as [|x|x|x]; [done|..]; etrans; try done.
  - apply only_try_send_control.
  - etrans; [apply only_abort|apply only_try_send_control].
  - destruct x; [done|apply only_try_send_control].
Qed.

Lemma only_admit_frame id f ob : only id ob (admit_frame id f ob).2.
Proof.
  unfold admit_frame, reserve_outbound_bytes. destruct (queue_limits f).
  case_bool_decide; [done|]. destruct (ob_connections ob !! id); [|done].
  destruct (checked_add _ _ _); [|done]. case_bool_decide; [done|].
  destruct (checked_add _ _ _); [|done]. case_bool_decide; [done|]. simpl.
  etrans; [apply only_on_connection|apply only_bytes].
Qed.

Lemma only_send initial id f ob : only id ob (send_to_client_internal initial id f ob).
Proof.
  unfold send_to_client_internal. destruct (ob_clients ob !! id); [|done].
  pose proof (only_admit_frame id f ob) as H. destruct (admit_frame id f ob) as [[] ob1];
    simpl in H; etrans; try done; [|etrans; [apply only_abort|apply only_close]].
  pose proof (only_stage_frame initial id f ob1) as H1.
  destruct (stage_frame initial id f ob1) as [o ob2]. simpl in H1.
  destruct o as [|x|x|x]; [done|..]; etrans; try done.
  - destruct (_ ≫= _); [apply only_on_connection|].
    etrans; [apply only_release|apply only_send_control].
  - etrans; [apply only_release|]. etrans; [apply only_abort|apply only_close].
  - apply only_release.
Qed.

Lemma only_send_result token answer id f ob : only id ob (send_client_result token answer id f ob).2.
Proof.
  unfold send_client_result. destruct (ob_clients ob !! id); [|done].
  pose proof (only_stage_client_result id (mkResult f token) ob) as H.
  destruct (stage_client_result id _ ob) as [o ob1]. simpl in H.
  destruct o as [|x|x|x]; simpl; etrans; try done.
  - destruct answer; [done|apply only_close].
  - destruct (_ ≫= _); simpl; [|apply only_close].
    destruct answer; simpl; [apply only_on_connection|].
    etrans; [apply only_on_connection|apply only_close].
  - etrans; [apply only_abort|]. etrans; [apply only_complete|apply only_close].
Qed.
End only.

(** ** The invariant is preserved *)

Section preserved.
Context {JSON : SerdeJson} {FJ : FrameJson} {lost : Uuid → Z}.
Implicit Types ob : Outbound.

Lemma holds_set_stage_None id x ob c f :
  holds lost id x ob → ob_connections ob !! id = Some c → ob_stages ob !! id = None →
  cn_tx (f c) = cn_tx c → cn_open (f c) = cn_open c → cn_queued_bytes (f c) = cn_queued_bytes c →
  len (cn_results (f c)) ≤ CLIENT_RESULT_QUEUE_CAPACITY →
  len (cn_controls (f c)) ≤ CLIENT_CONTROL_QUEUE_CAPACITY →
  holds lost id x (on_connection id f ob).
Proof.
  intros Hh Hc Hs Htx Hop Hq Hr Hct. rewrite (on_connection_eq id f ob c Hc).
  pose proof (holds_conn _ _ _ _ Hh Hc) as Hok. rewrite Hs in Hok.
  eapply holds_same_bytes; [done|done|done| |done]. simpl. rewrite Hs.
  unfold conn_ok in *. rewrite Htx, Hop, Hq. destruct_and!. split_and!; intros; auto; done.
Qed.

(** The connection [id] has, after steps that touch only [id]. *)
Lemma only_conn id ob ob' c :
  only id ob ob' → ob_connections ob !! id = Some c → ∃ c', ob_connections ob' !! id = Some c'.
Proof. intros Ho Hc. apply (only_dom _ _ _ Ho). eauto. Qed.

Lemma on_connection_None id f ob : ob_connections ob !! id = None → on_connection id f ob = ob.
Proof.
  intros Hc. unfold on_connection.
  replace (alter f id (ob_connections ob)) with (ob_connections ob); [by destruct ob|].
  apply map_eq. intros j. destruct (decide (id = j)) as [<-|Hne].
  - by rewrite lookup_alter_eq, Hc.
  - by rewrite lookup_alter_ne.
Qed.

Lemma bootstrap_holds id x ob :
  holds lost id x ob → ob_stages ob !! id = None →
  holds lost id x (on_connection id (set_cn_bootstrapped true) ob).
Proof.
  intros Hh Hs. destruct (ob_connections ob !! id) as [c|] eqn:Hc.
  - pose proof (holds_conn _ _ _ _ Hh Hc) as Hok.
    eapply holds_set_stage_None; try done; apply Hok.
  - by rewrite on_connection_None.
Qed.

Lemma discard_ok id ob : counted lost ob → counted lost (discard_client_stage id ob).
Proof.
  intros Hok. unfold discard_client_stage.
  destruct (ob_stages ob !! id) as [s|] eqn:Hs; [|done].
  destruct (h_stage _ _ _ (Hok id) id) as [c Hc]; [eauto|].
  apply (holds_ok id), bootstrap_holds.
  - apply holds_complete, release_all_holds; [|by eexists|done].
    by eapply unstage_holds.
  - simpl. rewrite release_all_stages. apply lookup_delete_eq.
Qed.

Lemma flush_frame_holds id x f ob :
  holds lost id (x + weight f) ob → is_Some (ob_connections ob !! id) →
  ob_stages ob !! id = None → 0 ≤ x → holds lost id x (flush_frame id ob f).
Proof.
  intros Hh [c Hc] Hs Hx. unfold flush_frame. rewrite Hc. simpl.
  destruct (try_send _ _ _ _) as [tx|] eqn:Ht.
  - apply try_send_Some in Ht as (Hop & Hlen & ->). by eapply push_holds.
  - by apply release_holds.
Qed.

Lemma flush_frame_stages id ob f : ob_stages (flush_frame id ob f) = ob_stages ob.
Proof. unfold flush_frame. by destruct (_ ≫= _). Qed.

Lemma flush_frames_holds id fs ob :
  holds lost id (W fs) ob → is_Some (ob_connections ob !! id) → ob_stages ob !! id = None →
  holds lost id 0 (foldl (flush_frame id) ob fs) ∧
  ob_stages (foldl (flush_frame id) ob fs) = ob_stages ob.
Proof.
  revert ob. induction fs as [|f fs IH]; intros ob Hh Hc Hs; [done|]. simpl.
  rewrite <- (flush_frame_stages id ob f). apply IH.
  - apply flush_frame_holds; try done; [|apply W_nonneg].
    by rewrite W_cons, Z.add_comm in Hh.
  - by apply (only_dom _ _ _ (only_flush_frame id ob f)).
  - by rewrite flush_frame_stages.
Qed.

Lemma flush_result_holds id x r ob :
  holds lost id x ob → ob_stages ob !! id = None →
  holds lost id x (flush_result id ob r) ∧ ob_stages (flush_result id ob r) = ob_stages ob.
Proof.
  intros Hh Hs. unfold flush_result. destruct (ob_connections ob !! id) as [c|] eqn:Hc; simpl.
  - pose proof (holds_conn _ _ _ _ Hh Hc) as Hok.
    destruct (try_send _ _ _ _) as [l|] eqn:Ht; (split; [|done]); [|by apply holds_complete].
    apply try_send_Some in Ht as (Hop & Hlen & ->).
    eapply holds_set_stage_None; try done; [simpl; rewrite len_snoc; lia|apply Hok].
  - split; [|done]. by apply holds_complete.
Qed.

Lemma flush_results_holds id x rs ob :
  holds lost id x ob → ob_stages ob !! id = None →
  holds lost id x (foldl (flush_result id) ob rs) ∧
  ob_stages (foldl (flush_result id) ob rs) = ob_stages ob.
Proof.
  revert ob. induction rs as [|r rs IH]; intros ob Hh Hs; [done|]. simpl.
  destruct (flush_result_holds id x r ob Hh Hs) as [H1 H2]. rewrite <- H2. apply IH; [done|].
  by rewrite H2.
Qed.

Lemma try_send_control_stages id c ob : ob_stages (try_send_control id c ob) = ob_stages ob.
Proof. unfold try_send_control. by destruct (_ ≫= _). Qed.

Lemma flush_controls_holds id x cs ob :
  holds lost id x ob →
  holds lost id x (foldl (λ ob c, try_send_control id c ob) ob cs) ∧
  ob_stages (foldl (λ ob c, try_send_control id c ob) ob cs) = ob_stages ob.
Proof.
  revert ob. induction cs as [|c cs IH]; intros ob Hh; [done|]. simpl.
  rewrite <- (try_send_control_stages id c ob). apply IH. by apply try_send_control_holds.
Qed.

Lemma commit_stage_ok id ob : counted lost ob → counted lost (commit_client_stage id ob).
Proof.
  intros Hok. unfold commit_client_stage.
  destruct (ob_clients ob !! id) as [cl|]; [|by apply discard_ok].
  destruct (ob_stages ob !! id) as [s|] eqn:Hs; [|done].
  destruct (h_stage _ _ _ (Hok id) id) as [c Hc]; [eauto|].
  pose proof (unstage_holds id 0 ob c s (Hok id) Hc Hs) as Hh.
  set (ob1 := set_stages _ ob) in *.
  assert (ob_stages ob1 !! id = None) as Hs1 by (simpl; by rewrite lookup_delete_eq).
  assert (stage_ok c s) as Hst by (eapply holds_stage_ok; [apply (Hok id)|done|done]).
  apply (holds_ok id). destruct (ps_aborted s) eqn:Hab.
  - apply bootstrap_holds; [|done].
    destruct Hst as (_ & _ & _ & _ & _ & He). by rewrite (He Hab) in Hh.
  - destruct (flush_frames_holds id (staged_frames s) ob1) as [H1 E1]; [done|by eexists|done|].
    destruct (flush_results_holds id 0 (ps_results s) _ H1) as [H2 E2]; [by rewrite E1|].
    destruct (flush_controls_holds id 0 (ps_controls s) _ H2) as [H3 E3].
    apply bootstrap_holds; [done|]. by rewrite E3, E2, E1.
Qed.

Lemma close_holds id x ob : holds lost id x ob → holds lost id x (close_client_transport id ob).
Proof.
  intros Hh. unfold close_client_transport.
  destruct (ob_clients ob !! id); [by apply try_send_control_holds|done].
Qed.

Lemma send_control_holds id x c ob :
  holds lost id x ob → 0 ≤ x → holds lost id x (send_control_to_client id c ob).
Proof.
  intros Hh Hx. unfold send_control_to_client. destruct (ob_clients ob !! id); [|done].
  pose proof (stage_control_holds id x c ob Hh Hx) as H.
  destruct (stage_control id c ob) as [o ob1]. simpl in H.
  destruct o as [|y|y|y]; [done|..].
  - by apply try_send_control_holds.
  - by apply try_send_control_holds, abort_holds.
  - destruct y; [done|by apply try_send_control_holds].
Qed.

Lemma send_ok initial id f ob :
  counted lost ob → counted lost (send_to_client_internal initial id f ob).
Proof.
  intros Hok. unfold send_to_client_internal.
  destruct (ob_clients ob !! id) eqn:Hcl; [|done].
  assert (is_Some (ob_connections ob !! id)) as Hc by (apply (h_client _ _ _ (Hok id)); eauto).
  destruct (admit_frame id f ob) as [b ob1] eqn:Ha.
  pose proof (only_admit_frame id f ob) as Ho. rewrite Ha in Ho. simpl in Ho.
  apply (admit_frame_holds _ _ _ _ _ Hok) in Ha. apply (holds_ok id). pose proof (weight_pos f).
  destruct b; [|subst ob1; apply close_holds, abort_holds; [apply Hok|done]].
  assert (is_Some (ob_connections ob1 !! id)) as Hc1 by (by apply (only_dom _ _ _ Ho)).
  destruct (stage_frame initial id f ob1) as [o ob2] eqn:Hst.
  apply (stage_frame_holds _ _ _ _ _ _ Ha Hc1) in Hst. destruct o as [|g|g|g]; [done|..].
  - destruct Hst as (-> & -> & Hs). destruct Hc1 as [c1 Hc1]. rewrite Hc1. simpl.
    destruct (try_send _ _ _ _) as [tx|] eqn:Ht.
    + apply try_send_Some in Ht as (? & ? & ->). by eapply push_holds.
    + apply send_control_holds; [|done]. by apply release_holds.
  - destruct Hst as (-> & ->). apply close_holds, abort_holds; [|done]. by apply release_holds.
  - destruct Hst as (-> & ->). by apply release_holds.
Qed.
End preserved.
