(* ===== verification/OutboundTheorems.v ===== *)
(** * Properties of the outbound queues

    The counters are exact after any sequence of connections, sends, commits,
    writer steps and disconnections, up to what was in a channel when its writer
    ended; committing a snapshot loses nothing and
    keeps its order; a frame is queued or its client is being closed. *)

From S2P Require Import Prelude RoomModel TransportPadding AttachmentStore RelayFrame.
From S2P Require Import OutboundQueue OutboundFacts.

Section preserved.
Context {JSON : SerdeJson} {FJ : FrameJson} {lost : Uuid → Z}.
Implicit Types ob : Outbound.

Lemma send_result_ok token answer id f ob :
  counted lost ob → counted lost (send_client_result token answer id f ob).2.
Proof.
  intros Hok. unfold send_client_result. destruct (ob_clients ob !! id) as [cl|]; [|done].
  pose proof (stage_client_result_holds id 0 (mkResult f token) ob (Hok id)) as H.
  destruct (stage_client_result id _ ob) as [o ob1] eqn:E. simpl in H. specialize (H ltac:(done)).
  apply (holds_ok id). destruct o as [|r|r|r]; simpl.
  - destruct answer; [done|by apply close_holds].
  - assert (ob_stages ob1 !! id = None) as Hs.
    { revert E. unfold stage_client_result. destruct (ob_stages ob !! id) eqn:?; [|naive_solver].
      destruct (ps_aborted _); [done|]. by case_bool_decide. }
    destruct (ob_connections ob1 !! id) as [c|] eqn:Hc; simpl; [|by apply close_holds].
    pose proof (holds_conn _ _ _ _ H Hc) as Hcok.
    destruct (try_send _ _ _ _) as [l|] eqn:Ht; simpl; [|by apply close_holds].
    apply try_send_Some in Ht as (_ & Hlen & ->).
    assert (holds lost id 0 (on_connection id (set_cn_results (cn_results c ++ [r])) ob1)).
    { eapply holds_set_stage_None; try done; [simpl; rewrite len_snoc; lia|apply Hcok]. }
    destruct answer; [done|by apply close_holds].
  - apply close_holds, holds_complete. by apply abort_holds.
  - by apply holds_complete.
Qed.

Lemma open_connection_ok id client ob :
  counted lost ob → ob_connections ob !! id = None → counted lost (open_connection id client ob).
Proof.
  intros Hok Hn. apply (holds_ok id). destruct (Hok id) as [Hg Hb Hc Hs Hcl Hl].
  split; simpl.
  - rewrite map_sum_insert_None by done. simpl. lia.
  - done.
  - intros j c. destruct (decide (j = id)) as [->|Hne].
    + rewrite !lookup_insert_eq. intros [= <-]. unfold conn_ok, stage_ok. simpl.
      rewrite (Hl id Hn). change (W []) with 0. split_and!; try done. intros s [= <-]. done.
    + rewrite !lookup_insert_ne by done. intros Hj. specialize (Hc j c Hj).
      by rewrite decide_False in Hc.
  - intros j. destruct (decide (j = id)) as [->|Hne].
    + rewrite !lookup_insert_eq. eauto.
    + rewrite !lookup_insert_ne by done. apply Hs.
  - intros j. destruct (decide (j = id)) as [->|Hne].
    + rewrite !lookup_insert_eq. eauto.
    + rewrite !lookup_insert_ne by done. apply Hcl.
  - intros j [Hj _]%lookup_insert_None. by apply Hl.
Qed.

(** The queue loses [frames], which are then in flight. *)
Lemma pop_holds id ob c frames rest f :
  holds lost id 0 ob → ob_connections ob !! id = Some c → cn_tx c = frames ++ rest →
  cn_tx (f c) = rest → cn_open (f c) = cn_open c → cn_queued_bytes (f c) = cn_queued_bytes c →
  cn_bootstrapped (f c) = cn_bootstrapped c → cn_controls (f c) = cn_controls c →
  len (cn_results (f c)) ≤ len (cn_results c) →
  holds lost id (W frames) (on_connection id f ob).
Proof.
  intros Hh Hc Htx Hf Hop Hq Hb Hct Hr. rewrite (on_connection_eq id f ob c Hc).
  pose proof (holds_conn _ _ _ _ Hh Hc) as Hok. pose proof (W_nonneg frames).
  eapply holds_same_bytes; [done|done|done| |done]. simpl.
  unfold conn_ok, stage_ok in *. rewrite Hf, Hop, Hq, Hb, Hct. rewrite Htx, W_app in Hok.
  destruct Hok as (_ & Hqe & Hqm & Hl & Hrl & Hcl & Hclosed & Hgone & Hopen & Hst).
  assert (frames ++ rest = [] → rest = []) as Hnil by (by intros [_ ?]%app_nil).
  assert (len rest ≤ len (frames ++ rest)) by (unfold len; rewrite length_app; lia).
  split_and!; try done; try lia; [eauto|].
  intros s Hs. destruct (Hst s Hs) as (? & ? & ?). split_and!; try done; [eauto|tauto..].
Qed.

Lemma writer_recv_ok id ob : counted lost ob → counted lost (writer_recv id ob).2.
Proof.
  intros Hok. unfold writer_recv. destruct (ob_connections ob !! id) as [c|] eqn:Hc; [|done].
  destruct (negb _); [done|]. destruct (cn_tx c) as [|f tx] eqn:Htx; [done|]. simpl.
  apply (holds_ok id), release_holds; [|by apply on_connection_is_Some|done].
  rewrite Z.add_0_l, <- W_one. by apply (pop_holds id ob c [f] tx).
Qed.

Lemma writer_recv_result_ok b id ob : counted lost ob → counted lost (writer_recv_result b id ob).2.
Proof.
  intros Hok. unfold writer_recv_result.
  destruct (ob_connections ob !! id) as [c|] eqn:Hc; [|done].
  destruct (negb _); [done|]. destruct (cn_results c) as [|r rs] eqn:Hr; [done|]. simpl.
  apply (holds_ok id), holds_complete. rewrite <- W_nil.
  apply (pop_holds id ob c [] (cn_tx c)); try done. simpl. rewrite Hr. unfold len. simpl. lia.
Qed.

Lemma release_connection id f ob c :
  ob_connections ob !! id = Some c →
  ∃ c', ob_connections (release_client_outbound_bytes id f ob) !! id = Some c' ∧
        cn_tx c' = cn_tx c ∧ cn_results c' = cn_results c ∧ cn_controls c' = cn_controls c ∧
        cn_open c' = cn_open c ∧ cn_bootstrapped c' = cn_bootstrapped c.
Proof.
  intros Hc. eexists. unfold release_client_outbound_bytes. simpl.
  rewrite lookup_alter_eq, Hc. by split_and!.
Qed.
Lemma release_all_connection id fs ob c :
  ob_connections ob !! id = Some c →
  ∃ c', ob_connections (release_all id fs ob) !! id = Some c' ∧
        cn_tx c' = cn_tx c ∧ cn_results c' = cn_results c ∧ cn_controls c' = cn_controls c ∧
        cn_open c' = cn_open c ∧ cn_bootstrapped c' = cn_bootstrapped c.
Proof.
  revert ob c. induction fs as [|f fs IH]; intros ob c Hc; simpl; [by exists c|].
  destruct (release_connection id f ob c Hc) as (c1 & Hc1 & ? & ? & ? & ? & ?).
  destruct (IH _ c1 Hc1) as (c2 & ? & ? & ? & ? & ? & ?). exists c2. split_and!; congruence.
Qed.

Lemma writer_drain_ok id ob : counted lost ob → counted lost (writer_drain id ob).
Proof.
  intros Hok. unfold writer_drain. destruct (ob_connections ob !! id) as [c|] eqn:Hc; [|done].
  set (f := λ c, set_cn_results [] (set_cn_tx [] c)).
  apply (holds_ok id), holds_complete, release_all_holds; [|by apply on_connection_is_Some|done].
  rewrite Z.add_0_l. apply (pop_holds id ob c (cn_tx c) []); try done.
  - by rewrite app_nil_r.
  - unfold f. simpl. unfold len. simpl. lia.
Qed.

(** The frames in the channel of client [id]. *)
Definition channel (id : Uuid) ob : list OutboundFrame.t :=
  match ob_connections ob !! id with Some c => cn_tx c | None => [] end.

(** More bytes of client [id] are lost. *)
Definition lose (id : Uuid) (bytes : Z) (lost : Uuid → Z) (j : Uuid) : Z :=
  if decide (j = id) then lost j + bytes else lost j.

Lemma alter_bytes (f : Connection → Connection) id ob :
  (∀ c, cn_queued_bytes (f c) = cn_queued_bytes c) →
  map_sum cn_queued_bytes (ob_connections ob) = map_sum cn_queued_bytes (alter f id (ob_connections ob)).
Proof.
  intros Hf. destruct (ob_connections ob !! id) as [c|] eqn:Hc.
  - pose proof (f_equal ob_connections (on_connection_eq id f ob c Hc)) as E. simpl in E.
    rewrite E, map_sum_insert, Hf. unfold at_key. rewrite Hc. lia.
  - by rewrite alter_id by (intros ? ?; congruence).
Qed.

Lemma writer_drop_ok id ob :
  counted lost ob → counted (lose id (W (channel id ob)) lost) (writer_drop id ob).
Proof.
  intros Hok. apply (holds_ok id). destruct (Hok id) as [Hg Hb Hc Hs Hcl Hl].
  unfold writer_drop. split; simpl; try done.
  - rewrite Hg. by apply alter_bytes.
  - intros j c. unfold lose. rewrite lookup_alter. unfold channel.
    destruct (decide (id = j)) as [<-|Hne].
    2:{ rewrite !decide_False by done. intros Hj. specialize (Hc j c Hj). by rewrite decide_False in Hc. }
    rewrite decide_True by done. destruct (ob_connections ob !! id) as [c0|] eqn:E; [|done].
    intros [= <-]. specialize (Hc id c0 E). pose proof (W_nonneg (cn_tx c0)).
    rewrite decide_True in * by done. unfold conn_ok, stage_ok in *. simpl. change (W []) with 0.
    destruct Hc as (? & ? & ? & ? & ? & ? & ? & ? & ? & Hst).
    split_and!; try done; try lia.
    intros s Hs'. destruct (Hst s Hs') as [_ Hrest]. split; [done|exact Hrest].
  - intros j Hj. apply (on_connection_is_Some id j _ ob). by apply Hs.
  - intros j Hj. apply (on_connection_is_Some id j _ ob). by apply Hcl.
  - intros j Hj. unfold lose, channel. rewrite lookup_alter in Hj.
    destruct (decide (id = j)) as [<-|Hne]; [|rewrite decide_False by done; by apply Hl].
    rewrite decide_True by done. apply fmap_None in Hj. rewrite Hj, (Hl id Hj). done.
Qed.

Lemma forget_clients_ok old ob : counted lost ob → counted lost (forget_clients old ob).
Proof.
  intros Hok. apply (holds_ok []). destruct (Hok []) as [?????]. split; try done.
  simpl. intros j [v Hv%retain_lookup_Some_1]. apply h_client. eauto.
Qed.

Lemma remove_client_ok id ob : counted lost ob → counted lost (remove_client id ob).
Proof.
  intros Hok. apply discard_ok. apply (holds_ok id). destruct (Hok id) as [?????]. split; try done.
  simpl. intros j [v Hv%lookup_delete_Some]. apply h_client. naive_solver.
Qed.
End preserved.

(** ** Every interleaving of whole operations *)

Inductive queue_op : Type :=
| OpConnect (client_id : Uuid) (client : ClientHandle)
| OpSend (initial : bool) (client_id : Uuid) (frame : OutboundFrame.t)
| OpControl (client_id : Uuid) (control : ClientControl)
| OpResult (token : Z) (answer : bool) (client_id : Uuid) (frame : OutboundFrame.t)
| OpCommit (client_id : Uuid)
| OpWriterRecv (client_id : Uuid)
| OpWriterResult (delivered : bool) (client_id : Uuid)
| OpWriterDrain (client_id : Uuid)
| OpWriterDrop (client_id : Uuid)
| OpClose (client_id : Uuid) (control : ClientControl)
| OpForget (old_ids : gset Uuid)
| OpRemove (client_id : Uuid).

Section runs.
Context {JSON : SerdeJson} {FJ : FrameJson}.
Implicit Types ob : Outbound.

Definition queue_step (op : queue_op) (ob : Outbound) : Outbound :=
  match op with
  | OpConnect id client => open_connection id client ob
  | OpSend initial id frame => send_to_client_internal initial id frame ob
  | OpControl id control => send_control_to_client id control ob
  | OpResult token answer id frame => (send_client_result token answer id frame ob).2
  | OpCommit id => commit_client_stage id ob
  | OpWriterRecv id => (writer_recv id ob).2
  | OpWriterResult delivered id => (writer_recv_result delivered id ob).2
  | OpWriterDrain id => writer_drain id ob
  | OpWriterDrop id => writer_drop id ob
  | OpClose id control => try_send_control id control ob
  | OpForget old_ids => forget_clients old_ids ob
  | OpRemove id => remove_client id ob
  end.

(** A connection gets a new [Uuid::new_v4]. *)
Definition queue_op_fresh (op : queue_op) (ob : Outbound) : Prop :=
  match op with OpConnect id _ => ob_connections ob !! id = None | _ => True end.

(** What an operation loses: the frames in a channel whose receiver is dropped. *)
Definition lost_after (op : queue_op) (ob : Outbound) (lost : Uuid → Z) : Uuid → Z :=
  match op with OpWriterDrop id => lose id (W (channel id ob)) lost | _ => lost end.

(** Runs, with the bytes lost on the way. *)
Inductive queue_run : (Uuid → Z) → Outbound → Prop :=
| run_start : queue_run (λ _, 0) outbound_new
| run_next lost ob op :
    queue_run lost ob → queue_op_fresh op ob → queue_run (lost_after op ob lost) (queue_step op ob).

Definition queue_reachable (ob : Outbound) : Prop := ∃ lost, queue_run lost ob.
Lemma queue_start : queue_reachable outbound_new.
Proof. eexists. apply run_start. Qed.
Lemma queue_next ob op :
  queue_reachable ob → queue_op_fresh op ob → queue_reachable (queue_step op ob).
Proof. intros [lost Hr] Hf. eexists. by apply run_next. Qed.

Lemma queue_step_counted op lost ob :
  counted lost ob → queue_op_fresh op ob → counted (lost_after op ob lost) (queue_step op ob).
Proof.
  intros Hok Hf. destruct op; simpl in *.
  - by apply open_connection_ok.
  - by apply send_ok.
  - apply (holds_ok client_id). by apply send_control_holds.
  - by apply send_result_ok.
  - by apply commit_stage_ok.
  - by apply writer_recv_ok.
  - by apply writer_recv_result_ok.
  - by apply writer_drain_ok.
  - by apply writer_drop_ok.
  - apply (holds_ok client_id). by apply try_send_control_holds.
  - by apply forget_clients_ok.
  - by apply remove_client_ok.
Qed.

Lemma queue_run_counted lost ob : queue_run lost ob → counted lost ob.
Proof.
  induction 1 as [|lost ob op Hr IH Hf]; [|by apply queue_step_counted].
  intros id. split; simpl; try done; intros j [? ?]; done.
Qed.

Lemma queue_reachable_ok ob : queue_reachable ob → outbound_ok ob.
Proof. intros [lost Hr]. exists lost. by apply queue_run_counted. Qed.

(** ** No frame is lost *)

(** The frames on their way to client [id]: staged, then queued. *)
Definition outgoing (id : Uuid) ob : list OutboundFrame.t :=
  stage_frames (ob_stages ob !! id) ++
  match ob_connections ob !! id with Some c => cn_tx c | None => [] end.

(** The connection is coming down: its receiver is gone, or a control is queued
    for its writer, which ends with it. *)
Definition closing (id : Uuid) ob : Prop :=
  ∃ c, ob_connections ob !! id = Some c ∧ (cn_open c = false ∨ cn_controls c ≠ []).

(** The stage of the connection was given up. *)
Definition aborted (id : Uuid) ob : Prop :=
  ∃ s, ob_stages ob !! id = Some s ∧ ps_aborted s = true.

Lemma try_send_control_closing id ctl ob :
  is_Some (ob_connections ob !! id) → closing id (try_send_control id ctl ob).
Proof.
  intros [c Hc]. unfold closing, try_send_control. rewrite Hc. simpl.
  destruct (try_send _ _ _ _) as [l|] eqn:Ht.
  - apply try_send_Some in Ht as (_ & _ & ->). eexists. simpl.
    rewrite lookup_alter_eq, Hc. split; [done|]. right. simpl. by destruct (cn_controls c).
  - exists c. split; [done|]. unfold try_send, CLIENT_CONTROL_QUEUE_CAPACITY in Ht.
    destruct (cn_open c); [right|by left]. simpl in Ht. case_bool_decide; [done|].
    intros E. rewrite E in *. unfold len in *. simpl in *. lia.
Qed.

Lemma close_closing id ob :
  is_Some (ob_clients ob !! id) → is_Some (ob_connections ob !! id) →
  closing id (close_client_transport id ob).
Proof.
  intros [cl Hcl] Hc. unfold close_client_transport. rewrite Hcl. by apply try_send_control_closing.
Qed.

(** ** A stage is given up only with its connection

    [settles]: a connection that is coming down keeps coming down, and a stage is
    aborted only when its connection is. *)
Definition settles ob ob' : Prop :=
  ∀ id, (closing id ob → closing id ob') ∧ (aborted id ob' → aborted id ob ∨ closing id ob').
#[local] Instance settles_preorder : PreOrder settles.
Proof.
  split; [by intros ob id; eauto|]. intros a b c H1 H2 id.
  destruct (H1 id) as [C1 A1], (H2 id) as [C2 A2]. naive_solver.
Qed.

Lemma settles_same ob ob' :
  ob_connections ob' = ob_connections ob → ob_stages ob' = ob_stages ob → settles ob ob'.
Proof. intros Hc Hs id. unfold closing, aborted. rewrite Hc, Hs. eauto. Qed.

Lemma settles_on_connection id f ob :
  (∀ c, cn_open c = false ∨ cn_controls c ≠ [] → cn_open (f c) = false ∨ cn_controls (f c) ≠ []) →
  settles ob (on_connection id f ob).
Proof.
  intros Hf j. unfold closing, aborted. simpl. split; [|eauto]. intros (c & Hc & Hcl).
  rewrite lookup_alter. case_decide; subst; rewrite Hc; [|by eauto]. exists (f c). eauto.
Qed.

Lemma settles_stages stages ob :
  (∀ j s, stages !! j = Some s → ps_aborted s = true → aborted j ob) →
  settles ob (set_stages stages ob).
Proof. intros H j. split; [done|]. intros (s & Hs & Ha). left. by eapply H. Qed.

Lemma settles_stage_insert id s s0 ob :
  ob_stages ob !! id = Some s0 → ps_aborted s = ps_aborted s0 →
  settles ob (set_stages (<[id := s]> (ob_stages ob)) ob).
Proof.
  intros Hs0 E. apply settles_stages. intros j s' [[<- <-]|[? ?]]%lookup_insert_Some Ha.
  - exists s0. split; [done|congruence].
  - by exists s'.
Qed.
Lemma settles_stage_delete id ob : settles ob (set_stages (delete id (ob_stages ob)) ob).
Proof. apply settles_stages. intros j s [_ ?]%lookup_delete_Some ?. by exists s. Qed.

(** When one client is touched and its connection is closing afterwards. *)
Lemma settles_closing id ob ob' : only id ob ob' → closing id ob' → settles ob ob'.
Proof.
  intros Ho Hc j. destruct (decide (j = id)) as [->|Hne]; [by eauto|].
  unfold closing, aborted. rewrite (only_connections _ _ _ Ho), (only_stages _ _ _ Ho) by done. eauto.
Qed.

Lemma settles_bytes v ob : settles ob (set_outbound_bytes v ob).
Proof. by apply settles_same. Qed.
Lemma settles_complete b rs ob : settles ob (complete b rs ob).
Proof. by apply settles_same. Qed.
Lemma settles_clients v ob : settles ob (set_clients v ob).
Proof. by apply settles_same. Qed.

Lemma settles_release id f ob : settles ob (release_client_outbound_bytes id f ob).
Proof.
  unfold release_client_outbound_bytes. etrans; [|apply settles_bytes]. by apply settles_on_connection.
Qed.
Lemma settles_foldl {A} (g : Outbound → A → Outbound) l ob :
  (∀ ob x, settles ob (g ob x)) → settles ob (foldl g ob l).
Proof.
  intros Hg. revert ob. induction l as [|x l IH]; intros ob; simpl; [done|]. etrans; [apply Hg|apply IH].
Qed.
Lemma settles_release_all id fs ob : settles ob (release_all id fs ob).
Proof. apply settles_foldl. intros. apply settles_release. Qed.

Lemma settles_try_send_control id c ob : settles ob (try_send_control id c ob).
Proof.
  unfold try_send_control. destruct (ob_connections ob !! id) as [cn|] eqn:Hc; simpl; [|done].
  destruct (try_send _ _ _ _) as [l|] eqn:Ht; [|done]. apply try_send_Some in Ht as (_ & _ & ->).
  apply settles_on_connection. intros c' _. right. simpl. by destruct (cn_controls cn).
Qed.
Lemma settles_close id ob : settles ob (close_client_transport id ob).
Proof.
  unfold close_client_transport. destruct (ob_clients ob !! id); [apply settles_try_send_control|done].
Qed.

Lemma settles_flush_frame id ob f : settles ob (flush_frame id ob f).
Proof.
  unfold flush_frame. destruct (_ ≫= _); [by apply settles_on_connection|apply settles_release].
Qed.
Lemma settles_flush_result id ob r : settles ob (flush_result id ob r).
Proof.
  unfold flush_result. destruct (_ ≫= _); [by apply settles_on_connection|apply settles_complete].
Qed.

Lemma settles_discard id ob : settles ob (discard_client_stage id ob).
Proof.
  unfold discard_client_stage. destruct (ob_stages ob !! id); [|done].
  etrans; [apply settles_stage_delete|]. etrans; [apply settles_release_all|].
  etrans; [apply settles_complete|by apply settles_on_connection].
Qed.
Lemma settles_commit id ob : settles ob (commit_client_stage id ob).
Proof.
  unfold commit_client_stage. destruct (ob_clients ob !! id); [|apply settles_discard].
  destruct (ob_stages ob !! id) as [s|]; [|done].
  etrans; [|by apply settles_on_connection]. etrans; [apply settles_stage_delete|].
  destruct (ps_aborted s); [done|].
  etrans; [|apply settles_foldl; intros; apply settles_try_send_control].
  etrans; [|apply settles_foldl; intros; apply settles_flush_result].
  apply settles_foldl. intros. apply settles_flush_frame.
Qed.

Lemma settles_stage_frame initial id f ob : settles ob (stage_frame initial id f ob).2.
Proof.
  unfold stage_frame. destruct (ob_stages ob !! id) as [s|] eqn:Hs; [|done].
  destruct (ps_aborted s) eqn:Ha; [done|]. case_bool_decide; [done|].
  destruct initial; simpl; [etrans; [apply settles_release_all|]|];
    eapply settles_stage_insert; rewrite ?release_all_stages; simpl; try done.
Qed.
Lemma settles_stage_control id c ob : settles ob (stage_control id c ob).2.
Proof.
  unfold stage_control. destruct (ob_stages ob !! id) as [s|] eqn:Hs; [|done].
  destruct (ps_aborted s) eqn:Ha; [done|]. case_bool_decide; [done|].
  by eapply settles_stage_insert.
Qed.
Lemma settles_stage_client_result id r ob : settles ob (stage_client_result id r ob).2.
Proof.
  unfold stage_client_result. destruct (ob_stages ob !! id) as [s|] eqn:Hs; [|done].
  destruct (ps_aborted s) eqn:Ha; [done|]. case_bool_decide; [done|].
  by eapply settles_stage_insert.
Qed.
Lemma settles_admit id f ob : settles ob (admit_frame id f ob).2.
Proof.
  unfold admit_frame, reserve_outbound_bytes. destruct (queue_limits f).
  case_bool_decide; [done|]. destruct (ob_connections ob !! id); [|done].
  destruct (checked_add _ _ _); [|done]. case_bool_decide; [done|].
  destruct (checked_add _ _ _); [|done]. case_bool_decide; [done|]. simpl.
  etrans; [|apply settles_bytes]. by apply settles_on_connection.
Qed.

(** A stage that is given up when its client is known takes the connection along. *)
Lemma abort_close_closing id ob :
  is_Some (ob_clients ob !! id) → is_Some (ob_connections ob !! id) →
  closing id (close_client_transport id (abort_client_stage id ob)).
Proof.
  intros Hcl Hc. apply close_closing.
  - by rewrite (only_clients _ _ _ (only_abort id _)).
  - by apply (only_dom _ _ _ (only_abort id _)).
Qed.

Definition clients_connected ob : Prop :=
  ∀ j, is_Some (ob_clients ob !! j) → is_Some (ob_connections ob !! j).

Lemma settles_send_control id c ob :
  clients_connected ob → settles ob (send_control_to_client id c ob).
Proof.
  intros Hcc. pose proof (only_send_control id c ob) as Hw. revert Hw.
  unfold send_control_to_client. destruct (ob_clients ob !! id) eqn:Hcl; [|done]. intros Hw.
  pose proof (settles_stage_control id c ob) as H. pose proof (only_stage_control id c ob) as Ho.
  destruct (stage_control id c ob) as [o ob1]. simpl in *.
  destruct o as [|x|x|x]; [done|..].
  - etrans; [done|apply settles_try_send_control].
  - apply (settles_closing id); [done|]. apply try_send_control_closing.
    apply (only_dom _ _ _ (only_abort id _)), (only_dom _ _ _ Ho), Hcc. eauto.
  - destruct x; [done|]. etrans; [done|apply settles_try_send_control].
Qed.

Lemma settles_send initial id f ob :
  clients_connected ob → settles ob (send_to_client_internal initial id f ob).
Proof.
  intros Hcc. pose proof (only_send initial id f ob) as Hw. revert Hw.
  unfold send_to_client_internal. destruct (ob_clients ob !! id) eqn:Hcl; [|done].
  assert (is_Some (ob_connections ob !! id)) as Hc by (apply Hcc; eauto).
  pose proof (settles_admit id f ob) as Ha. pose proof (only_admit_frame id f ob) as Hoa.
  destruct (admit_frame id f ob) as [[] ob1]; simpl in *; intros Hw.
  - pose proof (settles_stage_frame initial id f ob1) as Hs.
    pose proof (only_stage_frame initial id f ob1) as Hos.
    destruct (stage_frame initial id f ob1) as [o ob2]. simpl in *.
    assert (settles ob ob2) as Hs2 by (etrans; [exact Ha|exact Hs]).
    assert (only id ob ob2) as Ho2 by (etrans; [exact Hoa|exact Hos]).
    assert (∀ g, clients_connected (release_client_outbound_bytes id g ob2)) as Hcc2.
    { intros g j Hj. apply on_connection_is_Some. apply (only_dom _ _ _ Ho2), Hcc.
      by rewrite <- (only_clients _ _ _ Ho2). }
    destruct o as [|g|g|g]; [done|..].
    + destruct (_ ≫= _); [etrans; [exact Hs2|by apply settles_on_connection]|].
      etrans; [exact Hs2|]. etrans; [apply settles_release|]. by apply settles_send_control.
    + apply (settles_closing id); [done|]. apply abort_close_closing; simpl.
      * rewrite (only_clients _ _ _ Ho2). eauto.
      * by apply on_connection_is_Some, (only_dom _ _ _ Ho2).
    + etrans; [exact Hs2|apply settles_release].
  - apply (settles_closing id); [done|]. apply abort_close_closing.
    + rewrite (only_clients _ _ _ Hoa). eauto.
    + by apply (only_dom _ _ _ Hoa).
Qed.

Lemma settles_send_result token answer id f ob :
  clients_connected ob → settles ob (send_client_result token answer id f ob).2.
Proof.
  intros Hcc. pose proof (only_send_result token answer id f ob) as Hw. revert Hw.
  unfold send_client_result. destruct (ob_clients ob !! id) eqn:Hcl; [|done].
  assert (is_Some (ob_connections ob !! id)) as Hc by (apply Hcc; eauto).
  pose proof (settles_stage_client_result id (mkResult f token) ob) as H.
  pose proof (only_stage_client_result id (mkResult f token) ob) as Ho.
  destruct (stage_client_result id _ ob) as [o ob1]. simpl in *.
  destruct o as [|r|r|r]; simpl; intros Hw.
  - destruct answer; [done|]. simpl. etrans; [exact H|apply settles_close].
  - destruct (_ ≫= _); simpl; [|etrans; [exact H|apply settles_close]].
    destruct answer; simpl; (etrans; [exact H|]); [by apply settles_on_connection|].
    etrans; [|apply settles_close]. by apply settles_on_connection.
  - apply (settles_closing id); [done|]. apply close_closing; simpl.
    + rewrite (only_clients _ _ _ (only_abort id _)), (only_clients _ _ _ Ho). eauto.
    + by apply (only_dom _ _ _ (only_abort id _)), (only_dom _ _ _ Ho).
  - etrans; [exact H|apply settles_complete].
Qed.

(** In every reachable state, an aborted stage is of a connection coming down. *)
Lemma aborted_closing ob id : queue_reachable ob → aborted id ob → closing id ob.
Proof.
  intros [lost Hr]. revert id. induction Hr as [|lost ob op Hr IH Hf]; intros id.
  { intros (s & Hs & _). done. }
  assert (clients_connected ob) as Hcc.
  { intros j. apply (h_client _ _ _ (queue_run_counted _ _ Hr j)). }
  destruct op as [c cl| | | | |c| |c|c| |old|c]; simpl in *.
  1:{ destruct (decide (id = c)) as [->|Hne].
      - intros (s & Hs & Ha). simpl in Hs. rewrite lookup_insert_eq in Hs. by simplify_eq.
      - unfold aborted, closing. simpl. rewrite !lookup_insert_ne by done. apply IH. }
  all: match goal with |- aborted _ ?ob' → _ =>
    assert (settles ob ob') as Hs; [|destruct (Hs id); specialize (IH id); tauto] end.
  - by apply settles_send.
  - by apply settles_send_control.
  - by apply settles_send_result.
  - apply settles_commit.
  - unfold writer_recv. destruct (ob_connections ob !! c) as [cn|]; [|done].
    destruct (negb _); [done|]. destruct (cn_tx cn); [done|]. simpl.
    etrans; [|apply settles_release]. by apply settles_on_connection.
  - unfold writer_recv_result. destruct (ob_connections ob !! _) as [cn|]; [|done].
    destruct (negb _); [done|]. destruct (cn_results cn); [done|]. simpl.
    etrans; [|apply settles_complete]. by apply settles_on_connection.
  - unfold writer_drain. destruct (ob_connections ob !! c) as [cn|]; [|done].
    etrans; [|apply settles_complete]. etrans; [|apply settles_release_all].
    by apply settles_on_connection.
  - apply settles_on_connection. intros cn _. by left.
  - apply settles_try_send_control.
  - apply settles_clients.
  - etrans; [apply settles_clients|apply settles_discard].
Qed.

(** [send_to_client] on a connection that is not staged. *)
Lemma send_ready_cases id f ob :
  is_Some (ob_clients ob !! id) → is_Some (ob_connections ob !! id) →
  ob_stages ob !! id = None →
  match c ← ob_connections ob !! id;
        try_send CLIENT_OUTBOUND_QUEUE_CAPACITY (cn_open c) (cn_tx c) f with
  | Some tx => outgoing id (on_connection id (set_cn_tx tx) ob) = outgoing id ob ++ [f]
  | None =>
      closing id (send_control_to_client id Close (release_client_outbound_bytes id f ob))
  end.
Proof.
  intros Hcl [c Hc] Hs. rewrite Hc. simpl. destruct (try_send _ _ _ _) as [tx|] eqn:Ht.
  - apply try_send_Some in Ht as (_ & _ & ->). unfold outgoing. simpl.
    by rewrite lookup_alter_eq, Hs, Hc.
  - destruct Hcl as [cl Hcl]. unfold send_control_to_client, stage_control. simpl.
    rewrite Hcl, Hs. apply try_send_control_closing, on_connection_is_Some. eauto.
Qed.

(** Where a frame goes: after the snapshot frames when it is one of them, else
    to the end; a new presence snapshot replaces the presence that waits. *)
Definition enqueue (initial : bool) (f : OutboundFrame.t) (stage : option PendingClientStage)
    (frames : list OutboundFrame.t) : list OutboundFrame.t :=
  match stage with
  | Some s =>
      if initial
      then ps_initial_frames s ++ f :: filter (λ g, superseded f g = false) (ps_live_frames s)
      else frames ++ [f]
  | None => frames ++ [f]
  end.

Lemma stage_frame_outgoing initial id f ob ob' :
  outbound_ok ob → is_Some (ob_connections ob !! id) →
  ∀ ob1, only id ob ob1 → ob_stages ob1 = ob_stages ob →
  (∀ c, ob_connections ob1 !! id = Some c →
        ∃ c0, ob_connections ob !! id = Some c0 ∧ cn_tx c = cn_tx c0) →
  stage_frame initial id f ob1 = (Pending, ob') →
  outgoing id ob' = enqueue initial f (ob_stages ob !! id) (outgoing id ob).
Proof.
  intros [lost Hok] [c0 Hc0] ob1 Ho Hst Htx. unfold stage_frame. rewrite Hst.
  destruct (ob_stages ob !! id) as [s|] eqn:Hs; [|done].
  destruct (holds_stage_ok _ _ _ _ _ (Hok id) Hc0 Hs) as (Hempty & _).
  destruct (only_conn _ _ _ _ Ho Hc0) as [c1 Hc1].
  destruct (Htx c1 Hc1) as (c0' & Hc0' & Htx1).
  assert (cn_tx c1 = []) as Htx0 by congruence.
  destruct (ps_aborted s); [done|]. case_bool_decide; [done|].
  unfold outgoing, enqueue. destruct initial; intros [= <-]; simpl.
  - rewrite lookup_insert_eq. simpl.
    destruct (release_all_connection id
      (filter (λ g, superseded f g = true) (ps_live_frames s)) ob1 c1 Hc1) as (c2 & -> & -> & _).
    rewrite Htx0, app_nil_r. unfold staged_frames. simpl. by rewrite <- app_assoc.
  - rewrite lookup_insert_eq, Hc1, Hs, Hc0, Hempty, Htx0. simpl. unfold staged_frames. simpl.
    by rewrite !app_nil_r, app_assoc.
Qed.

Lemma admit_frame_same id f ob b ob1 :
  admit_frame id f ob = (b, ob1) →
  ob_stages ob1 = ob_stages ob ∧ ob_clients ob1 = ob_clients ob ∧
  (∀ c, ob_connections ob1 !! id = Some c →
        ∃ c0, ob_connections ob !! id = Some c0 ∧ cn_tx c = cn_tx c0).
Proof.
  unfold admit_frame, reserve_outbound_bytes. destruct (queue_limits f).
  case_bool_decide; [naive_solver|].
  destruct (ob_connections ob !! id) as [c|] eqn:Hc; [|naive_solver].
  destruct (checked_add _ _ _); [|naive_solver].
  case_bool_decide; [naive_solver|].
  destruct (checked_add _ _ _); [|naive_solver].
  case_bool_decide; [naive_solver|]. intros [= <- <-]. simpl. split_and!; try done.
  rewrite lookup_alter_eq, Hc. intros c' [= <-]. eauto.
Qed.

Lemma outgoing_admitted id f ob b ob1 :
  admit_frame id f ob = (b, ob1) → is_Some (ob_connections ob !! id) →
  outgoing id ob1 = outgoing id ob.
Proof.
  intros Ha [c Hc]. pose proof (only_admit_frame id f ob) as Ho. rewrite Ha in Ho.
  destruct (only_conn _ _ _ _ Ho Hc) as [c1 Hc1]. simpl in Hc1.
  destruct (admit_frame_same _ _ _ _ _ Ha) as (Hs & _ & Htx).
  destruct (Htx c1 Hc1) as (c0 & Hc0 & E). unfold outgoing. rewrite Hs, Hc1, Hc0. by rewrite E.
Qed.

(** C27: a frame is never dropped in silence.  In every reachable state of the
    queues, sending a frame to a connected client either puts it in its place or
    leaves the connection being closed, its receiver gone or a control queued for
    its writer.  Its place is behind everything waiting for that client; while the
    snapshot is built, a snapshot frame goes behind the snapshot frames and before
    the live ones, and a presence snapshot replaces the presence frames waiting
    among these.  No other client's stage, channels or counter change. *)
Theorem frame_sent_or_closed initial id f ob :
  queue_reachable ob → is_Some (ob_clients ob !! id) →
  only id ob (send_to_client_internal initial id f ob) ∧
  (closing id (send_to_client_internal initial id f ob) ∨
   outgoing id (send_to_client_internal initial id f ob) =
     enqueue initial f (ob_stages ob !! id) (outgoing id ob)).
Proof.
  intros Hr Hcl. split; [apply only_send|]. pose proof (queue_reachable_ok _ Hr) as Ho'.
  pose proof Ho' as [lost Hok].
  assert (is_Some (ob_connections ob !! id)) as Hc by (by apply (h_client _ _ _ (Hok id))).
  unfold send_to_client_internal. destruct Hcl as [cl Hcl]. rewrite Hcl.
  pose proof (settles_admit id f ob) as Hset.
  destruct (admit_frame id f ob) as [b ob1] eqn:Ha.
  pose proof (outgoing_admitted _ _ _ _ _ Ha Hc) as Hout.
  pose proof (only_admit_frame id f ob) as Ho. rewrite Ha in Ho. simpl in Ho, Hset.
  destruct (admit_frame_same _ _ _ _ _ Ha) as (Hst & Hcl1 & Htx).
  assert (is_Some (ob_connections ob1 !! id)) as Hc1 by (by apply (only_dom _ _ _ Ho)).
  destruct b; [|left; apply abort_close_closing; [rewrite Hcl1; eauto|done]].
  destruct (stage_frame initial id f ob1) as [o ob2] eqn:Hsf.
  pose proof (admit_frame_holds _ _ _ _ _ Hok Ha) as Hh. simpl in Hh.
  pose proof (stage_frame_holds _ _ _ _ _ _ Hh Hc1 Hsf) as Hcase.
  destruct o as [|g|g|g].
  - right. by eapply stage_frame_outgoing.
  - destruct Hcase as (-> & -> & Hs).
    pose proof (send_ready_cases id f ob1) as Hcases. rewrite Hcl1 in Hcases.
    specialize (Hcases ltac:(eauto) Hc1 Hs). destruct (_ ≫= _); [right|by left].
    rewrite Hcases, Hout. unfold enqueue. by rewrite <- Hst, Hs.
  - destruct Hcase as (-> & ->). left. apply abort_close_closing; simpl.
    + rewrite Hcl1. eauto.
    + by apply on_connection_is_Some.
  - destruct Hcase as (-> & ->). left. apply settles_release, Hset, aborted_closing; [done|].
    revert Hsf. unfold stage_frame. rewrite Hst.
    destruct (ob_stages ob !! id) as [s|] eqn:Hs; [|done].
    destruct (ps_aborted s) eqn:Hab; [|case_bool_decide; [|destruct initial]; done].
    intros _. exists s. by split.
Qed.

Lemma drained_channel id ob : channel id (writer_drain id ob) = [].
Proof.
  unfold channel, writer_drain. destruct (ob_connections ob !! id) as [c|] eqn:Hc; [|by rewrite Hc].
  destruct (release_all_connection id (cn_tx c)
              (on_connection id (λ c, set_cn_results [] (set_cn_tx [] c)) ob)
              (set_cn_results [] (set_cn_tx [] c))) as (c' & Hc' & Htx & _).
  { simpl. by rewrite lookup_alter_eq, Hc. }
  simpl in *. by rewrite Hc', Htx.
Qed.

Lemma outgoing_len lost id ob c :
  counted lost ob → ob_connections ob !! id = Some c →
  len (outgoing id ob) ≤ CLIENT_OUTBOUND_QUEUE_CAPACITY.
Proof.
  intros Hok Hc. unfold outgoing. rewrite Hc.
  destruct (holds_conn _ _ _ _ (Hok id) Hc) as (_ & _ & _ & Htx & _ & _ & _ & _ & _ & Hst).
  destruct (ob_stages ob !! id) as [s|]; simpl; [|done].
  destruct (Hst s eq_refl) as (-> & _ & Hlen & _). by rewrite app_nil_r.
Qed.

(** C26: the counters are exact.  After any sequence of connections, sends,
    results, controls, commits, writer steps and disconnections, every connection
    counts exactly the bytes of the frames waiting for it, at most 256 of them and
    at most 17,825,792 bytes, and the relay's counter is the sum over the
    connections and never exceeds 64 MiB.  The one exception is stated with it: a
    writer empties its channel and drops its receiver in two steps, and a frame sent
    in between is lost with the receiver while its bytes stay counted for that
    closed connection; nothing is lost while the receiver lives, nor by a writer
    that drops its receiver right after emptying the channel. *)
Theorem outbound_accounting lost ob :
  queue_run lost ob →
  ob_outbound_bytes ob = map_sum cn_queued_bytes (ob_connections ob) ∧
  0 ≤ ob_outbound_bytes ob ≤ GLOBAL_OUTBOUND_BYTES ∧
  (∀ id c, ob_connections ob !! id = Some c →
    cn_queued_bytes c = W (outgoing id ob) + lost id ∧ 0 ≤ lost id ∧
    (cn_open c = true → lost id = 0) ∧
    cn_queued_bytes c ≤ MLS_CLIENT_OUTBOUND_BYTES ∧
    len (outgoing id ob) ≤ CLIENT_OUTBOUND_QUEUE_CAPACITY) ∧
  ∀ id j, lost_after (OpWriterDrop id) (queue_step (OpWriterDrain id) ob) lost j = lost j.
Proof.
  intros Hok%queue_run_counted.
  assert (∀ id c, ob_connections ob !! id = Some c →
            cn_queued_bytes c = W (outgoing id ob) + lost id ∧ 0 ≤ lost id ∧
            (cn_open c = true → lost id = 0) ∧ cn_queued_bytes c ≤ MLS_CLIENT_OUTBOUND_BYTES) as Hq.
  { intros id c Hc.
    destruct (holds_conn _ _ _ _ (Hok id) Hc) as (_ & Eq & Hm & _ & _ & _ & _ & H0 & Hop & _).
    split_and!; try done. unfold outgoing. rewrite Eq, Hc, W_app. lia. }
  destruct (Hok []) as [Hg Hb _ _ _ _]. split_and!; [done| |done| |].
  - rewrite Hg, (map_sum_ext _ (λ c, Z.max 0 (cn_queued_bytes c))).
    + apply map_sum_nonneg. lia.
    + intros id c Hc. destruct (Hq id c Hc) as (-> & ? & _). pose proof (W_nonneg (outgoing id ob)). lia.
  - intros id c Hc. destruct (Hq id c Hc) as (? & ? & ? & ?). split_and!; try done. by eapply outgoing_len.
  - intros id j. simpl. rewrite drained_channel. unfold lose. case_decide; [|done]. apply Z.add_0_r.
Qed.

Lemma flush_frames_exact id fs ob c :
  ob_connections ob !! id = Some c → cn_open c = true →
  len (cn_tx c) + len fs ≤ CLIENT_OUTBOUND_QUEUE_CAPACITY →
  foldl (flush_frame id) ob fs =
    set_connections (<[id := set_cn_tx (cn_tx c ++ fs) c]> (ob_connections ob)) ob.
Proof.
  revert ob c. induction fs as [|f fs IH]; intros ob c Hc Hop Hlen.
  - rewrite app_nil_r. simpl. destruct ob, c. simpl in *. unfold set_cn_tx, set_connections. simpl.
    by rewrite insert_id.
  - simpl. unfold flush_frame at 2. rewrite Hc. simpl. unfold len in Hlen. simpl in Hlen.
    assert (try_send CLIENT_OUTBOUND_QUEUE_CAPACITY (cn_open c) (cn_tx c) f = Some (cn_tx c ++ [f]))
      as -> by (apply try_send_Some; unfold len; split_and!; [done|lia|done]).
    rewrite (on_connection_eq id _ ob c Hc), (IH _ (set_cn_tx (cn_tx c ++ [f]) c)).
    + unfold set_connections. simpl. rewrite insert_insert_eq. by rewrite <- app_assoc.
    + simpl. by rewrite lookup_insert_eq.
    + done.
    + unfold len. simpl. rewrite length_app. simpl. lia.
Qed.

(** A connection whose frames and counter are the given ones. *)
Definition has_queue (id : Uuid) (tx : list OutboundFrame.t) (bytes : Z) ob : Prop :=
  ∃ c, ob_connections ob !! id = Some c ∧ cn_tx c = tx ∧ cn_queued_bytes c = bytes.

Lemma has_queue_on_connection id tx bytes f ob :
  (∀ c, cn_tx (f c) = cn_tx c ∧ cn_queued_bytes (f c) = cn_queued_bytes c) →
  has_queue id tx bytes ob → has_queue id tx bytes (on_connection id f ob).
Proof.
  intros Hf (c & Hc & <- & <-). exists (f c). simpl. rewrite lookup_alter_eq, Hc.
  destruct (Hf c) as [-> ->]. done.
Qed.
Lemma has_queue_flush_result id tx bytes ob r :
  has_queue id tx bytes ob → has_queue id tx bytes (flush_result id ob r).
Proof. intros. unfold flush_result. destruct (_ ≫= _); [by apply has_queue_on_connection|done]. Qed.
Lemma has_queue_control id tx bytes ob c :
  has_queue id tx bytes ob → has_queue id tx bytes (try_send_control id c ob).
Proof. intros. unfold try_send_control. destruct (_ ≫= _); [by apply has_queue_on_connection|done]. Qed.

Lemma foldl_invariant {A B} (P : A → Prop) (g : A → B → A) l a :
  (∀ a b, P a → P (g a b)) → P a → P (foldl g a l).
Proof. intros Hg. revert a. induction l as [|b l IH]; intros a Ha; simpl; [done|]. auto. Qed.

(** Committing a snapshot loses nothing.  When the stage of a live
    connection is committed, its queue becomes the snapshot frames followed by
    the live frames that raced with it, each in the order they were staged; no
    frame meets a full channel and no byte is released. *)
Theorem snapshot_commit_exact id ob s c :
  queue_reachable ob → is_Some (ob_clients ob !! id) →
  ob_stages ob !! id = Some s → ps_aborted s = false →
  ob_connections ob !! id = Some c → cn_open c = true →
  has_queue id (ps_initial_frames s ++ ps_live_frames s) (cn_queued_bytes c)
    (commit_client_stage id ob).
Proof.
  intros [lost Hok]%queue_reachable_ok [cl Hcl] Hs Hab Hc Hop.
  destruct (holds_stage_ok _ _ _ _ _ (Hok id) Hc Hs) as (Htx & _ & Hlen & _).
  unfold commit_client_stage. rewrite Hcl, Hs, Hab.
  apply has_queue_on_connection; [done|].
  apply foldl_invariant; [intros; by apply has_queue_control|].
  apply foldl_invariant; [intros; by apply has_queue_flush_result|].
  rewrite (flush_frames_exact id _ _ c); [|done|done|].
  - eexists. simpl. rewrite lookup_insert_eq. split; [done|]. by rewrite Htx.
  - rewrite Htx. done.
Qed.

End runs.

(** * The outbound queues on a concrete run

    One connection: a live frame races with the snapshot, the stage is
    committed, the writer reads.  The witnesses apply the theorems there; the
    last example is the interleaving of a send with the end of a writer. *)

Module OutboundRun.
(** Every frame prints as the empty object, so it weighs the smallest bucket. *)
#[export] Instance demo_json : SerdeJson := {| parse_object _ := Some ∅ |}.
#[export] Instance demo_frame_json : FrameJson :=
  {| frame_json _ := Some [open_brace; close_brace] |}.

Definition client : Uuid := [Byte.x01].
Definition handle : ClientHandle := mkClient (replicate 32 Byte.x07) "alice" Android.
Definition snapshot_frame : OutboundFrame.t := OutboundFrame.Directs [].
Definition live_frame : OutboundFrame.t := OutboundFrame.MlsLeft 10 "room".

Definition run (ops : list queue_op) : Outbound := foldl (λ ob op, queue_step op ob) outbound_new ops.

Definition connected : list queue_op :=
  [OpConnect client handle; OpSend false client live_frame; OpSend true client snapshot_frame].

Lemma connected_reachable : queue_reachable (run connected).
Proof. repeat (apply queue_next; [|done]). apply queue_start. Defined.

Lemma stage_committed_reachable : queue_reachable (run (connected ++ [OpCommit client])).
Proof. repeat (apply queue_next; [|done]). apply queue_start. Defined.

(** A frame is sent between the writer's last loops and the end of its receiver. *)
Definition racing : list queue_op :=
  connected ++ [OpCommit client; OpWriterDrain client; OpSend false client live_frame].
Definition raced : Outbound := queue_step (OpWriterDrop client) (run racing).
Definition raced_lost : Uuid → Z := lost_after (OpWriterDrop client) (run racing) (λ _, 0).
Lemma raced_run : queue_run raced_lost raced.
Proof.
  apply (run_next (λ _, 0) (run racing) (OpWriterDrop client)); [|done].
  apply (run_next (λ _, 0) _ (OpSend false client live_frame)); [|done].
  apply (run_next (λ _, 0) _ (OpWriterDrain client)); [|done].
  apply (run_next (λ _, 0) _ (OpCommit client)); [|done].
  apply (run_next (λ _, 0) _ (OpSend true client snapshot_frame)); [|done].
  apply (run_next (λ _, 0) _ (OpSend false client live_frame)); [|done].
  apply (run_next (λ _, 0) _ (OpConnect client handle)); [apply run_start|done].
Defined.

Lemma outbound_accounting_witness :
  ob_outbound_bytes raced = 4096 ∧ outgoing client raced = [] ∧ raced_lost client = 4096 ∧
  ∀ c, ob_connections raced !! client = Some c →
    cn_queued_bytes c = W (outgoing client raced) + raced_lost client.
Proof.
  split_and!; [vm_compute; reflexivity..|].
  destruct (outbound_accounting raced_lost raced raced_run) as (_ & _ & H & _).
  intros c Hc. exact (proj1 (H client c Hc)).
Defined.

Lemma frame_sent_or_closed_witness :
  closing client (send_to_client client live_frame (run connected)) ∨
  outgoing client (send_to_client client live_frame (run connected)) =
    [snapshot_frame; live_frame; live_frame].
Proof.
  destruct (frame_sent_or_closed false client live_frame (run connected)
              connected_reachable) as [_ H].
  - vm_compute. eauto.
  - destruct H as [H|H]; [by left|right]. exact H.
Defined.

Lemma snapshot_commit_exact_witness :
  has_queue client [snapshot_frame; live_frame] 8192
    (commit_client_stage client (run connected)).
Proof.
  eapply (snapshot_commit_exact client (run connected)
            (mkStage [snapshot_frame] [live_frame] [] [] false)
            (mkConnection [] [] [] true 8192 false)).
  - exact connected_reachable.
  - vm_compute. eauto.
  - vm_compute. reflexivity.
  - reflexivity.
  - vm_compute. reflexivity.
  - reflexivity.
Defined.

(** A frame sent between the writer's drain and the end of its receiver is
    lost with the receiver, and its 4096 bytes stay counted for good. *)
Lemma late_frame_stays_counted :
  outgoing client raced = [] ∧ ob_outbound_bytes raced = 4096.
Proof. vm_compute. done. Qed.
End OutboundRun.
