(* ===== verification/RateLimit.v ===== *)
(** * Rate limits (mirage-server/src/main.rs, transport.rs)

    A limiter counts attempts and bytes in a fixed window that restarts when it
    is over.  Every socket has one for its inbound frames. *)

From S2P Require Import Prelude TransportPadding AttachmentStore.

Definition WS_RATE_WINDOW_MS : Z := 10000.
Definition WS_MAX_FRAMES_PER_WINDOW : Z := 30.
Definition WS_MAX_BYTES_PER_WINDOW : Z := 32 * 1024 * 1024.

Record RateState : Type := mkRate {
  rt_window_start_ms : Z;
  rt_count : Z;
  rt_bytes : Z
}.

Definition record_rate_attempt (state : RateState) (now window_ms limit : Z) : bool * RateState :=
  let state :=
    if bool_decide (window_ms ≤ saturating_sub now (rt_window_start_ms state))
    then mkRate now 0 0 else state in
  let count := saturating_add usize_MAX (rt_count state) 1 in
  (bool_decide (count ≤ limit), mkRate (rt_window_start_ms state) count (rt_bytes state)).

(** The answers of [check_ws_frame_allowed]; the code prints the numbers into
    the messages. *)
Inductive FrameRefusal : Type :=
| FrameTooLarge (bytes : Z)
| RateLimitExceeded (count : Z)
| ByteRateRejected
| ByteRateLimitExceeded (bytes : Z).

Definition check_ws_frame_allowed (now : Z) (client_id : Uuid) (frame_bytes : Z)
    : ST (gmap Uuid RateState) FrameRefusal () := λ limits,
  if bool_decide (CONTROL_TRANSPORT_MAX_BUCKET < frame_bytes)
  then (Err (FrameTooLarge frame_bytes), limits)
  else
    let state := default (mkRate now 0 0) (limits !! client_id) in
    let '(allowed, state) :=
      record_rate_attempt state now WS_RATE_WINDOW_MS WS_MAX_FRAMES_PER_WINDOW in
    if negb allowed
    then (Err (RateLimitExceeded (rt_count state)), <[client_id := state]> limits)
    else
      match checked_add usize_MAX (rt_bytes state) frame_bytes with
      | None => (Err ByteRateRejected, <[client_id := state]> limits)
      | Some bytes =>
          let limits :=
            <[client_id := mkRate (rt_window_start_ms state) (rt_count state) bytes]> limits in
          if bool_decide (WS_MAX_BYTES_PER_WINDOW < bytes)
          then (Err (ByteRateLimitExceeded bytes), limits)
          else (Ok tt, limits)
      end.

(** ** Admitted frames *)

(** The frames of one client that were admitted by a run of checks, newest
    first, as (time, bytes). *)
Fixpoint admitted_frames (client_id : Uuid) (frames : list (Z * Uuid * Z))
    (limits : gmap Uuid RateState) : list (Z * Z) * gmap Uuid RateState :=
  match frames with
  | [] => ([], limits)
  | (now, id, bytes) :: frames =>
      let '(earlier, limits) := admitted_frames client_id frames limits in
      let '(answer, limits) := check_ws_frame_allowed now id bytes limits in
      (if is_ok answer && bool_decide (id = client_id) then (now, bytes) :: earlier else earlier,
       limits)
  end.

(** The frames of a list inside ten seconds from [t]. *)
Definition within_window (t : Z) (l : list (Z * Z)) : list (Z * Z) :=
  filter (λ f, t ≤ f.1 < t + WS_RATE_WINDOW_MS) l.

Definition total_bytes (l : list (Z * Z)) : Z := sumZ (l.*2).

(** A list that one window may admit. *)
Definition one_window (l : list (Z * Z)) : Prop :=
  len l ≤ WS_MAX_FRAMES_PER_WINDOW ∧ total_bytes l ≤ WS_MAX_BYTES_PER_WINDOW.

(** The history of a limiter: the frames [cur] of its open window, those
    [prev] of the window before, and the rest, which are ten seconds older
    than the open window. *)
Record history (st : RateState) (l cur prev old : list (Z * Z)) : Prop := mkHistory {
  hi_split : l = cur ++ prev ++ old;
  hi_cur : one_window cur;
  hi_count : len cur ≤ rt_count st;
  hi_bytes : total_bytes cur ≤ rt_bytes st;
  hi_prev : one_window prev;
  hi_prev_time : Forall (λ f, f.1 ≤ rt_window_start_ms st) prev;
  hi_old_time : Forall (λ f, f.1 + WS_RATE_WINDOW_MS ≤ rt_window_start_ms st) old
}.

Definition limiter_ok (o : option RateState) (l : list (Z * Z)) : Prop :=
  match o with
  | None => l = []
  | Some st => ∃ cur prev old, history st l cur prev old
  end.

Lemma one_window_nil : one_window [].
Proof. done. Qed.
Lemma total_bytes_cons f l : total_bytes (f :: l) = f.2 + total_bytes l.
Proof. done. Qed.

(** Opening a window, when it is time, keeps the history. *)
Lemma window_history st l cur prev old now :
  history st l cur prev old → Forall (λ f, f.1 ≤ now) l → rt_window_start_ms st ≤ now →
  let st' := if bool_decide (WS_RATE_WINDOW_MS ≤ saturating_sub now (rt_window_start_ms st))
             then mkRate now 0 0 else st in
  rt_window_start_ms st' ≤ now ∧ ∃ cur prev old, history st' l cur prev old.
Proof.
  intros [-> Hc Hn Hb Hp Hpt Hot] Ht Hs. simpl. case_bool_decide as Hw; simpl.
  - split; [done|]. exists [], cur, (prev ++ old). unfold saturating_sub in Hw.
    split; simpl; try done.
    + by apply Forall_app in Ht as [Ht _].
    + apply Forall_app. unfold WS_RATE_WINDOW_MS in *. split.
      * eapply Forall_impl; [done|]. simpl. intros. lia.
      * eapply Forall_impl; [done|]. simpl. intros. lia.
  - split; [done|]. exists cur, prev, old. by split.
Qed.

(** One check of the client: the answer, and what it leaves. *)
Lemma check_history (now : Z) (id : Uuid) (bytes : Z) (l : list (Z * Z)) limits r limits' :
  0 ≤ bytes → limiter_ok (limits !! id) l →
  Forall (λ f, f.1 ≤ now) l → (∀ st, limits !! id = Some st → rt_window_start_ms st ≤ now) →
  check_ws_frame_allowed now id bytes limits = (r, limits') →
  ∃ cur prev old st,
    (limits' !! id = Some st ∨ (limits' = limits ∧ r ≠ Ok tt)) ∧ rt_window_start_ms st ≤ now ∧
    history st (if is_ok r then (now, bytes) :: l else l) cur prev old.
Proof.
  intros Hb Hok Ht Hst. unfold check_ws_frame_allowed.
  assert (rt_window_start_ms (default (mkRate now 0 0) (limits !! id)) ≤ now ∧
    ∃ cur prev old, history (default (mkRate now 0 0) (limits !! id)) l cur prev old)
    as [Hs0 (cur0 & prev0 & old0 & H0)].
  { destruct (limits !! id) as [st|]; simpl in *; [split; [eauto|done]|].
    split; [done|]. subst l. exists [], [], []. by split. }
  case_bool_decide; [intros [= <- <-]; simpl; eauto 10|].
  destruct (window_history _ _ _ _ _ now H0 Ht Hs0) as [Hs1 (cur & prev & old & H1)].
  unfold record_rate_attempt. set (st1 := if bool_decide _ then _ else _) in *. clearbody st1.
  destruct H1 as [-> [Hcl Hcb] Hn Hby Hp Hpt Hot].
  set (n := saturating_add usize_MAX (rt_count st1) 1).
  assert (len cur ≤ n) as Hn'.
  { unfold n, saturating_add, WS_MAX_FRAMES_PER_WINDOW, usize_MAX in *. lia. }
  case_bool_decide as Hlim; simpl.
  - destruct (checked_add usize_MAX (rt_bytes st1) bytes) as [b|] eqn:Eb.
    + apply checked_add_Some in Eb as [_ ->]. case_bool_decide as Hbl; intros [= <- <-]; simpl;
        eexists _, prev, old, _; rewrite lookup_insert_eq;
        (split; [left; reflexivity|split; [done|]]).
      * split; simpl; try done. lia.
      * rewrite app_comm_cons. split; try done; simpl; rewrite ?len_cons, ?total_bytes_cons; simpl.
        -- unfold one_window. rewrite len_cons, total_bytes_cons. simpl.
           unfold n, saturating_add, usize_MAX, WS_MAX_FRAMES_PER_WINDOW in *. lia.
        -- unfold n, saturating_add, usize_MAX, WS_MAX_FRAMES_PER_WINDOW in *. lia.
        -- lia.
    + intros [= <- <-]. simpl. exists cur, prev, old, (mkRate (rt_window_start_ms st1) n (rt_bytes st1)).
      rewrite lookup_insert_eq. split; [by left|]. by split; [|split].
  - intros [= <- <-]. simpl. exists cur, prev, old, (mkRate (rt_window_start_ms st1) n (rt_bytes st1)).
    rewrite lookup_insert_eq. split; [by left|]. by split; [|split].
Qed.

Lemma check_other (now : Z) (id : Uuid) (bytes : Z) (limits : gmap Uuid RateState) (client : Uuid) :
  id ≠ client → (check_ws_frame_allowed now id bytes limits).2 !! client = limits !! client.
Proof.
  intros Hne. unfold check_ws_frame_allowed. case_bool_decide; [done|].
  destruct (record_rate_attempt _ _ _ _) as [[] st]; simpl; [|by rewrite lookup_insert_ne].
  destruct (checked_add _ _ _); [case_bool_decide|]; simpl; by rewrite lookup_insert_ne.
Qed.

(** A run of checks, newest first, under a clock that does not go back. *)
Fixpoint clocked (frames : list (Z * Uuid * Z)) : Prop :=
  match frames with
  | [] => True
  | (now, _, bytes) :: frames => Forall (λ f, f.1.1 ≤ now) frames ∧ 0 ≤ bytes ∧ clocked frames
  end.

Definition two_windows (l : list (Z * Z)) : Prop :=
  len l ≤ 2 * WS_MAX_FRAMES_PER_WINDOW ∧ total_bytes l ≤ 2 * WS_MAX_BYTES_PER_WINDOW.

Lemma total_bytes_app l k : total_bytes (l ++ k) = total_bytes l + total_bytes k.
Proof. unfold total_bytes. rewrite fmap_app. apply sumZ_app. Qed.

Lemma one_window_filter (P : Z * Z → Prop) `{!∀ f, Decision (P f)} l :
  Forall (λ f, 0 ≤ f.2) l → one_window l → one_window (filter P l).
Proof.
  intros Hnn [Hl Hb]. assert (len (filter P l) ≤ len l ∧ total_bytes (filter P l) ≤ total_bytes l).
  { clear Hl Hb. induction Hnn as [|f l Hf Hnn IH]; [done|]. rewrite filter_cons, total_bytes_cons.
    case_decide; rewrite ?total_bytes_cons, !len_cons; lia. }
  unfold one_window. lia.
Qed.

(** Ten seconds that reach the open window meet at most two windows. *)
Lemma history_window st l cur prev old t :
  history st l cur prev old → Forall (λ f, 0 ≤ f.2) l →
  rt_window_start_ms st < t + WS_RATE_WINDOW_MS → two_windows (within_window t l).
Proof.
  intros [-> Hc _ _ Hp _ Hold] Hnn Ht. unfold within_window.
  apply Forall_app in Hnn as [Hn1 [Hn2 Hn3]%Forall_app].
  rewrite !filter_app. assert (filter (λ f, t ≤ f.1 < t + WS_RATE_WINDOW_MS) old = []) as ->.
  { induction Hold as [|f old Hf _ IH]; [done|]. apply Forall_cons in Hn3 as [_ Hn3].
    rewrite filter_cons_False by lia. by apply IH. }
  rewrite app_nil_r. unfold two_windows. rewrite total_bytes_app.
  pose proof (one_window_filter (λ f, t ≤ f.1 < t + WS_RATE_WINDOW_MS) cur Hn1 Hc) as [H1 H2].
  pose proof (one_window_filter (λ f, t ≤ f.1 < t + WS_RATE_WINDOW_MS) prev Hn2 Hp) as [H3 H4].
  unfold len in *. rewrite length_app. lia.
Qed.

Record run_ok (client : Uuid) (frames : list (Z * Uuid * Z)) (l : list (Z * Z))
    (limits : gmap Uuid RateState) : Prop := mkRunOk {
  ru_limiter : limiter_ok (limits !! client) l;
  ru_times now : Forall (λ f, f.1.1 ≤ now) frames → Forall (λ f, f.1 ≤ now) l;
  ru_start now st : Forall (λ f, f.1.1 ≤ now) frames → limits !! client = Some st →
    rt_window_start_ms st ≤ now;
  ru_nonneg : Forall (λ f, 0 ≤ f.2) l;
  ru_windows t : two_windows (within_window t l)
}.

Lemma run_check_ok (client : Uuid) frames l limits (now bytes : Z) r limits' :
  run_ok client frames l limits → Forall (λ f, f.1.1 ≤ now) frames → 0 ≤ bytes →
  check_ws_frame_allowed now client bytes limits = (r, limits') →
  run_ok client ((now, client, bytes) :: frames) (if is_ok r then (now, bytes) :: l else l) limits'.
Proof.
  intros [Hlim Hts Hst Hnn Hw] Hnow Hb E.
  destruct (check_history now client bytes l limits r limits' Hb Hlim (Hts _ Hnow)
              (λ st, Hst now st Hnow) E) as (cur & prev & old & st & Hl & Hs & Hh).
  assert (Forall (λ f, 0 ≤ f.2) (if is_ok r then (now, bytes) :: l else l)) as Hnn'
    by (destruct r; simpl; [by constructor|done]).
  destruct Hl as [Hl|[-> Hr]]; split.
  - rewrite Hl. by exists cur, prev, old.
  - intros n [Hn Hns]%Forall_cons. simpl in Hn. specialize (Hts n Hns).
    destruct r; simpl; [by constructor|done].
  - intros n st' [Hn Hns]%Forall_cons. simpl in Hn. rewrite Hl. intros [= <-]. lia.
  - done.
  - intros t. destruct (decide (t + WS_RATE_WINDOW_MS ≤ now)).
    + destruct r; simpl; [|apply Hw]. unfold within_window. rewrite filter_cons_False; [apply Hw|].
      simpl. lia.
    + eapply history_window; [done|done|lia].
  - destruct r as [[]|]; [done|]. apply Hlim.
  - destruct r as [[]|]; [done|]. intros n [_ Hns]%Forall_cons. by apply Hts.
  - intros n st' [Hn Hns]%Forall_cons. by apply Hst.
  - done.
  - destruct r as [[]|]; [done|]. apply Hw.
Qed.

Lemma admitted_run_ok client frames :
  clocked frames → run_ok client frames (admitted_frames client frames ∅).1
                     (admitted_frames client frames ∅).2.
Proof.
  induction frames as [|[[now id] bytes] frames IH]; simpl.
  - intros _. by split; simpl; rewrite ?lookup_empty.
  - intros (Hnow & Hb & Hcl). specialize (IH Hcl).
    destruct (admitted_frames client frames ∅) as [l limits]. simpl in IH.
    destruct (check_ws_frame_allowed now id bytes limits) as [r limits'] eqn:E.
    destruct (decide (id = client)) as [->|Hne].
    + rewrite bool_decide_true, andb_true_r by done. simpl. by eapply run_check_ok.
    + rewrite bool_decide_false, andb_false_r by done. simpl.
      pose proof (check_other now id bytes limits client Hne) as Ho. rewrite E in Ho. simpl in Ho.
      destruct IH as [H1 H2 H3 H4 H5]. split; rewrite ?Ho; try done.
      * intros n [_ Hns]%Forall_cons. by apply H2.
      * intros n st [_ Hns]%Forall_cons. by apply H3.
Qed.

(** C28: the inbound rate of a client is bounded in every ten seconds, not only
    in the limiter's own windows: whatever frames are offered, by whom and
    when, at most 60 frames and 64 MiB of one client are admitted between
    [t] and [t] + 10 s. *)
Theorem inbound_rate_bounded client frames t :
  clocked frames → two_windows (within_window t (admitted_frames client frames ∅).1).
Proof. intros Hcl. apply (ru_windows _ _ _ _ (admitted_run_ok client frames Hcl)). Qed.

Lemma clocked_replicate n now id (b : Z) : 0 ≤ b → clocked (replicate n (now, id, b)).
Proof.
  intros Hb. induction n as [|n IH]; simpl; [done|]. split_and!; try done.
  apply Forall_replicate. simpl. lia.
Qed.

(** Thirty-one frames in one second: the last is refused. *)
Lemma inbound_rate_bounded_witness :
  len (admitted_frames [] (replicate 31 (1000, [], 100)) ∅).1 = 30 ∧
  two_windows (within_window 0 (admitted_frames [] (replicate 31 (1000, [], 100)) ∅).1).
Proof.
  split; [vm_compute; reflexivity|]. apply inbound_rate_bounded. by apply clocked_replicate.
Defined.
