(* ===== verification/Relay.v ===== *)
(** * The relay's shared state (mirage-server/src/main.rs, auth.rs)

    [AppState] as far as the room frames use it: the room authority, the
    attachment registry, the outbound queues, the accounts, the transaction
    receipts and the bookkeeping of connections.  Handlers are computations on
    this state; [conversation_ops] makes each of them run alone.

    The clock is an arbitrary sequence of readings, of which every call of
    [now_ms] takes the next one. *)

From S2P Require Import Prelude MlsWire TransactionReceipts RoomModel RoomAuthority TransportWire.
From S2P Require Import RoomValidation TransportPadding AttachmentStore RelayFrame OutboundQueue.
From S2P Require Import RateLimit.

Definition MAX_DIRECTORY_REVISION : Z := 65536.
Definition IDENTITY_FINGERPRINT_BYTES : Z := 64.

(** ** Parameters *)

(** [URL_SAFE_NO_PAD] of the base64 crate. *)
Class Base64 : Type := {
  b64_encode : bytes → string;
  b64_decode : string → option bytes
}.

(** What the relay relies on: decoding inverts encoding, and the text is at
    most twice as long as the bytes. *)
Class Base64Laws `{Base64} : Prop := {
  b64_round_trip b : b64_decode (b64_encode b) = Some b;
  b64_length b : slen (b64_encode b) ≤ 2 * len b;
  b64_empty b : b64_encode b = EmptyString ↔ b = []
}.

(** The clock, the configuration, SHA-256, and whether the writer reports a
    result in time. *)
Class RelayEnv : Type := {
  now_ms : nat → Z;
  interop_policy : InteropPolicy;
  relay_node_id : string;
  sha256_text : string → bytes;
  sha256_bytes : bytes → bytes;
  result_delivered : nat → bool;
  pending_message_ttl_ms : Z
}.

(** ** State *)

(** [Account] without the upload semaphore. *)
Record RelayAccount : Type := mkRelayAccount {
  ra_username : string;
  ra_password_file : bytes;
  ra_identity_public : bytes;
  ra_identity_envelope : bytes;
  ra_prekey_id : string;
  ra_state_revision : Z;
  ra_state_revision_window : Z;
  ra_connected : bool;
  ra_client_platform : option ClientPlatform
}.
Definition set_ra_connected (v : bool) (a : RelayAccount) : RelayAccount :=
  mkRelayAccount (ra_username a) (ra_password_file a) (ra_identity_public a)
    (ra_identity_envelope a) (ra_prekey_id a) (ra_state_revision a) (ra_state_revision_window a) v
    (ra_client_platform a).

Record AuthSession : Type := mkSession {
  as_code_id : CodeId;
  as_username : string;
  as_last_activity_ms : Z
}.

(** [SessionTransportState]: the HTTP session, its root key and its identifier. *)
Record SessionTransportState : Type := mkTransport {
  tp_token : string;
  tp_root : bytes;
  tp_session_id : bytes
}.

Record Relay : Type := mkRelay {
  rl_mls_rooms : RoomAuthority;
  rl_attachments : AttachmentStore;
  rl_outbound : Outbound;
  rl_accounts : gmap CodeId RelayAccount;
  rl_transaction_receipts : TransactionReceiptStore;
  rl_sessions : gmap string AuthSession;
  rl_transport_sessions : gmap bytes SessionTransportState;
  rl_active_connections : gmap CodeId Uuid;
  rl_frame_limits : gmap Uuid RateState;
  rl_rooms : gmap string (gset Uuid);
  rl_last_activity_ms : Z;
  rl_ticks : nat
}.
Definition set_rl_mls_rooms v r :=
  mkRelay v (rl_attachments r) (rl_outbound r) (rl_accounts r) (rl_transaction_receipts r)
    (rl_sessions r) (rl_transport_sessions r) (rl_active_connections r) (rl_frame_limits r)
    (rl_rooms r) (rl_last_activity_ms r) (rl_ticks r).
Definition set_rl_attachments v r :=
  mkRelay (rl_mls_rooms r) v (rl_outbound r) (rl_accounts r) (rl_transaction_receipts r)
    (rl_sessions r) (rl_transport_sessions r) (rl_active_connections r) (rl_frame_limits r)
    (rl_rooms r) (rl_last_activity_ms r) (rl_ticks r).
Definition set_rl_outbound v r :=
  mkRelay (rl_mls_rooms r) (rl_attachments r) v (rl_accounts r) (rl_transaction_receipts r)
    (rl_sessions r) (rl_transport_sessions r) (rl_active_connections r) (rl_frame_limits r)
    (rl_rooms r) (rl_last_activity_ms r) (rl_ticks r).
Definition set_rl_receipts v r :=
  mkRelay (rl_mls_rooms r) (rl_attachments r) (rl_outbound r) (rl_accounts r) v
    (rl_sessions r) (rl_transport_sessions r) (rl_active_connections r) (rl_frame_limits r)
    (rl_rooms r) (rl_last_activity_ms r) (rl_ticks r).
Definition set_rl_connections accounts sessions transports active limits rooms r :=
  mkRelay (rl_mls_rooms r) (rl_attachments r) (rl_outbound r) accounts
    (rl_transaction_receipts r) sessions transports active limits rooms
    (rl_last_activity_ms r) (rl_ticks r).
Definition set_rl_last_activity_ms v r :=
  mkRelay (rl_mls_rooms r) (rl_attachments r) (rl_outbound r) (rl_accounts r)
    (rl_transaction_receipts r) (rl_sessions r) (rl_transport_sessions r)
    (rl_active_connections r) (rl_frame_limits r) (rl_rooms r) v (rl_ticks r).
Definition set_rl_ticks v r :=
  mkRelay (rl_mls_rooms r) (rl_attachments r) (rl_outbound r) (rl_accounts r)
    (rl_transaction_receipts r) (rl_sessions r) (rl_transport_sessions r)
    (rl_active_connections r) (rl_frame_limits r) (rl_rooms r) (rl_last_activity_ms r) v.

(** A handler returns [Result<A, String>]. *)
Definition Handler (A : Type) : Type := ST Relay string A.

(** A call on one part of the state, whose error is the handler's ([?]). *)
Definition on_rooms {A} (f : RoomAuthority → result string A * RoomAuthority) : Handler A := λ r,
  let '(x, rooms) := f (rl_mls_rooms r) in (x, set_rl_mls_rooms rooms r).
Definition on_attachments {A} (f : AttachmentStore → result string A * AttachmentStore)
    : Handler A := λ r,
  let '(x, store) := f (rl_attachments r) in (x, set_rl_attachments store r).

(** A query of the authority that cannot fail. *)
Definition ask_rooms {A} (f : RoomAuthority → A * RoomAuthority) : Handler A := λ r,
  let '(x, rooms) := f (rl_mls_rooms r) in (Ok x, set_rl_mls_rooms rooms r).

(** [let _ = call], [call.unwrap_or_default()] and [if let Ok(x) = call]: an
    error is not the handler's. *)
Definition attempt {A} (m : Handler A) : Handler (result string A) := λ r,
  let '(x, r) := m r in (Ok x, r).

(** [if let Err(error) = call { undo; return Err(error) }]. *)
Definition or_undo {A} (m : Handler A) (undo : Handler ()) : Handler A := λ r,
  match m r with
  | (Ok a, r) => (Ok a, r)
  | (Err e, r) => (Err e, (undo r).2)
  end.

Definition for_each {A} (l : list A) (f : A → Handler ()) : Handler () :=
  foldr (λ x rest, _ ← f x; rest) (mret tt) l.

Section relay.
Context {HO : HashOrder} {B64 : Base64} {ENV : RelayEnv} {JSON : SerdeJson} {FJ : FrameJson}.

(** The next reading of the clock. *)
Definition tick : Handler Z := λ r,
  (Ok (now_ms (rl_ticks r)), set_rl_ticks (S (rl_ticks r)) r).

Definition touch_activity : Handler () :=
  now ← tick; modify (set_rl_last_activity_ms now).

(** Touches the activity of a handler that succeeded. *)
Definition touch_activity_on_success (handler : Handler ()) : Handler () :=
  _ ← handler; touch_activity.

(** ** Clients *)

Definition rl_clients (r : Relay) : gmap Uuid ClientHandle := ob_clients (rl_outbound r).

Definition find_client (client_id : Uuid) : Handler ClientHandle := λ r,
  (ok_or (rl_clients r !! client_id) "authenticated client required"%string, r).
Definition client_identity (client_id : Uuid) : Handler (CodeId * string) :=
  client ← find_client client_id; mret (cl_code_id client, cl_username client).
Definition client_identity_and_platform (client_id : Uuid)
    : Handler (CodeId * string * ClientPlatform) :=
  client ← find_client client_id;
  mret (cl_code_id client, cl_username client, cl_platform client).

(** The connected clients of an account, in the order of the map. *)
Definition client_ids_where (p : ClientHandle → bool) (r : Relay) : list Uuid :=
  omap (λ kc, if p kc.2 then Some kc.1 else None) (hash_iter (rl_clients r)).
Definition active_client_ids_for_code (code_id : CodeId) : Handler (list Uuid) := λ r,
  (Ok (client_ids_where (λ c, bool_decide (cl_code_id c = code_id)) r), r).

(** [send_to_client] and [send_initial_to_client]. *)
Definition queue_frame (initial : bool) (frame : OutboundFrame.t) (client_id : Uuid) : Handler () :=
  modify (λ r, set_rl_outbound (send_to_client_internal initial client_id frame (rl_outbound r)) r).
Definition send (frame : OutboundFrame.t) (client_id : Uuid) : Handler () :=
  queue_frame false frame client_id.

(** [send_client_result] with the next one-shot channel and its answer. *)
Definition send_result (client_id : Uuid) (frame : OutboundFrame.t) : Handler () := λ r,
  let n := rl_ticks r in
  let '(x, ob) :=
    send_client_result (Z.of_nat n) (result_delivered n) client_id frame (rl_outbound r) in
  (x, set_rl_ticks (S n) (set_rl_outbound ob r)).

Definition broadcast_to_all (frame : OutboundFrame.t) : Handler () := λ r,
  for_each (hash_keys (rl_clients r)) (send frame) r.

(** ** Who may receive *)

Fixpoint require_recipient_code_platforms (sender_platform : ClientPlatform)
    (recipients : list CodeId) (accounts : gmap CodeId RelayAccount) : result string () :=
  match recipients with
  | [] => Ok tt
  | recipient :: recipients =>
      recipient_platform ← ok_or (a ← accounts !! recipient; ra_client_platform a)
                             "recipient client unavailable"%string;
      _ ← reject_if (negb (InteropPolicy.allows interop_policy sender_platform recipient_platform))
            "client interoperability policy rejected"%string;
      require_recipient_code_platforms sender_platform recipients accounts
  end.

(** ** Base64 fields (auth.rs) *)

Definition decode_bounded (value : string) (max_bytes : Z) : result string bytes :=
  _ ← reject_if
        (bool_decide (value = EmptyString)
         || bool_decide (Z.min usize_MAX (max_bytes * 2) < slen value))
        "Wrong information"%string;
  bytes ← ok_or (b64_decode value) "Wrong information"%string;
  _ ← reject_if (bool_decide (bytes = []) || bool_decide (max_bytes < len bytes))
        "Wrong information"%string;
  Ok bytes.

Definition decode_bounded_allow_empty (value : string) (max_bytes : Z) : result string bytes :=
  if bool_decide (value = EmptyString) then Ok [] else decode_bounded value max_bytes.

Definition decode_exact (value : string) (expected_bytes : Z) : result string bytes :=
  bytes ← decode_bounded value expected_bytes;
  if bool_decide (len bytes = expected_bytes) then Ok bytes
  else Err "Wrong information"%string.

Definition valid_mls_correlator (value : string) : bool :=
  negb (bool_decide (value = EmptyString)) && bool_decide (slen value ≤ MAX_ROOM_ID_BYTES)
  && all_id_bytes value.

Definition require_mls_protocol_version (version : Z) : result string () :=
  if bool_decide (version = MLS_PROTOCOL_VERSION) then Ok tt else Err "Wrong information"%string.

(** ** Presence *)

Definition identity_directory_digest_v2 (node_id : string) (revision : Z)
    (accounts : gmap CodeId RelayAccount) : string :=
  let entries :=
    (λ a, (ra_username a, take (Z.to_nat IDENTITY_FINGERPRINT_BYTES) (ra_identity_public a))) <$>
      filter (λ a, IDENTITY_FINGERPRINT_BYTES ≤ len (ra_identity_public a))
        (hash_values accounts) in
  let entries := merge_sort (λ a b, String.le a.1 b.1) entries in
  b64_encode (sha256_bytes
    (text_bytes "ABYSSAL_DIRECTORY_CHECKPOINT_V2" ++ be_bytes 4 (slen node_id)
     ++ text_bytes node_id ++ be_bytes 8 revision ++ be_bytes 4 (len entries)
     ++ concat ((λ e, be_bytes 4 (slen e.1) ++ text_bytes e.1 ++ e.2) <$> entries))).

Definition clamp (lo hi x : Z) : Z := Z.max lo (Z.min hi x).

(** [directory_stamp]: the digest of [directory_stamp_at_revision] takes the
    revision as given, which [directory_stamp] already clamped. *)
Definition directory_revision (accounts : gmap CodeId RelayAccount) : Z :=
  clamp 1 MAX_DIRECTORY_REVISION (map_len accounts).

Definition presence_frame (r : Relay) : OutboundFrame.t :=
  let accounts := rl_accounts r in
  let revision := directory_revision accounts in
  let digest := identity_directory_digest_v2 relay_node_id revision accounts in
  OutboundFrame.Presence
    ((λ a, mkPresence (ra_username a) (ra_connected a) (b64_encode (ra_identity_public a))
             (ra_prekey_id a) digest relay_node_id (clamp 1 MAX_DIRECTORY_REVISION revision)) <$>
       hash_values accounts).

Definition broadcast_presence : Handler () := λ r, broadcast_to_all (presence_frame r) r.
Definition send_initial_presence (client_id : Uuid) : Handler () := λ r,
  queue_frame true (presence_frame r) client_id r.
End relay.
