(* ===== verification/MlsRelay.v ===== *)
(** * Room frames (mirage-server/src/mls.rs)

    The handlers of the MLS frames: each decodes its base64 fields, calls the
    room authority and the attachment registry, and queues frames for the
    clients concerned.  The undo steps of [mls_application] and
    [mls_membership_commit] are in the order of the code. *)

From S2P Require Import Prelude RoomModel RoomValidation RoomAuthority RoomLifecycle RoomMembership.
From S2P Require Import RoomApplication RoomSnapshot AttachmentStore.
From S2P Require Import TransportPadding RelayFrame OutboundQueue RateLimit Relay.

Section mls.
Context {HO : HashOrder} {B64 : Base64} {ENV : RelayEnv} {JSON : SerdeJson} {FJ : FrameJson}.

(** ** Wire conversions *)

Definition roster_wire (m : RosterMember) : MlsRosterWire :=
  mkRosterWire (ros_username m) (b64_encode (ros_stable_identity m)).

Definition mls_room_wire (info : RoomInfo) : MlsRoomWire :=
  mkRoomWire (ri_room_id info) (ri_owner_username info) (b64_encode (ri_group_id info))
    (ri_active info) (ri_synchronized info) (ri_epoch info) (ri_revision info)
    (b64_encode (ri_membership_digest info)) (roster_wire <$> ri_roster info)
    ((λ s, mkRecoveryWire (rs_active s) (rs_epoch s) (rs_revision s)
             (b64_encode (rs_membership_digest s)) (b64_encode (rs_state_envelope s))
             (roster_wire <$> rs_roster s)) <$> ri_recovery_snapshot info)
    (ri_policy info) (ri_visibility info).

Definition mls_public_room_wire (info : PublicRoom) : MlsPublicRoomWire :=
  mkPublicWire (pr_room_id info) (b64_encode (pr_group_id info)) (pr_owner_username info)
    (pr_policy info).

Fixpoint mls_roster_from_wire (roster : list MlsRosterWire) : result string (list RosterMember) :=
  match roster with
  | [] => Ok []
  | w :: roster =>
      stable_identity ← decode_exact (rw_stable_identity_b64 w) STABLE_IDENTITY_BYTES;
      rest ← mls_roster_from_wire roster;
      Ok (mkRosterMember (rw_username w) stable_identity :: rest)
  end.

(** ** Catalogs *)

Definition send_mls_catalog_inner (initial : bool) (client_id : Uuid) (code_id : CodeId)
    : Handler () :=
  t0 ← tick; joined ← ask_rooms (rooms_for_member t0 code_id);
  t1 ← tick; pending ← ask_rooms (pending_rooms_for_member t1 code_id);
  queue_frame initial
    (OutboundFrame.MlsRooms MLS_PROTOCOL_VERSION
       ((mls_room_wire <$> joined) ++ (mls_room_wire <$> pending))) client_id.
Definition send_mls_catalog := send_mls_catalog_inner false.
Definition send_initial_mls_catalog := send_mls_catalog_inner true.

Definition mls_public_catalog_frame : Handler OutboundFrame.t :=
  t ← tick; rooms ← ask_rooms (public_rooms t);
  mret (OutboundFrame.MlsPublicRooms MLS_PROTOCOL_VERSION (mls_public_room_wire <$> rooms)).

Definition send_mls_public_catalog_inner (initial : bool) (client_id : Uuid) : Handler () :=
  frame ← mls_public_catalog_frame; queue_frame initial frame client_id.
Definition send_mls_public_catalog := send_mls_public_catalog_inner false.
Definition send_initial_mls_public_catalog := send_mls_public_catalog_inner true.

Definition broadcast_mls_public_catalog : Handler () :=
  frame ← mls_public_catalog_frame; broadcast_to_all frame.

(** ** Rooms and requests *)

Definition mls_discover_room (sender_id : Uuid) (room_id : string) : Handler () :=
  _ ← client_identity sender_id;
  t ← tick; info ← on_rooms (discover t room_id);
  send (OutboundFrame.MlsRoomDiscovered MLS_PROTOCOL_VERSION (ri_room_id info)
          (b64_encode (ri_group_id info)) (ri_owner_username info)) sender_id.

Definition authenticated_mls_identity (code_id : CodeId) (encoded : string) : Handler bytes := λ r,
  (supplied ← decode_exact encoded STABLE_IDENTITY_BYTES;
   account ← ok_or (rl_accounts r !! code_id) "authenticated identity required"%string;
   _ ← reject_if
         (bool_decide (len (ra_identity_public account) < STABLE_IDENTITY_BYTES)
          || bool_decide (take (Z.to_nat STABLE_IDENTITY_BYTES) (ra_identity_public account)
                          ≠ supplied))
         "authenticated identity required"%string;
   Ok supplied, r).

Definition mls_create_room (sender_id : Uuid) (room_id group_id_b64 : string)
    (epoch revision : Z) (membership_digest_b64 stable_identity_b64 state_envelope_b64 : string)
    (policy : RoomPolicy) (visibility : RoomVisibility) : Handler () :=
  '(owner_code_id, owner_username) ← client_identity sender_id;
  group_id ← lift (decode_exact group_id_b64 GROUP_ID_BYTES);
  digest ← lift (decode_exact membership_digest_b64 MEMBERSHIP_DIGEST_BYTES);
  stable ← authenticated_mls_identity owner_code_id stable_identity_b64;
  state_envelope ← lift (decode_bounded state_envelope_b64 MAX_STATE_BYTES);
  t0 ← tick; t1 ← tick;
  info ← on_rooms
    (create_with_policy_visibility_and_state t0 t1 owner_code_id owner_username room_id group_id
       epoch revision digest stable policy visibility state_envelope);
  _ ← send (OutboundFrame.MlsRoomCreated MLS_PROTOCOL_VERSION (mls_room_wire info)) sender_id;
  if bool_decide (visibility = Public) then broadcast_mls_public_catalog else mret tt.

Definition join_requested_frame (room_id : string) (request : JoinRequest) : OutboundFrame.t :=
  OutboundFrame.MlsJoinRequested MLS_PROTOCOL_VERSION room_id (jr_request_id request)
    (jr_username request) (b64_encode (jr_stable_identity request))
    (b64_encode (jr_key_package request)).

Definition mls_join_request (sender_id : Uuid) (room_id request_id stable_identity_b64
    key_package_b64 state_envelope_b64 : string) : Handler () :=
  '(code_id, username) ← client_identity sender_id;
  stable ← authenticated_mls_identity code_id stable_identity_b64;
  key_package ← lift (decode_bounded key_package_b64 MAX_KEY_PACKAGE_BYTES);
  state_envelope ← lift (decode_bounded state_envelope_b64 MAX_STATE_BYTES);
  t0 ← tick;
  request ← on_rooms
    (request_join t0 code_id username room_id request_id stable key_package state_envelope);
  t1 ← tick; owner_code_id ← on_rooms (owner_code_id t1 room_id);
  owner_ids ← active_client_ids_for_code owner_code_id;
  for_each owner_ids (send (join_requested_frame room_id request)).

Definition mls_join_reject (sender_id : Uuid) (room_id request_id : string) : Handler () :=
  '(owner_code_id, _) ← client_identity sender_id;
  t ← tick; request ← on_rooms (remove_join t owner_code_id room_id request_id);
  ids ← active_client_ids_for_code (jr_code_id request);
  for_each ids
    (send (OutboundFrame.MlsJoinRejected MLS_PROTOCOL_VERSION room_id (jr_request_id request))).

Definition leave_requested_frame (room_id : string) (request : LeaveRequest) : OutboundFrame.t :=
  OutboundFrame.MlsLeaveRequested MLS_PROTOCOL_VERSION room_id (lr_request_id request)
    (lr_username request) (b64_encode (lr_stable_identity request)).

Definition mls_leave_request (sender_id : Uuid) (room_id request_id : string) : Handler () :=
  '(code_id, _) ← client_identity sender_id;
  t0 ← tick; request ← on_rooms (request_leave t0 code_id room_id request_id);
  t1 ← tick; owner_code_id ← on_rooms (owner_code_id t1 room_id);
  owner_ids ← active_client_ids_for_code owner_code_id;
  _ ← for_each owner_ids (send (leave_requested_frame room_id request));
  send (OutboundFrame.MlsLeavePending MLS_PROTOCOL_VERSION room_id (lr_request_id request))
    sender_id.

Definition mls_leave_reject (sender_id : Uuid) (room_id request_id : string) : Handler () :=
  '(owner_code_id, _) ← client_identity sender_id;
  t ← tick; request ← on_rooms (remove_leave t owner_code_id room_id request_id);
  ids ← active_client_ids_for_code (lr_code_id request);
  for_each ids (send (OutboundFrame.MlsLeaveRejected MLS_PROTOCOL_VERSION room_id request_id)).

(** ** Deliveries *)

Definition mls_delivery_frame (delivery : PendingDelivery) : OutboundFrame.t :=
  match pd_payload delivery with
  | Membership from_epoch from_membership_digest group_id roster control welcome
      authenticated_data =>
      OutboundFrame.MlsMembership MLS_PROTOCOL_VERSION (pd_room_id delivery)
        (pd_message_id delivery) from_epoch (pd_epoch delivery) (pd_revision delivery)
        (b64_encode from_membership_digest) (b64_encode group_id)
        (b64_encode (pd_membership_digest delivery)) (roster_wire <$> roster)
        (b64_encode control) (b64_encode welcome) (b64_encode authenticated_data)
  | Application _ sender_username _ ciphertext authenticated_data =>
      OutboundFrame.MlsApplication MLS_PROTOCOL_VERSION (pd_room_id delivery)
        (pd_message_id delivery) sender_username (pd_epoch delivery) (pd_revision delivery)
        (b64_encode (pd_membership_digest delivery)) (b64_encode ciphertext)
        (b64_encode authenticated_data)
  end.

Definition mls_delivery_allowed (policy : InteropPolicy) (payload : DeliveryPayload)
    (recipient_platform : ClientPlatform) : bool :=
  match payload with
  | Application _ _ sender_platform _ _ =>
      InteropPolicy.allows policy sender_platform recipient_platform
  | Membership _ _ _ _ _ _ _ => true
  end.

(** A membership delivery that carries a Welcome. *)
Definition carries_welcome (payload : DeliveryPayload) : bool :=
  match payload with
  | Membership _ _ _ _ _ welcome _ => negb (bool_decide (welcome = []))
  | Application _ _ _ _ _ => false
  end.

Definition delivery_clients (delivery : PendingDelivery) (r : Relay) : list Uuid :=
  client_ids_where
    (λ c, bool_decide (cl_code_id c = pd_recipient_code_id delivery)
          && mls_delivery_allowed interop_policy (pd_payload delivery) (cl_platform c)) r.

Definition send_mls_delivery (delivery : PendingDelivery) : Handler () :=
  t ← tick;
  active ← ask_rooms (is_active_member t (pd_room_id delivery) (pd_recipient_code_id delivery));
  if negb active && negb (carries_welcome (pd_payload delivery)) then mret tt
  else
    clients ← (λ r, (Ok (delivery_clients delivery r), r));
    for_each clients (send (mls_delivery_frame delivery)).

(** The loop that sends what [message_id] queued for one member. *)
Definition send_member_deliveries (room_id message_id : string) (code_id : CodeId) : Handler () :=
  t ← tick;
  deliveries ← attempt (on_rooms (deliveries_for_member t room_id code_id));
  for_each
    (filter (λ d, pd_message_id d = message_id) (match deliveries with Ok l => l | Err _ => [] end))
    send_mls_delivery.

(** The deliveries of one room that a client of [code_id] may see now. *)
Definition visible_deliveries (platform : ClientPlatform) (active : bool)
    (l : list PendingDelivery) : list PendingDelivery :=
  filter (λ d,
    (active || carries_welcome (pd_payload d))
    && mls_delivery_allowed interop_policy (pd_payload d) platform = true) l.

Fixpoint pending_deliveries (platform : ClientPlatform) (code_id : CodeId)
    (rooms : list RoomInfo) : Handler (list PendingDelivery) :=
  match rooms with
  | [] => mret []
  | info :: rooms =>
      t ← tick;
      deliveries ← attempt (on_rooms (deliveries_for_member t (ri_room_id info) code_id));
      rest ← pending_deliveries platform code_id rooms;
      mret (match deliveries with
            | Ok l => visible_deliveries platform (ri_active info) l ++ rest
            | Err _ => rest
            end)
  end.

Definition send_mls_pending_inner (initial : bool) (client_id : Uuid) (code_id : CodeId)
    : Handler () := λ r,
  match rl_clients r !! client_id with
  | None => (Ok tt, r)
  | Some client =>
      (t ← tick; rooms ← ask_rooms (rooms_for_member t code_id);
       deliveries ← pending_deliveries (cl_platform client) code_id rooms;
       for_each deliveries (λ d, queue_frame initial (mls_delivery_frame d) client_id)) r
  end.
Definition send_mls_pending := send_mls_pending_inner false.
Definition send_initial_mls_pending := send_mls_pending_inner true.

Definition send_mls_pending_joins_inner (initial : bool) (client_id : Uuid) (code_id : CodeId)
    : Handler () :=
  t ← tick; joins ← ask_rooms (pending_joins_for_owner t code_id);
  for_each joins
    (λ request, queue_frame initial (join_requested_frame (jr_room_id request) request) client_id).
Definition send_mls_pending_joins := send_mls_pending_joins_inner false.
Definition send_initial_mls_pending_joins := send_mls_pending_joins_inner true.

Definition send_mls_pending_leaves_inner (initial : bool) (client_id : Uuid) (code_id : CodeId)
    : Handler () :=
  t0 ← tick; owner_requests ← ask_rooms (pending_leaves_for_owner t0 code_id);
  t1 ← tick; member_requests ← ask_rooms (pending_leaves_for_member t1 code_id);
  _ ← for_each owner_requests
        (λ request,
           queue_frame initial (leave_requested_frame (lr_room_id request) request) client_id);
  for_each member_requests
    (λ request, queue_frame initial
       (OutboundFrame.MlsLeavePending MLS_PROTOCOL_VERSION (lr_room_id request)
          (lr_request_id request)) client_id).
Definition send_mls_pending_leaves := send_mls_pending_leaves_inner false.
Definition send_initial_mls_pending_leaves := send_mls_pending_leaves_inner true.

(** ** Membership commits *)

(** [HashSet] iteration. *)
Definition set_iter (s : gset CodeId) : list CodeId := hash_keys (gset_to_gmap tt s).

Record CommitFrame : Type := mkCommitFrame {
  cf_room_id : string;
  cf_message_id : string;
  cf_request_id : option string;
  cf_from_epoch : Z;
  cf_to_epoch : Z;
  cf_revision : Z;
  cf_group_id_b64 : string;
  cf_from_membership_digest_b64 : string;
  cf_membership_digest_b64 : string;
  cf_roster : list MlsRosterWire;
  cf_control_b64 : string;
  cf_welcome_b64 : string;
  cf_authenticated_data_b64 : string;
  cf_state_envelope_b64 : string
}.

Definition commit_transition (f : CommitFrame) : result string MembershipTransition :=
  group_id ← decode_exact (cf_group_id_b64 f) GROUP_ID_BYTES;
  from_membership_digest ← decode_exact (cf_from_membership_digest_b64 f) MEMBERSHIP_DIGEST_BYTES;
  membership_digest ← decode_exact (cf_membership_digest_b64 f) MEMBERSHIP_DIGEST_BYTES;
  roster ← mls_roster_from_wire (cf_roster f);
  control ← decode_bounded (cf_control_b64 f) MAX_CONTROL_BYTES;
  welcome ← decode_bounded_allow_empty (cf_welcome_b64 f) MAX_CONTROL_BYTES;
  authenticated_data ← decode_bounded (cf_authenticated_data_b64 f) MAX_AUTHENTICATED_DATA_BYTES;
  state_envelope ← decode_bounded (cf_state_envelope_b64 f) MAX_STATE_BYTES;
  Ok (mkTransition (cf_room_id f) (cf_message_id f) (cf_request_id f) (cf_from_epoch f)
        (cf_to_epoch f) (cf_revision f) group_id from_membership_digest membership_digest roster
        control welcome authenticated_data state_envelope 0 0).

Definition room_code_ids (room_id : string) : Handler (list CodeId) :=
  t ← tick; on_rooms (member_code_ids t room_id).

(** A removed account loses the room's attachments and is told. *)
Definition dismiss_member (room_id : string) (removed_code_id : CodeId) : Handler () :=
  _ ← modify (λ r, set_rl_attachments
        (revoke_mls_attachment_access room_id removed_code_id (rl_attachments r)) r);
  ids ← active_client_ids_for_code removed_code_id;
  for_each ids (send (OutboundFrame.MlsLeft MLS_PROTOCOL_VERSION room_id)).

Definition mls_membership_commit (sender_id : Uuid) (f : CommitFrame) : Handler () :=
  '(owner_code_id, _) ← client_identity sender_id;
  previous ← room_code_ids (cf_room_id f);
  transition ← lift (commit_transition f);
  t1 ← tick; staged ← on_rooms (begin_membership t1 owner_code_id transition);
  t2 ← tick; t3 ← tick; t4 ← tick; t5 ← tick;
  _ ← or_undo
        (on_rooms (accept_membership t2 t3 t4 t5 owner_code_id (cf_room_id f) (cf_message_id f)
                     (cf_revision f)))
        (t ← tick;
         _ ← on_rooms (rollback_membership t owner_code_id (cf_room_id f) (cf_message_id f)
                         (cf_revision f));
         mret tt);
  current ← attempt (room_code_ids (cf_room_id f));
  let previous_member_code_ids : gset CodeId := list_to_set previous in
  let recipient_code_ids : gset CodeId :=
    list_to_set (match current with Ok l => l | Err _ => [] end) in
  let removed_code_ids :=
    filter (λ c, c ∉ recipient_code_ids) (set_iter previous_member_code_ids) in
  _ ← for_each (set_iter recipient_code_ids)
        (send_member_deliveries (cf_room_id f) (mt_message_id staged));
  for_each removed_code_ids (dismiss_member (cf_room_id f)).

(** ** Applications *)

Record ApplicationFrame : Type := mkApplicationFrame {
  af_room_id : string;
  af_message_id : string;
  af_group_id_b64 : string;
  af_epoch : Z;
  af_revision : Z;
  af_membership_digest_b64 : string;
  af_ciphertext_b64 : string;
  af_authenticated_data_b64 : string;
  af_state_envelope_b64 : string
}.

(** The bytes of an application frame: group, digest, ciphertext, data,
    state envelope. *)
Definition decode_application (f : ApplicationFrame)
    : result string (bytes * bytes * bytes * bytes * bytes) :=
  group_id ← decode_exact (af_group_id_b64 f) GROUP_ID_BYTES;
  membership_digest ← decode_exact (af_membership_digest_b64 f) MEMBERSHIP_DIGEST_BYTES;
  ciphertext ← decode_bounded (af_ciphertext_b64 f) MAX_APPLICATION_CIPHERTEXT_BYTES;
  authenticated_data ← decode_bounded (af_authenticated_data_b64 f) MAX_AUTHENTICATED_DATA_BYTES;
  state_envelope ← decode_bounded (af_state_envelope_b64 f) MAX_STATE_BYTES;
  Ok (group_id, membership_digest, ciphertext, authenticated_data, state_envelope).

Definition undo_application (f : ApplicationFrame) : Handler () :=
  _ ← attempt (on_rooms (rollback_application (af_room_id f) (af_message_id f))); mret tt.

Definition undo_attachment (rollback : StagedAttachmentRollback) : Handler () :=
  modify (λ r, set_rl_attachments (rollback_staged_attachment rollback (rl_attachments r)) r).

(** Binds the staged attachment to the application's recipients and publishes
    it; yields what undoes that. *)
Definition publish_for (f : ApplicationFrame) (sender_code_id : CodeId)
    (recipients : list CodeId) (attachment_id : Uuid) : Handler StagedAttachmentRollback :=
  rollback ← or_undo
    (on_attachments
       (rebind_staged_attachment_recipients attachment_id (list_to_set recipients)))
    (undo_application f);
  t ← tick;
  _ ← or_undo
    (on_attachments
       (publish_staged_attachment_checked t attachment_id sender_code_id (af_room_id f)
          (af_message_id f)))
    (_ ← undo_application f; undo_attachment rollback);
  mret rollback.

Definition publish_staged (f : ApplicationFrame) (sender_code_id : CodeId)
    (recipients : list CodeId) (staged : option Uuid) : Handler (option StagedAttachmentRollback) :=
  match staged with
  | None => mret None
  | Some attachment_id =>
      rollback ← publish_for f sender_code_id recipients attachment_id; mret (Some rollback)
  end.

(** Everything up to the committed admission. *)
Definition accept_application (sender_id : Uuid) (f : ApplicationFrame)
    : Handler ApplicationAdmission :=
  '(sender_code_id, _, sender_platform) ← client_identity_and_platform sender_id;
  t0 ← tick;
  staged_attachment_id ← on_attachments
    (staged_attachment_for_message t0 sender_code_id (af_room_id f) (af_message_id f));
  '(group_id, membership_digest, ciphertext, authenticated_data, state_envelope) ←
    lift (decode_application f);
  t1 ← tick;
  admission ← on_rooms
    (admit_application_for_platform t1 sender_code_id sender_platform (af_room_id f)
       (af_message_id f) group_id (af_epoch f) (af_revision f) membership_digest ciphertext
       authenticated_data state_envelope);
  _ ← or_undo
    (λ r, (require_recipient_code_platforms sender_platform (aa_recipient_code_ids admission)
             (rl_accounts r), r))
    (undo_application f);
  attachment_rollback ← publish_staged f sender_code_id (aa_recipient_code_ids admission)
                          staged_attachment_id;
  t2 ← tick;
  _ ← or_undo
    (on_rooms (commit_application t2 (af_room_id f) (af_message_id f)))
    (_ ← undo_application f;
     match attachment_rollback with
     | Some rollback => undo_attachment rollback
     | None => mret tt
     end);
  mret admission.

Definition mls_application (sender_id : Uuid) (f : ApplicationFrame) : Handler () :=
  admission ← accept_application sender_id f;
  for_each (aa_recipient_code_ids admission)
    (send_member_deliveries (af_room_id f) (aa_message_id admission)).

(** ** Snapshots and deletion *)

Definition mls_state_snapshot (sender_id : Uuid) (room_id message_id : string)
    (epoch revision : Z) (membership_digest_b64 state_envelope_b64 : string) : Handler () :=
  '(code_id, _) ← client_identity sender_id;
  t0 ← tick; info ← on_rooms (member_info t0 room_id code_id);
  membership_digest ← lift (decode_exact membership_digest_b64 MEMBERSHIP_DIGEST_BYTES);
  state_envelope ← lift (decode_bounded state_envelope_b64 MAX_STATE_BYTES);
  t1 ← tick;
  _ ← on_rooms (store_snapshot t1 code_id room_id message_id epoch revision membership_digest
                  state_envelope);
  _ ← (if ri_active info then mret tt else send_mls_pending sender_id code_id);
  send_mls_catalog sender_id code_id.

Definition mls_delete_room (sender_id : Uuid) (room_id : string) : Handler () :=
  '(owner_code_id, _) ← client_identity sender_id;
  member_code_ids ← room_code_ids room_id;
  t ← tick; deleted ← on_rooms (delete_room t owner_code_id room_id);
  _ ← modify (λ r, set_rl_attachments (remove_chat_attachments room_id (rl_attachments r)) r);
  clients ← (λ r, (Ok (client_ids_where
                         (λ c, bool_decide (cl_code_id c ∈ member_code_ids)) r), r));
  _ ← for_each clients (send (OutboundFrame.MlsRoomDeleted MLS_PROTOCOL_VERSION room_id));
  if bool_decide (ri_visibility deleted = Public) then broadcast_mls_public_catalog else mret tt.

Definition send_mls_room_result (client_id : Uuid) (room_id message_id : string) (revision : Z)
    (accepted : bool) : Handler () :=
  send_result client_id
    (OutboundFrame.MlsRoomResult MLS_PROTOCOL_VERSION room_id message_id revision accepted).

Definition send_mls_snapshot_result (client_id : Uuid) (room_id message_id : string)
    (revision : Z) (accepted : bool) : Handler () :=
  send_result client_id
    (OutboundFrame.MlsSnapshotResult MLS_PROTOCOL_VERSION room_id message_id revision accepted).
End mls.
