(* ===== verification/MlsDispatch.v ===== *)
(** * Dispatch of the room frames (mirage-server/src/main.rs, transport.rs, mls.rs)

    The size checks before parsing, the room arms of [handle_frame], and the
    recoverable transactions around commits, applications and snapshots: a
    frame whose transaction is already decided is answered from its receipt and
    not run again; a conflicting frame ends the sender's sessions. *)

From S2P Require Import Prelude MlsWire TransactionReceipts RoomModel RoomAuthority TransportWire.
From S2P Require Import TransportPadding AttachmentStore RelayFrame OutboundQueue RateLimit Relay.
From S2P Require Import MlsRelay.

(** ** Size checks before parsing *)

Definition quoted (name : string) : bytes := quote :: text_bytes name ++ [quote].
Definition mls_prefix (name : string) : bytes :=
  open_brace :: quoted "type" ++ text_bytes ":" ++ quoted name ++ text_bytes ","
  ++ quoted "protocol_version" ++ text_bytes ":10,".
Definition LARGE_MLS_INBOUND_PREFIXES : list bytes :=
  mls_prefix <$> ["mls_create_room"; "mls_join_request"; "mls_membership_commit";
                  "mls_application"; "mls_state_snapshot"]%string.

Definition starts_with (text prefix : bytes) : bool :=
  bool_decide (take (length prefix) text = prefix).

(** The messages carry the numbers; the model keeps their text. *)
Definition validate_inbound_frame_size_before_parse (text : bytes) : result string () :=
  if bool_decide (len text ≤ WS_MAX_FRAME_BYTES) then Ok tt
  else if bool_decide (MLS_WS_MAX_FRAME_BYTES < len text) then Err "frame too large"%string
  else if existsb (starts_with text) LARGE_MLS_INBOUND_PREFIXES then Ok tt
  else Err "oversized inbound frame is not a canonical protocol-v10 MLS frame"%string.

Definition validate_inbound_transport_size_before_parse (text : bytes) : result string () :=
  if bool_decide (len text ≤ WS_MAX_FRAME_BYTES) then Ok tt
  else if bool_decide (CONTROL_TRANSPORT_MAX_BUCKET < len text)
  then Err "transport frame too large"%string
  else if existsb (starts_with text) LARGE_MLS_INBOUND_PREFIXES then Ok tt
  else Err "oversized transport frame is not a canonical protocol-v10 MLS frame"%string.

Definition validate_inbound_text_socket_admission (text : bytes) (frame_limit : result string ())
    : result string () :=
  _ ← validate_inbound_transport_size_before_parse text; frame_limit.

(** [frame_type.starts_with("mls_")]. *)
Definition strip_inbound_control_transport `{SerdeJson} (text : bytes) : result string bytes :=
  object ← ok_or (parse_object text) "transport frame rejected"%string;
  frame_type ← ok_or (member_str object "type") "transport frame rejected"%string;
  if bool_decide (frame_type = text_bytes "message") then
    if bool_decide (MESSAGE_TRANSPORT_MAX_BUCKET < len text)
    then Err "message transport frame too large"%string
    else Ok text
  else
    strip_control_transport_frame text
      (if starts_with frame_type (text_bytes "mls_") then MLS_WS_MAX_FRAME_BYTES
       else WS_MAX_FRAME_BYTES).

(** ** The room frames *)

Module InboundFrame.
Inductive t : Type :=
| MlsCreateRoom (protocol_version : Z) (room_id group_id_b64 : string) (epoch revision : Z)
    (membership_digest_b64 stable_identity_b64 state_envelope_b64 : string)
    (policy : RoomPolicy) (visibility : RoomVisibility)
| MlsDiscoverRoom (protocol_version : Z) (room_id : string)
| MlsJoinRequest (protocol_version : Z)
    (room_id request_id stable_identity_b64 key_package_b64 state_envelope_b64 : string)
| MlsJoinReject (protocol_version : Z) (room_id request_id : string)
| MlsLeaveRequest (protocol_version : Z) (room_id request_id : string)
| MlsLeaveReject (protocol_version : Z) (room_id request_id : string)
| MlsMembershipCommit (protocol_version : Z) (frame : CommitFrame)
| MlsApplication (protocol_version : Z) (frame : ApplicationFrame)
| MlsStateSnapshot (protocol_version : Z) (room_id message_id : string) (epoch revision : Z)
    (membership_digest_b64 state_envelope_b64 : string)
| MlsDeleteRoom (protocol_version : Z) (room_id : string).
End InboundFrame.

Section dispatch.
Context {HO : HashOrder} {B64 : Base64} {ENV : RelayEnv} {JSON : SerdeJson} {FJ : FrameJson}.

(** ** Connections of an account *)

Definition retain_ids (old : gset Uuid) {V} (m : gmap Uuid V) : gmap Uuid V :=
  retain (λ id _, negb (bool_decide (id ∈ old))) m.

(** [replace_connected_clients_for_code] (auth.rs). *)
Definition replace_connected_clients_for_code (code_id : CodeId) : Handler () := λ r,
  let old := client_ids_where (λ c, bool_decide (cl_code_id c = code_id)) r in
  if bool_decide (old = []) then
    (Ok tt, set_rl_connections (rl_accounts r) (rl_sessions r) (rl_transport_sessions r)
              (delete code_id (rl_active_connections r)) (rl_frame_limits r) (rl_rooms r) r)
  else
    let old_ids : gset Uuid := list_to_set old in
    let ob := foldl (λ ob id, try_send_control id Close ob) (rl_outbound r) old in
    let ob := forget_clients old_ids ob in
    let active :=
      match rl_active_connections r !! code_id with
      | Some id => if bool_decide (id ∈ old_ids) then delete code_id (rl_active_connections r)
                   else rl_active_connections r
      | None => rl_active_connections r
      end in
    broadcast_presence
      (set_rl_connections (alter (set_ra_connected false) code_id (rl_accounts r))
         (rl_sessions r) (rl_transport_sessions r) active
         (retain_ids old_ids (rl_frame_limits r))
         ((λ members, members ∖ old_ids) <$> rl_rooms r) (set_rl_outbound ob r)).

(** [invalidate_client_connection]. *)
Definition invalidate_client_connection (client_id : Uuid) : Handler () := λ r,
  match rl_clients r !! client_id with
  | None => (Ok tt, r)
  | Some client =>
      let code_id := cl_code_id client in
      let r := set_rl_outbound (try_send_control client_id Close (rl_outbound r)) r in
      let removed_tokens : gset string :=
        dom (retain (λ _ s, bool_decide (as_code_id s = code_id)) (rl_sessions r)) in
      let sessions := retain (λ _ s, negb (bool_decide (as_code_id s = code_id))) (rl_sessions r) in
      let transports :=
        retain (λ _ t, negb (bool_decide (tp_token t ∈ removed_tokens)))
          (rl_transport_sessions r) in
      replace_connected_clients_for_code code_id
        (set_rl_connections (rl_accounts r) sessions transports (rl_active_connections r)
           (rl_frame_limits r) (rl_rooms r) r)
  end.

(** [cleanup_client]: a socket is gone. *)
Definition cleanup_client (client_id : Uuid) : Handler () := λ r,
  let client := rl_clients r !! client_id in
  let r := set_rl_outbound (remove_client client_id (rl_outbound r)) r in
  let rooms := (λ members : gset Uuid, members ∖ {[client_id]}) <$> rl_rooms r in
  let limits := delete client_id (rl_frame_limits r) in
  match client with
  | None =>
      broadcast_presence
        (set_rl_connections (rl_accounts r) (rl_sessions r) (rl_transport_sessions r)
           (rl_active_connections r) limits rooms r)
  | Some client =>
      let code_id := cl_code_id client in
      let active :=
        if bool_decide (rl_active_connections r !! code_id = Some client_id)
        then delete code_id (rl_active_connections r) else rl_active_connections r in
      let still_connected :=
        any_value (λ c, bool_decide (cl_code_id c = code_id)) (rl_clients r) in
      let accounts :=
        if still_connected then rl_accounts r
        else alter (set_ra_connected false) code_id (rl_accounts r) in
      broadcast_presence
        (set_rl_connections accounts (rl_sessions r) (rl_transport_sessions r) active limits
           rooms r)
  end.

(** ** Recoverable transactions (transport.rs) *)

Inductive RecoverableTransaction : Type :=
| RtExecute (ticket : TransactionTicket)
| RtReplay (accepted : bool)
| RtRejectForCapacity.

Definition begin_recoverable_transaction (sender_id : Uuid) (kind : TransactionKind)
    (conversation_id message_id exact_frame : string) : Handler RecoverableTransaction :=
  '(account_id, _) ← client_identity sender_id;
  t ← tick;
  outcome ← (λ r,
    let '(x, receipts) :=
      begin sha256_text (mkTransactionKey account_id kind conversation_id message_id) exact_frame
        t (rl_transaction_receipts r) in
    (Ok x, set_rl_receipts receipts r));
  match outcome with
  | Ok (Execute ticket) => mret (RtExecute ticket)
  | Ok (Replay accepted) => mret (RtReplay accepted)
  | Ok CapacityExceeded => mret RtRejectForCapacity
  | Ok InProgress => lift (Err "transaction still in progress"%string)
  | Err ConflictingFrame =>
      _ ← invalidate_client_connection sender_id;
      lift (Err "conflicting transaction frame"%string)
  | Err MissingReservation => lift (Err "transaction receipt unavailable"%string)
  end.

Definition finish_recoverable_transaction (sender_id : Uuid) (ticket : TransactionTicket)
    (accepted : bool) : Handler () :=
  t ← tick;
  outcome ← (λ r,
    let '(x, receipts) := finish ticket accepted t (rl_transaction_receipts r) in
    (Ok x, set_rl_receipts receipts r));
  match outcome with
  | Ok _ => mret tt
  | Err _ =>
      _ ← invalidate_client_connection sender_id;
      lift (Err "transaction receipt unavailable"%string)
  end.

(** [finish_mls_room_transaction] and [finish_mls_snapshot_transaction]: the
    receipt first, then the answer, then the activity. *)
Definition finish_transaction (sender_id : Uuid) (ticket : TransactionTicket)
    (answer : bool → Handler ()) (accepted : bool) : Handler () :=
  _ ← finish_recoverable_transaction sender_id ticket accepted;
  _ ← answer accepted;
  if accepted then touch_activity else mret tt.

(** The arm shared by the three transactional frames. *)
Definition run_transaction (sender_id : Uuid) (kind : TransactionKind)
    (room_id message_id text : string) (answer : bool → Handler ()) (body : Handler ())
    : Handler () :=
  if negb (valid_mls_correlator room_id && valid_mls_correlator message_id)
  then lift (Err "invalid MLS transaction identity"%string)
  else
    transaction ← begin_recoverable_transaction sender_id kind room_id message_id text;
    match transaction with
    | RtReplay accepted => answer accepted
    | RtRejectForCapacity => answer false
    | RtExecute ticket =>
        res ← attempt body;
        finish_transaction sender_id ticket answer (is_ok res)
    end.

(** The room arms of [handle_frame]; [text] is the frame as it came. *)
Definition handle_mls_frame (sender_id : Uuid) (text : string) (frame : InboundFrame.t)
    : Handler () :=
  match frame with
  | InboundFrame.MlsCreateRoom version room_id group_id_b64 epoch revision digest_b64 stable_b64
      envelope_b64 policy visibility =>
      _ ← lift (require_mls_protocol_version version);
      touch_activity_on_success
        (mls_create_room sender_id room_id group_id_b64 epoch revision digest_b64 stable_b64
           envelope_b64 policy visibility)
  | InboundFrame.MlsDiscoverRoom version room_id =>
      _ ← lift (require_mls_protocol_version version);
      touch_activity_on_success (mls_discover_room sender_id room_id)
  | InboundFrame.MlsJoinRequest version room_id request_id stable_b64 key_b64 envelope_b64 =>
      _ ← lift (require_mls_protocol_version version);
      touch_activity_on_success
        (mls_join_request sender_id room_id request_id stable_b64 key_b64 envelope_b64)
  | InboundFrame.MlsJoinReject version room_id request_id =>
      _ ← lift (require_mls_protocol_version version);
      touch_activity_on_success (mls_join_reject sender_id room_id request_id)
  | InboundFrame.MlsLeaveRequest version room_id request_id =>
      _ ← lift (require_mls_protocol_version version);
      touch_activity_on_success (mls_leave_request sender_id room_id request_id)
  | InboundFrame.MlsLeaveReject version room_id request_id =>
      _ ← lift (require_mls_protocol_version version);
      touch_activity_on_success (mls_leave_reject sender_id room_id request_id)
  | InboundFrame.MlsMembershipCommit version f =>
      _ ← lift (require_mls_protocol_version version);
      run_transaction sender_id MlsRoom (cf_room_id f) (cf_message_id f) text
        (send_mls_room_result sender_id (cf_room_id f) (cf_message_id f) (cf_revision f))
        (mls_membership_commit sender_id f)
  | InboundFrame.MlsApplication version f =>
      _ ← lift (require_mls_protocol_version version);
      run_transaction sender_id MlsRoom (af_room_id f) (af_message_id f) text
        (send_mls_room_result sender_id (af_room_id f) (af_message_id f) (af_revision f))
        (mls_application sender_id f)
  | InboundFrame.MlsStateSnapshot version room_id message_id epoch revision digest_b64
      envelope_b64 =>
      _ ← lift (require_mls_protocol_version version);
      run_transaction sender_id MlsSnapshot room_id message_id text
        (send_mls_snapshot_result sender_id room_id message_id revision)
        (mls_state_snapshot sender_id room_id message_id epoch revision digest_b64 envelope_b64)
  | InboundFrame.MlsDeleteRoom version room_id =>
      _ ← lift (require_mls_protocol_version version);
      touch_activity_on_success (mls_delete_room sender_id room_id)
  end.

(** The frames a connection starts with, then its stage is committed
    ([socket_loop_v11]). *)
Definition send_initial_snapshot (client_id : Uuid) (code_id : CodeId)
    (directs : OutboundFrame.t) : Handler () :=
  _ ← send_initial_presence client_id;
  _ ← send_initial_mls_catalog client_id code_id;
  _ ← send_initial_mls_public_catalog client_id;
  _ ← send_initial_mls_pending client_id code_id;
  _ ← send_initial_mls_pending_joins client_id code_id;
  _ ← send_initial_mls_pending_leaves client_id code_id;
  _ ← queue_frame true directs client_id;
  modify (λ r, set_rl_outbound (commit_client_stage client_id (rl_outbound r)) r).
End dispatch.
