(* ===== verification/RelayFacts.v ===== *)
(** * What every room frame preserves

    A handler is a sequence of calls on the room authority, the attachment
    registry and the outbound queues.  [relay_ok] says that each of the three
    is in a state its own operations reach, so the theorems about the parts
    hold of the relay after any sequence of room frames. *)

From S2P Require Import Prelude MlsWire TransactionReceipts RoomModel RoomValidation RoomDelivery.
From S2P Require Import RoomAuthority RoomLifecycle RoomMembership RoomApplication.
From S2P Require Import RoomSnapshot RoomReachable TransportPadding AttachmentAccess.
From S2P Require Import AttachmentStore AttachmentStoreFacts AttachmentTheorems RelayFrame.
From S2P Require Import OutboundQueue OutboundTheorems RateLimit Relay MlsRelay MlsDispatch.

(** ** Preserved predicates *)

Definition preserves {A} (P : Relay → Prop) (m : Handler A) : Prop := ∀ r, P r → P (m r).2.

Section preserves.
Context (P : Relay → Prop).

Lemma preserves_ret {A} (a : A) : preserves P (mret a).
Proof. by intros r. Qed.
Lemma preserves_lift {A} (x : result string A) : preserves P (lift x).
Proof. by intros r. Qed.
Lemma preserves_bind {A B} (m : Handler A) (k : A → Handler B) :
  preserves P m → (∀ a, preserves P (k a)) → preserves P (m ≫= k).
Proof.
  intros Hm Hk r Hr. specialize (Hm r Hr). unfold mbind, ST_bind.
  destruct (m r) as [[a|e] r']; simpl in *; [by apply Hk|done].
Qed.
Lemma preserves_attempt {A} (m : Handler A) : preserves P m → preserves P (attempt m).
Proof. intros Hm r Hr. specialize (Hm r Hr). unfold attempt. by destruct (m r). Qed.
Lemma preserves_or_undo {A} (m : Handler A) u :
  preserves P m → preserves P u → preserves P (or_undo m u).
Proof.
  intros Hm Hu r Hr. specialize (Hm r Hr). unfold or_undo.
  destruct (m r) as [[a|e] r']; simpl in *; [done|by apply Hu].
Qed.
Lemma preserves_for_each {A} (l : list A) f :
  (∀ x, preserves P (f x)) → preserves P (for_each l f).
Proof.
  intros Hf. induction l as [|x l IH]; [apply preserves_ret|].
  apply preserves_bind; [apply Hf|by intros _].
Qed.
Lemma preserves_for_each_in {A} (l : list A) f :
  (∀ x, x ∈ l → preserves P (f x)) → preserves P (for_each l f).
Proof.
  induction l as [|x l IH]; intros Hf; [apply preserves_ret|].
  apply preserves_bind; [apply Hf; left|intros _; apply IH; intros; apply Hf; by right].
Qed.
(** A call whose value satisfies [Q]. *)
Lemma preserves_bind_post {A B} (Q : A → Prop) (m : Handler A)
    (k : A → Handler B) :
  (∀ r, P r → P (m r).2 ∧ ∀ a, (m r).1 = Ok a → Q a) → (∀ a, Q a → preserves P (k a)) →
  preserves P (m ≫= k).
Proof.
  intros Hm Hk r Hr. unfold mbind, ST_bind. destruct (Hm r Hr) as [H1 H2].
  destruct (m r) as [[a|e] r1]; [|done]. by apply (Hk a); [apply H2|].
Qed.
(** A computation that only reads. *)
Lemma preserves_read {A} (g : Relay → result string A) : preserves P (λ r, (g r, r)).
Proof. by intros r. Qed.
Lemma preserves_modify f : (∀ r, P r → P (f r)) → preserves P (modify f).
Proof. intros Hf r Hr. by apply Hf. Qed.
End preserves.

Create HintDb keeps.
#[export] Hint Resolve preserves_ret preserves_lift preserves_read : keeps.

(** One step of a proof that a handler preserves a predicate. *)
Ltac keep_step :=
  match goal with
  | |- preserves _ (mbind _ _) => apply preserves_bind; [|intros ?]
  | |- preserves _ (let '(_, _) := ?x in _) => destruct x
  | |- preserves _ (if ?b then _ else _) => destruct b
  | |- preserves _ (match ?x with _ => _ end) => destruct x
  | |- preserves _ (for_each _ _) => apply preserves_for_each; intros ?
  | |- preserves _ (attempt _) => apply preserves_attempt
  | |- preserves _ (or_undo _ _) => apply preserves_or_undo
  | |- preserves _ _ => solve [auto with keeps]
  end.
Ltac keep := repeat keep_step.

(** ** The parts are in reachable states *)

Section keeps.
Context {HO : HashOrder} {B64 : Base64} {ENV : RelayEnv} {JSON : SerdeJson} {FJ : FrameJson}.
Context (max_rooms ttl : Z) (limits : AttachmentLimits).

Record relay_ok (r : Relay) : Prop := mkRelayOk {
  rk_rooms : reachable max_rooms ttl (rl_mls_rooms r);
  rk_attachments : attachments_reachable limits (rl_attachments r);
  rk_outbound : queue_reachable (rl_outbound r)
}.

Lemma ok_same_parts r r' :
  rl_mls_rooms r' = rl_mls_rooms r → rl_attachments r' = rl_attachments r →
  rl_outbound r' = rl_outbound r → relay_ok r → relay_ok r'.
Proof. intros E1 E2 E3 [? ? ?]. split; congruence. Qed.

Lemma keeps_on_rooms {A} (f : RoomAuthority → result string A * RoomAuthority) :
  (∀ s, ∃ op, (f s).2 = perform s op) → preserves relay_ok (on_rooms f).
Proof.
  intros Hf r [H1 H2 H3]. unfold on_rooms. destruct (Hf (rl_mls_rooms r)) as [op E].
  destruct (f (rl_mls_rooms r)) as [x s]. simpl in *. subst s. split; simpl; [|done|done].
  by apply reach_op.
Qed.
Lemma keeps_ask_rooms {A} (f : RoomAuthority → A * RoomAuthority) :
  (∀ s, ∃ op, (f s).2 = perform s op) → preserves relay_ok (ask_rooms f).
Proof.
  intros Hf r [H1 H2 H3]. unfold ask_rooms. destruct (Hf (rl_mls_rooms r)) as [op E].
  destruct (f (rl_mls_rooms r)) as [x s]. simpl in *. subst s. split; simpl; [|done|done].
  by apply reach_op.
Qed.
Lemma keeps_on_attachments {A} (f : AttachmentStore → result string A * AttachmentStore) :
  (∀ s, some_step limits s (f s).2) → preserves relay_ok (on_attachments f).
Proof.
  intros Hf r [H1 H2 H3]. unfold on_attachments. specialize (Hf (rl_attachments r)).
  destruct (f (rl_attachments r)) as [x s]. simpl in *. split; simpl; [done| |done].
  by eapply rtc_r.
Qed.
Lemma keeps_attachments f :
  (∀ s, some_step limits s (f s)) →
  preserves relay_ok (modify (λ r, set_rl_attachments (f (rl_attachments r)) r)).
Proof. intros Hf r [H1 H2 H3]. split; simpl; [done| |done]. by eapply rtc_r. Qed.
Lemma keeps_queue op :
  (∀ ob, queue_op_fresh op ob) →
  preserves relay_ok (modify (λ r, set_rl_outbound (queue_step op (rl_outbound r)) r)).
Proof. intros Hf r [H1 H2 H3]. split; simpl; [done|done|]. by apply queue_next. Qed.

(** The calls of the authority are its operations. *)
Ltac by_op op := intros s; exists op; reflexivity.

Lemma keeps_tick : preserves relay_ok tick.
Proof. intros r Hr. by eapply ok_same_parts; [..|exact Hr]. Qed.
Lemma keeps_touch : preserves relay_ok touch_activity.
Proof. intros r Hr. by eapply ok_same_parts; [..|exact Hr]. Qed.
Lemma keeps_find_client id : preserves relay_ok (find_client id).
Proof. by intros r. Qed.
Lemma keeps_send_frame initial f id : preserves relay_ok (queue_frame initial f id).
Proof. by apply (keeps_queue (OpSend initial id f)). Qed.
Lemma keeps_send f id : preserves relay_ok (send f id).
Proof. apply keeps_send_frame. Qed.
Lemma keeps_send_result id f : preserves relay_ok (send_result id f).
Proof.
  intros r Hr. unfold send_result.
  pose proof (keeps_queue (OpResult (Z.of_nat (rl_ticks r)) (result_delivered (rl_ticks r)) id f)
                (λ _, I) r Hr) as H. simpl in H.
  destruct (send_client_result _ _ _ _ _). simpl in *. by eapply ok_same_parts; [..|exact H].
Qed.
Lemma keeps_discover t id : preserves relay_ok (on_rooms (discover t id)).
Proof. apply keeps_on_rooms. by_op (Query t). Qed.
Lemma keeps_create t0 t1 o u id g e v d i p vis env :
  preserves relay_ok
    (on_rooms (create_with_policy_visibility_and_state t0 t1 o u id g e v d i p vis env)).
Proof. apply keeps_on_rooms. by_op (Create t0 t1 o u id g e v d i p vis env). Qed.
Lemma keeps_request_join t c u id q i k env :
  preserves relay_ok (on_rooms (request_join t c u id q i k env)).
Proof. apply keeps_on_rooms. by_op (RequestJoin t c u id q i k env). Qed.
Lemma keeps_owner t id : preserves relay_ok (on_rooms (owner_code_id t id)).
Proof. apply keeps_on_rooms. by_op (Query t). Qed.
Lemma keeps_remove_join t o id q : preserves relay_ok (on_rooms (remove_join t o id q)).
Proof. apply keeps_on_rooms. by_op (RemoveJoin t o id q). Qed.
Lemma keeps_request_leave t c id q : preserves relay_ok (on_rooms (request_leave t c id q)).
Proof. apply keeps_on_rooms. by_op (RequestLeave t c id q). Qed.
Lemma keeps_remove_leave t o id q : preserves relay_ok (on_rooms (remove_leave t o id q)).
Proof. apply keeps_on_rooms. by_op (RemoveLeave t o id q). Qed.
Lemma keeps_deliveries t id c : preserves relay_ok (on_rooms (deliveries_for_member t id c)).
Proof. apply keeps_on_rooms. by_op (Query t). Qed.
Lemma keeps_member_codes t id : preserves relay_ok (on_rooms (member_code_ids t id)).
Proof. apply keeps_on_rooms. by_op (Query t). Qed.
Lemma keeps_member_info t id c : preserves relay_ok (on_rooms (member_info t id c)).
Proof. apply keeps_on_rooms. by_op (Query t). Qed.
Lemma keeps_begin t o tr : preserves relay_ok (on_rooms (begin_membership t o tr)).
Proof. apply keeps_on_rooms. by_op (BeginMembership t o tr). Qed.
Lemma keeps_accept t0 t1 t2 t3 o id m v :
  preserves relay_ok (on_rooms (accept_membership t0 t1 t2 t3 o id m v)).
Proof. apply keeps_on_rooms. by_op (AcceptMembership t0 t1 t2 t3 o id m v). Qed.
Lemma keeps_rollback_membership t o id m v :
  preserves relay_ok (on_rooms (rollback_membership t o id m v)).
Proof. apply keeps_on_rooms. by_op (RollbackMembership t o id m v). Qed.
Lemma keeps_admit t c p id m g e v d ct ad env :
  preserves relay_ok (on_rooms (admit_application_for_platform t c p id m g e v d ct ad env)).
Proof. apply keeps_on_rooms. by_op (AdmitApplication t c p id m g e v d ct ad env). Qed.
Lemma keeps_commit t id m : preserves relay_ok (on_rooms (commit_application t id m)).
Proof. apply keeps_on_rooms. by_op (CommitApplication t id m). Qed.
Lemma keeps_rollback_application id m : preserves relay_ok (on_rooms (rollback_application id m)).
Proof. apply keeps_on_rooms. by_op (RollbackApplication id m). Qed.
Lemma keeps_store_snapshot t c id m e v d env :
  preserves relay_ok (on_rooms (store_snapshot t c id m e v d env)).
Proof. apply keeps_on_rooms. by_op (StoreSnapshot t c id m e v d env). Qed.
Lemma keeps_delete_room t o id : preserves relay_ok (on_rooms (delete_room t o id)).
Proof. apply keeps_on_rooms. by_op (DeleteRoom t o id). Qed.
Lemma keeps_query {A} t (f : RoomAuthority → A) : preserves relay_ok (ask_rooms (query t f)).
Proof. apply keeps_ask_rooms. by_op (Query t). Qed.
Lemma keeps_joins_for_owner t c : preserves relay_ok (ask_rooms (pending_joins_for_owner t c)).
Proof. apply keeps_ask_rooms. by_op (Query t). Qed.
Lemma keeps_leaves_for_owner t c : preserves relay_ok (ask_rooms (pending_leaves_for_owner t c)).
Proof. apply keeps_ask_rooms. by_op (Query t). Qed.
Lemma keeps_leaves_for_member t c : preserves relay_ok (ask_rooms (pending_leaves_for_member t c)).
Proof. apply keeps_ask_rooms. by_op (Query t). Qed.

(** The calls of the registry are its steps. *)
Lemma keeps_staged t o c m :
  preserves relay_ok (on_attachments (staged_attachment_for_message t o c m)).
Proof. apply keeps_on_attachments. intros s. eexists. apply StepLookup. Qed.
Lemma keeps_rebind id rs : preserves relay_ok (on_attachments (rebind_staged_attachment_recipients id rs)).
Proof. apply keeps_on_attachments. intros s. eexists. apply StepRebind. Qed.
Lemma keeps_publish t id o c m :
  preserves relay_ok (on_attachments (publish_staged_attachment_checked t id o c m)).
Proof. apply keeps_on_attachments. intros s. eexists. apply StepPublish. Qed.
Lemma keeps_undo_attachment rb : preserves relay_ok (undo_attachment rb).
Proof. apply keeps_attachments. intros s. eexists. apply StepRollback. Qed.
Lemma keeps_revoke id c :
  preserves relay_ok
    (modify (λ r, set_rl_attachments (revoke_mls_attachment_access id c (rl_attachments r)) r)).
Proof. apply (keeps_attachments (revoke_mls_attachment_access id c)). intros s. eexists. apply StepRevoke. Qed.
Lemma keeps_remove_chat id :
  preserves relay_ok
    (modify (λ r, set_rl_attachments (remove_chat_attachments id (rl_attachments r)) r)).
Proof. apply (keeps_attachments (remove_chat_attachments id)). intros s. eexists. apply StepRemoveChat. Qed.
End keeps.

#[export] Hint Resolve keeps_tick keeps_touch keeps_find_client keeps_send_frame keeps_send
  keeps_send_result keeps_discover keeps_create keeps_request_join keeps_owner keeps_remove_join
  keeps_request_leave keeps_remove_leave keeps_deliveries keeps_member_codes keeps_member_info
  keeps_begin keeps_accept keeps_rollback_membership keeps_admit keeps_commit
  keeps_rollback_application keeps_store_snapshot keeps_delete_room keeps_query
  keeps_joins_for_owner keeps_leaves_for_owner keeps_leaves_for_member keeps_staged keeps_rebind
  keeps_publish keeps_undo_attachment keeps_revoke keeps_remove_chat : keeps.

(** * Room frames keep the relay well formed *)

Section frames.
Context {HO : HashOrder} {B64 : Base64} {ENV : RelayEnv} {JSON : SerdeJson} {FJ : FrameJson}.
Context (max_rooms ttl : Z) (limits : AttachmentLimits).
Abbreviation ok := (relay_ok max_rooms ttl limits).

Lemma keeps_identity id : preserves ok (client_identity id).
Proof. unfold client_identity. keep. Qed.
Lemma keeps_identity_platform id : preserves ok (client_identity_and_platform id).
Proof. unfold client_identity_and_platform. keep. Qed.
Lemma keeps_client_ids c : preserves ok (active_client_ids_for_code c).
Proof. apply preserves_read. Qed.
Lemma keeps_broadcast f : preserves ok (broadcast_to_all f).
Proof. intros r Hr. revert r Hr. assert (∀ l, preserves ok (for_each l (send f))) as H by (intros; keep).
  intros r Hr. by apply H. Qed.
Lemma keeps_authenticated c e : preserves ok (authenticated_mls_identity c e).
Proof. apply preserves_read. Qed.
Hint Resolve keeps_identity keeps_identity_platform keeps_client_ids keeps_broadcast
  keeps_authenticated : keeps.

Lemma keeps_public_frame : preserves ok mls_public_catalog_frame.
Proof. unfold mls_public_catalog_frame, public_rooms. keep. Qed.
Hint Resolve keeps_public_frame : keeps.
Lemma keeps_broadcast_public : preserves ok broadcast_mls_public_catalog.
Proof. unfold broadcast_mls_public_catalog. keep. Qed.
Lemma keeps_catalog initial id c : preserves ok (send_mls_catalog_inner initial id c).
Proof. unfold send_mls_catalog_inner, rooms_for_member, pending_rooms_for_member. keep. Qed.
Lemma keeps_public initial id : preserves ok (send_mls_public_catalog_inner initial id).
Proof. unfold send_mls_public_catalog_inner. keep. Qed.
Lemma keeps_send_delivery d : preserves ok (send_mls_delivery d).
Proof. unfold send_mls_delivery, is_active_member. keep. Qed.
Hint Resolve keeps_broadcast_public keeps_catalog keeps_public keeps_send_delivery : keeps.
Lemma keeps_member_deliveries id m c : preserves ok (send_member_deliveries id m c).
Proof. unfold send_member_deliveries. keep. Qed.
Lemma keeps_pending_deliveries p c rooms : preserves ok (pending_deliveries p c rooms).
Proof. induction rooms as [|i rooms IH]; simpl; keep. Qed.
Hint Resolve keeps_member_deliveries keeps_pending_deliveries : keeps.
Lemma keeps_pending initial id c : preserves ok (send_mls_pending_inner initial id c).
Proof.
  intros r Hr. unfold send_mls_pending_inner. destruct (rl_clients r !! id) as [cl|]; [|done].
  revert r Hr. change (preserves ok
    (t ← tick; rooms ← ask_rooms (rooms_for_member t c);
     deliveries ← pending_deliveries (cl_platform cl) c rooms;
     for_each deliveries (λ d, queue_frame initial (mls_delivery_frame d) id))).
  unfold rooms_for_member. keep.
Qed.
Lemma keeps_pending_joins initial id c : preserves ok (send_mls_pending_joins_inner initial id c).
Proof. unfold send_mls_pending_joins_inner. keep. Qed.
Lemma keeps_pending_leaves initial id c : preserves ok (send_mls_pending_leaves_inner initial id c).
Proof. unfold send_mls_pending_leaves_inner. keep. Qed.
Lemma keeps_room_codes id : preserves ok (room_code_ids id).
Proof. unfold room_code_ids. keep. Qed.
Lemma keeps_dismiss id c : preserves ok (dismiss_member id c).
Proof. unfold dismiss_member. keep. Qed.
Lemma keeps_undo_application f : preserves ok (undo_application f).
Proof. unfold undo_application. keep. Qed.
Hint Resolve keeps_pending keeps_pending_joins keeps_pending_leaves keeps_room_codes keeps_dismiss
  keeps_undo_application : keeps.
Lemma keeps_publish_for f c rs a : preserves ok (publish_for f c rs a).
Proof. unfold publish_for. keep. Qed.
Hint Resolve keeps_publish_for : keeps.
Lemma keeps_publish_staged f c rs a : preserves ok (publish_staged f c rs a).
Proof. unfold publish_staged. keep. Qed.
Hint Resolve keeps_publish_staged : keeps.
Lemma keeps_accept_application id f : preserves ok (accept_application id f).
Proof. unfold accept_application. keep. Qed.
Hint Resolve keeps_accept_application : keeps.

(** ** Connections *)

Lemma keeps_presence : preserves ok broadcast_presence.
Proof. intros r Hr. by apply keeps_broadcast. Qed.

Lemma close_all_reachable l ob :
  queue_reachable ob → queue_reachable (foldl (λ ob id, try_send_control id Close ob) ob l).
Proof.
  revert ob. induction l as [|id l IH]; intros ob Hr; simpl; [done|].
  apply IH. by apply (queue_next ob (OpClose id Close)).
Qed.

Lemma keeps_replace c : preserves ok (replace_connected_clients_for_code c).
Proof.
  intros r Hr. unfold replace_connected_clients_for_code. case_bool_decide.
  - by eapply ok_same_parts; [..|exact Hr].
  - apply keeps_presence. destruct Hr as [H1 H2 H3]. split; simpl; [done|done|].
    by apply (queue_next _ (OpForget _)), I; apply close_all_reachable.
Qed.

Lemma keeps_invalidate id : preserves ok (invalidate_client_connection id).
Proof.
  intros r Hr. unfold invalidate_client_connection. destruct (rl_clients r !! id) as [cl|]; [|done].
  apply keeps_replace. destruct Hr as [H1 H2 H3]. split; simpl; [done|done|].
  by apply (queue_next _ (OpClose id Close)).
Qed.

Lemma keeps_cleanup id : preserves ok (cleanup_client id).
Proof.
  intros r [H1 H2 H3]. unfold cleanup_client.
  assert (queue_reachable (remove_client id (rl_outbound r))) by (by apply (queue_next _ (OpRemove id))).
  destruct (rl_clients r !! id); by apply keeps_presence.
Qed.
Hint Resolve keeps_invalidate : keeps.

(** ** Transactions *)

Lemma keeps_receipts {A} (f : Relay → A * TransactionReceiptStore) :
  preserves ok (λ r, let '(x, s) := f r in (Ok x, set_rl_receipts s r)).
Proof. intros r Hr. destruct (f r). simpl. by eapply ok_same_parts; [..|exact Hr]. Qed.

Lemma keeps_begin_transaction id k c m t : preserves ok (begin_recoverable_transaction id k c m t).
Proof.
  unfold begin_recoverable_transaction. apply preserves_bind; [keep|]. intros [a u].
  apply preserves_bind; [keep|]. intros now. apply preserves_bind.
  - apply (keeps_receipts (λ r, begin sha256_text _ _ now (rl_transaction_receipts r))).
  - intros o. keep.
Qed.
Lemma keeps_finish_transaction id tk b : preserves ok (finish_recoverable_transaction id tk b).
Proof.
  unfold finish_recoverable_transaction. apply preserves_bind; [keep|]. intros now.
  apply preserves_bind.
  - apply (keeps_receipts (λ r, finish tk b now (rl_transaction_receipts r))).
  - intros o. keep.
Qed.
Hint Resolve keeps_begin_transaction keeps_finish_transaction : keeps.

Lemma keeps_run_transaction id k room m t answer body :
  (∀ b, preserves ok (answer b)) → preserves ok body →
  preserves ok (run_transaction id k room m t answer body).
Proof. intros Ha Hb. unfold run_transaction, finish_transaction. keep. Qed.

Lemma keeps_on_success h : preserves ok h → preserves ok (touch_activity_on_success h).
Proof. intros. unfold touch_activity_on_success. keep. Qed.

(** ** Frames *)

Lemma handle_mls_frame_keeps id text frame : preserves ok (handle_mls_frame id text frame).
Proof.
  destruct frame; simpl; (apply preserves_bind; [keep|intros _]);
    first [apply keeps_on_success|apply keeps_run_transaction; [intros ?|]];
    unfold mls_create_room, mls_discover_room, mls_join_request, mls_join_reject,
      mls_leave_request, mls_leave_reject, mls_membership_commit, mls_application,
      mls_state_snapshot, mls_delete_room, send_mls_room_result, send_mls_snapshot_result,
      send_mls_pending, send_mls_catalog; keep.
Qed.
End frames.
