(* ===== verification/MlsApplicationFacts.v ===== *)
(** * One application frame, end to end

    [accept_application] admits the message, checks every recipient's client,
    publishes the staged attachment and commits.  The lemmas give each phase's
    effect on the three stores, on success and on every error. *)

From S2P Require Import Prelude RoomModel RoomValidation RoomDelivery RoomAuthority RoomLifecycle.
From S2P Require Import RoomMembership RoomApplication RoomSizes RoomInvariant.
From S2P Require Import RoomSweep RoomUpdate RoomApplicationFacts RoomReachable RoomFanout.
From S2P Require Import RoomRollback AttachmentAccess AttachmentStore AttachmentStoreFacts.
From S2P Require Import AttachmentTheorems TransportPadding RelayFrame OutboundQueue RateLimit.
From S2P Require Import Relay MlsRelay.

(** ** An admitted application always commits *)

Section commits.
Context {HO : HashOrder}.

Lemma commit_succeeds now id m s r p :
  good s → rooms s !! id = Some r → room_pending_applications r !! m = Some p →
  has_replay (ReplayKey.application m) r = false →
  ∃ s', commit_application now id m s = (Ok tt, s').
Proof.
  intros [Ha He] Hr Hp Hrep. pose proof (ok_rooms _ Ha _ _ Hr) as Hrok.
  pose proof Ha as [HB _]%authority_bounded.
  pose proof (bounded_room_fits _ _ _ _ _ HB Hr) as Hfit.
  destruct (rollback_sizes id r m p Hrok Hfit) as (E1 & _); [|done|].
  { pose proof (total_room_le m_delivery_count s id r ltac:(nonneg) Hr). destruct Ha. lia. }
  destruct (ex_rooms _ He _ _ Hr) as (X1 & _ & _).
  pose proof (map_sum_entry_le pending_bytes_of _ _ _ pending_bytes_nonneg Hp) as Hpb.
  pose proof (total_room_le m_pending_count s id r ltac:(nonneg) Hr) as Tp.
  pose proof (total_room_le m_pending_bytes s id r ltac:(nonneg) Hr) as Tpb.
  assert (1 ≤ map_len (room_pending_applications r)) as Hlen.
  { pose proof (map_len_nonneg (delete m (room_pending_applications r))) as Hd.
    rewrite map_len_delete in Hd. unfold contains_key in Hd. rewrite Hp in Hd. lia. }
  pose proof (ex_pending_count _ He) as G1. pose proof (ex_pending_bytes _ He) as G2.
  unfold m_pending_count, m_pending_bytes in *.
  assert (∃ s1, commit_room now id m s = Ok s1) as [s1 E].
  { unfold commit_room, get_room. rewrite Hr. simpl. rewrite Hp. simpl. rewrite Hrep. simpl.
    rewrite E1. simpl. rewrite (checked_sub_ok (room_pending_bytes r)) by lia. simpl.
    rewrite (checked_sub_ok (global_pending_count s)) by (unfold total in *; lia). simpl.
    rewrite (checked_sub_ok (global_pending_bytes s)) by (unfold total in *; lia). simpl. eauto. }
  unfold commit_application. rewrite E.
  apply commit_room_Ok in E as (r0 & p0 & Hr0 & Hp0 & _ & Es). simpl in Es.
  destruct (trim_ok s1) as (s' & -> & _); [|eauto].
  subst s1. simpl. by eapply put_committed_bounded.
Qed.

(** Right after its admission. *)
Lemma admitted_commits max_rooms ttl now sender p id m g e v d ct ad env self adm s1 now' :
  reachable max_rooms ttl self →
  admit_application_for_platform now sender p id m g e v d ct ad env self = (Ok adm, s1) →
  ∃ s2, commit_application now' id m s1 = (Ok tt, s2).
Proof.
  intros [Hok _]%reachable_ok Hadm.
  pose proof (admit_keeps now sender p id m g e v d ct ad env self Hok) as [Hg1 _].
  rewrite Hadm in Hg1. unfold admit_application_for_platform, after_prune in Hadm.
  destruct (admit_room _ _ _ _ _ _ _ _ _ _ _ _ _) as [[adm0 s1']|e0] eqn:E; [|done].
  injection Hadm as -> ->.
  apply admit_room_Ok in E
    as (r0 & exp & cur & u & roster & rs & db & sb & pb & Hr0 & Hgd & Hrs & Eadm & ER).
  apply admit_guard_Ok in Hgd as (_ & _ & _ & _ & _ & _ & _ & _ & _ & _ & _ & _ & Hrep).
  eapply commit_succeeds; [exact Hg1|by rewrite ER, lookup_insert_eq| |done].
  simpl. rewrite Eadm. simpl. by rewrite lookup_insert_eq.
Qed.

(** What the recipients of an admission are: the other active members. *)
Lemma admitted_recipients now sender p id m g e v d ct ad env self adm s1 c :
  admit_application_for_platform now sender p id m g e v d ct ad env self = (Ok adm, s1) →
  c ∈ aa_recipient_code_ids adm →
  ∃ r u x, rooms (prune_expired now self) !! id = Some r ∧ room_members r !! u = Some x ∧
    mem_code_id x = c ∧ mem_active x = true ∧ c ≠ sender.
Proof.
  intros Hadm Hc. unfold admit_application_for_platform, after_prune in Hadm.
  destruct (admit_room _ _ _ _ _ _ _ _ _ _ _ _ _) as [[adm0 s1']|e0] eqn:E; [|done].
  injection Hadm as -> ->.
  apply admit_room_Ok in E
    as (r & exp & cur & u & roster & rs & db & sb & pb & Hr & _ & Hrs & -> & _).
  simpl in Hc. apply list_elem_of_fmap in Hc as (cr & -> & Hcr).
  destruct (admit_recipients_Ok _ _ _ Hrs) as [HF _].
  apply list_elem_of_lookup in Hcr as [i Hi].
  destruct (Forall2_lookup_r _ _ _ _ _ HF Hi) as (y & Hy & -> & _).
  apply list_elem_of_lookup_2, list_elem_of_filter in Hy as [[Hact Hne] Hy].
  apply elem_of_btree_values in Hy as [k Hk]. by exists r, k, y.
Qed.
End commits.

(** ** The registry's part *)

(** A record waiting under the key of its message. *)
Definition staged_under (key : AttachmentBindingKey) (id : Uuid) (rec : AttachmentRecord)
    (s : AttachmentStore) : Prop :=
  st_bindings s !! key = Some id ∧ st_attachments s !! id = Some rec ∧
  matches_record key rec = true ∧ ar_published rec = false.

(** The record once it is published to the recipients of the application. *)
Definition published_to (recipients : gset CodeId) (rec : AttachmentRecord) : AttachmentRecord :=
  set_ar_staging true None (if destructive rec then set_ar_eligible recipients rec else rec).

(** The time to publish a record is over. *)
Definition staging_over (now : Z) (rec : AttachmentRecord) : Prop :=
  some_and_before now (ar_staged_expires_at_ms rec)
  && none_or_before now (ar_expires_at_ms rec) = false.

Section registry.
Context {HO : HashOrder}.

Lemma staged_lookup_some now owner chat msg s id s1 :
  staged_attachment_for_message now owner chat msg s = (Ok (Some id), s1) →
  ∃ rec, staged_under (mkBindingKey owner chat msg) id rec s1.
Proof.
  unfold staged_attachment_for_message.
  destruct (st_bindings s !! _) as [i|] eqn:Hb; [|done].
  match goal with |- context [staged_action _ _ (st_attachments ?s2 !! i)] => set (s2' := s2) end.
  assert (st_bindings s2' !! mkBindingKey owner chat msg = Some i) as Hb2.
  { subst s2'. destruct (st_attachments s !! i); [|done]. by destruct (matches_record _ _). }
  clearbody s2'. destruct (staged_action _ _ _) eqn:Ha; try done.
  intros E. simplify_eq. unfold staged_action in Ha. unfold staged_under.
  destruct (st_attachments s1 !! id) as [r|]; [|done]. exists r.
  destruct (matches_record _ r) eqn:Hm; simpl in Ha; [|done].
  destruct (ar_published r); [by destruct (_ && _)|]. done.
Qed.

Lemma eligible_key recipients rec key :
  matches_record key (if destructive rec then set_ar_eligible recipients rec else rec)
  = matches_record key rec.
Proof. by destruct (destructive rec). Qed.

(** Binding a staged record to the recipients. *)
Lemma rebind_staged key id rec recipients s :
  staged_under key id rec s →
  (∃ e, rebind_staged_attachment_recipients id recipients s = (Err e, s)) ∨
  ∃ rb, rebind_staged_attachment_recipients id recipients s =
    (Ok rb, set_attachments
       (<[id := if destructive rec then set_ar_eligible recipients rec else rec]>
          (st_attachments s)) s) ∧
    sr_attachment_id rb = id.
Proof.
  intros (_ & Hr & _ & Hp). unfold rebind_staged_attachment_recipients. rewrite Hr, Hp.
  destruct (destructive rec && _); [left; eauto|right].
  eexists (mkStagedRollback id _ _ _ _ _ _). split; [|done].
  destruct (destructive rec); [done|]. rewrite insert_id by done. by destruct s.
Qed.

(** Publishing it: it is published, or its time is over and it is removed. *)
Lemma publish_staged_record now owner chat msg id rec recipients s :
  staged_under (mkBindingKey owner chat msg) id rec s →
  let s2 := set_attachments
    (<[id := if destructive rec then set_ar_eligible recipients rec else rec]>
       (st_attachments s)) s in
  publish_staged_attachment_checked now id owner chat msg s2 =
    (Ok tt, set_attachments (<[id := published_to recipients rec]> (st_attachments s)) s) ∨
  (staging_over now rec ∧ ∃ e,
   publish_staged_attachment_checked now id owner chat msg s2 = (Err e, remove_record id rec s)).
Proof.
  intros (Hb & Hr & Hm & Hp). simpl. unfold publish_staged_attachment_checked. simpl.
  rewrite Hb, bool_decide_false by (intros []; done). rewrite lookup_insert_eq, eligible_key, Hm.
  set (rec1 := if destructive rec then _ else _).
  assert (ar_published rec1 = false) as -> by (by unfold rec1; destruct (destructive rec)).
  assert (ar_staged_expires_at_ms rec1 = ar_staged_expires_at_ms rec) as ->
    by (by unfold rec1; destruct (destructive rec)).
  assert (ar_expires_at_ms rec1 = ar_expires_at_ms rec) as ->
    by (by unfold rec1; destruct (destructive rec)).
  destruct (_ && _) eqn:Hlive.
  - left. unfold set_attachments. simpl. by rewrite insert_insert_eq.
  - right. split; [done|]. eexists. f_equal. unfold remove_record, release_record. simpl.
    rewrite delete_insert_eq. by unfold rec1; destruct (destructive rec).
Qed.

(** A rollback of a record that is gone does nothing. *)
Lemma rollback_removed rb rec s :
  rollback_staged_attachment rb (remove_record (sr_attachment_id rb) rec s)
  = remove_record (sr_attachment_id rb) rec s.
Proof.
  unfold rollback_staged_attachment, remove_record, release_record. simpl.
  by rewrite lookup_delete_eq.
Qed.
End registry.

(** ** The phases of the handler *)

(** Everything but the rooms, the registry and the clock. *)
Definition rest (r : Relay) :=
  (rl_outbound r, rl_accounts r, rl_transaction_receipts r, rl_sessions r,
   rl_transport_sessions r, rl_active_connections r, rl_frame_limits r, rl_rooms r,
   rl_last_activity_ms r).

Section handler.
Context {HO : HashOrder} {B64 : Base64} {ENV : RelayEnv} {JSON : SerdeJson} {FJ : FrameJson}.

Definition rolled_back (f : ApplicationFrame) (a : RoomAuthority) : RoomAuthority :=
  (rollback_application (af_room_id f) (af_message_id f) a).2.

(** One call at a time. *)
Lemma bind_run {A B} (m : Handler A) (k : A → Handler B) r :
  (m ≫= k) r = match m r with (Ok a, r1) => k a r1 | (Err e, r1) => (Err e, r1) end.
Proof. done. Qed.
Lemma tick_run r : tick r = (Ok (now_ms (rl_ticks r)), set_rl_ticks (S (rl_ticks r)) r).
Proof. done. Qed.
Lemma lift_run {A} (x : result string A) r : (lift x : Handler A) r = (x, r).
Proof. done. Qed.
Lemma check_or_undo_run {A} (g : Relay → result string A) u r :
  or_undo (λ r, (g r, r)) u r =
    match g r with Ok a => (Ok a, r) | Err e => (Err e, (u r).2) end.
Proof. unfold or_undo. by destruct (g r). Qed.
Lemma on_rooms_run {A} (g : RoomAuthority → result string A * RoomAuthority) r :
  on_rooms g r = (let '(x, a) := g (rl_mls_rooms r) in (x, set_rl_mls_rooms a r)).
Proof. done. Qed.
Lemma on_attachments_run {A} (g : AttachmentStore → result string A * AttachmentStore) r :
  on_attachments g r = (let '(x, a) := g (rl_attachments r) in (x, set_rl_attachments a r)).
Proof. done. Qed.
Lemma identity_platform_run id r :
  client_identity_and_platform id r =
    match rl_clients r !! id with
    | Some c => (Ok (cl_code_id c, cl_username c, cl_platform c), r)
    | None => (Err "authenticated client required"%string, r)
    end.
Proof.
  unfold client_identity_and_platform. rewrite bind_run. unfold find_client.
  by destruct (rl_clients r !! id).
Qed.

Lemma undo_application_run f r :
  undo_application f r = (Ok tt, set_rl_mls_rooms (rolled_back f (rl_mls_rooms r)) r).
Proof.
  unfold undo_application, attempt, on_rooms, rolled_back. unfold mbind, ST_bind. simpl.
  by destruct (rollback_application _ _ _).
Qed.

Lemma publish_for_cases f sender recipients id rec r x r' :
  staged_under (mkBindingKey sender (af_room_id f) (af_message_id f)) id rec (rl_attachments r) →
  publish_for f sender recipients id r = (x, r') →
  rest r' = rest r ∧ (rl_ticks r ≤ rl_ticks r' ≤ S (rl_ticks r))%nat ∧
  match x with
  | Ok rb =>
      rl_mls_rooms r' = rl_mls_rooms r ∧
      rl_attachments r' = set_attachments
        (<[id := published_to (list_to_set recipients) rec]> (st_attachments (rl_attachments r)))
        (rl_attachments r)
  | Err _ =>
      rl_mls_rooms r' = rolled_back f (rl_mls_rooms r) ∧
      (rl_attachments r' = rl_attachments r ∨
       staging_over (now_ms (rl_ticks r)) rec ∧
       rl_attachments r' = remove_record id rec (rl_attachments r))
  end.
Proof.
  intros Hst. unfold publish_for, or_undo, on_attachments, mbind, ST_bind.
  destruct (rebind_staged _ _ _ (list_to_set recipients) _ Hst) as [[e E]|(rb & E & Erb)];
    rewrite E.
  - rewrite undo_application_run. intros [= <- <-]. simpl. split; [done|]. split; [lia|]. split; [done|].
    left. done.
  - unfold tick. simpl.
    destruct (publish_staged_record (now_ms (rl_ticks r)) sender (af_room_id f) (af_message_id f)
      id rec (list_to_set recipients) (rl_attachments r) Hst) as [Ep|(Hover & e & Ep)];
      simpl in Ep; rewrite Ep.
    + intros [= <- <-]. split; [done|]. split; [simpl; lia|done].
    + rewrite undo_application_run. unfold undo_attachment, modify.
      intros [= <- <-]. simpl. split; [done|]. split; [lia|]. split; [done|]. right.
      split; [done|]. subst id. apply rollback_removed.
Qed.

(** ** The whole acceptance *)

(** The admission call of a decoded frame. *)
Definition admit_frame_call (t : Z) (client : ClientHandle) (f : ApplicationFrame)
    (fields : bytes * bytes * bytes * bytes * bytes) :=
  let '(group_id, membership_digest, ciphertext, authenticated_data, state_envelope) := fields in
  admit_application_for_platform t (cl_code_id client) (cl_platform client) (af_room_id f)
    (af_message_id f) group_id (af_epoch f) (af_revision f) membership_digest ciphertext
    authenticated_data state_envelope.

(** The readings of the clock: at the lookup of the staged record, at the admission
    and, when there is a staged record, at its publication. *)
Definition lookup_time (r : Relay) : Z := now_ms (rl_ticks r).
Definition admission_time (r : Relay) : Z := now_ms (S (rl_ticks r)).
Definition publication_time (r : Relay) : Z := now_ms (S (S (rl_ticks r))).

(** The room can undo an admission of this message: its queues are compact and
    none of their deliveries carries the message identifier. *)
Definition undoable (t : Z) (f : ApplicationFrame) (a : RoomAuthority) : Prop :=
  ∀ room, rooms (prune_expired t a) !! af_room_id f = Some room →
    compacted room ∧ ∀ c x, x ∈ queue_of room c → pd_message_id x ≠ af_message_id f.

Lemma admission_rolled_back max_rooms ttl t client f fields a adm a1 :
  reachable max_rooms ttl a → undoable t f a → admit_frame_call t client f fields a = (Ok adm, a1) →
  rolled_back f a1 = prune_expired t a.
Proof.
  intros Hr Hu Hadm. destruct fields as [[[[g d] ct] ad] env]. simpl in Hadm.
  assert (∃ room, rooms (prune_expired t a) !! af_room_id f = Some room) as [room Hroom].
  { unfold admit_application_for_platform, after_prune in Hadm.
    destruct (admit_room _ _ _ _ _ _ _ _ _ _ _ _ _) as [[adm0 a1']|e0] eqn:E; [|done].
    apply admit_room_Ok in E as (room & _ & _ & _ & _ & _ & _ & _ & _ & Hroom & _). eauto. }
  destruct (Hu room Hroom) as [Hc Hf]. unfold rolled_back.
  by rewrite (admission_undone max_rooms ttl _ _ _ _ _ _ _ _ _ _ _ _ _ _ _ room Hr Hadm).
Qed.

Lemma admission_refused_swept t client f fields a e a1 :
  admit_frame_call t client f fields a = (Err e, a1) → a1 = prune_expired t a.
Proof.
  destruct fields as [[[[g d] ct] ad] env]. simpl.
  unfold admit_application_for_platform, after_prune.
  destruct (admit_room _ _ _ _ _ _ _ _ _ _ _ _ _) as [[? ?]|?]; naive_solver.
Qed.

(** What happened before the attachment is published. *)
Record admitted_phase (sender_id : Uuid) (f : ApplicationFrame) (r : Relay) (client : ClientHandle)
    (staged : option Uuid) (adm : ApplicationAdmission) (r2 : Relay) : Prop := mkPhase {
  ph_client : rl_clients r !! sender_id = Some client;
  ph_staged : staged_attachment_for_message (lookup_time r) (cl_code_id client) (af_room_id f)
    (af_message_id f) (rl_attachments r) = (Ok staged, rl_attachments r2);
  ph_admitted : ∃ fields, decode_application f = Ok fields ∧
    admit_frame_call (admission_time r) client f fields (rl_mls_rooms r) = (Ok adm, rl_mls_rooms r2);
  ph_platforms : require_recipient_code_platforms (cl_platform client) (aa_recipient_code_ids adm)
    (rl_accounts r) = Ok tt;
  ph_rest : rest r2 = rest r;
  ph_ticks : rl_ticks r2 = S (S (rl_ticks r))
}.

(** What a refusal leaves of the rooms: as they were, swept at the admission, or
    with the message admitted and taken back by the rollback. *)
Inductive rooms_left (sender_id : Uuid) (f : ApplicationFrame) (r : Relay) : RoomAuthority → Prop :=
| RoomsAlone : rooms_left sender_id f r (rl_mls_rooms r)
| RoomsSwept : rooms_left sender_id f r (prune_expired (admission_time r) (rl_mls_rooms r))
| RoomsTakenBack client fields adm a1 :
    rl_clients r !! sender_id = Some client → decode_application f = Ok fields →
    admit_frame_call (admission_time r) client f fields (rl_mls_rooms r) = (Ok adm, a1) →
    rooms_left sender_id f r (rolled_back f a1).

(** When the admission can be undone, a refusal leaves the rooms as they were, up to
    what had expired when the message was admitted. *)
Lemma rooms_left_undone max_rooms ttl sender_id f r a :
  reachable max_rooms ttl (rl_mls_rooms r) → undoable (admission_time r) f (rl_mls_rooms r) →
  rooms_left sender_id f r a →
  a = rl_mls_rooms r ∨ a = prune_expired (admission_time r) (rl_mls_rooms r).
Proof.
  intros Hr Hu [| |client fields adm a1 _ _ Hadm]; [by left|by right|right].
  by eapply admission_rolled_back.
Qed.

(** What a refusal before the publication leaves. *)
Definition refused_early (sender_id : Uuid) (f : ApplicationFrame) (r r' : Relay) : Prop :=
  rest r' = rest r ∧ rooms_left sender_id f r (rl_mls_rooms r') ∧
  (rl_attachments r' = rl_attachments r ∨
   ∃ client x, rl_clients r !! sender_id = Some client ∧
     staged_attachment_for_message (lookup_time r) (cl_code_id client) (af_room_id f)
       (af_message_id f) (rl_attachments r) = (x, rl_attachments r')).

Definition after_publication (f : ApplicationFrame) (client : ClientHandle) (staged : option Uuid)
    (adm : ApplicationAdmission) : Handler ApplicationAdmission :=
  attachment_rollback ← publish_staged f (cl_code_id client) (aa_recipient_code_ids adm) staged;
  t2 ← tick;
  _ ← or_undo
    (on_rooms (commit_application t2 (af_room_id f) (af_message_id f)))
    (_ ← undo_application f;
     match attachment_rollback with
     | Some rollback => undo_attachment rollback
     | None => mret tt
     end);
  mret adm.

Ltac early := left; eexists _, _; split; [reflexivity|]; split; [reflexivity|split].

Lemma accept_application_phases sender_id f r :
  (∃ e r', accept_application sender_id f r = (Err e, r') ∧ refused_early sender_id f r r') ∨
  ∃ client staged adm r2, admitted_phase sender_id f r client staged adm r2 ∧
    accept_application sender_id f r = after_publication f client staged adm r2.
Proof.
  unfold accept_application. rewrite bind_run, identity_platform_run.
  destruct (rl_clients r !! sender_id) as [client|] eqn:Hcl; cbv beta iota;
    [|early; [exact (RoomsAlone sender_id f r)|by left]].
  rewrite bind_run, tick_run. cbv beta iota. rewrite bind_run, on_attachments_run.
  cbn [rl_attachments set_rl_ticks]. change (now_ms (rl_ticks r)) with (lookup_time r).
  destruct (staged_attachment_for_message _ _ _ _ _) as [[staged|e] s1] eqn:Es; cbv beta iota;
    [|early; [exact (RoomsAlone sender_id f r)|right; eauto]].
  rewrite bind_run, lift_run.
  destruct (decode_application f) as [fields|e] eqn:Ed; cbv beta iota;
    [|early; [exact (RoomsAlone sender_id f r)|right; eauto]].
  destruct fields as [[[[g d] ct] ad] env]. rewrite bind_run, tick_run. cbv beta iota.
  rewrite bind_run, on_rooms_run. cbn [rl_mls_rooms set_rl_ticks set_rl_attachments rl_ticks].
  change (now_ms _) with (admission_time r).
  destruct (admit_application_for_platform _ _ _ _ _ _ _ _ _ _ _ _ _) as [[adm|e] a1] eqn:Ea;
    cbv beta iota.
  2: { early; [|right; eauto]. cbn [rl_mls_rooms set_rl_mls_rooms].
       rewrite (admission_refused_swept (admission_time r) client f (g, d, ct, ad, env) _ _ _ Ea).
       constructor. }
  rewrite bind_run, check_or_undo_run. cbv beta.
  cbn [rl_accounts set_rl_ticks set_rl_attachments set_rl_mls_rooms].
  destruct (require_recipient_code_platforms _ _ _) as [[]|e] eqn:Ep; cbv beta iota.
  2: { rewrite undo_application_run. early; [|right; eauto].
       exact (RoomsTakenBack _ _ _ _ (g, d, ct, ad, env) _ _ Hcl Ed Ea). }
  right. exists client, staged, adm, (set_rl_mls_rooms a1 (set_rl_ticks (S (S (rl_ticks r)))
    (set_rl_attachments s1 (set_rl_ticks (S (rl_ticks r)) r)))).
  split; [|reflexivity].
  split; simpl; eauto.
Qed.
End handler.
