(* ===== verification/RelayRun.v ===== *)
(** * Receipts and runs of the relay

    Room frames touch the receipts only through [begin] and [finish], so what
    these keep of a receipt is kept by any sequence of frames: a commit, an
    application or a snapshot that was decided is answered from its receipt. *)

From S2P Require Import Prelude MlsWire TransactionReceipts RoomModel RoomAuthority RoomLifecycle.
From S2P Require Import RoomMembership RoomApplication RoomSnapshot RoomInvariant.
From S2P Require Import RoomReachable TransportPadding AttachmentAccess AttachmentStore.
From S2P Require Import AttachmentStoreFacts AttachmentTheorems RelayFrame OutboundQueue.
From S2P Require Import OutboundFacts OutboundTheorems RateLimit Relay MlsRelay MlsDispatch.
From S2P Require Import RelayFacts MlsApplicationFacts.

Section receipts.
Context {HO : HashOrder} {B64 : Base64} {ENV : RelayEnv} {JSON : SerdeJson} {FJ : FrameJson}.

Section kept.
(** A property of the clock and the receipts, kept by what happens at a reading. *)
Context (R : nat → TransactionReceiptStore → Prop).
Context (R_tick : ∀ n s, R n s → R (S n) s).
Context (R_begin : ∀ key f n s, R n s → R (S n) (begin sha256_text key f (now_ms n) s).2).
Context (R_finish : ∀ tk a n s, R n s → R (S n) (finish tk a (now_ms n) s).2).

Definition receipts_kept (r : Relay) : Prop := R (rl_ticks r) (rl_transaction_receipts r).
Abbreviation kept := receipts_kept.

Lemma kept_on_rooms {A} (f : RoomAuthority → result string A * RoomAuthority) :
  preserves kept (on_rooms f).
Proof. intros r Hr. rewrite on_rooms_run. by destruct (f _). Qed.
Lemma kept_ask_rooms {A} (f : RoomAuthority → A * RoomAuthority) : preserves kept (ask_rooms f).
Proof. intros r Hr. unfold ask_rooms. by destruct (f _). Qed.
Lemma kept_on_attachments {A} (f : AttachmentStore → result string A * AttachmentStore) :
  preserves kept (on_attachments f).
Proof. intros r Hr. rewrite on_attachments_run. by destruct (f _). Qed.
Lemma kept_set_attachments f :
  preserves kept (modify (λ r, set_rl_attachments (f r) r)).
Proof. by intros r Hr. Qed.
Lemma kept_tick : preserves kept tick.
Proof. intros r Hr. by apply R_tick. Qed.
Lemma kept_touch : preserves kept touch_activity.
Proof. intros r Hr. by apply R_tick. Qed.
Lemma kept_find_client id : preserves kept (find_client id).
Proof. by intros r. Qed.
Lemma kept_client_ids c : preserves kept (active_client_ids_for_code c).
Proof. by intros r. Qed.
Lemma kept_send_frame initial f id : preserves kept (queue_frame initial f id).
Proof. by intros r. Qed.
Lemma kept_send_result id f : preserves kept (send_result id f).
Proof. intros r Hr. unfold send_result. destruct (send_client_result _ _ _ _ _). by apply R_tick. Qed.
Lemma kept_authenticated c e : preserves kept (authenticated_mls_identity c e).
Proof. apply preserves_read. Qed.
Hint Resolve kept_on_rooms kept_ask_rooms kept_on_attachments kept_set_attachments kept_tick
  kept_touch kept_find_client kept_client_ids kept_send_frame kept_send_result
  kept_authenticated : keeps.

Lemma kept_send f id : preserves kept (send f id).
Proof. apply kept_send_frame. Qed.
Lemma kept_identity id : preserves kept (client_identity id).
Proof. unfold client_identity. keep. Qed.
Lemma kept_identity_platform id : preserves kept (client_identity_and_platform id).
Proof. unfold client_identity_and_platform. keep. Qed.
Lemma kept_undo_attachment rb : preserves kept (undo_attachment rb).
Proof. by intros r. Qed.
Hint Resolve kept_send kept_identity kept_identity_platform kept_undo_attachment : keeps.

Lemma kept_broadcast f : preserves kept (broadcast_to_all f).
Proof.
  intros r Hr. assert (∀ l, preserves kept (for_each l (send f))) as H by (intros; keep).
  by apply H.
Qed.
Lemma kept_public_frame : preserves kept mls_public_catalog_frame.
Proof. unfold mls_public_catalog_frame. keep. Qed.
Lemma kept_send_delivery d : preserves kept (send_mls_delivery d).
Proof. unfold send_mls_delivery. keep. Qed.
Lemma kept_pending_deliveries p c rooms : preserves kept (pending_deliveries p c rooms).
Proof. induction rooms as [|i rooms IH]; simpl; keep. Qed.
Hint Resolve kept_broadcast kept_public_frame kept_send_delivery kept_pending_deliveries : keeps.
Lemma kept_member_deliveries id m c : preserves kept (send_member_deliveries id m c).
Proof. unfold send_member_deliveries. keep. Qed.
Lemma kept_pending initial id c : preserves kept (send_mls_pending_inner initial id c).
Proof.
  intros r Hr. unfold send_mls_pending_inner. destruct (rl_clients r !! id) as [cl|]; [|done].
  revert r Hr. change (preserves kept
    (t ← tick; rooms ← ask_rooms (rooms_for_member t c);
     deliveries ← pending_deliveries (cl_platform cl) c rooms;
     for_each deliveries (λ d, queue_frame initial (mls_delivery_frame d) id))). keep.
Qed.
Lemma kept_catalog initial id c : preserves kept (send_mls_catalog_inner initial id c).
Proof. unfold send_mls_catalog_inner. keep. Qed.
Lemma kept_undo_application f : preserves kept (undo_application f).
Proof. unfold undo_application. keep. Qed.
Hint Resolve kept_member_deliveries kept_pending kept_catalog kept_undo_application : keeps.

(** The handlers of the room frames. *)
Lemma kept_application id f : preserves kept (mls_application id f).
Proof. unfold mls_application, accept_application, publish_staged, publish_for. keep. Qed.
Lemma kept_commit id f : preserves kept (mls_membership_commit id f).
Proof. unfold mls_membership_commit, room_code_ids, dismiss_member. keep. Qed.
Lemma kept_snapshot id room m e v d env : preserves kept (mls_state_snapshot id room m e v d env).
Proof. unfold mls_state_snapshot, send_mls_pending, send_mls_catalog. keep. Qed.
Hint Resolve kept_application kept_commit kept_snapshot : keeps.

(** Connections. *)
Lemma kept_replace c : preserves kept (replace_connected_clients_for_code c).
Proof.
  intros r Hr. unfold replace_connected_clients_for_code. case_bool_decide; [done|].
  by apply kept_broadcast.
Qed.
Lemma kept_invalidate id : preserves kept (invalidate_client_connection id).
Proof.
  intros r Hr. unfold invalidate_client_connection. destruct (rl_clients r !! id); [|done].
  by apply kept_replace.
Qed.
Lemma kept_cleanup id : preserves kept (cleanup_client id).
Proof. intros r Hr. unfold cleanup_client. destruct (rl_clients r !! id); by apply kept_broadcast. Qed.
Hint Resolve kept_invalidate : keeps.

(** Transactions read the clock first. *)
Lemma kept_begin id k c m t : preserves kept (begin_recoverable_transaction id k c m t).
Proof.
  unfold begin_recoverable_transaction. apply preserves_bind; [keep|]. intros [a u] r Hr.
  rewrite bind_run, tick_run. cbv beta iota.
  pose proof (R_begin (mkTransactionKey a k c m) t _ _ Hr) as H. rewrite bind_run.
  cbn [rl_transaction_receipts set_rl_ticks]. destruct (begin _ _ _ _ _) as [x s]. cbv beta iota.
  match goal with |- kept (?k ?r1).2 => assert (preserves kept k) as Hk by keep; apply Hk, H end.
Qed.
Lemma kept_finish id tk b : preserves kept (finish_recoverable_transaction id tk b).
Proof.
  unfold finish_recoverable_transaction. intros r Hr. rewrite bind_run, tick_run. cbv beta iota.
  pose proof (R_finish tk b _ _ Hr) as H. rewrite bind_run.
  cbn [rl_transaction_receipts set_rl_ticks]. destruct (finish _ _ _ _) as [x s]. cbv beta iota.
  match goal with |- kept (?k ?r1).2 => assert (preserves kept k) as Hk by keep; apply Hk, H end.
Qed.
Hint Resolve kept_begin kept_finish : keeps.

Lemma kept_run_transaction id k room m t answer body :
  (∀ b, preserves kept (answer b)) → preserves kept body →
  preserves kept (run_transaction id k room m t answer body).
Proof. intros Ha Hb. unfold run_transaction, finish_transaction. keep. Qed.

Lemma kept_frame id text frame : preserves kept (handle_mls_frame id text frame).
Proof.
  destruct frame; simpl; (apply preserves_bind; [keep|intros _]);
    first [apply kept_run_transaction; [intros ?|]|unfold touch_activity_on_success];
    unfold mls_create_room, mls_discover_room, mls_join_request, mls_join_reject,
      mls_leave_request, mls_leave_reject, mls_delete_room, room_code_ids,
      broadcast_mls_public_catalog, send_mls_room_result, send_mls_snapshot_result,
      send_mls_public_catalog, send_mls_public_catalog_inner; keep.
Qed.

Lemma kept_initial_snapshot id c directs : preserves kept (send_initial_snapshot id c directs).
Proof.
  unfold send_initial_snapshot, send_initial_mls_catalog, send_initial_mls_public_catalog,
    send_mls_public_catalog_inner, send_initial_mls_pending, send_initial_mls_pending_joins,
    send_mls_pending_joins_inner, send_initial_mls_pending_leaves, send_mls_pending_leaves_inner.
  apply preserves_bind; [by intros r|intros _]. keep. by intros r.
Qed.
End kept.
End receipts.

(** * Runs of the relay

    A run interleaves room frames of any clients, the snapshots of new
    connections, disconnections, the steps of the writer tasks, the attachment
    requests and logins.  Every run keeps the three stores well formed, and a
    transactional frame that was decided is never run again. *)

Section runs.
Context {HO : HashOrder} {B64 : Base64} {ENV : RelayEnv} {JSON : SerdeJson} {FJ : FrameJson}.

(** The relay after its start. *)
Definition relay_new (max_rooms pending_ttl receipt_ttl now : Z) : Relay :=
  mkRelay (new_with_pending_ttl max_rooms pending_ttl) store_new outbound_new ∅
    (TransactionReceipts.new receipt_ttl) ∅ ∅ ∅ ∅ ∅ now 0.

Inductive relay_step (limits : AttachmentLimits) (r : Relay) : Relay → Prop :=
| RunFrame id text frame : relay_step limits r (handle_mls_frame id text frame r).2
| RunSnapshot id code directs : relay_step limits r (send_initial_snapshot id code directs r).2
| RunGone id : relay_step limits r (cleanup_client id r).2
| RunQueue op : queue_op_fresh op (rl_outbound r) →
    relay_step limits r (set_rl_outbound (queue_step op (rl_outbound r)) r)
| RunAttachment s : some_step limits (rl_attachments r) s →
    relay_step limits r (set_rl_attachments s r)
| RunLogin accounts sessions transports active frame_limits rooms :
    relay_step limits r
      (set_rl_connections accounts sessions transports active frame_limits rooms r).

(** ** The stores stay well formed *)

Lemma keeps_initial_snapshot max_rooms ttl limits id c directs :
  preserves (relay_ok max_rooms ttl limits) (send_initial_snapshot id c directs).
Proof.
  unfold send_initial_snapshot, send_initial_mls_catalog, send_initial_mls_public_catalog,
    send_initial_mls_pending, send_initial_mls_pending_joins, send_initial_mls_pending_leaves.
  apply preserves_bind; [intros r; apply keeps_send_frame|intros _].
  repeat (apply preserves_bind; [eauto using keeps_catalog, keeps_public, keeps_pending,
    keeps_pending_joins, keeps_pending_leaves, keeps_send_frame|intros _]).
  by apply (keeps_queue _ _ _ (OpCommit id)).
Qed.

Lemma relay_step_ok max_rooms ttl limits r r' :
  relay_ok max_rooms ttl limits r → relay_step limits r r' → relay_ok max_rooms ttl limits r'.
Proof.
  intros Hok [id text frame|id code directs|id|op Hf|s Hs|].
  - by apply handle_mls_frame_keeps.
  - by apply keeps_initial_snapshot.
  - by apply keeps_cleanup.
  - destruct Hok. split; simpl; [done|done|by apply queue_next].
  - destruct Hok. split; simpl; [done|by eapply rtc_r|done].
  - by eapply ok_same_parts; [..|exact Hok].
Qed.

(** Whatever frames, connections, writer steps, attachment requests and
    logins a relay has served since its start, in whatever order and with
    whatever clock readings, its rooms are well formed and within their limits,
    its attachments are indexed, charged and limited correctly, and its
    outbound counters are exact. *)
Theorem relay_invariant max_rooms pending_ttl receipt_ttl now limits r :
  limits_sane limits →
  rtc (relay_step limits) (relay_new max_rooms pending_ttl receipt_ttl now) r →
  authority_ok (rl_mls_rooms r) ∧ store_ok limits (rl_attachments r) ∧
  outbound_ok (rl_outbound r).
Proof.
  intros Hl Hrun.
  assert (relay_ok max_rooms pending_ttl limits r) as [H1 H2 H3].
  { refine (rtc_ind_r (relay_ok max_rooms pending_ttl limits) _ _ _ _ Hrun).
    - split; [apply reach_new|apply rtc_refl|apply queue_start].
    - intros ? ? _ Hs Hok. by eapply relay_step_ok. }
  apply reachable_ok in H1 as [H1 _]. apply queue_reachable_ok in H3.
  by destruct (attachments_reachable_ok _ _ Hl H2) as [H4 _].
Qed.

(** ** Transactional frames run once *)

(** The commit, application and snapshot frames: what identifies the
    transaction, what answers it, what it runs. *)
Definition frame_transaction (frame : InboundFrame.t)
    : option (TransactionKind * string * string) :=
  match frame with
  | InboundFrame.MlsMembershipCommit _ f => Some (TransactionReceipts.MlsRoom, cf_room_id f, cf_message_id f)
  | InboundFrame.MlsApplication _ f => Some (TransactionReceipts.MlsRoom, af_room_id f, af_message_id f)
  | InboundFrame.MlsStateSnapshot _ room message _ _ _ _ => Some (TransactionReceipts.MlsSnapshot, room, message)
  | _ => None
  end.
Definition frame_answer (sender : Uuid) (frame : InboundFrame.t) (accepted : bool) : Handler () :=
  match frame with
  | InboundFrame.MlsMembershipCommit _ f =>
      send_mls_room_result sender (cf_room_id f) (cf_message_id f) (cf_revision f) accepted
  | InboundFrame.MlsApplication _ f =>
      send_mls_room_result sender (af_room_id f) (af_message_id f) (af_revision f) accepted
  | InboundFrame.MlsStateSnapshot _ room message _ revision _ _ =>
      send_mls_snapshot_result sender room message revision accepted
  | _ => mret tt
  end.
Definition frame_body (sender : Uuid) (frame : InboundFrame.t) : Handler () :=
  match frame with
  | InboundFrame.MlsMembershipCommit _ f => mls_membership_commit sender f
  | InboundFrame.MlsApplication _ f => mls_application sender f
  | InboundFrame.MlsStateSnapshot _ room message epoch revision digest envelope =>
      mls_state_snapshot sender room message epoch revision digest envelope
  | _ => mret tt
  end.

Lemma transaction_frame text frame kind room message :
  frame_transaction frame = Some (kind, room, message) →
  ∃ version, ∀ sender, handle_mls_frame sender text frame =
    (_ ← lift (require_mls_protocol_version version);
     run_transaction sender kind room message text (frame_answer sender frame)
       (frame_body sender frame)).
Proof. destruct frame; simpl; intros [= <- <- <-]; eauto. Qed.

(** Neither the answer nor the body touches the receipts. *)
Lemma answer_receipts sender frame b r :
  rl_transaction_receipts (frame_answer sender frame b r).2 = rl_transaction_receipts r.
Proof.
  assert (preserves (receipts_kept (λ _ s, s = rl_transaction_receipts r))
    (frame_answer sender frame b)) as H; [|by apply (H r)].
  destruct frame; simpl; try apply preserves_ret; by apply kept_send_result.
Qed.
Lemma body_receipts sender frame r :
  rl_transaction_receipts (frame_body sender frame r).2 = rl_transaction_receipts r.
Proof.
  assert (preserves (receipts_kept (λ _ s, s = rl_transaction_receipts r)) (frame_body sender frame))
    as H; [|by apply (H r)].
  destruct frame; simpl; try apply preserves_ret.
  - by apply kept_commit.
  - by apply kept_application.
  - by apply kept_snapshot.
Qed.

Lemma body_ticks sender frame r : (rl_ticks r ≤ rl_ticks (frame_body sender frame r).2)%nat.
Proof.
  assert (preserves (receipts_kept (λ n _, (rl_ticks r ≤ n)%nat)) (frame_body sender frame)) as H;
    [|apply (H r); red; lia].
  destruct frame; simpl; try apply preserves_ret.
  - apply kept_commit; intros; lia.
  - apply kept_application; intros; lia.
  - apply kept_snapshot; intros; lia.
Qed.

(** The reservation, when it does not fail. *)
Definition reserved (o : BeginOutcome) : option RecoverableTransaction :=
  match o with
  | Execute ticket => Some (RtExecute ticket)
  | Replay accepted => Some (RtReplay accepted)
  | CapacityExceeded => Some RtRejectForCapacity
  | InProgress => None
  end.
Lemma begin_transaction_run sender kind room message text r client o tr s :
  rl_clients r !! sender = Some client →
  begin sha256_text (mkTransactionKey (cl_code_id client) kind room message) text
    (now_ms (rl_ticks r)) (rl_transaction_receipts r) = (Ok o, s) →
  reserved o = Some tr →
  begin_recoverable_transaction sender kind room message text r =
    (Ok tr, set_rl_receipts s (set_rl_ticks (S (rl_ticks r)) r)).
Proof.
  intros Hcl Hb Ho. unfold begin_recoverable_transaction, client_identity, find_client.
  rewrite !bind_run, Hcl. cbn [ok_or]. unfold mret, ST_ret. cbv beta iota.
  rewrite bind_run, tick_run. cbv beta iota. rewrite bind_run.
  cbn [rl_transaction_receipts set_rl_ticks]. rewrite Hb.
  destruct o; by inversion Ho.
Qed.

(** The decision of a transaction that is still open. *)
Lemma finish_transaction_run sender ticket acc r rc :
  receipts (rl_transaction_receipts r) !! ticket_key ticket = Some rc →
  frame_digest rc = ticket_digest ticket → accepted rc = None →
  finish_recoverable_transaction sender ticket acc r =
    (Ok tt, set_rl_receipts
       (set_receipts
          (<[ticket_key ticket := mkReceipt (frame_digest rc) (Some acc)
               (saturating_add u64_MAX (now_ms (rl_ticks r))
                  (terminal_ttl_ms (rl_transaction_receipts r)))]>
             (receipts (rl_transaction_receipts r))) (rl_transaction_receipts r))
       (set_rl_ticks (S (rl_ticks r)) r)).
Proof.
  intros Hr Hd Ha. unfold finish_recoverable_transaction. rewrite bind_run, tick_run. cbv beta iota.
  rewrite bind_run. cbn [rl_transaction_receipts set_rl_ticks]. unfold finish.
  rewrite Hr, bool_decide_true, bool_decide_false; [done| |done].
  rewrite Ha. by intros [? ?].
Qed.

(** The relay when the first run of a frame starts: the clock was read and the
    transaction is reserved. *)
Definition begun (key : TransactionKey) (text : string) (r : Relay) : Relay :=
  set_rl_receipts
    (begin sha256_text key text (now_ms (rl_ticks r)) (rl_transaction_receipts r)).2
    (set_rl_ticks (S (rl_ticks r)) r).

(** The readings from the [first] to before [last] lie in one window of the
    lifetime of receipts. *)
Section once.
Context (lo ttl : Z) (first last : nat).
Context (clock : ∀ n, (first ≤ n < last)%nat → lo ≤ now_ms n < saturating_add u64_MAX lo ttl).
Abbreviation deadline := (saturating_add u64_MAX lo ttl).

Definition decided (key : TransactionKey) (text : string) (acc : bool)
    (s : TransactionReceiptStore) : Prop :=
  held key (sha256_text text) deadline (Some acc) s ∧ terminal_ttl_ms s = ttl.
(** The transaction stays decided up to the last reading. *)
Definition remembered (key : TransactionKey) (text : string) (acc : bool) (n : nat)
    (s : TransactionReceiptStore) : Prop :=
  (first ≤ n)%nat ∧ ((n ≤ last)%nat → decided key text acc s).

Lemma remembered_tick k t acc n s : remembered k t acc n s → remembered k t acc (S n) s.
Proof. intros [H1 H2]. split; [lia|]. intros Hn. apply H2. lia. Qed.
Lemma remembered_begin k t acc key f n s :
  remembered k t acc n s → remembered k t acc (S n) (begin sha256_text key f (now_ms n) s).2.
Proof.
  intros [H1 H2]. split; [lia|]. intros Hn. destruct H2 as [Hh Ht]; [lia|].
  pose proof (clock n ltac:(lia)). split; [apply begin_held; [done|lia]|].
  pose proof (ttl_preserved sha256_text (CBegin key f (now_ms n)) s) as E. simpl in E.
  destruct (begin _ _ _ _ _). simpl in *. congruence.
Qed.
Lemma remembered_finish k t acc tk a n s :
  remembered k t acc n s → remembered k t acc (S n) (finish tk a (now_ms n) s).2.
Proof.
  intros [H1 H2]. split; [lia|]. intros Hn. destruct H2 as [Hh Ht]; [lia|].
  pose proof (clock n ltac:(lia)). split.
  - apply finish_held; [done|]. rewrite Ht. unfold saturating_add in *. lia.
  - pose proof (ttl_preserved sha256_text (CFinish tk a (now_ms n)) s) as E. simpl in E.
    destruct (finish _ _ _ _). simpl in *. congruence.
Qed.

(** A decided frame is answered and nothing else happens. *)
Lemma decided_replayed sender text frame kind room message acc client version r :
  frame_transaction frame = Some (kind, room, message) →
  require_mls_protocol_version version = Ok tt →
  valid_mls_correlator room && valid_mls_correlator message = true →
  rl_clients r !! sender = Some client → (first ≤ rl_ticks r < last)%nat →
  decided (mkTransactionKey (cl_code_id client) kind room message) text acc
    (rl_transaction_receipts r) →
  (_ ← lift (require_mls_protocol_version version);
   run_transaction sender kind room message text (frame_answer sender frame)
     (frame_body sender frame)) r =
  frame_answer sender frame acc
    (set_rl_receipts (remove_expired (now_ms (rl_ticks r)) (rl_transaction_receipts r))
       (set_rl_ticks (S (rl_ticks r)) r)).
Proof.
  intros Hf Hv Hc Hcl Hn [Hh _]. rewrite bind_run, lift_run, Hv. cbv beta iota.
  unfold run_transaction. rewrite Hc. cbn [negb]. rewrite bind_run.
  pose proof Hh as (rc & Hr & Hd & Hdl & Hout). pose proof (clock (rl_ticks r) Hn) as Ht.
  erewrite (begin_transaction_run sender kind room message text r client (Replay acc)
    (RtReplay acc)); [reflexivity|done| |done].
  unfold begin. rewrite (proj2 (remove_expired_lookup (now_ms (rl_ticks r)) _ _ rc)) by (split; [done|lia]).
  rewrite bool_decide_false by (rewrite Hd; intros []; done). by rewrite (Hout acc eq_refl).
Qed.

(** Running the body decides the transaction. *)
Lemma execution_decides sender text frame key expiry r0 y r1 :
  receipts (rl_transaction_receipts r0) !! key =
    Some (mkReceipt (sha256_text text) None expiry) →
  terminal_ttl_ms (rl_transaction_receipts r0) = ttl → (first ≤ rl_ticks r0)%nat →
  (res ← attempt (frame_body sender frame);
   finish_transaction sender (mkTicket key (sha256_text text)) (frame_answer sender frame)
     (is_ok res)) r0 = (y, r1) →
  remembered key text (is_ok (frame_body sender frame r0).1) (rl_ticks r1)
    (rl_transaction_receipts r1).
Proof.
  intros Hk Httl Hfirst. rewrite bind_run. unfold attempt.
  pose proof (body_receipts sender frame r0) as Hbody.
  pose proof (body_ticks sender frame r0) as Hticks.
  destruct (frame_body sender frame r0) as [x rb]. simpl in Hbody, Hticks. cbv beta iota.
  unfold finish_transaction. rewrite bind_run.
  erewrite (finish_transaction_run sender (mkTicket key (sha256_text text)) _ rb);
    [|by rewrite Hbody|done|done]. cbv beta iota. rewrite bind_run.
  match goal with |- context [frame_answer _ _ _ ?rf] => set (r2 := rf) end. intros E.
  assert (remembered key text (is_ok x) (rl_ticks r2) (rl_transaction_receipts r2)) as H2.
  { split; [unfold r2; simpl; lia|]. unfold r2. simpl. intros Hn. rewrite Hbody. split; [|done].
    eexists. simpl. rewrite lookup_insert_eq. split; [done|]. simpl. split; [done|].
    rewrite Httl. pose proof (clock (rl_ticks rb) ltac:(lia)). unfold saturating_add in *.
    split; [lia|]. by intros b [= <-]. }
  clearbody r2.
  assert (preserves (receipts_kept (remembered key text (is_ok x)))
            (_ ← frame_answer sender frame (is_ok x);
             if is_ok x then touch_activity else mret tt)) as Hk2.
  { apply preserves_bind; [|intros _; destruct (is_ok x);
      [apply kept_touch, remembered_tick|apply preserves_ret]].
    destruct frame; simpl; try apply preserves_ret; apply kept_send_result, remembered_tick. }
  specialize (Hk2 r2 H2). rewrite bind_run, E in Hk2. exact Hk2.
Qed.

(** The first run of a frame decides it, unless the receipts were full. *)
Lemma first_run_decides sender text frame kind room message client version r0 y r1 :
  let key := mkTransactionKey (cl_code_id client) kind room message in
  rl_clients r0 !! sender = Some client → terminal_ttl_ms (rl_transaction_receipts r0) = ttl →
  rl_ticks r0 = first → receipts (rl_transaction_receipts r0) !! key = None →
  (_ ← lift (require_mls_protocol_version version);
   run_transaction sender kind room message text (frame_answer sender frame)
     (frame_body sender frame)) r0 = (y, r1) →
  is_Some (receipts (rl_transaction_receipts r1) !! key) →
  require_mls_protocol_version version = Ok tt ∧
  valid_mls_correlator room && valid_mls_correlator message = true ∧
  remembered key text (is_ok (frame_body sender frame (begun key text r0)).1) (rl_ticks r1)
    (rl_transaction_receipts r1).
Proof.
  intros key Hcl Httl Hfirst Hk. rewrite bind_run, lift_run.
  destruct (require_mls_protocol_version version) as [[]|].
  2:{ intros [= <- <-] [? ?]. congruence. }
  cbv beta iota. unfold run_transaction. destruct (valid_mls_correlator room && _); cbn [negb].
  2:{ intros [= <- <-] [? ?]. congruence. }
  rewrite bind_run. set (t := now_ms (rl_ticks r0)).
  assert (receipts (remove_expired t (rl_transaction_receipts r0)) !! key = None) as Hk'.
  { apply eq_None_not_Some. intros [rc [Hrc _]%remove_expired_lookup]. congruence. }
  destruct (begin sha256_text key text t (rl_transaction_receipts r0)) as [x s] eqn:Hb.
  pose proof Hb as Hb'. unfold begin in Hb'. rewrite Hk' in Hb'.
  destruct (_ || _) in Hb'; injection Hb' as <- <-.
  - erewrite begin_transaction_run; [|done..]. cbv beta iota. intros E [rc Hrc].
    match type of E with frame_answer _ _ _ ?r2 = _ =>
      pose proof (answer_receipts sender frame false r2) as Ha end.
    rewrite E in Ha. simpl in Ha. congruence.
  - erewrite begin_transaction_run; [|done..]. cbv beta iota. intros E _.
    split; [done|]. split; [done|]. unfold begun. fold t. rewrite Hb. cbn [snd].
    eapply execution_decides; [..|exact E]; simpl; [by rewrite lookup_insert_eq|done|lia].
Qed.
End once.
End runs.
