(* ===== verification/IdentityBundle.v ===== *)
(** * Public identities and what they sign (rust-core/src/secure_protocol.rs, auth.rs)

    An identity bundle is a Curve25519 key, an Ed25519 key, a pool of one-time
    keys and a fallback key.  The relay checks bundles before it stores or
    routes them, names one-time keys by a digest, and verifies the signatures
    of messages, acknowledgements and identity states over length-prefixed
    transcripts.  The curves are those of the [vodozemac] crate and a parameter. *)

From S2P Require Import Prelude TransportWire RoomModel RoomValidation AttachmentBlob Relay.

Definition ONE_TIME_KEY_BYTES : Z := 32.
Definition PREKEY_POOL_SIZE_V9 : Z := 16.
Definition ONE_TIME_KEY_OFFSET : Z := IDENTITY_FINGERPRINT_BYTES.
Definition FALLBACK_KEY_OFFSET : Z :=
  ONE_TIME_KEY_OFFSET + PREKEY_POOL_SIZE_V9 * ONE_TIME_KEY_BYTES.
Definition IDENTITY_PUBLIC_BYTES : Z := FALLBACK_KEY_OFFSET + 32.
Definition NONCE_BYTES : Z := 12.
Definition MAX_IDENTITY_STATE_BYTES : Z := 512 * 1024.
Definition MAX_RATCHET_ENVELOPE_BYTES : Z := 4096.
Definition IDENTITY_STATE_SIGNATURE_BYTES : Z := 64.
Definition PROTOCOL_VERSION : Z := 9.
Definition IDENTITY_ENVELOPE_VERSION : byte := Byte.x05.
Definition MAX_PREKEY_ID_BYTES : Z := 32.
Definition MAX_NODE_ID_BYTES : Z := 128.

(** [Ed25519PublicKey::from_slice], its [verify], and whether the validation
    scalar has a contributory Diffie-Hellman result with a Curve25519 key. *)
Class Keys : Type := {
  ed25519_key : bytes → bool;
  ed25519_verify : bytes → bytes → bytes → bool;
  contributory : bytes → bool
}.

(** ** Names *)

Definition hex_digit (n : Z) : Ascii.ascii :=
  ascii_of_code (if bool_decide (n < 10) then 48 + n else 87 + n).
Fixpoint hex (b : bytes) : string :=
  match b with
  | [] => EmptyString
  | x :: b => String (hex_digit (byte_Z x / 16)) (String (hex_digit (byte_Z x mod 16)) (hex b))
  end.

Definition valid_prekey_id (prekey_id : string) : bool :=
  bool_decide (slen prekey_id ≤ MAX_PREKEY_ID_BYTES) && all_id_bytes prekey_id.

Definition valid_username (value : string) : bool :=
  negb (bool_decide (value = EmptyString)) && bool_decide (slen value ≤ MAX_USERNAME_BYTES)
  && all_id_bytes value.

(** [byte.is_ascii_alphanumeric() || matches!(byte, b'.' | b'_' | b':' | b'-')]. *)
Definition node_byte (c : Ascii.ascii) : bool :=
  id_byte c || bool_decide (ascii_code c = 46) || bool_decide (ascii_code c = 58).
Definition valid_node_id (value : string) : bool :=
  negb (bool_decide (value = EmptyString)) && bool_decide (slen value ≤ MAX_NODE_ID_BYTES)
  && forallb node_byte (String.list_ascii_of_string value).

Section bundles.
Context {ENV : RelayEnv} {KEYS : Keys}.

Definition prekey_id_for_public (public_key : bytes) : string :=
  hex (take 16 (sha256_bytes (canonical_parts [text_bytes "ABYSSAL_PREKEY_ID_V1"; public_key]))).

(** ** Bundles *)

Definition identity_curve (public_key : bytes) : bytes := slice 0 32 public_key.
Definition identity_ed (public_key : bytes) : bytes :=
  slice 32 IDENTITY_FINGERPRINT_BYTES public_key.
Definition one_time_keys (public_key : bytes) : list bytes :=
  chunks_exact ONE_TIME_KEY_BYTES (slice ONE_TIME_KEY_OFFSET FALLBACK_KEY_OFFSET public_key).
Definition fallback_key (public_key : bytes) : bytes :=
  slice FALLBACK_KEY_OFFSET IDENTITY_PUBLIC_BYTES public_key.

(** The loop over the pool: identifiers strictly increase, every key
    contributes; yields whether the expected identifier was met. *)
Fixpoint validate_pool (expected : option string) (previous : option string) (selected : bool)
    (keys : list bytes) : option bool :=
  match keys with
  | [] => Some selected
  | public :: keys =>
      let id := prekey_id_for_public public in
      if match previous with Some value => bool_decide (String.le id value) | None => false end
      then None
      else if negb (contributory public) then None
      else validate_pool expected (Some id)
             (selected || bool_decide (expected = Some id)) keys
  end.

Definition validate_identity_public_bundle (public_key : bytes) (prekey_id : option string)
    : result string () :=
  let unavailable := Err "Identity unavailable"%string in
  if bool_decide (len public_key ≠ IDENTITY_PUBLIC_BYTES) then unavailable
  else if all_zero (identity_curve public_key) || all_zero (identity_ed public_key)
          || all_zero (fallback_key public_key) then unavailable
  else if negb (contributory (identity_curve public_key))
          || negb (contributory (fallback_key public_key)) then unavailable
  else if negb (ed25519_key (identity_ed public_key)) then unavailable
  else
    match validate_pool prekey_id None false (one_time_keys public_key) with
    | None => unavailable
    | Some selected =>
        if bool_decide (is_Some prekey_id) && negb selected then unavailable else Ok tt
    end.

Definition prekey_ids_from_identity_public_v9 (public_key : bytes) : result string (list string) :=
  _ ← validate_identity_public_bundle public_key None;
  Ok (prekey_id_for_public <$> one_time_keys public_key).

(** [valid_identity_public_bundle] (auth.rs). *)
Definition valid_identity_public_bundle (public_key : bytes) (prekey_id : string) : bool :=
  is_ok (validate_identity_public_bundle public_key (Some prekey_id))
  && match prekey_ids_from_identity_public_v9 public_key with
     | Ok (first :: _) => bool_decide (first = prekey_id)
     | _ => false
     end.

(** ** Transcripts *)

Definition message_aad (chat_id message_id sender_username : string) : bytes :=
  canonical_parts [text_bytes "ABYSSAL_E2EE_PAYLOAD_V9"; text_bytes chat_id;
                   text_bytes message_id; text_bytes sender_username].

Definition validate_recipient_envelope (username : string) (wrapped_key : bytes)
    (prekey_id : string) (is_prekey : bool) : result string () :=
  reject_if
    (negb (valid_username username) || negb (valid_prekey_id prekey_id)
     || bool_decide (is_prekey = bool_decide (prekey_id = EmptyString))
     || bool_decide (wrapped_key = []) || bool_decide (MAX_RATCHET_ENVELOPE_BYTES < len wrapped_key))
    "Payload unavailable"%string.

Definition message_signature_input_v9 (version : Z) (chat_id message_id sender_username : string)
    (identity_public nonce ciphertext : bytes) (recipient_username : string) (wrapped_key : bytes)
    (recipient_prekey_id : string) (is_prekey : bool) : result string bytes :=
  _ ← validate_message_context chat_id message_id sender_username;
  _ ← reject_if
        (bool_decide (version ≠ PROTOCOL_VERSION)
         || bool_decide (len identity_public ≠ IDENTITY_PUBLIC_BYTES)
         || bool_decide (len nonce ≠ NONCE_BYTES)) "Payload unavailable"%string;
  _ ← validate_recipient_envelope recipient_username wrapped_key recipient_prekey_id is_prekey;
  Ok (canonical_parts
        [text_bytes "ABYSSAL_E2EE_SIGNATURE_V9"; be_bytes 4 version;
         message_aad chat_id message_id sender_username; nonce; ciphertext; identity_public;
         text_bytes recipient_username; text_bytes recipient_prekey_id;
         [Z_byte (if is_prekey then 1 else 0)]; wrapped_key]).

(** The last steps shared by the three verifications. *)
Definition verify_transcript (identity_public transcript signature : bytes)
    (no_key : string) : result string () :=
  if negb (ed25519_key (identity_ed identity_public)) then Err no_key
  else if ed25519_verify (identity_ed identity_public) transcript signature then Ok tt
  else Err "Payload unavailable"%string.

Definition verify_message_signature_v9 (version : Z) (chat_id message_id sender_username : string)
    (identity_public nonce ciphertext : bytes) (recipient_username : string) (wrapped_key : bytes)
    (recipient_prekey_id : string) (is_prekey : bool) (signature : bytes) : result string () :=
  _ ← reject_if
        (bool_decide (version ≠ PROTOCOL_VERSION)
         || bool_decide (len identity_public ≠ IDENTITY_PUBLIC_BYTES)
         || bool_decide (len nonce ≠ NONCE_BYTES) || bool_decide (len signature ≠ 64))
        "Payload unavailable"%string;
  signature_input ← message_signature_input_v9 version chat_id message_id sender_username
                      identity_public nonce ciphertext recipient_username wrapped_key
                      recipient_prekey_id is_prekey;
  verify_transcript identity_public signature_input signature "Sender unavailable".

Definition ack_signature_input_v9 (version : Z)
    (chat_id message_id sender_username used_prekey_id : string) : result string bytes :=
  _ ← reject_if
        (bool_decide (version ≠ PROTOCOL_VERSION)
         || (negb (bool_decide (used_prekey_id = EmptyString))
             && negb (valid_prekey_id used_prekey_id))) "Payload unavailable"%string;
  _ ← reject_if (negb (is_ok (validate_message_context chat_id message_id sender_username)))
        "Payload unavailable"%string;
  Ok (canonical_parts
        [text_bytes "ABYSSAL_E2EE_ACK_SIGNATURE_V9"; be_bytes 4 version; text_bytes chat_id;
         text_bytes message_id; text_bytes sender_username; text_bytes used_prekey_id]).

Definition verify_ack_signature_v9 (version : Z)
    (chat_id message_id sender_username used_prekey_id : string)
    (identity_public ack_signature : bytes) : result string () :=
  _ ← reject_if
        (bool_decide (len ack_signature ≠ IDENTITY_STATE_SIGNATURE_BYTES)
         || bool_decide (len identity_public ≠ IDENTITY_PUBLIC_BYTES)) "Payload unavailable"%string;
  transcript ← ack_signature_input_v9 version chat_id message_id sender_username used_prekey_id;
  verify_transcript identity_public transcript ack_signature "Identity unavailable".

Definition validate_identity_state_signature_fields (version state_revision : Z)
    (identity_envelope identity_public : bytes) (prekey_id : string) : result string () :=
  _ ← reject_if
        (bool_decide (version ≠ PROTOCOL_VERSION) || bool_decide (state_revision = 0)
         || bool_decide (len identity_envelope ≤ 1 + NONCE_BYTES + ATTACHMENT_TAG_BYTES)
         || bool_decide (MAX_IDENTITY_STATE_BYTES < len identity_envelope)
         || bool_decide (head identity_envelope ≠ Some IDENTITY_ENVELOPE_VERSION)
         || negb (valid_prekey_id prekey_id) || bool_decide (prekey_id = EmptyString))
        "Payload unavailable"%string;
  reject_if (negb (is_ok (validate_identity_public_bundle identity_public (Some prekey_id))))
    "Payload unavailable"%string.

Definition identity_state_signature_input_v9 (version state_revision : Z)
    (identity_envelope identity_public : bytes) (prekey_id : string) : result string bytes :=
  _ ← validate_identity_state_signature_fields version state_revision identity_envelope
        identity_public prekey_id;
  Ok (canonical_parts
        [text_bytes "ABYSSAL_E2EE_IDENTITY_STATE_SIGNATURE_V9"; be_bytes 4 version;
         be_bytes 8 state_revision; identity_envelope; identity_public; text_bytes prekey_id]).

Definition verify_identity_state_signature_v9 (version state_revision : Z)
    (identity_envelope identity_public : bytes) (prekey_id : string) (state_signature : bytes)
    : result string () :=
  _ ← reject_if (bool_decide (len state_signature ≠ IDENTITY_STATE_SIGNATURE_BYTES))
        "Payload unavailable"%string;
  transcript ← identity_state_signature_input_v9 version state_revision identity_envelope
                 identity_public prekey_id;
  verify_transcript identity_public transcript state_signature "Identity unavailable".
End bundles.

(** ** What a signature is about *)

(** Everything an identity key signs for the relay. *)
Inductive statement : Type :=
| SignedMessage (version : Z) (chat_id message_id sender_username : string)
    (identity_public nonce ciphertext : bytes) (recipient_username : string)
    (wrapped_key : bytes) (recipient_prekey_id : string) (is_prekey : bool)
| SignedAck (version : Z) (chat_id message_id sender_username used_prekey_id : string)
| SignedState (version state_revision : Z) (identity_envelope identity_public : bytes)
    (prekey_id : string).

Ltac stabilize := repeat match goal with H : ¬ (_ ≠ _) |- _ => apply dec_stable in H end.

Section transcripts.
Context {ENV : RelayEnv} {KEYS : Keys}.

Definition transcript (s : statement) : result string bytes :=
  match s with
  | SignedMessage v c m u i n ct r w k p => message_signature_input_v9 v c m u i n ct r w k p
  | SignedAck v c m u k => ack_signature_input_v9 v c m u k
  | SignedState v rev e i k => identity_state_signature_input_v9 v rev e i k
  end.

(** Values of their types, with a ciphertext whose length fits its prefix. *)
Definition in_range (s : statement) : Prop :=
  match s with
  | SignedMessage _ _ _ _ _ _ ct _ _ _ _ => len ct < 2 ^ 32
  | SignedAck _ _ _ _ _ => True
  | SignedState _ rev _ _ _ => 0 ≤ rev < 2 ^ 64
  end.

(** The parts a transcript is made of. *)
Definition parts (s : statement) : list bytes :=
  match s with
  | SignedMessage v c m u i n ct r w k p =>
      [text_bytes "ABYSSAL_E2EE_SIGNATURE_V9"; be_bytes 4 v; message_aad c m u; n; ct; i;
       text_bytes r; text_bytes k; [Z_byte (if p then 1 else 0)]; w]
  | SignedAck v c m u k =>
      [text_bytes "ABYSSAL_E2EE_ACK_SIGNATURE_V9"; be_bytes 4 v; text_bytes c; text_bytes m;
       text_bytes u; text_bytes k]
  | SignedState v rev e i k =>
      [text_bytes "ABYSSAL_E2EE_IDENTITY_STATE_SIGNATURE_V9"; be_bytes 4 v; be_bytes 8 rev; e; i;
       text_bytes k]
  end.

Lemma small_text s : slen s ≤ 1024 → small_part (text_bytes s).
Proof. intros. unfold small_part. rewrite len_text_bytes. lia. Qed.
Lemma small_be n z : (n ≤ 8)%nat → small_part (be_bytes n z).
Proof. intros. unfold small_part. rewrite len_be_bytes. lia. Qed.

Lemma context_small c m u :
  validate_message_context c m u = Ok tt → slen c ≤ 128 ∧ slen m ≤ 128 ∧ slen u ≤ 80.
Proof.
  unfold validate_message_context, valid_context_identifier, validate_sender.
  intros H. apply bind_Ok in H as ([] & H1 & H2). apply reject_if_Ok in H1.
  case_match; [|done]. by split_bools.
Qed.
Lemma prekey_id_small k : valid_prekey_id k = true → slen k ≤ 32.
Proof. unfold valid_prekey_id, MAX_PREKEY_ID_BYTES. intros. by split_bools. Qed.

Lemma text_bytes_inj a b : text_bytes a = text_bytes b → a = b.
Proof. intros E. by rewrite <- (bytes_text_bytes a), <- (bytes_text_bytes b), E. Qed.

Lemma message_aad_inj c m u c' m' u' :
  slen c ≤ 128 ∧ slen m ≤ 128 ∧ slen u ≤ 80 → slen c' ≤ 128 ∧ slen m' ≤ 128 ∧ slen u' ≤ 80 →
  message_aad c m u = message_aad c' m' u' → c = c' ∧ m = m' ∧ u = u'.
Proof.
  intros H H' E. apply canonical_parts_unique in E.
  - injection E as E1 E2 E3. apply text_bytes_inj in E1, E2, E3. done.
  - repeat constructor; apply small_text; lia || done.
  - repeat constructor; apply small_text; lia || done.
Qed.

(** What a transcript that was made says of its statement. *)
Definition checked (s : statement) : Prop :=
  match s with
  | SignedMessage v c m u i n _ _ _ _ _ =>
      v = PROTOCOL_VERSION ∧ slen c ≤ 128 ∧ slen m ≤ 128 ∧ slen u ≤ 80
  | SignedAck v _ _ _ _ | SignedState v _ _ _ _ => v = PROTOCOL_VERSION
  end.

Lemma len_message_aad c m u :
  slen c ≤ 128 ∧ slen m ≤ 128 ∧ slen u ≤ 80 → small_part (message_aad c m u).
Proof.
  intros H. unfold small_part, message_aad. rewrite len_canonical_parts. simpl.
  rewrite !len_text_bytes. change (slen "ABYSSAL_E2EE_PAYLOAD_V9") with 23. lia.
Qed.

Lemma message_transcript v c m u i n ct r w k p t :
  message_signature_input_v9 v c m u i n ct r w k p = Ok t → len ct < 2 ^ 32 →
  let s := SignedMessage v c m u i n ct r w k p in
  t = canonical_parts (parts s) ∧ checked s ∧ Forall small_part (parts s).
Proof.
  unfold message_signature_input_v9, validate_recipient_envelope, valid_username. intros H Hct.
  apply bind_Ok in H as ([] & Hc%context_small & H). apply bind_Ok in H as ([] & H1%reject_if_Ok & H).
  apply bind_Ok in H as ([] & H2%reject_if_Ok & [= <-]). split_bools.
  unfold MAX_USERNAME_BYTES, MAX_RATCHET_ENVELOPE_BYTES, IDENTITY_PUBLIC_BYTES, FALLBACK_KEY_OFFSET,
    ONE_TIME_KEY_OFFSET, IDENTITY_FINGERPRINT_BYTES, PREKEY_POOL_SIZE_V9, ONE_TIME_KEY_BYTES,
    NONCE_BYTES in *.
  stabilize. simpl. split; [done|]. split; [done|].
  pose proof (len_message_aad c m u Hc).
  assert (slen k ≤ 32) by (by apply prekey_id_small).
  repeat constructor; try (apply small_text; done || lia); try done; try (by apply small_be; lia);
    unfold small_part; lia.
Qed.

Lemma ack_transcript v c m u k t :
  ack_signature_input_v9 v c m u k = Ok t →
  let s := SignedAck v c m u k in
  t = canonical_parts (parts s) ∧ checked s ∧ Forall small_part (parts s).
Proof.
  unfold ack_signature_input_v9. intros H.
  apply bind_Ok in H as ([] & H1%reject_if_Ok & H). apply bind_Ok in H as ([] & H2%reject_if_Ok & [= <-]).
  apply negb_false_iff, is_ok_Ok in H2 as [[] Hc%context_small]. split_bools. stabilize.
  simpl. split; [done|]. split; [done|].
  assert (slen k ≤ 32).
  { match goal with H : _ && _ = false |- _ => apply andb_false_iff in H as [H|H] end; split_bools.
    - stabilize. by subst k.
    - by apply prekey_id_small. }
  repeat constructor; try (apply small_text; done || lia).
Qed.

Lemma state_transcript v rev e i k t :
  identity_state_signature_input_v9 v rev e i k = Ok t →
  let s := SignedState v rev e i k in
  t = canonical_parts (parts s) ∧ checked s ∧ Forall small_part (parts s).
Proof.
  unfold identity_state_signature_input_v9, validate_identity_state_signature_fields. intros H.
  apply bind_Ok in H as ([] & H & [= <-]). apply bind_Ok in H as ([] & H1%reject_if_Ok & H2%reject_if_Ok).
  apply negb_false_iff, is_ok_Ok in H2 as [[] Hb]. unfold validate_identity_public_bundle in Hb.
  destruct (bool_decide (len i ≠ _)) eqn:Hi; [done|]. clear Hb. split_bools. stabilize.
  unfold MAX_IDENTITY_STATE_BYTES, IDENTITY_PUBLIC_BYTES, FALLBACK_KEY_OFFSET, ONE_TIME_KEY_OFFSET,
    IDENTITY_FINGERPRINT_BYTES, PREKEY_POOL_SIZE_V9, ONE_TIME_KEY_BYTES in *.
  simpl. split; [done|]. split; [done|].
  assert (slen k ≤ 32) by (by apply prekey_id_small).
  repeat constructor; try (apply small_text; done || lia); try (by apply small_be; lia);
    unfold small_part; lia.
Qed.

Lemma transcript_parts s t :
  transcript s = Ok t → in_range s →
  t = canonical_parts (parts s) ∧ checked s ∧ Forall small_part (parts s).
Proof.
  destruct s; simpl; intros H Hr.
  - by apply (message_transcript _ _ _ _ _ _ _ _ _ _ _ _ H).
  - by apply ack_transcript.
  - by apply state_transcript.
Qed.

(** The equation of one part of two lists of parts. *)
Ltac part n E H := pose proof (f_equal (λ l, nth n l []) E) as H; cbn [nth parts] in H.

(** C16: a signature is about one statement only.  The transcripts the relay
    verifies - of a message for one recipient, of an acknowledgement, of an
    identity state - determine every field, and no two kinds share a
    transcript: a signature verified for one statement is a signature of no
    other. *)
Theorem transcripts_unambiguous s s' t :
  transcript s = Ok t → transcript s' = Ok t → in_range s → in_range s' → s = s'.
Proof.
  intros H H' Hr Hr'. destruct (transcript_parts s t H Hr) as (-> & Hc & Hs).
  destruct (transcript_parts s' _ H' Hr') as (E & Hc' & Hs').
  apply canonical_parts_unique in E; [|done|done]. clear H H' Hs Hs'.
  destruct s as [v c m u i n ct r w k p|v c m u k|v rev e i k],
    s' as [v' c' m' u' i' n' ct' r' w' k' p'|v' c' m' u' k'|v' rev' e' i' k'];
    try (part 0%nat E Hk; discriminate Hk); cbn [checked in_range] in *.
  - destruct Hc as [-> Hc], Hc' as [-> Hc'].
    part 2%nat E Ea. part 3%nat E En. part 4%nat E Ect. part 5%nat E Ei. part 6%nat E Er.
    part 7%nat E Ek. part 8%nat E Ep. part 9%nat E Ew.
    destruct (message_aad_inj _ _ _ _ _ _ Hc Hc' Ea) as (-> & -> & ->).
    apply text_bytes_inj in Er, Ek. subst. f_equal. by destruct p, p'.
  - part 2%nat E E1. part 3%nat E E2. part 4%nat E E3. part 5%nat E E4.
    apply text_bytes_inj in E1, E2, E3, E4. congruence.
  - part 2%nat E Erev. part 3%nat E Ee. part 4%nat E Ei. part 5%nat E Ek.
    apply text_bytes_inj in Ek. apply be_bytes_inj in Erev; [congruence|done|done].
Qed.
End transcripts.
