(* ===== verification/Release.v ===== *)
(** * Release provenance and admission (rust-core/src/release_provenance.rs,
    mirage-server/src/release_admission.rs)

    The relay mirrors a signed manifest of the current Android and web builds and
    admits only clients that attest one of them.  [verify_release_manifest_with_key]
    checks a manifest, [ReleaseAdmissionStore] holds the newest one, [refresh] is
    the mirror with the answers of the network as an argument.

    serde_json, the url crate and Ed25519 are parameters; a string is compared by
    its bytes. *)

From Stdlib Require Import Ascii.
From S2P Require Import Prelude MlsWire RoomModel RoomValidation TransportWire RelayFrame.
From S2P Require Import OutboundQueue RateLimit AttachmentAccess AttachmentStore Relay.
From S2P Require Import IdentityBundle.

Definition RELEASE_MANIFEST_SCHEMA : string := "abyssal-release-manifest-v1".
Definition RELEASE_PROJECT : string := "Emp5r0R/Abyssal".
Definition RELEASE_CHANNEL : string := "stable".
Definition MANIFEST_DOMAIN : bytes := text_bytes "ABYSSAL-RELEASE-MANIFEST-V1" ++ [Byte.x00].
Definition BUILD_DOMAIN : bytes := text_bytes "ABYSSAL-RELEASE-BUILD-V1" ++ [Byte.x00].
Definition MAX_MANIFEST_BYTES : Z := 256 * 1024.
Definition MAX_BUILDS : Z := 2.
Definition MAX_ASSETS_PER_BUILD : Z := 128.
Definition MAX_REVOKED_BUILDS : Z := 128.
Definition MAX_ASSET_BYTES : Z := 512 * 1024 * 1024.
Definition MAX_MANIFEST_LIFETIME_MS : Z := 366 * 24 * 60 * 60 * 1000.
Definition MAX_SAFE_JSON_INTEGER : Z := 9007199254740991.
Definition RELEASE_SIGNATURE_BYTES : Z := 64.
Definition MAX_RELEASE_API_BYTES : Z := 512 * 1024.
Definition MAX_RELEASE_MANIFEST_BYTES : Z := 256 * 1024.
Definition RELEASE_API_URL : string :=
  "https://api.github.com/repos/Emp5r0R/Abyssal/releases/latest".
Definition RELEASE_MANIFEST_ASSET : string := "release-manifest-v1.json".
Definition RELEASE_SIGNATURE_ASSET : string := "release-manifest-v1.sig".

(** The offline release key of a build without the integration feature. *)
Definition RELEASE_PUBKEY : bytes := Z_byte <$>
  [0x4e; 0xdf; 0x58; 0x23; 0xea; 0x64; 0x7d; 0x89; 0xf5; 0x91; 0x41; 0xd6; 0x09; 0x9e; 0x62; 0xc8;
   0x21; 0xa6; 0xec; 0xa2; 0x77; 0x53; 0x33; 0x47; 0x75; 0xd6; 0xd6; 0x94; 0x2b; 0x2a; 0x20; 0x47].

(** ** Documents *)

Record ReleaseBuildId : Type := mkBuildId {
  bi_platform : string;
  bi_version : string
}.
#[export] Instance ReleaseBuildId_eq_dec : EqDecision ReleaseBuildId.
Proof. solve_decision. Defined.

Record ReleaseAssetDocument : Type := mkAssetDocument {
  ad_name : string;
  ad_sha256_hex : string;
  ad_size : string
}.
Record ReleaseBuildDocument : Type := mkBuildDocument {
  bd_build_id : string;
  bd_source_commit : string;
  bd_build_signature_b64 : string;
  bd_assets : list ReleaseAssetDocument
}.
Record ReleaseManifestDocument : Type := mkManifestDocument {
  md_schema : string;
  md_project : string;
  md_channel : string;
  md_sequence : string;
  md_issued_at_ms : string;
  md_not_before_ms : string;
  md_expires_at_ms : string;
  md_builds : list ReleaseBuildDocument;
  md_revoked_build_ids : list string
}.

Record VerifiedReleaseAsset : Type := mkVerifiedAsset {
  va_name : string;
  va_sha256 : bytes;
  va_size : Z
}.
Record VerifiedReleaseBuild : Type := mkVerifiedBuild {
  vb_build_id : ReleaseBuildId;
  vb_source_commit : string;
  vb_build_signature : bytes;
  vb_assets : list VerifiedReleaseAsset
}.
Record VerifiedReleaseManifest : Type := mkVerifiedManifest {
  vm_canonical_json : bytes;
  vm_sequence : Z;
  vm_issued_at_ms : Z;
  vm_not_before_ms : Z;
  vm_expires_at_ms : Z;
  vm_builds : list VerifiedReleaseBuild;
  vm_revoked_build_ids : list string
}.

Inductive ReleaseVerificationError : Type :=
| RootNotConfigured
| ManifestTooLarge
| MalformedManifest
| NonCanonicalManifest
| InvalidManifestSignature
| InvalidManifestPolicy
| ManifestNotActive
| ManifestExpired
| InvalidBuildId
| InvalidBuildSignature.

Record BuildAttestationRequest : Type := mkAttestation {
  ba_platform : string;
  ba_version : string;
  ba_build_signature_b64 : string
}.
Inductive AdmissionError : Type := Unavailable | Expired | InvalidBuild.
Inductive InstallOutcome : Type := Installed | Unchanged.
Inductive InstallError : Type := Rollback | SequenceConflict.
Module RefreshError.
Inductive t : Type :=
| RootUnavailable
| ClientConfiguration
| Request
| InvalidResponse
| InvalidManifest
| Rollback.
End RefreshError.

Record InstalledReleaseManifest : Type := mkInstalled {
  in_manifest : VerifiedReleaseManifest;
  in_signature : bytes
}.
Definition ReleaseAdmissionStore : Type := option InstalledReleaseManifest.

(** ** The network *)

(** What the code reads of a [Url]. *)
Record ReleaseUrl : Type := mkUrl {
  ru_text : string;
  ru_scheme : string;
  ru_username : string;
  ru_password : option string;
  ru_host : option string;
  ru_port : option Z;
  ru_query : option string;
  ru_fragment : option string
}.
Record GithubAsset : Type := mkGithubAsset {
  ga_name : string;
  ga_browser_download_url : string
}.
Record GithubRelease : Type := mkGithubRelease {
  gr_draft : bool;
  gr_prerelease : bool;
  gr_assets : list GithubAsset
}.
(** A response, whose body comes in chunks or breaks. *)
Record Response : Type := mkResponse {
  rs_success : bool;
  rs_content_length : option Z;
  rs_chunks : list (option bytes)
}.

Class ReleaseEnv : Type := {
  (** [serde_json::from_slice] and [to_vec]. *)
  parse_manifest : bytes → option ReleaseManifestDocument;
  print_manifest : ReleaseManifestDocument → option bytes;
  parse_github_release : bytes → option GithubRelease;
  (** [Url::parse]. *)
  parse_url : string → option ReleaseUrl;
  (** [VerifyingKey::from_bytes] and [verify_strict]. *)
  verifying_key : bytes → bool;
  verify_strict : bytes → bytes → bytes → bool
}.

(** ** Strings *)

Definition chars (s : string) : list ascii := String.list_ascii_of_string s.
Definition of_chars (l : list ascii) : string := String.string_of_list_ascii l.
Definition char (c : ascii) (d : ascii) : bool := bool_decide (c = d).

(** [str::split_once] and [str::split]. *)
Fixpoint split_once (c : ascii) (l : list ascii) : option (list ascii * list ascii) :=
  match l with
  | [] => None
  | x :: l =>
      if char x c then Some ([], l)
      else '(before, after) ← split_once c l; Some (x :: before, after)
  end.
Fixpoint split (c : ascii) (l : list ascii) : list (list ascii) :=
  match l with
  | [] => [[]]
  | x :: l =>
      if char x c then [] :: split c l
      else match split c l with part :: parts => (x :: part) :: parts | [] => [[x]] end
  end.
Definition count (c : ascii) (l : list ascii) : Z := len (List.filter (λ x, char x c) l).
Definition starts_with_char (c : ascii) (l : list ascii) : bool :=
  match l with x :: _ => char x c | [] => false end.

(** [str::parse] of an unsigned integer on a string of digits. *)
Definition parse_uint (max : Z) (l : list ascii) : option Z :=
  foldl (λ o c, t ← o; t10 ← checked_mul max t 10; checked_add max t10 (ascii_code c - 48))
    (Some 0) l.

(** [a < b] on strings. *)
Definition str_lt (a b : string) : bool := negb (String.leb b a).
(** [prior.is_some_and(|prior| prior >= next)]. *)
Definition out_of_order (prior : option string) (next : string) : bool :=
  match prior with Some prior => negb (str_lt prior next) | None => false end.

Definition is_alphanumeric (c : ascii) : bool :=
  is_ascii_digit c || bool_decide (65 ≤ ascii_code c ≤ 90) || bool_decide (97 ≤ ascii_code c ≤ 122).

Definition lower_hex_char (c : ascii) : bool :=
  is_ascii_digit c || bool_decide (97 ≤ ascii_code c ≤ 102).
Definition is_lower_hex (value : string) : bool := forallb lower_hex_char (chars value).
Definition hex_nibble (value : ascii) : Z :=
  let n := ascii_code value in
  if bool_decide (48 ≤ n ≤ 57) then n - 48
  else if bool_decide (97 ≤ n ≤ 102) then n - 97 + 10 else 0.
Fixpoint hex_pairs (l : list ascii) : bytes :=
  match l with
  | hi :: lo :: l => Z_byte (Z.lor (Z.shiftl (hex_nibble hi) 4) (hex_nibble lo)) :: hex_pairs l
  | _ => []
  end.

Section release.
Context {B64 : Base64} {REL : ReleaseEnv}.
Abbreviation checked A := (result ReleaseVerificationError A).

(** ** Checking (release_provenance.rs) *)

Definition valid_version_part (part : list ascii) : bool :=
  negb (bool_decide (part = []) || negb (forallb is_ascii_digit part)
        || (bool_decide (1 < len part) && starts_with_char "0" part)
        || match parse_uint u32_MAX part with
           | Some number => negb (bool_decide (number ≤ 1000000))
           | None => true
           end).
Fixpoint check_version_parts (n : nat) (parts : list (list ascii)) : checked () :=
  match n, parts with
  | O, [] => Ok tt
  | O, _ :: _ => Err InvalidBuildId
  | S n, part :: parts =>
      _ ← reject_if (negb (valid_version_part part)) InvalidBuildId; check_version_parts n parts
  | S _, [] => Err InvalidBuildId
  end.

Definition parse_build_id (value : string) : checked ReleaseBuildId :=
  let l := chars value in
  _ ← reject_if (bool_decide (value = EmptyString) || bool_decide (64 < slen value)
                 || negb (is_ascii (text_bytes value))) InvalidBuildId;
  '(platform, version) ← ok_or (split_once "@" l) InvalidBuildId;
  let platform := of_chars platform in
  _ ← reject_if (bool_decide (count "@" l ≠ 1)
                 || negb (bool_decide (platform = "android"%string)
                          || bool_decide (platform = "web"%string))) InvalidBuildId;
  _ ← check_version_parts 3 (split "." version);
  Ok (mkBuildId platform (of_chars version)).

Definition parse_decimal (value : string) (allow_zero : bool) : checked Z :=
  let l := chars value in
  _ ← reject_if (bool_decide (value = EmptyString) || negb (forallb is_ascii_digit l)
                 || (bool_decide (1 < slen value) && starts_with_char "0" l))
        InvalidManifestPolicy;
  parsed ← ok_or (n ← parse_uint u64_MAX l;
                  if bool_decide (n ≤ MAX_SAFE_JSON_INTEGER) then Some n else None)
             InvalidManifestPolicy;
  _ ← reject_if (negb allow_zero && bool_decide (parsed = 0)) InvalidManifestPolicy;
  Ok parsed.

Definition validate_source_commit (value : string) : checked () :=
  if bool_decide (slen value = 40) && is_lower_hex value then Ok tt else Err InvalidBuildSignature.

Definition valid_component (component : list ascii) : bool :=
  negb (bool_decide (component = [])) && negb (bool_decide (of_chars component = "."%string))
  && negb (bool_decide (of_chars component = ".."%string))
  && negb (starts_with_char "." component)
  && forallb (λ c, is_alphanumeric c || char c "." || char c "_" || char c "-") component.
Definition valid_asset_name (value : string) : bool :=
  negb (bool_decide (value = EmptyString)) && bool_decide (slen value ≤ 192)
  && negb (starts_with_char "/" (chars value)) && forallb valid_component (split "/" (chars value)).

Definition decode_lower_hex_32 (value : string) : checked bytes :=
  _ ← reject_if (bool_decide (slen value ≠ 64) || negb (is_lower_hex value)) InvalidManifestPolicy;
  Ok (hex_pairs (chars value)).

(** Base64 text that is the encoding of its bytes, for a signature. *)
Definition decode_signature {E} (value : string) (e : E) : result E bytes :=
  decoded ← ok_or (b64_decode value) e;
  _ ← reject_if (negb (bool_decide (b64_encode decoded = value))) e;
  _ ← reject_if (bool_decide (len decoded ≠ RELEASE_SIGNATURE_BYTES)) e;
  Ok decoded.
Definition decode_exact_signature (value : string) : checked bytes :=
  decode_signature value InvalidBuildSignature.

Definition verify_signature (key message signature : bytes) (error : ReleaseVerificationError)
    : checked () :=
  _ ← reject_if (bool_decide (len signature ≠ RELEASE_SIGNATURE_BYTES)) error;
  reject_if (negb (verify_strict key message signature)) error.

Definition transcript (domain : bytes) (fields : list bytes) : bytes :=
  domain ++ concat ((λ field, be_bytes 8 (len field) ++ field) <$> fields).
Definition manifest_transcript (manifest_json : bytes) : bytes :=
  transcript MANIFEST_DOMAIN [manifest_json].
Definition build_transcript (build_id source_commit : string) : bytes :=
  transcript BUILD_DOMAIN
    [text_bytes RELEASE_PROJECT; text_bytes RELEASE_CHANNEL; text_bytes build_id;
     text_bytes source_commit].

Definition verify_build_signature_with_key (key : bytes) (build_id source_commit : string)
    (signature : bytes) : checked () :=
  _ ← parse_build_id build_id;
  _ ← validate_source_commit source_commit;
  verify_signature key (build_transcript build_id source_commit) signature InvalidBuildSignature.

Definition build_signing_transcript (build_id source_commit : string) : checked bytes :=
  _ ← parse_build_id build_id;
  _ ← validate_source_commit source_commit;
  Ok (build_transcript build_id source_commit).

Definition release_trust_anchor_configured : bool :=
  existsb (λ b, negb (bool_decide (b = Byte.x00))) RELEASE_PUBKEY.
Definition embedded_release_key : checked bytes :=
  _ ← reject_if (negb release_trust_anchor_configured) RootNotConfigured;
  if verifying_key RELEASE_PUBKEY then Ok RELEASE_PUBKEY else Err RootNotConfigured.

Definition canonical_manifest_bytes (document : ReleaseManifestDocument) : checked bytes :=
  ok_or (print_manifest document) MalformedManifest.

Definition parse_canonical_manifest (manifest_json : bytes)
    : checked (ReleaseManifestDocument * bytes) :=
  _ ← reject_if (bool_decide (manifest_json = []) || bool_decide (MAX_MANIFEST_BYTES < len manifest_json))
        ManifestTooLarge;
  document ← ok_or (parse_manifest manifest_json) MalformedManifest;
  canonical ← ok_or (print_manifest document) MalformedManifest;
  _ ← reject_if (negb (bool_decide (canonical = manifest_json))) NonCanonicalManifest;
  Ok (document, canonical).

(** The loops of [validate_manifest]. *)
Fixpoint validate_assets (prior : option string) (assets : list ReleaseAssetDocument)
    : checked (list VerifiedReleaseAsset) :=
  match assets with
  | [] => Ok []
  | asset :: assets =>
      _ ← reject_if (out_of_order prior (ad_name asset)) InvalidManifestPolicy;
      _ ← reject_if (negb (valid_asset_name (ad_name asset))) InvalidManifestPolicy;
      sha256 ← decode_lower_hex_32 (ad_sha256_hex asset);
      size ← parse_decimal (ad_size asset) false;
      _ ← reject_if (bool_decide (MAX_ASSET_BYTES < size)) InvalidManifestPolicy;
      rest ← validate_assets (Some (ad_name asset)) assets;
      Ok (mkVerifiedAsset (ad_name asset) sha256 size :: rest)
  end.

Definition validate_build (key : bytes) (platforms : gset string) (build : ReleaseBuildDocument)
    : checked VerifiedReleaseBuild :=
  build_id ← parse_build_id (bd_build_id build);
  _ ← reject_if (bool_decide (bi_platform build_id ∈ platforms) || bool_decide (bd_assets build = [])
                 || bool_decide (MAX_ASSETS_PER_BUILD < len (bd_assets build)))
        InvalidManifestPolicy;
  _ ← validate_source_commit (bd_source_commit build);
  build_signature ← decode_exact_signature (bd_build_signature_b64 build);
  _ ← verify_build_signature_with_key key (bd_build_id build) (bd_source_commit build)
        build_signature;
  assets ← validate_assets None (bd_assets build);
  Ok (mkVerifiedBuild build_id (bd_source_commit build) build_signature assets).

Fixpoint validate_builds (key : bytes) (prior : option string) (platforms : gset string)
    (builds : list ReleaseBuildDocument) : checked (list VerifiedReleaseBuild * gset string) :=
  match builds with
  | [] => Ok ([], platforms)
  | build :: builds =>
      _ ← reject_if (out_of_order prior (bd_build_id build)) InvalidManifestPolicy;
      verified ← validate_build key platforms build;
      '(rest, platforms) ← validate_builds key (Some (bd_build_id build))
                             (platforms ∪ {[bi_platform (vb_build_id verified)]}) builds;
      Ok (verified :: rest, platforms)
  end.

Fixpoint validate_revoked (prior : option string) (revoked : list string) : checked () :=
  match revoked with
  | [] => Ok tt
  | id :: revoked =>
      _ ← reject_if (out_of_order prior id) InvalidManifestPolicy;
      _ ← parse_build_id id;
      validate_revoked (Some id) revoked
  end.

Definition validate_manifest (key : bytes) (document : ReleaseManifestDocument)
    (canonical_json : bytes) (now_ms : Z) : checked VerifiedReleaseManifest :=
  _ ← reject_if (negb (bool_decide (md_schema document = RELEASE_MANIFEST_SCHEMA))
                 || negb (bool_decide (md_project document = RELEASE_PROJECT))
                 || negb (bool_decide (md_channel document = RELEASE_CHANNEL))
                 || bool_decide (len (md_builds document) ≠ MAX_BUILDS)
                 || bool_decide (MAX_REVOKED_BUILDS < len (md_revoked_build_ids document)))
        InvalidManifestPolicy;
  sequence ← parse_decimal (md_sequence document) false;
  issued_at_ms ← parse_decimal (md_issued_at_ms document) true;
  not_before_ms ← parse_decimal (md_not_before_ms document) true;
  expires_at_ms ← parse_decimal (md_expires_at_ms document) true;
  _ ← reject_if (bool_decide (not_before_ms < issued_at_ms)
                 || bool_decide (expires_at_ms ≤ not_before_ms)
                 || bool_decide (MAX_MANIFEST_LIFETIME_MS < saturating_sub expires_at_ms issued_at_ms))
        InvalidManifestPolicy;
  _ ← reject_if (bool_decide (now_ms < not_before_ms)) ManifestNotActive;
  _ ← reject_if (bool_decide (expires_at_ms ≤ now_ms)) ManifestExpired;
  '(builds, platforms) ← validate_builds key None ∅ (md_builds document);
  _ ← reject_if (bool_decide (Z.of_nat (size platforms) ≠ MAX_BUILDS)
                 || negb (bool_decide ("android"%string ∈ platforms))
                 || negb (bool_decide ("web"%string ∈ platforms))) InvalidManifestPolicy;
  _ ← validate_revoked None (md_revoked_build_ids document);
  Ok (mkVerifiedManifest canonical_json sequence issued_at_ms not_before_ms expires_at_ms builds
        (md_revoked_build_ids document)).

Definition verify_release_manifest_with_key (key manifest_json signature : bytes) (now_ms : Z)
    : checked VerifiedReleaseManifest :=
  '(document, canonical) ← parse_canonical_manifest manifest_json;
  _ ← verify_signature key (manifest_transcript manifest_json) signature InvalidManifestSignature;
  validate_manifest key document canonical now_ms.

Definition inspect_release_manifest_with_key (key manifest_json signature : bytes)
    : checked VerifiedReleaseManifest :=
  '(document, canonical) ← parse_canonical_manifest manifest_json;
  _ ← verify_signature key (manifest_transcript manifest_json) signature InvalidManifestSignature;
  not_before_ms ← parse_decimal (md_not_before_ms document) true;
  validate_manifest key document canonical not_before_ms.

Definition validate_release_manifest_for_signing_with_key (key manifest_json : bytes)
    : checked VerifiedReleaseManifest :=
  '(document, canonical) ← parse_canonical_manifest manifest_json;
  not_before_ms ← parse_decimal (md_not_before_ms document) true;
  validate_manifest key document canonical not_before_ms.

Definition verify_release_manifest_with_embedded_key (manifest_json signature : bytes) (now_ms : Z)
    : checked VerifiedReleaseManifest :=
  key ← embedded_release_key;
  verify_release_manifest_with_key key manifest_json signature now_ms.
Definition inspect_release_manifest_with_embedded_key (manifest_json signature : bytes)
    : checked VerifiedReleaseManifest :=
  key ← embedded_release_key;
  inspect_release_manifest_with_key key manifest_json signature.

Definition build_for_platform (m : VerifiedReleaseManifest) (platform : string)
    : option VerifiedReleaseBuild :=
  List.find (λ build, bool_decide (bi_platform (vb_build_id build) = platform)) (vm_builds m).

(** The loop of [slice::binary_search_by]: the last index of the range whose
    element is not greater than the target, or the first index. *)
Fixpoint search_loop (fuel : nat) (l : list string) (target : string) (base size : nat) : nat :=
  match fuel with
  | O => base
  | S fuel =>
      if (size <=? 1)%nat then base
      else
        let half := (size / 2)%nat in
        let mid := (base + half)%nat in
        let base :=
          match String.compare (default EmptyString (l !! mid)) target with
          | Gt => base
          | _ => mid
          end in
        search_loop fuel l target base (size - half)
  end.
Definition binary_search (l : list string) (target : string) : bool :=
  match l with
  | [] => false
  | _ =>
      let base := search_loop (length l) l target 0 (length l) in
      match String.compare (default EmptyString (l !! base)) target with
      | Eq => true
      | _ => false
      end
  end.
Definition is_revoked (m : VerifiedReleaseManifest) (build_id : string) : bool :=
  binary_search (vm_revoked_build_ids m) build_id.

(** ** Admission (release_admission.rs) *)

Definition admit_build (request : BuildAttestationRequest) (now_ms : Z)
    (store : ReleaseAdmissionStore) : result AdmissionError () :=
  let build_id := (ba_platform request +:+ "@" +:+ ba_version request)%string in
  _ ← reject_if (negb (is_ok (parse_build_id build_id))) InvalidBuild;
  presented_signature ← decode_signature (ba_build_signature_b64 request) InvalidBuild;
  installed ← ok_or store Unavailable;
  let manifest := in_manifest installed in
  _ ← reject_if (bool_decide (now_ms < vm_not_before_ms manifest)) Unavailable;
  _ ← reject_if (bool_decide (vm_expires_at_ms manifest ≤ now_ms)) Expired;
  _ ← reject_if (is_revoked manifest build_id) InvalidBuild;
  current ← ok_or (build ← build_for_platform manifest (ba_platform request);
                   if bool_decide (bi_version (vb_build_id build) = ba_version request)
                   then Some build else None) InvalidBuild;
  reject_if (negb (bool_decide (vb_build_signature current = presented_signature))) InvalidBuild.

Definition install (manifest : VerifiedReleaseManifest) (signature : bytes)
    : ST ReleaseAdmissionStore InstallError InstallOutcome := λ store,
  let replaced := (Ok Installed, Some (mkInstalled manifest signature)) in
  match store with
  | Some current =>
      if bool_decide (vm_sequence manifest < vm_sequence (in_manifest current))
      then (Err Rollback, store)
      else if bool_decide (vm_sequence manifest = vm_sequence (in_manifest current))
      then
        (if bool_decide (vm_canonical_json manifest = vm_canonical_json (in_manifest current))
            && bool_decide (signature = in_signature current)
         then Ok Unchanged else Err SequenceConflict, store)
      else replaced
  | None => replaced
  end.

(** ** The mirror *)

Definition trusted_release_url (url : ReleaseUrl) : bool :=
  bool_decide (ru_scheme url = "https"%string) && bool_decide (ru_username url = EmptyString)
  && bool_decide (ru_password url = None) && bool_decide (ru_port url = None)
  && bool_decide (ru_host url ∈ [Some "api.github.com"; Some "github.com";
                                 Some "release-assets.githubusercontent.com";
                                 Some "objects.githubusercontent.com"]%string).

Definition download_url (text : string) : result RefreshError.t ReleaseUrl :=
  url ← ok_or (parse_url text) RefreshError.InvalidResponse;
  _ ← reject_if (negb (trusted_release_url url && bool_decide (ru_host url = Some "github.com"%string)
                       && bool_decide (ru_username url = EmptyString)
                       && bool_decide (ru_password url = None) && bool_decide (ru_port url = None)
                       && bool_decide (ru_query url = None) && bool_decide (ru_fragment url = None)))
        RefreshError.InvalidResponse;
  Ok url.

Fixpoint find_asset_urls (manifest signature : option ReleaseUrl) (assets : list GithubAsset)
    : result RefreshError.t (option ReleaseUrl * option ReleaseUrl) :=
  match assets with
  | [] => Ok (manifest, signature)
  | asset :: assets =>
      if bool_decide (ga_name asset = RELEASE_MANIFEST_ASSET) then
        _ ← reject_if (bool_decide (is_Some manifest)) RefreshError.InvalidResponse;
        url ← download_url (ga_browser_download_url asset);
        find_asset_urls (Some url) signature assets
      else if bool_decide (ga_name asset = RELEASE_SIGNATURE_ASSET) then
        _ ← reject_if (bool_decide (is_Some signature)) RefreshError.InvalidResponse;
        url ← download_url (ga_browser_download_url asset);
        find_asset_urls manifest (Some url) assets
      else find_asset_urls manifest signature assets
  end.

Definition release_asset_urls (body : bytes) : result RefreshError.t (ReleaseUrl * ReleaseUrl) :=
  release ← ok_or (parse_github_release body) RefreshError.InvalidResponse;
  _ ← reject_if (gr_draft release || gr_prerelease release
                 || bool_decide (128 < len (gr_assets release))) RefreshError.InvalidResponse;
  '(manifest, signature) ← find_asset_urls None None (gr_assets release);
  manifest ← ok_or manifest RefreshError.InvalidResponse;
  signature ← ok_or signature RefreshError.InvalidResponse;
  Ok (manifest, signature).

Fixpoint read_chunks (maximum : Z) (body : bytes) (chunks : list (option bytes))
    : result RefreshError.t bytes :=
  match chunks with
  | [] => Ok body
  | None :: _ => Err RefreshError.Request
  | Some chunk :: chunks =>
      _ ← reject_if (bool_decide (maximum < saturating_add usize_MAX (len body) (len chunk)))
            RefreshError.InvalidResponse;
      read_chunks maximum (body ++ chunk) chunks
  end.
Definition bounded_body (response : Response) (maximum : Z) : result RefreshError.t bytes :=
  _ ← reject_if (negb (rs_success response)
                 || match rs_content_length response with
                    | Some length => bool_decide (maximum < length)
                    | None => false
                    end) RefreshError.InvalidResponse;
  read_chunks maximum [] (rs_chunks response).

(** The requests of [refresh], with the answer of the network to each; None is a
    request that failed. *)
Definition fetch_manifest (get : ReleaseUrl → option Response) (now_ms : Z)
    : result RefreshError.t (VerifiedReleaseManifest * bytes) :=
  _ ← reject_if (negb release_trust_anchor_configured) RefreshError.RootUnavailable;
  api_url ← ok_or (parse_url RELEASE_API_URL) RefreshError.ClientConfiguration;
  _ ← reject_if (negb (trusted_release_url api_url)) RefreshError.ClientConfiguration;
  api_response ← ok_or (get api_url) RefreshError.Request;
  api_bytes ← bounded_body api_response MAX_RELEASE_API_BYTES;
  '(manifest_url, signature_url) ← release_asset_urls api_bytes;
  manifest_response ← ok_or (get manifest_url) RefreshError.Request;
  manifest ← bounded_body manifest_response MAX_RELEASE_MANIFEST_BYTES;
  signature_response ← ok_or (get signature_url) RefreshError.Request;
  signature ← bounded_body signature_response RELEASE_SIGNATURE_BYTES;
  _ ← reject_if (bool_decide (len signature ≠ RELEASE_SIGNATURE_BYTES)) RefreshError.InvalidResponse;
  verified ← match verify_release_manifest_with_embedded_key manifest signature now_ms with
             | Ok verified => Ok verified
             | Err _ => Err RefreshError.InvalidManifest
             end;
  Ok (verified, signature).

Definition refresh (get : ReleaseUrl → option Response) (now_ms : Z)
    : ST ReleaseAdmissionStore RefreshError.t InstallOutcome := λ store,
  match fetch_manifest get now_ms with
  | Ok (verified, signature) =>
      let '(outcome, store) := install verified signature store in
      (match outcome with Ok outcome => Ok outcome | Err _ => Err RefreshError.Rollback end, store)
  | Err e => (Err e, store)
  end.
End release.

(** ** Order *)

Abbreviation before := (λ a b : string, str_lt a b = true).
Definition sorted (l : list string) : Prop := StronglySorted before l.

Lemma str_lt_iff a b : str_lt a b = true ↔ String.le a b ∧ a ≠ b.
Proof.
  unfold str_lt, String.le. rewrite negb_true_iff. split.
  - intros Hb. split; [|intros ->; destruct (String.leb_total b b); congruence].
    destruct (String.leb_total a b) as [->|]; [done|congruence].
  - intros [Ha%Is_true_true Hne]. destruct (String.leb b a) eqn:E; [|done].
    destruct Hne. by apply String.leb_antisym.
Qed.
Lemma str_lt_trans a b c : str_lt a b = true → str_lt b c = true → str_lt a c = true.
Proof.
  rewrite !str_lt_iff. intros [H1 N1] [H2 N2]. split; [by etrans|].
  intros ->. apply N2. by apply (anti_symm String.le).
Qed.
#[export] Instance before_trans : Transitive before.
Proof. exact str_lt_trans. Qed.
Lemma str_lt_irrefl a : str_lt a a = false.
Proof. apply not_true_iff_false. rewrite str_lt_iff. naive_solver. Qed.
Lemma compare_lt a b : str_lt a b = true ↔ String.compare a b = Lt.
Proof.
  unfold str_lt, String.leb. rewrite (String.compare_antisym a b).
  destruct (String.compare b a); simpl; naive_solver.
Qed.

(** A loop that compares each string with the one before it. *)
Fixpoint ascending (prior : option string) (l : list string) : Prop :=
  match l with
  | [] => True
  | x :: l => out_of_order prior x = false ∧ ascending (Some x) l
  end.
Lemma ascending_from x l : ascending (Some x) l ↔ StronglySorted before (x :: l).
Proof.
  revert x. induction l as [|y l IH]; intros x; simpl.
  - split; [|done]. intros _. repeat constructor.
  - rewrite IH, negb_false_iff. split.
    + intros [Hxy Hs]. apply Sorted_StronglySorted; [apply before_trans|].
      apply StronglySorted_Sorted in Hs. constructor; [done|by constructor].
    + inversion_clear 1 as [|? ? Hs Hf]. inversion_clear Hf. done.
Qed.
Lemma ascending_sorted l : ascending None l ↔ sorted l.
Proof.
  destruct l as [|x l]; simpl; [split; [constructor|done]|]. rewrite ascending_from.
  split; [by intros [_ ?]|by split].
Qed.

(** ** Binary search is membership *)

Section search.
Context (l : list string) (target : string) (Hl : sorted l).

Lemma sorted_lookup i j a b :
  sorted l → l !! i = Some a → l !! j = Some b → (i < j)%nat → str_lt a b = true.
Proof.
  clear. intros Hs. revert i j.
  induction Hs as [|x l Hs IH Hf]; intros i j Hi Hj Hlt; [by rewrite lookup_nil in Hi|].
  destruct i as [|i], j as [|j]; simpl in *; try lia.
  - simplify_eq. by eapply Forall_lookup_1 in Hf.
  - eapply IH; [done..|lia].
Qed.

(** The range keeps every index of the target. *)
Lemma search_loop_keeps fuel base size i :
  l !! i = Some target → (base ≤ i < base + size)%nat → (base + size ≤ length l)%nat →
  (size ≤ S fuel)%nat → search_loop fuel l target base size = i.
Proof.
  intros Hi. revert base size. induction fuel as [|fuel IH]; intros base size Hr Hb Hf;
    cbn [search_loop]; cbv zeta; [lia|].
  destruct (Nat.leb_spec size 1) as [|Hs]; [lia|].
  pose proof (Nat.div_lt size 2 ltac:(lia) ltac:(lia)).
  assert (1 ≤ size / 2)%nat by (apply Nat.div_le_lower_bound; lia).
  assert (2 * (size / 2) ≤ size)%nat by (apply Nat.Div0.mul_div_le).
  destruct (lookup_lt_is_Some_2 l (base + size / 2)%nat) as [m Hm]; [lia|]. rewrite Hm. cbn [default from_option id].
  destruct (String.compare m target) eqn:Hc.
  - apply String.compare_eq_iff in Hc as ->.
    assert (i = base + size / 2)%nat as ->.
    { destruct (Nat.lt_trichotomy i (base + size / 2)) as [Hlt|[?|Hlt]]; [|done|].
      - pose proof (sorted_lookup _ _ _ _ Hl Hi Hm Hlt) as Hx. by rewrite str_lt_irrefl in Hx.
      - pose proof (sorted_lookup _ _ _ _ Hl Hm Hi Hlt) as Hx. by rewrite str_lt_irrefl in Hx. }
    apply IH; lia.
  - apply compare_lt in Hc. apply IH; [|lia|lia].
    destruct (Nat.le_gt_cases (base + size / 2) i); [lia|exfalso].
    pose proof (sorted_lookup _ _ _ _ Hl Hi Hm ltac:(lia)) as H'.
    pose proof (str_lt_trans _ _ _ Hc H') as Hx. by rewrite str_lt_irrefl in Hx.
  - rewrite String.compare_antisym in Hc. apply CompOpp_iff in Hc. apply compare_lt in Hc.
    apply IH; [|lia|lia]. destruct (Nat.lt_ge_cases i (base + size / 2)); [lia|exfalso].
    destruct (decide (i = (base + size / 2)%nat)) as [->|].
    + rewrite Hi in Hm. simplify_eq. by rewrite str_lt_irrefl in Hc.
    + pose proof (sorted_lookup _ _ _ _ Hl Hm Hi ltac:(lia)) as H'.
      pose proof (str_lt_trans _ _ _ Hc H') as Hx. by rewrite str_lt_irrefl in Hx.
Qed.

Lemma search_loop_range fuel base size :
  (1 ≤ size)%nat → (base + size ≤ length l)%nat →
  (search_loop fuel l target base size < length l)%nat.
Proof.
  revert base size. induction fuel as [|fuel IH]; intros base size Hs Hb;
    cbn [search_loop]; cbv zeta; [lia|].
  destruct (Nat.leb_spec size 1) as [|H1]; [lia|].
  pose proof (Nat.div_lt size 2 ltac:(lia) ltac:(lia)).
  assert (2 * (size / 2) ≤ size)%nat by (apply Nat.Div0.mul_div_le).
  apply IH; [lia|]. destruct (String.compare _ _); lia.
Qed.

Lemma binary_search_spec : binary_search l target = true ↔ target ∈ l.
Proof.
  destruct (decide (length l = 0)%nat) as [E|E].
  { apply nil_length_inv in E. unfold binary_search. rewrite E.
    split; [done|by intros ?%not_elem_of_nil]. }
  assert (binary_search l target = true ↔
    String.compare (default EmptyString (l !! search_loop (length l) l target 0 (length l))) target
      = Eq) as ->.
  { unfold binary_search. clear Hl. destruct l; [done|]. by destruct (String.compare _ _). }
  split.
  - destruct (lookup_lt_is_Some_2 l (search_loop (length l) l target 0 (length l))) as [s Hs];
      [apply search_loop_range; lia|]. rewrite Hs. simpl.
    intros ->%String.compare_eq_iff. by apply list_elem_of_lookup_2 in Hs.
  - intros [i Hi]%list_elem_of_lookup_1.
    rewrite (search_loop_keeps (length l) 0 (length l) i); [|done|..].
    + rewrite Hi. simpl. destruct (String.compare target target) eqn:Hc; [done|..].
      * apply compare_lt in Hc. by rewrite str_lt_irrefl in Hc.
      * rewrite String.compare_antisym in Hc. apply CompOpp_iff in Hc. apply compare_lt in Hc.
        by rewrite str_lt_irrefl in Hc.
    + apply lookup_lt_Some in Hi. lia.
    + lia.
    + lia.
Qed.
End search.

(** ** What the parsers accept *)

(** [parse_decimal] and the counters of the wire agree. *)
Definition decimal_malformed (s : string) : bool :=
  bool_decide (s = EmptyString) || negb (forallb is_ascii_digit (chars s))
  || (bool_decide (1 < slen s) && starts_with_char "0" (chars s)).
Lemma deserialize_alt s :
  deserialize s =
    if decimal_malformed s then Err InvalidCanonicalDecimal
    else ok_or (parse_uint u64_MAX (chars s)) DecimalOutOfRange.
Proof.
  unfold deserialize, decimal_malformed.
  assert (starts_with_char "0" (chars s) =
    match s with String c _ => bool_decide (c = "0"%char) | EmptyString => false end) as ->
    by (by destruct s).
  set (a := bool_decide (s = "")). set (b := forallb _ _). set (c := bool_decide (1 < _) && _).
  by destruct a, b, c.
Qed.
Lemma parse_decimal_iff s z n :
  parse_decimal s z = Ok n ↔
  0 ≤ n ≤ MAX_SAFE_JSON_INTEGER ∧ (z = true ∨ n ≠ 0) ∧ s = serialize n.
Proof.
  assert (parse_decimal s z = Ok n ↔
    deserialize s = Ok n ∧ n ≤ MAX_SAFE_JSON_INTEGER ∧ (z = true ∨ n ≠ 0)) as ->.
  { rewrite deserialize_alt. unfold parse_decimal. fold (decimal_malformed s).
    destruct (decimal_malformed s); simpl; [naive_solver|].
    destruct (parse_uint u64_MAX (chars s)) as [v|]; simpl; [|naive_solver].
    case_bool_decide; simpl; [|naive_solver lia].
    destruct z; simpl; [naive_solver|]. case_bool_decide; simpl; naive_solver. }
  rewrite decimal_codec. unfold MAX_SAFE_JSON_INTEGER, u64_MAX. naive_solver lia.
Qed.

Lemma chars_of l : chars (of_chars l) = l.
Proof. apply String.list_ascii_of_string_of_list_ascii. Qed.
Lemma length_chars s : length (chars s) = String.length s.
Proof. unfold chars. induction s as [|c s IH]; simpl; [done|]. by rewrite IH. Qed.
Lemma of_chars_chars s : of_chars (chars s) = s.
Proof. apply String.string_of_list_ascii_of_string. Qed.
Lemma of_chars_app l k : of_chars (l ++ k) = (of_chars l +:+ of_chars k)%string.
Proof. induction l as [|c l IH]; simpl; [done|]. unfold of_chars in *. simpl. by rewrite IH. Qed.

Lemma split_once_spec c l a b : split_once c l = Some (a, b) → l = a ++ c :: b ∧ c ∉ a.
Proof.
  revert a b. induction l as [|x l IH]; intros a b; simpl; [done|]. unfold char.
  case_bool_decide as Hx; [intros [= <- <-]; subst; split; [done|by intros ?%not_elem_of_nil]|].
  intros ([a' b'] & H & [= <- <-])%bind_Some. destruct (IH _ _ H) as [-> Hc].
  split; [done|]. by rewrite not_elem_of_cons.
Qed.
Definition id_text (b : ReleaseBuildId) : string := (bi_platform b +:+ "@" +:+ bi_version b)%string.
Lemma parse_build_id_text s b : parse_build_id s = Ok b → s = id_text b.
Proof.
  unfold parse_build_id. intros H. run_ok. destruct x0 as [p v]. run_ok.
  match goal with H : split_once _ _ = _ |- _ => apply split_once_spec in H as [E _] end.
  unfold id_text. simpl. rewrite <- (of_chars_chars s), E, of_chars_app. done.
Qed.

Lemma decode_signature_iff `{Base64} {E} s (e : E) b :
  decode_signature s e = Ok b ↔
  b64_decode s = Some b ∧ b64_encode b = s ∧ len b = RELEASE_SIGNATURE_BYTES.
Proof.
  unfold decode_signature. split.
  - intros Hs. run_ok. split_bools. by destruct (decide (len b = RELEASE_SIGNATURE_BYTES)).
  - intros (Hd & He & Hl). rewrite Hd. cbn [ok_or mbind result_bind].
    rewrite (bool_decide_true _ He). cbn [negb reject_if mbind result_bind].
    rewrite bool_decide_false by auto. done.
Qed.

(** Hexadecimal. *)
Lemma nibbles hi lo : 0 ≤ hi < 16 → 0 ≤ lo < 16 → Z.lor (Z.shiftl hi 4) lo = 16 * hi + lo.
Proof.
  intros Hh Hl. rewrite Z.shiftl_mul_pow2 by lia.
  rewrite <- Z.lxor_lor, <- Z.add_nocarry_lxor; [lia|..];
    (apply Z.bits_inj'; intros n Hn; rewrite Z.land_spec, Z.bits_0; destruct (Z.lt_ge_cases n 4);
     [rewrite Z.mul_pow2_bits_low by lia; done|
      rewrite (Z.bits_above_log2 lo n); [apply andb_false_r|lia|];
      destruct (decide (lo = 0)) as [->|]; [simpl; lia|apply Z.log2_lt_pow2; [lia|]];
      apply Z.lt_le_trans with (2 ^ 4); [lia|apply Z.pow_le_mono_r; lia]]).
Qed.
Lemma hex_nibble_digit n : 0 ≤ n < 16 → hex_nibble (hex_digit n) = n ∧ lower_hex_char (hex_digit n) = true.
Proof.
  intros Hn. assert (n ∈ (λ k, Z.of_nat k) <$> seq 0 16) as Hin.
  { apply list_elem_of_fmap. exists (Z.to_nat n). split; [lia|]. apply elem_of_seq. lia. }
  revert n Hin Hn. apply (Forall_forall (λ n, 0 ≤ n < 16 → _)). repeat constructor; intros; done.
Qed.
Lemma hex_digit_nibble c :
  lower_hex_char c = true → hex_digit (hex_nibble c) = c ∧ 0 ≤ hex_nibble c < 16.
Proof. by destruct c as [[] [] [] [] [] [] [] []]; vm_compute; [..]. Qed.
Lemma hex_chars b :
  hex_pairs (chars (hex b)) = b ∧ is_lower_hex (hex b) = true ∧ slen (hex b) = 2 * len b.
Proof.
  induction b as [|x b (IH1 & IH2 & IH3)]; [done|].
  pose proof (byte_Z_range x) as Hx. pose proof (Z.mod_pos_bound (byte_Z x) 16 ltac:(lia)).
  assert (0 ≤ byte_Z x / 16 < 16) by (split; [apply Z.div_pos; lia|apply Z.div_lt_upper_bound; lia]).
  destruct (hex_nibble_digit (byte_Z x / 16)) as [E1 E2]; [done|].
  destruct (hex_nibble_digit (byte_Z x mod 16)) as [E3 E4]; [done|].
  unfold chars, is_lower_hex in *. cbn [hex String.list_ascii_of_string hex_pairs forallb].
  split_and!.
  - rewrite E1, E3, nibbles, <- Z.div_mod, Z_byte_Z by (done || lia). by f_equal.
  - unfold chars. cbn [String.list_ascii_of_string forallb]. by rewrite E2, E4.
  - rewrite len_cons. unfold slen in *. cbn [String.length]. lia.
Qed.
Lemma hex_of_pairs n l :
  length l = (2 * n)%nat → forallb lower_hex_char l = true →
  of_chars l = hex (hex_pairs l) ∧ length (hex_pairs l) = n.
Proof.
  revert l. induction n as [|n IH]; intros l Hl Hf; [by apply nil_length_inv in Hl as ->|].
  destruct l as [|hi [|lo l]]; simpl in Hl; try lia. cbn [forallb] in Hf. split_bools.
  destruct (IH l) as [E1 E2]; [lia|done|].
  destruct (hex_digit_nibble hi) as [Hhi R1]; [done|].
  destruct (hex_digit_nibble lo) as [Hlo R2]; [done|].
  cbn [hex_pairs hex length]. split; [|lia].
  rewrite byte_Z_byte, nibbles, Z.mod_small by (done || lia).
  rewrite (Z.mul_comm 16), Z.div_add_l, Z.div_small, Z.add_0_r by lia.
  rewrite Z.add_comm, Z.mod_add, Z.mod_small, Hhi, Hlo, <- E1 by lia. done.
Qed.
Lemma decode_hex_iff s b : decode_lower_hex_32 s = Ok b ↔ len b = 32 ∧ s = hex b.
Proof.
  unfold decode_lower_hex_32. split.
  - intros H. run_ok. split_bools. destruct (hex_of_pairs 32 (chars s)) as [E1 E2]; [|done|].
    + destruct (decide (slen s = 64)) as [E|]; [|done]. unfold slen in E.
      rewrite length_chars. lia.
    + rewrite of_chars_chars in E1. split; [unfold len; by rewrite E2|done].
  - intros [Hl ->]. destruct (hex_chars b) as (E1 & E2 & E3). rewrite E1, E2, E3, Hl. done.
Qed.

(** ** What a manifest has to say *)

Section policy.
Context {B64 : Base64} {REL : ReleaseEnv}.

(** The signature is of the message, under the key. *)
Definition signs (key message signature : bytes) : Prop :=
  len signature = RELEASE_SIGNATURE_BYTES ∧ verify_strict key message signature = true.
Lemma verify_signature_iff key message signature e u :
  verify_signature key message signature e = Ok u ↔ signs key message signature.
Proof.
  unfold verify_signature, signs. destruct u. split.
  - intros H. run_ok. split_bools. destruct (decide (len signature = RELEASE_SIGNATURE_BYTES)); done.
  - intros [Hl Hv]. rewrite bool_decide_false by auto. simpl. by rewrite Hv.
Qed.

Record asset_ok (d : ReleaseAssetDocument) (v : VerifiedReleaseAsset) : Prop := mkAssetOk {
  as_name : va_name v = ad_name d;
  as_path : valid_asset_name (ad_name d) = true;
  as_digest : len (va_sha256 v) = 32 ∧ ad_sha256_hex d = hex (va_sha256 v);
  as_size : 0 < va_size v ≤ MAX_ASSET_BYTES ∧ ad_size d = serialize (va_size v)
}.
Record build_ok (key : bytes) (d : ReleaseBuildDocument) (v : VerifiedReleaseBuild) : Prop := mkBuildOk {
  bo_id : parse_build_id (bd_build_id d) = Ok (vb_build_id v);
  bo_commit : vb_source_commit v = bd_source_commit d;
  bo_hex : slen (bd_source_commit d) = 40 ∧ is_lower_hex (bd_source_commit d) = true;
  bo_text : b64_decode (bd_build_signature_b64 d) = Some (vb_build_signature v) ∧
            b64_encode (vb_build_signature v) = bd_build_signature_b64 d;
  bo_signed : signs key (build_transcript (bd_build_id d) (bd_source_commit d)) (vb_build_signature v);
  bo_count : 0 < len (bd_assets d) ≤ MAX_ASSETS_PER_BUILD;
  bo_sorted : sorted (ad_name <$> bd_assets d);
  bo_assets : Forall2 asset_ok (bd_assets d) (vb_assets v)
}.
Record manifest_ok (key json : bytes) (d : ReleaseManifestDocument) (now : Z)
    (m : VerifiedReleaseManifest) : Prop := mkManifestOk {
  mo_json : vm_canonical_json m = json;
  mo_names : md_schema d = RELEASE_MANIFEST_SCHEMA ∧ md_project d = RELEASE_PROJECT ∧
             md_channel d = RELEASE_CHANNEL;
  mo_sequence : 0 < vm_sequence m ≤ MAX_SAFE_JSON_INTEGER ∧ md_sequence d = serialize (vm_sequence m);
  mo_times : 0 ≤ vm_issued_at_ms m ≤ vm_not_before_ms m ∧
             vm_expires_at_ms m ≤ MAX_SAFE_JSON_INTEGER ∧
             vm_expires_at_ms m - vm_issued_at_ms m ≤ MAX_MANIFEST_LIFETIME_MS;
  mo_written : md_issued_at_ms d = serialize (vm_issued_at_ms m) ∧
               md_not_before_ms d = serialize (vm_not_before_ms m) ∧
               md_expires_at_ms d = serialize (vm_expires_at_ms m);
  mo_active : vm_not_before_ms m ≤ now < vm_expires_at_ms m;
  mo_builds : Forall2 (build_ok key) (md_builds d) (vm_builds m);
  mo_platforms : (λ b, bi_platform (vb_build_id b)) <$> vm_builds m = ["android"; "web"]%string;
  mo_revoked : vm_revoked_build_ids m = md_revoked_build_ids d ∧
               len (md_revoked_build_ids d) ≤ MAX_REVOKED_BUILDS ∧ sorted (md_revoked_build_ids d) ∧
               Forall (λ id, is_ok (parse_build_id id) = true) (md_revoked_build_ids d)
}.

(** ** The loops check it *)

Lemma validate_assets_iff prior l vs :
  validate_assets prior l = Ok vs ↔ ascending prior (ad_name <$> l) ∧ Forall2 asset_ok l vs.
Proof.
  revert prior vs. induction l as [|d l IH]; intros prior vs; simpl.
  { split; [intros [= <-]; by split|intros [_ H]]. by inversion H. }
  split.
  - intros H. run_ok. rename select (validate_assets _ _ = _) into Hr. apply IH in Hr as [Ha Hf].
    rename select (decode_lower_hex_32 _ = _) into Hh. apply decode_hex_iff in Hh as [? ?].
    rename select (parse_decimal _ _ = _) into Hd. apply parse_decimal_iff in Hd as (? & [?|?] & ?); [done|].
    split_bools. split; [by split|]. constructor; [|done]. split; simpl; auto. split; [lia|done].
  - intros [[Ho Ha] Hf]. inversion Hf as [|? v ? vs' [Hn Hp [Hl Hh] [Hs Hd]] Hr]; simplify_eq.
    rewrite Ho, Hp. simpl. rewrite (proj2 (decode_hex_iff _ _) (conj Hl Hh)). simpl.
    rewrite (proj2 (parse_decimal_iff (ad_size d) false (va_size v)));
      [|unfold MAX_ASSET_BYTES, MAX_SAFE_JSON_INTEGER in *; split_and!; [lia..|right; lia|done]].
    cbn [mbind result_bind]. rewrite bool_decide_false by lia. cbn [reject_if mbind result_bind].
    rewrite (proj2 (IH _ _) (conj Ha Hr)). simpl. rewrite <- Hn. by destruct v.
Qed.

Lemma validate_revoked_iff prior l u :
  validate_revoked prior l = Ok u ↔ ascending prior l ∧ Forall (λ id, is_ok (parse_build_id id) = true) l.
Proof.
  revert prior. destruct u. induction l as [|x l IH]; intros prior; simpl; [by split|]. split.
  - intros H. run_ok. rename select (validate_revoked _ _ = _) into Hr. apply IH in Hr as [? ?].
    split; [done|]. constructor; [|done]. apply is_ok_Ok. eauto.
  - intros [[Ho Ha] Hf]. inversion_clear Hf as [|? ? [b Hb]%is_ok_Ok Hr]. rewrite Ho. simpl.
    rewrite Hb. simpl. by apply IH.
Qed.

Lemma validate_build_iff key ps d v :
  validate_build key ps d = Ok v ↔ (bi_platform (vb_build_id v) ∉ ps) ∧ build_ok key d v.
Proof.
  unfold validate_build. split.
  - intros H. run_ok. rename select (validate_assets _ _ = _) into Ha.
    apply validate_assets_iff in Ha as [Ha%ascending_sorted Hf].
    rename select (verify_build_signature_with_key _ _ _ _ = _) into Hv.
    unfold verify_build_signature_with_key in Hv. run_ok.
    rename select (verify_signature _ _ _ _ = _) into Hs. apply verify_signature_iff in Hs.
    rename select (decode_exact_signature _ = _) into Hd. apply decode_signature_iff in Hd as (? & ? & _).
    rename select ((_ || _) = false) into Hg.
    assert (bd_assets d ≠ [] ∧ len (bd_assets d) ≤ MAX_ASSETS_PER_BUILD ∧
            bi_platform x ∉ ps) as (Hne & Hlen & Hp) by (split_bools; split_and!; [done|lia|done]).
    assert (slen (bd_source_commit d) = 40 ∧ is_lower_hex (bd_source_commit d) = true) as Hc.
    { rename select (validate_source_commit _ = _) into Hc. unfold validate_source_commit in Hc.
      destruct (bool_decide _ && _) eqn:E; [|done]. by split_bools. }
    split; [done|]. split; simpl; auto. destruct (bd_assets d); [done|]. rewrite len_cons in *.
    pose proof (len_nonneg l). lia.
  - intros [Hp [Hid Hco [Hc1 Hc2] [Hd He] Hs Hn Hso Ha]]. rewrite Hid. cbn [mbind result_bind].
    rewrite (bool_decide_false _ Hp), (bool_decide_false (bd_assets d = [])), bool_decide_false;
      [|lia|intros E; rewrite E in Hn; by destruct Hn].
    cbn [orb reject_if mbind result_bind].
    assert (validate_source_commit (bd_source_commit d) = Ok tt) as Hv
      by (unfold validate_source_commit; by rewrite bool_decide_true, Hc2).
    rewrite Hv. cbn [mbind result_bind]. unfold decode_exact_signature.
    rewrite (proj2 (decode_signature_iff _ _ _) (conj Hd (conj He (proj1 Hs)))).
    cbn [mbind result_bind]. unfold verify_build_signature_with_key. rewrite Hid, Hv.
    cbn [mbind result_bind].
    rewrite (proj2 (verify_signature_iff _ _ _ InvalidBuildSignature tt) Hs). cbn [mbind result_bind].
    rewrite (proj2 (validate_assets_iff None _ _) (conj (proj2 (ascending_sorted _) Hso) Ha)).
    cbn [mbind result_bind]. rewrite <- Hco. by destruct v.
Qed.

(** Android comes first, by its name. *)
Lemma android_first v v' : str_lt (id_text (mkBuildId "android" v)) (id_text (mkBuildId "web" v')) = true.
Proof. done. Qed.
Lemma web_second v v' : str_lt (id_text (mkBuildId "web" v)) (id_text (mkBuildId "android" v')) = false.
Proof. done. Qed.
Lemma parse_build_id_platform s b :
  parse_build_id s = Ok b → bi_platform b = "android"%string ∨ bi_platform b = "web"%string.
Proof.
  unfold parse_build_id. intros H. run_ok. destruct x0 as [p v]. run_ok.
  rename select ((_ || _) = false) into Hg. split_bools.
  rename select ((_ || _) = true) into Ho. apply orb_true_iff in Ho as [Ho|Ho]; split_bools; auto.
Qed.

Lemma validate_builds_cons key prior ps d l vs ps' :
  validate_builds key prior ps (d :: l) = Ok (vs, ps') ↔
  ∃ v vs', vs = v :: vs' ∧ out_of_order prior (bd_build_id d) = false ∧
    (bi_platform (vb_build_id v) ∉ ps) ∧ build_ok key d v ∧
    validate_builds key (Some (bd_build_id d)) (ps ∪ {[bi_platform (vb_build_id v)]}) l = Ok (vs', ps').
Proof.
  simpl. split.
  - intros H. run_ok. rename select (validate_build _ _ _ = _) into Hv.
    apply validate_build_iff in Hv as [? ?].
    match goal with H : (let '(_, _) := ?x in _) = _ |- _ => destruct x end. run_ok. simplify_eq. eauto 10.
  - intros (v & vs' & -> & Ho & Hp & Hb & Hr). rewrite Ho. cbn [reject_if mbind result_bind].
    rewrite (proj2 (validate_build_iff _ _ _ _) (conj Hp Hb)). cbn [mbind result_bind]. by rewrite Hr.
Qed.

Lemma validate_two_iff key d1 d2 vs ps :
  validate_builds key None ∅ [d1; d2] = Ok (vs, ps) ∧
    bool_decide (Z.of_nat (size ps) ≠ MAX_BUILDS) || negb (bool_decide ("android"%string ∈ ps))
      || negb (bool_decide ("web"%string ∈ ps)) = false ↔
  Forall2 (build_ok key) [d1; d2] vs ∧
  (λ b, bi_platform (vb_build_id b)) <$> vs = ["android"; "web"]%string ∧
  ps = ∅ ∪ {["android"%string]} ∪ {["web"%string]}.
Proof.
  rewrite validate_builds_cons. setoid_rewrite validate_builds_cons. split.
  - intros [(v1 & l1 & -> & _ & _ & B1 & v2 & l2 & -> & Ho & Hn & B2 & [= <- <-]) Hg].
    split; [constructor; [done|constructor; [done|by constructor]]|]. simpl in *.
    pose proof (parse_build_id_text _ _ (bo_id _ _ _ B1)) as T1.
    pose proof (parse_build_id_text _ _ (bo_id _ _ _ B2)) as T2.
    unfold out_of_order in Ho. apply negb_false_iff in Ho. rewrite T1, T2 in Ho.
    destruct (vb_build_id v1) as [p1 w1] eqn:I1, (vb_build_id v2) as [p2 w2] eqn:I2. simpl in *.
    destruct (parse_build_id_platform _ _ (bo_id _ _ _ B1)) as [E1|E1];
      destruct (parse_build_id_platform _ _ (bo_id _ _ _ B2)) as [E2|E2];
      rewrite I1 in E1; rewrite I2 in E2; simpl in *; subst; clear Hg.
    + destruct Hn. by apply elem_of_union_r, elem_of_singleton.
    + done.
    + by rewrite web_second in Ho.
    + destruct Hn. by apply elem_of_union_r, elem_of_singleton.
  - intros (Hf & Hp & ->). inversion Hf as [|? v1 ? l1 B1 Hf1]; subst.
    inversion Hf1 as [|? v2 ? l2 B2 Hf2]; subst. inversion Hf2; subst. simpl in Hp.
    injection Hp as E1 E2. split; [|by vm_compute].
    exists v1, [v2]. split_and!; [done|done|apply not_elem_of_empty|done|]. exists v2, [].
    split_and!; [done| |rewrite E1, E2; by vm_compute|done|by rewrite E1, E2].
    pose proof (parse_build_id_text _ _ (bo_id _ _ _ B1)) as T1.
    pose proof (parse_build_id_text _ _ (bo_id _ _ _ B2)) as T2.
    rewrite T1, T2. destruct (vb_build_id v1), (vb_build_id v2). simpl in *. by subst.
Qed.

Lemma saturating_sub_le a b c : 0 ≤ c → saturating_sub a b ≤ c ↔ a - b ≤ c.
Proof. unfold saturating_sub. lia. Qed.

Lemma validate_manifest_iff key d json now m :
  validate_manifest key d json now = Ok m ↔ manifest_ok key json d now m.
Proof.
  unfold validate_manifest. split.
  - intros H. run_ok. destruct x7 as [vs ps]. run_ok.
    rename select (validate_builds _ _ _ _ = _) into Hb.
    rename select (validate_revoked _ _ = _) into Hr.
    apply validate_revoked_iff in Hr as [Hr%ascending_sorted Hp].
    repeat match goal with
      H : parse_decimal _ _ = Ok _ |- _ => apply parse_decimal_iff in H as (? & ? & ?) end.
    repeat match goal with H : (_ || _) = false |- _ => revert H end. intros Hguard Htimes Hps.
    assert (len (md_builds d) = MAX_BUILDS) as Hl
      by (split_bools; by destruct (decide (len (md_builds d) = MAX_BUILDS))).
    destruct (md_builds d) as [|d1 [|d2 [|d3 l]]] eqn:Ed; try done;
      [|unfold len, MAX_BUILDS in Hl; simpl in Hl; lia].
    destruct (proj1 (validate_two_iff _ _ _ _ _) (conj Hb Hps)) as (Hf & Hpl & _).
    clear Hps Hl Hb. split_bools. rename select (¬ _ < saturating_sub _ _) into Hlife.
    apply Z.nlt_ge, saturating_sub_le in Hlife; [|done].
    split; simpl; rewrite ?Ed; try done; split_and!; try done; try lia.
  - intros [Hj (N1 & N2 & N3) [Hs1 Hs2] (T1 & T2 & T3) (W1 & W2 & W3) [A1 A2] Hb Hp (R1 & R2 & R3 & R4)].
    destruct m as [json' seq issued nb ex vs rv]. simpl in *. subst json' rv.
    destruct (md_builds d) as [|d1 [|d2 [|d3 l]]] eqn:Ed;
      (apply Forall2_length in Hb as Hbl; apply (f_equal length) in Hp as Hpl;
       rewrite length_fmap in Hpl; simpl in Hbl, Hpl; try lia).
    destruct (proj2 (validate_two_iff key d1 d2 vs _) (conj Hb (conj Hp eq_refl))) as [Hv Hg].
    rewrite (bool_decide_true _ N1), (bool_decide_true _ N2), (bool_decide_true _ N3).
    rewrite (bool_decide_false (len [d1; d2] ≠ _)) by (intros Hx; by apply Hx).
    rewrite (bool_decide_false (MAX_REVOKED_BUILDS < _)) by lia. cbn [negb orb reject_if mbind result_bind].
    rewrite (proj2 (parse_decimal_iff (md_sequence d) false seq)) by (split_and!; [lia..|right; lia|exact Hs2]).
    rewrite (proj2 (parse_decimal_iff (md_issued_at_ms d) true issued)) by (split_and!; [lia..|by left|exact W1]).
    rewrite (proj2 (parse_decimal_iff (md_not_before_ms d) true nb)) by (split_and!; [lia..|by left|exact W2]).
    rewrite (proj2 (parse_decimal_iff (md_expires_at_ms d) true ex)) by (split_and!; [lia..|by left|exact W3]).
    cbn [mbind result_bind]. rewrite !(bool_decide_false (_ < _)), !(bool_decide_false (_ ≤ _));
      [|lia|lia|apply Z.nlt_ge, saturating_sub_le; done|lia|lia].
    cbn [orb reject_if mbind result_bind]. rewrite Hv. cbn [mbind result_bind]. rewrite Hg.
    cbn [reject_if mbind result_bind].
    by rewrite (proj2 (validate_revoked_iff None _ tt) (conj (proj2 (ascending_sorted _) R3) R4)).
Qed.
End policy.

(** ** The mirror and what it installs *)

Section mirror.
Context {B64 : Base64} {REL : ReleaseEnv}.

(** The manifest was signed by the key and says what it has to say. *)
Definition authentic (key : bytes) (i : InstalledReleaseManifest) : Prop :=
  ∃ json d now, signs key (manifest_transcript json) (in_signature i) ∧
    parse_manifest json = Some d ∧ print_manifest d = Some json ∧
    manifest_ok key json d now (in_manifest i).

Lemma verify_iff key json sig now m :
  verify_release_manifest_with_key key json sig now = Ok m ↔
  0 < len json ≤ MAX_MANIFEST_BYTES ∧ signs key (manifest_transcript json) sig ∧
  ∃ d, parse_manifest json = Some d ∧ print_manifest d = Some json ∧ manifest_ok key json d now m.
Proof.
  unfold verify_release_manifest_with_key, parse_canonical_manifest. split.
  - intros H. run_ok.
    rename select (verify_signature _ _ _ _ = _) into Hs. apply verify_signature_iff in Hs.
    rename select (validate_manifest _ _ _ _ = _) into Hv. apply validate_manifest_iff in Hv.
    split_bools. simplify_eq. destruct json as [|b json]; [done|].
    rewrite len_cons in *. pose proof (len_nonneg json). split; [lia|]. eauto.
  - intros (Hl & Hs & d & Hd & Hj & Hm). rewrite (bool_decide_false (json = []));
      [|intros ->; by destruct Hl]. rewrite (bool_decide_false (_ < _)) by lia.
    cbn [orb reject_if mbind result_bind]. rewrite Hd. cbn [ok_or mbind result_bind]. rewrite Hj.
    cbn [ok_or mbind result_bind]. rewrite (bool_decide_true (json = json)) by done.
    cbn [negb reject_if mbind result_bind].
    rewrite (proj2 (verify_signature_iff _ _ _ InvalidManifestSignature tt) Hs).
    by apply validate_manifest_iff.
Qed.

Definition refreshed (s s' : ReleaseAdmissionStore) : Prop :=
  ∃ get now, s' = (refresh get now s).2.

Lemma embedded_key_is_root key : embedded_release_key = Ok key → key = RELEASE_PUBKEY.
Proof. unfold embedded_release_key. intros H. run_ok. by case_match; run_ok. Qed.
(** A refresh keeps the manifest, or installs an authentic one with a greater
    sequence number. *)
Lemma refreshed_cases s s' :
  refreshed s s' → s' = s ∨ ∃ i, s' = Some i ∧ authentic RELEASE_PUBKEY i ∧
    ∀ i0, s = Some i0 → vm_sequence (in_manifest i0) < vm_sequence (in_manifest i).
Proof.
  intros (get & now & ->). unfold refresh.
  destruct (fetch_manifest get now) as [[m sig]|e] eqn:Hf; [|by left].
  assert (authentic RELEASE_PUBKEY (mkInstalled m sig)) as Ha.
  { unfold fetch_manifest in Hf. run_ok.
    repeat match goal with H : (let '(_, _) := ?x in _) = _ |- _ => destruct x end. run_ok.
    match goal with H : match verify_release_manifest_with_embedded_key ?j ?s ?n with _ => _ end = _ |- _ =>
      destruct (verify_release_manifest_with_embedded_key j s n) as [v|] eqn:Hv end; run_ok.
    simplify_eq. unfold verify_release_manifest_with_embedded_key in Hv. run_ok.
    rename select (embedded_release_key = _) into Hk. apply embedded_key_is_root in Hk as ->.
    rename select (verify_release_manifest_with_key _ _ _ _ = _) into Hv.
    apply verify_iff in Hv as (_ & ? & d & ? & ? & ?). by eexists _, _, _. }
  unfold install. destruct s as [i0|]; simpl; [|right; eexists; split_and!; [done..|by intros]].
  repeat case_bool_decide; simpl; auto. right. eexists. split_and!; [done..|].
  intros ? [= <-]. simpl. lia.
Qed.

(** The states of a mirror. *)
Definition mirror_reaches (s : ReleaseAdmissionStore) : Prop := rtc refreshed None s.
Lemma reaches_authentic s i : mirror_reaches s → s = Some i → authentic RELEASE_PUBKEY i.
Proof.
  intros Hr. revert i. refine (rtc_ind_r (λ s, ∀ i, s = Some i → _) _ _ _ _ Hr); [done|].
  intros s1 s2 _ Hs IH i ->. apply refreshed_cases in Hs as [<-|(i' & [= <-] & Ha & _)]; auto.
Qed.

(** The builds of an authentic manifest are found by their platform. *)
Lemma platform_build m b p v :
  (λ b, bi_platform (vb_build_id b)) <$> vm_builds m = ["android"; "web"]%string →
  b ∈ vm_builds m ∧ vb_build_id b = mkBuildId p v ↔
  build_for_platform m p = Some b ∧ bi_version (vb_build_id b) = v.
Proof.
  intros Hp. unfold build_for_platform. destruct (vm_builds m) as [|b1 [|b2 [|]]]; try done.
  simpl in Hp. injection Hp as E1 E2. simpl. split.
  - intros [Hb Eb]. apply list_elem_of_In in Hb. destruct Hb as [<-|[<-|[]]]; split; try by rewrite Eb.
    + rewrite Eb in E1 |- *. simpl in *. by rewrite bool_decide_true.
    + rewrite E1. rewrite Eb in E2 |- *. simpl in *. subst p.
      by rewrite bool_decide_false, bool_decide_true.
  - intros [Hf <-]. assert (bi_platform (vb_build_id b) = p) as Eb.
    { destruct (bool_decide (_ = p)) eqn:Hb; [|destruct (bool_decide (_ = p)) eqn:Hb' in Hf];
        simplify_eq; by split_bools. }
    split; [|rewrite <- Eb; by destruct (vb_build_id b)]. repeat case_match; simplify_eq; set_solver.
Qed.
End mirror.

(** ** Theorems *)

Section theorems.
Context {B64 : Base64} {REL : ReleaseEnv}.

(** C8: a manifest is accepted exactly when it is what the release key may sign.
    The text is at most 256 KiB and is the canonical text of its document; the key
    signed it; it names this project and channel, a positive sequence number and
    a window of at most 366 days that holds the present moment; it has one signed
    Android and one signed web build, in that order, each with between 1 and 128
    assets in strictly ascending order of relative paths without hidden or parent
    components, with digests and sizes in their only spelling; and the revoked
    builds are at most 128 well-formed identifiers in strictly ascending order.
    The verified manifest holds exactly these values. *)
Theorem manifest_accepted_exactly (key json signature : bytes) (now : Z)
    (m : VerifiedReleaseManifest) :
  verify_release_manifest_with_key key json signature now = Ok m ↔
  0 < len json ≤ MAX_MANIFEST_BYTES ∧ signs key (manifest_transcript json) signature ∧
  ∃ d, parse_manifest json = Some d ∧ print_manifest d = Some json ∧ manifest_ok key json d now m.
Proof. apply verify_iff. Qed.

(** C6: a build is admitted exactly when it is a current release.  Whatever the
    network has answered to the mirror since the start of the relay, a client is
    admitted exactly when a manifest is installed whose window holds the present
    moment, and it attests the platform and version of one of its builds, not
    revoked, with the very signature of that build; and that signature is one of
    the release key for this build and its source commit. *)
Theorem admission_exact (s : ReleaseAdmissionStore) (q : BuildAttestationRequest) (now : Z) :
  mirror_reaches s →
  admit_build q now s = Ok tt ↔
  ∃ i b, s = Some i ∧ vm_not_before_ms (in_manifest i) ≤ now < vm_expires_at_ms (in_manifest i) ∧
    b ∈ vm_builds (in_manifest i) ∧ vb_build_id b = mkBuildId (ba_platform q) (ba_version q) ∧
    (id_text (vb_build_id b) ∉ vm_revoked_build_ids (in_manifest i)) ∧
    b64_decode (ba_build_signature_b64 q) = Some (vb_build_signature b) ∧
    b64_encode (vb_build_signature b) = ba_build_signature_b64 q ∧
    signs RELEASE_PUBKEY (build_transcript (id_text (vb_build_id b)) (vb_source_commit b))
      (vb_build_signature b).
Proof.
  intros Hr.
  assert (∀ i, s = Some i → authentic RELEASE_PUBKEY i) as Hauth
    by (intros i Hi; by eapply reaches_authentic).
  unfold admit_build. set (id := (ba_platform q +:+ "@" +:+ ba_version q)%string).
  assert (∀ b, vb_build_id b = mkBuildId (ba_platform q) (ba_version q) → id_text (vb_build_id b) = id)
    as Hid by (by intros b ->).
  split.
  - intros H. run_ok. rename select (decode_signature _ _ = _) into Hd.
    apply decode_signature_iff in Hd as (Hd & He & Hl).
    rename select InstalledReleaseManifest into i. rename select VerifiedReleaseBuild into b.
    rename select (_ ≫= _ = Some b) into Hb. apply bind_Some in Hb as (b' & Hb & Hv).
    destruct (bool_decide (bi_version (vb_build_id b') = _)) eqn:Hver; simplify_eq. split_bools.
    destruct (Hauth i) as (json & d & t & _ & _ & _ & Hm); [done|].
    destruct (proj2 (platform_build _ b (ba_platform q) (ba_version q) (mo_platforms _ _ _ _ _ Hm)))
      as [Hin Eb]; [done|]. pose proof (Hid b Eb) as Ei.
    destruct (list_elem_of_lookup_1 _ _ Hin) as [k Hk].
    destruct (Forall2_lookup_r _ _ _ _ _ (mo_builds _ _ _ _ _ Hm) Hk) as (db & _ & Hdb).
    pose proof (parse_build_id_text _ _ (bo_id _ _ _ Hdb)) as Et.
    exists i, b. split_and!; [done|lia|lia|done|done| |congruence|congruence|].
    + rewrite Ei. intros Hrev. destruct (mo_revoked _ _ _ _ _ Hm) as (Erev & _ & Hsort & _).
      rename select (is_revoked _ _ = false) into Hnot. unfold is_revoked in Hnot.
      rewrite Erev in *. apply binary_search_spec in Hrev; [|done]. congruence.
    + rewrite <- Et, (bo_commit _ _ _ Hdb). apply Hdb.
  - intros (i & b & -> & Ht & Hin & Eb & Hrev & Hd & He & Hs).
    destruct (Hauth i) as (json & d & t & _ & _ & _ & Hm); [done|]. pose proof (Hid b Eb) as Ei.
    destruct (list_elem_of_lookup_1 _ _ Hin) as [k Hk].
    destruct (Forall2_lookup_r _ _ _ _ _ (mo_builds _ _ _ _ _ Hm) Hk) as (db & _ & Hdb).
    pose proof (bo_id _ _ _ Hdb) as Hp. rewrite (parse_build_id_text _ _ Hp), Ei in Hp.
    rewrite Hp. cbn [is_ok negb reject_if mbind result_bind].
    rewrite (proj2 (decode_signature_iff _ _ _) (conj Hd (conj He (proj1 Hs)))).
    cbn [ok_or mbind result_bind]. rewrite (bool_decide_false (_ < _)), (bool_decide_false (_ ≤ _)) by lia.
    cbn [reject_if mbind result_bind].
    assert (is_revoked (in_manifest i) id = false) as Hnot.
    { apply not_true_iff_false. unfold is_revoked.
      destruct (mo_revoked _ _ _ _ _ Hm) as (Erev & _ & Hsort & _).
      rewrite binary_search_spec by (by rewrite Erev). by rewrite <- Ei. }
    rewrite Hnot. cbn [reject_if mbind result_bind].
    destruct (proj1 (platform_build _ b _ _ (mo_platforms _ _ _ _ _ Hm)) (conj Hin Eb)) as [Hf Hv].
    rewrite Hf. cbn [mbind option_bind]. rewrite (bool_decide_true _ Hv). cbn [ok_or mbind result_bind].
    by rewrite bool_decide_true.
Qed.

(** C7: releases are never rolled back.  Once a manifest is installed one stays
    installed, and what replaces it has a greater sequence number, whatever the
    network answers: there are never two manifests with the same number. *)
Theorem release_never_rolled_back (s s' : ReleaseAdmissionStore) (i : InstalledReleaseManifest) :
  rtc refreshed s s' → s = Some i →
  ∃ i', s' = Some i' ∧ (i' = i ∨ vm_sequence (in_manifest i) < vm_sequence (in_manifest i')).
Proof.
  intros Hr. revert i. induction Hr as [s|s1 s2 s3 Hs _ IH]; intros i ->; [eauto|].
  apply refreshed_cases in Hs as [->|(i2 & -> & _ & Hseq)]; [by apply IH|].
  destruct (IH i2 eq_refl) as (i3 & -> & [->|Hlt]); specialize (Hseq i eq_refl); eexists;
    (split; [done|]); right; lia.
Qed.
End theorems.

(** ** A concrete mirror *)

(** A manifest with number 42, then one with number 43, then the first again.
    Base64 is the bytes themselves, a signature is valid when it is one constant,
    and the text of a manifest is its number. *)
Module ReleaseRun.

#[local] Instance base64 : Base64 := {| b64_encode b := bytes_text b; b64_decode s := Some (text_bytes s) |}.
Definition signature : bytes := replicate 64 Byte.x07.
Definition asset (name : string) : ReleaseAssetDocument :=
  mkAssetDocument name (hex (replicate 32 Byte.xab)) "1048576".
Definition commit : string := hex (replicate 20 Byte.x1f).
Definition build (id name : string) : ReleaseBuildDocument :=
  mkBuildDocument id commit (bytes_text signature) [asset name].
Definition document (sequence version : string) : ReleaseManifestDocument :=
  mkManifestDocument RELEASE_MANIFEST_SCHEMA RELEASE_PROJECT RELEASE_CHANNEL sequence "1000" "1000"
    "90000"
    [build ("android@" +:+ version) "abyssal.apk"; build ("web@" +:+ version) "web/abyssal.tar.zst"]
    ["android@1.9.0"; "web@1.8.0"; "web@1.9.0"].
Definition first : ReleaseManifestDocument := document "42" "2.1.0".
Definition second : ReleaseManifestDocument := document "43" "2.2.0".

Definition url (text host : string) : ReleaseUrl :=
  mkUrl text "https" EmptyString None (Some host) None None None.
#[local] Instance env : ReleaseEnv := {|
  parse_manifest json :=
    if bool_decide (json = text_bytes "42") then Some first
    else if bool_decide (json = text_bytes "43") then Some second else None;
  print_manifest d := Some (text_bytes (md_sequence d));
  parse_github_release body :=
    Some (mkGithubRelease false false
      [mkGithubAsset RELEASE_MANIFEST_ASSET (bytes_text body); mkGithubAsset "notes.txt" "notes";
       mkGithubAsset RELEASE_SIGNATURE_ASSET "sig"]);
  parse_url text :=
    Some (url text (if bool_decide (text = RELEASE_API_URL) then "api.github.com" else "github.com"));
  verifying_key _ := true;
  verify_strict _ _ s := bool_decide (s = signature)
|}.

(** The network serves the manifest with the number. *)
Definition serve (number : string) (u : ReleaseUrl) : option Response :=
  let body :=
    if bool_decide (ru_text u = RELEASE_API_URL) then text_bytes number
    else if bool_decide (ru_text u = "sig"%string) then signature
    else text_bytes (ru_text u) in
  Some (mkResponse true None [Some body]).
Definition s1 : ReleaseAdmissionStore := (refresh (serve "42") 2000 None).2.
Definition s2 : ReleaseAdmissionStore := (refresh (serve "43") 2000 s1).2.
Definition s3 : ReleaseAdmissionStore := (refresh (serve "42") 2000 s2).2.

Definition attest (version : string) : BuildAttestationRequest :=
  mkAttestation "android" version (bytes_text signature).

Example mirrored :
  ((refresh (serve "42") 2000 None).1, (refresh (serve "43") 2000 s1).1,
   (refresh (serve "42") 2000 s2).1, (refresh (serve "42") 90000 None).1,
   admit_build (attest "2.1.0") 2000 s1, admit_build (attest "2.1.0") 2000 s2,
   admit_build (attest "1.9.0") 2000 s1, admit_build (attest "2.1.0") 90000 s1) =
  (Ok Installed, Ok Installed, Err RefreshError.Rollback, Err RefreshError.InvalidManifest,
   Ok tt, Err InvalidBuild, Err InvalidBuild, Err Expired).
Proof. vm_compute. reflexivity. Qed.

Lemma reaches_s1 : mirror_reaches s1.
Proof. eapply rtc_l; [by exists (serve "42"), 2000|apply rtc_refl]. Qed.

Lemma admission_exact_witness :
  ∃ i b, s1 = Some i ∧ b ∈ vm_builds (in_manifest i) ∧
    vb_build_id b = mkBuildId "android" "2.1.0" ∧
    signs RELEASE_PUBKEY (build_transcript (id_text (vb_build_id b)) (vb_source_commit b))
      (vb_build_signature b).
Proof.
  assert (admit_build (attest "2.1.0") 2000 s1 = Ok tt) as H by (vm_compute; reflexivity).
  apply (admission_exact s1 (attest "2.1.0") 2000 reaches_s1) in H
    as (i & b & Hi & _ & Hb & He & _ & _ & _ & Hs).
  exists i, b. exact (conj Hi (conj Hb (conj He Hs))).
Defined.

Definition installed : InstalledReleaseManifest :=
  default (mkInstalled (mkVerifiedManifest [] 0 0 0 0 [] []) []) s1.
Lemma release_never_rolled_back_witness :
  vm_sequence (in_manifest installed) = 42 ∧
  ∃ i', s3 = Some i' ∧ (i' = installed ∨ 42 < vm_sequence (in_manifest i')).
Proof.
  split; [vm_compute; reflexivity|].
  apply (release_never_rolled_back s1 s3 installed); [|vm_compute; reflexivity].
  eapply rtc_l; [exists (serve "43"), 2000; reflexivity|].
  eapply rtc_l; [exists (serve "42"), 2000; reflexivity|apply rtc_refl].
Defined.
End ReleaseRun.
