(* ===== verification/Mailbox.v ===== *)
(** * Undelivered messages and leased prekeys (mirage-server/src/messages.rs, main.rs)

    A direct message waits, for each recipient, in the queue of its conversation
    until the recipient acknowledges it, it expires, or a newer message evicts
    it.  A message that starts a session uses a one-time key of its recipient,
    which the sender leased before: the lease lives for thirty seconds, and for
    as long as such a message waits.  Identifiers of accepted messages are
    remembered for a day. *)

From S2P Require Import Prelude TransportWire RoomModel AttachmentStore RelayFrame RateLimit Relay.
From S2P Require Import IdentityBundle.

Definition MAX_PENDING_FRAMES_PER_ROOM : Z := 500.
Definition MAX_PENDING_BYTES : Z := 256 * 1024 * 1024.
Definition MAX_TRANSIENT_FANOUT_BYTES : Z := 64 * 1024 * 1024.
Definition REPLAY_WINDOW_MS : Z := 24 * 60 * 60 * 1000.
Definition MAX_REPLAY_IDS : Z := 50000.
Definition MAX_REPLAY_IDS_PER_SENDER : Z := 2048.
Definition PREKEY_LEASE_TTL_MS : Z := 30000.
Definition MAX_PREKEY_LEASES : Z := 4096.
Definition MAX_PREKEY_LEASES_PER_RECIPIENT : Z := PREKEY_POOL_SIZE_V9.

(** ** State *)

Record PendingKey : Type := mkPendingKey { pk_chat_id : string; pk_recipient_username : string }.
#[export] Instance PendingKey_eq_dec : EqDecision PendingKey.
Proof. solve_decision. Defined.
#[export] Instance PendingKey_countable : Countable PendingKey.
Proof.
  refine (inj_countable' (λ k, (pk_chat_id k, pk_recipient_username k))
    (λ '(c, r), mkPendingKey c r) _). by intros [].
Defined.

Record PendingFrame : Type := mkPendingFrame {
  pf_frame : OutboundFrame.t;
  pf_enqueued_at_ms : Z;
  pf_sender_platform : ClientPlatform
}.

Record PrekeyLeaseKey : Type := mkLeaseKey { lk_code_id : CodeId; lk_prekey_id : string }.
#[export] Instance PrekeyLeaseKey_eq_dec : EqDecision PrekeyLeaseKey.
Proof. solve_decision. Defined.
#[export] Instance PrekeyLeaseKey_countable : Countable PrekeyLeaseKey.
Proof.
  refine (inj_countable' (λ k, (lk_code_id k, lk_prekey_id k)) (λ '(c, p), mkLeaseKey c p) _).
  by intros [].
Defined.

Record PrekeyLease : Type := mkLease {
  ls_chat_id : string;
  ls_message_id : string;
  ls_sender_username : string;
  ls_recipient_username : string;
  ls_created_at_ms : Z
}.

(** [ReplayKey] of main.rs. *)
Record MessageKey : Type := mkMessageKey {
  rk_chat_id : string;
  rk_sender_username : string;
  rk_message_id : string
}.
#[export] Instance MessageKey_eq_dec : EqDecision MessageKey.
Proof. solve_decision. Defined.
#[export] Instance MessageKey_countable : Countable MessageKey.
Proof.
  refine (inj_countable' (λ k, (rk_chat_id k, rk_sender_username k, rk_message_id k))
    (λ '(c, s, m), mkMessageKey c s m) _). by intros [].
Defined.

Record Mailbox : Type := mkMailbox {
  mb_pending : gmap PendingKey (list PendingFrame);
  mb_pending_bytes : Z;
  mb_prekey_leases : gmap PrekeyLeaseKey PrekeyLease;
  mb_replay_ids : gmap MessageKey Z
}.
Definition set_mb_pending v b m := mkMailbox v b (mb_prekey_leases m) (mb_replay_ids m).
Definition set_mb_leases v m := mkMailbox (mb_pending m) (mb_pending_bytes m) v (mb_replay_ids m).
Definition set_mb_replay_ids v m :=
  mkMailbox (mb_pending m) (mb_pending_bytes m) (mb_prekey_leases m) v.
Definition mailbox_new : Mailbox := mkMailbox ∅ 0 ∅ ∅.

(** ** Frames *)

Definition is_prekey_frame (frame : OutboundFrame.t) : bool :=
  match frame with
  | OutboundFrame.Message m =>
      om_is_prekey m && negb (bool_decide (om_prekey_id m = EmptyString))
  | _ => false
  end.

(** Conversation, message, sender and prekey. *)
Definition prekey_lease_details (frame : OutboundFrame.t)
    : option (string * string * string * string) :=
  match frame with
  | OutboundFrame.Message m =>
      if om_is_prekey m && negb (bool_decide (om_prekey_id m = EmptyString))
      then Some (om_chat_id m, om_message_id m, om_sender_username m, om_prekey_id m)
      else None
  | _ => None
  end.

Definition validated_outbound_frame_bytes (frame : OutboundFrame.t) : option Z :=
  let bytes := outbound_frame_bytes frame in
  match frame with
  | OutboundFrame.Message _ => if bool_decide (WS_MAX_FRAME_BYTES < bytes) then None else Some bytes
  | _ => Some bytes
  end.

(** ** Leases *)

Definition release_prekey_lease_details_locked (claims : gmap PrekeyLeaseKey PrekeyLease)
    (details : string * string * string * string) : gmap PrekeyLeaseKey PrekeyLease :=
  let '(chat_id, message_id, sender_username, prekey_id) := details in
  retain (λ key claim,
    negb (bool_decide (ls_chat_id claim = chat_id) && bool_decide (ls_message_id claim = message_id)
          && bool_decide (ls_sender_username claim = sender_username)
          && bool_decide (lk_prekey_id key = prekey_id))) claims.

(** A queue as the simulations see it: the bytes of each frame and whether it
    uses a prekey. *)
Abbreviation Simulated := (gmap PendingKey (list (Z * bool))).

Section mailbox.
Context {HO : HashOrder}.

(** A waiting frame that uses the lease. *)
Definition uses_lease (key : PrekeyLeaseKey) (claim : PrekeyLease) (f : PendingFrame) : bool :=
  match pf_frame f with
  | OutboundFrame.Message m =>
      om_is_prekey m && bool_decide (om_chat_id m = ls_chat_id claim)
      && bool_decide (om_message_id m = ls_message_id claim)
      && bool_decide (om_sender_username m = ls_sender_username claim)
      && bool_decide (om_prekey_id m = lk_prekey_id key)
  | _ => false
  end.

Definition pending_contains_leased_frame (pending : gmap PendingKey (list PendingFrame))
    (key : PrekeyLeaseKey) (claim : PrekeyLease) : bool :=
  existsb (λ kq,
    bool_decide (pk_recipient_username kq.1 = ls_recipient_username claim)
    && existsb (uses_lease key claim) kq.2) (hash_iter pending).

Definition prune_prekey_leases (pending : gmap PendingKey (list PendingFrame)) (now : Z)
    (claims : gmap PrekeyLeaseKey PrekeyLease) : gmap PrekeyLeaseKey PrekeyLease :=
  retain (λ key claim,
    bool_decide (saturating_sub now (ls_created_at_ms claim) < PREKEY_LEASE_TTL_MS)
    || pending_contains_leased_frame pending key claim) claims.

(** ** Expiry *)

Definition frame_expired (now ttl : Z) (f : PendingFrame) : bool :=
  bool_decide (ttl ≤ saturating_sub now (pf_enqueued_at_ms f)).

Definition nonempty {A} (l : list A) : bool := negb (bool_decide (l = [])).

(** The frames the sweep removes, in the order it meets them. *)
Definition expired_frames (now ttl : Z) (pending : gmap PendingKey (list PendingFrame))
    : list PendingFrame :=
  concat ((λ kq, List.filter (frame_expired now ttl) kq.2) <$> hash_iter pending).

Definition release_bytes (bytes : Z) (frames : list PendingFrame) : Z :=
  foldl (λ b f, saturating_sub b (outbound_frame_bytes (pf_frame f))) bytes frames.

Definition prune_pending_queues_locked (now ttl : Z) (m : Mailbox) : Z * Mailbox :=
  let expired := expired_frames now ttl (mb_pending m) in
  let pending :=
    retain (λ _ q, nonempty q)
      (List.filter (λ f, negb (frame_expired now ttl f)) <$> mb_pending m) in
  let claims :=
    foldl release_prekey_lease_details_locked (mb_prekey_leases m)
      (omap (λ f, prekey_lease_details (pf_frame f)) expired) in
  (len expired,
   set_mb_leases (prune_prekey_leases pending now claims)
     (set_mb_pending pending (release_bytes (mb_pending_bytes m) expired) m)).

Definition prune_pending_queues (now ttl : Z) (m : Mailbox) : Mailbox :=
  (prune_pending_queues_locked now ttl m).2.

(** ** Admission *)

(** [PendingQueuePlan]. *)
Record PendingQueuePlan : Type := mkPlan {
  pq_key : PendingKey;
  pq_eviction_index : option nat;
  pq_evicted : option PendingFrame
}.

Definition simulate_frame (f : PendingFrame) : option (Z * bool) :=
  bytes ← validated_outbound_frame_bytes (pf_frame f); Some (bytes, is_prekey_frame (pf_frame f)).

(** The copy of the queues, or nothing when a stored frame is not valid. *)
Definition simulate (pending : gmap PendingKey (list PendingFrame)) : option Simulated :=
  foldr (λ kq acc,
    sim ← acc; queue ← mapM simulate_frame kq.2; Some (<[kq.1 := queue]> sim)) (Some ∅)
    (hash_iter pending).

(** [Vec::remove]. *)
Definition remove_at {A} (i : nat) (l : list A) : list A := take i l ++ drop (S i) l.

(** [queue.iter().position(|(_, is_prekey)| !*is_prekey)]. *)
Definition first_evictable (queue : list (Z * bool)) : option nat :=
  fst <$> list_find (λ f, f.2 = false) queue.

(** A full queue loses its first frame without a prekey: yields the index, the
    queue and the bytes then projected. *)
Definition make_room (full : string) (queue : list (Z * bool)) (projected_bytes : Z)
    : result string (option nat * list (Z * bool) * Z) :=
  if bool_decide (MAX_PENDING_FRAMES_PER_ROOM ≤ len queue) then
    index ← ok_or (first_evictable queue) full;
    let evicted_bytes := default 0 (fst <$> queue !! index) in
    Ok (Some index, remove_at index queue, saturating_sub projected_bytes evicted_bytes)
  else Ok (None, queue, projected_bytes).

(** The bytes of the frame and the bytes then projected. *)
Definition charge (over : string) (frame : OutboundFrame.t) (projected_bytes : Z)
    : result string (Z * Z) :=
  incoming_bytes ← ok_or (validated_outbound_frame_bytes frame) "pending frame rejected"%string;
  projected_next ← ok_or (checked_add usize_MAX projected_bytes incoming_bytes) over;
  _ ← reject_if (bool_decide (MAX_PENDING_BYTES < projected_next)) over;
  Ok (incoming_bytes, projected_next).

(** The bytes a fan-out holds while it is prepared. *)
Fixpoint transient_fanout_bytes (total : Z) (frames : list (string * OutboundFrame.t))
    : result string Z :=
  match frames with
  | [] => Ok total
  | (recipient, frame) :: frames =>
      bytes ← ok_or (validated_outbound_frame_bytes frame) "fanout preparation budget full"%string;
      sum ← ok_or (checked_add usize_MAX bytes (slen recipient))
              "fanout preparation budget full"%string;
      total ← ok_or (checked_add usize_MAX total sum) "fanout preparation budget full"%string;
      _ ← reject_if (bool_decide (MAX_TRANSIENT_FANOUT_BYTES < total))
            "fanout preparation budget full"%string;
      transient_fanout_bytes total frames
  end.

Fixpoint plan_frames (frames : list (string * OutboundFrame.t)) (sim : Simulated)
    (projected_bytes : Z) : result string (list PendingQueuePlan) :=
  match frames with
  | [] => Ok []
  | (recipient_username, frame) :: frames =>
      chat_id ← ok_or match frame with
                      | OutboundFrame.Message m => Some (om_chat_id m)
                      | _ => None
                      end "pending frame rejected"%string;
      let key := mkPendingKey chat_id recipient_username in
      '(eviction_index, queue, projected_bytes) ←
        make_room "recipient pending queue full" (default [] (sim !! key)) projected_bytes;
      '(incoming_bytes, projected_bytes) ←
        charge "pending message budget full" frame projected_bytes;
      let sim := <[key := queue ++ [(incoming_bytes, is_prekey_frame frame)]]> sim in
      plan ← plan_frames frames sim projected_bytes;
      Ok (mkPlan key eviction_index None :: plan)
  end.

Definition preflight_pending_frames (now ttl : Z) (frames : list (string * OutboundFrame.t))
    : ST Mailbox string (list PendingQueuePlan) :=
  _ ← lift (transient_fanout_bytes 0 frames);
  _ ← modify (prune_pending_queues now ttl);
  λ m,
    (sim ← ok_or (simulate (mb_pending m)) "pending frame rejected"%string;
     plan_frames frames sim (mb_pending_bytes m), m).

(** The validation of a plan against the live queues. *)
Fixpoint validate_plan (frames : list (string * OutboundFrame.t)) (plan : list PendingQueuePlan)
    (sim : Simulated) (projected_bytes : Z) : result string () :=
  match frames, plan with
  | (_, frame) :: frames, q :: plan =>
      '(expected_eviction, queue, projected_bytes) ←
        make_room "pending queue changed during commit" (default [] (sim !! pq_key q))
          projected_bytes;
      _ ← reject_if (bool_decide (expected_eviction ≠ pq_eviction_index q))
            "pending queue changed during commit"%string;
      _ ← reject_if (bool_decide (is_Some (pq_evicted q)))
            "pending frame plan already committed"%string;
      '(incoming_bytes, projected_bytes) ←
        charge "pending message budget changed during commit" frame projected_bytes;
      let sim := <[pq_key q := queue ++ [(incoming_bytes, is_prekey_frame frame)]]> sim in
      validate_plan frames plan sim projected_bytes
  | _, _ => Ok tt
  end.

(** The frame at the planned index leaves a full queue. *)
Definition evict_planned (q : PendingQueuePlan) (queue : list PendingFrame) (pending_bytes : Z)
    : result string (option PendingFrame * list PendingFrame * Z) :=
  let changed := "pending queue changed during commit"%string in
  if bool_decide (MAX_PENDING_FRAMES_PER_ROOM ≤ len queue) then
    eviction_index ← ok_or (pq_eviction_index q) changed;
    evicted ← ok_or (queue !! eviction_index) changed;
    _ ← reject_if (is_prekey_frame (pf_frame evicted)) changed;
    Ok (Some evicted, remove_at eviction_index queue,
        saturating_sub pending_bytes (outbound_frame_bytes (pf_frame evicted)))
  else
    _ ← reject_if (bool_decide (is_Some (pq_eviction_index q))) changed;
    Ok (None, queue, pending_bytes).

(** One frame of the committing loop; [or_default] leaves an empty queue behind
    when the rest fails. *)
Definition commit_frame (now : Z) (sender_platform : ClientPlatform) (frame : OutboundFrame.t)
    (q : PendingQueuePlan) : ST Mailbox string PendingQueuePlan := λ m,
  let queue := default [] (mb_pending m !! pq_key q) in
  let m := set_mb_pending (<[pq_key q := queue]> (mb_pending m)) (mb_pending_bytes m) m in
  match evict_planned q queue (mb_pending_bytes m) with
  | Err e => (Err e, m)
  | Ok (evicted, queue, pending_bytes) =>
      let m := set_mb_pending (<[pq_key q := queue]> (mb_pending m)) pending_bytes m in
      match validated_outbound_frame_bytes frame with
      | None => (Err "pending frame rejected"%string, m)
      | Some incoming_bytes =>
          match checked_add usize_MAX pending_bytes incoming_bytes with
          | None => (Err "pending message budget changed during commit"%string, m)
          | Some next_pending_bytes =>
              (Ok (mkPlan (pq_key q) (pq_eviction_index q)
                     (match evicted with Some f => Some f | None => pq_evicted q end)),
               set_mb_pending
                 (<[pq_key q := queue ++ [mkPendingFrame frame now sender_platform]]>
                    (mb_pending m)) next_pending_bytes m)
          end
      end
  end.

Fixpoint commit_frames (now : Z) (sender_platform : ClientPlatform)
    (frames : list (string * OutboundFrame.t)) (plan : list PendingQueuePlan)
    : ST Mailbox string (list PendingQueuePlan) :=
  match frames, plan with
  | (_, frame) :: frames, q :: plan =>
      q ← commit_frame now sender_platform frame q;
      plan ← commit_frames now sender_platform frames plan;
      mret (q :: plan)
  | _, _ => mret []
  end.

Definition commit_pending_frames (now : Z) (frames : list (string * OutboundFrame.t))
    (plan : list PendingQueuePlan) (sender_platform : ClientPlatform)
    : ST Mailbox string (list PendingQueuePlan) := λ m,
  if bool_decide (length frames ≠ length plan) then (Err "pending frame plan mismatch"%string, m)
  else
    match simulate (mb_pending m) with
    | None => (Err "pending queue changed during commit"%string, m)
    | Some sim =>
        match validate_plan frames plan sim (mb_pending_bytes m) with
        | Err e => (Err e, m)
        | Ok _ => commit_frames now sender_platform frames plan m
        end
    end.

(** ** Rollback *)

(** [Iterator::rposition]. *)
Fixpoint rposition {A} (p : A → bool) (l : list A) : option nat :=
  match l with
  | [] => None
  | x :: l =>
      match rposition p l with
      | Some i => Some (S i)
      | None => if p x then Some 0%nat else None
      end
  end.

Definition same_message (message_id sender_username : string) (f : PendingFrame) : bool :=
  match pf_frame f with
  | OutboundFrame.Message m =>
      bool_decide (om_message_id m = message_id)
      && bool_decide (om_sender_username m = sender_username)
  | _ => false
  end.

(** [Vec::insert]. *)
Definition insert_at {A} (i : nat) (x : A) (l : list A) : list A := take i l ++ x :: drop i l.

Definition rollback_frame (frame : OutboundFrame.t) (q : PendingQueuePlan) (m : Mailbox)
    : Mailbox :=
  match mb_pending m !! pq_key q, frame with
  | Some queue, OutboundFrame.Message msg =>
      let '(queue, bytes) :=
        match rposition (same_message (om_message_id msg) (om_sender_username msg)) queue with
        | Some index =>
            (remove_at index queue,
             saturating_sub (mb_pending_bytes m)
               (default 0 ((λ f, outbound_frame_bytes (pf_frame f)) <$> queue !! index)))
        | None => (queue, mb_pending_bytes m)
        end in
      let '(queue, bytes) :=
        match pq_evicted q with
        | Some evicted =>
            (insert_at (default (length queue) (pq_eviction_index q) `min` length queue)
               evicted queue,
             saturating_add usize_MAX bytes (outbound_frame_bytes (pf_frame evicted)))
        | None => (queue, bytes)
        end in
      set_mb_pending (<[pq_key q := queue]> (mb_pending m)) bytes m
  | _, _ => m
  end.

Fixpoint rollback_frames (frames : list (string * OutboundFrame.t))
    (plan : list PendingQueuePlan) (m : Mailbox) : Mailbox :=
  match frames, plan with
  | (_, frame) :: frames, q :: plan => rollback_frames frames plan (rollback_frame frame q m)
  | _, _ => m
  end.

Definition rollback_pending_frames (frames : list (string * OutboundFrame.t))
    (plan : list PendingQueuePlan) (m : Mailbox) : Mailbox :=
  let m := rollback_frames frames plan m in
  set_mb_pending (retain (λ _ q, nonempty q) (mb_pending m)) (mb_pending_bytes m) m.

(** ** Replay identifiers *)

Definition register_message_id (now : Z) (chat_id sender_username message_id : string)
    : ST Mailbox string () := λ m,
  let ids := retain (λ _ seen_at, bool_decide (saturating_sub now seen_at < REPLAY_WINDOW_MS))
               (mb_replay_ids m) in
  let m := set_mb_replay_ids ids m in
  let key := mkMessageKey chat_id sender_username message_id in
  if contains_key key ids then (Err "message replay rejected"%string, m)
  else if bool_decide (MAX_REPLAY_IDS_PER_SENDER ≤
            len (filter (λ k, rk_sender_username k = sender_username) (hash_keys ids)))
  then (Err "sender replay window full"%string, m)
  else if bool_decide (MAX_REPLAY_IDS ≤ map_len ids) then (Err "replay window full"%string, m)
  else (Ok tt, set_mb_replay_ids (<[key := now]> ids) m).

Definition unregister_message_id (chat_id sender_username message_id : string) (m : Mailbox)
    : Mailbox :=
  set_mb_replay_ids
    (delete (mkMessageKey chat_id sender_username message_id) (mb_replay_ids m)) m.
End mailbox.
