(* ===== verification/IdentityState.v ===== *)
(** * Identity states of accounts (mirage-server/src/messages.rs)

    Every message and acknowledgement carries the sender's sealed identity state
    with a revision, signed by its identity key.  The relay stores the newest
    one, lets the public bundle change only by the one-time key an
    acknowledgement consumed, and remembers in a 128-bit window which of the
    latest revisions were used. *)

From S2P Require Import Prelude TransportWire RoomModel RoomValidation AttachmentStore RelayFrame.
From S2P Require Import RateLimit Relay IdentityBundle.

Definition STATE_REVISION_WINDOW_BITS : Z := 128.
Definition MAX_STATE_REVISION_ADVANCE : Z := 1024.
Definition MAX_IDENTITY_ENVELOPE_BYTES : Z := 512 * 1024.
Definition MESSAGE_NONCE_BYTES : Z := 12.
Definition MESSAGE_SIGNATURE_BYTES : Z := 64.
Definition E2EE_PROTOCOL_VERSION : Z := 9.
Definition u128_MODULUS : Z := 2 ^ 128.

Definition set_ra_state (public envelope : bytes) (prekey_id : string) (revision window : Z)
    (a : RelayAccount) : RelayAccount :=
  mkRelayAccount (ra_username a) (ra_password_file a) public envelope prekey_id revision window
    (ra_connected a) (ra_client_platform a).
Definition set_ra_window (window : Z) (a : RelayAccount) : RelayAccount :=
  set_ra_state (ra_identity_public a) (ra_identity_envelope a) (ra_prekey_id a)
    (ra_state_revision a) window a.

Section state.
Context {ENV : RelayEnv} {KEYS : Keys} {B64 : Base64}.

Definition validate_prekey_pool_transition (previous_public next_public : bytes)
    (consumed_prekey_id : option string) : result string () :=
  let rejected {A} (r : result string A) : result string A :=
    match r with Ok a => Ok a | Err _ => Err "identity state rejected"%string end in
  previous ← rejected (prekey_ids_from_identity_public_v9 previous_public);
  next ← rejected (prekey_ids_from_identity_public_v9 next_public);
  match consumed_prekey_id with
  | None =>
      if bool_decide (previous = next) then Ok tt
      else Err "identity prekey pool changed without consumption"%string
  | Some consumed =>
      let removed := filter (λ id, id ∉ next) previous in
      let added := filter (λ id, id ∉ previous) next in
      if bool_decide (removed = [consumed]) && bool_decide (len added = 1)
         && negb (bool_decide (consumed ∈ next))
      then Ok tt else Err "identity prekey pool transition rejected"%string
  end.

(** The fingerprint of a public bundle. *)
Definition fingerprint (public : bytes) : bytes :=
  take (Z.to_nat IDENTITY_FINGERPRINT_BYTES) public.

(** [window << advance] on [u128] drops the bits shifted out. *)
Definition advance_window (window advance : Z) : Z :=
  if bool_decide (STATE_REVISION_WINDOW_BITS ≤ advance) then 1
  else Z.lor (Z.shiftl window advance mod u128_MODULUS) 1.

(** What the account becomes, once the envelope, the bundle and its signature
    are accepted. *)
Definition install_state (revision : Z) (envelope identity_public : bytes) (prekey_id : string)
    (allow_reuse : bool) (account : RelayAccount) : result string RelayAccount :=
  let rejected := Err "identity state rejected"%string in
  if bool_decide (ra_state_revision account < revision) then
    let advance := revision - ra_state_revision account in
    if bool_decide (MAX_STATE_REVISION_ADVANCE < advance) then rejected
    else
      Ok (set_ra_state identity_public envelope prekey_id revision
            (advance_window (ra_state_revision_window account) advance) account)
  else if bool_decide (ra_identity_public account ≠ identity_public)
          || bool_decide (ra_prekey_id account ≠ prekey_id) then rejected
  else
    let lag := ra_state_revision account - revision in
    if bool_decide (STATE_REVISION_WINDOW_BITS ≤ lag) then
      if allow_reuse then Ok account else rejected
    else
      let revision_bit := Z.shiftl 1 lag in
      if negb (bool_decide (Z.land (ra_state_revision_window account) revision_bit = 0))
         && negb allow_reuse then rejected
      else Ok (set_ra_window (Z.lor (ra_state_revision_window account) revision_bit) account).

Definition apply_identity_state_locked_with_consumed (code_id : CodeId) (revision : Z)
    (envelope_b64 identity_public_b64 prekey_id state_signature_b64 : string)
    (allow_reuse : bool) (consumed_prekey_id : option string)
    : ST (gmap CodeId RelayAccount) string () := λ accounts,
  let outcome :=
    envelope ← decode_bounded envelope_b64 MAX_IDENTITY_ENVELOPE_BYTES;
    identity_public ← decode_exact identity_public_b64 IDENTITY_PUBLIC_BYTES;
    state_signature ← decode_exact state_signature_b64 MESSAGE_SIGNATURE_BYTES;
    _ ← reject_if
          (bool_decide (len envelope ≤ 1 + MESSAGE_NONCE_BYTES)
           || bool_decide (head envelope ≠ Some IDENTITY_ENVELOPE_VERSION)
           || negb (valid_identity_public_bundle identity_public prekey_id))
          "identity state rejected"%string;
    account ← ok_or (accounts !! code_id) "authenticated identity required"%string;
    _ ← reject_if
          (bool_decide (len (ra_identity_public account) ≠ IDENTITY_PUBLIC_BYTES)
           || bool_decide (fingerprint (ra_identity_public account) ≠ fingerprint identity_public))
          "identity state rejected"%string;
    _ ← validate_prekey_pool_transition (ra_identity_public account) identity_public
          consumed_prekey_id;
    _ ← reject_if
          (negb (is_ok (verify_identity_state_signature_v9 E2EE_PROTOCOL_VERSION revision envelope
                          identity_public prekey_id state_signature)))
          "identity state rejected"%string;
    install_state revision envelope identity_public prekey_id allow_reuse account in
  match outcome with
  | Ok account => (Ok tt, <[code_id := account]> accounts)
  | Err e => (Err e, accounts)
  end.

Definition apply_identity_state_locked (code_id : CodeId) (revision : Z)
    (envelope_b64 identity_public_b64 prekey_id state_signature_b64 : string) (allow_reuse : bool)
    : ST (gmap CodeId RelayAccount) string () :=
  apply_identity_state_locked_with_consumed code_id revision envelope_b64 identity_public_b64
    prekey_id state_signature_b64 allow_reuse None.
End state.

(** ** The window is the set of used revisions *)

(** What the account remembers of the set of accepted revisions: the newest, and
    which of the 128 latest are among them. *)
Record tracks (used : gset Z) (a : RelayAccount) : Prop := mkTracks {
  tr_newest : ra_state_revision a ∈ used;
  tr_latest r : r ∈ used → r ≤ ra_state_revision a;
  tr_bits i : 0 ≤ i < STATE_REVISION_WINDOW_BITS →
    Z.testbit (ra_state_revision_window a) i = bool_decide (ra_state_revision a - i ∈ used)
}.

Lemma testbit_one i : Z.testbit 1 i = bool_decide (i = 0).
Proof.
  destruct (decide (i = 0)) as [->|Hi]; [done|].
  rewrite bool_decide_false by done. destruct (decide (i < 0)); [by rewrite Z.testbit_neg_r by lia|].
  rewrite <- (Z.pow_0_r 2). apply Z.pow2_bits_false. lia.
Qed.

Lemma advance_window_bits w n i :
  0 < n → 0 ≤ i < STATE_REVISION_WINDOW_BITS →
  Z.testbit (advance_window w n) i =
    bool_decide (i = 0) || (bool_decide (n ≤ i) && Z.testbit w (i - n)).
Proof.
  intros Hn Hi. unfold advance_window, STATE_REVISION_WINDOW_BITS, u128_MODULUS in *.
  case_bool_decide as Hbig.
  - rewrite testbit_one, (bool_decide_false (n ≤ i)) by lia. by rewrite orb_false_r.
  - rewrite Z.lor_spec, testbit_one, Z.mod_pow2_bits_low by lia. rewrite orb_comm. f_equal.
    rewrite Z.shiftl_spec by lia. case_bool_decide; [done|]. simpl. apply Z.testbit_neg_r. lia.
Qed.

Lemma mark_bits w lag i :
  0 ≤ lag → 0 ≤ i → Z.testbit (Z.lor w (Z.shiftl 1 lag)) i = Z.testbit w i || bool_decide (i = lag).
Proof.
  intros Hl Hi. rewrite Z.lor_spec, Z.shiftl_spec by done. f_equal.
  rewrite testbit_one. apply bool_decide_ext. lia.
Qed.

Lemma land_bit w lag :
  0 ≤ lag → bool_decide (Z.land w (Z.shiftl 1 lag) = 0) = negb (Z.testbit w lag).
Proof.
  intros Hl. assert (Z.testbit (Z.land w (Z.shiftl 1 lag)) lag = Z.testbit w lag) as Hb.
  { rewrite Z.land_spec, Z.shiftl_spec, Z.sub_diag by done. apply andb_true_r. }
  case_bool_decide as E.
  - rewrite E, Z.testbit_0_l in Hb. by rewrite <- Hb.
  - destruct (Z.testbit w lag) eqn:Hw; [done|]. exfalso. apply E. apply Z.bits_inj'. intros i Hi.
    rewrite Z.land_spec, Z.shiftl_spec, testbit_one, Z.testbit_0_l by done.
    case_bool_decide; [|by rewrite andb_false_r]. assert (i = lag) as -> by lia. by rewrite Hw.
Qed.

(** An accepted revision joins the set; one that may not be reused was not in
    it. *)
Lemma install_tracks used revision envelope public prekey reuse a a' :
  tracks used a → install_state revision envelope public prekey reuse a = Ok a' →
  tracks ({[revision]} ∪ used) a' ∧ (reuse = false → revision ∉ used).
Proof.
  intros [Hn Hl Hb] H. unfold install_state in H.
  destruct (bool_decide (ra_state_revision a < revision)) eqn:Hnew.
  { apply bool_decide_eq_true in Hnew. case_bool_decide; [done|]. injection H as <-. simpl.
    split; [|intros _ Hin%Hl; lia]. split; simpl.
    - set_solver.
    - intros r [->%elem_of_singleton|Hr%Hl]%elem_of_union; lia.
    - intros i Hi. rewrite advance_window_bits by lia.
      destruct (decide (i = 0)) as [->|Hi0].
      + rewrite Z.sub_0_r, (bool_decide_true (0 = 0)), (bool_decide_true (revision ∈ _)) by set_solver.
        done.
      + rewrite (bool_decide_false (i = 0)) by done. simpl.
        destruct (decide (revision - ra_state_revision a ≤ i)) as [Hle|Hgt].
        * rewrite (bool_decide_true (_ ≤ i)) by done. simpl. rewrite Hb by lia.
          apply bool_decide_ext.
          replace (ra_state_revision a - (i - (revision - ra_state_revision a)))
            with (revision - i) by lia. set_unfold. intuition lia.
        * rewrite (bool_decide_false (_ ≤ i)) by done. simpl. symmetry. apply bool_decide_eq_false.
          intros [Hr%elem_of_singleton|Hr%Hl]%elem_of_union; lia. }
  apply bool_decide_eq_false in Hnew. destruct (_ || _); [done|].
  set (lag := ra_state_revision a - revision) in *. assert (0 ≤ lag) as Hlag by lia.
  assert (∀ w, (∀ i, 0 ≤ i < STATE_REVISION_WINDOW_BITS → Z.testbit w i =
      Z.testbit (ra_state_revision_window a) i || bool_decide (i = lag)) →
    tracks ({[revision]} ∪ used) (set_ra_window w a)) as Hmark.
  { intros w Hw. split; simpl.
    - set_solver.
    - intros r [->%elem_of_singleton|Hr%Hl]%elem_of_union; lia.
    - intros i Hi. rewrite Hw, Hb by done. rewrite <- bool_decide_or. apply bool_decide_ext.
      set_unfold. intuition lia. }
  case_bool_decide as Hfar.
  - destruct reuse; [|done]. injection H as <-. split; [|done].
    assert (set_ra_window (ra_state_revision_window a) a = a) as Ea by (by destruct a).
    specialize (Hmark (ra_state_revision_window a)). rewrite Ea in Hmark.
    apply Hmark. intros i Hi. rewrite bool_decide_false by lia. by rewrite orb_false_r.
  - rewrite land_bit, negb_involutive in H by done.
    destruct (Z.testbit (ra_state_revision_window a) lag && negb reuse) eqn:Hu; [done|].
    injection H as <-. split; [apply Hmark; intros i Hi; by apply mark_bits; lia|].
    intros ->. rewrite andb_true_r, Hb, bool_decide_eq_false in Hu by lia.
    by replace revision with (ra_state_revision a - lag) by lia.
Qed.

(** ** Sequences of identity states *)

Section sequences.
Context {ENV : RelayEnv} {KEYS : Keys} {B64 : Base64}.

(** One call of [apply_identity_state_locked_with_consumed]. *)
Record StateCall : Type := mkStateCall {
  sc_code_id : CodeId;
  sc_revision : Z;
  sc_envelope_b64 : string;
  sc_identity_public_b64 : string;
  sc_prekey_id : string;
  sc_state_signature_b64 : string;
  sc_allow_reuse : bool;
  sc_consumed_prekey_id : option string
}.

Definition run_call (c : StateCall) : ST (gmap CodeId RelayAccount) string () :=
  apply_identity_state_locked_with_consumed (sc_code_id c) (sc_revision c) (sc_envelope_b64 c)
    (sc_identity_public_b64 c) (sc_prekey_id c) (sc_state_signature_b64 c) (sc_allow_reuse c)
    (sc_consumed_prekey_id c).

(** The accounts after the calls, and the revisions of [code_id] accepted on the
    way. *)
Fixpoint run_calls (calls : list StateCall) (accounts : gmap CodeId RelayAccount)
    : gmap CodeId RelayAccount :=
  match calls with [] => accounts | c :: calls => run_calls calls (run_call c accounts).2 end.
Fixpoint accepted_revisions (code_id : CodeId) (calls : list StateCall)
    (accounts : gmap CodeId RelayAccount) : gset Z :=
  match calls with
  | [] => ∅
  | c :: calls =>
      let '(x, accounts) := run_call c accounts in
      (if is_ok x && bool_decide (sc_code_id c = code_id) then {[sc_revision c]} else ∅)
      ∪ accepted_revisions code_id calls accounts
  end.

Lemma decode_bounded_Ok v n b : decode_bounded v n = Ok b → b64_decode v = Some b.
Proof.
  unfold decode_bounded. intros ([] & _ & H)%bind_Ok. apply bind_Ok in H as (b' & Hb%ok_or_Ok & H).
  apply bind_Ok in H as ([] & _ & H). by injection H as <-.
Qed.
Lemma decode_exact_Ok v n b : decode_exact v n = Ok b → b64_decode v = Some b.
Proof.
  unfold decode_exact. intros (b' & Hb%decode_bounded_Ok & H)%bind_Ok.
  case_bool_decide; [|done]. by injection H as <-.
Qed.

(** [a'] is the account [a] with the state the call carries, which is signed,
    keeps the identity and loses no key but the consumed one. *)
Definition installs (c : StateCall) (a a' : RelayAccount) : Prop :=
  ∃ envelope public signature,
    b64_decode (sc_envelope_b64 c) = Some envelope ∧
    b64_decode (sc_identity_public_b64 c) = Some public ∧
    b64_decode (sc_state_signature_b64 c) = Some signature ∧
    is_ok (verify_identity_state_signature_v9 E2EE_PROTOCOL_VERSION (sc_revision c) envelope
             public (sc_prekey_id c) signature) = true ∧
    fingerprint (ra_identity_public a) = fingerprint public ∧
    validate_prekey_pool_transition (ra_identity_public a) public (sc_consumed_prekey_id c) = Ok tt ∧
    install_state (sc_revision c) envelope public (sc_prekey_id c) (sc_allow_reuse c) a = Ok a'.

(** A call is refused and changes nothing, or it installs a state of its own
    account. *)
Lemma run_call_cases c accounts :
  (∃ e, run_call c accounts = (Err e, accounts)) ∨
  (∃ a a', accounts !! sc_code_id c = Some a ∧ installs c a a' ∧
    run_call c accounts = (Ok tt, <[sc_code_id c := a']> accounts)).
Proof.
  unfold run_call, apply_identity_state_locked_with_consumed.
  destruct (_ ← decode_bounded _ _; _) as [a'|e] eqn:H; [right|left; eauto].
  apply bind_Ok in H as (envelope & He%decode_bounded_Ok & H).
  apply bind_Ok in H as (public & Hp%decode_exact_Ok & H).
  apply bind_Ok in H as (sig & Hs%decode_exact_Ok & H). apply bind_Ok in H as ([] & _ & H).
  apply bind_Ok in H as (a & Ha%ok_or_Ok & H). apply bind_Ok in H as ([] & Hf%reject_if_Ok & H).
  apply bind_Ok in H as ([] & Hpool & H). apply bind_Ok in H as ([] & Hv%reject_if_Ok & H).
  exists a, a'. split_and!; [done| |done]. exists envelope, public, sig.
  apply negb_false_iff in Hv. split_bools. split_and!; try done. by apply dec_stable.
Qed.

(** The pool stays, or loses the consumed key. *)
Lemma pool_transition_Ok previous next consumed :
  validate_prekey_pool_transition previous next consumed = Ok tt →
  ∃ old new, prekey_ids_from_identity_public_v9 previous = Ok old ∧
    prekey_ids_from_identity_public_v9 next = Ok new ∧
    match consumed with Some c => c ∈ old ∧ c ∉ new | None => old = new end.
Proof.
  unfold validate_prekey_pool_transition.
  destruct (prekey_ids_from_identity_public_v9 previous) as [old|]; [|done].
  destruct (prekey_ids_from_identity_public_v9 next) as [new|]; [|done].
  cbn [mbind result_bind]. intros H. exists old, new. split_and!; [done|done|].
  destruct consumed as [c|]; [|by case_bool_decide].
  destruct (_ && _) eqn:E; [|done]. split_bools.
  assert (c ∈ filter (λ id, id ∉ new) old) as Hc.
  { match goal with H : filter _ old = [c] |- _ => rewrite H end. left. }
  apply list_elem_of_filter in Hc. tauto.
Qed.

(** The account holds the bundle of the accepted state. *)
Lemma install_public revision envelope public prekey reuse a a' :
  install_state revision envelope public prekey reuse a = Ok a' → ra_identity_public a' = public.
Proof.
  unfold install_state. case_bool_decide.
  { case_bool_decide; [done|]. by intros [= <-]. }
  destruct (_ || _) eqn:E; [done|]. split_bools.
  assert (ra_identity_public a = public) as Hp by (by apply dec_stable).
  case_bool_decide; [destruct reuse; [|done]; by intros [= <-]|].
  destruct (_ && _); [done|]. by intros [= <-].
Qed.

Lemma run_calls_tracks code_id calls accounts a used :
  accounts !! code_id = Some a → tracks used a →
  ∃ a', run_calls calls accounts !! code_id = Some a' ∧
    tracks (used ∪ accepted_revisions code_id calls accounts) a'.
Proof.
  revert accounts a used. induction calls as [|c calls IH]; intros accounts a used Ha Ht; simpl.
  { exists a. by rewrite (right_id_L ∅ (∪)). }
  destruct (run_call_cases c accounts)
    as [[e ->]|(b & b' & Hb & (envelope & public & sig & _ & _ & _ & _ & _ & _ & Hi) & ->)]; simpl.
  { rewrite (left_id_L ∅ (∪)). eauto. }
  destruct (decide (sc_code_id c = code_id)) as [<-|Hne].
  - simplify_eq. rewrite bool_decide_true by done. simpl.
    destruct (install_tracks _ _ _ _ _ _ _ _ Ht Hi) as [Ht' _].
    destruct (IH _ _ _ (lookup_insert_eq accounts (sc_code_id c) b') Ht') as (a' & ? & Hu).
    exists a'. split; [done|]. by rewrite (assoc_L (∪)), (comm_L (∪) used).
  - rewrite bool_decide_false by done. simpl.
    rewrite (left_id_L ∅ (∪)). apply (IH _ a); [by rewrite lookup_insert_ne by done|done].
Qed.

(** A new account (auth.rs, [finish_opaque_account]). *)
Definition fresh_state (a : RelayAccount) : Prop :=
  ra_state_revision a = 0 ∧ ra_state_revision_window a = 1.
Lemma fresh_tracks a : fresh_state a → tracks {[0]} a.
Proof.
  intros [Hr Hw]. split; rewrite ?Hr, ?Hw; [set_solver|set_solver|].
  intros i Hi. rewrite testbit_one. apply bool_decide_ext. set_unfold. lia.
Qed.
End sequences.

(** C14: an identity-state revision is used once.  Whatever calls were made for
    any accounts since an account was created, the account stores the greatest
    revision it accepted, its window holds exactly which of the latest 128
    revisions were accepted, and a call that may not reuse a revision is
    accepted only with a revision that none of the accepted calls carried. *)
Theorem revision_used_once {ENV : RelayEnv} {KEYS : Keys} {B64 : Base64}
    (accounts : gmap CodeId RelayAccount) (code_id : CodeId) (a : RelayAccount)
    (calls : list StateCall) :
  accounts !! code_id = Some a → fresh_state a →
  let used := {[0]} ∪ accepted_revisions code_id calls accounts in
  ∃ a', run_calls calls accounts !! code_id = Some a' ∧
    ra_state_revision a' ∈ used ∧ (∀ r, r ∈ used → r ≤ ra_state_revision a') ∧
    (∀ i, 0 ≤ i < STATE_REVISION_WINDOW_BITS →
       Z.testbit (ra_state_revision_window a') i = true ↔ ra_state_revision a' - i ∈ used) ∧
    ∀ c, sc_code_id c = code_id → sc_allow_reuse c = false →
      (run_call c (run_calls calls accounts)).1 = Ok tt → sc_revision c ∉ used.
Proof.
  intros Ha Hf used.
  destruct (run_calls_tracks code_id calls accounts a _ Ha (fresh_tracks a Hf)) as (a' & Ha' & Ht).
  exists a'. split; [done|]. pose proof Ht as [Hn Hl Hb]. split_and!; [done|done| |].
  - intros i Hi. by rewrite Hb, bool_decide_eq_true.
  - intros c Hc Hr Hok. destruct (run_call_cases c (run_calls calls accounts))
      as [[e E]|(b & b' & Hb' & (envelope & public & sig & _ & _ & _ & _ & _ & _ & Hi) & _)];
      [by rewrite E in Hok|].
    rewrite Hc in Hb'. simplify_eq. by eapply install_tracks; eauto.
Qed.
