(* ===== verification/DirectMessages.v ===== *)
(** * Direct messages (mirage-server/src/messages.rs, main.rs)

    A sender leases one-time keys of its recipients, encrypts, and posts one
    envelope per recipient; the relay checks every signature, queues one frame
    per recipient, remembers the message identifier, advances the sender's
    identity state and sends the frames to the recipients that have joined the
    conversation.  A recipient acknowledges a frame with the identity state that
    no longer holds the key it used.

    [Messenger] adds the mailbox and the two catalogs to the relay's state.
    Every handler runs under [conversation_ops], alone. *)

From S2P Require Import Prelude MlsWire TransactionReceipts RoomModel RoomValidation RoomAuthority.
From S2P Require Import TransportWire TransportPadding AttachmentAccess AttachmentStore RelayFrame.
From S2P Require Import OutboundQueue RateLimit Relay IdentityBundle Mailbox IdentityState.

Definition MAX_WRAPPED_KEY_BYTES : Z := 4096.
Definition DIRECTORY_DIGEST_BYTES : Z := 32.

(** ** State *)

Record Messenger : Type := mkMessenger {
  ms_relay : Relay;
  ms_mailbox : Mailbox;
  ms_room_catalog : gmap string RoomEntry;
  ms_direct_catalog : gmap string DirectEntry
}.
Definition set_ms_relay v s :=
  mkMessenger v (ms_mailbox s) (ms_room_catalog s) (ms_direct_catalog s).
Definition set_ms_mailbox v s :=
  mkMessenger (ms_relay s) v (ms_room_catalog s) (ms_direct_catalog s).
Definition set_ms_direct_catalog v s :=
  mkMessenger (ms_relay s) (ms_mailbox s) (ms_room_catalog s) v.
Definition set_rl_accounts (v : gmap CodeId RelayAccount) (r : Relay) : Relay :=
  set_rl_connections v (rl_sessions r) (rl_transport_sessions r) (rl_active_connections r)
    (rl_frame_limits r) (rl_rooms r) r.
Definition set_rl_rooms (v : gmap string (gset Uuid)) (r : Relay) : Relay :=
  set_rl_connections (rl_accounts r) (rl_sessions r) (rl_transport_sessions r)
    (rl_active_connections r) (rl_frame_limits r) v r.
Definition ms_accounts (s : Messenger) : gmap CodeId RelayAccount := rl_accounts (ms_relay s).

Definition Task (A : Type) : Type := ST Messenger string A.

(** Calls on one part of the state. *)
Definition on_relay {A} (h : Handler A) : Task A := λ s,
  let '(x, r) := h (ms_relay s) in (x, set_ms_relay r s).
Definition on_mailbox {A} (f : ST Mailbox string A) : Task A := λ s,
  let '(x, m) := f (ms_mailbox s) in (x, set_ms_mailbox m s).
Definition on_accounts {A} (f : ST (gmap CodeId RelayAccount) string A) : Task A := λ s,
  let '(x, a) := f (ms_accounts s) in (x, set_ms_relay (set_rl_accounts a (ms_relay s)) s).

(** [if let Err(error) = call { undo; return Err(error) }]. *)
Definition or_revert {A} (t : Task A) (undo : Messenger → Messenger) : Task A := λ s,
  match t s with
  | (Ok a, s) => (Ok a, s)
  | (Err e, s) => (Err e, undo s)
  end.

(** [result.map_err(|_| message)]. *)
Definition map_err {A} (message : string) (r : result string A) : result string A :=
  match r with Ok a => Ok a | Err _ => Err message end.

(** ** Wire records *)

Record InboundRecipientEnvelope : Type := mkEnvelope {
  ev_recipient_username : string;
  ev_wrapped_key_b64 : string;
  ev_prekey_id : string;
  ev_is_prekey : bool;
  ev_signature_b64 : string
}.

Record DirectoryStamp : Type := mkStamp { ds_node_id : string; ds_revision : Z; ds_digest : string }.
#[export] Instance DirectoryStamp_eq_dec : EqDecision DirectoryStamp.
Proof. solve_decision. Defined.

(** The fields of [InboundFrame::Message] before its padding. *)
Record PostedMessage : Type := mkPosted {
  im_chat_id : string;
  im_version : Z;
  im_message_id : string;
  im_nonce_b64 : string;
  im_ciphertext_b64 : string;
  im_envelopes : list InboundRecipientEnvelope;
  im_state_revision : Z;
  im_identity_envelope_b64 : string;
  im_identity_public_b64 : string;
  im_prekey_id : string;
  im_state_signature_b64 : string;
  im_directory_node_id : string;
  im_directory_revision : Z;
  im_directory_digest : string
}.

(** The fields of [InboundFrame::MessageAck]. *)
Record PostedAck : Type := mkAck {
  ia_chat_id : string;
  ia_message_id : string;
  ia_sender_username : string;
  ia_state_revision : Z;
  ia_identity_envelope_b64 : string;
  ia_identity_public_b64 : string;
  ia_prekey_id : string;
  ia_state_signature_b64 : string;
  ia_ack_signature_b64 : string;
  ia_used_prekey_id : string
}.

(** The random bytes of the padding are drawn anew for every message and every
    frame of it. *)
Class Draws : Type := { draw : nat → nat → OsRng }.

Section direct.
Context {HO : HashOrder} {B64 : Base64} {ENV : RelayEnv} {JSON : SerdeJson} {FJ : FrameJson}.
Context {KEYS : Keys} {DRAWS : Draws}.

(** ** Shared steps *)

Definition clock : Task Z := on_relay tick.

(** [prune_pending_queues(state, now_ms())]. *)
Definition prune_queues : Task () :=
  now ← clock; on_mailbox (modify (prune_pending_queues now pending_message_ttl_ms)).

Definition catalog (s : Messenger) : Catalog :=
  mkCatalog ((λ a, mkAccount (ra_username a) (ra_client_platform a)) <$> ms_accounts s)
    (rl_mls_rooms (ms_relay s)) (ms_room_catalog s) (ms_direct_catalog s).

(** [conversation_access(..).ok_or(..)]; only the room authority can change. *)
Definition ask_access (now1 now2 now3 : Z) (username chat_id : string)
    : Task ConversationAccess := λ s,
  let '(access, c) := conversation_access now1 now2 now3 username chat_id (catalog s) in
  (ok_or access "conversation unavailable"%string,
   set_ms_relay (set_rl_mls_rooms (ct_mls_rooms c) (ms_relay s)) s).
Definition require_access (username chat_id : string) : Task ConversationAccess :=
  now1 ← clock; now2 ← clock; now3 ← clock; ask_access now1 now2 now3 username chat_id.

Definition find_account (username : string) (accounts : gmap CodeId RelayAccount)
    : option (CodeId * RelayAccount) :=
  List.find (λ ca, bool_decide (ra_username ca.2 = username)) (hash_iter accounts).
Definition has_account (username : string) (accounts : gmap CodeId RelayAccount) : bool :=
  any_value (λ a, bool_decide (ra_username a = username)) accounts.
Definition direct_peer (chat_id username : string) (s : Messenger) : option string :=
  d ← ms_direct_catalog s !! chat_id; peer_for d username.

(** Whether [other] is a party of the conversation, besides the caller. *)
Definition other_party (access : ConversationAccess) (chat_id username other : string)
    (s : Messenger) : bool :=
  match access with
  | MlsRoom _ => false
  | Direct => bool_decide (direct_peer chat_id username s = Some other)
  | Room _ => has_account other (ms_accounts s)
  end.

(** [HashSet<String>] in the order of the set. *)
Definition set_iter (s : gset string) : list string := hash_keys (gset_to_gmap tt s).

(** ** Leases *)

Definition is_lease_for (code_id : CodeId) (chat_id message_id sender recipient : string)
    (kl : PrekeyLeaseKey * PrekeyLease) : bool :=
  bool_decide (lk_code_id kl.1 = code_id) && bool_decide (ls_chat_id kl.2 = chat_id)
  && bool_decide (ls_message_id kl.2 = message_id)
  && bool_decide (ls_sender_username kl.2 = sender)
  && bool_decide (ls_recipient_username kl.2 = recipient).

(** The lease the message has already, or the first key of the pool that is not
    leased: the key and when its lease was made. *)
Definition take_lease (now : Z) (code_id : CodeId) (pool : list string)
    (chat_id message_id sender recipient : string) : ST Mailbox string (string * Z) := λ m,
  let m := set_mb_leases (prune_prekey_leases (mb_pending m) now (mb_prekey_leases m)) m in
  let leases := mb_prekey_leases m in
  match List.filter (is_lease_for code_id chat_id message_id sender recipient)
          (hash_iter leases) with
  | [(key, lease)] => (Ok (lk_prekey_id key, ls_created_at_ms lease), m)
  | _ :: _ :: _ => (Err "prekey lease rejected"%string, m)
  | [] =>
      if bool_decide (MAX_PREKEY_LEASES ≤ map_len leases)
         || bool_decide (MAX_PREKEY_LEASES_PER_RECIPIENT ≤
              len (filter (λ k, lk_code_id k = code_id) (hash_keys leases)))
      then (Err "prekey lease capacity full"%string, m)
      else
        match List.find (λ id, negb (contains_key (mkLeaseKey code_id id) leases)) pool with
        | None => (Err "recipient prekey unavailable"%string, m)
        | Some prekey_id =>
            (Ok (prekey_id, now),
             set_mb_leases
               (<[mkLeaseKey code_id prekey_id := mkLease chat_id message_id sender recipient now]>
                  leases) m)
        end
  end.

Definition lease_prekey (sender_id : Uuid) (chat_id message_id recipient_username : string)
    : Task OutboundFrame.t :=
  _ ← lift (reject_if (negb (valid_chat_id chat_id) || negb (valid_chat_id message_id)
                       || negb (valid_username recipient_username))
              "prekey lease rejected"%string);
  '(_, sender_username) ← on_relay (client_identity sender_id);
  _ ← lift (reject_if (bool_decide (sender_username = recipient_username))
              "prekey lease rejected"%string);
  access ← require_access sender_username chat_id;
  s ← get;
  _ ← lift (reject_if (negb (other_party access chat_id sender_username recipient_username s))
              "prekey lease rejected"%string);
  _ ← prune_queues;
  s ← get;
  '(recipient_code_id, recipient) ←
    lift (ok_or (find_account recipient_username (ms_accounts s)) "recipient unavailable"%string);
  pool ← lift (map_err "recipient unavailable"
                 (prekey_ids_from_identity_public_v9 (ra_identity_public recipient)));
  now ← clock;
  '(prekey_id, created_at_ms) ←
    on_mailbox (take_lease now recipient_code_id pool chat_id message_id sender_username
                  recipient_username);
  mret (OutboundFrame.PrekeyLease chat_id message_id recipient_username
          (b64_encode (ra_identity_public recipient)) prekey_id
          (saturating_add u64_MAX created_at_ms PREKEY_LEASE_TTL_MS)).

Definition give_back_lease (key : PrekeyLeaseKey) (chat_id message_id sender recipient : string)
    : ST Mailbox string () := λ m,
  match mb_prekey_leases m !! key with
  | None => (Err "prekey lease release rejected"%string, m)
  | Some lease =>
      if bool_decide (ls_chat_id lease ≠ chat_id) || bool_decide (ls_message_id lease ≠ message_id)
         || bool_decide (ls_sender_username lease ≠ sender)
         || bool_decide (ls_recipient_username lease ≠ recipient)
         || pending_contains_leased_frame (mb_pending m) key lease
      then (Err "prekey lease release rejected"%string, m)
      else (Ok tt, set_mb_leases (delete key (mb_prekey_leases m)) m)
  end.

Definition release_unused_prekey_lease (sender_id : Uuid)
    (chat_id message_id recipient_username prekey_id : string) : Task () :=
  _ ← lift (reject_if (negb (valid_chat_id chat_id) || negb (valid_chat_id message_id)
                       || negb (valid_username recipient_username)
                       || negb (valid_prekey_id prekey_id)
                       || bool_decide (prekey_id = EmptyString))
              "prekey lease release rejected"%string);
  '(_, sender_username) ← on_relay (client_identity sender_id);
  s ← get;
  '(recipient_code_id, _) ←
    lift (ok_or (find_account recipient_username (ms_accounts s))
            "prekey lease release rejected"%string);
  on_mailbox (give_back_lease (mkLeaseKey recipient_code_id prekey_id) chat_id message_id
                sender_username recipient_username).

(** ** Directory evidence *)

Definition directory_evidence (node_id : string) (revision : Z) (digest : string)
    : option DirectoryStamp :=
  if bool_decide (node_id = EmptyString) && bool_decide (revision = 0)
     && bool_decide (digest = EmptyString)
  then None else Some (mkStamp node_id revision digest).

Definition directory_stamp (accounts : gmap CodeId RelayAccount) : DirectoryStamp :=
  let revision := directory_revision accounts in
  mkStamp relay_node_id (clamp 1 MAX_DIRECTORY_REVISION revision)
    (identity_directory_digest_v2 relay_node_id revision accounts).

Definition validate_directory_evidence (evidence : option DirectoryStamp)
    (accounts : gmap CodeId RelayAccount) : result string DirectoryStamp :=
  candidate ← ok_or evidence "directory evidence required"%string;
  _ ← reject_if (negb (valid_node_id (ds_node_id candidate))
                 || negb (bool_decide (1 ≤ ds_revision candidate ≤ MAX_DIRECTORY_REVISION)))
        "directory evidence rejected"%string;
  _ ← map_err "directory evidence rejected" (decode_exact (ds_digest candidate)
                                               DIRECTORY_DIGEST_BYTES);
  let current := directory_stamp accounts in
  if bool_decide (candidate = current) then Ok current
  else Err "directory evidence rejected"%string.

(** ** Routing *)

(** The sender of the message, its platform and its public bundle. *)
Definition authenticate_sender (sender_id : Uuid) (p : PostedMessage)
    : Task (CodeId * string * ClientPlatform * bytes) :=
  '(code_id, username, platform) ← on_relay (client_identity_and_platform sender_id);
  public ← lift (decode_exact (im_identity_public_b64 p) IDENTITY_PUBLIC_BYTES);
  _ ← lift (reject_if (negb (valid_identity_public_bundle public (im_prekey_id p)))
              "authenticated identity required"%string);
  s ← get;
  account ← lift (ok_or (ms_accounts s !! code_id) "authenticated identity required"%string);
  _ ← lift (reject_if
              (bool_decide (len (ra_identity_public account) ≠ IDENTITY_PUBLIC_BYTES)
               || bool_decide (fingerprint (ra_identity_public account) ≠ fingerprint public))
              "authenticated identity required"%string);
  mret (code_id, username, platform, public).

Definition expected_recipients (access : ConversationAccess) (chat_id sender : string)
    (s : Messenger) : result string (gset string) :=
  match access with
  | MlsRoom _ => Err "MLS application required"%string
  | Room _ =>
      Ok (filter (λ username, username ≠ sender)
            (list_to_set (ra_username <$> hash_values (ms_accounts s))))
  | Direct =>
      peer ← ok_or (direct_peer chat_id sender s) "direct conversation unavailable"%string;
      Ok {[peer]}
  end.

Fixpoint require_recipient_platforms (sender_platform : ClientPlatform) (recipients : list string)
    (accounts : gmap CodeId RelayAccount) : result string () :=
  match recipients with
  | [] => Ok tt
  | recipient :: recipients =>
      platform ← ok_or (a ← snd <$> find_account recipient accounts; ra_client_platform a)
                   "recipient client unavailable"%string;
      _ ← reject_if (negb (InteropPolicy.allows interop_policy sender_platform platform))
            "client interoperability policy rejected"%string;
      require_recipient_platforms sender_platform recipients accounts
  end.

(** One envelope: an expected recipient, once, with a signature of the
    sender over the whole message. *)
Definition check_envelope (p : PostedMessage) (sender : string) (public nonce ciphertext : bytes)
    (expected : gset string) (seen : gmap string InboundRecipientEnvelope)
    (e : InboundRecipientEnvelope) : result string () :=
  let rejected := "recipient envelope rejected"%string in
  _ ← reject_if (negb (bool_decide (ev_recipient_username e ∈ expected))
                 || contains_key (ev_recipient_username e) seen) rejected;
  _ ← reject_if (negb (valid_prekey_id (ev_prekey_id e))) rejected;
  _ ← reject_if (bool_decide (ev_is_prekey e = bool_decide (ev_prekey_id e = EmptyString)))
        rejected;
  wrapped ← decode_bounded (ev_wrapped_key_b64 e) MAX_WRAPPED_KEY_BYTES;
  _ ← reject_if (bool_decide (wrapped = [])) rejected;
  signature ← decode_exact (ev_signature_b64 e) MESSAGE_SIGNATURE_BYTES;
  verify_message_signature_v9 (im_version p) (im_chat_id p) (im_message_id p) sender public nonce
    ciphertext (ev_recipient_username e) wrapped (ev_prekey_id e) (ev_is_prekey e) signature.

Fixpoint check_envelopes (p : PostedMessage) (sender : string) (public nonce ciphertext : bytes)
    (expected : gset string) (envelopes : list InboundRecipientEnvelope)
    (seen : gmap string InboundRecipientEnvelope)
    : result string (gmap string InboundRecipientEnvelope) :=
  match envelopes with
  | [] => Ok seen
  | e :: envelopes =>
      _ ← check_envelope p sender public nonce ciphertext expected seen e;
      check_envelopes p sender public nonce ciphertext expected envelopes
        (<[ev_recipient_username e := e]> seen)
  end.

Definition collect_envelopes (p : PostedMessage) (sender : string)
    (public nonce ciphertext : bytes) (expected : gset string)
    : result string (gmap string InboundRecipientEnvelope) :=
  _ ← reject_if (bool_decide (length (im_envelopes p) ≠ size expected))
        "recipient envelope set rejected"%string;
  envelopes ← check_envelopes p sender public nonce ciphertext expected (im_envelopes p) ∅;
  _ ← reject_if (bool_decide (dom envelopes ≠ expected)) "recipient envelope set rejected"%string;
  Ok envelopes.

Definition recipient_message (p : PostedMessage) (sender sender_public_key_b64 : string)
    (stamp : DirectoryStamp) (e : InboundRecipientEnvelope) : MessageFrame :=
  mkMessage (im_chat_id p) (im_version p) (im_message_id p) (im_nonce_b64 p)
    (im_ciphertext_b64 p) (ev_signature_b64 e) (ev_wrapped_key_b64 e) (ev_prekey_id e)
    (ev_is_prekey e) sender sender_public_key_b64 sender_public_key_b64 (ds_node_id stamp)
    (ds_revision stamp) (ds_digest stamp) 0 [].

(** The frames of the fan-out, padded, and their bytes so far; [at_tick] and [n]
    name the draws. *)
Fixpoint prepare_frames (p : PostedMessage) (sender sender_public_key_b64 : string)
    (stamp : DirectoryStamp) (envelopes : gmap string InboundRecipientEnvelope)
    (at_tick n : nat) (total : Z) (recipients : list string) : result string (list (string * OutboundFrame.t)) :=
  let full := "fanout preparation budget full"%string in
  match recipients with
  | [] => Ok []
  | recipient :: recipients =>
      e ← ok_or (envelopes !! recipient) "recipient envelope rejected"%string;
      let '(padded, frame) :=
        prepare_outbound_message_padding (RNG := draw at_tick n)
          (OutboundFrame.Message (recipient_message p sender sender_public_key_b64 stamp e)) in
      _ ← padded;
      frame_bytes ← ok_or (validated_outbound_frame_bytes frame) full;
      sum ← ok_or (checked_add usize_MAX frame_bytes (slen recipient)) full;
      total ← ok_or (checked_add usize_MAX total sum) full;
      _ ← reject_if (bool_decide (MAX_TRANSIENT_FANOUT_BYTES < total)) full;
      rest ← prepare_frames p sender sender_public_key_b64 stamp envelopes at_tick (S n) total
                recipients;
      Ok ((recipient, frame) :: rest)
  end.

(** The lease of one envelope, as it was made before encryption. *)
Definition check_lease (accounts : gmap CodeId RelayAccount)
    (leases : gmap PrekeyLeaseKey PrekeyLease)
    (envelopes : gmap string InboundRecipientEnvelope) (chat_id message_id sender username : string)
    : result string () :=
  e ← ok_or (envelopes !! username) "recipient envelope rejected"%string;
  if negb (ev_is_prekey e) then Ok tt
  else
    '(code_id, account) ← ok_or (find_account username accounts)
                            "recipient envelope rejected"%string;
    pool ← map_err "recipient prekey unavailable"
             (prekey_ids_from_identity_public_v9 (ra_identity_public account));
    _ ← reject_if (negb (bool_decide (ev_prekey_id e ∈ pool))) "recipient prekey unavailable"%string;
    lease ← ok_or (leases !! mkLeaseKey code_id (ev_prekey_id e))
              "recipient prekey lease required"%string;
    reject_if (bool_decide (ls_chat_id lease ≠ chat_id)
               || bool_decide (ls_message_id lease ≠ message_id)
               || bool_decide (ls_sender_username lease ≠ sender)
               || bool_decide (ls_recipient_username lease ≠ username))
      "recipient prekey lease rejected"%string.

Fixpoint check_all {A} (check : A → result string ()) (l : list A) : result string () :=
  match l with [] => Ok tt | x :: l => _ ← check x; check_all check l end.

Definition admit_prekey_leases (recipients : list string)
    (envelopes : gmap string InboundRecipientEnvelope) (chat_id message_id sender : string)
    : Task () :=
  _ ← prune_queues;
  now ← clock;
  _ ← on_mailbox (modify (λ m,
        set_mb_leases (prune_prekey_leases (mb_pending m) now (mb_prekey_leases m)) m));
  s ← get;
  lift (check_all
          (check_lease (ms_accounts s) (mb_prekey_leases (ms_mailbox s)) envelopes chat_id
             message_id sender) recipients).

(** Everything the relay checks before it changes a queue: the sender, the
    staged attachment and the frames. *)
Definition prepare_message (sender_id : Uuid) (p : PostedMessage)
    (evidence : option DirectoryStamp)
    : Task (CodeId * string * ClientPlatform * option Uuid * list (string * OutboundFrame.t)) :=
  s ← get;
  stamp ← lift (validate_directory_evidence evidence (ms_accounts s));
  _ ← lift (reject_if (bool_decide (im_version p ≠ E2EE_PROTOCOL_VERSION)
                       || negb (valid_chat_id (im_chat_id p))
                       || negb (valid_chat_id (im_message_id p)))
              "encrypted message rejected"%string);
  nonce ← lift (decode_exact (im_nonce_b64 p) MESSAGE_NONCE_BYTES);
  ciphertext ← lift (decode_bounded (im_ciphertext_b64 p) WS_MAX_FRAME_BYTES);
  _ ← lift (decode_bounded (im_identity_envelope_b64 p) MAX_IDENTITY_ENVELOPE_BYTES);
  '(code_id, sender, platform, public) ← authenticate_sender sender_id p;
  access ← require_access sender (im_chat_id p);
  t ← clock;
  staged ← on_relay (on_attachments
             (staged_attachment_for_message t code_id (im_chat_id p) (im_message_id p)));
  s ← get;
  expected ← lift (expected_recipients access (im_chat_id p) sender s);
  _ ← lift (require_recipient_platforms platform (set_iter expected) (ms_accounts s));
  envelopes ← lift (collect_envelopes p sender public nonce ciphertext expected);
  account ← lift (ok_or (ms_accounts s !! code_id) "authenticated identity required"%string);
  frames ← lift (prepare_frames p sender (b64_encode (ra_identity_public account)) stamp envelopes
                   (rl_ticks (ms_relay s)) 0 0 (set_iter expected));
  _ ← admit_prekey_leases (set_iter expected) envelopes (im_chat_id p) (im_message_id p) sender;
  mret (code_id, sender, platform, staged, frames).

(** The frames are queued, the identifier registered and the sender's identity
    state applied, or everything is put back. *)
Definition admit_message (p : PostedMessage) (code_id : CodeId) (sender : string)
    (platform : ClientPlatform) (frames : list (string * OutboundFrame.t)) : Task () :=
  now ← clock;
  plan ← on_mailbox (preflight_pending_frames now pending_message_ttl_ms frames);
  now ← clock;
  plan ← on_mailbox (commit_pending_frames now frames plan platform);
  now ← clock;
  let rollback m := rollback_pending_frames frames plan m in
  _ ← or_revert
        (on_mailbox (register_message_id now (im_chat_id p) sender (im_message_id p)))
        (λ s, set_ms_mailbox (rollback (ms_mailbox s)) s);
  or_revert
    (on_accounts
       (apply_identity_state_locked code_id (im_state_revision p) (im_identity_envelope_b64 p)
          (im_identity_public_b64 p) (im_prekey_id p) (im_state_signature_b64 p) false))
    (λ s, set_ms_mailbox
            (rollback (unregister_message_id (im_chat_id p) sender (im_message_id p)
                         (ms_mailbox s))) s).

(** [let _ = publish_staged_attachment_checked(..)]. *)
Definition publish_staged_attachment (attachment_id : Uuid) (code_id : CodeId)
    (chat_id message_id : string) : Handler () :=
  t ← tick;
  _ ← attempt (on_attachments
        (publish_staged_attachment_checked t attachment_id code_id chat_id message_id));
  mret tt.

(** Each frame to the clients of its recipient that have joined. *)
Definition deliver (platform : ClientPlatform) (joined : gset Uuid)
    (clients : list (Uuid * ClientHandle)) (frame : string * OutboundFrame.t) : Handler () :=
  for_each
    (omap (λ kc,
       if bool_decide (cl_username kc.2 = frame.1) && bool_decide (kc.1 ∈ joined)
          && InteropPolicy.allows interop_policy platform (cl_platform kc.2)
       then Some kc.1 else None) clients)
    (send frame.2).

Definition fan_out (chat_id : string) (platform : ClientPlatform)
    (frames : list (string * OutboundFrame.t)) : Handler () := λ r,
  for_each frames
    (deliver platform (default ∅ (rl_rooms r !! chat_id)) (hash_iter (rl_clients r))) r.

Definition route_encrypted_message_with_directory (sender_id : Uuid) (p : PostedMessage)
    (evidence : option DirectoryStamp) : Task () :=
  '(code_id, sender, platform, staged, frames) ← prepare_message sender_id p evidence;
  _ ← admit_message p code_id sender platform frames;
  _ ← match staged with
      | Some attachment_id =>
          on_relay (publish_staged_attachment attachment_id code_id (im_chat_id p)
                      (im_message_id p))
      | None => mret tt
      end;
  on_relay (fan_out (im_chat_id p) platform frames).

(** ** Identity states and acknowledgements *)

Definition update_identity_state (sender_id : Uuid) (revision : Z)
    (envelope_b64 identity_public_b64 prekey_id state_signature_b64 : string) : Task () :=
  '(code_id, _) ← on_relay (client_identity sender_id);
  on_accounts
    (apply_identity_state_locked code_id revision envelope_b64 identity_public_b64 prekey_id
       state_signature_b64 true).

Definition pending_frame_matches_ack (chat_id message_id original_sender used_prekey_id : string)
    (f : PendingFrame) : bool :=
  match pf_frame f with
  | OutboundFrame.Message m =>
      bool_decide (om_chat_id m = chat_id) && bool_decide (om_message_id m = message_id)
      && bool_decide (om_sender_username m = original_sender)
      && (if bool_decide (used_prekey_id = EmptyString)
          then negb (om_is_prekey m) && bool_decide (om_prekey_id m = EmptyString)
          else om_is_prekey m && bool_decide (om_prekey_id m = used_prekey_id))
  | _ => false
  end.

(** The one position whose frame matches; two are refused. *)
Fixpoint only_match {A} (p : A → bool) (l : list A) : option nat :=
  match l with
  | [] => None
  | x :: l =>
      if p x then if existsb p l then None else Some 0%nat
      else S <$> only_match p l
  end.

Definition leases_for_recipient_missing_from_pool (leases : gmap PrekeyLeaseKey PrekeyLease)
    (code_id : CodeId) (next_pool : list string) (consumed_prekey_id : option string) : bool :=
  existsb (λ key,
    bool_decide (lk_code_id key = code_id)
    && bool_decide (consumed_prekey_id ≠ Some (lk_prekey_id key))
    && negb (bool_decide (lk_prekey_id key ∈ next_pool))) (hash_keys leases).

(** The position and bytes of the acknowledged frame, with its lease in
    place. *)
Definition find_acknowledged (a : PostedAck) (code_id : CodeId) (username : string) (m : Mailbox)
    : result string (nat * Z) :=
  let rejected := "message acknowledgement rejected"%string in
  let key := mkPendingKey (ia_chat_id a) username in
  queue ← ok_or (mb_pending m !! key) rejected;
  index ← ok_or (only_match
                   (pending_frame_matches_ack (ia_chat_id a) (ia_message_id a)
                      (ia_sender_username a) (ia_used_prekey_id a)) queue) rejected;
  f ← ok_or (queue !! index) rejected;
  let bytes := outbound_frame_bytes (pf_frame f) in
  _ ← reject_if (bool_decide (mb_pending_bytes m < bytes)) rejected;
  _ ← (if bool_decide (ia_used_prekey_id a = EmptyString) then Ok tt
       else
         claim ← ok_or (mb_prekey_leases m !! mkLeaseKey code_id (ia_used_prekey_id a)) rejected;
         reject_if (bool_decide (ls_chat_id claim ≠ ia_chat_id a)
                    || bool_decide (ls_message_id claim ≠ ia_message_id a)
                    || bool_decide (ls_sender_username claim ≠ ia_sender_username a)
                    || bool_decide (ls_recipient_username claim ≠ username)) rejected);
  Ok (index, bytes).

(** [(!used_prekey_id.is_empty()).then_some(used_prekey_id)]. *)
Definition consumed_prekey (a : PostedAck) : option string :=
  if bool_decide (ia_used_prekey_id a = EmptyString) then None else Some (ia_used_prekey_id a).

(** The frame leaves its queue, the bytes their total, the lease the table. *)
Definition consume_frame (a : PostedAck) (code_id : CodeId) (username : string) (index : nat)
    (bytes : Z) (m : Mailbox) : Mailbox :=
  let key := mkPendingKey (ia_chat_id a) username in
  let queue := remove_at index (default [] (mb_pending m !! key)) in
  let pending :=
    if bool_decide (queue = []) then delete key (mb_pending m)
    else <[key := queue]> (mb_pending m) in
  let leases :=
    match consumed_prekey a with
    | Some used => delete (mkLeaseKey code_id used) (mb_prekey_leases m)
    | None => mb_prekey_leases m
    end in
  set_mb_leases leases (set_mb_pending pending (mb_pending_bytes m - bytes) m).

(** The checks of an acknowledgement, under the locks its commit holds. *)
Definition check_acknowledgement (sender_id : Uuid) (a : PostedAck)
    : Task (CodeId * string * nat * Z) :=
  let rejected := "message acknowledgement rejected"%string in
  _ ← prune_queues;
  _ ← lift (reject_if
              (negb (valid_chat_id (ia_chat_id a)) || negb (valid_chat_id (ia_message_id a))
               || bool_decide (ia_sender_username a = EmptyString)
               || bool_decide (80 < slen (ia_sender_username a))
               || negb (is_ascii (text_bytes (ia_sender_username a)))) rejected);
  '(code_id, username) ← on_relay (client_identity sender_id);
  access ← require_access username (ia_chat_id a);
  s ← get;
  _ ← lift (reject_if
              (negb (other_party access (ia_chat_id a) username (ia_sender_username a) s)
               || bool_decide (ia_sender_username a = username))
              "conversation unavailable"%string);
  identity_public ← lift (decode_exact (ia_identity_public_b64 a) IDENTITY_PUBLIC_BYTES);
  ack_signature ← lift (decode_exact (ia_ack_signature_b64 a) MESSAGE_SIGNATURE_BYTES);
  _ ← lift (verify_ack_signature_v9 E2EE_PROTOCOL_VERSION (ia_chat_id a) (ia_message_id a)
              (ia_sender_username a) (ia_used_prekey_id a) identity_public ack_signature);
  '(index, bytes) ← lift (find_acknowledged a code_id username (ms_mailbox s));
  next_pool ← lift (map_err rejected (prekey_ids_from_identity_public_v9 identity_public));
  _ ← lift (reject_if
              (leases_for_recipient_missing_from_pool (mb_prekey_leases (ms_mailbox s)) code_id
                 next_pool (consumed_prekey a)) rejected);
  mret (code_id, username, index, bytes).

Definition commit_acknowledgement (a : PostedAck) (code_id : CodeId) (username : string)
    (index : nat) (bytes : Z) : Task () :=
  _ ← on_accounts
        (apply_identity_state_locked_with_consumed code_id (ia_state_revision a)
           (ia_identity_envelope_b64 a) (ia_identity_public_b64 a) (ia_prekey_id a)
           (ia_state_signature_b64 a) true (consumed_prekey a));
  on_mailbox (modify (consume_frame a code_id username index bytes)).

Definition acknowledge_message (sender_id : Uuid) (a : PostedAck) : Task () :=
  '(code_id, username, index, bytes) ← check_acknowledgement sender_id a;
  commit_acknowledgement a code_id username index bytes.
End direct.
