(* ===== verification/RelayDispatch.v ===== *)
(** * Every frame of a client (mirage-server/src/main.rs)

    Conversations are opened, joined and left; [wipe_relay_state] forgets
    everything; [handle_frame] checks the size and the padding of a frame, parses
    it and runs its handler, message posts and acknowledgements as recoverable
    transactions.  Parsing is [serde_json::from_str], a parameter. *)

From S2P Require Import Prelude MlsWire TransactionReceipts RoomModel RoomValidation RoomAuthority.
From S2P Require Import RoomLifecycle TransportWire TransportPadding AttachmentAccess.
From S2P Require Import AttachmentStore RelayFrame OutboundQueue RateLimit Relay MlsRelay.
From S2P Require Import MlsDispatch IdentityBundle Mailbox IdentityState DirectMessages.

Definition MAX_DIRECT_CATALOG_ENTRIES : Z := 8192.
Definition MAX_DIRECT_CATALOG_PER_USER : Z := 128.

(** ** Text *)

(** The encodings of the characters with the property White_Space. *)
Definition WHITE_SPACE : list bytes :=
  [[Byte.x09]; [Byte.x0a]; [Byte.x0b]; [Byte.x0c]; [Byte.x0d]; [Byte.x20];
   [Byte.xc2; Byte.x85]; [Byte.xc2; Byte.xa0]; [Byte.xe1; Byte.x9a; Byte.x80];
   [Byte.xe2; Byte.x80; Byte.x80]; [Byte.xe2; Byte.x80; Byte.x81]; [Byte.xe2; Byte.x80; Byte.x82];
   [Byte.xe2; Byte.x80; Byte.x83]; [Byte.xe2; Byte.x80; Byte.x84]; [Byte.xe2; Byte.x80; Byte.x85];
   [Byte.xe2; Byte.x80; Byte.x86]; [Byte.xe2; Byte.x80; Byte.x87]; [Byte.xe2; Byte.x80; Byte.x88];
   [Byte.xe2; Byte.x80; Byte.x89]; [Byte.xe2; Byte.x80; Byte.x8a]; [Byte.xe2; Byte.x80; Byte.xa8];
   [Byte.xe2; Byte.x80; Byte.xa9]; [Byte.xe2; Byte.x80; Byte.xaf]; [Byte.xe2; Byte.x81; Byte.x9f];
   [Byte.xe3; Byte.x80; Byte.x80]].

(** Drops the leading characters of [spaces]; as many rounds as bytes are
    enough, since each round drops one at least. *)
Fixpoint strip (spaces : list bytes) (fuel : nat) (l : bytes) : bytes :=
  match fuel with
  | O => l
  | S fuel =>
      match find_map (λ w, if starts_with l w then Some (drop (length w) l) else None) spaces with
      | Some l => strip spaces fuel l
      | None => l
      end
  end.

(** [str::trim]. *)
Definition trim (s : string) : string :=
  let l := strip WHITE_SPACE (String.length s) (text_bytes s) in
  bytes_text (reverse (strip (reverse <$> WHITE_SPACE) (length l) (reverse l))).

(** [str::eq_ignore_ascii_case]. *)
Definition ascii_lower (b : byte) : byte :=
  if between 65 90 b then Z_byte (byte_Z b + 32) else b.
Definition eq_ignore_ascii_case (a b : string) : bool :=
  bool_decide (ascii_lower <$> text_bytes a = ascii_lower <$> text_bytes b).

(** ** Frames *)

Module ClientFrame.
Inductive t : Type :=
| Activity
| PrekeyLease (chat_id message_id recipient_username : string)
| PrekeyLeaseRelease (chat_id message_id recipient_username prekey_id : string)
| Join (chat_id : string)
| Leave (chat_id : string)
| Message (message : PostedMessage) (padding_bucket : Z) (padding : bytes)
| MessageAck (ack : PostedAck)
| IdentityState (state_revision : Z)
    (identity_envelope_b64 identity_public_b64 prekey_id state_signature_b64 : string)
| GlobalWipe
| CreateRoom (room : RoomRecord)
| DeleteRoom (chat_id : string)
| OpenDirect (peer_username : string)
| Mls (frame : InboundFrame.t)
| Dummy (padding_b64 : option string) (dummy_bytes : option Z).
End ClientFrame.

(** [serde_json::from_str::<InboundFrame>], and [Uuid::new_v4().simple()] of the
    next conversation. *)
Class ClientJson : Type := { parse_frame : string → result string ClientFrame.t }.
Class DirectIds : Type := { fresh_uuid : nat → string }.

(** ** Padding of posted messages *)

Definition inbound_recipient_envelope_wire_len (e : InboundRecipientEnvelope) : option Z :=
  let str (key : string) (value : string) :=
    json_string_field_len (text_bytes key) (text_bytes value) in
  f1 ← str "recipient_username" (ev_recipient_username e);
  f2 ← str "wrapped_key_b64" (ev_wrapped_key_b64 e);
  f3 ← str "prekey_id" (ev_prekey_id e);
  f4 ← json_field_len (text_bytes "is_prekey") (json_bool_len (ev_is_prekey e));
  f5 ← str "signature_b64" (ev_signature_b64 e);
  json_object_len [f1; f2; f3; f4; f5].

Definition inbound_message_wire_len (p : PostedMessage) (padding_bucket : Z) (padding : bytes)
    : option Z :=
  let str (key : string) (value : string) :=
    json_string_field_len (text_bytes key) (text_bytes value) in
  let num (key : string) (value : Z) :=
    n ← json_number_len value; json_field_len (text_bytes key) n in
  envelopes_len ← json_array_len (inbound_recipient_envelope_wire_len <$> im_envelopes p);
  f1 ← str "type" "message";
  f2 ← str "chat_id" (im_chat_id p);
  f3 ← num "version" (im_version p);
  f4 ← str "message_id" (im_message_id p);
  f5 ← str "nonce_b64" (im_nonce_b64 p);
  f6 ← str "ciphertext_b64" (im_ciphertext_b64 p);
  f7 ← json_field_len (text_bytes "envelopes") envelopes_len;
  f8 ← num "state_revision" (im_state_revision p);
  f9 ← str "identity_envelope_b64" (im_identity_envelope_b64 p);
  f10 ← str "identity_public_b64" (im_identity_public_b64 p);
  f11 ← str "prekey_id" (im_prekey_id p);
  f12 ← str "state_signature_b64" (im_state_signature_b64 p);
  f13 ← str "directory_node_id" (im_directory_node_id p);
  f14 ← num "directory_revision" (im_directory_revision p);
  f15 ← str "directory_digest" (im_directory_digest p);
  f16 ← num "padding_bucket" padding_bucket;
  f17 ← json_string_field_len (text_bytes "padding") padding;
  json_object_len [f1; f2; f3; f4; f5; f6; f7; f8; f9; f10; f11; f12; f13; f14; f15; f16; f17].

Definition canonical_inbound_message_bucket (p : PostedMessage) : option (Z * Z) :=
  find_map (λ bucket,
    empty_len ← inbound_message_wire_len p bucket [];
    if bool_decide (empty_len ≤ bucket) then Some (bucket, empty_len) else None)
    MESSAGE_TRANSPORT_BUCKETS.

Definition validate_inbound_message_padding (text : string) (frame : ClientFrame.t)
    : result string () :=
  match frame with
  | ClientFrame.Message p padding_bucket padding =>
      _ ← reject_if (bool_decide (MESSAGE_TRANSPORT_MAX_BUCKET < slen text)
                     || negb (valid_message_transport_padding padding))
            "message transport padding rejected"%string;
      '(canonical_bucket, empty_len) ←
        ok_or (canonical_inbound_message_bucket p) "message transport padding unavailable"%string;
      _ ← reject_if (bool_decide (padding_bucket ≠ canonical_bucket))
            "message transport padding bucket rejected"%string;
      expected_padding_len ← ok_or (checked_sub canonical_bucket empty_len)
                               "message transport padding length rejected"%string;
      _ ← reject_if (bool_decide (len padding ≠ expected_padding_len))
            "message transport padding length rejected"%string;
      serialized_len ← ok_or (inbound_message_wire_len p padding_bucket padding)
                         "message transport padding serialization failed"%string;
      reject_if (bool_decide (serialized_len ≠ canonical_bucket)
                 || bool_decide (slen text ≠ canonical_bucket))
        "message transport padding length rejected"%string
  | _ => Ok tt
  end.

Section relay.
Context {HO : HashOrder} {B64 : Base64} {ENV : RelayEnv} {JSON : SerdeJson} {FJ : FrameJson}.
Context {KEYS : Keys} {DRAWS : Draws} {CJ : ClientJson} {IDS : DirectIds}.

(** ** Conversations *)

Definition join_room (client_id : Uuid) (chat_id : string) : Task () :=
  '(_, username, recipient_platform) ← on_relay (client_identity_and_platform client_id);
  _ ← require_access username chat_id;
  _ ← on_relay (modify (λ r,
        set_rl_rooms (<[chat_id := {[client_id]} ∪ default ∅ (rl_rooms r !! chat_id)]>
                        (rl_rooms r)) r));
  _ ← prune_queues;
  s ← get;
  on_relay (for_each (default [] (mb_pending (ms_mailbox s) !! mkPendingKey chat_id username))
    (λ f, if InteropPolicy.allows interop_policy (pf_sender_platform f) recipient_platform
          then send (pf_frame f) client_id else mret tt)).

Definition leave_room (client_id : Uuid) (chat_id : string) : Task () :=
  on_relay (modify (λ r,
    set_rl_rooms (alter (λ members, members ∖ {[client_id]}) chat_id (rl_rooms r)) r)).

Definition direct_contains (d : DirectEntry) (username : string) : bool :=
  bool_decide (de_user_a d = username) || bool_decide (de_user_b d = username).
Definition record_for (d : DirectEntry) (username : string) : option DirectRecord :=
  mkDirectRecord (de_id d) <$> peer_for d username.

(** The conversation of the two users, which is made when there is none. *)
Definition find_or_open (sender peer : string) (id : string) (directs : gmap string DirectEntry)
    : result string DirectEntry * gmap string DirectEntry :=
  let of_user (username : string) : Z := len (List.filter (λ d, direct_contains d username) (hash_values directs)) in
  match List.find (λ d, direct_contains d sender && direct_contains d peer) (hash_values directs) with
  | Some existing => (Ok existing, directs)
  | None =>
      if bool_decide (MAX_DIRECT_CATALOG_ENTRIES ≤ map_len directs)
         || bool_decide (MAX_DIRECT_CATALOG_PER_USER ≤ of_user sender)
         || bool_decide (MAX_DIRECT_CATALOG_PER_USER ≤ of_user peer)
      then (Err "direct catalog unavailable"%string, directs)
      else let d := mkDirect id sender peer in (Ok d, <[id := d]> directs)
  end.

Definition on_directs {A} (f : ST (gmap string DirectEntry) string A) : Task A := λ s,
  let '(x, directs) := f (ms_direct_catalog s) in (x, set_ms_direct_catalog directs s).

Definition announce_direct (d : DirectEntry) : Handler () := λ r,
  for_each (omap (λ kc, pair kc.1 <$> record_for d (cl_username kc.2)) (hash_iter (rl_clients r)))
    (λ '(client_id, record), send (OutboundFrame.DirectOpened record) client_id) r.

Definition open_direct (sender_id : Uuid) (peer_username : string) : Task () :=
  '(_, sender_username) ← on_relay (client_identity sender_id);
  let requested := trim peer_username in
  _ ← lift (reject_if (bool_decide (requested = EmptyString)
                       || bool_decide (MAX_USERNAME_BYTES < slen requested))
              "direct recipient unavailable"%string);
  s ← get;
  peer ← lift (ok_or
    (a ← List.find (λ a, eq_ignore_ascii_case (ra_username a) requested)
           (hash_values (ms_accounts s));
     if bool_decide (ra_username a = sender_username) then None else Some (ra_username a))
    "direct recipient unavailable"%string);
  n ← on_relay (λ r, (Ok (rl_ticks r), set_rl_ticks (S (rl_ticks r)) r));
  d ← on_directs (find_or_open sender_username peer ("dm_" +:+ fresh_uuid n));
  on_relay (announce_direct d).

(** [send_direct_catalog_inner]. *)
Definition direct_catalog_frame (username : string) (directs : gmap string DirectEntry)
    : OutboundFrame.t :=
  OutboundFrame.Directs
    (take (Z.to_nat MAX_DIRECT_CATALOG_PER_USER)
       (omap (λ d, record_for d username) (hash_values directs))).
Definition send_direct_catalog_inner (client_id : Uuid) (username : string) (initial : bool)
    : Task () := λ s,
  on_relay (queue_frame initial (direct_catalog_frame username (ms_direct_catalog s)) client_id) s.

(** ** Wipe *)

(** What is left of the relay's state: the clock, the last activity and the
    writers with the frames they hold.  The stores the function clears besides
    (invites, OPAQUE handshakes, tickets, the receipts of the bootstrap, control
    and attachment endpoints, login limits) are not part of [Messenger]. *)
Definition wipe_relay_state (notify_clients : bool) : Task () := λ s,
  let r := ms_relay s in
  let ob :=
    if notify_clients
    then foldl (λ ob id, send_control_to_client id OutboundQueue.GlobalWipe ob) (rl_outbound r)
           (hash_keys (rl_clients r))
    else rl_outbound r in
  (Ok tt,
   mkMessenger
     (mkRelay (RoomLifecycle.wipe (rl_mls_rooms r)) (wipe_attachments (rl_attachments r))
        (set_clients ∅ ob) ∅ (clear (rl_transaction_receipts r)) ∅ ∅ ∅ ∅ ∅
        (rl_last_activity_ms r) (rl_ticks r))
     mailbox_new ∅ ∅).

Definition broadcast_wipe (sender_id : Uuid) : Task () :=
  s ← get;
  _ ← lift (reject_if (negb (contains_key sender_id (rl_clients (ms_relay s))))
              "authenticated client required"%string);
  wipe_relay_state true.

(** One turn of [inactivity_watcher]. *)
Definition inactivity_check (inactivity_limit_ms : Z) : Task () :=
  now ← clock;
  s ← get;
  if bool_decide (inactivity_limit_ms ≤ saturating_sub now (rl_last_activity_ms (ms_relay s)))
  then _ ← wipe_relay_state true; on_relay touch_activity
  else mret tt.

(** ** Transactions *)

(** [let result = call.await]: the error is a value. *)
Definition try_task {A} (t : Task A) : Task (result string A) := λ s,
  let '(x, s) := t s in (Ok x, s).

(** The arms of posts and acknowledgements: a frame whose identifiers are not
    well formed runs without a receipt. *)
Definition run_message_transaction (sender_id : Uuid) (kind : TransactionKind)
    (chat_id message_id text refused : string) (answer : bool → Handler ()) (body : Task ())
    : Task () :=
  let safe := valid_chat_id message_id in
  transaction ←
    (if safe && valid_chat_id chat_id
     then t ← on_relay (begin_recoverable_transaction sender_id kind chat_id message_id text);
          mret (Some t)
     else mret None);
  match transaction with
  | Some (RtReplay accepted) =>
      _ ← on_relay (answer accepted);
      lift (if accepted then Ok tt else Err refused)
  | Some RtRejectForCapacity =>
      _ ← on_relay (answer false);
      lift (Err "transaction receipt capacity exceeded"%string)
  | _ =>
      res ← try_task body;
      _ ← match transaction with
          | Some (RtExecute ticket) =>
              on_relay (finish_recoverable_transaction sender_id ticket (is_ok res))
          | _ => mret tt
          end;
      _ ← (if safe then on_relay (answer (is_ok res)) else mret tt);
      _ ← (if is_ok res then on_relay touch_activity else mret tt);
      lift res
  end.

Definition send_message_result (client_id : Uuid) (message_id : string) (accepted : bool)
    : Handler () := send_result client_id (OutboundFrame.MessageResult message_id accepted).
Definition send_ack_result (client_id : Uuid) (message_id : string) (accepted : bool)
    : Handler () := send_result client_id (OutboundFrame.AckResult message_id accepted).

(** A handler that succeeds counts as activity. *)
Definition active (t : Task ()) : Task () := _ ← t; on_relay touch_activity.

(** [if state.room_catalog.contains_key(&chat_id) { return Err(..) }]. *)
Definition no_legacy_room (chat_id : string) : Task () := λ s,
  (reject_if (contains_key chat_id (ms_room_catalog s)) "protocol-v9 rooms are unavailable"%string,
   s).

Definition run_frame (sender_id : Uuid) (text : string) (frame : ClientFrame.t) : Task () :=
  match frame with
  | ClientFrame.Activity => on_relay touch_activity
  | ClientFrame.PrekeyLease chat_id message_id recipient_username =>
      lease ← lease_prekey sender_id chat_id message_id recipient_username;
      _ ← on_relay (send lease sender_id);
      on_relay touch_activity
  | ClientFrame.PrekeyLeaseRelease chat_id message_id recipient_username prekey_id =>
      active (release_unused_prekey_lease sender_id chat_id message_id recipient_username prekey_id)
  | ClientFrame.Join chat_id =>
      _ ← no_legacy_room chat_id; active (join_room sender_id chat_id)
  | ClientFrame.Leave chat_id =>
      _ ← no_legacy_room chat_id; active (leave_room sender_id chat_id)
  | ClientFrame.Message p _ _ =>
      run_message_transaction sender_id Message (im_chat_id p) (im_message_id p) text
        "message rejected" (send_message_result sender_id (im_message_id p))
        (route_encrypted_message_with_directory sender_id p
           (directory_evidence (im_directory_node_id p) (im_directory_revision p)
              (im_directory_digest p)))
  | ClientFrame.MessageAck a =>
      run_message_transaction sender_id Acknowledgement (ia_chat_id a) (ia_message_id a) text
        "acknowledgement rejected" (send_ack_result sender_id (ia_message_id a))
        (acknowledge_message sender_id a)
  | ClientFrame.IdentityState revision envelope_b64 public_b64 prekey_id signature_b64 =>
      active (update_identity_state sender_id revision envelope_b64 public_b64 prekey_id
                signature_b64)
  | ClientFrame.GlobalWipe => active (broadcast_wipe sender_id)
  | ClientFrame.CreateRoom _ | ClientFrame.DeleteRoom _ =>
      lift (Err "protocol-v9 rooms are unavailable"%string)
  | ClientFrame.OpenDirect peer_username => active (open_direct sender_id peer_username)
  | ClientFrame.Mls frame => on_relay (handle_mls_frame sender_id text frame)
  | ClientFrame.Dummy _ _ => mret tt
  end.

Definition handle_frame (sender_id : Uuid) (text : string) : Task () :=
  _ ← lift (validate_inbound_frame_size_before_parse (text_bytes text));
  frame ← lift (parse_frame text);
  _ ← lift (validate_inbound_message_padding text frame);
  run_frame sender_id text frame.
End relay.
