(* ===== verification/MailboxFacts.v ===== *)
(** * The accounting of the mailbox

    [pending_ok]: the byte counter is exactly the bytes of the waiting frames,
    within the budget, and every queue is non-empty, bounded and holds messages
    of its own conversation.  A plan that was accepted is committed without
    failing, and rolling it back restores the mailbox. *)

From S2P Require Import Prelude TransportWire TransportPadding RoomModel AttachmentStore RelayFrame.
From S2P Require Import RateLimit Relay IdentityBundle Mailbox.

(** ** Sizes *)

Definition frame_size (f : PendingFrame) : Z := outbound_frame_bytes (pf_frame f).
Definition waiting_bytes (q : list PendingFrame) : Z := sumZ (frame_size <$> q).

Lemma find_map_Some {A B} (f : A → option B) l y :
  find_map f l = Some y → ∃ x, x ∈ l ∧ f x = Some y.
Proof.
  induction l as [|x l IH]; simpl; [done|]. destruct (f x) eqn:E.
  - intros [= ->]. exists x. split; [left|done].
  - intros (x' & ? & ?)%IH. exists x'. split; [by right|done].
Qed.

Lemma outbound_frame_bytes_nonneg frame : 0 ≤ outbound_frame_bytes frame.
Proof.
  destruct frame; simpl; try done.
  destruct (canonical_outbound_message_bucket message) as [[bucket n]|] eqn:E; [|done].
  assert (0 ≤ bucket) as Hb.
  { apply find_map_Some in E as (b & Hin & E).
    destruct (outbound_message_wire_len message b []) as [k|]; simpl in E; [|done].
    case_bool_decide; simplify_eq.
    assert (Forall (λ b, 0 ≤ b) MESSAGE_TRANSPORT_BUCKETS) as Hall
      by (by repeat constructor).
    by eapply Forall_forall in Hall. }
  destruct (checked_sub bucket n); [|done]. by destruct (_ || _).
Qed.
Lemma frame_size_nonneg f : 0 ≤ frame_size f.
Proof. apply outbound_frame_bytes_nonneg. Qed.
Lemma waiting_bytes_nonneg q : 0 ≤ waiting_bytes q.
Proof. apply sumZ_fmap_nonneg, frame_size_nonneg. Qed.
Lemma waiting_bytes_app q1 q2 : waiting_bytes (q1 ++ q2) = waiting_bytes q1 + waiting_bytes q2.
Proof. unfold waiting_bytes. by rewrite fmap_app, sumZ_app. Qed.
Lemma waiting_bytes_cons f q : waiting_bytes (f :: q) = frame_size f + waiting_bytes q.
Proof. done. Qed.
#[export] Hint Resolve frame_size_nonneg waiting_bytes_nonneg outbound_frame_bytes_nonneg : relay.

(** A frame whose bytes the relay could compute. *)
Definition sized (frame : OutboundFrame.t) : Prop :=
  validated_outbound_frame_bytes frame = Some (outbound_frame_bytes frame).
Lemma validated_sized frame b :
  validated_outbound_frame_bytes frame = Some b → sized frame ∧ b = outbound_frame_bytes frame.
Proof.
  unfold sized, validated_outbound_frame_bytes. intros H.
  destruct frame; try (by injection H as <-). case_bool_decide; [done|]. by injection H as <-.
Qed.

(** A waiting frame of the queue [k]. *)
Definition frame_ok (k : PendingKey) (f : PendingFrame) : Prop :=
  sized (pf_frame f) ∧
  ∃ m, pf_frame f = OutboundFrame.Message m ∧ om_chat_id m = pk_chat_id k.

Definition queue_ok (k : PendingKey) (q : list PendingFrame) : Prop :=
  q ≠ [] ∧ len q ≤ MAX_PENDING_FRAMES_PER_ROOM ∧ Forall (frame_ok k) q.

(** ** The invariant *)

Record pending_ok (m : Mailbox) : Prop := mkPendingOk {
  po_bytes : mb_pending_bytes m = map_sum waiting_bytes (mb_pending m);
  po_budget : mb_pending_bytes m ≤ MAX_PENDING_BYTES;
  po_queues k q : mb_pending m !! k = Some q → queue_ok k q
}.

Lemma pending_ok_new : pending_ok mailbox_new.
Proof. split; simpl; [by rewrite map_sum_empty|done|intros k q; by rewrite lookup_empty]. Qed.

(** The queues and the counter are all it is about. *)
Lemma pending_ok_same m m' :
  mb_pending m' = mb_pending m → mb_pending_bytes m' = mb_pending_bytes m →
  pending_ok m → pending_ok m'.
Proof. intros E1 E2 [? ? ?]. split; rewrite ?E1, ?E2; eauto. Qed.

(** ** Lists with positions *)

Lemma remove_at_insert_at {A} i (x : A) l :
  l !! i = Some x → insert_at (i `min` length (remove_at i l)) x (remove_at i l) = l.
Proof.
  intros Hi. pose proof (lookup_lt_Some _ _ _ Hi) as Hlt. unfold insert_at, remove_at.
  assert (length (take i l) = i) as Ht by (rewrite length_take; lia).
  rewrite length_app, Ht, (Nat.min_l i) by lia.
  rewrite take_app_length', drop_app_length' by done. by apply take_drop_middle.
Qed.
Lemma remove_at_last {A} (l : list A) x : remove_at (length l) (l ++ [x]) = l.
Proof.
  unfold remove_at. rewrite take_app_length, drop_ge; [by rewrite app_nil_r|].
  rewrite length_app. simpl. lia.
Qed.
Lemma fmap_remove_at {A B} (f : A → B) i l : f <$> remove_at i l = remove_at i (f <$> l).
Proof. unfold remove_at. by rewrite fmap_app, fmap_take, fmap_drop. Qed.
Lemma length_remove_at {A} i (l : list A) x :
  l !! i = Some x → length (remove_at i l) = (length l - 1)%nat.
Proof.
  intros Hi. pose proof (lookup_lt_Some _ _ _ Hi). unfold remove_at.
  rewrite length_app, length_take, length_drop. lia.
Qed.
Lemma Forall_remove_at {A} (P : A → Prop) i l : Forall P l → Forall P (remove_at i l).
Proof. intros. unfold remove_at. apply Forall_app. split; auto using Forall_take, Forall_drop. Qed.
Lemma waiting_bytes_remove_at i q f :
  q !! i = Some f → waiting_bytes (remove_at i q) = waiting_bytes q - frame_size f.
Proof.
  intros Hi. rewrite <- (take_drop_middle q i f Hi) at 2. unfold remove_at.
  rewrite !waiting_bytes_app, waiting_bytes_cons. lia.
Qed.
Lemma rposition_last {A} (p : A → bool) l x :
  p x = true → rposition p (l ++ [x]) = Some (length l).
Proof. intros Hx. induction l as [|y l IH]; simpl; [by rewrite Hx|by rewrite IH]. Qed.

(** ** Simulated queues *)

Definition sim_frame (f : PendingFrame) : Z * bool := (frame_size f, is_prekey_frame (pf_frame f)).
Definition sim_queue (q : list PendingFrame) : list (Z * bool) := sim_frame <$> q.
Definition sim_of (pending : gmap PendingKey (list PendingFrame)) : Simulated :=
  sim_queue <$> pending.

Section simulation.
Context {HO : HashOrder}.

Lemma simulate_queue q : Forall (λ f, sized (pf_frame f)) q → mapM simulate_frame q = Some (sim_queue q).
Proof.
  induction 1 as [|f q Hf _ IH]; [done|]. simpl. rewrite IH. unfold simulate_frame.
  by rewrite Hf.
Qed.

Lemma simulate_ok m :
  pending_ok m → simulate (mb_pending m) = Some (sim_of (mb_pending m)).
Proof.
  intros Hm. unfold simulate.
  assert (∀ l, (∀ kq, kq ∈ l → Forall (λ f, sized (pf_frame f)) kq.2) →
    foldr (λ kq acc, sim ← acc; queue ← mapM simulate_frame kq.2; Some (<[kq.1 := queue]> sim))
      (Some ∅) l = Some (list_to_map (prod_map id sim_queue <$> l) : Simulated)) as Hl.
  { induction l as [|[k q] l IH]; intros Hall; [done|]. simpl.
    rewrite IH by (intros; apply Hall; by right). simpl.
    rewrite simulate_queue; [done|]. apply (Hall (k, q)). left. }
  rewrite Hl.
  - f_equal. unfold sim_of. rewrite <- (list_to_map_to_list (mb_pending m)) at 2.
    rewrite <- list_to_map_fmap. apply list_to_map_proper.
    + rewrite <- list_fmap_compose. apply (NoDup_hash_keys (mb_pending m)).
    + by rewrite hash_iter_perm.
  - intros [k q] Hin. rewrite hash_iter_perm in Hin. apply elem_of_map_to_list in Hin.
    destruct (po_queues m Hm k q Hin) as (_ & _ & Hq). simpl.
    eapply Forall_impl; [done|]. by intros f [? _].
Qed.
End simulation.

(** ** What a committed plan does *)

(** A queue with space stays; a full one loses its first frame that uses no
    prekey. *)
Inductive makes_room (q : list PendingFrame)
    : option nat → option PendingFrame → list PendingFrame → Prop :=
| room_free : len q < MAX_PENDING_FRAMES_PER_ROOM → makes_room q None None q
| room_evicts i f :
    MAX_PENDING_FRAMES_PER_ROOM ≤ len q →
    list_find (λ f, is_prekey_frame (pf_frame f) = false) q = Some (i, f) →
    makes_room q (Some i) (Some f) (remove_at i q).

Definition evicted_bytes (ev : option PendingFrame) : Z := from_option frame_size 0 ev.
Definition release_evicted (ev : option PendingFrame) (b : Z) : Z :=
  match ev with Some f => saturating_sub b (frame_size f) | None => b end.

(** The frames enter their queues one after the other. *)
Inductive committed (now : Z) (platform : ClientPlatform)
    : list (string * OutboundFrame.t) → Mailbox → list PendingQueuePlan → Mailbox → Prop :=
| committed_nil m : committed now platform [] m [] m
| committed_cons recipient msg frames m i ev q' plan m' :
    makes_room (default [] (mb_pending m !! mkPendingKey (om_chat_id msg) recipient)) i ev q' →
    sized (OutboundFrame.Message msg) →
    committed now platform frames
      (set_mb_pending
         (<[mkPendingKey (om_chat_id msg) recipient :=
              q' ++ [mkPendingFrame (OutboundFrame.Message msg) now platform]]> (mb_pending m))
         (mb_pending_bytes m - evicted_bytes ev + outbound_frame_bytes (OutboundFrame.Message msg))
         m) plan m' →
    committed now platform ((recipient, OutboundFrame.Message msg) :: frames) m
      (mkPlan (mkPendingKey (om_chat_id msg) recipient) i ev :: plan) m'.

Lemma make_room_inv e q b i sq b' :
  make_room e (sim_queue q) b = Ok (i, sq, b') →
  ∃ ev q', makes_room q i ev q' ∧ sq = sim_queue q' ∧ b' = release_evicted ev b.
Proof.
  unfold make_room, sim_queue. rewrite len_fmap. case_bool_decide as Hfull; intros H; run_ok.
  - unfold first_evictable in *. rewrite list_find_fmap in *.
    destruct (list_find _ q) as [[? f]|] eqn:Hf; simplify_eq/=.
    exists (Some f), (remove_at x q). split_and!; [by constructor|by rewrite fmap_remove_at|].
    apply list_find_Some in Hf as [Hj _]. by rewrite list_lookup_fmap, Hj.
  - exists None, q. split_and!; try done. constructor. lia.
Qed.

Lemma makes_room_sim e q i ev q' b :
  makes_room q i ev q' →
  make_room e (sim_queue q) b = Ok (i, sim_queue q', release_evicted ev b).
Proof.
  unfold make_room, sim_queue. rewrite len_fmap. intros [Hfree|j f Hfull Hf].
  - by rewrite bool_decide_false by lia.
  - rewrite bool_decide_true by done. unfold first_evictable. rewrite list_find_fmap.
    set (found := list_find _ q). assert (found = Some (j, f)) as -> by exact Hf. simpl.
    apply list_find_Some in Hf as [Hj _]. by rewrite list_lookup_fmap, Hj, fmap_remove_at.
Qed.

Lemma makes_room_evict q i ev q' p b :
  makes_room q i ev q' → pq_eviction_index p = i →
  evict_planned p q b = Ok (ev, q', release_evicted ev b).
Proof.
  unfold evict_planned. intros [Hfree|j f Hfull Hf] ->.
  - rewrite bool_decide_false by lia. done.
  - rewrite bool_decide_true by done. apply list_find_Some in Hf as (Hj & Hp & _). simpl.
    by rewrite Hj; simpl; rewrite Hp.
Qed.

(** The queue of [default []] contributes its bytes. *)
Lemma at_key_default (pending : gmap PendingKey (list PendingFrame)) k :
  at_key waiting_bytes k pending = waiting_bytes (default [] (pending !! k)).
Proof. unfold at_key. by destruct (pending !! k). Qed.

Lemma makes_room_bytes q i ev q' :
  makes_room q i ev q' → waiting_bytes q' = waiting_bytes q - evicted_bytes ev.
Proof.
  intros [_|j f _ (Hj & _)%list_find_Some]; simpl; [lia|]. by apply waiting_bytes_remove_at.
Qed.
Lemma makes_room_evicted_le q i ev q' :
  makes_room q i ev q' → 0 ≤ evicted_bytes ev ≤ waiting_bytes q.
Proof.
  intros H. pose proof (makes_room_bytes _ _ _ _ H). pose proof (waiting_bytes_nonneg q').
  split; [|lia]. destruct ev; simpl; auto with relay. lia.
Qed.
Lemma makes_room_len q i ev q' :
  makes_room q i ev q' → len q ≤ MAX_PENDING_FRAMES_PER_ROOM →
  len q' < MAX_PENDING_FRAMES_PER_ROOM.
Proof.
  intros [?|j f Hfull (Hj & _)%list_find_Some] Hq; [done|].
  pose proof (length_remove_at _ _ _ Hj). unfold len, MAX_PENDING_FRAMES_PER_ROOM in *. lia.
Qed.
Lemma makes_room_Forall P q i ev q' : makes_room q i ev q' → Forall P q → Forall P q'.
Proof. intros [?|j f _ _] ?; [done|]. by apply Forall_remove_at. Qed.

Definition exact (m : Mailbox) : Prop :=
  mb_pending_bytes m = map_sum waiting_bytes (mb_pending m).

Lemma queue_le_bytes m k :
  exact m → waiting_bytes (default [] (mb_pending m !! k)) ≤ mb_pending_bytes m.
Proof.
  intros ->. destruct (mb_pending m !! k) as [q|] eqn:Hk; simpl.
  - apply (map_sum_entry_le waiting_bytes _ k); auto with relay.
  - apply map_sum_nonneg. auto with relay.
Qed.

Lemma exact_insert m k q :
  exact m → mb_pending_bytes m - waiting_bytes (default [] (mb_pending m !! k)) + waiting_bytes q =
    map_sum waiting_bytes (<[k := q]> (mb_pending m)).
Proof. intros ->. by rewrite map_sum_insert, at_key_default. Qed.

Lemma release_evicted_exact m k i ev q' :
  exact m → makes_room (default [] (mb_pending m !! k)) i ev q' →
  release_evicted ev (mb_pending_bytes m) = mb_pending_bytes m - evicted_bytes ev.
Proof.
  intros Hm Hr. pose proof (makes_room_evicted_le _ _ _ _ Hr).
  pose proof (queue_le_bytes m k Hm). destruct ev; simpl in *; [|lia].
  unfold saturating_sub. lia.
Qed.

(** The counter follows a frame into its queue. *)
Lemma enqueue_exact m k i ev q' frame now platform :
  exact m → makes_room (default [] (mb_pending m !! k)) i ev q' →
  mb_pending_bytes m - evicted_bytes ev + outbound_frame_bytes frame =
    map_sum waiting_bytes (<[k := q' ++ [mkPendingFrame frame now platform]]> (mb_pending m)).
Proof.
  intros Hm Hr. rewrite <- (exact_insert m) by done.
  rewrite waiting_bytes_app, (makes_room_bytes _ _ _ _ Hr).
  change (waiting_bytes [_]) with (outbound_frame_bytes frame + 0). lia.
Qed.

(** One frame keeps the invariant. *)
Lemma enqueue_ok now platform recipient msg m i ev q' :
  let key := mkPendingKey (om_chat_id msg) recipient in
  let b := mb_pending_bytes m - evicted_bytes ev
           + outbound_frame_bytes (OutboundFrame.Message msg) in
  pending_ok m → makes_room (default [] (mb_pending m !! key)) i ev q' →
  sized (OutboundFrame.Message msg) → b ≤ MAX_PENDING_BYTES →
  pending_ok (set_mb_pending
    (<[key := q' ++ [mkPendingFrame (OutboundFrame.Message msg) now platform]]> (mb_pending m))
    b m).
Proof.
  intros key b Hm Hr Hs Hb. split; [|done|].
  - by eapply enqueue_exact; [apply Hm|].
  - simpl. intros k q. destruct (decide (k = key)) as [->|Hne].
    + rewrite lookup_insert_eq. intros [= <-].
      assert (len (default [] (mb_pending m !! key)) ≤ MAX_PENDING_FRAMES_PER_ROOM ∧
              Forall (frame_ok key) (default [] (mb_pending m !! key))) as [Hl Hf].
      { destruct (mb_pending m !! key) as [q|] eqn:Hk; [|done]. by apply (po_queues m Hm). }
      split_and!.
      * by destruct q'.
      * rewrite len_app. pose proof (makes_room_len _ _ _ _ Hr Hl). unfold len at 2. simpl. lia.
      * apply Forall_app. split; [by eapply makes_room_Forall|]. repeat constructor; eauto.
    + rewrite lookup_insert_ne by done. apply Hm.
Qed.

(** ** A plan that was accepted can be committed *)

Lemma sim_of_lookup pending k :
  default [] (sim_of pending !! k) = sim_queue (default [] (pending !! k)).
Proof. unfold sim_of. rewrite lookup_fmap. by destruct (pending !! k). Qed.

Lemma sim_of_enqueue pending k q frame now platform :
  sim_of (<[k := q ++ [mkPendingFrame frame now platform]]> pending) =
  <[k := sim_queue q ++ [(outbound_frame_bytes frame, is_prekey_frame frame)]]> (sim_of pending).
Proof. unfold sim_of. rewrite fmap_insert. unfold sim_queue. by rewrite fmap_app. Qed.

Lemma charge_inv over frame b incoming b' :
  charge over frame b = Ok (incoming, b') →
  sized frame ∧ incoming = outbound_frame_bytes frame ∧ b' = b + incoming ∧
  b' ≤ MAX_PENDING_BYTES.
Proof.
  unfold charge. intros H. run_ok.
  match goal with H : validated_outbound_frame_bytes _ = _ |- _ =>
    apply validated_sized in H as [? ->] end.
  checked. simplify_eq. split_bools. split_and!; try done. lia.
Qed.
Lemma charge_ok over frame b :
  sized frame → b + outbound_frame_bytes frame ≤ MAX_PENDING_BYTES →
  charge over frame b = Ok (outbound_frame_bytes frame, b + outbound_frame_bytes frame).
Proof.
  intros Hs Hb. unfold charge. rewrite Hs. simpl. unfold checked_add.
  rewrite decide_True by (unfold MAX_PENDING_BYTES, usize_MAX in *; lia). simpl.
  by rewrite bool_decide_false by lia.
Qed.

(** Committing one planned frame. *)
Lemma commit_frame_ok now platform recipient msg m i ev q' :
  let key := mkPendingKey (om_chat_id msg) recipient in
  let frame := OutboundFrame.Message msg in
  exact m → makes_room (default [] (mb_pending m !! key)) i ev q' → sized frame →
  mb_pending_bytes m - evicted_bytes ev + outbound_frame_bytes frame ≤ MAX_PENDING_BYTES →
  commit_frame now platform frame (mkPlan key i None) m =
    (Ok (mkPlan key i ev),
     set_mb_pending (<[key := q' ++ [mkPendingFrame frame now platform]]> (mb_pending m))
       (mb_pending_bytes m - evicted_bytes ev + outbound_frame_bytes frame) m).
Proof.
  intros key frame Hm Hr Hs Hb. unfold commit_frame. simpl pq_key.
  rewrite (makes_room_evict _ i ev q') by done. simpl mb_pending_bytes.
  rewrite (release_evicted_exact m key i ev q') by done. rewrite Hs. unfold checked_add.
  rewrite decide_True by (unfold MAX_PENDING_BYTES, usize_MAX in *; lia).
  unfold set_mb_pending. simpl mb_pending. rewrite !insert_insert_eq. simpl. by destruct ev.
Qed.

Section commit.
Context {HO : HashOrder}.

Lemma plan_frames_cons recipient frame frames sim b plan :
  plan_frames ((recipient, frame) :: frames) sim b = Ok plan →
  ∃ msg i sq b1 n b2 plan',
    let key := mkPendingKey (om_chat_id msg) recipient in
    frame = OutboundFrame.Message msg ∧ plan = mkPlan key i None :: plan' ∧
    make_room "recipient pending queue full" (default [] (sim !! key)) b = Ok (i, sq, b1) ∧
    charge "pending message budget full" frame b1 = Ok (n, b2) ∧
    plan_frames frames (<[key := sq ++ [(n, is_prekey_frame frame)]]> sim) b2 = Ok plan'.
Proof.
  cbn [plan_frames]. intros (chat & Hc%ok_or_Ok & H)%bind_Ok. destruct frame as [msg| | | | | | | | | | | | | | | | | | | | | | | | | ]; try discriminate Hc.
  injection Hc as <-. apply bind_Ok in H as ([[i sq] b1] & Hr & H).
  apply bind_Ok in H as ([n b2] & Hch & H). apply bind_Ok in H as (plan' & Hp & H).
  injection H as <-. exists msg, i, sq, b1, n, b2, plan'. done.
Qed.

Lemma plan_commit now platform frames m plan :
  pending_ok m → plan_frames frames (sim_of (mb_pending m)) (mb_pending_bytes m) = Ok plan →
  length frames = length plan ∧
  validate_plan frames plan (sim_of (mb_pending m)) (mb_pending_bytes m) = Ok tt ∧
  ∃ plan' m', commit_frames now platform frames plan m = (Ok plan', m') ∧
    committed now platform frames m plan' m' ∧ pending_ok m'.
Proof.
  revert m plan. induction frames as [|[recipient frame] frames IH]; intros m plan Hm H.
  { injection H as <-. split_and!; [done|done|]. exists [], m. split_and!; try done. constructor. }
  apply plan_frames_cons in H as (msg & i & sq & b1 & n & b2 & rest & -> & -> & Hroom & Hch & Hp).
  set (key := mkPendingKey (om_chat_id msg) recipient) in *.
  rewrite sim_of_lookup in Hroom. apply make_room_inv in Hroom as (ev & q' & Hr & -> & ->).
  rewrite (release_evicted_exact m key i ev q' (po_bytes m Hm) Hr) in Hch.
  apply charge_inv in Hch as (Hs & -> & -> & Hb).
  rewrite <- (sim_of_enqueue _ _ _ _ now platform) in Hp.
  pose proof (enqueue_ok now platform recipient msg m i ev q' Hm Hr Hs Hb) as Hm1.
  destruct (IH _ _ Hm1 Hp) as (Hl & Hv & plan' & m' & Hcf & Hcom & Hm').
  split; [by rewrite !length_cons, Hl|]. split.
  - cbn [validate_plan pq_key pq_eviction_index pq_evicted].
    rewrite sim_of_lookup, (makes_room_sim _ _ i ev q') by done. unfold mbind at 1, result_bind at 1.
    rewrite bool_decide_false, bool_decide_false by (auto || by intros [? ?]).
    unfold reject_if, mbind, result_bind.
    rewrite (release_evicted_exact m key i ev q' (po_bytes m Hm) Hr), charge_ok by done.
    by rewrite <- (sim_of_enqueue _ _ _ _ now platform).
  - exists (mkPlan key i ev :: plan'), m'. split_and!; [|by econstructor|done].
    cbn [commit_frames]. unfold mbind, ST_bind. subst key.
    rewrite (commit_frame_ok now platform recipient msg m i ev q') by (done || apply Hm).
    by rewrite Hcf.
Qed.

Lemma commit_preflighted now platform frames m plan :
  pending_ok m → plan_frames frames (sim_of (mb_pending m)) (mb_pending_bytes m) = Ok plan →
  ∃ plan' m', commit_pending_frames now frames plan platform m = (Ok plan', m') ∧
    committed now platform frames m plan' m' ∧ pending_ok m'.
Proof.
  intros Hm H. destruct (plan_commit now platform frames m plan Hm H) as (Hl & Hv & Hc).
  unfold commit_pending_frames. rewrite bool_decide_false by auto.
  by rewrite simulate_ok, Hv by done.
Qed.
End commit.

(** ** Rolling a committed plan back *)

Lemma set_mb_pending_twice p b p' b' m :
  set_mb_pending p b (set_mb_pending p' b' m) = set_mb_pending p b m.
Proof. done. Qed.

Section rollback.
Context (now : Z) (platform : ClientPlatform).

Lemma committed_other fs m ps m' key :
  committed now platform fs m ps m' → key ∉ pq_key <$> ps → mb_pending m' !! key = mb_pending m !! key.
Proof.
  induction 1 as [|recipient msg fs m i ev q' ps m' Hr Hs Hc IH]; [done|]. intros Hk.
  rewrite fmap_cons in Hk. apply not_elem_of_cons in Hk as [Hne Hk]. rewrite IH by done. simpl.
  by rewrite lookup_insert_ne.
Qed.

(** A queue the plan does not touch can be replaced. *)
Lemma committed_replace fs m ps m' key q d :
  committed now platform fs m ps m' → key ∉ pq_key <$> ps →
  committed now platform fs
    (set_mb_pending (<[key := q]> (mb_pending m)) (mb_pending_bytes m + d) m) ps
    (set_mb_pending (<[key := q]> (mb_pending m')) (mb_pending_bytes m' + d) m').
Proof.
  induction 1 as [|recipient msg fs m i ev q' ps m' Hr Hs Hc IH]; [constructor|]. intros Hk.
  rewrite fmap_cons in Hk. apply not_elem_of_cons in Hk as [Hne Hk]. simpl in Hne.
  specialize (IH Hk). apply committed_cons with (q' := q'); [|done|].
  { simpl. by rewrite lookup_insert_ne by done. }
  simpl in IH. rewrite set_mb_pending_twice. rewrite (insert_insert_ne _ key) in IH by done.
  rewrite set_mb_pending_twice in IH. by replace (mb_pending_bytes m + d - evicted_bytes ev + _)
    with (mb_pending_bytes m - evicted_bytes ev
            + outbound_frame_bytes (OutboundFrame.Message msg) + d) by lia.
Qed.

Lemma committed_exact fs m ps m' : committed now platform fs m ps m' → exact m → exact m'.
Proof.
  induction 1 as [|recipient msg fs m i ev q' ps m' Hr Hs Hc IH]; [done|]. intros Hm. apply IH.
  by eapply enqueue_exact.
Qed.

(** The bytes of the evicted frames. *)
Definition plan_evicted (ps : list PendingQueuePlan) : Z := sumZ (evicted_bytes ∘ pq_evicted <$> ps).
Lemma plan_evicted_nonneg ps : 0 ≤ plan_evicted ps.
Proof.
  apply sumZ_fmap_nonneg. intros p. simpl. destruct (pq_evicted p); simpl; auto with relay. lia.
Qed.

Lemma committed_balance fs m ps m' :
  committed now platform fs m ps m' →
  mb_pending_bytes m' + plan_evicted ps =
    mb_pending_bytes m + sumZ (outbound_frame_bytes ∘ snd <$> fs).
Proof.
  induction 1 as [m|recipient msg fs m i ev q' ps m' Hr Hs Hc IH].
  { unfold plan_evicted. simpl. lia. }
  unfold plan_evicted in *. rewrite !fmap_cons, !sumZ_cons.
  cbn [mb_pending_bytes set_mb_pending] in IH.
  change ((outbound_frame_bytes ∘ snd) (recipient, OutboundFrame.Message msg))
    with (outbound_frame_bytes (OutboundFrame.Message msg)).
  change ((evicted_bytes ∘ pq_evicted) (mkPlan _ i ev)) with (evicted_bytes ev). lia.
Qed.

Lemma rollback_frame_ok msg key i ev q q' m :
  let frame := OutboundFrame.Message msg in
  makes_room q i ev q' →
  mb_pending m !! key = Some (q' ++ [mkPendingFrame frame now platform]) →
  outbound_frame_bytes frame ≤ mb_pending_bytes m →
  mb_pending_bytes m - outbound_frame_bytes frame + evicted_bytes ev ≤ usize_MAX →
  rollback_frame frame (mkPlan key i ev) m =
    set_mb_pending (<[key := q]> (mb_pending m))
      (mb_pending_bytes m + (evicted_bytes ev - outbound_frame_bytes frame)) m.
Proof.
  intros frame Hr Hk Hle Hmax. unfold rollback_frame, frame. cbn [pq_key pq_evicted pq_eviction_index].
  rewrite Hk, rposition_last.
  2: { unfold same_message. simpl. by rewrite !bool_decide_true. }
  rewrite remove_at_last, list_lookup_middle by done.
  change (default 0 _) with (outbound_frame_bytes frame). fold frame.
  destruct Hr as [_|j f _ (Hj & _)%list_find_Some].
  - f_equal. unfold saturating_sub. change (evicted_bytes None) with 0. lia.
  - cbn [default from_option]. unfold id. rewrite (remove_at_insert_at j f q Hj).
    change (evicted_bytes (Some f)) with (outbound_frame_bytes (pf_frame f)) in *.
    pose proof (outbound_frame_bytes_nonneg (pf_frame f)).
    unfold saturating_sub, saturating_add. f_equal. lia.
Qed.

Definition same_queues (p p' : gmap PendingKey (list PendingFrame)) : Prop :=
  ∀ k, default [] (p !! k) = default [] (p' !! k).

Lemma rollback_committed fs m ps m' :
  committed now platform fs m ps m' → exact m → NoDup (pq_key <$> ps) →
  mb_pending_bytes m' + plan_evicted ps ≤ usize_MAX →
  ∃ p, rollback_frames fs ps m' = set_mb_pending p (mb_pending_bytes m) m' ∧
    same_queues p (mb_pending m).
Proof.
  revert m ps m'. induction fs as [|[recipient frame] fs IH]; intros m ps m' Hc Hm Hnd Hmax.
  { inversion Hc; subst. exists (mb_pending m'). by destruct m'. }
  inversion Hc as [|? msg ? ? i ev q' ps1 ? Hr Hs Hc1]; subst.
  set (key := mkPendingKey (om_chat_id msg) recipient) in *. fold key in Hc1.
  set (m1 := set_mb_pending _ _ m) in Hc1.
  rewrite fmap_cons in Hnd. apply NoDup_cons in Hnd as [Hk Hnd]. simpl in Hk.
  assert (exact m1) as Hm1 by (by eapply enqueue_exact).
  assert (mb_pending m' !! key = Some (q' ++ [mkPendingFrame (OutboundFrame.Message msg) now platform]))
    as Hk'.
  { rewrite (committed_other _ _ _ _ key Hc1 Hk). apply lookup_insert_eq. }
  pose proof (committed_exact _ _ _ _ Hc1 Hm1) as Hm'.
  assert (outbound_frame_bytes (OutboundFrame.Message msg) ≤ mb_pending_bytes m') as Hle.
  { pose proof (queue_le_bytes m' key Hm') as Hq. rewrite Hk' in Hq. cbn [default from_option] in Hq.
    unfold id in Hq. rewrite waiting_bytes_app in Hq. pose proof (waiting_bytes_nonneg q').
    change (waiting_bytes [_]) with (outbound_frame_bytes (OutboundFrame.Message msg) + 0) in Hq. lia. }
  unfold plan_evicted in Hmax. rewrite fmap_cons, sumZ_cons in Hmax.
  change ((evicted_bytes ∘ pq_evicted) (mkPlan key i ev)) with (evicted_bytes ev) in Hmax.
  fold (plan_evicted ps1) in Hmax. pose proof (plan_evicted_nonneg ps1).
  pose proof (outbound_frame_bytes_nonneg (OutboundFrame.Message msg)).
  cbn [rollback_frames].
  rewrite (rollback_frame_ok msg key i ev (default [] (mb_pending m !! key)) q') by (done || lia).
  set (d := evicted_bytes ev - outbound_frame_bytes (OutboundFrame.Message msg)).
  pose proof (committed_replace _ _ _ _ key (default [] (mb_pending m !! key)) d Hc1 Hk) as Hc2.
  destruct (IH _ _ _ Hc2) as (p & -> & Hp).
  - unfold exact, m1. cbn [mb_pending mb_pending_bytes set_mb_pending].
    rewrite insert_insert_eq, <- (exact_insert m) by done. unfold d. lia.
  - done.
  - cbn [mb_pending_bytes set_mb_pending]. unfold d. lia.
  - exists p. split.
    + unfold m1. cbn [mb_pending_bytes set_mb_pending]. rewrite set_mb_pending_twice. f_equal.
      unfold d. lia.
    + intros k. rewrite Hp. unfold m1. cbn [mb_pending set_mb_pending]. rewrite insert_insert_eq.
      destruct (decide (k = key)) as [->|]; [by rewrite lookup_insert_eq|by rewrite lookup_insert_ne].
Qed.

Lemma same_queues_retain p m :
  pending_ok m → same_queues p (mb_pending m) → retain (λ _ q, nonempty q) p = mb_pending m.
Proof.
  intros Hm Hp. apply map_eq. intros k. specialize (Hp k). apply option_eq. intros q.
  rewrite retain_lookup_Some. split.
  - intros [Hk Hq]. rewrite Hk in Hp. simpl in Hp. unfold nonempty in Hq. split_bools.
    destruct (mb_pending m !! k) as [q'|]; simpl in Hp; by subst.
  - intros Hk. destruct (po_queues m Hm k q Hk) as (Hq & _). rewrite Hk in Hp. simpl in Hp.
    destruct (p !! k) as [q'|] eqn:Ek; simpl in Hp; subst; [|done]. split; [done|].
    unfold nonempty. by rewrite bool_decide_false.
Qed.
End rollback.

(** ** Expiry *)

Section prune.
Context {HO : HashOrder}.

Lemma release_bytes_exact b l :
  waiting_bytes l ≤ b → release_bytes b l = b - waiting_bytes l.
Proof.
  unfold release_bytes. revert b. induction l as [|f l IH]; intros b Hb.
  { change (waiting_bytes []) with 0. simpl. lia. }
  rewrite waiting_bytes_cons in *. pose proof (frame_size_nonneg f). pose proof (waiting_bytes_nonneg l).
  cbn [foldl]. change (outbound_frame_bytes (pf_frame f)) with (frame_size f).
  unfold saturating_sub at 2. rewrite Z.max_r by lia. rewrite IH by lia. lia.
Qed.

Lemma waiting_bytes_split p q :
  waiting_bytes q = waiting_bytes (List.filter p q) + waiting_bytes (List.filter (λ f, negb (p f)) q).
Proof.
  induction q as [|f q IH]; [done|]. simpl. destruct (p f); simpl; rewrite !waiting_bytes_cons; lia.
Qed.

Lemma waiting_bytes_concat (ls : list (list PendingFrame)) :
  waiting_bytes (concat ls) = sumZ (waiting_bytes <$> ls).
Proof.
  induction ls as [|l ls IH]; [done|]. cbn [concat]. rewrite waiting_bytes_app, IH. done.
Qed.

Lemma waiting_bytes_expired now ttl pending :
  waiting_bytes (expired_frames now ttl pending) =
    map_sum (waiting_bytes ∘ List.filter (frame_expired now ttl)) pending.
Proof.
  unfold expired_frames. rewrite waiting_bytes_concat, <- list_fmap_compose.
  unfold map_sum. rewrite hash_iter_perm, <- list_fmap_compose. done.
Qed.

(** Dropping empty queues changes no total. *)
Lemma map_sum_nonempty (pending : gmap PendingKey (list PendingFrame)) :
  map_sum waiting_bytes (retain (λ _ q, nonempty q) pending) = map_sum waiting_bytes pending.
Proof.
  unfold retain. induction pending as [|k q pending Hk IH] using map_ind.
  { by rewrite map_filter_empty. }
  rewrite map_sum_insert_None, map_filter_insert by done. case_decide as Hq.
  - rewrite map_sum_insert_None, IH by (apply map_lookup_filter_None; by left). done.
  - rewrite delete_id, IH by done. unfold nonempty in Hq. simpl in Hq.
    destruct q; [change (waiting_bytes []) with 0; lia|]. by rewrite bool_decide_false in Hq.
Qed.

Lemma map_sum_plus {K V} `{Countable K} (f g h : V → Z) (m : gmap K V) :
  (∀ v, f v = g v + h v) → map_sum f m = map_sum g m + map_sum h m.
Proof.
  intros Hf. unfold map_sum. induction ((map_to_list m).*2) as [|v l IH]; [done|].
  rewrite !fmap_cons, !sumZ_cons, IH, Hf. lia.
Qed.

Lemma prune_pending_ok now ttl m : pending_ok m → pending_ok (prune_pending_queues now ttl m).
Proof.
  intros Hm. unfold prune_pending_queues, prune_pending_queues_locked. simpl.
  set (keep := List.filter (λ f, negb (frame_expired now ttl f))).
  pose proof (waiting_bytes_expired now ttl (mb_pending m)) as He.
  pose proof (map_sum_plus waiting_bytes _ _ (mb_pending m)
                (waiting_bytes_split (frame_expired now ttl))) as Hsplit.
  pose proof (map_sum_nonneg (waiting_bytes ∘ keep) (mb_pending m) (λ q, waiting_bytes_nonneg _)) as H0.
  pose proof (waiting_bytes_nonneg (expired_frames now ttl (mb_pending m))) as H1.
  assert (release_bytes (mb_pending_bytes m) (expired_frames now ttl (mb_pending m)) =
            map_sum (waiting_bytes ∘ keep) (mb_pending m)) as Hb.
  { rewrite release_bytes_exact; rewrite (po_bytes m Hm), Hsplit, He; unfold compose, keep in *; lia. }
  split; cbn [mb_pending mb_pending_bytes set_mb_pending set_mb_leases].
  - by rewrite map_sum_nonempty, map_sum_fmap.
  - rewrite Hb. pose proof (po_budget m Hm). rewrite (po_bytes m Hm), Hsplit in *.
    rewrite He in H1. unfold compose, keep in *. lia.
  - intros k q [Hk Hq]%retain_lookup_Some. apply lookup_fmap_Some in Hk as (q0 & <- & Hk).
    destruct (po_queues m Hm k q0 Hk) as (_ & Hl & Hf). unfold nonempty in Hq. split_bools.
    split_and!; [done| |].
    + etrans; [|done]. unfold len. pose proof (List.filter_length_le (λ f, negb (frame_expired now ttl f)) q0).
      unfold keep. lia.
    + unfold keep. apply List.Forall_forall. intros f [Hin _]%List.filter_In.
      by eapply List.Forall_forall in Hf.
Qed.
End prune.

(** ** Delivery of a message *)

(** The queue a frame goes to. *)
Definition frame_key (rf : string * OutboundFrame.t) : PendingKey :=
  mkPendingKey
    match rf.2 with OutboundFrame.Message m => om_chat_id m | _ => EmptyString end rf.1.

(** The frame is the newest of its queue, after at most one was evicted. *)
Definition delivered (now : Z) (platform : ClientPlatform) (m m' : Mailbox)
    (rf : string * OutboundFrame.t) : Prop :=
  ∃ i ev q, makes_room (default [] (mb_pending m !! frame_key rf)) i ev q ∧
    mb_pending m' !! frame_key rf = Some (q ++ [mkPendingFrame rf.2 now platform]).

Lemma committed_keys now platform fs m ps m' :
  committed now platform fs m ps m' → pq_key <$> ps = frame_key <$> fs.
Proof. induction 1 as [|? msg]; [done|]. rewrite !fmap_cons. by f_equal. Qed.

Lemma committed_delivered now platform fs m ps m' :
  committed now platform fs m ps m' → NoDup (frame_key <$> fs) →
  ∀ rf, rf ∈ fs → delivered now platform m m' rf.
Proof.
  induction 1 as [|recipient msg fs m i ev q' ps m' Hr Hs Hc IH];
    intros Hnd rf Hin; [by apply elem_of_nil in Hin|].
  rewrite fmap_cons in Hnd. apply NoDup_cons in Hnd as [Hk Hnd].
  change (frame_key (recipient, OutboundFrame.Message msg))
    with (mkPendingKey (om_chat_id msg) recipient) in Hk.
  apply elem_of_cons in Hin as [->|Hin].
  - exists i, ev, q'. split; [done|]. change (frame_key _) with (mkPendingKey (om_chat_id msg) recipient).
    rewrite (committed_other _ _ _ _ _ _ _ Hc); [apply lookup_insert_eq|].
    by rewrite (committed_keys _ _ _ _ _ _ Hc).
  - destruct (IH Hnd rf Hin) as (j & ev' & q & Hr' & Hq). exists j, ev', q. split; [|done].
    cbn [mb_pending set_mb_pending] in Hr'. rewrite lookup_insert_ne in Hr'; [done|].
    intros E. apply Hk. rewrite E. by apply list_elem_of_fmap_2.
Qed.

Lemma transient_bound total fs t :
  transient_fanout_bytes total fs = Ok t → total ≤ MAX_TRANSIENT_FANOUT_BYTES →
  total + sumZ (outbound_frame_bytes ∘ snd <$> fs) ≤ MAX_TRANSIENT_FANOUT_BYTES.
Proof.
  revert total. induction fs as [|[recipient frame] fs IH]; intros total H Ht; [simpl; lia|].
  cbn [transient_fanout_bytes] in H. apply bind_Ok in H as (n & Hn%ok_or_Ok & H).
  apply validated_sized in Hn as [_ ->]. apply bind_Ok in H as (sum & Hsum%ok_or_Ok & H).
  apply bind_Ok in H as (total' & Ht'%ok_or_Ok & H). apply bind_Ok in H as ([] & Hle%reject_if_Ok & H).
  checked. split_bools. apply IH in H; [|lia]. pose proof (slen_nonneg recipient).
  rewrite fmap_cons, sumZ_cons.
  change ((outbound_frame_bytes ∘ snd) (recipient, frame)) with (outbound_frame_bytes frame). lia.
Qed.

Lemma committed_rest now platform fs m ps m' :
  committed now platform fs m ps m' →
  mb_prekey_leases m' = mb_prekey_leases m ∧ mb_replay_ids m' = mb_replay_ids m.
Proof. by induction 1. Qed.

Lemma rollback_ids fs ps ids m :
  rollback_pending_frames fs ps (set_mb_replay_ids ids m) =
  set_mb_replay_ids ids (rollback_pending_frames fs ps m).
Proof.
  assert (rollback_frames fs ps (set_mb_replay_ids ids m) =
          set_mb_replay_ids ids (rollback_frames fs ps m)) as H.
  { revert ps m. induction fs as [|[r frame] fs IH]; intros [|q ps] m; try done.
    cbn [rollback_frames]. rewrite <- IH. f_equal. unfold rollback_frame. simpl.
    destruct (mb_pending m !! pq_key q) as [queue|]; [|done]. destruct frame; try done.
    destruct (rposition _ _), (pq_evicted q); done. }
  unfold rollback_pending_frames. by rewrite H.
Qed.

Section delivery.
Context {HO : HashOrder}.

(** A preflight prunes and answers; the queues it saw are those it leaves. *)
Lemma preflight_inv now ttl fs m x m1 :
  preflight_pending_frames now ttl fs m = (x, m1) →
  (m1 = m ∧ ∃ e, x = Err e) ∨
  (m1 = prune_pending_queues now ttl m ∧ (∃ t, transient_fanout_bytes 0 fs = Ok t) ∧
   x = (sim ← ok_or (simulate (mb_pending m1)) "pending frame rejected"%string;
        plan_frames fs sim (mb_pending_bytes m1))).
Proof.
  unfold preflight_pending_frames, mbind at 1 2, ST_bind, lift, modify.
  destruct (transient_fanout_bytes 0 fs) as [t|e]; intros H; injection H as <- <-; eauto 10.
Qed.

Lemma rollback_restores now platform fs m ps m' :
  pending_ok m → committed now platform fs m ps m' → NoDup (frame_key <$> fs) →
  (∃ t, transient_fanout_bytes 0 fs = Ok t) →
  rollback_pending_frames fs ps m' = set_mb_pending (mb_pending m) (mb_pending_bytes m) m'.
Proof.
  intros Hm Hc Hnd [t Ht]. pose proof (transient_bound 0 fs t Ht ltac:(done)) as Hb.
  pose proof (committed_balance _ _ _ _ _ _ Hc) as Hbal.
  rewrite <- (committed_keys _ _ _ _ _ _ Hc) in Hnd.
  destruct (rollback_committed _ _ _ _ _ _ Hc (po_bytes m Hm) Hnd) as (p & Hp & Hsame).
  { rewrite Hbal. pose proof (po_budget m Hm). unfold MAX_PENDING_BYTES, MAX_TRANSIENT_FANOUT_BYTES, usize_MAX in *. lia. }
  unfold rollback_pending_frames. rewrite Hp. cbn [mb_pending mb_pending_bytes set_mb_pending].
  by rewrite (same_queues_retain p m Hm Hsame).
Qed.
End delivery.

(** C12: the queues of a message are planned exactly.  From a mailbox whose
    accounting is right, when the preflight accepts frames for distinct queues:
    the commit that follows cannot fail; each frame is the newest of its queue,
    which loses its first frame without a prekey if and only if it held 500;
    no other queue changes; the accounting is right again; and a rollback
    restores the mailbox the preflight left, whatever happened to the message
    identifiers in between. *)
Theorem planned_delivery {HO : HashOrder} (now ttl now' : Z) (platform : ClientPlatform)
    (frames : list (string * OutboundFrame.t)) (m : Mailbox) (plan : list PendingQueuePlan)
    (m1 : Mailbox) :
  pending_ok m → NoDup (frame_key <$> frames) →
  preflight_pending_frames now ttl frames m = (Ok plan, m1) →
  ∃ plan' m2, commit_pending_frames now' frames plan platform m1 = (Ok plan', m2) ∧
    pending_ok m2 ∧ (∀ rf, rf ∈ frames → delivered now' platform m1 m2 rf) ∧
    (∀ k, k ∉ frame_key <$> frames → mb_pending m2 !! k = mb_pending m1 !! k) ∧
    ∀ ids, rollback_pending_frames frames plan' (set_mb_replay_ids ids m2) =
           set_mb_replay_ids ids m1.
Proof.
  intros Hm Hnd [[_ [e E]]|(-> & Ht & H)]%preflight_inv; [done|].
  apply (prune_pending_ok now ttl) in Hm. rewrite simulate_ok in H by done.
  set (m1 := prune_pending_queues now ttl m) in *.
  destruct (commit_preflighted now' platform frames m1 plan Hm (eq_sym H))
    as (plan' & m2 & Hcommit & Hc & Hm2).
  exists plan', m2. split_and!; [done|done| | |].
  - by eapply committed_delivered.
  - intros k Hk. eapply committed_other; [done|]. by erewrite committed_keys.
  - intros ids. rewrite rollback_ids, (rollback_restores now' platform frames m1 plan' m2) by done.
    destruct (committed_rest _ _ _ _ _ _ Hc) as [E1 _]. unfold set_mb_replay_ids. simpl. by rewrite E1.
Qed.
