(* ===== verification/DirectFacts.v ===== *)
(** * What every frame preserves

    [moves R t]: whatever [t] does to the messenger is within the preorder [R].
    The invariant of the whole relay follows handler by handler: its stores are
    well formed, the mailbox accounts for its frames, and leases, identifiers
    and conversations stay within their limits.  [tidied T] says what the
    readings [T] of the clock may take out of the mailbox. *)

From S2P Require Import Prelude MlsWire TransactionReceipts RoomModel RoomValidation RoomAuthority.
From S2P Require Import RoomLifecycle RoomReachable TransportWire TransportPadding AttachmentAccess.
From S2P Require Import AttachmentStore AttachmentStoreFacts AttachmentTheorems RelayFrame.
From S2P Require Import OutboundQueue OutboundTheorems RateLimit Relay MlsRelay MlsDispatch.
From S2P Require Import RelayFacts IdentityBundle Mailbox IdentityState MailboxFacts DirectMessages.
From S2P Require Import RelayDispatch.

(** ** Tasks within a preorder *)

Definition moves {A} (R : relation Messenger) (t : Task A) : Prop := ∀ s, R s (t s).2.

Section moves.
Context (R : relation Messenger) `{!PreOrder R}.

Lemma moves_ret {A} (a : A) : moves R (mret a).
Proof. by intros s. Qed.
Lemma moves_lift {A} (x : result string A) : moves R (lift x).
Proof. by intros s. Qed.
Lemma moves_get : moves R get.
Proof. by intros s. Qed.
Lemma moves_bind {A B} (t : Task A) (k : A → Task B) :
  moves R t → (∀ a, moves R (k a)) → moves R (t ≫= k).
Proof.
  intros Ht Hk s. specialize (Ht s). unfold mbind, ST_bind.
  destruct (t s) as [[a|e] s']; simpl in *; [by etrans; [|apply Hk]|done].
Qed.
(** The value read is that of the state. *)
Lemma moves_read {A} (k : Messenger → Task A) :
  (∀ s, moves R (k s)) → moves R (s ← get; k s).
Proof. intros Hk s. apply Hk. Qed.
End moves.

(** One step of a proof that a task stays within a preorder. *)
Create HintDb moves.
#[export] Hint Resolve moves_ret moves_lift moves_get : moves.
Ltac move_step :=
  match goal with
  | |- moves _ (mbind _ _) => apply moves_bind; [apply _| |intros ?]
  | |- moves _ (let '(_, _) := ?x in _) => destruct x
  | |- moves _ (if ?b then _ else _) => destruct b
  | |- moves _ (match ?x with _ => _ end) => destruct x
  | |- moves _ _ => solve [auto with moves typeclass_instances]
  end.
Ltac stay := repeat move_step.

(** ** Housekeeping *)

Definition drop_old_ids (now : Z) (m : Mailbox) : Mailbox :=
  set_mb_replay_ids
    (retain (λ _ seen_at, bool_decide (saturating_sub now seen_at < REPLAY_WINDOW_MS))
       (mb_replay_ids m)) m.
Definition drop_old_leases `{HashOrder} (now : Z) (m : Mailbox) : Mailbox :=
  set_mb_leases (prune_prekey_leases (mb_pending m) now (mb_prekey_leases m)) m.

Lemma retain_sub {K V} `{Countable K} keep (m : gmap K V) : retain keep m ⊆ m.
Proof. apply map_filter_subseteq. Qed.
Lemma release_details_sub l claims :
  foldl release_prekey_lease_details_locked claims l ⊆ claims.
Proof.
  revert claims. induction l as [|[[[c m] u] p] l IH]; intros claims; [done|]. simpl.
  etrans; [apply IH|apply retain_sub].
Qed.

(** The frame waits in the queue. *)
Definition waits (m : Mailbox) (k : PendingKey) (f : PendingFrame) : Prop :=
  f ∈ default [] (mb_pending m !! k).

(** The frame starts a session with the key and for the message of the lease. *)
Definition names_lease (key : PrekeyLeaseKey) (lease : PrekeyLease) (f : PendingFrame) : Prop :=
  ∃ msg, pf_frame f = OutboundFrame.Message msg ∧ om_is_prekey msg = true ∧
    om_chat_id msg = ls_chat_id lease ∧ om_message_id msg = ls_message_id lease ∧
    om_sender_username msg = ls_sender_username lease ∧ om_prekey_id msg = lk_prekey_id key.

(** Its recipient still has such a frame to read. *)
Definition lease_in_use (m : Mailbox) (key : PrekeyLeaseKey) (lease : PrekeyLease) : Prop :=
  ∃ k f, waits m k f ∧ pk_recipient_username k = ls_recipient_username lease ∧
    names_lease key lease f.

(** What the clock alone may do to the mailbox when it shows the readings [T].
    A queue keeps its order and loses only frames whose time is over; a lease
    goes when it is thirty seconds old and no frame that waits uses it, or
    with the frame that did; an identifier goes after a day; nothing is added
    and the bytes are still accounted for. *)
Record tidied (T : Z → Prop) (ttl : Z) (m m' : Mailbox) : Prop := mkTidied {
  td_queue k : ∃ keep : PendingFrame → bool,
    default [] (mb_pending m' !! k) = List.filter keep (default [] (mb_pending m !! k)) ∧
    ∀ f, waits m k f → keep f = false → aged T ttl (pf_enqueued_at_ms f);
  td_leases : mb_prekey_leases m' ⊆ mb_prekey_leases m;
  td_lease key lease :
    mb_prekey_leases m !! key = Some lease → mb_prekey_leases m' !! key = None →
    (aged T PREKEY_LEASE_TTL_MS (ls_created_at_ms lease) ∧ ¬ lease_in_use m' key lease) ∨
    ∃ k f, waits m k f ∧ names_lease key lease f ∧ aged T ttl (pf_enqueued_at_ms f);
  td_ids : mb_replay_ids m' ⊆ mb_replay_ids m;
  td_id key seen :
    mb_replay_ids m !! key = Some seen → mb_replay_ids m' !! key = None →
    aged T REPLAY_WINDOW_MS seen;
  td_counted : pending_ok m → pending_ok m'
}.

Section tidied.
Context {HO : HashOrder} (T : Z → Prop) (ttl : Z).

Lemma tidied_waits m m' k f : tidied T ttl m m' → waits m' k f → waits m k f.
Proof.
  intros Hm. destruct (td_queue _ _ _ _ Hm k) as (keep & E & _). unfold waits. rewrite E.
  rewrite !list_elem_of_In. by intros [? _]%List.filter_In.
Qed.
Lemma tidied_in_use m m' key lease :
  tidied T ttl m m' → lease_in_use m' key lease → lease_in_use m key lease.
Proof. intros Hm (k & f & Hf & ? & ?). exists k, f. eauto using tidied_waits. Qed.

Lemma same_tidied m m' :
  mb_pending m' = mb_pending m → mb_pending_bytes m' = mb_pending_bytes m →
  mb_prekey_leases m' = mb_prekey_leases m → mb_replay_ids m' = mb_replay_ids m →
  tidied T ttl m m'.
Proof.
  intros E1 E2 E3 E4. split; rewrite ?E3, ?E4; try done; try congruence.
  - intros k. exists (λ _, true). split; [|done]. rewrite E1. by rewrite List.filter_true.
  - by apply pending_ok_same.
Qed.

Lemma filter_compose {A} (f g : A → bool) l :
  List.filter g (List.filter f l) = List.filter (λ x, f x && g x) l.
Proof.
  induction l as [|x l IH]; [done|]. simpl. destruct (f x); simpl; [|done].
  destruct (g x); by rewrite IH.
Qed.

#[export] Instance tidied_preorder : PreOrder (tidied T ttl).
Proof.
  split; [by intros m; apply same_tidied|]. intros m1 m2 m3 H12 H23.
  destruct (H12) as [Q1 L1 D1 I1 J1 P1], (H23) as [Q2 L2 D2 I2 J2 P2]. split.
  - intros k. destruct (Q1 k) as (k1 & E1 & F1), (Q2 k) as (k2 & E2 & F2).
    exists (λ f, k1 f && k2 f). rewrite E2, E1. split; [apply filter_compose|].
    intros f Hf Hk. destruct (k1 f) eqn:Ek; [|by apply F1]. apply F2; [|done].
    unfold waits in *. rewrite E1. rewrite list_elem_of_In in *. by apply List.filter_In.
  - by etrans.
  - intros key lease H1 H3. destruct (mb_prekey_leases m2 !! key) as [lease'|] eqn:H2.
    + assert (lease' = lease) as -> by (pose proof (lookup_weaken _ _ _ _ H2 L1); congruence).
      destruct (D2 _ _ H2 H3) as [|(k & f & Hf & ? & ?)]; [by left|right].
      exists k, f. eauto using tidied_waits.
    + destruct (D1 _ _ H1 H2) as [[? Hu]|]; [left|by right].
      split; [done|]. intros Hu'. by eapply Hu, tidied_in_use.
  - by etrans.
  - intros key seen H1 H3. destruct (mb_replay_ids m2 !! key) as [seen'|] eqn:H2; [|by eapply J1].
    assert (seen' = seen) as -> by (pose proof (lookup_weaken _ _ _ _ H2 I1); congruence).
    by eapply J2.
  - auto.
Qed.

Lemma uses_lease_names key lease f : uses_lease key lease f = true ↔ names_lease key lease f.
Proof.
  unfold uses_lease, names_lease. split.
  - destruct (pf_frame f) as [] eqn:E; try done. intros H. split_bools. eauto 10.
  - intros (msg & -> & -> & -> & -> & -> & ->). by rewrite !bool_decide_true.
Qed.
Lemma contains_leased m key lease :
  lease_in_use m key lease → pending_contains_leased_frame (mb_pending m) key lease = true.
Proof.
  intros (k & f & Hf & Hk & Hn). unfold waits in Hf.
  destruct (mb_pending m !! k) as [q|] eqn:Hq; [|by apply elem_of_nil in Hf].
  apply existsb_exists. exists (k, q). simpl. split.
  - apply list_elem_of_In. rewrite hash_iter_perm. by apply elem_of_map_to_list.
  - rewrite bool_decide_true by done. apply existsb_exists. exists f.
    split; [by apply list_elem_of_In|by apply uses_lease_names].
Qed.

(** A pruned lease is old and unused. *)
Lemma prune_leases_lost now m claims key lease :
  T now → claims !! key = Some lease → prune_prekey_leases (mb_pending m) now claims !! key = None →
  aged T PREKEY_LEASE_TTL_MS (ls_created_at_ms lease) ∧ ¬ lease_in_use m key lease.
Proof.
  intros HT Hc Hn. unfold prune_prekey_leases, retain in Hn.
  apply map_lookup_filter_None in Hn as [Hn|Hn]; [congruence|]. specialize (Hn _ Hc). simpl in Hn.
  split.
  - exists now. split; [done|]. apply Z.nlt_ge. intros Hlt. apply Hn. by rewrite bool_decide_true.
  - intros Hu. apply Hn. rewrite (contains_leased _ _ _ Hu). by rewrite orb_true_r.
Qed.
(** A released one was named by a frame. *)
Lemma release_details_lost l claims key lease :
  claims !! key = Some lease → foldl release_prekey_lease_details_locked claims l !! key = None →
  (ls_chat_id lease, ls_message_id lease, ls_sender_username lease, lk_prekey_id key) ∈ l.
Proof.
  revert claims. induction l as [|[[[c m] u] p] l IH]; intros claims Hc Hn; simpl in Hn; [congruence|].
  destruct (release_prekey_lease_details_locked claims (c, m, u, p) !! key) as [lease'|] eqn:E.
  - right. assert (lease' = lease) as -> by (apply retain_lookup_Some in E as [E _]; congruence).
    exact (IH _ E Hn).
  - apply elem_of_cons. left. simpl in E. unfold retain in E. apply map_lookup_filter_None in E as [E|E]; [congruence|].
    specialize (E _ Hc). simpl in E. destruct (_ && _) eqn:Hb in E; [|done].
    split_bools. by simplify_eq.
Qed.
Lemma expired_frames_spec now pending f :
  f ∈ expired_frames now ttl pending →
  ∃ k, f ∈ default [] (pending !! k) ∧ ttl ≤ saturating_sub now (pf_enqueued_at_ms f).
Proof.
  unfold expired_frames. rewrite list_elem_of_In, in_concat. intros (q & Hq & Hf).
  apply list_elem_of_In, list_elem_of_fmap in Hq as ([k q0] & -> & Hk).
  rewrite hash_iter_perm in Hk. apply elem_of_map_to_list in Hk. apply List.filter_In in Hf as [Hf He].
  exists k. rewrite Hk. split; [by apply list_elem_of_In|]. unfold frame_expired in He. by split_bools.
Qed.
Lemma details_name_lease f key lease :
  prekey_lease_details (pf_frame f) =
    Some (ls_chat_id lease, ls_message_id lease, ls_sender_username lease, lk_prekey_id key) →
  names_lease key lease f.
Proof.
  unfold prekey_lease_details, names_lease. destruct (pf_frame f) as [] eqn:E; try done.
  destruct (_ && _) eqn:Hp; [|done]. split_bools. intros [= ? ? ? ?]. eauto 10.
Qed.

(** Sweeping the queues, the leases and the identifiers. *)
Lemma expire_frames now m : T now → tidied T ttl m (prune_pending_queues now ttl m).
Proof.
  intros HT. unfold prune_pending_queues, prune_pending_queues_locked. simpl.
  set (keep := λ f, negb (frame_expired now ttl f)).
  set (pending := retain _ _). set (claims := foldl _ _ _).
  set (m' := set_mb_leases _ _).
  assert (∀ k, default [] (pending !! k) = List.filter keep (default [] (mb_pending m !! k))) as Hq.
  { intros k. unfold pending, retain. rewrite map_lookup_filter, lookup_fmap.
    destruct (mb_pending m !! k) as [q|]; [|done]. simpl. unfold nonempty. fold keep.
    case_guard as Hg; simpl; [done|]. simpl in Hg. case_bool_decide as He; [done|]. by destruct Hg. }
  split; try done.
  - intros k. exists keep. split; [apply Hq|]. intros f _ Hk. exists now. split; [done|].
    unfold keep, frame_expired in Hk. by split_bools.
  - etrans; [apply retain_sub|]. apply release_details_sub.
  - intros key lease Hl Hn. simpl in Hn. destruct (claims !! key) as [lease'|] eqn:Hc.
    + left. assert (lease' = lease) as ->.
      { pose proof (lookup_weaken _ _ _ _ Hc (release_details_sub _ _)). congruence. }
      exact (prune_leases_lost now m' claims key lease HT Hc Hn).
    + right. apply (release_details_lost _ _ _ _ Hl) in Hc. apply list_elem_of_omap in Hc as (f & Hf & Hd).
      apply expired_frames_spec in Hf as (k & Hw & Ha). exists k, f.
      split_and!; [done|by apply details_name_lease|by exists now].
  - intros key seen Hs Hn. simpl in Hn. congruence.
  - by apply prune_pending_ok.
Qed.
Lemma expire_leases now m : T now → tidied T ttl m (drop_old_leases now m).
Proof.
  intros HT. split; simpl; try done; try congruence.
  - intros k. exists (λ _, true). split; [|done]. by rewrite List.filter_true.
  - apply retain_sub.
  - intros key lease Hl Hn. left. exact (prune_leases_lost now m _ _ _ HT Hl Hn).
  - by apply pending_ok_same.
Qed.
Lemma expire_ids now m : T now → tidied T ttl m (drop_old_ids now m).
Proof.
  intros HT. split; simpl; try done; try congruence.
  - intros k. exists (λ _, true). split; [|done]. by rewrite List.filter_true.
  - apply retain_sub.
  - intros key seen Hs Hn. unfold retain in Hn. apply map_lookup_filter_None in Hn as [Hn|Hn]; [congruence|].
    specialize (Hn _ Hs). simpl in Hn. exists now. split; [done|]. apply Z.nlt_ge. intros Hlt.
    apply Hn. by rewrite bool_decide_true.
  - by apply pending_ok_same.
Qed.
End tidied.

Lemma tidied_mono T T' ttl m m' :
  (∀ now, T now → T' now) → tidied T ttl m m' → tidied T' ttl m m'.
Proof.
  intros HT [Q L D I J P]. split; try done.
  - intros k. destruct (Q k) as (keep & E & F). exists keep. eauto using aged_mono.
  - intros key lease H1 H2. destruct (D _ _ H1 H2) as [[? ?]|(k & f & ? & ? & ?)];
      [left|right]; [|exists k, f]; eauto using aged_mono.
  - eauto using aged_mono.
Qed.

(** ** The limits of leases and identifiers *)

Section limits.
Context {HO : HashOrder}.

Definition of_sender (sender : string) (k : MessageKey) : bool :=
  bool_decide (rk_sender_username k = sender).
Definition of_recipient (code_id : CodeId) (k : PrekeyLeaseKey) : bool :=
  bool_decide (lk_code_id k = code_id).

(** The entries of a map whose key satisfies [p]. *)
Definition count_keys {K V} `{Countable K} (p : K → bool) (m : gmap K V) : Z :=
  map_len (retain (λ k _, p k) m).

Lemma count_keys_insert {K V} `{Countable K} (p : K → bool) (m : gmap K V) k v :
  count_keys p (<[k := v]> m) ≤ count_keys p m + (if p k then 1 else 0).
Proof.
  unfold count_keys, retain. rewrite map_filter_insert. simpl.
  destruct (p k) eqn:Hp; simpl.
  - rewrite map_len_insert. destruct (contains_key _ _); lia.
  - rewrite map_filter_delete, map_len_delete. destruct (contains_key _ _); lia.
Qed.
Lemma count_keys_sub {K V} `{Countable K} (p : K → bool) (m m' : gmap K V) :
  m ⊆ m' → count_keys p m ≤ count_keys p m'.
Proof.
  intros Hsub. unfold count_keys, map_len, retain. apply inj_le, map_subseteq_size.
  apply map_subseteq_spec. intros k v [Hk ?]%map_lookup_filter_Some.
  apply map_lookup_filter_Some. split; [by eapply lookup_weaken|done].
Qed.
Lemma map_len_sub {K V} `{Countable K} (m m' : gmap K V) : m ⊆ m' → map_len m ≤ map_len m'.
Proof. intros Hsub. unfold map_len. by apply inj_le, map_subseteq_size. Qed.

(** Counting over the iteration order. *)
Lemma count_keys_hash {K V} `{Countable K} (P : K → Prop) `{!∀ k, Decision (P k)} (m : gmap K V) :
  len (filter P (hash_keys m)) = count_keys (λ k, bool_decide (P k)) m.
Proof.
  unfold hash_keys, count_keys, map_len, len, retain. f_equal.
  rewrite hash_iter_perm. induction m as [|k v m Hk IH] using map_ind.
  { rewrite map_to_list_empty. by rewrite map_filter_empty. }
  rewrite map_to_list_insert by done. rewrite fmap_cons. simpl. rewrite filter_cons, map_filter_insert.
  simpl. destruct (decide (P k)) as [HP|HP].
  - rewrite bool_decide_true by done. simpl.
    rewrite IH, map_size_insert_None; [done|]. apply map_lookup_filter_None. by left.
  - rewrite bool_decide_false by done. simpl. by rewrite IH, delete_id.
Qed.

Record mailbox_ok (m : Mailbox) : Prop := mkMailboxOk {
  mo_pending : pending_ok m;
  mo_leases : map_len (mb_prekey_leases m) ≤ MAX_PREKEY_LEASES;
  mo_recipient code_id :
    count_keys (of_recipient code_id) (mb_prekey_leases m) ≤ MAX_PREKEY_LEASES_PER_RECIPIENT;
  mo_ids : map_len (mb_replay_ids m) ≤ MAX_REPLAY_IDS;
  mo_sender sender :
    count_keys (of_sender sender) (mb_replay_ids m) ≤ MAX_REPLAY_IDS_PER_SENDER
}.

Lemma mailbox_ok_new : mailbox_ok mailbox_new.
Proof. split; [apply pending_ok_new|done..]. Qed.

(** Fewer leases and identifiers, and other queues. *)
Lemma mailbox_ok_sub m m' :
  mailbox_ok m → pending_ok m' → mb_prekey_leases m' ⊆ mb_prekey_leases m →
  mb_replay_ids m' ⊆ mb_replay_ids m → mailbox_ok m'.
Proof.
  intros [_ H1 H2 H3 H4] Hp Hl Hi.
  split; [done|etrans; [by apply map_len_sub|done]|intros code; etrans; [by apply count_keys_sub|done]
         |etrans; [by apply map_len_sub|done]|intros u; etrans; [by apply count_keys_sub|done]].
Qed.

Lemma tidied_mailbox_ok T ttl m m' : tidied T ttl m m' → mailbox_ok m → mailbox_ok m'.
Proof.
  intros Ht Hm. apply (mailbox_ok_sub m); [done|by eapply td_counted, mo_pending|apply Ht|apply Ht].
Qed.
End limits.

(** ** Operations of the mailbox *)

Section mailbox.
Context {HO : HashOrder}.

Lemma take_lease_ok now code pool chat msg sender recipient m :
  mailbox_ok m → mailbox_ok (take_lease now code pool chat msg sender recipient m).2.
Proof.
  intros Hm. unfold take_lease. fold (drop_old_leases now m).
  set (m1 := drop_old_leases now m).
  assert (mailbox_ok m1) as H1 by (eapply tidied_mailbox_ok; [by apply (expire_leases (λ _, True) 0)|done]).
  destruct (List.filter _ _) as [|[key lease] [|? ?]]; [|done|done].
  clearbody m1. destruct (_ || _) eqn:Hfull; [done|]. split_bools. rewrite count_keys_hash in *.
  destruct (List.find _ pool) as [id|]; [|done].
  destruct H1 as [? ? Hr ? ?]. split; simpl; [by apply (pending_ok_same m1)| | |done|done].
  - rewrite map_len_insert. unfold MAX_PREKEY_LEASES in *. destruct (contains_key _ _); lia.
  - intros c. etrans; [apply count_keys_insert|]. specialize (Hr c). unfold of_recipient in *. simpl.
    destruct (decide (code = c)) as [->|]; [rewrite bool_decide_true by done; lia|].
    rewrite bool_decide_false by done. lia.
Qed.

Lemma give_back_lease_ok key chat msg sender recipient m :
  mailbox_ok m → mailbox_ok (give_back_lease key chat msg sender recipient m).2.
Proof.
  intros Hm. unfold give_back_lease. destruct (mb_prekey_leases m !! key); [|done].
  destruct (_ || _); [done|].
  apply (mailbox_ok_sub m); simpl; [done|by apply (pending_ok_same m), Hm|apply delete_subseteq|done].
Qed.

(** A registered identifier is new in its window. *)
Lemma register_cases now chat sender msg m x m' :
  register_message_id now chat sender msg m = (x, m') →
  ((∃ e, x = Err e) ∧ m' = drop_old_ids now m) ∨
  (x = Ok tt ∧ mb_replay_ids (drop_old_ids now m) !! mkMessageKey chat sender msg = None ∧
   m' = set_mb_replay_ids
          (<[mkMessageKey chat sender msg := now]> (mb_replay_ids (drop_old_ids now m))) m ∧
   (mailbox_ok m → mailbox_ok m')).
Proof.
  unfold register_message_id. fold (drop_old_ids now m).
  change (retain _ (mb_replay_ids m)) with (mb_replay_ids (drop_old_ids now m)).
  set (m1 := drop_old_ids now m). destruct (contains_key _ _) eqn:Hin; [intros [= <- <-]; eauto|].
  case_bool_decide as Hs; [intros [= <- <-]; eauto|].
  case_bool_decide as Hall; [intros [= <- <-]; eauto|]. intros [= <- <-]. right.
  split_bools. rewrite count_keys_hash in Hs. split_and!; try done. intros Hm.
  assert (mailbox_ok m1) as [? ? ? ? Hu] by (eapply tidied_mailbox_ok; [by apply (expire_ids (λ _, True) 0)|done]).
  change (mailbox_ok (set_mb_replay_ids
            (<[mkMessageKey chat sender msg := now]> (mb_replay_ids m1)) m)).
  clearbody m1. split; simpl; [by apply (pending_ok_same m), Hm|apply Hm|intros c; apply Hm| |].
  - rewrite map_len_insert. destruct (contains_key _ _); unfold MAX_REPLAY_IDS in *; lia.
  - intros u. etrans; [apply count_keys_insert|]. specialize (Hu u). unfold of_sender in *. simpl.
    destruct (decide (sender = u)) as [->|]; [rewrite bool_decide_true by done; lia|].
    rewrite bool_decide_false by done. lia.
Qed.

Lemma only_match_lookup {A} (p : A → bool) l i :
  only_match p l = Some i →
  ∃ x, l !! i = Some x ∧ p x = true ∧ Forall (λ y, p y = false) (remove_at i l).
Proof.
  revert i. induction l as [|y l IH]; intros i; simpl; [done|]. destruct (p y) eqn:Hy.
  - destruct (existsb p l) eqn:He; [done|]. intros [= <-]. exists y. split_and!; [done|done|].
    unfold remove_at. simpl. apply Forall_forall. intros z Hz.
    destruct (p z) eqn:Ez; [|done]. rewrite <- He. symmetry. apply existsb_exists.
    exists z. split; [by apply list_elem_of_In|done].
  - destruct (only_match p l) as [j|]; [|done]. intros [= <-].
    destruct (IH j eq_refl) as (x & Hx & Hp & Hf). exists x. split_and!; [done|done|].
    unfold remove_at in *. simpl. by constructor.
Qed.

Lemma find_acknowledged_inv a code username m index bytes :
  find_acknowledged a code username m = Ok (index, bytes) →
  ∃ q f, mb_pending m !! mkPendingKey (ia_chat_id a) username = Some q ∧ q !! index = Some f ∧
    bytes = frame_size f ∧ bytes ≤ mb_pending_bytes m ∧
    pending_frame_matches_ack (ia_chat_id a) (ia_message_id a) (ia_sender_username a)
      (ia_used_prekey_id a) f = true ∧
    Forall (λ g, pending_frame_matches_ack (ia_chat_id a) (ia_message_id a)
                   (ia_sender_username a) (ia_used_prekey_id a) g = false) (remove_at index q) ∧
    match consumed_prekey a with
    | None => True
    | Some used =>
        ∃ lease, mb_prekey_leases m !! mkLeaseKey code used = Some lease ∧
          ls_chat_id lease = ia_chat_id a ∧ ls_message_id lease = ia_message_id a ∧
          ls_sender_username lease = ia_sender_username a ∧ ls_recipient_username lease = username
    end.
Proof.
  unfold find_acknowledged. intros (q & Hq%ok_or_Ok & H)%bind_Ok.
  apply bind_Ok in H as (i & Hi%ok_or_Ok & H). apply bind_Ok in H as (f & Hf%ok_or_Ok & H).
  apply bind_Ok in H as ([] & Hb%reject_if_Ok & H). apply bind_Ok in H as ([] & Hl & H).
  injection H as <- <-. apply only_match_lookup in Hi as (f' & Hf' & Hm & Hrest).
  assert (f' = f) as -> by congruence. split_bools. exists q, f. split_and!; try done; [unfold frame_size; lia|].
  unfold consumed_prekey. destruct (bool_decide _); [done|].
  apply bind_Ok in Hl as (lease & Hlease%ok_or_Ok & Hl%reject_if_Ok). split_bools.
  exists lease. split_and!; [done|by apply dec_stable..].
Qed.

Lemma consume_frame_ok a code username index q f m :
  mailbox_ok m → mb_pending m !! mkPendingKey (ia_chat_id a) username = Some q →
  q !! index = Some f → mailbox_ok (consume_frame a code username index (frame_size f) m).
Proof.
  intros Hm Hq Hf. pose proof (mo_pending m Hm) as Hp. apply (mailbox_ok_sub m); [done| | |done].
  - unfold consume_frame. rewrite Hq. cbn [default from_option]. unfold id.
    pose proof (waiting_bytes_remove_at index q f Hf) as Hb. pose proof (frame_size_nonneg f).
    pose proof (po_budget m Hp). pose proof (po_bytes m Hp).
    destruct (po_queues m Hp _ q Hq) as (_ & Hlen & Hall).
    case_bool_decide as He; split; cbn [mb_pending mb_pending_bytes set_mb_leases set_mb_pending]; try lia.
    + rewrite (map_sum_delete _ _ _ _ Hq). rewrite He in Hb. change (waiting_bytes []) with 0 in Hb. lia.
    + intros k q' [_ Hk]%lookup_delete_Some. by apply (po_queues m Hp).
    + rewrite map_sum_insert. unfold at_key. rewrite Hq. lia.
    + intros k q' [[<- <-]|[_ Hk]]%lookup_insert_Some; [|by apply (po_queues m Hp)].
      split_and!; [done| |by apply Forall_remove_at].
      unfold len in *. rewrite (length_remove_at _ _ _ Hf). lia.
  - unfold consume_frame. simpl. destruct (consumed_prekey a); [apply delete_subseteq|done].
Qed.
End mailbox.
