(* ===== verification/DirectTheorems.v ===== *)
(** * What posting and acknowledging a message do

    A refused post, acknowledgement or lease leaves the relay as the clock alone
    would have left it, at the readings it showed on the way ([quiet]); an
    accepted post puts one frame, the one its sender signed for that recipient,
    at the end of the queue of every party; an accepted acknowledgement takes
    exactly one frame out; an accepted lease adds one lease. *)

From S2P Require Import Prelude MlsWire RoomModel RoomValidation RoomAuthority RoomLifecycle.
From S2P Require Import TransportWire.
From S2P Require Import TransportPadding AttachmentAccess AttachmentStore AttachmentStoreFacts.
From S2P Require Import AttachmentUpload AttachmentEvolution.
From S2P Require Import RelayFrame OutboundQueue RateLimit Relay IdentityBundle Mailbox.
From S2P Require Import IdentityState MailboxFacts DirectMessages RelayDispatch DirectFacts.

(** ** Refusals *)

(** The clock showed [now] to the relay on its way from [s] to [s']. *)
Definition read `{RelayEnv} (s s' : Messenger) (now : Z) : Prop :=
  ∃ n, (rl_ticks (ms_relay s) ≤ n < rl_ticks (ms_relay s'))%nat ∧ now = now_ms n.

(** The room authority was swept at one of the readings. *)
Definition pruned `{HashOrder} (T : Z → Prop) (a a' : RoomAuthority) : Prop :=
  ∃ now, T now ∧ a' = prune_expired now a.

(** What the clock and a query may change, at the readings on the way and no
    others: expired frames, leases and identifiers go, the room authority and the
    attachments are swept.  Everything else is as it was. *)
Record quiet `{HashOrder, RelayEnv} (s s' : Messenger) : Prop := mkQuiet {
  qt_ticks : (rl_ticks (ms_relay s) ≤ rl_ticks (ms_relay s'))%nat;
  qt_mailbox : tidied (read s s') pending_message_ttl_ms (ms_mailbox s) (ms_mailbox s');
  qt_rooms :
    rtc (pruned (read s s')) (rl_mls_rooms (ms_relay s)) (rl_mls_rooms (ms_relay s'));
  qt_attachments :
    swept (read s s') (rl_attachments (ms_relay s)) (rl_attachments (ms_relay s'));
  qt_store limits :
    store_ok limits (rl_attachments (ms_relay s)) → store_ok limits (rl_attachments (ms_relay s'));
  qt_room_catalog : ms_room_catalog s' = ms_room_catalog s;
  qt_direct_catalog : ms_direct_catalog s' = ms_direct_catalog s;
  qt_relay :
    ms_relay s' =
      set_rl_ticks (rl_ticks (ms_relay s'))
        (set_rl_attachments (rl_attachments (ms_relay s'))
           (set_rl_mls_rooms (rl_mls_rooms (ms_relay s')) (ms_relay s)))
}.

Lemma conversation_access_rooms `{HashOrder} (T : Z → Prop) now1 now2 now3 username chat c access c' :
  T now1 → T now2 → T now3 →
  conversation_access now1 now2 now3 username chat c = (access, c') →
  rtc (pruned T) (ct_mls_rooms c) (ct_mls_rooms c').
Proof.
  intros H1 H2 H3. unfold conversation_access, is_member, is_active_member, member_info, query, prune_at.
  assert (∀ now a, T now → rtc (pruned T) a (prune_expired now a)) as Hp.
  { intros now a HT. apply rtc_once. by exists now. }
  destruct (negb _); [by intros [= _ <-]|].
  destruct (List.find _ _) as [[code a]|]; [|by intros [= _ <-]].
  destruct (negb _); [intros [= _ <-]; by apply Hp|].
  destruct (negb _); [intros [= _ <-]; by etrans; [apply (Hp now1)|apply (Hp now2)]|].
  assert (rtc (pruned T) (ct_mls_rooms c)
            (prune_expired now3 (prune_expired now2 (prune_expired now1 (ct_mls_rooms c))))) as H'.
  { by etrans; [apply (Hp now1)|etrans; [apply (Hp now2)|apply (Hp now3)]]. }
  match goal with |- context [match ?x with Ok _ => _ | Err _ => _ end] => destruct x end;
    by intros [= _ <-].
Qed.

Section quiet.
Context {HO : HashOrder} {B64 : Base64} {ENV : RelayEnv} {JSON : SerdeJson} {FJ : FrameJson}.
Context {KEYS : Keys} {DRAWS : Draws}.

Lemma relay_same r :
  r = set_rl_ticks (rl_ticks r) (set_rl_attachments (rl_attachments r)
        (set_rl_mls_rooms (rl_mls_rooms r) r)).
Proof. by destruct r. Qed.

Lemma read_within s1 s2 s3 s4 now :
  (rl_ticks (ms_relay s1) ≤ rl_ticks (ms_relay s2))%nat →
  (rl_ticks (ms_relay s3) ≤ rl_ticks (ms_relay s4))%nat → read s2 s3 now → read s1 s4 now.
Proof. intros H1 H2 (n & Hn & ->). exists n. split; [lia|done]. Qed.
Lemma pruned_mono (T T' : Z → Prop) a a' :
  (∀ now, T now → T' now) → rtc (pruned T) a a' → rtc (pruned T') a a'.
Proof.
  intros HT. apply rtc_subrel. intros x y (now & ? & ?). exists now. auto.
Qed.

#[export] Instance quiet_preorder : PreOrder quiet.
Proof.
  split.
  - intros s. split; try done. apply relay_same.
  - intros s1 s2 s3 [N1 M1 A1 S1 O1 R1 D1 E1] [N2 M2 A2 S2 O2 R2 D2 E2].
    assert (∀ now, read s1 s2 now → read s1 s3 now) as L1 by (intros now; by apply read_within).
    assert (∀ now, read s2 s3 now → read s1 s3 now) as L2 by (intros now; by apply read_within).
    split; [lia| | | |auto|congruence|congruence|].
    + etrans; [by eapply tidied_mono, M1|by eapply tidied_mono, M2].
    + etrans; [by eapply pruned_mono, A1|by eapply pruned_mono, A2].
    + etrans; [by eapply swept_mono, S1|by eapply swept_mono, S2].
    + rewrite E2 at 1. rewrite E1. done.
Qed.

Lemma quiet_accounts s s' : quiet s s' → ms_accounts s' = ms_accounts s.
Proof. intros Q. unfold ms_accounts. by rewrite (qt_relay _ _ Q). Qed.
Lemma quiet_clients s s' : quiet s s' → rl_clients (ms_relay s') = rl_clients (ms_relay s).
Proof. intros Q. by rewrite (qt_relay _ _ Q). Qed.

(** The readings the clock showed before its [n]th. *)
Definition shown (s : Messenger) (n : nat) (now : Z) : Prop :=
  ∃ k, (rl_ticks (ms_relay s) ≤ k < n)%nat ∧ now = now_ms k.

(** A change of the clock and of one part. *)
Lemma quiet_ticks s n m :
  (rl_ticks (ms_relay s) ≤ n)%nat → tidied (shown s n) pending_message_ttl_ms (ms_mailbox s) m →
  quiet s (mkMessenger (set_rl_ticks n (ms_relay s)) m (ms_room_catalog s) (ms_direct_catalog s)).
Proof. intros Hn Hm. by split. Qed.
Lemma quiet_authority s n rooms :
  (rl_ticks (ms_relay s) ≤ n)%nat →
  rtc (pruned (shown s n)) (rl_mls_rooms (ms_relay s)) rooms →
  quiet s (set_ms_relay (set_rl_mls_rooms rooms (set_rl_ticks n (ms_relay s))) s).
Proof. intros Hn Hr. by split. Qed.
Lemma quiet_registry s n store :
  (rl_ticks (ms_relay s) ≤ n)%nat → swept (shown s n) (rl_attachments (ms_relay s)) store →
  (∀ l, store_ok l (rl_attachments (ms_relay s)) → store_ok l store) →
  quiet s (set_ms_relay (set_rl_attachments store (set_rl_ticks n (ms_relay s))) s).
Proof. intros Hn Hs Ho. by split. Qed.

Lemma shown_next s : shown s (S (rl_ticks (ms_relay s))) (now_ms (rl_ticks (ms_relay s))).
Proof. eexists. split; [|done]. lia. Qed.

(** A step that uses the reading of the clock before it. *)
Lemma moves_clocked {A B} (f : Z → Task A) (g : Z → A → Task B) :
  (∀ s, quiet s (f (now_ms (rl_ticks (ms_relay s))) (clock s).2).2) →
  (∀ now a, moves quiet (g now a)) → moves quiet (now ← clock; a ← f now; g now a).
Proof.
  intros Hf Hg s. specialize (Hf s). unfold clock, on_relay, tick, mbind, ST_bind in *.
  cbn beta iota zeta in *. cbn [snd] in Hf. destruct (f _ _) as [[a|e] s1]; [|done].
  etrans; [exact Hf|apply Hg].
Qed.

Lemma quiet_clock : moves quiet clock.
Proof.
  intros s. unfold clock, on_relay, tick. simpl.
  apply (quiet_ticks s (S (rl_ticks (ms_relay s)))); [lia|reflexivity].
Qed.
Lemma quiet_swept_mailbox (f : Z → Mailbox → Mailbox) :
  (∀ T now m, T now → tidied T pending_message_ttl_ms m (f now m)) →
  ∀ s, quiet s (on_mailbox (modify (f (now_ms (rl_ticks (ms_relay s))))) (clock s).2).2.
Proof.
  intros Hf s. unfold on_mailbox, modify, clock, on_relay, tick. simpl.
  apply (quiet_ticks s (S (rl_ticks (ms_relay s)))); [lia|]. apply Hf, shown_next.
Qed.
Lemma quiet_prune : moves quiet prune_queues.
Proof.
  intros s. apply (quiet_swept_mailbox (λ now, prune_pending_queues now pending_message_ttl_ms)).
  intros T now m. apply expire_frames.
Qed.
Lemma quiet_require_access u c : moves quiet (require_access u c).
Proof.
  intros s. unfold require_access, ask_access, clock, on_relay, tick, mbind, ST_bind.
  cbn beta iota zeta. cbn [ms_relay set_ms_relay rl_ticks set_rl_ticks].
  destruct (conversation_access _ _ _ _ _ _) as [x cat] eqn:E. cbn [snd].
  set (n := rl_ticks (ms_relay s)) in *.
  assert (∀ k, (n ≤ k < S (S (S n)))%nat → shown s (S (S (S n))) (now_ms k)) as Hk.
  { intros k H. by exists k. }
  apply (conversation_access_rooms (shown s (S (S (S n))))) in E; [|apply Hk; lia..].
  by apply (quiet_authority s (S (S (S n)))) in E; [|lia].
Qed.
Lemma quiet_on_relay {A} (h : Handler A) : (∀ r, (h r).2 = r) → moves quiet (on_relay h).
Proof.
  intros Hh s. unfold on_relay. specialize (Hh (ms_relay s)). destruct (h (ms_relay s)) as [x r].
  simpl in *. subst r. by destruct s.
Qed.
Lemma quiet_identity id : moves quiet (on_relay (client_identity id)).
Proof.
  apply quiet_on_relay. intros r. unfold client_identity, find_client, mbind, ST_bind, ok_or.
  by destruct (rl_clients r !! id).
Qed.
Lemma quiet_identity_platform id : moves quiet (on_relay (client_identity_and_platform id)).
Proof.
  apply quiet_on_relay. intros r.
  unfold client_identity_and_platform, find_client, mbind, ST_bind, ok_or.
  by destruct (rl_clients r !! id).
Qed.
Lemma quiet_staged owner chat msg s :
  quiet s (on_relay (on_attachments (staged_attachment_for_message
             (now_ms (rl_ticks (ms_relay s))) owner chat msg)) (clock s).2).2.
Proof.
  unfold clock, on_relay, on_attachments, tick. cbn [fst snd ms_relay set_ms_relay].
  cbn [rl_attachments set_rl_ticks].
  pose proof (lookup_swept (shown s (S (rl_ticks (ms_relay s)))) _ owner chat msg
                (rl_attachments (ms_relay s)) (shown_next s)) as Hs.
  pose proof (λ l, staged_attachment_ok l (now_ms (rl_ticks (ms_relay s))) owner chat msg
                (rl_attachments (ms_relay s))) as Ho.
  destruct (staged_attachment_for_message _ _ _ _ _) as [x st]. cbn [fst snd] in *.
  apply (quiet_registry s (S (rl_ticks (ms_relay s)))); [lia|done|done].
Qed.
End quiet.
#[export] Hint Resolve quiet_clock quiet_prune quiet_require_access quiet_identity
  quiet_identity_platform : moves.
(** The reading of the clock and the step that uses it go together. *)
Ltac hush :=
  repeat match goal with
    | |- moves quiet (clock ≫= _) => apply moves_clocked; [|intros ? ?]
    | |- moves _ _ => move_step
    end.

Lemma conversation_access_catalogs `{HashOrder} now1 now2 now3 username chat c access c' :
  conversation_access now1 now2 now3 username chat c = (access, c') →
  ct_room_catalog c' = ct_room_catalog c ∧ ct_direct_catalog c' = ct_direct_catalog c.
Proof.
  unfold conversation_access. destruct (negb _); [by intros [= _ <-]|].
  destruct (List.find _ _) as [[code a]|]; [|by intros [= _ <-]].
  destruct (is_member _ _ _ _) as [[] a1]; cbn [negb]; [|by intros [= _ <-]].
  destruct (is_active_member _ _ _ _) as [[] a2]; cbn [negb]; [|by intros [= _ <-]].
  destruct (member_info _ _ _ _) as [[info|e] a3]; by intros [= _ <-].
Qed.

Section prepare.
Context {HO : HashOrder} {B64 : Base64} {ENV : RelayEnv} {JSON : SerdeJson} {FJ : FrameJson}.
Context {KEYS : Keys} {DRAWS : Draws}.

Lemma quiet_admit_leases rs es c m u : moves quiet (admit_prekey_leases rs es c m u).
Proof.
  unfold admit_prekey_leases. hush. apply (quiet_swept_mailbox drop_old_leases).
  intros T now m'. apply expire_leases.
Qed.
Lemma quiet_authenticate id p : moves quiet (authenticate_sender id p).
Proof. unfold authenticate_sender. stay. Qed.
Hint Resolve quiet_admit_leases quiet_authenticate : moves.
Lemma quiet_prepare id p ev : moves quiet (prepare_message id p ev).
Proof. unfold prepare_message. hush. apply quiet_staged. Qed.

(** ** Prepared frames *)

Lemma padding_only {RNG : OsRng} m f :
  prepare_outbound_message_padding (OutboundFrame.Message m) = (Ok tt, f) →
  ∃ bucket padding, f = OutboundFrame.Message (set_om_padding bucket padding m).
Proof.
  unfold prepare_outbound_message_padding.
  destruct ('(_, _) ← _; _) as [[bucket filler]|e]; [|done].
  destruct (len <$> _); [|done]. case_bool_decide; [done|]. intros [= <-]. by exists bucket, filler.
Qed.

Lemma prepare_frames_inv p sender key stamp envelopes t n total recipients frames :
  prepare_frames p sender key stamp envelopes t n total recipients = Ok frames →
  frames.*1 = recipients ∧
  ∀ rf, rf ∈ frames → ∃ e bucket padding, envelopes !! rf.1 = Some e ∧
    rf.2 = OutboundFrame.Message
             (set_om_padding bucket padding (recipient_message p sender key stamp e)).
Proof.
  revert n total frames. induction recipients as [|r recipients IH]; intros n total frames.
  { intros [= <-]. split; [done|]. by intros rf ?%elem_of_nil. }
  cbn [prepare_frames]. intros (e & He%ok_or_Ok & H)%bind_Ok.
  destruct (prepare_outbound_message_padding _) as [[[]|?] f] eqn:Hpad; [|done].
  apply padding_only in Hpad as (bucket & padding & ->).
  apply bind_Ok in H as ([] & _ & H). apply bind_Ok in H as (b & _ & H).
  apply bind_Ok in H as (sum & _ & H). apply bind_Ok in H as (total' & _ & H).
  apply bind_Ok in H as ([] & _ & H). apply bind_Ok in H as (rest & Hrest & H).
  injection H as <-. apply IH in Hrest as [Hf Hr].
  split; [by rewrite fmap_cons, Hf|]. intros rf [->|Hin]%elem_of_cons; [|by apply Hr].
  by exists e, bucket, padding.
Qed.

Lemma check_envelopes_inv p sender public nonce ct expected envelopes seen result :
  check_envelopes p sender public nonce ct expected envelopes seen = Ok result →
  ∀ r e, result !! r = Some e → seen !! r = Some e ∨
    (e ∈ envelopes ∧ ev_recipient_username e = r ∧
     ∃ seen', check_envelope p sender public nonce ct expected seen' e = Ok tt).
Proof.
  revert seen. induction envelopes as [|e0 envelopes IH]; intros seen; cbn [check_envelopes].
  { intros [= <-]. eauto. }
  intros ([] & Hc & H)%bind_Ok r e Hr.
  destruct (IH _ H r e Hr) as [Hs|(Hin & Hu & Hc')]; [|right; split_and!; [by right|done|done]].
  apply lookup_insert_Some in Hs as [[<- <-]|[_ Hs]]; [|by left].
  right. split_and!; [left|done|by exists seen].
Qed.

(** The frame carries what the sender signed for this recipient. *)
Definition signed_for (p : PostedMessage) (sender : string) (rf : string * OutboundFrame.t) : Prop :=
  ∃ e msg public nonce ciphertext wrapped signature,
    e ∈ im_envelopes p ∧ ev_recipient_username e = rf.1 ∧ rf.2 = OutboundFrame.Message msg ∧
    om_chat_id msg = im_chat_id p ∧ om_message_id msg = im_message_id p ∧
    om_sender_username msg = sender ∧ om_nonce_b64 msg = im_nonce_b64 p ∧
    om_ciphertext_b64 msg = im_ciphertext_b64 p ∧ om_wrapped_key_b64 msg = ev_wrapped_key_b64 e ∧
    om_prekey_id msg = ev_prekey_id e ∧ om_is_prekey msg = ev_is_prekey e ∧
    om_signature_b64 msg = ev_signature_b64 e ∧
    b64_decode (im_identity_public_b64 p) = Some public ∧ b64_decode (im_nonce_b64 p) = Some nonce ∧
    b64_decode (im_ciphertext_b64 p) = Some ciphertext ∧
    b64_decode (ev_wrapped_key_b64 e) = Some wrapped ∧
    b64_decode (ev_signature_b64 e) = Some signature ∧
    verify_message_signature_v9 (im_version p) (im_chat_id p) (im_message_id p) sender public nonce
      ciphertext (ev_recipient_username e) wrapped (ev_prekey_id e) (ev_is_prekey e) signature
    = Ok tt.

Lemma collect_envelopes_inv p sender public nonce ct expected envelopes :
  collect_envelopes p sender public nonce ct expected = Ok envelopes →
  dom envelopes = expected ∧
  ∀ r e, envelopes !! r = Some e → e ∈ im_envelopes p ∧ ev_recipient_username e = r ∧
    ∃ wrapped signature, b64_decode (ev_wrapped_key_b64 e) = Some wrapped ∧
      b64_decode (ev_signature_b64 e) = Some signature ∧
      verify_message_signature_v9 (im_version p) (im_chat_id p) (im_message_id p) sender public
        nonce ct (ev_recipient_username e) wrapped (ev_prekey_id e) (ev_is_prekey e) signature
      = Ok tt.
Proof.
  unfold collect_envelopes. intros ([] & _ & H)%bind_Ok. apply bind_Ok in H as (es & Hes & H).
  apply bind_Ok in H as ([] & Hd%reject_if_Ok & H). injection H as <-. split_bools.
  split; [by apply dec_stable|]. intros r e Hr.
  destruct (check_envelopes_inv _ _ _ _ _ _ _ _ _ Hes r e Hr) as [Hn|(Hin & Hu & seen & Hc)].
  { by rewrite lookup_empty in Hn. }
  split_and!; [done|done|]. unfold check_envelope in Hc.
  apply bind_Ok in Hc as ([] & _ & Hc). apply bind_Ok in Hc as ([] & _ & Hc).
  apply bind_Ok in Hc as ([] & _ & Hc). apply bind_Ok in Hc as (w & Hw%decode_bounded_Ok & Hc).
  apply bind_Ok in Hc as ([] & _ & Hc). apply bind_Ok in Hc as (sig & Hs%decode_exact_Ok & Hc).
  by exists w, sig.
Qed.

Lemma moves_step {A} R (t : Task A) s x s' : moves R t → t s = (x, s') → R s s'.
Proof. intros Ht E. specialize (Ht s). by rewrite E in Ht. Qed.
Lemma lift_bind_Ok {A B} (r : result string A) (k : A → Task B) s b s' :
  (x ← lift r; k x) s = (Ok b, s') ↔ ∃ a, r = Ok a ∧ k a s = (Ok b, s').
Proof.
  rewrite ST_bind_Ok. unfold lift. split.
  - intros (a & s1 & [= -> <-] & H). eauto.
  - intros (a & -> & H). eauto.
Qed.

Lemma identity_platform_Ok id r code sender platform r' :
  client_identity_and_platform id r = (Ok (code, sender, platform), r') →
  ∃ client, rl_clients r !! id = Some client ∧ cl_code_id client = code ∧
    cl_username client = sender ∧ cl_platform client = platform.
Proof.
  unfold client_identity_and_platform, find_client, mbind, ST_bind, ok_or.
  destruct (rl_clients r !! id) as [client|]; [|done]. intros [= <- <- <- _]. eauto.
Qed.

Lemma authenticate_Ok id p s code sender platform public s' :
  authenticate_sender id p s = (Ok (code, sender, platform, public), s') →
  (∃ client, rl_clients (ms_relay s) !! id = Some client ∧ cl_code_id client = code ∧
    cl_username client = sender ∧ cl_platform client = platform) ∧
  b64_decode (im_identity_public_b64 p) = Some public.
Proof.
  unfold authenticate_sender. intros ([[c u] pf] & s1 & H1 & H)%ST_bind_Ok.
  apply lift_bind_Ok in H as (pk & Hpk%decode_exact_Ok & H).
  apply lift_bind_Ok in H as ([] & _ & H). apply ST_bind_Ok in H as (s2 & s3 & _ & H).
  apply lift_bind_Ok in H as (a & _ & H). apply lift_bind_Ok in H as ([] & _ & H).
  injection H as <- <- <- <- _. split; [|done]. unfold on_relay in H1.
  destruct (client_identity_and_platform id (ms_relay s)) as [x r] eqn:E.
  injection H1 as -> _. by eapply identity_platform_Ok.
Qed.

(** The parties a message of [sender] goes to. *)
Definition parties (s : Messenger) (chat_id sender : string) (recipients : list string) : Prop :=
  (∃ d peer, ms_direct_catalog s !! chat_id = Some d ∧ peer_for d sender = Some peer ∧
     recipients = [peer]) ∨
  (∃ entry, ms_room_catalog s !! chat_id = Some entry ∧
     ∀ u, u ∈ recipients ↔ u ≠ sender ∧ ∃ code a, ms_accounts s !! code = Some a ∧ ra_username a = u).

Lemma NoDup_set_iter X : NoDup (set_iter X).
Proof. apply NoDup_hash_keys. Qed.
Lemma elem_of_set_iter u X : u ∈ set_iter X ↔ u ∈ X.
Proof.
  unfold set_iter. rewrite elem_of_hash_keys. rewrite lookup_gset_to_gmap.
  destruct (decide (u ∈ X)); [rewrite option_guard_True by done|rewrite option_guard_False by done];
    naive_solver.
Qed.
Lemma set_iter_singleton u : set_iter {[u]} = [u].
Proof.
  apply Permutation_singleton_r, NoDup_Permutation; [apply NoDup_set_iter|apply NoDup_singleton|].
  intros v. rewrite elem_of_set_iter. set_solver.
Qed.

Lemma require_access_Ok u chat s access s' :
  require_access u chat s = (Ok access, s') →
  match access with
  | MlsRoom _ => True
  | Room _ => is_Some (ms_room_catalog s' !! chat)
  | Direct => is_Some (ms_direct_catalog s' !! chat)
  end.
Proof.
  unfold require_access. intros (t1 & s1 & _ & H)%ST_bind_Ok.
  apply ST_bind_Ok in H as (t2 & s2 & _ & H). apply ST_bind_Ok in H as (t3 & s3 & _ & H).
  unfold ask_access in H. destruct (conversation_access _ _ _ _ _ _) as [x c] eqn:E.
  destruct x as [x|]; [|done]. injection H as <- <-.
  pose proof (conversation_access_catalogs _ _ _ _ _ _ _ _ E) as [Ec Ed].
  apply conversation_access_belongs in E. destruct x; simpl in *; [done|..].
  - destruct E as (e & He & _). rewrite Ec in He. by exists e.
  - destruct E as (d & Hd & _). rewrite Ed in Hd. by exists d.
Qed.

Lemma clock_Ok s now s' :
  clock s = (Ok now, s') → now = now_ms (rl_ticks (ms_relay s)) ∧ s' = (clock s).2.
Proof. intros E. split; [|by rewrite E]. by injection E as <- _. Qed.

(** A task that leaves the attachments alone. *)
Definition same_store (s s' : Messenger) : Prop :=
  rl_attachments (ms_relay s') = rl_attachments (ms_relay s).
#[local] Instance same_store_preorder : PreOrder same_store.
Proof. split; [done|]. intros s1 s2 s3. unfold same_store. congruence. Qed.
Lemma same_store_leases rs es c m u : moves same_store (admit_prekey_leases rs es c m u).
Proof. unfold admit_prekey_leases, prune_queues. stay; by intros s. Qed.

Lemma found_staged now owner chat msg s found s' :
  on_relay (on_attachments (staged_attachment_for_message now owner chat msg)) s = (Ok found, s') →
  st_bindings (rl_attachments (ms_relay s')) !! mkBindingKey owner chat msg = found.
Proof.
  unfold on_relay, on_attachments.
  destruct (staged_attachment_for_message _ _ _ _ _) as [x st] eqn:E. intros [= -> <-]. simpl.
  by eapply lookup_found.
Qed.

Lemma prepare_inv id p ev s code sender platform staged frames s1 :
  prepare_message id p ev s = (Ok (code, sender, platform, staged, frames), s1) →
  (∃ client, rl_clients (ms_relay s) !! id = Some client ∧ cl_code_id client = code ∧
    cl_username client = sender ∧ cl_platform client = platform) ∧
  NoDup frames.*1 ∧ parties s (im_chat_id p) sender frames.*1 ∧
  (∀ rf, rf ∈ frames → signed_for p sender rf) ∧
  st_bindings (rl_attachments (ms_relay s1)) !! mkBindingKey code (im_chat_id p) (im_message_id p)
    = staged.
Proof.
  unfold prepare_message. intros (s0 & s0' & [= <- <-] & H)%ST_bind_Ok.
  apply lift_bind_Ok in H as (stamp & _ & H). apply lift_bind_Ok in H as ([] & _ & H).
  apply lift_bind_Ok in H as (nonce & Hn%decode_exact_Ok & H).
  apply lift_bind_Ok in H as (ct & Hct%decode_bounded_Ok & H). apply lift_bind_Ok in H as (env & _ & H).
  apply ST_bind_Ok in H as ([[[c u] pf] pk] & sa & Ha & H).
  pose proof (moves_step _ _ _ _ _ (quiet_authenticate id p) Ha) as Qa.
  apply authenticate_Ok in Ha as [Hclient Hpk].
  apply ST_bind_Ok in H as (access & sb & Hb & H).
  pose proof (moves_step _ _ _ _ _ (quiet_require_access _ _) Hb) as Qb.
  apply require_access_Ok in Hb.
  apply ST_bind_Ok in H as (t & sc & [-> ->]%clock_Ok & H).
  apply ST_bind_Ok in H as (st & sd & Hd & H).
  pose proof (quiet_staged c (im_chat_id p) (im_message_id p) sb) as Qbd. rewrite Hd in Qbd. simpl in Qbd.
  apply found_staged in Hd.
  apply ST_bind_Ok in H as (se & se' & [= <- <-] & H).
  assert (quiet s sd) as Q by (do 2 (etrans; [done|]); done).
  apply lift_bind_Ok in H as (expected & Hexp & H). apply lift_bind_Ok in H as ([] & _ & H).
  apply lift_bind_Ok in H as (es & Hes & H). apply lift_bind_Ok in H as (acc & _ & H).
  apply lift_bind_Ok in H as (fs & Hfs & H). apply ST_bind_Ok in H as ([] & sf & Hstore & H).
  injection H as <- <- <- <- <- <-. apply (moves_step _ _ _ _ _ (same_store_leases _ _ _ _ _)) in Hstore.
  apply collect_envelopes_inv in Hes as [Hdom Hes]. apply prepare_frames_inv in Hfs as [Hrec Hfs].
  rewrite Hrec. split_and!; [done|apply NoDup_set_iter| | |by rewrite Hstore].
  - unfold expected_recipients in Hexp. destruct access as [policy|room|]; [done|right|left].
    + injection Hexp as <-. rewrite <- (qt_room_catalog _ _ Q). rewrite (qt_room_catalog _ _ Qbd).
      destruct Hb as [entry He]. exists entry. split; [done|]. intros v.
      rewrite elem_of_set_iter, elem_of_filter, elem_of_list_to_set, list_elem_of_fmap.
      setoid_rewrite elem_of_hash_values. rewrite (quiet_accounts _ _ Q). naive_solver.
    + apply bind_Ok in Hexp as (peer & Hp%ok_or_Ok & [= <-]). unfold direct_peer in Hp.
      apply bind_Some in Hp as (d & Hd' & Hp). rewrite (qt_direct_catalog _ _ Q) in Hd'.
      exists d, peer. by rewrite set_iter_singleton.
  - intros rf Hin. destruct (Hfs rf Hin) as (e & bucket & padding & He & Hf).
    destruct (Hes _ _ He) as (Hine & Hu & w & sig & Hw & Hsig & Hver).
    eexists e, _, pk, nonce, ct, w, sig. by split_and!.
Qed.
End prepare.

(** ** Admission *)

Section admission.
Context {HO : HashOrder} {B64 : Base64} {ENV : RelayEnv} {JSON : SerdeJson} {FJ : FrameJson}.
Context {KEYS : Keys} {DRAWS : Draws}.

(** The identity state a message carries. *)
Definition posted_state (code_id : CodeId) (p : PostedMessage) : StateCall :=
  mkStateCall code_id (im_state_revision p) (im_identity_envelope_b64 p) (im_identity_public_b64 p)
    (im_prekey_id p) (im_state_signature_b64 p) false None.

(** The message is in: after the sweeps that lead to [s1], its frames are
    queued, its identifier is registered, and the sender's account holds its
    identity state; nothing else changes. *)
Record admitted (p : PostedMessage) (code_id : CodeId) (sender : string)
    (platform : ClientPlatform) (frames : list (string * OutboundFrame.t)) (s s1 s' : Messenger)
    : Prop := mkAdmitted {
  ad_quiet : quiet s s1;
  ad_store : same_store s s1;
  ad_mailbox : ∃ now now_id m2 plan,
    let key := mkMessageKey (im_chat_id p) sender (im_message_id p) in
    read s s1 now ∧ read s s1 now_id ∧ committed now platform frames (ms_mailbox s1) plan m2 ∧
    mb_replay_ids (ms_mailbox s1) !! key = None ∧
    ms_mailbox s' = set_mb_replay_ids (<[key := now_id]> (mb_replay_ids (ms_mailbox s1))) m2;
  ad_account : ∃ a a',
    ms_accounts s !! code_id = Some a ∧ installs (posted_state code_id p) a a' ∧
    ms_relay s' = set_rl_accounts (<[code_id := a']> (ms_accounts s)) (ms_relay s1);
  ad_catalogs :
    ms_room_catalog s' = ms_room_catalog s ∧ ms_direct_catalog s' = ms_direct_catalog s;
  ad_counted : pending_ok (ms_mailbox s');
  ad_ok : mailbox_ok (ms_mailbox s) → mailbox_ok (ms_mailbox s')
}.

Lemma committed_ids now pl fs ids m ps m' :
  committed now pl fs m ps m' →
  committed now pl fs (set_mb_replay_ids ids m) ps (set_mb_replay_ids ids m').
Proof. induction 1; [apply committed_nil|by eapply committed_cons]. Qed.

Lemma admit_cases p code sender platform frames s x s' :
  pending_ok (ms_mailbox s) → NoDup (frame_key <$> frames) →
  admit_message p code sender platform frames s = (x, s') →
  (∃ e, x = Err e ∧ quiet s s') ∨
  (x = Ok tt ∧ ∃ s1, admitted p code sender platform frames s s1 s').
Proof.
  intros Hm Hnd. destruct s as [r m rc dc]. simpl in Hm.
  unfold admit_message, clock, on_relay, on_mailbox, tick, or_revert, mbind, ST_bind.
  cbn [ms_relay ms_mailbox set_ms_relay set_ms_mailbox].
  destruct (preflight_pending_frames _ _ _ _) as [plan m1] eqn:Hpre.
  apply preflight_inv in Hpre as [[-> [e ->]]|(-> & Ht & ->)].
  { intros [= <- <-]. left. eexists; split; [done|].
    apply (quiet_ticks (mkMessenger r m rc dc)); [simpl; lia|reflexivity]. }
  set (m1 := prune_pending_queues _ _ m).
  assert (∀ n, (rl_ticks r < n)%nat →
    tidied (shown (mkMessenger r m rc dc) n) pending_message_ttl_ms m m1) as Htidy.
  { intros n Hn. apply expire_frames. exists (rl_ticks r). simpl. split; [lia|done]. }
  assert (pending_ok m1) as Hm1 by (by eapply td_counted; [apply (Htidy (S (rl_ticks r))); lia|]).
  rewrite simulate_ok by done. cbn [ok_or mbind result_bind].
  destruct (plan_frames frames _ _) as [plan|e] eqn:Hplan.
  2: { intros [= <- <-]. left. eexists; split; [done|].
       apply (quiet_ticks (mkMessenger r m rc dc)); [simpl; lia|apply Htidy; lia]. }
  cbn [rl_ticks set_rl_ticks ms_relay ms_mailbox set_ms_relay set_ms_mailbox].
  destruct (commit_preflighted (now_ms (S (rl_ticks r))) platform frames m1 plan Hm1 Hplan)
    as (plan' & m2 & -> & Hc & Hm2).
  destruct (committed_rest _ _ _ _ _ _ Hc) as [El Ei].
  assert (∀ ids, rollback_pending_frames frames plan' (set_mb_replay_ids ids m2) =
                 set_mb_replay_ids ids m1) as Hroll.
  { intros ids. rewrite rollback_ids, (rollback_restores _ _ _ _ _ _ Hm1 Hc) by done.
    unfold set_mb_replay_ids. simpl. by rewrite El. }
  cbn [rl_ticks set_rl_ticks ms_relay ms_mailbox set_ms_relay set_ms_mailbox].
  destruct (register_message_id _ _ _ _ m2) as [x3 m3] eqn:Hreg.
  assert (∀ t, mb_replay_ids (drop_old_ids t m2) = mb_replay_ids (drop_old_ids t m1)) as Hids.
  { intros t. simpl. by rewrite Ei. }
  set (now_id := now_ms (S (S (rl_ticks r)))) in *.
  set (s1 := mkMessenger (set_rl_ticks (S (S (S (rl_ticks r)))) r) (drop_old_ids now_id m1) rc dc).
  assert (quiet (mkMessenger r m rc dc) s1) as Hq.
  { apply (quiet_ticks (mkMessenger r m rc dc)); [simpl; lia|]. etrans; [apply Htidy; lia|].
    apply expire_ids. exists (S (S (rl_ticks r))). simpl. split; [lia|done]. }
  apply register_cases in Hreg as [[[e ->] ->]|(-> & Hfresh & -> & Hok)].
  { intros [= <- <-]. left. eexists; split; [done|].
    cbn [ms_relay ms_mailbox set_ms_relay set_ms_mailbox ms_room_catalog ms_direct_catalog].
    unfold drop_old_ids at 1. rewrite Hroll, Ei. exact Hq. }
  rewrite Hids in *.
  set (key := mkMessageKey (im_chat_id p) sender (im_message_id p)) in *.
  unfold on_accounts. unfold ms_accounts at 1.
  cbn [ms_relay ms_mailbox set_ms_relay set_ms_mailbox rl_accounts set_rl_ticks].
  pose proof (run_call_cases (posted_state code p) (rl_accounts r)) as Hcases.
  unfold run_call in Hcases. cbn [posted_state sc_code_id sc_revision sc_envelope_b64 sc_identity_public_b64
    sc_prekey_id sc_state_signature_b64 sc_allow_reuse sc_consumed_prekey_id] in Hcases.
  unfold apply_identity_state_locked.
  destruct Hcases as [[e ->]|(a & a' & Ha & Hi & ->)].
  - intros [= <- <-]. left. eexists; split; [done|].
    cbn [ms_relay ms_mailbox set_ms_relay set_ms_mailbox ms_room_catalog ms_direct_catalog].
    unfold unregister_message_id. cbn [mb_replay_ids set_mb_replay_ids]. fold key.
    rewrite delete_insert_id by exact Hfresh.
    change (set_mb_replay_ids ?i (set_mb_replay_ids _ m2)) with (set_mb_replay_ids i m2).
    rewrite Hroll. destruct r. exact Hq.
  - intros [= <- <-]. right. split; [done|]. exists s1. split; [done|done| | |done|by apply (pending_ok_same m2)|].
    + exists (now_ms (S (rl_ticks r))), now_id, (set_mb_replay_ids (mb_replay_ids (drop_old_ids now_id m1)) m2), plan'.
      cbn zeta. fold key. split_and!; [..|done|done].
      * exists (S (rl_ticks r)). simpl. split; [lia|done].
      * exists (S (S (rl_ticks r))). simpl. split; [lia|done].
      * exact (committed_ids _ _ _ _ _ _ _ Hc).
    + exists a, a'. done.
    + simpl. intros Hbox. apply Hok, (mailbox_ok_sub m1); [|done|by rewrite El|by rewrite Ei].
      by eapply tidied_mailbox_ok; [apply (Htidy (S (rl_ticks r))); lia|].
Qed.
End admission.

(** ** Posting *)

Section route.
Context {HO : HashOrder} {B64 : Base64} {ENV : RelayEnv} {JSON : SerdeJson} {FJ : FrameJson}.
Context {KEYS : Keys} {DRAWS : Draws}.

Lemma for_each_ok {A} (l : list A) f r :
  (∀ x r, is_ok (f x r).1 = true) → is_ok (for_each l f r).1 = true.
Proof.
  intros Hf. revert r. induction l as [|x l IH]; intros r; [done|]. simpl.
  unfold mbind, ST_bind. specialize (Hf x r). destruct (f x r) as [[a|e] r']; [apply IH|done].
Qed.
Lemma fan_out_ok chat platform frames r : is_ok (fan_out chat platform frames r).1 = true.
Proof. apply for_each_ok. intros f r'. by apply for_each_ok. Qed.

Lemma frames_keys p sender frames :
  (∀ rf, rf ∈ frames → signed_for p sender rf) →
  frame_key <$> frames = mkPendingKey (im_chat_id p) <$> frames.*1.
Proof.
  intros Hs. rewrite <- list_fmap_compose. apply list_fmap_ext. intros i rf Hi.
  destruct (Hs rf) as (e & msg & pk & n & ct & w & sg & _ & _ & Hf & Hc & _).
  { by apply list_elem_of_lookup; exists i. }
  unfold frame_key, compose. by rewrite Hf, Hc.
Qed.
Lemma NoDup_frames p sender frames :
  NoDup frames.*1 → (∀ rf, rf ∈ frames → signed_for p sender rf) → NoDup (frame_key <$> frames).
Proof.
  intros Hnd Hs. rewrite (frames_keys p sender) by done.
  apply NoDup_fmap_2; [|done]. by intros u v [= ->].
Qed.

(** The attachment staged for the message is published, then every frame is sent
    to the clients of its recipient that have joined. *)
Definition announced (p : PostedMessage) (client : ClientHandle)
    (frames : list (string * OutboundFrame.t)) (staged : option Uuid) (r : Relay) : Relay :=
  let r :=
    match staged with
    | Some attachment_id =>
        (publish_staged_attachment attachment_id (cl_code_id client) (im_chat_id p)
           (im_message_id p) r).2
    | None => r
    end in
  (fan_out (im_chat_id p) (cl_platform client) frames r).2.

(** Publishing and sending are the last steps and cannot fail. *)
Lemma announce_Ok p client frames staged s x s' :
  (_ ← match staged with
       | Some attachment_id =>
           on_relay (publish_staged_attachment attachment_id (cl_code_id client) (im_chat_id p)
                       (im_message_id p))
       | None => mret tt
       end;
   on_relay (fan_out (im_chat_id p) (cl_platform client) frames)) s = (x, s') →
  x = Ok tt ∧ s' = set_ms_relay (announced p client frames staged (ms_relay s)) s.
Proof.
  assert (∀ s, on_relay (fan_out (im_chat_id p) (cl_platform client) frames) s =
    (Ok tt, set_ms_relay (fan_out (im_chat_id p) (cl_platform client) frames (ms_relay s)).2 s)) as Hf.
  { intros t. unfold on_relay.
    pose proof (fan_out_ok (im_chat_id p) (cl_platform client) frames (ms_relay t)) as Hok.
    by destruct (fan_out _ _ _ _) as [[[]|?] r]. }
  unfold announced. destruct staged as [a|]; unfold mbind at 1, ST_bind at 1.
  - assert (on_relay (publish_staged_attachment a (cl_code_id client) (im_chat_id p)
              (im_message_id p)) s =
            (Ok tt, set_ms_relay (publish_staged_attachment a (cl_code_id client) (im_chat_id p)
              (im_message_id p) (ms_relay s)).2 s)) as ->.
    { unfold on_relay, publish_staged_attachment, mbind, ST_bind, tick, attempt, on_attachments.
      by destruct (publish_staged_attachment_checked _ _ _ _ _ _) as [[]]. }
    rewrite Hf. by intros [= <- <-].
  - cbn [mret ST_ret]. rewrite Hf. by intros [= <- <-].
Qed.

Lemma route_cases id p ev s x s' :
  pending_ok (ms_mailbox s) → route_encrypted_message_with_directory id p ev s = (x, s') →
  (∃ e, x = Err e ∧ quiet s s') ∨
  (∃ client frames s0 s1 s2, x = Ok tt ∧ rl_clients (ms_relay s) !! id = Some client ∧
    NoDup frames.*1 ∧ parties s (im_chat_id p) (cl_username client) frames.*1 ∧
    (∀ rf, rf ∈ frames → signed_for p (cl_username client) rf) ∧ quiet s s0 ∧
    admitted p (cl_code_id client) (cl_username client) (cl_platform client) frames s0 s1 s2 ∧
    let staged := st_bindings (rl_attachments (ms_relay s1)) !!
      mkBindingKey (cl_code_id client) (im_chat_id p) (im_message_id p) in
    s' = set_ms_relay (announced p client frames staged (ms_relay s2)) s2).
Proof.
  intros Hm. unfold route_encrypted_message_with_directory. unfold mbind at 1, ST_bind at 1.
  destruct (prepare_message id p ev s) as [[prep|e] s1] eqn:Hp.
  2: { intros [= <- <-]. left. eexists. split; [done|]. by eapply moves_step; [apply quiet_prepare|]. }
  pose proof (moves_step _ _ _ _ _ (quiet_prepare id p ev) Hp) as Q1.
  destruct prep as [[[[code sender] platform] staged] frames].
  apply prepare_inv in Hp as ((client & Hcl & <- & <- & <-) & Hnd & Hpar & Hsig & Hst).
  pose proof (NoDup_frames p _ frames Hnd Hsig) as Hkeys.
  unfold mbind at 1, ST_bind at 1.
  destruct (admit_message _ _ _ _ _ s1) as [y s3] eqn:Ha.
  assert (pending_ok (ms_mailbox s1)) as Hm1 by (by eapply td_counted; [apply Q1|]).
  apply (admit_cases _ _ _ _ _ _ _ _ Hm1 Hkeys) in Ha as [(e & -> & Q2)|[-> [s2 Had]]].
  { intros [= <- <-]. left. eexists. split; [done|]. by etrans. }
  intros [-> ->]%announce_Ok. right. exists client, frames, s1, s2, s3.
  split_and!; try done. cbn zeta. by rewrite (ad_store _ _ _ _ _ _ _ _ Had), Hst.
Qed.
End route.


(** ** Acknowledging *)

Section acknowledge.
Context {HO : HashOrder} {B64 : Base64} {ENV : RelayEnv} {JSON : SerdeJson} {FJ : FrameJson}.
Context {KEYS : Keys} {DRAWS : Draws}.

Lemma identity_Ok id s code u s' :
  on_relay (client_identity id) s = (Ok (code, u), s') →
  s' = s ∧ ∃ client, rl_clients (ms_relay s) !! id = Some client ∧ cl_code_id client = code ∧
    cl_username client = u.
Proof.
  unfold on_relay, client_identity, find_client, mbind, ST_bind, ok_or.
  destruct (rl_clients (ms_relay s) !! id) as [client|]; [|done]. intros [= <- <- <-].
  split; [by destruct s|eauto].
Qed.

Lemma quiet_check id a : moves quiet (check_acknowledgement id a).
Proof. unfold check_acknowledgement. stay. Qed.

Lemma check_inv id a s code u index bytes s1 :
  check_acknowledgement id a s = (Ok (code, u, index, bytes), s1) →
  (∃ client, rl_clients (ms_relay s) !! id = Some client ∧ cl_code_id client = code ∧
     cl_username client = u) ∧
  find_acknowledged a code u (ms_mailbox s1) = Ok (index, bytes) ∧ ia_sender_username a ≠ u ∧
  (∃ public signature, b64_decode (ia_identity_public_b64 a) = Some public ∧
     b64_decode (ia_ack_signature_b64 a) = Some signature ∧
     verify_ack_signature_v9 E2EE_PROTOCOL_VERSION (ia_chat_id a) (ia_message_id a)
       (ia_sender_username a) (ia_used_prekey_id a) public signature = Ok tt).
Proof.
  unfold check_acknowledgement. intros ([] & sa & Ha & H)%ST_bind_Ok.
  pose proof (moves_step _ _ _ _ _ quiet_prune Ha) as Qa.
  apply lift_bind_Ok in H as ([] & _ & H). apply ST_bind_Ok in H as ([c v] & sb & Hb & H).
  apply identity_Ok in Hb as [-> (client & Hcl & <- & <-)].
  rewrite (quiet_clients _ _ Qa) in Hcl.
  apply ST_bind_Ok in H as (access & sc & _ & H).
  apply ST_bind_Ok in H as (sd & sd' & [= <- <-] & H).
  apply lift_bind_Ok in H as ([] & Hother%reject_if_Ok & H).
  apply lift_bind_Ok in H as (pk & Hpk%decode_exact_Ok & H).
  apply lift_bind_Ok in H as (sg & Hsg%decode_exact_Ok & H).
  apply lift_bind_Ok in H as ([] & Hver & H). apply lift_bind_Ok in H as ([i b] & Hfind & H).
  apply lift_bind_Ok in H as (pool & _ & H). apply lift_bind_Ok in H as ([] & _ & H).
  injection H as <- <- <- <- <-. split_bools. split_and!; [eauto|done|done|eauto].
Qed.

(** The identity state an acknowledgement carries. *)
Definition acknowledged_state (code_id : CodeId) (a : PostedAck) : StateCall :=
  mkStateCall code_id (ia_state_revision a) (ia_identity_envelope_b64 a) (ia_identity_public_b64 a)
    (ia_prekey_id a) (ia_state_signature_b64 a) true (consumed_prekey a).

Lemma commit_cases a code u index bytes s x s' :
  commit_acknowledgement a code u index bytes s = (x, s') →
  (∃ e, x = Err e ∧ s' = s) ∨
  (x = Ok tt ∧ ∃ acc acc', ms_accounts s !! code = Some acc ∧
     installs (acknowledged_state code a) acc acc' ∧
     s' = mkMessenger (set_rl_accounts (<[code := acc']> (ms_accounts s)) (ms_relay s))
            (consume_frame a code u index bytes (ms_mailbox s)) (ms_room_catalog s)
            (ms_direct_catalog s)).
Proof.
  unfold commit_acknowledgement, on_accounts, on_mailbox, modify, mbind, ST_bind.
  destruct (run_call_cases (acknowledged_state code a) (ms_accounts s))
    as [[e E]|(acc & acc' & Ha & Hi & E)];
    unfold run_call in E; cbn [acknowledged_state sc_code_id sc_revision sc_envelope_b64
      sc_identity_public_b64 sc_prekey_id sc_state_signature_b64 sc_allow_reuse
      sc_consumed_prekey_id] in E; rewrite E.
  - intros [= <- <-]. left. eexists. split; [done|]. destruct s as [r ? ? ?]. by destruct r.
  - intros [= <- <-]. right. split; [done|]. by exists acc, acc'.
Qed.
End acknowledge.


(** ** Leasing *)

Section lease.
Context {HO : HashOrder} {B64 : Base64} {ENV : RelayEnv} {JSON : SerdeJson} {FJ : FrameJson}.
Context {KEYS : Keys} {DRAWS : Draws}.

Lemma take_lease_inv now code pool chat msg sender recipient m prekey created m' :
  take_lease now code pool chat msg sender recipient m = (Ok (prekey, created), m') →
  let m1 := drop_old_leases now m in
  let key := mkLeaseKey code prekey in
  let lease := mkLease chat msg sender recipient created in
  m' = set_mb_leases (<[key := lease]> (mb_prekey_leases m1)) m1 ∧
  (mb_prekey_leases m1 !! key = Some lease ∨
   (mb_prekey_leases m1 !! key = None ∧ prekey ∈ pool ∧ created = now)).
Proof.
  unfold take_lease. fold (drop_old_leases now m). set (m1 := drop_old_leases now m).
  destruct (List.filter _ _) as [|[key lease] [|? ?]] eqn:Hf; [| |done].
  - destruct (_ || _); [done|]. destruct (List.find _ pool) as [p|] eqn:Hp; [|done].
    intros [= <- <- <-]. split; [done|]. right. apply List.find_some in Hp as [Hin Hp]. split_bools.
    split_and!; [done|by apply list_elem_of_In|done].
  - intros [= <- <- <-]. assert ((key, lease) ∈ hash_iter (mb_prekey_leases m1) ∧
      is_lease_for code chat msg sender recipient (key, lease) = true) as [Hin Hl].
    { assert (In (key, lease) [(key, lease)]) as H by (by left). rewrite <- Hf in H.
      apply List.filter_In in H as [H1 H2]. split; [by apply list_elem_of_In|done]. }
    rewrite hash_iter_perm in Hin. apply elem_of_map_to_list in Hin.
    unfold is_lease_for in Hl. simpl in Hl. split_bools. destruct key as [kc kp], lease. simpl in *. subst.
    split; [|by left]. by rewrite insert_id by exact Hin.
Qed.

Lemma quiet_accounts_find u s s' :
  quiet s s' → find_account u (ms_accounts s') = find_account u (ms_accounts s).
Proof. intros Q. by rewrite (quiet_accounts _ _ Q). Qed.

(** Taking a lease is quiet when it is refused. *)
Lemma take_lease_refused now code pool chat msg sender recipient m e m' :
  take_lease now code pool chat msg sender recipient m = (Err e, m') → m' = drop_old_leases now m.
Proof.
  unfold take_lease. fold (drop_old_leases now m). set (m1 := drop_old_leases now m).
  destruct (List.filter _ _) as [|[key lease] [|? ?]]; [|by intros [=]|by intros [= _ <-]].
  destruct (_ || _); [by intros [= _ <-]|]. destruct (List.find _ pool); [done|by intros [= _ <-]].
Qed.

(** The lease of [key] is in place over the state [s1], everything else is as
    there. *)
Definition with_lease (key : PrekeyLeaseKey) (lease : PrekeyLease) (s1 : Messenger) : Messenger :=
  set_ms_mailbox
    (set_mb_leases (<[key := lease]> (mb_prekey_leases (ms_mailbox s1))) (ms_mailbox s1)) s1.

(** A task that is quiet when it is refused. *)
Definition refused_quietly {A} (t : Task A) : Prop := ∀ s e s', t s = (Err e, s') → quiet s s'.
Lemma refused_bind {A B} (t : Task A) (k : A → Task B) :
  moves quiet t → (∀ a, refused_quietly (k a)) → refused_quietly (t ≫= k).
Proof.
  intros Ht Hk s e s'. specialize (Ht s). unfold mbind, ST_bind.
  destruct (t s) as [[a|e'] s1]; simpl in Ht; [|by intros [= _ <-]].
  intros H%Hk. by etrans.
Qed.
Lemma refused_lease id chat msg recipient : refused_quietly (lease_prekey id chat msg recipient).
Proof.
  unfold lease_prekey.
  repeat first
    [ match goal with |- refused_quietly (clock ≫= _) => fail 2 end
    | apply refused_bind; [auto with moves typeclass_instances|intros ?]
    | match goal with |- refused_quietly (let '(_, _) := ?x in _) => destruct x end ].
  intros s0 e s'. unfold clock, on_relay, tick, on_mailbox, mbind, ST_bind.
  cbn [ms_relay ms_mailbox set_ms_relay].
  destruct (take_lease _ _ _ _ _ _ _ _) as [[[prekey created]|e'] m'] eqn:Ht; [done|].
  intros [= _ <-]. apply take_lease_refused in Ht as ->.
  apply (quiet_ticks s0 (S (rl_ticks (ms_relay s0)))); [lia|]. apply expire_leases, shown_next.
Qed.
End lease.

