(* ===== verification/MessengerRun.v ===== *)
(** * Runs of the whole relay

    Every frame a client can send, with the writer tasks, the attachment
    requests, the logins and the dead man's switch: whatever the order, the
    rooms, the attachments, the outbound queues, the mailbox and the catalog of
    conversations stay well formed and within their limits. *)

From S2P Require Import Prelude MlsWire TransactionReceipts RoomModel RoomValidation RoomAuthority.
From S2P Require Import RoomLifecycle RoomInvariant RoomReachable TransportWire TransportPadding.
From S2P Require Import AttachmentAccess AttachmentStore AttachmentStoreFacts AttachmentTheorems.
From S2P Require Import RelayFrame OutboundQueue OutboundFacts OutboundTheorems RateLimit Relay.
From S2P Require Import MlsRelay MlsDispatch RelayFacts RelayRun IdentityBundle Mailbox.
From S2P Require Import IdentityState MailboxFacts DirectMessages RelayDispatch DirectFacts.
From S2P Require Import DirectTheorems.

(** ** Invariants as preorders *)

Definition upholds (P : Messenger → Prop) (s s' : Messenger) : Prop := P s → P s'.
#[export] Instance upholds_preorder P : PreOrder (upholds P).
Proof. split; [intros s H; exact H|intros s1 s2 s3 H1 H2 H; auto]. Qed.

Section upholds.
Context (P : Messenger → Prop).

Lemma moves_or_revert {A} (t : Task A) undo :
  moves (upholds P) t → (∀ s, P s → P (undo s)) → moves (upholds P) (or_revert t undo).
Proof.
  intros Ht Hu s Hs. specialize (Ht s Hs). unfold or_revert.
  destruct (t s) as [[a|e] s']; simpl in *; auto.
Qed.
Lemma moves_try_task {A} (t : Task A) :
  moves (upholds P) t → moves (upholds P) (try_task t).
Proof. intros Ht s Hs. specialize (Ht s Hs). unfold try_task. by destruct (t s). Qed.
Lemma moves_bind_post {A B} (Q : A → Prop) (t : Task A) (k : A → Task B) :
  moves (upholds P) t → (∀ s a s', t s = (Ok a, s') → Q a) →
  (∀ a, Q a → moves (upholds P) (k a)) → moves (upholds P) (t ≫= k).
Proof.
  intros Ht HQ Hk s Hs. specialize (Ht s Hs). unfold mbind, ST_bind.
  destruct (t s) as [[a|e] s'] eqn:E; simpl in *; [|done]. by apply (Hk a (HQ _ _ _ E)).
Qed.
End upholds.

(** ** The mailbox *)

Section mailbox.
Context {HO : HashOrder} {B64 : Base64} {ENV : RelayEnv} {JSON : SerdeJson} {FJ : FrameJson}.
Context {KEYS : Keys} {DRAWS : Draws} {CJ : ClientJson} {IDS : DirectIds}.

Definition box_ok (s : Messenger) : Prop := mailbox_ok (ms_mailbox s).
Abbreviation box := (upholds box_ok).

Lemma box_quiet {A} (t : Task A) : moves quiet t → moves box t.
Proof. intros Ht s Hs. eapply tidied_mailbox_ok; [apply Ht|done]. Qed.
Lemma box_on_relay {A} (h : Handler A) : moves box (on_relay h).
Proof. intros s Hs. unfold on_relay. by destruct (h (ms_relay s)). Qed.
Lemma box_on_directs {A} f : moves box (@on_directs A f).
Proof. intros s Hs. unfold on_directs. by destruct (f (ms_direct_catalog s)). Qed.
Lemma box_on_accounts {A} f : moves box (@on_accounts A f).
Proof. intros s Hs. unfold on_accounts. by destruct (f (ms_accounts s)). Qed.
Lemma box_on_mailbox {A} (f : ST Mailbox string A) :
  (∀ m, mailbox_ok m → mailbox_ok (f m).2) → moves box (on_mailbox f).
Proof.
  intros Hf s Hs. specialize (Hf _ Hs). unfold on_mailbox, box_ok.
  by destruct (f (ms_mailbox s)).
Qed.
Lemma box_clock : moves box clock.
Proof. apply box_on_relay. Qed.
Lemma box_prune : moves box prune_queues.
Proof. apply box_quiet, quiet_prune. Qed.
Lemma box_access u c : moves box (require_access u c).
Proof. apply box_quiet, quiet_require_access. Qed.
Lemma box_no_legacy c : moves box (no_legacy_room c).
Proof. by intros s. Qed.
Hint Resolve box_on_relay box_on_directs box_on_accounts box_clock box_prune box_access
  box_no_legacy take_lease_ok give_back_lease_ok box_on_mailbox : moves.

Lemma box_lease id c m r : moves box (lease_prekey id c m r).
Proof. unfold lease_prekey. stay. Qed.
Lemma box_release id c m r k : moves box (release_unused_prekey_lease id c m r k).
Proof. unfold release_unused_prekey_lease. stay. Qed.
Lemma box_join id c : moves box (join_room id c).
Proof. unfold join_room. stay. Qed.
Lemma box_leave id c : moves box (leave_room id c).
Proof. unfold leave_room. stay. Qed.
Lemma box_open id u : moves box (open_direct id u).
Proof. unfold open_direct. stay. Qed.
Lemma box_update id v e pk k sg : moves box (update_identity_state id v e pk k sg).
Proof. unfold update_identity_state. stay. Qed.
Lemma box_wipe b : moves box (wipe_relay_state b).
Proof. intros s _. apply mailbox_ok_new. Qed.

Lemma box_route id p ev : moves box (route_encrypted_message_with_directory id p ev).
Proof.
  intros s Hs. destruct (route_encrypted_message_with_directory id p ev s) as [x s'] eqn:E.
  apply route_cases in E as [(e & _ & Q)|(client & fs & s0 & s1 & s2 & _ & _ & _ & _ & _ & Q & Had & ->)];
    [| |apply Hs]; unfold box_ok; simpl.
  - by eapply tidied_mailbox_ok; [apply Q|].
  - apply Had. by eapply tidied_mailbox_ok; [apply Q|].
Qed.
Lemma box_acknowledge id a : moves box (acknowledge_message id a).
Proof.
  unfold acknowledge_message. intros s Hs. unfold mbind, ST_bind.
  pose proof (quiet_check id a s) as Q.
  destruct (check_acknowledgement id a s) as [[[[[code u] i] b]|e] s1] eqn:Hc; simpl in Q;
    [|by eapply tidied_mailbox_ok; [apply Q|]].
  assert (mailbox_ok (ms_mailbox s1)) as Hm1 by (by eapply tidied_mailbox_ok; [apply Q|]).
  apply check_inv in Hc as (_ & Hfind & _).
  apply find_acknowledged_inv in Hfind as (q & f & Hq & Hi & -> & _).
  destruct (commit_acknowledgement _ _ _ _ _ s1) as [x s'] eqn:E.
  apply commit_cases in E as [(e & _ & ->)|(_ & acc & acc' & _ & _ & ->)]; [done|]. unfold box_ok. simpl.
  by eapply consume_frame_ok.
Qed.
Hint Resolve box_lease box_release box_join box_leave box_open box_update box_wipe box_route
  box_acknowledge moves_try_task : moves.

Lemma box_transaction id k c m t e answer body :
  moves box body → moves box (run_message_transaction id k c m t e answer body).
Proof. intros Hb. unfold run_message_transaction. stay. Qed.
Lemma box_frame id text frame : moves box (run_frame id text frame).
Proof.
  destruct frame; simpl; unfold active, broadcast_wipe; stay; auto using box_transaction with moves.
Qed.
Lemma box_handle id text : moves box (handle_frame id text).
Proof. unfold handle_frame. stay. apply box_frame. Qed.
Lemma box_inactivity n : moves box (inactivity_check n).
Proof. unfold inactivity_check. stay. Qed.
End mailbox.

(** ** The catalog of conversations *)

Definition conversations_of (u : string) (directs : gmap string DirectEntry) : Z :=
  map_sum (λ d, if direct_contains d u then 1 else 0) directs.

Record directs_ok (directs : gmap string DirectEntry) : Prop := mkDirectsOk {
  do_len : map_len directs ≤ MAX_DIRECT_CATALOG_ENTRIES;
  do_user u : conversations_of u directs ≤ MAX_DIRECT_CATALOG_PER_USER;
  do_entry id d : directs !! id = Some d → de_id d = id ∧ de_user_a d ≠ de_user_b d;
  do_pair id d id' d' u v :
    directs !! id = Some d → directs !! id' = Some d' → u ≠ v →
    direct_contains d u = true → direct_contains d v = true →
    direct_contains d' u = true → direct_contains d' v = true → id = id'
}.

Lemma directs_ok_empty : directs_ok ∅.
Proof.
  split; [done|intros u; unfold conversations_of; by rewrite map_sum_empty|..]; intros *;
    by rewrite lookup_empty.
Qed.

Section directs.
Context {HO : HashOrder}.

Lemma count_values {K V} `{Countable K} (p : V → bool) (m : gmap K V) :
  len (List.filter p (hash_values m)) = map_sum (λ v, if p v then 1 else 0) m.
Proof.
  rewrite <- map_sum_hash. induction (hash_values m) as [|v l IH]; [done|]. simpl.
  destruct (p v); rewrite ?len_cons, IH; done.
Qed.

(** Two different users in common, and the conversation is theirs. *)
Lemma contains_both d u v :
  u ≠ v → direct_contains d u = true → direct_contains d v = true →
  (de_user_a d = u ∧ de_user_b d = v) ∨ (de_user_a d = v ∧ de_user_b d = u).
Proof.
  intros Hne. unfold direct_contains. rewrite !orb_true_iff, !bool_decide_eq_true. naive_solver.
Qed.

Lemma find_or_open_ok sender peer id directs :
  sender ≠ peer → directs_ok directs → directs_ok (find_or_open sender peer id directs).2.
Proof.
  intros Hne [Hl Hu He Hp]. unfold find_or_open.
  destruct (List.find _ _) as [d|] eqn:Hf; [done|].
  assert (∀ i d, directs !! i = Some d → direct_contains d sender = true →
                 direct_contains d peer = true → False) as Hnone.
  { intros i d Hi H1 H2. eapply List.find_none in Hf; [|apply list_elem_of_In, elem_of_hash_values; eauto].
    by rewrite H1, H2 in Hf. }
  destruct (_ || _) eqn:Hfull; [done|]. split_bools. rewrite !count_values in *.
  fold (conversations_of sender directs) in *. fold (conversations_of peer directs) in *.
  split; simpl.
  - rewrite map_len_insert. unfold MAX_DIRECT_CATALOG_ENTRIES in *. destruct (contains_key _ _); lia.
  - intros u. specialize (Hu u). unfold conversations_of in *. rewrite map_sum_insert.
    assert (0 ≤ at_key (λ d, if direct_contains d u then 1 else 0) id directs) as Hnonneg.
    { unfold at_key. destruct (directs !! id) as [d|]; [|done]. by destruct (direct_contains d u). }
    unfold direct_contains at 3. simpl. unfold MAX_DIRECT_CATALOG_PER_USER in *.
    destruct (bool_decide (sender = u)) eqn:E1; split_bools; subst; simpl; [lia|].
    destruct (bool_decide (peer = u)) eqn:E2; split_bools; subst; simpl; lia.
  - intros i d [[<- <-]|[_ Hi]]%lookup_insert_Some; [done|by apply He].
  - intros i d i' d' u v [[<- <-]|[_ Hi]]%lookup_insert_Some [[<- <-]|[_ Hi']]%lookup_insert_Some
      Huv Hu1 Hv1 Hu2 Hv2; [done| | |by eapply Hp].
    + exfalso. destruct (contains_both _ u v Huv Hu1 Hv1) as [[<- <-]|[<- <-]]; simpl in *;
        by eapply Hnone.
    + exfalso. destruct (contains_both _ u v Huv Hu2 Hv2) as [[<- <-]|[<- <-]]; simpl in *;
        by eapply Hnone.
Qed.
End directs.

(** ** Everything else *)

Section parts.
Context {HO : HashOrder} {B64 : Base64} {ENV : RelayEnv} {JSON : SerdeJson} {FJ : FrameJson}.
Context {KEYS : Keys} {DRAWS : Draws} {CJ : ClientJson} {IDS : DirectIds}.
Context (max_rooms ttl : Z) (limits : AttachmentLimits).

Abbreviation ok := (relay_ok max_rooms ttl limits).
Definition parts_ok (s : Messenger) : Prop :=
  ok (ms_relay s) ∧ directs_ok (ms_direct_catalog s) ∧ ms_room_catalog s = ∅.
Abbreviation parts := (upholds parts_ok).

Lemma parts_on_relay {A} (h : Handler A) : preserves ok h → moves parts (on_relay h).
Proof.
  intros Hh s (Hr & ? & ?). specialize (Hh _ Hr). unfold on_relay.
  by destruct (h (ms_relay s)) as [x r].
Qed.
Lemma parts_on_mailbox {A} f : moves parts (@on_mailbox A f).
Proof. intros s Hs. unfold on_mailbox. by destruct (f (ms_mailbox s)). Qed.
Lemma parts_on_accounts {A} f : moves parts (@on_accounts A f).
Proof.
  intros s (Hr & ? & ?). unfold on_accounts. destruct (f (ms_accounts s)) as [x a]. simpl.
  split; [|done]. simpl. by eapply ok_same_parts; [..|exact Hr].
Qed.
Lemma parts_clock : moves parts clock.
Proof. apply parts_on_relay, keeps_tick. Qed.
Lemma parts_prune : moves parts prune_queues.
Proof. unfold prune_queues. apply moves_bind; [apply _|apply parts_clock|intros; apply parts_on_mailbox]. Qed.
Lemma parts_identity id : moves parts (on_relay (client_identity id)).
Proof. apply parts_on_relay, keeps_identity. Qed.
Lemma parts_identity_platform id : moves parts (on_relay (client_identity_and_platform id)).
Proof. apply parts_on_relay, keeps_identity_platform. Qed.

Lemma access_reachable n1 n2 n3 u chat c :
  reachable max_rooms ttl (ct_mls_rooms c) →
  reachable max_rooms ttl (ct_mls_rooms (conversation_access n1 n2 n3 u chat c).2).
Proof.
  intros Hr. assert (∀ t a, reachable max_rooms ttl a → reachable max_rooms ttl (prune_expired t a))
    as Hq by (intros t a Ha; by apply (reach_op _ _ _ (Query t))).
  unfold conversation_access, is_member, is_active_member, member_info, query.
  repeat case_match; simpl in *; simplify_eq; auto.
Qed.
Lemma parts_access n1 n2 n3 u c : moves parts (ask_access n1 n2 n3 u c).
Proof.
  intros s ([H1 H2 H3] & ? & ?). unfold ask_access.
  pose proof (access_reachable n1 n2 n3 u c (catalog s) H1) as Hr.
  destruct (conversation_access _ _ _ _ _ _) as [x c']. simpl in *. split; [|done]. by split.
Qed.
Lemma parts_no_legacy c : moves parts (no_legacy_room c).
Proof. by intros s. Qed.
Lemma parts_wipe b : moves parts (wipe_relay_state b).
Proof.
  intros s ([H1 H2 H3] & _ & _). unfold wipe_relay_state. split; [|split; [apply directs_ok_empty|done]].
  split; simpl.
  - by apply (reach_op _ _ _ Wipe).
  - eapply rtc_r; [exact H2|]. eexists. apply StepWipe.
  - set (ob := if b then _ else _).
    assert (queue_reachable ob) as Hob.
    { unfold ob. destruct b; [|done]. generalize (hash_keys (rl_clients (ms_relay s))). intros l.
      revert H3. generalize (rl_outbound (ms_relay s)). induction l as [|id l IH]; intros o Ho; [done|].
      apply IH. by apply (queue_next _ (OpControl id OutboundQueue.GlobalWipe)). }
    assert (set_clients ∅ ob = forget_clients (dom (ob_clients ob)) ob) as ->.
    { unfold forget_clients. f_equal. symmetry. apply map_empty. intros id. apply eq_None_not_Some.
      intros [c [Hc Hd]%retain_lookup_Some]. split_bools. apply Hd. by apply elem_of_dom_2 in Hc. }
    by apply (queue_next _ (OpForget (dom (ob_clients ob)))).
Qed.
Lemma parts_lift_bind {A B} (x : result string A) (k : A → Task B) :
  (∀ a, x = Ok a → moves parts (k a)) → moves parts (lift x ≫= k).
Proof. intros Hk s Hs. unfold mbind, ST_bind, lift. destruct x; [by apply Hk|done]. Qed.
Hint Resolve parts_on_mailbox parts_on_accounts parts_clock parts_prune parts_identity
  parts_identity_platform parts_access parts_no_legacy parts_wipe moves_or_revert
  moves_try_task : moves.

Lemma parts_require_access u c : moves parts (require_access u c).
Proof. unfold require_access. stay. Qed.
Hint Resolve parts_require_access parts_on_relay : moves.

Lemma keeps_deliver platform joined clients f : preserves ok (deliver platform joined clients f).
Proof. unfold deliver. keep. Qed.
Lemma keeps_fan_out chat platform frames : preserves ok (fan_out chat platform frames).
Proof. intros r. apply preserves_for_each. intros f. apply keeps_deliver. Qed.
Lemma keeps_publish_direct id code chat msg :
  preserves ok (publish_staged_attachment id code chat msg).
Proof. unfold publish_staged_attachment. keep. Qed.
Lemma keeps_announce d : preserves ok (announce_direct d).
Proof.
  intros r. apply preserves_for_each. intros [id record]. apply keeps_send.
Qed.
Lemma keeps_set_rooms f : preserves ok (modify (λ r, set_rl_rooms (f r) r)).
Proof. intros r Hr. by eapply ok_same_parts; [..|exact Hr]. Qed.
Lemma keeps_next_tick : preserves ok (λ r, (Ok (rl_ticks r), set_rl_ticks (S (rl_ticks r)) r)).
Proof. intros r Hr. by eapply ok_same_parts; [..|exact Hr]. Qed.
Hint Resolve keeps_fan_out keeps_publish_direct keeps_announce keeps_set_rooms keeps_next_tick
  keeps_identity keeps_identity_platform keeps_begin_transaction keeps_finish_transaction
  handle_mls_frame_keeps : keeps.
Hint Extern 2 (preserves _ _) => solve [auto with keeps] : moves.

Lemma parts_lease id c m r : moves parts (lease_prekey id c m r).
Proof. unfold lease_prekey. stay. Qed.
Lemma parts_release id c m r k : moves parts (release_unused_prekey_lease id c m r k).
Proof. unfold release_unused_prekey_lease. stay. Qed.
Lemma parts_admit_leases rs es c m u : moves parts (admit_prekey_leases rs es c m u).
Proof. unfold admit_prekey_leases. stay. Qed.
Lemma parts_authenticate id p : moves parts (authenticate_sender id p).
Proof. unfold authenticate_sender. stay. Qed.
Hint Resolve parts_admit_leases parts_authenticate : moves.
Lemma parts_prepare id p ev : moves parts (prepare_message id p ev).
Proof. unfold prepare_message. stay. Qed.
Lemma parts_admit p code sender platform frames :
  moves parts (admit_message p code sender platform frames).
Proof.
  unfold admit_message. stay; (apply moves_or_revert; [auto with moves|by intros s (? & ? & ?)]).
Qed.
Hint Resolve parts_prepare parts_admit : moves.
Lemma parts_route id p ev : moves parts (route_encrypted_message_with_directory id p ev).
Proof. unfold route_encrypted_message_with_directory. stay. Qed.
Lemma parts_check id a : moves parts (check_acknowledgement id a).
Proof. unfold check_acknowledgement. stay. Qed.
Hint Resolve parts_check : moves.
Lemma parts_acknowledge id a : moves parts (acknowledge_message id a).
Proof. unfold acknowledge_message, commit_acknowledgement. stay. Qed.
Lemma parts_update id v e pk k sg : moves parts (update_identity_state id v e pk k sg).
Proof. unfold update_identity_state. stay. Qed.
Lemma parts_join id c : moves parts (join_room id c).
Proof. unfold join_room. stay. apply parts_on_relay. keep. Qed.
Lemma parts_leave id c : moves parts (leave_room id c).
Proof. unfold leave_room. stay. Qed.
Lemma parts_open id u : moves parts (open_direct id u).
Proof.
  unfold open_direct. apply moves_bind; [apply _|auto with moves|intros [code sender]].
  apply parts_lift_bind. intros [] _. apply moves_read. intros s.
  apply parts_lift_bind. intros peer Hp%ok_or_Ok. apply bind_Some in Hp as (a & _ & Hp).
  case_bool_decide as Hne; [done|]. injection Hp as <-.
  apply moves_bind; [apply _|auto with moves|intros n]. apply moves_bind; [apply _| |auto with moves].
  intros s1 (? & Hd & ?). unfold on_directs.
  pose proof (find_or_open_ok sender (ra_username a) ("dm_" +:+ fresh_uuid n) _ (not_eq_sym Hne) Hd) as Hok.
  by destruct (find_or_open _ _ _ _) as [x ds].
Qed.
Hint Resolve parts_lease parts_release parts_route parts_acknowledge parts_update parts_join
  parts_leave parts_open : moves.

Lemma parts_transaction id k c m t e answer body :
  (∀ b, preserves ok (answer b)) → moves parts body →
  moves parts (run_message_transaction id k c m t e answer body).
Proof. intros Ha Hb. unfold run_message_transaction. stay. Qed.
Lemma parts_frame id text frame : moves parts (run_frame id text frame).
Proof.
  destruct frame; simpl; unfold active, broadcast_wipe; stay;
    apply parts_transaction; auto with moves; intros b; apply keeps_send_result.
Qed.
Lemma parts_handle id text : moves parts (handle_frame id text).
Proof. unfold handle_frame. stay. apply parts_frame. Qed.
Lemma parts_inactivity n : moves parts (inactivity_check n).
Proof. unfold inactivity_check. stay. Qed.
End parts.

(** ** Runs *)

Section runs.
Context {HO : HashOrder} {B64 : Base64} {ENV : RelayEnv} {JSON : SerdeJson} {FJ : FrameJson}.
Context {KEYS : Keys} {DRAWS : Draws} {CJ : ClientJson} {IDS : DirectIds}.

(** The state of [AppState::new]. *)
Definition messenger_new (max_rooms pending_ttl receipt_ttl now : Z) : Messenger :=
  mkMessenger (relay_new max_rooms pending_ttl receipt_ttl now) mailbox_new ∅ ∅.

(** A frame of a client, a turn of the inactivity watcher, or any other event of
    the relay: connections, writers, attachment requests and logins. *)
Inductive messenger_step (limits : AttachmentLimits) (s : Messenger) : Messenger → Prop :=
| StepFrame id text : messenger_step limits s (handle_frame id text s).2
| StepInactivity limit_ms : messenger_step limits s (inactivity_check limit_ms s).2
| StepEvent r : relay_step limits (ms_relay s) r → messenger_step limits s (set_ms_relay r s).

Lemma messenger_step_ok max_rooms ttl limits s s' :
  box_ok s → parts_ok max_rooms ttl limits s → messenger_step limits s s' →
  box_ok s' ∧ parts_ok max_rooms ttl limits s'.
Proof.
  intros Hb Hp [id text|n|r Hr].
  - split; [by apply box_handle|by apply parts_handle].
  - split; [by apply box_inactivity|by apply parts_inactivity].
  - destruct Hp as (Hk & ? & ?). split; [done|]. split; [|done]. by eapply relay_step_ok.
Qed.
End runs.

(** The relay stays well formed.  Whatever frames clients have sent since its
    start (messages, acknowledgements, leases, identity states, conversations,
    rooms, wipes), with whatever connections, writer steps, attachment requests,
    logins and turns of the inactivity watcher between them, in whatever order
    and with whatever clock readings: its rooms and attachments are well formed
    and within their limits, its outbound counters are exact, the bytes of the
    waiting frames are counted exactly and within 256 MiB, every queue holds
    between 1 and 500 messages of its conversation, leases and identifiers are
    within their limits, in total and for each recipient and sender, and two
    users share at most one conversation. *)
Theorem messenger_invariant {HO : HashOrder} {B64 : Base64} {ENV : RelayEnv}
    {JSON : SerdeJson} {FJ : FrameJson} {KEYS : Keys} {DRAWS : Draws} {CJ : ClientJson}
    {IDS : DirectIds} (max_rooms pending_ttl receipt_ttl now : Z) (limits : AttachmentLimits)
    (s : Messenger) :
  limits_sane limits →
  rtc (messenger_step limits) (messenger_new max_rooms pending_ttl receipt_ttl now) s →
  authority_ok (rl_mls_rooms (ms_relay s)) ∧ store_ok limits (rl_attachments (ms_relay s)) ∧
  outbound_ok (rl_outbound (ms_relay s)) ∧ mailbox_ok (ms_mailbox s) ∧
  directs_ok (ms_direct_catalog s) ∧ ms_room_catalog s = ∅.
Proof.
  intros Hl Hrun.
  assert (box_ok s ∧ parts_ok max_rooms pending_ttl limits s) as [Hb ([H1 H2 H3] & Hd & Hr)].
  { refine (rtc_ind_r (λ s, box_ok s ∧ parts_ok max_rooms pending_ttl limits s) _ _ _ _ Hrun).
    - split; [apply mailbox_ok_new|]. split; [|split; [apply directs_ok_empty|done]].
      split; [apply reach_new|apply rtc_refl|apply queue_start].
    - intros ? ? _ Hs [? ?]. by eapply messenger_step_ok. }
  apply reachable_ok in H1 as [H1 _]. apply queue_reachable_ok in H3.
  by destruct (attachments_reachable_ok _ _ Hl H2) as [H4 _].
Qed.

(** ** Frames of strangers, and what is left after a wipe *)

Section strangers.
Context {HO : HashOrder} {B64 : Base64} {ENV : RelayEnv} {JSON : SerdeJson} {FJ : FrameJson}.
Context {KEYS : Keys} {DRAWS : Draws} {CJ : ClientJson} {IDS : DirectIds}.

(** Only the clock moved and the mailbox was tidied. *)
Record idle (s s' : Messenger) : Prop := mkIdle {
  il_mailbox : tidied (λ _, True) pending_message_ttl_ms (ms_mailbox s) (ms_mailbox s');
  il_relay : ∃ n, ms_relay s' = set_rl_ticks n (ms_relay s);
  il_rooms : ms_room_catalog s' = ms_room_catalog s;
  il_directs : ms_direct_catalog s' = ms_direct_catalog s
}.
#[export] Instance idle_preorder : PreOrder idle.
Proof.
  split.
  - intros s. split; try done. exists (rl_ticks (ms_relay s)). by destruct (ms_relay s).
  - intros s1 s2 s3 [? [n E] ? ?] [? [n' E'] ? ?]. split; [by etrans| |congruence..].
    exists n'. by rewrite E', E.
Qed.

(** The task is refused without any other effect. *)
Definition refuses {A} (t : Task A) (s : Messenger) : Prop :=
  ∃ e s', t s = (Err e, s') ∧ idle s s'.
Lemma refuses_here {A} (t : Task A) s e : t s = (Err e, s) → refuses t s.
Proof. intros E. by exists e, s. Qed.
Lemma refuses_bind {A B} (t : Task A) (k : A → Task B) s : refuses t s → refuses (t ≫= k) s.
Proof. intros (e & s' & E & H). exists e, s'. split; [|done]. unfold mbind, ST_bind. by rewrite E. Qed.
Lemma refuses_lift {A B} (x : result string A) (k : A → Task B) s :
  (∀ a, refuses (k a) s) → refuses (lift x ≫= k) s.
Proof.
  intros Hk. destruct x as [a|e]; [apply Hk|]. by exists e, s.
Qed.
Lemma refuses_get {B} (k : Messenger → Task B) s : refuses (k s) s → refuses (get ≫= k) s.
Proof. done. Qed.
(** A first step that only idles. *)
Lemma refuses_after {A B} (t : Task A) (k : A → Task B) s a s1 :
  t s = (Ok a, s1) → idle s s1 → refuses (k a) s1 → refuses (t ≫= k) s.
Proof.
  intros E H1 (e & s' & E' & H2). exists e, s'. split; [|by etrans]. unfold mbind, ST_bind.
  by rewrite E.
Qed.

Context (id : Uuid).
Definition stranger (s : Messenger) : Prop := rl_clients (ms_relay s) !! id = None.
Lemma stranger_identity s : stranger s → refuses (on_relay (client_identity id)) s.
Proof.
  intros Hs. eapply refuses_here. unfold on_relay, client_identity, find_client, mbind, ST_bind.
  rewrite Hs. simpl. by destruct s.
Qed.
Lemma stranger_identity_platform s :
  stranger s → refuses (on_relay (client_identity_and_platform id)) s.
Proof.
  intros Hs. eapply refuses_here.
  unfold on_relay, client_identity_and_platform, find_client, mbind, ST_bind.
  rewrite Hs. simpl. by destruct s.
Qed.

(** The same for handlers: nothing at all changes. *)
Definition denies {A} (h : Handler A) (r : Relay) : Prop := ∃ e, h r = (Err e, r).
Lemma denies_bind {A B} (h : Handler A) (k : A → Handler B) r : denies h r → denies (h ≫= k) r.
Proof. intros [e E]. exists e. unfold mbind, ST_bind. by rewrite E. Qed.
Lemma denies_lift {A B} (x : result string A) (k : A → Handler B) r :
  (∀ a, denies (k a) r) → denies (lift x ≫= k) r.
Proof. intros Hk. destruct x as [a|e]; [apply Hk|by exists e]. Qed.
Lemma denies_identity r : rl_clients r !! id = None → denies (client_identity id) r.
Proof. intros Hr. eexists. unfold client_identity, find_client, mbind, ST_bind. by rewrite Hr. Qed.
Lemma denies_identity_platform r :
  rl_clients r !! id = None → denies (client_identity_and_platform id) r.
Proof.
  intros Hr. eexists. unfold client_identity_and_platform, find_client, mbind, ST_bind.
  by rewrite Hr.
Qed.
Lemma denies_begin k c m t r :
  rl_clients r !! id = None → denies (begin_recoverable_transaction id k c m t) r.
Proof. intros Hr. by apply denies_bind, denies_identity. Qed.
Lemma denies_mls text frame r : rl_clients r !! id = None → denies (handle_mls_frame id text frame) r.
Proof.
  intros Hr. destruct frame; cbn [handle_mls_frame]; apply denies_lift; intros _;
    try (apply denies_bind; by apply denies_bind, denies_identity);
    unfold run_transaction; (destruct (negb _); [by eexists|by apply denies_bind, denies_begin]).
Qed.

Lemma refuses_denied {A} (h : Handler A) s : denies h (ms_relay s) → refuses (on_relay h) s.
Proof. intros [e E]. apply refuses_here with e. unfold on_relay. rewrite E. by destruct s. Qed.

Lemma idle_prune s : ∃ s1, prune_queues s = (Ok tt, s1) ∧ idle s s1 ∧ (stranger s → stranger s1).
Proof.
  unfold prune_queues, clock, on_relay, on_mailbox, tick, modify, mbind, ST_bind. simpl.
  eexists. split; [done|]. split; [|done].
  split; simpl; [by apply expire_frames|by eexists|done|done].
Qed.

Lemma stranger_authenticate p s : stranger s → refuses (authenticate_sender id p) s.
Proof. intros Hs. by apply refuses_bind, stranger_identity_platform. Qed.
Lemma stranger_prepare p ev s : stranger s → refuses (prepare_message id p ev) s.
Proof.
  intros Hs. unfold prepare_message. apply refuses_get. do 5 (apply refuses_lift; intros ?).
  by apply refuses_bind, stranger_authenticate.
Qed.
Lemma stranger_route p ev s :
  stranger s → refuses (route_encrypted_message_with_directory id p ev) s.
Proof. intros Hs. by apply refuses_bind, stranger_prepare. Qed.
Lemma stranger_acknowledge a s : stranger s → refuses (acknowledge_message id a) s.
Proof.
  intros Hs. apply refuses_bind. unfold check_acknowledgement.
  destruct (idle_prune s) as (s1 & E & Hi & Hs1). eapply refuses_after; [exact E|done|].
  apply refuses_lift. intros _. by apply refuses_bind, stranger_identity, Hs1.
Qed.
Lemma stranger_answer frame s : stranger s → refuses (on_relay (send_result id frame)) s.
Proof.
  intros Hs. unfold refuses, on_relay, send_result, send_client_result.
  unfold stranger, rl_clients in Hs. rewrite Hs. eexists _, _. split; [done|].
  split; try done. exists (S (rl_ticks (ms_relay s))). by destruct s as [[] ? ? ?].
Qed.

Lemma stranger_transaction k c m t e answer body s :
  stranger s → (∀ b s, stranger s → refuses (on_relay (answer b)) s) → refuses body s →
  refuses (run_message_transaction id k c m t e answer body) s.
Proof.
  intros Hs Ha (e' & s1 & E & Hi). unfold run_message_transaction.
  destruct (valid_chat_id m && valid_chat_id c).
  { by apply refuses_bind, refuses_bind, refuses_denied, denies_begin. }
  eapply refuses_after; [done|done|]. eapply (refuses_after _ _ _ (Err e') s1).
  { unfold try_task. by rewrite E. }
  { done. }
  assert (stranger s1) as Hs1.
  { destruct Hi as [_ [n En] _ _]. unfold stranger. by rewrite En. }
  eapply refuses_after; [done|done|]. destruct (valid_chat_id m).
  - by apply refuses_bind, Ha.
  - eapply refuses_after; [done|done|]. eapply refuses_after; [done|done|]. by exists e', s1.
Qed.

(** The frames that need no connection. *)
Definition anonymous (frame : ClientFrame.t) : bool :=
  match frame with
  | ClientFrame.Activity | ClientFrame.Leave _ | ClientFrame.Dummy _ _ => true
  | _ => false
  end.

Lemma stranger_frame text frame s :
  stranger s → anonymous frame = false → refuses (run_frame id text frame) s.
Proof.
  intros Hs Hf. destruct frame; try done; cbn [run_frame]; unfold active.
  - apply refuses_bind. unfold lease_prekey. apply refuses_lift. intros _.
    by apply refuses_bind, stranger_identity.
  - apply refuses_bind. unfold release_unused_prekey_lease. apply refuses_lift. intros _.
    by apply refuses_bind, stranger_identity.
  - destruct (contains_key chat_id (ms_room_catalog s)) eqn:E.
    + apply refuses_bind. eapply refuses_here. unfold no_legacy_room. by rewrite E.
    + eapply (refuses_after _ _ _ tt s); [unfold no_legacy_room; by rewrite E|done|].
      by apply refuses_bind, refuses_bind, stranger_identity_platform.
  - apply stranger_transaction; [done| |by apply stranger_route].
    intros b s' Hs'. by apply stranger_answer.
  - apply stranger_transaction; [done| |by apply stranger_acknowledge].
    intros b s' Hs'. by apply stranger_answer.
  - by apply refuses_bind, refuses_bind, stranger_identity.
  - unfold broadcast_wipe. apply refuses_bind, refuses_get, refuses_bind.
    eapply refuses_here. unfold contains_key. by rewrite Hs.
  - by eapply refuses_here.
  - by eapply refuses_here.
  - by apply refuses_bind, refuses_bind, stranger_identity.
  - by apply refuses_denied, denies_mls.
Qed.
End strangers.

(** ** After a wipe *)

Section wiped.
Context {HO : HashOrder} {B64 : Base64} {ENV : RelayEnv} {JSON : SerdeJson} {FJ : FrameJson}.
Context {KEYS : Keys} {DRAWS : Draws} {CJ : ClientJson} {IDS : DirectIds}.

(** Nothing of any account is left. *)
Record blank (s : Messenger) : Prop := mkBlank {
  bl_clients : rl_clients (ms_relay s) = ∅;
  bl_accounts : ms_accounts s = ∅;
  bl_sessions : rl_sessions (ms_relay s) = ∅;
  bl_rooms : rooms (rl_mls_rooms (ms_relay s)) = ∅;
  bl_attachments : rl_attachments (ms_relay s) = store_new;
  bl_receipts : receipts (rl_transaction_receipts (ms_relay s)) = ∅;
  bl_mailbox : ms_mailbox s = mailbox_new;
  bl_directs : ms_direct_catalog s = ∅;
  bl_catalog : ms_room_catalog s = ∅
}.

Lemma hash_iter_empty {K V} `{Countable K} : hash_iter (∅ : gmap K V) = [].
Proof. apply Permutation_nil. by rewrite hash_iter_perm, map_to_list_empty. Qed.
Lemma retain_empty {K V} `{Countable K} keep : retain keep (∅ : gmap K V) = ∅.
Proof. unfold retain. apply map_filter_empty. Qed.
Lemma tidied_new T ttl m : tidied T ttl mailbox_new m → m = mailbox_new.
Proof.
  intros [Q L _ I _ P]. destruct (P pending_ok_new) as [Hb _ Hq].
  assert (mb_pending m = ∅) as Hp.
  { apply map_empty. intros k. destruct (mb_pending m !! k) as [q|] eqn:Hk; [|done].
    destruct (Q k) as (keep & E & _). rewrite Hk in E. simpl in E.
    destruct (Hq k q Hk) as [Hne _]. by rewrite E in Hne. }
  rewrite Hp, map_sum_empty in Hb.
  assert (mb_prekey_leases m = ∅) as El by (by apply (anti_symm (⊆)); [|apply map_empty_subseteq]).
  assert (mb_replay_ids m = ∅) as Ei by (by apply (anti_symm (⊆)); [|apply map_empty_subseteq]).
  destruct m. simpl in *. by subst.
Qed.

Lemma blank_idle s s' : blank s → idle s s' → blank s'.
Proof.
  intros [? ? ? ? ? ? Hm ? ?] [Ht [n E] Er Ed]. rewrite Hm in Ht. apply tidied_new in Ht.
  split; unfold ms_accounts in *; rewrite ?E, ?Er, ?Ed; try done.
Qed.
Lemma blank_stranger id s : blank s → stranger id s.
Proof. intros H. unfold stranger. by rewrite (bl_clients s H). Qed.

Lemma blank_frame id text frame s :
  blank s → blank (run_frame id text frame s).2 ∧
  ((run_frame id text frame s).1 = Ok tt → anonymous frame = true).
Proof.
  intros Hb. destruct (anonymous frame) eqn:Hf.
  - split; [|done]. destruct frame; try done; cbn [run_frame].
    + unfold on_relay, touch_activity, tick, modify, mbind, ST_bind. simpl. by destruct Hb.
    + unfold active, leave_room, no_legacy_room, on_relay, touch_activity, tick, modify, mbind, ST_bind.
      destruct (reject_if _ _); simpl; [by destruct Hb|done].
  - destruct (stranger_frame id text frame s (blank_stranger id s Hb) Hf) as (e & s' & -> & Hi).
    split; [by eapply blank_idle|done].
Qed.
Lemma blank_handle id text s :
  blank s → blank (handle_frame id text s).2 ∧
  ((handle_frame id text s).1 = Ok tt →
   ∃ frame, parse_frame text = Ok frame ∧ anonymous frame = true).
Proof.
  intros Hb. unfold handle_frame, mbind, ST_bind, lift.
  destruct (validate_inbound_frame_size_before_parse _); [|done].
  destruct (parse_frame text) as [frame|]; [|done].
  destruct (validate_inbound_message_padding _ _); [|done].
  destruct (blank_frame id text frame s Hb) as [H1 H2]. split; [done|]. eauto.
Qed.

Lemma wipe_blank b s : blank (wipe_relay_state b s).2.
Proof. by split. Qed.
End wiped.

(** C15: a wipe is final.  When a connected client's wipe is accepted, no client,
    account, session, room, attachment, receipt, waiting message, lease,
    identifier or conversation is left; no sequence of frames brings any of them
    back; and until a new login the relay accepts from anyone only the frames
    that concern no account: activity, leaving and padding. *)
Theorem wipe_is_final {HO : HashOrder} {B64 : Base64} {ENV : RelayEnv}
    {JSON : SerdeJson} {FJ : FrameJson} {KEYS : Keys} {DRAWS : Draws} {CJ : ClientJson}
    {IDS : DirectIds} (id : Uuid) (s s1 s2 : Messenger) :
  broadcast_wipe id s = (Ok tt, s1) →
  rtc (λ s s', ∃ id text, s' = (handle_frame id text s).2) s1 s2 →
  blank s2 ∧
  ∀ id' text, (handle_frame id' text s2).1 = Ok tt →
    ∃ frame, parse_frame text = Ok frame ∧ anonymous frame = true.
Proof.
  intros Hw Hrun. assert (blank s1) as H1.
  { unfold broadcast_wipe, get, lift, mbind, ST_bind in Hw. destruct (reject_if _ _); [|done].
    pose proof (wipe_blank true s) as Hb. by rewrite Hw in Hb. }
  assert (blank s2) as H2.
  { clear Hw. revert H1. induction Hrun as [|? ? ? (i & t & ->) ? IH]; [done|]. intros Hb. apply IH.
    by destruct (blank_handle i t _ Hb). }
  split; [done|]. intros i t. by destruct (blank_handle i t s2 H2).
Qed.

(** ** Transactional frames run once *)

(** Everything but a wipe keeps what the clock and the receipts keep. *)
Section kept.
Context {HO : HashOrder} {B64 : Base64} {ENV : RelayEnv} {JSON : SerdeJson} {FJ : FrameJson}.
Context {KEYS : Keys} {DRAWS : Draws} {CJ : ClientJson} {IDS : DirectIds}.
Context (R : nat → TransactionReceiptStore → Prop).
Context (R_tick : ∀ n s, R n s → R (S n) s).
Context (R_begin : ∀ key f n s, R n s → R (S n) (begin sha256_text key f (now_ms n) s).2).
Context (R_finish : ∀ tk a n s, R n s → R (S n) (finish tk a (now_ms n) s).2).

Definition messenger_kept (s : Messenger) : Prop := receipts_kept R (ms_relay s).
Abbreviation kept := (receipts_kept R).
Abbreviation stores := (upholds messenger_kept).

Lemma stores_on_relay {A} (h : Handler A) : preserves kept h → moves stores (on_relay h).
Proof. intros Hh s Hs. specialize (Hh _ Hs). unfold on_relay. by destruct (h (ms_relay s)). Qed.
Lemma stores_on_mailbox {A} f : moves stores (@on_mailbox A f).
Proof. intros s Hs. unfold on_mailbox. by destruct (f (ms_mailbox s)). Qed.
Lemma stores_on_accounts {A} f : moves stores (@on_accounts A f).
Proof. intros s Hs. unfold on_accounts. by destruct (f (ms_accounts s)). Qed.
Lemma stores_on_directs {A} f : moves stores (@on_directs A f).
Proof. intros s Hs. unfold on_directs. by destruct (f (ms_direct_catalog s)). Qed.
Lemma stores_access n1 n2 n3 u c : moves stores (ask_access n1 n2 n3 u c).
Proof. intros s Hs. unfold ask_access. by destruct (conversation_access _ _ _ _ _ _). Qed.
Lemma stores_no_legacy c : moves stores (no_legacy_room c).
Proof. by intros s. Qed.
Lemma kept_set_rooms f : preserves kept (modify (λ r, set_rl_rooms (f r) r)).
Proof. by intros r. Qed.
Lemma kept_next_tick : preserves kept (λ r, (Ok (rl_ticks r), set_rl_ticks (S (rl_ticks r)) r)).
Proof. intros r Hr. by apply R_tick. Qed.
Hint Resolve stores_on_mailbox stores_on_accounts stores_on_directs stores_access stores_no_legacy
  stores_on_relay moves_or_revert moves_try_task : moves.
Hint Resolve kept_tick kept_touch kept_find_client kept_send kept_send_result kept_on_attachments
  kept_identity kept_identity_platform kept_set_rooms kept_next_tick kept_begin kept_finish
  kept_frame : keeps.
Hint Extern 2 (preserves _ _) => solve [auto with keeps] : moves.

Lemma kept_fan_out chat platform frames : preserves kept (fan_out chat platform frames).
Proof. intros r. apply preserves_for_each. intros f. unfold deliver. keep. Qed.
Lemma kept_announce d : preserves kept (announce_direct d).
Proof. intros r. apply preserves_for_each. intros [id record]. apply kept_send. Qed.
Lemma kept_publish id code chat msg : preserves kept (publish_staged_attachment id code chat msg).
Proof. unfold publish_staged_attachment. keep. Qed.
Hint Resolve kept_fan_out kept_announce kept_publish : keeps.

Lemma stores_clock : moves stores clock.
Proof. by apply stores_on_relay, kept_tick. Qed.
Hint Resolve stores_clock : moves.
Lemma stores_prune : moves stores prune_queues.
Proof. unfold prune_queues. stay. Qed.
Lemma stores_require_access u c : moves stores (require_access u c).
Proof. unfold require_access. stay. Qed.
Hint Resolve stores_prune stores_require_access : moves.
Lemma stores_route id p ev : moves stores (route_encrypted_message_with_directory id p ev).
Proof.
  unfold route_encrypted_message_with_directory, prepare_message, authenticate_sender,
    admit_prekey_leases, admit_message. stay;
    (apply moves_or_revert; [auto with moves|by intros s]).
Qed.
Lemma stores_acknowledge id a : moves stores (acknowledge_message id a).
Proof. unfold acknowledge_message, check_acknowledgement, commit_acknowledgement. stay. Qed.
Hint Resolve stores_route stores_acknowledge : moves.
Lemma stores_transaction id k c m t e answer body :
  (∀ b, preserves kept (answer b)) → moves stores body →
  moves stores (run_message_transaction id k c m t e answer body).
Proof. intros Ha Hb. unfold run_message_transaction. stay. Qed.

Lemma stores_frame id text frame :
  frame ≠ ClientFrame.GlobalWipe → moves stores (run_frame id text frame).
Proof.
  intros Hf. destruct frame; simpl; try done;
    unfold active, lease_prekey, release_unused_prekey_lease, join_room, leave_room, open_direct,
      update_identity_state; stay.
  - apply stores_on_relay. keep.
  - apply stores_transaction; auto with moves. intros b. by apply kept_send_result.
  - apply stores_transaction; auto with moves. intros b. by apply kept_send_result.
Qed.

(** A frame or a turn of the watcher keeps the receipts, or wipes everything: a
    client asked for it, or nobody was active for too long. *)
Inductive wipes (s : Messenger) : Messenger → Prop :=
| WipedByFrame id text :
    parse_frame text = Ok ClientFrame.GlobalWipe → (handle_frame id text s).1 = Ok tt →
    wipes s (handle_frame id text s).2
| WipedByWatcher limit_ms :
    limit_ms ≤ saturating_sub (now_ms (rl_ticks (ms_relay s))) (rl_last_activity_ms (ms_relay s)) →
    wipes s (inactivity_check limit_ms s).2.

Lemma wipe_frame_cases id text s :
  parse_frame text = Ok ClientFrame.GlobalWipe →
  (handle_frame id text s).2 = s ∨ wipes s (handle_frame id text s).2.
Proof.
  intros Hp. pose proof (WipedByFrame s id text Hp) as Hw. revert Hw.
  unfold handle_frame, mbind, ST_bind, lift. rewrite Hp.
  destruct (validate_inbound_frame_size_before_parse _); [|by left]. simpl.
  unfold active, broadcast_wipe, get, lift, mbind, ST_bind. destruct (reject_if _ _); [|by left].
  intros Hw. right. by apply Hw.
Qed.

Lemma stores_handle id text s :
  messenger_kept s →
  messenger_kept (handle_frame id text s).2 ∨ wipes s (handle_frame id text s).2.
Proof.
  intros Hs. destruct (parse_frame text) as [frame|] eqn:Hp.
  2:{ left. unfold handle_frame, mbind, ST_bind, lift. rewrite Hp.
      by destruct (validate_inbound_frame_size_before_parse _). }
  destruct frame.
  9: { destruct (wipe_frame_cases id text s Hp) as [->|]; auto. }
  all: left; unfold handle_frame, mbind, ST_bind, lift; rewrite Hp;
    (destruct (validate_inbound_frame_size_before_parse _); [|done]);
    (destruct (validate_inbound_message_padding _ _); [|done]); by apply stores_frame.
Qed.
Lemma stores_inactivity n s :
  messenger_kept s →
  messenger_kept (inactivity_check n s).2 ∨ wipes s (inactivity_check n s).2.
Proof.
  intros Hs. pose proof (WipedByWatcher s n) as Hw. revert Hw.
  unfold inactivity_check, clock, on_relay, tick, get, mbind, ST_bind. simpl.
  case_bool_decide; [by auto|]. left. by apply R_tick.
Qed.
Lemma kept_event limits r r' : kept r → relay_step limits r r' → kept r'.
Proof.
  intros Hr Hs. destruct Hs; try done.
  - by apply kept_frame.
  - by apply kept_initial_snapshot.
  - by apply kept_cleanup.
Qed.

Lemma wipes_blank s s' : wipes s s' → blank s'.
Proof.
  intros [id text Hp Hok|n Hn].
  - revert Hok. unfold handle_frame, mbind, ST_bind, lift. rewrite Hp.
    destruct (validate_inbound_frame_size_before_parse _); [|done]. simpl.
    unfold active, broadcast_wipe, get, lift, mbind, ST_bind. destruct (reject_if _ _); [|done].
    intros _. by split.
  - unfold inactivity_check, clock, on_relay, tick, get, mbind, ST_bind. simpl.
    rewrite bool_decide_true by done. by split.
Qed.

(** Everything was wiped on the way. *)
Definition wiped_between (limits : AttachmentLimits) (s1 s : Messenger) : Prop :=
  ∃ sa sb, rtc (messenger_step limits) s1 sa ∧ wipes sa sb ∧ blank sb ∧
           rtc (messenger_step limits) sb s.
Lemma run_kept limits s1 s :
  messenger_kept s1 → rtc (messenger_step limits) s1 s →
  wiped_between limits s1 s ∨ messenger_kept s.
Proof.
  intros H1 Hr. refine (rtc_ind_r (λ s, wiped_between limits s1 s ∨ messenger_kept s) _ _ _ _ Hr);
    [by right|].
  intros s2 s3 H12 Hstep [(sa & sb & ? & ? & ? & ?)|Hs2].
  { left. exists sa, sb. split_and!; [done..|]. by eapply rtc_r. }
  assert (messenger_kept s3 ∨ wipes s2 s3) as [|Hw]; [|by right|].
  { destruct Hstep as [i t|n|r' Hr'];
      [by apply stores_handle|by apply stores_inactivity|left; by eapply kept_event]. }
  left. exists s2, s3. split_and!; [done..|by eapply wipes_blank|done].
Qed.
End kept.

Section once.
Context {HO : HashOrder} {B64 : Base64} {ENV : RelayEnv} {JSON : SerdeJson} {FJ : FrameJson}.
Context {KEYS : Keys} {DRAWS : Draws} {CJ : ClientJson} {IDS : DirectIds}.

(** The part of a room frame in the whole handler. *)
Lemma room_frame_run sender text frame s :
  parse_frame text = Ok (ClientFrame.Mls frame) →
  handle_frame sender text s =
    match validate_inbound_frame_size_before_parse (text_bytes text) with
    | Ok _ => on_relay (handle_mls_frame sender text frame) s
    | Err e => (Err e, s)
    end.
Proof.
  intros Hp. unfold handle_frame, mbind, ST_bind, lift. rewrite Hp.
  by destruct (validate_inbound_frame_size_before_parse _).
Qed.

(** What an answer touches. *)
Record only_answered (sender : Uuid) (r r' : Relay) : Prop := mkAnswered {
  an_rooms : rl_mls_rooms r' = rl_mls_rooms r;
  an_attachments : rl_attachments r' = rl_attachments r;
  an_accounts : rl_accounts r' = rl_accounts r;
  an_outbound : only sender (rl_outbound r) (rl_outbound r')
}.
Lemma answer_only sender frame acc r : only_answered sender r (frame_answer sender frame acc r).2.
Proof.
  assert (∀ f, only_answered sender r (send_result sender f r).2) as H.
  { intros f. unfold send_result. pose proof (only_send_result (Z.of_nat (rl_ticks r))
      (result_delivered (rl_ticks r)) sender f (rl_outbound r)) as Ho.
    destruct (send_client_result _ _ _ _ _). by split. }
  destruct frame; simpl; try apply H; by split.
Qed.

(** C25: a commit, application or snapshot frame runs once.  When the relay has
    run it for an account and holds its receipt, then whatever comes in between
    (messages, acknowledgements, leases, other room frames, connections, requests,
    from anybody), the same frame from any connection of the account is answered
    with the outcome of that first run, as long as the clock stays within the
    lifetime of receipts; the rooms, the attachments, the accounts, the mailbox, the
    conversations and everybody else's queues see nothing of it.  The one exception
    is a wipe in between, which leaves nothing at all. *)
Theorem frame_runs_once limits sender sender' text frame kind room message client client' lo
    (s0 s1 s : Messenger) :
  let r0 := ms_relay s0 in
  let r := ms_relay s in
  let key := mkTransactionKey (cl_code_id client) kind room message in
  parse_frame text = Ok (ClientFrame.Mls frame) →
  frame_transaction frame = Some (kind, room, message) →
  rl_clients r0 !! sender = Some client →
  receipts (rl_transaction_receipts r0) !! key = None →
  (handle_frame sender text s0).2 = s1 →
  is_Some (receipts (rl_transaction_receipts (ms_relay s1)) !! key) →
  rtc (messenger_step limits) s1 s →
  (∀ n, (rl_ticks r0 ≤ n ≤ rl_ticks r)%nat →
     lo ≤ now_ms n < saturating_add u64_MAX lo (terminal_ttl_ms (rl_transaction_receipts r0))) →
  rl_clients r !! sender' = Some client' → cl_code_id client' = cl_code_id client →
  wiped_between limits s1 s ∨
  let outcome := is_ok (frame_body sender frame (begun key text r0)).1 in
  let answered := frame_answer sender' frame outcome
    (set_rl_receipts (remove_expired (now_ms (rl_ticks r)) (rl_transaction_receipts r))
       (set_rl_ticks (S (rl_ticks r)) r)) in
  handle_frame sender' text s = (answered.1, set_ms_relay answered.2 s) ∧
  only_answered sender' r answered.2.
Proof.
  intros r0 r key Hp Hf Hcl Hk Hrun Hsome Hsteps Hclock Hcl' Hcode.
  set (ttl := terminal_ttl_ms (rl_transaction_receipts r0)) in *.
  set (last := S (rl_ticks r)).
  assert (∀ n, (rl_ticks r0 ≤ n < last)%nat → lo ≤ now_ms n < saturating_add u64_MAX lo ttl) as Hcl0
    by (intros n ?; apply Hclock; lia).
  destruct (transaction_frame text frame _ _ _ Hf) as [version E].
  rewrite (room_frame_run sender text frame s0 Hp) in Hrun.
  destruct (validate_inbound_frame_size_before_parse _) as [u|] eqn:Hsize.
  2:{ simpl in Hrun. subst s1. destruct Hsome as [? Hs]. unfold r0 in Hk. congruence. }
  unfold on_relay in Hrun. rewrite E in Hrun. fold r0 in Hrun.
  match type of Hrun with context [let '(_, _) := ?t in _] => destruct t as [y r1] eqn:Hr1 end.
  simpl in Hrun. subst s1. simpl in Hsome.
  destruct (first_run_decides lo ttl (rl_ticks r0) last Hcl0 _ _ _ _ _ _ _ _ _ _ _ Hcl eq_refl
              eq_refl Hk Hr1 Hsome) as (Hv & Hc & Hd).
  set (acc := is_ok _) in Hd.
  pose proof (remembered_tick lo ttl (rl_ticks r0) last key text acc) as Rt.
  pose proof (remembered_begin lo ttl (rl_ticks r0) last Hcl0 key text acc) as Rb.
  pose proof (remembered_finish lo ttl (rl_ticks r0) last Hcl0 key text acc) as Rf.
  set (R := remembered lo ttl (rl_ticks r0) last key text acc) in *.
  destruct (run_kept R Rt Rb Rf limits _ _ (Hd : messenger_kept R (set_ms_relay r1 s0)) Hsteps)
    as [H|[Hfirst Hdec]]; [by left|right].
  assert (handle_mls_frame sender' text frame r =
    frame_answer sender' frame acc
      (set_rl_receipts (remove_expired (now_ms (rl_ticks r)) (rl_transaction_receipts r))
         (set_rl_ticks (S (rl_ticks r)) r))) as Eh.
  { rewrite E. eapply decided_replayed; [exact Hcl0|done..|split; [done|unfold last; lia]|].
    rewrite Hcode. apply Hdec. unfold last. fold r. lia. }
  split.
  - rewrite (room_frame_run sender' text frame s Hp), Hsize. unfold on_relay. fold r. rewrite Eh.
    by destruct (frame_answer _ _ _ _).
  - destruct (answer_only sender' frame acc
      (set_rl_receipts (remove_expired (now_ms (rl_ticks r)) (rl_transaction_receipts r))
         (set_rl_ticks (S (rl_ticks r)) r))) as [? ? ? ?]. by split.
Qed.
End once.
