(* ===== verification/MlsTheorems.v ===== *)
(** * Application frames: all or nothing, and only for the members

    [mls_application] either commits the message in its room together with its
    attachment, or leaves every store as it found it up to expiry; and the only
    queues it adds frames to are those of the other active members. *)

From Stdlib Require Import Strings.String.
From S2P Require Import Prelude MlsWire TransactionReceipts RoomModel RoomValidation RoomDelivery.
From S2P Require Import RoomAuthority RoomLifecycle RoomMembership RoomApplication RoomSnapshot.
From S2P Require Import RoomDemo RoomSizes RoomInvariant RoomSweep RoomUpdate RoomReachable.
From S2P Require Import RoomWitnesses TransportPadding AttachmentAccess AttachmentStore.
From S2P Require Import AttachmentStoreFacts AttachmentTheorems AttachmentDemo RelayFrame.
From S2P Require Import OutboundQueue OutboundFacts OutboundTheorems RateLimit Relay MlsRelay.
From S2P Require Import MlsDispatch RelayFacts MlsApplicationFacts RelayRun IdentityBundle.
From S2P Require Import Mailbox IdentityState DirectMessages RelayDispatch MessengerRun.

Section theorems.
Context {HO : HashOrder} {B64 : Base64} {ENV : RelayEnv} {JSON : SerdeJson} {FJ : FrameJson}.

(** ** Acceptance *)

(** What a refused application leaves of the registry: as it was, as the lookup
    of the staged record left it, or without the staged record, whose time to
    be published was over. *)
Inductive registry_left (sender_id : Uuid) (f : ApplicationFrame) (r : Relay)
    : AttachmentStore → Prop :=
| LeftAlone : registry_left sender_id f r (rl_attachments r)
| LeftLookedUp client x s1 :
    rl_clients r !! sender_id = Some client →
    staged_attachment_for_message (lookup_time r) (cl_code_id client) (af_room_id f)
      (af_message_id f) (rl_attachments r) = (x, s1) →
    registry_left sender_id f r s1
| LeftExpired client id rec s1 :
    rl_clients r !! sender_id = Some client →
    staged_attachment_for_message (lookup_time r) (cl_code_id client) (af_room_id f)
      (af_message_id f) (rl_attachments r) = (Ok (Some id), s1) →
    st_attachments s1 !! id = Some rec → staging_over (publication_time r) rec →
    registry_left sender_id f r (remove_record id rec s1).

Definition application_refused (sender_id : Uuid) (f : ApplicationFrame) (r r' : Relay) : Prop :=
  rest r' = rest r ∧ rooms_left sender_id f r (rl_mls_rooms r') ∧
  registry_left sender_id f r (rl_attachments r').

(** The staged record, if any, is published to the recipients. *)
Definition publication (sender : CodeId) (f : ApplicationFrame) (adm : ApplicationAdmission)
    (staged : option Uuid) (s s' : AttachmentStore) : Prop :=
  match staged with
  | None => s' = s
  | Some id => ∃ rec,
      staged_under (mkBindingKey sender (af_room_id f) (af_message_id f)) id rec s ∧
      s' = set_attachments
        (<[id := published_to (list_to_set (aa_recipient_code_ids adm)) rec]>
           (st_attachments s)) s
  end.

(** The message is committed, its recipients may all receive it, and its staged
    attachment, if any, is published to exactly them. *)
Record application_accepted (sender_id : Uuid) (f : ApplicationFrame) (r : Relay)
    (adm : ApplicationAdmission) (r' : Relay) : Prop := mkAccepted {
  ac_rest : rest r' = rest r;
  ac_client : ∃ client n fields staged s1 a1,
    rl_clients r !! sender_id = Some client ∧
    decode_application f = Ok fields ∧
    admit_frame_call (admission_time r) client f fields (rl_mls_rooms r) = (Ok adm, a1) ∧
    (S (S (rl_ticks r)) ≤ n < rl_ticks r')%nat ∧
    commit_application (now_ms n) (af_room_id f) (af_message_id f) a1 = (Ok tt, rl_mls_rooms r') ∧
    require_recipient_code_platforms (cl_platform client) (aa_recipient_code_ids adm)
      (rl_accounts r) = Ok tt ∧
    staged_attachment_for_message (lookup_time r) (cl_code_id client) (af_room_id f)
      (af_message_id f) (rl_attachments r) = (Ok staged, s1) ∧
    publication (cl_code_id client) f adm staged s1 (rl_attachments r')
}.

Lemma early_refusal sender_id f r r' :
  refused_early sender_id f r r' → application_refused sender_id f r r'.
Proof.
  intros (Hrest & Hrooms & Hreg). split; [done|]. split; [done|].
  destruct Hreg as [->|(client & x & Hcl & E)]; [constructor|by eapply LeftLookedUp].
Qed.

(** Committing cannot fail once the message is admitted. *)
Lemma commit_run max_rooms ttl t client f fields a adm a1 now u r :
  reachable max_rooms ttl a → admit_frame_call t client f fields a = (Ok adm, a1) →
  rl_mls_rooms r = a1 →
  ∃ a2, commit_application now (af_room_id f) (af_message_id f) a1 = (Ok tt, a2) ∧
    or_undo (on_rooms (commit_application now (af_room_id f) (af_message_id f))) u r
    = (Ok tt, set_rl_mls_rooms a2 r).
Proof.
  intros Hr Hadm E. destruct fields as [[[[g d] ct] ad] env].
  destruct (admitted_commits max_rooms ttl _ _ _ _ _ _ _ _ _ _ _ _ _ _ _ now Hr Hadm) as [a2 Ec].
  exists a2. split; [done|]. unfold or_undo. by rewrite on_rooms_run, E, Ec.
Qed.

(** What follows the publication. *)
Lemma commit_accepts max_rooms ttl sender_id f r client staged adm r2 :
  reachable max_rooms ttl (rl_mls_rooms r) → admitted_phase sender_id f r client staged adm r2 →
  ∀ rb r3 x r', rest r3 = rest r2 → (rl_ticks r2 ≤ rl_ticks r3)%nat → rl_mls_rooms r3 = rl_mls_rooms r2 →
  publication (cl_code_id client) f adm staged (rl_attachments r2) (rl_attachments r3) →
  (t2 ← tick;
   _ ← or_undo (on_rooms (commit_application t2 (af_room_id f) (af_message_id f)))
         (_ ← undo_application f;
          match rb with Some rollback => undo_attachment rollback | None => mret tt end);
   mret adm) r3 = (x, r') →
  x = Ok adm ∧ application_accepted sender_id f r adm r'.
Proof.
  intros Hreach [Hcl Hst (fields & Hd & Hadm) Hpl Hrest Ht] rb r3 x r' E1 Et E2 E3.
  rewrite bind_run, tick_run. cbv beta iota. rewrite bind_run.
  edestruct (commit_run max_rooms ttl (admission_time r) client f fields (rl_mls_rooms r) adm (rl_mls_rooms r2)
    (now_ms (rl_ticks r3))) as (a2 & Ec & ->); [done..|].
  intros [= <- <-]. split; [done|]. split; simpl; [by rewrite <- Hrest, <- E1|].
  exists client, (rl_ticks r3), fields, staged, (rl_attachments r2), (rl_mls_rooms r2).
  split_and!; try done; simpl; lia.
Qed.

Lemma accept_application_cases max_rooms ttl sender_id f r x r' :
  reachable max_rooms ttl (rl_mls_rooms r) →
  accept_application sender_id f r = (x, r') →
  match x with
  | Err _ => application_refused sender_id f r r'
  | Ok adm => application_accepted sender_id f r adm r'
  end.
Proof.
  intros Hreach E. revert E.
  destruct (accept_application_phases sender_id f r)
    as [(e & r1 & -> & He)|(client & staged & adm & r2 & Hph & ->)].
  { intros [= <- <-]. by apply early_refusal. }
  pose proof (commit_accepts max_rooms ttl _ _ _ _ _ _ _ Hreach Hph) as Hcommit.
  destruct Hph as [Hcl Hst (fields & Hd & Hadm) Hpl Hrest Ht].
  unfold after_publication. rewrite bind_run.
  destruct staged as [id|]; simpl publish_staged.
  - destruct (staged_lookup_some _ _ _ _ _ _ _ Hst) as [rec Hrec].
    rewrite bind_run. destruct (publish_for _ _ _ _ _) as [y r3] eqn:Ep.
    apply (publish_for_cases _ _ _ _ _ _ _ _ Hrec) in Ep as (E1 & Et & E2).
    destruct y as [rb|e].
    + destruct E2 as [E2 E3]. intros E.
      destruct (Hcommit (Some rb) r3 x r' E1) as [-> Hac]; [lia|done|by exists rec|done..].
    + destruct E2 as [E2 E3]. intros [= <- <-]. split; [congruence|]. split.
      * rewrite E2. by eapply RoomsTakenBack.
      * destruct E3 as [->|(Ho & ->)]; [by eapply LeftLookedUp|]. rewrite Ht in Ho.
        eapply LeftExpired; [done|done|apply Hrec|done].
  - intros E. by destruct (Hcommit None r2 x r') as [-> Hac].
Qed.

(** ** Sending *)

(** A handler that cannot fail. *)
Definition never_fails {A} (m : Handler A) : Prop := ∀ r, ∃ a, (m r).1 = Ok a.

Lemma never_fails_bind {A B} (m : Handler A) (k : A → Handler B) :
  never_fails m → (∀ a, never_fails (k a)) → never_fails (m ≫= k).
Proof.
  intros Hm Hk r. rewrite bind_run. destruct (Hm r) as [a Ha].
  destruct (m r) as [[a'|e] r1]; simpl in Ha; [apply Hk|done].
Qed.
Lemma never_fails_for_each {A} (l : list A) f :
  (∀ x, never_fails (f x)) → never_fails (for_each l f).
Proof.
  intros Hf. induction l as [|x l IH]; [by eexists|]. by apply never_fails_bind.
Qed.
Lemma never_fails_ask {A} (f : RoomAuthority → A * RoomAuthority) : never_fails (ask_rooms f).
Proof. intros r. unfold ask_rooms. destruct (f _). by eexists. Qed.
Lemma never_fails_attempt {A} (m : Handler A) : never_fails (attempt m).
Proof. intros r. unfold attempt. destruct (m r). by eexists. Qed.
Lemma never_fails_send_delivery d : never_fails (send_mls_delivery d).
Proof.
  unfold send_mls_delivery. apply never_fails_bind; [by eexists|intros t].
  apply never_fails_bind; [apply never_fails_ask|intros active].
  destruct (negb active && _); [by eexists|]. apply never_fails_bind; [by eexists|intros l].
  apply never_fails_for_each. by eexists.
Qed.
Lemma never_fails_member_deliveries id m c : never_fails (send_member_deliveries id m c).
Proof.
  unfold send_member_deliveries. apply never_fails_bind; [by eexists|intros t].
  apply never_fails_bind; [apply never_fails_attempt|intros l].
  apply never_fails_for_each, never_fails_send_delivery.
Qed.

(** The queues of accounts outside [codes] are as they were. *)
Definition confined_to (codes : list CodeId) (ob ob' : Outbound) : Prop :=
  ob_clients ob' = ob_clients ob ∧
  ∀ id, (∀ c, ob_clients ob !! id = Some c → cl_code_id c ∉ codes) →
    ob_connections ob' !! id = ob_connections ob !! id ∧ ob_stages ob' !! id = ob_stages ob !! id.

Section sending.
Context (max_rooms ttl : Z) (codes : list CodeId) (ob0 : Outbound).

Definition sending (r : Relay) : Prop :=
  reachable max_rooms ttl (rl_mls_rooms r) ∧ confined_to codes ob0 (rl_outbound r).

Lemma sending_query {A} t (f : RoomAuthority → A) : preserves sending (ask_rooms (query t f)).
Proof. intros r [H1 H2]. split; [|done]. exact (reach_op _ _ _ (Query t) H1). Qed.

Lemma sending_send f id c :
  ob_clients ob0 !! id = Some c → cl_code_id c ∈ codes → preserves sending (send f id).
Proof.
  intros Hc Hin r [H1 [H2 H3]]. split; [done|]. simpl.
  pose proof (only_send false id f (rl_outbound r)) as [Ho1 Ho2 Ho3 _].
  split; [by rewrite Ho1|]. intros j Hj. destruct (decide (j = id)) as [->|Hne].
  - by specialize (Hj c Hc).
  - rewrite Ho2, Ho3 by done. by apply H3.
Qed.

Lemma elem_of_client_ids (p : ClientHandle → bool) r id :
  id ∈ client_ids_where p r → ∃ c, rl_clients r !! id = Some c ∧ p c = true.
Proof.
  unfold client_ids_where. rewrite list_elem_of_omap. intros ([k c] & Hk & E). simpl in E.
  destruct (p c) eqn:Hp; [|done]. simplify_eq. exists c. split; [|done].
  by rewrite hash_iter_perm, elem_of_map_to_list in Hk.
Qed.

Lemma sending_delivery d :
  pd_recipient_code_id d ∈ codes → preserves sending (send_mls_delivery d).
Proof.
  intros Hin. unfold send_mls_delivery. apply preserves_bind; [by intros r|intros t].
  apply preserves_bind; [apply sending_query|intros active].
  destruct (negb active && _); [apply preserves_ret|].
  apply preserves_bind_post with (Q := λ ids, ∀ id, id ∈ ids →
    ∃ c, ob_clients ob0 !! id = Some c ∧ cl_code_id c ∈ codes).
  - intros r Hr. split; [done|]. simpl. intros ids [= <-] id Hid.
    apply elem_of_client_ids in Hid as (c & Hc & [Hp _]%andb_prop). apply bool_decide_eq_true in Hp.
    destruct Hr as [_ [Hcl _]]. unfold rl_clients in Hc. rewrite Hcl in Hc.
    exists c. by rewrite Hp.
  - intros ids Hids. apply preserves_for_each_in. intros id Hid.
    destruct (Hids id Hid) as (c & Hc & Hcin). by eapply sending_send.
Qed.

(** What waits for a member is addressed to that member. *)
Lemma queue_recipient a t id room c d :
  reachable max_rooms ttl a → rooms (prune_expired t a) !! id = Some room →
  d ∈ queue_of room c → pd_recipient_code_id d = c.
Proof.
  intros Ha Hr Hd. pose proof (reach_op _ _ _ (Query t) Ha) as [Hok _]%reachable_ok.
  pose proof (ok_rooms _ Hok _ _ Hr) as Hroom. unfold queue_of in Hd.
  destruct (room_deliveries room !! c) as [q|] eqn:Hq; simpl in Hd; [|by apply not_elem_of_nil in Hd].
  pose proof (ok_routes _ _ Hroom c q d Hq Hd) as E. unfold route in E. congruence.
Qed.

Lemma sending_member_deliveries id m c :
  c ∈ codes → preserves sending (send_member_deliveries id m c).
Proof.
  intros Hin. unfold send_member_deliveries. apply preserves_bind; [by intros r|intros t].
  apply preserves_bind_post with (Q := λ x, ∀ d,
    d ∈ match x with Ok l => l | Err _ => [] end → pd_recipient_code_id d = c).
  - intros r [Hr Hc]. unfold attempt, on_rooms, deliveries_for_member, query. simpl. split.
    + split; [|done]. exact (reach_op _ _ _ (Query t) Hr).
    + intros x [= <-] d Hd. unfold get_room in Hd.
      destruct (rooms (prune_expired t (rl_mls_rooms r)) !! id) as [room|] eqn:E; simpl in Hd;
        [by eapply queue_recipient|by apply not_elem_of_nil in Hd].
  - intros x Hx. apply preserves_for_each_in. intros d [_ Hd]%list_elem_of_filter.
    apply sending_delivery. by rewrite (Hx d Hd).
Qed.

Lemma sending_all id m l :
  (∀ c, c ∈ l → c ∈ codes) → preserves sending (for_each l (send_member_deliveries id m)).
Proof. intros Hl. apply preserves_for_each_in. intros. by apply sending_member_deliveries, Hl. Qed.
End sending.

Lemma mls_application_run sender_id f r x r' :
  mls_application sender_id f r = (x, r') →
  match accept_application sender_id f r with
  | (Err e, r1) => x = Err e ∧ r' = r1
  | (Ok adm, r1) => x = Ok tt ∧
      r' = (for_each (aa_recipient_code_ids adm)
              (send_member_deliveries (af_room_id f) (aa_message_id adm)) r1).2
  end.
Proof.
  unfold mls_application. rewrite bind_run.
  destruct (accept_application sender_id f r) as [[adm|e] r1]; [|by intros [= <- <-]].
  destruct (never_fails_for_each (aa_recipient_code_ids adm)
    (send_member_deliveries (af_room_id f) (aa_message_id adm))
    (never_fails_member_deliveries _ _) r1) as [[] E].
  destruct (for_each _ _ r1) as [y r2]. simpl in *. intros [= <- <-]. by subst y.
Qed.

(** C23: an application frame is all or nothing.  When the handler fails, no
    queue, account or receipt has changed, and the registry is as the lookup of the
    staged record left it or has lost that record, whose time was over when it was
    to be published; the rooms are as they were, or only swept of what had expired
    when the message was admitted, or the message was admitted and taken back.
    If the admission can be undone (the deliveries waiting in the room are numbered
    without gaps after the revisions of their recipients, and none of them carries
    the message's identifier), taking it back leaves exactly the swept rooms;
    otherwise the rollback also renumbers or removes such deliveries.  When the
    handler succeeds, the message was admitted and
    committed, every recipient's client may talk to the sender's, and the staged
    attachment, if there is one, is published to exactly the recipients: a failure
    between these steps undoes the ones before it, and the commit itself cannot
    fail. *)
Theorem application_all_or_nothing max_rooms ttl sender_id f r x r' :
  reachable max_rooms ttl (rl_mls_rooms r) →
  mls_application sender_id f r = (x, r') →
  match x with
  | Err _ =>
      application_refused sender_id f r r' ∧
      (undoable (admission_time r) f (rl_mls_rooms r) →
       rl_mls_rooms r' = rl_mls_rooms r ∨
       rl_mls_rooms r' = prune_expired (admission_time r) (rl_mls_rooms r))
  | Ok _ => ∃ adm r1,
      application_accepted sender_id f r adm r1 ∧
      r' = (for_each (aa_recipient_code_ids adm)
              (send_member_deliveries (af_room_id f) (aa_message_id adm)) r1).2
  end.
Proof.
  intros Hr E%mls_application_run.
  destruct (accept_application sender_id f r) as [y r1] eqn:Ea.
  pose proof (accept_application_cases _ _ _ _ _ _ _ Hr Ea) as Hcase.
  destruct y as [adm|e]; destruct E as [-> ->]; [by exists adm, r1|]. split; [done|].
  intros Hu. destruct Hcase as (_ & Hrooms & _). by eapply rooms_left_undone.
Qed.

(** C24: the frames of an application reach nobody but the other active members:
    the queues, the stage and the handle of any client whose account is not an
    active member of the room other than the sender, in the room as the frame
    found it, are unchanged, whatever the handler returns. *)
Theorem application_confined max_rooms ttl sender_id client f r x r' id c :
  reachable max_rooms ttl (rl_mls_rooms r) →
  mls_application sender_id f r = (x, r') →
  rl_clients r !! sender_id = Some client → rl_clients r !! id = Some c →
  (∀ room u m, rooms (prune_expired (admission_time r) (rl_mls_rooms r)) !! af_room_id f = Some room →
     room_members room !! u = Some m → mem_active m = true →
     mem_code_id m ≠ cl_code_id client → mem_code_id m ≠ cl_code_id c) →
  rl_clients r' = rl_clients r ∧
  ob_connections (rl_outbound r') !! id = ob_connections (rl_outbound r) !! id ∧
  ob_stages (rl_outbound r') !! id = ob_stages (rl_outbound r) !! id.
Proof.
  intros Hr Hrun Hs Hc Hout. pose proof (mls_application_run _ _ _ _ _ Hrun) as E.
  destruct (accept_application sender_id f r) as [y r1] eqn:Ea.
  pose proof (accept_application_cases _ _ _ _ _ _ _ Hr Ea) as Hcase.
  destruct y as [adm|e]; destruct E as [-> ->].
  2: { destruct Hcase as [Hrest _]. assert (rl_outbound r1 = rl_outbound r) as Hob by (by injection Hrest).
       unfold rl_clients. by rewrite Hob. }
  destruct Hcase as [Hrest (cl & n & fields & staged & s1 & a1 & Hcl & _ & Hadm & _ & Hcom & _)].
  assert (rl_outbound r1 = rl_outbound r) as Hob by (by injection Hrest).
  assert (client = cl) as <- by congruence. destruct fields as [[[[g d] ct] ad] env]. simpl in Hadm.
  assert (sending max_rooms ttl (aa_recipient_code_ids adm) (rl_outbound r) r1) as Hsend.
  { split; [|by rewrite Hob].
    pose proof (reach_op _ _ _ (AdmitApplication (admission_time r) (cl_code_id client) (cl_platform client)
      (af_room_id f) (af_message_id f) g (af_epoch f) (af_revision f) d ct ad env) Hr) as H1.
    unfold perform, run, outcome in H1; cbn [snd] in H1. rewrite Hadm in H1.
    pose proof (reach_op _ _ _ (CommitApplication (now_ms n) (af_room_id f) (af_message_id f)) H1) as H2.
    unfold perform, run, outcome in H2; cbn [snd] in H2. by rewrite Hcom in H2. }
  apply (sending_all _ _ _ _ (af_room_id f) (aa_message_id adm) (aa_recipient_code_ids adm)) in Hsend
    as [_ [H1 H2]]; [|done].
  split; [done|]. apply H2. intros c0 Hc0 Hin. unfold rl_clients in Hc. simplify_eq.
  destruct (admitted_recipients _ _ _ _ _ _ _ _ _ _ _ _ _ _ _ _ Hadm Hin)
    as (room & u & m & Hroom & Hm & Hcode & Hact & Hne).
  eapply (Hout room u m); [done..|congruence|done].
Qed.

(** ** Wire fields *)

(** What the relay encodes it would itself accept: the fields of a delivery and
    the rosters it sends survive the text form. *)
Section fields.
Context {LAWS : Base64Laws}.

Lemma encoded_field_decodes b max :
  0 < len b ≤ max → 2 * max ≤ usize_MAX → decode_bounded (b64_encode b) max = Ok b.
Proof.
  intros Hb Hmax. assert (b ≠ []) as Hne by (intros ->; unfold len in Hb; simpl in Hb; lia).
  pose proof (b64_length b). unfold decode_bounded.
  rewrite bool_decide_false by (by rewrite b64_empty). rewrite bool_decide_false by lia. simpl.
  rewrite b64_round_trip. simpl. rewrite !bool_decide_false by (done || lia). done.
Qed.
Lemma encoded_exact_decodes b n :
  len b = n → 0 < n → 2 * n ≤ usize_MAX → decode_exact (b64_encode b) n = Ok b.
Proof.
  intros Hb Hn Hmax. unfold decode_exact. rewrite encoded_field_decodes by lia. simpl.
  by rewrite bool_decide_true.
Qed.
Lemma roster_roundtrip roster :
  Forall (λ m, len (ros_stable_identity m) = STABLE_IDENTITY_BYTES) roster →
  mls_roster_from_wire (roster_wire <$> roster) = Ok roster.
Proof.
  induction 1 as [|[u i] roster Hi _ IH]; simpl in *; [done|].
  rewrite (encoded_exact_decodes i) by (done || unfold STABLE_IDENTITY_BYTES, usize_MAX; lia).
  change (list_fmap _ _ _ _) with (roster_wire <$> roster). by cbn; rewrite IH.
Qed.
End fields.
End theorems.

(** * The relay on a concrete run

    Alice and Bob share the room of the room scenario, Carol is connected too.
    Alice sends an application, which the relay handles, answers and, when the
    frame comes again, answers again.  The base64 text is the bytes themselves,
    the clock moves by one millisecond per reading. *)

Module RelayRunDemo.
Import OutboundRun.

#[export] Instance demo_base64 : Base64 :=
  {| b64_encode b := string_of_list_byte b; b64_decode s := Some (list_byte_of_string s) |}.
#[export] Instance demo_env : RelayEnv := {|
  now_ms n := 5 + Z.of_nat (n `min` 1000);
  interop_policy := mkInterop true true;
  relay_node_id := "node";
  sha256_text s := list_byte_of_string s;
  sha256_bytes b := b;
  result_delivered _ := true;
  pending_message_ttl_ms := 86400000
|}.

#[export] Instance demo_base64_laws : Base64Laws.
Proof.
  split; simpl.
  - intros b. by rewrite list_byte_of_string_of_list_byte.
  - intros b. assert (String.length (string_of_list_byte b) = length b) as E
      by (induction b; simpl; f_equal; done). unfold slen, len. lia.
  - intros []; done.
Qed.

Definition alice_id : Uuid := [Byte.x01].
Definition bob_id : Uuid := [Byte.x02].
Definition carol_id : Uuid := [Byte.x03].
Definition carol : CodeId := code Byte.x03.

Definition text (b : bytes) : string := b64_encode b.

Definition account (name : string) (b : byte) : RelayAccount :=
  mkRelayAccount name [] (stable b) [] "prekey" 0 0 true (Some Android).

Definition queues : Outbound :=
  OutboundRun.run
    [OpConnect alice_id (mkClient owner "alice" Android); OpCommit alice_id;
     OpConnect bob_id (mkClient bob "bob" Android); OpCommit bob_id;
     OpConnect carol_id (mkClient carol "carol" Android); OpCommit carol_id].

(** The relay before Alice's message. *)
Definition relay : Relay :=
  mkRelay demo_active store_new queues
    {[owner := account "alice" Byte.x01; bob := account "bob" Byte.x02;
      carol := account "carol" Byte.x03]}
    (TransactionReceipts.new 600000) ∅ ∅ ∅ ∅ ∅ 5 0.

Definition message : ApplicationFrame :=
  mkApplicationFrame "room_1" "msg_1" (text gid) 1 2 (text (digest Byte.x09))
    (text [Byte.x21; Byte.x22]) (text [Byte.x23]) (text [Byte.x24]).
Definition message_frame : InboundFrame.t := InboundFrame.MlsApplication 10 message.

Definition sent : result string () * Relay := mls_application alice_id message relay.
Definition handled : result string () * Relay :=
  handle_mls_frame alice_id "frame" message_frame relay.

(** Bob's queue gets the message, Alice's the answer, Carol's nothing. *)
Example message_handled :
  is_ok handled.1 = true ∧
  (cn_tx <$> ob_connections (rl_outbound handled.2) !! bob_id) =
    Some [OutboundFrame.MlsApplication 10 "room_1" "msg_1" "Alice" 1 1 (text (digest Byte.x09))
            (text [Byte.x21; Byte.x22]) (text [Byte.x23])] ∧
  (cr_frame <$> from_option cn_results [] (ob_connections (rl_outbound handled.2) !! alice_id)) =
    [OutboundFrame.MlsRoomResult 10 "room_1" "msg_1" 2 true] ∧
  (cn_tx <$> ob_connections (rl_outbound handled.2) !! carol_id) = Some [].
Proof. vm_compute. repeat split. Qed.

(** The scenario's states are large: conversion unfolds the relay first. *)
#[local] Strategy opaque [demo_active start_room].
#[local] Strategy expand [sent handled].

Lemma room_found room :
  rooms (prune_expired (admission_time relay) (rl_mls_rooms relay)) !! af_room_id message
  = Some room → room = start_room.
Proof.
  assert (rooms (prune_expired (admission_time relay) (rl_mls_rooms relay)) !! af_room_id message
          = Some start_room) as E' by (vm_compute; reflexivity).
  rewrite E'. exact (λ E, eq_sym (Some_inj _ _ E)).
Qed.

Lemma message_undoable : undoable (admission_time relay) message (rl_mls_rooms relay).
Proof.
  intros room E.
  rewrite (room_found room E).
  split; [exact start_room_compacted|exact start_room_fresh].
Qed.

Lemma application_all_or_nothing_witness :
  undoable (admission_time relay) message (rl_mls_rooms relay) ∧
  is_ok sent.1 = true ∧ ∃ adm r1, application_accepted alice_id message relay adm r1 ∧
    sent.2 = (for_each (aa_recipient_code_ids adm)
                (send_member_deliveries "room_1" (aa_message_id adm)) r1).2.
Proof.
  pose proof (application_all_or_nothing 4 DEFAULT_PENDING_TTL_MS alice_id message relay sent.1 sent.2
    active_reachable (surjective_pairing sent)) as H.
  assert (is_ok sent.1 = true) as Hok by (vm_compute; reflexivity).
  destruct sent as [[[]|e] r']; [|discriminate Hok].
  split; [exact message_undoable|]. split; [reflexivity|exact H].
Defined.

(** Carol is not a member. *)
Lemma outsider room u m :
  rooms (prune_expired (admission_time relay) (rl_mls_rooms relay)) !! af_room_id message
  = Some room → room_members room !! u = Some m → mem_code_id m ≠ carol.
Proof.
  intros E. rewrite (room_found room E).
  assert (map_Forall (λ _ m, mem_code_id m ≠ carol) (room_members start_room)) as Hall
    by (refine (bool_decide_eq_true_1 _ _); vm_compute; reflexivity).
  apply Hall.
Qed.

Lemma application_confined_witness :
  ob_connections (rl_outbound sent.2) !! carol_id = ob_connections (rl_outbound relay) !! carol_id.
Proof.
  assert (rl_clients relay !! alice_id = Some (mkClient owner "alice" Android)) as Ha
    by (vm_compute; reflexivity).
  assert (rl_clients relay !! carol_id = Some (mkClient carol "carol" Android)) as Hc
    by (vm_compute; reflexivity).
  destruct (application_confined 4 DEFAULT_PENDING_TTL_MS alice_id
    (mkClient owner "alice" Android) message relay sent.1 sent.2 carol_id
    (mkClient carol "carol" Android) active_reachable
    (surjective_pairing sent) Ha Hc) as (_ & H & _).
  - intros room u m E Hm _ _. exact (outsider room u m E Hm).
  - exact H.
Defined.

(** The frame again, after Carol looked for a room and Bob was active. *)
#[export] Instance demo_keys : Keys :=
  {| ed25519_key _ := true; ed25519_verify _ _ _ := true; contributory _ := true |}.
#[export] Instance demo_draws : Draws :=
  {| draw _ _ := {| fill_bytes n := replicate (Z.to_nat n) Byte.x00 |} |}.
#[export] Instance demo_ids : DirectIds := {| fresh_uuid _ := "1"%string |}.
#[export] Instance demo_client_json : ClientJson := {|
  parse_frame text :=
    if bool_decide (text = "frame"%string) then Ok (ClientFrame.Mls message_frame)
    else if bool_decide (text = "look"%string)
    then Ok (ClientFrame.Mls (InboundFrame.MlsDiscoverRoom 10 "room_2"))
    else Ok ClientFrame.Activity
|}.
Definition before : Messenger := mkMessenger relay mailbox_new ∅ ∅.
Definition run_first : Messenger := (handle_frame alice_id "frame" before).2.
Definition looked : Messenger := (handle_frame carol_id "look" run_first).2.
Definition later : Messenger := (handle_frame bob_id "active" looked).2.
#[local] Strategy expand [run_first looked later].

Lemma frame_runs_once_witness :
  wiped_between AttachmentRun.limits run_first later ∨
  ∃ r', ms_relay (handle_frame alice_id "frame" later).2 =
          (frame_answer alice_id message_frame true r').2 ∧
    rl_mls_rooms (ms_relay (handle_frame alice_id "frame" later).2) = rl_mls_rooms (ms_relay later).
Proof.
  destruct (frame_runs_once AttachmentRun.limits alice_id alice_id "frame" message_frame
              TransactionReceipts.MlsRoom "room_1" "msg_1" (mkClient owner "alice" Android) (mkClient owner "alice" Android) 5
              before run_first later) as [H|[E H]].
  - reflexivity.
  - reflexivity.
  - vm_compute. reflexivity.
  - reflexivity.
  - reflexivity.
  - vm_compute. eauto.
  - eapply rtc_l; [exact (StepFrame _ _ carol_id "look")|].
    eapply rtc_l; [exact (StepFrame _ _ bob_id "active")|apply rtc_refl].
  - intros n _. simpl. unfold saturating_add, u64_MAX. lia.
  - vm_compute. reflexivity.
  - reflexivity.
  - left. exact H.
  - right. rewrite E. destruct H as [H _ _ _]. cbn [snd ms_relay set_ms_relay] in *.
    match goal with |- context [frame_answer _ _ (is_ok ?x) _] =>
      assert (is_ok x = true) as Ho by (vm_compute; reflexivity) end.
    rewrite Ho in *. eexists. split; [reflexivity|exact H].
Defined.

(** From the start: Alice connects, logs in and creates a room. *)
Definition started : Relay := relay_new 4 600000 600000 5.
Definition joined : Relay :=
  set_rl_outbound (queue_step (OpConnect alice_id (mkClient owner "alice" Android))
    (rl_outbound started)) started.
Definition logged_in : Relay :=
  set_rl_connections {[owner := account "alice" Byte.x01]} ∅ ∅ {[owner := alice_id]} ∅ ∅ joined.
Definition created : result string () * Relay :=
  handle_mls_frame alice_id "create"
    (InboundFrame.MlsCreateRoom 10 "room_1" (text gid) 0 0 (text (digest Byte.x08))
       (text (stable Byte.x01)) (text [Byte.x31]) RoomPolicy.default Public) logged_in.

Lemma relay_invariant_witness :
  is_ok created.1 = true ∧ authority_ok (rl_mls_rooms created.2) ∧
  outbound_ok (rl_outbound created.2).
Proof.
  split; [vm_compute; reflexivity|].
  destruct (relay_invariant 4 600000 600000 5 AttachmentRun.limits created.2 AttachmentRun.limits_fine) as (H1 & _ & H2).
  - apply (rtc_l _ _ joined); [by apply RunQueue|].
    apply (rtc_l _ _ logged_in); [apply RunLogin|]. apply rtc_once, RunFrame.
  - split; [exact H1|exact H2].
Defined.
End RelayRunDemo.
