(* ===== verification/Accounts.v ===== *)
(** * Accounts, sessions and tickets (mirage-server/src/auth.rs, bootstrap_auth.rs,
    account_identifiers.rs, control.rs, main.rs, transport.rs)

    An invite code is redeemed for an account by an OPAQUE registration, an
    account is logged into by an OPAQUE login, a login yields a session and, over
    the sealed transport, a transport session; a session is exchanged for a
    ticket and a ticket, once, for a WebSocket connection.  [Portal] is the whole
    relay with the stores of authentication; [account_ops] makes each operation
    on accounts run alone.

    OPAQUE is the crate opaque-ke behind four functions of secure_protocol.rs,
    HMAC-SHA256 the crate hmac; what is drawn at random is a function of the tick
    at which it is drawn, and a loop that draws until it finds something fresh
    takes the draws it made. *)

From S2P Require Import Prelude MlsWire TransactionReceipts RoomModel RoomValidation RoomAuthority.
From S2P Require Import RoomLifecycle TransportWire TransportPadding AccountBootstrap.
From S2P Require Import AttachmentAccess AttachmentStore AttachmentBlob RelayFrame OutboundQueue.
From S2P Require Import RateLimit Relay MlsRelay MlsDispatch IdentityBundle Mailbox IdentityState.
From S2P Require Import DirectMessages RelayDispatch Release.

Definition ACCOUNT_BODY_LIMIT_BYTES : Z := 16 * 1024.
Definition LOGIN_RATE_WINDOW_MS : Z := 60000.
Definition LOGIN_MAX_ATTEMPTS_PER_WINDOW : Z := 6.
Definition MAX_LOGIN_LIMIT_ENTRIES : Z := 4096.
Definition WS_TICKET_BYTES : Z := 32.
Definition WS_TICKET_B64_LEN : Z := 43.
Definition WS_TICKET_TTL_MS : Z := 30000.
Definition MAX_WS_TICKETS : Z := 1024.
Definition OPAQUE_HANDSHAKE_TTL_MS : Z := 60000.
Definition MAX_OPAQUE_HANDSHAKES : Z := 1024.
Definition REGISTRATION_CHALLENGE_BYTES : Z := 32.
Definition CODE_ID_DOMAIN : bytes := text_bytes "ABYSSAL_CAPABILITY_ID_V1".
Definition ACCOUNT_CONTEXT_DOMAIN : bytes := text_bytes "ABYSSAL-ACCOUNT-CONTEXT-V1".

(** ** Requests and answers *)

Record OpaqueAccountStartRequest : Type := mkStartRequest {
  sq_capability_b64 : string;
  sq_registration_request_b64 : string;
  sq_credential_request_b64 : string
}.

Record OpaqueAccountFinishRequest : Type := mkFinishRequest {
  fq_handshake_id : Uuid;
  fq_registration_upload_b64 : option string;
  fq_credential_finalization_b64 : option string;
  fq_identity_public_b64 : option string;
  fq_identity_prekey_id : option string;
  fq_identity_envelope_b64 : option string;
  fq_identity_proof_b64 : option string
}.

(** The accepted answers, without the configuration they repeat. *)
Record OpaqueAccountStartResponse : Type := mkStartResponse {
  sr_mode : string;
  sr_handshake_id : Uuid;
  sr_response_b64 : string;
  sr_challenge_b64 : option string;
  sr_identity_public_b64 : option string;
  sr_identity_prekey_id : option string;
  sr_identity_envelope_b64 : option string
}.
Record AccountResponse : Type := mkAccountResponse {
  rp_created : bool;
  rp_token : string;
  rp_username : string;
  rp_identity_public_b64 : string;
  rp_identity_prekey_id : string;
  rp_identity_envelope_b64 : string
}.

(** The statuses of refused requests; [PENDING] stands for a loop that has drawn
    nothing fresh yet. *)
Module AuthStatus.
Inductive t : Type :=
| BAD_REQUEST
| UNAUTHORIZED
| CONFLICT
| TOO_MANY_REQUESTS
| UPGRADE_REQUIRED
| SERVICE_UNAVAILABLE
| PENDING.
End AuthStatus.

(** ** Parameters *)

Class AuthEnv : Type := {
  node_public_key : bytes;
  invite_code_pepper : bytes;
  session_inactivity_ms : Z;
  max_rooms_per_user : Z;
  hmac_sha256 : bytes → bytes → bytes;
  (** The release manifest the mirror has installed at that moment. *)
  release_store : nat → ReleaseAdmissionStore;
  (** [Uuid::to_string]. *)
  uuid_text : Uuid → string;
  (** [Uuid::new_v4], as bytes and as the text of a session token. *)
  draw_uuid : nat → Uuid;
  draw_token : nat → string;
  (** The candidates of [new_account_id]. *)
  draw_account_id : nat → nat → string;
  draw_challenge : nat → bytes;
  draw_tickets : nat → list bytes;
  draw_session_ids : nat → list bytes
}.

Class OpaqueSuite : Type := {
  opaque_server_registration_response : bytes → bytes → option bytes;
  opaque_server_finish_registration : bytes → option bytes;
  opaque_server_start_login : nat → bytes → bytes → bytes → option (bytes * bytes);
  opaque_server_finish_login : bytes → bytes → option bytes
}.

(** ** State *)

Inductive OpaqueHandshake : Type :=
| Registration (code_id : CodeId) (challenge : bytes) (created_at_ms : Z)
| Login (code_id : CodeId) (username : string) (server_state : bytes) (created_at_ms : Z)
    (created : bool).
Definition handshake_created_at_ms (h : OpaqueHandshake) : Z :=
  match h with Registration _ _ created_at_ms | Login _ _ _ created_at_ms _ => created_at_ms end.

Record WsTicket : Type := mkWsTicket {
  wt_session_token : string;
  wt_expires_at_ms : Z;
  wt_client_platform : ClientPlatform
}.

Record Portal : Type := mkPortal {
  pl_messenger : Messenger;
  pl_available_codes : gset CodeId;
  pl_capability_expiries : gmap CodeId Z;
  pl_opaque_handshakes : gmap Uuid OpaqueHandshake;
  pl_registration_credential_requests : gmap Uuid (bytes * bytes);
  pl_ws_tickets : gmap bytes WsTicket;
  pl_login_limits : gmap CodeId RateState
}.
Definition set_pl_messenger v p :=
  mkPortal v (pl_available_codes p) (pl_capability_expiries p) (pl_opaque_handshakes p)
    (pl_registration_credential_requests p) (pl_ws_tickets p) (pl_login_limits p).
Definition set_pl_codes available expiries p :=
  mkPortal (pl_messenger p) available expiries (pl_opaque_handshakes p)
    (pl_registration_credential_requests p) (pl_ws_tickets p) (pl_login_limits p).
Definition set_pl_handshakes handshakes requests p :=
  mkPortal (pl_messenger p) (pl_available_codes p) (pl_capability_expiries p) handshakes requests
    (pl_ws_tickets p) (pl_login_limits p).
Definition set_pl_tickets v p :=
  mkPortal (pl_messenger p) (pl_available_codes p) (pl_capability_expiries p)
    (pl_opaque_handshakes p) (pl_registration_credential_requests p) v (pl_login_limits p).
Definition set_pl_login_limits v p :=
  mkPortal (pl_messenger p) (pl_available_codes p) (pl_capability_expiries p)
    (pl_opaque_handshakes p) (pl_registration_credential_requests p) (pl_ws_tickets p) v.

Definition pl_relay (p : Portal) : Relay := ms_relay (pl_messenger p).
Definition set_pl_relay (r : Relay) (p : Portal) : Portal :=
  set_pl_messenger (set_ms_relay r (pl_messenger p)) p.
Definition pl_accounts (p : Portal) : gmap CodeId RelayAccount := rl_accounts (pl_relay p).
Definition set_rl_sessions sessions transports r :=
  set_rl_connections (rl_accounts r) sessions transports (rl_active_connections r)
    (rl_frame_limits r) (rl_rooms r) r.
Definition set_ra_platform (v : option ClientPlatform) (a : RelayAccount) : RelayAccount :=
  mkRelayAccount (ra_username a) (ra_password_file a) (ra_identity_public a)
    (ra_identity_envelope a) (ra_prekey_id a) (ra_state_revision a) (ra_state_revision_window a)
    (ra_connected a) v.

(** An operation that may end early with an [E]. *)
Definition Action (E A : Type) : Type := ST Portal E A.
Definition with_portal {E A} (f : Portal → A * Portal) : Action E A := λ p,
  let '(x, p) := f p in (Ok x, p).
Definition with_relay {E A} (f : Relay → A * Relay) : Action E A := λ p,
  let '(x, r) := f (pl_relay p) in (Ok x, set_pl_relay r p).
(** A handler that cannot fail. *)
Definition run_handler {E A} (h : Handler A) : Action E () := with_relay (λ r, (tt, (h r).2)).

Definition set_accounts (f : gmap CodeId RelayAccount → gmap CodeId RelayAccount) (r : Relay) : Relay :=
  set_rl_accounts (f (rl_accounts r)) r.

Section accounts.
Context {HO : HashOrder} {B64 : Base64} {ENV : RelayEnv} {JSON : SerdeJson} {FJ : FrameJson}.
Context {KEYS : Keys} {DRAWS : Draws} {CJ : ClientJson} {IDS : DirectIds}.
Context {AUTH : AuthEnv} {OPAQUE : OpaqueSuite} {REL : ReleaseEnv}.

(** [now_ms()], and a tick at which something is drawn. *)
Definition read_clock {E} : Action E Z :=
  with_relay (λ r, (now_ms (rl_ticks r), set_rl_ticks (S (rl_ticks r)) r)).
Definition next_tick {E} : Action E nat :=
  with_relay (λ r, (rl_ticks r, set_rl_ticks (S (rl_ticks r)) r)).
Definition touch {E} : Action E () := run_handler touch_activity.
Definition refuse_if {E} (b : bool) (e : E) : Action E () := lift (reject_if b e).

(** ** Sessions *)

Definition session_is_expired (s : AuthSession) (now inactivity_limit_ms : Z) : bool :=
  bool_decide (inactivity_limit_ms ≤ saturating_sub now (as_last_activity_ms s)).
Definition stale (now : Z) (s : AuthSession) : bool := session_is_expired s now session_inactivity_ms.

(** The transport sessions that do not belong to any of the tokens. *)
Definition without_tokens (tokens : gset string) (transports : gmap bytes SessionTransportState)
    : gmap bytes SessionTransportState :=
  retain (λ _ t, negb (bool_decide (tp_token t ∈ tokens))) transports.

Definition active_session {E} (token : string) (touch : bool) : Action E (option AuthSession) :=
  now ← read_clock;
  with_relay (λ r,
    match rl_sessions r !! token with
    | None => (None, r)
    | Some s =>
        if stale now s
        then (None, set_rl_sessions (delete token (rl_sessions r))
                      (without_tokens {[token]} (rl_transport_sessions r)) r)
        else if touch
        then let s := mkSession (as_code_id s) (as_username s) now in
             (Some s, set_rl_sessions (<[token := s]> (rl_sessions r)) (rl_transport_sessions r) r)
        else (Some s, r)
    end).

Definition code_has_active_session {E} (code_id : CodeId) : Action E bool :=
  now ← read_clock;
  with_relay (λ r,
    let expired_tokens := dom (retain (λ _ s, stale now s) (rl_sessions r)) in
    let sessions := retain (λ _ s, negb (stale now s)) (rl_sessions r) in
    (existsb (λ s, bool_decide (as_code_id s = code_id)) (hash_values sessions),
     set_rl_sessions sessions (without_tokens expired_tokens (rl_transport_sessions r)) r)).

(** ** Codes and attempts *)

Definition derive_code_id (capability : bytes) : CodeId :=
  hmac_sha256 invite_code_pepper (CODE_ID_DOMAIN ++ capability).

Definition account_context_v1 (capability : bytes) : bytes :=
  sha256_bytes (ACCOUNT_CONTEXT_DOMAIN ++ node_public_key ++ capability).

(** The invites a relay starts with, and their codes. *)
Record IssuedInvite : Type := mkInvite {
  iv_capability : bytes;
  iv_expires_at : option Z
}.
(** None when the relay panics over a capability drawn twice. *)
Definition issued_codes (invites : list IssuedInvite) : option (gset CodeId) :=
  let codes : gset CodeId := list_to_set ((λ i, derive_code_id (iv_capability i)) <$> invites) in
  if bool_decide (size codes ≠ length invites) then None else Some codes.
Definition issued_expiries (invites : list IssuedInvite) : gmap CodeId Z :=
  foldl (λ expiries i,
    match iv_expires_at i with
    | Some expiry => <[derive_code_id (iv_capability i) := expiry]> expiries
    | None => expiries
    end) ∅ invites.

Definition forget_code (code_id : CodeId) (p : Portal) : Portal :=
  set_pl_codes (pl_available_codes p ∖ {[code_id]}) (delete code_id (pl_capability_expiries p)) p.

Definition available_capability_is_live {E} (code_id : CodeId) : Action E bool :=
  p ← get;
  if negb (bool_decide (code_id ∈ pl_available_codes p)) then mret false
  else
    match pl_capability_expiries p !! code_id with
    | None => mret true
    | Some expires_at =>
        now ← read_clock;
        if bool_decide (expires_at ≤ now / 1000) then _ ← modify (forget_code code_id); mret false
        else mret true
    end.

Definition known_code_id {E} (code_id : CodeId) : Action E bool :=
  p ← get;
  if contains_key code_id (pl_accounts p) then mret true else available_capability_is_live code_id.

Definition login_attempt_allowed {E} (code_id : CodeId) : Action E bool :=
  now ← read_clock;
  with_portal (λ p,
    let limits :=
      retain (λ _ rate, negb (bool_decide (LOGIN_RATE_WINDOW_MS
                                ≤ saturating_sub now (rt_window_start_ms rate))))
        (pl_login_limits p) in
    if negb (contains_key code_id limits) && bool_decide (MAX_LOGIN_LIMIT_ENTRIES ≤ map_len limits)
    then (false, set_pl_login_limits limits p)
    else
      let '(allowed, rate) :=
        record_rate_attempt (default (mkRate now 0 0) (limits !! code_id)) now LOGIN_RATE_WINDOW_MS
          LOGIN_MAX_ATTEMPTS_PER_WINDOW in
      (allowed, set_pl_login_limits (<[code_id := rate]> limits) p)).

Definition clear_login_limit {E} (code_id : CodeId) : Action E () :=
  modify (λ p, set_pl_login_limits (delete code_id (pl_login_limits p)) p).

(** ** Handshakes *)

Definition live_handshakes (now : Z) (handshakes : gmap Uuid OpaqueHandshake)
    : gmap Uuid OpaqueHandshake :=
  retain (λ _ h, bool_decide (saturating_sub now (handshake_created_at_ms h)
                                < OPAQUE_HANDSHAKE_TTL_MS)) handshakes.

Definition prune_opaque_handshakes {E} : Action E () :=
  now ← read_clock;
  modify (λ p,
    let handshakes := live_handshakes now (pl_opaque_handshakes p) in
    set_pl_handshakes handshakes
      (retain (λ id _, contains_key id handshakes) (pl_registration_credential_requests p)) p).

Definition store_opaque_handshake {E} (id : Uuid) (h : OpaqueHandshake) : Action E bool :=
  now ← read_clock;
  with_portal (λ p,
    let handshakes := live_handshakes now (pl_opaque_handshakes p) in
    let full := bool_decide (MAX_OPAQUE_HANDSHAKES ≤ map_len handshakes) in
    (negb full,
     set_pl_handshakes (if full then handshakes else <[id := h]> handshakes)
       (pl_registration_credential_requests p) p)).

(** [opaque_handshakes.remove(&id)]. *)
Definition take_handshake {E} (id : Uuid) (e : E) : Action E OpaqueHandshake := λ p,
  (ok_or (pl_opaque_handshakes p !! id) e,
   set_pl_handshakes (delete id (pl_opaque_handshakes p)) (pl_registration_credential_requests p) p).
Definition take_credential_request {E} (id : Uuid) (e : E) : Action E (bytes * bytes) := λ p,
  (ok_or (pl_registration_credential_requests p !! id) e,
   set_pl_handshakes (pl_opaque_handshakes p)
     (delete id (pl_registration_credential_requests p)) p).

(** ** The proof of a registered identity (secure_protocol.rs) *)

Definition valid_prekey_id_for_protocol (value : string) : bool :=
  negb (bool_decide (value = EmptyString)) && bool_decide (slen value ≤ 32) && all_id_bytes value.

Definition registration_identity_proof_input_v9 (node_id handshake_id : string)
    (challenge registration_upload identity_public : bytes) (prekey_id : string)
    (identity_envelope : bytes) : result string bytes :=
  _ ← reject_if
        (bool_decide (node_id = EmptyString) || bool_decide (128 < slen node_id)
         || negb (is_ascii (text_bytes node_id)) || bool_decide (handshake_id = EmptyString)
         || bool_decide (128 < slen handshake_id) || negb (is_ascii (text_bytes handshake_id))
         || bool_decide (len challenge ≠ REGISTRATION_CHALLENGE_BYTES)
         || bool_decide (registration_upload = []) || bool_decide (16 * 1024 < len registration_upload)
         || bool_decide (len identity_public ≠ IDENTITY_PUBLIC_BYTES)
         || negb (valid_prekey_id_for_protocol prekey_id)
         || bool_decide (len identity_envelope ≤ 1 + NONCE_BYTES + ATTACHMENT_TAG_BYTES)
         || bool_decide (MAX_IDENTITY_STATE_BYTES < len identity_envelope)
         || bool_decide (head identity_envelope ≠ Some IDENTITY_ENVELOPE_VERSION))
        "Identity proof rejected"%string;
  _ ← validate_identity_public_bundle identity_public (Some prekey_id);
  Ok (text_bytes "ABYSSAL_REGISTRATION_IDENTITY_PROOF_V9" ++ be_bytes 4 PROTOCOL_VERSION
      ++ canonical_parts
           [text_bytes node_id; text_bytes handshake_id; challenge; registration_upload;
            identity_public; text_bytes prekey_id; identity_envelope]).

Definition verify_registration_identity_proof_v9 (node_id handshake_id : string)
    (challenge registration_upload identity_public : bytes) (prekey_id : string)
    (identity_envelope proof : bytes) : result string () :=
  let rejected := "Identity proof rejected"%string in
  _ ← reject_if (bool_decide (len proof ≠ IDENTITY_STATE_SIGNATURE_BYTES)) rejected;
  transcript ← registration_identity_proof_input_v9 node_id handshake_id challenge
                 registration_upload identity_public prekey_id identity_envelope;
  if negb (ed25519_key (identity_ed identity_public)) then Err rejected
  else if ed25519_verify (identity_ed identity_public) transcript proof then Ok tt
  else Err rejected.

(** ** New accounts *)

Definition unique_account_id (draws : nat → string) (is_taken : string → bool) : option string :=
  List.find (λ candidate, negb (is_taken candidate))
    ((λ i, ("acct_" +:+ draws i)%string) <$> seq 0 128).
Definition random_unique_username (draws : nat → string) (accounts : gmap CodeId RelayAccount)
    : option string :=
  unique_account_id draws (λ candidate,
    existsb (λ a, eq_ignore_ascii_case (ra_username a) candidate) (hash_values accounts)).

(** The block of both registrations that runs under [conversation_ops]: the code
    is spent for an account under a fresh name. *)
Definition create_account {E} (code_id : CodeId) (password_file identity_public identity_envelope : bytes)
    (prekey_id : string) (e : E) : Action E string :=
  n ← next_tick;
  p ← get;
  username ← lift (ok_or (random_unique_username (draw_account_id n) (pl_accounts p)) e);
  _ ← modify (forget_code code_id);
  _ ← with_relay (λ r, (tt, set_accounts
        (<[code_id := mkRelayAccount username password_file identity_public identity_envelope
                        prekey_id 0 1 false None]>) r));
  mret username.

(** ** New sessions *)

(** [clear_ws_tickets_for_session] for each of the tokens. *)
Definition tickets_without (tokens : gset string) (tickets : gmap bytes WsTicket)
    : gmap bytes WsTicket :=
  retain (λ _ t, negb (bool_decide (wt_session_token t ∈ tokens))) tickets.

(** The sessions of the account are replaced by one, with a transport session or
    without; the tickets of the replaced ones are forgotten. *)
Definition replace_session (code_id : CodeId) (username token : string) (now : Z)
    (transport : option (bytes * bytes)) (p : Portal) : Portal :=
  let r := pl_relay p in
  let replaced := dom (retain (λ _ s, bool_decide (as_code_id s = code_id)) (rl_sessions r)) in
  let sessions :=
    <[token := mkSession code_id username now]>
      (retain (λ _ s, negb (bool_decide (as_code_id s = code_id))) (rl_sessions r)) in
  let transports := without_tokens replaced (rl_transport_sessions r) in
  let transports :=
    match transport with
    | Some (session_id, root) => <[session_id := mkTransport token root session_id]> transports
    | None => transports
    end in
  set_pl_tickets (tickets_without replaced (pl_ws_tickets p))
    (set_pl_relay (set_rl_sessions sessions transports r) p).

(** The account of the code, whose platform has to be attested again. *)
Definition unbind_platform {E} (code_id : CodeId) (e : E) : Action E RelayAccount :=
  p ← get;
  account ← lift (ok_or (pl_accounts p !! code_id) e);
  _ ← with_relay (λ r, (tt, set_accounts (alter (set_ra_platform None) code_id) r));
  mret account.

Definition issue_session (code_id : CodeId) (username : string) (created : bool)
    : Action AuthStatus.t AccountResponse :=
  account ← unbind_platform code_id AuthStatus.UNAUTHORIZED;
  n ← next_tick;
  now ← read_clock;
  _ ← modify (replace_session code_id username (draw_token n) now None);
  mret (mkAccountResponse created (draw_token n) username (b64_encode (ra_identity_public account))
          (ra_prekey_id account) (b64_encode (ra_identity_envelope account))).

(** [random_nonzero_session_id], after these draws. *)
Definition random_nonzero_session_id (draws : list bytes) : option bytes :=
  List.find (λ id, negb (bool_decide (id = zeros 32))) draws.

Definition issue_transport_session (code_id : CodeId) (username : string) (transport_root : bytes)
    (created : bool) : Action () AccountBootstrapResult :=
  let session_inactivity_sec := session_inactivity_ms / 1000 in
  _ ← refuse_if (bool_decide (u32_MAX < max_rooms_per_user)
                 || bool_decide (u32_MAX < session_inactivity_sec)
                 || negb (bool_decide (1 ≤ max_rooms_per_user ≤ 100))
                 || negb (bool_decide (60 ≤ session_inactivity_sec ≤ 24 * 60 * 60))) tt;
  account ← unbind_platform code_id tt;
  n ← next_tick;
  session_id ← lift (ok_or (random_nonzero_session_id (draw_session_ids n)) tt);
  n ← next_tick;
  now ← read_clock;
  _ ← modify (replace_session code_id username (draw_token n) now (Some (session_id, transport_root)));
  mret (Session session_id created max_rooms_per_user session_inactivity_sec username
          (ra_identity_public account) (ra_prekey_id account) (ra_identity_envelope account)).

(** ** Accounts over the sealed transport (bootstrap_auth.rs) *)

Definition bounded_raw {E} (value : bytes) (max_bytes : Z) (e : E) : result E bytes :=
  if bool_decide (value = []) || bool_decide (max_bytes < len value) then Err e else Ok value.

(** The guards of a start: a code that is not known is refused before it costs an
    entry of the limiter. *)
Definition admit_start {E} (code_id : CodeId) (unknown limited busy : E) : Action E () :=
  known ← known_code_id code_id;
  _ ← refuse_if (negb known) unknown;
  allowed ← login_attempt_allowed code_id;
  _ ← refuse_if (negb allowed) limited;
  active ← code_has_active_session code_id;
  refuse_if active busy.

Definition start_login {E} (account : RelayAccount) (code_id : CodeId) (handshake_id : Uuid)
    (request context : bytes) (refused full : E) : Action E bytes :=
  n ← next_tick;
  '(server_state, response) ←
    lift (ok_or (opaque_server_start_login n (ra_password_file account) request context) refused);
  now ← read_clock;
  stored ← store_opaque_handshake handshake_id
             (Login code_id (ra_username account) server_state now false);
  _ ← refuse_if (negb stored) full;
  mret response.

Definition start_registration {E} (code_id : CodeId) (handshake_id : Uuid)
    (request context : bytes) (refused full : E) : Action E (bytes * bytes) :=
  response ← lift (ok_or (opaque_server_registration_response request context) refused);
  n ← next_tick;
  let challenge := draw_challenge n in
  now ← read_clock;
  stored ← store_opaque_handshake handshake_id (Registration code_id challenge now);
  _ ← refuse_if (negb stored) full;
  mret (response, challenge).

Definition bootstrap_start (capability registration_request credential_request : bytes)
    : Action () AccountBootstrapResult :=
  _ ← prune_opaque_handshakes;
  let code_id := derive_code_id capability in
  _ ← admit_start code_id tt tt tt;
  n ← next_tick;
  let handshake_id := draw_uuid n in
  let context := account_context_v1 capability in
  p ← get;
  match pl_accounts p !! code_id with
  | Some account =>
      request ← lift (bounded_raw credential_request ACCOUNT_BODY_LIMIT_BYTES tt);
      response ← start_login account code_id handshake_id request context tt tt;
      _ ← touch;
      mret (LoginStart handshake_id response (ra_identity_public account) (ra_prekey_id account)
              (ra_identity_envelope account))
  | None =>
      request ← lift (bounded_raw registration_request ACCOUNT_BODY_LIMIT_BYTES tt);
      '(response, challenge) ← start_registration code_id handshake_id request context tt tt;
      _ ← modify (λ p, set_pl_handshakes (pl_opaque_handshakes p)
            (<[handshake_id := (credential_request, context)]>
               (pl_registration_credential_requests p)) p);
      _ ← touch;
      mret (RegistrationStart handshake_id response challenge)
  end.

Definition bootstrap_finish_registration (handshake_id : Uuid) (upload identity_public : bytes)
    (prekey_id : string) (identity_envelope proof : bytes) : Action () AccountBootstrapResult :=
  _ ← prune_opaque_handshakes;
  handshake ← take_handshake handshake_id tt;
  '(code_id, challenge) ←
    lift match handshake with
         | Registration code_id challenge _ => Ok (code_id, challenge)
         | Login _ _ _ _ _ => Err tt
         end;
  '(credential_request, context) ← take_credential_request handshake_id tt;
  p ← get;
  _ ← refuse_if (contains_key code_id (pl_accounts p)) tt;
  live ← available_capability_is_live code_id;
  _ ← refuse_if (negb live || negb (valid_identity_public_bundle identity_public prekey_id)) tt;
  _ ← refuse_if (negb (is_ok (verify_registration_identity_proof_v9 relay_node_id
                  (uuid_text handshake_id) challenge upload identity_public prekey_id
                  identity_envelope proof))) tt;
  password_file ← lift (ok_or (opaque_server_finish_registration upload) tt);
  credential_request ← lift (bounded_raw credential_request ACCOUNT_BODY_LIMIT_BYTES tt);
  n ← next_tick;
  '(server_state, response) ←
    lift (ok_or (opaque_server_start_login n password_file credential_request context) tt);
  username ← create_account code_id password_file identity_public identity_envelope prekey_id tt;
  _ ← clear_login_limit code_id;
  n ← next_tick;
  let continuation_id := draw_uuid n in
  now ← read_clock;
  stored ← store_opaque_handshake continuation_id (Login code_id username server_state now true);
  _ ← refuse_if (negb stored) tt;
  _ ← touch;
  mret (RegistrationContinuation continuation_id response).

Definition bootstrap_finish_login (handshake_id : Uuid) (finalization : bytes)
    : Action () AccountBootstrapResult :=
  _ ← prune_opaque_handshakes;
  handshake ← take_handshake handshake_id tt;
  '(code_id, username, server_state, created) ←
    lift match handshake with
         | Login code_id username server_state _ created =>
             Ok (code_id, username, server_state, created)
         | Registration _ _ _ => Err tt
         end;
  finalization ← lift (bounded_raw finalization ACCOUNT_BODY_LIMIT_BYTES tt);
  transport_root ← lift (ok_or (opaque_server_finish_login server_state finalization) tt);
  active ← code_has_active_session code_id;
  _ ← refuse_if active tt;
  _ ← clear_login_limit code_id;
  session ← issue_transport_session code_id username transport_root created;
  _ ← touch;
  mret session.

(** [dispatch_exchange] of relay_bootstrap.rs between decoding and encoding: every
    refusal is the same answer. *)
Definition run_bootstrap_action (action : AccountBootstrapAction) (p : Portal)
    : AccountBootstrapResult * Portal :=
  let '(answer, p) :=
    match action with
    | Start capability registration_request credential_request =>
        bootstrap_start capability registration_request credential_request p
    | FinishRegistration handshake_id upload public prekey_id envelope proof =>
        bootstrap_finish_registration handshake_id upload public prekey_id envelope proof p
    | FinishLogin handshake_id finalization => bootstrap_finish_login handshake_id finalization p
    end in
  (match answer with Ok result => result | Err _ => Failure end, p).

(** ** Accounts over HTTP (auth.rs) *)

Definition start_opaque_account (q : OpaqueAccountStartRequest)
    : Action AuthStatus.t OpaqueAccountStartResponse :=
  let bad {A} (r : result string A) : result AuthStatus.t A :=
    match r with Ok a => Ok a | Err _ => Err AuthStatus.BAD_REQUEST end in
  _ ← prune_opaque_handshakes;
  capability ← lift (bad (decode_exact (sq_capability_b64 q) 32));
  let code_id := derive_code_id capability in
  let context := account_context_v1 capability in
  _ ← admit_start code_id AuthStatus.UNAUTHORIZED AuthStatus.TOO_MANY_REQUESTS AuthStatus.CONFLICT;
  n ← next_tick;
  let handshake_id := draw_uuid n in
  p ← get;
  match pl_accounts p !! code_id with
  | Some account =>
      request ← lift (bad (decode_bounded (sq_credential_request_b64 q) ACCOUNT_BODY_LIMIT_BYTES));
      response ← start_login account code_id handshake_id request context AuthStatus.UNAUTHORIZED
                   AuthStatus.TOO_MANY_REQUESTS;
      _ ← touch;
      mret (mkStartResponse "login" handshake_id (b64_encode response) None
              (Some (b64_encode (ra_identity_public account))) (Some (ra_prekey_id account))
              (Some (b64_encode (ra_identity_envelope account))))
  | None =>
      request ← lift (bad (decode_bounded (sq_registration_request_b64 q) ACCOUNT_BODY_LIMIT_BYTES));
      '(response, challenge) ←
        start_registration code_id handshake_id request context AuthStatus.UNAUTHORIZED
          AuthStatus.TOO_MANY_REQUESTS;
      _ ← touch;
      mret (mkStartResponse "registration" handshake_id (b64_encode response)
              (Some (b64_encode challenge)) None None None)
  end.

Definition present {A} (o : option A) : bool := match o with Some _ => true | None => false end.
Definition opaque_finish_request_is_registration (q : OpaqueAccountFinishRequest) : bool :=
  present (fq_registration_upload_b64 q) && negb (present (fq_credential_finalization_b64 q))
  && present (fq_identity_public_b64 q) && present (fq_identity_prekey_id q)
  && present (fq_identity_envelope_b64 q) && present (fq_identity_proof_b64 q).
Definition opaque_finish_request_is_login (q : OpaqueAccountFinishRequest) : bool :=
  negb (present (fq_registration_upload_b64 q)) && present (fq_credential_finalization_b64 q)
  && negb (present (fq_identity_public_b64 q)) && negb (present (fq_identity_prekey_id q))
  && negb (present (fq_identity_envelope_b64 q)) && negb (present (fq_identity_proof_b64 q)).

(** [field.as_deref().ok_or(()).and_then(decode)]. *)
Definition decode_field (field : option string) (decode : string → result string bytes)
    : result AuthStatus.t bytes :=
  match field with
  | Some value => match decode value with Ok b => Ok b | Err _ => Err AuthStatus.BAD_REQUEST end
  | None => Err AuthStatus.BAD_REQUEST
  end.

Definition finish_registration (q : OpaqueAccountFinishRequest) (code_id : CodeId)
    (challenge : bytes) : Action AuthStatus.t AccountResponse :=
  _ ← refuse_if (negb (opaque_finish_request_is_registration q)) AuthStatus.BAD_REQUEST;
  p ← get;
  _ ← refuse_if (contains_key code_id (pl_accounts p)) AuthStatus.CONFLICT;
  live ← available_capability_is_live code_id;
  _ ← refuse_if (negb live) AuthStatus.CONFLICT;
  upload ← lift (decode_field (fq_registration_upload_b64 q)
                   (λ v, decode_bounded v ACCOUNT_BODY_LIMIT_BYTES));
  public ← lift (decode_field (fq_identity_public_b64 q)
                   (λ v, decode_exact v IDENTITY_PUBLIC_BYTES));
  prekey_id ← lift (ok_or (fq_identity_prekey_id q) AuthStatus.BAD_REQUEST);
  _ ← refuse_if (negb (valid_prekey_id prekey_id)) AuthStatus.BAD_REQUEST;
  _ ← refuse_if (negb (valid_identity_public_bundle public prekey_id)) AuthStatus.BAD_REQUEST;
  envelope ← lift (decode_field (fq_identity_envelope_b64 q)
                     (λ v, decode_bounded v MAX_IDENTITY_ENVELOPE_BYTES));
  _ ← refuse_if (bool_decide (envelope = [])) AuthStatus.BAD_REQUEST;
  proof ← lift (decode_field (fq_identity_proof_b64 q)
                  (λ v, decode_exact v MESSAGE_SIGNATURE_BYTES));
  _ ← refuse_if (negb (is_ok (verify_registration_identity_proof_v9 relay_node_id
                  (uuid_text (fq_handshake_id q)) challenge upload public prekey_id envelope
                  proof))) AuthStatus.UNAUTHORIZED;
  password_file ← lift (ok_or (opaque_server_finish_registration upload) AuthStatus.UNAUTHORIZED);
  username ← create_account code_id password_file public envelope prekey_id
               AuthStatus.SERVICE_UNAVAILABLE;
  _ ← clear_login_limit code_id;
  response ← issue_session code_id username true;
  _ ← touch;
  mret response.

Definition finish_login (q : OpaqueAccountFinishRequest) (code_id : CodeId) (username : string)
    (server_state : bytes) : Action AuthStatus.t AccountResponse :=
  _ ← refuse_if (negb (opaque_finish_request_is_login q)) AuthStatus.BAD_REQUEST;
  finalization ← lift (decode_field (fq_credential_finalization_b64 q)
                         (λ v, decode_bounded v ACCOUNT_BODY_LIMIT_BYTES));
  _ ← lift (ok_or (opaque_server_finish_login server_state finalization) AuthStatus.UNAUTHORIZED);
  active ← code_has_active_session code_id;
  _ ← refuse_if active AuthStatus.CONFLICT;
  _ ← clear_login_limit code_id;
  response ← issue_session code_id username false;
  _ ← touch;
  mret response.

Definition finish_opaque_account (q : OpaqueAccountFinishRequest)
    : Action AuthStatus.t AccountResponse :=
  _ ← prune_opaque_handshakes;
  handshake ← take_handshake (fq_handshake_id q) AuthStatus.UNAUTHORIZED;
  match handshake with
  | Registration code_id challenge _ => finish_registration q code_id challenge
  | Login code_id username server_state _ _ => finish_login q code_id username server_state
  end.

(** ** Tickets *)

(** [bearer_token] of the Authorization header, when that is text. *)
Definition bearer_token (authorization : option string) : option string :=
  value ← authorization;
  if String.prefix "Bearer " value then
    let token := trim (String.substring 7 (String.length value - 7) value) in
    if bool_decide (token = EmptyString) || bool_decide (128 < slen token) then None else Some token
  else None.

Definition ws_ticket_digest (value : string) : option bytes :=
  if bool_decide (slen value ≠ WS_TICKET_B64_LEN) || negb (all_id_bytes value) then None
  else
    decoded ← b64_decode value;
    if bool_decide (len decoded ≠ WS_TICKET_BYTES) then None else Some (sha256_bytes decoded).

Definition prune_ws_tickets_locked (now : Z) (tickets : gmap bytes WsTicket) : gmap bytes WsTicket :=
  retain (λ _ t, negb (bool_decide (wt_expires_at_ms t ≤ now))) tickets.

(** The loop that draws a ticket nobody holds, after these draws. *)
Fixpoint draw_ticket (tickets : gmap bytes WsTicket) (draws : list bytes) : option (string * bytes) :=
  match draws with
  | [] => None
  | random :: draws =>
      let ticket := b64_encode random in
      match ws_ticket_digest ticket with
      | Some digest =>
          if contains_key digest tickets then draw_ticket tickets draws else Some (ticket, digest)
      | None => draw_ticket tickets draws
      end
  end.

(** An account is bound to the platform that first connected. *)
Definition bound_elsewhere (account : RelayAccount) (platform : ClientPlatform) : bool :=
  match ra_client_platform account with
  | Some bound => negb (bool_decide (bound = platform))
  | None => false
  end.

Definition bind_platform {E} (code_id : CodeId) (platform : ClientPlatform) : Action E () :=
  with_relay (λ r, (tt, set_accounts (alter (set_ra_platform (Some platform)) code_id) r)).

Definition insert_ticket {E} (digest : bytes) (token : string) (now : Z) (platform : ClientPlatform)
    : Action E () :=
  modify (λ p, set_pl_tickets
    (<[digest := mkWsTicket token (saturating_add u64_MAX now WS_TICKET_TTL_MS) platform]>
       (pl_ws_tickets p)) p).

Definition issue_ws_ticket (authorization : option string) (attestation : BuildAttestationRequest)
    : Action AuthStatus.t string :=
  n ← next_tick;
  _ ← lift match admit_build attestation (now_ms n) (release_store n) with
           | Ok _ => Ok tt
           | Err Unavailable => Err AuthStatus.SERVICE_UNAVAILABLE
           | Err _ => Err AuthStatus.UPGRADE_REQUIRED
           end;
  platform ← lift (ok_or (ClientPlatform.parse (ba_platform attestation))
                     AuthStatus.UPGRADE_REQUIRED);
  token ← lift (ok_or (bearer_token authorization) AuthStatus.UNAUTHORIZED);
  session ← active_session token false;
  session ← lift (ok_or session AuthStatus.UNAUTHORIZED);
  p ← get;
  account ← lift (ok_or (pl_accounts p !! as_code_id session) AuthStatus.UNAUTHORIZED);
  _ ← refuse_if (bound_elsewhere account platform) AuthStatus.CONFLICT;
  now ← read_clock;
  _ ← modify (λ p, set_pl_tickets
        (tickets_without {[token]} (prune_ws_tickets_locked now (pl_ws_tickets p))) p);
  p ← get;
  _ ← refuse_if (bool_decide (MAX_WS_TICKETS ≤ map_len (pl_ws_tickets p)))
        AuthStatus.TOO_MANY_REQUESTS;
  n ← next_tick;
  '(ticket, digest) ← lift (ok_or (draw_ticket (pl_ws_tickets p) (draw_tickets n))
                              AuthStatus.PENDING);
  p ← get;
  account ← lift (ok_or (pl_accounts p !! as_code_id session) AuthStatus.UNAUTHORIZED);
  _ ← refuse_if (bound_elsewhere account platform) AuthStatus.CONFLICT;
  _ ← bind_platform (as_code_id session) platform;
  _ ← insert_ticket digest token now platform;
  _ ← touch;
  mret ticket.

(** The transport session of the identifier belongs to the token. *)
Definition transport_live (session_id : bytes) (token : string) (r : Relay) : bool :=
  match rl_transport_sessions r !! session_id with
  | Some t => bool_decide (tp_token t = token)
  | None => false
  end.

Definition end_session (token : string) (r : Relay) : Relay :=
  set_rl_sessions (delete token (rl_sessions r))
    (without_tokens {[token]} (rl_transport_sessions r)) r.

(** The session of the token, which is ended when it has expired. *)
Definition live_session (token : string) : Action () AuthSession :=
  p ← get;
  session ← lift (ok_or (rl_sessions (pl_relay p) !! token) tt);
  now ← read_clock;
  if stale now session
  then _ ← with_relay (λ r, (tt, end_session token r)); lift (Err tt)
  else mret session.

(** [issue_ws_ticket_for_transport] (control.rs). *)
Definition issue_ws_ticket_for_transport (session_id : bytes) (token : string)
    (attestation : BuildAttestationRequest) : Action () string :=
  n ← next_tick;
  _ ← refuse_if (negb (is_ok (admit_build attestation (now_ms n) (release_store n)))) tt;
  platform ← lift (ok_or (ClientPlatform.parse (ba_platform attestation)) tt);
  session ← live_session token;
  p ← get;
  _ ← refuse_if (negb (transport_live session_id token (pl_relay p))) tt;
  account ← lift (ok_or (pl_accounts p !! as_code_id session) tt);
  _ ← refuse_if (bound_elsewhere account platform) tt;
  now ← read_clock;
  _ ← modify (λ p, set_pl_tickets (prune_ws_tickets_locked now (pl_ws_tickets p)) p);
  p ← get;
  let tickets := pl_ws_tickets p in
  let existing := existsb (λ t, bool_decide (wt_session_token t = token)) (hash_values tickets) in
  _ ← refuse_if (negb existing && bool_decide (MAX_WS_TICKETS ≤ map_len tickets)) tt;
  n ← next_tick;
  '(ticket, digest) ← lift (ok_or (draw_ticket tickets (draw_tickets n)) tt);
  _ ← modify (λ p, set_pl_tickets (tickets_without {[token]} (pl_ws_tickets p)) p);
  _ ← bind_platform (as_code_id session) platform;
  _ ← insert_ticket digest token now platform;
  _ ← touch;
  mret ticket.

(** What both consumptions do with a ticket that was removed. *)
Definition redeem_ticket (ticket : WsTicket) : Action () (string * AuthSession * ClientPlatform) :=
  session ← active_session (wt_session_token ticket) true;
  session ← lift (ok_or session tt);
  _ ← touch;
  mret (wt_session_token ticket, session, wt_client_platform ticket).

Definition consume_ws_ticket (ticket_value : string)
    : Action () (string * AuthSession * ClientPlatform) :=
  digest ← lift (ok_or (ws_ticket_digest ticket_value) tt);
  now ← read_clock;
  ticket ← with_portal (λ p,
    let tickets := prune_ws_tickets_locked now (pl_ws_tickets p) in
    (tickets !! digest, set_pl_tickets (delete digest tickets) p));
  ticket ← lift (ok_or ticket tt);
  redeem_ticket ticket.

Definition consume_ws_ticket_for_session (ticket_value expected_session_token : string)
    : Action () (string * AuthSession * ClientPlatform) :=
  digest ← lift (ok_or (ws_ticket_digest ticket_value) tt);
  now ← read_clock;
  ticket ← with_portal (λ p,
    let tickets := prune_ws_tickets_locked now (pl_ws_tickets p) in
    match tickets !! digest with
    | Some ticket =>
        if bool_decide (wt_session_token ticket = expected_session_token)
        then (Some ticket, set_pl_tickets (delete digest tickets) p)
        else (None, set_pl_tickets tickets p)
    | None => (None, set_pl_tickets tickets p)
    end);
  ticket ← lift (ok_or ticket tt);
  redeem_ticket ticket.

(** ** Logout and expiry *)

Definition close_session {E} (token : string) (code_id : CodeId) : Action E () :=
  _ ← modify (λ p, set_pl_tickets (tickets_without {[token]} (pl_ws_tickets p)) p);
  _ ← run_handler (replace_connected_clients_for_code code_id);
  touch.

Definition logout_account (authorization : option string) : Action AuthStatus.t () :=
  token ← lift (ok_or (bearer_token authorization) AuthStatus.UNAUTHORIZED);
  p ← get;
  session ← lift (ok_or (rl_sessions (pl_relay p) !! token) AuthStatus.UNAUTHORIZED);
  _ ← with_relay (λ r, (tt, end_session token r));
  close_session token (as_code_id session).

(** [logout_transport_session] (control.rs). *)
Definition logout_transport_session (session_id : bytes) (token : string) : Action () () :=
  p ← get;
  session ← lift (ok_or (rl_sessions (pl_relay p) !! token) tt);
  _ ← refuse_if (negb (transport_live session_id token (pl_relay p))) tt;
  now ← read_clock;
  _ ← with_relay (λ r, (tt, end_session token r));
  _ ← refuse_if (stale now session) tt;
  close_session token (as_code_id session).

(** One turn of [session_sweeper], without the receipts of the bootstrap and
    control endpoints. *)
Definition session_sweep : Action () () :=
  now ← read_clock;
  _ ← with_relay (λ r,
    let sessions := retain (λ _ s, negb (stale now s)) (rl_sessions r) in
    (tt, set_rl_sessions sessions
           (retain (λ _ t, contains_key (tp_token t) sessions) (rl_transport_sessions r)) r));
  _ ← modify (λ p, set_pl_tickets (prune_ws_tickets_locked now (pl_ws_tickets p)) p);
  modify (λ p, set_pl_messenger
    (set_ms_mailbox (prune_pending_queues now pending_message_ttl_ms (ms_mailbox (pl_messenger p)))
       (pl_messenger p)) p).

(** ** Connections *)

(** [reserve_connection] and the installation of the client in
    [socket_loop_v11]. *)
Definition reserve_connection (code_id : CodeId) (client_id : Uuid) (active : gmap CodeId Uuid)
    : option (gmap CodeId Uuid) :=
  if contains_key code_id active then None else Some (<[code_id := client_id]> active).

Definition connect_client (auth : AuthSession) (platform : ClientPlatform) : Action () Uuid :=
  n ← next_tick;
  let client_id := draw_uuid n in
  let code_id := as_code_id auth in
  p ← get;
  active ← lift (ok_or (reserve_connection code_id client_id (rl_active_connections (pl_relay p))) tt);
  _ ← with_relay (λ r,
    (tt, set_rl_connections (alter (set_ra_connected true) code_id (rl_accounts r)) (rl_sessions r)
           (rl_transport_sessions r) active (rl_frame_limits r) (rl_rooms r)
           (set_rl_outbound
              (open_connection client_id (mkClient code_id (as_username auth) platform)
                 (rl_outbound r)) r)));
  _ ← run_handler broadcast_presence;
  mret client_id.

(** ** Frames and the wipe *)

(** The stores of authentication that [wipe_relay_state] clears. *)
Definition wipe_credentials (p : Portal) : Portal := mkPortal (pl_messenger p) ∅ ∅ ∅ ∅ ∅ ∅.

(** The frame is an accepted [GlobalWipe]. *)
Definition frame_wipes (sender_id : Uuid) (text : string) (s : Messenger) : bool :=
  is_ok (validate_inbound_frame_size_before_parse (text_bytes text))
  && match parse_frame text with
     | Ok ClientFrame.GlobalWipe => contains_key sender_id (rl_clients (ms_relay s))
     | _ => false
     end.

Definition portal_handle_frame (sender_id : Uuid) (text : string) (p : Portal)
    : result string () * Portal :=
  let '(answer, s) := handle_frame sender_id text (pl_messenger p) in
  let p' := set_pl_messenger s p in
  (answer, if frame_wipes sender_id text (pl_messenger p) then wipe_credentials p' else p').

Definition portal_inactivity_check (inactivity_limit_ms : Z) (p : Portal) : Portal :=
  let r := pl_relay p in
  let idle :=
    bool_decide (inactivity_limit_ms
                   ≤ saturating_sub (now_ms (rl_ticks r)) (rl_last_activity_ms r)) in
  let p' := set_pl_messenger (inactivity_check inactivity_limit_ms (pl_messenger p)).2 p in
  if idle then wipe_credentials p' else p'.
End accounts.
