(* ===== verification/AccountFacts.v ===== *)
(** * What frames and account operations preserve

    [calm]: frames leave credentials alone, and at most end sessions.  [Portal]
    operations are followed with Hoare triples [ensures], whose assertions say
    that the stores of authentication agree ([auth_ok]), what became of the
    credentials since a given state, and which sessions and tickets are new. *)

From S2P Require Import Prelude MlsWire TransactionReceipts RoomModel RoomValidation RoomAuthority.
From S2P Require Import RoomLifecycle TransportWire TransportPadding AccountBootstrap.
From S2P Require Import AttachmentAccess AttachmentStore AttachmentStoreFacts AttachmentTheorems.
From S2P Require Import AttachmentBlob RelayFrame OutboundQueue OutboundTheorems RateLimit Relay.
From S2P Require Import MlsRelay MlsDispatch RelayFacts RelayRun IdentityBundle Mailbox.
From S2P Require Import IdentityState MailboxFacts DirectMessages RelayDispatch Release DirectFacts.
From S2P Require Import DirectTheorems MessengerRun Accounts.

(** ** Frames are calm *)

(** The credentials of every account. *)
Definition creds (accounts : gmap CodeId RelayAccount) : gmap CodeId (string * bytes) :=
  (λ a, (ra_username a, ra_password_file a)) <$> accounts.

Record calm (r r' : Relay) : Prop := mkCalm {
  cm_creds : creds (rl_accounts r') = creds (rl_accounts r);
  cm_sessions : rl_sessions r' ⊆ rl_sessions r;
  cm_transports : rl_transport_sessions r' ⊆ rl_transport_sessions r;
  cm_tokens k t : rl_transport_sessions r' !! k = Some t → is_Some (rl_sessions r !! tp_token t) →
    is_Some (rl_sessions r' !! tp_token t);
  cm_ticks : (rl_ticks r ≤ rl_ticks r')%nat
}.

#[export] Instance calm_preorder : PreOrder calm.
Proof.
  split.
  - intros r. by split.
  - intros r1 r2 r3 [C1 S1 T1 K1 N1] [C2 S2 T2 K2 N2]. split; [congruence|by etrans|by etrans| |lia].
    intros k t Hk Hs. apply (K2 k t Hk). apply (K1 k t); [|done]. by eapply lookup_weaken.
Qed.

Lemma calm_same r r' :
  rl_accounts r' = rl_accounts r → rl_sessions r' = rl_sessions r →
  rl_transport_sessions r' = rl_transport_sessions r → (rl_ticks r ≤ rl_ticks r')%nat → calm r r'.
Proof. intros E1 E2 E3 ?. split; rewrite ?E1, ?E2, ?E3; done. Qed.

(** A change of one account that keeps its credentials. *)
Lemma creds_alter f c m :
  (∀ a, ra_username (f a) = ra_username a ∧ ra_password_file (f a) = ra_password_file a) →
  creds (alter f c m) = creds m.
Proof.
  intros Hf. apply map_eq. intros k. unfold creds. rewrite !lookup_fmap.
  destruct (decide (k = c)) as [->|]; [|by rewrite lookup_alter_ne].
  rewrite lookup_alter. case_decide; [|done]. destruct (m !! c) as [a|]; simpl; [|done].
  by destruct (Hf a) as [-> ->].
Qed.
Lemma creds_insert c a m : creds (<[c := a]> m) = <[c := (ra_username a, ra_password_file a)]> (creds m).
Proof. unfold creds. by rewrite fmap_insert. Qed.
Lemma creds_lookup c m u pw :
  creds m !! c = Some (u, pw) ↔ ∃ a, m !! c = Some a ∧ ra_username a = u ∧ ra_password_file a = pw.
Proof.
  unfold creds. rewrite lookup_fmap. destruct (m !! c); simpl; naive_solver.
Qed.
Lemma creds_None c m : creds m !! c = None ↔ m !! c = None.
Proof. unfold creds. rewrite lookup_fmap. destruct (m !! c); naive_solver. Qed.

Section calm.
Context {HO : HashOrder} {B64 : Base64} {ENV : RelayEnv} {JSON : SerdeJson} {FJ : FrameJson}.
Context (r0 : Relay).
Abbreviation c0 := (calm r0).

Lemma calm_step {A} (h : Handler A) : (∀ r, calm r (h r).2) → preserves c0 h.
Proof. intros Hh r Hr. by etrans; [exact Hr|apply Hh]. Qed.
Lemma calm_rooms {A} f : preserves c0 (@on_rooms A f).
Proof. apply calm_step. intros r. unfold on_rooms. destruct (f _). by apply calm_same. Qed.
Lemma calm_ask {A} f : preserves c0 (@ask_rooms A f).
Proof. apply calm_step. intros r. unfold ask_rooms. destruct (f _). by apply calm_same. Qed.
Lemma calm_attachments {A} f : preserves c0 (@on_attachments A f).
Proof. apply calm_step. intros r. unfold on_attachments. destruct (f _). by apply calm_same. Qed.
Lemma calm_set_attachments f : preserves c0 (modify (λ r, set_rl_attachments (f r) r)).
Proof. apply calm_step. intros r. by apply calm_same. Qed.
Lemma calm_outbound f : preserves c0 (modify (λ r, set_rl_outbound (f r) r)).
Proof. apply calm_step. intros r. by apply calm_same. Qed.
Lemma calm_tick : preserves c0 tick.
Proof. apply calm_step. intros r. apply calm_same; simpl; auto with lia. Qed.
Lemma calm_touch : preserves c0 touch_activity.
Proof. apply calm_step. intros r. apply calm_same; simpl; auto with lia. Qed.
Lemma calm_find id : preserves c0 (find_client id).
Proof. by intros r. Qed.
Lemma calm_send_result id f : preserves c0 (send_result id f).
Proof.
  apply calm_step. intros r. unfold send_result. destruct (send_client_result _ _ _ _ _).
  apply calm_same; simpl; auto with lia.
Qed.
Lemma calm_queue_frame i f id : preserves c0 (queue_frame i f id).
Proof. apply calm_outbound. Qed.
Lemma calm_send f id : preserves c0 (send f id).
Proof. apply calm_queue_frame. Qed.
Lemma calm_receipts {A} (f : Relay → A * TransactionReceiptStore) :
  preserves c0 (λ r, let '(x, s) := f r in (Ok x, set_rl_receipts s r)).
Proof. apply calm_step. intros r. destruct (f r). by apply calm_same. Qed.
Lemma calm_undo_attachment rb : preserves c0 (undo_attachment rb).
Proof. apply calm_step. intros r. by apply calm_same. Qed.
Lemma calm_client_ids c : preserves c0 (active_client_ids_for_code c).
Proof. apply preserves_read. Qed.
Lemma calm_authenticated c e : preserves c0 (authenticated_mls_identity c e).
Proof. apply preserves_read. Qed.
End calm.
#[export] Hint Resolve calm_rooms calm_ask calm_attachments calm_set_attachments calm_outbound
  calm_tick calm_touch calm_find calm_send_result calm_queue_frame calm_send calm_undo_attachment
  calm_client_ids calm_authenticated : keeps.

Section calm_frames.
Context {HO : HashOrder} {B64 : Base64} {ENV : RelayEnv} {JSON : SerdeJson} {FJ : FrameJson}.
Context (r0 : Relay).
Abbreviation c0 := (calm r0).

Lemma calm_identity id : preserves c0 (client_identity id).
Proof. unfold client_identity. keep. Qed.
Lemma calm_identity_platform id : preserves c0 (client_identity_and_platform id).
Proof. unfold client_identity_and_platform. keep. Qed.
Lemma calm_broadcast f : preserves c0 (broadcast_to_all f).
Proof.
  assert (∀ l, preserves c0 (for_each l (send f))) as H by (intros; keep). intros r Hr. by apply H.
Qed.
Hint Resolve calm_identity calm_identity_platform calm_broadcast : keeps.
Lemma calm_presence : preserves c0 broadcast_presence.
Proof. intros r Hr. by apply calm_broadcast. Qed.
Lemma calm_public_frame : preserves c0 mls_public_catalog_frame.
Proof. unfold mls_public_catalog_frame, public_rooms. keep. Qed.
Hint Resolve calm_public_frame : keeps.
Lemma calm_broadcast_public : preserves c0 broadcast_mls_public_catalog.
Proof. unfold broadcast_mls_public_catalog. keep. Qed.
Lemma calm_catalog initial id c : preserves c0 (send_mls_catalog_inner initial id c).
Proof. unfold send_mls_catalog_inner, rooms_for_member, pending_rooms_for_member. keep. Qed.
Lemma calm_public initial id : preserves c0 (send_mls_public_catalog_inner initial id).
Proof. unfold send_mls_public_catalog_inner. keep. Qed.
Lemma calm_send_delivery d : preserves c0 (send_mls_delivery d).
Proof. unfold send_mls_delivery, is_active_member. keep. Qed.
Hint Resolve calm_broadcast_public calm_catalog calm_public calm_send_delivery : keeps.
Lemma calm_member_deliveries id m c : preserves c0 (send_member_deliveries id m c).
Proof. unfold send_member_deliveries. keep. Qed.
Lemma calm_pending_deliveries p c rooms : preserves c0 (pending_deliveries p c rooms).
Proof. induction rooms as [|i rooms IH]; simpl; keep. Qed.
Hint Resolve calm_member_deliveries calm_pending_deliveries : keeps.
Lemma calm_pending initial id c : preserves c0 (send_mls_pending_inner initial id c).
Proof.
  intros r Hr. unfold send_mls_pending_inner. destruct (rl_clients r !! id) as [cl|]; [|done].
  revert r Hr. change (preserves c0
    (t ← tick; rooms ← ask_rooms (rooms_for_member t c);
     deliveries ← pending_deliveries (cl_platform cl) c rooms;
     for_each deliveries (λ d, queue_frame initial (mls_delivery_frame d) id))).
  keep.
Qed.
Lemma calm_pending_joins initial id c : preserves c0 (send_mls_pending_joins_inner initial id c).
Proof. unfold send_mls_pending_joins_inner. keep. Qed.
Lemma calm_pending_leaves initial id c : preserves c0 (send_mls_pending_leaves_inner initial id c).
Proof. unfold send_mls_pending_leaves_inner. keep. Qed.
Lemma calm_room_codes id : preserves c0 (room_code_ids id).
Proof. unfold room_code_ids. keep. Qed.
Lemma calm_dismiss id c : preserves c0 (dismiss_member id c).
Proof. unfold dismiss_member. keep. Qed.
Lemma calm_undo_application f : preserves c0 (undo_application f).
Proof. unfold undo_application. keep. Qed.
Hint Resolve calm_pending calm_pending_joins calm_pending_leaves calm_room_codes calm_dismiss
  calm_undo_application : keeps.
Lemma calm_publish_for f c rs a : preserves c0 (publish_for f c rs a).
Proof. unfold publish_for. keep. Qed.
Hint Resolve calm_publish_for : keeps.
Lemma calm_publish_staged f c rs a : preserves c0 (publish_staged f c rs a).
Proof. unfold publish_staged. keep. Qed.
Hint Resolve calm_publish_staged : keeps.
Lemma calm_accept_application id f : preserves c0 (accept_application id f).
Proof. unfold accept_application. keep. Qed.
Hint Resolve calm_accept_application : keeps.

(** Ending the sessions of an account ends their transport sessions. *)
Lemma calm_replace c : preserves c0 (replace_connected_clients_for_code c).
Proof.
  intros r Hr. unfold replace_connected_clients_for_code. case_bool_decide.
  - by etrans; [exact Hr|apply calm_same].
  - apply calm_presence. etrans; [exact Hr|]. split; try done. simpl. by apply creds_alter.
Qed.
Lemma calm_invalidate id : preserves c0 (invalidate_client_connection id).
Proof.
  intros r Hr. unfold invalidate_client_connection. destruct (rl_clients r !! id) as [cl|]; [|done].
  apply calm_replace. etrans; [exact Hr|]. split; simpl; [done|apply retain_sub|apply retain_sub| |done].
  intros k t [_ Hk]%retain_lookup_Some [s Hs]. exists s. apply retain_lookup_Some.
  split; [done|]. split_bools. apply negb_true_iff, bool_decide_eq_false. intros E. apply Hk.
  apply elem_of_dom. exists s. apply retain_lookup_Some. by rewrite bool_decide_true.
Qed.
Lemma calm_cleanup id : preserves c0 (cleanup_client id).
Proof.
  intros r Hr. unfold cleanup_client. destruct (rl_clients r !! id); apply calm_presence;
    (etrans; [exact Hr|]); [|by apply calm_same].
  split; try done. simpl. case_match; [done|]. by apply creds_alter.
Qed.
Hint Resolve calm_invalidate : keeps.

Lemma calm_begin_transaction id k c m t : preserves c0 (begin_recoverable_transaction id k c m t).
Proof.
  unfold begin_recoverable_transaction. apply preserves_bind; [keep|]. intros [a u].
  apply preserves_bind; [keep|]. intros now. apply preserves_bind.
  - apply (calm_receipts r0 (λ r, begin sha256_text _ _ now (rl_transaction_receipts r))).
  - intros o. keep.
Qed.
Lemma calm_finish_transaction id tk b : preserves c0 (finish_recoverable_transaction id tk b).
Proof.
  unfold finish_recoverable_transaction. apply preserves_bind; [keep|]. intros now.
  apply preserves_bind.
  - apply (calm_receipts r0 (λ r, finish tk b now (rl_transaction_receipts r))).
  - intros o. keep.
Qed.
Hint Resolve calm_begin_transaction calm_finish_transaction : keeps.
Lemma calm_mls_frame id text frame : preserves c0 (handle_mls_frame id text frame).
Proof.
  destruct frame; simpl; (apply preserves_bind; [keep|intros _]);
    unfold touch_activity_on_success, run_transaction, finish_transaction,
      mls_create_room, mls_discover_room, mls_join_request, mls_join_reject,
      mls_leave_request, mls_leave_reject, mls_membership_commit, mls_application,
      mls_state_snapshot, mls_delete_room, send_mls_room_result, send_mls_snapshot_result,
      send_mls_pending, send_mls_catalog; keep.
Qed.
Lemma calm_snapshot id c directs : preserves c0 (send_initial_snapshot id c directs).
Proof.
  unfold send_initial_snapshot, send_initial_mls_catalog, send_initial_mls_public_catalog,
    send_initial_mls_pending, send_initial_mls_pending_joins, send_initial_mls_pending_leaves.
  apply preserves_bind; [apply calm_step; intros r; by apply calm_same|intros _]. keep.
Qed.
End calm_frames.

(** ** Frames of the messenger *)

(** An identity state leaves the credentials alone. *)
Lemma install_state_creds v e pub k b a a' :
  install_state v e pub k b a = Ok a' →
  ra_username a' = ra_username a ∧ ra_password_file a' = ra_password_file a.
Proof. unfold install_state. intros H. repeat case_match; simplify_eq; done. Qed.

Section calm_messenger.
Context {HO : HashOrder} {B64 : Base64} {ENV : RelayEnv} {JSON : SerdeJson} {FJ : FrameJson}.
Context {KEYS : Keys} {DRAWS : Draws} {CJ : ClientJson} {IDS : DirectIds}.
Context (r0 : Relay).

Definition calm_since (s : Messenger) : Prop := calm r0 (ms_relay s).
Abbreviation still := (upholds calm_since).

Lemma still_on_relay {A} (h : Handler A) : preserves (calm r0) h → moves still (on_relay h).
Proof. intros Hh s Hs. specialize (Hh _ Hs). unfold on_relay. by destruct (h (ms_relay s)). Qed.
Lemma still_later s s' : calm (ms_relay s) (ms_relay s') → still s s'.
Proof. intros Hc Hs. unfold calm_since in *. by etrans. Qed.
Lemma still_on_mailbox {A} f : moves still (@on_mailbox A f).
Proof. intros s Hs. unfold on_mailbox. by destruct (f (ms_mailbox s)). Qed.
Lemma still_on_directs {A} f : moves still (@on_directs A f).
Proof. intros s Hs. unfold on_directs. by destruct (f (ms_direct_catalog s)). Qed.
Lemma still_state_consumed c v e pub k sg b used :
  moves still (on_accounts (apply_identity_state_locked_with_consumed c v e pub k sg b used)).
Proof.
  intros s. apply still_later. unfold on_accounts.
  destruct (run_call_cases (mkStateCall c v e pub k sg b used) (ms_accounts s))
    as [[err E]|(a & a' & Ha & (env & pub' & sig & _ & _ & _ & _ & _ & _ & Hi) & E)];
    unfold run_call in E; simpl in *; rewrite E;
    simpl; [by apply calm_same|].
  split; try done. simpl. apply install_state_creds in Hi as [Hu Hp].
  rewrite creds_insert, Hu, Hp. apply insert_id. apply creds_lookup. eauto.
Qed.
Lemma still_state c v e pub k sg b :
  moves still (on_accounts (apply_identity_state_locked c v e pub k sg b)).
Proof. apply still_state_consumed. Qed.
Lemma still_access n1 n2 n3 u c : moves still (ask_access n1 n2 n3 u c).
Proof.
  intros s. apply still_later. unfold ask_access.
  destruct (conversation_access _ _ _ _ _ _) as [x c']. by apply calm_same.
Qed.
Lemma still_no_legacy c : moves still (no_legacy_room c).
Proof. by intros s. Qed.
Lemma still_set_rooms f : preserves (calm r0) (modify (λ r, set_rl_rooms (f r) r)).
Proof. apply calm_step. intros r. by apply calm_same. Qed.
Lemma still_next_tick :
  preserves (calm r0) (λ r, (Ok (rl_ticks r), set_rl_ticks (S (rl_ticks r)) r)).
Proof. apply calm_step. intros r. apply calm_same; simpl; auto with lia. Qed.
Lemma still_fan_out chat platform frames : preserves (calm r0) (fan_out chat platform frames).
Proof. intros r. apply preserves_for_each. intros f. unfold deliver. keep. Qed.
Lemma still_publish id code chat msg : preserves (calm r0) (publish_staged_attachment id code chat msg).
Proof. unfold publish_staged_attachment. keep. Qed.
Lemma still_announce d : preserves (calm r0) (announce_direct d).
Proof. intros r. apply preserves_for_each. intros [id record]. apply calm_send. Qed.
Hint Resolve still_set_rooms still_next_tick still_fan_out still_publish still_announce
  calm_identity calm_identity_platform calm_begin_transaction calm_finish_transaction
  calm_mls_frame : keeps.
Hint Extern 2 (preserves _ _) => solve [auto with keeps] : moves.
Hint Resolve still_on_relay still_on_mailbox still_on_directs still_state_consumed still_state
  still_access still_no_legacy moves_try_task : moves.

Lemma still_clock : moves still clock.
Proof. unfold clock. stay. Qed.
Hint Resolve still_clock : moves.
Lemma still_prune : moves still prune_queues.
Proof. unfold prune_queues. stay. Qed.
Lemma still_require u c : moves still (require_access u c).
Proof. unfold require_access. stay. Qed.
Hint Resolve still_prune still_require : moves.
Lemma still_lease id c m r : moves still (lease_prekey id c m r).
Proof. unfold lease_prekey. stay. Qed.
Lemma still_release id c m r k : moves still (release_unused_prekey_lease id c m r k).
Proof. unfold release_unused_prekey_lease. stay. Qed.
Lemma still_admit_leases rs es c m u : moves still (admit_prekey_leases rs es c m u).
Proof. unfold admit_prekey_leases. stay. Qed.
Lemma still_authenticate id p : moves still (authenticate_sender id p).
Proof. unfold authenticate_sender. stay. Qed.
Hint Resolve still_admit_leases still_authenticate : moves.
Lemma still_prepare id p ev : moves still (prepare_message id p ev).
Proof. unfold prepare_message. stay. Qed.
Lemma still_admit p code sender platform frames :
  moves still (admit_message p code sender platform frames).
Proof. unfold admit_message. stay; (apply moves_or_revert; [auto with moves|done]). Qed.
Hint Resolve still_prepare still_admit : moves.
Lemma still_route id p ev : moves still (route_encrypted_message_with_directory id p ev).
Proof. unfold route_encrypted_message_with_directory. stay. Qed.
Lemma still_check id a : moves still (check_acknowledgement id a).
Proof. unfold check_acknowledgement. stay. Qed.
Hint Resolve still_check : moves.
Lemma still_acknowledge id a : moves still (acknowledge_message id a).
Proof. unfold acknowledge_message, commit_acknowledgement. stay. Qed.
Lemma still_update id v e pk k sg : moves still (update_identity_state id v e pk k sg).
Proof. unfold update_identity_state. stay. Qed.
Lemma still_join id c : moves still (join_room id c).
Proof. unfold join_room. stay. apply still_on_relay. keep. Qed.
Lemma still_leave id c : moves still (leave_room id c).
Proof. unfold leave_room. stay. Qed.
Lemma still_open id u : moves still (open_direct id u).
Proof. unfold open_direct. stay. Qed.
Hint Resolve still_lease still_release still_route still_acknowledge still_update still_join
  still_leave still_open : moves.
Lemma still_transaction id k c m t e answer body :
  (∀ b, preserves (calm r0) (answer b)) → moves still body →
  moves still (run_message_transaction id k c m t e answer body).
Proof. intros Ha Hb. unfold run_message_transaction. stay. Qed.
Lemma still_frame id text frame :
  frame ≠ ClientFrame.GlobalWipe → moves still (run_frame id text frame).
Proof.
  intros Hf. destruct frame; try done; simpl; unfold active; stay;
    apply still_transaction; auto with moves; intros b; apply calm_send_result.
Qed.
End calm_messenger.

(** ** Whole frames *)

Section whole_frames.
Context {HO : HashOrder} {B64 : Base64} {ENV : RelayEnv} {JSON : SerdeJson} {FJ : FrameJson}.
Context {KEYS : Keys} {DRAWS : Draws} {CJ : ClientJson} {IDS : DirectIds}.

(** Nobody is known any more. *)
Definition nobody (r : Relay) : Prop :=
  rl_accounts r = ∅ ∧ rl_sessions r = ∅ ∧ rl_transport_sessions r = ∅.

Lemma wipe_nobody b s :
  nobody (ms_relay (wipe_relay_state b s).2) ∧
  rl_ticks (ms_relay (wipe_relay_state b s).2) = rl_ticks (ms_relay s).
Proof. done. Qed.

Lemma handle_calm id text s :
  frame_wipes id text s = false → calm (ms_relay s) (ms_relay (handle_frame id text s).2).
Proof.
  unfold frame_wipes, handle_frame, mbind, ST_bind, lift. intros Hw.
  destruct (validate_inbound_frame_size_before_parse _); [|done].
  destruct (parse_frame text) as [frame|] eqn:Hp; [|done].
  destruct (validate_inbound_message_padding _ _); [|done].
  destruct frame; try (by apply (still_frame (ms_relay s) id text)). simpl in *.
  unfold active, broadcast_wipe, get, lift, mbind, ST_bind. rewrite Hw. done.
Qed.
Lemma handle_wipes id text s :
  frame_wipes id text s = true →
  nobody (ms_relay (handle_frame id text s).2) ∧
  (rl_ticks (ms_relay s) ≤ rl_ticks (ms_relay (handle_frame id text s).2))%nat.
Proof.
  unfold frame_wipes, handle_frame, mbind, ST_bind, lift. intros Hw.
  destruct (validate_inbound_frame_size_before_parse _); [|done].
  destruct (parse_frame text) as [[]|]; try done. simpl in *.
  unfold active, broadcast_wipe, get, lift, mbind, ST_bind. rewrite Hw. simpl.
  unfold nobody. simpl. auto with lia.
Qed.

Lemma inactivity_calm n s :
  bool_decide (n ≤ saturating_sub (now_ms (rl_ticks (ms_relay s))) (rl_last_activity_ms (ms_relay s)))
    = false → calm (ms_relay s) (ms_relay (inactivity_check n s).2).
Proof.
  intros Hn. unfold inactivity_check, clock, tick, on_relay, get, mbind, ST_bind. simpl.
  rewrite Hn. apply calm_same; simpl; auto with lia.
Qed.
Lemma inactivity_wipes n s :
  bool_decide (n ≤ saturating_sub (now_ms (rl_ticks (ms_relay s))) (rl_last_activity_ms (ms_relay s)))
    = true →
  nobody (ms_relay (inactivity_check n s).2) ∧
  (rl_ticks (ms_relay s) ≤ rl_ticks (ms_relay (inactivity_check n s).2))%nat.
Proof.
  intros Hn. unfold inactivity_check, clock, tick, on_relay, get, mbind, ST_bind. simpl.
  rewrite Hn. simpl. unfold nobody. simpl. auto with lia.
Qed.
End whole_frames.

(** ** The stores of authentication agree *)

Definition pl_creds (p : Portal) : gmap CodeId (string * bytes) := creds (pl_accounts p).
Definition pl_sessions (p : Portal) : gmap string AuthSession := rl_sessions (pl_relay p).
Definition pl_transports (p : Portal) : gmap bytes SessionTransportState :=
  rl_transport_sessions (pl_relay p).
Definition pl_ticks (p : Portal) : nat := rl_ticks (pl_relay p).

(** The account of the code has the name. *)
Definition named (c : CodeId) (u : string) (p : Portal) : Prop :=
  ∃ pw, pl_creds p !! c = Some (u, pw).

Record auth_ok (p : Portal) : Prop := mkAuthOk {
  ao_codes c : c ∈ pl_available_codes p → pl_creds p !! c = None;
  ao_expiries : dom (pl_capability_expiries p) ⊆ pl_available_codes p;
  ao_names c c' u u' pw pw' :
    pl_creds p !! c = Some (u, pw) → pl_creds p !! c' = Some (u', pw') →
    eq_ignore_ascii_case u u' = true → c = c';
  ao_sessions token s : pl_sessions p !! token = Some s → named (as_code_id s) (as_username s) p;
  ao_one_session token token' s s' :
    pl_sessions p !! token = Some s → pl_sessions p !! token' = Some s' →
    as_code_id s = as_code_id s' → token = token';
  ao_transports k t : pl_transports p !! k = Some t →
    is_Some (pl_sessions p !! tp_token t) ∧ tp_session_id t = k;
  ao_logins id c u st at' b :
    pl_opaque_handshakes p !! id = Some (Login c u st at' b) → named c u p;
  ao_one_ticket d d' t t' :
    pl_ws_tickets p !! d = Some t → pl_ws_tickets p !! d' = Some t' →
    wt_session_token t = wt_session_token t' → d = d';
  ao_tickets : map_len (pl_ws_tickets p) ≤ MAX_WS_TICKETS;
  ao_handshakes : map_len (pl_opaque_handshakes p) ≤ MAX_OPAQUE_HANDSHAKES;
  ao_limits : map_len (pl_login_limits p) ≤ MAX_LOGIN_LIMIT_ENTRIES
}.

(** What changes without a login, a registration or a new ticket: things are
    forgotten, and sessions are touched. *)
Record evolves (p p' : Portal) : Prop := mkEvolves {
  ev_creds : pl_creds p' = pl_creds p;
  ev_sessions token s' : pl_sessions p' !! token = Some s' →
    ∃ s, pl_sessions p !! token = Some s ∧ as_code_id s = as_code_id s' ∧
         as_username s = as_username s';
  ev_transports : pl_transports p' ⊆ pl_transports p;
  ev_tokens k t : pl_transports p' !! k = Some t → is_Some (pl_sessions p !! tp_token t) →
    is_Some (pl_sessions p' !! tp_token t);
  ev_ticks : (pl_ticks p ≤ pl_ticks p')%nat;
  ev_codes : pl_available_codes p' ⊆ pl_available_codes p;
  ev_expiries : dom (pl_capability_expiries p) ⊆ pl_available_codes p →
    dom (pl_capability_expiries p') ⊆ pl_available_codes p';
  ev_handshakes : pl_opaque_handshakes p' ⊆ pl_opaque_handshakes p;
  ev_tickets : pl_ws_tickets p' ⊆ pl_ws_tickets p;
  ev_limits : map_len (pl_login_limits p) ≤ MAX_LOGIN_LIMIT_ENTRIES →
    map_len (pl_login_limits p') ≤ MAX_LOGIN_LIMIT_ENTRIES
}.

#[export] Instance evolves_preorder : PreOrder evolves.
Proof.
  split.
  - intros p. split; try done. eauto.
  - intros p1 p2 p3 [C1 S1 T1 K1 N1 V1 X1 H1 W1 L1] [C2 S2 T2 K2 N2 V2 X2 H2 W2 L2].
    split; [congruence| |by etrans| |lia|by etrans|auto|by etrans|by etrans|auto].
    + intros token s3 (s2 & Hs2 & ? & ?)%S2. apply S1 in Hs2 as (s & ? & ? & ?).
      exists s. split_and!; [done|congruence|congruence].
    + intros k t Hk Hs. apply (K2 k t Hk), (K1 k t); [by eapply lookup_weaken|done].
Qed.

Lemma auth_ok_evolves p p' : evolves p p' → auth_ok p → auth_ok p'.
Proof.
  intros [C S T K N V X H W L] [O1 O2 O3 O4 O5 O6 O7 O8 O9 O10 O11].
  assert (∀ c u, named c u p → named c u p') as Hn by (intros c u [pw Hc]; exists pw; by rewrite C).
  split; [| |by rewrite C|..].
  - intros c Hc. rewrite C. auto.
  - auto.
  - intros token s (s0 & Hs & <- & <-)%S. eauto.
  - intros t t' s s' (s0 & Hs & E0 & _)%S (s1 & Hs' & E1 & _)%S E. eapply O5; [done..|congruence].
  - intros k t Hk. destruct (O6 k t) as [Hs ?]; [by eapply lookup_weaken|]. eauto.
  - intros * Hh. eapply Hn, O7, lookup_weaken; done.
  - intros * Hd Hd'. eapply O8; by eapply lookup_weaken.
  - etrans; [by apply map_len_sub|done].
  - etrans; [by apply map_len_sub|done].
  - auto.
Qed.

(** ** What operations on accounts do to the stores *)

(** Whatever [t] does is within the preorder [R]. *)
Definition acts {E A} (R : relation Portal) (t : Action E A) : Prop := ∀ p, R p (t p).2.

Section acts.
Context {E : Type} (R : relation Portal) `{!PreOrder R}.
Implicit Types p : Portal.

Lemma acts_ret {A} (a : A) : acts (E := E) R (mret a).
Proof. by intros p. Qed.
Lemma acts_lift {A} (x : result E A) : acts R (lift x).
Proof. by intros p. Qed.
Lemma acts_refuse b (e : E) : acts R (refuse_if b e).
Proof. by intros p. Qed.
Lemma acts_get : acts (E := E) R get.
Proof. by intros p. Qed.
Lemma acts_bind {A B} (t : Action E A) (k : A → Action E B) :
  acts R t → (∀ a, acts R (k a)) → acts R (t ≫= k).
Proof.
  intros Ht Hk p. specialize (Ht p). unfold mbind, ST_bind.
  destruct (t p) as [[a|e] p']; simpl in *; [|done]. by etrans; [|apply Hk].
Qed.
Lemma acts_modify f : (∀ p, R p (f p)) → acts (E := E) R (modify f).
Proof. intros Hf p. apply Hf. Qed.
Lemma acts_with_portal {A} (f : Portal → A * Portal) :
  (∀ p, R p (f p).2) → acts (E := E) R (with_portal f).
Proof. intros Hf p. specialize (Hf p). unfold with_portal. by destruct (f p). Qed.
Lemma acts_with_relay {A} (f : Relay → A * Relay) :
  (∀ p, R p (set_pl_relay (f (pl_relay p)).2 p)) → acts (E := E) R (with_relay f).
Proof. intros Hf p. specialize (Hf p). unfold with_relay. by destruct (f (pl_relay p)). Qed.
End acts.

Create HintDb acts.
#[export] Hint Resolve acts_ret acts_lift acts_refuse acts_get : acts.

Ltac act_step :=
  match goal with
  | |- acts _ (mbind _ _) => apply acts_bind; [apply _| |intros ?]
  | |- acts _ (let '(_, _) := ?x in _) => destruct x
  | |- acts _ (if ?b then _ else _) => destruct b
  | |- acts _ (match ?x with _ => _ end) => destruct x
  | |- acts _ _ => solve [auto with acts typeclass_instances]
  end.
Ltac act := repeat act_step.

Lemma relay_set r p : pl_relay (set_pl_relay r p) = r.
Proof. done. Qed.
Lemma calm_evolves r p : calm (pl_relay p) r → evolves p (set_pl_relay r p).
Proof.
  intros [C S T K N]. split; unfold pl_creds, pl_sessions, pl_transports, pl_ticks, pl_accounts;
    rewrite ?relay_set; try done.
  intros token s Hs. exists s. split; [by eapply lookup_weaken|done].
Qed.

Section evolving.
Context {HO : HashOrder} {B64 : Base64} {ENV : RelayEnv} {JSON : SerdeJson} {FJ : FrameJson}.
Context {KEYS : Keys} {DRAWS : Draws} {CJ : ClientJson} {IDS : DirectIds}.
Context {AUTH : AuthEnv} {OPAQUE : OpaqueSuite} {REL : ReleaseEnv} {E : Type}.
Abbreviation evolving t := (acts (E := E) evolves t).

Lemma evolving_relay {A} (f : Relay → A * Relay) : (∀ r, calm r (f r).2) → evolving (with_relay f).
Proof. intros Hf. apply acts_with_relay. intros p. apply calm_evolves, Hf. Qed.
Lemma evolving_handler {A} (h : Handler A) : (∀ r0, preserves (calm r0) h) → evolving (run_handler h).
Proof. intros Hh. apply evolving_relay. intros r. by apply Hh. Qed.
Lemma evolving_clock : evolving read_clock.
Proof. apply evolving_relay. intros r. apply calm_same; simpl; auto with lia. Qed.
Lemma evolving_next : evolving next_tick.
Proof. apply evolving_relay. intros r. apply calm_same; simpl; auto with lia. Qed.
Lemma evolving_touch : evolving touch.
Proof. apply evolving_handler. intros r0. apply calm_touch. Qed.
Lemma evolving_accounts f :
  (∀ m, creds (f m) = creds m) → evolving (with_relay (λ r, (tt, set_accounts f r))).
Proof. intros Hf. apply evolving_relay. intros r. split; simpl; auto. Qed.
Lemma evolving_bind c platform : evolving (bind_platform c platform).
Proof. apply evolving_accounts. intros m. by apply creds_alter. Qed.
Hint Resolve evolving_clock evolving_next evolving_touch evolving_bind : acts.

Lemma evolving_unbind c e : evolving (unbind_platform c e).
Proof. unfold unbind_platform. act. apply evolving_accounts. intros m. by apply creds_alter. Qed.
Lemma evolving_tickets f : (∀ m, f m ⊆ m) →
  evolving (modify (λ p, set_pl_tickets (f (pl_ws_tickets p)) p)).
Proof. intros Hf. apply acts_modify. intros p. split; simpl; eauto. Qed.
Lemma evolving_prune_tickets now :
  evolving (modify (λ p, set_pl_tickets (prune_ws_tickets_locked now (pl_ws_tickets p)) p)).
Proof. apply evolving_tickets. intros m. apply retain_sub. Qed.
Lemma evolving_tickets_without ts :
  evolving (modify (λ p, set_pl_tickets (tickets_without ts (pl_ws_tickets p)) p)).
Proof. apply evolving_tickets. intros m. apply retain_sub. Qed.
Lemma evolving_limits f :
  (∀ m, map_len m ≤ MAX_LOGIN_LIMIT_ENTRIES → map_len (f m) ≤ MAX_LOGIN_LIMIT_ENTRIES) →
  evolving (modify (λ p, set_pl_login_limits (f (pl_login_limits p)) p)).
Proof. intros Hf. apply acts_modify. intros p. split; simpl; eauto. Qed.
Lemma evolving_clear c : evolving (clear_login_limit c).
Proof.
  apply evolving_limits. intros m ?. etrans; [|done]. apply map_len_sub, delete_subseteq.
Qed.
Lemma forget_evolves c p : evolves p (forget_code c p).
Proof. split; simpl; eauto; [set_solver|]. rewrite dom_delete_L. set_solver. Qed.
Lemma evolving_forget c : evolving (modify (forget_code c)).
Proof. apply acts_modify. intros p. apply forget_evolves. Qed.
Lemma evolving_requests f :
  evolving (modify (λ p, set_pl_handshakes (pl_opaque_handshakes p) (f p) p)).
Proof. apply acts_modify. intros p. split; simpl; eauto. Qed.
Hint Resolve evolving_unbind evolving_prune_tickets evolving_tickets_without evolving_clear
  evolving_forget evolving_requests : acts.

Lemma evolving_live c : evolving (available_capability_is_live c).
Proof. unfold available_capability_is_live. act. Qed.
Hint Resolve evolving_live : acts.
Lemma evolving_known c : evolving (known_code_id c).
Proof. unfold known_code_id. act. Qed.
Lemma evolving_allowed c : evolving (login_attempt_allowed c).
Proof.
  unfold login_attempt_allowed. act. apply acts_with_portal. intros p.
  set (m := retain _ _). assert (m ⊆ pl_login_limits p) as Hm by apply retain_sub.
  apply map_len_sub in Hm. destruct (_ && _) eqn:Hfull; [split; simpl; eauto; lia|].
  destruct (record_rate_attempt _ _ _ _) as [allowed rate]. split; simpl; eauto.
  intros Hl. rewrite map_len_insert. destruct (contains_key c m); simpl in *; [lia|].
  apply bool_decide_eq_false in Hfull. lia.
Qed.
Lemma evolving_active c : evolving (code_has_active_session c).
Proof.
  unfold code_has_active_session. act. apply evolving_relay. intros r.
  split; simpl; [done|apply retain_sub|apply retain_sub| |done].
  intros k t [_ Hk]%retain_lookup_Some [s Hs]. exists s. apply retain_lookup_Some. split; [done|].
  split_bools. destruct (stale _ s) eqn:Hst; [|done]. exfalso. apply Hk. apply elem_of_dom.
  exists s. by apply retain_lookup_Some.
Qed.
Lemma calm_end token r : calm r (end_session token r).
Proof.
  split; simpl; [done|apply delete_subseteq|apply retain_sub| |done].
  intros k t [_ Hk]%retain_lookup_Some [s Hs]. exists s. split_bools.
  apply lookup_delete_Some. set_solver.
Qed.
Lemma evolving_session token b : evolving (active_session token b).
Proof.
  unfold active_session. act. apply acts_with_relay. intros p.
  destruct (rl_sessions (pl_relay p) !! token) as [s|] eqn:Hs; simpl; [|by apply calm_evolves].
  destruct (stale _ s); [apply calm_evolves, calm_end|].
  destruct b; [|by apply calm_evolves]. split; simpl; eauto; unfold pl_sessions; simpl.
  - intros t s' [[<- <-]|[_ Ht]]%lookup_insert_Some; simpl; eauto.
  - intros k t _ Ht. rewrite lookup_insert. case_decide; [eauto|done].
Qed.
Lemma evolving_end token : evolving (with_relay (λ r, (tt, end_session token r))).
Proof. apply evolving_relay. intros r. apply calm_end. Qed.
Lemma evolving_replaced c : evolving (run_handler (replace_connected_clients_for_code c)).
Proof. apply evolving_handler. intros r0. apply calm_replace. Qed.
Lemma evolving_presence : evolving (run_handler broadcast_presence).
Proof. apply evolving_handler. intros r0. apply calm_presence. Qed.
Lemma handshakes_evolve m requests p :
  m ⊆ pl_opaque_handshakes p → evolves p (set_pl_handshakes m requests p).
Proof. intros Hm. split; simpl; eauto. Qed.
Lemma evolving_prune : evolving prune_opaque_handshakes.
Proof.
  unfold prune_opaque_handshakes. act. apply acts_modify. intros p.
  apply handshakes_evolve, retain_sub.
Qed.
Lemma evolving_take id e : evolving (take_handshake id e).
Proof. intros p. apply handshakes_evolve, delete_subseteq. Qed.
Lemma evolving_take_request id e : evolving (take_credential_request id e).
Proof. intros p. by apply handshakes_evolve. Qed.
Hint Resolve evolving_known evolving_allowed evolving_active evolving_session evolving_end
  evolving_replaced evolving_presence evolving_prune evolving_take evolving_take_request : acts.

Lemma evolving_admit_start c e1 e2 e3 : evolving (admit_start c e1 e2 e3).
Proof. unfold admit_start. act. Qed.
Lemma evolving_close token c : evolving (close_session token c).
Proof. unfold close_session. act. Qed.
End evolving.
#[export] Hint Resolve evolving_clock evolving_next evolving_touch evolving_bind evolving_unbind
  evolving_prune_tickets evolving_tickets_without evolving_clear evolving_forget
  evolving_requests evolving_live evolving_known evolving_allowed evolving_active
  evolving_session evolving_end evolving_replaced evolving_presence evolving_prune evolving_take
  evolving_take_request evolving_admit_start evolving_close : acts.

(** ** The rest of the relay under operations on accounts *)

Section serving.
Context {HO : HashOrder} {B64 : Base64} {ENV : RelayEnv} {JSON : SerdeJson} {FJ : FrameJson}.
Context {KEYS : Keys} {DRAWS : Draws} {CJ : ClientJson} {IDS : DirectIds}.
Context {AUTH : AuthEnv} {OPAQUE : OpaqueSuite} {REL : ReleaseEnv}.
Context (max_rooms ttl : Z) (limits : AttachmentLimits).

Definition whole (p : Portal) : Prop :=
  box_ok (pl_messenger p) ∧ parts_ok max_rooms ttl limits (pl_messenger p).
Definition serves (p p' : Portal) : Prop := whole p → whole p'.
#[export] Instance serves_preorder : PreOrder serves.
Proof. split; [intros p H; exact H|intros p1 p2 p3 H1 H2 H; auto]. Qed.

Lemma serves_relay r p :
  (relay_ok max_rooms ttl limits (pl_relay p) → relay_ok max_rooms ttl limits r) →
  serves p (set_pl_relay r p).
Proof. intros Hr [Hb (Hk & ? & ?)]. split; [done|]. split; [|done]. by apply Hr. Qed.
(** An operation that leaves rooms, attachments and queues alone. *)
Lemma serving_quiet {E A} (f : Relay → A * Relay) :
  (∀ r, rl_mls_rooms (f r).2 = rl_mls_rooms r ∧ rl_attachments (f r).2 = rl_attachments r ∧
        rl_outbound (f r).2 = rl_outbound r) →
  acts (E := E) serves (with_relay f).
Proof.
  intros Hf. apply acts_with_relay. intros p. apply serves_relay.
  destruct (Hf (pl_relay p)) as (? & ? & ?). by apply ok_same_parts.
Qed.
Lemma serving_handler {E A} (h : Handler A) :
  preserves (relay_ok max_rooms ttl limits) h → acts (E := E) serves (run_handler h).
Proof. intros Hh. apply acts_with_relay. intros p. apply serves_relay, Hh. Qed.
Lemma serving_stores {E} f :
  (∀ p, pl_messenger (f p) = pl_messenger p) → acts (E := E) serves (modify f).
Proof. intros Hf. apply acts_modify. intros p [? ?]. split; by rewrite Hf. Qed.
Lemma serving_with_portal {E A} (f : Portal → A * Portal) :
  (∀ p, pl_messenger (f p).2 = pl_messenger p) → acts (E := E) serves (with_portal f).
Proof. intros Hf. apply acts_with_portal. intros p [? ?]. split; by rewrite Hf. Qed.
Lemma serving_take {E} id (e : E) : acts serves (take_handshake id e).
Proof. intros p Hp. exact Hp. Qed.
Lemma serving_take_request {E} id (e : E) : acts serves (take_credential_request id e).
Proof. intros p Hp. exact Hp. Qed.
Lemma serving_replace {E} c u token now tr :
  acts (E := E) serves (modify (replace_session c u token now tr)).
Proof.
  apply acts_modify. intros p [Hb (Hk & ? & ?)]. split; [done|]. split; [|done].
  by eapply ok_same_parts; [..|exact Hk].
Qed.

Ltac quiet := intros; repeat case_match; simpl in *; simplify_eq; done.
Hint Extern 3 (acts _ (with_relay _)) => apply serving_quiet; quiet : acts.
Hint Extern 3 (acts _ (with_portal _)) => apply serving_with_portal; quiet : acts.
Hint Extern 3 (acts _ (modify _)) => apply serving_stores; quiet : acts.
Hint Resolve serving_take serving_take_request serving_replace : acts.

Lemma serving_clock {E} : acts (E := E) serves read_clock.
Proof. unfold read_clock. act. Qed.
Lemma serving_next {E} : acts (E := E) serves next_tick.
Proof. unfold next_tick. act. Qed.
Lemma serving_touch {E} : acts (E := E) serves touch.
Proof. apply serving_handler, keeps_touch. Qed.
Lemma serving_presence {E} : acts (E := E) serves (run_handler broadcast_presence).
Proof. apply serving_handler, keeps_presence. Qed.
Lemma serving_replaced {E} c :
  acts (E := E) serves (run_handler (replace_connected_clients_for_code c)).
Proof. apply serving_handler, keeps_replace. Qed.
Hint Resolve serving_clock serving_next serving_touch serving_presence serving_replaced : acts.

Lemma serving_bootstrap action p : serves p (run_bootstrap_action action p).2.
Proof.
  assert (∀ A (t : Action () A) f, acts serves t →
            serves p (let '(a, p') := t p in (f a : AccountBootstrapResult, p')).2) as Hf.
  { intros A t f Ht. specialize (Ht p). by destruct (t p). }
  unfold run_bootstrap_action, bootstrap_start, bootstrap_finish_registration,
    bootstrap_finish_login, admit_start, start_login, start_registration, create_account,
    issue_transport_session, known_code_id, available_capability_is_live, login_attempt_allowed,
    code_has_active_session, unbind_platform, clear_login_limit, store_opaque_handshake,
    prune_opaque_handshakes.
  destruct action; apply Hf; act.
Qed.
Lemma serving_start q : acts serves (start_opaque_account q).
Proof.
  unfold start_opaque_account, admit_start, start_login, start_registration,
    known_code_id, available_capability_is_live, login_attempt_allowed,
    code_has_active_session, store_opaque_handshake, prune_opaque_handshakes. act.
Qed.
Lemma serving_finish q : acts serves (finish_opaque_account q).
Proof.
  unfold finish_opaque_account, finish_registration, finish_login, create_account,
    issue_session, available_capability_is_live, code_has_active_session, unbind_platform,
    clear_login_limit, prune_opaque_handshakes. act.
Qed.
Lemma serving_issue a q : acts serves (issue_ws_ticket a q).
Proof. unfold issue_ws_ticket, active_session, bind_platform, insert_ticket. act. Qed.
Lemma serving_issue_transport k token q : acts serves (issue_ws_ticket_for_transport k token q).
Proof.
  unfold issue_ws_ticket_for_transport, live_session, bind_platform, insert_ticket. act.
Qed.
Lemma serving_consume v : acts serves (consume_ws_ticket v).
Proof. unfold consume_ws_ticket, redeem_ticket, active_session. act. Qed.
Lemma serving_consume_for v token : acts serves (consume_ws_ticket_for_session v token).
Proof. unfold consume_ws_ticket_for_session, redeem_ticket, active_session. act. Qed.
Lemma serving_session token b : acts (E := ()) serves (active_session token b).
Proof. unfold active_session. act. Qed.
Lemma serving_logout a : acts serves (logout_account a).
Proof. unfold logout_account, close_session. act. Qed.
Lemma serving_logout_transport k token : acts serves (logout_transport_session k token).
Proof. unfold logout_transport_session, close_session. act. Qed.
Lemma serving_sweep : acts serves session_sweep.
Proof.
  unfold session_sweep. act. apply acts_modify. intros p [Hb Hp]. split; [|done].
  eapply tidied_mailbox_ok; [|exact Hb]. by apply (expire_frames (λ _, True)).
Qed.
Lemma serving_connect auth platform p :
  ob_connections (rl_outbound (pl_relay p)) !! draw_uuid (pl_ticks p) = None →
  serves p (connect_client auth platform p).2.
Proof.
  intros Hfree Hw. unfold connect_client, mbind, ST_bind, get, lift. simpl.
  fold (pl_ticks p). set (p1 := set_pl_relay _ p).
  assert (whole p1) as Hw1 by (by apply (serving_next (E := ()))).
  destruct (reserve_connection _ _ _) as [active|]; [|done]. simpl.
  apply serves_relay; [apply keeps_presence|].
  destruct Hw1 as [Hb ([H1 H2 H3] & ? & ?)]. split; [done|]. split; [|done]. split; [done..|].
  by apply (queue_next _ (OpConnect _ _)).
Qed.
End serving.
