(* ===== verification/DirectDemo.v ===== *)
(** * Direct messages on a concrete run

    Alice leases a one-time key of Bob, posts him a message that uses it, Bob
    acknowledges, and Alice wipes the relay.  The base64 text is the bytes
    themselves, a hash is the last 32 bytes of its input, a signature is valid
    when it is one constant, and a frame prints with the length the relay
    computed for it. *)

From Stdlib Require Import Strings.String.
From S2P Require Import Prelude MlsWire TransactionReceipts RoomModel RoomValidation RoomAuthority.
From S2P Require Import RoomLifecycle TransportWire TransportPadding AttachmentAccess.
From S2P Require Import AttachmentStore AttachmentStoreFacts AttachmentTheorems AttachmentDemo.
From S2P Require Import RelayFrame OutboundQueue OutboundFacts OutboundTheorems RateLimit Relay.
From S2P Require Import MlsRelay MlsDispatch RelayRun IdentityBundle Mailbox IdentityState.
From S2P Require Import MailboxFacts DirectMessages RelayDispatch DirectFacts DirectTheorems.
From S2P Require Import MessengerRun.

Module DirectRun.

#[export] Instance base64 : Base64 :=
  {| b64_encode b := string_of_list_byte b; b64_decode s := Some (list_byte_of_string s) |}.

(** The clock jumps by thirty seconds at one reading. *)
Definition env (jump : nat) : RelayEnv := {|
  now_ms n := if Nat.ltb n jump then 1000 else 31000;
  interop_policy := mkInterop true true;
  relay_node_id := "node";
  sha256_text s := list_byte_of_string s;
  sha256_bytes b := drop (length b - 32) b;
  result_delivered _ := true;
  pending_message_ttl_ms := 86400000
|}.
#[export] Instance demo_env : RelayEnv := env 1000.
#[export] Instance json : SerdeJson := {| parse_object _ := Some ∅ |}.
#[export] Instance frames : FrameJson := {|
  frame_json f :=
    match f with
    | OutboundFrame.Message m =>
        (λ n, replicate (Z.to_nat n) Byte.x20) <$>
          outbound_message_wire_len m (om_padding_bucket m) (om_padding m)
    | _ => Some [Byte.x7b; Byte.x7d]
    end
|}.
Definition signature : bytes := replicate 64 Byte.x07.
#[export] Instance keys : Keys := {|
  ed25519_key _ := true;
  ed25519_verify _ _ s := bool_decide (s = signature);
  contributory _ := true
|}.
#[export] Instance draws : Draws := {| draw _ _ := {| fill_bytes n := replicate (Z.to_nat n) Byte.x00 |} |}.
#[export] Instance ids : DirectIds := {| fresh_uuid _ := "1"%string |}.

(** ** Accounts *)

Definition code (b : byte) : CodeId := replicate 32 b.
Definition alice : CodeId := code Byte.x01.
Definition bob : CodeId := code Byte.x02.
Definition alice_id : Uuid := [Byte.x01].
Definition bob_id : Uuid := [Byte.x02].

(** Sixteen one-time keys, the first of which is key [n]. *)
Definition key (n : nat) : bytes := replicate 32 (Z_byte (64 + Z.of_nat n)).
Definition bundle (who : byte) (n : nat) : bytes :=
  replicate 64 who ++ concat (key <$> seq n 16) ++ replicate 32 who.
Definition prekey (n : nat) : string := prekey_id_for_public (key n).

Definition account (name : string) (who : byte) : RelayAccount :=
  mkRelayAccount name [] (bundle who 0) [Byte.x05] (prekey 0) 0 1 true (Some Android).

Definition queues : Outbound :=
  foldl (λ ob op, queue_step op ob) outbound_new
    [OpConnect alice_id (mkClient alice "alice" Android); OpCommit alice_id;
     OpConnect bob_id (mkClient bob "bob" Android); OpCommit bob_id].
Definition accounts : gmap CodeId RelayAccount :=
  {[alice := account "alice" Byte.x01; bob := account "bob" Byte.x02]}.
Definition directs : gmap string DirectEntry := {["dm_1" := mkDirect "dm_1" "alice" "bob"]}.

(** Both are connected and Bob has joined their conversation. *)
Definition start : Messenger :=
  mkMessenger
    (mkRelay (new_with_pending_ttl 4 86400000) store_new queues accounts
       (TransactionReceipts.new 600000) ∅ ∅ ∅ ∅ {["dm_1" := {[bob_id]}]} 5 0)
    mailbox_new ∅ directs.

(** ** The frames *)

Definition text (b : bytes) : string := string_of_list_byte b.
Definition envelope : bytes := Byte.x05 :: replicate 40 Byte.x41.
Definition stamp : DirectoryStamp := directory_stamp accounts.
Definition post : PostedMessage :=
  mkPosted "dm_1" 9 "m1" (text (replicate 12 Byte.x41)) "secret"
    [mkEnvelope "bob" "wrapped" (prekey 0) true (text signature)]
    1 (text envelope) (text (bundle Byte.x01 0)) (prekey 0) (text signature)
    (ds_node_id stamp) (ds_revision stamp) (ds_digest stamp).
Definition ack : PostedAck :=
  mkAck "dm_1" "m1" "alice" 1 (text envelope) (text (bundle Byte.x02 1)) (prekey 1)
    (text signature) (text signature) (prekey 0).

Definition leased : result string OutboundFrame.t * Messenger :=
  lease_prekey alice_id "dm_1" "m1" "bob" start.
Definition posted : result string () * Messenger :=
  route_encrypted_message_with_directory alice_id post (Some stamp) leased.2.
Definition acknowledged : result string () * Messenger := acknowledge_message bob_id ack posted.2.

Definition waiting (s : Messenger) : list (string * bool) :=
  (λ f, match pf_frame f with
        | OutboundFrame.Message m => (om_message_id m, om_is_prekey m)
        | _ => (EmptyString, false)
        end) <$> default [] (mb_pending (ms_mailbox s) !! mkPendingKey "dm_1" "bob").

Definition summary (s : Messenger) : list (string * bool) * nat * Z :=
  (waiting s, size (mb_prekey_leases (ms_mailbox s)), mb_pending_bytes (ms_mailbox s)).

Example conversation :
  (is_ok leased.1, is_ok posted.1, is_ok acknowledged.1,
   summary leased.2, summary posted.2, summary acknowledged.2) =
  (true, true, true, ([], 1%nat, 0), ([("m1"%string, true)], 1%nat, 4096), ([], 0%nat, 0)).
Proof. vm_compute. reflexivity. Qed.

(** ** A lease that expires during admission *)

(** The lease is found when the leases are checked and has expired when the
    queues are pruned for the plan, two readings of the clock later: the message
    waits without its lease. *)
Definition late : result string () * Messenger :=
  route_encrypted_message_with_directory (ENV := env 11) alice_id post (Some stamp)
    (lease_prekey (ENV := env 11) alice_id "dm_1" "m1" "bob" start).2.
(** Bob cannot acknowledge it, and its key is leased to another message. *)
Definition late_ack : result string () * Messenger :=
  acknowledge_message (ENV := env 11) bob_id ack late.2.
Definition second_lease : result string OutboundFrame.t * Messenger :=
  lease_prekey (ENV := env 11) alice_id "dm_1" "m2" "bob" late.2.

Example lease_lost :
  (is_ok late.1, summary late.2, late_ack.1, summary late_ack.2,
   match second_lease.1 with
   | Ok (OutboundFrame.PrekeyLease _ message_id _ _ prekey_id _) => Some (message_id, prekey_id)
   | _ => None
   end) =
  (true, ([("m1"%string, true)], 0%nat, 4096),
   Err "message acknowledgement rejected"%string, ([("m1"%string, true)], 0%nat, 4096),
   Some ("m2"%string, prekey 0)).
Proof. vm_compute. reflexivity. Qed.

(** ** The theorems on this run *)

(** The states are large: conversion unfolds the runs first. *)
#[local] Strategy opaque [start post ack stamp accounts].
#[local] Strategy expand [leased posted acknowledged].

Definition statement_of_ack : statement := SignedAck 9 "dm_1" "m1" "alice" (prekey 0).
Definition ack_bytes : bytes :=
  match transcript statement_of_ack with Ok t => t | Err _ => [] end.
Lemma transcripts_unambiguous_witness :
  transcript statement_of_ack = Ok ack_bytes ∧
  ∀ message_id, transcript (SignedAck 9 "dm_1" message_id "alice" (prekey 0)) = Ok ack_bytes →
    message_id = "m1"%string.
Proof.
  assert (transcript statement_of_ack = Ok ack_bytes) as H by (vm_compute; reflexivity).
  split; [exact H|]. intros message_id H'.
  pose proof (transcripts_unambiguous (SignedAck 9 "dm_1" message_id "alice" (prekey 0))
    statement_of_ack ack_bytes H' H I I) as E.
  exact (f_equal (λ s, match s with SignedAck _ _ m _ _ => m | _ => message_id end) E).
Defined.

Definition call : StateCall :=
  mkStateCall alice 3 (text envelope) (text (bundle Byte.x01 0)) (prekey 0) (text signature)
    false None.
Lemma revision_used_once_witness :
  (run_call call accounts).1 = Ok tt ∧ (run_call call (run_calls [call] accounts)).1 ≠ Ok tt.
Proof.
  split; [vm_compute; reflexivity|]. intros Hok.
  assert (accounts !! alice = Some (account "alice" Byte.x01)) as Ha by (vm_compute; reflexivity).
  destruct (revision_used_once accounts alice (account "alice" Byte.x01) [call] Ha
              (conj eq_refl eq_refl)) as (a' & _ & _ & _ & _ & H).
  apply (H call eq_refl eq_refl Hok).
  assert (bool_decide (3 ∈ {[0]} ∪ accepted_revisions alice [call] accounts) = true) as E
    by (vm_compute; reflexivity).
  exact (bool_decide_eq_true_1 _ E).
Defined.

Definition padded : OutboundFrame.t :=
  from_option pf_frame OutboundFrame.GlobalWipe
    (q ← mb_pending (ms_mailbox posted.2) !! mkPendingKey "dm_1" "bob"; head q).
Definition preflight : result string (list PendingQueuePlan) * Mailbox :=
  preflight_pending_frames 1000 86400000 [("bob"%string, padded)] mailbox_new.
Definition plan : list PendingQueuePlan := match preflight.1 with Ok p => p | Err _ => [] end.
Lemma planned_delivery_witness :
  ∃ plan' m2, commit_pending_frames 1001 [("bob"%string, padded)] plan Android preflight.2 = (Ok plan', m2) ∧
    rollback_pending_frames [("bob"%string, padded)] plan' (set_mb_replay_ids ∅ m2) =
      set_mb_replay_ids ∅ preflight.2.
Proof.
  assert (preflight_pending_frames 1000 86400000 [("bob"%string, padded)] mailbox_new =
          (Ok plan, preflight.2)) as Hp by (vm_compute; reflexivity).
  destruct (planned_delivery 1000 86400000 1001 Android [("bob"%string, padded)] mailbox_new plan
    preflight.2 pending_ok_new (NoDup_singleton _) Hp) as (plan' & m2 & Hc & _ & _ & _ & Hr).
  exists plan', m2. exact (conj Hc (Hr ∅)).
Defined.

Lemma leased_ok : mailbox_ok (ms_mailbox leased.2).
Proof. exact (box_lease alice_id "dm_1" "m1" "bob" start mailbox_ok_new). Defined.
Lemma posted_ok : mailbox_ok (ms_mailbox posted.2).
Proof. exact (box_route alice_id post (Some stamp) leased.2 leased_ok). Defined.


Lemma acknowledged_run :
  acknowledge_message bob_id ack posted.2 = (acknowledged.1, acknowledged.2).
Proof. unfold acknowledged. apply surjective_pairing. Qed.

Definition lease_answer : OutboundFrame.t :=
  match leased.1 with Ok f => f | Err _ => OutboundFrame.GlobalWipe end.

(** The texts of two frames. *)
#[export] Instance client_json : ClientJson := {|
  parse_frame t :=
    if bool_decide (t = "open"%string) then Ok (ClientFrame.OpenDirect "BOB")
    else if bool_decide (t = "lease"%string) then Ok (ClientFrame.PrekeyLease "dm_1" "m1" "bob")
    else Ok ClientFrame.Activity
|}.

(** Accounts log in, Alice connects, opens the conversation and leases a key. *)
Definition new : Messenger := messenger_new 4 86400000 600000 5.
Definition logged_in : Messenger :=
  set_ms_relay (set_rl_connections accounts ∅ ∅ ∅ ∅ ∅ (ms_relay new)) new.
Definition connected : Messenger :=
  set_ms_relay
    (set_rl_outbound (queue_step (OpConnect alice_id (mkClient alice "alice" Android))
                        (rl_outbound (ms_relay logged_in))) (ms_relay logged_in)) logged_in.
Definition opened : Messenger := (handle_frame alice_id "open" connected).2.
Definition lease_granted : Messenger := (handle_frame alice_id "lease" opened).2.

Lemma messenger_invariant_witness :
  size (ms_direct_catalog lease_granted) = 1%nat ∧
  size (mb_prekey_leases (ms_mailbox lease_granted)) = 1%nat ∧
  mailbox_ok (ms_mailbox lease_granted) ∧ directs_ok (ms_direct_catalog lease_granted).
Proof.
  split; [vm_compute; reflexivity|]. split; [vm_compute; reflexivity|].
  assert (rtc (messenger_step AttachmentRun.limits) new lease_granted) as Hrun.
  { eapply (rtc_l _ new logged_in); [exact (StepEvent _ _ _ (RunLogin _ _ _ _ _ _ _ _))|].
    eapply (rtc_l _ logged_in connected).
    { exact (StepEvent _ logged_in _ (RunQueue _ (ms_relay logged_in)
        (OpConnect alice_id (mkClient alice "alice" Android)) eq_refl)). }
    eapply (rtc_l _ connected opened); [exact (StepFrame _ _ alice_id "open")|].
    eapply (rtc_l _ opened lease_granted); [exact (StepFrame _ _ alice_id "lease")|].
    apply rtc_refl. }
  destruct (messenger_invariant 4 86400000 600000 5 AttachmentRun.limits lease_granted AttachmentRun.limits_fine Hrun)
    as (_ & _ & _ & Hm & Hd & _).
  exact (conj Hm Hd).
Defined.

Definition wiped : Messenger := (broadcast_wipe alice_id start).2.
Lemma wipe_is_final_witness :
  blank (handle_frame alice_id "lease" wiped).2 ∧
  (handle_frame alice_id "lease" wiped).1 ≠ Ok tt.
Proof.
  assert (broadcast_wipe alice_id start = (Ok tt, wiped)) as Hw by (vm_compute; reflexivity).
  split.
  - destruct (wipe_is_final alice_id start wiped (handle_frame alice_id "lease" wiped).2 Hw) as [H _].
    + eapply rtc_l; [exists alice_id, "lease"%string; reflexivity|apply rtc_refl].
    + exact H.
  - destruct (wipe_is_final alice_id start wiped wiped Hw (rtc_refl _ _)) as [_ H].
    intros Hok. destruct (H alice_id "lease"%string Hok) as (frame & Hp & Ha).
    injection Hp as <-. discriminate Ha.
Defined.
End DirectRun.
