(* ===== verification/AccountTheorems.v ===== *)
(** * Theorems about accounts, sessions and tickets

    [portal_step]: whatever the relay serves, one event at a time: frames,
    requests to register, log in, log out, issue and redeem tickets, connections,
    sweeps and the dead man's switch.  Operations are followed with Hoare triples
    [ensures], whose assertions [sane] say that the stores of authentication agree
    and what became of accounts, codes, sessions and tickets since the event. *)

From Stdlib Require Import Strings.String.
From S2P Require Import Prelude MlsWire TransactionReceipts RoomModel RoomValidation RoomAuthority.
From S2P Require Import RoomLifecycle RoomInvariant RoomReachable TransportWire TransportPadding.
From S2P Require Import AccountBootstrap AttachmentAccess AttachmentStore AttachmentStoreFacts.
From S2P Require Import AttachmentTheorems AttachmentDemo AttachmentBlob RelayFrame.
From S2P Require Import OutboundQueue OutboundFacts.
From S2P Require Import OutboundTheorems RateLimit Relay MlsRelay MlsDispatch RelayFacts RelayRun.
From S2P Require Import IdentityBundle Mailbox IdentityState MailboxFacts DirectMessages.
From S2P Require Import RelayDispatch Release DirectFacts DirectTheorems MessengerRun Accounts.
From S2P Require Import AccountFacts DirectDemo.

Section triples.
Context {HO : HashOrder} {B64 : Base64} {ENV : RelayEnv} {JSON : SerdeJson} {FJ : FrameJson}.
Context {KEYS : Keys} {DRAWS : Draws} {CJ : ClientJson} {IDS : DirectIds}.
Context {AUTH : AuthEnv} {OPAQUE : OpaqueSuite} {REL : ReleaseEnv}.

(** The ticket was drawn at a tick from [n] on. *)
Definition drawn_ticket (n : nat) (digest : bytes) : Prop :=
  ∃ m random, (n ≤ m)%nat ∧ random ∈ draw_tickets m ∧
    ws_ticket_digest (b64_encode random) = Some digest.

(** The state an event started from, and what a new session of a code needs. *)
Context (p0 : Portal) (Ev : CodeId → Prop).

Record since (p : Portal) : Prop := mkSince {
  sn_creds : pl_creds p0 ⊆ pl_creds p;
  sn_codes : pl_available_codes p ⊆ pl_available_codes p0;
  sn_accounts c : is_Some (pl_creds p !! c) →
    is_Some (pl_creds p0 !! c) ∨ c ∈ pl_available_codes p0;
  sn_sessions token s : pl_sessions p !! token = Some s →
    (∃ s0, pl_sessions p0 !! token = Some s0 ∧ as_code_id s0 = as_code_id s) ∨ Ev (as_code_id s);
  sn_tickets d t : pl_ws_tickets p !! d = Some t →
    pl_ws_tickets p0 !! d = Some t ∨ drawn_ticket (pl_ticks p0) d;
  sn_ticks : (pl_ticks p0 ≤ pl_ticks p)%nat
}.
Definition sane (p : Portal) : Prop := auth_ok p ∧ since p.

Lemma since_refl : since p0.
Proof. split; eauto. Qed.
Lemma sane_evolves p p' : evolves p p' → sane p → sane p'.
Proof.
  intros He [Ha [S1 S2 S3 S4 S5 S6]]. split; [by eapply auth_ok_evolves|].
  destruct He as [C S _ _ N V _ _ W _]. split; [by rewrite C|by etrans|by rewrite C| | |lia].
  - intros token s' (s & Hs & E & _)%S. rewrite <- E. eauto.
  - intros d t Hd. eapply S5, lookup_weaken; done.
Qed.

(** From a state evolved from [p], [t] ends in a sane state, and in one with [H]
    when it returns. *)
Definition ensures {E A} (p : Portal) (t : Action E A) (H : A → Portal → Prop) : Prop :=
  ∀ q, evolves p q → sane (t q).2 ∧ ∀ a, (t q).1 = Ok a → H a (t q).2.
Abbreviation safe p t := (ensures p t (λ _ _, True)).

Lemma ensures_bind {E A B} p (t : Action E A) (k : A → Action E B) G H :
  ensures p t G → (∀ a q, sane q → G a q → ensures q (k a) H) → ensures p (t ≫= k) H.
Proof.
  intros Ht Hk q Hq. destruct (Ht q Hq) as [Hs HG]. unfold mbind, ST_bind.
  destruct (t q) as [[a|e] q']; simpl in *; [|done]. by apply (Hk a q' Hs (HG a eq_refl)).
Qed.
Lemma ensures_step {E A B} p (t : Action E A) (k : A → Action E B) H :
  sane p → acts evolves t → (∀ a, ensures p (k a) H) → ensures p (t ≫= k) H.
Proof.
  intros Hs Ht Hk q Hq. specialize (Ht q). assert (evolves p (t q).2) as Hq' by (by etrans).
  unfold mbind, ST_bind. destruct (t q) as [[a|e] q']; simpl in *; [by apply Hk|].
  split; [by eapply sane_evolves|done].
Qed.
Lemma ensures_done {E A} p (t : Action E A) : sane p → acts evolves t → safe p t.
Proof.
  intros Hs Ht q Hq. split; [|done]. eapply sane_evolves; [|exact Hs]. etrans; [exact Hq|apply Ht].
Qed.
Lemma ensures_lift {E A B} p (x : result E A) (k : A → Action E B) H :
  sane p → (∀ a, x = Ok a → ensures p (k a) H) → ensures p (lift x ≫= k) H.
Proof.
  intros Hs Hk q Hq. unfold mbind, ST_bind, lift. destruct x as [a|e]; [by apply Hk|].
  split; [by eapply sane_evolves|done].
Qed.
Lemma ensures_refuse {E B} p b (e : E) (k : () → Action E B) H :
  sane p → (b = false → ensures p (k tt) H) → ensures p (refuse_if b e ≫= k) H.
Proof. intros Hs Hk. apply ensures_lift; [done|]. intros [] Hb%reject_if_Ok. auto. Qed.
Lemma ensures_get {E B} p (k : Portal → Action E B) H :
  sane p → (∀ q, sane q → evolves p q → ensures q (k q) H) → ensures p (get ≫= k) H.
Proof. intros Hs Hk q Hq. apply (Hk q); [by eapply sane_evolves|done..]. Qed.
Lemma ensures_evolving {E A} p (t : Action E A) :
  sane p → acts evolves t → ensures p t (λ _, evolves p).
Proof.
  intros Hs Ht q Hq. assert (evolves p (t q).2) by (etrans; [exact Hq|apply Ht]).
  split; [by eapply sane_evolves|done].
Qed.

(** ** Codes and handshakes *)

Lemma ensures_live {E} p c :
  sane p → ensures (E := E) p (available_capability_is_live c)
    (λ b q, evolves p q ∧ (b = true → c ∈ pl_available_codes p)).
Proof.
  intros Hs q Hq. destruct (ensures_evolving (E := E) p _ Hs (evolving_live c) q Hq) as [Hs' He].
  split; [done|]. intros b Hb. split; [by eapply He|]. intros ->. apply (ev_codes _ _ Hq).
  unfold available_capability_is_live, mbind, ST_bind, get in Hb.
  destruct (decide (c ∈ pl_available_codes q)); [done|].
  rewrite bool_decide_false in Hb by done. by simplify_eq/=.
Qed.

(** The handshake is younger than a minute, by a clock read since [n]. *)
Definition fresh_handshake (n : nat) (h : OpaqueHandshake) : Prop :=
  ∃ m, (n ≤ m)%nat ∧
    saturating_sub (now_ms m) (handshake_created_at_ms h) < OPAQUE_HANDSHAKE_TTL_MS.

Lemma ensures_pruned {E B} p (k : () → Action E B) H :
  sane p →
  (∀ q, sane q → evolves p q →
        (∀ id h, pl_opaque_handshakes q !! id = Some h → fresh_handshake (pl_ticks p) h) →
        ensures q (k tt) H) →
  ensures p (prune_opaque_handshakes ≫= k) H.
Proof.
  intros Hs Hk. eapply ensures_bind with (G := λ _ q, evolves p q ∧ ∀ id h,
    pl_opaque_handshakes q !! id = Some h → fresh_handshake (pl_ticks p) h);
    [|intros [] q Hq [? ?]; by apply Hk].
  intros q Hq. destruct (ensures_evolving (E := E) p _ Hs evolving_prune q Hq) as [? He].
  split; [done|]. intros [] _. split; [by eapply He|]. intros id h [_ Hh]%retain_lookup_Some.
  apply bool_decide_eq_true in Hh. exists (pl_ticks q). split; [apply (ev_ticks _ _ Hq)|done].
Qed.

Lemma ensures_take {E B} p id (e : E) (k : OpaqueHandshake → Action E B) H :
  sane p →
  (∀ q h, sane q → evolves p q → pl_opaque_handshakes p !! id = Some h → ensures q (k h) H) →
  ensures p (take_handshake id e ≫= k) H.
Proof.
  intros Hs Hk.
  eapply ensures_bind with (G := λ h q, evolves p q ∧ pl_opaque_handshakes p !! id = Some h);
    [|intros h q Hq [? ?]; by apply Hk].
  intros q Hq. destruct (ensures_evolving p _ Hs (evolving_take id e) q Hq) as [? He].
  split; [done|]. intros h Hh. split; [by eapply He|]. apply ok_or_Ok in Hh.
  by eapply lookup_weaken, (ev_handshakes _ _ Hq).
Qed.

Definition handshake_named (h : OpaqueHandshake) (p : Portal) : Prop :=
  match h with Login c u _ _ _ => named c u p | Registration _ _ _ => True end.
Lemma named_evolves c u p p' : evolves p p' → named c u p → named c u p'.
Proof. intros He [pw Hc]. exists pw. by rewrite (ev_creds _ _ He). Qed.

Lemma sane_handshakes m p requests :
  sane p → map_len m ≤ MAX_OPAQUE_HANDSHAKES →
  (∀ id h, m !! id = Some h → handshake_named h p) → sane (set_pl_handshakes m requests p).
Proof.
  intros [[] []] Hl Hm. split; [|done]. split; try done. intros * Hh. by apply Hm in Hh.
Qed.
Lemma ensures_store {E} p id h :
  sane p → handshake_named h p → ensures (E := E) p (store_opaque_handshake id h) (λ _ _, True).
Proof.
  intros Hs Hn. apply ensures_step; [done|auto with acts|]. intros now q Hq. split; [|done].
  apply (sane_evolves _ _ Hq) in Hs. unfold with_portal. simpl.
  set (m := live_handshakes _ _). assert (m ⊆ pl_opaque_handshakes q) as Hm by apply retain_sub.
  assert (∀ i h', m !! i = Some h' → handshake_named h' q) as Hold.
  { intros i [|c u st at' b] Hi; [done|]. eapply (ao_logins _ (proj1 Hs)). by eapply lookup_weaken. }
  assert (handshake_named h q) as Hq'
    by (destruct h; [done|by eapply named_evolves]).
  apply sane_handshakes; [done|..].
  - case_bool_decide; [etrans; [by apply map_len_sub|apply Hs]|]. rewrite map_len_insert.
    destruct (contains_key id m); lia.
  - intros i h'. case_bool_decide; [apply Hold|].
    intros [[<- <-]|[_ Hi]]%lookup_insert_Some; [done|by eapply Hold].
Qed.

(** ** New accounts, sessions and tickets *)

Lemma username_unique draws accounts u c a :
  random_unique_username draws accounts = Some u → accounts !! c = Some a →
  eq_ignore_ascii_case (ra_username a) u = false.
Proof.
  intros Hu Ha. apply List.find_some in Hu as [_ Hu]. apply negb_true_iff in Hu.
  destruct (eq_ignore_ascii_case _ _) eqn:E; [|done]. rewrite <- Hu. symmetry. apply existsb_exists.
  exists a. split; [|done]. apply list_elem_of_In, elem_of_hash_values. eauto.
Qed.
Lemma eq_ignore_sym a b : eq_ignore_ascii_case a b = eq_ignore_ascii_case b a.
Proof. unfold eq_ignore_ascii_case. apply bool_decide_ext. naive_solver. Qed.

Lemma sane_account p c a :
  sane p → pl_creds p !! c = None → c ∈ pl_available_codes p0 → c ∉ pl_available_codes p →
  (∀ c' a', pl_accounts p !! c' = Some a' →
            eq_ignore_ascii_case (ra_username a') (ra_username a) = false) →
  sane (set_pl_relay (set_accounts (<[c := a]>) (pl_relay p)) p).
Proof.
  intros [[O1 O2 O3 O4 O5 O6 O7 O8 O9 O10 O11] [S1 S2 S3 S4 S5 S6]] Hnone H0 Hc Hu.
  set (p' := set_pl_relay _ p).
  assert (pl_creds p' = <[c := (ra_username a, ra_password_file a)]> (pl_creds p)) as E
    by apply creds_insert.
  assert (pl_creds p ⊆ pl_creds p') as Hsub by (rewrite E; by apply insert_subseteq).
  assert (∀ c' u, named c' u p → named c' u p') as Hn
    by (intros c' u [pw Hpw]; exists pw; by eapply lookup_weaken).
  assert (∀ c' u pw, pl_creds p !! c' = Some (u, pw) →
                     eq_ignore_ascii_case u (ra_username a) = false) as Hu'
    by (intros c' u pw (a' & Ha & <- & _)%creds_lookup; eauto).
  split; split; try done.
  - intros c' Hc'. rewrite E, lookup_insert_ne; [auto|]. intros ->. done.
  - rewrite E. intros c1 c2 u1 u2 w1 w2 [[<- ?]|[_ H1]]%lookup_insert_Some
      [[<- ?]|[_ H2]]%lookup_insert_Some Heq; simplify_eq; [done| | |by eapply O3].
    + rewrite eq_ignore_sym in Heq. by rewrite (Hu' _ _ _ H2) in Heq.
    + by rewrite (Hu' _ _ _ H1) in Heq.
  - intros token s Hs. eapply Hn, O4, Hs.
  - intros * Hh. eapply Hn, O7, Hh.
  - by etrans.
  - intros c'. rewrite E. destruct (decide (c' = c)) as [->|]; [by right|].
    rewrite lookup_insert_ne by done. apply S3.
Qed.

Lemma ensures_create {E} p c pw public envelope prekey (e : E) :
  sane p → pl_creds p !! c = None → c ∈ pl_available_codes p0 →
  ensures p (create_account c pw public envelope prekey e) (λ u q, named c u q).
Proof.
  intros Hs Hc H0. apply ensures_step; [done|auto with acts|]. intros n.
  apply ensures_get; [done|]. intros p1 Hs1 He1. apply ensures_lift; [done|].
  intros u Hu%ok_or_Ok q Hq. rewrite <- (ev_creds _ _ He1), <- (ev_creds _ _ Hq) in Hc.
  assert (sane (forget_code c q)) as Hf
    by (eapply sane_evolves; [apply forget_evolves|by eapply sane_evolves]).
  unfold modify, with_relay, mbind, ST_bind. simpl. split.
  - apply (sane_account (forget_code c q)); simpl; [done..|set_solver|]. intros c' a' Ha'.
    assert (∃ pw', pl_creds q !! c' = Some (ra_username a', pw')) as [pw' Hpw]
      by (eexists; apply creds_lookup; by eauto).
    rewrite (ev_creds _ _ Hq) in Hpw. apply creds_lookup in Hpw as (a1 & Ha1 & E1 & _).
    rewrite <- E1. by eapply username_unique.
  - intros u' [= <-]. exists pw. unfold pl_creds, pl_accounts. simpl.
    rewrite creds_insert. by rewrite lookup_insert, decide_True.
Qed.

Lemma sane_session p c u token now tr :
  sane p → named c u p → Ev c → sane (replace_session c u token now tr p).
Proof.
  intros [[O1 O2 O3 O4 O5 O6 O7 O8 O9 O10 O11] [S1 S2 S3 S4 S5 S6]] Hn Hev.
  set (p' := replace_session _ _ _ _ _ p).
  assert (∀ tk s, pl_sessions p' !! tk = Some s →
    (tk = token ∧ as_code_id s = c ∧ as_username s = u) ∨
    (pl_sessions p !! tk = Some s ∧ as_code_id s ≠ c)) as Hss.
  { intros tk s. unfold pl_sessions, p'. simpl.
    intros [[<- <-]|[_ Hs]]%lookup_insert_Some; [by left|].
    apply retain_lookup_Some in Hs as [? Hs]. right. by split_bools. }
  assert (pl_ws_tickets p' ⊆ pl_ws_tickets p) as Ht by apply retain_sub.
  split; split; try done.
  - intros tk s [(_ & -> & ->)|[Hs _]]%Hss; [done|]. by eapply O4.
  - intros tk tk' s s' [(-> & E1 & _)|[Hs N1]]%Hss [(-> & E2 & _)|[Hs' N2]]%Hss E;
      [done|congruence..|by eapply O5].
  - set (replaced := dom (retain (λ _ s, bool_decide (as_code_id s = c)) (pl_sessions p))).
    assert (∀ k t, without_tokens replaced (pl_transports p) !! k = Some t →
                   is_Some (pl_sessions p' !! tp_token t) ∧ tp_session_id t = k) as Hold.
    { intros k t [Hk Hd]%retain_lookup_Some. destruct (O6 k t Hk) as [[s Hs] ?]. apply negb_true_iff, bool_decide_eq_false in Hd. split; [|done].
      unfold pl_sessions, p'. simpl. rewrite lookup_insert. destruct (decide (token = tp_token t)); [by eexists|].
      exists s. apply retain_lookup_Some. split; [done|].  apply negb_true_iff,
        bool_decide_eq_false. intros E. apply Hd, elem_of_dom. exists s.
      apply retain_lookup_Some. by rewrite bool_decide_true. }
    intros k t. unfold pl_transports, p'. simpl. destruct tr as [[sid root]|]; [|apply Hold].
    intros [[<- <-]|[_ Hk]]%lookup_insert_Some; [|by apply Hold]. simpl. split; [|done].
    unfold pl_sessions. simpl. rewrite lookup_insert, decide_True; done.
  - intros * Hd Hd'. eapply O8; by eapply lookup_weaken.
  - etrans; [by apply map_len_sub|done].
  - intros tk s [(_ & -> & _)|[Hs _]]%Hss; [by right|]. by eapply S4.
  - intros d t Hd. eapply S5, lookup_weaken; done.
Qed.
Lemma safe_replace {E} p c u token now tr :
  sane p → named c u p → Ev c → safe p (modify (E := E) (replace_session c u token now tr)).
Proof.
  intros Hs Hn He q Hq. split; [|done]. apply sane_session; [by eapply sane_evolves| |done].
  by eapply named_evolves.
Qed.

Lemma safe_insert_ticket {E} p digest token now platform :
  sane p → drawn_ticket (pl_ticks p0) digest → map_len (pl_ws_tickets p) < MAX_WS_TICKETS →
  (∀ d t, pl_ws_tickets p !! d = Some t → wt_session_token t ≠ token) →
  safe p (insert_ticket (E := E) digest token now platform).
Proof.
  intros Hs Hd Hl Hno q Hq. split; [|done].
  assert (map_len (pl_ws_tickets q) < MAX_WS_TICKETS) as Hl'
    by (eapply Z.le_lt_trans; [apply map_len_sub, (ev_tickets _ _ Hq)|done]).
  assert (∀ d t, pl_ws_tickets q !! d = Some t → wt_session_token t ≠ token) as Hno'
    by (intros d t Ht; eapply Hno, lookup_weaken, (ev_tickets _ _ Hq); done).
  apply (sane_evolves _ _ Hq) in Hs as [[] []]. split; split; try done; simpl.
  - intros d1 d2 t1 t2 [[<- <-]|[_ H1]]%lookup_insert_Some [[<- <-]|[_ H2]]%lookup_insert_Some E0;
      simpl in *; [done| | |by eauto]; exfalso.
    + by apply (Hno' _ _ H2).
    + by apply (Hno' _ _ H1).
  - rewrite map_len_insert. destruct (contains_key _ _); lia.
  - intros d t [[<- <-]|[_ Ht]]%lookup_insert_Some; [by right|auto].
Qed.
Lemma draw_ticket_drawn n tickets ticket digest :
  (pl_ticks p0 ≤ n)%nat → draw_ticket tickets (draw_tickets n) = Some (ticket, digest) →
  drawn_ticket (pl_ticks p0) digest.
Proof.
  intros Hn Hd. assert (∃ r, r ∈ draw_tickets n ∧ ws_ticket_digest (b64_encode r) = Some digest)
    as (r & ? & ?); [|by exists n, r].
  revert Hd. induction (draw_tickets n) as [|r l IH]; simpl; [done|].
  assert (draw_ticket tickets l = Some (ticket, digest) →
          ∃ r', r' ∈ r :: l ∧ ws_ticket_digest (b64_encode r') = Some digest) as Hl
    by (intros (r' & ? & ?)%IH; exists r'; split; [by right|done]).
  destruct (ws_ticket_digest (b64_encode r)) as [d|] eqn:Er; [|done].
  destruct (contains_key d tickets); [done|]. intros [= <- <-]. exists r. split; [left|done].
Qed.

(** ** Operations *)

Ltac walk_step :=
  lazymatch goal with
  | |- ensures _ (let '(_, _) := ?x in _) _ => destruct x
  | |- ensures _ (refuse_if _ _ ≫= _) _ => apply ensures_refuse; [assumption|intros ?]
  | |- ensures _ (lift _ ≫= _) _ => apply ensures_lift; [assumption|intros ? ?]
  | |- ensures _ (get ≫= _) _ => apply ensures_get; [assumption|intros ? ? ?]
  | |- ensures _ (store_opaque_handshake _ _ ≫= _) _ => fail
  | |- ensures _ (modify (replace_session _ _ _ _ _) ≫= _) _ => fail
  | |- ensures _ (start_login _ _ _ _ _ _ _ ≫= _) _ => fail
  | |- ensures _ (start_registration _ _ _ _ _ _ ≫= _) _ => fail
  | |- ensures _ (_ ≫= _) _ =>
      apply ensures_step; [assumption|solve [auto with acts typeclass_instances]|intros ?]
  | |- ensures _ _ _ =>
      apply ensures_done; [assumption|solve [auto with acts typeclass_instances]]
  end.
Ltac walk := repeat (cbv beta; walk_step).

Lemma safe_start_login {E} p account c id request context (e1 e2 : E) :
  sane p → named c (ra_username account) p → safe p (start_login account c id request context e1 e2).
Proof.
  intros Hs Hn. unfold start_login. walk. eapply ensures_bind; [by apply ensures_store|].
  intros. walk.
Qed.
Lemma safe_start_registration {E} p c id request context (e1 e2 : E) :
  sane p → safe p (start_registration c id request context e1 e2).
Proof.
  intros Hs. unfold start_registration. walk. eapply ensures_bind; [by apply ensures_store|].
  intros. walk.
Qed.
Lemma account_named p c account : pl_accounts p !! c = Some account → named c (ra_username account) p.
Proof. intros Ha. exists (ra_password_file account). apply creds_lookup. eauto. Qed.

Lemma safe_bootstrap_start p capability registration credential :
  sane p → safe p (bootstrap_start capability registration credential).
Proof.
  intros Hs. unfold bootstrap_start. walk. destruct (pl_accounts _ !! _) as [account|] eqn:Ha; walk.
  - eapply ensures_bind; [apply safe_start_login; [done|by apply account_named]|]. intros. walk.
  - eapply ensures_bind; [by apply safe_start_registration|]. intros. walk.
Qed.
Lemma safe_start p q : sane p → safe p (start_opaque_account q).
Proof.
  intros Hs. unfold start_opaque_account. walk.
  destruct (pl_accounts _ !! _) as [account|] eqn:Ha; walk.
  - eapply ensures_bind; [apply safe_start_login; [done|by apply account_named]|]. intros. walk.
  - eapply ensures_bind; [by apply safe_start_registration|]. intros. walk.
Qed.

Lemma safe_issue_session p c u b : sane p → named c u p → Ev c → safe p (issue_session c u b).
Proof.
  intros Hs Hn He. unfold issue_session. walk.
  eapply ensures_bind; [by apply safe_replace|]. intros. walk.
Qed.
Lemma safe_transport_session p c u root b :
  sane p → named c u p → Ev c → safe p (issue_transport_session c u root b).
Proof.
  intros Hs Hn He. unfold issue_transport_session. walk.
  eapply ensures_bind; [by apply safe_replace|]. intros. walk.
Qed.

(** An OPAQUE login of the code's account, begun less than a minute ago under the
    identifier, was finished. *)
Definition login_proof (p : Portal) (id : Uuid) (finalization : bytes) (c : CodeId) : Prop :=
  ∃ u state at' b root,
    let h := Login c u state at' b in
    pl_opaque_handshakes p !! id = Some h ∧ fresh_handshake (pl_ticks p) h ∧
    opaque_server_finish_login state finalization = Some root.

(** A registration of the code, begun less than a minute ago under the identifier,
    was finished: the code was an unredeemed invite, and the identity that is
    registered signed the challenge. *)
Definition registration_proof (p : Portal) (id : Uuid)
    (upload public : bytes) (prekey_id : string) (envelope proof : bytes) (c : CodeId) : Prop :=
  ∃ challenge at' pw,
    let h := Registration c challenge at' in
    pl_opaque_handshakes p !! id = Some h ∧ fresh_handshake (pl_ticks p) h ∧
    pl_creds p !! c = None ∧ c ∈ pl_available_codes p ∧
    verify_registration_identity_proof_v9 relay_node_id (uuid_text id) challenge upload public
      prekey_id envelope proof = Ok tt ∧
    opaque_server_finish_registration upload = Some pw.

Lemma safe_bootstrap_login id finalization :
  sane p0 → (∀ c, login_proof p0 id finalization c → Ev c) →
  safe p0 (bootstrap_finish_login id finalization).
Proof.
  intros Hs Hev. apply ensures_pruned; [done|]. intros q Hsq Hq Hfresh.
  apply ensures_take; [done|]. intros q' h Hs' Hq' Hh. apply ensures_lift; [done|].
  intros [[[c u] st] b] E. destruct h as [|c' u' st' at' b']; simplify_eq.
  apply ensures_lift; [done|]. intros fin Hfin. apply ensures_lift; [done|].
  intros root Hroot%ok_or_Ok. walk.
  assert (fin = finalization) as -> by (unfold bounded_raw in Hfin; case_match; by simplify_eq).
  eapply ensures_bind; [apply safe_transport_session|intros; walk]; [done| |].
  - eapply named_evolves; [done|]. by eapply (ao_logins _ (proj1 Hsq)).
  - apply Hev. exists u, st, at', b, root. split_and!; [|by eapply Hfresh|done].
    by eapply lookup_weaken, (ev_handshakes _ _ Hq).
Qed.

Lemma unknown_code q c : contains_key c (pl_accounts q) = false → pl_creds q !! c = None.
Proof. intros Hc. apply creds_None. unfold contains_key in Hc. by case_match. Qed.

(** The guards of both registrations. *)
Lemma ensures_redeemable {E B} p c (e : E) f (k : () → Action E B) H :
  sane p →
  (∀ q q', evolves p q → sane q' → evolves q q' → pl_creds q' !! c = None →
           c ∈ pl_available_codes q → f true = false → ensures q' (k tt) H) →
  f false = true →
  ensures p (q ← get; _ ← refuse_if (contains_key c (pl_accounts q)) e;
             live ← available_capability_is_live c; _ ← refuse_if (f live) e; k tt) H.
Proof.
  intros Hs Hk Hf. apply ensures_get; [done|]. intros q Hsq Hq. apply ensures_refuse; [done|].
  intros Hc%unknown_code. eapply ensures_bind; [by apply ensures_live|].
  intros live q' Hs' [Hq' Hl]. apply ensures_refuse; [done|]. intros Hb.
  destruct live; [|congruence]. apply (Hk q q'); auto. by rewrite (ev_creds _ _ Hq').
Qed.

Lemma safe_bootstrap_registration id upload public prekey_id envelope proof :
  sane p0 → safe p0 (bootstrap_finish_registration id upload public prekey_id envelope proof).
Proof.
  intros Hs. apply ensures_pruned; [done|]. intros q Hsq Hq _.
  apply ensures_take; [done|]. intros q1 h Hs1 Hq1 _. apply ensures_lift; [done|].
  intros [c challenge] _. apply ensures_step; [done|auto with acts|]. intros [request context].
  apply (ensures_redeemable q1 c tt (λ live, negb live ||
           negb (valid_identity_public_bundle public prekey_id)) (λ _, _)); [done| |done].
  intros q2 q3 Hq2 Hs3 Hq3 Hc Hcode _. walk. eapply ensures_bind; [apply ensures_create; try done|].
  { apply (ev_codes _ _ Hq), (ev_codes _ _ Hq1), (ev_codes _ _ Hq2), Hcode. }
  intros u q4 Hs4 Hn. walk. eapply ensures_bind; [by apply ensures_store|]. intros. walk.
Qed.

Lemma safe_finish_login q c u st p :
  sane p → named c u p →
  (∀ finalization root,
     decode_field (fq_credential_finalization_b64 q) (λ v, decode_bounded v ACCOUNT_BODY_LIMIT_BYTES)
       = Ok finalization → opaque_server_finish_login st finalization = Some root → Ev c) →
  safe p (finish_login q c u st).
Proof.
  intros Hs Hn Hev. unfold finish_login. apply ensures_refuse; [done|]. intros _.
  apply ensures_lift; [done|]. intros fin Hfin. apply ensures_lift; [done|].
  intros root Hroot%ok_or_Ok. walk.
  eapply ensures_bind; [apply safe_issue_session; eauto|intros; walk].
Qed.

Lemma safe_finish_registration q c challenge p :
  evolves p0 p → sane p →
  (∀ upload public prekey_id envelope proof pw,
     decode_field (fq_registration_upload_b64 q) (λ v, decode_bounded v ACCOUNT_BODY_LIMIT_BYTES)
       = Ok upload →
     pl_creds p0 !! c = None → c ∈ pl_available_codes p0 →
     verify_registration_identity_proof_v9 relay_node_id (uuid_text (fq_handshake_id q)) challenge
       upload public prekey_id envelope proof = Ok tt →
     opaque_server_finish_registration upload = Some pw → Ev c) →
  safe p (finish_registration q c challenge).
Proof.
  intros H0 Hs Hev. unfold finish_registration. apply ensures_refuse; [done|]. intros _.
  apply (ensures_redeemable p c _ negb (λ _, _)); [done| |done].
  intros q2 q3 Hq2 Hs3 Hq3 Hc Hcode%(ev_codes _ _ Hq2)%(ev_codes _ _ H0) _.
  apply ensures_lift; [done|]. intros upload Hup. walk_step. walk_step. do 2 walk_step. walk_step.
  walk_step. walk_step. apply ensures_refuse; [done|]. intros Hv. apply ensures_lift; [done|].
  intros pw Hpw%ok_or_Ok. apply negb_false_iff, is_ok_Ok in Hv as [[] Hv].
  eapply ensures_bind; [by apply ensures_create|]. intros u q4 Hs4 Hn. walk.
  eapply ensures_bind; [apply safe_issue_session; [done..|]|intros; walk].
  eapply Hev; [done| |done..].
  by rewrite <- (ev_creds _ _ H0), <- (ev_creds _ _ Hq2), <- (ev_creds _ _ Hq3).
Qed.

Definition http_login_proof (p : Portal) (q : OpaqueAccountFinishRequest) (c : CodeId) : Prop :=
  ∃ finalization,
    decode_field (fq_credential_finalization_b64 q) (λ v, decode_bounded v ACCOUNT_BODY_LIMIT_BYTES)
      = Ok finalization ∧ login_proof p (fq_handshake_id q) finalization c.
Definition http_registration_proof (p : Portal) (q : OpaqueAccountFinishRequest) (c : CodeId) : Prop :=
  ∃ upload public prekey_id envelope proof,
    decode_field (fq_registration_upload_b64 q) (λ v, decode_bounded v ACCOUNT_BODY_LIMIT_BYTES)
      = Ok upload ∧
    registration_proof p (fq_handshake_id q) upload public prekey_id envelope proof c.

Lemma safe_finish q :
  sane p0 → (∀ c, http_login_proof p0 q c ∨ http_registration_proof p0 q c → Ev c) →
  safe p0 (finish_opaque_account q).
Proof.
  intros Hs Hev. apply ensures_pruned; [done|]. intros q1 Hs1 Hq1 Hfresh.
  apply ensures_take; [done|]. intros q2 h Hs2 Hq2 Hh. pose proof (Hfresh _ _ Hh) as Hf.
  pose proof (lookup_weaken _ _ _ _ Hh (ev_handshakes _ _ Hq1)) as H0.
  destruct h as [c challenge at'|c u st at' b].
  - apply safe_finish_registration; [by etrans|done|].
    intros upload public prekey_id envelope proof pw Hup ? ? ? ?. apply Hev. right.
    exists upload, public, prekey_id, envelope, proof. split; [done|]. by exists challenge, at', pw.
  - apply safe_finish_login; [done| |].
    + eapply named_evolves; [done|]. by eapply (ao_logins _ (proj1 Hs1)).
    + intros fin root Hfin Hroot. apply Hev. left. exists fin. split; [done|].
      by exists u, st, at', b, root.
Qed.

(** Tickets. *)
Lemma ensures_next {E B} p (k : nat → Action E B) H :
  sane p → (∀ n, (pl_ticks p0 ≤ n)%nat → ensures p (k n) H) → ensures p (next_tick ≫= k) H.
Proof.
  intros Hs Hk q Hq. unfold next_tick, with_relay, mbind, ST_bind. simpl. apply (Hk (pl_ticks q)).
  - pose proof (sn_ticks _ (proj2 Hs)). pose proof (ev_ticks _ _ Hq). lia.
  - etrans; [exact Hq|]. apply calm_evolves. apply calm_same; simpl; auto with lia.
Qed.
Lemma no_tickets_without token m d t :
  tickets_without {[token]} m !! d = Some t → wt_session_token t ≠ token.
Proof. intros [_ Ht]%retain_lookup_Some. split_bools. set_solver. Qed.

Lemma ensures_cleared {E B} p token f (k : () → Action E B) H :
  sane p → (∀ m, f m ⊆ m) →
  (∀ q, sane q → evolves p q →
        (∀ d t, pl_ws_tickets q !! d = Some t → wt_session_token t ≠ token) →
        ensures q (k tt) H) →
  ensures p (modify (λ p, set_pl_tickets (tickets_without {[token]} (f (pl_ws_tickets p))) p) ≫= k) H.
Proof.
  intros Hs Hf Hk q Hq.
  set (q' := set_pl_tickets (tickets_without {[token]} (f (pl_ws_tickets q))) q).
  assert (evolves p q') as Hq'.
  { etrans; [exact Hq|]. split; simpl; eauto. etrans; [apply retain_sub|apply Hf]. }
  apply (Hk q'); [by eapply sane_evolves|done| |done]. intros d t. apply no_tickets_without.
Qed.

Lemma safe_issue authorization attestation p :
  sane p → safe p (issue_ws_ticket authorization attestation).
Proof.
  intros Hs. unfold issue_ws_ticket. do 3 walk_step. walk_step. walk.
  apply (ensures_cleared _ _ (prune_ws_tickets_locked _)); [done|intros m; apply retain_sub|].
  intros q1 Hs1 Hq1 Hno. apply ensures_get; [done|]. intros q2 Hs2 Hq2.
  apply ensures_refuse; [done|]. intros Hl%bool_decide_eq_false. apply ensures_next; [done|].
  intros n Hn. apply ensures_lift; [done|]. intros [ticket digest] Hd%ok_or_Ok.
  apply ensures_get; [done|]. intros q3 Hs3 Hq3. walk.
  eapply ensures_bind; [apply safe_insert_ticket|intros; walk]; [done| | |].
  - by eapply draw_ticket_drawn.
  - eapply Z.le_lt_trans; [apply map_len_sub, (ev_tickets _ _ Hq3)|lia].
  - intros d t Ht. eapply Hno, lookup_weaken; [exact Ht|].
    etrans; [apply (ev_tickets _ _ Hq3)|apply (ev_tickets _ _ Hq2)].
Qed.
Lemma evolving_live_session token : acts evolves (live_session token).
Proof. unfold live_session. act. Qed.
Hint Resolve evolving_live_session : acts.

(** Forgetting the ticket of a session makes room for another. *)
Lemma room_for_ticket (token : string) (m m' : gmap bytes WsTicket) :
  map_len m ≤ MAX_WS_TICKETS → m' ⊆ m →
  negb (existsb (λ t, bool_decide (wt_session_token t = token)) (hash_values m)) &&
    bool_decide (MAX_WS_TICKETS ≤ map_len m) = false →
  (∀ d t, m' !! d = Some t → wt_session_token t ≠ token) → map_len m' < MAX_WS_TICKETS.
Proof.
  intros Hl Hm [Hex%negb_false_iff|Hfull%bool_decide_eq_false]%andb_false_iff Hno.
  - apply existsb_exists in Hex as (t & Ht%list_elem_of_In%elem_of_hash_values & <-%bool_decide_eq_true).
    destruct Ht as [d Hd]. assert (m' ⊆ delete d m) as Hsub.
    { apply map_subseteq_spec. intros d' t' Hd'. pose proof (lookup_weaken _ _ _ _ Hd' Hm).
      apply lookup_delete_Some. split; [|done]. intros <-. simplify_eq. by apply (Hno d t). }
    apply map_len_sub in Hsub. rewrite map_len_delete in Hsub.
    unfold contains_key in Hsub. rewrite Hd in Hsub. lia.
  - apply map_len_sub in Hm. lia.
Qed.

Lemma safe_issue_transport session_id token attestation p :
  sane p → safe p (issue_ws_ticket_for_transport session_id token attestation).
Proof.
  intros Hs. unfold issue_ws_ticket_for_transport. do 10 (cbv beta; walk_step).
  apply ensures_get; [done|]. intros q1 Hs1 Hq1. apply ensures_refuse; [done|]. intros Hl.
  apply ensures_next; [done|]. intros n Hn. apply ensures_lift; [done|].
  intros [ticket digest] Hd%ok_or_Ok. apply (ensures_cleared _ _ (λ m, m)); [done..|].
  intros q2 Hs2 Hq2 Hno. walk.
  eapply ensures_bind; [apply safe_insert_ticket|intros; walk]; [done| | |done].
  - by eapply draw_ticket_drawn.
  - eapply room_for_ticket; [apply Hs1|apply (ev_tickets _ _ Hq2)|done|done].
Qed.
End triples.

(** ** Events *)

Inductive PortalEvent : Type :=
| EvFrame (sender_id : Uuid) (text : string)
| EvInactivity (inactivity_limit_ms : Z)
| EvBootstrap (action : AccountBootstrapAction)
| EvStart (q : OpaqueAccountStartRequest)
| EvFinish (q : OpaqueAccountFinishRequest)
| EvIssue (authorization : option string) (attestation : BuildAttestationRequest)
| EvIssueTransport (session_id : bytes) (token : string) (attestation : BuildAttestationRequest)
| EvConsume (ticket : string)
| EvConsumeFor (ticket token : string)
| EvSession (token : string) (touch : bool)
| EvLogout (authorization : option string)
| EvLogoutTransport (session_id : bytes) (token : string)
| EvSweep
| EvConnect (auth : AuthSession) (platform : ClientPlatform)
| EvBackground.

Section events.
Context {HO : HashOrder} {B64 : Base64} {ENV : RelayEnv} {JSON : SerdeJson} {FJ : FrameJson}.
Context {KEYS : Keys} {DRAWS : Draws} {CJ : ClientJson} {IDS : DirectIds}.
Context {AUTH : AuthEnv} {OPAQUE : OpaqueSuite} {REL : ReleaseEnv}.

Definition portal_run (e : PortalEvent) (p : Portal) : Portal :=
  match e with
  | EvFrame sender_id text => (portal_handle_frame sender_id text p).2
  | EvInactivity limit_ms => portal_inactivity_check limit_ms p
  | EvBootstrap action => (run_bootstrap_action action p).2
  | EvStart q => (start_opaque_account q p).2
  | EvFinish q => (finish_opaque_account q p).2
  | EvIssue authorization attestation => (issue_ws_ticket authorization attestation p).2
  | EvIssueTransport session_id token attestation =>
      (issue_ws_ticket_for_transport session_id token attestation p).2
  | EvConsume ticket => (consume_ws_ticket ticket p).2
  | EvConsumeFor ticket token => (consume_ws_ticket_for_session ticket token p).2
  | EvSession token touch => (active_session (E := ()) token touch p).2
  | EvLogout authorization => (logout_account authorization p).2
  | EvLogoutTransport session_id token => (logout_transport_session session_id token p).2
  | EvSweep => (session_sweep p).2
  | EvConnect auth platform => (connect_client auth platform p).2
  | EvBackground => p
  end.

(** A new connection has an identifier no connection has. *)
Definition event_fresh (e : PortalEvent) (p : Portal) : Prop :=
  match e with
  | EvConnect _ _ => ob_connections (rl_outbound (pl_relay p)) !! draw_uuid (pl_ticks p) = None
  | _ => True
  end.

(** What the relay does between requests: snapshots, closed connections, the
    writer tasks, and the attachment requests. *)
Inductive background (limits : AttachmentLimits) (r : Relay) : Relay → Prop :=
| BgSnapshot id code directs : background limits r (send_initial_snapshot id code directs r).2
| BgGone id : background limits r (cleanup_client id r).2
| BgQueue op : queue_op_fresh op (rl_outbound r) →
    background limits r (set_rl_outbound (queue_step op (rl_outbound r)) r)
| BgAttachment s : some_step limits (rl_attachments r) s →
    background limits r (set_rl_attachments s r).

Inductive portal_step (limits : AttachmentLimits) (p : Portal) : PortalEvent → Portal → Prop :=
| Served e : event_fresh e p → portal_step limits p e (portal_run e p)
| Worked r : background limits (pl_relay p) r →
    portal_step limits p EvBackground (set_pl_relay r p).
Definition portal_next (limits : AttachmentLimits) (p p' : Portal) : Prop :=
  ∃ e, portal_step limits p e p'.

(** The state of [AppState::new]. *)
Definition portal_new (max_rooms pending_ttl receipt_ttl now : Z) (invites : list IssuedInvite)
    : option Portal :=
  codes ← issued_codes invites;
  Some (mkPortal (messenger_new max_rooms pending_ttl receipt_ttl now) codes
          (issued_expiries invites) ∅ ∅ ∅ ∅).

(** What a new session of the code takes. *)
Definition evidence (e : PortalEvent) (p : Portal) (c : CodeId) : Prop :=
  match e with
  | EvBootstrap (FinishLogin id finalization) => login_proof p id finalization c
  | EvFinish q => http_login_proof p q c ∨ http_registration_proof p q c
  | _ => False
  end.

(** The handshake the event finishes is gone. *)
Definition handshake_spent (e : PortalEvent) (p : Portal) : Prop :=
  match e with
  | EvBootstrap (FinishLogin id _) => pl_opaque_handshakes p !! id = None
  | EvFinish q => pl_opaque_handshakes p !! fq_handshake_id q = None
  | _ => True
  end.

(** Nothing is left of accounts, invites, sessions and tickets. *)
Record wiped (p p' : Portal) : Prop := mkWiped {
  wp_creds : pl_creds p' = ∅;
  wp_codes : pl_available_codes p' = ∅;
  wp_sessions : pl_sessions p' = ∅;
  wp_tickets : pl_ws_tickets p' = ∅;
  wp_ticks : (pl_ticks p ≤ pl_ticks p')%nat
}.

Lemma wipe_wiped p s :
  nobody (ms_relay s) → (pl_ticks p ≤ rl_ticks (ms_relay s))%nat →
  auth_ok (wipe_credentials (set_pl_messenger s p)) ∧
  wiped p (wipe_credentials (set_pl_messenger s p)).
Proof.
  intros (Ha & Hs & Ht) Hn.
  assert (pl_creds (wipe_credentials (set_pl_messenger s p)) = ∅) as Ec
    by (unfold pl_creds, pl_accounts, pl_relay; simpl; by rewrite Ha).
  split; split; rewrite ?Ec; unfold pl_sessions, pl_transports, pl_relay; simpl;
    rewrite ?Hs, ?Ht; try done; intros *; rewrite ?lookup_empty; done.
Qed.
Lemma messenger_evolves p s : calm (pl_relay p) (ms_relay s) → evolves p (set_pl_messenger s p).
Proof. intros Hc. by destruct (calm_evolves _ _ Hc). Qed.

Lemma background_ok max_rooms ttl limits r r' :
  background limits r r' → calm r r' ∧
  (relay_ok max_rooms ttl limits r → relay_ok max_rooms ttl limits r').
Proof.
  intros [id code directs|id|op Hf|s Hs]; (split; [|intros Hok; eapply relay_step_ok; [exact Hok|]]).
  - by apply calm_snapshot.
  - apply RunSnapshot.
  - by apply calm_cleanup.
  - apply RunGone.
  - by apply calm_same.
  - by apply RunQueue.
  - by apply calm_same.
  - by apply RunAttachment.
Qed.

Lemma evolving_consume v : acts evolves (consume_ws_ticket v).
Proof.
  unfold consume_ws_ticket, redeem_ticket. act. apply acts_with_portal. intros p.
  split; simpl; eauto. etrans; [apply delete_subseteq|apply retain_sub].
Qed.
Lemma evolving_consume_for v token : acts evolves (consume_ws_ticket_for_session v token).
Proof.
  unfold consume_ws_ticket_for_session, redeem_ticket. act. apply acts_with_portal. intros p.
  assert (∀ m, m ⊆ pl_ws_tickets p → evolves p (set_pl_tickets m p)) as Hm
    by (intros m ?; split; simpl; eauto).
  assert (prune_ws_tickets_locked a0 (pl_ws_tickets p) ⊆ pl_ws_tickets p) by apply retain_sub.
  destruct (_ !! a) as [t|]; [case_bool_decide|]; apply Hm; [|done..].
  by etrans; [apply delete_subseteq|].
Qed.
Lemma evolving_logout authorization : acts evolves (logout_account authorization).
Proof. unfold logout_account. act. Qed.
Lemma evolving_logout_transport k token : acts evolves (logout_transport_session k token).
Proof. unfold logout_transport_session. act. Qed.
Lemma evolving_sweep : acts evolves session_sweep.
Proof.
  unfold session_sweep. act.
  - apply evolving_relay. intros r. split; simpl; [done|apply retain_sub|apply retain_sub| |done].
    intros k t [_ Hk]%retain_lookup_Some _. unfold contains_key in Hk. by case_match.
  - apply acts_modify. intros p. by apply messenger_evolves.
Qed.
Lemma evolving_connect auth platform : acts evolves (connect_client auth platform).
Proof.
  unfold connect_client. act. apply evolving_relay. intros r. split; simpl; try done.
  by apply creds_alter.
Qed.

(** Finishing a handshake stores no other: it is gone whatever the outcome. *)
Definition shrinks (p p' : Portal) : Prop := pl_opaque_handshakes p' ⊆ pl_opaque_handshakes p.
#[export] Instance shrinks_preorder : PreOrder shrinks.
Proof. split; [intros p; unfold shrinks; done|intros p1 p2 p3; unfold shrinks; by etrans]. Qed.
Lemma shrinking_evolving {E A} (t : Action E A) : acts evolves t → acts shrinks t.
Proof. intros Ht p. apply (ev_handshakes _ _ (Ht p)). Qed.
Lemma shrinking_replace {E} c u token now tr :
  acts (E := E) shrinks (modify (replace_session c u token now tr)).
Proof. apply acts_modify. intros p. unfold shrinks. done. Qed.
Lemma shrinking_accounts {E} f :
  acts (E := E) shrinks (with_relay (λ r, (tt, set_accounts f r))).
Proof. apply acts_with_relay. intros p. unfold shrinks. done. Qed.
Lemma take_spends {E A B} id (e : E) (t : Action E A) (k : A → OpaqueHandshake → Action E B) p :
  acts shrinks t → (∀ a h, acts shrinks (k a h)) → is_Some (ok (t p).1) →
  pl_opaque_handshakes ((a ← t; h ← take_handshake id e; k a h) p).2 !! id = None.
Proof.
  intros Ht Hk [x Hx]. unfold mbind, ST_bind, take_handshake. destruct (t p) as [[a|] p1]; [|done].
  destruct (pl_opaque_handshakes p1 !! id) as [h|]; simpl; [|by rewrite lookup_delete_eq].
  apply eq_None_not_Some. intros [h' Hh]. eapply lookup_weaken in Hh; [|apply Hk].
  simpl in Hh. by rewrite lookup_delete_eq in Hh.
Qed.
Hint Resolve shrinking_replace shrinking_accounts : acts.
Hint Extern 2 (acts shrinks _) => apply shrinking_evolving; solve [auto with acts] : acts.
Lemma event_spends e p : handshake_spent e (portal_run e p).
Proof.
  destruct e as [| |action| |q| | | | | | | | | | ]; try done; cbn [handshake_spent portal_run].
  - destruct action as [| |id finalization]; try done. unfold run_bootstrap_action.
    assert (pl_opaque_handshakes (bootstrap_finish_login id finalization p).2 !! id = None) as H;
      [|by destruct (bootstrap_finish_login id finalization p)].
    apply (take_spends id tt _ (λ _, _)); [auto with acts| |by eexists]. intros _ h.
    unfold issue_transport_session. act.
  - apply (take_spends (fq_handshake_id q) AuthStatus.UNAUTHORIZED _ (λ _, _));
      [auto with acts| |by eexists]. intros _ h.
    unfold finish_registration, finish_login, create_account, issue_session. act.
Qed.

Lemma sane_run {E A} (t : Action E A) p Ev : ensures p Ev p t (λ _ _, True) → sane p Ev (t p).2.
Proof. intros Ht. by apply Ht. Qed.
Lemma sane_acts {E A} (t : Action E A) p Ev : auth_ok p → acts evolves t → sane p Ev (t p).2.
Proof. intros Ha Ht. eapply sane_evolves; [apply Ht|]. split; [done|apply since_refl]. Qed.
Hint Resolve evolving_consume evolving_consume_for evolving_logout evolving_logout_transport
  evolving_sweep evolving_connect : acts.

Lemma sane_bootstrap action p :
  auth_ok p → sane p (evidence (EvBootstrap action) p) (run_bootstrap_action action p).2.
Proof.
  intros Ha. set (Ev := evidence _ _). assert (sane p Ev p) as Hs by (split; [done|apply since_refl]).
  assert (∀ A (t : Action () A) f, sane p Ev (t p).2 →
            sane p Ev (let '(a, p') := t p in (f a : AccountBootstrapResult, p')).2) as Hf
    by (intros A t f Ht; by destruct (t p)).
  destruct action; apply Hf, sane_run.
  - by apply safe_bootstrap_start.
  - by apply safe_bootstrap_registration.
  - by apply safe_bootstrap_login.
Qed.

Lemma step_sane limits p e p' :
  auth_ok p → portal_step limits p e p' →
  auth_ok p' ∧ (since p (evidence e p) p' ∨ wiped p p').
Proof.
  intros Ha Hstep.
  assert (sane p (evidence e p) p' ∨ auth_ok p' ∧ wiped p p' → auth_ok p' ∧ (since p (evidence e p) p' ∨ wiped p p'))
    as Hcases by (intros [[? ?]|[? ?]]; auto). apply Hcases. clear Hcases.
  assert (sane p (evidence e p) p) as Hs by (split; [done|apply since_refl]).
  destruct Hstep as [e _|r Hr];
    [|left; eapply sane_evolves; [apply calm_evolves|done]; by eapply (background_ok 0 0)].
  destruct e as [id text|n|action|q|q|auth build|k token build|v|v token|token b|auth|k token| |auth b| ];
    cbn [portal_run].
  - unfold portal_handle_frame. pose proof (handle_calm id text (pl_messenger p)) as Hc.
    pose proof (handle_wipes id text (pl_messenger p)) as Hw.
    destruct (handle_frame id text (pl_messenger p)) as [answer s]. simpl in *.
    destruct (frame_wipes id text (pl_messenger p)).
    + right. by apply wipe_wiped; apply Hw.
    + left. eapply sane_evolves; [by apply messenger_evolves, Hc|done].
  - unfold portal_inactivity_check. destruct (bool_decide _) eqn:Hn.
    + right. apply wipe_wiped; by apply inactivity_wipes.
    + left. eapply sane_evolves; [by apply messenger_evolves, inactivity_calm|done].
  - left. by apply sane_bootstrap.
  - left. by apply sane_run, safe_start.
  - left. by apply sane_run, safe_finish.
  - left. by apply sane_run, safe_issue.
  - left. by apply sane_run, safe_issue_transport.
  - left. by apply sane_acts; auto with acts.
  - left. by apply sane_acts; auto with acts.
  - left. by apply sane_acts; auto with acts.
  - left. by apply sane_acts; auto with acts.
  - left. by apply sane_acts; auto with acts.
  - left. by apply sane_acts; auto with acts.
  - left. by apply sane_acts; auto with acts.
  - by left.
Qed.

Lemma step_whole max_rooms ttl limits p e p' :
  whole max_rooms ttl limits p → portal_step limits p e p' → whole max_rooms ttl limits p'.
Proof.
  intros Hw [e' Hf|r Hr]; [|by eapply serves_relay; [eapply background_ok|]].
  assert (∀ s, box_ok s ∧ parts_ok max_rooms ttl limits s → whole max_rooms ttl limits (set_pl_messenger s p))
    as Hset by done.
  destruct e' as [id text|n| | | | | | | | | | | | | ]; cbn [portal_run event_fresh] in *.
  - unfold portal_handle_frame. pose proof (box_handle id text _ (proj1 Hw)) as Hb.
    pose proof (parts_handle max_rooms ttl limits id text _ (proj2 Hw)) as Hp.
    destruct (handle_frame id text (pl_messenger p)) as [answer s]. by case_match.
  - unfold portal_inactivity_check. pose proof (box_inactivity n _ (proj1 Hw)) as Hb.
    pose proof (parts_inactivity max_rooms ttl limits n _ (proj2 Hw)) as Hp. by case_match.
  - by apply serving_bootstrap.
  - by apply serving_start.
  - by apply serving_finish.
  - by apply serving_issue.
  - by apply serving_issue_transport.
  - by apply serving_consume.
  - by apply serving_consume_for.
  - by apply serving_session.
  - by apply serving_logout.
  - by apply serving_logout_transport.
  - by apply serving_sweep.
  - by apply serving_connect.
  - done.
Qed.

(** ** Runs *)

Lemma issued_expiries_sub invites codes :
  issued_codes invites = Some codes → dom (issued_expiries invites) ⊆ codes.
Proof.
  unfold issued_codes, issued_expiries. case_bool_decide; [done|]. intros [= <-].
  assert (∀ (l : list IssuedInvite) (m : gmap CodeId Z),
    dom (foldl (λ m i, match iv_expires_at i with
                       | Some expiry => <[derive_code_id (iv_capability i) := expiry]> m
                       | None => m end) m l) ⊆
    dom m ∪ (list_to_set ((λ i, derive_code_id (iv_capability i)) <$> l) : gset CodeId)) as Hl.
  { induction l as [|i l IH]; intros m; simpl; [set_solver|]. etrans; [apply IH|].
    destruct (iv_expires_at i); [rewrite dom_insert_L|]; set_solver. }
  etrans; [apply Hl|]. rewrite dom_empty_L. set_solver.
Qed.

Lemma portal_new_ok max_rooms pending_ttl receipt_ttl now limits invites p :
  portal_new max_rooms pending_ttl receipt_ttl now invites = Some p →
  auth_ok p ∧ whole max_rooms pending_ttl limits p.
Proof.
  intros (codes & Hc & [= <-])%bind_Some. split.
  - split; unfold pl_creds, pl_sessions, pl_transports; simpl; try done;
      try (intros *; rewrite ?lookup_empty; done). by apply issued_expiries_sub.
  - split; [apply mailbox_ok_new|]. split; [|split; [apply directs_ok_empty|done]].
    split; [apply reach_new|apply rtc_refl|apply queue_start].
Qed.

Lemma run_auth limits p p' : auth_ok p → rtc (portal_next limits) p p' → auth_ok p'.
Proof. intros Ha Hr. induction Hr as [|p1 p2 p3 [e Hs] _ IH]; [done|]. by eapply IH, step_sane. Qed.
Lemma run_whole max_rooms ttl limits p p' :
  whole max_rooms ttl limits p → rtc (portal_next limits) p p' → whole max_rooms ttl limits p'.
Proof. intros Hw Hr. induction Hr as [|p1 p2 p3 [e Hs] _ IH]; [done|]. by eapply IH, step_whole. Qed.

(** Accounts are kept and come from invites, which are not renewed. *)
Record accounts_kept (p p' : Portal) : Prop := mkAccountsKept {
  ak_creds : pl_creds p ⊆ pl_creds p';
  ak_codes : pl_available_codes p' ⊆ pl_available_codes p;
  ak_new c : is_Some (pl_creds p' !! c) → is_Some (pl_creds p !! c) ∨ c ∈ pl_available_codes p
}.
Definition nothing_left (p : Portal) : Prop := pl_creds p = ∅ ∧ pl_available_codes p = ∅.

Lemma run_accounts limits p p' :
  auth_ok p → rtc (portal_next limits) p p' → accounts_kept p p' ∨ nothing_left p'.
Proof.
  intros Ha Hr. revert Ha. induction Hr as [p|p1 p2 p3 [e Hs] _ IH]; intros Ha; [left; by split; eauto|].
  destruct (step_sane _ _ _ _ Ha Hs) as [Ha2 Hc]. destruct (IH Ha2) as [[C V N]|]; [|by right].
  destruct Hc as [[C1 V1 N1 _ _ _]|[C1 V1 _ _ _]].
  - left. split; [by etrans|by etrans|]. intros c [Hc|Hc]%N; [by apply N1|right; by apply V1].
  - right. split; [|rewrite V1 in V; set_solver].
    apply map_empty. intros c. apply eq_None_not_Some. intros [Hc|Hc]%N.
    + rewrite C1, lookup_empty in Hc. by destruct Hc.
    + rewrite V1 in Hc. set_solver.
Qed.

(** A digest no ticket has, and that is not drawn again. *)
Definition spent (digest : bytes) (p : Portal) : Prop :=
  pl_ws_tickets p !! digest = None ∧ ¬ drawn_ticket (pl_ticks p) digest.
Lemma drawn_later n n' d : (n ≤ n')%nat → drawn_ticket n' d → drawn_ticket n d.
Proof. intros Hn (m & r & ? & ? & ?). exists m, r. split; [lia|done]. Qed.
Lemma run_spent limits d p p' :
  auth_ok p → rtc (portal_next limits) p p' → spent d p → spent d p'.
Proof.
  intros Ha Hr. revert Ha. induction Hr as [|p1 p2 p3 [e Hs] _ IH]; intros Ha Hd; [done|].
  destruct (step_sane _ _ _ _ Ha Hs) as [Ha2 Hc]. apply IH; [done|]. destruct Hd as [Hd Hn].
  destruct Hc as [[_ _ _ _ T N]|[_ _ _ T N]].
  - split; [|intros H; eapply Hn, drawn_later; done]. apply eq_None_not_Some. intros [t Ht].
    destruct (T _ _ Ht); [congruence|done].
  - split; [by rewrite T|intros H; eapply Hn, drawn_later; done].
Qed.

(** A redeemed ticket is deleted, by whichever consumption. *)
Definition redeems (ticket : string) (granted : string * AuthSession * ClientPlatform)
    (p p' : Portal) : Prop :=
  consume_ws_ticket ticket p = (Ok granted, p') ∨
  ∃ token, consume_ws_ticket_for_session ticket token p = (Ok granted, p').

Lemma redeem_keeps_deleted t x d p p' :
  redeem_ticket t p = (Ok x, p') → pl_ws_tickets p !! d = None → pl_ws_tickets p' !! d = None.
Proof.
  intros H Hd. assert (acts evolves (redeem_ticket t)) as Hred by (unfold redeem_ticket; act).
  specialize (Hred p). rewrite H in Hred. apply eq_None_not_Some. intros [t1 Ht].
  apply ev_tickets in Hred. simpl in Hred. apply (lookup_weaken _ _ _ _ Ht) in Hred. congruence.
Qed.

Lemma redeems_evolves v x p p' : redeems v x p p' → evolves p p'.
Proof.
  intros [H|[token H]].
  - pose proof (evolving_consume v p) as He. by rewrite H in He.
  - pose proof (evolving_consume_for v token p) as He. by rewrite H in He.
Qed.

Lemma redeems_deletes v x p p' :
  redeems v x p p' → ∃ d, ws_ticket_digest v = Some d ∧ pl_ws_tickets p' !! d = None.
Proof.
  intros [H|[token H]];
    [unfold consume_ws_ticket in H|unfold consume_ws_ticket_for_session in H];
    apply ST_bind_Ok in H as (d & p1 & Hd & H); injection Hd as Hd%ok_or_Ok <-;
    (exists d; split; [done|]);
    apply ST_bind_Ok in H as (now & p2 & _ & H); apply ST_bind_Ok in H as (t & p3 & H3 & H);
    apply ST_bind_Ok in H as (t' & p4 & Ht & H); injection Ht as Ht%ok_or_Ok <-;
    apply (redeem_keeps_deleted _ _ _ _ _ H); unfold with_portal in H3.
  - injection H3 as <- <-. apply lookup_delete_eq.
  - subst t. destruct (_ !! d) as [t1|]; [case_bool_decide|]; injection H3 as H3 <-; [|done..].
    apply lookup_delete_eq.
Qed.
Lemma consume_spent v d p :
  ws_ticket_digest v = Some d → pl_ws_tickets p !! d = None →
  (consume_ws_ticket v p).1 = Err tt ∧
  ∀ token, (consume_ws_ticket_for_session v token p).1 = Err tt.
Proof.
  intros Hv Hd.
  assert (∀ now, prune_ws_tickets_locked now (pl_ws_tickets p) !! d = None) as Hp
    by (intros now; apply eq_None_not_Some; intros [t [Ht _]%retain_lookup_Some]; congruence).
  unfold consume_ws_ticket, consume_ws_ticket_for_session, lift, read_clock, with_relay,
    with_portal, mbind, ST_bind. rewrite Hv. simpl. split; [by rewrite Hp|].
  intros token. by rewrite Hp.
Qed.

(** ** The steps of a login that succeeds *)

Lemma ST_step {S E A B} (m : ST S E A) (k : A → ST S E B) s a s1 :
  m s = (Ok a, s1) → (m ≫= k) s = k a s1.
Proof. intros H. unfold mbind, ST_bind. by rewrite H. Qed.

Lemma prune_run {E} p :
  ∃ p1, prune_opaque_handshakes (E := E) p = (Ok tt, p1) ∧
    pl_relay p1 = set_rl_ticks (S (pl_ticks p)) (pl_relay p) ∧
    pl_opaque_handshakes p1 = live_handshakes (now_ms (pl_ticks p)) (pl_opaque_handshakes p).
Proof. by eexists. Qed.
Lemma active_run {E} c p :
  (∀ token s, pl_sessions p !! token = Some s → as_code_id s = c →
              stale (now_ms (pl_ticks p)) s = true) →
  ∃ p1, code_has_active_session (E := E) c p = (Ok false, p1) ∧
    pl_accounts p1 = pl_accounts p ∧ pl_ticks p1 = S (pl_ticks p).
Proof.
  intros Hold. unfold code_has_active_session, read_clock, with_relay, mbind, ST_bind. simpl.
  match goal with |- context [existsb ?f ?l] => destruct (existsb f l) eqn:Hex end; [|by eexists].
  apply existsb_exists in Hex as (s & Hs%list_elem_of_In%elem_of_hash_values & Hc).
  destruct Hs as [token [Hs Hst]%retain_lookup_Some]. apply bool_decide_eq_true in Hc.
  specialize (Hold token s Hs Hc). unfold pl_ticks in Hold. by rewrite Hold in Hst.
Qed.
Lemma issue_run p c u root created account sid :
  pl_accounts p !! c = Some account → 1 ≤ max_rooms_per_user ≤ 100 →
  60 ≤ session_inactivity_ms / 1000 ≤ 24 * 60 * 60 →
  random_nonzero_session_id (draw_session_ids (pl_ticks p)) = Some sid →
  let token := draw_token (S (pl_ticks p)) in
  ∃ p' now', issue_transport_session c u root created p =
    (Ok (Session sid created max_rooms_per_user (session_inactivity_ms / 1000) u
           (ra_identity_public account) (ra_prekey_id account) (ra_identity_envelope account)), p') ∧
    pl_sessions p' !! token = Some (mkSession c u now') ∧
    pl_transports p' !! sid = Some (mkTransport token root sid).
Proof.
  intros Hacc Hr Hs Hsid. unfold issue_transport_session.
  assert (bool_decide (u32_MAX < max_rooms_per_user)
          || bool_decide (u32_MAX < session_inactivity_ms / 1000)
          || negb (bool_decide (1 ≤ max_rooms_per_user ≤ 100))
          || negb (bool_decide (60 ≤ session_inactivity_ms / 1000 ≤ 24 * 60 * 60)) = false) as ->.
  { unfold u32_MAX in *. by repeat (case_bool_decide; simpl; try lia). }
  unfold refuse_if, unbind_platform, get, next_tick, read_clock, modify, with_relay, lift,
    mbind, ST_bind. simpl. rewrite Hacc. simpl. fold (pl_ticks p). rewrite Hsid. simpl.
  eexists _, _. split; [reflexivity|]. unfold pl_sessions, pl_transports. simpl.
  split; apply lookup_insert_eq.
Qed.
End events.

(** ** Theorems *)

Section theorems.
Context {HO : HashOrder} {B64 : Base64} {ENV : RelayEnv} {JSON : SerdeJson} {FJ : FrameJson}.
Context {KEYS : Keys} {DRAWS : Draws} {CJ : ClientJson} {IDS : DirectIds}.
Context {AUTH : AuthEnv} {OPAQUE : OpaqueSuite} {REL : ReleaseEnv}.
Context (max_rooms pending_ttl receipt_ttl now : Z) (limits : AttachmentLimits).
Context (invites : list IssuedInvite) (p0 : Portal).

(** The states of a relay that started with the invites. *)
Definition portal_reaches (p : Portal) : Prop :=
  portal_new max_rooms pending_ttl receipt_ttl now invites = Some p0 ∧
  rtc (portal_next limits) p0 p.

Lemma reaches_auth p : portal_reaches p → auth_ok p.
Proof.
  intros [H0 Hr]. apply (portal_new_ok _ _ _ _ limits) in H0 as [? _]. by eapply run_auth.
Qed.

(** C1: the whole relay stays well formed.  Whatever it has served since its start
    with its invites (frames of clients, registrations, logins and logouts over
    HTTP and the sealed transport, tickets, connections, writer steps, attachment
    requests, sweeps and wipes), in whatever order and with whatever clock
    readings: its rooms and attachments are well formed and within their limits,
    its outbound counters are exact (up to what was in a channel when its writer
    ended), its mailbox and its conversations are well
    formed, no code is both an invite and an account, no two accounts have the
    same name up to case, every session is of an account under the account's name
    and no account has two, every transport session belongs to a session, every
    pending login names its account, a session has at most one ticket, and
    tickets, handshakes and limiter entries are within their limits. *)
Theorem portal_invariant (p : Portal) :
  limits_sane limits → portal_reaches p →
  authority_ok (rl_mls_rooms (pl_relay p)) ∧ store_ok limits (rl_attachments (pl_relay p)) ∧
  outbound_ok (rl_outbound (pl_relay p)) ∧ mailbox_ok (ms_mailbox (pl_messenger p)) ∧
  directs_ok (ms_direct_catalog (pl_messenger p)) ∧ ms_room_catalog (pl_messenger p) = ∅ ∧
  auth_ok p.
Proof.
  intros Hl Hp. pose proof (reaches_auth p Hp) as Ha. destruct Hp as [H0 Hr].
  apply (portal_new_ok _ _ _ _ limits) in H0 as [_ Hw].
  destruct (run_whole _ _ _ _ _ Hw Hr) as [Hb ([H1 H2 H3] & Hd & Hc)].
  apply reachable_ok in H1 as [H1 _]. apply queue_reachable_ok in H3.
  by destruct (attachments_reachable_ok _ _ Hl H2) as [H4 _].
Qed.

(** C3: an invite is redeemed at most once, and accounts are permanent.  Between
    two moments of a relay, either every account is kept with its name and
    password file, every account that appeared was an invite that was there
    before, no invite appeared, and no account is an invite; or the relay was
    wiped, and then there is neither an account nor an invite, ever again. *)
Theorem invite_redeemed_once (p p' : Portal) :
  portal_reaches p → rtc (portal_next limits) p p' →
  (accounts_kept p p' ∧ ∀ c, c ∈ pl_available_codes p' → pl_accounts p' !! c = None) ∨
  (nothing_left p' ∧ ∀ p'', rtc (portal_next limits) p' p'' → nothing_left p'').
Proof.
  intros Hp Hr. pose proof (reaches_auth p Hp) as Ha. pose proof (run_auth _ _ _ Ha Hr) as Ha'.
  destruct (run_accounts _ _ _ Ha Hr) as [Hk|Hn]; [left|right]; (split; [done|]).
  - intros c Hc. apply creds_None. by apply (ao_codes _ Ha').
  - intros p'' Hr'. destruct (run_accounts _ _ _ Ha' Hr') as [[_ V N]|]; [|done].
    destruct Hn as [Hc Hv]. rewrite Hv in V. split; [|set_solver].
    apply map_empty. intros c. apply eq_None_not_Some. intros [H|H]%N.
    + rewrite Hc, lookup_empty in H. by destruct H.
    + rewrite Hv in H. set_solver.
Qed.

(** C2: nobody is logged in without proof.  When an event leaves a session of a
    code under a token that was not a session of the code before, the event
    finished an OPAQUE login of that code's account, or a registration of the
    code, that had begun less than a minute before on this relay: the login
    finished under the server state that was stored for it, or the code was an
    unredeemed invite and the identity that was registered signed the challenge
    that was stored for it.  What was stored is gone, so that it is used once;
    the session carries the name of the account, and
    the account has no other session. *)
Theorem session_needs_proof (p p' : Portal) (e : PortalEvent) (token : string) (s : AuthSession) :
  portal_reaches p → portal_step limits p e p' → pl_sessions p' !! token = Some s →
  (∀ s0, pl_sessions p !! token = Some s0 → as_code_id s0 ≠ as_code_id s) →
  evidence e p (as_code_id s) ∧ handshake_spent e p' ∧ named (as_code_id s) (as_username s) p' ∧
  ∀ token' s', pl_sessions p' !! token' = Some s' → as_code_id s' = as_code_id s → token' = token.
Proof.
  intros Hp Hstep Hs Hnew. destruct (step_sane _ _ _ _ (reaches_auth p Hp) Hstep) as [Ha Hc].
  assert (handshake_spent e p') by (destruct Hstep; [apply event_spends|done]).
  split; [|split_and!; [done|by eapply (ao_sessions _ Ha)|intros; by eapply (ao_one_session _ Ha)]].
  destruct Hc as [Hsn|Hw]; [|by rewrite (wp_sessions _ _ Hw), lookup_empty in Hs].
  destruct (sn_sessions _ _ _ Hsn _ _ Hs) as [(s0 & Hs0 & E)|He]; [|done]. by destruct (Hnew _ Hs0).
Qed.

(** C4: a ticket opens one connection.  Once a ticket has been redeemed, by its
    value alone or for the session that presented it over the sealed transport, it
    is refused by both consumptions and for whatever session, whatever the relay
    has served in between, provided the random bytes of the tickets drawn since
    are not those of the ticket. *)
Theorem ticket_redeemed_once (p p' p'' : Portal) (ticket : string)
    (granted : string * AuthSession * ClientPlatform) :
  portal_reaches p → redeems ticket granted p p' →
  rtc (portal_next limits) p' p'' →
  (∀ n random, (pl_ticks p' ≤ n)%nat → random ∈ draw_tickets n →
     ws_ticket_digest (b64_encode random) ≠ ws_ticket_digest ticket) →
  (consume_ws_ticket ticket p'').1 = Err tt ∧
  ∀ token, (consume_ws_ticket_for_session ticket token p'').1 = Err tt.
Proof.
  intros Hp Hc Hr Hd. destruct (redeems_deletes _ _ _ _ Hc) as (d & Ed & Hnone).
  assert (auth_ok p') as Ha by (eapply auth_ok_evolves, (reaches_auth p Hp); by eapply redeems_evolves).
  apply (consume_spent _ d); [done|]. apply (run_spent _ d _ _ Ha Hr). split; [done|].
  intros (n & random & Hn & Hin & E). apply (Hd n random); [done..|]. congruence.
Qed.

(** C5: a proven login succeeds.  A login that was begun less than a minute before
    on this relay, whose finalization OPAQUE accepts, is granted when no session
    of the account is live: the answer is the identity of the account, and
    afterwards the drawn token is a session of the account and the drawn
    identifier a transport session of that token under the agreed root. *)
Theorem login_succeeds (p : Portal) (id : Uuid) (c : CodeId) (u : string) (state : bytes)
    (at' : Z) (created : bool) (finalization root sid : bytes) :
  portal_reaches p → pl_opaque_handshakes p !! id = Some (Login c u state at' created) →
  saturating_sub (now_ms (pl_ticks p)) at' < OPAQUE_HANDSHAKE_TTL_MS →
  finalization ≠ [] → len finalization ≤ ACCOUNT_BODY_LIMIT_BYTES →
  opaque_server_finish_login state finalization = Some root →
  (∀ token s, pl_sessions p !! token = Some s → as_code_id s = c →
              stale (now_ms (S (pl_ticks p))) s = true) →
  1 ≤ max_rooms_per_user ≤ 100 → 60 ≤ session_inactivity_ms / 1000 ≤ 24 * 60 * 60 →
  random_nonzero_session_id (draw_session_ids (S (S (pl_ticks p)))) = Some sid →
  let token := draw_token (S (S (S (pl_ticks p)))) in
  ∃ account p' now',
    pl_accounts p !! c = Some account ∧ ra_username account = u ∧
    bootstrap_finish_login id finalization p =
      (Ok (Session sid created max_rooms_per_user (session_inactivity_ms / 1000) u
             (ra_identity_public account) (ra_prekey_id account) (ra_identity_envelope account)),
       p') ∧
    pl_sessions p' !! token = Some (mkSession c u now') ∧
    pl_transports p' !! sid = Some (mkTransport token root sid).
Proof.
  intros Hp Hh Hfresh Hne Hlen Hroot Hold Hrooms Hsec Hsid token.
  destruct (ao_logins _ (reaches_auth p Hp) _ _ _ _ _ _ Hh) as [pw Hc].
  apply creds_lookup in Hc as (account & Hacc & Hu & _).
  destruct (prune_run (E := ()) p) as (p1 & E1 & R1 & H1).
  assert (pl_opaque_handshakes p1 !! id = Some (Login c u state at' created)) as Hh1.
  { rewrite H1. apply retain_lookup_Some. split; [done|]. by apply bool_decide_eq_true. }
  set (taken := set_pl_handshakes (delete id (pl_opaque_handshakes p1))
                  (pl_registration_credential_requests p1) p1).
  assert (pl_relay taken = set_rl_ticks (S (pl_ticks p)) (pl_relay p)) as R2 by done.
  destruct (active_run (E := ()) c taken) as (p2 & E2 & A2 & N2).
  { unfold pl_sessions, pl_ticks. by rewrite R2. }
  set (cleared := set_pl_login_limits (delete c (pl_login_limits p2)) p2).
  assert (pl_accounts cleared !! c = Some account) as Hacc'.
  { change (pl_accounts p2 !! c = Some account). rewrite A2. unfold pl_accounts. by rewrite R2. }
  assert (pl_ticks cleared = S (S (pl_ticks p))) as Hn.
  { change (pl_ticks p2 = S (S (pl_ticks p))). rewrite N2. unfold pl_ticks at 1. by rewrite R2. }
  destruct (issue_run cleared c u root created account sid) as (p3 & now' & E3 & S3 & T3);
    [done..|by rewrite Hn|]. rewrite Hn in S3, T3.
  exists account, (touch (E := ()) p3).2, now'. split_and!; [done|done| |done|done].
  assert (bounded_raw finalization ACCOUNT_BODY_LIMIT_BYTES tt = Ok finalization) as Hraw.
  { unfold bounded_raw. rewrite !bool_decide_false; [done|lia|done]. }
  unfold bootstrap_finish_login. rewrite (ST_step _ _ _ _ _ E1), (ST_step _ _ p1 _ taken)
    by (unfold take_handshake; by rewrite Hh1). cbv beta iota.
  rewrite (ST_step (lift (Ok (c, u, state, created))) _ taken _ taken eq_refl). cbv beta iota.
  rewrite Hraw, (ST_step (lift (Ok finalization)) _ taken _ taken eq_refl), Hroot. cbn [ok_or].
  rewrite (ST_step (lift (Ok root)) _ taken _ taken eq_refl), (ST_step _ _ _ _ _ E2).
  rewrite (ST_step (refuse_if false tt) _ p2 tt p2 eq_refl).
  rewrite (ST_step (clear_login_limit c) _ p2 tt cleared eq_refl). by rewrite (ST_step _ _ _ _ _ E3).
Qed.
End theorems.

(** ** A concrete run *)

(** An invite is redeemed over the sealed transport, its account is logged into,
    and a ticket is issued and redeemed.  Base64 text is the bytes and as many
    letters as it takes, an OPAQUE login is finished by showing the server its own
    state, the releases are those of [ReleaseRun], and the rest is as in
    [DirectRun]. *)
Module AccountRun.
Import DirectRun.

#[local] Instance base64 : Base64 := {|
  b64_encode b :=
    string_of_list_byte (b ++ replicate ((4 * length b + 2) / 3 - length b) Byte.x41)%nat;
  b64_decode s := Some (take (3 * String.length s / 4)%nat (list_byte_of_string s))
|}.
Definition invite : IssuedInvite := mkInvite (replicate 32 Byte.x63) (Some 3600).
Definition letters (b : byte) : bytes := replicate 32 b.

#[local] Instance auth : AuthEnv := {|
  node_public_key := letters Byte.x6e;
  invite_code_pepper := letters Byte.x70;
  session_inactivity_ms := 900000;
  max_rooms_per_user := 5;
  hmac_sha256 key text := drop (length text - 32) text;
  release_store _ := ReleaseRun.s1;
  uuid_text _ := "handshake";
  draw_uuid n := [Z_byte (Z.of_nat n)];
  draw_token n := "token";
  draw_account_id _ _ := "abcdef";
  draw_challenge _ := letters Byte.x64;
  draw_tickets n := if Nat.ltb n 30 then [letters Byte.x74] else [letters Byte.x75];
  draw_session_ids _ := [letters Byte.x73]
|}.
#[local] Existing Instance ReleaseRun.env.
#[local] Instance opaque : OpaqueSuite := {|
  opaque_server_registration_response request _ := Some request;
  opaque_server_finish_registration upload := Some upload;
  opaque_server_start_login _ file request _ := Some (file ++ request, request);
  opaque_server_finish_login state finalization :=
    if bool_decide (finalization = state) then Some (letters Byte.x72) else None
|}.

Definition new : option Portal := portal_new 4 86400000 600000 5 [invite].
Definition p0 : Portal := default (wipe_credentials (mkPortal start ∅ ∅ ∅ ∅ ∅ ∅)) new.
Definition request : bytes := [Byte.x51].
Definition begun : AccountBootstrapAction := Start (iv_capability invite) request request.
Definition p1 : Portal := portal_run (EvBootstrap begun) p0.
Definition started : Uuid := default [] (head (elements (dom (pl_opaque_handshakes p1)))).
Definition registered : AccountBootstrapAction :=
  FinishRegistration started [Byte.x46] (bundle Byte.x01 0) (prekey 0) envelope signature.
Definition p2 : Portal := portal_run (EvBootstrap registered) p1.
Definition continued : Uuid := default [] (head (elements (dom (pl_opaque_handshakes p2)))).
Definition finished : AccountBootstrapAction := FinishLogin continued [Byte.x46; Byte.x51].
Definition p3 : Portal := portal_run (EvBootstrap finished) p2.
Definition build : BuildAttestationRequest :=
  mkAttestation "android" "2.1.0" (b64_encode ReleaseRun.signature).
Definition issued : PortalEvent := EvIssueTransport (letters Byte.x73) "token" build.
Definition p4 : Portal := portal_run issued p3.
Definition ticket : string := b64_encode (letters Byte.x74).
Definition p5 : Portal := (consume_ws_ticket ticket p4).2.

Definition stores (p : Portal) : nat * nat * nat * nat * nat :=
  (size (pl_available_codes p), size (pl_accounts p), size (pl_opaque_handshakes p),
   size (pl_sessions p), size (pl_ws_tickets p)).

Example redeemed :
  (stores p0, stores p1, stores p2, stores p3, stores p4, stores p5) =
  ((1, 0, 0, 0, 0), (1, 0, 1, 0, 0), (0, 1, 1, 0, 0), (0, 1, 0, 1, 0), (0, 1, 0, 1, 1),
   (0, 1, 0, 1, 0))%nat.
Proof. vm_compute. reflexivity. Qed.

Lemma next_served e p : event_fresh e p → portal_next AttachmentRun.limits p (portal_run e p).
Proof. intros Hf. exists e. by apply Served. Qed.
Abbreviation reaches := (portal_reaches 4 86400000 600000 5 AttachmentRun.limits [invite] p0).
Lemma reaches_next e p : reaches p → event_fresh e p → reaches (portal_run e p).
Proof. intros [H0 Hr] Hf. split; [done|]. eapply rtc_r; [exact Hr|by apply next_served]. Qed.
Lemma reaches_p0 : reaches p0.
Proof. split; [vm_compute; reflexivity|apply rtc_refl]. Qed.
Lemma reaches_p2 : reaches p2.
Proof.
  exact (reaches_next (EvBootstrap registered) p1 (reaches_next (EvBootstrap begun) p0 reaches_p0 I) I).
Qed.
Lemma reaches_p4 : reaches p4.
Proof. exact (reaches_next issued p3 (reaches_next (EvBootstrap finished) p2 reaches_p2 I) I). Qed.

Lemma portal_invariant_witness :
  size (pl_ws_tickets p4) = 1%nat ∧ size (pl_sessions p4) = 1%nat ∧ auth_ok p4 ∧
  mailbox_ok (ms_mailbox (pl_messenger p4)).
Proof.
  split; [vm_compute; reflexivity|]. split; [vm_compute; reflexivity|].
  destruct (portal_invariant 4 86400000 600000 5 AttachmentRun.limits [invite] p0 p4
              AttachmentRun.limits_fine reaches_p4) as (_ & _ & _ & Hm & _ & _ & Ha).
  exact (conj Ha Hm).
Defined.

Lemma invite_redeemed_once_witness :
  size (pl_available_codes p0) = 1%nat ∧ size (pl_accounts p2) = 1%nat ∧ accounts_kept p0 p2 ∧
  ∀ c, c ∈ pl_available_codes p2 → pl_accounts p2 !! c = None.
Proof.
  split; [vm_compute; reflexivity|]. split; [vm_compute; reflexivity|].
  destruct (invite_redeemed_once 4 86400000 600000 5 AttachmentRun.limits [invite] p0 p0 p2
              reaches_p0 (proj2 reaches_p2)) as [[Hk Hc]|[[Hn _] _]]; [exact (conj Hk Hc)|].
  assert (size (pl_creds p2) = 1%nat) as Hs by (vm_compute; reflexivity).
  rewrite Hn in Hs. discriminate Hs.
Defined.

Definition session : AuthSession := mkSession (derive_code_id (iv_capability invite)) "acct_abcdef" 1000.
Lemma session_needs_proof_witness :
  login_proof p2 continued [Byte.x46; Byte.x51] (as_code_id session) ∧
  pl_opaque_handshakes p3 !! continued = None.
Proof.
  destruct (session_needs_proof 4 86400000 600000 5 AttachmentRun.limits [invite] p0 p2 p3
              (EvBootstrap finished) "token" session reaches_p2
              (Served _ _ (EvBootstrap finished) I)) as (He & Hh & _).
  - vm_compute. reflexivity.
  - intros s0 Hs. vm_compute in Hs. discriminate Hs.
  - exact (conj He Hh).
Defined.

Definition granted : string * AuthSession * ClientPlatform := ("token"%string, session, Android).
Definition p6 : Portal := portal_run issued p5.
Definition p5' : Portal := (consume_ws_ticket_for_session ticket "token" p4).2.
Definition p6' : Portal := portal_run issued p5'.
Lemma issued_draws n random :
  (31 ≤ n)%nat → random ∈ draw_tickets n → ws_ticket_digest (b64_encode random) ≠ ws_ticket_digest ticket.
Proof.
  intros Hn Hr. unfold draw_tickets in Hr. simpl in Hr.
  assert ((n <? 30)%nat = false) as Hl by (apply Nat.ltb_ge; lia).
  change (n <=? 29)%nat with (n <? 30)%nat in Hr. rewrite Hl in Hr.
  apply list_elem_of_singleton in Hr as ->. vm_compute. discriminate.
Qed.
Lemma ticket_redeemed_once_witness :
  size (pl_ws_tickets p6) = 1%nat ∧ (consume_ws_ticket ticket p6).1 = Err tt ∧
  (consume_ws_ticket_for_session ticket "token" p6').1 = Err tt.
Proof.
  split; [vm_compute; reflexivity|]. split.
  - assert (consume_ws_ticket ticket p4 = (Ok granted, p5)) as Hc by (vm_compute; reflexivity).
    destruct (ticket_redeemed_once 4 86400000 600000 5 AttachmentRun.limits [invite] p0 p4 p5 p6
                ticket granted reaches_p4 (or_introl Hc)) as [H _].
    + eapply rtc_l; [exact (next_served issued p5 I)|apply rtc_refl].
    + assert (pl_ticks p5 = 31%nat) as E by (vm_compute; reflexivity). rewrite E. exact issued_draws.
    + exact H.
  - assert (consume_ws_ticket_for_session ticket "token" p4 = (Ok granted, p5')) as Hc
      by (vm_compute; reflexivity).
    destruct (ticket_redeemed_once 4 86400000 600000 5 AttachmentRun.limits [invite] p0 p4 p5' p6'
                ticket granted reaches_p4 (or_intror (ex_intro _ "token"%string Hc))) as [_ H].
    + eapply rtc_l; [exact (next_served issued p5' I)|apply rtc_refl].
    + assert (pl_ticks p5' = 31%nat) as E by (vm_compute; reflexivity). rewrite E. exact issued_draws.
    + exact (H "token"%string).
Defined.

Lemma login_succeeds_witness :
  ∃ result p', bootstrap_finish_login continued [Byte.x46; Byte.x51] p2 = (Ok result, p') ∧
    ∃ now', pl_sessions p' !! "token"%string = Some (mkSession (as_code_id session) "acct_abcdef" now').
Proof.
  destruct (login_succeeds 4 86400000 600000 5 AttachmentRun.limits [invite] p0 p2 continued
              (as_code_id session) "acct_abcdef" [Byte.x46; Byte.x51] 1000 true
              [Byte.x46; Byte.x51] (letters Byte.x72) (letters Byte.x73) reaches_p2)
    as (account & p' & now' & _ & _ & E & Hs & _).
  - vm_compute. reflexivity.
  - vm_compute. reflexivity.
  - discriminate.
  - vm_compute. discriminate.
  - vm_compute. reflexivity.
  - intros token s Hs. assert (pl_sessions p2 = ∅) as H by (vm_compute; reflexivity).
    rewrite H, lookup_empty in Hs. discriminate Hs.
  - vm_compute. split; discriminate.
  - vm_compute. split; discriminate.
  - vm_compute. reflexivity.
  - eexists _, p'. split; [exact E|]. exists now'. exact Hs.
Defined.
End AccountRun.
